(* ===== verification/_CoqProject ===== *)
-Q . S2P
Prelude.v
IOBuffer.v
ByteOrder.v
StdMap.v
StrUtils.v
Base64.v
WebSocketParser.v
WebSocketFrames.v
Channel.v
Codec.v
LineCodec.v
RawCodec.v
HttpMessage.v
HttpParser.v
HttpCodec.v
WebSocketCodec.v
Maglev.v
Routers.v
ClientChannel.v
EventLoop.v
Connector.v
Client.v
Server.v
BeCursor.v
BeIndexer.v
Numerics.v
CheckedMath.v
ClampedMath.v
TimeDelta.v
IPAddress.v
Endpoint.v
UrlUtils.v
Acceptor.v
TimerWheel.v
TimerSpec.v
MessageLoop.v
EventPump.v
PrTime.v
PrParse.v
PrRoundtrip.v
Resp.v
RespData.v
RedisCodec.v
LinkedList.v
CoRunner.v
CoSync.v
Crc.v
Sha1.v
Md5.v
Murmur.v
Sketches.v
BitMap.v
InvertedIndexer.v
InvertedProofs.v
InvertedQuery.v
DocumentJson.v
LruCache.v
UrlParser.v
UrlProofs.v
UrlRoundtrip.v
MysqlConnect.v
MysqlProofs.v
