(* ===== verification/Prelude.v ===== *)
(** * ltio: a verification development for the LightingIO framework

    ltio is a C++ framework for network services: message loops with timers
    and a descriptor multiplexer, channels and codecs on top of them, clients
    with connection pools and routers, servers, and a few stand-alone
    components.  Paths below are relative to src/.

    ** How the parts work together

    A message loop (base/message_loop) runs on one thread.  It sleeps in the
    event pump until a descriptor is ready or a timer is due, then runs the
    handlers and the posted tasks.  A channel (net_io/channel, tcp_channel) is
    a socket with an input and an output [IOBuffer]; it is a handler of the
    loop.  A codec service (net_io/codec) owns a channel and turns its bytes
    into messages; there is one per protocol.  On the client side a connector
    dials, a client keeps a pool of client channels, which match responses with
    requests, and a router picks a client.  On the server side an acceptor
    listens, an I/O service owns the codecs of the accepted connections and a
    server owns the services.

    ** Conventions

    - A w-bit integer is a [Z]; the wrap-around is written out ([u8] .. [u64],
      [i32], [i64], and the operators [+64] and [-64]).  Bytes are integers and
      strings are lists of them.
    - Methods are functions from the object's state to its new state.  [None]
      is a failed CHECK, an exception, or what C++ leaves undefined (an access
      out of bounds, a dangling pointer); each file says which.  Every theorem
      that says [= Some ..] thereby says that none of these happens.
    - What is not under src/ is a parameter: the kernel's answers, the clock,
      random numbers, the C library's name resolution and calendar, zlib,
      OpenSSL.  Laws assumed of a parameter are section hypotheses or the
      fields of a class, and every property that has one has a witness with a
      concrete instance.
    - What the program tells the outside (calls of a delegate or a handler,
      tasks posted to a loop) is a trace, so that a theorem can say how often
      and in which order it happens.
    - Loops that are not structural run on fuel.  The definitions pass fuel
      computed from the input (the length of the data, of the socket script,
      of the posting lists, one more than the number of passes the loop can
      make), and theorems show that the result is not the exhausted one.
    - Sequences of operations are lists of operations run by a fold, or step
      relations with their reachable states; interleavings of threads or of
      posted tasks are the nondeterminism of the step relation.

    ** The files

    Foundations.
    - Prelude: machine integers, the option monad, list and string lemmas, the
      tactics and hint databases [machine] and [lists] shared by all files.
    - IOBuffer (net_io/io_buffer): the byte buffer; [IOBuffer_refines_queue]
      shows that it is a queue of bytes, and [ByteQueue] is that interface.
    - ByteOrder (base/sys/byteorders.h), StdMap (the ordered map),
      StrUtils (base/utils/string), Base64 (base/utils/base64).
    - Numerics, CheckedMath, ClampedMath (base/numerics): range checks,
      checked and saturating arithmetic for the eight integer types.  Results
      that are reported valid are exact, with every toolchain, on the operand
      types [op_ok] names.
    - TimeDelta (base/time), PrTime, PrParse, PrRoundtrip (base/time/nspr):
      durations, the calendar and the date parser.  Imploding agrees with a
      day-by-day calendar; printed dates parse back, in every zone but -0001.

    The loop.
    - Channel (base/message_loop/fd_event, net_io/channel, tcp_channel): event
      interests and the TCP channel on a socket given as a script of answers.
      Nothing is lost, duplicated or reordered on the way out.
    - EventLoop (fdev_mgr, io_mux_epoll, event_pump): the interest list of the
      kernel follows the events, except where the kernel refused the last call on a
      descriptor, and a report calls the handler of the event installed for its
      descriptor and no other.
    - TimerWheel, TimerSpec (thirdparty/timeout): the hierarchical wheel, and
      its refinement of a set of timers with deadlines.
    - EventPump (event_pump, timeout_event): events on that wheel; delayed
      tasks run once, the pump never oversleeps.
    - MessageLoop (message_loop, queue/task_queue.h): posting from other
      threads as interleaved atomic steps; no wake-up is lost.
    - LinkedList (base/queue/linked_list.h, double_linked_list.h): the intrusive
      lists on a heap of nodes implement plain lists.
    - CoRunner (base/coroutine/co_runner): the coroutine scheduler of a loop; no
      task is lost or run twice, and exactly which runs abort.
    - CoSync (co_mutex, wait_group, io_event): waiting in coroutines; mutual
      exclusion in the order of arrival, as long as nobody else resumes a coroutine
      that waits in the mutex; waiting for a group or a descriptor.

    Codecs.
    - Codec (net_io/codec/codec_service), LineCodec, RawCodec.
    - WebSocketParser, WebSocketFrames, WebSocketCodec (codec/websocket): the
      incremental parser is equivalent to a byte automaton, so that it does not
      matter how the stream is cut, and the data messages of the peer reach the
      handler, whole or in fragments.
    - HttpMessage, HttpParser, HttpCodec (codec/http): messages, the callbacks
      that build them, and the service.
    - Resp, RespData, RedisCodec (thirdparty/resp, codec/redis): the RESP
      decoder and its storage, the encoder and the redis client codec.

    Clients and servers.
    - ClientChannel, Connector, Client (net_io/clients): every request of
      an asynchronous channel on the raw codec is answered exactly once, every dial
      is reported once, the pool recovers.
    - Routers, Maglev (clients/router, base/load_balance).
    - Server, Acceptor (io_service, server, socket_acceptor): connections are
      counted, and stopping completes in whatever order the loops run.
    - IPAddress, Endpoint, UrlUtils (net_io/base, socket_utils, url_utils).
    - UrlParser, UrlProofs, UrlRoundtrip (thirdparty/url-parser): the URL parser;
      every field lies in the buffer, and a printed URL of less than 2^16 bytes is
      read back.
    - MysqlConnect, MysqlProofs (integration/async_mysql): the state machine of a
      connection; queries are completed in order and none is lost.

    Components.
    - BeCursor, BeIndexer (components/boolean_indexer): the posting
      lists and the scan over them; conjunctions of at most one include expression
      are answered exactly, larger ones can return documents that do not match.
    - Crc, Sha1, Md5, Murmur (thirdparty/hash): table-driven and incremental
      code computes the bit-by-bit or standard definition of each function.
    - Sketches (components/bloomfilter, count_min_sketch): no false negatives,
      and the bounds of an estimate.
    - BitMap, InvertedIndexer, InvertedProofs, InvertedQuery
      (components/inverted_indexer): on string fields, distinct ids and posting
      lists with distinct checksums a query returns exactly the documents whose
      conditions it meets, or fails for one of three reasons that are named.
    - DocumentJson (inverted_indexer/expression): documents as JSON.
    - LruCache (components/lru_cache): a bounded list in the order of last use.

    ** Findings

    Where the code does not do what it means to, a theorem in the file of the
    component exhibits it on a concrete run.

    ** Not modelled

    - HTTP/2 (codec/http/h2) is callbacks of nghttp2, TLS
      (net_io/tcp_channel_ssl, base/crypto) of OpenSSL and gzip (base/utils/gzip)
      of zlib: their behaviour is in libraries that are not in the tree, and
      the code in between only forwards to them.
    - Floating point: the double instantiations of base/numerics, the
      double-valued accessors of durations, components/geo_utils.
    - UDP (net_io/udp_io), the coroutine sockets (net_io/co_so), the WebSocket
      client and the request contexts of the servers, repeating timers, the
      lock-free lists, components/log_metrics, source_loader and utils, and
      the switch of stacks of coroutines (libaco).
    - System calls without logic around them (socket options, the clocks,
      thread creation), logging and dump functions.
    - The vendored packages under thirdparty/ other than timeout and resp,
      which the program only calls; llhttp is a parameter of HttpParser.
    - Examples, benchmarks, unit tests and the playground. *)
From stdpp Require Export base list list_numbers numbers option.
From Stdlib Require Export ZArith Lia.
From Stdlib Require Import String Ascii.
Export String.StringSyntax.

#[global] Open Scope Z_scope.

(** ** Machine integers

    Unsigned arithmetic wraps modulo [2^w]; a conversion to a signed type keeps
    the representative in [[-2^(w-1), 2^(w-1))] (two's complement, as on every
    platform the program builds for). *)

Definition u8 (x : Z) : Z := x mod 2 ^ 8.
Definition u16 (x : Z) : Z := x mod 2 ^ 16.
Definition u32 (x : Z) : Z := x mod 2 ^ 32.
Definition u64 (x : Z) : Z := x mod 2 ^ 64.
Definition i32 (x : Z) : Z := (x + 2 ^ 31) mod 2 ^ 32 - 2 ^ 31.
Definition i64 (x : Z) : Z := (x + 2 ^ 63) mod 2 ^ 64 - 2 ^ 63.

Declare Scope ltio_scope.
Delimit Scope ltio_scope with ltio.
Notation "x +64 y" := (u64 (x + y)) (at level 50, left associativity) : ltio_scope.
Notation "x -64 y" := (u64 (x - y)) (at level 50, left associativity) : ltio_scope.
#[global] Open Scope ltio_scope.

Lemma u8_id x : 0 <= x < 256 -> u8 x = x.
Proof. intros; apply Z.mod_small; lia. Qed.
Lemma u16_id x : 0 <= x < 2 ^ 16 -> u16 x = x.
Proof. intros; apply Z.mod_small; lia. Qed.
Lemma u32_id x : 0 <= x < 2 ^ 32 -> u32 x = x.
Proof. intros; apply Z.mod_small; lia. Qed.
Lemma u64_id x : 0 <= x < 2 ^ 64 -> u64 x = x.
Proof. intros; apply Z.mod_small; lia. Qed.
Lemma i32_id x : - 2 ^ 31 <= x < 2 ^ 31 -> i32 x = x.
Proof. intros; unfold i32; rewrite Z.mod_small; lia. Qed.
Lemma i64_id x : - 2 ^ 63 <= x < 2 ^ 63 -> i64 x = x.
Proof. intros; unfold i64; rewrite Z.mod_small; lia. Qed.
Lemma i32_range x : - 2 ^ 31 <= i32 x < 2 ^ 31.
Proof. unfold i32. pose proof (Z.mod_pos_bound (x + 2 ^ 31) (2 ^ 32)). lia. Qed.
Lemma i64_range x : - 2 ^ 63 <= i64 x < 2 ^ 63.
Proof. unfold i64. pose proof (Z.mod_pos_bound (x + 2 ^ 63) (2 ^ 64)). lia. Qed.
Lemma u8_range x : 0 <= u8 x < 256.
Proof. apply Z.mod_pos_bound; lia. Qed.
Lemma u32_range x : 0 <= u32 x < 2 ^ 32.
Proof. apply Z.mod_pos_bound; lia. Qed.
Lemma u64_range x : 0 <= u64 x < 2 ^ 64.
Proof. apply Z.mod_pos_bound; lia. Qed.

(** The facts that decide most side conditions on machine integers. *)
Create HintDb machine.
Create Rewrite HintDb machine.
#[export] Hint Rewrite u8_id u16_id u32_id u64_id i32_id i64_id using lia : machine.
#[export] Hint Resolve u8_range u32_range u64_range : machine.

(** Splits a conjunction and closes what is immediate or arithmetic. *)
Ltac conj := simpl; split_and!; try first [done | lia | by eauto | by eexists].

(** Evaluates the closed differences and comparisons of literals in the goal. *)
Ltac zlit :=
  repeat match goal with
  | |- context [Z.sub (Zpos ?a) (Zpos ?b)] =>
      let v := eval vm_compute in (Z.sub (Zpos a) (Zpos b)) in change (Z.sub (Zpos a) (Zpos b)) with v
  | |- context [Z.eqb (Zpos ?a) 0] => change (Z.eqb (Zpos a) 0) with false
  | |- context [Z.eqb 0 0] => change (Z.eqb 0 0) with true
  end; cbv iota.

Ltac machine := autorewrite with machine in *; try lia.

(** [x & bit] as a condition. *)
Definition has (x bit : Z) : bool := negb (Z.land x bit =? 0).

(** ** Bytes *)

Definition is_byte (b : Z) : Prop := 0 <= b < 256.
Abbreviation bytes_ok := (Forall is_byte).

(** The bytes of a string literal. *)
Fixpoint str (s : string) : list Z :=
  match s with
  | EmptyString => []
  | String a s' => Z.of_nat (nat_of_ascii a) :: str s'
  end.

(** Lengths and slices indexed by [Z], as the code's [size_t] offsets are. *)
Abbreviation zlen l := (Z.of_nat (Datatypes.length l)).
Definition ztake {A} (n : Z) (l : list A) : list A := take (Z.to_nat n) l.
Definition zdrop {A} (n : Z) (l : list A) : list A := drop (Z.to_nat n) l.
(** [slice i j l]: the elements at positions [i], ..., [j - 1]. *)
Definition slice {A} (i j : Z) (l : list A) : list A := ztake (j - i) (zdrop i l).

Lemma zlen_ztake {A} n (l : list A) : 0 <= n <= zlen l -> zlen (ztake n l) = n.
Proof. intros; unfold ztake; rewrite length_take; lia. Qed.
Lemma zlen_zdrop {A} n (l : list A) : 0 <= n <= zlen l -> zlen (zdrop n l) = zlen l - n.
Proof. intros; unfold zdrop; rewrite length_drop; lia. Qed.
Lemma zlen_slice {A} i j (l : list A) : 0 <= i <= j -> j <= zlen l -> zlen (slice i j l) = j - i.
Proof. intros; unfold slice; rewrite zlen_ztake; rewrite ?zlen_zdrop; lia. Qed.

Lemma ztake_zdrop {A} n (l : list A) : ztake n l ++ zdrop n l = l.
Proof. apply take_drop. Qed.
Lemma zdrop_zdrop {A} m n (l : list A) : 0 <= m -> 0 <= n -> zdrop m (zdrop n l) = zdrop (n + m) l.
Proof. intros; unfold zdrop; rewrite drop_drop; f_equal; lia. Qed.
Lemma ztake_0 {A} (l : list A) : ztake 0 l = [].
Proof. reflexivity. Qed.
Lemma zdrop_0 {A} (l : list A) : zdrop 0 l = l.
Proof. reflexivity. Qed.
Lemma ztake_all {A} n (l : list A) : zlen l <= n -> ztake n l = l.
Proof. intros; apply take_ge; lia. Qed.
Lemma zdrop_all {A} n (l : list A) : zlen l <= n -> zdrop n l = [].
Proof. intros; apply drop_ge; lia. Qed.
Lemma ztake_app {A} n (l k : list A) : n = zlen l -> ztake n (l ++ k) = l.
Proof. intros ->; unfold ztake; rewrite Nat2Z.id; apply take_app_length. Qed.
Lemma zdrop_app {A} n (l k : list A) : n = zlen l -> zdrop n (l ++ k) = k.
Proof. intros ->; unfold zdrop; rewrite Nat2Z.id; apply drop_app_length. Qed.

Lemma slice_all {A} (l : list A) : slice 0 (zlen l) l = l.
Proof. unfold slice; rewrite zdrop_0, ztake_all; [done | lia]. Qed.
Lemma slice_empty {A} i (l : list A) : slice i i l = [].
Proof. unfold slice; rewrite Z.sub_diag; apply ztake_0. Qed.

(** A slice of a concatenation, seen from either side. *)
Lemma slice_app_l {A} i j (l k : list A) :
  0 <= i -> j <= zlen l -> slice i j (l ++ k) = slice i j l.
Proof.
  intros Hi Hj. unfold slice, ztake, zdrop.
  destruct (decide (j <= i)).
  { replace (Z.to_nat (j - i)) with 0%nat by lia. by rewrite !take_0. }
  rewrite drop_app_le by lia. rewrite take_app_le; [done | rewrite length_drop; lia].
Qed.
Lemma slice_app_r {A} i j (l k : list A) :
  zlen l <= i -> slice i j (l ++ k) = slice (i - zlen l) (j - zlen l) k.
Proof.
  intros Hi. unfold slice, ztake, zdrop.
  rewrite drop_app_ge by lia.
  f_equal; [lia | f_equal; lia].
Qed.
Lemma slice_split {A} i j k (l : list A) :
  0 <= i <= j -> j <= k -> slice i k l = slice i j l ++ slice j k l.
Proof.
  intros Hij Hjk. unfold slice, ztake.
  replace (zdrop j l) with (drop (Z.to_nat (j - i)) (zdrop i l))
    by (unfold zdrop; rewrite drop_drop; f_equal; lia).
  replace (Z.to_nat (k - i)) with (Z.to_nat (j - i) + Z.to_nat (k - j))%nat by lia.
  by rewrite take_take_drop.
Qed.

(** ** The vector primitives the sources use

    [None] is the undefined behaviour or the exception of the C++ operation. *)

(** [std::vector<char>::max_size()]. *)
Definition max_vector_size : Z := 2 ^ 63 - 1.

(** [v.resize(n)]: truncates or pads with zeros; [std::length_error] beyond
    [max_size()]. *)
Definition vec_resize (n : Z) (v : list Z) : option (list Z) :=
  if max_vector_size <? n then None
  else Some (ztake n v ++ replicate (Z.to_nat (n - zlen v)) 0).

(** [memcpy(&v[off], src, n)]: the target must lie inside the vector. *)
Definition vec_store (off : Z) (src v : list Z) : option (list Z) :=
  if (0 <=? off) && (off + zlen src <=? zlen v)
  then Some (ztake off v ++ src ++ zdrop (off + zlen src) v)
  else None.

(** [std::copy(v.begin() + i, v.begin() + j, v.begin())]. *)
Definition vec_copy_down (i j : Z) (v : list Z) : list Z :=
  slice i j v ++ zdrop (j - i) v.

Lemma vec_store_Some off src v :
  0 <= off -> off + zlen src <= zlen v ->
  vec_store off src v = Some (ztake off v ++ src ++ zdrop (off + zlen src) v).
Proof. intros. unfold vec_store. by destruct (Z.leb_spec 0 off), (Z.leb_spec (off + zlen src) (zlen v)); try lia. Qed.

Lemma slice_cons {A} (d : A) i j (l : list A) :
  0 <= i < j -> j <= zlen l -> slice i j l = nth (Z.to_nat i) l d :: slice (i + 1) j l.
Proof.
  intros Hi Hj. rewrite (slice_split i (i + 1) j) by lia.
  change (nth (Z.to_nat i) l d :: slice (i + 1) j l) with ([nth (Z.to_nat i) l d] ++ slice (i + 1) j l).
  f_equal. unfold slice, ztake, zdrop. replace (Z.to_nat (i + 1 - i)) with 1%nat by lia.
  rewrite (drop_S l (nth (Z.to_nat i) l d)); [done|].
  destruct (nth_lookup_or_length l (Z.to_nat i) d); [done | lia].
Qed.

Lemma ztake_cons {A} n (x : A) l : 0 < n -> ztake n (x :: l) = x :: ztake (n - 1) l.
Proof. intros. unfold ztake. replace (Z.to_nat n) with (S (Z.to_nat (n - 1))) by lia. done. Qed.

(** A computation that returns a value with a property. *)
Lemma returns {A} (o : option A) (P : A -> Prop) :
  match o with Some a => P a | None => False end -> exists a, o = Some a /\ P a.
Proof. destruct o as [a|]; [by exists a | done]. Qed.
