(* ===== verification/IOBuffer.v ===== *)
(** * The growable byte buffer of a channel (net_io/io_buffer.h, io_buffer.cc)

    [IOBuffer] keeps a vector and two indices; the bytes between them are what
    has been written and not yet consumed.  This file translates every method,
    states the class invariant, and proves that the buffer refines a plain
    queue of bytes.  [ByteQueue] is the interface the codecs are verified
    against; [IOBuffer] and the abstract list queue are its two instances. *)
From S2P Require Import Prelude.

Module IOBuffer.

Record IOBuffer := mkIOBuffer {
  read_index_ : Z;    (* uint64_t *)
  write_index_ : Z;   (* uint64_t *)
  data_ : list Z;     (* std::vector<char> *)
}.

Definition kDefaultInitialSize : Z := 512.

Definition IOBuffer_new : IOBuffer :=
  mkIOBuffer 0 0 (replicate (Z.to_nat kDefaultInitialSize) 0).

(** The move constructor: the new buffer and what is left of the source. *)
Definition IOBuffer_move (r : IOBuffer) : IOBuffer * IOBuffer :=
  (mkIOBuffer (read_index_ r) (write_index_ r) (data_ r), mkIOBuffer 0 0 []).

Definition CanReadSize (b : IOBuffer) : Z := write_index_ b -64 read_index_ b.
Definition CanWriteSize (b : IOBuffer) : Z := zlen (data_ b) -64 write_index_ b.
Definition Empty (b : IOBuffer) : bool := CanReadSize b =? 0.

(** [None]: the [CHECK] fails (process abort) or [resize] throws. *)
Definition EnsureWritableSize (len : Z) (b : IOBuffer) : option IOBuffer :=
  if len <=? i64 (zlen (data_ b) -64 write_index_ b) then Some b
  else if len <=? i64 (CanWriteSize b +64 read_index_ b) then
    let data_size := CanReadSize b in
    let b' := mkIOBuffer 0 data_size
                (vec_copy_down (read_index_ b) (write_index_ b) (data_ b)) in
    if len <=? i64 (CanWriteSize b') then Some b' else None
  else
    data' ← vec_resize (write_index_ b +64 len) (data_ b);
    Some (mkIOBuffer (read_index_ b) (write_index_ b) data').

(** The bytes a caller stores through [GetWrite()], [off] past the write index. *)
Definition StoreAtWrite (off : Z) (bs : list Z) (b : IOBuffer) : option IOBuffer :=
  data' ← vec_store (write_index_ b + off) bs (data_ b);
  Some (mkIOBuffer (read_index_ b) (write_index_ b) data').

Definition Produce (len : Z) (b : IOBuffer) : IOBuffer :=
  mkIOBuffer (read_index_ b) (write_index_ b +64 len) (data_ b).

Definition WriteRawData (bs : list Z) (b : IOBuffer) : option IOBuffer :=
  b1 ← EnsureWritableSize (i64 (zlen bs)) b;
  b2 ← StoreAtWrite 0 bs b1;
  Some (Produce (zlen bs) b2).

Definition WriteString (s : list Z) (b : IOBuffer) : option IOBuffer :=
  b1 ← EnsureWritableSize (i64 (zlen s)) b;
  b2 ← StoreAtWrite 0 s b1;
  Some (Produce (zlen s) b2).

(** [Append(T data)]: [obj] is the object representation of [data]. *)
Definition Append (obj : list Z) (b : IOBuffer) : option IOBuffer :=
  let len := u32 (zlen obj) in
  b1 ← EnsureWritableSize len b;
  b2 ← StoreAtWrite 0 obj b1;
  Some (Produce len b2).

Definition AsString (b : IOBuffer) : list Z :=
  slice (read_index_ b) (write_index_ b) (data_ b).

Definition StringView (b : IOBuffer) : list Z :=
  ztake (CanReadSize b) (zdrop (read_index_ b) (data_ b)).

Definition Consume (len : Z) (b : IOBuffer) : IOBuffer :=
  let r := read_index_ b +64 Z.min len (CanReadSize b) in
  if r =? write_index_ b then mkIOBuffer 0 0 (data_ b)
  else mkIOBuffer r (write_index_ b) (data_ b).

(** [std::search(first, last, pat, pat_end)]: the offset of the first match,
    [None] for [last]. *)
Fixpoint search (pat l : list Z) : option Z :=
  if decide (ztake (zlen pat) l = pat) then Some 0
  else match l with
       | [] => None
       | _ :: l' => Z.succ <$> search pat l'
       end.

Definition kCRLF : list Z := [13; 10].

Definition HasALine (b : IOBuffer) : bool :=
  bool_decide (10 ∈ StringView b).

(** The offset from [GetRead()] of the first CRLF, [None] for [NULL]. *)
Definition FindCRLF (b : IOBuffer) : option Z :=
  if CanReadSize b =? 0 then None
  else search kCRLF (slice (read_index_ b) (write_index_ b) (data_ b)).

(** ** The class invariant and the abstraction to a queue of bytes *)

Definition inv (b : IOBuffer) : Prop :=
  0 <= read_index_ b <= write_index_ b /\
  write_index_ b <= zlen (data_ b) <= max_vector_size.

Definition contents (b : IOBuffer) : list Z := AsString b.

(** How many more bytes fit before [resize] would throw. *)
Definition room (b : IOBuffer) : Z := max_vector_size - write_index_ b.

Lemma CanReadSize_eq b : inv b -> CanReadSize b = write_index_ b - read_index_ b.
Proof. unfold inv, CanReadSize, max_vector_size. intros. machine. Qed.

Lemma CanWriteSize_eq b : inv b -> CanWriteSize b = zlen (data_ b) - write_index_ b.
Proof. unfold inv, CanWriteSize, max_vector_size. intros. machine. Qed.

Lemma CanReadSize_contents b : inv b -> CanReadSize b = zlen (contents b).
Proof.
  intros H. rewrite CanReadSize_eq by done. unfold contents, AsString.
  unfold inv in H. rewrite zlen_slice; lia.
Qed.

Lemma StringView_contents b : inv b -> StringView b = contents b.
Proof. intros H. unfold StringView. by rewrite CanReadSize_eq. Qed.

Lemma inv_new : inv IOBuffer_new.
Proof. unfold inv, max_vector_size; simpl. lia. Qed.

Lemma contents_new : contents IOBuffer_new = [].
Proof. reflexivity. Qed.

Lemma slice_copy_down i j (v : list Z) :
  0 <= i <= j -> j <= zlen v -> slice 0 (j - i) (vec_copy_down i j v) = slice i j v.
Proof.
  intros. unfold vec_copy_down.
  rewrite slice_app_l by (rewrite ?zlen_slice; lia).
  rewrite <- (zlen_slice i j v) at 1 by lia. apply slice_all.
Qed.

Lemma zlen_copy_down i j (v : list Z) :
  0 <= i <= j -> j <= zlen v -> zlen (vec_copy_down i j v) = zlen v.
Proof.
  intros. unfold vec_copy_down. rewrite length_app, Nat2Z.inj_add.
  rewrite zlen_slice, zlen_zdrop; lia.
Qed.

(** [EnsureWritableSize] succeeds, keeps the pending bytes and makes room. *)
Lemma EnsureWritableSize_ok b len :
  inv b -> - 2 ^ 63 <= len <= room b ->
  exists b', EnsureWritableSize len b = Some b' /\ inv b' /\
             contents b' = contents b /\ len <= CanWriteSize b' /\ room b <= room b'.
Proof.
  intros Hinv Hlen. pose proof Hinv as (Hr & Hw). unfold room, max_vector_size in *.
  unfold EnsureWritableSize. rewrite (u64_id (zlen _ - _)) by lia. rewrite i64_id by lia.
  rewrite !CanWriteSize_eq by done.
  destruct (Z.leb_spec len (zlen (data_ b) - write_index_ b)) as [H1|H1].
  { exists b. rewrite CanWriteSize_eq by done. split_and!; done || lia. }
  rewrite (u64_id (_ + read_index_ b)) by lia. rewrite i64_id by lia.
  destruct (Z.leb_spec len (zlen (data_ b) - write_index_ b + read_index_ b)) as [H2|H2].
  - set (b' := mkIOBuffer 0 _ _).
    assert (Hi : inv b').
    { unfold inv, b'; simpl. rewrite CanReadSize_eq, zlen_copy_down by lia || done.
      unfold max_vector_size; lia. }
    assert (Hc : CanWriteSize b' = zlen (data_ b) - write_index_ b + read_index_ b).
    { rewrite CanWriteSize_eq by done. simpl. rewrite CanReadSize_eq, zlen_copy_down by lia || done. lia. }
    rewrite Hc, i64_id by lia.
    destruct (Z.leb_spec len (zlen (data_ b) - write_index_ b + read_index_ b)); [|lia].
    exists b'. rewrite Hc. split_and!; [done..| | done |].
    + unfold contents, AsString; simpl. rewrite CanReadSize_eq by done. apply slice_copy_down; lia.
    + simpl. rewrite CanReadSize_eq by done. lia.
  - rewrite u64_id by lia. unfold vec_resize, max_vector_size.
    destruct (Z.ltb_spec (2 ^ 63 - 1) (write_index_ b + len)); [lia|]. simpl.
    rewrite ztake_all by lia. eexists; split; [done|].
    assert (Hi : inv (mkIOBuffer (read_index_ b) (write_index_ b) (data_ b ++
                 replicate (Z.to_nat (write_index_ b + len - zlen (data_ b))) 0))).
    { unfold inv, max_vector_size; simpl. rewrite length_app, length_replicate. lia. }
    rewrite CanWriteSize_eq by done. simpl. split_and!; try done.
    + unfold contents, AsString; simpl. by apply slice_app_l; lia.
    + rewrite length_app, length_replicate. lia.
Qed.

(** Bytes stored at the write index and then produced are appended. *)
Lemma StoreProduce_ok b bs :
  inv b -> zlen bs <= CanWriteSize b ->
  exists b', StoreAtWrite 0 bs b = Some b' /\ inv (Produce (zlen bs) b') /\
             contents (Produce (zlen bs) b') = contents b ++ bs /\
             room (Produce (zlen bs) b') = room b - zlen bs.
Proof.
  intros Hinv Hlen. rewrite CanWriteSize_eq in Hlen by done.
  pose proof Hinv as (Hr & Hw). unfold max_vector_size in Hw.
  unfold StoreAtWrite. rewrite vec_store_Some by lia. rewrite Z.add_0_r. simpl.
  eexists; split; [done|]. unfold Produce, inv, contents, AsString, room, max_vector_size; simpl.
  rewrite u64_id by lia. rewrite !length_app. split_and!.
  - lia.
  - lia.
  - rewrite !Nat2Z.inj_add, zlen_ztake, zlen_zdrop; lia.
  - rewrite !Nat2Z.inj_add, zlen_ztake, zlen_zdrop; lia.
  - rewrite app_assoc. rewrite slice_app_l by (rewrite ?length_app, ?Nat2Z.inj_add, ?zlen_ztake; lia).
    rewrite (slice_split _ (write_index_ b)) by lia. f_equal.
    + rewrite slice_app_l by (rewrite ?zlen_ztake; lia). rewrite <- (ztake_zdrop (write_index_ b) (data_ b)) at 2.
      rewrite slice_app_l; [done | lia | rewrite zlen_ztake; lia].
    + rewrite slice_app_r by (rewrite zlen_ztake; lia). rewrite zlen_ztake by lia.
      rewrite Z.sub_diag, Z.add_simpl_l. apply slice_all.
  - lia.
Qed.

Lemma WriteRawData_ok b bs :
  inv b -> zlen bs <= room b ->
  exists b', WriteRawData bs b = Some b' /\ inv b' /\ contents b' = contents b ++ bs /\
             room b - zlen bs <= room b'.
Proof.
  intros Hinv Hlen. assert (zlen bs < 2 ^ 63) by (destruct Hinv; unfold room, max_vector_size in *; lia).
  unfold WriteRawData. rewrite i64_id by lia.
  destruct (EnsureWritableSize_ok b (zlen bs)) as (b1 & -> & Hi1 & Hc1 & Hw1 & Hr1); [done | lia |].
  destruct (StoreProduce_ok b1 bs) as (b2 & Hs & Hi2 & Hc2 & Hr2); [done | lia |].
  simpl. rewrite Hs. simpl. eexists; split_and!; [done..| congruence | lia].
Qed.

(** Whatever the sizes, an operation that returns keeps the invariant. *)
Lemma EnsureWritableSize_inv b len b' :
  inv b -> len < 2 ^ 63 -> EnsureWritableSize len b = Some b' -> inv b'.
Proof.
  intros Hi Hlen He. destruct (Z.le_gt_cases len (room b)) as [Hr|Hr].
  - destruct (Z.le_gt_cases (- 2 ^ 63) len) as [Hl|Hl].
    + destruct (EnsureWritableSize_ok b len Hi ltac:(lia)) as (b1 & Hb1 & ? & _). congruence.
    + unfold EnsureWritableSize in He. destruct (Z.leb_spec len (i64 (zlen (data_ b) -64 write_index_ b))) as [_|Hx]; [congruence|].
      pose proof (i64_range (zlen (data_ b) -64 write_index_ b)). lia.
  - pose proof Hi as (H1 & H2). unfold room, max_vector_size in *. unfold EnsureWritableSize in He.
    rewrite (u64_id (zlen _ - _)) in He by lia. rewrite i64_id in He by lia. rewrite !CanWriteSize_eq in He by done.
    destruct (Z.leb_spec len (zlen (data_ b) - write_index_ b)); [lia|].
    rewrite (u64_id (_ + read_index_ b)) in He by lia. rewrite i64_id in He by lia.
    destruct (Z.leb_spec len (zlen (data_ b) - write_index_ b + read_index_ b)).
    + set (b1 := mkIOBuffer 0 _ _) in He.
      assert (Hi1 : inv b1).
      { unfold inv, b1; simpl. rewrite CanReadSize_eq, zlen_copy_down by lia || done. unfold max_vector_size; lia. }
      destruct (len <=? i64 (CanWriteSize b1)); [congruence | done].
    + rewrite u64_id in He by lia. unfold vec_resize, max_vector_size in He.
      destruct (Z.ltb_spec (2 ^ 63 - 1) (write_index_ b + len)); [done | lia].
Qed.

Lemma WriteString_inv b s b' : inv b -> WriteString s b = Some b' -> inv b'.
Proof.
  intros Hi. unfold WriteString, StoreAtWrite.
  destruct (EnsureWritableSize (i64 (zlen s)) b) as [b1|] eqn:E; [|done]. simpl.
  pose proof (i64_range (zlen s)). pose proof (EnsureWritableSize_inv b (i64 (zlen s)) b1 Hi ltac:(lia) E) as [H1 H2].
  unfold vec_store. destruct (Z.leb_spec 0 (write_index_ b1 + 0)), (Z.leb_spec (write_index_ b1 + 0 + zlen s) (zlen (data_ b1))); try done.
  simpl. intros [= <-]. unfold inv, Produce, max_vector_size in *. simpl.
  rewrite u64_id by lia. rewrite !length_app, !Nat2Z.inj_add, zlen_ztake, zlen_zdrop by lia. lia.
Qed.

Lemma Consume_ok b len :
  inv b -> 0 <= len ->
  inv (Consume len b) /\ contents (Consume len b) = zdrop len (contents b) /\
  room b <= room (Consume len b).
Proof.
  intros Hinv Hlen. pose proof Hinv as (Hr & Hw). unfold max_vector_size in Hw.
  unfold Consume. rewrite CanReadSize_eq by done. rewrite u64_id by lia.
  destruct (Z.eqb_spec (read_index_ b + Z.min len (write_index_ b - read_index_ b)) (write_index_ b)) as [He|Hne];
    unfold inv, contents, AsString, room, max_vector_size; simpl.
  - split_and!; try lia. rewrite slice_empty, zdrop_all; [done|]. rewrite zlen_slice; lia.
  - assert (Hlt : len < write_index_ b - read_index_ b) by lia.
    rewrite Z.min_l in * by lia. split_and!; try lia.
    rewrite (slice_split (read_index_ b) (read_index_ b + len) (write_index_ b)) by lia.
    rewrite zdrop_app; [done|]. rewrite zlen_slice; lia.
Qed.

(** [std::search] finds the leftmost occurrence. *)
Lemma search_Some pat l i :
  search pat l = Some i ->
  0 <= i /\ exists post, l = ztake i l ++ pat ++ post /\ zlen (ztake i l) = i.
Proof.
  revert i. induction l as [|x l IH]; intros i; cbn [search].
  - case_decide as Hp; [|done]. intros [= <-]. split; [lia|]. exists [].
    unfold ztake in Hp. rewrite take_nil in Hp. by subst.
  - case_decide as Hp.
    + intros [= <-]. split; [lia|]. exists (zdrop (zlen pat) (x :: l)). split; [|done].
      rewrite ztake_0. simpl. rewrite <- Hp at 1. by rewrite ztake_zdrop.
    + destruct (search pat l) as [j|] eqn:E; [|done]. intros [= <-].
      destruct (IH j eq_refl) as (Hj & post & Hl & Hn). split; [lia|]. exists post.
      unfold ztake in *. replace (Z.to_nat (Z.succ j)) with (S (Z.to_nat j)) by lia. simpl.
      split; [by f_equal | lia].
Qed.

Lemma search_None pat l : search pat l = None -> forall pre post, l <> pre ++ pat ++ post.
Proof.
  induction l as [|x l IH]; cbn [search]; case_decide as Hp; try done; intros H pre post Hl.
  - destruct pre, pat; simplify_eq/=.
  - destruct pre as [|y pre]; simplify_eq/=.
    + apply Hp. rewrite Hl. by apply ztake_app.
    + destruct (search pat (pre ++ pat ++ post)) eqn:E; [done|]. by eapply IH.
Qed.

Lemma search_leftmost pat l i :
  search pat l = Some i -> forall pre post, l = pre ++ pat ++ post -> i <= zlen pre.
Proof.
  revert i. induction l as [|x l IH]; intros i; cbn [search]; case_decide as Hp;
    try done; intros H pre post Hl; simplify_eq/=; try lia.
  destruct (search pat l) as [j|] eqn:E; [|done]. simplify_eq/=.
  destruct pre as [|y pre]; simplify_eq/=.
  - exfalso. apply Hp. rewrite Hl. by apply ztake_app.
  - specialize (IH j eq_refl pre post eq_refl). lia.
Qed.

(** The first line terminator after a text without one. *)
Lemma search_crlf body rest : search kCRLF body = None -> search kCRLF (body ++ kCRLF ++ rest) = Some (zlen body).
Proof.
  induction body as [|x body IH]; intros Hb; [done|].
  cbn [search app] in *. change (zlen kCRLF) with 2 in *.
  assert (Hx : ztake 2 (x :: body ++ kCRLF ++ rest) <> kCRLF).
  { intros H. case_decide as Hd; [done|]. apply Hd. destruct body as [|y body]; [by simplify_eq/=|].
    unfold ztake in *. simpl in *. done. }
  rewrite decide_False by done. case_decide; [done|].
  destruct (search kCRLF body); [done|]. rewrite (IH eq_refl). simpl. f_equal. lia.
Qed.

(** ** Operation sequences against the abstract queue *)

Inductive buf_op :=
| OpWrite (bs : list Z)          (* WriteRawData *)
| OpEnsure (n : Z)               (* EnsureWritableSize *)
| OpFill (bs : list Z)           (* EnsureWritableSize; store at GetWrite; Produce *)
| OpConsume (n : Z).

Definition run_op (o : buf_op) (b : IOBuffer) : option IOBuffer :=
  match o with
  | OpWrite bs => WriteRawData bs b
  | OpEnsure n => EnsureWritableSize n b
  | OpFill bs =>
      b1 ← EnsureWritableSize (zlen bs) b;
      b2 ← StoreAtWrite 0 bs b1;
      Some (Produce (zlen bs) b2)
  | OpConsume n => Some (Consume n b)
  end.

(** The specification: a first-in first-out queue of bytes. *)
Definition spec_op (o : buf_op) (q : list Z) : list Z :=
  match o with
  | OpWrite bs | OpFill bs => q ++ bs
  | OpEnsure _ => q
  | OpConsume n => zdrop n q
  end.

Definition run_ops (os : list buf_op) (b : IOBuffer) : option IOBuffer :=
  foldl (fun ob o => b ← ob; run_op o b) (Some b) os.
Definition spec_ops (os : list buf_op) (q : list Z) : list Z :=
  foldl (fun q o => spec_op o q) q os.

(** The bytes an operation adds, and the largest reservation it asks for. *)
Definition op_size (o : buf_op) : Z :=
  match o with OpWrite bs | OpFill bs => zlen bs | _ => 0 end.
Definition op_valid (limit : Z) (o : buf_op) : Prop :=
  match o with OpEnsure n => 0 <= n <= limit | OpConsume n => 0 <= n | _ => True end.
Definition ops_size (os : list buf_op) : Z := foldr (fun o n => op_size o + n) 0 os.

Lemma ops_size_nonneg os : 0 <= ops_size os.
Proof. induction os as [|[]]; simpl; lia. Qed.

Lemma run_op_ok limit o b :
  inv b -> op_valid limit o -> limit + op_size o <= room b -> 0 <= limit ->
  exists b', run_op o b = Some b' /\ inv b' /\ contents b' = spec_op o (contents b) /\
             room b - op_size o <= room b'.
Proof.
  intros Hinv Hv Hroom Hl. destruct o as [bs|n|bs|n]; simpl in *.
  - by apply WriteRawData_ok; [|lia].
  - destruct (EnsureWritableSize_ok b n) as (b' & ? & ? & ? & ? & ?); [done | lia |].
    exists b'. split_and!; try done; lia.
  - destruct (EnsureWritableSize_ok b (zlen bs)) as (b1 & -> & Hi & Hc & Hw & Hr); [done | lia |].
    destruct (StoreProduce_ok b1 bs) as (b2 & Hs & ? & Hc2 & ?); [done..|].
    simpl. rewrite Hs. simpl. eexists; split_and!; [done..| congruence | lia].
  - destruct (Consume_ok b n) as (? & ? & ?); [done..|]. eexists; split_and!; [done..|lia].
Qed.

Lemma run_ops_None os : foldl (fun ob o => b ← ob; run_op o b) None os = None.
Proof. by induction os. Qed.

Lemma run_ops_ok limit os b :
  inv b -> 0 <= limit -> Forall (op_valid limit) os -> limit + ops_size os <= room b ->
  exists b', run_ops os b = Some b' /\ inv b' /\ contents b' = spec_ops os (contents b).
Proof.
  revert b. induction os as [|o os IH]; intros b Hinv Hl Hv Hroom; simpl in *.
  { by exists b. }
  apply Forall_cons_1 in Hv as [Ho Hv]. pose proof (ops_size_nonneg os).
  destruct (run_op_ok limit o b) as (b1 & Hb1 & Hi1 & Hc1 & Hr1); [done..|lia|done|].
  destruct (IH b1) as (b' & Hb' & ? & Hc'); [done..|lia|].
  exists b'. unfold run_ops in *; simpl. rewrite Hb1. split_and!; [done..|].
  unfold spec_ops in *; simpl. by rewrite Hc', Hc1.
Qed.

(** C1.  Refinement: any sequence of writes, reservations, fills and consumes on a
    fresh [IOBuffer] -- whichever of the in-place, compacting and resizing
    branches each call takes -- succeeds, keeps the class invariant and leaves
    exactly the bytes of the first-in first-out queue, as long as the bytes
    written and the largest reservation stay below [max_size()] together. *)
Theorem IOBuffer_refines_queue limit os :
  0 <= limit -> Forall (op_valid limit) os -> limit + ops_size os <= max_vector_size ->
  exists b, run_ops os IOBuffer_new = Some b /\ inv b /\
            contents b = spec_ops os [] /\ CanReadSize b = zlen (spec_ops os []).
Proof.
  intros Hl Hv Hs. destruct (run_ops_ok limit os IOBuffer_new) as (b & Hb & Hi & Hc).
  - apply inv_new.
  - done.
  - done.
  - unfold room; simpl; lia.
  - rewrite contents_new in Hc. exists b. split_and!; [done..|].
    by rewrite CanReadSize_contents, Hc.
Qed.

Lemma IOBuffer_refines_queue_witness :
  exists b, run_ops [OpFill (replicate 500 7); OpConsume 490; OpEnsure 100; OpWrite [1; 2; 3];
                     OpConsume 9] IOBuffer_new = Some b /\ inv b /\
            contents b = [7; 1; 2; 3] /\ CanReadSize b = 4.
Proof.
  destruct (IOBuffer_refines_queue 100 [OpFill (replicate 500 7); OpConsume 490; OpEnsure 100;
              OpWrite [1; 2; 3]; OpConsume 9]) as (b & H1 & H2 & H3 & H4).
  - lia.
  - repeat constructor; simpl; lia.
  - vm_compute. discriminate.
  - exists b. split_and!; [done..| by rewrite H3 | by rewrite H4].
Defined.

(** [FindCRLF] returns the offset of the first line terminator of the pending
    bytes, and [NULL] exactly when there is none. *)
Theorem FindCRLF_spec b :
  inv b ->
  match FindCRLF b with
  | Some i => 0 <= i /\
      (exists post, contents b = ztake i (contents b) ++ kCRLF ++ post /\
                    zlen (ztake i (contents b)) = i) /\
      (forall pre post, contents b = pre ++ kCRLF ++ post -> i <= zlen pre)
  | None => forall pre post, contents b <> pre ++ kCRLF ++ post
  end.
Proof.
  intros Hinv. unfold FindCRLF. fold (AsString b). fold (contents b).
  destruct (Z.eqb_spec (CanReadSize b) 0) as [H0|H0].
  { rewrite CanReadSize_contents in H0 by done. intros pre post Hc. rewrite Hc in H0.
    rewrite !length_app in H0. simpl in H0. lia. }
  destruct (search kCRLF (contents b)) as [i|] eqn:E.
  - destruct (search_Some _ _ _ E) as (? & ?). split_and!; [done..|]. eauto using search_leftmost.
  - eauto using search_None.
Qed.

Lemma FindCRLF_spec_witness :
  inv (mkIOBuffer 1 7 [0; 71; 13; 71; 13; 10; 71; 0]) /\
  FindCRLF (mkIOBuffer 1 7 [0; 71; 13; 71; 13; 10; 71; 0]) = Some 3 /\
  (forall pre post, [71; 13; 71; 13; 10; 71] = pre ++ kCRLF ++ post -> 3 <= zlen pre).
Proof.
  assert (Hi : inv (mkIOBuffer 1 7 [0; 71; 13; 71; 13; 10; 71; 0]))
    by (unfold inv, max_vector_size; simpl; lia).
  split_and!; [done | reflexivity |].
  destruct (FindCRLF_spec _ Hi) as (_ & _ & H). exact H.
Defined.

End IOBuffer.

(** ** The interface the codecs rely on *)

Class ByteQueue (B : Type) := {
  bq_inv : B -> Prop;
  bq_contents : B -> list Z;          (* [GetRead()] .. [GetRead() + CanReadSize()] *)
  bq_room : B -> Z;
  bq_write : list Z -> B -> option B; (* WriteRawData *)
  bq_consume : Z -> B -> B;           (* Consume *)
}.

Class ByteQueueLaws (B : Type) `{ByteQueue B} := {
  bq_write_ok b bs : bq_inv b -> zlen bs <= bq_room b ->
    exists b', bq_write bs b = Some b' /\ bq_inv b' /\
               bq_contents b' = bq_contents b ++ bs /\ bq_room b - zlen bs <= bq_room b';
  bq_consume_ok b n : bq_inv b -> 0 <= n ->
    bq_inv (bq_consume n b) /\ bq_contents (bq_consume n b) = zdrop n (bq_contents b) /\
    bq_room b <= bq_room (bq_consume n b);
}.

#[export] Instance IOBuffer_queue : ByteQueue IOBuffer.IOBuffer := {|
  bq_inv := IOBuffer.inv; bq_contents := IOBuffer.contents; bq_room := IOBuffer.room;
  bq_write := IOBuffer.WriteRawData; bq_consume := IOBuffer.Consume |}.

#[export] Instance IOBuffer_queue_laws : ByteQueueLaws IOBuffer.IOBuffer.
Proof. split; [apply IOBuffer.WriteRawData_ok | apply IOBuffer.Consume_ok]. Qed.

(** The abstract queue itself. *)
#[export] Instance list_queue : ByteQueue (list Z) := {|
  bq_inv := fun _ => True; bq_contents := fun q => q; bq_room := fun _ => max_vector_size;
  bq_write := fun bs q => Some (q ++ bs); bq_consume := zdrop |}.

#[export] Instance list_queue_laws : ByteQueueLaws (list Z).
Proof. split; simpl; intros; [eexists; split_and!; [done..|lia] | done]. Qed.
