(* ===== verification/ByteOrder.v ===== *)
(** * Byte order (base/sys/byteorders.h)

    Object representations of unsigned integers on the little-endian hosts the
    framework targets, the compiler's byte-swap builtins, and the conversion
    functions of the header. *)
From S2P Require Import Prelude.

Module ByteOrder.

(** The [k] bytes of [n] in memory order on a little-endian host. *)
Fixpoint le_bytes (k : nat) (n : Z) : list Z :=
  match k with
  | O => []
  | S k' => n mod 256 :: le_bytes k' (n / 256)
  end.

(** The unsigned integer whose object representation is [bs]. *)
Fixpoint le_value (bs : list Z) : Z :=
  match bs with
  | [] => 0
  | b :: bs' => b + 256 * le_value bs'
  end.

(** [__builtin_bswap16/32/64]. *)
Definition bswap (k : nat) (x : Z) : Z := le_value (rev (le_bytes k x)).

Definition ByteSwap16 (x : Z) : Z := bswap 2 x.
Definition ByteSwap32 (x : Z) : Z := bswap 4 x.
Definition ByteSwap64 (x : Z) : Z := bswap 8 x.

(** [ARCH_CPU_LITTLE_ENDIAN] is defined. *)
Definition ByteSwapToLE16 (x : Z) : Z := x.
Definition ByteSwapToLE32 (x : Z) : Z := x.
Definition ByteSwapToLE64 (x : Z) : Z := x.
Definition NetToHost16 (x : Z) : Z := ByteSwap16 x.
Definition NetToHost32 (x : Z) : Z := ByteSwap32 x.
Definition NetToHost64 (x : Z) : Z := ByteSwap64 x.
Definition HostToNet16 (x : Z) : Z := ByteSwap16 x.
Definition HostToNet32 (x : Z) : Z := ByteSwap32 x.
Definition HostToNet64 (x : Z) : Z := ByteSwap64 x.

Lemma le_bytes_length k n : length (le_bytes k n) = k.
Proof. revert n. induction k; intros; simpl; auto. Qed.

Lemma le_bytes_ok k n : bytes_ok (le_bytes k n).
Proof. revert n. induction k; intros n; simpl; constructor; auto. apply Z.mod_pos_bound. lia. Qed.

Lemma le_value_bytes k n : 0 <= n < 256 ^ Z.of_nat k -> le_value (le_bytes k n) = n.
Proof.
  revert n. induction k as [|k IH]; intros n Hn; simpl; [simpl in Hn; lia|].
  rewrite Nat2Z.inj_succ, Z.pow_succ_r in Hn by lia.
  rewrite IH; [pose proof (Z.div_mod n 256 ltac:(lia)); lia|].
  split; [apply Z.div_pos; lia | apply Z.div_lt_upper_bound; lia].
Qed.

Lemma le_value_range bs : bytes_ok bs -> 0 <= le_value bs < 256 ^ zlen bs.
Proof.
  induction 1 as [|b bs Hb Hbs IH]; simpl; [lia|]. unfold is_byte in Hb.
  rewrite Nat2Z.inj_succ, Z.pow_succ_r by lia. lia.
Qed.

Lemma le_bytes_value bs : bytes_ok bs -> le_bytes (length bs) (le_value bs) = bs.
Proof.
  induction 1 as [|b bs Hb Hbs IH]; simpl; [done|]. unfold is_byte in Hb.
  rewrite (Z.mul_comm 256), Z.mod_add, Z.div_add, Z.mod_small, Z.div_small by lia. by rewrite Z.add_0_l, IH.
Qed.

Lemma bswap_bytes k x : le_bytes k (bswap k x) = rev (le_bytes k x).
Proof.
  unfold bswap. pose proof (le_bytes_value (rev (le_bytes k x))) as H.
  rewrite length_rev, le_bytes_length in H. apply H, Forall_rev, le_bytes_ok.
Qed.

Lemma bswap_invol k x : 0 <= x < 256 ^ Z.of_nat k -> bswap k (bswap k x) = x.
Proof. intros Hx. unfold bswap at 1. rewrite bswap_bytes, rev_involutive. by apply le_value_bytes. Qed.

(** Converting to network order puts the most significant byte first in
    memory, and converting back restores the value, for the 16-, 32- and 64-bit
    functions. *)
Theorem host_net_roundtrip x16 x32 x64 :
  0 <= x16 < 2 ^ 16 -> 0 <= x32 < 2 ^ 32 -> 0 <= x64 < 2 ^ 64 ->
  NetToHost16 (HostToNet16 x16) = x16 /\ NetToHost32 (HostToNet32 x32) = x32 /\
  NetToHost64 (HostToNet64 x64) = x64 /\
  le_bytes 2 (HostToNet16 x16) = [x16 / 256; x16 mod 256] /\
  le_bytes 4 (HostToNet32 x32) = rev (le_bytes 4 x32) /\
  le_bytes 8 (HostToNet64 x64) = rev (le_bytes 8 x64).
Proof.
  intros H16 H32 H64. split_and!; try (apply bswap_invol; simpl; lia); try apply bswap_bytes.
  unfold HostToNet16, ByteSwap16. rewrite bswap_bytes. simpl. f_equal. apply Z.mod_small.
  split; [apply Z.div_pos; lia | apply Z.div_lt_upper_bound; lia].
Qed.

Lemma host_net_roundtrip_witness :
  NetToHost16 (HostToNet16 1000) = 1000 /\ le_bytes 2 (HostToNet16 1000) = [3; 232].
Proof.
  destruct (host_net_roundtrip 1000 1 1) as (H1 & _ & _ & H4 & _); try lia.
  split; [exact H1 | exact H4].
Defined.

End ByteOrder.
