(* ===== verification/StdMap.v ===== *)
(** * [std::map<std::string, T>]

    An ordered association list without duplicate keys: what the headers, the
    registries and the rings of the program are kept in.  Iteration follows the
    list; [insert] keeps an existing entry. *)
From S2P Require Import Prelude.

Module StdMap.

(** [std::less<std::string>]: lexicographic on unsigned bytes. *)
Fixpoint lex_ltb (a b : list Z) : bool :=
  match a, b with
  | _, [] => false
  | [], _ :: _ => true
  | x :: a', y :: b' => if x <? y then true else if y <? x then false else lex_ltb a' b'
  end.

(** A strict total order on keys, as a comparator. *)
Class StrictTotal {K : Type} (ltb : K -> K -> bool) := {
  st_irrefl a : ltb a a = false;
  st_trans a b c : ltb a b = true -> ltb b c = true -> ltb a c = true;
  st_total a b : ltb a b = false -> ltb b a = false -> a = b;
}.

#[export] Instance lex_strict_total : StrictTotal lex_ltb.
Proof.
  split.
  - intros a. induction a as [|x a IH]; simpl; [done|]. by rewrite Z.ltb_irrefl.
  - intros a. induction a as [|x a IH]; intros [|y b] [|z c]; simpl; try done.
    destruct (Z.ltb_spec x y), (Z.ltb_spec y x), (Z.ltb_spec y z), (Z.ltb_spec z y), (Z.ltb_spec x z), (Z.ltb_spec z x);
      try done; try lia. apply IH.
  - intros a. induction a as [|x a IH]; intros [|y b]; simpl; try done.
    destruct (Z.ltb_spec x y), (Z.ltb_spec y x); try done. intros Ha Hb. f_equal; [lia | by apply IH].
Qed.

#[export] Instance Zltb_strict_total : StrictTotal Z.ltb.
Proof.
  split; [apply Z.ltb_irrefl | | ].
  - intros a b c ?%Z.ltb_lt ?%Z.ltb_lt. apply Z.ltb_lt. lia.
  - intros a b ?%Z.ltb_ge ?%Z.ltb_ge. lia.
Qed.

Section Map.
Context {K V : Type} (ltb : K -> K -> bool).

Definition eqv (a b : K) : bool := negb (ltb a b) && negb (ltb b a).

Fixpoint map_find (k : K) (m : list (K * V)) : option V :=
  match m with
  | [] => None
  | (k', v) :: m' => if eqv k k' then Some v else map_find k m'
  end.

(** [operator[]= / insert_or_assign]. *)
Fixpoint map_assign (k : K) (v : V) (m : list (K * V)) : list (K * V) :=
  match m with
  | [] => [(k, v)]
  | (k', v') :: m' => if ltb k k' then (k, v) :: m
                      else if ltb k' k then (k', v') :: map_assign k v m' else (k, v) :: m'
  end.

(** [insert(make_pair(k, v))]. *)
Fixpoint map_insert (k : K) (v : V) (m : list (K * V)) : list (K * V) :=
  match m with
  | [] => [(k, v)]
  | (k', v') :: m' => if ltb k k' then (k, v) :: m
                      else if ltb k' k then (k', v') :: map_insert k v m' else m
  end.

Fixpoint map_erase (k : K) (m : list (K * V)) : list (K * V) :=
  match m with
  | [] => []
  | (k', v') :: m' => if eqv k k' then m' else (k', v') :: map_erase k m'
  end.

(** [lower_bound(k)]: the entries from the first key not less than [k]. *)
Fixpoint lower_bound (k : K) (m : list (K * V)) : list (K * V) :=
  match m with
  | [] => []
  | (k', v') :: m' => if ltb k' k then lower_bound k m' else m
  end.

(** Strictly increasing keys. *)
Fixpoint sorted (m : list (K * V)) : Prop :=
  match m with
  | [] => True
  | (k, _) :: m' => Forall (fun e => ltb k e.1 = true) m' /\ sorted m'
  end.

Context `{!StrictTotal ltb}.

Lemma eqv_spec a b : reflect (a = b) (eqv a b).
Proof.
  unfold eqv. destruct (ltb a b) eqn:H1, (ltb b a) eqn:H2; simpl; constructor;
    try (intros ->; rewrite st_irrefl in *; congruence). by apply st_total.
Qed.

Lemma find_in k v m : map_find k m = Some v -> In (k, v) m.
Proof.
  induction m as [|[k' v'] m IH]; simpl; [done|]. destruct (eqv_spec k k') as [->|_]; [|by auto].
  intros [= ->]. by left.
Qed.

Lemma find_above k m : Forall (fun e => ltb k e.1 = true) m -> map_find k m = None.
Proof.
  induction 1 as [|[k' v'] m Hk Hm IH]; simpl; [done|].
  destruct (eqv_spec k k') as [->|_]; [simpl in Hk; by rewrite st_irrefl in Hk | done].
Qed.

Lemma above_trans k k' m :
  ltb k k' = true -> Forall (fun e => ltb k' e.1 = true) m -> Forall (fun e : K * V => ltb k e.1 = true) m.
Proof. intros Hk Hm. eapply Forall_impl; [|exact Hm]. intros [k2 v2]. simpl. by apply st_trans. Qed.

Lemma map_insert_above k k0 v m :
  ltb k0 k = true -> Forall (fun e => ltb k0 e.1 = true) m -> Forall (fun e => ltb k0 e.1 = true) (map_insert k v m).
Proof.
  intros Hk Hm. induction Hm as [|[k' v'] m Hk' Hm IH]; simpl; [by constructor|].
  destruct (ltb k k'); [by repeat constructor|]. destruct (ltb k' k); by constructor.
Qed.

Lemma map_insert_sorted k v m : sorted m -> sorted (map_insert k v m).
Proof.
  induction m as [|[k' v'] m IH]; simpl; [done|]. intros [Hk' Hm].
  destruct (ltb k k') eqn:H1; [|destruct (ltb k' k) eqn:H2]; simpl; split; auto.
  - constructor; [done | by eapply above_trans].
  - by apply map_insert_above.
Qed.

Lemma map_erase_above k k0 m :
  Forall (fun e => ltb k0 e.1 = true) m -> Forall (fun e => ltb k0 e.1 = true) (map_erase k m).
Proof. induction 1 as [|[k' v'] m Hk' Hm IH]; simpl; [done|]. destruct (eqv k k'); [done | by constructor]. Qed.

Lemma map_erase_sorted k m : sorted m -> sorted (map_erase k m).
Proof.
  induction m as [|[k' v'] m IH]; simpl; [done|]. intros [Hk' Hm]. destruct (eqv k k'); [done|].
  simpl. split; [by apply map_erase_above | auto].
Qed.

(** An existing entry wins. *)
Lemma find_insert k k' v m :
  sorted m -> map_find k' (map_insert k v m) = if eqv k' k then Some (default v (map_find k m)) else map_find k' m.
Proof.
  induction m as [|[k1 v1] m IH]; simpl; [done|]. intros [H1 Hm].
  destruct (ltb k k1) eqn:E1; [|destruct (ltb k1 k) eqn:E2]; simpl.
  - assert (map_find k ((k1, v1) :: m) = None) as Hn
      by (apply find_above; constructor; [done | by eapply above_trans]). simpl in Hn. rewrite Hn. done.
  - rewrite IH by done. assert (eqv k k1 = false) as -> by (unfold eqv; by rewrite E2, andb_false_r).
    destruct (eqv_spec k' k1) as [->|_]; [|done]. unfold eqv. by rewrite E2.
  - assert (k = k1) as -> by (by apply st_total).
    assert (eqv k1 k1 = true) as -> by (by destruct (eqv_spec k1 k1)). by destruct (eqv k' k1).
Qed.

Lemma find_erase k k' m : sorted m -> map_find k' (map_erase k m) = if eqv k' k then None else map_find k' m.
Proof.
  induction m as [|[k1 v1] m IH]; simpl; [by destruct (eqv k' k)|]. intros [H1 Hm].
  destruct (eqv_spec k k1) as [->|Hk]; simpl.
  - destruct (eqv_spec k' k1) as [->|_]; [by apply find_above | done].
  - rewrite IH by done. destruct (eqv_spec k' k1) as [->|_]; [|done]. by destruct (eqv_spec k1 k).
Qed.

Lemma map_assign_above k k0 v m :
  ltb k0 k = true -> Forall (fun e => ltb k0 e.1 = true) m -> Forall (fun e => ltb k0 e.1 = true) (map_assign k v m).
Proof.
  intros Hk Hm. induction Hm as [|[k' v'] m Hk' Hm IH]; simpl; [by constructor|].
  destruct (ltb k k'); [by repeat constructor|]. destruct (ltb k' k); by constructor.
Qed.

Lemma map_assign_sorted k v m : sorted m -> sorted (map_assign k v m).
Proof.
  induction m as [|[k' v'] m IH]; simpl; [done|]. intros [Hk' Hm].
  destruct (ltb k k') eqn:H1; [|destruct (ltb k' k) eqn:H2]; simpl; split; auto.
  - constructor; [done | by eapply above_trans].
  - by apply map_assign_above.
  - assert (k = k') as -> by (by apply st_total). done.
Qed.

Lemma find_assign k k' v m :
  sorted m -> map_find k' (map_assign k v m) = if eqv k' k then Some v else map_find k' m.
Proof.
  induction m as [|[k1 v1] m IH]; simpl; [done|]. intros [H1 Hm].
  destruct (ltb k k1) eqn:E1; [|destruct (ltb k1 k) eqn:E2]; simpl; [done | |].
  - rewrite IH by done. destruct (eqv_spec k' k1) as [->|_]; [|done]. unfold eqv. by rewrite E2.
  - assert (k = k1) as -> by (by apply st_total). by destruct (eqv k' k1).
Qed.
End Map.
End StdMap.
