(* ===== verification/StrUtils.v ===== *)
(** * String helpers (base/utils/string/str_utils.{h,cc})

    Strings are lists of bytes.  [None] in a result is an exception or a read
    outside the string. *)
From stdpp Require Import sets.
From S2P Require Import Prelude IOBuffer.
Import IOBuffer.

Module StrUtils.

(** ** Character classes of the C locale *)

Definition isdigit (c : Z) : bool := (48 <=? c) && (c <=? 57).
Definition isspace (c : Z) : bool := (c =? 32) || ((9 <=? c) && (c <=? 13)).
Definition tolower (c : Z) : Z := if (65 <=? c) && (c <=? 90) then c + 32 else c.
Definition toupper (c : Z) : Z := if (97 <=? c) && (c <=? 122) then c - 32 else c.

(** The loops stop at the first NUL. *)
Fixpoint ToLower (s : list Z) : list Z :=
  match s with [] => [] | c :: s' => if c =? 0 then s else tolower c :: ToLower s' end.
Fixpoint ToUpper (s : list Z) : list Z :=
  match s with [] => [] | c :: s' => if c =? 0 then s else toupper c :: ToUpper s' end.

(** [std::equal(str1.begin(), str1.end(), str2.begin(), cmp)]: [str2] is read as
    far as [str1] reaches; its terminator is readable. *)
Fixpoint IgnoreCaseEquals (str1 str2 : list Z) : option bool :=
  match str1, str2 with
  | [], _ => Some true
  | c1 :: s1, c2 :: s2 => if toupper c1 =? toupper c2 then IgnoreCaseEquals s1 s2 else Some false
  | c1 :: s1, [] => if toupper c1 =? 0 then match s1 with [] => Some true | _ => None end else Some false
  end.

(** ** Numbers *)

(** The digits of [n], least significant first. *)
Fixpoint dec_rev (fuel : nat) (n : Z) : list Z :=
  match fuel with
  | O => []
  | S fuel' => if n <? 10 then [48 + n] else (48 + n mod 10) :: dec_rev fuel' (n / 10)
  end.
(** [std::to_string], and [{}] of [fmt], for integers. *)
Definition to_string (n : Z) : list Z :=
  if n <? 0 then 45 :: rev (dec_rev (S (Z.to_nat (Z.log2 (- n)))) (- n))
  else rev (dec_rev (S (Z.to_nat (Z.log2 n))) n).

Fixpoint skip_space (s : list Z) : list Z :=
  match s with c :: s' => if isspace c then skip_space s' else s | [] => [] end.
Fixpoint take_digits (s : list Z) : list Z :=
  match s with c :: s' => if isdigit c then c :: take_digits s' else [] | [] => [] end.
Definition dec_value (ds : list Z) : Z := foldl (fun acc d => 10 * acc + (d - 48)) 0 ds.

(** [std::stoi], [std::stoll]: [invalid_argument] without a digit, [out_of_range]
    outside the type. *)
Inductive conv := Value (n : Z) | InvalidArgument | OutOfRange.
Definition sto (lo hi : Z) (s : list Z) : conv :=
  let s := skip_space s in
  let '(neg, s) := match s with
                   | 45 :: s' => (true, s')
                   | 43 :: s' => (false, s')
                   | _ => (false, s)
                   end in
  match take_digits s with
  | [] => InvalidArgument
  | ds => let n := if neg : bool then - dec_value ds else dec_value ds in
          if (lo <=? n) && (n <=? hi) then Value n else OutOfRange
  end.

(** The result and the value of [*out] after the call. *)
Definition ToInt (s : list Z) (out : Z) : bool * Z :=
  match sto (- 2 ^ 31) (2 ^ 31 - 1) s with Value n => (true, n) | _ => (false, out) end.
Definition ToInt64 (s : list Z) (out : Z) : bool * Z :=
  match sto (- 2 ^ 63) (2 ^ 63 - 1) s with Value n => (true, n) | _ => (false, out) end.

(** ** Searching and replacing *)

(** [text.find(pat, pos)]; [None] is [npos]. *)
Definition find (text pat : list Z) (pos : Z) : option Z :=
  if zlen text <? pos then None else Z.add pos <$> search pat (zdrop pos text).
(** [text.rfind(pat)]. *)
Definition rfind (text pat : list Z) : option Z :=
  (fun i => zlen text - zlen pat - i) <$> search (rev pat) (rev text).

Definition replace (str : list Z) (pos len : Z) (to : list Z) : list Z :=
  ztake pos str ++ to ++ zdrop (pos + len) str.

Definition Replace (str from to : list Z) : bool * list Z :=
  match find str from 0 with
  | None => (false, str)
  | Some start_pos => (true, replace str start_pos (zlen from) to)
  end.
Definition ReplaceLast (str from to : list Z) : bool * list Z :=
  match rfind str from with
  | None => (false, str)
  | Some start_pos => (true, replace str start_pos (zlen from) to)
  end.

(** [std::search(...) != input.end()]; an empty [test] in an empty [input] is
    found at the end. *)
Definition Contains (input test : list Z) : bool :=
  match search test input with Some i => negb (i =? zlen input) | None => false end.
Definition StartsWith (str prefix : list Z) : bool :=
  (zlen prefix <=? zlen str) && bool_decide (ztake (zlen prefix) str = prefix).
Definition EndsWith (str suffix : list Z) : bool :=
  (zlen suffix <=? zlen str) && bool_decide (zdrop (zlen str - zlen suffix) str = suffix).

(** ** Trimming *)

(** [str.find_first_not_of(chars)] decides how many characters go; [npos] erases
    everything. *)
Fixpoint TrimLeft (chars str : list Z) : list Z :=
  match str with
  | [] => []
  | c :: str' => if bool_decide (c ∈ chars) then TrimLeft chars str' else str
  end.
Definition TrimRight (chars str : list Z) : list Z := reverse (TrimLeft chars (reverse str)).
Definition Trim (chars str : list Z) : list Z := TrimLeft chars (TrimRight chars str).

(** ** Splitting and joining *)

(** [Split(str, delim)] by [std::getline]: a last empty token is not produced. *)
Fixpoint getline (delim : Z) (s : list Z) : list Z * list Z :=
  match s with
  | [] => ([], [])
  | c :: s' => if c =? delim then ([], s') else let '(t, r) := getline delim s' in (c :: t, r)
  end.
Fixpoint split_getline (fuel : nat) (delim : Z) (s : list Z) : list (list Z) :=
  match fuel, s with
  | S fuel', _ :: _ => let '(t, r) := getline delim s in t :: split_getline fuel' delim r
  | _, _ => []
  end.
Definition SplitChar (str : list Z) (delim : Z) : list (list Z) := split_getline (length str) delim str.

(** [Split(text, delims, ignore_empty)] from the position [previous].  After the
    loop [current] is [npos], so the last token is always pushed; [substr] throws
    when [previous] is past the end. *)
Fixpoint split_loop (fuel : nat) (text delims : list Z) (ignore_empty : bool) (previous : Z)
    : option (list (list Z)) :=
  match fuel with
  | O => None
  | S fuel' =>
      match find text delims previous with
      | Some current =>
          let token := if (previous <? current) || negb ignore_empty then [slice previous current text] else [] in
          tokens ← split_loop fuel' text delims ignore_empty (current + 1);
          Some (token ++ tokens)
      | None => if zlen text <? previous then None else Some [zdrop previous text]
      end
  end.
Definition Split (text delims : list Z) (ignore_empty : bool) : option (list (list Z)) :=
  split_loop (length text + 2) text delims ignore_empty 0.

Fixpoint Join (v : list (list Z)) (token : list Z) : list Z :=
  match v with
  | [] => []
  | [s] => s
  | s :: v' => s ++ token ++ Join v' token
  end.

(** ** Numbers through a stream

    [std::istringstream(s) >> out] for an unsigned type of [w] bits: leading white
    space is skipped, a sign and decimal digits are read.  The stored value
    ([None]: the variable is left as it was), whether the end of the string was
    reached ([eofbit]), and whether the extraction failed ([failbit]). *)
Record extraction := Extraction { ex_value : option Z; ex_eof : bool; ex_fail : bool }.
Definition extract_unsigned (w : Z) (s : list Z) : extraction :=
  match skip_space s with
  | [] => Extraction None true true
  | c :: s' =>
      let neg := c =? 45 in
      let s := if neg || (c =? 43) then s' else c :: s' in
      let ds := take_digits s in
      let eof := Nat.eqb (length ds) (length s) in
      match ds with
      | [] => Extraction (Some 0) eof true
      | _ =>
          if 2 ^ w <=? dec_value ds then Extraction (Some (2 ^ w - 1)) eof true
          else Extraction (Some (if neg then (- dec_value ds) mod 2 ^ w else dec_value ds)) eof false
      end
  end.

(** [ParseTo<T>] reports [iss.good()]: none of the state bits, [eofbit] included. *)
Definition ParseTo (w : Z) (s : list Z) (out : Z) : bool * Z :=
  let e := extract_unsigned w s in
  (negb (ex_eof e) && negb (ex_fail e), default out (ex_value e)).
(** [Parse<T>] returns a variable that only the extraction initialises. *)
Definition Parse (w : Z) (s : list Z) : option Z := ex_value (extract_unsigned w s).

(** [Parse<bool>]. *)
Definition ParseBool (s : list Z) : bool :=
  let new_s := ToLower s in
  bool_decide (new_s = str "on") || bool_decide (new_s = str "yes") || bool_decide (new_s = str "true").

(** ** Splitting on one character *)

(** The reference: cut at every [d]. *)
Fixpoint split_on (d : Z) (s : list Z) : list (list Z) :=
  match s with
  | [] => [[]]
  | c :: s' =>
      if c =? d then [] :: split_on d s'
      else match split_on d s' with [] => [[c]] | t :: ts => (c :: t) :: ts end
  end.

Lemma split_on_nonempty d s : split_on d s <> [].
Proof. destruct s as [|c s]; simpl; [done|]. by destruct (c =? d), (split_on d s). Qed.

Lemma search_char d s :
  match search [d] s with
  | Some i => 0 <= i < zlen s /\ split_on d s = ztake i s :: split_on d (zdrop (i + 1) s)
  | None => split_on d s = [s]
  end.
Proof.
  induction s as [|c s IH]; [done|]. cbn [search]. change (ztake (zlen [d]) (c :: s)) with [c].
  case_decide as Hd.
  - injection Hd as ->. simpl. rewrite Z.eqb_refl. split; [lia | done].
  - cbn [split_on]. destruct (Z.eqb_spec c d) as [->|_]; [done|].
    destruct (search [d] s) as [i|]; simpl; [|by rewrite IH].
    destruct IH as [Hi ->]. split; [lia|]. rewrite ztake_cons by lia.
    replace (Z.succ i - 1) with i by lia. f_equal.
    unfold zdrop. replace (Z.to_nat (Z.succ i + 1)) with (S (Z.to_nat (i + 1))) by lia. done.
Qed.

Lemma split_loop_split_on fuel text d previous :
  0 <= previous <= zlen text -> (Z.to_nat (zlen text - previous) < fuel)%nat ->
  split_loop fuel text [d] false previous = Some (split_on d (zdrop previous text)).
Proof.
  revert previous. induction fuel as [|fuel IH]; intros previous Hp Hf; [lia|]. cbn [split_loop]. unfold find.
  destruct (Z.ltb_spec (zlen text) previous); [lia|].
  pose proof (search_char d (zdrop previous text)) as Hs.
  destruct (search [d] (zdrop previous text)) as [i|]; simpl; [|by rewrite Hs].
  destruct Hs as [Hi ->]. rewrite zlen_zdrop in Hi by lia. rewrite IH by lia. simpl.
  rewrite orb_true_r. simpl. f_equal. f_equal.
  - unfold slice. f_equal. lia.
  - rewrite zdrop_zdrop by lia. do 2 f_equal. lia.
Qed.

Lemma Split_split_on text d : Split text [d] false = Some (split_on d text).
Proof. unfold Split. rewrite split_loop_split_on by lia. done. Qed.

Lemma join_split_on d s : Join (split_on d s) [d] = s.
Proof.
  induction s as [|c s IH]; [done|]. cbn [split_on].
  destruct (Z.eqb_spec c d) as [->|Hc].
  - pose proof (split_on_nonempty d s). destruct (split_on d s) as [|t ts] eqn:E; [done|].
    cbn [Join]. cbn [Join] in IH. by rewrite IH.
  - pose proof (split_on_nonempty d s). destruct (split_on d s) as [|t ts]; [done|]. rewrite <- IH. by destruct ts.
Qed.

Lemma split_on_tokens d s : Forall (fun t => d ∉ t) (split_on d s).
Proof.
  induction s as [|c s IH]; cbn [split_on]; [constructor; [set_solver | done]|].
  destruct (Z.eqb_spec c d) as [->|Hc]; [constructor; [set_solver | done]|].
  destruct (split_on d s) as [|t ts]; [constructor; set_solver|].
  apply Forall_cons_1 in IH as [Ht Hts]. constructor; [set_solver | done].
Qed.

Lemma split_on_app d t s : d ∉ t -> split_on d (t ++ d :: s) = t :: split_on d s.
Proof.
  induction t as [|c t IH]; intros Ht; simpl; [by rewrite Z.eqb_refl|].
  destruct (Z.eqb_spec c d) as [->|_]; [set_solver|]. rewrite IH by set_solver. done.
Qed.

Lemma split_on_single d t : d ∉ t -> split_on d t = [t].
Proof.
  induction t as [|c t IH]; intros Ht; simpl; [done|].
  destruct (Z.eqb_spec c d) as [->|_]; [set_solver|]. by rewrite IH by set_solver.
Qed.

Lemma split_on_join d v : v <> [] -> Forall (fun t => d ∉ t) v -> split_on d (Join v [d]) = v.
Proof.
  intros Hne Hv. induction Hv as [|t v Ht Hv IH]; [done|].
  destruct v as [|t' v]; [by apply split_on_single|]. change (Join (t :: t' :: v) [d]) with (t ++ d :: Join (t' :: v) [d]).
  rewrite split_on_app by done. f_equal. by apply IH.
Qed.

(** [Split] at a one-character delimiter and [Join] are inverse: splitting
    never fails and joining the tokens gives the text back, no token contains the
    delimiter, and a non-empty list of such tokens comes back from its join. *)
Theorem split_join_inverse d text v :
  v <> [] -> Forall (fun t => d ∉ t) v ->
  (exists ts, Split text [d] false = Some ts /\ ts <> [] /\ Forall (fun t => d ∉ t) ts /\ Join ts [d] = text) /\
  Split (Join v [d]) [d] false = Some v.
Proof.
  intros Hne Hv. split.
  - exists (split_on d text). split_and!; [apply Split_split_on | apply split_on_nonempty | apply split_on_tokens | apply join_split_on].
  - rewrite Split_split_on. f_equal. by apply split_on_join.
Qed.

Lemma split_join_inverse_witness :
  (exists ts, Split (str "a::b") [58] false = Some ts /\ Join ts [58] = str "a::b") /\
  Split (str "user:pw:") [58] false = Some [str "user"; str "pw"; []].
Proof.
  destruct (split_join_inverse 58 (str "a::b") [str "user"; str "pw"; []]) as [(ts & H1 & _ & _ & H2) H3].
  - discriminate.
  - apply Forall_forall. intros t Ht. apply (bool_decide_eq_true_1 (58 ∉ t)).
    repeat (destruct Ht as [<-|Ht]; [reflexivity|]). destruct Ht.
  - split; [by exists ts | exact H3].
Defined.

(** [Split] steps one character past the start of a delimiter, whatever its
    length, and pushes the last token even when it is empty and empty tokens are
    to be ignored. *)
Theorem split_long_delimiter :
  Split (str "a::b") (str "::") false = Some [str "a"; str ":b"] /\
  Split (str "a:") (str ":") true = Some [str "a"; []].
Proof. split; reflexivity. Qed.

(** ** Numbers *)

Lemma dec_value_app ds d : dec_value (ds ++ [d]) = 10 * dec_value ds + (d - 48).
Proof. unfold dec_value. by rewrite foldl_app. Qed.

Lemma dec_rev_ok fuel n :
  0 <= n -> (Z.to_nat (Z.log2 n) < fuel)%nat ->
  dec_value (rev (dec_rev fuel n)) = n /\ dec_rev fuel n <> [] /\ Forall (fun c => isdigit c = true) (dec_rev fuel n).
Proof.
  revert n. induction fuel as [|fuel IH]; intros n Hn Hf; [lia|]. cbn [dec_rev].
  destruct (Z.ltb_spec n 10) as [Hl|Hg].
  - split_and!; [change (10 * 0 + (48 + n - 48) = n); lia | done | constructor; [unfold isdigit; lia | done]].
  - destruct (IH (n / 10)) as (Hv & Hne & Hd); [apply Z.div_pos; lia | |].
    { assert (n / 10 <= n / 2) by (apply Z.div_le_compat_l; lia).
      pose proof (Z.log2_le_mono (n / 10) (n / 2) ltac:(done)) as Hm.
      rewrite <- Z.div2_div in Hm. rewrite Z.div2_spec, Z.log2_shiftr in Hm by lia.
      pose proof (Z.log2_nonneg n). assert (1 <= Z.log2 n) by (apply Z.log2_le_pow2; lia). lia. }
    cbn [rev]. split_and!; [|done|].
    + rewrite dec_value_app, Hv. pose proof (Z.div_mod n 10). lia.
    + constructor; [|done]. pose proof (Z.mod_pos_bound n 10). unfold isdigit. lia.
Qed.

Lemma take_digits_all ds : Forall (fun c => isdigit c = true) ds -> take_digits ds = ds.
Proof. induction 1 as [|c ds Hc Hd IH]; simpl; [done|]. by rewrite Hc, IH. Qed.

Lemma digit_first c s : isdigit c = true -> skip_space (c :: s) = c :: s /\ c <> 45 /\ c <> 43.
Proof.
  unfold isdigit. intros Hc. simpl. unfold isspace.
  destruct (Z.eqb_spec c 32), (Z.leb_spec 9 c), (Z.leb_spec c 13); simpl; split_and!; try done; lia.
Qed.

Lemma to_string_digits n :
  0 <= n -> exists c ds, to_string n = c :: ds /\ Forall (fun c => isdigit c = true) (c :: ds) /\ dec_value (c :: ds) = n.
Proof.
  intros Hn. unfold to_string. destruct (Z.ltb_spec n 0); [lia|].
  destruct (dec_rev_ok (S (Z.to_nat (Z.log2 n))) n) as (Hv & Hne & Hd); [lia | lia |].
  destruct (rev _) as [|c ds] eqn:E.
  - by apply (f_equal (@rev Z)) in E; rewrite rev_involutive in E.
  - exists c, ds. split_and!; [done | rewrite <- E; by apply Forall_rev | done].
Qed.

(** A string of digits is read to its end. *)
Lemma extract_to_string w n :
  0 <= n < 2 ^ w -> extract_unsigned w (to_string n) = Extraction (Some n) true false.
Proof.
  intros Hn. destruct (to_string_digits n) as (c & ds & -> & Hd & Hv); [lia|].
  unfold extract_unsigned. pose proof (digit_first c ds (Forall_inv Hd)) as (-> & H45 & H43).
  rewrite (proj2 (Z.eqb_neq c 45)), (proj2 (Z.eqb_neq c 43)) by done. cbn [orb].
  rewrite (take_digits_all (c :: ds)) by done. rewrite Nat.eqb_refl, Hv.
  by destruct (Z.leb_spec (2 ^ w) n); [lia|].
Qed.

Lemma sto_to_string lo hi n :
  sto lo hi (to_string n) = if (lo <=? n) && (n <=? hi) then Value n else OutOfRange.
Proof.
  unfold to_string. destruct (Z.ltb_spec n 0) as [Hneg|Hpos].
  - destruct (dec_rev_ok (S (Z.to_nat (Z.log2 (- n)))) (- n)) as (Hv & Hne & Hd); [lia..|].
    unfold sto. cbn [skip_space]. change (isspace 45) with false. cbv iota.
    rewrite take_digits_all by (by apply Forall_rev). destruct (rev (dec_rev _ (- n))) as [|c ds] eqn:E.
    { apply (f_equal length) in E. rewrite length_rev in E. by destruct (dec_rev _ _). }
    by rewrite Hv, Z.opp_involutive.
  - destruct (dec_rev_ok (S (Z.to_nat (Z.log2 n))) n) as (Hv & Hne & Hd); [lia..|].
    pose proof (Forall_rev Hd) as Hd'. destruct (rev (dec_rev _ n)) as [|c ds] eqn:E.
    { apply (f_equal length) in E. rewrite length_rev in E. by destruct (dec_rev _ _). }
    destruct (digit_first c ds) as (Hs & H1 & H2); [by apply Forall_cons_1 in Hd' as [? _]|].
    unfold sto. rewrite Hs.
    assert ((match c :: ds with 45 :: s' => (true, s') | 43 :: s' => (false, s') | _ => (false, c :: ds) end) = (false, c :: ds)) as ->.
    { destruct c as [|p|p]; try done. do 6 (destruct p as [p|p|]; try done). }
    by rewrite take_digits_all, Hv.
Qed.

(** Printing and parsing: the decimal text of a number in range is read back
    by [ToInt] and [ToInt64], and a number outside [int] is refused with the
    output left as it was. *)
Theorem ToInt_to_string n out :
  - 2 ^ 63 <= n < 2 ^ 63 ->
  ToInt64 (to_string n) out = (true, n) /\
  ToInt (to_string n) out = if (- 2 ^ 31 <=? n) && (n <? 2 ^ 31) then (true, n) else (false, out).
Proof.
  intros Hn. unfold ToInt, ToInt64. rewrite !sto_to_string. split.
  - by destruct (Z.leb_spec (- 2 ^ 63) n), (Z.leb_spec n (2 ^ 63 - 1)); try lia.
  - destruct (Z.leb_spec (- 2 ^ 31) n), (Z.leb_spec n (2 ^ 31 - 1)), (Z.ltb_spec n (2 ^ 31)); done || lia.
Qed.

Lemma ToInt_to_string_witness :
  ToInt64 (to_string (- 2 ^ 40)) 7 = (true, - 2 ^ 40) /\ ToInt (to_string (- 2 ^ 40)) 7 = (false, 7).
Proof. exact (ToInt_to_string (- 2 ^ 40) 7 ltac:(lia)). Defined.

(** ** Trimming and comparing *)

Lemma TrimLeft_spec chars s :
  exists pre, s = pre ++ TrimLeft chars s /\ Forall (fun c => c ∈ chars) pre /\
    forall c, head (TrimLeft chars s) = Some c -> c ∉ chars.
Proof.
  induction s as [|c s (pre & Hs & Hp & Hh)]; simpl.
  - exists []. by split_and!.
  - case_bool_decide as Hc.
    + exists (c :: pre). split_and!; [by rewrite Hs at 1 | by constructor | done].
    + exists []. split_and!; [done..|]. intros c' [= <-]. done.
Qed.

(** [Trim] removes a prefix and a suffix of the given characters and nothing
    else, and what is left neither starts nor ends with one of them. *)
Theorem Trim_spec chars s :
  exists pre post, s = pre ++ Trim chars s ++ post /\
    Forall (fun c => c ∈ chars) pre /\ Forall (fun c => c ∈ chars) post /\
    (forall c, head (Trim chars s) = Some c -> c ∉ chars) /\ (forall c, head (reverse (Trim chars s)) = Some c -> c ∉ chars).
Proof.
  destruct (TrimLeft_spec chars (reverse s)) as (post & Hr & Hpost & Hlast).
  destruct (TrimLeft_spec chars (TrimRight chars s)) as (pre & Hl & Hpre & Hhead).
  exists pre, (reverse post). unfold Trim. split_and!; [| done | by apply Forall_reverse | done |].
  - rewrite app_assoc, <- Hl. unfold TrimRight. by rewrite <- reverse_app, <- Hr, reverse_involutive.
  - intros c Hc. apply Hlast. rewrite <- (reverse_involutive (TrimLeft chars (reverse s))).
    change (head (reverse (TrimRight chars s)) = Some c). rewrite Hl, reverse_app.
    by destruct (reverse (TrimLeft chars (TrimRight chars s))).
Qed.

Lemma IgnoreCaseEquals_same s1 s2 :
  length s1 = length s2 -> IgnoreCaseEquals s1 s2 = Some (bool_decide (map toupper s1 = map toupper s2)).
Proof.
  revert s2. induction s1 as [|c1 s1 IH]; intros [|c2 s2]; try done. intros [= Hl]. cbn [IgnoreCaseEquals map].
  destruct (Z.eqb_spec (toupper c1) (toupper c2)) as [E|E].
  - rewrite IH by done. f_equal. rewrite E. apply bool_decide_ext. split; [congruence | by intros [= ?]].
  - symmetry. f_equal. apply bool_decide_eq_false_2. congruence.
Qed.

(** [IgnoreCaseEquals] is case-insensitive equality on strings of the same
    length; on others it is not an equality test: a proper prefix of the second
    string compares equal to it. *)
Theorem IgnoreCaseEquals_spec s1 s2 rest :
  length s1 = length s2 ->
  IgnoreCaseEquals s1 s2 = Some (bool_decide (map toupper s1 = map toupper s2)) /\
  IgnoreCaseEquals s1 (s1 ++ rest) = Some true.
Proof.
  intros Hl. split; [by apply IgnoreCaseEquals_same|].
  clear. induction s1 as [|c s1 IH]; [done|]. simpl. by rewrite Z.eqb_refl.
Qed.

Lemma IgnoreCaseEquals_spec_witness :
  IgnoreCaseEquals (str "Close") (str "cLOSE") = Some true /\ IgnoreCaseEquals (str "Close") (str "Closed") = Some true.
Proof. exact (IgnoreCaseEquals_spec (str "Close") (str "cLOSE") (str "d") eq_refl). Defined.

End StrUtils.
