(* ===== verification/Base64.v ===== *)
(** * Base64 (base/utils/base64/base64.hpp)

    Encoder and decoder as the header has them, the inverse table included; the
    decoder returns what it stored and how much of its input it read. *)
From S2P Require Import Prelude.

Module Base64.

Definition get_alphabet : list Z :=
  str "ABCDEFGHIJKLMNOPQRSTUVWXYZabcdefghijklmnopqrstuvwxyz0123456789+/".

Definition get_inverse : list Z :=
  replicate 43 (-1) ++ [62; -1; -1; -1; 63] ++
  [52; 53; 54; 55; 56; 57; 58; 59; 60; 61; -1; -1; -1; -1; -1; -1] ++
  [-1;  0;  1;  2;  3;  4;  5;  6;  7;  8;  9; 10; 11; 12; 13; 14] ++
  [15; 16; 17; 18; 19; 20; 21; 22; 23; 24; 25; -1; -1; -1; -1; -1] ++
  [-1; 26; 27; 28; 29; 30; 31; 32; 33; 34; 35; 36; 37; 38; 39; 40] ++
  [41; 42; 43; 44; 45; 46; 47; 48; 49; 50; 51; -1; -1; -1; -1; -1] ++
  replicate 128 (-1).

Definition tab (i : Z) : Z := nth (Z.to_nat i) get_alphabet 0.
Definition inverse (c : Z) : Z := nth (Z.to_nat c) get_inverse (-1).

Definition encoded_size (n : Z) : Z := 4 * ((n + 2) / 3).
Definition decoded_size (n : Z) : Z := n / 4 * 3.

(** ['='] *)
Definition pad : Z := 61.

Fixpoint encode (src : list Z) : list Z :=
  match src with
  | a :: b :: c :: rest =>
      tab (Z.shiftr (Z.land a 0xfc) 2)
      :: tab (Z.shiftl (Z.land a 0x03) 4 + Z.shiftr (Z.land b 0xf0) 4)
      :: tab (Z.shiftr (Z.land c 0xc0) 6 + Z.shiftl (Z.land b 0x0f) 2)
      :: tab (Z.land c 0x3f)
      :: encode rest
  | [a; b] =>
      [tab (Z.shiftr (Z.land a 0xfc) 2);
       tab (Z.shiftl (Z.land a 0x03) 4 + Z.shiftr (Z.land b 0xf0) 4);
       tab (Z.shiftl (Z.land b 0x0f) 2); pad]
  | [a] =>
      [tab (Z.shiftr (Z.land a 0xfc) 2); tab (Z.shiftl (Z.land a 0x03) 4); pad; pad]
  | [] => []
  end.

(** The three bytes of a group of four values; [c3] is [unsigned char[3]]. *)
Definition c3 (v0 v1 v2 v3 : Z) : list Z :=
  [u8 (Z.shiftl v0 2 + Z.shiftr (Z.land v1 0x30) 4);
   u8 (Z.shiftl (Z.land v1 0xf) 4 + Z.shiftr (Z.land v2 0x3c) 2);
   u8 (Z.shiftl (Z.land v2 0x3) 6 + v3)].

(** The loop: [c4] holds the [i] values of the open group.  The bytes of the tail
    do not depend on the entries of [c4] that were not filled. *)
Fixpoint decode_loop (src c4 out : list Z) (nread : Z) : list Z * Z :=
  let tail :=
    (out ++ take (length c4 - 1) (c3 (nth 0 c4 0) (nth 1 c4 0) (nth 2 c4 0) (nth 3 c4 0)), nread) in
  match src with
  | [] => tail
  | ch :: src' =>
      if ch =? pad then tail
      else
        let v := inverse ch in
        if v =? -1 then tail
        else
          match c4 with
          | [v0; v1; v2] => decode_loop src' [] (out ++ c3 v0 v1 v2 v) (nread + 1)
          | _ => decode_loop src' (c4 ++ [v]) out (nread + 1)
          end
  end.

Definition decode (src : list Z) : list Z * Z := decode_loop src [] [] 0.

(** [dest] is sized before; [None] is a store outside it. *)
Definition base64_encode (data : list Z) : option (list Z) :=
  let out := encode data in
  if zlen out <=? encoded_size (zlen data) then Some out else None.

Definition base64_decode (data : list Z) : option (list Z) :=
  let out := fst (decode data) in
  if zlen out <=? decoded_size (zlen data) then Some out else None.

(** ** Round trip *)

(** Induction on a list three elements at a time. *)
Lemma triple_ind (P : list Z -> Prop) :
  P [] -> (forall a, P [a]) -> (forall a b, P [a; b]) ->
  (forall a b c l, P l -> P (a :: b :: c :: l)) -> forall l, P l.
Proof.
  intros H0 H1 H2 H3. fix IH 1. intros [|a [|b [|c l]]]; [exact H0 | apply H1 | apply H2 | apply H3, IH].
Qed.

Lemma tab_inverse x : 0 <= x < 64 -> inverse (tab x) = x /\ (tab x =? pad) = false /\ (inverse (tab x) =? -1) = false.
Proof.
  intros Hx.
  assert (H : Forall (fun n => inverse (tab (Z.of_nat n)) = Z.of_nat n /\ (tab (Z.of_nat n) =? pad) = false /\
    (inverse (tab (Z.of_nat n)) =? -1) = false) (seq 0 64)) by (repeat constructor).
  rewrite Forall_forall in H. specialize (H (Z.to_nat x)). rewrite Z2Nat.id in H by lia.
  apply H, in_seq. lia.
Qed.

(** The bit fields of the code as quotients and remainders. *)
Lemma low_bits k x : 0 <= k -> Z.land x (Z.ones k) = x mod 2 ^ k.
Proof. intros. by apply Z.land_ones. Qed.

Lemma high_bits k m x : 0 <= k -> 0 <= m -> Z.shiftr (Z.land x (Z.shiftl (Z.ones m) k)) k = (x / 2 ^ k) mod 2 ^ m.
Proof.
  intros Hk Hm. rewrite Z.shiftr_land, Z.shiftr_shiftl_l by lia. rewrite Z.sub_diag, Z.shiftl_0_r.
  by rewrite Z.land_ones, Z.shiftr_div_pow2 by lia.
Qed.

Ltac masks :=
  change 0xfc with (Z.shiftl (Z.ones 6) 2); change 0xf0 with (Z.shiftl (Z.ones 4) 4);
  change 0xc0 with (Z.shiftl (Z.ones 2) 6); change 0x30 with (Z.shiftl (Z.ones 2) 4);
  change 0x3c with (Z.shiftl (Z.ones 4) 2); change 0x3f with (Z.ones 6);
  change 0xf with (Z.ones 4); change 0x3 with (Z.ones 2).

Ltac bits :=
  masks; rewrite ?high_bits, ?low_bits by lia;
  repeat match goal with |- context [Z.shiftl ?x ?k] => rewrite (Z.shiftl_mul_pow2 x k) by lia end;
  change (2 ^ 2) with 4 in *; change (2 ^ 4) with 16 in *; change (2 ^ 6) with 64 in *.

Ltac byte_arith := unfold is_byte, u8 in *; change (2 ^ 8) with 256 in *; bits; Z.to_euclidean_division_equations; lia.

(** Decoding the four characters of a full group. *)
Lemma decode_group v0 v1 v2 v3 src out n :
  0 <= v0 < 64 -> 0 <= v1 < 64 -> 0 <= v2 < 64 -> 0 <= v3 < 64 ->
  decode_loop (tab v0 :: tab v1 :: tab v2 :: tab v3 :: src) [] out n =
  decode_loop src [] (out ++ c3 v0 v1 v2 v3) (n + 1 + 1 + 1 + 1).
Proof.
  intros H0 H1 H2 H3. cbn [decode_loop app].
  destruct (tab_inverse _ H0) as (E0 & -> & ->), (tab_inverse _ H1) as (E1 & -> & ->),
    (tab_inverse _ H2) as (E2 & -> & ->), (tab_inverse _ H3) as (E3 & -> & ->).
  by rewrite E0, E1, E2, E3.
Qed.

Lemma decode_encode_loop s out n :
  bytes_ok s -> fst (decode_loop (encode s) [] out n) = out ++ s.
Proof.
  revert out n. induction s as [|a|a b|a b c s IH] using triple_ind; intros out n Hs.
  - done.
  - apply Forall_cons_1 in Hs as [Ha _]. unfold is_byte in Ha. cbn [encode].
    assert (H0 : 0 <= Z.shiftr (Z.land a 252) 2 < 64) by byte_arith.
    assert (H1 : 0 <= Z.shiftl (Z.land a 3) 4 < 64) by byte_arith.
    cbn [decode_loop app]. destruct (tab_inverse _ H0) as (E0 & -> & ->), (tab_inverse _ H1) as (E1 & -> & ->).
    rewrite E0, E1. change (pad =? pad) with true. cbn [length fst nth take Nat.sub c3]. do 2 f_equal. byte_arith.
  - apply Forall_cons_1 in Hs as [Ha Hs]. apply Forall_cons_1 in Hs as [Hb _]. unfold is_byte in *. cbn [encode].
    assert (H0 : 0 <= Z.shiftr (Z.land a 252) 2 < 64) by byte_arith.
    assert (H1 : 0 <= Z.shiftl (Z.land a 3) 4 + Z.shiftr (Z.land b 240) 4 < 64) by byte_arith.
    assert (H2 : 0 <= Z.shiftl (Z.land b 15) 2 < 64) by byte_arith.
    cbn [decode_loop app]. destruct (tab_inverse _ H0) as (E0 & -> & ->), (tab_inverse _ H1) as (E1 & -> & ->),
      (tab_inverse _ H2) as (E2 & -> & ->).
    rewrite E0, E1, E2. change (pad =? pad) with true. cbn [length fst nth take Nat.sub c3].
    f_equal. f_equal; [|f_equal]; byte_arith.
  - apply Forall_cons_1 in Hs as [Ha Hs]. apply Forall_cons_1 in Hs as [Hb Hs]. apply Forall_cons_1 in Hs as [Hc Hs].
    unfold is_byte in Ha, Hb, Hc. cbn [encode]. rewrite decode_group by byte_arith. rewrite IH by done.
    rewrite <- app_assoc. f_equal. unfold c3. cbn [app]. f_equal; [|f_equal; [|f_equal]]; byte_arith.
Qed.

Lemma encode_length s : zlen (encode s) = encoded_size (zlen s).
Proof.
  unfold encoded_size. induction s as [| | |a b c s IH] using triple_ind; try done.
  cbn [encode length]. revert IH. generalize (length s), (length (encode s)). intros n m H. Z.to_euclidean_division_equations. lia.
Qed.

(** Round trip: for every byte string the encoder stays inside the string it
    sized, with the documented length, and decoding gives the bytes back, inside
    the string the decoder sized. *)
Theorem base64_roundtrip s :
  bytes_ok s ->
  exists e, base64_encode s = Some e /\ zlen e = encoded_size (zlen s) /\ base64_decode e = Some s.
Proof.
  intros Hs. exists (encode s). pose proof (encode_length s) as Hl. unfold base64_encode, base64_decode, decode.
  rewrite decode_encode_loop by done. simpl. rewrite Hl, Z.leb_refl. split_and!; try done.
  destruct (Z.leb_spec (zlen s) (decoded_size (encoded_size (zlen s)))); [done|].
  unfold decoded_size, encoded_size in *. Z.to_euclidean_division_equations. lia.
Qed.

Lemma base64_roundtrip_witness :
  bytes_ok [116; 104; 101; 32; 0; 255; 200] /\
  exists e, base64_encode [116; 104; 101; 32; 0; 255; 200] = Some e /\ zlen e = 12 /\
    base64_decode e = Some [116; 104; 101; 32; 0; 255; 200].
Proof.
  assert (H : bytes_ok [116; 104; 101; 32; 0; 255; 200]) by (repeat constructor; lia).
  split; [exact H | exact (base64_roundtrip _ H)].
Defined.

(** The decoder sizes its destination for inputs whose length is a multiple of
    four; an unpadded input makes it store past the end. *)
Theorem unpadded_decode_overflows : base64_decode (str "QUJDREU") = None /\ fst (decode (str "QUJDREU")) = str "ABCDE".
Proof. split; reflexivity. Qed.

End Base64.
