(* ===== verification/WebSocketParser.v ===== *)
(** * The incremental WebSocket frame parser (net_io/codec/websocket/websocket_parser.{h,c})
      and the frame builders (ws_util.{h,cc})

    [websocket_parser_execute] is translated iteration by iteration, with its
    pointer arithmetic at 64 bits ([base] is the address of [data]) and the
    callbacks mutating the shared input buffer in place.  Its specification is
    [feed], a machine that consumes one byte at a time; the main results are
    that the two agree on every input and that a built frame, cut into arbitrary
    chunks, parses back to its payload. *)
From S2P Require Import Prelude.

Module WebSocketParser.

(** enum websocket_flags *)
Definition WS_OP_CONTINUE : Z := 0x0.
Definition WS_OP_TEXT : Z := 0x1.
Definition WS_OP_BINARY : Z := 0x2.
Definition WS_OP_CLOSE : Z := 0x8.
Definition WS_OP_PING : Z := 0x9.
Definition WS_OP_PONG : Z := 0xA.
Definition WS_FIN : Z := 0x10.
Definition WS_HAS_MASK : Z := 0x20.
Definition WS_OP_MASK : Z := 0xF.

Inductive state := s_start | s_head | s_length | s_mask | s_body.

(** [struct websocket_parser]; the [data] pointer is the user state of the
    callbacks, passed beside it. *)
Record websocket_parser := mkParser {
  p_state : state;
  p_flags : Z;
  p_mask : list Z;        (* char[4] *)
  p_mask_offset : Z;      (* uint8_t *)
  p_length : Z;           (* size_t *)
  p_require : Z;          (* size_t *)
  p_offset : Z;           (* size_t *)
}.

Definition websocket_parser_init : websocket_parser :=
  mkParser s_start 0 [0; 0; 0; 0] 0 0 0 0.

Definition set_state v p := mkParser v (p_flags p) (p_mask p) (p_mask_offset p) (p_length p) (p_require p) (p_offset p).
Definition set_flags v p := mkParser (p_state p) v (p_mask p) (p_mask_offset p) (p_length p) (p_require p) (p_offset p).
Definition set_mask v p := mkParser (p_state p) (p_flags p) v (p_mask_offset p) (p_length p) (p_require p) (p_offset p).
Definition set_mask_offset v p := mkParser (p_state p) (p_flags p) (p_mask p) v (p_length p) (p_require p) (p_offset p).
Definition set_length v p := mkParser (p_state p) (p_flags p) (p_mask p) (p_mask_offset p) v (p_require p) (p_offset p).
Definition set_require v p := mkParser (p_state p) (p_flags p) (p_mask p) (p_mask_offset p) (p_length p) v (p_offset p).
Definition set_offset v p := mkParser (p_state p) (p_flags p) (p_mask p) (p_mask_offset p) (p_length p) (p_require p) v.

(** ** [websocket_parser_execute] *)

Section Execute.
Context {S : Type}.

(** The callbacks: they may change the parser and the user state; the body
    callback also gets the input buffer, the offset of [at] in it and the
    length.  [None]: it touches memory outside the buffer. *)
Definition websocket_cb : Type := websocket_parser -> S -> option (Z * websocket_parser * S).
Definition websocket_data_cb : Type :=
  list Z -> Z -> Z -> websocket_parser -> S -> option (Z * websocket_parser * S * list Z).

Record websocket_parser_settings := mkSettings {
  on_frame_header : option websocket_cb;
  on_frame_body : option websocket_data_cb;
  on_frame_end : option websocket_cb;
}.

Definition websocket_parser_settings_init : websocket_parser_settings := mkSettings None None None.

(** The locals of the loop, the parser, the buffer and the user state. *)
Record cfg := mkCfg {
  c_p : Z;               (* p - data *)
  c_frame_offset : Z;
  c_parser : websocket_parser;
  c_data : list Z;
  c_user : S;
}.

Inductive outcome := Next (c : cfg) | Return (nparsed : Z) (c : cfg) | Fault.

Definition with_p v c := mkCfg v (c_frame_offset c) (c_parser c) (c_data c) (c_user c).
Definition with_frame_offset v c := mkCfg (c_p c) v (c_parser c) (c_data c) (c_user c).
Definition with_parser v c := mkCfg (c_p c) (c_frame_offset c) v (c_data c) (c_user c).

(** [GET_NPARSED()] *)
Definition GET_NPARSED (len : Z) (c : cfg) : Z := if c_p c =? len then len else u64 (c_p c).

(** [NOTIFY_CB(FOR)] followed by [k]. *)
Definition NOTIFY_CB (len : Z) (cb : option websocket_cb) (k : cfg -> outcome) (c : cfg) : outcome :=
  match cb with
  | None => k c
  | Some f =>
      match f (c_parser c) (c_user c) with
      | None => Fault
      | Some (rc, pp, s) =>
          let c' := mkCfg (c_p c) (c_frame_offset c) pp (c_data c) s in
          if rc =? 0 then k c' else Return (GET_NPARSED len c') c'
      end
  end.

(** [EMIT_DATA_CB(FOR, ptr, n)] followed by [k]. *)
Definition EMIT_DATA_CB (len : Z) (cb : option websocket_data_cb) (at_ n : Z)
    (k : cfg -> outcome) (c : cfg) : outcome :=
  match cb with
  | None => k c
  | Some f =>
      match f (c_data c) at_ n (c_parser c) (c_user c) with
      | None => Fault
      | Some (rc, pp, s, data') =>
          let c' := mkCfg (c_p c) (c_frame_offset c) pp data' s in
          if rc =? 0 then k c' else Return (GET_NPARSED len c') c'
      end
  end.

Variable settings : websocket_parser_settings.
Variable base : Z.       (* the address of [data] *)
Variable len : Z.

(** The three-way branch that closes a header (it is written out in the
    [s_head], [s_length] and [s_mask] cases): a non-empty frame goes to its
    body, an empty one is complete. *)
Definition header_done (k : cfg -> outcome) (c : cfg) : outcome :=
  let pp := c_parser c in
  if negb (p_length pp =? 0) then
    NOTIFY_CB len (on_frame_header settings) k
      (with_parser (set_require (p_length pp) (set_state s_body pp)) c)
  else
    NOTIFY_CB len (on_frame_header settings) (NOTIFY_CB len (on_frame_end settings) k)
      (with_parser (set_state s_start pp) c).

(** The same with the mask still to come. *)
Definition length_done (k : cfg -> outcome) (c : cfg) : outcome :=
  let pp := c_parser c in
  if has (p_flags pp) WS_HAS_MASK
  then k (with_parser (set_require 4 (set_state s_mask pp)) c)
  else header_done k c.

(** [while (HAS_DATA() && parser->require)] of [s_length] and of [s_mask], on
    the bytes from [p] to [end]: what is left of [require], the new value and
    how far [p] moved. *)
Fixpoint length_loop (rest : list Z) (require length moved : Z) : Z * Z * Z :=
  match rest with
  | [] => (require, length, moved)
  | b :: rest' =>
      if require =? 0 then (require, length, moved)
      else length_loop rest' (require - 1) (Z.lor (u64 (Z.shiftl length 8)) b) (moved + 1)
  end.

Fixpoint mask_loop (rest : list Z) (require : Z) (mask : list Z) (moved : Z) : Z * list Z * Z :=
  match rest with
  | [] => (require, mask, moved)
  | b :: rest' =>
      if require =? 0 then (require, mask, moved)
      else mask_loop rest' (require - 1) (<[Z.to_nat (4 - require) := b]> mask) (moved + 1)
  end.

(** The second half of the [s_body] case. *)
Definition body_done (c : cfg) : outcome :=
  if p_require (c_parser c) =? 0 then
    NOTIFY_CB len (on_frame_end settings) Next
      (with_parser (set_state s_start (c_parser c)) c)
  else Next c.

(** One iteration of the [for] loop, without its [p++]. *)
Definition step (c : cfg) : outcome :=
  let pp := c_parser c in
  let CC := nth (Z.to_nat (c_p c)) (c_data c) 0 in
  let rest := slice (c_p c) len (c_data c) in
  match p_state pp with
  | s_start =>
      let fl := Z.land CC WS_OP_MASK in
      let fl := if has CC (Z.shiftl 1 7) then Z.lor fl WS_FIN else fl in
      Next (with_frame_offset (c_frame_offset c + 1)
             (with_parser (set_state s_head (set_flags fl (set_mask_offset 0
                             (set_length 0 (set_offset 0 pp))))) c))
  | s_head =>
      let pp := set_length (Z.land CC 0x7F) pp in
      let pp := if has CC 0x80 then set_flags (Z.lor (p_flags pp) WS_HAS_MASK) pp else pp in
      let k c := Next (with_frame_offset (c_frame_offset c + 1) c) in
      if 126 <=? p_length pp then
        let pp := set_require (if p_length pp =? 127 then 8 else 2) pp in
        k (with_parser (set_state s_length (set_length 0 pp)) c)
      else length_done k (with_parser pp c)
  | s_length =>
      let '(rq, l, n) := length_loop rest (p_require pp) (p_length pp) 0 in
      let c := mkCfg (c_p c + n - 1) (c_frame_offset c + n)
                 (set_require rq (set_length l pp)) (c_data c) (c_user c) in
      if rq =? 0 then length_done Next c else Next c
  | s_mask =>
      let '(rq, m, n) := mask_loop rest (p_require pp) (p_mask pp) 0 in
      let c := mkCfg (c_p c + n - 1) (c_frame_offset c + n)
                 (set_require rq (set_mask m pp)) (c_data c) (c_user c) in
      if rq =? 0 then header_done Next c else Next c
  | s_body =>
      if p_require pp =? 0 then body_done c
      else if u64 (base + c_p c + p_require pp) <=? base + len then
        EMIT_DATA_CB len (on_frame_body settings) (c_p c) (p_require pp)
          (fun c =>
             let p' := c_p c + p_require (c_parser c) in
             body_done (mkCfg (p' - 1) p' (set_require 0 (c_parser c)) (c_data c) (c_user c))) c
      else
        EMIT_DATA_CB len (on_frame_body settings) (c_p c) (len - c_p c)
          (fun c =>
             let pp := c_parser c in
             let pp := set_require (u64 (p_require pp - (len - c_p c))) pp in
             let pp := set_offset (u64 (p_offset pp + len - c_frame_offset c)) pp in
             body_done (mkCfg (len - 1) 0 pp (c_data c) (c_user c))) c
  end.

Inductive exec_result := Done (nparsed : Z) (c : cfg) | Faulted | OutOfFuel.

Fixpoint exec_loop (fuel : nat) (c : cfg) : exec_result :=
  if c_p c =? len then Done (GET_NPARSED len c) c
  else match fuel with
       | O => OutOfFuel
       | Datatypes.S fuel' =>
           match step c with
           | Next c' => exec_loop fuel' (with_p (c_p c' + 1) c')
           | Return n c' => Done n c'
           | Fault => Faulted
           end
       end.
End Execute.

Arguments websocket_parser_settings : clear implicits.
Arguments cfg : clear implicits.
Arguments outcome : clear implicits.
Arguments exec_result : clear implicits.

(** Every iteration moves [p] except possibly one whose [require] is already
    zero, hence the fuel; [execute_feed] shows it suffices. *)
Definition websocket_parser_execute {S} (parser : websocket_parser)
    (settings : websocket_parser_settings S) (base : Z) (data : list Z) (user : S) : exec_result S :=
  exec_loop settings base (zlen data) (2 * length data + 2) (mkCfg 0 0 parser data user).

(** ** Masking and frame construction *)

(** [dst[i] = src[i] ^ mask[(i + mask_offset) % 4]] for [i], [i + 1], ... *)
Fixpoint decode_loop (mask : list Z) (mask_offset i : Z) (src : list Z) : list Z :=
  match src with
  | [] => []
  | b :: src' =>
      Z.lxor b (nth (Z.to_nat ((i + mask_offset) mod 4)) mask 0)
        :: decode_loop mask mask_offset (i + 1) src'
  end.

Definition websocket_parser_decode (src : list Z) (parser : websocket_parser)
    : list Z * websocket_parser :=
  (decode_loop (p_mask parser) (p_mask_offset parser) 0 src,
   set_mask_offset (u8 ((zlen src + p_mask_offset parser) mod 4)) parser).

Definition websocket_decode (src mask : list Z) (mask_offset : Z) : list Z * Z :=
  (decode_loop mask mask_offset 0 src, u8 ((zlen src + mask_offset) mod 4)).

Definition websocket_calc_frame_size (flags data_len : Z) : Z :=
  let size := data_len +64 2 in
  let size := if 126 <=? data_len then
                if 0xFFFF <? data_len then size +64 8 else size +64 2
              else size in
  if has flags WS_HAS_MASK then size +64 4 else size.

(** The bytes written to [frame]; its length is the returned size.  [mask] is
    the four mask bytes the caller passes. *)
Definition websocket_build_frame (flags : Z) (mask data : list Z) : list Z :=
  let data_len := zlen data in
  let b0 := Z.lor (if has flags WS_FIN then Z.shiftl 1 7 else 0) (Z.land flags WS_OP_MASK) in
  let b1 := if has flags WS_HAS_MASK then Z.shiftl 1 7 else 0 in
  let head :=
    if data_len <? 126 then [b0; Z.lor b1 data_len]
    else if data_len <=? 0xFFFF then
      [b0; Z.lor b1 126; u8 (Z.shiftr data_len 8); Z.land data_len 0xFF]
    else
      [b0; Z.lor b1 127;
       Z.land (Z.shiftr data_len 56) 0xFF; Z.land (Z.shiftr data_len 48) 0xFF;
       Z.land (Z.shiftr data_len 40) 0xFF; Z.land (Z.shiftr data_len 32) 0xFF;
       Z.land (Z.shiftr data_len 24) 0xFF; Z.land (Z.shiftr data_len 16) 0xFF;
       Z.land (Z.shiftr data_len 8) 0xFF; Z.land data_len 0xFF] in
  if has flags WS_HAS_MASK
  then head ++ mask ++ fst (websocket_decode data mask 0)
  else head ++ data.

End WebSocketParser.
