(* ===== verification/WebSocketFrames.v ===== *)
(** * Frame assembly of the WebSocket codec and the byte-wise reference parser

    The frame callbacks [WSCodecService] installs in the parser settings
    (ws_codec_service.cc, ws_message.cc) and the proof that running
    [websocket_parser_execute] with them is the same as feeding the bytes one by
    one to [feed]: the parser has no dependence on how the stream is chunked. *)
From S2P Require Import Prelude WebSocketParser.
Import WebSocketParser.

Module WebSocketFrames.

(** class WebsocketFrame *)
Record WebsocketFrame := mkFrame { opcode_ : Z; payload_ : list Z }.
#[export] Instance WebsocketFrame_eq_dec : EqDecision WebsocketFrame.
Proof. solve_decision. Defined.

Definition NewFrame : WebsocketFrame := mkFrame WS_OP_TEXT [].
Definition SetOpCode (op : Z) (f : WebsocketFrame) : WebsocketFrame := mkFrame op (payload_ f).
Definition AppendData (bs : list Z) (f : WebsocketFrame) : WebsocketFrame :=
  mkFrame (opcode_ f) (payload_ f ++ bs).

Section Sink.
(** The rest of the service, and what [CommitFrameMessage] does to it (see
    WebSocketCodec.v): it is given [current_] and returns what is left in
    [current_]. *)
Context {R : Type} (commit : WebsocketFrame -> R -> option WebsocketFrame * R).

(** [current_] and the rest of the service. *)
Local Abbreviation sink := (option WebsocketFrame * R)%type.

Definition begin_frame (flags : Z) (cur : option WebsocketFrame) : WebsocketFrame :=
  let message := default NewFrame cur in
  let opcode := Z.land flags WS_OP_MASK in
  if negb (opcode =? WS_OP_CONTINUE) then SetOpCode opcode message else message.

Definition OnFrameBegin (parser : websocket_parser) (s : sink) : option (Z * websocket_parser * sink) :=
  Some (0, parser, (Some (begin_frame (p_flags parser) (fst s)), snd s)).

Definition OnFrameBody (data : list Z) (at_ len : Z) (parser : websocket_parser) (s : sink)
    : option (Z * websocket_parser * sink * list Z) :=
  if (0 <=? at_) && (0 <=? len) && (at_ + len <=? zlen data) then
    let bytes := slice at_ (at_ + len) data in
    let '(bytes, parser) :=
      if has (p_flags parser) WS_HAS_MASK then websocket_parser_decode bytes parser
      else (bytes, parser) in
    data' ← vec_store at_ bytes data;
    current ← fst s;
    Some (0, parser, (Some (AppendData bytes current), snd s), data')
  else None.

Definition OnFrameFinish (parser : websocket_parser) (s : sink) : option (Z * websocket_parser * sink) :=
  if has (p_flags parser) WS_FIN then
    current ← fst s;
    Some (0, parser, commit current (snd s))
  else Some (0, parser, s).

(** The settings installed by the constructor of [WSCodecService]. *)
Definition ws_settings : websocket_parser_settings sink :=
  mkSettings (Some OnFrameBegin) (Some OnFrameBody) (Some OnFrameFinish).

(** ** The reference: one byte at a time

    [None] is a frame that announces [2^63] bytes or more (RFC 6455 requires
    the top bit of the length to be zero). *)

Definition end_frame (p : websocket_parser) (s : sink) : option (websocket_parser * sink) :=
  r ← OnFrameFinish p s; Some (set_state s_start p, snd r).

Definition enter_body (p : websocket_parser) (s : sink) : option (websocket_parser * sink) :=
  let s := (Some (begin_frame (p_flags p) (fst s)), snd s) in
  if p_length p =? 0 then end_frame p s
  else if 2 ^ 63 <=? p_length p then None
  else Some (set_require (p_length p) (set_state s_body p), s).

Definition enter_mask (p : websocket_parser) (s : sink) : option (websocket_parser * sink) :=
  if has (p_flags p) WS_HAS_MASK then Some (set_require 4 (set_state s_mask p), s)
  else enter_body p s.

Definition body_byte (b : Z) (p : websocket_parser) (s : sink) : option (websocket_parser * sink) :=
  current ← fst s;
  let '(b, p) :=
    if has (p_flags p) WS_HAS_MASK
    then (Z.lxor b (nth (Z.to_nat (p_mask_offset p mod 4)) (p_mask p) 0),
          set_mask_offset ((p_mask_offset p + 1) mod 4) p)
    else (b, p) in
  Some (p, (Some (AppendData [b] current), snd s)).

Definition feed1 (st : websocket_parser * sink) (b : Z) : option (websocket_parser * sink) :=
  let '(p, s) := st in
  match p_state p with
  | s_start =>
      let fl := Z.lor (Z.land b WS_OP_MASK) (if has b 0x80 then WS_FIN else 0) in
      Some (set_state s_head (set_flags fl (set_mask_offset 0 (set_length 0 p))), s)
  | s_head =>
      let l := Z.land b 0x7F in
      let p := if has b 0x80 then set_flags (Z.lor (p_flags p) WS_HAS_MASK) p else p in
      if l =? 127 then Some (set_state s_length (set_length 0 (set_require 8 p)), s)
      else if l =? 126 then Some (set_state s_length (set_length 0 (set_require 2 p)), s)
      else enter_mask (set_length l p) s
  | s_length =>
      let rq := p_require p - 1 in
      let p := set_require rq (set_length (Z.lor (u64 (Z.shiftl (p_length p) 8)) b) p) in
      if rq =? 0 then enter_mask p s else Some (p, s)
  | s_mask =>
      let rq := p_require p - 1 in
      let p := set_require rq (set_mask (<[Z.to_nat (4 - p_require p) := b]> (p_mask p)) p) in
      if rq =? 0 then enter_body p s else Some (p, s)
  | s_body =>
      let rq := p_require p - 1 in
      r ← body_byte b p s;
      let '(p, s) := r in
      if rq =? 0 then end_frame (set_require rq p) s else Some (set_require rq p, s)
  end.

Definition feed (st : websocket_parser * sink) (bs : list Z) : option (websocket_parser * sink) :=
  foldl (fun o b => st ← o; feed1 st b) (Some st) bs.

(** The parser up to [offset], a diagnostic counter nothing reads. *)
Definition core (p : websocket_parser) : websocket_parser := set_offset 0 p.

(** Well-formed between two bytes: the sub-state's counter is positive and
    within its field, a body has a frame to append to. *)
Definition wf (st : websocket_parser * sink) : Prop :=
  let '(p, s) := st in
  length (p_mask p) = 4%nat /\ 0 <= p_mask_offset p < 4 /\ 0 <= p_length p /\
  match p_state p with
  | s_length => 0 < p_require p <= 8
  | s_mask => 0 < p_require p <= 4
  | s_body => 0 < p_require p < 2 ^ 63 /\ is_Some (fst s)
  | _ => True
  end.

Lemma feed_None bs : foldl (fun o b => st ← o; feed1 st b) None bs = None.
Proof. by induction bs. Qed.

Lemma feed_nil o : (o ≫= fun st => feed st []) = o.
Proof. by destruct o. Qed.

Lemma feed_cons st b bs : feed st (b :: bs) = (st' ← feed1 st b; feed st' bs).
Proof. unfold feed; simpl. destruct (feed1 st b); simpl; [done | apply feed_None]. Qed.

Lemma feed_app st bs1 bs2 : feed st (bs1 ++ bs2) = (st' ← feed st bs1; feed st' bs2).
Proof. unfold feed. rewrite foldl_app. destruct (foldl _ _ bs1); simpl; [done | apply feed_None]. Qed.
Lemma land_nonneg_r b m : 0 <= m -> 0 <= Z.land b m.
Proof. intros. apply Z.land_nonneg. by right. Qed.

Lemma enter_body_wf p s st :
  length (p_mask p) = 4%nat -> 0 <= p_mask_offset p < 4 -> 0 <= p_length p ->
  enter_body p s = Some st -> wf st.
Proof.
  intros Hm Ho Hl. unfold enter_body, end_frame, OnFrameFinish.
  destruct (Z.eqb_spec (p_length p) 0); simpl.
  { destruct (has _ _); simpl; intros [= <-]; simpl; conj. }
  destruct (Z.leb_spec (2 ^ 63) (p_length p)); [done|].
  intros [= <-]. conj.
Qed.

Lemma enter_mask_wf p s st :
  length (p_mask p) = 4%nat -> 0 <= p_mask_offset p < 4 -> 0 <= p_length p ->
  enter_mask p s = Some st -> wf st.
Proof.
  intros Hm Ho Hl. unfold enter_mask. destruct (has _ _); [|by apply enter_body_wf].
  intros [= <-]. conj.
Qed.

Lemma feed1_wf st b st' : is_byte b -> wf st -> feed1 st b = Some st' -> wf st'.
Proof.
  destruct st as [p s]. intros Hb (Hm & Ho & Hl & Hs). unfold feed1.
  destruct (p_state p) eqn:E.
  - intros [= <-]. simpl. conj.
  - repeat case_match; simplify_eq/=; try (intros [= <-]; simpl; conj);
      apply enter_mask_wf; simpl; try done; by apply land_nonneg_r.
  - assert (0 <= Z.lor (u64 (Z.shiftl (p_length p) 8)) b).
    { apply Z.lor_nonneg. split; [apply u64_range | apply Hb]. }
    destruct (Z.eqb_spec (p_require p - 1) 0); [by apply enter_mask_wf|].
    intros [= <-]. simpl. rewrite E. conj.
  - destruct (Z.eqb_spec (p_require p - 1) 0).
    { apply enter_body_wf; simpl; [by rewrite length_insert | done..]. }
    intros [= <-]. simpl. rewrite E, length_insert. conj.
  - pose proof (Z.mod_pos_bound (p_mask_offset p + 1) 4 ltac:(lia)).
    destruct Hs as [Hr [cur Hcur]]. unfold body_byte. rewrite Hcur. simpl.
    destruct (has (p_flags p) WS_HAS_MASK); simpl; unfold end_frame, OnFrameFinish;
      destruct (Z.eqb_spec (p_require p - 1) 0); simpl; try (destruct (has _ _));
      intros [= <-]; simpl; rewrite ?E; conj.
Qed.

Lemma feed_wf bs st st' : bytes_ok bs -> wf st -> feed st bs = Some st' -> wf st'.
Proof.
  revert st. induction bs as [|b bs IH]; intros st Hbs Hwf.
  - by intros [= <-].
  - apply Forall_cons_1 in Hbs as [Hb Hbs]. rewrite feed_cons.
    destruct (feed1 st b) as [st1|] eqn:E; [|done]. simpl. eauto using feed1_wf.
Qed.

(** ** Bulk transitions as iterated [feed1] *)

Lemma length_loop_feed rest p s rq l moved :
  p_state p = s_length -> p_require p = rq -> p_length p = l -> 0 < rq ->
  let '(rq', l', moved') := length_loop rest rq l moved in
  let n := moved' - moved in
  0 <= n <= zlen rest /\ (0 < zlen rest -> 0 < n) /\ rq' = rq - n /\
  (rq' <> 0 -> n = zlen rest) /\ 0 <= rq' /\
  feed (p, s) (ztake n rest) =
     let p' := set_require rq' (set_length l' p) in
     if rq' =? 0 then enter_mask p' s else Some (p', s).
Proof.
  revert p rq l moved. induction rest as [|b rest IH]; intros p rq l moved Hs Hrq Hl Hpos; cbn [length_loop].
  { simpl. rewrite Z.sub_diag. split_and!; try lia. destruct (Z.eqb_spec rq 0); [lia|]. by destruct p; simplify_eq/=. }
  destruct (Z.eqb_spec rq 0); [lia|].
  set (p1 := set_require (rq - 1) (set_length (Z.lor (u64 (Z.shiftl l 8)) b) p)).
  assert (Hf : feed1 (p, s) b = if rq - 1 =? 0 then enter_mask p1 s else Some (p1, s)).
  { unfold feed1. by rewrite Hs, Hrq, Hl. }
  destruct (Z.eqb_spec (rq - 1) 0) as [H1|H1].
  - assert (length_loop rest (rq - 1) (Z.lor (u64 (Z.shiftl l 8)) b) (moved + 1)
            = (rq - 1, Z.lor (u64 (Z.shiftl l 8)) b, moved + 1)) as ->.
    { destruct rest; simpl; [done|]. by rewrite H1. }
    rewrite H1. simpl. split_and!; try lia. rewrite Z.add_simpl_l.
    change (ztake 1 (b :: rest)) with [b]. rewrite feed_cons, Hf. unfold p1. rewrite H1.
    apply feed_nil.
  - specialize (IH p1 (rq - 1) _ (moved + 1) Hs eq_refl eq_refl ltac:(lia)).
    destruct (length_loop rest _ _ _) as [[rq' l'] moved'].
    destruct IH as (? & ? & ? & ? & ? & IH). split_and!; try (simpl; lia).
    rewrite ztake_cons by lia. rewrite feed_cons, Hf. simpl.
    replace (moved' - moved - 1) with (moved' - (moved + 1)) by lia. by rewrite IH.
Qed.

Lemma mask_loop_feed rest p s rq m moved :
  p_state p = s_mask -> p_require p = rq -> p_mask p = m -> 0 < rq ->
  let '(rq', m', moved') := mask_loop rest rq m moved in
  let n := moved' - moved in
  0 <= n <= zlen rest /\ (0 < zlen rest -> 0 < n) /\ rq' = rq - n /\
  (rq' <> 0 -> n = zlen rest) /\ 0 <= rq' /\
  feed (p, s) (ztake n rest) =
     let p' := set_require rq' (set_mask m' p) in
     if rq' =? 0 then enter_body p' s else Some (p', s).
Proof.
  revert p rq m moved. induction rest as [|b rest IH]; intros p rq m moved Hs Hrq Hm Hpos; cbn [mask_loop].
  { simpl. rewrite Z.sub_diag. split_and!; try lia. destruct (Z.eqb_spec rq 0); [lia|]. by destruct p; simplify_eq/=. }
  destruct (Z.eqb_spec rq 0); [lia|].
  set (p1 := set_require (rq - 1) (set_mask (<[Z.to_nat (4 - rq) := b]> m) p)).
  assert (Hf : feed1 (p, s) b = if rq - 1 =? 0 then enter_body p1 s else Some (p1, s)).
  { unfold feed1. by rewrite Hs, Hrq, Hm. }
  destruct (Z.eqb_spec (rq - 1) 0) as [H1|H1].
  - assert (mask_loop rest (rq - 1) (<[Z.to_nat (4 - rq) := b]> m) (moved + 1)
            = (rq - 1, <[Z.to_nat (4 - rq) := b]> m, moved + 1)) as ->.
    { destruct rest; simpl; [done|]. by rewrite H1. }
    rewrite H1. simpl. split_and!; try lia. rewrite Z.add_simpl_l.
    change (ztake 1 (b :: rest)) with [b]. rewrite feed_cons, Hf. unfold p1. rewrite H1.
    apply feed_nil.
  - specialize (IH p1 (rq - 1) _ (moved + 1) Hs eq_refl eq_refl ltac:(lia)).
    destruct (mask_loop rest _ _ _) as [[rq' m'] moved'].
    destruct IH as (? & ? & ? & ? & ? & IH). split_and!; try (simpl; lia).
    rewrite ztake_cons by lia. rewrite feed_cons, Hf. simpl.
    replace (moved' - moved - 1) with (moved' - (moved + 1)) by lia. by rewrite IH.
Qed.

(** Masking a chunk continues where the previous one stopped. *)
Lemma decode_loop_shift m mo i src :
  decode_loop m mo (i + 1) src = decode_loop m ((mo + 1) mod 4) i src.
Proof.
  revert i. induction src as [|b src IH]; intros i; simpl; [done|]. f_equal; [|by apply IH].
  do 3 f_equal. rewrite Zplus_mod_idemp_r. f_equal. lia.
Qed.

(** What the body callback makes of a chunk. *)
Definition body_chunk (bs : list Z) (p : websocket_parser) : list Z * websocket_parser :=
  if has (p_flags p) WS_HAS_MASK
  then (decode_loop (p_mask p) (p_mask_offset p) 0 bs,
        set_mask_offset ((zlen bs + p_mask_offset p) mod 4) p)
  else (bs, p).

Lemma feed_body bs p s cur :
  p_state p = s_body -> fst s = Some cur -> 0 < zlen bs <= p_require p ->
  feed (p, s) bs =
    let p' := set_require (p_require p - zlen bs) (snd (body_chunk bs p)) in
    let s' := (Some (AppendData (fst (body_chunk bs p)) cur), snd s) in
    if p_require p - zlen bs =? 0 then end_frame p' s' else Some (p', s').
Proof.
  revert p s cur. induction bs as [|b bs IH]; intros p s cur Hs Hcur Hn; [simpl in *; lia|].
  set (p1 := set_require (p_require p - 1) (snd (body_chunk [b] p))).
  set (s1 := (Some (AppendData (fst (body_chunk [b] p)) cur), snd s)).
  assert (Hf : feed1 (p, s) b = if p_require p - 1 =? 0 then end_frame p1 s1 else Some (p1, s1)).
  { unfold feed1, body_byte. rewrite Hs, Hcur. simpl. unfold p1, s1, body_chunk.
    destruct (has (p_flags p) WS_HAS_MASK); [|done]. cbn [decode_loop fst snd].
    change (zlen [b]) with 1. by rewrite Z.add_0_l, (Z.add_comm 1). }
  rewrite feed_cons, Hf. destruct bs as [|b' bs].
  { simpl length. change (Z.of_nat 1) with 1. fold p1 s1. cbv zeta.
    destruct (p_require p - 1 =? 0); [apply feed_nil | done]. }
  destruct (Z.eqb_spec (p_require p - 1) 0); [simpl in *; lia|]. simpl mbind.
  rewrite (IH p1 s1 (AppendData (fst (body_chunk [b] p)) cur)); [| | done |].
  2: { unfold p1, body_chunk. by destruct (has _ _). }
  2: { unfold p1. simpl in *. lia. }
  cbv zeta. set (rest := b' :: bs).
  replace (p_require p1 - zlen rest) with (p_require p - zlen (b :: rest)) by (unfold p1; simpl; lia).
  assert (He : body_chunk (b :: rest) p =
    (fst (body_chunk [b] p) ++ fst (body_chunk rest p1), set_require (p_require p) (snd (body_chunk rest p1)))).
  { unfold p1, body_chunk. destruct (has (p_flags p) WS_HAS_MASK) eqn:E;
      cbn [fst snd set_require set_mask_offset p_flags p_mask p_mask_offset]; rewrite E; [|by destruct p].
    change (zlen [b]) with 1. rewrite (Z.add_comm 1). cbn [fst snd]. f_equal.
    - cbn [decode_loop app]. f_equal. apply (decode_loop_shift _ _ 0).
    - unfold set_mask_offset, set_require; cbn. f_equal.
      rewrite Zplus_mod_idemp_r. f_equal. lia. }
  rewrite He. simpl fst. simpl snd. unfold AppendData. simpl. by rewrite <- app_assoc.
Qed.

(** ** One iteration of the [for] loop is a run of [feed] *)

Lemma header_done_feed len k c st :
  enter_body (core (c_parser c)) (c_user c) = Some st ->
  exists pr, core pr = fst st /\
    header_done ws_settings len k c = k (mkCfg (c_p c) (c_frame_offset c) pr (c_data c) (snd st)).
Proof.
  destruct c as [p fo pr data [cur r]]. unfold enter_body, end_frame, header_done, NOTIFY_CB. simpl.
  destruct (Z.eqb_spec (p_length pr) 0) as [E|E]; simpl.
  - unfold OnFrameFinish. simpl. destruct (has (p_flags pr) WS_FIN); simpl;
      intros [= <-]; by exists (set_state s_start pr).
  - destruct (Z.leb_spec (2 ^ 63) (p_length pr)); [done|]. intros [= <-].
    by exists (set_require (p_length pr) (set_state s_body pr)).
Qed.

Lemma length_done_feed len k c st :
  enter_mask (core (c_parser c)) (c_user c) = Some st ->
  exists pr, core pr = fst st /\
    length_done ws_settings len k c = k (mkCfg (c_p c) (c_frame_offset c) pr (c_data c) (snd st)).
Proof.
  unfold enter_mask, length_done. simpl.
  destruct (has (p_flags (c_parser c)) WS_HAS_MASK); [|by apply header_done_feed].
  intros [= <-]. by exists (set_require 4 (set_state s_mask (c_parser c))).
Qed.

(** [c'] is [c] after some of the remaining bytes, in agreement with [feed]. *)
Definition advanced (len : Z) (c c' : cfg sink) (st : websocket_parser * sink) : Prop :=
  c_p c < c_p c' + 1 <= len /\ zlen (c_data c') = len /\
  slice (c_p c' + 1) len (c_data c') = slice (c_p c' + 1) len (c_data c) /\
  feed (core (c_parser c), c_user c) (slice (c_p c) (c_p c' + 1) (c_data c)) =
    Some (core (c_parser c'), c_user c') /\
  feed (core (c_parser c'), c_user c') (slice (c_p c' + 1) len (c_data c')) = Some st.

(** How [advanced] is established: the chunk fed and the parser it leads to. *)
Lemma advanced_intro len c c' n st :
  zlen (c_data c) = len -> 0 <= c_p c -> 0 < n <= len - c_p c -> c_p c' = c_p c + n - 1 ->
  zlen (c_data c') = len ->
  slice (c_p c + n) len (c_data c') = slice (c_p c + n) len (c_data c) ->
  feed (core (c_parser c), c_user c) (ztake n (slice (c_p c) len (c_data c))) =
    Some (core (c_parser c'), c_user c') ->
  feed (core (c_parser c), c_user c) (slice (c_p c) len (c_data c)) = Some st ->
  advanced len c c' st.
Proof.
  intros Hlen Hp Hn Hp' Hd Hs Hf Hst.
  assert (Hsp : slice (c_p c) len (c_data c) =
    slice (c_p c) (c_p c + n) (c_data c) ++ slice (c_p c + n) len (c_data c))
    by (apply slice_split; lia).
  assert (Ht : ztake n (slice (c_p c) len (c_data c)) = slice (c_p c) (c_p c + n) (c_data c)).
  { rewrite Hsp. apply ztake_app. rewrite zlen_slice; lia. }
  unfold advanced. replace (c_p c' + 1) with (c_p c + n) by lia.
  rewrite Ht in Hf. rewrite Hsp, feed_app, Hf in Hst. simpl in Hst. rewrite Hs. conj.
Qed.

Section Step.
Context (base len : Z) (c : cfg sink) (st : websocket_parser * sink).
Hypothesis Hlen : zlen (c_data c) = len.
Hypothesis Hp : 0 <= c_p c < len.
Hypothesis Hwf : wf (core (c_parser c), c_user c).
Hypothesis Hst : feed (core (c_parser c), c_user c) (slice (c_p c) len (c_data c)) = Some st.

Let pr := c_parser c.
Let CC := nth (Z.to_nat (c_p c)) (c_data c) 0.

Lemma rest_cons : slice (c_p c) len (c_data c) = CC :: slice (c_p c + 1) len (c_data c).
Proof. apply slice_cons; lia. Qed.

(** A single byte accepted by [feed1]. *)
Lemma advanced_1 c' :
  c_p c' = c_p c -> c_data c' = c_data c ->
  feed1 (core pr, c_user c) CC = Some (core (c_parser c'), c_user c') ->
  advanced len c c' st.
Proof.
  intros Hp' Hd Hf. apply (advanced_intro len c c' 1); try done; try lia; try congruence.
  rewrite rest_cons. change (ztake 1 (CC :: _)) with [CC]. rewrite feed_cons. fold pr. by rewrite Hf.
Qed.

Lemma feed1_Some : exists st1, feed1 (core pr, c_user c) CC = Some st1.
Proof.
  rewrite rest_cons, feed_cons in Hst. unfold pr.
  destruct (feed1 (core (c_parser c), c_user c) CC); eauto; done.
Qed.

Lemma step_start : p_state pr = s_start -> exists c', step ws_settings base len c = Next c' /\ advanced len c c' st.
Proof.
  intros Hs. unfold step. fold pr. rewrite Hs. eexists; split; [done|].
  apply advanced_1; [done..|]. unfold feed1. simpl. rewrite Hs. unfold core, set_offset, CC. simpl.
  do 3 f_equal. change (1 ≪ 7) with 0x80. destruct (has _ _); [done|]. by rewrite Z.lor_0_r.
Qed.

Lemma step_head : p_state pr = s_head -> exists c', step ws_settings base len c = Next c' /\ advanced len c c' st.
Proof.
  intros Hs. destruct feed1_Some as [st1 Hf]. unfold step. fold pr CC. rewrite Hs.
  set (pr1 := if has CC 128 then _ else _).
  assert (Hl : p_length pr1 = Z.land CC 127) by (unfold pr1; by destruct (has CC 128)).
  assert (Hb : 0 <= Z.land CC 127 < 128).
  { change 127 with (Z.ones 7). rewrite Z.land_ones by lia. apply Z.mod_pos_bound. lia. }
  pose proof Hf as Hf1. unfold feed1 in Hf1. simpl in Hf1. rewrite Hs in Hf1. rewrite Hl.
  destruct (Z.leb_spec 126 (Z.land CC 127)) as [H126|H126].
  - eexists; split; [done|]. apply advanced_1; [done..|]. rewrite Hf.
    destruct (Z.eqb_spec (Z.land CC 127) 127) as [H127|H127].
    + rewrite <- Hf1. unfold pr1. simpl. by destruct (has CC 128).
    + destruct (Z.eqb_spec (Z.land CC 127) 126); [|lia].
      rewrite <- Hf1. unfold pr1. simpl. by destruct (has CC 128).
  - destruct (Z.eqb_spec (Z.land CC 127) 127); [lia|]. destruct (Z.eqb_spec (Z.land CC 127) 126); [lia|].
    match goal with |- exists c', length_done _ _ ?k ?c1 = _ /\ _ =>
      destruct (length_done_feed len k c1 st1) as (pr2 & Hpr2 & ->) end.
    { simpl. rewrite <- Hf1. unfold pr1. by destruct (has CC 128). }
    simpl. eexists; split; [done|]. apply advanced_1; [done..|]. rewrite Hf. simpl. rewrite Hpr2.
    by destruct st1.
Qed.

Lemma step_length : p_state pr = s_length -> exists c', step ws_settings base len c = Next c' /\ advanced len c c' st.
Proof.
  intros Hs. unfold step. fold pr. rewrite Hs. set (rest := slice (c_p c) len (c_data c)).
  assert (Hr : zlen rest = len - c_p c) by (apply zlen_slice; lia).
  destruct Hwf as (_ & _ & _ & Hrq). simpl in Hrq. fold pr in Hrq. rewrite Hs in Hrq.
  pose proof (length_loop_feed rest (core pr) (c_user c) (p_require pr) (p_length pr) 0 Hs eq_refl eq_refl ltac:(lia)) as H.
  destruct (length_loop rest _ _ 0) as [[rq' l'] n]. rewrite Z.sub_0_r in H.
  destruct H as (Hn1 & Hn2 & Hrq' & Hn3 & Hrq0 & Hf).
  set (c1 := mkCfg _ _ _ _ _). destruct (Z.eqb_spec rq' 0) as [H0|H0].
  - assert (Hm : exists st1, enter_mask (core (c_parser c1)) (c_user c) = Some st1).
    { rewrite <- (ztake_zdrop n (slice _ _ _)), feed_app in Hst. fold pr rest in Hst. rewrite Hf in Hst.
      unfold core, c1 in *. simpl in *. destruct (enter_mask _ _); [eauto | done]. }
    destruct Hm as [st1 Hm]. destruct (length_done_feed len Next c1 st1 Hm) as (pr2 & Hpr2 & ->).
    eexists; split; [done|]. apply (advanced_intro len c _ n); try done; try (simpl; lia).
    fold pr rest. rewrite Hf. simpl. rewrite Hpr2. destruct st1. exact Hm.
  - eexists; split; [done|]. apply (advanced_intro len c _ n); try done; try (simpl; lia).
Qed.

Lemma step_mask : p_state pr = s_mask -> exists c', step ws_settings base len c = Next c' /\ advanced len c c' st.
Proof.
  intros Hs. unfold step. fold pr. rewrite Hs. set (rest := slice (c_p c) len (c_data c)).
  assert (Hr : zlen rest = len - c_p c) by (apply zlen_slice; lia).
  destruct Hwf as (_ & _ & _ & Hrq). simpl in Hrq. fold pr in Hrq. rewrite Hs in Hrq.
  pose proof (mask_loop_feed rest (core pr) (c_user c) (p_require pr) (p_mask pr) 0 Hs eq_refl eq_refl ltac:(lia)) as H.
  destruct (mask_loop rest _ _ 0) as [[rq' m'] n]. rewrite Z.sub_0_r in H.
  destruct H as (Hn1 & Hn2 & Hrq' & Hn3 & Hrq0 & Hf).
  set (c1 := mkCfg _ _ _ _ _). destruct (Z.eqb_spec rq' 0) as [H0|H0].
  - assert (Hm : exists st1, enter_body (core (c_parser c1)) (c_user c) = Some st1).
    { rewrite <- (ztake_zdrop n (slice _ _ _)), feed_app in Hst. fold pr rest in Hst. rewrite Hf in Hst.
      unfold core, c1 in *. simpl in *. destruct (enter_body _ _); [eauto | done]. }
    destruct Hm as [st1 Hm]. destruct (header_done_feed len Next c1 st1 Hm) as (pr2 & Hpr2 & ->).
    eexists; split; [done|]. apply (advanced_intro len c _ n); try done; try (simpl; lia).
    fold pr rest. rewrite Hf. simpl. rewrite Hpr2. destruct st1. exact Hm.
  - eexists; split; [done|]. apply (advanced_intro len c _ n); try done; try (simpl; lia).
Qed.
Lemma decode_loop_length m mo i src : length (decode_loop m mo i src) = length src.
Proof. revert i. induction src; intros; simpl; auto. Qed.

Lemma body_chunk_length bs p : length (fst (body_chunk bs p)) = length bs.
Proof. unfold body_chunk. destruct (has _ _); [apply decode_loop_length | done]. Qed.

Lemma body_chunk_core bs p : body_chunk bs (core p) = (fst (body_chunk bs p), core (snd (body_chunk bs p))).
Proof. unfold body_chunk. simpl. by destruct (has _ _). Qed.

Lemma body_chunk_frame bs p :
  p_require (snd (body_chunk bs p)) = p_require p /\ p_flags (snd (body_chunk bs p)) = p_flags p /\
  p_offset (snd (body_chunk bs p)) = p_offset p /\ p_state (snd (body_chunk bs p)) = p_state p.
Proof. unfold body_chunk. by destruct (has _ _). Qed.

Lemma OnFrameBody_chunk data at_ n p s cur :
  0 <= at_ -> 0 <= n -> at_ + n <= zlen data -> fst s = Some cur -> 0 <= p_mask_offset p < 4 ->
  let bs := slice at_ (at_ + n) data in
  OnFrameBody data at_ n p s =
    Some (0, snd (body_chunk bs p), (Some (AppendData (fst (body_chunk bs p)) cur), snd s),
          ztake at_ data ++ fst (body_chunk bs p) ++ zdrop (at_ + n) data).
Proof.
  intros Ha Hn Hd Hcur Hmo bs. unfold OnFrameBody.
  destruct (Z.leb_spec 0 at_), (Z.leb_spec 0 n), (Z.leb_spec (at_ + n) (zlen data)); try lia. cbn [andb].
  fold bs. assert (Hbs : zlen bs = n) by (unfold bs; rewrite zlen_slice; lia).
  assert ((if has (p_flags p) WS_HAS_MASK then websocket_parser_decode bs p else (bs, p)) = body_chunk bs p) as ->.
  { unfold body_chunk, websocket_parser_decode. destruct (has _ _); [|done].
    rewrite u8_id; [done|]. pose proof (Z.mod_pos_bound (zlen bs + p_mask_offset p) 4). lia. }
  pose proof (body_chunk_length bs p) as Hl. destruct (body_chunk bs p) as [bs' p']. simpl in *.
  rewrite vec_store_Some by lia. simpl. rewrite Hcur. simpl. do 4 f_equal. f_equal. lia.
Qed.

(** The in-place unmasking leaves the bytes after the chunk alone. *)
Lemma overwrite_tail (at_ n : Z) (bs data : list Z) :
  0 <= at_ -> zlen bs = n -> at_ + n <= zlen data ->
  let data' := ztake at_ data ++ bs ++ zdrop (at_ + n) data in
  zlen data' = zlen data /\
  slice (at_ + n) (zlen data) data' = slice (at_ + n) (zlen data) data.
Proof.
  intros Ha Hn Hd data'. unfold data'. split.
  - rewrite !length_app, !Nat2Z.inj_add, zlen_ztake, zlen_zdrop; lia.
  - rewrite app_assoc.
    assert (zlen (ztake at_ data ++ bs) = at_ + n) as Hz by (rewrite length_app, Nat2Z.inj_add, zlen_ztake; lia).
    rewrite slice_app_r by lia. rewrite Hz, Z.sub_diag. unfold slice. by rewrite Z.sub_0_r, zdrop_0.
Qed.

Lemma body_done_feed c1 cur st1 :
  fst (c_user c1) = Some cur ->
  (if p_require (c_parser c1) =? 0 then end_frame (core (c_parser c1)) (c_user c1)
   else Some (core (c_parser c1), c_user c1)) = Some st1 ->
  exists pr2, core pr2 = fst st1 /\
    body_done ws_settings len c1 = Next (mkCfg (c_p c1) (c_frame_offset c1) pr2 (c_data c1) (snd st1)).
Proof.
  destruct c1 as [p1 fo1 pr1 data1 [cur1 r1]]. simpl. intros ->. unfold body_done. simpl.
  destruct (p_require pr1 =? 0); [|by intros [= <-]; exists pr1].
  unfold end_frame, NOTIFY_CB, OnFrameFinish. simpl.
  destruct (has (p_flags pr1) WS_FIN); simpl; intros [= <-]; by exists (set_state s_start pr1).
Qed.

Hypothesis Hbase : 0 <= base /\ base + len <= 2 ^ 63.

(** Both branches of the [s_body] case hand the next chunk to the callback. *)
Lemma step_body_chunk cur :
  p_state pr = s_body -> 0 < p_require pr < 2 ^ 63 -> fst (c_user c) = Some cur ->
  0 <= p_mask_offset pr < 4 ->
  let n := Z.min (p_require pr) (len - c_p c) in
  let bs := slice (c_p c) (c_p c + n) (c_data c) in
  exists pr1 fo1, core pr1 = set_require (p_require pr - n) (core (snd (body_chunk bs pr))) /\
    step ws_settings base len c =
      body_done ws_settings len
        (mkCfg (c_p c + n - 1) fo1 pr1
           (ztake (c_p c) (c_data c) ++ fst (body_chunk bs pr) ++ zdrop (c_p c + n) (c_data c))
           (Some (AppendData (fst (body_chunk bs pr)) cur), snd (c_user c))).
Proof.
  intros Hs Hrq Hcur Hmo n bs. unfold step. fold pr. rewrite Hs.
  destruct (Z.eqb_spec (p_require pr) 0); [lia|]. rewrite u64_id by lia.
  pose proof (OnFrameBody_chunk (c_data c) (c_p c) n pr (c_user c) cur ltac:(lia) ltac:(lia) ltac:(lia) Hcur Hmo) as Hcb.
  cbv zeta in Hcb. fold bs in Hcb. destruct (body_chunk_frame bs pr) as (Fr & _ & _ & _).
  destruct (Z.leb_spec (base + c_p c + p_require pr) (base + len)) as [Hle|Hgt];
    unfold EMIT_DATA_CB; cbn [on_frame_body ws_settings]; fold pr.
  - assert (Hn : p_require pr = n) by lia. rewrite Hn, Hcb. simpl Z.eqb. cbv iota. cbn [c_p c_parser c_data c_user].
    rewrite Fr, Hn. eexists _, _; split; [|done]. by rewrite Z.sub_diag.
  - assert (Hn : len - c_p c = n) by lia. rewrite Hn, Hcb. simpl Z.eqb. cbv iota. cbn [c_p c_parser c_data c_user].
    rewrite Fr, Hn. rewrite (u64_id (p_require pr - n)) by lia. eexists _, _; split; [|f_equal; f_equal; lia]. done.
Qed.

Lemma step_body : p_state pr = s_body -> exists c', step ws_settings base len c = Next c' /\ advanced len c c' st.
Proof.
  intros Hs. destruct Hwf as (_ & Hmo & _ & Hrq). simpl in Hmo, Hrq. fold pr in Hmo, Hrq.
  rewrite Hs in Hrq. destruct Hrq as [Hrq [cur Hcur]].
  destruct (step_body_chunk cur Hs Hrq Hcur Hmo) as (pr1 & fo1 & Hpr1 & ->).
  set (n := Z.min (p_require pr) (len - c_p c)) in *.
  set (bs := slice (c_p c) (c_p c + n) (c_data c)) in *.
  assert (Hbs : zlen bs = n) by (unfold bs; rewrite zlen_slice; lia).
  assert (Htk : ztake n (slice (c_p c) len (c_data c)) = bs).
  { rewrite (slice_split (c_p c) (c_p c + n) len) by lia. by apply ztake_app. }
  pose proof (feed_body bs (core pr) (c_user c) cur Hs Hcur ltac:(simpl; lia)) as Hf.
  cbv zeta in Hf. rewrite body_chunk_core, Hbs in Hf. cbn [fst snd] in Hf.
  change (p_require (core pr)) with (p_require pr) in Hf. rewrite <- Hpr1 in Hf.
  assert (Hf1 : exists st1, feed (core pr, c_user c) bs = Some st1).
  { rewrite <- Htk. unfold pr. rewrite <- (ztake_zdrop n (slice _ _ _)), feed_app in Hst.
    destruct (feed _ (ztake n _)); [eauto | done]. }
  destruct Hf1 as [st1 Hf1]. apply (eq_trans (eq_sym Hf1)), eq_sym in Hf.
  assert (Hrq1 : p_require pr1 = p_require pr - n) by (change (p_require (core pr1) = p_require pr - n); by rewrite Hpr1).
  rewrite <- Hrq1 in Hf. set (c1 := mkCfg _ _ _ _ _).
  destruct (body_done_feed c1 _ st1 eq_refl Hf) as (pr2 & Hpr2 & ->).
  destruct (overwrite_tail (c_p c) n (fst (body_chunk bs pr)) (c_data c)) as [Hd1 Hd2];
    [lia | rewrite body_chunk_length; done | lia |]. rewrite Hlen in Hd1, Hd2.
  eexists; split; [done|]. apply (advanced_intro len c _ n); try done; try lia.
  rewrite Htk. fold pr. rewrite Hf1. simpl. rewrite Hpr2. by destruct st1.
Qed.

Lemma step_feed : exists c', step ws_settings base len c = Next c' /\ advanced len c c' st.
Proof.
  destruct (p_state pr) eqn:E; auto using step_start, step_head, step_length, step_mask, step_body.
Qed.
End Step.

(** The whole call, from any position of the buffer. *)
Lemma exec_loop_feed base len st fuel c :
  0 <= base /\ base + len <= 2 ^ 63 -> zlen (c_data c) = len -> 0 <= c_p c <= len ->
  bytes_ok (slice (c_p c) len (c_data c)) -> wf (core (c_parser c), c_user c) ->
  feed (core (c_parser c), c_user c) (slice (c_p c) len (c_data c)) = Some st ->
  len - c_p c <= Z.of_nat fuel ->
  exists c', exec_loop ws_settings base len fuel c = Done len c' /\
             (core (c_parser c'), c_user c') = st /\ zlen (c_data c') = len.
Proof.
  revert c. induction fuel as [|fuel IH]; intros c Hbase Hlen Hp Hok Hwf Hst Hfuel; simpl.
  all: destruct (Z.eqb_spec (c_p c) len) as [He|He];
    [rewrite He, slice_empty in Hst; injection Hst as <-; exists c; unfold GET_NPARSED; by rewrite He, Z.eqb_refl|].
  { lia. }
  destruct (step_feed base len c st) as (c' & -> & Hadv); try done; try lia.
  destruct Hadv as (Hp' & Hd' & Hs' & Hf' & Hst').
  rewrite (slice_split (c_p c) (c_p c' + 1) len), Forall_app in Hok by lia. destruct Hok as [Hok1 Hok2].
  apply IH; simpl; try done; try lia.
  - by rewrite Hs'.
  - exact (feed_wf _ _ _ Hok1 Hwf Hf').
Qed.


(** ** The stream as successive calls with arbitrary chunks *)

(** One call per chunk, each at its own address; [None] when a call faults,
    does not finish or leaves bytes unparsed. *)
Definition run_chunks (chunks : list (Z * list Z)) (st : websocket_parser * sink)
    : option (websocket_parser * sink) :=
  foldl (fun o '(base, data) =>
    st ← o;
    match websocket_parser_execute (fst st) ws_settings base data (snd st) with
    | Done n c => if n =? zlen data then Some (c_parser c, c_user c) else None
    | _ => None
    end) (Some st) chunks.

Definition chunk_ok (ch : Z * list Z) : Prop :=
  0 <= fst ch /\ fst ch + zlen (snd ch) <= 2 ^ 63 /\ bytes_ok (snd ch).

Lemma run_chunks_feed chunks st st' :
  Forall chunk_ok chunks -> wf (core (fst st), snd st) ->
  feed (core (fst st), snd st) (concat (chunks.*2)) = Some st' ->
  exists st1, run_chunks chunks st = Some st1 /\ (core (fst st1), snd st1) = st'.
Proof.
  revert st. induction chunks as [|[base data] chunks IH]; intros [p s] Hok Hwf Hf; simpl in *.
  { injection Hf as <-. by exists (p, s). }
  apply Forall_cons_1 in Hok as [(H1 & H2 & H3) Hok]. simpl in *.
  rewrite feed_app in Hf. destruct (feed (core p, s) data) as [[p1 s1]|] eqn:E; [|done]. simpl in Hf.
  destruct (exec_loop_feed base (zlen data) (p1, s1) (2 * length data + 2) (mkCfg 0 0 p data s))
    as (c' & Hc' & Hst' & _); simpl; rewrite ?slice_all; try done; try lia.
  injection Hst' as Hp1 Hs1. specialize (IH (c_parser c', c_user c')). simpl in IH.
  destruct IH as (st1 & Hr & Heq); [done | | by rewrite Hp1, Hs1 |].
  { pose proof (feed_wf data (core p, s) _ H3 Hwf E) as Hw. by rewrite <- Hp1, <- Hs1 in Hw. }
  exists st1. split; [|done]. unfold run_chunks in *; simpl. unfold websocket_parser_execute.
  by rewrite Hc', Z.eqb_refl.
Qed.

(** ** Frames built by [websocket_build_frame] *)

Definition frame_flags (op : Z) (fin masked : bool) : Z :=
  Z.lor (Z.lor op (if fin then WS_FIN else 0)) (if masked then WS_HAS_MASK else 0).

Lemma Z_enum (P : Z -> bool) n x :
  forallb P (seqZ 0 n) = true -> 0 <= x < n -> P x = true.
Proof. intros H Hx. rewrite forallb_forall in H. apply H, list_elem_of_In, elem_of_seqZ. lia. Qed.

Lemma frame_flags_bits op fin masked :
  0 <= op < 16 ->
  Z.land (frame_flags op fin masked) WS_OP_MASK = op /\
  has (frame_flags op fin masked) WS_FIN = fin /\
  has (frame_flags op fin masked) WS_HAS_MASK = masked.
Proof.
  intros Hop.
  pose proof (Z_enum (fun op => (Z.land (frame_flags op fin masked) WS_OP_MASK =? op) &&
    Bool.eqb (has (frame_flags op fin masked) WS_FIN) fin &&
    Bool.eqb (has (frame_flags op fin masked) WS_HAS_MASK) masked) 16 op) as H.
  destruct fin, masked; specialize (H eq_refl Hop); rewrite !andb_true_iff, Z.eqb_eq, !eqb_true_iff in H; tauto.
Qed.

Lemma first_byte op (fin : bool) :
  0 <= op < 16 ->
  let b0 := Z.lor (if fin then Z.shiftl 1 7 else 0) op in
  is_byte b0 /\ Z.lor (Z.land b0 WS_OP_MASK) (if has b0 0x80 then WS_FIN else 0) = frame_flags op fin false.
Proof.
  intros Hop b0.
  pose proof (Z_enum (fun op => let b0 := Z.lor (if fin then Z.shiftl 1 7 else 0) op in
    (0 <=? b0) && (b0 <? 256) &&
    (Z.lor (Z.land b0 WS_OP_MASK) (if has b0 0x80 then WS_FIN else 0) =? frame_flags op fin false)) 16 op) as H.
  destruct fin; specialize (H eq_refl Hop); cbv zeta in H;
    rewrite !andb_true_iff, Z.leb_le, Z.ltb_lt, Z.eqb_eq in H; unfold is_byte, b0; tauto.
Qed.

Lemma second_byte l (masked : bool) :
  0 <= l < 128 ->
  let b1 := Z.lor (if masked then Z.shiftl 1 7 else 0) l in
  is_byte b1 /\ Z.land b1 0x7F = l /\ has b1 0x80 = masked.
Proof.
  intros Hl b1.
  pose proof (Z_enum (fun l => let b1 := Z.lor (if masked then Z.shiftl 1 7 else 0) l in
    (0 <=? b1) && (b1 <? 256) && (Z.land b1 0x7F =? l) && Bool.eqb (has b1 0x80) masked) 128 l) as H.
  destruct masked; specialize (H eq_refl Hl); cbv zeta in H;
    rewrite !andb_true_iff, Z.leb_le, Z.ltb_lt, Z.eqb_eq, eqb_true_iff in H; unfold is_byte, b1; tauto.
Qed.

(** The [k] low bytes of [n], most significant first. *)
Fixpoint be_bytes (k : nat) (n : Z) : list Z :=
  match k with
  | O => []
  | S k' => Z.land (Z.shiftr n (8 * Z.of_nat k')) 0xFF :: be_bytes k' n
  end.

Lemma land_FF x : Z.land x 0xFF = x mod 256.
Proof. change 0xFF with (Z.ones 8). by rewrite Z.land_ones by lia. Qed.

Lemma be_bytes_ok k n : bytes_ok (be_bytes k n).
Proof.
  induction k; simpl; constructor; [|done]. rewrite land_FF. apply Z.mod_pos_bound. lia.
Qed.

Lemma lor_shift8 x b : 0 <= x -> x * 256 < 2 ^ 64 -> is_byte b -> Z.lor (u64 (Z.shiftl x 8)) b = x * 256 + b.
Proof.
  intros Hx Hlt Hb. unfold is_byte in Hb. rewrite Z.shiftl_mul_pow2 by lia. change (2 ^ 8) with 256.
  rewrite u64_id by lia. rewrite <- Z.lxor_lor, <- Z.add_nocarry_lxor; try done.
  all: apply Z.bits_inj_0; intros m; rewrite Z.land_spec; destruct (Z.ltb_spec m 8);
    [ change 256 with (2 ^ 8); rewrite Z.mul_pow2_bits_low by lia; done
    | rewrite (Z.bits_above_log2 b); [apply andb_false_r | lia |] ];
    destruct (decide (b = 0)) as [->|]; [simpl; lia | apply Z.log2_lt_pow2; [lia|]];
    apply (Z.lt_le_trans _ (2 ^ 8)); [lia | apply Z.pow_le_mono_r; lia].
Qed.

Lemma feed_be_bytes k n p s :
  (0 < k)%nat -> 0 <= n < 2 ^ 64 -> p_state p = s_length -> p_require p = Z.of_nat k ->
  p_length p = n / 2 ^ (8 * Z.of_nat k) ->
  feed (p, s) (be_bytes k n) = enter_mask (set_require 0 (set_length n p)) s.
Proof.
  revert p. induction k as [|k IH]; intros p Hk Hn Hs Hrq Hl; [lia|]. cbn [be_bytes].
  set (b := Z.land _ _). set (q := n / 2 ^ (8 * Z.of_nat k)).
  assert (Hq : p_length p = q / 256).
  { rewrite Hl. unfold q. rewrite Z.div_div by lia. change 256 with (2 ^ 8).
    rewrite <- Z.pow_add_r by lia. f_equal. f_equal. lia. }
  assert (Hb : b = q mod 256).
  { unfold b, q. rewrite land_FF, Z.shiftr_div_pow2 by lia. done. }
  assert (Hv : Z.lor (u64 (Z.shiftl (p_length p) 8)) b = q).
  { assert (0 <= q < 2 ^ 64).
    { unfold q. split; [apply Z.div_pos; lia|]. apply Z.div_lt_upper_bound; [lia|].
      assert (1 <= 2 ^ (8 * Z.of_nat k)) by (pose proof (Z.pow_pos_nonneg 2 (8 * Z.of_nat k)); lia). nia. }
    pose proof (Z.mod_pos_bound q 256 ltac:(lia)). pose proof (Z.div_mod q 256 ltac:(lia)).
    rewrite Hq, Hb. rewrite lor_shift8; unfold is_byte; lia. }
  rewrite feed_cons. unfold feed1. rewrite Hs, Hrq, Hv.
  destruct k as [|k].
  - change (Z.of_nat 1 - 1 =? 0) with true. cbv iota.
    assert (q = n) as -> by (unfold q; simpl; apply Z.div_1_r). apply feed_nil.
  - destruct (Z.eqb_spec (Z.of_nat (S (S k)) - 1) 0); [lia|]. simpl mbind.
    rewrite IH; [by destruct p | lia | done | done | simpl; lia | done].
Qed.

Lemma decode_loop_invol m mo i src : decode_loop m mo i (decode_loop m mo i src) = src.
Proof.
  revert i. induction src as [|b src IH]; intros i; simpl; [done|]. rewrite IH. f_equal.
  by rewrite Z.lxor_assoc, Z.lxor_nilpotent, Z.lxor_0_r.
Qed.

Lemma begin_frame_flags op fin masked cur :
  0 <= op < 16 -> begin_frame (frame_flags op fin masked) cur = begin_frame op cur.
Proof.
  intros Hop. unfold begin_frame. destruct (frame_flags_bits op fin masked Hop) as (-> & _ & _).
  by destruct (frame_flags_bits op false false Hop) as (H & _ & _);
    unfold frame_flags in H; rewrite !Z.lor_0_r in H; rewrite H.
Qed.

(** After the header and the mask: the body. *)
Lemma enter_body_feed bs p cur r op fin masked :
  zlen bs = p_length p -> zlen bs < 2 ^ 63 -> 0 <= op < 16 -> p_flags p = frame_flags op fin masked ->
  let f := AppendData (fst (body_chunk bs p)) (begin_frame op cur) in
  exists p', p_state p' = s_start /\
    (st ← enter_body p (cur, r); feed st bs) = Some (p', if fin then commit f r else (Some f, r)).
Proof.
  intros Hl Hlt Hop Hfl f. destruct (frame_flags_bits op fin masked Hop) as (_ & Hfin & _).
  unfold enter_body. cbn [fst snd]. rewrite Hfl, begin_frame_flags by done.
  destruct bs as [|b bs]; [|set (bs' := b :: bs) in *].
  - simpl in Hl. rewrite <- Hl. simpl Z.eqb. cbv iota. unfold end_frame, OnFrameFinish.
    rewrite Hfl, Hfin. simpl fst. simpl snd. exists (set_state s_start p). split; [done|].
    assert (f = begin_frame op cur) as ->.
    { unfold f, AppendData, body_chunk. destruct (has (p_flags p) WS_HAS_MASK); cbn [fst decode_loop];
        rewrite app_nil_r; by destruct (begin_frame op cur). }
    by destruct fin.
  - assert (0 < zlen bs') by (simpl; lia).
    destruct (Z.eqb_spec (p_length p) 0), (Z.leb_spec (2 ^ 63) (p_length p)); try lia. simpl mbind.
    rewrite (feed_body bs' _ _ (begin_frame op cur)); [|done|done|cbn [p_require set_require set_state]; lia]. cbv zeta. simpl p_require.
    rewrite Hl, Z.sub_diag. simpl Z.eqb. cbv iota. unfold end_frame, OnFrameFinish.
    set (pb := set_require (p_length p) (set_state s_body p)).
    assert (Hc : body_chunk bs' pb = (fst (body_chunk bs' p), snd (body_chunk bs' pb)))
      by (unfold body_chunk; change (p_flags pb) with (p_flags p); by destruct (has (p_flags p) WS_HAS_MASK)).
    rewrite Hc. destruct (body_chunk_frame bs' pb) as (_ & Ff & _ & _).
    assert (p_flags pb = p_flags p) as Hpb by done. rewrite Hpb, Hfl in Ff.
    cbn [fst snd set_require p_flags]. rewrite Ff, Hfin. fold f.
    eexists; split; [|by destruct fin; simpl]. done.
Qed.

(** After the header: the mask, if any, and the body. *)
Lemma feed_payload mask data p cur r masked op fin :
  length mask = 4%nat -> zlen data < 2 ^ 63 -> 0 <= op < 16 ->
  length (p_mask p) = 4%nat -> p_mask_offset p = 0 -> p_length p = zlen data ->
  p_flags p = frame_flags op fin masked ->
  let f := AppendData data (begin_frame op cur) in
  exists p', p_state p' = s_start /\
    (st ← enter_mask p (cur, r);
     feed st (if masked then mask ++ decode_loop mask 0 0 data else data)) =
    Some (p', if fin then commit f r else (Some f, r)).
Proof.
  intros Hm Hlt Hop Hpm Hmo Hl Hfl f. destruct (frame_flags_bits op fin masked Hop) as (_ & _ & Hmk).
  unfold enter_mask. rewrite Hfl, Hmk. destruct masked.
  - destruct mask as [|a [|b [|c [|d []]]]]; try done.
    destruct (p_mask p) as [|x [|y [|z [|w []]]]] eqn:Epm; try done.
    set (mask := [a; b; c; d]). set (bs := decode_loop mask 0 0 data).
    assert (Hbs : zlen bs = zlen data) by (unfold bs; by rewrite decode_loop_length).
    set (pm := set_require 0 (set_mask mask (set_state s_mask p))).
    destruct (enter_body_feed bs pm cur r op fin true) as (p' & Hp' & He);
      [simpl; lia | lia | done | done |].
    assert (H4 : feed (set_require 4 (set_state s_mask p), (cur, r)) mask = enter_body pm (cur, r)).
    { unfold mask at 1. rewrite feed_cons. unfold feed1. cbn -[feed enter_body Z.eqb]. zlit. simpl mbind.
      do 3 (rewrite feed_cons; unfold feed1; cbn -[feed enter_body Z.eqb]; zlit; simpl mbind).
      rewrite Epm. apply feed_nil. }
    exists p'. split; [done|].
    transitivity (feed (set_require 4 (set_state s_mask p), (cur, r)) (mask ++ bs)); [done|].
    rewrite feed_app, H4, He. do 2 f_equal.
    assert (AppendData (fst (body_chunk bs pm)) (begin_frame op cur) = f) as ->; [|done].
    unfold f, body_chunk. simpl p_flags. rewrite Hfl, Hmk. simpl. rewrite Hmo. unfold bs.
    by rewrite decode_loop_invol.
  - destruct (enter_body_feed data p cur r op fin false) as (p' & Hp' & He); [lia | done.. |].
    exists p'. split; [done|]. rewrite He. unfold body_chunk. by rewrite Hfl, Hmk.
Qed.

(** The length field of a built frame. *)
Definition length_code (n : Z) : Z := if n <? 126 then n else if n <=? 0xFFFF then 126 else 127.
Definition length_field (n : Z) : list Z :=
  if n <? 126 then [] else if n <=? 0xFFFF then be_bytes 2 n else be_bytes 8 n.

Lemma build_frame_eq op fin masked mask data :
  0 <= op < 16 ->
  websocket_build_frame (frame_flags op fin masked) mask data =
    Z.lor (if fin : bool then Z.shiftl 1 7 else 0) op
      :: Z.lor (if masked : bool then Z.shiftl 1 7 else 0) (length_code (zlen data))
      :: length_field (zlen data) ++ (if masked then mask ++ decode_loop mask 0 0 data else data).
Proof.
  intros Hop. destruct (frame_flags_bits op fin masked Hop) as (H1 & H2 & H3).
  unfold websocket_build_frame. rewrite H1, H2, H3. unfold length_code, length_field.
  destruct (zlen data <? 126) eqn:E1; [by destruct masked|].
  destruct (Z.leb_spec (zlen data) 0xFFFF) as [E2|E2]; [|by destruct masked].
  assert (u8 (Z.shiftr (zlen data) 8) = Z.land (Z.shiftr (zlen data) 8) 0xFF) as -> by (by rewrite land_FF).
  by destruct masked.
Qed.

(** One frame, from a parser that is between frames: the payload is appended to
    the message under assembly, which is committed when the frame is final. *)
Lemma feed_frame p cur r op fin masked mask data :
  wf (p, (cur, r)) -> p_state p = s_start -> 0 <= op < 16 -> length mask = 4%nat -> zlen data < 2 ^ 63 ->
  let f := AppendData data (begin_frame op cur) in
  exists p', p_state p' = s_start /\
    feed (p, (cur, r)) (websocket_build_frame (frame_flags op fin masked) mask data) =
      Some (p', if fin then commit f r else (Some f, r)).
Proof.
  intros (Hpm & _) Hs Hop Hm Hlt f. rewrite build_frame_eq by done.
  destruct (first_byte op fin Hop) as [_ H0].
  assert (Hlc : 0 <= length_code (zlen data) < 128)
    by (unfold length_code; destruct (Z.ltb_spec (zlen data) 126), (Z.leb_spec (zlen data) 0xFFFF); lia).
  destruct (second_byte (length_code (zlen data)) masked Hlc) as (_ & H1 & H2).
  rewrite feed_cons. unfold feed1. rewrite Hs, H0. simpl mbind.
  set (p1 := set_state s_head _).
  set (p2 := set_flags (frame_flags op fin masked) p1).
  rewrite feed_cons. unfold feed1. change (p_state p1) with s_head. rewrite H1, H2. cbv iota zeta beta.
  assert ((if masked then set_flags (Z.lor (p_flags p1) WS_HAS_MASK) p1 else p1) = p2) as ->.
  { unfold p2, p1, frame_flags. destruct masked; cbn [p_flags set_flags set_state]; by rewrite ?Z.lor_0_r. }
  pose proof (feed_payload mask data (set_length (zlen data) p2) cur r masked op fin
                Hm Hlt Hop Hpm eq_refl eq_refl eq_refl) as Hpay.
  unfold length_code, length_field. destruct (Z.ltb_spec (zlen data) 126) as [E1|E1].
  { destruct (Z.eqb_spec (zlen data) 127), (Z.eqb_spec (zlen data) 126); try lia. exact Hpay. }
  assert (Hfld : forall k, (k = 2 \/ k = 8)%nat -> zlen data < 2 ^ (8 * Z.of_nat k) ->
    exists p', p_state p' = s_start /\
      feed (set_state s_length (set_length 0 (set_require (Z.of_nat k) p2)), (cur, r))
        (be_bytes k (zlen data) ++ (if masked then mask ++ decode_loop mask 0 0 data else data)) =
      Some (p', if fin then commit f r else (Some f, r))).
  { intros k Hk Hb. rewrite feed_app, feed_be_bytes; [by apply feed_payload | lia | lia | done | done |].
    symmetry. apply Z.div_small. lia. }
  destruct (Z.leb_spec (zlen data) 0xFFFF) as [E2|E2].
  - apply (Hfld 2%nat); [by left | simpl; lia].
  - apply (Hfld 8%nat); [by right | simpl; lia].
Qed.
(** ** Streams of frames *)

Record wire_frame := mkWire {
  w_op : Z; w_fin : bool; w_masked : bool; w_mask : list Z; w_data : list Z }.

Definition wire_ok (w : wire_frame) : Prop :=
  0 <= w_op w < 16 /\ length (w_mask w) = 4%nat /\ bytes_ok (w_mask w) /\
  bytes_ok (w_data w) /\ zlen (w_data w) < 2 ^ 63.

Definition encode_wire (w : wire_frame) : list Z :=
  websocket_build_frame (frame_flags (w_op w) (w_fin w) (w_masked w)) (w_mask w) (w_data w).

(** What the callbacks make of one frame. *)
Definition deliver (s : sink) (w : wire_frame) : sink :=
  let f := AppendData (w_data w) (begin_frame (w_op w) (fst s)) in
  if w_fin w then commit f (snd s) else (Some f, snd s).

Lemma feed_frames ws p s :
  Forall wire_ok ws -> wf (p, s) -> p_state p = s_start ->
  (forall w, wire_ok w -> bytes_ok (encode_wire w)) ->
  exists p', p_state p' = s_start /\ feed (p, s) (concat (encode_wire <$> ws)) = Some (p', foldl deliver s ws).
Proof.
  intros Hok Hwf Hs Hb. revert p s Hwf Hs. induction Hok as [|w ws Hw Hok IH]; intros p [cur r] Hwf Hs.
  { by exists p. }
  destruct Hw as (Hop & Hm & Hmb & Hdb & Hd).
  destruct (feed_frame p cur r (w_op w) (w_fin w) (w_masked w) (w_mask w) (w_data w)) as (p1 & Hp1 & Hf1); [done..|].
  destruct (IH p1 (deliver (cur, r) w)) as (p' & Hp' & Hf'); [|done|].
  { apply (feed_wf (encode_wire w) (p, (cur, r))); [apply Hb; done | done | exact Hf1]. }
  exists p'. split; [done|]. 
  assert (Hw1 : feed (p, (cur, r)) (encode_wire w) = Some (p1, deliver (cur, r) w)) by exact Hf1.
  rewrite fmap_cons, concat_cons, feed_app, Hw1. exact Hf'.
Qed.

Lemma lxor_byte a b : is_byte a -> is_byte b -> is_byte (Z.lxor a b).
Proof.
  unfold is_byte. intros Ha Hb. split; [apply Z.lxor_nonneg; lia|].
  destruct (decide (Z.lxor a b = 0)) as [->|]; [lia|].
  assert (0 < Z.lxor a b) by (pose proof (proj2 (Z.lxor_nonneg a b)); lia).
  change 256 with (2 ^ 8). apply Z.log2_lt_pow2; [done|].
  eapply Z.le_lt_trans; [apply Z.log2_lxor; lia|].
  apply Z.max_lub_lt; [destruct (decide (a = 0)) as [->|] | destruct (decide (b = 0)) as [->|]];
    try (simpl; lia); apply Z.log2_lt_pow2; lia.
Qed.

Lemma decode_loop_ok m mo i src : length m = 4%nat -> bytes_ok m -> bytes_ok src -> bytes_ok (decode_loop m mo i src).
Proof.
  intros Hlen Hm Hsrc. revert i. induction Hsrc as [|b src Hb Hsrc IH]; intros i; simpl; constructor; [|apply IH].
  apply lxor_byte; [done|]. pose proof (Z.mod_pos_bound (i + mo) 4 ltac:(lia)).
  destruct (nth_lookup_or_length m (Z.to_nat ((i + mo) mod 4)) 0) as [Hl|]; [|lia].
  by eapply Forall_lookup_1 in Hl.
Qed.

Lemma encode_wire_ok w : wire_ok w -> bytes_ok (encode_wire w).
Proof.
  intros (Hop & Hm & Hmb & Hdb & Hd). unfold encode_wire. rewrite build_frame_eq by done.
  assert (Hlc : 0 <= length_code (zlen (w_data w)) < 128)
    by (unfold length_code; destruct (Z.ltb_spec (zlen (w_data w)) 126), (Z.leb_spec (zlen (w_data w)) 0xFFFF); lia).
  constructor; [by apply first_byte|]. constructor; [by apply second_byte|].
  apply Forall_app; split.
  - unfold length_field. repeat case_match; [constructor | apply be_bytes_ok..].
  - destruct (w_masked w); [|done]. apply Forall_app; split; [done | by apply decode_loop_ok].
Qed.

(** A message sent as fragments: the first carries the opcode, the others are
    continuations, the last is final. *)
Fixpoint fragment (op : Z) (masked : bool) (mask : list Z) (frags : list (list Z)) : list wire_frame :=
  match frags with
  | [] => []
  | [d] => [mkWire op true masked mask d]
  | d :: frags' => mkWire op false masked mask d :: fragment WS_OP_CONTINUE masked mask frags'
  end.

Lemma deliver_continuations masked mask frags f r :
  frags <> [] ->
  foldl deliver (Some f, r) (fragment WS_OP_CONTINUE masked mask frags) =
    commit (AppendData (concat frags) f) r.
Proof.
  revert f. induction frags as [|d [|d' frags] IH]; intros f Hne; [done| |].
  - simpl. unfold deliver; simpl. by rewrite app_nil_r.
  - change (fragment WS_OP_CONTINUE masked mask (d :: d' :: frags)) with
      (mkWire WS_OP_CONTINUE false masked mask d :: fragment WS_OP_CONTINUE masked mask (d' :: frags)).
    simpl foldl. unfold deliver at 2; simpl w_fin; cbv iota. simpl snd.
    rewrite IH by done. f_equal. unfold AppendData; simpl. by rewrite <- app_assoc.
Qed.

Lemma deliver_fragments op masked mask frags r :
  frags <> [] -> 0 < op < 16 ->
  foldl deliver (None, r) (fragment op masked mask frags) = commit (mkFrame op (concat frags)) r.
Proof.
  intros Hne Hop. assert (Hb : begin_frame op None = mkFrame op []).
  { unfold begin_frame. pose proof (frame_flags_bits op false false) as (H & _ & _); [lia|].
    unfold frame_flags in H. rewrite !Z.lor_0_r in H. rewrite H.
    destruct (Z.eqb_spec op WS_OP_CONTINUE) as [E|]; [unfold WS_OP_CONTINUE in E; lia | done]. }
  destruct frags as [|d [|d' frags]]; [done| |].
  - simpl. unfold deliver; simpl. rewrite Hb. by rewrite app_nil_r.
  - change (fragment op masked mask (d :: d' :: frags)) with
      (mkWire op false masked mask d :: fragment WS_OP_CONTINUE masked mask (d' :: frags)).
    set (rest := fragment _ _ _ (d' :: frags)). cbn [foldl].
    assert (deliver (None, r) (mkWire op false masked mask d) = (Some (mkFrame op d), r)) as ->.
    { unfold deliver; simpl. by rewrite Hb. }
    unfold rest. by rewrite deliver_continuations.
Qed.

Lemma fragment_ok op masked mask frags :
  0 <= op < 16 -> length mask = 4%nat -> bytes_ok mask ->
  Forall (fun d => bytes_ok d /\ zlen d < 2 ^ 63) frags -> Forall wire_ok (fragment op masked mask frags).
Proof.
  intros Hop Hm Hmb Hf. revert op Hop. induction Hf as [|d frags [Hd1 Hd2] Hf IH]; intros op Hop; [done|].
  destruct frags; repeat (constructor; try done). apply IH. unfold WS_OP_CONTINUE. lia.
Qed.

End Sink.

(** Discharges the validity conditions of concrete frames and chunks. *)
Ltac solve_bytes :=
  repeat match goal with
  | |- wire_ok _ => unfold wire_ok
  | |- chunk_ok _ => unfold chunk_ok
  | |- is_byte _ => unfold is_byte
  | |- _ <= _ < _ => split
  | |- _ /\ _ => split
  | |- Forall _ _ => constructor
  | |- _ => progress simpl
  end; try done; try lia.

(** A sink that records the committed messages, for concrete runs. *)
Definition record_commit (f : WebsocketFrame) (r : list WebsocketFrame) :
    option WebsocketFrame * list WebsocketFrame := (None, r ++ [f]).



(** The bound of the reference is needed: a peer that announces a 64-bit
    length near [2^64] makes [p + parser->require] wrap below [end], and the
    body callback is called on memory far outside the received buffer. *)
Theorem oversized_frame_faults :
  websocket_parser_execute websocket_parser_init (ws_settings record_commit) 4096
    [0x82; 0x7F; 0xFF; 0xFF; 0xFF; 0xFF; 0xFF; 0xFF; 0xFF; 0xFF; 0x00] (None, []) = Faulted.
Proof. reflexivity. Qed.
End WebSocketFrames.
