(* ===== verification/Channel.v ===== *)
(** * File-descriptor events and TCP channels
      (base/message_loop/event.h, fd_event.{h,cc}; net_io/channel.{h,cc}, tcp_channel.{h,cc})

    The socket is the kernel's: a run of the program sees the results of its
    [read(2)] and [write(2)] calls as a script, over which every theorem
    quantifies; an exhausted script is a socket that would block.  [errno] is a
    field of the socket, because a call that does not fail leaves it as it was. *)
From S2P Require Import Prelude IOBuffer.
Import IOBuffer.

(** ** struct LtEv and class FdEvent *)
Module FdEvent.

Definition NONE : Z := 0x00.
Definition READ : Z := 0x01.
Definition WRITE : Z := 0x02.
Definition ERROR : Z := 0x04.

Definition has_read (ev : Z) : bool := has ev READ.
Definition has_write (ev : Z) : bool := has ev WRITE.
Definition has_error (ev : Z) : bool := has ev ERROR.

Record FdEvent := mkFdEvent {
  fd_ : Z;
  owner_fd_ : bool;
  event_ : Z;                     (* uint8_t *)
  fired_ : Z;                     (* uint8_t *)
  enable_et_ : bool;
  watcher_ : option (list Z);     (* the masks handed to [UpdateFdEvent], [None] when no watcher is set *)
}.

Definition FdEvent_new (fd ev : Z) : FdEvent := mkFdEvent fd true ev 0 false None.

Definition notify_watcher (f : FdEvent) : FdEvent :=
  match watcher_ f with
  | Some log => mkFdEvent (fd_ f) (owner_fd_ f) (event_ f) (fired_ f) (enable_et_ f) (Some (log ++ [event_ f]))
  | None => f
  end.

Definition set_event (ev : Z) (f : FdEvent) : FdEvent :=
  mkFdEvent (fd_ f) (owner_fd_ f) ev (fired_ f) (enable_et_ f) (watcher_ f).

Definition IsReadEnable (f : FdEvent) : bool := has (event_ f) READ.
Definition IsWriteEnable (f : FdEvent) : bool := has (event_ f) WRITE.

Definition EnableReading (f : FdEvent) : FdEvent :=
  if IsReadEnable f then f else notify_watcher (set_event (Z.lor (event_ f) READ) f).
Definition EnableWriting (f : FdEvent) : FdEvent :=
  if IsWriteEnable f then f else notify_watcher (set_event (Z.lor (event_ f) WRITE) f).
Definition DisableReading (f : FdEvent) : FdEvent :=
  if negb (IsReadEnable f) then f else notify_watcher (set_event (Z.land (event_ f) (u8 (Z.lnot READ))) f).
Definition DisableWriting (f : FdEvent) : FdEvent :=
  if negb (IsWriteEnable f) then f else notify_watcher (set_event (Z.land (event_ f) (u8 (Z.lnot WRITE))) f).
Definition SetEvent (ev : Z) (f : FdEvent) : FdEvent := notify_watcher (set_event ev f).
Definition DisableAll (f : FdEvent) : FdEvent := SetEvent NONE f.
Definition SetEdgeTrigger (edge : bool) (f : FdEvent) : FdEvent :=
  mkFdEvent (fd_ f) (owner_fd_ f) (event_ f) (fired_ f) edge (watcher_ f).

Lemma event_set_event ev f : event_ (notify_watcher (set_event ev f)) = ev.
Proof. unfold notify_watcher. by destruct (watcher_ (set_event ev f)). Qed.

(** The write interest is what was last asked for, and the other bits are kept. *)
Lemma EnableWriting_spec f :
  IsWriteEnable (EnableWriting f) = true /\ event_ (EnableWriting f) = Z.lor (event_ f) WRITE.
Proof.
  unfold EnableWriting, IsWriteEnable. destruct (has (event_ f) WRITE) eqn:E.
  - split; [done|]. unfold has in E. apply negb_true_iff, Z.eqb_neq in E.
    symmetry. apply Z.bits_inj'. intros i Hi. rewrite Z.lor_spec.
    destruct (decide (i = 1)) as [->|Hne].
    + change (Z.testbit WRITE 1) with true. rewrite orb_true_r. symmetry.
      destruct (Z.testbit (event_ f) 1) eqn:T; [done|]. exfalso. apply E.
      apply Z.bits_inj'. intros j Hj. rewrite Z.land_spec, Z.bits_0.
      destruct (decide (j = 1)) as [->|]; [by rewrite T|]. unfold WRITE. change 2 with (2 ^ 1).
      rewrite (Z.pow2_bits_false 1 j) by done. apply andb_false_r.
    + unfold WRITE. change 2 with (2 ^ 1). rewrite (Z.pow2_bits_false 1 i) by done. apply orb_false_r.
  - rewrite event_set_event. split; [|done]. unfold has.
    rewrite Z.land_lor_distr_l, Z.land_diag. apply negb_true_iff, Z.eqb_neq. intros H.
    apply (f_equal (fun z => Z.testbit z 1)) in H. rewrite Z.lor_spec in H.
    change (Z.testbit WRITE 1) with true in H. rewrite orb_true_r in H. done.
Qed.

Lemma DisableWriting_spec f : IsWriteEnable (DisableWriting f) = false.
Proof.
  unfold DisableWriting, IsWriteEnable. destruct (has (event_ f) WRITE) eqn:E; [|done]. simpl.
  rewrite event_set_event. unfold has. rewrite <- Z.land_assoc.
  change (Z.land (u8 (Z.lnot WRITE)) WRITE) with 0. by rewrite Z.land_0_r.
Qed.

End FdEvent.

(** ** class SocketChannel and class TcpChannel *)
Module TcpChannel.
Import FdEvent.

Definition EINTR : Z := 4.
Definition EAGAIN : Z := 11.

(** What the kernel does with the successive calls on one non-blocking socket:
    [RData b bs] has the bytes [b :: bs] ready, [REof] is an orderly shutdown by
    the peer, [RErr e] fails with [e]; [WAccept n] takes up to [n] bytes (at
    least one), [WErr e] fails with [e]. *)
Inductive read_ev := RData (b : Z) (bs : list Z) | REof | RErr (e : Z).
Inductive write_ev := WAccept (n : Z) | WErr (e : Z).

Record Socket := mkSocket {
  errno : Z;
  rd : list read_ev;
  wr : list write_ev;
  sent : list Z;         (* the bytes handed to the peer so far *)
}.

(** [read(fd, buf, n)]: the result, the bytes stored and the socket after it. *)
Definition sys_read (n : Z) (k : Socket) : Z * list Z * Socket :=
  match rd k with
  | [] => (-1, [], mkSocket EAGAIN [] (wr k) (sent k))
  | RData b bs :: rest =>
      let got := ztake n (b :: bs) in
      let rest' := match zdrop n (b :: bs) with
                   | [] => rest
                   | b' :: bs' => RData b' bs' :: rest
                   end in
      (zlen got, got, mkSocket (errno k) rest' (wr k) (sent k))
  | REof :: _ => (0, [], k)
  | RErr e :: rest => (-1, [], mkSocket e rest (wr k) (sent k))
  end.

(** [write(fd, bs, n)]; writing zero bytes returns zero and sets nothing. *)
Definition sys_write (bs : list Z) (k : Socket) : Z * Socket :=
  match bs with
  | [] => (0, k)
  | _ =>
      match wr k with
      | [] => (-1, mkSocket EAGAIN (rd k) [] (sent k))
      | WAccept n :: rest =>
          let m := Z.min (Z.max 1 n) (zlen bs) in
          (m, mkSocket (errno k) (rd k) rest (sent k ++ ztake m bs))
      | WErr e :: rest => (-1, mkSocket e (rd k) rest (sent k))
      end
  end.

Record TcpChannel := mkChannel {
  fdev_ : FdEvent;
  in_ : IOBuffer;
  out_ : IOBuffer;
  sock : Socket;
}.

(** A call returns, aborts (failed [CHECK], exception, write outside the
    buffer), or was not given enough fuel. *)
Inductive call := Ret (rv : Z) (ch : TcpChannel) | Crash | OutOfFuel.

Definition kBlockSize : Z := 2 * 1024.

Definition StartChannel (ch : TcpChannel) : TcpChannel :=
  mkChannel (SetEdgeTrigger true (EnableReading (EnableWriting (fdev_ ch)))) (in_ ch) (out_ ch) (sock ch).

Definition HasOutgoingData (ch : TcpChannel) : bool := negb (CanReadSize (out_ ch) =? 0).
Definition HasIncommingData (ch : TcpChannel) : bool := negb (CanReadSize (in_ ch) =? 0).

Fixpoint read_loop (fuel : nat) (ch : TcpChannel) : call :=
  match fuel with
  | O => OutOfFuel
  | S fuel' =>
      match EnsureWritableSize kBlockSize (in_ ch) with
      | None => Crash
      | Some b1 =>
          let '(bytes_read, bs, k) := sys_read (CanWriteSize b1) (sock ch) in
          if 0 <? bytes_read then
            match StoreAtWrite 0 bs b1 with
            | None => Crash
            | Some b2 => read_loop fuel' (mkChannel (fdev_ ch) (Produce bytes_read b2) (out_ ch) k)
            end
          else
            let ch1 := mkChannel (fdev_ ch) b1 (out_ ch) k in
            if bytes_read =? 0 then Ret (-1) ch1
            else if errno k =? EAGAIN then Ret (i32 (CanReadSize b1)) ch1
            else if errno k =? EINTR then read_loop fuel' ch1
            else Ret (-1) ch1
      end
  end.

(** Each iteration takes a byte or a script entry. *)
Definition read_work (evs : list read_ev) : nat :=
  foldr (fun e n => match e with RData _ bs => S (length bs) + n | _ => S n end)%nat 0%nat evs.

Definition HandleRead (ch : TcpChannel) : call := read_loop (S (read_work (rd (sock ch)))) ch.

Fixpoint write_loop (fuel : nat) (total_write : Z) (ch : TcpChannel) : call :=
  let finish ch :=
    Ret (i32 total_write)
      (mkChannel (if negb (CanReadSize (out_ ch) =? 0) then EnableWriting (fdev_ ch)
                  else DisableWriting (fdev_ ch)) (in_ ch) (out_ ch) (sock ch)) in
  if CanReadSize (out_ ch) =? 0 then finish ch
  else
    match fuel with
    | O => OutOfFuel
    | S fuel' =>
        let '(rv, k) := sys_write (StringView (out_ ch)) (sock ch) in
        let ch1 := mkChannel (fdev_ ch) (in_ ch) (out_ ch) k in
        if 0 <? rv then
          write_loop fuel' (total_write + rv) (mkChannel (fdev_ ch) (in_ ch) (Consume rv (out_ ch)) k)
        else if errno k =? EAGAIN then finish ch1
        else if errno k =? EINTR then write_loop fuel' total_write ch1
        else Ret (-1) ch1
    end.

Definition HandleWrite (ch : TcpChannel) : call :=
  if CanReadSize (out_ ch) =? 0 then Ret 0 ch
  else write_loop (S (length (wr (sock ch)))) 0 ch.

(** The direct-write loop of [Send]: [data] is what remains from [data + n_write]. *)
Fixpoint send_loop (fuel : nat) (n_write : Z) (data : list Z) (ch : TcpChannel) : call :=
  match fuel with
  | O => OutOfFuel
  | S fuel' =>
      let '(rv, k) := sys_write data (sock ch) in
      let ch1 := mkChannel (fdev_ ch) (in_ ch) (out_ ch) k in
      if 0 <? rv then
        let data' := zdrop rv data in
        if zlen data' =? 0 then Ret (i32 (n_write + rv)) ch1
        else send_loop fuel' (n_write + rv) data' ch1
      else if errno k =? EAGAIN then
        match WriteRawData data (out_ ch) with
        | None => Crash
        | Some b => Ret (i32 n_write) (mkChannel (EnableWriting (fdev_ ch)) (in_ ch) b k)
        end
      else if errno k =? EINTR then
        if zlen data =? 0 then Ret (i32 n_write) ch1 else send_loop fuel' n_write data ch1
      else Ret (-1) ch1
  end.

(** The body of [Send(const char* data, const int32_t len)] on the [len] bytes at [data]. *)
Definition send_bytes (data : list Z) (ch : TcpChannel) : call :=
  if 0 <? CanReadSize (out_ ch) then
    match WriteRawData data (out_ ch) with
    | None => Crash
    | Some b => HandleWrite (mkChannel (fdev_ ch) (in_ ch) b (sock ch))
    end
  else send_loop (S (length (wr (sock ch)))) 0 data ch.

(** [Send] of a buffer, whose size is narrowed to the [int32_t] parameter: the low 32
    bits say how much of the buffer is sent, and a negative length becomes a [size_t]
    far past the end of the buffer, which is read. *)
Definition Send (data : list Z) (ch : TcpChannel) : call :=
  let len := i32 (zlen data) in
  if len <? 0 then Crash else send_bytes (ztake len data) ch.


(** ** Writing: nothing is lost, duplicated or reordered *)

Lemma contents_empty b : inv b -> CanReadSize b = 0 <-> contents b = [].
Proof.
  intros Hb. rewrite CanReadSize_contents by done. split; [|intros ->; done].
  destruct (contents b); [done | simpl; lia].
Qed.

(** The kernel refuses a write only for the moment. *)
Definition healthy (k : Socket) : Prop :=
  Forall (fun w => match w with WErr e => e = EAGAIN \/ e = EINTR | WAccept _ => True end) (wr k).

Lemma sys_write_healthy bs k :
  bs <> [] -> healthy k ->
  let '(rv, k') := sys_write bs k in healthy k' /\ (0 < rv \/ errno k' = EAGAIN \/ errno k' = EINTR).
Proof.
  unfold healthy, sys_write. destruct bs as [|x bs]; [done|]. intros _.
  destruct (wr k) as [|[n|e] rest]; cbn; [by auto|intros [_ H]%Forall_cons_1|intros [He H]%Forall_cons_1]; split; auto; lia.
Qed.

(** A call either accepts a non-empty prefix or leaves the stream as it is. *)
Lemma sys_write_cases bs k :
  bs <> [] ->
  let '(rv, k') := sys_write bs k in
  rd k' = rd k /\
  ((0 < rv <= zlen bs /\ sent k' = sent k ++ ztake rv bs /\ (length (wr k') < length (wr k))%nat) \/
   (rv = -1 /\ sent k' = sent k /\
    (errno k' = EAGAIN \/ (length (wr k') < length (wr k))%nat))).
Proof.
  intros Hne. unfold sys_write. destruct bs as [|x bs]; [done|].
  destruct (wr k) as [|[n|e] rest]; simpl; split; try done; [right | left | right]; split_and!; try done; try lia.
Qed.

(** The state a write-side call leaves behind. *)
Record wrote (ch ch' : TcpChannel) (data : list Z) (n : Z) : Prop := {
  wrote_inv : inv (out_ ch');
  wrote_in : in_ ch' = in_ ch;
  wrote_rd : rd (sock ch') = rd (sock ch);
  wrote_stream : sent (sock ch') ++ contents (out_ ch') = sent (sock ch) ++ contents (out_ ch) ++ data;
  wrote_count : zlen (sent (sock ch')) = zlen (sent (sock ch)) + n;
  wrote_nonneg : 0 <= n;
  wrote_room : room (out_ ch) - zlen data <= room (out_ ch');
}.

Definition interest_exact (ch : TcpChannel) : Prop :=
  IsWriteEnable (fdev_ ch) = negb (bool_decide (contents (out_ ch) = [])) /\
  (contents (out_ ch) <> [] -> errno (sock ch) = EAGAIN).

Lemma finish_interest ch :
  inv (out_ ch) -> (contents (out_ ch) <> [] -> errno (sock ch) = EAGAIN) ->
  interest_exact (mkChannel (if negb (CanReadSize (out_ ch) =? 0) then EnableWriting (fdev_ ch)
                             else DisableWriting (fdev_ ch)) (in_ ch) (out_ ch) (sock ch)).
Proof.
  intros Hi Hea. unfold interest_exact; simpl. split; [|done]. pose proof (contents_empty _ Hi) as He.
  destruct (Z.eqb_spec (CanReadSize (out_ ch)) 0) as [E|E]; simpl.
  - rewrite DisableWriting_spec, bool_decide_eq_true_2 by tauto. done.
  - rewrite (proj1 (EnableWriting_spec _)), bool_decide_eq_false_2 by tauto. done.
Qed.

Lemma write_loop_ok fuel t ch :
  inv (out_ ch) -> (length (wr (sock ch)) < fuel)%nat ->
  exists rv ch' n, write_loop fuel t ch = Ret rv ch' /\ wrote ch ch' [] n /\
    (rv = i32 (t + n) /\ interest_exact ch' \/ rv = -1).
Proof.
  revert t ch. induction fuel as [|fuel IH]; intros t ch Hi Hf; [lia|]. cbn [write_loop].
  assert (Hdone : wrote ch ch [] 0) by (split; rewrite ?app_nil_r; try done; lia).
  destruct (Z.eqb_spec (CanReadSize (out_ ch)) 0) as [E|E].
  { eexists _, _, 0. split; [done|]. split; [destruct Hdone; by split|]. left. rewrite Z.add_0_r. split; [done|].
    pose proof (finish_interest ch Hi) as H. rewrite E in H. apply H.
    intros Hne. exfalso. by apply Hne, contents_empty. }
  rewrite StringView_contents by done.
  assert (Hne : contents (out_ ch) <> []) by (by rewrite <- contents_empty).
  pose proof (sys_write_cases (contents (out_ ch)) (sock ch) Hne) as Hw.
  destruct (sys_write (contents (out_ ch)) (sock ch)) as [rv k]. destruct Hw as [Hrd Hw].
  destruct Hw as [(Hrv & Hs & Hl)|(-> & Hs & Hl)].
  - destruct (Z.ltb_spec 0 rv); [|lia]. destruct (Consume_ok (out_ ch) rv Hi ltac:(lia)) as (Hi' & Hc' & Hroom).
    destruct (IH (t + rv) (mkChannel (fdev_ ch) (in_ ch) (Consume rv (out_ ch)) k)) as (rv' & ch' & n & -> & [] & Hr);
      [done | simpl; lia |]. simpl in *.
    eexists _, _, (rv + n). split; [done|]. split; [split; try done; try lia|by rewrite Z.add_assoc].
    + congruence.
    + simpl in *. rewrite wrote_stream0, Hs, Hc', !app_nil_r, <- app_assoc. by rewrite ztake_zdrop.
    + rewrite wrote_count0, Hs, length_app, Nat2Z.inj_add, zlen_ztake by lia. lia.
  - change (0 <? -1) with false. cbv iota.
    assert (Hk : wrote ch (mkChannel (fdev_ ch) (in_ ch) (out_ ch) k) [] 0)
      by (split; simpl; rewrite ?app_nil_r, ?Hs; try done; lia).
    destruct (Z.eqb_spec (errno k) EAGAIN) as [Ea|Ea].
    { eexists _, _, 0. split; [done|]. split; [destruct Hk; by split|]. left. rewrite Z.add_0_r. split; [done|].
      by apply (finish_interest (mkChannel (fdev_ ch) (in_ ch) (out_ ch) k) Hi). }
    destruct (errno k =? EINTR); [|eexists _, _, 0; split; [done|]; split; [done | by right]].
    destruct (IH t (mkChannel (fdev_ ch) (in_ ch) (out_ ch) k)) as (rv' & ch' & n & -> & [] & Hr); [done | simpl in *; intuition lia |].
    eexists _, _, n. split; [done|]. split; [|done]. split; simpl in *; try done; congruence.
Qed.

Lemma HandleWrite_ok ch :
  inv (out_ ch) ->
  exists rv ch' n, HandleWrite ch = Ret rv ch' /\ wrote ch ch' [] n /\ (rv = i32 n \/ rv = -1).
Proof.
  intros Hi. unfold HandleWrite. destruct (Z.eqb_spec (CanReadSize (out_ ch)) 0) as [E|E].
  - exists 0, ch, 0. split_and!; [done | split; rewrite ?app_nil_r; try done; simpl; lia | by left].
  - destruct (write_loop_ok (S (length (wr (sock ch)))) 0 ch Hi ltac:(lia)) as (rv & ch' & n & -> & Hw & Hr).
    exists rv, ch', n. rewrite Z.add_0_l in Hr. split_and!; tauto.
Qed.

(** A flush that reports success leaves the write interest armed while bytes wait. *)
Lemma HandleWrite_interest ch rv ch' :
  inv (out_ ch) -> HandleWrite ch = Ret rv ch' -> 0 <= rv ->
  inv (out_ ch') /\ (contents (out_ ch') <> [] -> IsWriteEnable (fdev_ ch') = true).
Proof.
  intros Hi. unfold HandleWrite. destruct (Z.eqb_spec (CanReadSize (out_ ch)) 0) as [E|E].
  - intros [= <- <-] _. split; [done|]. intros Hne. by apply contents_empty in E.
  - destruct (write_loop_ok (S (length (wr (sock ch)))) 0 ch Hi ltac:(lia)) as (rv1 & ch1 & n & -> & [] & Hr).
    intros [= <- <-] Hrv. destruct Hr as [(_ & Hw & _)|Hr]; [|lia]. split; [done|].
    intros Hne. by rewrite Hw, bool_decide_eq_false_2.
Qed.

(** What is on the wire or queued is a prefix of what was handed over. *)
Definition stream_prefix (ch ch' : TcpChannel) (data : list Z) : Prop :=
  exists lost, (sent (sock ch') ++ contents (out_ ch')) ++ lost = sent (sock ch) ++ contents (out_ ch) ++ data.

Lemma send_loop_ok fuel w data ch :
  inv (out_ ch) -> contents (out_ ch) = [] -> data <> [] -> zlen data <= room (out_ ch) ->
  (length (wr (sock ch)) < fuel)%nat ->
  exists rv ch' n, send_loop fuel w data ch = Ret rv ch' /\
    (rv = i32 (w + n) /\ wrote ch ch' data n \/
     rv = -1 /\ ~ healthy (sock ch) /\ stream_prefix ch ch' data /\ inv (out_ ch') /\ room (out_ ch) - zlen data <= room (out_ ch')).
Proof.
  revert w data ch. induction fuel as [|fuel IH]; intros w data ch Hi Hc Hne Hroom Hf; [lia|]. cbn [send_loop].
  pose proof (sys_write_cases data (sock ch) Hne) as Hw. pose proof (sys_write_healthy data (sock ch) Hne) as Hh.
  destruct (sys_write data (sock ch)) as [rv k]. destruct Hw as [Hrd Hw].
  destruct Hw as [(Hrv & Hs & Hl)|(-> & Hs & Hl)].
  - destruct (Z.ltb_spec 0 rv); [|lia]. destruct (Z.eqb_spec (zlen (zdrop rv data)) 0) as [E|E].
    { assert (rv = zlen data) as -> by (rewrite zlen_zdrop in E; lia).
      eexists _, _, (zlen data). split; [done|]. left. split; [done|]. split; simpl; try done; try lia.
      - rewrite Hs, Hc, ztake_all by lia. by rewrite app_nil_r.
      - rewrite Hs, length_app, Nat2Z.inj_add, zlen_ztake; lia. }
    destruct (IH (w + rv) (zdrop rv data) (mkChannel (fdev_ ch) (in_ ch) (out_ ch) k)) as (rv' & ch' & n & -> & Hr);
      try done; try (simpl; lia).
    { intros Hz. by rewrite Hz in E. }
    { simpl. rewrite zlen_zdrop; lia. }
    simpl in *. eexists _, _, (rv + n). split; [done|].
    destruct Hr as [(-> & [])|(-> & Hu & (lost & Hl') & ? & ?)]; [left|right].
    + rewrite Z.add_assoc. split; [done|]. simpl in *. rewrite zlen_zdrop in wrote_room0 by lia.
      split; try done; try lia; try congruence.
      * rewrite wrote_stream0, Hs, Hc. simpl. by rewrite <- app_assoc, ztake_zdrop.
      * rewrite wrote_count0, Hs, length_app, Nat2Z.inj_add, zlen_ztake; lia.
    + rewrite zlen_zdrop in * by lia. split_and!; try done; try lia; [by intros [? _]%Hh|]. exists lost.
      rewrite Hl'. simpl. rewrite Hs, Hc. simpl. by rewrite <- app_assoc, ztake_zdrop.
  - change (0 <? -1) with false. cbv iota. destruct (Z.eqb_spec (errno k) EAGAIN) as [Ea|Ea].
    { destruct (WriteRawData_ok (out_ ch) data Hi Hroom) as (b & -> & Hb & Hcb & Hrb).
      eexists _, _, 0. split; [done|]. left. rewrite Z.add_0_r. split; [done|].
      split; simpl; rewrite ?Hs, ?Hcb; try done; lia. }
    destruct (Z.eqb_spec (errno k) EINTR) as [Ei|Ei].
    + destruct (Z.eqb_spec (zlen data) 0) as [Hz|Hz]; [destruct data; simpl in *; [done | lia]|].
      destruct (IH w data (mkChannel (fdev_ ch) (in_ ch) (out_ ch) k)) as (rv' & ch' & n & -> & Hr);
        try done; try (simpl in *; intuition lia).
      eexists _, _, n. split; [done|]. destruct Hr as [(-> & [])|(-> & Hu & (lost & Hl') & ? & ?)]; [left|right].
      * split; [done|]. simpl in *. split; simpl; try done; congruence.
      * split_and!; try done; [by intros [? _]%Hh|]. exists lost. rewrite Hl'. simpl. by rewrite Hs.
    + eexists _, _, 0. split; [done|]. right. split_and!; simpl; try done; try lia; [intros [_ ?]%Hh; lia|].
      exists data. simpl. by rewrite Hs, <- app_assoc.
Qed.

(** An empty buffer changes nothing, whatever the call returns. *)
Lemma send_empty_ok fuel ch :
  inv (out_ ch) -> 0 <= room (out_ ch) -> (0 < fuel)%nat ->
  exists rv ch', send_loop fuel 0 [] ch = Ret rv ch' /\ wrote ch ch' [] 0 /\ (rv = 0 \/ rv = -1).
Proof.
  intros Hi Hroom Hf. destruct fuel as [|fuel]; [lia|]. cbn [send_loop sys_write].
  assert (Hk : wrote ch ch [] 0) by (split; rewrite ?app_nil_r; try done; simpl; lia). destruct ch as [f i o k]; cbn in *.
  destruct (errno k =? EAGAIN); [|destruct (errno k =? EINTR); eexists _, _; split; [done| |done|]; auto].
  destruct (WriteRawData_ok o [] Hi Hroom) as (b & -> & Hb & Hcb & Hrb).
  eexists _, _; split; [done|]; split; [|by left]. split; cbn; rewrite ?Hcb; try done; lia.
Qed.

Lemma send_bytes_ok data ch :
  inv (out_ ch) -> zlen data <= room (out_ ch) ->
  exists rv ch' n, send_bytes data ch = Ret rv ch' /\
    inv (out_ ch') /\ room (out_ ch) - zlen data <= room (out_ ch') /\ stream_prefix ch ch' data /\
    (rv <> -1 -> rv = i32 n /\ wrote ch ch' data n).
Proof.
  intros Hi Hroom. unfold send_bytes. destruct (Z.ltb_spec 0 (CanReadSize (out_ ch))) as [Hp|Hz].
  - destruct (WriteRawData_ok (out_ ch) data Hi Hroom) as (b & -> & Hb & Hcb & Hrb).
    destruct (HandleWrite_ok (mkChannel (fdev_ ch) (in_ ch) b (sock ch))) as (rv & ch' & n & -> & [] & Hr); [done|].
    simpl in *. rewrite app_nil_r, Hcb in wrote_stream0.
    assert (wrote ch ch' data n) by (split; try done; lia).
    exists rv, ch', n. split_and!; try done; try lia.
    + exists []. by rewrite app_nil_r.
    + intros. destruct Hr; [done | congruence].
  - assert (Hc : contents (out_ ch) = []).
    { apply contents_empty; [done|]. pose proof (CanReadSize_eq _ Hi). destruct Hi; lia. }
    destruct (decide (data = [])) as [->|Hne].
    { destruct (send_empty_ok (S (length (wr (sock ch)))) ch Hi Hroom ltac:(lia)) as (rv & ch' & -> & Hw & Hr).
      exists rv, ch', 0. split; [done|]. pose proof Hw as []. split_and!; try done; [exists []; by rewrite app_nil_r|].
      intros. destruct Hr; [by subst|done]. }
    destruct (send_loop_ok (S (length (wr (sock ch)))) 0 data ch) as (rv & ch' & n & -> & Hr); try done; try lia.
    exists rv, ch', n. split; [done|]. destruct Hr as [(-> & [])|(-> & ? & ? & ? & ?)].
    + split_and!; try done. exists []. by rewrite app_nil_r.
    + split_and!; try done.
Qed.

(** A call takes its answers from the front of the script. *)
Lemma sys_write_wr bs k : wr (snd (sys_write bs k)) `suffix_of` wr k.
Proof.
  unfold sys_write. destruct bs; [done|]. destruct (wr k) as [|[n|e] rest]; cbn; [done|by apply suffix_cons_r..].
Qed.

Definition kept (ch ch' : TcpChannel) : Prop := wr (sock ch') `suffix_of` wr (sock ch) /\ in_ ch' = in_ ch.

Lemma write_loop_kept fuel t ch rv ch' : write_loop fuel t ch = Ret rv ch' -> kept ch ch'.
Proof.
  unfold kept. revert t ch. induction fuel as [|fuel IH]; intros t ch; cbn [write_loop]; destruct (CanReadSize (out_ ch) =? 0);
    [intros [= <- <-]; done|done|intros [= <- <-]; done|].
  pose proof (sys_write_wr (StringView (out_ ch)) (sock ch)) as Hw. destruct (sys_write _ _) as [rv' k]; cbn in Hw.
  repeat case_match; try (intros [= <- <-]; done); intros [Hx Hy]%IH; cbn in Hx, Hy; (split; [by etrans|done]).
Qed.

Lemma send_loop_kept fuel w data ch rv ch' : send_loop fuel w data ch = Ret rv ch' -> kept ch ch'.
Proof.
  unfold kept. revert w data ch. induction fuel as [|fuel IH]; intros w data ch; cbn [send_loop]; [done|].
  pose proof (sys_write_wr data (sock ch)) as Hw. destruct (sys_write _ _) as [rv' k]; cbn in Hw.
  repeat case_match; try done; try (intros [= <- <-]; done); intros [Hx Hy]%IH; cbn in Hx, Hy; (split; [by etrans|done]).
Qed.

Lemma Send_kept data ch rv ch' : Send data ch = Ret rv ch' -> kept ch ch'.
Proof.
  unfold Send, send_bytes, HandleWrite. repeat case_match; try done;
    solve [intros [= <- <-]; by split|by intros Hx%write_loop_kept|by intros Hx%send_loop_kept].
Qed.

Lemma Send_small data ch : zlen data < 2 ^ 31 -> Send data ch = send_bytes data ch.
Proof.
  intros H. unfold Send. rewrite i32_id by lia. destruct (Z.ltb_spec (zlen data) 0); [lia|]. by rewrite ztake_all.
Qed.

(** On a healthy socket nothing is lost, whatever the call returns. *)
Lemma Send_healthy data ch :
  inv (out_ ch) -> zlen data < 2 ^ 31 -> zlen data <= room (out_ ch) -> healthy (sock ch) ->
  exists rv ch' n, Send data ch = Ret rv ch' /\ wrote ch ch' data n /\ healthy (sock ch').
Proof.
  intros Hi Hs Hroom Hh.
  assert (exists rv ch' n, Send data ch = Ret rv ch' /\ wrote ch ch' data n) as (rv & ch' & n & E & Hw).
  { rewrite Send_small by done. unfold send_bytes. destruct (Z.ltb_spec 0 (CanReadSize (out_ ch))) as [Hp|Hz].
    - destruct (WriteRawData_ok (out_ ch) data Hi Hroom) as (b & -> & Hb & Hcb & Hrb).
      destruct (HandleWrite_ok (mkChannel (fdev_ ch) (in_ ch) b (sock ch))) as (rv & ch' & n & -> & [] & _); [done|].
      simpl in *. rewrite app_nil_r, Hcb in wrote_stream0. exists rv, ch', n. split; [done|]. split; try done; lia.
    - assert (Hc : contents (out_ ch) = []).
      { apply contents_empty; [done|]. pose proof (CanReadSize_eq _ Hi). destruct Hi; lia. }
      destruct (decide (data = [])) as [->|Hne].
      { destruct (send_empty_ok (S (length (wr (sock ch)))) ch Hi Hroom ltac:(lia)) as (rv & ch' & -> & Hw & _). by exists rv, ch', 0. }
      destruct (send_loop_ok (S (length (wr (sock ch)))) 0 data ch) as (rv & ch' & n & -> & [[_ Hw]|(_ & Hu & _)]); try done; try lia.
      by exists rv, ch', n. }
  exists rv, ch', n. split_and!; [done..|]. destruct (Send_kept data ch rv ch' E) as [[l El] _]. unfold healthy in *. rewrite El in Hh.
  by apply Forall_app in Hh as [_ ?].
Qed.

Lemma Send_ok data ch :
  inv (out_ ch) -> zlen data < 2 ^ 31 -> zlen data <= room (out_ ch) ->
  exists rv ch' n, Send data ch = Ret rv ch' /\
    inv (out_ ch') /\ room (out_ ch) - zlen data <= room (out_ ch') /\ stream_prefix ch ch' data /\
    (rv <> -1 -> rv = i32 n /\ wrote ch ch' data n).
Proof. intros Hi Hs. rewrite Send_small by done. by apply send_bytes_ok. Qed.

(** Calls of the owner of a channel: a message handed to [Send], or the socket
    reported writable. *)
Inductive chan_op := CSend (data : list Z) | CWritable.

Definition op_call (o : chan_op) (ch : TcpChannel) : call :=
  match o with CSend data => Send data ch | CWritable => HandleWrite ch end.
Definition op_data (o : chan_op) : list Z := match o with CSend data => data | CWritable => [] end.

(** The channel after the calls and the results they returned. *)
Fixpoint run_chan (os : list chan_op) (ch : TcpChannel) : option (list Z * TcpChannel) :=
  match os with
  | [] => Some ([], ch)
  | o :: os' =>
      match op_call o ch with
      | Ret rv ch' => r ← run_chan os' ch'; Some (rv :: fst r, snd r)
      | _ => None
      end
  end.

Definition chan_valid (o : chan_op) : Prop := match o with CSend data => zlen data < 2 ^ 31 | CWritable => True end.

Lemma op_call_ok o ch :
  inv (out_ ch) -> chan_valid o -> zlen (op_data o) <= room (out_ ch) ->
  exists rv ch', op_call o ch = Ret rv ch' /\ inv (out_ ch') /\
    room (out_ ch) - zlen (op_data o) <= room (out_ ch') /\
    (rv <> -1 -> sent (sock ch') ++ contents (out_ ch') = sent (sock ch) ++ contents (out_ ch) ++ op_data o).
Proof.
  destruct o as [data|]; simpl; intros Hi Hv Hr.
  - destruct (Send_ok data ch Hi Hv Hr) as (rv & ch' & n & ? & ? & ? & _ & H). exists rv, ch'.
    split_and!; try done. intros Hrv. by destruct (H Hrv) as [_ []].
  - destruct (HandleWrite_ok ch Hi) as (rv & ch' & n & ? & [] & _). exists rv, ch'. split_and!; done.
Qed.

(** C2.  Stream integrity: whatever the kernel does -- short writes, EINTR, full
    socket buffers -- any interleaving of writable events and of [Send]s of less than
    2^31 bytes each, empty ones included, runs to completion, and when no call
    reported an error the bytes on the wire followed by the bytes still queued are
    exactly the messages sent, in order.  All of them together fit the memory of
    the output buffer. *)
Theorem tcp_stream_integrity os ch :
  inv (out_ ch) -> Forall chan_valid os -> zlen (concat (op_data <$> os)) <= room (out_ ch) ->
  exists rvs ch', run_chan os ch = Some (rvs, ch') /\ inv (out_ ch') /\
    (Forall (fun rv => rv <> -1) rvs ->
     sent (sock ch') ++ contents (out_ ch') =
       sent (sock ch) ++ contents (out_ ch) ++ concat (op_data <$> os)).
Proof.
  intros Hi Hv. revert ch Hi. induction Hv as [|o os Ho Hv IH]; intros ch Hi Hr.
  { exists [], ch. simpl. rewrite app_nil_r. done. }
  rewrite fmap_cons, concat_cons, length_app in Hr.
  destruct (op_call_ok o ch Hi Ho ltac:(lia)) as (rv & ch1 & Hc & Hi1 & Hr1 & Hs1).
  destruct (IH ch1 Hi1 ltac:(lia)) as (rvs & ch' & Hrun & Hi' & Hs').
  exists (rv :: rvs), ch'. simpl. rewrite Hc, Hrun. split_and!; [done..|].
  intros Hrv. apply Forall_cons_1 in Hrv as [Hrv Hrvs]. rewrite (Hs' Hrvs), app_assoc, (Hs1 Hrv).
  by rewrite <- !app_assoc.
Qed.

Lemma tcp_stream_integrity_witness :
  exists rvs ch',
    run_chan [CSend [1; 2; 3]; CWritable; CSend []; CSend [4]; CWritable]
      (mkChannel (FdEvent_new 7 READ) IOBuffer_new IOBuffer_new
         (mkSocket 0 [] [WAccept 1; WErr EINTR; WErr EAGAIN; WAccept 1; WErr EAGAIN; WAccept 9] [])) = Some (rvs, ch') /\
    sent (sock ch') ++ contents (out_ ch') = [1; 2; 3; 4].
Proof.
  destruct (tcp_stream_integrity [CSend [1; 2; 3]; CWritable; CSend []; CSend [4]; CWritable]
    (mkChannel (FdEvent_new 7 READ) IOBuffer_new IOBuffer_new
       (mkSocket 0 [] [WAccept 1; WErr EINTR; WErr EAGAIN; WAccept 1; WErr EAGAIN; WAccept 9] [])))
    as (rvs & ch' & H1 & H2 & H3).
  - apply inv_new.
  - repeat constructor.
  - unfold room, max_vector_size; simpl; lia.
  - exists rvs, ch'. split; [exact H1|]. rewrite H3; [reflexivity|].
    assert (rvs = [1; 1; 1; 0; 0]) as -> by (vm_compute in H1; congruence). repeat constructor; lia.
Defined.

(** After a writable event that did not fail, the channel waits for
    writability exactly when bytes are still queued: no lost wake-up and no busy
    polling. *)
Theorem write_interest_exact ch rv ch' :
  inv (out_ ch) -> contents (out_ ch) <> [] -> HandleWrite ch = Ret rv ch' -> rv <> -1 ->
  IsWriteEnable (fdev_ ch') = negb (bool_decide (contents (out_ ch') = [])) /\
  (contents (out_ ch') <> [] -> errno (sock ch') = EAGAIN).
Proof.
  intros Hi Hne Hw Hrv. unfold HandleWrite in Hw. rewrite <- contents_empty in Hne by done.
  destruct (Z.eqb_spec (CanReadSize (out_ ch)) 0); [done|].
  destruct (write_loop_ok (S (length (wr (sock ch)))) 0 ch Hi ltac:(lia)) as (rv1 & ch1 & n1 & Hw1 & _ & Hr).
  rewrite Hw1 in Hw. injection Hw as -> ->. destruct Hr as [[_ Hr]|]; [exact Hr | done].
Qed.

Lemma write_interest_exact_witness :
  exists ch', HandleWrite (mkChannel (FdEvent_new 7 READ) IOBuffer_new (mkIOBuffer 0 2 [65; 66])
                (mkSocket 0 [] [WAccept 1] [])) = Ret 1 ch' /\ IsWriteEnable (fdev_ ch') = true.
Proof.
  eexists. split; [reflexivity|].
  match goal with |- IsWriteEnable (fdev_ ?c) = _ =>
    destruct (write_interest_exact (mkChannel (FdEvent_new 7 READ) IOBuffer_new (mkIOBuffer 0 2 [65; 66])
      (mkSocket 0 [] [WAccept 1] [])) 1 c) as [H _] end.
  - unfold inv, max_vector_size; simpl; lia.
  - discriminate.
  - reflexivity.
  - lia.
  - exact H.
Defined.

(** ** Reading: the script up to the point where the loop stops *)

Inductive stop := Blocked | Closed | Failed.

(** The specification: all the bytes that are ready, retrying on EINTR. *)
Fixpoint drain (evs : list read_ev) : list Z * stop * list read_ev :=
  match evs with
  | [] => ([], Blocked, [])
  | RData b bs :: rest => let '(d, s, r) := drain rest in ((b :: bs) ++ d, s, r)
  | REof :: rest => ([], Closed, REof :: rest)
  | RErr e :: rest =>
      if e =? EAGAIN then ([], Blocked, rest)
      else if e =? EINTR then drain rest
      else ([], Failed, rest)
  end.

Lemma read_work_rest n b bs rest :
  1 <= n ->
  (read_work (match zdrop n (b :: bs) with [] => rest | b' :: bs' => RData b' bs' :: rest end)
   < read_work (RData b bs :: rest))%nat.
Proof.
  intros Hn. pose proof (length_drop (b :: bs) (Z.to_nat n)) as Hd. unfold zdrop in *.
  destruct (drop (Z.to_nat n) (b :: bs)) as [|b' bs']; simpl in *; lia.
Qed.

Lemma drain_rest n b bs rest :
  let '(d, s, r) := drain (RData b bs :: rest) in
  exists d', d = ztake n (b :: bs) ++ d' /\
    drain (match zdrop n (b :: bs) with [] => rest | b' :: bs' => RData b' bs' :: rest end) = (d', s, r).
Proof.
  cbn [drain]. destruct (drain rest) as [[d s] r] eqn:E.
  exists (zdrop n (b :: bs) ++ d). rewrite app_assoc, ztake_zdrop. split; [done|].
  destruct (zdrop n (b :: bs)); [done|]. cbn [drain]. by rewrite E.
Qed.

Lemma read_loop_ok fuel ch :
  inv (in_ ch) -> (read_work (rd (sock ch)) < fuel)%nat ->
  let '(d, s, r) := drain (rd (sock ch)) in
  kBlockSize + zlen d <= room (in_ ch) ->
  exists rv ch', read_loop fuel ch = Ret rv ch' /\ inv (in_ ch') /\
    contents (in_ ch') = contents (in_ ch) ++ d /\ rd (sock ch') = r /\
    out_ ch' = out_ ch /\ sent (sock ch') = sent (sock ch) /\ fdev_ ch' = fdev_ ch /\
    rv = match s with Blocked => i32 (zlen (contents (in_ ch'))) | _ => -1 end.
Proof.
  revert ch. induction fuel as [|fuel IH]; intros ch Hi Hf; [lia|]. cbn [read_loop].
  destruct (drain (rd (sock ch))) as [[d s] r] eqn:Ed. intros Hr.
  destruct (EnsureWritableSize_ok (in_ ch) kBlockSize Hi) as (b1 & -> & Hi1 & Hc1 & Hw1 & Hr1);
    [unfold kBlockSize in *; lia|]. unfold sys_read.
  destruct (rd (sock ch)) as [|[b bs| |e] rest] eqn:Erd.
  - injection Ed as <- <- <-. simpl. eexists _, _. split; [done|]. rewrite app_nil_r, CanReadSize_contents by done.
    split_and!; simpl; try done; by rewrite Hc1.
  - set (n := CanWriteSize b1) in *. assert (Hn : 1 <= n) by (unfold kBlockSize in *; lia).
    pose proof (drain_rest n b bs rest) as Hdr. rewrite Ed in Hdr. destruct Hdr as (d' & -> & Hdr).
    assert (Hg : 0 < zlen (ztake n (b :: bs)) <= n).
    { unfold ztake. rewrite length_take. simpl. lia. }
    destruct (Z.ltb_spec 0 (zlen (ztake n (b :: bs)))); [|lia].
    destruct (StoreProduce_ok b1 (ztake n (b :: bs)) Hi1 ltac:(lia)) as (b2 & -> & Hi2 & Hc2 & Hr2).
    match goal with |- context [read_loop fuel ?c] => specialize (IH c Hi2) end. simpl in IH.
    rewrite Hdr in IH. rewrite length_app in Hr.
    destruct IH as (rv & ch' & -> & ? & Hc' & ? & ? & ? & ? & ?);
      [pose proof (read_work_rest n b bs rest Hn); lia | lia |].
    eexists _, _. split; [done|]. split_and!; try done. by rewrite Hc', Hc2, Hc1, <- app_assoc.
  - injection Ed as <- <- <-. simpl. eexists _, _. split; [done|]. rewrite app_nil_r. split_and!; done.
  - cbn [drain] in Ed. change (0 <? -1) with false. change (-1 =? 0) with false. cbv iota. cbn [errno].
    destruct (Z.eqb_spec e EAGAIN) as [->|Ha].
    { injection Ed as <- <- <-. eexists _, _. split; [done|].
      rewrite app_nil_r, CanReadSize_contents by done. split_and!; simpl; try done; by rewrite Hc1. }
    destruct (Z.eqb_spec e EINTR) as [->|Hint].
    { specialize (IH (mkChannel (fdev_ ch) b1 (out_ ch) (mkSocket EINTR rest (wr (sock ch)) (sent (sock ch)))) Hi1).
      simpl in IH. rewrite Ed in IH. destruct IH as (rv & ch' & -> & ? & Hc' & ?); [simpl in Hf; lia | lia |].
      eexists _, _. split; [done|]. split_and!; try tauto. by rewrite Hc', Hc1. }
    injection Ed as <- <- <-. eexists _, _. split; [done|]. rewrite app_nil_r. split_and!; done.
Qed.

(** [HandleRead] empties the socket: it terminates, appends exactly the bytes
    that were ready -- whatever the segmentation and the EINTRs -- to the input
    buffer, and returns the number of pending bytes, or -1 exactly when the peer
    closed or the socket failed (the bytes read before that are kept). *)
Theorem HandleRead_drains ch d s r :
  inv (in_ ch) -> drain (rd (sock ch)) = (d, s, r) -> kBlockSize + zlen d <= room (in_ ch) ->
  exists rv ch', HandleRead ch = Ret rv ch' /\ inv (in_ ch') /\
    contents (in_ ch') = contents (in_ ch) ++ d /\ rd (sock ch') = r /\ out_ ch' = out_ ch /\
    rv = match s with Blocked => i32 (zlen (contents (in_ ch'))) | _ => -1 end.
Proof.
  intros Hi Hd Hr. pose proof (read_loop_ok (S (read_work (rd (sock ch)))) ch Hi ltac:(lia)) as H.
  rewrite Hd in H. destruct (H Hr) as (rv & ch' & ? & ? & ? & ? & ? & _ & _ & ?). exists rv, ch'. done.
Qed.

Lemma HandleRead_drains_witness :
  exists rv ch', HandleRead (mkChannel (FdEvent_new 7 READ) IOBuffer_new IOBuffer_new
      (mkSocket 0 [RData 1 [2; 3]; RErr EINTR; RData 4 []; REof] [] [])) = Ret rv ch' /\
    contents (in_ ch') = [1; 2; 3; 4] /\ rv = -1.
Proof.
  destruct (HandleRead_drains (mkChannel (FdEvent_new 7 READ) IOBuffer_new IOBuffer_new
      (mkSocket 0 [RData 1 [2; 3]; RErr EINTR; RData 4 []; REof] [] [])) [1; 2; 3; 4] Closed [REof])
    as (rv & ch' & H1 & _ & H3 & _ & _ & H6).
  - apply inv_new.
  - reflexivity.
  - unfold room, kBlockSize, max_vector_size; simpl; lia.
  - exists rv, ch'. split_and!; [exact H1 | rewrite H3; reflexivity | exact H6].
Defined.

(** [Send] of an empty buffer on an idle channel consults an [errno] nobody
    set: [write] returns 0, and unless some earlier call happened to leave EAGAIN
    or EINTR behind the call reports a fatal error although nothing failed. *)
Theorem empty_send_reports_error ch :
  inv (out_ ch) -> contents (out_ ch) = [] -> errno (sock ch) <> EAGAIN -> errno (sock ch) <> EINTR ->
  Send [] ch = Ret (-1) ch.
Proof.
  intros Hi Hc Ha Hi'. rewrite Send_small by done. unfold send_bytes. rewrite CanReadSize_contents, Hc by done. simpl.
  destruct (Z.eqb_spec (errno (sock ch)) EAGAIN), (Z.eqb_spec (errno (sock ch)) EINTR); try done.
  by destruct ch.
Qed.

Lemma empty_send_reports_error_witness :
  Send [] (mkChannel (FdEvent_new 7 READ) IOBuffer_new IOBuffer_new (mkSocket 0 [] [] [])) =
  Ret (-1) (mkChannel (FdEvent_new 7 READ) IOBuffer_new IOBuffer_new (mkSocket 0 [] [] [])).
Proof.
  apply (empty_send_reports_error (mkChannel (FdEvent_new 7 READ) IOBuffer_new IOBuffer_new (mkSocket 0 [] [] []))).
  - apply inv_new.
  - reflexivity.
  - discriminate.
  - discriminate.
Defined.

(** The size of a buffer is narrowed to 32 bits: of 2^32 bytes and more only what is
    above the multiple of 2^32 is sent, and of a buffer between 2^31 and 2^32 bytes a
    length is computed that reads past its end. *)
Theorem oversized_send data k ch :
  (zlen data = 2 ^ 32 + k -> 0 <= k < 2 ^ 31 -> Send data ch = Send (ztake k data) ch) /\
  (2 ^ 31 <= zlen data < 2 ^ 32 -> Send data ch = Crash).
Proof.
  split.
  - intros E Hk. rewrite (Send_small (ztake k data)) by (rewrite zlen_ztake; lia). unfold Send.
    assert (i32 (zlen data) = k) as -> by (rewrite E; unfold i32; replace (2 ^ 32 + k + 2 ^ 31) with (k + 2 ^ 31 + 1 * 2 ^ 32) by lia; rewrite Z.mod_add, Z.mod_small; lia).
    by destruct (Z.ltb_spec k 0); [lia|].
  - intros H. unfold Send. assert (i32 (zlen data) < 0) as Hn.
    { unfold i32. replace (zlen data + 2 ^ 31) with (zlen data - 2 ^ 31 + 1 * 2 ^ 32) by lia. rewrite Z.mod_add, Z.mod_small; lia. }
    by destruct (Z.ltb_spec (i32 (zlen data)) 0); [|lia].
Qed.
End TcpChannel.
