(* ===== verification/Codec.v ===== *)
(** * The codec layer (net_io/codec/codec_service.{h,cc})

    A [CodecService] owns a channel, turns its bytes into messages for a handler
    and tells a delegate when the connection is ready or closed.  The virtual
    [OnDataReceived] of the derived class is an argument of [HandleEvent].  What
    the service tells the outside world is a trace of notices. *)
From S2P Require Import Prelude IOBuffer Channel.
Import IOBuffer FdEvent TcpChannel.

(** ** class CodecService *)
Module Codec.

Inductive Status := CONNECTING | CONNECTED | CLOSING | CLOSED.
#[export] Instance Status_eq_dec : EqDecision Status.
Proof. solve_decision. Defined.

Section Service.
Context {M : Type}.

Inductive notice :=
| Message (m : M)       (* handler_->OnCodecMessage *)
| Ready                 (* delegate_->OnCodecReady *)
| Closed.               (* delegate_->OnCodecClosed *)

Record CodecService := mkService {
  server_side_ : bool;
  schedule_close_ : bool;
  as_fdev_handler_ : bool;
  has_handler_ : bool;      (* handler_ != nullptr *)
  has_delegate_ : bool;     (* delegate_ != nullptr *)
  status_ : Status;
  channel_ : TcpChannel;
  notices : list notice;
}.

Definition with_status v s := mkService (server_side_ s) (schedule_close_ s) (as_fdev_handler_ s) (has_handler_ s) (has_delegate_ s) v (channel_ s) (notices s).
Definition with_channel v s := mkService (server_side_ s) (schedule_close_ s) (as_fdev_handler_ s) (has_handler_ s) (has_delegate_ s) (status_ s) v (notices s).
Definition notify n s := mkService (server_side_ s) (schedule_close_ s) (as_fdev_handler_ s) (has_handler_ s) (has_delegate_ s) (status_ s) (channel_ s) (notices s ++ [n]).
Definition with_in v s :=
  let c := channel_ s in with_channel (mkChannel (fdev_ c) v (out_ c) (sock c)) s.

(** [handler_->OnCodecMessage(m)] where the code tests [handler_]. *)
Definition OnCodecMessage (m : M) (s : CodecService) : CodecService :=
  if has_handler_ s then notify (Message m) s else s.

Definition NotifyCodecClosed (s : CodecService) : CodecService :=
  if has_delegate_ s then notify Closed s else s.

Definition NotifyCodecReady (s : CodecService) : CodecService :=
  let s := if decide (status_ s = CONNECTING) then with_status CONNECTED s else s in
  if has_delegate_ s then notify Ready s else s.

(** [EventPump::RemoveFdEvent]: deregisters the event from the poller; an event
    without a watcher is left alone. *)
Definition RemoveFdEvent (s : CodecService) : CodecService :=
  let c := channel_ s in let f := fdev_ c in
  with_channel (mkChannel (mkFdEvent (fd_ f) (owner_fd_ f) (event_ f) (fired_ f) (enable_et_ f) None)
                  (in_ c) (out_ c) (sock c)) s.

(** [EventPump::InstallFdEvent]. *)
Definition InstallFdEvent (s : CodecService) : CodecService :=
  let c := channel_ s in let f := fdev_ c in
  with_channel (mkChannel (mkFdEvent (fd_ f) (owner_fd_ f) (event_ f) (fired_ f) (enable_et_ f) (Some [event_ f]))
                  (in_ c) (out_ c) (sock c)) s.

Definition StartInternal (s : CodecService) : CodecService :=
  let s := with_channel (StartChannel (channel_ s)) s in
  if as_fdev_handler_ s then InstallFdEvent s else s.

Definition StartProtocolService (s : CodecService) : CodecService :=
  NotifyCodecReady (with_status CONNECTED (StartInternal s)).

(** [BeforeCloseService] and [AfterChannelClosed] are empty in the codecs of
    this development. *)
Definition CloseService (block_callback : bool) (s : CodecService) : CodecService :=
  let s := if as_fdev_handler_ s then RemoveFdEvent s else s in
  let s := with_status CLOSED s in
  if negb block_callback then NotifyCodecClosed s else s.

Definition OnDataFinishSend (s : CodecService) : CodecService :=
  if negb (schedule_close_ s) then s else CloseService false s.

Definition ShouldClose (s : CodecService) : bool :=
  schedule_close_ s && negb (HasOutgoingData (channel_ s)).

(** A channel call from the service: its result, or [None] for a crash. *)
Definition on_channel (c : call) (s : CodecService) : option (Z * CodecService) :=
  match c with Ret rv ch => Some (rv, with_channel ch s) | _ => None end.

Definition TryFlushChannel (s : CodecService) : option (bool * CodecService) :=
  r ← on_channel (HandleWrite (channel_ s)) s;
  let '(nbytes, s) := r in
  let s := if (0 <? nbytes) && negb (HasOutgoingData (channel_ s)) then OnDataFinishSend s else s in
  Some (0 <=? nbytes, s).

Definition SocketReadWrite (ev : Z) (s : CodecService) : option (bool * CodecService) :=
  w ← (if has_write ev then
         r ← on_channel (HandleWrite (channel_ s)) s;
         let '(rv, s) := r in
         if rv <? 0 then Some (false, s)
         else Some (true, if (0 <? rv) && negb (HasOutgoingData (channel_ s)) then OnDataFinishSend s else s)
       else Some (true, s));
  let '(ok, s) := w in
  if negb ok then Some (false, s)
  else if has_read ev then
    r ← on_channel (HandleRead (channel_ s)) s;
    let '(rv, s) := r in Some (negb (rv <? 0), s)
  else Some (true, s).

(** [OnDataReceived] is the derived class's, on the service whose channel holds
    the reader buffer. *)
Definition HandleEvent (OnDataReceived : CodecService -> option CodecService)
    (ev : Z) (s : CodecService) : option CodecService :=
  r ← SocketReadWrite ev s;
  let '(success, s) := r in
  s ← (if HasIncommingData (channel_ s) then OnDataReceived s else Some s);
  if success && negb (ShouldClose s) && negb (has_error ev) then Some s
  else Some (CloseService false s).

End Service.
Arguments notice : clear implicits.
Arguments CodecService : clear implicits.

Section ServiceFacts.
Context {M : Type} (OnDataReceived : CodecService M -> option (CodecService M)).

Lemma CloseService_closed (s : CodecService M) :
  has_delegate_ s = true ->
  status_ (CloseService false s) = CLOSED /\ notices (CloseService false s) = notices s ++ [Closed] /\
  (as_fdev_handler_ s = true -> watcher_ (fdev_ (channel_ (CloseService false s))) = None).
Proof.
  intros Hd. unfold CloseService, NotifyCodecClosed, RemoveFdEvent. simpl.
  destruct (as_fdev_handler_ s); simpl; rewrite Hd; simpl; done.
Qed.

(** End of connection: when the peer closes or the socket fails, a readable
    event first hands every byte that arrived before to the codec, and then
    closes the service: status [CLOSED], the descriptor deregistered, the
    delegate told last. *)
Theorem eof_delivers_then_closes s d st r :
  inv (in_ (channel_ s)) -> drain (rd (sock (channel_ s))) = (d, st, r) -> st <> Blocked ->
  kBlockSize + zlen d <= room (in_ (channel_ s)) -> contents (in_ (channel_ s)) ++ d <> [] ->
  exists s0, contents (in_ (channel_ s0)) = contents (in_ (channel_ s)) ++ d /\ notices s0 = notices s /\
    HandleEvent OnDataReceived READ s = (s1 ← OnDataReceived s0; Some (CloseService false s1)) /\
    forall s1, OnDataReceived s0 = Some s1 -> has_delegate_ s1 = true -> as_fdev_handler_ s1 = true ->
      status_ (CloseService false s1) = CLOSED /\
      watcher_ (fdev_ (channel_ (CloseService false s1))) = None /\
      notices (CloseService false s1) = notices s1 ++ [Closed].
Proof.
  intros Hi Hd Hst Hr Hne. unfold HandleEvent, SocketReadWrite.
  change (has_write READ) with false. change (has_read READ) with true. cbv iota. simpl mbind.
  pose proof (read_loop_ok (S (read_work (rd (sock (channel_ s))))) (channel_ s) Hi ltac:(lia)) as H.
  rewrite Hd in H. destruct (H Hr) as (rv & ch' & Hread & Hi' & Hc & _ & _ & _ & _ & Hrv).
  unfold HandleRead. rewrite Hread. simpl.
  assert (rv = -1) as -> by (by destruct st). simpl.
  assert (HasIncommingData ch' = true) as ->.
  { unfold HasIncommingData. apply negb_true_iff, Z.eqb_neq. rewrite contents_empty by done. congruence. }
  exists (with_channel ch' s). split_and!; [done..|].
  intros s1 _ Hdel Has. destruct (CloseService_closed s1 Hdel) as (? & ? & ?). auto.
Qed.
End ServiceFacts.

(** A server-side service on a connected socket, as [IOService] sets it up. *)
Definition new_service {M} (server schedule_close : bool) (k : Socket) : CodecService M :=
  mkService server schedule_close true true true CONNECTED
    (mkChannel (mkFdEvent 7 true READ 0 true (Some [])) IOBuffer_new IOBuffer_new k) [].


Lemma eof_delivers_then_closes_witness :
  exists s0 : CodecService (list Z),
    contents (in_ (channel_ s0)) = [65; 66] /\
    HandleEvent (fun s => Some (OnCodecMessage (contents (in_ (channel_ s))) s)) READ
      (new_service true false (mkSocket 0 [RData 65 [66]; REof] [] [])) =
    Some (CloseService false (OnCodecMessage (contents (in_ (channel_ s0))) s0)).
Proof.
  destruct (eof_delivers_then_closes (fun s => Some (OnCodecMessage (contents (in_ (channel_ s))) s))
    (new_service true false (mkSocket 0 [RData 65 [66]; REof] [] [])) [65; 66] TcpChannel.Closed [REof])
    as (s0 & H1 & _ & H3 & _).
  - apply inv_new.
  - reflexivity.
  - discriminate.
  - unfold room, kBlockSize, max_vector_size; simpl; lia.
  - discriminate.
  - exists s0. split; [exact H1 | exact H3].
Defined.

(** A service that is to close once its output is flushed tells its delegate
    twice: the writable event that sends the last byte closes it from
    [OnDataFinishSend], and [HandleEvent] then finds [ShouldClose()] and closes
    it again. *)
Theorem scheduled_close_notifies_twice :
  exists s', HandleEvent (M := unit) (fun s => Some s) WRITE
      (let s := new_service true true (mkSocket 0 [] [WAccept 100] []) in
       with_channel (mkChannel (fdev_ (channel_ s)) IOBuffer_new (mkIOBuffer 0 2 [65; 66]) (sock (channel_ s))) s)
    = Some s' /\ notices s' = [Closed; Closed].
Proof. eexists. split; reflexivity. Qed.
End Codec.
