(* ===== verification/LineCodec.v ===== *)
(** * The line codec (net_io/codec/line)

    Messages are terminated by CRLF. *)
From S2P Require Import Prelude IOBuffer Channel Codec.
Import IOBuffer FdEvent TcpChannel Codec.

Module LineCodec.

(** [LineMessage]: its body. *)
Definition LineMessage : Type := list Z.

(** [LineCodecService::OnDataReceived] on the reader buffer of the channel. *)
Definition OnDataReceived (s : CodecService LineMessage) : option (CodecService LineMessage) :=
  let buf := in_ (channel_ s) in
  match FindCRLF buf with
  | None => Some s
  | Some len =>
      let body := ztake len (zdrop (read_index_ buf) (data_ buf)) in
      let s := with_in (Consume (len + 2) buf) s in
      Some (OnCodecMessage body s)
  end.

Definition kCRCN : list Z := [13; 10].

(** [LineCodecService::SendMessage] *)
Definition SendMessage (body : LineMessage) (s : CodecService LineMessage) : option (bool * CodecService LineMessage) :=
  r ← on_channel (Send body (channel_ s)) s;
  let '(ret, s) := r in
  if ret <? 0 then Some (false, s)
  else
    r ← on_channel (Send kCRCN (channel_ s)) s;
    let '(ret, s) := r in Some (0 <=? ret, s).

Definition SendRequest := SendMessage.
Definition SendResponse (_ : LineMessage) := SendMessage.

(** A body that can travel: no CRLF inside. *)
Definition line_ok (body : LineMessage) : Prop := search kCRLF body = None.

Lemma OnDataReceived_line s body rest :
  inv (in_ (channel_ s)) -> contents (in_ (channel_ s)) = body ++ kCRLF ++ rest -> line_ok body ->
  exists b', OnDataReceived s = Some (OnCodecMessage body (with_in b' s)) /\ inv b' /\ contents b' = rest.
Proof.
  intros Hi Hc Hok. unfold OnDataReceived, FindCRLF. fold (AsString (in_ (channel_ s))).
  fold (contents (in_ (channel_ s))).
  destruct (Z.eqb_spec (CanReadSize (in_ (channel_ s))) 0) as [E|E].
  { apply contents_empty in E; [|done]. rewrite Hc in E. destruct body; done. }
  rewrite Hc, search_crlf by done.
  destruct (Consume_ok (in_ (channel_ s)) (zlen body + 2) Hi ltac:(lia)) as (Hi' & Hc' & _).
  eexists. split; [|split; [exact Hi'|]].
  - do 2 f_equal. rewrite <- (ztake_app (zlen body) body (kCRLF ++ rest)) at 2 by done.
    rewrite <- Hc. unfold contents, AsString, slice. destruct Hi as [[Hr0 Hr] Hw].
    unfold ztake. rewrite take_take. f_equal.
    assert (zlen (contents (in_ (channel_ s))) = zlen body + 2 + zlen rest)
      by (rewrite Hc, !length_app; simpl; lia).
    unfold contents, AsString in H. rewrite zlen_slice in H; lia.
  - rewrite Hc', Hc. rewrite app_assoc. apply zdrop_app. rewrite length_app. simpl. lia.
Qed.

(** A complete line at the front of the buffer is delivered as one message
    with exactly its bytes, and exactly the line and its terminator are
    consumed; with no complete line nothing happens. *)
Theorem line_decoded s body rest :
  inv (in_ (channel_ s)) -> has_handler_ s = true -> line_ok body ->
  (contents (in_ (channel_ s)) = body ++ kCRLF ++ rest ->
   exists s', OnDataReceived s = Some s' /\ notices s' = notices s ++ [Message body] /\
              inv (in_ (channel_ s')) /\ contents (in_ (channel_ s')) = rest) /\
  (contents (in_ (channel_ s)) = body -> OnDataReceived s = Some s).
Proof.
  intros Hi Hh Hok. split; intros Hc.
  - destruct (OnDataReceived_line s body rest Hi Hc Hok) as (b' & -> & Hi' & Hc').
    eexists. split; [done|]. unfold OnCodecMessage; simpl. rewrite Hh. done.
  - unfold OnDataReceived, FindCRLF. fold (AsString (in_ (channel_ s))). fold (contents (in_ (channel_ s))).
    rewrite Hc. unfold line_ok in Hok. rewrite Hok. by destruct (_ =? 0).
Qed.

Lemma line_decoded_witness :
  exists s', OnDataReceived (with_in (mkIOBuffer 0 4 [65; 13; 10; 66]) (new_service true false (mkSocket 0 [] [] [])))
             = Some s' /\ notices s' = [Message [65]] /\ contents (in_ (channel_ s')) = [66].
Proof.
  destruct (line_decoded (with_in (mkIOBuffer 0 4 [65; 13; 10; 66]) (new_service true false (mkSocket 0 [] [] [])))
    [65] [66]) as [H _].
  - unfold inv, max_vector_size; simpl; lia.
  - reflexivity.
  - reflexivity.
  - destruct (H eq_refl) as (s' & H1 & H2 & _ & H4). exists s'. split_and!; [exact H1 | exact H2 | exact H4].
Defined.

(** Pipelined lines stall: when two lines arrive in one segment,
    [OnDataReceived] takes only the first; the second stays in the buffer
    although the socket is drained and, being edge-triggered, will not fire
    again for it. *)
Theorem second_line_stalls :
  exists s', HandleEvent OnDataReceived READ
      (new_service true false (mkSocket 0 [RData 65 [13; 10; 66; 13; 10]] [] [])) = Some s' /\
    notices s' = [Message [65]] /\ contents (in_ (channel_ s')) = [66; 13; 10] /\
    rd (sock (channel_ s')) = [].
Proof. eexists. split_and!; reflexivity. Qed.

End LineCodec.
