(* ===== verification/RawCodec.v ===== *)
(** * The raw message codec (net_io/codec/raw)

    A message is a 24-byte header in host representation -- status, method, the
    compiler's padding, payload size, sequence id -- followed by the payload.
    The decoder is written against the [ByteQueue] interface; its theorems hold
    for [IOBuffer] through the instance of IOBuffer.v. *)
From S2P Require Import Prelude IOBuffer Channel Codec ByteOrder.
Import IOBuffer FdEvent TcpChannel Codec ByteOrder.

Module RawCodec.

(** struct LtRawHeader *)
Record LtRawHeader := mkHeader {
  code : Z;            (* uint8_t *)
  method : Z;          (* uint8_t *)
  content_size_ : Z;   (* uint64_t *)
  sequence_id_ : Z;    (* uint64_t *)
}.

Definition kHeaderSize : Z := 24.
Definition kHeartbeatMethodId : Z := 0xFF.

Definition payload_size (h : LtRawHeader) : Z := content_size_ h.
Definition frame_size (h : LtRawHeader) : Z := content_size_ h +64 kHeaderSize.

Definition ToNetOrder (h : LtRawHeader) : LtRawHeader :=
  mkHeader (code h) (method h) (HostToNet64 (content_size_ h)) (HostToNet64 (sequence_id_ h)).
Definition FromNetOrder (h : LtRawHeader) : LtRawHeader :=
  mkHeader (code h) (method h) (NetToHost64 (content_size_ h)) (NetToHost64 (sequence_id_ h)).

(** class RawMessage *)
Record RawMessage := mkRaw { header_ : LtRawHeader; content_ : list Z }.

Definition Create : RawMessage := mkRaw (mkHeader 0 0 0 0) [].
Definition CreateResponse (request : RawMessage) : RawMessage :=
  mkRaw (mkHeader 0 (method (header_ request)) 0 (sequence_id_ (header_ request))) [].
Definition AsyncId (m : RawMessage) : Z := sequence_id_ (header_ m).
Definition SetAsyncId (id : Z) (m : RawMessage) : RawMessage :=
  mkRaw (mkHeader (code (header_ m)) (method (header_ m)) (content_size_ (header_ m)) id) (content_ m).
Definition AsHeartbeat (m : RawMessage) : RawMessage :=
  mkRaw (mkHeader 0 kHeartbeatMethodId (content_size_ (header_ m)) (sequence_id_ (header_ m))) (content_ m).
Definition IsHeartbeat (m : RawMessage) : bool :=
  (code (header_ m) =? 0) && (method (header_ m) =? kHeartbeatMethodId).
Definition SetContent (c : list Z) (m : RawMessage) : RawMessage :=
  mkRaw (mkHeader (code (header_ m)) (method (header_ m)) (zlen c) (sequence_id_ (header_ m))) c.
Definition AppendContent (c : list Z) (m : RawMessage) : RawMessage :=
  let content := content_ m ++ c in
  mkRaw (mkHeader (code (header_ m)) (method (header_ m)) (zlen content) (sequence_id_ (header_ m))) content.

(** The header object in memory: 1 + 1 bytes, 6 of padding, 8, 8; and back. *)
Definition header_bytes (pad : list Z) (h : LtRawHeader) : list Z :=
  [code h; method h] ++ pad ++ le_bytes 8 (content_size_ h) ++ le_bytes 8 (sequence_id_ h).
Arguments header_bytes : simpl never.
Definition header_of (bs : list Z) : LtRawHeader :=
  mkHeader (nth 0 bs 0) (nth 1 bs 0) (le_value (slice 8 16 bs)) (le_value (slice 16 24 bs)).

(** [RawMessage::Decode]: no message yet, a message and the buffer after it, or
    a read past the received bytes. *)
Inductive decoded (B : Type) := NoMessage | Decoded (m : RawMessage) (b : B) | ReadPastEnd.
Arguments NoMessage {B}. Arguments Decoded {B}. Arguments ReadPastEnd {B}.

Definition Decode {B} `{ByteQueue B} (buffer : B) : decoded B :=
  let avail := bq_contents buffer in
  if zlen avail <? kHeaderSize then NoMessage
  else
    let predict_header := header_of (ztake kHeaderSize avail) in
    if zlen avail <? frame_size predict_header then NoMessage
    else
      let message := mkRaw (header_of (ztake kHeaderSize avail)) [] in
      let buffer := bq_consume kHeaderSize buffer in
      let body_size := payload_size (header_ message) in
      if 0 <? body_size then
        let avail := bq_contents buffer in
        if zlen avail <? body_size then ReadPastEnd
        else Decoded (AppendContent (ztake body_size avail) message) (bq_consume body_size buffer)
      else Decoded message buffer.

Section Service.
(** The padding bytes the compiler leaves in the header object. *)
Variable pad : list Z.

(** [RawMessage::EncodeTo]; [None] also when the [CHECK] fails. *)
Definition EncodeTo (m : RawMessage) (s : CodecService RawMessage) : option (bool * CodecService RawMessage) :=
  if negb (zlen (content_ m) =? payload_size (header_ m)) then None
  else
    r ← on_channel (Send (header_bytes pad (header_ m)) (channel_ s)) s;
    let '(rv, s) := r in
    if rv <? 0 then Some (false, s)
    else
      r ← on_channel (Send (content_ m) (channel_ s)) s;
      let '(rv, s) := r in Some (0 <=? rv, s).

Definition NewHeartbeat : RawMessage := AsHeartbeat Create.
Definition NewResponse := CreateResponse.

Definition SendResponse (req res : RawMessage) (s : CodecService RawMessage) : option (bool * CodecService RawMessage) :=
  if negb (AsyncId req =? AsyncId res) then None else EncodeTo res s.

(** The static counter [RawCodecService::sequence_id_] is threaded. *)
Definition SendRequest (counter : Z) (m : RawMessage) (s : CodecService RawMessage)
    : option (bool * CodecService RawMessage * Z) :=
  r ← EncodeTo (SetAsyncId counter m) s;
  Some (r, counter +64 1).

(** The body of the loop of [OnDataReceived] for one decoded message. *)
Definition dispatch (m : RawMessage) (s : CodecService RawMessage) : option (CodecService RawMessage) :=
  if server_side_ s && IsHeartbeat m then
    r ← SendResponse m (SetAsyncId (AsyncId m) NewHeartbeat) s;
    Some (snd r)
  else Some (OnCodecMessage m s).

Fixpoint receive_loop (fuel : nat) (s : CodecService RawMessage) : option (CodecService RawMessage) :=
  match fuel with
  | O => None
  | S fuel' =>
      match Decode (in_ (channel_ s)) with
      | NoMessage => Some s
      | ReadPastEnd => None
      | Decoded m b => s ← dispatch m (with_in b s); receive_loop fuel' s
      end
  end.

(** Each decoded message takes at least a header. *)
Definition OnDataReceived (s : CodecService RawMessage) : option (CodecService RawMessage) :=
  receive_loop (S (length (contents (in_ (channel_ s))))) s.
End Service.

(** ** Round trip *)

Definition message_bytes (pad : list Z) (m : RawMessage) : list Z := header_bytes pad (header_ m) ++ content_ m.

Definition message_ok (m : RawMessage) : Prop :=
  payload_size (header_ m) = zlen (content_ m) /\ zlen (content_ m) + kHeaderSize < 2 ^ 64 /\
  0 <= sequence_id_ (header_ m) < 2 ^ 64.

(** A field of a record laid out as [pre ++ field ++ post]. *)
Lemma slice_field {A} (pre field post : list A) i j :
  i = zlen pre -> j = zlen pre + zlen field -> slice i j (pre ++ field ++ post) = field.
Proof.
  intros -> ->. rewrite slice_app_r, slice_app_l by lia.
  rewrite Z.sub_diag, Z.add_simpl_l. apply slice_all.
Qed.

Lemma header_bytes_length pad h : length pad = 6%nat -> zlen (header_bytes pad h) = kHeaderSize.
Proof. intros Hp. unfold header_bytes. rewrite !length_app, !le_bytes_length, Hp. done. Qed.

Lemma header_roundtrip pad h rest :
  length pad = 6%nat -> 0 <= content_size_ h < 2 ^ 64 -> 0 <= sequence_id_ h < 2 ^ 64 ->
  header_of (ztake kHeaderSize (header_bytes pad h ++ rest)) = h.
Proof.
  intros Hp Hc Hs. rewrite ztake_app by (by rewrite header_bytes_length).
  assert (H1 : slice 8 16 (header_bytes pad h) = le_bytes 8 (content_size_ h)).
  { unfold header_bytes. rewrite app_assoc. apply slice_field; rewrite length_app, ?le_bytes_length, Hp; done. }
  assert (H2 : slice 16 24 (header_bytes pad h) = le_bytes 8 (sequence_id_ h)).
  { unfold header_bytes. rewrite !app_assoc, <- (app_nil_r (le_bytes 8 (sequence_id_ h))).
    apply slice_field; rewrite !length_app, !le_bytes_length, Hp; done. }
  unfold header_of. rewrite H1, H2, !le_value_bytes by done. by destruct h.
Qed.

(** Decoding looks at the queue only through its contents. *)
Lemma Decode_message {B} `{ByteQueueLaws B} (b : B) pad m rest :
  bq_inv b -> length pad = 6%nat -> message_ok m -> bq_contents b = message_bytes pad m ++ rest ->
  exists b', Decode b = Decoded m b' /\ bq_inv b' /\ bq_contents b' = rest.
Proof.
  intros Hi Hp (Hsz & Hlt & Hsq) Hc. unfold Decode. rewrite Hc. unfold message_bytes. rewrite <- app_assoc.
  unfold payload_size in Hsz. unfold kHeaderSize in Hlt.
  rewrite header_roundtrip by (done || lia). unfold frame_size. rewrite u64_id by (unfold kHeaderSize; lia).
  pose proof (header_bytes_length pad (header_ m) Hp) as Hl. unfold kHeaderSize in *.
  rewrite !length_app.
  destruct (Z.ltb_spec (Z.of_nat (length (header_bytes pad (header_ m)) + (length (content_ m) + length rest))) 24); [lia|].
  destruct (Z.ltb_spec (Z.of_nat (length (header_bytes pad (header_ m)) + (length (content_ m) + length rest)))
             (content_size_ (header_ m) + 24)); [lia|].
  destruct (bq_consume_ok b 24 Hi ltac:(lia)) as (Hi1 & Hc1 & _).
  assert (Hc1' : bq_contents (bq_consume 24 b) = content_ m ++ rest).
  { rewrite Hc1, Hc. unfold message_bytes. rewrite <- app_assoc. by apply zdrop_app. }
  unfold payload_size. cbn [header_]. rewrite Hc1'.
  destruct (Z.ltb_spec 0 (content_size_ (header_ m))) as [Hpos|Hz].
  - rewrite length_app. destruct (Z.ltb_spec (Z.of_nat (length (content_ m) + length rest)) (content_size_ (header_ m))); [lia|].
    destruct (bq_consume_ok (bq_consume 24 b) (content_size_ (header_ m)) Hi1 ltac:(lia)) as (Hi2 & Hc2 & _).
    eexists. split; [|split; [exact Hi2 | rewrite Hc2, Hc1'; by apply zdrop_app]].
    f_equal. rewrite ztake_app by done. unfold AppendContent. simpl. rewrite <- Hsz. by destruct m as [[] ?].
  - assert (Hnil : content_ m = []) by (destruct (content_ m); [done | simpl in *; lia]).
    eexists. split; [|split; [exact Hi1 | by rewrite Hc1', Hnil]]. destruct m as [h c]. simpl in *. by subst.
Qed.

(** An incomplete message is not touched. *)
Lemma Decode_incomplete {B} `{ByteQueue B} (b : B) pad m part :
  length pad = 6%nat -> message_ok m -> bq_contents b = part ->
  (exists more, message_bytes pad m = part ++ more /\ more <> []) -> Decode b = NoMessage.
Proof.
  intros Hp (Hsz & Hlt & Hsq) Hc (more & Hm & Hne). unfold Decode. rewrite Hc.
  destruct (Z.ltb_spec (zlen part) kHeaderSize) as [|Hge]; [done|].
  unfold kHeaderSize in *. unfold payload_size in Hsz.
  pose proof (header_bytes_length pad (header_ m) Hp) as Hl. unfold kHeaderSize in Hl.
  assert (Ht : ztake 24 part = ztake 24 (header_bytes pad (header_ m) ++ [])).
  { rewrite app_nil_r, (ztake_all 24 (header_bytes _ _)) by lia.
    transitivity (ztake 24 (part ++ more)).
    - unfold ztake. by rewrite take_app_le by lia.
    - rewrite <- Hm. unfold message_bytes. by apply ztake_app. }
  rewrite Ht, header_roundtrip by (done || lia). unfold frame_size, kHeaderSize. rewrite u64_id by lia.
  assert (zlen part < content_size_ (header_ m) + 24); [|by destruct (Z.ltb_spec (zlen part) (content_size_ (header_ m) + 24)); [|lia]].
  apply (f_equal length) in Hm. unfold message_bytes in Hm. rewrite !length_app in Hm.
  destruct more; [done|]. rewrite length_cons in Hm. lia.
Qed.

(** ** Heartbeats *)

(** A message the server answers itself, and its answer. *)
Definition answered (s : CodecService RawMessage) (m : RawMessage) : bool := server_side_ s && IsHeartbeat m.
Definition answer (m : RawMessage) : RawMessage := SetAsyncId (AsyncId m) NewHeartbeat.

(** The bytes a service has handed over: on the wire or waiting. *)
Definition stream (s : CodecService RawMessage) : list Z :=
  sent (sock (channel_ s)) ++ contents (out_ (channel_ s)).

(** What an answer leaves alone. *)
Record answers_kept (s s' : CodecService RawMessage) : Prop := {
  ak_notices : notices s' = notices s;
  ak_in : in_ (channel_ s') = in_ (channel_ s);
  ak_server : server_side_ s' = server_side_ s;
  ak_handler : has_handler_ s' = has_handler_ s;
  ak_out : inv (out_ (channel_ s'));
  ak_room : room (out_ (channel_ s)) - kHeaderSize <= room (out_ (channel_ s')) }.

Lemma EncodeTo_answer pad m s :
  inv (out_ (channel_ s)) -> length pad = 6%nat -> kHeaderSize <= room (out_ (channel_ s)) ->
  exists ok s', EncodeTo pad (answer m) s = Some (ok, s') /\ answers_kept s s' /\
    (healthy (sock (channel_ s)) -> healthy (sock (channel_ s')) /\ stream s' = stream s ++ message_bytes pad (answer m)).
Proof.
  intros Hi Hp Hroom. pose proof (header_bytes_length pad (header_ (answer m)) Hp) as Hl.
  unfold EncodeTo. cbn [answer SetAsyncId content_ header_ NewHeartbeat AsHeartbeat Create payload_size content_size_ length Z.of_nat Z.eqb negb].
  change (mkRaw _ _) with (answer m). set (hb := header_bytes pad _) in *.
  destruct (Send_ok hb (channel_ s) Hi ltac:(rewrite Hl; done) ltac:(lia)) as (rv & c1 & n1 & E1 & Hi1 & Hr1 & _ & _).
  pose proof (Send_kept _ _ _ _ E1) as [_ Hin1]. rewrite E1. cbn [on_channel mbind option_bind].
  assert (Hh1 : healthy (sock (channel_ s)) -> healthy (sock c1) /\ sent (sock c1) ++ contents (out_ c1) = stream s ++ hb).
  { intros Hh. destruct (Send_healthy hb (channel_ s) Hi ltac:(rewrite Hl; done) ltac:(lia) Hh) as (rv' & c' & n' & E & [] & Hh').
    rewrite E1 in E. injection E as <- <-. split; [done|]. unfold stream. by rewrite <- app_assoc. }
  assert (Hb : message_bytes pad (answer m) = hb) by apply app_nil_r.
  rewrite Hb. destruct (rv <? 0).
  { eexists _, _. split; [done|]. split; [split; cbn; try done; lia|done]. }
  cbn [channel_ with_channel].
  destruct (Send_ok [] c1 Hi1 ltac:(done) ltac:(cbn; lia)) as (rv2 & c2 & n2 & E2 & Hi2 & Hr2 & _ & _).
  pose proof (Send_kept _ _ _ _ E2) as [_ Hin2]. rewrite E2. cbn [on_channel mbind option_bind].
  eexists _, _. split; [done|]. split; [split; cbn in *; try done; [congruence|lia]|].
  intros [Hh Hst]%Hh1. destruct (Send_healthy [] c1 Hi1 ltac:(done) ltac:(cbn; lia) Hh) as (rv' & c' & n' & E & [] & Hh').
  rewrite E2 in E. injection E as <- <-. split; [done|]. unfold stream. cbn. by rewrite wrote_stream0, app_nil_r.
Qed.

Lemma receive_loop_messages pad fuel ms part s :
  inv (in_ (channel_ s)) -> inv (out_ (channel_ s)) -> has_handler_ s = true -> length pad = 6%nat ->
  Forall message_ok ms -> zlen ms * kHeaderSize <= room (out_ (channel_ s)) ->
  contents (in_ (channel_ s)) = concat (message_bytes pad <$> ms) ++ part ->
  (part = [] \/ exists m more, message_ok m /\ message_bytes pad m = part ++ more /\ more <> []) ->
  (length ms < fuel)%nat ->
  exists s', receive_loop pad fuel s = Some s' /\
    notices s' = notices s ++ (Message <$> List.filter (fun m => negb (answered s m)) ms) /\
    inv (in_ (channel_ s')) /\ contents (in_ (channel_ s')) = part /\
    (healthy (sock (channel_ s)) ->
     stream s' = stream s ++ concat (message_bytes pad <$> (answer <$> List.filter (answered s) ms))).
Proof.
  intros Hi Ho Hh Hp Hok. revert s fuel Hi Ho Hh.
  induction Hok as [|m ms Hm Hok IH]; intros s fuel Hi Ho Hh Hroom Hc Hpart Hfuel; (destruct fuel as [|fuel]; [lia|]); cbn [receive_loop].
  - assert (Decode (in_ (channel_ s)) = NoMessage) as ->.
    { destruct Hpart as [->|(m & more & Hm & He & Hne)].
      - unfold Decode. simpl. rewrite Hc. done.
      - by eapply Decode_incomplete; eauto. }
    exists s. cbn. rewrite !app_nil_r. split_and!; done.
  - rewrite fmap_cons, concat_cons, <- app_assoc in Hc. rewrite length_cons in Hroom. unfold kHeaderSize in Hroom.
    destruct (@Decode_message _ IOBuffer_queue _ (in_ (channel_ s)) pad m _ Hi Hp Hm Hc) as (b' & -> & Hi' & Hc').
    unfold dispatch. cbn [server_side_ with_in with_channel List.filter]. fold (answered s m).
    destruct (answered s m) eqn:Ea; cbn [negb].
    + unfold SendResponse. change (SetAsyncId (AsyncId m) NewHeartbeat) with (answer m).
      change (AsyncId (answer m)) with (AsyncId m). rewrite Z.eqb_refl. cbn [negb].
      destruct (EncodeTo_answer pad m (with_in b' s) Ho Hp ltac:(cbn; unfold kHeaderSize; lia)) as (ok & s1 & -> & [] & Hst). cbn [mbind option_bind snd].
      cbn in ak_notices0, ak_in0, ak_server0, ak_handler0, ak_room0. unfold kHeaderSize in ak_room0.
      destruct (IH s1 fuel) as (s' & Hs' & Hn & Hi2 & Hc2 & Hst'); try congruence; try (rewrite ak_in0; done); [unfold kHeaderSize; lia|simpl in *; lia|].
      exists s'. unfold answered in *. rewrite ak_server0 in *. split_and!; try done; [by rewrite Hn, ak_notices0|].
      intros Hhs. destruct (Hst Hhs) as [Hh1 Hs1]. rewrite (Hst' Hh1), Hs1. cbn. by rewrite <- app_assoc.
    + cbn [mbind option_bind]. unfold OnCodecMessage at 1. cbn [has_handler_ with_in with_channel]. rewrite Hh.
      destruct (IH (notify (Message m) (with_in b' s)) fuel) as (s' & Hs' & Hn & ?); try done; [cbn; unfold kHeaderSize; lia|simpl in *; lia|].
      exists s'. split; [exact Hs'|]. split; [|done]. rewrite Hn. cbn. by rewrite <- app_assoc.
Qed.

Lemma messages_length pad ms : length pad = 6%nat -> (length ms <= length (concat (message_bytes pad <$> ms)))%nat.
Proof.
  intros Hp. induction ms as [|m ms IH]; [done|]. rewrite fmap_cons, concat_cons, length_app, length_cons.
  unfold message_bytes at 1. rewrite length_app.
  pose proof (header_bytes_length pad (header_ m) Hp) as Hl. unfold kHeaderSize in Hl. lia.
Qed.

(** C9.  Round trip: of messages encoded back to back -- with whatever padding the
    compiler leaves in the header objects -- one [OnDataReceived] of a service with a
    handler delivers all to the handler, in order and unchanged, except the heartbeats
    a server receives: each of those is answered with a heartbeat of the same id, and
    on a socket that does not fail the answers go out in order, after what was sent
    before and with nothing in between.  The bytes of a message that has not arrived
    completely stay in the buffer. *)
Theorem raw_messages_roundtrip pad ms part s :
  inv (in_ (channel_ s)) -> inv (out_ (channel_ s)) -> has_handler_ s = true -> length pad = 6%nat ->
  Forall message_ok ms -> zlen ms * kHeaderSize <= room (out_ (channel_ s)) ->
  contents (in_ (channel_ s)) = concat (message_bytes pad <$> ms) ++ part ->
  (part = [] \/ exists m more, message_ok m /\ message_bytes pad m = part ++ more /\ more <> []) ->
  exists s', OnDataReceived pad s = Some s' /\
    notices s' = notices s ++ (Message <$> List.filter (fun m => negb (answered s m)) ms) /\
    inv (in_ (channel_ s')) /\ contents (in_ (channel_ s')) = part /\
    (healthy (sock (channel_ s)) ->
     stream s' = stream s ++ concat (message_bytes pad <$> (answer <$> List.filter (answered s) ms))).
Proof.
  intros Hi Ho Hh Hp Hok Hr Hc Hpart. unfold OnDataReceived. apply receive_loop_messages; try done.
  rewrite Hc, length_app. pose proof (messages_length pad ms Hp). lia.
Qed.

(** A server with a request and a heartbeat in its input, and the start of a third message. *)
Definition ex_request : RawMessage := SetContent [65; 66] (SetAsyncId 9 Create).
Definition ex_beat : RawMessage := SetAsyncId 7 NewHeartbeat.
Definition ex_server : CodecService RawMessage :=
  with_in (mkIOBuffer 0 53 (message_bytes (replicate 6 170) ex_beat ++ message_bytes (replicate 6 170) ex_request ++ [0; 0; 170]))
    (new_service true false (mkSocket 0 [] [WAccept 5; WErr EINTR; WErr EAGAIN] [])).

Lemma raw_messages_roundtrip_witness :
  exists s', OnDataReceived (replicate 6 170) ex_server = Some s' /\ notices s' = [Message ex_request] /\
    contents (in_ (channel_ s')) = [0; 0; 170] /\ stream s' = message_bytes (replicate 6 170) ex_beat.
Proof.
  destruct (raw_messages_roundtrip (replicate 6 170) [ex_beat; ex_request] [0; 0; 170] ex_server) as (s' & H1 & H2 & _ & H4 & H5).
  - unfold inv, max_vector_size; simpl; lia.
  - apply inv_new.
  - reflexivity.
  - reflexivity.
  - repeat constructor; vm_compute; discriminate.
  - unfold room, max_vector_size, kHeaderSize; simpl; lia.
  - reflexivity.
  - right. exists Create, (replicate 5 170 ++ replicate 16 0). split; [|split; [reflexivity | discriminate]].
    repeat constructor; vm_compute; discriminate.
  - exists s'. split_and!; [exact H1 | exact H2 | exact H4|]. rewrite H5; [reflexivity|]. unfold healthy; cbn. repeat (apply Forall_cons_2; [auto|]). apply Forall_nil_2.
Defined.

(** [frame_size()] wraps: a header that announces a payload within 24 bytes
    of [2^64] passes the completeness test, and the decoder then reads the
    announced number of bytes from a buffer that does not hold them. *)
Theorem huge_payload_reads_past_end :
  Decode (message_bytes (replicate 6 0) (mkRaw (mkHeader 0 1 (2 ^ 64 - 20) 0) [])) = ReadPastEnd.
Proof. reflexivity. Qed.

(** Sending: a message of less than 2^31 bytes goes out as its header and its content,
    after everything sent before and with nothing in between, whatever the
    socket accepts at a time; when [EncodeTo] reports failure the peer has seen
    or will see at most a prefix of it. *)
Theorem EncodeTo_stream pad m s :
  inv (out_ (channel_ s)) -> message_ok m -> length pad = 6%nat -> zlen (content_ m) < 2 ^ 31 ->
  zlen (message_bytes pad m) <= room (out_ (channel_ s)) ->
  exists ok s', EncodeTo pad m s = Some (ok, s') /\ inv (out_ (channel_ s')) /\
    stream_prefix (channel_ s) (channel_ s') (message_bytes pad m) /\
    (ok = true -> sent (sock (channel_ s')) ++ contents (out_ (channel_ s')) =
       sent (sock (channel_ s)) ++ contents (out_ (channel_ s)) ++ message_bytes pad m).
Proof.
  intros Hi (Hsz & _ & _) Hp Hsm Hroom. pose proof (header_bytes_length pad (header_ m) Hp) as Hlen. unfold EncodeTo. rewrite <- Hsz, Z.eqb_refl. cbn [negb].
  unfold message_bytes in *. rewrite length_app in Hroom.
  destruct (Send_ok (header_bytes pad (header_ m)) (channel_ s) Hi) as (rv1 & c1 & n1 & -> & Hi1 & Hr1 & Hp1 & Hw1);
    [rewrite Hlen; done | lia |]. cbn [on_channel mbind option_bind].
  destruct (Z.ltb_spec rv1 0) as [Hneg|Hpos].
  { eexists _, _. split_and!; try done. destruct Hp1 as (lost & Hl). exists (lost ++ content_ m). cbn [channel_ with_channel].
    by rewrite app_assoc, Hl, <- !app_assoc. }
  cbn [channel_ with_channel]. destruct (Hw1 ltac:(lia)) as (_ & [_ _ _ Hs1 _ _ _]).
  destruct (Send_ok (content_ m) c1 Hi1 Hsm ltac:(lia)) as (rv2 & c2 & n2 & -> & Hi2 & _ & Hp2 & Hw2). cbn [on_channel mbind option_bind].
  eexists _, _. split_and!; try done; cbn [channel_ with_channel].
  - destruct Hp2 as (lost & Hl). exists lost. by rewrite Hl, app_assoc, Hs1, <- !app_assoc.
  - intros Hok%Z.leb_le. destruct (Hw2 ltac:(lia)) as (_ & [_ _ _ Hs2 _ _ _]).
    by rewrite Hs2, app_assoc, Hs1, <- !app_assoc.
Qed.

Lemma EncodeTo_stream_witness :
  exists ok s', EncodeTo (replicate 6 170) (SetContent [65; 66] Create)
      (new_service false false (mkSocket 0 [] [WAccept 7; WErr EINTR; WAccept 30] [])) = Some (ok, s') /\
    ok = true /\ sent (sock (channel_ s')) ++ contents (out_ (channel_ s')) =
      [0; 0; 170; 170; 170; 170; 170; 170; 2; 0; 0; 0; 0; 0; 0; 0; 0; 0; 0; 0; 0; 0; 0; 0; 65; 66].
Proof.
  destruct (EncodeTo_stream (replicate 6 170) (SetContent [65; 66] Create)
    (new_service false false (mkSocket 0 [] [WAccept 7; WErr EINTR; WAccept 30] []))) as (ok & s' & H1 & _ & _ & H3).
  - apply inv_new.
  - repeat constructor; vm_compute; discriminate.
  - reflexivity.
  - reflexivity.
  - unfold room, max_vector_size; simpl; lia.
  - exists ok, s'. split; [exact H1|].
    assert (ok = true) as -> by (vm_compute in H1; congruence).
    split; [reflexivity | rewrite H3 by reflexivity; reflexivity].
Defined.

End RawCodec.
