(* ===== verification/HttpMessage.v ===== *)
(** * HTTP messages and their wire format (net_io/codec/http)

    The message classes of http_message.{h,cc}, the constants and status tables
    of http_constants.cc, and the two encoders of http_codec_service.cc, which
    write a message into the channel's output buffer. *)
From S2P Require Import Prelude IOBuffer StrUtils StdMap.
Import IOBuffer StrUtils StdMap.

Module HttpMessage.

(** ** HttpConstant *)
Definition kRootPath := str "/".
Definition kCRCN : list Z := [13; 10].
Definition kHost := str "Host".
Definition kConnection := str "Connection".
Definition kContentType := str "Content-Type".
Definition kContentLength := str "Content-Length".
Definition kContentEncoding := str "Content-Encoding".
Definition kAcceptEncoding := str "Accept-Encoding".
Definition kBadRequest := str "HTTP/1.1 400 Bad Request" ++ kCRCN ++ kCRCN.
Definition kHeaderClose := str "Connection: Close" ++ kCRCN.
Definition kHeaderKeepalive := str "Connection: keep-alive" ++ kCRCN.
Definition kHeaderDefaultContentType := str "Content-Type: text/plain" ++ kCRCN.
Definition kHeaderSupportedEncoding := str "Accept-Encoding: deflate,gzip" ++ kCRCN.

(** The table of [init_status_str]; [init_http_resp_table] has the same codes. *)
Definition status_table : list (Z * list Z) :=
  [(100, str "Continue"); (101, str "Switching Protocols"); (200, str "OK"); (201, str "Created");
   (202, str "Accepted"); (203, str "Non-authoritative Information"); (204, str "No Content");
   (205, str "Reset Content"); (206, str "Partial Content"); (300, str "Multiple Choices");
   (301, str "Moved Permanently"); (302, str "Found"); (303, str "See Other"); (304, str "Not Modified");
   (305, str "Use Proxy"); (307, str "Temporary Redirect"); (400, str "Bad Request");
   (401, str "Unauthorized"); (402, str "Payment Required"); (403, str "Forbidden"); (404, str "Not Found");
   (405, str "Method Not Allowed"); (406, str "Not Acceptable"); (407, str "Proxy Authentication Required");
   (408, str "Request Timeout"); (409, str "Conflict"); (410, str "Gone"); (411, str "Length Required");
   (412, str "Precondition Failed"); (413, str "Payload Too Large"); (414, str "Request-URI Too Long");
   (415, str "Unsupported Media Type"); (416, str "Requested Range Not Satisfiable");
   (417, str "Expectation Failed"); (500, str "Internal Server Error"); (501, str "Not Implemented");
   (502, str "Bad Gateway"); (503, str "Service Unavailable"); (504, str "Gateway Timeout");
   (505, str "HTTP Version Not Supported")].

(** The entry of a [StatusTable]: empty unless the code is listed. *)
Definition init_status_str (code : Z) : list Z := default [] (map_find Z.ltb code status_table).
Definition init_http_resp_table (subversion code : Z) : list Z :=
  match map_find Z.ltb code status_table with
  | None => []
  | Some d => str "HTTP/1." ++ to_string subversion ++ str " " ++ to_string code ++ str " " ++ d ++ kCRCN
  end.

Definition http_status_desc (code : Z) : list Z :=
  if (100 <=? code) && (code <=? 511) then init_status_str code else init_status_str 500.

(** [None]: [resp_hl] has two entries. *)
Definition http_resp_head_line (code subversion : Z) : option (list Z) :=
  if (100 <=? code) && (code <=? 511) && (subversion <=? 1) then Some (init_http_resp_table subversion code)
  else if subversion <=? 1 then Some (init_http_resp_table subversion 500) else None.

(** ** HttpMessage *)
Definition KeyValMap : Type := list (list Z * list Z).

Record HttpMessage := mkHttp {
  keepalive_ : bool;
  http_major_ : Z;
  http_minor_ : Z;
  body_ : list Z;
  headers_ : KeyValMap;
}.

Definition HttpMessage_new : HttpMessage := mkHttp false 1 1 [] [].
Definition with_headers h m := mkHttp (keepalive_ m) (http_major_ m) (http_minor_ m) (body_ m) h.
Definition SetBody b m := mkHttp (keepalive_ m) (http_major_ m) (http_minor_ m) b (headers_ m).
Definition AppendBody data m := SetBody (body_ m ++ data) m.
Definition SetKeepAlive a m := mkHttp a (http_major_ m) (http_minor_ m) (body_ m) (headers_ m).
Definition set_version major minor m := mkHttp (keepalive_ m) major minor (body_ m) (headers_ m).

Definition HasHeader (field : list Z) (m : HttpMessage) : bool :=
  bool_decide (is_Some (map_find lex_ltb (ToLower field) (headers_ m))).
Definition GetHeader (field : list Z) (m : HttpMessage) : list Z :=
  default [] (map_find lex_ltb (ToLower field) (headers_ m)).
Definition InsertHeader (k v : list Z) (m : HttpMessage) : HttpMessage :=
  match k with
  | [] => m
  | _ => with_headers (map_insert lex_ltb (ToLower k) v (headers_ m)) m
  end.
(** The overload for string literals does not test for an empty key. *)
Definition InsertHeader_cstr (k v : list Z) (m : HttpMessage) : HttpMessage :=
  with_headers (map_insert lex_ltb (ToLower k) v (headers_ m)) m.
Definition RemoveHeader (field : list Z) (m : HttpMessage) : bool * HttpMessage :=
  (HasHeader field m, with_headers (map_erase lex_ltb (ToLower field) (headers_ m)) m).

(** ** HttpRequest, HttpResponse *)
Record HttpRequest := mkRequest { rq : HttpMessage; method_ : list Z; url_ : list Z }.
Record HttpResponse := mkResponse { rs : HttpMessage; status_code_ : Z }.

Definition HttpRequest_new : HttpRequest := mkRequest HttpMessage_new (str "GET") [].
Definition SetMethod (m : list Z) (r : HttpRequest) : HttpRequest := mkRequest (rq r) (ToUpper m) (url_ r).
Definition SetRequestURL (u : list Z) (r : HttpRequest) : HttpRequest := mkRequest (rq r) (method_ r) u.
Definition AppendPartURL (u : list Z) (r : HttpRequest) : HttpRequest := mkRequest (rq r) (method_ r) (url_ r ++ u).
Definition RequestUrl (r : HttpRequest) : list Z := match url_ r with [] => kRootPath | u => u end.

Definition HttpResponse_new : HttpResponse := mkResponse HttpMessage_new 200.
Definition SetResponseCode (code : Z) (r : HttpResponse) : HttpResponse := mkResponse (rs r) (u16 code).
Definition CreateWithCode (code : Z) : HttpResponse := SetResponseCode code HttpResponse_new.
Definition StatusCodeInfo (r : HttpResponse) : list Z := http_status_desc (status_code_ r).

(** ** The encoders *)
Definition kMeanHeaderSize : Z := 32.
Definition kHttpMsgReserveSize : Z := 512.

(** [fmt::format("{}: {}\r\n", k, v)] *)
Definition header_line (kv : list Z * list Z) : list Z := kv.1 ++ str ": " ++ kv.2 ++ kCRCN.

Definition WriteStrings (ss : list (list Z)) (b : IOBuffer) : option IOBuffer :=
  foldl (fun ob s => b ← ob; WriteString s b) (Some b) ss.

(** The strings written, in order. *)
Definition request_strings (r : HttpRequest) : list (list Z) :=
  let m := rq r in
  [method_ r ++ str " " ++ RequestUrl r ++ str " HTTP/1." ++ to_string (http_minor_ m) ++ kCRCN] ++
  map header_line (headers_ m) ++
  (if HasHeader kConnection m then [] else [if keepalive_ m then kHeaderKeepalive else kHeaderClose]) ++
  (if HasHeader kAcceptEncoding m then [] else [kHeaderSupportedEncoding]) ++
  (if HasHeader kContentLength m then [] else [header_line (kContentLength, to_string (zlen (body_ m)))]) ++
  (if HasHeader kContentType m then [] else [kHeaderDefaultContentType]) ++
  [kCRCN] ++ match body_ m with [] => [] | b => [b] end.

Definition RequestToBuffer (r : HttpRequest) (b : IOBuffer) : option IOBuffer :=
  let guess_size := i32 (kHttpMsgReserveSize + zlen (body_ (rq r))) in
  let guess_size := i32 (guess_size + zlen (headers_ (rq r)) * kMeanHeaderSize) in
  b ← EnsureWritableSize guess_size b;
  WriteStrings (request_strings r) b.

Definition response_strings (head_line : list Z) (r : HttpResponse) : list (list Z) :=
  let m := rs r in
  [head_line] ++ map header_line (headers_ m) ++
  (if HasHeader kConnection m then [] else [if keepalive_ m then kHeaderKeepalive else kHeaderClose]) ++
  (if HasHeader kContentLength m then [] else [header_line (kContentLength, to_string (zlen (body_ m)))]) ++
  (if HasHeader kContentType m then [] else [kHeaderDefaultContentType]) ++
  [kCRCN; body_ m].

Definition ResponseToBuffer (r : HttpResponse) (b : IOBuffer) : option IOBuffer :=
  let guess_size := i32 (kHttpMsgReserveSize + zlen (body_ (rs r))) in
  b ← EnsureWritableSize guess_size b;
  head_line ← http_resp_head_line (status_code_ r) (http_minor_ (rs r));
  WriteStrings (response_strings head_line r) b.

(** ** Headers *)

Definition headers_ok (m : HttpMessage) : Prop := sorted lex_ltb (headers_ m).

(** Header lookup is case-insensitive and the first insertion of a name wins:
    after [InsertHeader(k, v)], a name equal to [k] up to case has its earlier
    value if it had one and [v] otherwise, every other name is unaffected, and
    after [RemoveHeader(k)] exactly the names equal to [k] are gone.  The header
    map stays ordered without duplicates. *)
Theorem header_map_laws k k' v m :
  headers_ok m -> k <> [] ->
  headers_ok (InsertHeader k v m) /\ headers_ok (RemoveHeader k m).2 /\
  GetHeader k' (InsertHeader k v m) =
    (if decide (ToLower k' = ToLower k) then (if HasHeader k m then GetHeader k m else v) else GetHeader k' m) /\
  HasHeader k' (RemoveHeader k m).2 = (if decide (ToLower k' = ToLower k) then false else HasHeader k' m).
Proof.
  intros Hm Hk. unfold headers_ok, InsertHeader, RemoveHeader, GetHeader, HasHeader in *.
  destruct k as [|c k]; [done|]. cbn [with_headers headers_ snd]. split_and!.
  - apply map_insert_sorted; [apply _ | done].
  - apply map_erase_sorted; done || apply _.
  - rewrite find_insert by first [done | apply _]. destruct (eqv_spec lex_ltb (ToLower k') (ToLower (c :: k))) as [E|E].
    + rewrite decide_True by done. by destruct (map_find _ _ _).
    + by rewrite decide_False by done.
  - rewrite find_erase by first [done | apply _]. destruct (eqv_spec lex_ltb (ToLower k') (ToLower (c :: k))) as [E|E].
    + by rewrite decide_True by done.
    + by rewrite decide_False by done.
Qed.

Lemma header_map_laws_witness :
  GetHeader (str "HOST") (InsertHeader (str "Host") (str "b") (InsertHeader (str "host") (str "a") HttpMessage_new)) = str "a" /\
  HasHeader (str "hOSt") (RemoveHeader (str "Host") (InsertHeader (str "host") (str "a") HttpMessage_new)).2 = false.
Proof.
  destruct (header_map_laws (str "Host") (str "HOST") (str "b") (InsertHeader (str "host") (str "a") HttpMessage_new)) as (_ & _ & H1 & _);
    [repeat constructor | discriminate |].
  destruct (header_map_laws (str "Host") (str "hOSt") [] (InsertHeader (str "host") (str "a") HttpMessage_new)) as (_ & _ & _ & H2);
    [repeat constructor | discriminate |].
  split; [exact H1 | exact H2].
Defined.

(** ** The wire format *)

Lemma WriteStrings_ok b ss :
  inv b -> zlen (concat ss) <= room b ->
  exists b', WriteStrings ss b = Some b' /\ inv b' /\ contents b' = contents b ++ concat ss /\
             room b - zlen (concat ss) <= room b'.
Proof.
  unfold WriteStrings. revert b. induction ss as [|s ss IH]; intros b Hi Hr; simpl.
  - exists b. rewrite app_nil_r. split_and!; done || (simpl; lia).
  - simpl in Hr. rewrite length_app in Hr.
    destruct (WriteRawData_ok b s Hi ltac:(lia)) as (b1 & Hb1 & Hi1 & Hc1 & Hr1).
    change (WriteString s b) with (WriteRawData s b). rewrite Hb1.
    destruct (IH b1 Hi1 ltac:(lia)) as (b' & -> & Hi' & Hc' & Hr'). exists b'.
    rewrite Hc', Hc1, <- app_assoc, length_app. split_and!; done || lia.
Qed.

(** The reference reader of a message head: lines up to the first empty one, and
    the rest. *)
Fixpoint read_head (fuel : nat) (text : list Z) : option (list (list Z) * list Z) :=
  match fuel with
  | O => None
  | S fuel' =>
      i ← search kCRLF text;
      if i =? 0 then Some ([], zdrop 2 text)
      else r ← read_head fuel' (zdrop (i + 2) text); Some (ztake i text :: r.1, r.2)
  end.

Lemma search_no_cr l : 13 ∉ l -> search kCRLF l = None.
Proof.
  induction l as [|c l IH]; intros Hl; [done|]. cbn [search]. rewrite decide_False.
  - rewrite IH; [done|]. intros H. apply Hl. by right.
  - unfold ztake. simpl. intros [= -> _]. apply Hl. by left.
Qed.

Lemma zdrop_line (l rest : list Z) : zdrop (zlen l + 2) (l ++ kCRLF ++ rest) = rest.
Proof. rewrite app_assoc. apply zdrop_app. rewrite length_app. simpl. lia. Qed.

Lemma read_head_lines ls body fuel :
  Forall (fun l => l <> [] /\ 13 ∉ l) ls -> (length ls < fuel)%nat ->
  read_head fuel (concat (map (fun l => l ++ kCRCN) ls) ++ kCRCN ++ body) = Some (ls, body).
Proof.
  change kCRCN with kCRLF. intros Hls. revert fuel. induction Hls as [|l ls [Hne Hcr] Hls IH]; intros fuel Hf;
    (destruct fuel as [|fuel]; [lia|]); cbn [read_head].
  - change (concat (map (fun l => l ++ kCRLF) []) ++ kCRLF ++ body) with ([] ++ kCRLF ++ body).
    by rewrite search_crlf.
  - cbn [map concat]. rewrite <- !app_assoc, search_crlf by (by apply search_no_cr). cbn [mbind option_bind].
    destruct (Z.eqb_spec (zlen l) 0) as [Hz|_]; [by destruct l|].
    rewrite ztake_app, zdrop_line by done. by rewrite IH by (simpl in Hf; lia).
Qed.

(** The header fields a response goes out with. *)
Definition response_fields (r : HttpResponse) : KeyValMap :=
  let m := rs r in
  headers_ m ++
  (if HasHeader kConnection m then [] else [(kConnection, (if keepalive_ m then str "keep-alive" else str "Close"))]) ++
  (if HasHeader kContentLength m then [] else [(kContentLength, to_string (zlen (body_ m)))]) ++
  (if HasHeader kContentType m then [] else [(kContentType, str "text/plain")]).

Definition field_line (kv : list Z * list Z) : list Z := kv.1 ++ str ": " ++ kv.2.
Definition field_ok (kv : list Z * list Z) : Prop := (13 ∉ kv.1) /\ (13 ∉ kv.2).

Lemma header_line_field kv : header_line kv = field_line kv ++ kCRCN.
Proof. unfold header_line, field_line. by rewrite <- !app_assoc. Qed.

Lemma field_line_ok kv : field_ok kv -> field_line kv <> [] /\ 13 ∉ field_line kv.
Proof.
  intros [Hk Hv]. unfold field_line. split; [by destruct (kv.1)|].
  rewrite !elem_of_app. intros [H|[H|H]]; [done | | done].
  apply (bool_decide_eq_true_2 _) in H. by vm_compute in H.
Qed.

Lemma to_string_no_cr n : 0 <= n -> 13 ∉ to_string n.
Proof.
  intros Hn. unfold to_string. destruct (Z.ltb_spec n 0); [lia|].
  destruct (dec_rev_ok (S (Z.to_nat (Z.log2 n))) n Hn ltac:(lia)) as (_ & _ & Hd).
  intros Hin. rewrite list_elem_of_In, <- in_rev in Hin.
  rewrite Forall_forall in Hd. by apply Hd in Hin.
Qed.

Lemma default_line (b : bool) s kv :
  s = field_line kv ++ kCRCN ->
  concat (if b then [] else [s]) = concat (map (fun l => l ++ kCRCN) (map field_line (if b then [] else [kv]))).
Proof. intros ->. by destruct b. Qed.

Lemma response_strings_lines line r :
  concat (response_strings (line ++ kCRCN) r) =
  concat (map (fun l => l ++ kCRCN) (line :: map field_line (response_fields r))) ++ kCRCN ++ body_ (rs r).
Proof.
  unfold response_strings, response_fields.
  assert (Hm : map header_line (headers_ (rs r)) = map (fun l => l ++ kCRCN) (map field_line (headers_ (rs r)))).
  { rewrite map_map. apply map_ext. apply header_line_field. }
  rewrite Hm. cbn [map concat]. rewrite !map_app, !concat_app. cbn [concat]. rewrite !app_nil_r, <- !app_assoc.
  rewrite (default_line _ (if keepalive_ (rs r) then _ else _)
             (kConnection, (if keepalive_ (rs r) then str "keep-alive" else str "Close"))) by (by destruct (keepalive_ (rs r))).
  rewrite (default_line _ _ (kContentLength, to_string (zlen (body_ (rs r))))) by apply header_line_field.
  by rewrite (default_line _ _ (kContentType, str "text/plain")).
Qed.

(** The status line of a listed code. *)
Definition status_line (r : HttpResponse) (desc : list Z) : list Z :=
  str "HTTP/1." ++ to_string (http_minor_ (rs r)) ++ str " " ++ to_string (status_code_ r) ++ str " " ++ desc.

Lemma status_table_ok code d :
  map_find Z.ltb code status_table = Some d -> 100 <= code <= 511 /\ 13 ∉ d.
Proof.
  intros Hd%find_in; [|apply _].
  assert (H : forallb (fun e => (100 <=? e.1) && (e.1 <=? 511) && negb (bool_decide (13 ∈ e.2))) status_table = true)
    by (vm_compute; reflexivity).
  rewrite forallb_forall in H. specialize (H _ Hd). simpl in H.
  apply andb_true_iff in H as [[H1%Z.leb_le H2%Z.leb_le]%andb_true_iff H3%negb_true_iff%bool_decide_eq_false_1]. done.
Qed.

Lemma status_line_ok r desc :
  0 <= http_minor_ (rs r) -> 0 <= status_code_ r -> 13 ∉ desc -> status_line r desc <> [] /\ 13 ∉ status_line r desc.
Proof.
  intros Hm Hs Hd. unfold status_line. split; [done|].
  pose proof (to_string_no_cr _ Hm). pose proof (to_string_no_cr _ Hs).
  assert ((13 ∉ str "HTTP/1.") /\ (13 ∉ str " ")) as [? ?] by (split; apply (bool_decide_unpack _); vm_compute; done).
  rewrite !elem_of_app. tauto.
Qed.

(** The wire format of a response: when the status code is listed, the version
    is 1.0 or 1.1 and no header field contains a carriage return, the encoder
    appends to the output buffer a message whose head reads back as the status
    line, then the message's header fields in order, then the default
    [Connection], [Content-Length] and [Content-Type] fields for those the message
    does not have; the body follows the empty line untouched. *)
Theorem response_wire_format r b desc :
  inv b -> map_find Z.ltb (status_code_ r) status_table = Some desc -> 0 <= http_minor_ (rs r) <= 1 ->
  Forall field_ok (headers_ (rs r)) ->
  2 ^ 31 + zlen (concat (response_strings (status_line r desc ++ kCRCN) r)) <= room b ->
  exists b' wire, ResponseToBuffer r b = Some b' /\ inv b' /\ contents b' = contents b ++ wire /\
    read_head (S (S (length (response_fields r)))) wire =
      Some (status_line r desc :: map field_line (response_fields r), body_ (rs r)).
Proof.
  intros Hi Hd Hv Hf Hr. destruct (status_table_ok _ _ Hd) as [Hc Hcr]. unfold ResponseToBuffer.
  pose proof (i32_range (kHttpMsgReserveSize + zlen (body_ (rs r)))) as Hg.
  destruct (EnsureWritableSize_ok b (i32 (kHttpMsgReserveSize + zlen (body_ (rs r)))) Hi ltac:(lia)) as (b1 & -> & Hi1 & Hc1 & _ & Hr1).
  assert (Hl : http_resp_head_line (status_code_ r) (http_minor_ (rs r)) = Some (status_line r desc ++ kCRCN)).
  { unfold http_resp_head_line, init_http_resp_table. rewrite Hd.
    destruct (Z.leb_spec 100 (status_code_ r)), (Z.leb_spec (status_code_ r) 511), (Z.leb_spec (http_minor_ (rs r)) 1); try lia.
    cbn [andb]. f_equal. unfold status_line. by rewrite <- !app_assoc. }
  rewrite Hl. cbn [mbind option_bind].
  destruct (WriteStrings_ok b1 (response_strings (status_line r desc ++ kCRCN) r) Hi1 ltac:(lia)) as (b' & Hw & Hi' & Hc' & _).
  rewrite Hw. eexists b', _. split_and!; [done | done | by rewrite Hc', Hc1 |].
  rewrite response_strings_lines. apply read_head_lines; [|rewrite length_cons, length_map; lia].
  constructor; [apply status_line_ok; [lia | lia | done]|]. apply Forall_map. eapply Forall_impl; [exact field_line_ok|].
  unfold response_fields. assert (field_ok (kContentLength, to_string (zlen (body_ (rs r))))) by (split; [|apply to_string_no_cr; lia]; apply (bool_decide_unpack _); vm_compute; done).
  repeat apply Forall_app_2; try done; (destruct (HasHeader _ _); [done|]; constructor; [|done]); try done;
    destruct (keepalive_ (rs r)); split; apply (bool_decide_unpack _); vm_compute; done.
Qed.

Lemma response_wire_format_witness :
  exists b' wire, ResponseToBuffer (mkResponse (InsertHeader (str "X-Id") (str "7") (SetBody (str "hi") HttpMessage_new)) 404) IOBuffer_new = Some b' /\
    contents b' = wire /\
    read_head 6 wire = Some ([str "HTTP/1.1 404 Not Found"; str "x-id: 7"; str "Connection: Close";
                              str "Content-Length: 2"; str "Content-Type: text/plain"], str "hi").
Proof.
  destruct (response_wire_format (mkResponse (InsertHeader (str "X-Id") (str "7") (SetBody (str "hi") HttpMessage_new)) 404)
    IOBuffer_new (str "Not Found")) as (b' & wire & H1 & _ & H2 & H3).
  - apply inv_new.
  - reflexivity.
  - simpl. lia.
  - constructor; [|constructor]. split; apply (bool_decide_unpack _); vm_compute; exact I.
  - vm_compute. discriminate.
  - exists b', wire. split; [exact H1 | split; [exact H2 | exact H3]].
Defined.

(** A status code between 100 and 511 without an entry in the table has an
    empty status line, so the response starts with its header fields. *)
Theorem unlisted_status_has_no_status_line :
  http_resp_head_line 429 1 = Some [] /\
  exists b', ResponseToBuffer (CreateWithCode 429) IOBuffer_new = Some b' /\
    contents b' = str "Connection: Close" ++ kCRCN ++ str "Content-Length: 0" ++ kCRCN ++
                  str "Content-Type: text/plain" ++ kCRCN ++ kCRCN.
Proof. split; [reflexivity|]. apply returns. vm_compute. reflexivity. Qed.

End HttpMessage.
