(* ===== verification/HttpParser.v ===== *)
(** * The HTTP message builder (net_io/codec/http/parser_context.h)

    [HttpParser<T, M>] assembles messages from the callbacks of llhttp, a parser
    the program only calls: what one [llhttp_execute] does is given as the
    sequence of callbacks it makes and the code it returns.  The callbacks may
    cut names, values and the body anywhere. *)
From S2P Require Import Prelude IOBuffer StrUtils StdMap HttpMessage.
Import IOBuffer StrUtils StdMap HttpMessage.

Module HttpParser.

(** The fields of [llhttp_t] read when a message is complete. *)
Record llhttp_fields := mkFields {
  l_major : Z; l_minor : Z; l_keep_alive : bool; l_method : list Z; l_status : Z }.

Inductive http_ev :=
| EvMessageBegin
| EvUrl (bs : list Z)
| EvStatus (bs : list Z)
| EvHeaderField (bs : list Z)
| EvHeaderValue (bs : list Z)
| EvHeadersComplete
| EvBody (bs : list Z)
| EvChunkHeader
| EvChunkComplete
| EvMessageComplete (f : llhttp_fields).

Definition HPE_OK : Z := 0.
Definition HPE_PAUSED_UPGRADE : Z := 22.

(** What the template requires of [M]: the overloads selected by [enable_if]. *)
Class HttpLike (M : Type) := {
  make_shared : M;
  get : M -> HttpMessage;
  put : HttpMessage -> M -> M;
  AppendURL : list Z -> M -> option M;            (* None: returns -1 *)
  take_fields : llhttp_fields -> M -> M;
  strips_encoding : bool;
}.

#[export] Instance HttpRequest_like : HttpLike HttpRequest := {|
  make_shared := HttpRequest_new;
  get := rq;
  put m r := mkRequest m (method_ r) (url_ r);
  AppendURL u r := Some (AppendPartURL u r);
  take_fields f r :=
    SetMethod (l_method f) (mkRequest (SetKeepAlive (l_keep_alive f) (set_version (l_major f) (l_minor f) (rq r)))
                              (method_ r) (url_ r));
  strips_encoding := false;
|}.

#[export] Instance HttpResponse_like : HttpLike HttpResponse := {|
  make_shared := HttpResponse_new;
  get := rs;
  put m r := mkResponse m (status_code_ r);
  AppendURL _ _ := None;
  take_fields f r :=
    mkResponse (set_version (l_major f) (l_minor f) (SetKeepAlive (l_keep_alive f) (rs r))) (l_status f);
  strips_encoding := true;
|}.

Section Parser.
Context {M : Type} `{HttpLike M}.
(** [Gzip::decompress_gzip] and [decompress_deflate]; [None] is a failure. *)
Variable decompress_gzip decompress_deflate : list Z -> option (list Z).
(** The receiver, and its [CommitHttpRequest] / [CommitHttpResponse]. *)
Context {R : Type} (commit : M -> R -> R).

Record HttpParser := mkParser {
  current_ : option M;
  hd_value_flag_ : bool;
  half_hdr_field_ : list Z;
  half_hdr_value_ : list Z;
}.
Definition HttpParser_new : HttpParser := mkParser None false [] [].

(** A callback returns zero, returns an error, or dereferences a null [current_]. *)
Inductive cb := Go (p : HttpParser) (r : R) | Fail (p : HttpParser) (r : R) | Crash.

Definition Reset (_ : HttpParser) : HttpParser := mkParser None false [] [].

Definition insert_header (m : M) (k v : list Z) : M := put (InsertHeader k v (get m)) m.

Definition OnMessageBegin (p : HttpParser) (r : R) : cb :=
  Go (mkParser (Some make_shared) false [] (half_hdr_value_ p)) r.

Definition OnHeaderFinish (p : HttpParser) (r : R) : cb :=
  match half_hdr_field_ p, current_ p with
  | [], c => Go (mkParser c (hd_value_flag_ p) [] []) r
  | _ :: _, None => Crash
  | f, Some m => Go (mkParser (Some (insert_header m f (half_hdr_value_ p))) (hd_value_flag_ p) [] []) r
  end.

Definition OnHeaderField (field : list Z) (p : HttpParser) (r : R) : cb :=
  if hd_value_flag_ p then
    match current_ p with
    | None => Crash
    | Some m => Go (mkParser (Some (insert_header m (half_hdr_field_ p) (half_hdr_value_ p))) false ([] ++ field) []) r
    end
  else Go (mkParser (current_ p) false (half_hdr_field_ p ++ field) (half_hdr_value_ p)) r.

Definition OnHeaderValue (value : list Z) (p : HttpParser) (r : R) : cb :=
  Go (mkParser (current_ p) true (half_hdr_field_ p) (half_hdr_value_ p ++ value)) r.

Definition OnMessageBody (body : list Z) (p : HttpParser) (r : R) : cb :=
  match current_ p with
  | None => Crash
  | Some m => Go (mkParser (Some (put (AppendBody body (get m)) m)) (hd_value_flag_ p) (half_hdr_field_ p) (half_hdr_value_ p)) r
  end.

Definition OnURL (url : list Z) (p : HttpParser) (r : R) : cb :=
  match current_ p with
  | None => Crash
  | Some m => match AppendURL url m with
              | Some m => Go (mkParser (Some m) (hd_value_flag_ p) (half_hdr_field_ p) (half_hdr_value_ p)) r
              | None => Fail p r
              end
  end.

(** The body after content decoding; [None] when it does not decompress. *)
Definition decode_body (m : M) : option M :=
  let encoding := GetHeader kContentEncoding (get m) in
  let decoded b :=
    let h := SetBody b (get m) in
    put (if strips_encoding then (RemoveHeader kContentEncoding h).2 else h) m in
  if Contains encoding (str "gzip") then decoded <$> decompress_gzip (body_ (get m))
  else if Contains encoding (str "deflate") then decoded <$> decompress_deflate (body_ (get m))
  else Some m.

Definition OnMessageParsed (f : llhttp_fields) (p : HttpParser) (r : R) : cb :=
  match current_ p with
  | None => Crash
  | Some m =>
      let m := take_fields f m in
      match decode_body m with
      | None => Fail (mkParser (Some m) (hd_value_flag_ p) (half_hdr_field_ p) (half_hdr_value_ p)) r
      | Some m => Go (mkParser None (hd_value_flag_ p) (half_hdr_field_ p) (half_hdr_value_ p)) (commit m r)
      end
  end.

Definition callback (e : http_ev) (p : HttpParser) (r : R) : cb :=
  match e with
  | EvMessageBegin => OnMessageBegin p r
  | EvUrl bs => OnURL bs p r
  | EvStatus _ | EvChunkHeader | EvChunkComplete => Go p r
  | EvHeaderField bs => OnHeaderField bs p r
  | EvHeaderValue bs => OnHeaderValue bs p r
  | EvHeadersComplete => OnHeaderFinish p r
  | EvBody bs => OnMessageBody bs p r
  | EvMessageComplete f => OnMessageParsed f p r
  end.

(** The callbacks of one [llhttp_execute]; it stops at the first that fails. *)
Fixpoint callbacks (evs : list http_ev) (p : HttpParser) (r : R) : cb :=
  match evs with
  | [] => Go p r
  | e :: evs' => match callback e p r with Go p r => callbacks evs' p r | o => o end
  end.

(** What [llhttp_execute] does with the readable bytes: its callbacks and code. *)
Record llhttp_run := mkRun { run_events : list http_ev; run_errno : Z }.

Inductive Status := Success | Error.

(** [Parse]: the status, the parser, the receiver and the buffer; [None] is the
    null dereference. *)
Definition Parse (run : llhttp_run) (buf : IOBuffer) (p : HttpParser) (r : R)
    : option (Status * HttpParser * R * IOBuffer) :=
  match callbacks (run_events run) p r with
  | Crash => None
  | Fail p r => Some (Error, p, r, buf)
  | Go p r =>
      if negb (run_errno run =? HPE_OK) then Some (Error, p, r, buf)
      else Some (Success, p, r, Consume (CanReadSize buf) buf)
  end.

(** ** Reassembly *)

(** The callbacks of a message whose header fields, values and body arrive in
    pieces: each header a list of name pieces and a list of value pieces, the body with
    the marks of its chunks. *)
Definition header_events (h : list (list Z) * list (list Z)) : list http_ev :=
  (EvHeaderField <$> h.1) ++ (EvHeaderValue <$> h.2).
Definition message_events (urls : list (list Z)) (hs : list (list (list Z) * list (list Z))) (body : list http_ev)
    (f : llhttp_fields) : list http_ev :=
  [EvMessageBegin] ++ (EvUrl <$> urls) ++ (concat (header_events <$> hs) ++ [EvHeadersComplete]) ++
  body ++ [EvMessageComplete f].

Definition is_body (e : http_ev) : bool := match e with EvBody _ | EvChunkHeader | EvChunkComplete => true | _ => false end.
Definition body_bytes (e : http_ev) : list Z := match e with EvBody bs => bs | _ => [] end.

(** A header has a name and a value, as [llhttp] reports them: the value may be empty. *)
Definition header_ok (h : list (list Z) * list (list Z)) : Prop := concat h.1 <> [] /\ h.2 <> [].
Definition insert_all (hs : list (list (list Z) * list (list Z))) (m : M) : M :=
  foldl (fun m h => insert_header m (concat h.1) (concat h.2)) m hs.

Lemma callbacks_app e1 e2 p r :
  callbacks (e1 ++ e2) p r = match callbacks e1 p r with Go p r => callbacks e2 p r | o => o end.
Proof. revert p r. induction e1 as [|e e1 IH]; intros p r; simpl; [done|]. by destruct (callback e p r). Qed.

Lemma field_pieces fs c f v r :
  callbacks (EvHeaderField <$> fs) (mkParser c false f v) r = Go (mkParser c false (f ++ concat fs) v) r.
Proof.
  revert f. induction fs as [|x fs IH]; intros f; simpl; [by rewrite app_nil_r|].
  unfold OnHeaderField. simpl. by rewrite IH, <- app_assoc.
Qed.

Lemma value_pieces vs c b f v r :
  vs <> [] -> callbacks (EvHeaderValue <$> vs) (mkParser c b f v) r = Go (mkParser c true f (v ++ concat vs)) r.
Proof.
  revert b v. induction vs as [|x vs IH]; intros b v Hne; [done|]. simpl. unfold OnHeaderValue. simpl.
  destruct vs as [|y vs]; [by rewrite app_nil_r|]. rewrite IH by done. by rewrite <- app_assoc.
Qed.

(** One header after another: the previous one is stored when the next begins. *)
Lemma header_after h m f v r :
  header_ok h ->
  callbacks (header_events h) (mkParser (Some m) true f v) r =
  Go (mkParser (Some (insert_header m f v)) true (concat h.1) (concat h.2)) r.
Proof.
  intros [Hf Hv]. unfold header_events. rewrite callbacks_app. destruct (h.1) as [|x fs]; [done|].
  simpl. unfold OnHeaderField. simpl. rewrite field_pieces. by rewrite value_pieces.
Qed.

Lemma headers_after hs m f v r :
  Forall header_ok hs -> f <> [] ->
  exists f' v' m', callbacks (concat (header_events <$> hs)) (mkParser (Some m) true f v) r = Go (mkParser (Some m') true f' v') r /\
    f' <> [] /\ insert_header m' f' v' = insert_all hs (insert_header m f v).
Proof.
  intros Hhs. revert m f v. induction Hhs as [|h hs Hh Hhs IH]; intros m f v Hf; [by eexists _, _, _|].
  rewrite fmap_cons, concat_cons, callbacks_app, header_after by done. destruct Hh as [Hh1 _].
  destruct (IH (insert_header m f v) (concat h.1) (concat h.2) Hh1) as (f' & v' & m' & -> & ? & ?).
  by eexists _, _, _.
Qed.

Lemma all_headers hs m r :
  Forall header_ok hs ->
  callbacks (concat (header_events <$> hs) ++ [EvHeadersComplete]) (mkParser (Some m) false [] []) r =
  Go (mkParser (Some (insert_all hs m)) (negb (bool_decide (hs = []))) [] []) r.
Proof.
  intros Hhs. destruct Hhs as [|h hs [Hf Hval] Hhs]; [done|]. rewrite fmap_cons, concat_cons, <- app_assoc, callbacks_app.
  unfold header_events at 1. rewrite callbacks_app, field_pieces. cbn [app]. rewrite value_pieces by done. cbn [app].
  rewrite callbacks_app. destruct (headers_after hs m (concat h.1) (concat h.2) r Hhs Hf) as (f' & v' & m' & -> & Hf' & Hi).
  simpl. unfold OnHeaderFinish. simpl. destruct f' as [|x f']; [done|]. by rewrite Hi.
Qed.

Definition is_piece (e : http_ev) : bool := match e with EvBody _ => true | _ => false end.

Lemma body_pieces bs m b f v r :
  Forall (fun e => is_body e = true) bs ->
  callbacks bs (mkParser (Some m) b f v) r =
  Go (mkParser (Some (foldl (fun m x => put (AppendBody (body_bytes x) (get m)) m) m (filter (fun e => is_piece e = true) bs))) b f v) r.
Proof.
  intros Hbs. revert m. induction Hbs as [|x bs Hx Hbs IH]; intros m; [done|]. rewrite filter_cons.
  destruct x; try done; cbn [callbacks callback is_piece]; [|by rewrite IH..].
  unfold OnMessageBody. cbn [current_ hd_value_flag_ half_hdr_field_ half_hdr_value_]. by rewrite IH.
Qed.

End Parser.

Section Request.
Context (decompress_gzip decompress_deflate : list Z -> option (list Z)) {R : Type} (commit : HttpRequest -> R -> R).

Lemma url_pieces urls (q : HttpRequest) b f v (r : R) :
  callbacks decompress_gzip decompress_deflate commit (EvUrl <$> urls) (mkParser (Some q) b f v) r =
  Go (mkParser (Some (mkRequest (rq q) (method_ q) (url_ q ++ concat urls))) b f v) r.
Proof.
  revert q. induction urls as [|u urls IH]; intros q; [rewrite app_nil_r; by destruct q|].
  simpl. unfold OnURL. simpl. rewrite IH. simpl. by rewrite <- app_assoc.
Qed.

Lemma request_headers hs (q : HttpRequest) :
  insert_all hs q = mkRequest (foldl (fun m h => InsertHeader (concat h.1) (concat h.2) m) (rq q) hs) (method_ q) (url_ q).
Proof. revert q. induction hs as [|h hs IH]; intros q; [by destruct q|]. simpl. by rewrite IH. Qed.

Lemma request_body bs (q : HttpRequest) :
  Forall (fun e => is_body e = true) bs ->
  foldl (fun m x => put (AppendBody (body_bytes x) (get m)) m) q (filter (fun e => is_piece e = true) bs) =
  mkRequest (AppendBody (concat (body_bytes <$> bs)) (rq q)) (method_ q) (url_ q).
Proof.
  intros Hbs. revert q. induction Hbs as [|x bs Hx Hbs IH]; intros q.
  - unfold AppendBody. cbn. rewrite app_nil_r. by destruct q as [[] ? ?].
  - rewrite filter_cons, fmap_cons, concat_cons. destruct x; try done; cbn [is_piece body_bytes app]; [|by rewrite IH..].
    rewrite decide_True by done. cbn [foldl]. rewrite IH. unfold AppendBody, SetBody. simpl. by rewrite <- app_assoc.
Qed.

(** The request a list of whole header fields, a body and a request line make. *)
Definition whole_request (url : list Z) (hs : KeyValMap) (body : list Z) (f : llhttp_fields) : HttpRequest :=
  let h := foldl (fun m kv => InsertHeader kv.1 kv.2 m) HttpMessage_new hs in
  mkRequest (mkHttp (l_keep_alive f) (l_major f) (l_minor f) body (headers_ h)) (ToUpper (l_method f)) url.

Lemma insert_preserves hs m :
  let h := foldl (fun m kv => InsertHeader kv.1 kv.2 m) m hs in
  keepalive_ h = keepalive_ m /\ http_major_ h = http_major_ m /\ http_minor_ h = http_minor_ m /\ body_ h = body_ m.
Proof.
  revert m. induction hs as [|[k v] hs IH]; intros m; [done|]. simpl.
  destruct (IH (InsertHeader k v m)) as (-> & -> & -> & ->). by destruct k.
Qed.

(** A request on the wire, as its callbacks cut it. *)
Record message := mkMessage {
  m_urls : list (list Z); m_headers : list (list (list Z) * list (list Z)); m_body : list http_ev; m_fields : llhttp_fields }.
Definition message_ok (m : message) : Prop := Forall header_ok (m_headers m) /\ Forall (fun e => is_body e = true) (m_body m).
Definition events_of (m : message) : list http_ev := message_events (m_urls m) (m_headers m) (m_body m) (m_fields m).
Definition whole (m : message) : HttpRequest :=
  whole_request (concat (m_urls m)) ((fun h => (concat h.1, concat h.2)) <$> m_headers m) (concat (body_bytes <$> m_body m)) (m_fields m).

(** What the receiver is to see of a request: its body decompressed as its
    Content-Encoding says; [None] when that fails. *)
Definition received (q : HttpRequest) : option HttpRequest :=
  let e := GetHeader kContentEncoding (rq q) in
  b ← (if Contains e (str "gzip") then decompress_gzip (body_ (rq q))
       else if Contains e (str "deflate") then decompress_deflate (body_ (rq q)) else Some (body_ (rq q)));
  Some (mkRequest (SetBody b (rq q)) (method_ q) (url_ q)).

(** The requests committed, and whether all were. *)
Fixpoint committed (ms : list message) (r : R) : R * bool :=
  match ms with
  | [] => (r, true)
  | m :: ms' => match received (whole m) with Some q => committed ms' (commit q r) | None => (r, false) end
  end.

Lemma decode_received q : decode_body decompress_gzip decompress_deflate q = received q.
Proof.
  unfold decode_body, received. cbn [get put strips_encoding HttpRequest_like].
  destruct (Contains _ _); [by destruct (decompress_gzip _)|]. destruct (Contains _ _); [by destruct (decompress_deflate _)|].
  by destruct q as [[] ? ?].
Qed.

(** One message, on a parser whose value buffer is empty. *)
Lemma message_reassembled m p r :
  message_ok m -> half_hdr_value_ p = [] ->
  match received (whole m) with
  | Some q => exists b, callbacks decompress_gzip decompress_deflate commit (events_of m) p r = Go (mkParser None b [] []) (commit q r)
  | None => exists p', callbacks decompress_gzip decompress_deflate commit (events_of m) p r = Fail p' r
  end.
Proof.
  destruct m as [urls hs body f]. intros [Hhs Hbs] Hv. cbn in Hhs, Hbs. unfold events_of, message_events. cbn [m_urls m_headers m_body m_fields].
  rewrite callbacks_app. cbn [callbacks callback OnMessageBegin]. rewrite Hv, callbacks_app, url_pieces.
  rewrite callbacks_app, all_headers by done. rewrite callbacks_app, body_pieces, request_headers, request_body by done. simpl.
  set (h := foldl _ HttpMessage_new hs).
  assert (Hh : h = foldl (fun m kv => InsertHeader kv.1 kv.2 m) HttpMessage_new ((fun h => (concat h.1, concat h.2)) <$> hs)).
  { subst h. clear. generalize HttpMessage_new. induction hs as [|x hs IH]; intros m; [done|]. simpl. apply IH. }
  destruct (insert_preserves ((fun h => (concat h.1, concat h.2)) <$> hs) HttpMessage_new) as (_ & _ & _ & Hb).
  rewrite <- Hh in Hb. unfold OnMessageParsed. cbn [current_].
  match goal with |- context [decode_body _ _ ?x] => assert (Hw : x = whole (mkMessage urls hs body f)) end.
  { unfold whole, whole_request. cbn [m_urls m_headers m_body m_fields]. rewrite <- Hh. simpl. unfold SetMethod, SetKeepAlive, set_version, AppendBody, SetBody. simpl. by rewrite Hb. }
  rewrite Hw, decode_received. destruct (received _); by eexists.
Qed.

(** C18.  Reassembly, for any sequence of requests without trailer fields on one connection.
    However the callbacks cut the URLs, the header names and values and the bodies, also
    in chunks, each request is committed, in order and alone, with the concatenated URL,
    its header fields and its body, decompressed when its Content-Encoding says gzip or
    deflate; the first whose body does not decompress stops the parser with an error, and
    nothing is committed after it. *)
Theorem request_reassembled ms r :
  Forall message_ok ms ->
  match callbacks decompress_gzip decompress_deflate commit (concat (events_of <$> ms)) HttpParser_new r with
  | Go p' r' => committed ms r = (r', true) /\ current_ p' = None
  | Fail _ r' => committed ms r = (r', false)
  | Crash => False
  end.
Proof.
  intros Hms. assert (half_hdr_value_ (M := HttpRequest) HttpParser_new = [] /\ current_ (M := HttpRequest) HttpParser_new = None) as Hp by done.
  revert r Hp. generalize (HttpParser_new (M := HttpRequest)).
  induction Hms as [|m ms Hm Hms IH]; intros p r [Hv Hc]; [by split|]. rewrite fmap_cons, concat_cons, callbacks_app. cbn [committed].
  pose proof (message_reassembled m p r Hm Hv) as H. destruct (received (whole m)) as [q|].
  - destruct H as [b ->]. by apply IH.
  - by destruct H as [p' ->].
Qed.
End Request.

(** Two requests, the second in chunks and compressed; the decompression is the identity on
    one body. *)
Definition example_messages : list message :=
  [mkMessage [str "/a"; str "b"] [([str "Ho"; str "st"], [str "x"]); ([str "A"], [[]; str "1"])] [EvBody (str "he"); EvBody (str "y")]
     (mkFields 1 1 true (str "POST") 0);
   mkMessage [str "/c"] [([str "Content-Encoding"], [str "gz"; str "ip"])]
     [EvChunkHeader; EvBody (str "z"); EvChunkComplete; EvChunkHeader; EvChunkComplete] (mkFields 1 1 false (str "PUT") 0)].
Definition example_gunzip (b : list Z) : option (list Z) := if bool_decide (b = str "z") then Some (str "zzz") else None.

Lemma request_reassembled_witness :
  match callbacks (M := HttpRequest) example_gunzip (fun _ => None) (fun q r => r ++ [q]) (concat (events_of <$> example_messages)) HttpParser_new [] with
  | Go p' r' => committed example_gunzip (fun _ => None) (fun q r => r ++ [q]) example_messages [] = (r', true) /\ current_ p' = None
  | Fail _ r' => committed example_gunzip (fun _ => None) (fun q r => r ++ [q]) example_messages [] = (r', false)
  | Crash => False
  end /\
  committed example_gunzip (fun _ => None) (fun q r => r ++ [q]) example_messages [] =
    ([mkRequest (mkHttp true 1 1 (str "hey") [(str "a", str "1"); (str "host", str "x")]) (str "POST") (str "/ab");
      mkRequest (mkHttp false 1 1 (str "zzz") [(str "content-encoding", str "gzip")]) (str "PUT") (str "/c")], true).
Proof.
  split; [|vm_compute; reflexivity].
  apply (request_reassembled example_gunzip (fun _ => None) (fun q r => r ++ [q]) example_messages []).
  repeat constructor; discriminate.
Defined.

(** A chunked message with a trailer field leaves the trailer's value in the
    builder -- the start of a message clears the name buffer twice and the value
    buffer never -- and the first header of the next message on the connection is
    stored with that value in front of its own. *)
Theorem trailer_value_leaks :
  let f := mkFields 1 1 true (str "POST") 0 in
  let first := message_events [str "/"] [([str "Te"], [str "x"])] [EvBody (str "body")] f in
  let trailer := [EvHeaderField (str "Sum"); EvHeaderValue (str "12")] in
  match callbacks (M := HttpRequest) (fun _ => None) (fun _ => None) (fun q r => r ++ [q])
      (take 6 first ++ trailer ++ drop 6 first ++
       message_events [str "/"] [([str "Host"], [str "h"])] [] f) HttpParser_new [] with
  | Go _ [_; q2] => GetHeader kHost (rq q2) = str "12h"
  | _ => False
  end.
Proof. vm_compute. reflexivity. Qed.

End HttpParser.
