(* ===== verification/HttpCodec.v ===== *)
(** * The HTTP codec service (net_io/codec/http/http_codec_service.cc)

    Sending writes a message into the output buffer and posts one flush task to
    the loop; receiving runs the HTTP parser over the input buffer.  The gzip
    library and the peer's host name are parameters. *)
From S2P Require Import Prelude IOBuffer StrUtils StdMap Channel Codec HttpMessage HttpParser.
Import IOBuffer StrUtils StdMap FdEvent TcpChannel Codec HttpMessage HttpParser.

Module HttpCodec.

Definition kCompressionThreshold : Z := 8096.

(** What the handler is given. *)
Inductive HttpAny := Req (r : HttpRequest) | Res (r : HttpResponse).
Abbreviation Service := (CodecService HttpAny).

Record HttpCodecService := mkHttpService {
  base_ : Service;
  flush_scheduled_ : bool;
  posted : nat;                             (* [flush_fn_] closures in the loop's queue *)
  req_parser : HttpParser (M := HttpRequest);
  res_parser : HttpParser (M := HttpResponse);
}.
Definition with_base b s := mkHttpService b (flush_scheduled_ s) (posted s) (req_parser s) (res_parser s).

Section Service.
Variable compress_gzip compress_deflate decompress_gzip decompress_deflate : list Z -> option (list Z).
Variable remote_host : list Z.          (* delegate_->GetRemoteInfo()->host *)

(** A member without initialiser: [garbage] is what it happens to hold. *)
Definition HttpCodecService_new (garbage : bool) (b : Service) : HttpCodecService :=
  mkHttpService b garbage 0 HttpParser_new HttpParser_new.

(** ** Sending *)

Definition BeforeSendRequest (r : HttpRequest) : HttpRequest :=
  let m := rq r in
  let m :=
    if (kCompressionThreshold <? zlen (body_ m)) && negb (HasHeader kContentEncoding m) then
      match compress_gzip (body_ m) with
      | Some c => SetBody c (InsertHeader kContentLength (to_string (zlen c)) (InsertHeader kContentEncoding (str "gzip") m))
      | None => m
      end
    else m in
  let m := if negb (HasHeader kHost m) then InsertHeader kHost remote_host m else m in
  mkRequest m (method_ r) (url_ r).

Definition BeforeSendResponse (request : HttpRequest) (r : HttpResponse) : HttpResponse :=
  let m := rs r in
  if (kCompressionThreshold <? zlen (body_ m)) && negb (HasHeader kContentEncoding m) then
    let accept := GetHeader kAcceptEncoding (rq request) in
    if Contains accept (str "gzip") then
      match compress_gzip (body_ m) with
      | Some c => mkResponse (InsertHeader_cstr (str "Content-Encoding") (str "gzip") (SetBody c m)) (status_code_ r)
      | None => r
      end
    else if Contains accept (str "deflate") then
      match compress_deflate (body_ m) with
      | Some c => mkResponse (InsertHeader_cstr (str "Content-Encoding") (str "deflate") (SetBody c m)) (status_code_ r)
      | None => r
      end
    else r
  else r.

Definition with_out (b : IOBuffer) (s : Service) : Service :=
  let c := channel_ s in with_channel (mkChannel (fdev_ c) (in_ c) b (sock c)) s.

(** [if (!flush_scheduled_) { flush_scheduled_ = true; loop_->PostTask(...); }] *)
Definition schedule_flush (s : HttpCodecService) : HttpCodecService :=
  if negb (flush_scheduled_ s) then mkHttpService (base_ s) true (S (posted s)) (req_parser s) (res_parser s) else s.

Definition SendRequest (r : HttpRequest) (s : HttpCodecService) : option (bool * HttpCodecService) :=
  b ← RequestToBuffer (BeforeSendRequest r) (out_ (channel_ (base_ s)));
  Some (true, schedule_flush (with_base (with_out b (base_ s)) s)).

Definition set_schedule_close (s : Service) : Service :=
  mkService (server_side_ s) true (as_fdev_handler_ s) (has_handler_ s) (has_delegate_ s) (status_ s) (channel_ s) (notices s).

Definition SendResponse (req : HttpRequest) (res : HttpResponse) (s : HttpCodecService) : option (bool * HttpCodecService) :=
  let response := BeforeSendResponse req res in
  b ← ResponseToBuffer response (out_ (channel_ (base_ s)));
  let base := with_out b (base_ s) in
  let base := if negb (keepalive_ (rs response)) then set_schedule_close base else base in
  Some (true, schedule_flush (with_base base s)).

(** The closure [flush_fn_]; its result is the one of [TryFlushChannel], which the
    closure drops. *)
Definition flush_fn_ (s : HttpCodecService) : option (bool * HttpCodecService) :=
  r ← TryFlushChannel (base_ s);
  let '(ok, base) := r in
  Some (ok, mkHttpService base false (posted s) (req_parser s) (res_parser s)).

(** The loop runs a posted closure. *)
Definition run_posted (s : HttpCodecService) : option (bool * HttpCodecService) :=
  match posted s with
  | O => None
  | S n => flush_fn_ (mkHttpService (base_ s) (flush_scheduled_ s) n (req_parser s) (res_parser s))
  end.

Definition NewResponse (request : HttpRequest) : HttpResponse :=
  let r := CreateWithCode 500 in
  mkResponse (InsertHeader_cstr (str "Content-Type") (str "text/plain") (SetKeepAlive (keepalive_ (rq request)) (rs r)))
    (status_code_ r).

(** ** Receiving *)

Definition CommitHttpRequest (r : HttpRequest) (s : Service) : Service := notify (Message (Req r)) s.
Definition CommitHttpResponse (r : HttpResponse) (s : Service) : Service := notify (Message (Res r)) s.

(** The two instances of [Parse] have the same code; a client's parser object is
    reached through [req_parser()] as well, and runs the callbacks it was built
    with. *)
Definition OnDataReceived (run : llhttp_run) (s : HttpCodecService) : option HttpCodecService :=
  let buf := in_ (channel_ (base_ s)) in
  r ← (if server_side_ (base_ s) then
         r ← Parse decompress_gzip decompress_deflate CommitHttpRequest run buf (req_parser s) (base_ s);
         let '(st, p, b, buf) := r in
         Some (st, mkHttpService (with_in buf b) (flush_scheduled_ s) (posted s) p (res_parser s))
       else
         r ← Parse decompress_gzip decompress_deflate CommitHttpResponse run buf (res_parser s) (base_ s);
         let '(st, p, b, buf) := r in
         Some (st, mkHttpService (with_in buf b) (flush_scheduled_ s) (posted s) (req_parser s) p));
  let '(st, s) := r in
  match st with
  | Success => Some s
  | Error =>
      r ← on_channel (Send kBadRequest (channel_ (base_ s))) (base_ s);
      let '(_, base) := r in
      Some (with_base (NotifyCodecClosed (CloseService true base)) s)
  end.

Definition StartProtocolService (s : HttpCodecService) : HttpCodecService :=
  mkHttpService (Codec.StartProtocolService (base_ s)) (flush_scheduled_ s) (posted s)
    (if server_side_ (base_ s) then HttpParser_new else req_parser s)
    (if server_side_ (base_ s) then res_parser s else HttpParser_new).

(** ** Nothing written is stranded *)

(** What happens to the output side of a connection. *)
Inductive http_op :=
| HSendRequest (r : HttpRequest)
| HSendResponse (req : HttpRequest) (res : HttpResponse)
| HRunPosted                          (* the loop runs a posted flush *)
| HWritable.                          (* the descriptor becomes writable *)

Definition http_step (o : http_op) (s : HttpCodecService) : option (bool * HttpCodecService) :=
  match o with
  | HSendRequest r => SendRequest r s
  | HSendResponse q r => SendResponse q r s
  | HRunPosted => run_posted s
  | HWritable => r ← SocketReadWrite WRITE (base_ s); let '(ok, base) := r in Some (ok, with_base base s)
  end.

(** The service after a run in which no write failed. *)
Fixpoint http_run (os : list http_op) (s : HttpCodecService) : option HttpCodecService :=
  match os with
  | [] => Some s
  | o :: os' => r ← http_step o s; let '(ok, s) := r in if ok : bool then http_run os' s else None
  end.

(** The flush flag tells whether the loop holds the flush; bytes that wait without
    one wait for the descriptor. *)
Definition flush_inv (s : HttpCodecService) : Prop :=
  let ch := channel_ (base_ s) in
  inv (out_ ch) /\ posted s = (if flush_scheduled_ s then 1 else 0)%nat /\
  (flush_scheduled_ s = false -> contents (out_ ch) <> [] -> watcher_ (fdev_ ch) <> None -> IsWriteEnable (fdev_ ch) = true).

Lemma CloseService_channel b (s : Service) :
  let c := channel_ (CloseService b s) in
  out_ c = out_ (channel_ s) /\ event_ (fdev_ c) = event_ (fdev_ (channel_ s)) /\
  (watcher_ (fdev_ c) = None \/ watcher_ (fdev_ c) = watcher_ (fdev_ (channel_ s))).
Proof.
  unfold CloseService, RemoveFdEvent, NotifyCodecClosed. simpl.
  destruct (as_fdev_handler_ s), b; simpl; try destruct (has_delegate_ s); simpl; auto.
Qed.

Lemma WriteStrings_inv ss b b' : inv b -> WriteStrings ss b = Some b' -> inv b'.
Proof.
  unfold WriteStrings. revert b. induction ss as [|x ss IH]; intros b Hi; simpl; [by intros [= <-]|].
  destruct (WriteString x b) as [b1|] eqn:E; [eauto using WriteString_inv|].
  intros H. assert (foldl (fun ob s => b ← ob; WriteString s b) None ss = None) as Hn by (clear; by induction ss). congruence.
Qed.

Lemma RequestToBuffer_inv r b b' : inv b -> RequestToBuffer r b = Some b' -> inv b'.
Proof.
  intros Hi. unfold RequestToBuffer. destruct (EnsureWritableSize _ b) as [b1|] eqn:E; [|done]. simpl.
  apply WriteStrings_inv. eapply EnsureWritableSize_inv; [done | | done].
  match goal with |- i32 ?x < _ => pose proof (i32_range x) end. lia.
Qed.

Lemma ResponseToBuffer_inv r b b' : inv b -> ResponseToBuffer r b = Some b' -> inv b'.
Proof.
  intros Hi. unfold ResponseToBuffer. destruct (EnsureWritableSize _ b) as [b1|] eqn:E; [|done]. simpl.
  destruct (http_resp_head_line _ _); [|done]. simpl. apply WriteStrings_inv. eapply EnsureWritableSize_inv; [done | | done].
  match goal with |- i32 ?x < _ => pose proof (i32_range x) end. lia.
Qed.

(** Scheduling keeps the flag and the queue in step, whatever was written. *)
Lemma schedule_flush_inv s base :
  flush_inv s -> inv (out_ (channel_ base)) -> flush_inv (schedule_flush (with_base base s)).
Proof.
  intros (_ & Hp & _) Hi. unfold schedule_flush, flush_inv. simpl.
  destruct (flush_scheduled_ s) eqn:E; simpl; rewrite ?E, ?Hp; done.
Qed.

(** A successful write-out, from the flush or from the event. *)
Lemma write_out_inv (s : Service) rv ch :
  inv (out_ (channel_ s)) -> HandleWrite (channel_ s) = Ret rv ch -> 0 <= rv ->
  let s' := if (0 <? rv) && negb (HasOutgoingData ch) then OnDataFinishSend (with_channel ch s) else with_channel ch s in
  inv (out_ (channel_ s')) /\
  (contents (out_ (channel_ s')) <> [] -> watcher_ (fdev_ (channel_ s')) <> None -> IsWriteEnable (fdev_ (channel_ s')) = true).
Proof.
  intros Hi Hw Hrv. destruct (HandleWrite_interest _ _ _ Hi Hw Hrv) as [Hi' He].
  destruct ((0 <? rv) && negb (HasOutgoingData ch)); [|simpl; auto].
  unfold OnDataFinishSend. simpl. destruct (schedule_close_ s); simpl; [|auto].
  destruct (CloseService_channel false (with_channel ch s)) as (-> & Hev & _). simpl in *. split; [done|].
  intros Hne _. unfold IsWriteEnable. rewrite Hev. by apply He.
Qed.

Lemma http_step_inv o s s' : flush_inv s -> http_step o s = Some (true, s') -> flush_inv s'.
Proof.
  intros Hf. pose proof Hf as (Hi & Hp & Hw). destruct o as [r|q r| |]; simpl.
  - unfold SendRequest. destruct (RequestToBuffer _ _) as [b|] eqn:E; [|done]. intros [= <-].
    apply schedule_flush_inv; [done|]. simpl. by eapply RequestToBuffer_inv.
  - unfold SendResponse. destruct (ResponseToBuffer _ _) as [b|] eqn:E; [|done]. intros [= <-].
    apply schedule_flush_inv; [done|]. apply ResponseToBuffer_inv in E; [|done]. by destruct (keepalive_ _).
  - unfold run_posted. rewrite Hp. destruct (flush_scheduled_ s); [|done]. unfold flush_fn_, TryFlushChannel. simpl.
    destruct (HandleWrite_ok _ Hi) as (rv & ch & n & Hh & _ & _). rewrite Hh. simpl.
    intros [= Hrv%Z.leb_le <-]. destruct (write_out_inv _ _ _ Hi Hh Hrv) as [? ?]. by split_and!.
  - unfold SocketReadWrite. change (has_write WRITE) with true. change (has_read WRITE) with false. cbv iota.
    destruct (HandleWrite_ok _ Hi) as (rv & ch & n & Hh & _ & _). rewrite Hh. simpl.
    destruct (Z.ltb_spec rv 0) as [|Hrv]; simpl; [done|]. intros [= <-].
    destruct (write_out_inv _ _ _ Hi Hh Hrv) as [? ?]. split_and!; [done | done | by auto].
Qed.

(** No output is stranded: through any sequence of sends, posted flushes and
    writable events without a failed write, on a service whose flag started
    cleared, the loop holds exactly one flush while the flag is set and none
    otherwise, and bytes that wait without a pending flush wait for a descriptor
    that is armed for writing (or already deregistered by a close). *)
Theorem http_output_not_stranded os s s' :
  flush_inv s -> http_run os s = Some s' ->
  posted s' = (if flush_scheduled_ s' then 1 else 0)%nat /\
  (contents (out_ (channel_ (base_ s'))) <> [] ->
   posted s' = 1%nat \/ watcher_ (fdev_ (channel_ (base_ s'))) = None \/ IsWriteEnable (fdev_ (channel_ (base_ s'))) = true).
Proof.
  revert s. induction os as [|o os IH]; intros s Hf; simpl.
  - intros [= <-]. destruct Hf as (_ & Hp & Hw). split; [done|]. intros Hne. rewrite Hp.
    destruct (flush_scheduled_ s); [by left|]. right.
    destruct (watcher_ (fdev_ (channel_ (base_ s)))) eqn:E; [right | by left]. by apply Hw; rewrite ?E.
  - destruct (http_step o s) as [[[] s1]|] eqn:E; [|done..]. simpl. apply IH. by eapply http_step_inv.
Qed.

(** Compression does not touch a [Content-Length] the caller has set: the
    message goes out with the length of the uncompressed body. *)
Theorem compression_keeps_stale_length req r c :
  headers_ok (rs r) -> kCompressionThreshold < zlen (body_ (rs r)) -> HasHeader kContentEncoding (rs r) = false ->
  HasHeader kContentLength (rs r) = true -> Contains (GetHeader kAcceptEncoding (rq req)) (str "gzip") = true ->
  compress_gzip (body_ (rs r)) = Some c ->
  body_ (rs (BeforeSendResponse req r)) = c /\
  GetHeader kContentLength (rs (BeforeSendResponse req r)) = GetHeader kContentLength (rs r).
Proof.
  intros Hok Hb He Hl Ha Hc. unfold headers_ok in Hok. unfold BeforeSendResponse. rewrite He, Ha, Hc.
  destruct (Z.ltb_spec kCompressionThreshold (zlen (body_ (rs r)))); [|lia]. simpl andb. cbv iota. cbn [rs].
  split; [done|]. unfold GetHeader, InsertHeader_cstr. cbn [headers_ with_headers SetBody].
  rewrite StdMap.find_insert by first [done | apply _]. done.
Qed.
End Service.

(** A fresh server-side service on a socket that takes 10 bytes and blocks. *)
Definition example_service (garbage : bool) : HttpCodecService :=
  HttpCodecService_new garbage (new_service true false (mkSocket 0 [] [WAccept 10] [])).
Definition example_ops : list http_op := [HSendResponse HttpRequest_new (CreateWithCode 200); HRunPosted].
Abbreviation no_gzip := (fun _ : list Z => @None (list Z)).

Lemma http_output_not_stranded_witness :
  exists s', http_run no_gzip no_gzip [] example_ops (example_service false) = Some s' /\
    posted s' = 0%nat /\ contents (out_ (channel_ (base_ s'))) <> [] /\ IsWriteEnable (fdev_ (channel_ (base_ s'))) = true.
Proof.
  destruct (http_run no_gzip no_gzip [] example_ops (example_service false)) as [s'|] eqn:E; [|vm_compute in E; discriminate].
  exists s'. split; [reflexivity|].
  assert (Hf : flush_inv (example_service false)) by (split; [apply inv_new | split; [reflexivity | intros _ H; destruct (H eq_refl)]]).
  destruct (http_output_not_stranded no_gzip no_gzip [] example_ops _ s' Hf E) as [H1 H2].
  assert (Hfl : flush_scheduled_ s' = false /\ contents (out_ (channel_ (base_ s'))) <> [] /\ watcher_ (fdev_ (channel_ (base_ s'))) <> None)
    by (vm_compute in E; injection E as <-; vm_compute; split_and!; discriminate || reflexivity).
  destruct Hfl as (Hfl & Hne & Hwa). rewrite Hfl in H1. destruct (H2 Hne) as [H|[H|H]]; [congruence | congruence |].
  split_and!; assumption.
Defined.

Lemma compression_keeps_stale_length_witness :
  let r := mkResponse (InsertHeader kContentLength (str "9000") (SetBody (replicate 9000 65) HttpMessage_new)) 200 in
  let req := mkRequest (InsertHeader kAcceptEncoding (str "gzip") HttpMessage_new) (str "GET") (str "/") in
  body_ (rs (BeforeSendResponse (fun _ => Some [1; 2; 3]) no_gzip req r)) = [1; 2; 3] /\
  GetHeader kContentLength (rs (BeforeSendResponse (fun _ => Some [1; 2; 3]) no_gzip req r)) = str "9000".
Proof.
  exact (compression_keeps_stale_length (fun _ => Some [1; 2; 3]) no_gzip
    (mkRequest (InsertHeader kAcceptEncoding (str "gzip") HttpMessage_new) (str "GET") (str "/"))
    (mkResponse (InsertHeader kContentLength (str "9000") (SetBody (replicate 9000 65) HttpMessage_new)) 200) [1; 2; 3]
    ltac:(repeat constructor) ltac:(vm_compute; reflexivity) ltac:(vm_compute; reflexivity) ltac:(vm_compute; reflexivity)
    ltac:(vm_compute; reflexivity) eq_refl).
Defined.

(** [flush_scheduled_] has no initialiser: where the memory happens to hold a
    nonzero byte, a response is encoded but no flush is ever posted. *)
Theorem uninitialised_flag_strands_output :
  exists s', SendResponse no_gzip no_gzip HttpRequest_new (CreateWithCode 200) (example_service true) = Some (true, s') /\
    posted s' = 0%nat /\ contents (out_ (channel_ (base_ s'))) <> [] /\ sent (sock (channel_ (base_ s'))) = [].
Proof.
  assert (H : match SendResponse no_gzip no_gzip HttpRequest_new (CreateWithCode 200) (example_service true) with
    | Some (true, s') => posted s' = 0%nat /\ contents (out_ (channel_ (base_ s'))) <> [] /\ sent (sock (channel_ (base_ s'))) = []
    | _ => False end) by (vm_compute; split_and!; [reflexivity | discriminate | reflexivity]).
  destruct (SendResponse _ _ _ _ _) as [[[] s']|]; [by exists s' | done | done].
Qed.

End HttpCodec.
