(* ===== verification/WebSocketCodec.v ===== *)
(** * The WebSocket codec service (net_io/codec/websocket/ws_codec_service.cc, ws_util.{h,cc})

    The service around the frame parser: the HTTP upgrade handshake, the commit of
    a finished message, control frames, and the two send paths.  SHA-1, the random
    mask and handshake key, llhttp and gzip are parameters. *)
From S2P Require Import Prelude IOBuffer ByteOrder StrUtils StdMap Base64 Channel Codec HttpMessage HttpParser WebSocketParser WebSocketFrames.
Import IOBuffer ByteOrder StrUtils StdMap FdEvent TcpChannel Codec HttpMessage.
Import HttpParser WebSocketParser WebSocketFrames.

Module WebSocketCodec.

Abbreviation Service := (CodecService WebsocketFrame).

(** ** WebsocketUtil *)

Definition ws_magic : list Z := str "258EAFA5-E914-47DA-95CA-C5AB0DC85B11".

(** [strlen]: up to the first NUL. *)
Fixpoint c_str (s : list Z) : list Z :=
  match s with [] => [] | c :: s' => if c =? 0 then [] else c :: c_str s' end.

Definition CalculateFrameSize (data_len : Z) (has_mask : bool) : Z :=
  let size := data_len + 2 in
  let size := if 126 <=? data_len then size + (if 0xFFFF <? data_len then 8 else 2) else size in
  if has_mask then size + 4 else size.

Definition BuildFrame (data mask : list Z) (has_mask : bool) (opcode : Z) (fin : bool) : list Z :=
  let flags := opcode in
  let flags := if fin then Z.lor flags WS_FIN else flags in
  let flags := if has_mask then Z.lor flags WS_HAS_MASK else flags in
  websocket_build_frame flags mask data.

(** [rand()] is the four bytes of the client's mask. *)
Definition BuildClientFrame (rand data : list Z) (opcode : Z) : list Z := BuildFrame data rand true opcode true.
Definition BuildServerFrame (data : list Z) (opcode : Z) : list Z := BuildFrame data [0; 0; 0; 0] false opcode true.

Definition NewCloseFrame (code : Z) : WebsocketFrame :=
  AppendData (le_bytes 2 (HostToNet16 (u16 code))) (mkFrame WS_OP_CLOSE []).
Definition kclose_msg : WebsocketFrame := NewCloseFrame 1000.
Definition kping_msg : WebsocketFrame := mkFrame WS_OP_PING [].
Definition kpong_msg : WebsocketFrame := mkFrame WS_OP_PONG [].

(** ** Sending

    [Payload().size()] becomes an [int]; [None] also stands for a payload that
    does not fit one. *)

Definition with_out (b : IOBuffer) (s : Service) : Service :=
  let c := channel_ s in with_channel (mkChannel (fdev_ c) (in_ c) b (sock c)) s.

Definition SendResponse (m : WebsocketFrame) (s : Service) : option (bool * Service) :=
  if 2 ^ 31 - 14 <=? zlen (payload_ m) then None
  else
    let size := CalculateFrameSize (zlen (payload_ m)) false in
    b ← EnsureWritableSize size (out_ (channel_ s));
    let frame := BuildServerFrame (payload_ m) (opcode_ m) in
    b ← StoreAtWrite 0 frame b;
    TryFlushChannel (with_out (Produce (zlen frame) b) s).

Definition SendRequest (rand : list Z) (m : WebsocketFrame) (s : Service) : option (bool * Service) :=
  if 2 ^ 31 - 14 <=? zlen (payload_ m) then None
  else
    let size := CalculateFrameSize (zlen (payload_ m)) true in
    b ← EnsureWritableSize size (out_ (channel_ s));
    let frame := BuildClientFrame rand (payload_ m) (opcode_ m) in
    b ← StoreAtWrite 0 frame b;
    TryFlushChannel (with_out (Produce size b) s).

Definition WsSend (rand : list Z) (m : WebsocketFrame) (s : Service) : option (bool * Service) :=
  if server_side_ s then SendResponse m s else SendRequest rand m s.

(** ** Commit of a message

    The service seen by the parser callbacks is [None] once the process has
    aborted; [handler_] and [delegate_] are dereferenced without a test. *)

Definition CommitFrameMessage (current : WebsocketFrame) (o : option Service) : option WebsocketFrame * option Service :=
  match o with
  | None => (Some current, None)
  | Some s =>
      if opcode_ current =? WS_OP_CLOSE then
        (Some current,
         r ← SendResponse kclose_msg s;
         let s := CloseService true (snd r) in
         if has_delegate_ s then Some (notify Codec.Closed s) else None)
      else
        let o := if opcode_ current =? WS_OP_PING then r ← SendResponse kpong_msg s; Some (snd r) else Some s in
        (None, s ← o; if has_handler_ s then Some (notify (Message current) s) else None)
  end.

(** ** The service *)

Inductive handshake_state := HS_None | HS_SUCCEESS | HS_WRONGMSG.

Record WSCodecService := mkWS {
  base_ : Service;
  hs_state : handshake_state;
  parser_ : websocket_parser;
  current_ : option WebsocketFrame;
  ws_path_ : list Z;
  sec_key_ : list Z;
  sec_accept_ : list Z;
  req_parser : HttpParser.HttpParser (M := HttpRequest);
  res_parser : HttpParser.HttpParser (M := HttpResponse);
}.

Definition WSCodecService_new (b : Service) : WSCodecService :=
  mkWS b HS_None websocket_parser_init None [] [] [] HttpParser.HttpParser_new HttpParser.HttpParser_new.

Definition with_base b s := mkWS b (hs_state s) (parser_ s) (current_ s) (ws_path_ s) (sec_key_ s) (sec_accept_ s) (req_parser s) (res_parser s).
Definition with_hs h s := mkWS (base_ s) h (parser_ s) (current_ s) (ws_path_ s) (sec_key_ s) (sec_accept_ s) (req_parser s) (res_parser s).
Definition with_req_parser p s := mkWS (base_ s) (hs_state s) (parser_ s) (current_ s) (ws_path_ s) (sec_key_ s) (sec_accept_ s) p (res_parser s).
Definition with_res_parser p s := mkWS (base_ s) (hs_state s) (parser_ s) (current_ s) (ws_path_ s) (sec_key_ s) (sec_accept_ s) (req_parser s) p.

(** *** Data frames.  [addr] is the address of the first readable byte; the
    parser unmasks the received bytes in place. *)

Definition store_read (data : list Z) (b : IOBuffer) : option IOBuffer :=
  d ← vec_store (read_index_ b) data (data_ b); Some (mkIOBuffer (read_index_ b) (write_index_ b) d).

Definition OnFrameData (addr : Z) (s : WSCodecService) : option WSCodecService :=
  let buf := in_ (channel_ (base_ s)) in
  match websocket_parser_execute (parser_ s) (ws_settings CommitFrameMessage) addr (contents buf) (current_ s, Some (base_ s)) with
  | Done nparsed c =>
      base ← snd (c_user c);
      buf ← store_read (c_data c) (in_ (channel_ base));
      let s := mkWS (with_in buf base) (hs_state s) (c_parser c) (fst (c_user c)) (ws_path_ s) (sec_key_ s) (sec_accept_ s) (req_parser s) (res_parser s) in
      if negb (nparsed =? CanReadSize buf) then Some (with_base (CloseService false (base_ s)) s)
      else Some (with_base (with_in (Consume nparsed buf) (base_ s)) s)
  | _ => None
  end.

Section Handshake.
Variable sha1 : list Z -> list Z.
Variable decompress_gzip decompress_deflate : list Z -> option (list Z).
Variable url_path : list Z -> list Z.
Variable upgrade : bool.                  (* parser_.upgrade of the response parser *)

Definition GenAcceptKey (key : list Z) : list Z := Base64.encode (sha1 (c_str key ++ ws_magic)).

Definition upgrade_response (ws_accept : list Z) : list Z :=
  str "HTTP/1.1 101 Switching Protocols" ++ kCRLF ++ str "Server: ltio" ++ kCRLF ++
  str "Upgrade: websocket" ++ kCRLF ++ str "Connection: Upgrade" ++ kCRLF ++
  str "Sec-WebSocket-Accept: " ++ ws_accept ++ kCRLF ++ kCRLF.

(** The receiver of the HTTP parser is the service itself; [None] once aborted.
    [url_path] is the path part the URL parser finds in a URL. *)
Definition CommitHttpRequest (request : HttpRequest) (o : option WSCodecService) : option WSCodecService :=
  s ← o;
  if negb (server_side_ (base_ s)) then None
  else if negb (bool_decide (GetHeader (str "Upgrade") (rq request) = str "websocket")) then Some (with_hs HS_WRONGMSG s)
  else
    let key := GetHeader (str "Sec-WebSocket-Key") (rq request) in
    let s := mkWS (base_ s) (hs_state s) (parser_ s) (current_ s) (url_path (RequestUrl request)) key (sec_accept_ s) (req_parser s) (res_parser s) in
    r ← on_channel (Send (upgrade_response (GenAcceptKey key)) (channel_ (base_ s))) (base_ s);
    let '(rv, base) := r in
    Some (with_hs (if rv <? 0 then HS_WRONGMSG else HS_SUCCEESS) (with_base base s)).

Definition CommitHttpResponse (response : HttpResponse) (o : option WSCodecService) : option WSCodecService :=
  s ← o;
  if server_side_ (base_ s) then None
  else
    let acc := GetHeader (str "Sec-WebSocket-Accept") (rs response) in
    let s := mkWS (base_ s) (hs_state s) (parser_ s) (current_ s) (ws_path_ s) (sec_key_ s) acc (req_parser s) (res_parser s) in
    Some (with_hs (if (0 <? zlen acc) && upgrade then HS_SUCCEESS else HS_WRONGMSG) s).

Definition send_bad_request_and_close (s : WSCodecService) : option WSCodecService :=
  r ← on_channel (Send kBadRequest (channel_ (base_ s))) (base_ s);
  Some (with_base (CloseService false (snd r)) s).

Definition OnHandshakeReqData (run : HttpParser.llhttp_run) (s : WSCodecService) : option WSCodecService :=
  if negb (server_side_ (base_ s)) then None
  else
    r ← HttpParser.Parse decompress_gzip decompress_deflate CommitHttpRequest run (in_ (channel_ (base_ s))) (req_parser s) (Some s);
    let '(st, p, o, buf) := r in
    s ← o;
    let s := with_req_parser p (with_base (with_in buf (base_ s)) s) in
    match st with
    | HttpParser.Error => send_bad_request_and_close s
    | HttpParser.Success =>
        match hs_state s with
        | HS_SUCCEESS => Some (with_base (NotifyCodecReady (base_ s)) s)
        | HS_WRONGMSG => send_bad_request_and_close s
        | HS_None => Some s
        end
    end.

Definition OnHandshakeResData (run : HttpParser.llhttp_run) (s : WSCodecService) : option WSCodecService :=
  if server_side_ (base_ s) then None
  else
    r ← HttpParser.Parse decompress_gzip decompress_deflate CommitHttpResponse run (in_ (channel_ (base_ s))) (res_parser s) (Some s);
    let '(st, p, o, buf) := r in
    s ← o;
    let s := with_res_parser p (with_base (with_in buf (base_ s)) s) in
    match st with
    | HttpParser.Error => Some (with_base (CloseService false (base_ s)) s)
    | HttpParser.Success =>
        match hs_state s with
        | HS_SUCCEESS => Some (with_base (NotifyCodecReady (base_ s)) s)
        | HS_WRONGMSG => Some (with_base (CloseService false (base_ s)) s)
        | HS_None => Some s
        end
    end.

Definition OnDataReceived (run : HttpParser.llhttp_run) (addr : Z) (s : WSCodecService) : option WSCodecService :=
  match hs_state s with
  | HS_SUCCEESS => OnFrameData addr s
  | _ => if server_side_ (base_ s) then OnHandshakeReqData run s else OnHandshakeResData run s
  end.

(** [sec_key] is the base64 of the hashed random number, [host] the peer's. *)
Definition handshake_request (path sec_key host : list Z) : HttpRequest :=
  let m := InsertHeader (str "Host") host HttpMessage_new in
  let m := InsertHeader (str "Server") (str "ltio") m in
  let m := InsertHeader (str "Upgrade") (str "websocket") m in
  let m := InsertHeader (str "Connection") (str "Upgrade") m in
  let m := InsertHeader (str "Sec-WebSocket-Version") (str "13") m in
  let m := InsertHeader (str "Sec-WebSocket-Key") sec_key m in
  SetRequestURL path (SetMethod (str "GET") (mkRequest m (str "GET") [])).

Definition StartProtocolService (sec_key host : list Z) (s : WSCodecService) : option WSCodecService :=
  let s := with_base (StartInternal (base_ s)) s in
  let s := if server_side_ (base_ s) then with_req_parser HttpParser.HttpParser_new s else with_res_parser HttpParser.HttpParser_new s in
  if negb (server_side_ (base_ s)) then
    b ← RequestToBuffer (handshake_request (ws_path_ s) sec_key host) (out_ (channel_ (base_ s)));
    r ← TryFlushChannel (with_out b (base_ s));
    Some (with_base (snd r) s)
  else Some s.
End Handshake.

(** ** Frame sizes *)

Lemma BuildFrame_wire data mask has_mask op fin :
  BuildFrame data mask has_mask op fin = encode_wire (mkWire op fin has_mask mask data).
Proof.
  unfold BuildFrame, encode_wire, frame_flags. simpl. f_equal.
  destruct fin, has_mask; by rewrite ?Z.lor_0_r.
Qed.

(** [CalculateFrameSize] is the number of bytes the builder writes, masked or
    not, across the three length encodings, so the reservation before
    [BuildFrame] is exact and the client's [Produce(size)] covers the frame. *)
Theorem CalculateFrameSize_exact data mask has_mask op fin :
  0 <= op < 16 -> length mask = 4%nat -> zlen data < 2 ^ 63 ->
  zlen (BuildFrame data mask has_mask op fin) = CalculateFrameSize (zlen data) has_mask.
Proof.
  intros Hop Hm Hd. rewrite BuildFrame_wire. unfold encode_wire. rewrite build_frame_eq by done. cbn [w_masked w_data w_mask].
  unfold CalculateFrameSize, length_field. rewrite !length_cons, !length_app.
  destruct has_mask; [rewrite length_app, decode_loop_length, Hm|];
  destruct (Z.ltb_spec (zlen data) 126), (Z.leb_spec (zlen data) 0xFFFF), (Z.leb_spec 126 (zlen data)), (Z.ltb_spec 0xFFFF (zlen data));
    try lia; simpl; lia.
Qed.

Lemma CalculateFrameSize_exact_witness :
  zlen (BuildFrame (replicate 300 65) [1; 2; 3; 4] true WS_OP_TEXT true) = 308 /\
  CalculateFrameSize 300 true = 308.
Proof.
  rewrite (CalculateFrameSize_exact (replicate 300 65) [1; 2; 3; 4] true WS_OP_TEXT true);
    [split; reflexivity | unfold WS_OP_TEXT; lia | reflexivity | rewrite length_replicate; lia].
Defined.

(** ** Data frames reach the handler *)

Definition data_op (f : WebsocketFrame) : Prop := opcode_ f <> WS_OP_CLOSE /\ opcode_ f <> WS_OP_PING.
Definition deliver_all (fs : list WebsocketFrame) (s : Service) : Service :=
  foldl (fun s f => notify (Message f) s) s fs.

Lemma deliver_all_facts fs s :
  notices (deliver_all fs s) = notices s ++ (Message <$> fs) /\ channel_ (deliver_all fs s) = channel_ s /\
  has_handler_ (deliver_all fs s) = has_handler_ s.
Proof.
  revert s. induction fs as [|f fs IH]; intros s; simpl; [by rewrite app_nil_r|].
  destruct (IH (notify (Message f) s)) as (-> & -> & ->). simpl. by rewrite <- app_assoc.
Qed.

Lemma CommitFrameMessage_data f s :
  data_op f -> has_handler_ s = true -> CommitFrameMessage f (Some s) = (None, Some (notify (Message f) s)).
Proof.
  intros [H1 H2] Hh. unfold CommitFrameMessage.
  destruct (Z.eqb_spec (opcode_ f) WS_OP_CLOSE), (Z.eqb_spec (opcode_ f) WS_OP_PING); try done. simpl. by rewrite Hh.
Qed.

(** Two runs of the byte machine, one recording the committed messages, one
    handing them to the service. *)
Definition simulates (s : Service) (r : list WebsocketFrame)
    (o1 : option (websocket_parser * (option WebsocketFrame * list WebsocketFrame)))
    (o2 : option (websocket_parser * (option WebsocketFrame * option Service))) : Prop :=
  forall p cur r', o1 = Some (p, (cur, r')) ->
  exists new, r' = r ++ new /\ (Forall data_op new -> o2 = Some (p, (cur, Some (deliver_all new s)))).

Lemma simulates_same s r p cur : simulates s r (Some (p, (cur, r))) (Some (p, (cur, Some s))).
Proof. intros p' cur' r' [= -> -> ->]. exists []. by rewrite app_nil_r. Qed.

Lemma end_frame_sim s r p cur :
  has_handler_ s = true ->
  simulates s r (end_frame record_commit p (cur, r)) (end_frame CommitFrameMessage p (cur, Some s)).
Proof.
  intros Hh. unfold end_frame, OnFrameFinish. simpl. destruct (has (p_flags p) WS_FIN); [|apply simulates_same].
  destruct cur as [f|]; [|by intros ???]. simpl. intros p' cur' r' [= <- <- <-]. exists [f]. split; [done|].
  intros Hf%Forall_cons_1. destruct Hf as [Hf _]. destruct (opcode_ f =? WS_OP_CLOSE) eqn:E1; [apply Z.eqb_eq in E1; by destruct Hf|].
  destruct (opcode_ f =? WS_OP_PING) eqn:E2; [apply Z.eqb_eq in E2; by destruct Hf|]. simpl. by rewrite Hh.
Qed.

Lemma enter_body_sim s r p cur :
  has_handler_ s = true ->
  simulates s r (enter_body record_commit p (cur, r)) (enter_body CommitFrameMessage p (cur, Some s)).
Proof.
  intros Hh. unfold enter_body. cbn [fst snd]. destruct (p_length p =? 0); [by apply end_frame_sim|].
  destruct (2 ^ 63 <=? p_length p); [by intros ???|]. apply simulates_same.
Qed.

Lemma enter_mask_sim s r p cur :
  has_handler_ s = true ->
  simulates s r (enter_mask record_commit p (cur, r)) (enter_mask CommitFrameMessage p (cur, Some s)).
Proof.
  intros Hh. unfold enter_mask. destruct (has _ _); [apply simulates_same | by apply enter_body_sim].
Qed.

Lemma feed1_sim s r p cur b :
  has_handler_ s = true ->
  simulates s r (feed1 record_commit (p, (cur, r)) b) (feed1 CommitFrameMessage (p, (cur, Some s)) b).
Proof.
  intros Hh. unfold feed1. destruct (p_state p).
  - apply simulates_same.
  - destruct (_ =? 127); [apply simulates_same|]. destruct (_ =? 126); [apply simulates_same | by apply enter_mask_sim].
  - destruct (_ =? 0); [by apply enter_mask_sim | apply simulates_same].
  - destruct (_ =? 0); [by apply enter_body_sim | apply simulates_same].
  - unfold body_byte. cbn [fst snd]. destruct cur as [f|]; [|by intros ???]. simpl.
    destruct (has (p_flags p) WS_HAS_MASK); simpl; (destruct (_ =? 0); [by apply end_frame_sim | apply simulates_same]).
Qed.

Lemma feed_sim bs s r p cur :
  has_handler_ s = true ->
  simulates s r (feed record_commit (p, (cur, r)) bs) (feed CommitFrameMessage (p, (cur, Some s)) bs).
Proof.
  revert s r p cur. induction bs as [|b bs IH]; intros s r p cur Hh; [apply simulates_same|].
  rewrite !feed_cons. intros p' cur' r' Hf.
  destruct (feed1 record_commit (p, (cur, r)) b) as [[p1 [cur1 r1]]|] eqn:E; [|done]. simpl in Hf.
  destruct (feed1_sim s r p cur b Hh _ _ _ E) as (new1 & -> & H1).
  assert (Hh1 : has_handler_ (deliver_all new1 s) = true) by (by destruct (deliver_all_facts new1 s) as (_ & _ & ->)).
  destruct (IH _ _ _ _ Hh1 _ _ _ Hf) as (new2 & -> & H2).
  exists (new1 ++ new2). split; [by rewrite app_assoc|]. intros [Ha Hb]%Forall_app. rewrite H1 by done. simpl.
  rewrite H2 by done. unfold deliver_all. by rewrite foldl_app.
Qed.

(** The messages of a stream of frames. *)
Definition messages (ws : list wire_frame) : list WebsocketFrame := snd (foldl (deliver record_commit) (None, []) ws).
Definition data_frame (w : wire_frame) : Prop := w_op w <> WS_OP_CLOSE /\ w_op w <> WS_OP_PING.

Lemma begin_frame_data w cur :
  wire_ok w -> data_frame w -> (forall f, cur = Some f -> data_op f) -> data_op (begin_frame (w_op w) cur).
Proof.
  intros (Hop & _) [H1 H2] Hcur. unfold begin_frame. change WS_OP_MASK with (Z.ones 4). rewrite Z.land_ones by lia.
  rewrite Z.mod_small by (change (2 ^ 4) with 16; lia).
  assert (Hd : data_op (default NewFrame cur)) by (destruct cur; [by apply Hcur | done]).
  destruct (negb _); [|done]. by split.
Qed.

Lemma messages_data ws cur r :
  Forall wire_ok ws -> Forall data_frame ws -> (forall f, cur = Some f -> data_op f) -> Forall data_op r ->
  Forall data_op (snd (foldl (deliver record_commit) (cur, r) ws)).
Proof.
  intros Hok. revert cur r. induction Hok as [|w ws Hw Hok IH]; intros cur r Hd Hcur Hr; [done|].
  apply Forall_cons_1 in Hd as [Hdw Hd]. pose proof (begin_frame_data w cur Hw Hdw Hcur) as Hb. simpl.
  unfold deliver at 2. cbn [fst snd]. unfold record_commit. destruct (w_fin w); apply IH; try done.
  - apply Forall_app; split; [done | by constructor].
  - by intros f [= <-].
Qed.

(** A chunk arrives: [HandleRead] appends it to the input buffer and [HandleEvent]
    hands the buffer to the codec. *)
Definition receive (s : WSCodecService) (ch : Z * list Z) : option WSCodecService :=
  let '(addr, data) := ch in
  b ← WriteRawData data (in_ (channel_ (base_ s)));
  OnFrameData addr (with_base (with_in b (base_ s)) s).
Definition receive_all (chunks : list (Z * list Z)) (s : WSCodecService) : option WSCodecService :=
  foldl (fun o ch => s ← o; receive s ch) (Some s) chunks.

(** The service between two chunks: nothing left to read, the parser well-formed. *)
Definition idle (s : WSCodecService) : Prop :=
  has_handler_ (base_ s) = true /\
  (exists d, in_ (channel_ (base_ s)) = mkIOBuffer 0 0 d /\ zlen d <= max_vector_size) /\
  wf (core (parser_ s), (current_ s, tt)).

Lemma wf_user {R1 R2} p cur (r1 : R1) (r2 : R2) : wf (p, (cur, r1)) -> wf (p, (cur, r2)).
Proof. done. Qed.

Lemma consume_all b : inv b -> Consume (CanReadSize b) b = mkIOBuffer 0 0 (data_ b).
Proof.
  intros Hi. pose proof (CanReadSize_eq b Hi) as Hc. unfold Consume. rewrite Hc, Z.min_id.
  destruct Hi as [H1 H2]. unfold max_vector_size in H2. rewrite u64_id by lia.
  by destruct (Z.eqb_spec (read_index_ b + (write_index_ b - read_index_ b)) (write_index_ b)); [|lia].
Qed.

Lemma store_read_ok b data :
  inv b -> zlen data = zlen (contents b) ->
  exists d, store_read data b = Some (mkIOBuffer (read_index_ b) (write_index_ b) d) /\ zlen d = zlen (data_ b).
Proof.
  intros Hi Hl. rewrite <- CanReadSize_contents, CanReadSize_eq in Hl by done. destruct Hi as [H1 H2].
  unfold store_read. rewrite vec_store_Some by lia. simpl. eexists. split; [done|].
  rewrite !length_app, !Nat2Z.inj_add, zlen_ztake, zlen_zdrop by lia. lia.
Qed.

Lemma receive_idle s addr data r p' cur' new :
  idle s -> chunk_ok (addr, data) -> zlen data <= max_vector_size ->
  feed record_commit (core (parser_ s), (current_ s, r)) data = Some (p', (cur', r ++ new)) -> Forall data_op new ->
  exists s', receive s (addr, data) = Some s' /\ idle s' /\ core (parser_ s') = p' /\ current_ s' = cur' /\
    notices (base_ s') = notices (base_ s) ++ (Message <$> new) /\ hs_state s' = hs_state s.
Proof.
  intros (Hh & (d & Hin & Hd) & Hwf) (Ha & Hb & Hok) Hlen Hf Hnew. unfold receive. cbn [fst snd] in *.
  assert (Hi0 : inv (in_ (channel_ (base_ s)))) by (rewrite Hin; unfold inv; simpl; lia).
  assert (Hroom : zlen data <= room (in_ (channel_ (base_ s)))) by (rewrite Hin; unfold room; simpl; lia).
  destruct (WriteRawData_ok _ data Hi0 Hroom) as (b & Hw & Hib & Hcb & _). rewrite Hw. simpl mbind.
  assert (Hc0 : contents b = data) by (rewrite Hcb, Hin; done). clear Hcb.
  unfold OnFrameData. cbn [base_ with_base channel_ with_in with_channel in_ parser_ current_]. rewrite Hc0.
  set (base := with_in b (base_ s)).
  destruct (feed_sim data base r (core (parser_ s)) (current_ s) Hh _ _ _ Hf) as (new' & Hnew' & Hsim).
  apply app_inv_head in Hnew' as <-. specialize (Hsim Hnew).
  assert (Hwf2 : wf (core (parser_ s), (current_ s, Some base))) by (by eapply wf_user).
  destruct (exec_loop_feed CommitFrameMessage addr (zlen data) (p', (cur', Some (deliver_all new base))) (2 * length data + 2) (mkCfg 0 0 (parser_ s) data (current_ s, Some base)))
    as (c' & Hc' & Hst & Hlc); simpl; rewrite ?slice_all; try done; try lia.
  unfold websocket_parser_execute. rewrite Hc'. injection Hst as Hp Hu. rewrite Hu. simpl mbind.
  destruct (deliver_all_facts new base) as (Hn & Hch & Hhh). rewrite Hch. cbn [base channel_ with_in with_channel in_].
  destruct (store_read_ok b (c_data c') Hib ltac:(rewrite Hc0; lia)) as (d' & -> & Hd'). simpl mbind.
  set (buf := mkIOBuffer (read_index_ b) (write_index_ b) d').
  assert (Hbuf : inv buf) by (destruct Hib; unfold inv, buf; simpl; lia).
  assert (Hcan : CanReadSize buf = zlen data) by (change (CanReadSize b = zlen data); by rewrite CanReadSize_contents, Hc0).
  rewrite Hcan, Z.eqb_refl. cbn [negb]. rewrite <- Hcan, consume_all by done.
  eexists. split; [done|]. split_and!; try done.
  - split_and!; [by simpl; rewrite Hhh | exists d'; split; [done|] | ].
    + destruct Hib. lia.
    + change (wf (core (c_parser c'), (cur', tt))). rewrite Hp. pose proof (feed_wf record_commit data _ _ Hok (wf_user _ _ tt r Hwf) Hf) as Hw'. exact Hw'.
Qed.

Lemma receive_all_idle chunks s r p' cur' new :
  idle s -> Forall chunk_ok chunks -> Forall (fun ch => zlen (snd ch) <= max_vector_size) chunks ->
  feed record_commit (core (parser_ s), (current_ s, r)) (concat (chunks.*2)) = Some (p', (cur', r ++ new)) ->
  Forall data_op new ->
  exists s', receive_all chunks s = Some s' /\ idle s' /\ core (parser_ s') = p' /\ current_ s' = cur' /\
    notices (base_ s') = notices (base_ s) ++ (Message <$> new) /\ hs_state s' = hs_state s.
Proof.
  revert s r new. induction chunks as [|[addr data] chunks IH]; intros s r new Hs Hok Hlen Hf Hnew.
  - simpl in Hf. injection Hf as <- <- Hr. assert (new = []) as -> by (apply (app_inv_head r); by rewrite app_nil_r).
    exists s. by rewrite app_nil_r.
  - apply Forall_cons_1 in Hok as [Hc Hok]. apply Forall_cons_1 in Hlen as [Hl Hlen].
    rewrite fmap_cons, concat_cons, feed_app in Hf. cbn [snd] in Hf.
    destruct (feed record_commit (core (parser_ s), (current_ s, r)) data) as [[p1 [cur1 r1]]|] eqn:E; [|done]. simpl in Hf.
    destruct (feed_sim data (base_ s) r (core (parser_ s)) (current_ s) (proj1 Hs) _ _ _ E) as (new1 & -> & _).
    destruct (feed_sim (concat chunks.*2) (base_ s) (r ++ new1) p1 cur1 (proj1 Hs) _ _ _ Hf) as (new2 & Hn2 & _).
    rewrite <- app_assoc in Hn2. apply app_inv_head in Hn2 as ->. apply Forall_app in Hnew as [Hn1 Hn2].
    destruct (receive_idle s addr data r p1 cur1 new1 Hs Hc Hl E Hn1) as (s1 & Hr1 & Hs1 & Hp1 & Hc1 & Hno1 & Hh1).
    destruct (IH s1 (r ++ new1) new2 Hs1 Hok Hlen) as (s' & Hr' & ? & ? & ? & Hno' & Hh'); [|done|].
    { by rewrite Hp1, Hc1, <- app_assoc. }
    exists s'. unfold receive_all in *. cbn [foldl mbind option_bind]. rewrite Hr1. split_and!; try done; [|congruence].
    by rewrite Hno', Hno1, fmap_app, app_assoc.
Qed.

(** On an established connection the frames reach the handler as what the callbacks make
    of them. *)
Lemma frames_deliver ws chunks b d :
  has_handler_ b = true -> in_ (channel_ b) = mkIOBuffer 0 0 d -> zlen d <= max_vector_size ->
  Forall wire_ok ws -> Forall data_frame ws ->
  Forall chunk_ok chunks -> Forall (fun ch => zlen (snd ch) <= max_vector_size) chunks ->
  concat (chunks.*2) = concat (encode_wire <$> ws) ->
  exists s', receive_all chunks (with_hs HS_SUCCEESS (WSCodecService_new b)) = Some s' /\
    notices (base_ s') = notices b ++ (Message <$> messages ws) /\ contents (in_ (channel_ (base_ s'))) = [].
Proof.
  intros Hh Hin Hd Hws Hdf Hch Hlen Hc. set (s := with_hs HS_SUCCEESS (WSCodecService_new b)).
  assert (Hwf : wf (websocket_parser_init, (@None WebsocketFrame, @nil WebsocketFrame))) by (simpl; split_and!; done || lia).
  destruct (feed_frames record_commit ws websocket_parser_init (None, []) Hws Hwf eq_refl encode_wire_ok) as (p1 & _ & Hf).
  rewrite <- Hc in Hf. unfold messages. pose proof (messages_data ws None [] Hws Hdf ltac:(done) ltac:(done)) as Hdata.
  destruct (foldl (deliver record_commit) (None, []) ws) as [cur' new]. cbn [snd] in *.
  destruct (receive_all_idle chunks s [] p1 cur' new) as (s' & Hr & (_ & (d' & Hi' & _) & _) & _ & _ & Hn & _); try done.
  { split_and!; [done | by exists d | exact Hwf]. }
  exists s'. rewrite Hi'. by split_and!.
Qed.

(** ** Messages *)

(** A message as its sender cuts it: an opcode, and the pieces of the payload with the
    masking of the frame that carries each. *)
Record piece := mkPiece { pc_masked : bool; pc_mask : list Z; pc_data : list Z }.
Record sent_message := mkSent { sm_op : Z; sm_pieces : list piece }.

(** Its frames: the first carries the opcode, the others are continuations, the last is
    final. *)
Fixpoint frames_from (op : Z) (ps : list piece) : list wire_frame :=
  match ps with
  | [] => []
  | p :: ps' =>
      mkWire op (match ps' with [] => true | _ => false end) (pc_masked p) (pc_mask p) (pc_data p) ::
      frames_from WS_OP_CONTINUE ps'
  end.
Definition frames_of (m : sent_message) : list wire_frame := frames_from (sm_op m) (sm_pieces m).
Definition whole (m : sent_message) : WebsocketFrame := mkFrame (sm_op m) (concat (pc_data <$> sm_pieces m)).

Definition piece_ok (p : piece) : Prop :=
  length (pc_mask p) = 4%nat /\ bytes_ok (pc_mask p) /\ bytes_ok (pc_data p) /\ zlen (pc_data p) < 2 ^ 63.
(** Neither a close nor a ping, which the service answers. *)
Definition message_ok (m : sent_message) : Prop :=
  0 < sm_op m < 16 /\ sm_op m <> WS_OP_CLOSE /\ sm_op m <> WS_OP_PING /\ sm_pieces m <> [] /\ Forall piece_ok (sm_pieces m).

Lemma frames_from_ok op ps : 0 <= op < 16 -> op <> WS_OP_CLOSE -> op <> WS_OP_PING -> Forall piece_ok ps ->
  Forall wire_ok (frames_from op ps) /\ Forall data_frame (frames_from op ps).
Proof.
  intros H1 H2 H3 Hp. revert op H1 H2 H3. induction Hp as [|p ps (P1 & P2 & P3 & P4) Hp IH]; intros op H1 H2 H3; [done|].
  destruct (IH WS_OP_CONTINUE) as [I1 I2]; [unfold WS_OP_CONTINUE; lia|done..|].
  split; constructor; [|done| |done]; unfold wire_ok, data_frame; cbn; auto.
Qed.

Lemma frames_from_cons op p p' ps :
  frames_from op (p :: p' :: ps) = mkWire op false (pc_masked p) (pc_mask p) (pc_data p) :: frames_from WS_OP_CONTINUE (p' :: ps).
Proof. done. Qed.

Lemma deliver_pieces ps f r : ps <> [] ->
  foldl (deliver record_commit) (Some f, r) (frames_from WS_OP_CONTINUE ps) = (None, r ++ [AppendData (concat (pc_data <$> ps)) f]).
Proof.
  revert f. induction ps as [|p [|p' ps] IH]; intros f Hne; [done| |].
  - unfold deliver; cbn. by rewrite app_nil_r.
  - rewrite frames_from_cons. cbn [foldl]. unfold deliver at 2; cbn [w_fin w_data w_op fst snd]. rewrite IH by done.
    unfold AppendData; cbn. by rewrite <- app_assoc.
Qed.

Lemma deliver_message m r : message_ok m -> foldl (deliver record_commit) (None, r) (frames_of m) = (None, r ++ [whole m]).
Proof.
  destruct m as [op ps]; intros (Hop & _ & _ & Hne & _); unfold frames_of, whole; cbn in *.
  assert (Hb : begin_frame op None = mkFrame op []).
  { unfold begin_frame. pose proof (frame_flags_bits op false false) as (H & _ & _); [lia|].
    unfold frame_flags in H. rewrite !Z.lor_0_r in H. rewrite H.
    destruct (Z.eqb_spec op WS_OP_CONTINUE) as [E|]; [unfold WS_OP_CONTINUE in E; lia | done]. }
  destruct ps as [|p [|p' ps]]; [done| |].
  - unfold deliver; cbn [frames_from foldl w_fin w_data w_op fst snd]. rewrite Hb. cbn. by rewrite app_nil_r.
  - rewrite frames_from_cons. cbn [foldl]. unfold deliver at 2; cbn [w_fin w_data w_op fst snd]. by rewrite Hb, deliver_pieces.
Qed.

Lemma deliver_messages ms r : Forall message_ok ms ->
  foldl (deliver record_commit) (None, r) (ms ≫= frames_of) = (None, r ++ (whole <$> ms)).
Proof.
  intros H. revert r. induction H as [|m ms Hm H IH]; intros r; [cbn; by rewrite app_nil_r|].
  rewrite bind_cons, foldl_app, deliver_message, IH, fmap_cons, <- app_assoc by done. done.
Qed.

(** C4.  End to end: on an established connection the data messages of the peer -- each
    whole or in fragments, masked or not, in any of the three length encodings, one
    after the other -- reach the handler as exactly these messages, in order, each with
    its opcode and its whole payload, wherever the network cuts the bytes; nothing is
    left in the input buffer.  Close and ping frames, and frames between the fragments
    of a message, are not among them. *)
Theorem messages_roundtrip ms chunks b d :
  has_handler_ b = true -> in_ (channel_ b) = mkIOBuffer 0 0 d -> zlen d <= max_vector_size ->
  Forall message_ok ms -> Forall chunk_ok chunks -> Forall (fun ch => zlen (snd ch) <= max_vector_size) chunks ->
  concat (chunks.*2) = concat (encode_wire <$> (ms ≫= frames_of)) ->
  exists s', receive_all chunks (with_hs HS_SUCCEESS (WSCodecService_new b)) = Some s' /\
    notices (base_ s') = notices b ++ (Message <$> (whole <$> ms)) /\ contents (in_ (channel_ (base_ s'))) = [].
Proof.
  intros Hh Hin Hd Hms Hch Hlen Hc.
  assert (Forall wire_ok (ms ≫= frames_of) /\ Forall data_frame (ms ≫= frames_of)) as [Hw Hdf].
  { clear Hc. induction Hms as [|m ms (H1 & H2 & H3 & _ & H5) _ [IH1 IH2]]; [done|].
    rewrite bind_cons, !Forall_app. destruct (frames_from_ok (sm_op m) (sm_pieces m)) as [? ?]; [lia|done..|]. by split; split. }
  destruct (frames_deliver (ms ≫= frames_of) chunks b d Hh Hin Hd Hw Hdf Hch Hlen Hc) as (s' & Hr & Hn & Hi).
  exists s'. unfold messages in Hn. rewrite deliver_messages in Hn by done. by split_and!.
Qed.

Lemma messages_roundtrip_witness :
  exists s', receive_all [(4096, [0x01; 0x81; 1; 2; 3]); (64, [4; 0x40; 0x80]); (8192, [0x01; 0x42; 0x82]); (64, [0x01; 7])]
      (with_hs HS_SUCCEESS (WSCodecService_new (new_service true false (mkSocket 0 [] [] [])))) = Some s' /\
    notices (base_ s') = [Message (mkFrame WS_OP_TEXT [0x41; 0x42]); Message (mkFrame WS_OP_BINARY [7])] /\
    contents (in_ (channel_ (base_ s'))) = [].
Proof.
  apply (messages_roundtrip
    [mkSent WS_OP_TEXT [mkPiece true [1; 2; 3; 4] [0x41]; mkPiece false [0; 0; 0; 0] [0x42]]; mkSent WS_OP_BINARY [mkPiece false [0; 0; 0; 0] [7]]]
    [(4096, [0x01; 0x81; 1; 2; 3]); (64, [4; 0x40; 0x80]); (8192, [0x01; 0x42; 0x82]); (64, [0x01; 7])]
    (new_service true false (mkSocket 0 [] [] [])) (replicate 512 0)).
  - reflexivity.
  - reflexivity.
  - vm_compute. discriminate.
  - repeat (constructor; unfold message_ok, piece_ok, WS_OP_TEXT, WS_OP_BINARY; cbn); solve_bytes.
  - solve_bytes.
  - repeat constructor; vm_compute; discriminate.
  - reflexivity.
Defined.

(** ** Control frames *)

(** A close frame is answered with a close frame of status 1000; the service
    is closed and deregistered, the delegate is told exactly once and last, and
    the handler gets nothing. *)
Theorem close_frame_answered f s :
  inv (out_ (channel_ s)) -> 4 <= room (out_ (channel_ s)) -> opcode_ f = WS_OP_CLOSE ->
  has_delegate_ s = true -> schedule_close_ s = false -> as_fdev_handler_ s = true ->
  exists s', CommitFrameMessage f (Some s) = (Some f, Some s') /\ status_ s' = CLOSED /\
    watcher_ (fdev_ (channel_ s')) = None /\ notices s' = notices s ++ [Codec.Closed] /\
    sent (sock (channel_ s')) ++ contents (out_ (channel_ s')) =
      sent (sock (channel_ s)) ++ contents (out_ (channel_ s)) ++ [0x88; 2; 0x03; 0xE8].
Proof.
  intros Hi Hr Hf Hd Hsc Has. unfold CommitFrameMessage. rewrite Hf. change (WS_OP_CLOSE =? WS_OP_CLOSE) with true. cbv iota.
  unfold SendResponse. change (2 ^ 31 - 14 <=? zlen (payload_ kclose_msg)) with false. cbv iota.
  change (CalculateFrameSize (zlen (payload_ kclose_msg)) false) with 4.
  change (BuildServerFrame (payload_ kclose_msg) (opcode_ kclose_msg)) with [0x88; 2; 0x03; 0xE8].
  destruct (EnsureWritableSize_ok (out_ (channel_ s)) 4 Hi ltac:(lia)) as (b1 & -> & Hi1 & Hc1 & Hw1 & _). cbn [mbind option_bind].
  destruct (StoreProduce_ok b1 [0x88; 2; 0x03; 0xE8] Hi1 Hw1) as (b2 & -> & Hi2 & Hc2 & _). cbn [mbind option_bind].
  unfold TryFlushChannel. cbn [channel_ with_out with_channel].
  destruct (HandleWrite_ok (mkChannel (fdev_ (channel_ s)) (in_ (channel_ s)) (Produce (zlen [0x88; 2; 0x03; 0xE8]) b2) (sock (channel_ s))) Hi2)
    as (rv & ch & n & -> & [_ _ _ Hst _ _ _] & _). cbn [sock out_] in Hst. rewrite Hc2, Hc1, app_nil_r in Hst.
  cbn [on_channel mbind option_bind]. unfold OnDataFinishSend. cbn [schedule_close_ with_channel with_out]. rewrite Hsc. cbn [negb].
  assert (Hif : forall (c : bool) (x : Service), (if c then x else x) = x) by (by intros []).
  rewrite Hif. unfold CloseService. cbn [as_fdev_handler_ with_channel with_out snd]. rewrite Has. simpl. rewrite Hd. simpl.
  eexists. by split_and!.
Qed.

Lemma close_frame_answered_witness :
  exists s', CommitFrameMessage (mkFrame WS_OP_CLOSE []) (Some (new_service true false (mkSocket 0 [] [WAccept 3] []))) =
      (Some (mkFrame WS_OP_CLOSE []), Some s') /\ status_ s' = CLOSED /\ notices s' = [Codec.Closed] /\
    sent (sock (channel_ s')) ++ contents (out_ (channel_ s')) = [0x88; 2; 0x03; 0xE8].
Proof.
  destruct (close_frame_answered (mkFrame WS_OP_CLOSE []) (new_service true false (mkSocket 0 [] [WAccept 3] []))) as (s' & H1 & H2 & _ & H4 & H5).
  - apply inv_new.
  - vm_compute. discriminate.
  - reflexivity.
  - reflexivity.
  - reflexivity.
  - reflexivity.
  - exists s'. split_and!; [exact H1 | exact H2 | exact H4 | exact H5].
Defined.

(** A control frame between the fragments of a message is not kept apart from
    it: the ping takes over the message under assembly, is committed with the
    first fragment in its payload, and the continuation is committed as a message
    of its own. *)
Theorem interleaved_ping_splits_message :
  messages [mkWire WS_OP_TEXT false false [0; 0; 0; 0] (str "Hel"); mkWire WS_OP_PING true false [0; 0; 0; 0] (str "!");
            mkWire WS_OP_CONTINUE true false [0; 0; 0; 0] (str "lo")] =
  [mkFrame WS_OP_PING (str "Hel!"); mkFrame WS_OP_TEXT (str "lo")].
Proof. reflexivity. Qed.

(** The upgrade request of RFC 6455, and its digest. *)
Definition upgrade_events : list http_ev :=
  message_events [str "/chat"]
    [([str "Upgrade"], [str "websocket"]); ([str "Connection"], [str "Upgrade"]);
     ([str "Sec-WebSocket-Key"], [str "dGhlIHNhbXBsZSBub25jZQ=="])] [] (mkFields 1 1 true (str "GET") 0).
Definition rfc_digest (_ : list Z) : list Z :=
  [0xb3; 0x7a; 0x4f; 0x2c; 0xc0; 0x62; 0x4f; 0x16; 0x90; 0xf6; 0x46; 0x06; 0xcf; 0x38; 0x59; 0x45; 0xb2; 0xbe; 0xc4; 0xea].
Definition run_handshake (err : Z) : option WSCodecService :=
  OnHandshakeReqData rfc_digest (fun _ => None) (fun _ => None) (fun u => u) (mkRun upgrade_events err)
    (WSCodecService_new (new_service true false (mkSocket 0 [] [WAccept 1000; WAccept 1000] []))).

(** The server's side of the handshake: when llhttp reports success, the
    accept key of RFC 6455 is sent and the service becomes ready; but llhttp
    reports [HPE_PAUSED_UPGRADE] after a request that asks for an upgrade, which
    the service takes for a parse error: the peer gets the 101 response, then a
    400, and the connection is closed. *)
Theorem paused_upgrade_fails_handshake :
  (exists s, run_handshake HPE_OK = Some s /\ notices (base_ s) = [Ready] /\ hs_state s = HS_SUCCEESS /\
     sent (sock (channel_ (base_ s))) = upgrade_response (str "s3pPLMBiTxaQ9kYGzzhZRbK+xOo=")) /\
  (exists s, run_handshake HPE_PAUSED_UPGRADE = Some s /\ notices (base_ s) = [Codec.Closed] /\ status_ (base_ s) = CLOSED /\
     sent (sock (channel_ (base_ s))) = upgrade_response (str "s3pPLMBiTxaQ9kYGzzhZRbK+xOo=") ++ kBadRequest).
Proof. split; apply returns; vm_compute; split_and!; reflexivity. Qed.

End WebSocketCodec.
