(* ===== verification/Maglev.v ===== *)
(** * Maglev consistent hashing (net_io/base/load_balance/maglev2.{h,cc})

    [GenerateHashRing] fills a ring of prime size: every endpoint walks its own
    permutation of the slots, and takes a turn each time its accumulated weight
    reaches the largest weight.  MurmurHash3 is a parameter.  The vectors the code
    indexes by endpoint ([permutation], [next], [cum_weight]) are kept together,
    one record per endpoint. *)
From stdpp Require Import sets.
From S2P Require Import Prelude.
From Stdlib Require Import Znumtheory.

Module Maglev.

Record Endpoint := mkEndpoint { num : Z; weight : Z; hash : Z }.
Abbreviation LookupTable := (list Z).

(** What the loops know about endpoint [i]. *)
Record lane := mkLane {
  l_ep : Endpoint;
  l_offset : Z;      (* permutation[2 * i] *)
  l_skip : Z;        (* permutation[2 * i + 1] *)
  l_next : Z;        (* next[i] *)
  l_cum : Z;         (* cum_weight[i] *)
}.

Section Ring.
(** The two words [MurmurHash3_x64_128] makes of an endpoint's hash. *)
Variable murmur128 : Z -> Z * Z.
Variable ring_size : Z.

Definition GenMaglevPermutation (ep : Endpoint) : lane :=
  let '(h0, h1) := murmur128 (hash ep) in
  mkLane ep (u32 (h0 mod ring_size)) (u32 (h1 mod (ring_size - 1) + 1)) 0 0.

(** [(offset + next[i] * skip) % ring_size], in 32-bit arithmetic. *)
Definition cur (l : lane) (next : Z) : Z := u32 (l_offset l + u32 (next * l_skip l)) mod ring_size.

Definition slot (result : LookupTable) (c : Z) : Z := nth (Z.to_nat c) result (-1).

(** The [while] loop: the first [next] whose slot is free. *)
Fixpoint probe (fuel : nat) (result : LookupTable) (l : lane) (next : Z) : option Z :=
  match fuel with
  | O => None
  | S fuel' => if 0 <=? slot result (cur l next) then probe fuel' result l (u32 (next + 1)) else Some next
  end.

Inductive progress := Returned (result : LookupTable) | Running (ls : list lane) (result : LookupTable) (runs : Z).

(** One endpoint's step in a pass; the flag says whether the ring is full. *)
Definition turn (fuel : nat) (max_weight : Z) (l : lane) (result : LookupTable) (runs : Z)
    : option (bool * lane * LookupTable * Z) :=
  let cum := u32 (l_cum l + weight (l_ep l)) in
  if max_weight <=? cum then
    next ← probe fuel result l (l_next l);
    let result := <[Z.to_nat (cur l next) := i32 (num (l_ep l))]> result in
    let runs := u32 (runs + 1) in
    Some (runs =? ring_size, mkLane (l_ep l) (l_offset l) (l_skip l) (u32 (next + 1)) (u32 (cum - max_weight)), result, runs)
  else Some (false, mkLane (l_ep l) (l_offset l) (l_skip l) (l_next l) cum, result, runs).

(** The inner [for] loop over the endpoints. *)
Fixpoint pass (fuel : nat) (max_weight : Z) (todo done_ : list lane) (result : LookupTable) (runs : Z) : option progress :=
  match todo with
  | [] => Some (Running done_ result runs)
  | l :: todo' =>
      r ← turn fuel max_weight l result runs;
      let '(full, l, result, runs) := r in
      if full : bool then Some (Returned result) else pass fuel max_weight todo' (done_ ++ [l]) result runs
  end.

Fixpoint passes (n fuel : nat) (max_weight : Z) (ls : list lane) (result : LookupTable) (runs : Z) : option LookupTable :=
  match n with
  | O => None
  | S n' =>
      r ← pass fuel max_weight ls [] result runs;
      match r with
      | Returned result => Some result
      | Running ls result runs => passes n' fuel max_weight ls result runs
      end
  end.

Definition max_weight_of (eps : list Endpoint) : Z := foldl (fun m e => if m <? weight e then weight e else m) 0 eps.

(** A pass fills a slot and a probe visits each slot once, so [ring_size] of each
    is enough. *)
Definition GenerateHashRing (endpoints : list Endpoint) : option LookupTable :=
  match endpoints with
  | [] => Some (replicate (Z.to_nat ring_size) (-1))
  | [e] => Some (replicate (Z.to_nat ring_size) (i32 (num e)))
  | _ =>
      let fuel := Z.to_nat ring_size in
      passes fuel fuel (max_weight_of endpoints) (map GenMaglevPermutation endpoints) (replicate (Z.to_nat ring_size) (-1)) 0
  end.

(** ** Termination and totality *)

Hypothesis Hprime : Z.prime ring_size.
Hypothesis Hsize : ring_size < 2 ^ 32.

(** A lane whose walk stays below [2^32], so that no product wraps. *)
Definition lane_ok (l : lane) : Prop :=
  0 <= l_offset l /\ 0 < l_skip l < ring_size /\ l_offset l + (ring_size - 1) * l_skip l < 2 ^ 32 /\
  0 <= num (l_ep l) < 2 ^ 31.

Lemma cur_eq l k : lane_ok l -> 0 <= k < ring_size -> cur l k = (l_offset l + k * l_skip l) mod ring_size.
Proof.
  intros (H1 & H2 & H3 & _) Hk. unfold cur.
  assert (0 <= k * l_skip l <= (ring_size - 1) * l_skip l) by nia.
  rewrite (u32_id (k * l_skip l)) by lia. rewrite u32_id by lia. done.
Qed.

(** The walk visits every slot: [skip] is invertible modulo the prime. *)
Lemma walk_surjective l t : lane_ok l -> 0 <= t < ring_size -> exists k, 0 <= k < ring_size /\ cur l k = t.
Proof.
  intros Hl Ht. pose proof Hl as (H1 & H2 & _). pose proof (Z.prime_ge_2 _ Hprime) as Hp.
  destruct (Z.Bezout_coprime ring_size (l_skip l)) as (v & u & Huv); [apply Z.coprime_prime_small; [done | lia]|].
  exists (((t - l_offset l) * u) mod ring_size). split; [apply Z.mod_pos_bound; lia|].
  rewrite cur_eq by (done || (apply Z.mod_pos_bound; lia)).
  rewrite <- Zplus_mod_idemp_r, Zmult_mod_idemp_l, Zplus_mod_idemp_r.
  replace (l_offset l + (t - l_offset l) * u * l_skip l) with (t + (- (t - l_offset l) * v) * ring_size) by nia.
  rewrite Z_mod_plus_full. by apply Z.mod_small.
Qed.

Definition free (result : LookupTable) (t : Z) : Prop := 0 <= t < ring_size /\ slot result t < 0.

(** A probe that starts after slots already taken finds a free slot. *)
Lemma probe_finds fuel result l next k :
  lane_ok l -> 0 <= next <= k -> k < ring_size -> slot result (cur l k) < 0 ->
  (Z.to_nat (k - next) < fuel)%nat ->
  exists next', probe fuel result l next = Some next' /\ next <= next' <= k /\ slot result (cur l next') < 0 /\
    (forall j, next <= j < next' -> 0 <= slot result (cur l j)).
Proof.
  intros Hl. revert next. induction fuel as [|fuel IH]; intros next Hn Hk Hfree Hf; [lia|]. cbn [probe].
  destruct (Z.leb_spec 0 (slot result (cur l next))) as [Ht|Ht].
  - assert (next <> k) by (intros ->; lia). rewrite u32_id by lia.
    destruct (IH (next + 1)) as (n' & Hp & Hr & Hs & Hb); [lia..|]. exists n'. split_and!; try done; try lia.
    intros j Hj. destruct (decide (j = next)) as [->|]; [done | apply Hb; lia].
  - exists next. split_and!; try done; try lia.
Qed.

(** *** Filling a free slot *)

Definition taken (result : LookupTable) : Z := zlen (filter (fun x => 0 <= x) result).
Definition count (v : Z) (result : LookupTable) : Z := zlen (filter (fun x => x = v) result).

(** [result'] is [result] with [v] put in a free slot. *)
Definition fills (v : Z) (result result' : LookupTable) : Prop :=
  exists i x, result !! i = Some x /\ x < 0 /\ 0 <= v /\ result' = <[i := v]> result.

Lemma filter_insert (P : Z -> Prop) `{!forall x, Decision (P x)} i x v (l : list Z) :
  l !! i = Some x ->
  zlen (filter P (<[i := v]> l)) = zlen (filter P l) + (if decide (P v) then 1 else 0) - (if decide (P x) then 1 else 0).
Proof.
  revert i. induction l as [|y l IH]; intros [|i] Hi; simplify_eq/=.
  - rewrite !filter_cons. repeat case_decide; simpl; lia.
  - specialize (IH _ Hi). rewrite !filter_cons. repeat case_decide; simpl; lia.
Qed.

Lemma fills_taken v r r' : fills v r r' -> taken r' = taken r + 1 /\ length r' = length r.
Proof.
  intros (i & x & Hi & Hx & Hv & ->). unfold taken. rewrite (filter_insert _ i x) by done.
  rewrite length_insert, decide_True, decide_False by lia. split; [lia | done].
Qed.

Lemma fills_count v w r r' : fills v r r' -> 0 <= w -> count w r' = count w r + (if decide (v = w) then 1 else 0).
Proof.
  intros (i & x & Hi & Hx & Hv & ->) Hw. unfold count. rewrite (filter_insert _ i x) by done.
  rewrite (decide_False (P := x = w)) by lia. lia.
Qed.

Lemma slot_lookup r t : 0 <= t < zlen r -> r !! Z.to_nat t = Some (slot r t).
Proof. intros Ht. unfold slot. destruct (nth_lookup_or_length r (Z.to_nat t) (-1)); [done | lia]. Qed.

Lemma fills_keeps v r r' t : fills v r r' -> 0 <= t -> 0 <= slot r t -> slot r' t = slot r t.
Proof.
  intros (i & x & Hi & Hx & Hv & ->) Ht Hs. unfold slot in *. rewrite !nth_lookup in *.
  rewrite list_lookup_insert_ne; [done|]. intros ->. rewrite Hi in Hs. simpl in Hs. lia.
Qed.

Lemma free_slot r : taken r < zlen r -> exists t, 0 <= t < zlen r /\ slot r t < 0.
Proof.
  unfold taken. induction r as [|x r IH]; simpl; [lia|]. rewrite filter_cons. case_decide as Hx; simpl.
  - intros H. destruct IH as (t & Ht & Hs); [lia|]. exists (t + 1). split; [lia|].
    unfold slot. by replace (Z.to_nat (t + 1)) with (S (Z.to_nat t)) by lia.
  - intros _. exists 0. split; [lia|]. unfold slot. simpl. lia.
Qed.

(** *** The invariant of the loops *)

Definition lane_inv (mw : Z) (r : LookupTable) (l : lane) : Prop :=
  lane_ok l /\ 0 <= l_next l <= ring_size /\ (forall j, 0 <= j < l_next l -> 0 <= slot r (cur l j)) /\
  0 <= l_cum l <= mw /\ 0 <= weight (l_ep l) <= mw.

Lemma cur_range l j : 0 <= cur l j < ring_size.
Proof. apply Z.mod_pos_bound. pose proof (Z.prime_ge_2 _ Hprime). lia. Qed.

Lemma lane_inv_fills mw v r r' l : fills v r r' -> lane_inv mw r l -> lane_inv mw r' l.
Proof.
  intros Hf (H1 & H2 & H3 & H4). split_and!; try done; try apply H2; try apply H4.
  intros j Hj. pose proof (cur_range l j). rewrite (fills_keeps v r r') by (done || lia || auto). auto.
Qed.

Lemma turn_ok mw l r runs :
  zlen r = ring_size -> taken r = runs -> 0 <= runs < ring_size -> 0 <= mw < 2 ^ 31 -> lane_inv mw r l ->
  (weight (l_ep l) = mw ->
   exists l' r', turn (Z.to_nat ring_size) mw l r runs = Some (runs + 1 =? ring_size, l', r', runs + 1) /\
     fills (num (l_ep l)) r r' /\ lane_inv mw r' l' /\ l_ep l' = l_ep l) /\
  exists full l' r' runs', turn (Z.to_nat ring_size) mw l r runs = Some (full, l', r', runs') /\
    lane_inv mw r' l' /\ l_ep l' = l_ep l /\ full = (runs' =? ring_size) /\
    (r' = r /\ runs' = runs \/ fills (num (l_ep l)) r r' /\ runs' = runs + 1).
Proof.
  intros Hlen Htk Hruns Hmw Hl. pose proof Hl as (Hok & Hn & Hb & Hc & Hw). pose proof Hok as (_ & _ & _ & Hnum).
  unfold turn. rewrite (u32_id (l_cum l + weight (l_ep l))) by lia. rewrite (u32_id (runs + 1)) by lia.
  rewrite (i32_id (num (l_ep l))) by lia.
  assert (Hprobe : exists n', probe (Z.to_nat ring_size) r l (l_next l) = Some n' /\ l_next l <= n' < ring_size /\
    slot r (cur l n') < 0 /\ forall j, l_next l <= j < n' -> 0 <= slot r (cur l j)).
  { destruct (free_slot r ltac:(lia)) as (t & Ht & Hs). destruct (walk_surjective l t Hok ltac:(lia)) as (k & Hk & Hck).
    assert (l_next l <= k). { destruct (Z.le_gt_cases (l_next l) k); [done|]. specialize (Hb k ltac:(lia)). rewrite Hck in Hb. lia. }
    destruct (probe_finds (Z.to_nat ring_size) r l (l_next l) k Hok) as (n' & ? & ? & ? & ?); [lia | lia | by rewrite Hck | lia |].
    exists n'. split_and!; try done; lia. }
  destruct Hprobe as (n' & Hp & Hn' & Hfree & Hbetween). pose proof (cur_range l n') as Hcr.
  set (r' := <[Z.to_nat (cur l n') := num (l_ep l)]> r).
  assert (Hf : fills (num (l_ep l)) r r').
  { exists (Z.to_nat (cur l n')), (slot r (cur l n')). split_and!; try done; [apply slot_lookup; lia | lia]. }
  assert (Hnew : mw <= l_cum l + weight (l_ep l) ->
    lane_inv mw r' (mkLane (l_ep l) (l_offset l) (l_skip l) (u32 (n' + 1)) (u32 (l_cum l + weight (l_ep l) - mw)))).
  { intros Hge. rewrite !u32_id by lia. split_and!; simpl; try done; try lia. intros j Hj. change (cur _ j) with (cur l j).
    pose proof (cur_range l j). destruct (decide (j = n')) as [->|Hne].
    - unfold r', slot. rewrite nth_lookup, list_lookup_insert_eq by lia. simpl. lia.
    - assert (0 <= slot r (cur l j)) by (destruct (Z.lt_ge_cases j (l_next l)); [apply Hb | apply Hbetween]; lia).
      rewrite (fills_keeps _ _ _ _ Hf) by lia. done. }
  rewrite Hp. cbn [mbind option_bind]. fold r'. split.
  - intros <-. destruct (Z.leb_spec (weight (l_ep l)) (l_cum l + weight (l_ep l))); [|lia].
    eexists _, _. split_and!; [done | done | by apply Hnew | done].
  - destruct (Z.leb_spec mw (l_cum l + weight (l_ep l))) as [Hge|Hlt].
    + eexists _, _, _, _. split_and!; [done | by apply Hnew | done | done | by right].
    + eexists _, _, _, _. split_and!; [done | | done | | by left].
      * split_and!; simpl; try done; lia.
      * destruct (Z.eqb_spec runs ring_size); [lia | done].
Qed.

Definition ring_inv (mw : Z) (nums : list Z) (ls : list lane) (r : LookupTable) (runs : Z) : Prop :=
  zlen r = ring_size /\ taken r = runs /\ 0 <= runs < ring_size /\ Forall (lane_inv mw r) ls /\
  Forall (fun l => num (l_ep l) ∈ nums) ls /\ Forall (fun x => 0 <= x -> x ∈ nums) r.

Lemma fills_nums (nums : list Z) v r r' :
  fills v r r' -> v ∈ nums -> Forall (fun x => 0 <= x -> x ∈ nums) r -> Forall (fun x => 0 <= x -> x ∈ nums) r'.
Proof. intros (i & x & _ & _ & _ & ->) Hv Hr. by apply Forall_insert. Qed.

(** What a full ring is. *)
Definition full_ring (nums : list Z) (r : LookupTable) : Prop := zlen r = ring_size /\ Forall (fun x => x ∈ nums) r.

Lemma taken_all r : taken r = zlen r -> Forall (fun x => 0 <= x) r.
Proof.
  unfold taken. induction r as [|x r IH]; [done|]. rewrite filter_cons. pose proof (length_filter (fun x => 0 <= x) r).
  case_decide as Hx; simpl; intros Ht; [|lia]. constructor; [done | apply IH; lia].
Qed.

Lemma full_ring_intro (nums : list Z) r :
  zlen r = ring_size -> taken r = ring_size -> Forall (fun x => 0 <= x -> x ∈ nums) r -> full_ring nums r.
Proof.
  intros Hl Ht Hr. split; [done|]. assert (Hp : Forall (fun x => 0 <= x) r) by (apply taken_all; lia).
  rewrite !Forall_forall in *. auto.
Qed.

(** A pass returns a full ring, or fills at least one slot when it meets an
    endpoint of the largest weight. *)
Lemma pass_ok mw nums todo dn r runs :
  0 <= mw < 2 ^ 31 -> ring_inv mw nums (dn ++ todo) r runs ->
  exists p, pass (Z.to_nat ring_size) mw todo dn r runs = Some p /\
    match p with
    | Returned r' => full_ring nums r'
    | Running ls' r' runs' =>
        ring_inv mw nums ls' r' runs' /\ map l_ep ls' = map l_ep (dn ++ todo) /\ runs <= runs' /\
        (Exists (fun l => weight (l_ep l) = mw) todo -> runs < runs')
    end.
Proof.
  intros Hmw. revert dn r runs. induction todo as [|l todo IH]; intros dn r runs Hinv; cbn [pass].
  { eexists. split; [done|]. rewrite app_nil_r in *. split_and!; try done. intros H. by apply Exists_nil in H. }
  pose proof Hinv as (Hlen & Htk & Hruns & Hls & Hnums & Hr).
  apply Forall_app in Hls as [Hdn Hlt]. apply Forall_cons_1 in Hlt as [Hl Htodo].
  apply Forall_app in Hnums as [Hnd Hnt]. apply Forall_cons_1 in Hnt as [Hnl Hnt].
  destruct (turn_ok mw l r runs Hlen Htk Hruns Hmw Hl) as (Hmax & full & l' & r' & runs' & Ht & Hl' & Hep & Hfull & Hcase).
  rewrite Ht. cbn [mbind option_bind].
  assert (Hr' : zlen r' = ring_size /\ taken r' = runs' /\ Forall (fun x => 0 <= x -> x ∈ nums) r' /\
                Forall (lane_inv mw r') (dn ++ l' :: todo) /\ runs <= runs' <= ring_size).
  { destruct Hcase as [(-> & ->)|(Hf & ->)].
    - split_and!; try done; try lia. apply Forall_app. split; [done | by constructor].
    - destruct (fills_taken _ _ _ Hf) as [H1 H2]. split_and!; try lia; [by eapply fills_nums|].
      apply Forall_app. split; [|constructor; [done|]]; (eapply Forall_impl; [intros ? Hx; exact (lane_inv_fills _ _ _ _ _ Hf Hx) | done]). }
  destruct Hr' as (Hlen' & Htk' & Hrn & Hlanes & Hle). subst full.
  destruct (Z.eqb_spec runs' ring_size) as [Hfull|Hnot].
  { eexists. split; [done|]. apply full_ring_intro; [done | lia | done]. }
  destruct (IH (dn ++ [l']) r' runs') as (p & Hp & Hpost).
  { rewrite <- app_assoc. split_and!; try done; try lia. apply Forall_app. split; [done|]. constructor; [by rewrite Hep | done]. }
  exists p. split; [exact Hp|]. destruct p as [r1|ls1 r1 runs1]; [done|]. destruct Hpost as (Hi1 & Hm1 & Hle1 & Hex1).
  split_and!; try done; [|lia|].
  - rewrite Hm1. rewrite <- app_assoc. simpl. rewrite !map_app. simpl. by rewrite Hep.
  - intros [Hw|Hex]%Exists_cons; [|specialize (Hex1 Hex); lia].
    destruct (Hmax Hw) as (l2 & r2 & Ht2 & _). rewrite Ht2 in Ht. injection Ht as _ _ _ <-. lia.
Qed.

Lemma passes_ok n mw nums ls r runs :
  0 <= mw < 2 ^ 31 -> ring_inv mw nums ls r runs -> Exists (fun l => weight (l_ep l) = mw) ls ->
  ring_size - runs <= Z.of_nat n ->
  exists r', passes n (Z.to_nat ring_size) mw ls r runs = Some r' /\ full_ring nums r'.
Proof.
  intros Hmw. revert ls r runs. induction n as [|n IH]; intros ls r runs Hinv Hex Hn;
    [destruct Hinv as (_ & _ & ? & _); lia|]. cbn [passes].
  destruct (pass_ok mw nums ls [] r runs Hmw Hinv) as (p & -> & Hp). cbn [mbind option_bind].
  destruct p as [r'|ls' r' runs']; [by exists r'|]. destruct Hp as (Hi' & Hm & Hle & Hlt). specialize (Hlt Hex).
  apply IH; [done | | lia]. rewrite app_nil_l in Hm.
  rewrite <- (Exists_map l_ep (fun e => weight e = mw)) in Hex |- *. by rewrite Hm.
Qed.

(** *** Equal weights share the ring evenly *)

Definition lane_count (r : LookupTable) (l : lane) : Z := count (num (l_ep l)) r.

Lemma pass_even mw nums todo dn r runs k :
  0 <= mw < 2 ^ 31 -> ring_inv mw nums (dn ++ todo) r runs -> Forall (fun l => weight (l_ep l) = mw) todo ->
  NoDup (map (fun l => num (l_ep l)) (dn ++ todo)) ->
  Forall (fun l => lane_count r l = k + 1) dn -> Forall (fun l => lane_count r l = k) todo ->
  exists p, pass (Z.to_nat ring_size) mw todo dn r runs = Some p /\
    match p with
    | Returned r' => Forall (fun l => k <= lane_count r' l <= k + 1) (dn ++ todo)
    | Running ls' r' runs' => Forall (fun l => lane_count r' l = k + 1) ls'
    end.
Proof.
  intros Hmw. revert dn r runs. induction todo as [|l todo IH]; intros dn r runs Hinv Hw Hnd Hdn Htd; cbn [pass].
  { eexists. split; [done | exact Hdn]. }
  pose proof Hinv as (Hlen & Htk & Hruns & Hls & Hnums & Hr).
  apply Forall_app in Hls as [Hld Hlt]. apply Forall_cons_1 in Hlt as [Hl Hlt].
  apply Forall_app in Hnums as [Hnmd Hnmt]. apply Forall_cons_1 in Hnmt as [Hnl Hnmt].
  apply Forall_cons_1 in Hw as [Hwl Hw]. apply Forall_cons_1 in Htd as [Htl Htd].
  destruct (turn_ok mw l r runs Hlen Htk Hruns Hmw Hl) as [Hmax _]. destruct (Hmax Hwl) as (l' & r' & Ht & Hf & Hl' & Hep).
  rewrite Ht. cbn [mbind option_bind]. destruct (fills_taken _ _ _ Hf) as [Htk' Hlen'].
  assert (Hcnt : forall x, lane_inv mw r x -> num (l_ep x) <> num (l_ep l) -> lane_count r' x = lane_count r x).
  { intros x ((_ & _ & _ & Hx) & _) Hne. unfold lane_count. rewrite (fills_count _ _ _ _ Hf) by lia. rewrite decide_False by congruence. lia. }
  assert (Hcl : lane_count r' l' = k + 1).
  { unfold lane_count in *. rewrite Hep, (fills_count _ _ _ _ Hf), decide_True by (done || (destruct Hl as ((_ & _ & _ & ?) & _); lia)). lia. }
  rewrite map_app in Hnd. simpl in Hnd. apply list.NoDup_app in Hnd as (Hnd1 & Hdis & Hnd2). apply list.NoDup_cons in Hnd2 as [Hnotin Hnd2].
  assert (Hd' : Forall (fun x => lane_count r' x = k + 1) dn).
  { rewrite Forall_forall in *. intros x Hx. rewrite Hcnt; [auto | auto |]. intros Heq.
    apply (Hdis (num (l_ep x))); [|by rewrite Heq; left]. apply list_elem_of_In, in_map_iff. by exists x. }
  assert (Ht' : Forall (fun x => lane_count r' x = k) todo).
  { rewrite Forall_forall in *. intros x Hx. rewrite Hcnt; [auto | auto |]. intros Heq.
    apply Hnotin. rewrite <- Heq. apply list_elem_of_In, in_map_iff. by exists x. }
  destruct (Z.eqb_spec (runs + 1) ring_size) as [Hfull|Hnot].
  { eexists. split; [done|]. apply Forall_app. split; [|constructor]; unfold lane_count in *; rewrite ?Hep in *;
      try lia; (eapply Forall_impl; [|done]; intros x Hx; simpl in Hx; lia). }
  destruct (IH (dn ++ [l']) r' (runs + 1)) as (p & Hp & Hpost); try done.
  - rewrite <- app_assoc. assert (Hff : forall x, lane_inv mw r x -> lane_inv mw r' x) by (intros x Hx; exact (lane_inv_fills _ _ _ _ _ Hf Hx)).
    split_and!; try lia; [| |by eapply fills_nums].
    + apply Forall_app. split; [|constructor; [done|]]; (eapply Forall_impl; [exact Hff | done]).
    + apply Forall_app. split; [done|]. constructor; [by rewrite Hep | done].
  - rewrite <- app_assoc, map_app. simpl. rewrite Hep. apply list.NoDup_app. split_and!; try done. by apply list.NoDup_cons.
  - apply Forall_app. split; [done | by constructor].
  - exists p. split; [exact Hp|]. destruct p as [r1|]; [|done]. rewrite <- app_assoc in Hpost.
    apply Forall_app in Hpost as [H1 H2]. apply Forall_cons_1 in H2 as [H2 H3]. apply Forall_app. split; [done|].
    constructor; [|done]. unfold lane_count in *. by rewrite Hep in H2.
Qed.

Lemma passes_even n mw nums ls r runs k :
  0 <= mw < 2 ^ 31 -> ring_inv mw nums ls r runs -> Forall (fun l => weight (l_ep l) = mw) ls -> ls <> [] ->
  NoDup (map (fun l => num (l_ep l)) ls) -> Forall (fun l => lane_count r l = k) ls ->
  ring_size - runs <= Z.of_nat n ->
  exists r' k', passes n (Z.to_nat ring_size) mw ls r runs = Some r' /\
    Forall (fun e => k' <= count (num e) r' <= k' + 1) (map l_ep ls).
Proof.
  intros Hmw. revert ls r runs k. induction n as [|n IH]; intros ls r runs k Hinv Hw Hne Hnd Hk Hn;
    [destruct Hinv as (_ & _ & ? & _); lia|]. cbn [passes].
  destruct (pass_ok mw nums ls [] r runs Hmw Hinv) as (p & Hp & Hpost).
  destruct (pass_even mw nums ls [] r runs k Hmw Hinv Hw Hnd ltac:(done) Hk) as (p' & Hp' & Hev).
  rewrite Hp in Hp'. injection Hp' as <-. rewrite Hp. cbn [mbind option_bind]. rewrite app_nil_l in *.
  destruct p as [r'|ls' r' runs'].
  - exists r', k. split; [done|]. by apply Forall_map.
  - destruct Hpost as (Hi' & Hm & Hle & Hlt).
    assert (Hlt' : runs < runs'). { apply Hlt. destruct ls as [|l ls]; [done|]. apply Forall_cons_1 in Hw as [? _]. by left. }
    destruct (IH ls' r' runs' (k + 1)) as (r2 & k2 & ? & ?); try done; try lia.
    + apply (Forall_map l_ep (fun e => weight e = mw)). rewrite Hm. by apply Forall_map.
    + intros ->. by destruct ls.
    + rewrite <- (map_map l_ep num) in *. by rewrite Hm.
    + exists r2, k2. by rewrite <- Hm.
Qed.

(** *** Endpoints *)

Lemma max_weight_ge eps :
  Forall (fun e => weight e <= max_weight_of eps) eps /\ 0 <= max_weight_of eps.
Proof.
  unfold max_weight_of.
  assert (H : forall m, m <= foldl (fun m e => if m <? weight e then weight e else m) m eps /\
    Forall (fun e => weight e <= foldl (fun m e => if m <? weight e then weight e else m) m eps) eps).
  { induction eps as [|e eps IH]; intros m; simpl; [split; [lia | done]|].
    destruct (IH (if m <? weight e then weight e else m)) as [H1 H2]. destruct (Z.ltb_spec m (weight e)); (split; [lia | constructor; [lia | done]]). }
  destruct (H 0) as [? ?]. done.
Qed.

Lemma max_weight_attained eps :
  eps <> [] -> Forall (fun e => 0 <= weight e) eps -> Exists (fun e => weight e = max_weight_of eps) eps.
Proof.
  intros Hne Hw. unfold max_weight_of.
  assert (H : forall m, 0 <= m -> foldl (fun m e => if m <? weight e then weight e else m) m eps = m \/
    Exists (fun e => weight e = foldl (fun m e => if m <? weight e then weight e else m) m eps) eps).
  { clear Hne. induction Hw as [|e eps He Hw IH]; intros m Hm; simpl; [by left|].
    destruct (Z.ltb_spec m (weight e)).
    - destruct (IH (weight e) He) as [->|]; [right; by left | right; by right].
    - destruct (IH m Hm) as [->|]; [by left | right; by right]. }
  destruct (H 0 ltac:(lia)) as [H0|]; [|done]. rewrite H0.
  destruct eps as [|e eps]; [done|]. left. destruct (max_weight_ge (e :: eps)) as [Hge _].
  apply Forall_cons_1 in Hge as [Hge _]. unfold max_weight_of in Hge. rewrite H0 in Hge.
  apply Forall_cons_1 in Hw as [? _]. lia.
Qed.

(** A table of endpoints the comment in maglev2.h allows, whose walks do not wrap. *)
Definition endpoint_ok (e : Endpoint) : Prop :=
  0 <= num e < 2 ^ 31 /\ 0 <= weight e < 2 ^ 31 /\
  l_offset (GenMaglevPermutation e) + (ring_size - 1) * l_skip (GenMaglevPermutation e) < 2 ^ 32.

Lemma GenMaglevPermutation_ok e : endpoint_ok e -> lane_ok (GenMaglevPermutation e) /\ l_ep (GenMaglevPermutation e) = e /\
  l_next (GenMaglevPermutation e) = 0 /\ l_cum (GenMaglevPermutation e) = 0.
Proof.
  intros (H1 & H2 & H3). pose proof (Z.prime_ge_2 _ Hprime) as Hp. unfold GenMaglevPermutation in *.
  destruct (murmur128 (hash e)) as [h0 h1]. simpl in *. split; [|done].
  pose proof (Z.mod_pos_bound h0 ring_size ltac:(lia)). assert (Hs : 0 <= h1 mod (ring_size - 1) < ring_size - 1 \/ ring_size = 2).
  { destruct (decide (ring_size = 2)); [by right | left; apply Z.mod_pos_bound; lia]. }
  assert (0 <= h1 mod (ring_size - 1) < ring_size - 1).
  { destruct Hs as [|E]; [done|]. rewrite E in *. change (2 - 1) with 1. rewrite Z.mod_1_r. lia. }
  rewrite !u32_id in * by lia. split_and!; simpl; lia.
Qed.

Lemma count_replicate v x n : v <> x -> count v (replicate n x) = 0.
Proof. intros H. unfold count. induction n as [|n IH]; [done|]. simpl. rewrite filter_cons, decide_False by congruence. done. Qed.

Lemma initial_ring eps :
  eps <> [] -> Forall endpoint_ok eps ->
  ring_inv (max_weight_of eps) (map num eps) (map GenMaglevPermutation eps) (replicate (Z.to_nat ring_size) (-1)) 0 /\
  0 <= max_weight_of eps < 2 ^ 31 /\ map l_ep (map GenMaglevPermutation eps) = eps.
Proof.
  intros Hne Hok. pose proof (Z.prime_ge_2 _ Hprime) as Hp.
  assert (Hw : Forall (fun e => 0 <= weight e) eps) by (eapply Forall_impl; [|exact Hok]; intros e (_ & ? & _); lia).
  destruct (max_weight_ge eps) as [Hge Hmw]. pose proof (max_weight_attained eps Hne Hw) as Hatt.
  assert (Htk : taken (replicate (Z.to_nat ring_size) (-1)) = 0).
  { unfold taken. induction (Z.to_nat ring_size) as [|n IH]; [done|]. simpl. rewrite filter_cons, decide_False by lia. done. }
  assert (Hl : zlen (replicate (Z.to_nat ring_size) (-1)) = ring_size) by (rewrite length_replicate; apply Z2Nat.id; lia).
  unfold ring_inv. split_and!; try assumption; try lia.
  - apply Forall_map. rewrite !Forall_forall in *. intros e He. destruct (GenMaglevPermutation_ok e (Hok e He)) as (H1 & H2 & H3 & H4).
    split_and!; rewrite ?H2, ?H3, ?H4; try done; try lia; [by apply Hw | by apply Hge].
  - apply Forall_map. rewrite !Forall_forall in *. intros e He. destruct (GenMaglevPermutation_ok e (Hok e He)) as (_ & -> & _).
    apply list_elem_of_In, in_map_iff. by exists e.
  - apply Forall_replicate. lia.
  - apply Exists_exists in Hatt as (e & He & <-). rewrite Forall_forall in Hok. destruct (Hok e He) as (_ & ? & _). lia.
  - rewrite map_map. rewrite <- (map_id eps) at 2. apply map_ext_in. intros e He. rewrite Forall_forall in Hok.
    by destruct (GenMaglevPermutation_ok e (Hok e He)) as (_ & -> & _).
Qed.

Lemma ring_total eps :
  eps <> [] -> Forall endpoint_ok eps ->
  exists ring, GenerateHashRing eps = Some ring /\ zlen ring = ring_size /\ Forall (fun x => x ∈ map num eps) ring.
Proof.
  intros Hne Hok. destruct (initial_ring eps) as (Hinv & Hmw & Hep); [done..|].
  destruct eps as [|e1 [|e2 eps]]; [done | |].
  - unfold GenerateHashRing. eexists. split; [done|]. apply Forall_cons_1 in Hok as [(Hn & _) _]. split.
    + rewrite length_replicate. apply Z2Nat.id. pose proof (Z.prime_ge_2 _ Hprime). lia.
    + apply Forall_replicate. rewrite i32_id by (split; lia). set_solver.
  - unfold GenerateHashRing. set (es := e1 :: e2 :: eps) in *. apply passes_ok with (nums := map num es); try done; [|lia].
    apply (Exists_map l_ep (fun e => weight e = max_weight_of es)). rewrite Hep. apply max_weight_attained; [done|].
    eapply Forall_impl; [|exact Hok]. intros e (_ & ? & _). lia.
Qed.

(** C40.  The ring is complete: for a prime ring size and any endpoints, whatever
    their weights and hashes, as long as no walk wraps in 32 bits, the probing and
    the outer loop terminate and every slot of the ring belongs to one of the
    endpoints. *)
Theorem maglev_ring_complete eps :
  eps <> [] -> Forall endpoint_ok eps ->
  exists ring, GenerateHashRing eps = Some ring /\ zlen ring = ring_size /\ Forall (fun x => x ∈ map num eps) ring.
Proof. apply ring_total. Qed.

(** The ring is balanced: endpoints of equal weight and distinct numbers get
    shares of the ring that differ by at most one slot. *)
Theorem maglev_equal_weights_balanced eps w :
  (2 <= length eps)%nat -> Forall endpoint_ok eps -> Forall (fun e => weight e = w) eps -> NoDup (map num eps) ->
  exists ring, GenerateHashRing eps = Some ring /\
    forall e1 e2, In e1 eps -> In e2 eps -> count (num e1) ring <= count (num e2) ring + 1.
Proof.
  intros Hlen Hok Hw Hnd. destruct (initial_ring eps) as (Hinv & Hmw & Hep); [intros ->; simpl in Hlen; lia | done |].
  assert (Hmax : max_weight_of eps = w).
  { assert (Hatt : Exists (fun e => weight e = max_weight_of eps) eps).
    { apply max_weight_attained; [intros ->; simpl in Hlen; lia |]. eapply Forall_impl; [|exact Hok]. intros e (_ & ? & _). lia. }
    apply Exists_exists in Hatt as (e & He & <-). rewrite Forall_forall in Hw. by apply Hw. }
  destruct (passes_even (Z.to_nat ring_size) w (map num eps) (map GenMaglevPermutation eps) (replicate (Z.to_nat ring_size) (-1)) 0 0)
    as (ring & k & Hr & Hk); try (rewrite <- ?Hmax; done); try lia.
  - apply (Forall_map l_ep (fun e => weight e = w)). by rewrite Hep.
  - destruct eps; [simpl in Hlen; lia | done].
  - rewrite <- (map_map l_ep num), Hep. done.
  - apply (Forall_map l_ep (fun e => count (num e) (replicate (Z.to_nat ring_size) (-1)) = 0)). rewrite Hep.
    eapply Forall_impl; [|exact Hok]. intros e (Hn & _). apply count_replicate. lia.
  - exists ring. split.
    + destruct eps as [|e1 [|e2 eps]]; [simpl in Hlen; lia..|]. unfold GenerateHashRing. by rewrite Hmax.
    + intros e1 e2 H1 H2. rewrite Hep, Forall_forall in Hk. pose proof (Hk e1 H1). pose proof (Hk e2 H2). simpl in *. lia.
Qed.

End Ring.

Lemma prime_7 : Z.prime 7.
Proof. split; [lia|]. intros n Hn [k Hk].
  assert (n = 2 \/ n = 3 \/ n = 4 \/ n = 5 \/ n = 6) as [->|[->|[->|[->| ->]]]] by lia; lia. Qed.

(** [MAGLEVE_CH_RINGSIZE], the default ring size. *)
Definition RingSize : Z := 65537.

Fixpoint no_divisor (n : nat) (p k : Z) : bool :=
  match n with O => true | S n' => negb (p mod k =? 0) && no_divisor n' p (k + 1) end.

Lemma no_divisor_spec n p k j : no_divisor n p k = true -> 0 < k <= j -> j < k + Z.of_nat n -> ~ (j | p).
Proof.
  revert k. induction n as [|n IH]; intros k; simpl; [lia|]. intros [H1%negb_true_iff H2]%andb_true_iff Hk Hj Hd.
  destruct (decide (j = k)) as [->|]; [|eapply (IH (k + 1)); done || lia].
  apply Z.mod_divide in Hd; [lia | lia].
Qed.

Lemma RingSize_prime : Z.prime RingSize.
Proof.
  split; [done|]. intros n Hn. apply (no_divisor_spec (Z.to_nat 65535) _ 2); [by vm_compute | lia |].
  unfold RingSize in Hn. lia.
Qed.

(** A hash whose two words are the low and the high part of its argument. *)
Definition word_pair (h : Z) : Z * Z := (h mod 2 ^ 32, h / 2 ^ 32).

Lemma maglev_ring_complete_witness :
  let eps := [mkEndpoint 0 3 5; mkEndpoint 1 1 (2 ^ 32 + 2); mkEndpoint 2 2 (2 ^ 33)] in
  exists ring, GenerateHashRing word_pair 7 eps = Some ring /\ zlen ring = 7 /\ Forall (fun x => x ∈ map num eps) ring.
Proof.
  apply (maglev_ring_complete word_pair 7 prime_7 ltac:(lia)); [done|].
  repeat constructor; vm_compute; congruence.
Defined.

Lemma maglev_equal_weights_balanced_witness :
  let eps := [mkEndpoint 0 3 5; mkEndpoint 1 3 (2 ^ 32 + 2); mkEndpoint 2 3 (2 ^ 33)] in
  exists ring, GenerateHashRing word_pair 7 eps = Some ring /\
    forall e1 e2, In e1 eps -> In e2 eps -> count (num e1) ring <= count (num e2) ring + 1.
Proof.
  apply (maglev_equal_weights_balanced word_pair 7 prime_7 ltac:(lia) _ 3); [simpl; lia | | by repeat constructor |].
  - repeat constructor; vm_compute; congruence.
  - repeat constructor; set_solver.
Defined.

End Maglev.
