(* ===== verification/Routers.v ===== *)
(** * Client routers (net_io/clients/router, net_io/base/load_balance/consistent_hash_map.h)

    The four strategies that pick the client a request goes to.  Clients are an
    abstract type with the string [RemoteIpPort] gives; MurmurHash3 and the hasher of
    [HashRouter] are parameters.  [ClientRouter] is the interface of the base class
    with its contract, [ClientRouterLaws]; [served_was_added] is proved against the
    interface and holds for the four implementations. *)
From stdpp Require Import sets.
From S2P Require Import Prelude StdMap StrUtils Maglev.
From Stdlib Require Import Znumtheory.
Import StdMap.

Module ConsistentHashMap.
Section Ring.
Context {T : Type}.
Abbreviation map_type := (list (Z * T)).

Definition size (nodes : map_type) : Z := zlen nodes.
Definition empty (nodes : map_type) : bool := match nodes with [] => true | _ => false end.

(** [None] is [end()]. *)
Definition find (hash : Z) (nodes : map_type) : option (Z * T) :=
  if empty nodes then None
  else match head (lower_bound Z.ltb hash nodes) with Some it => Some it | None => head nodes end.

Lemma head_insert k v (m : map_type) : head (map_insert Z.ltb k v m) = head m \/ head (map_insert Z.ltb k v m) = Some (k, v).
Proof. destruct m as [|[k' v'] m]; simpl; [by right|]. destruct (k <? k'); [by right|]. destruct (k' <? k); by left. Qed.

Lemma lower_bound_insert h k v (m : map_type) :
  head (lower_bound Z.ltb h (map_insert Z.ltb k v m)) = head (lower_bound Z.ltb h m) \/
  head (lower_bound Z.ltb h (map_insert Z.ltb k v m)) = Some (k, v).
Proof.
  induction m as [|[k' v'] m IH]; simpl; [destruct (k <? h); [by left | by right]|].
  destruct (Z.ltb_spec k k'); [|destruct (Z.ltb_spec k' k)]; simpl.
  - destruct (Z.ltb_spec k h); simpl; [by left | by right].
  - destruct (k' <? h); [apply IH | by left].
  - by left.
Qed.

Lemma find_map_insert h k v (m : map_type) :
  find h (map_insert Z.ltb k v m) = find h m \/ find h (map_insert Z.ltb k v m) = Some (k, v).
Proof.
  unfold find. assert (empty (map_insert Z.ltb k v m) = false) as ->.
  { destruct m as [|[k' v'] m]; simpl; [done|]. destruct (k <? k'), (k' <? k); done. }
  destruct (lower_bound_insert h k v m) as [-> | ->]; [|by right].
  destruct m as [|e m]; [right; done|]. simpl empty. cbv iota.
  destruct (head (lower_bound Z.ltb h (e :: m))); [by left | apply head_insert].
Qed.

Lemma lower_bound_spec h (m : map_type) e :
  sorted Z.ltb m -> head (lower_bound Z.ltb h m) = Some e ->
  In e m /\ h <= e.1 /\ Forall (fun x => x.1 < h \/ e.1 <= x.1) m.
Proof.
  induction m as [|[k v] m IH]; simpl; [done|]. intros [Hk Hm]. destruct (Z.ltb_spec k h).
  - intros He. destruct (IH Hm He) as (? & ? & ?). split_and!; [by right | done | constructor; [by left | done]].
  - intros [= <-]. simpl. split_and!; [by left | lia |]. constructor; [right; simpl; lia|].
    eapply Forall_impl; [|exact Hk]. intros [k' v'] Hk'%Z.ltb_lt. simpl in *. lia.
Qed.

Lemma lower_bound_none h (m : map_type) : head (lower_bound Z.ltb h m) = None -> Forall (fun x => x.1 < h) m.
Proof.
  induction m as [|[k v] m IH]; simpl; [done|]. destruct (Z.ltb_spec k h); [|done]. intros H'. constructor; auto.
Qed.

(** The clockwise distance from [h] to a node, on a circle of [2^32] points. *)
Definition clockwise (h k : Z) : Z := (k - h) mod 2 ^ 32.

(** [find] is the consistent-hash successor: of all the nodes of the ring it
    returns the one at the smallest clockwise distance from the hash. *)
Theorem ring_find_successor h m :
  sorted Z.ltb m -> Forall (fun x => 0 <= x.1 < 2 ^ 32) m -> 0 <= h < 2 ^ 32 -> m <> [] ->
  exists e, find h m = Some e /\ In e m /\ Forall (fun x => clockwise h e.1 <= clockwise h x.1) m.
Proof.
  intros Hs Hr Hh Hne. unfold find. destruct m as [|e0 m]; [done|]. simpl empty. cbv iota.
  destruct (head (lower_bound Z.ltb h (e0 :: m))) as [e|] eqn:He.
  - destruct (lower_bound_spec h (e0 :: m) e Hs He) as (Hin & Hge & Hall). exists e. split_and!; [done..|].
    rewrite !Forall_forall in *. intros x Hx. pose proof (Hr e Hin). pose proof (Hr x Hx). unfold clockwise.
    destruct (Hall x Hx); Z.to_euclidean_division_equations; lia.
  - apply lower_bound_none in He. exists e0. split_and!; [done | by left |]. destruct e0 as [k0 v0], Hs as [Hs _].
    rewrite !Forall_forall in *. intros x Hx. pose proof (Hr x Hx). pose proof (Hr (k0, v0) (or_introl eq_refl)).
    pose proof (He x Hx). pose proof (He (k0, v0) (or_introl eq_refl)). unfold clockwise. simpl in *.
    assert (k0 <= x.1) by (destruct Hx as [<-|Hx]; [simpl; lia | specialize (Hs x Hx); apply Z.ltb_lt in Hs; lia]).
    Z.to_euclidean_division_equations; lia.
Qed.

Lemma lower_bound_erase h k e (m : map_type) :
  sorted Z.ltb m -> head (lower_bound Z.ltb h m) = Some e -> e.1 <> k ->
  head (lower_bound Z.ltb h (map_erase Z.ltb k m)) = Some e.
Proof.
  induction m as [|[k' v'] m IH]; simpl; [done|]. intros [Hk Hm] He Hne.
  destruct (eqv_spec Z.ltb k k') as [->|Hkk].
  - destruct (Z.ltb_spec k' h); [done|]. injection He as <-. done.
  - simpl. destruct (k' <? h); [by apply IH | done].
Qed.

Context (hasher : T -> Z).

(** The iterator is the entry it points to. *)
Definition insert (node : T) (nodes : map_type) : map_type * option (Z * T) * bool :=
  let hash := hasher node in
  match map_find Z.ltb hash nodes with
  | Some old => (nodes, Some (hash, old), false)
  | None => (map_insert Z.ltb hash node nodes, Some (hash, node), true)
  end.

(** [erase(iterator)]. *)
Definition erase_at (it : Z * T) (nodes : map_type) : map_type := map_erase Z.ltb it.1 nodes.

Definition erase (node : T) (nodes : map_type) : map_type * Z :=
  let hash := hasher node in
  (map_erase Z.ltb hash nodes, match map_find Z.ltb hash nodes with Some _ => 1 | None => 0 end).

Lemma find_after_insert h node m :
  find h (insert node m).1.1 = find h m \/ find h (insert node m).1.1 = Some (hasher node, node).
Proof. unfold insert. destruct (map_find Z.ltb (hasher node) m); simpl; [by left | apply find_map_insert]. Qed.

Lemma insert_sorted node m : sorted Z.ltb m -> sorted Z.ltb (insert node m).1.1.
Proof. intros H. unfold insert. destruct (map_find _ _ m); simpl; [done|]. apply map_insert_sorted; first [done | apply _]. Qed.

Lemma find_erase_other h node m :
  sorted Z.ltb m -> (forall e, find h m = Some e -> e.1 <> hasher node) -> find h (erase node m).1 = find h m.
Proof.
  intros Hs Hf. unfold erase. simpl. set (k := hasher node) in *. destruct m as [|e0 m]; [done|].
  unfold find in *. change (empty (e0 :: m)) with false in *. cbv iota in *.
  destruct (head (lower_bound Z.ltb h (e0 :: m))) as [e|] eqn:He.
  - pose proof (Hf e eq_refl) as Hne. pose proof (lower_bound_erase h k e (e0 :: m) Hs He Hne) as Hl. rewrite Hl.
    destruct (map_erase Z.ltb k (e0 :: m)); [discriminate Hl | done].
  - pose proof (Hf e0 eq_refl) as Hne. destruct e0 as [k0 v0]. simpl in Hne.
    simpl. destruct (eqv_spec Z.ltb k k0) as [->|_]; [done|]. simpl.
    apply lower_bound_none in He. apply Forall_cons_1 in He as [H0 Hm]. simpl in H0.
    assert ((k0 <? h) = true) as -> by lia. destruct (lower_bound Z.ltb h (map_erase Z.ltb k m)) as [|e' l] eqn:E; [done|].
    exfalso. assert (Hin : In e' (map_erase Z.ltb k m) /\ h <= e'.1).
    { destruct Hs as [_ Hs]. destruct (lower_bound_spec h (map_erase Z.ltb k m) e') as (? & ? & _); [|by rewrite E|done].
      apply map_erase_sorted; first [done | apply _]. }
    rewrite Forall_forall in Hm. destruct Hin as [Hin Hge]. specialize (Hm e').
    assert (Hin' : In e' m).
    { clear -Hin. induction m as [|[k' v'] m IH]; simpl in *; [done|]. destruct (eqv Z.ltb k k'); [by right|].
      destruct Hin; [by left | right; auto]. }
    specialize (Hm Hin'). lia.
Qed.
End Ring.
End ConsistentHashMap.

(** ** The router interface (client_router.h) *)

(** [GetNextClient] returns [None] where the code divides by zero, and [Some None]
    for a null client; the router is returned because round robin counts. *)
Class ClientRouter (R Cl : Type) := {
  AddClient : Cl -> R -> R;
  StartRouter : R -> option R;
  GetNextClient : list Z -> R -> option (option Cl * R);
  clients_of : R -> list Cl;
}.

(** What every router owes its callers: only clients it was given, and routing
    does not change the set. *)
Class ClientRouterLaws (R Cl : Type) `{!ClientRouter R Cl} := {
  add_clients c r x : In x (clients_of (AddClient c r)) -> x = c \/ In x (clients_of r);
  start_clients r r' : StartRouter r = Some r' -> clients_of r' = clients_of r;
  get_clients key r oc r' : GetNextClient key r = Some (oc, r') ->
    clients_of r' = clients_of r /\ (forall c, oc = Some c -> In c (clients_of r));
}.

Inductive router_op (Cl : Type) := Add (c : Cl) | Start | Get (key : list Z).
Arguments Add {Cl}.
Arguments Start {Cl}.
Arguments Get {Cl}.

Section Interface.
Context {R Cl : Type} `{!ClientRouter R Cl}.

(** A history of calls; the clients served, in order. *)
Fixpoint router_run (ops : list (router_op Cl)) (r : R) : option (list (option Cl) * R) :=
  match ops with
  | [] => Some ([], r)
  | Add c :: ops' => router_run ops' (AddClient c r)
  | Start :: ops' => r ← StartRouter r; router_run ops' r
  | Get key :: ops' =>
      x ← GetNextClient key r; let '(oc, r) := x in
      y ← router_run ops' r; let '(out, r) := y in Some (oc :: out, r)
  end.

Context `{!ClientRouterLaws R Cl}.

Lemma served_was_added ops r out r' c :
  router_run ops r = Some (out, r') -> In (Some c) out -> In (Add c) ops \/ In c (clients_of r).
Proof.
  revert r out. induction ops as [|[c'| |key] ops IH]; simpl; intros r out H Hin.
  - injection H as <- <-. by destruct Hin.
  - destruct (IH _ _ H Hin) as [?|[->|?]%add_clients]; auto.
  - destruct (StartRouter r) as [r1|] eqn:E; [|done]. simpl in H.
    rewrite <- (start_clients _ _ E). destruct (IH _ _ H Hin); auto.
  - destruct (GetNextClient key r) as [[oc r1]|] eqn:E; [|done]. simpl in H.
    destruct (router_run ops r1) as [[out' r2]|] eqn:E2; [|done]. injection H as <- <-.
    destruct (get_clients _ _ _ _ E) as [Hc Ho]. destruct Hin as [Hin|Hin]; [right; by apply Ho|].
    rewrite <- Hc. destruct (IH _ _ E2 Hin); auto.
Qed.
End Interface.

Module Routers.
Section Routers.
Context {Client : Type} (RemoteIpPort : Client -> list Z).
(** [MurmurHash3_x86_32] of a string with a seed. *)
Variable murmur32 : list Z -> Z -> Z.
(** The two words [MurmurHash3_x64_128] makes of an endpoint's hash. *)
Variable murmur128 : Z -> Z * Z.

(** *** HashRouter (hash_router.h) *)
Record HashRouter := mkHashRouter { hr_clients : list Client; hasher_ : list Z -> Z }.

Definition HashRouter_AddClient (c : Client) (r : HashRouter) : HashRouter := mkHashRouter (hr_clients r ++ [c]) (hasher_ r).

Definition HashRouter_GetNextClient (hash_key : list Z) (r : HashRouter) : option (option Client * HashRouter) :=
  if zlen (hr_clients r) =? 0 then None
  else c ← hr_clients r !! Z.to_nat (u64 (hasher_ r hash_key) mod zlen (hr_clients r)); Some (Some c, r).

(** *** RoundRobinRouter (roundrobin_router.{h,cc}) *)
Record RoundRobinRouter := mkRoundRobin { rr_clients : list Client; round_index_ : Z }.

(** [round_index_] is a default-constructed atomic: its first value is arbitrary. *)
Definition RoundRobinRouter_new (initial : Z) : RoundRobinRouter := mkRoundRobin [] (u32 initial).

Definition RoundRobin_AddClient (c : Client) (r : RoundRobinRouter) : RoundRobinRouter :=
  mkRoundRobin (rr_clients r ++ [c]) (round_index_ r).

Definition RoundRobin_GetNextClient (key : list Z) (r : RoundRobinRouter) : option (option Client * RoundRobinRouter) :=
  if zlen (rr_clients r) =? 0 then None
  else
    let idx := u32 (round_index_ r mod zlen (rr_clients r)) in
    c ← rr_clients r !! Z.to_nat idx;
    Some (Some c, mkRoundRobin (rr_clients r) (u32 (round_index_ r + 1))).

(** *** RingHashRouter (ringhash_router.{h,cc}) *)
Record ClientNode := mkNode { client : Client; vnode_id : Z; hash_key : list Z }.

Definition ClientNode_new (c : Client) (id : Z) : ClientNode := mkNode c id (RemoteIpPort c ++ StrUtils.to_string id).

Definition NodeHasher (node : ClientNode) : Z := u32 (murmur32 (hash_key node) 0x80000000).

Record RingHashRouter := mkRing { nodes_ : list (Z * ClientNode); vnode_count_ : Z }.

Definition RingHashRouter_new (vnode_count : Z) : RingHashRouter := mkRing [] vnode_count.

Definition RingHash_AddClient (c : Client) (r : RingHashRouter) : RingHashRouter :=
  mkRing (foldl (fun nodes i => (ConsistentHashMap.insert NodeHasher (ClientNode_new c (Z.of_nat i)) nodes).1.1) (nodes_ r)
            (seq 0 (Z.to_nat (vnode_count_ r)))) (vnode_count_ r).

Definition RingHash_GetNextClient (key : list Z) (r : RingHashRouter) : option (option Client * RingHashRouter) :=
  let hash_value := u32 (murmur32 key 0x80000000) in
  Some (match ConsistentHashMap.find hash_value (nodes_ r) with
        | None => None
        | Some it => Some (client it.2)
        end, r).

(** *** MaglevRouter (maglev_router.{h,cc}) *)
Record MaglevRouter := mkMaglevRouter { lookup_table_ : list Z; mr_clients : list Client }.

Definition k_num_seed : Z := 0x12345678.
Definition k_hash_seed : Z := 0x87654321.

Definition Maglev_AddClient (c : Client) (r : MaglevRouter) : MaglevRouter := mkMaglevRouter (lookup_table_ r) (mr_clients r ++ [c]).

(** The [node_list] of [StartRouter]; the loop counter and the weight are 32-bit. *)
Definition node_list (clients : list Client) : list Maglev.Endpoint :=
  imap (fun i c => Maglev.mkEndpoint (u32 (Z.of_nat i)) (u32 (zlen clients)) (u32 (murmur32 (RemoteIpPort c) k_hash_seed))) clients.

Definition Maglev_StartRouter (r : MaglevRouter) : option MaglevRouter :=
  t ← Maglev.GenerateHashRing murmur128 Maglev.RingSize (node_list (mr_clients r));
  Some (mkMaglevRouter t (mr_clients r)).

Definition Maglev_GetNextClient (key : list Z) (r : MaglevRouter) : option (option Client * MaglevRouter) :=
  match mr_clients r with
  | [] => Some (None, r)
  | _ =>
      let hash_value := u32 (murmur32 key k_num_seed) in
      if zlen (lookup_table_ r) =? 0 then None
      else
        entry ← lookup_table_ r !! Z.to_nat (hash_value mod zlen (lookup_table_ r));
        let idx := u32 entry in
        if idx <? zlen (mr_clients r) then c ← mr_clients r !! Z.to_nat idx; Some (Some c, r) else Some (None, r)
  end.

#[export] Instance HashRouter_router : ClientRouter HashRouter Client :=
  { AddClient := HashRouter_AddClient; StartRouter r := Some r; GetNextClient := HashRouter_GetNextClient; clients_of := hr_clients }.
#[export] Instance RoundRobin_router : ClientRouter RoundRobinRouter Client :=
  { AddClient := RoundRobin_AddClient; StartRouter r := Some r; GetNextClient := RoundRobin_GetNextClient; clients_of := rr_clients }.
#[export] Instance RingHash_router : ClientRouter RingHashRouter Client :=
  { AddClient := RingHash_AddClient; StartRouter r := Some r; GetNextClient := RingHash_GetNextClient;
    clients_of r := map (fun e => client e.2) (nodes_ r) }.
#[export] Instance Maglev_router : ClientRouter MaglevRouter Client :=
  { AddClient := Maglev_AddClient; StartRouter := Maglev_StartRouter; GetNextClient := Maglev_GetNextClient; clients_of := mr_clients }.

Lemma lookup_In {A} (l : list A) i x : l !! i = Some x -> In x l.
Proof. intros H. apply list_elem_of_In. by eapply list_elem_of_lookup_2. Qed.

#[export] Instance HashRouter_laws : ClientRouterLaws HashRouter Client.
Proof.
  split; simpl.
  - intros c r x [?|[->|[]]]%in_app_or; auto.
  - by intros r r' [= ->].
  - unfold HashRouter_GetNextClient. intros key r oc r'. destruct (_ =? 0); [done|].
    destruct (hr_clients r !! _) eqn:E; simpl; [|done]. intros [= <- <-]. split; [done|]. intros c' [= ->]. by eapply lookup_In.
Qed.

#[export] Instance RoundRobin_laws : ClientRouterLaws RoundRobinRouter Client.
Proof.
  split; simpl.
  - intros c r x [?|[->|[]]]%in_app_or; auto.
  - by intros r r' [= ->].
  - unfold RoundRobin_GetNextClient. intros key r oc r'. destruct (_ =? 0); [done|].
    destruct (rr_clients r !! _) eqn:E; simpl; [|done]. intros [= <- <-]. split; [done|]. intros c' [= ->]. by eapply lookup_In.
Qed.

#[export] Instance Maglev_laws : ClientRouterLaws MaglevRouter Client.
Proof.
  split; simpl.
  - intros c r x [?|[->|[]]]%in_app_or; auto.
  - unfold Maglev_StartRouter. intros r r'. destruct (Maglev.GenerateHashRing _ _ _); simpl; [|done]. by intros [= <-].
  - unfold Maglev_GetNextClient. intros key r oc r'. destruct (mr_clients r) as [|c0 cs] eqn:Ec; [by intros [= <- <-]|].
    destruct (_ =? 0); [done|]. destruct (lookup_table_ r !! _) as [en|]; simpl; [|done].
    destruct (_ <? _); [|by intros [= <- <-]]. destruct ((c0 :: cs) !! Z.to_nat (u32 en)) as [c|] eqn:E; simpl; [|done].
    intros [= <- <-]. split; [done|]. intros c' [= ->]. by apply lookup_In in E.
Qed.

Lemma find_In h (m : list (Z * ClientNode)) e : ConsistentHashMap.find h m = Some e -> In e m.
Proof.
  unfold ConsistentHashMap.find. destruct m as [|e0 m]; [done|]. simpl ConsistentHashMap.empty. cbv iota.
  destruct (head (lower_bound Z.ltb h (e0 :: m))) eqn:E; intros [= <-]; [|by left]. revert E.
  generalize (e0 :: m). clear. intros l. induction l as [|[k v] l IH]; simpl; [done|].
  destruct (k <? h); [right; auto | intros [= <-]; by left].
Qed.

Lemma insert_In node (m : list (Z * ClientNode)) e :
  In e (ConsistentHashMap.insert NodeHasher node m).1.1 -> e.2 = node \/ In e m.
Proof.
  unfold ConsistentHashMap.insert. destruct (map_find _ _ m); simpl; [by right|]. generalize (NodeHasher node). intros k.
  induction m as [|[k' v'] m IH]; simpl; [intros [<-|[]]; by left|].
  destruct (k <? k'); [intros [<-|?]; auto|]. destruct (k' <? k); [|auto]. intros [<-|Hin]; [right; by left|].
  destruct (IH Hin); auto.
Qed.

#[export] Instance RingHash_laws : ClientRouterLaws RingHashRouter Client.
Proof.
  split; simpl.
  - intros c r x. unfold RingHash_AddClient. simpl. generalize (nodes_ r) (seq 0 (Z.to_nat (vnode_count_ r))).
    intros m l. revert m. induction l as [|i l IH]; intros m; simpl; [by right|].
    intros [?|[e [<- He]]%in_map_iff]%IH; [by left|]. apply insert_In in He as [->|He]; [by left|].
    right. apply in_map_iff. by exists e.
  - by intros r r' [= ->].
  - unfold RingHash_GetNextClient. intros key r oc r' [= <- <-]. split; [done|]. intros c.
    destruct (ConsistentHashMap.find _ _) as [e|] eqn:E; [|done]. intros [= <-]. apply in_map_iff. exists e. split; [done|].
    by eapply find_In.
Qed.

(** Whatever the sequence of AddClient, StartRouter and GetNextClient calls on a
    new router of any of the four kinds, a client that serves a request is one that
    was added. *)
Theorem routers_serve_only_added ops c :
  (forall h out r', router_run ops (mkHashRouter [] h) = Some (out, r') -> In (Some c) out -> In (Add c) ops) /\
  (forall i out r', router_run ops (RoundRobinRouter_new i) = Some (out, r') -> In (Some c) out -> In (Add c) ops) /\
  (forall n out r', router_run ops (RingHashRouter_new n) = Some (out, r') -> In (Some c) out -> In (Add c) ops) /\
  (forall out r', router_run ops (mkMaglevRouter [] []) = Some (out, r') -> In (Some c) out -> In (Add c) ops).
Proof. split_and!; intros; match goal with H : router_run _ _ = _ |- _ => by destruct (served_was_added _ _ _ _ _ H ltac:(eassumption)) end. Qed.

(** *** Round robin *)

Lemma round_robin_get key r c :
  rr_clients r !! Z.to_nat (round_index_ r mod zlen (rr_clients r)) = Some c ->
  0 <= round_index_ r -> round_index_ r + 1 < 2 ^ 32 -> zlen (rr_clients r) < 2 ^ 32 ->
  RoundRobin_GetNextClient key r = Some (Some c, mkRoundRobin (rr_clients r) (round_index_ r + 1)).
Proof.
  intros Hc H0 H1 Hn. assert (0 < zlen (rr_clients r)).
  { destruct (rr_clients r); [done | simpl; lia]. }
  unfold RoundRobin_GetNextClient. rewrite (proj2 (Z.eqb_neq _ _)) by lia.
  pose proof (Z.mod_pos_bound (round_index_ r) (zlen (rr_clients r)) ltac:(lia)).
  rewrite !u32_id by lia. by rewrite Hc.
Qed.

Lemma lookup_mod {A} (l : list A) x : l <> [] -> exists a, l !! Z.to_nat (x mod zlen l) = Some a.
Proof.
  intros Hl. assert (Hpos : 0 < zlen l) by (destruct l; [done | simpl; lia]).
  pose proof (Z.mod_pos_bound x (zlen l) Hpos) as Hm. apply lookup_lt_is_Some_2.
  apply Nat2Z.inj_lt. rewrite Z2Nat.id by apply Hm. apply Hm.
Qed.

(** The requests of a burst go to consecutive clients of the cycle. *)
Lemma round_robin_run keys r :
  rr_clients r <> [] -> 0 <= round_index_ r -> round_index_ r + zlen keys < 2 ^ 32 -> zlen (rr_clients r) < 2 ^ 32 ->
  router_run (map Get keys) r =
    Some (map (fun k => rr_clients r !! Z.to_nat ((round_index_ r + Z.of_nat k) mod zlen (rr_clients r))) (seq 0 (length keys)),
          mkRoundRobin (rr_clients r) (round_index_ r + zlen keys)).
Proof.
  intros Hne. assert (Hl : 0 < zlen (rr_clients r)) by (destruct r as [[|] ?]; [done | simpl; lia]).
  revert r Hne Hl. induction keys as [|key keys IH]; intros r Hne Hl H0 Hk Hn.
  - simpl. do 2 f_equal. destruct r; simpl. f_equal. simpl. lia.
  - rewrite length_cons in Hk.
    destruct (lookup_mod (rr_clients r) (round_index_ r) Hne) as [c Hc].
    cbn [map router_run GetNextClient RoundRobin_router]. rewrite (round_robin_get key r c) by (done || lia). cbn [mbind option_bind].
    rewrite IH by (simpl; first [done | lia | lia]). cbn [mbind option_bind rr_clients round_index_ length seq map].
    rewrite <- seq_shift, map_map, Z.add_0_r, Hc. do 2 f_equal.
    + f_equal. apply map_ext. intros k. by replace (round_index_ r + 1 + Z.of_nat k) with (round_index_ r + Z.of_nat (S k)) by lia.
    + replace (round_index_ r + 1 + zlen keys) with (round_index_ r + zlen (key :: keys)); [done|].
      cbn [length]. lia.
Qed.

Lemma rotation_permutation s n :
  0 <= s -> map (fun k => Z.to_nat ((s + Z.of_nat k) mod Z.of_nat n)) (seq 0 n) ≡ₚ seq 0 n.
Proof.
  intros Hs. symmetry. apply NoDup_Permutation_bis; [apply seq_NoDup | by rewrite length_map, length_seq |].
  intros j Hj%in_seq. apply in_map_iff. exists (Z.to_nat ((Z.of_nat j - s) mod Z.of_nat n)).
  pose proof (Z.mod_pos_bound (Z.of_nat j - s) (Z.of_nat n) ltac:(lia)). split; [|apply in_seq; lia].
  rewrite Z2Nat.id by lia. rewrite Z.add_mod_idemp_r by lia. replace (s + (Z.of_nat j - s)) with (Z.of_nat j) by lia.
  rewrite Z.mod_small by lia. lia.
Qed.

Lemma map_lookup_seq {A} (l : list A) : map (fun i => l !! i) (seq 0 (length l)) = map Some l.
Proof.
  induction l as [|x l IH]; [done|]. cbn [length seq map]. f_equal. rewrite <- IH, <- seq_shift, map_map. done.
Qed.

(** Round robin is fair: as many consecutive requests as there are clients go to
    every client exactly once, wherever the counter stands, as long as it does not
    wrap within them. *)
Theorem round_robin_fair r keys :
  rr_clients r <> [] -> 0 <= round_index_ r -> round_index_ r + zlen keys < 2 ^ 32 -> zlen (rr_clients r) < 2 ^ 32 ->
  length keys = length (rr_clients r) ->
  exists out r', router_run (map Get keys) r = Some (out, r') /\ out ≡ₚ map Some (rr_clients r).
Proof.
  intros Hne H0 Hk Hn Hl. rewrite round_robin_run by done. do 2 eexists. split; [done|]. rewrite Hl.
  rewrite <- (map_map (fun k => Z.to_nat ((round_index_ r + Z.of_nat k) mod zlen (rr_clients r))) (fun i => rr_clients r !! i)).
  rewrite <- (map_lookup_seq (rr_clients r)). by apply Permutation_map, rotation_permutation.
Qed.

(** *** The hash ring *)

(** Consistent hashing: a new client takes requests over, but never moves a
    request from one old client to another. *)
Theorem ring_add_client_minimal r c key :
  exists oc oc', RingHash_GetNextClient key r = Some (oc, r) /\
    RingHash_GetNextClient key (RingHash_AddClient c r) = Some (oc', RingHash_AddClient c r) /\ (oc' = oc \/ oc' = Some c).
Proof.
  unfold RingHash_GetNextClient. do 2 eexists. split_and!; [done..|]. unfold RingHash_AddClient. simpl.
  generalize (u32 (murmur32 key 0x80000000)) (seq 0 (Z.to_nat (vnode_count_ r))). intros h l.
  generalize (nodes_ r). induction l as [|i l IH]; intros m; simpl; [by left|].
  destruct (IH (ConsistentHashMap.insert NodeHasher (ClientNode_new c (Z.of_nat i)) m).1.1) as [-> | ->]; [|by right].
  destruct (ConsistentHashMap.find_after_insert NodeHasher h (ClientNode_new c (Z.of_nat i)) m) as [-> | ->]; [by left | by right].
Qed.

(** *** The Maglev table *)

Lemma node_list_nums cs x : zlen cs < 2 ^ 31 -> x ∈ map Maglev.num (node_list cs) -> 0 <= x < zlen cs.
Proof.
  intros Hn (e & -> & He)%list_elem_of_fmap. apply elem_of_lookup_imap in He as (i & c & -> & Hi).
  apply lookup_lt_Some in Hi. simpl. rewrite u32_id; lia.
Qed.

(** A started Maglev router with clients, whose walks do not wrap, has a client
    for every key. *)
Theorem maglev_router_serves r key :
  mr_clients r <> [] -> zlen (mr_clients r) < 2 ^ 31 ->
  Forall (Maglev.endpoint_ok murmur128 Maglev.RingSize) (node_list (mr_clients r)) ->
  exists r' c, Maglev_StartRouter r = Some r' /\ Maglev_GetNextClient key r' = Some (Some c, r').
Proof.
  intros Hne Hn Hok. destruct (Maglev.ring_total murmur128 Maglev.RingSize Maglev.RingSize_prime ltac:(done) (node_list (mr_clients r)))
    as (t & Ht & Hlen & Hall); [by destruct (mr_clients r) | done |].
  unfold Maglev_StartRouter. rewrite Ht. exists (mkMaglevRouter t (mr_clients r)). unfold Maglev_GetNextClient. cbn [mr_clients lookup_table_].
  rewrite Hlen. destruct (mr_clients r) as [|c0 cs] eqn:Ec; [done|]. rewrite <- Ec in *.
  rewrite (proj2 (Z.eqb_neq Maglev.RingSize 0)) by done. set (i := Z.to_nat _).
  assert (Hi : (i < length t)%nat).
  { pose proof (Z.mod_pos_bound (u32 (murmur32 key k_num_seed)) Maglev.RingSize ltac:(done)). unfold i. lia. }
  destruct (lookup_lt_is_Some_2 t i Hi) as [en Hen]. rewrite Hen. cbn [mbind option_bind].
  rewrite Forall_lookup in Hall. pose proof (node_list_nums _ _ Hn (Hall i en Hen)) as Hr.
  rewrite u32_id by lia. rewrite (proj2 (Z.ltb_lt _ _)) by lia.
  destruct (lookup_lt_is_Some_2 (mr_clients r) (Z.to_nat en)) as [c Hc]; [lia|].
  exists c. rewrite Hc. done.
Qed.

End Routers.

(** Clients named by a byte, with a hash that adds up the bytes and the seed. *)
Definition ip_of (c : Z) : list Z := [c].
Definition sum32 (s : list Z) (seed : Z) : Z := foldl Z.add seed s.

Lemma round_robin_fair_witness :
  exists out r', router_run (map Get [[1]; [2]; [3]]) (mkRoundRobin [10; 20; 30] 4) = Some (out, r') /\ out ≡ₚ map Some [10; 20; 30].
Proof. apply (round_robin_fair (mkRoundRobin [10; 20; 30] 4) [[1]; [2]; [3]]); vm_compute; congruence. Defined.

Lemma maglev_router_serves_witness :
  exists r' c, Maglev_StartRouter ip_of sum32 Maglev.word_pair (mkMaglevRouter [] [10; 20; 30]) = Some r' /\
    Maglev_GetNextClient sum32 [1; 2] r' = Some (Some c, r').
Proof.
  apply (maglev_router_serves ip_of sum32 Maglev.word_pair (mkMaglevRouter [] [10; 20; 30]) [1; 2]); [done | vm_compute; congruence |].
  repeat constructor; vm_compute; congruence.
Defined.

Lemma ring_find_successor_witness :
  let m := [(5, 1); (9, 2); (100, 3)] in
  exists e, ConsistentHashMap.find 50 m = Some e /\ In e m /\
    Forall (fun x => ConsistentHashMap.clockwise 50 e.1 <= ConsistentHashMap.clockwise 50 x.1) m.
Proof. apply (ConsistentHashMap.ring_find_successor 50 [(5, 1); (9, 2); (100, 3)]); repeat constructor; vm_compute; congruence. Defined.

End Routers.
