(* ===== verification/ClientChannel.v ===== *)
(** * Client channels (net_io/clients/{client_channel,async_channel,queued_channel}.{h,cc})

    A client channel matches the responses of one connection with the requests
    that were sent on it: [AsyncChannel] by id, [QueuedChannel] in order.  Messages
    are shared objects: [m_ptr] is the identity of the object.  The codec below is an
    interface, [ClientCodec]; the delegate (the client) is observed, and the delayed
    tasks a channel posts are kept so that any of them can be fired at any time.
    [done_] lists the messages [HandleResponse] was called with, in order, and the
    branch it took. *)
From stdpp Require Import gmap.
From S2P Require Import Prelude.

(** ** Messages (net_io/codec/codec_message.{h,cc}) *)

Inductive MessageCode := kSuccess | kTimeOut | kConnBroken | kBadMessage | kNotConnected.

Record Message := mkMessage { m_ptr : Z; m_async : Z; code_ : MessageCode }.

Definition SetFailCode (reason : MessageCode) (m : Message) : Message := mkMessage (m_ptr m) (m_async m) reason.
Definition FailCode (m : Message) : MessageCode := code_ m.

(** What a channel needs of a codec service.  [SendRequest] may set the id of the
    message and says whether it was accepted; [CloseService] is called with
    [block_callback], so it does not call back. *)
Class ClientCodec (X : Type) := {
  codec_send : Message -> X -> bool * Message * X;
  codec_close : X -> X;
  codec_connected : X -> bool;
  codec_start : X -> X;
  codec_new_heartbeat : X -> Message * X;
  codec_keep_heartbeat : bool;
}.

(** What the id of a request tells: a codec that numbers its requests.  [next_id] is the
    number of the next request, [total] bounds it from above by what the requests of
    other connections can still add; the laws hold while the numbers fit 64 bits. *)
Class CodecIds (X : Type) `{!ClientCodec X} := {
  next_id : X -> Z;
  total : X -> Z;
  send_ptr m x : m_ptr (codec_send m x).1.2 = m_ptr m;
  send_id m x : total x + 1 < 2 ^ 64 -> m_async (codec_send m x).1.2 = next_id x;
  send_next m x : total x + 1 < 2 ^ 64 -> next_id x < next_id (codec_send m x).2 /\ total (codec_send m x).2 <= total x + 1;
  close_next x : next_id (codec_close x) = next_id x /\ total (codec_close x) = total x;
  heartbeat_next x : next_id (codec_new_heartbeat x).2 = next_id x /\ total (codec_new_heartbeat x).2 = total x;
}.

(** ** The common part (client_channel.{h,cc}) *)
Module ClientChannel.

Inductive State := kInitialing | kReady | kClosing | kDisconnected.

Inductive branch := Heartbeat | Delegated | Unhandled.

Inductive event := ChannelInited | ChannelClosed | AddTimeoutEvent (ms : Z) | RemoveTimeoutEvent.

Section Base.
Context {X : Type} `{!ClientCodec X}.

Record ClientChannel := mkBase {
  delegate_ : bool;
  state_ : State;
  codec_ : X;
  request_timeout_ : Z;
  heartbeat_timer_ : bool;
  heartbeat_message_ : option Message;
  done_ : list (Message * option Message * branch);
  posted : list Message;               (* the weak references of the delayed tasks *)
  events : list event;
}.

Definition ClientChannel_new (d : bool) (service : X) : ClientChannel :=
  mkBase d kInitialing service 5000 false None [] [] [].

Definition set_state (s : State) (c : ClientChannel) : ClientChannel :=
  mkBase (delegate_ c) s (codec_ c) (request_timeout_ c) (heartbeat_timer_ c) (heartbeat_message_ c) (done_ c) (posted c) (events c).
Definition set_delegate (d : bool) (c : ClientChannel) : ClientChannel :=
  mkBase d (state_ c) (codec_ c) (request_timeout_ c) (heartbeat_timer_ c) (heartbeat_message_ c) (done_ c) (posted c) (events c).
Definition set_codec (x : X) (c : ClientChannel) : ClientChannel :=
  mkBase (delegate_ c) (state_ c) x (request_timeout_ c) (heartbeat_timer_ c) (heartbeat_message_ c) (done_ c) (posted c) (events c).
Definition set_timer (t : bool) (c : ClientChannel) : ClientChannel :=
  mkBase (delegate_ c) (state_ c) (codec_ c) (request_timeout_ c) t (heartbeat_message_ c) (done_ c) (posted c) (events c).
Definition set_heartbeat (m : option Message) (c : ClientChannel) : ClientChannel :=
  mkBase (delegate_ c) (state_ c) (codec_ c) (request_timeout_ c) (heartbeat_timer_ c) m (done_ c) (posted c) (events c).
Definition record_done (m : Message) (res : option Message) (b : branch) (c : ClientChannel) : ClientChannel :=
  mkBase (delegate_ c) (state_ c) (codec_ c) (request_timeout_ c) (heartbeat_timer_ c) (heartbeat_message_ c)
    (done_ c ++ [(m, res, b)]) (posted c) (events c).
Definition notify (e : event) (c : ClientChannel) : ClientChannel :=
  mkBase (delegate_ c) (state_ c) (codec_ c) (request_timeout_ c) (heartbeat_timer_ c) (heartbeat_message_ c) (done_ c) (posted c) (events c ++ [e]).
(** [PostDelayTask] of [OnRequestTimeout] with a weak reference. *)
Definition post_timeout (m : Message) (c : ClientChannel) : ClientChannel :=
  mkBase (delegate_ c) (state_ c) (codec_ c) (request_timeout_ c) (heartbeat_timer_ c) (heartbeat_message_ c) (done_ c) (posted c ++ [m]) (events c).

Definition SetRequestTimeout (ms : Z) (c : ClientChannel) : ClientChannel :=
  mkBase (delegate_ c) (state_ c) (codec_ c) (u32 ms) (heartbeat_timer_ c) (heartbeat_message_ c) (done_ c) (posted c) (events c).

Definition Ready (c : ClientChannel) : bool := match state_ c with kReady => true | _ => false end.

Definition StartClientChannel (c : ClientChannel) : ClientChannel := set_codec (codec_start (codec_ c)) c.

Definition HandleResponse (req : Message) (res : option Message) (c : ClientChannel) : bool * ClientChannel :=
  if match heartbeat_message_ c with Some h => m_ptr h =? m_ptr req | None => false end then
    (true, record_done req res Heartbeat (set_heartbeat None c))
  else if delegate_ c then (true, record_done req res Delegated c)
  else (false, record_done req res Unhandled c).

Definition drop_timer (c : ClientChannel) : ClientChannel :=
  if heartbeat_timer_ c then set_timer false (notify RemoveTimeoutEvent c) else c.

Definition OnCodecClosed_base (c : ClientChannel) : ClientChannel := drop_timer c.

(** [heartbeat_ms] is the delegate's configuration. *)
Definition OnCodecReady (heartbeat_ms : Z) (c : ClientChannel) : ClientChannel :=
  let c := set_state kReady c in
  let ms := if delegate_ c then heartbeat_ms else 0 in
  let c := if delegate_ c then notify ChannelInited c else c in
  if codec_keep_heartbeat && (50 <? ms) then set_timer true (notify (AddTimeoutEvent ms) c) else c.

(** Fail a list of requests with [kConnBroken], in order. *)
Definition fail_all (reqs : list Message) (c : ClientChannel) : ClientChannel :=
  foldl (fun c req => (HandleResponse (SetFailCode kConnBroken req) None c).2) c reqs.

(** The pointers of the requests answered so far, in order. *)
Definition answered (c : ClientChannel) : list Z := map (fun e => m_ptr e.1.1) (done_ c).

Lemma answered_handle req res c : answered (HandleResponse req res c).2 = answered c ++ [m_ptr req].
Proof.
  unfold HandleResponse, answered. destruct (match heartbeat_message_ c with Some _ => _ | None => _ end); simpl.
  - by rewrite map_app.
  - destruct (delegate_ c); simpl; by rewrite map_app.
Qed.

Lemma HandleResponse_keeps req res c :
  codec_ (HandleResponse req res c).2 = codec_ c /\ posted (HandleResponse req res c).2 = posted c /\
  delegate_ (HandleResponse req res c).2 = delegate_ c.
Proof.
  unfold HandleResponse. destruct (match heartbeat_message_ c with Some _ => _ | None => _ end); [done|].
  by destruct (delegate_ c) eqn:E.
Qed.

Lemma fail_all_facts reqs c :
  answered (fail_all reqs c) = answered c ++ map m_ptr reqs /\ codec_ (fail_all reqs c) = codec_ c /\
  posted (fail_all reqs c) = posted c.
Proof.
  revert c. unfold fail_all. induction reqs as [|r reqs IH]; intros c; simpl; [by rewrite app_nil_r|].
  destruct (IH (HandleResponse (SetFailCode kConnBroken r) None c).2) as (-> & -> & ->).
  destruct (HandleResponse_keeps (SetFailCode kConnBroken r) None c) as (-> & -> & _).
  rewrite answered_handle. split_and!; try done. by rewrite <- app_assoc.
Qed.
Lemma drop_timer_keeps c :
  done_ (drop_timer c) = done_ c /\ posted (drop_timer c) = posted c /\ codec_ (drop_timer c) = codec_ c.
Proof. unfold drop_timer. by destruct (heartbeat_timer_ c). Qed.

End Base.
Arguments ClientChannel : clear implicits.
End ClientChannel.

(** ** Matching by id (async_channel.{h,cc}) *)
Module AsyncChannel.
Import ClientChannel.

(** [unordered_map] iterates in an unspecified order: [iter_order] is any. *)
Section Async.
Context {X : Type} `{!ClientCodec X}.
Variable iter_order : gmap Z Message -> list (Z * Message).

Record AsyncChannel := mkAsync { base : ClientChannel X; in_progress_ : gmap Z Message }.

Definition with_base (f : ClientChannel X -> ClientChannel X) (a : AsyncChannel) : AsyncChannel := mkAsync (f (base a)) (in_progress_ a).

Definition SendRequest (request : Message) (a : AsyncChannel) : AsyncChannel :=
  let '(success, request, x) := codec_send request (codec_ (base a)) in
  let c := set_codec x (base a) in
  if success : bool then
    mkAsync (post_timeout request c)
      (match in_progress_ a !! m_async request with
       | Some _ => in_progress_ a       (* insert keeps the entry *)
       | None => <[m_async request := request]> (in_progress_ a)
       end)
  else mkAsync (HandleResponse (SetFailCode kConnBroken request) None c).2 (in_progress_ a).

(** [weak] locks when the object is still in the map, or [held] by someone else. *)
Definition OnRequestTimeout (weak : Message) (held : bool) (a : AsyncChannel) : AsyncChannel :=
  let pending := match in_progress_ a !! m_async weak with Some m => m_ptr m =? m_ptr weak | None => false end in
  if negb (pending || held) then a
  else
    let identify := m_async weak in
    match in_progress_ a !! identify with
    | None => a
    | Some _ => mkAsync (HandleResponse (SetFailCode kTimeOut weak) None (base a)).2 (delete identify (in_progress_ a))
    end.

Definition BeforeCloseChannel (a : AsyncChannel) : AsyncChannel :=
  mkAsync (fail_all (map snd (iter_order (in_progress_ a))) (base a)) ∅.

Definition OnCodecMessage (res : Message) (a : AsyncChannel) : option AsyncChannel :=
  let identify := m_async res in
  match in_progress_ a !! identify with
  | None => Some a
  | Some request =>
      if m_async request =? identify then
        Some (mkAsync (HandleResponse request (Some res) (base a)).2 (delete identify (in_progress_ a)))
      else None
  end.

Definition OnCodecClosed (a : AsyncChannel) : AsyncChannel :=
  let a := mkAsync (fail_all (map snd (iter_order (in_progress_ a))) (base a)) ∅ in
  let a := if delegate_ (base a) then with_base (notify ChannelClosed) a else a in
  with_base OnCodecClosed_base a.

Definition CloseClientChannel (a : AsyncChannel) : AsyncChannel :=
  let a := with_base (set_state kClosing) a in
  let a := BeforeCloseChannel a in
  let a := with_base (set_delegate false) a in
  let a := with_base (fun c => set_codec (codec_close (codec_ c)) c) a in
  let a := OnCodecClosed a in
  with_base (fun c => set_state kDisconnected (drop_timer c)) a.

Definition OnHearbeatTimerInvoke (a : AsyncChannel) : AsyncChannel :=
  match heartbeat_message_ (base a) with
  | Some _ => a
  | None =>
      let '(m, x) := codec_new_heartbeat (codec_ (base a)) in
      SendRequest m (with_base (fun c => set_heartbeat (Some m) (set_codec x c)) a)
  end.

(** What can happen to a channel: a request, the heartbeat timer, the [k]-th delayed
    task, a message from the peer, the codec becoming ready or closing, the client
    closing the channel. *)
Inductive op := Send (m : Message) | Beat | Fire (k : nat) (held : bool) | Receive (res : Message)
              | CodecReady (heartbeat_ms : Z) | CodecClosed | CloseChannel.

Definition step (o : op) (a : AsyncChannel) : option AsyncChannel :=
  match o with
  | Send m => Some (SendRequest m a)
  | Beat => Some (OnHearbeatTimerInvoke a)
  | Fire k held => Some (match posted (base a) !! k with Some m => OnRequestTimeout m held a | None => a end)
  | Receive res => OnCodecMessage res a
  | CodecReady ms => Some (with_base (OnCodecReady ms) a)
  | CodecClosed => Some (OnCodecClosed a)
  | CloseChannel => Some (CloseClientChannel a)
  end.

(** The request an operation hands to the codec. *)
Definition op_sends (o : op) (a : AsyncChannel) : list Z :=
  match o with
  | Send m => [m_ptr m]
  | Beat => match heartbeat_message_ (base a) with None => [m_ptr (codec_new_heartbeat (codec_ (base a))).1] | Some _ => [] end
  | _ => []
  end.

(** The final state and the requests sent on the way. *)
Fixpoint run (ops : list op) (a : AsyncChannel) : option (list Z * AsyncChannel) :=
  match ops with
  | [] => Some ([], a)
  | o :: ops' => a' ← step o a; r ← run ops' a'; Some (op_sends o a ++ r.1, r.2)
  end.

Hypothesis iter_perm : forall m, iter_order m ≡ₚ map_to_list m.
Context `{!CodecIds X}.

Definition pending (a : AsyncChannel) : list Z := map (fun e => m_ptr e.2) (map_to_list (in_progress_ a)).

Definition ids_ok (a : AsyncChannel) : Prop :=
  (forall i m, in_progress_ a !! i = Some m -> m_async m = i /\ i < next_id (codec_ (base a))) /\
  Forall (fun w => m_async w < next_id (codec_ (base a)) /\
    (forall m, in_progress_ a !! m_async w = Some m -> m_ptr m = m_ptr w)) (posted (base a)).

Definition matched (a : AsyncChannel) : Prop :=
  Forall (fun e => forall r, e.1.2 = Some r -> m_async e.1.1 = m_async r) (done_ (base a)).

(** The requests answered and the ones in flight are those sent. *)
Definition accounted (sent : list Z) (a : AsyncChannel) : Prop := answered (base a) ++ pending a ≡ₚ sent.

Definition inv (sent : list Z) (a : AsyncChannel) : Prop := accounted sent a /\ ids_ok a /\ matched a.

Lemma matched_handle req res c :
  Forall (fun e => forall r, e.1.2 = Some r -> m_async e.1.1 = m_async r) (done_ c) ->
  (forall r, res = Some r -> m_async req = m_async r) ->
  Forall (fun e => forall r, e.1.2 = Some r -> m_async e.1.1 = m_async r) (done_ (HandleResponse (X := X) req res c).2).
Proof.
  intros Hc Hr. unfold HandleResponse. destruct (match heartbeat_message_ c with Some _ => _ | None => _ end);
    [|destruct (delegate_ c)]; apply Forall_app; (split; [done | by constructor]).
Qed.

Lemma matched_fail_all reqs c :
  Forall (fun e => forall r, e.1.2 = Some r -> m_async e.1.1 = m_async r) (done_ c) ->
  Forall (fun e => forall r, e.1.2 = Some r -> m_async e.1.1 = m_async r) (done_ (fail_all (X := X) reqs c)).
Proof.
  revert c. unfold fail_all. induction reqs as [|r reqs IH]; intros c Hc; simpl; [done|].
  apply IH, matched_handle; done.
Qed.

Lemma pending_delete a i m :
  in_progress_ a !! i = Some m ->
  pending a ≡ₚ m_ptr m :: map (fun e => m_ptr e.2) (map_to_list (delete i (in_progress_ a))).
Proof.
  intros H. unfold pending. rewrite <- (insert_delete_id (in_progress_ a) i m H) at 1.
  rewrite map_to_list_insert by apply lookup_delete_eq. done.
Qed.

Lemma SendRequest_inv sent m a : total (codec_ (base a)) + 1 < 2 ^ 64 -> inv sent a -> inv (sent ++ [m_ptr m]) (SendRequest m a).
Proof.
  intros Ht (Hacc & [Hi Hp] & Hm). unfold SendRequest.
  pose proof (send_ptr m (codec_ (base a))) as Hptr. pose proof (send_id m (codec_ (base a)) Ht) as Hid.
  pose proof (proj1 (send_next m (codec_ (base a)) Ht)) as Hnx. destruct (codec_send m (codec_ (base a))) as [[ok req] x] eqn:E. simpl in *.
  assert (Hnew : in_progress_ a !! m_async req = None).
  { destruct (in_progress_ a !! m_async req) as [m'|] eqn:El; [|done]. apply Hi in El as [_ ?]. lia. }
  destruct ok.
  - rewrite Hnew. split_and!.
    + unfold accounted, pending, answered in *. simpl. rewrite map_to_list_insert by done. simpl. rewrite Hptr, <- Hacc.
      rewrite <- !app_assoc. apply Permutation_app_head. apply Permutation_cons_append.
    + split; simpl.
      * intros i m'. destruct (decide (i = m_async req)) as [->|Hne].
        -- rewrite lookup_insert_eq. intros [= ->]. split; [done | lia].
        -- rewrite lookup_insert_ne by done. intros Hl%Hi. destruct Hl. split; [done | lia].
      * apply Forall_app. split.
        -- eapply Forall_impl; [|exact Hp]. intros w [Hw1 Hw2]. simpl. split; [lia|]. intros m'.
           rewrite lookup_insert_ne by lia. auto.
        -- repeat constructor; [lia|]. intros m'. rewrite lookup_insert_eq. by intros [= ->].
    + done.
  - split_and!.
    + unfold accounted, pending in *. simpl. rewrite answered_handle. simpl. rewrite Hptr, <- Hacc. unfold answered. simpl.
      rewrite <- !app_assoc. apply Permutation_app_head, Permutation_app_comm.
    + unfold ids_ok. simpl. destruct (HandleResponse_keeps (SetFailCode kConnBroken req) None (set_codec x (base a))) as (-> & -> & _).
      simpl. split.
      * intros i m' Hl%Hi. destruct Hl. split; [done | lia].
      * eapply Forall_impl; [|exact Hp]. intros w [Hw1 Hw2]. split; [lia | done].
    + unfold matched. simpl. by apply matched_handle.
Qed.

(** Answering a pending request. *)
Lemma answer_inv sent a i m req res :
  in_progress_ a !! i = Some m -> m_ptr req = m_ptr m -> (forall r, res = Some r -> m_async req = m_async r) ->
  inv sent a -> inv sent (mkAsync (HandleResponse req res (base a)).2 (delete i (in_progress_ a))).
Proof.
  intros Hl Hptr Hr (Hacc & [Hi Hp] & Hm). split_and!.
  - unfold accounted, pending in *. simpl. rewrite answered_handle, <- Hacc, <- app_assoc. apply Permutation_app_head.
    rewrite Hptr. symmetry. by apply pending_delete.
  - unfold ids_ok. simpl. destruct (HandleResponse_keeps req res (base a)) as (-> & -> & _). split.
    + intros j m' [_ Hj]%lookup_delete_Some. by apply Hi.
    + eapply Forall_impl; [|exact Hp]. intros w [Hw1 Hw2]. split; [done|]. intros m' [_ Hj]%lookup_delete_Some. by apply Hw2.
  - unfold matched. simpl. by apply matched_handle.
Qed.

Lemma OnRequestTimeout_inv sent k held a w :
  posted (base a) !! k = Some w -> inv sent a -> inv sent (OnRequestTimeout w held a).
Proof.
  intros Hk Hinv. unfold OnRequestTimeout. destruct (negb _); [done|].
  destruct (in_progress_ a !! m_async w) as [m|] eqn:Hl; [|done].
  apply answer_inv with (m := m); try done. simpl. destruct Hinv as (_ & [_ Hp] & _).
  rewrite Forall_lookup in Hp. destruct (Hp _ _ Hk) as [_ Hw]. by rewrite (Hw _ Hl).
Qed.

Lemma OnCodecMessage_inv sent res a : inv sent a -> exists a', OnCodecMessage res a = Some a' /\ inv sent a'.
Proof.
  intros Hinv. unfold OnCodecMessage. destruct (in_progress_ a !! m_async res) as [m|] eqn:Hl; [|by exists a].
  destruct Hinv as (Hacc & [Hi Hp] & Hm). pose proof (proj1 (Hi _ _ Hl)) as Hid. rewrite (proj2 (Z.eqb_eq _ _)) by done.
  eexists. split; [done|]. apply answer_inv with (m := m); try done. by intros r [= <-].
Qed.

(** Failing everything that is in flight. *)
Lemma fail_pending_inv sent a :
  inv sent a -> inv sent (mkAsync (fail_all (map snd (iter_order (in_progress_ a))) (base a)) ∅).
Proof.
  intros (Hacc & [Hi Hp] & Hm). destruct (fail_all_facts (map snd (iter_order (in_progress_ a))) (base a)) as (Ha & Hc & Hpo).
  split_and!.
  - unfold accounted, pending in *. simpl. rewrite map_to_list_empty, app_nil_r, Ha, <- Hacc, map_map.
    apply Permutation_app_head, Permutation_map, iter_perm.
  - unfold ids_ok. simpl. rewrite Hc, Hpo. split; [by intros i m ?%lookup_empty_Some|].
    eapply Forall_impl; [|exact Hp]. intros w [Hw _]. split; [done|]. by intros m ?%lookup_empty_Some.
  - unfold matched. simpl. by apply matched_fail_all.
Qed.

(** Changes of the common part that touch neither the answers nor the delayed tasks. *)
Lemma with_base_inv sent f a :
  done_ (f (base a)) = done_ (base a) -> posted (f (base a)) = posted (base a) ->
  next_id (codec_ (base a)) <= next_id (codec_ (f (base a))) -> inv sent a -> inv sent (with_base f a).
Proof.
  intros Hd Hpo Hn (Hacc & [Hi Hp] & Hm). split_and!.
  - unfold accounted, pending, answered in *. simpl. by rewrite Hd.
  - unfold ids_ok. simpl. rewrite Hpo. split.
    + intros i m Hl%Hi. destruct Hl. split; [done | lia].
    + eapply Forall_impl; [|exact Hp]. intros w [Hw1 Hw2]. split; [lia | done].
  - unfold matched. simpl. by rewrite Hd.
Qed.

Lemma OnCodecClosed_inv sent a : inv sent a -> inv sent (OnCodecClosed a) /\ in_progress_ (OnCodecClosed a) = ∅.
Proof.
  intros H. apply fail_pending_inv in H. unfold OnCodecClosed. set (a1 := mkAsync _ _) in *.
  assert (H2 : inv sent (if delegate_ (base a1) then with_base (notify ChannelClosed) a1 else a1)).
  { destruct (delegate_ (base a1)); [|done]. apply with_base_inv; try done; simpl; lia. }
  split; [|by destruct (delegate_ (base a1))]. set (a2 := if delegate_ (base a1) then _ else _) in *.
  destruct (drop_timer_keeps (base a2)) as (? & ? & E). apply with_base_inv; try done. unfold OnCodecClosed_base. rewrite E. lia.
Qed.

Lemma CloseClientChannel_inv sent a :
  inv sent a -> inv sent (CloseClientChannel a) /\ in_progress_ (CloseClientChannel a) = ∅.
Proof.
  intros H. unfold CloseClientChannel. set (a1 := with_base (set_state kClosing) a).
  assert (H1 : inv sent a1) by (apply with_base_inv; simpl; done || lia). apply fail_pending_inv in H1.
  fold (BeforeCloseChannel a1) in H1. set (a2 := BeforeCloseChannel a1) in *.
  assert (H3 : inv sent (with_base (fun c => set_codec (codec_close (codec_ c)) c) (with_base (set_delegate false) a2))).
  { apply with_base_inv; [done | done | cbn; by rewrite (proj1 (close_next _)) |]. apply with_base_inv; simpl; done || lia. }
  destruct (OnCodecClosed_inv _ _ H3) as [H4 He]. set (a4 := OnCodecClosed _) in *. split; [|done].
  destruct (drop_timer_keeps (base a4)) as (Hd & Hp & E). apply with_base_inv; [exact Hd | exact Hp | | done].
  cbn [set_state codec_]. rewrite E. lia.
Qed.

Lemma OnHearbeatTimerInvoke_inv sent a :
  total (codec_ (base a)) + 1 < 2 ^ 64 -> inv sent a -> inv (sent ++ op_sends Beat a) (OnHearbeatTimerInvoke a).
Proof.
  intros Ht H. unfold OnHearbeatTimerInvoke. simpl. destruct (heartbeat_message_ (base a)); [by rewrite app_nil_r|].
  pose proof (heartbeat_next (codec_ (base a))) as Hn. destruct (codec_new_heartbeat (codec_ (base a))) as [m x]. simpl in *.
  destruct Hn as [Hn1 Hn2]. apply SendRequest_inv; [cbn; lia|]. apply with_base_inv; [done..|cbn; lia|done].
Qed.

Lemma OnCodecReady_inv sent ms a : inv sent a -> inv sent (with_base (OnCodecReady ms) a).
Proof.
  intros H. unfold OnCodecReady. apply with_base_inv; try done; simpl;
    destruct (codec_keep_heartbeat && _); destruct (delegate_ (base a)); simpl; done || lia.
Qed.

Lemma step_inv sent o a : total (codec_ (base a)) + 1 < 2 ^ 64 -> inv sent a -> exists a', step o a = Some a' /\ inv (sent ++ op_sends o a) a'.
Proof.
  intros Ht H. destruct o as [m| |k held|res|ms| |]; simpl; rewrite ?app_nil_r; try (eexists; split; [done|]).
  - by apply SendRequest_inv.
  - by apply OnHearbeatTimerInvoke_inv.
  - destruct (posted (base a) !! k) eqn:E; [by eapply OnRequestTimeout_inv | done].
  - by apply OnCodecMessage_inv.
  - by apply OnCodecReady_inv.
  - by apply OnCodecClosed_inv.
  - by apply CloseClientChannel_inv.
Qed.

(** An operation sends at most one request. *)
Lemma SendRequest_total m a : total (codec_ (base a)) + 1 < 2 ^ 64 -> total (codec_ (base (SendRequest m a))) <= total (codec_ (base a)) + 1.
Proof.
  intros Ht. unfold SendRequest. pose proof (proj2 (send_next m (codec_ (base a)) Ht)) as Hn.
  destruct (codec_send m (codec_ (base a))) as [[[] req] x]; cbn in *; [done|].
  by rewrite (proj1 (HandleResponse_keeps (SetFailCode kConnBroken req) None (set_codec x (base a)))).
Qed.

Lemma OnCodecClosed_codec a : codec_ (base (OnCodecClosed a)) = codec_ (base a).
Proof.
  unfold OnCodecClosed, OnCodecClosed_base. cbn. rewrite (proj2 (proj2 (drop_timer_keeps _))).
  destruct (delegate_ _); cbn; apply fail_all_facts.
Qed.

Lemma step_total o a a' :
  total (codec_ (base a)) + 1 < 2 ^ 64 -> step o a = Some a' -> total (codec_ (base a')) <= total (codec_ (base a)) + 1.
Proof.
  intros Ht. destruct o as [m| |k held|res|ms| |]; cbn [step].
  - intros [= <-]. by apply SendRequest_total.
  - intros [= <-]. unfold OnHearbeatTimerInvoke. destruct (heartbeat_message_ (base a)); [lia|].
    pose proof (proj2 (heartbeat_next (codec_ (base a)))) as Hn. destruct (codec_new_heartbeat _) as [m x]. cbn in Hn.
    etrans; [apply SendRequest_total; cbn; lia|]. cbn. lia.
  - intros [= <-]. destruct (posted (base a) !! k); [|lia]. unfold OnRequestTimeout. repeat case_match; cbn; try lia.
    rewrite (proj1 (HandleResponse_keeps _ _ _)). lia.
  - unfold OnCodecMessage. repeat case_match; intros [= <-]; cbn; rewrite ?(proj1 (HandleResponse_keeps _ _ _)); lia.
  - intros [= <-]. unfold OnCodecReady. cbn. destruct (codec_keep_heartbeat && _); destruct (delegate_ (base a)); cbn; lia.
  - intros [= <-]. rewrite OnCodecClosed_codec. lia.
  - intros [= <-]. unfold CloseClientChannel, BeforeCloseChannel. unfold with_base at 1. cbn [base set_state codec_]. rewrite (proj2 (proj2 (drop_timer_keeps _))), OnCodecClosed_codec. cbn.
    match goal with |- context [fail_all ?l ?c] => rewrite (proj1 (proj2 (fail_all_facts l c))) end. cbn. rewrite (proj2 (close_next _)). lia.
Qed.

Lemma run_inv ops sent a :
  total (codec_ (base a)) + Z.of_nat (length ops) < 2 ^ 64 -> inv sent a -> exists r, run ops a = Some r /\ inv (sent ++ r.1) r.2.
Proof.
  revert sent a. induction ops as [|o ops IH]; intros sent a Ht H; [exists ([], a); by rewrite app_nil_r|].
  cbn [run]. rewrite length_cons in Ht. destruct (step_inv sent o a ltac:(lia) H) as (a' & E & H').
  pose proof (step_total o a a' ltac:(lia) E). rewrite E. cbn [mbind option_bind].
  destruct (IH (sent ++ op_sends o a) a' ltac:(lia) H') as (r & -> & Hr). eexists. split; [done|]. simpl. by rewrite app_assoc.
Qed.

Lemma new_inv d x : inv [] (mkAsync (ClientChannel_new d x) ∅).
Proof.
  split_and!; [unfold accounted, pending; simpl; by rewrite map_to_list_empty | | by constructor].
  split; [|by constructor]. intros i m H. exfalso. exact (lookup_empty_Some i m H).
Qed.

(** The account of a channel over a codec that numbers its requests. *)
Lemma channel_account ops d x :
  total x + Z.of_nat (length ops) < 2 ^ 64 ->
  exists sent a, run ops (mkAsync (ClientChannel_new d x) ∅) = Some (sent, a) /\
    answered (base a) ++ pending a ≡ₚ sent /\
    Forall (fun e => forall r, e.1.2 = Some r -> m_async e.1.1 = m_async r) (done_ (base a)) /\
    answered (base (OnCodecClosed a)) ≡ₚ sent /\ answered (base (CloseClientChannel a)) ≡ₚ sent.
Proof.
  intros Ht. destruct (run_inv ops [] (mkAsync (ClientChannel_new d x) ∅) Ht (new_inv d x)) as ([sent a] & Hr & Hinv). exists sent, a. simpl in Hinv.
  assert (Hlast : forall a', inv sent a' -> in_progress_ a' = ∅ -> answered (base a') ≡ₚ sent).
  { intros a' [Hacc _] He. unfold accounted, pending in Hacc. by rewrite He, map_to_list_empty, app_nil_r in Hacc. }
  destruct (OnCodecClosed_inv _ _ Hinv) as [Ho Heo]. destruct (CloseClientChannel_inv _ _ Hinv) as [Hc Hec].
  split_and!; [done | apply Hinv | apply Hinv | by apply Hlast | by apply Hlast].
Qed.
End Async.
End AsyncChannel.

(** ** Matching in order (queued_channel.{h,cc}) *)
Module QueuedChannel.
Import ClientChannel.

Section Queued.
Context {X : Type} `{!ClientCodec X}.
(** [TrySendNext] reads the reference [next] after [pop_front] has destroyed the node it
    refers to: what that read yields. *)
Variable freed_node : Message -> Message.

Record QueuedChannel := mkQueued { base : ClientChannel X; ing_request_ : option Message; waiting_list_ : list Message }.

Definition with_base (f : ClientChannel X -> ClientChannel X) (q : QueuedChannel) : QueuedChannel :=
  mkQueued (f (base q)) (ing_request_ q) (waiting_list_ q).

(** The [while] loop. *)
Fixpoint send_loop (waiting : list Message) (c : ClientChannel X) : QueuedChannel :=
  match waiting with
  | [] => mkQueued c None []
  | next :: waiting' =>
      let '(success, next, x) := codec_send next (codec_ c) in
      let c := set_codec x c in
      let next := freed_node next in
      if success : bool then mkQueued c (Some next) waiting'
      else send_loop waiting' (HandleResponse (SetFailCode kConnBroken next) None c).2
  end.

Definition TrySendNext (q : QueuedChannel) : bool * QueuedChannel :=
  match ing_request_ q with
  | Some _ => (true, q)
  | None =>
      let q := send_loop (waiting_list_ q) (base q) in
      match ing_request_ q with
      | Some m => (true, with_base (post_timeout m) q)
      | None => (false, q)
      end
  end.

Definition SendRequest (request : Message) (q : QueuedChannel) : QueuedChannel :=
  (TrySendNext (mkQueued (base q) (ing_request_ q) (waiting_list_ q ++ [request]))).2.

(** Answer the request in flight and the waiting ones, in order. *)
Definition BeforeCloseChannel (q : QueuedChannel) : QueuedChannel :=
  let c := match ing_request_ q with
           | Some m => (HandleResponse (SetFailCode kConnBroken m) None (base q)).2
           | None => base q
           end in
  mkQueued (fail_all (waiting_list_ q) c) None [].

Definition OnCodecClosed (q : QueuedChannel) : QueuedChannel :=
  let c := match ing_request_ q with
           | Some m => (HandleResponse (SetFailCode kConnBroken m) None (base q)).2
           | None => base q
           end in
  let q := mkQueued (fail_all (waiting_list_ q) c) None [] in
  let q := if delegate_ (base q) then with_base (notify ChannelClosed) q else q in
  with_base OnCodecClosed_base q.

(** [weak] locks when the object is in flight, or [held] by someone else; a request that
    is not the one in flight is left alone either way. *)
Definition OnRequestTimeout (weak : Message) (held : bool) (q : QueuedChannel) : QueuedChannel :=
  match ing_request_ q with
  | None => q
  | Some ing =>
      if m_ptr weak =? m_ptr ing then
        let q := mkQueued (HandleResponse (SetFailCode kTimeOut weak) None (base q)).2 None (waiting_list_ q) in
        let q := if codec_connected (codec_ (base q)) then with_base (fun c => set_codec (codec_close (codec_ c)) c) q else q in
        OnCodecClosed q
      else q
  end.

Definition OnCodecMessage (res : Message) (q : QueuedChannel) : QueuedChannel :=
  match ing_request_ q with
  | None => q
  | Some req => (TrySendNext (mkQueued (HandleResponse req (Some res) (base q)).2 None (waiting_list_ q))).2
  end.

Definition CloseClientChannel (q : QueuedChannel) : QueuedChannel :=
  let q := with_base (set_state kClosing) q in
  let q := BeforeCloseChannel q in
  let q := with_base (set_delegate false) q in
  let q := with_base (fun c => set_codec (codec_close (codec_ c)) c) q in
  let q := OnCodecClosed q in
  with_base (fun c => set_state kDisconnected (drop_timer c)) q.

Definition OnHearbeatTimerInvoke (q : QueuedChannel) : QueuedChannel :=
  match heartbeat_message_ (base q) with
  | Some _ => q
  | None =>
      let '(m, x) := codec_new_heartbeat (codec_ (base q)) in
      SendRequest m (with_base (fun c => set_heartbeat (Some m) (set_codec x c)) q)
  end.

Definition step (o : AsyncChannel.op) (q : QueuedChannel) : QueuedChannel :=
  match o with
  | AsyncChannel.Send m => SendRequest m q
  | AsyncChannel.Beat => OnHearbeatTimerInvoke q
  | AsyncChannel.Fire k held => match posted (base q) !! k with Some m => OnRequestTimeout m held q | None => q end
  | AsyncChannel.Receive res => OnCodecMessage res q
  | AsyncChannel.CodecReady ms => with_base (OnCodecReady ms) q
  | AsyncChannel.CodecClosed => OnCodecClosed q
  | AsyncChannel.CloseChannel => CloseClientChannel q
  end.

Definition op_sends (o : AsyncChannel.op) (q : QueuedChannel) : list Z :=
  match o with
  | AsyncChannel.Send m => [m_ptr m]
  | AsyncChannel.Beat => match heartbeat_message_ (base q) with None => [m_ptr (codec_new_heartbeat (codec_ (base q))).1] | Some _ => [] end
  | _ => []
  end.

Fixpoint run (ops : list AsyncChannel.op) (q : QueuedChannel) : list Z * QueuedChannel :=
  match ops with
  | [] => ([], q)
  | o :: ops' => let r := run ops' (step o q) in (op_sends o q ++ r.1, r.2)
  end.

Hypothesis freed_node_intact : forall m, freed_node m = m.
Hypothesis send_keeps_ptr : forall m x, m_ptr (codec_send m x).1.2 = m_ptr m.

(** The requests, in the order they were sent: answered, in flight, waiting. *)
Definition sequence (q : QueuedChannel) : list Z :=
  answered (base q) ++ map m_ptr (option_list (ing_request_ q)) ++ map m_ptr (waiting_list_ q).

Lemma sequence_base f q : done_ (f (base q)) = done_ (base q) -> sequence (with_base f q) = sequence q.
Proof. intros H. unfold sequence, answered. simpl. by rewrite H. Qed.

Lemma send_loop_sequence waiting c : sequence (send_loop waiting c) = answered c ++ map m_ptr waiting.
Proof.
  revert c. induction waiting as [|m waiting IH]; intros c; [done|]. simpl.
  pose proof (send_keeps_ptr m (codec_ c)) as Hp. destruct (codec_send m (codec_ c)) as [[ok m'] x]. simpl in Hp.
  rewrite freed_node_intact. destruct ok.
  - unfold sequence. simpl. by rewrite Hp.
  - rewrite IH, answered_handle. simpl. rewrite Hp, <- app_assoc. done.
Qed.

Lemma TrySendNext_sequence q : sequence (TrySendNext q).2 = sequence q.
Proof.
  unfold TrySendNext. destruct (ing_request_ q) eqn:E; [done|].
  assert (H : sequence (send_loop (waiting_list_ q) (base q)) = sequence q).
  { rewrite send_loop_sequence. unfold sequence. by rewrite E. }
  destruct (ing_request_ (send_loop _ _)); simpl; [by rewrite sequence_base | done].
Qed.

Lemma fail_everything_sequence q :
  sequence (BeforeCloseChannel q) = sequence q /\ answered (base (BeforeCloseChannel q)) = sequence q.
Proof.
  unfold BeforeCloseChannel, sequence. simpl. rewrite app_nil_r.
  match goal with |- context [fail_all ?l ?c] => destruct (fail_all_facts l c) as (-> & _ & _) end.
  destruct (ing_request_ q) as [m|]; simpl; [rewrite answered_handle; simpl; by rewrite <- app_assoc | done].
Qed.

Lemma OnCodecClosed_sequence q :
  sequence (OnCodecClosed q) = sequence q /\ answered (base (OnCodecClosed q)) = sequence q.
Proof.
  assert (E : OnCodecClosed q = with_base OnCodecClosed_base (let b := BeforeCloseChannel q in
    if delegate_ (base b) then with_base (notify ChannelClosed) b else b)) by done.
  assert (Hw : waiting_list_ (OnCodecClosed q) = [] /\ ing_request_ (OnCodecClosed q) = None)
    by (rewrite E; cbv zeta; by destruct (delegate_ _)).
  assert (Hs : sequence (OnCodecClosed q) = sequence q).
  { rewrite E, sequence_base by apply (drop_timer_keeps). destruct (fail_everything_sequence q) as [Hs _].
    cbv zeta. destruct (delegate_ _); [by rewrite sequence_base | done]. }
  split; [done|]. rewrite <- Hs at 1. unfold sequence. destruct Hw as [-> ->]. simpl. by rewrite app_nil_r.
Qed.

Lemma CloseClientChannel_sequence q : sequence (CloseClientChannel q) = sequence q /\ answered (base (CloseClientChannel q)) = sequence q.
Proof.
  unfold CloseClientChannel. set (q1 := with_base (set_state kClosing) q).
  destruct (fail_everything_sequence q1) as [H1 _]. set (q2 := BeforeCloseChannel q1) in *.
  set (q3 := with_base _ (with_base (set_delegate false) q2)).
  destruct (OnCodecClosed_sequence q3) as [H4 H5]. set (q4 := OnCodecClosed q3) in *.
  assert (H3 : sequence q3 = sequence q) by (unfold q3; by rewrite !sequence_base, H1).
  rewrite sequence_base by apply (drop_timer_keeps). split; [by rewrite H4|].
  rewrite <- H3, <- H5. unfold answered. cbn [with_base base set_state done_]. by rewrite (proj1 (drop_timer_keeps (base q4))).
Qed.

Lemma OnRequestTimeout_sequence w held q : sequence (OnRequestTimeout w held q) = sequence q.
Proof.
  unfold OnRequestTimeout. destruct (ing_request_ q) as [ing|] eqn:E; [|done].
  destruct (Z.eqb_spec (m_ptr w) (m_ptr ing)) as [Hw|]; [|done]. rewrite (proj1 (OnCodecClosed_sequence _)).
  set (q1 := mkQueued _ _ _). assert (H1 : sequence q1 = sequence q).
  { unfold sequence, q1. simpl. rewrite E, answered_handle. simpl. rewrite Hw, <- app_assoc. done. }
  destruct (codec_connected _); [by rewrite sequence_base | done].
Qed.

Lemma step_sequence o q : sequence (step o q) = sequence q ++ op_sends o q.
Proof.
  assert (Hsend : forall m q, sequence (SendRequest m q) = sequence q ++ [m_ptr m]).
  { intros m q'. unfold SendRequest. rewrite TrySendNext_sequence. unfold sequence. simpl.
    by rewrite map_app, <- !app_assoc. }
  destruct o as [m| |k held|res|ms| |]; simpl; rewrite ?app_nil_r.
  - apply Hsend.
  - unfold OnHearbeatTimerInvoke. destruct (heartbeat_message_ (base q)); [by rewrite app_nil_r|].
    destruct (codec_new_heartbeat _) as [m x]. rewrite Hsend, sequence_base by done. done.
  - destruct (posted (base q) !! k); [apply OnRequestTimeout_sequence | done].
  - unfold OnCodecMessage. destruct (ing_request_ q) eqn:E; [|done]. rewrite TrySendNext_sequence. unfold sequence. simpl.
    rewrite E, answered_handle. by rewrite <- app_assoc.
  - apply sequence_base. unfold OnCodecReady. destruct (codec_keep_heartbeat && _); simpl; by destruct (delegate_ (base q)).
  - apply OnCodecClosed_sequence.
  - apply CloseClientChannel_sequence.
Qed.

Lemma run_sequence ops q : sequence (run ops q).2 = sequence q ++ (run ops q).1.
Proof.
  revert q. induction ops as [|o ops IH]; intros q; simpl; [by rewrite app_nil_r|].
  by rewrite IH, step_sequence, <- app_assoc.
Qed.

(** First in, first out, as far as the node that [pop_front] has destroyed still reads as
    it was: whatever happens on a queued channel, the requests answered, the one in flight and the ones waiting are, in this order, the requests sent; and
    when the channel closes, every request has been answered, in order. *)
Theorem queued_fifo ops d x :
  let '(sent, q) := run ops (mkQueued (ClientChannel_new d x) None []) in
  answered (base q) ++ map m_ptr (option_list (ing_request_ q)) ++ map m_ptr (waiting_list_ q) = sent /\
  answered (base (OnCodecClosed q)) = sent /\ answered (base (CloseClientChannel q)) = sent.
Proof.
  pose proof (run_sequence ops (mkQueued (ClientChannel_new d x) None [])) as H. destruct (run _ _) as [sent q]. simpl in H.
  destruct (OnCodecClosed_sequence q) as [_ H1], (CloseClientChannel_sequence q) as [_ H2]. rewrite H1, H2. done.
Qed.
End Queued.
End QueuedChannel.

(** ** The codec that numbers its requests (net_io/codec/raw/raw_codec_service.h)

    [RawCodecService::SendRequest] takes the next value of [sequence_id_], a counter that
    all raw connections of the process share, whatever [EncodeTo] then returns.  What
    happens on the connection and elsewhere is arbitrary: the results of [EncodeTo], the
    requests that other connections number in between, the objects that heartbeats are
    allocated at. *)
Module RawIds.
Import ClientChannel.

Record RawCodec := mkRaw {
  connected : bool;
  sequence_id_ : Z;            (* uint64_t *)
  others : list nat;           (* requests of other connections before each of this one *)
  encoded : list bool;         (* the results of [EncodeTo] *)
  heartbeats : list Z;         (* the objects of [RawMessage::Create] *)
}.

Definition raw_send (m : Message) (x : RawCodec) : bool * Message * RawCodec :=
  let id := u64 (sequence_id_ x + Z.of_nat (default 0%nat (head (others x)))) in
  (default false (head (encoded x)), mkMessage (m_ptr m) id (code_ m),
   mkRaw (connected x) (id +64 1) (tail (others x)) (tail (encoded x)) (heartbeats x)).

#[export] Instance raw_codec : ClientCodec RawCodec := {
  codec_send := raw_send;
  codec_close x := mkRaw false (sequence_id_ x) (others x) (encoded x) (heartbeats x);
  codec_connected x := connected x;
  codec_start x := mkRaw true (sequence_id_ x) (others x) (encoded x) (heartbeats x);
  codec_new_heartbeat x :=
    (mkMessage (default 0 (head (heartbeats x))) 0 kSuccess,
     mkRaw (connected x) (sequence_id_ x) (others x) (encoded x) (tail (heartbeats x)));
  codec_keep_heartbeat := true;
}.

Fixpoint sum (l : list nat) : Z := match l with [] => 0 | n :: l => Z.of_nat n + sum l end.
Definition raw_next (x : RawCodec) : Z := u64 (sequence_id_ x) + Z.of_nat (default 0%nat (head (others x))).
Definition raw_total (x : RawCodec) : Z := u64 (sequence_id_ x) + sum (others x).

Lemma sum_nonneg l : 0 <= sum l.
Proof. induction l as [|n l IH]; cbn [sum]; lia. Qed.

#[export] Instance raw_ids : CodecIds RawCodec.
Proof.
  assert (forall x, 0 <= u64 (sequence_id_ x) < 2 ^ 64) as Hu by (intros x; apply u64_range).
  assert (forall x, raw_total x = raw_next x + sum (tail (others x))) as Ht by (intros [c n [|k l] e h]; unfold raw_total, raw_next; cbn [sequence_id_ others head tail from_option sum id]; lia).
  assert (forall x, u64 (sequence_id_ x + Z.of_nat (default 0%nat (head (others x)))) = u64 (raw_next x)) as Hn.
  { intros x. unfold raw_next, u64. by rewrite Zplus_mod_idemp_l. }
  refine {| next_id := raw_next; total := raw_total |}; try done.
  - intros m x Hx. cbn. rewrite Hn, u64_id; [done|]. pose proof (Hu x). pose proof (sum_nonneg (tail (others x))). rewrite Ht in Hx. unfold raw_next in *. lia.
  - intros m x Hx. pose proof (Hu x) as Hux. pose proof (sum_nonneg (tail (others x))) as Hs. rewrite Ht in Hx.
    assert (0 <= raw_next x) by (unfold raw_next; lia).
    set (x' := (codec_send m x).2). assert (u64 (sequence_id_ x') = raw_next x + 1) as E.
    { unfold x'. cbn. rewrite Hn, (u64_id (raw_next x)) by lia. rewrite (u64_id (raw_next x + 1)) by lia. apply u64_id. lia. }
    split; [unfold raw_next at 2; rewrite E; lia|]. unfold raw_total. rewrite E. pose proof (Ht x). unfold raw_total in *. cbn. lia.
Defined.
End RawIds.

Module AsyncTheorems.
Import ClientChannel AsyncChannel RawIds.


Definition request (n : Z) : Message := mkMessage n 0 kSuccess.

(** Two requests, an answer to the second, a timeout of the first, a heartbeat. *)
Definition history : list AsyncChannel.op :=
  [Send (request 100); Send (request 101); Receive (mkMessage 900 4 kSuccess); Fire 0 true; Beat; CodecClosed].

End AsyncTheorems.
