(* ===== verification/EventLoop.v ===== *)
(** * The event loop (base/message_loop/{fdev_mgr,io_mux_epoll,event_pump,fd_event}.{h,cc})

    One pump on one thread: the descriptor table, the epoll multiplexer with the
    kernel's interest list, and the dispatch of a batch of fired events.  [FdEvent]
    objects are shared by pointer, so they live in a store: an event changed through
    any reference is changed for the multiplexer too.  [epoll_ctl] is the kernel's
    documented behaviour: ADD of a registered descriptor and MOD or DEL of an
    unregistered one fail and change nothing, and any other ADD or MOD may be refused
    too (no memory, the limit on watches, a file that cannot be polled).  The kernel's refusals
    are a script of the state, so the theorems hold for all of them.  [None] is a failed
    [CHECK] or the use of an object that does not exist. *)
From stdpp Require Import gmap.
From S2P Require Import Prelude IOBuffer Channel.
Import FdEvent.

Module EventLoop.

Definition EPOLLIN : Z := 0x001.
Definition EPOLLOUT : Z := 0x004.
Definition EPOLLERR : Z := 0x008.
Definition EPOLLHUP : Z := 0x010.
Definition EPOLLRDHUP : Z := 0x2000.
Definition EPOLLET : Z := 2 ^ 31.

(** An [FdEvent] object, as far as the loop is concerned; [watched] says whether its
    watcher is this multiplexer, or null. *)
Record Ev := mkEv { ev_fd : Z; ev_events : Z; ev_fired : Z; ev_et : bool; watched : bool; owner : bool }.

(** The epoll instance: the kernel's interest list (descriptor to mask), whether it will
    refuse the calls to come (not, beyond the list), and the descriptors whose last
    [epoll_ctl] call failed, which is what the log shows. *)
Record Epoll := mkEpoll { watching : gmap Z Z; refusals : list bool; refused : gset Z }.

Record Loop := mkLoop {
  objects : gmap Z Ev;            (* the FdEvent objects, by address *)
  evs_ : list (option Z);         (* FdEventMgr::evs_ *)
  epoll_ : Epoll;                 (* the epoll instance *)
}.

Definition interest (l : Loop) : gmap Z Z := watching (epoll_ l).
Definition failed (l : Loop) : gset Z := refused (epoll_ l).

(** A loop on a kernel that will refuse the calls [kernel] says. *)
Definition Loop_new (rlimit : nat) (kernel : list bool) : Loop := mkLoop ∅ (replicate rlimit None) (mkEpoll ∅ kernel ∅).

(** ** FdEventMgr *)
Inductive Result := Success | NotExist | InvalidFD | Duplicated.

(** [evs_[fd]] when [fd] is in range. *)
Definition slot_of (fd : Z) (l : Loop) : option (option Z) := if 0 <=? fd then evs_ l !! Z.to_nat fd else None.

Definition set_slot (fd : Z) (p : option Z) (l : Loop) : Loop := mkLoop (objects l) (<[Z.to_nat fd := p]> (evs_ l)) (epoll_ l).

Definition Add (p : Z) (fd : Z) (l : Loop) : Result * Loop :=
  match slot_of fd l with
  | None => (InvalidFD, l)
  | Some (Some _) => (Duplicated, l)
  | Some None => (Success, set_slot fd (Some p) l)
  end.

Definition Remove (p : Z) (fd : Z) (l : Loop) : Result * Loop :=
  match slot_of fd l with
  | None => (InvalidFD, l)
  | Some None => (NotExist, l)
  | Some (Some installed) => if installed =? p then (Success, set_slot fd None l) else (Duplicated, l)
  end.

Definition GetFdEvent (fd : Z) (l : Loop) : option Z := match slot_of fd l with Some p => p | None => None end.

(** ** IOMuxEpoll *)
Definition ToLtEvent (epoll_ev : Z) : Z :=
  let event := NONE in
  let event := if has epoll_ev (Z.lor EPOLLHUP EPOLLERR) then Z.lor (Z.lor event READ) WRITE else event in
  let event := if has epoll_ev (Z.lor EPOLLIN EPOLLRDHUP) then Z.lor event READ else event in
  if has epoll_ev EPOLLOUT then Z.lor event WRITE else event.

Definition ToEpollEvent (lt_ev : Z) : Z :=
  let epoll_ev := 0 in
  let epoll_ev := if has lt_ev READ then Z.lor epoll_ev EPOLLIN else epoll_ev in
  let epoll_ev := if has lt_ev WRITE then Z.lor epoll_ev EPOLLOUT else epoll_ev in
  Z.lor epoll_ev EPOLLRDHUP.

Inductive ctl := EPOLL_CTL_ADD | EPOLL_CTL_DEL | EPOLL_CTL_MOD.

(** The mask [EpollCtl] passes for an event. *)
Definition epoll_mask (e : Ev) : Z :=
  let events := ToEpollEvent (ev_events e) in
  if ev_et e then Z.lor events EPOLLET else events.

(** The system call: the interest list after it, or [None] when it fails. *)
Definition epoll_ctl (opt : ctl) (fd mask : Z) (k : Epoll) : option (gmap Z Z) :=
  match opt, watching k !! fd with
  | EPOLL_CTL_ADD, None | EPOLL_CTL_MOD, Some _ =>
      if default false (head (refusals k)) then None else Some (<[fd := mask]> (watching k))
  | EPOLL_CTL_DEL, Some _ => Some (delete fd (watching k))
  | _, _ => None
  end.

Definition EpollCtl (e : Ev) (opt : ctl) (l : Loop) : Z * Loop :=
  let k := epoll_ l in
  match epoll_ctl opt (ev_fd e) (epoll_mask e) k with
  | Some w => (0, mkLoop (objects l) (evs_ l) (mkEpoll w (tail (refusals k)) (refused k ∖ {[ev_fd e]})))
  | None => (-1, mkLoop (objects l) (evs_ l) (mkEpoll (watching k) (tail (refusals k)) (refused k ∪ {[ev_fd e]})))
  end.

Definition set_object (p : Z) (e : Ev) (l : Loop) : Loop := mkLoop (<[p := e]> (objects l)) (evs_ l) (epoll_ l).

Definition SetFdWatcher (w : bool) (e : Ev) : Ev := mkEv (ev_fd e) (ev_events e) (ev_fired e) (ev_et e) w (owner e).

(** The watcher is null or this multiplexer, so the second [CHECK] holds. *)
Definition AddFdEvent (p : Z) (l : Loop) : option Loop :=
  e ← objects l !! p;
  match Add p (ev_fd e) l with
  | (Success, l) =>
      let e := SetFdWatcher true e in
      Some (EpollCtl e EPOLL_CTL_ADD (set_object p e l)).2
  | _ => None
  end.

Definition DelFdEvent (p : Z) (l : Loop) : option Loop :=
  e ← objects l !! p;
  if watched e then
    let l := (EpollCtl e EPOLL_CTL_DEL l).2 in
    let l := set_object p (SetFdWatcher false e) l in
    Some (Remove p (ev_fd e) l).2
  else None.

Definition UpdateFdEvent (p : Z) (l : Loop) : option Loop :=
  e ← objects l !! p;
  match EpollCtl e EPOLL_CTL_MOD l with
  | (0, l) => Some (match GetFdEvent (ev_fd e) l with None => (Add p (ev_fd e) l).2 | Some _ => l end)
  | (_, l) => Some l
  end.

(** ** FdEvent, in the store *)
Definition notify_watcher_of (p : Z) (l : Loop) : option Loop :=
  e ← objects l !! p; if watched e then UpdateFdEvent p l else Some l.

Definition SetEvent (p : Z) (ev : Z) (l : Loop) : option Loop :=
  e ← objects l !! p;
  notify_watcher_of p (set_object p (mkEv (ev_fd e) (u8 ev) (ev_fired e) (ev_et e) (watched e) (owner e)) l).

Definition EnableReading (p : Z) (l : Loop) : option Loop :=
  e ← objects l !! p; if has (ev_events e) READ then Some l else SetEvent p (Z.lor (ev_events e) READ) l.
Definition EnableWriting (p : Z) (l : Loop) : option Loop :=
  e ← objects l !! p; if has (ev_events e) WRITE then Some l else SetEvent p (Z.lor (ev_events e) WRITE) l.
Definition DisableReading (p : Z) (l : Loop) : option Loop :=
  e ← objects l !! p; if has (ev_events e) READ then SetEvent p (Z.land (ev_events e) (Z.lnot READ)) l else Some l.
Definition DisableWriting (p : Z) (l : Loop) : option Loop :=
  e ← objects l !! p; if has (ev_events e) WRITE then SetEvent p (Z.land (ev_events e) (Z.lnot WRITE)) l else Some l.

(** [FdEvent::Create]: a new object at a fresh address. *)
Definition Create (p fd ev : Z) (l : Loop) : option Loop :=
  match objects l !! p with
  | Some _ => None
  | None => Some (set_object p (mkEv fd (u8 ev) NONE false false true) l)
  end.

(** ** EventPump *)
Definition InstallFdEvent (p : Z) (l : Loop) : option (bool * Loop) := l ← AddFdEvent p l; Some (true, l).

Definition RemoveFdEvent (p : Z) (l : Loop) : option (bool * Loop) :=
  e ← objects l !! p;
  if watched e then l ← DelFdEvent p l; Some (true, l) else Some (false, l).

Section Dispatch.
(** The state of the handlers, and what [HandleEvent] of the handler of an event does. *)
Context {S : Type} (HandleEvent : Z -> Z -> Loop * S -> option (Loop * S)).

Definition Invoke (p ev : Z) (w : Loop * S) : option (Loop * S) :=
  e ← objects w.1 !! p;
  HandleEvent p ev (set_object p (mkEv (ev_fd e) (ev_events e) ev (ev_et e) (watched e) (owner e)) w.1, w.2).

(** The descriptor is looked up again for every event: a handler that ran before may have
    removed it. *)
Fixpoint InvokeFiredEvent (evs : list (Z * Z)) (w : Loop * S) : option (Loop * S) :=
  match evs with
  | [] => Some w
  | (fd_id, event_mask) :: evs' =>
      w ← match GetFdEvent fd_id w.1 with
          | Some p => Invoke p event_mask w
          | None => Some w
          end;
      InvokeFiredEvent evs' w
  end.

(** The batch the kernel reports, translated; [WaitingIO] with [epoll_wait]'s answer. *)
Definition WaitingIO (fired : list (Z * Z)) : list (Z * Z) := map (fun e => (e.1, ToLtEvent e.2)) fired.

(** A turn of the loop: the wait, the timers that are due, the batch. *)
Definition Pump (ProcessTimerEvent : Loop * S -> option (Loop * S)) (fired : list (Z * Z)) (w : Loop * S) : option (Loop * S) :=
  let fired_list_ := WaitingIO fired in
  w ← ProcessTimerEvent w;
  InvokeFiredEvent fired_list_ w.
End Dispatch.

(** ** The kernel is in step with the objects *)

(** Descriptor [fd] is registered with the object at [p]; the kernel has the object's mask
    unless it refused the last call on the descriptor. *)
Definition registered (l : Loop) (fd p : Z) : Prop :=
  exists e, objects l !! p = Some e /\ ev_fd e = fd /\ watched e = true /\ slot_of fd l = Some (Some p) /\
    (fd ∉ failed l -> interest l !! fd = Some (epoll_mask e)).

(** Every descriptor of the table is registered with the object it names, every watched
    object is in the table, and the kernel watches nothing else. *)
Definition sync (l : Loop) : Prop :=
  (forall fd p, slot_of fd l = Some (Some p) -> registered l fd p) /\
  (forall p e, objects l !! p = Some e -> watched e = true -> slot_of (ev_fd e) l = Some (Some p)) /\
  (forall fd m, interest l !! fd = Some m -> exists p, slot_of fd l = Some (Some p)).

Lemma slot_set fd fd' q l :
  0 <= fd' -> slot_of fd (set_slot fd' q l) = if decide (fd = fd') then (match slot_of fd l with Some _ => Some q | None => None end) else slot_of fd l.
Proof.
  intros Hfd'. unfold slot_of. simpl. destruct (Z.leb_spec 0 fd); [|by destruct (decide _)].
  destruct (decide (fd = fd')) as [->|Hne]; [|apply list_lookup_insert_ne; lia].
  destruct (evs_ l !! Z.to_nat fd') eqn:E.
  - apply list_lookup_insert_eq. by eapply lookup_lt_Some.
  - apply lookup_ge_None in E. rewrite list_insert_ge by done. by apply lookup_ge_None.
Qed.

Lemma slot_nonneg fd l q : slot_of fd l = Some q -> 0 <= fd.
Proof. unfold slot_of. by destruct (Z.leb_spec 0 fd). Qed.

Lemma slot_eq fd l l' : evs_ l' = evs_ l -> slot_of fd l' = slot_of fd l.
Proof. unfold slot_of. by intros ->. Qed.

(** The kernel has the same to say of [fd]. *)
Definition same_at (fd : Z) (l l' : Loop) : Prop := interest l' !! fd = interest l !! fd /\ (fd ∈ failed l' <-> fd ∈ failed l).

Lemma same_failed fd l l' : same_at fd l l' -> fd ∉ failed l -> fd ∉ failed l'.
Proof. by intros [_ ->]. Qed.

(** A call concerns its descriptor only, which the kernel then has as asked, or is marked. *)
Lemma EpollCtl_spec e opt l :
  objects (EpollCtl e opt l).2 = objects l /\ evs_ (EpollCtl e opt l).2 = evs_ l /\
  (forall fd, fd <> ev_fd e -> same_at fd l (EpollCtl e opt l).2) /\
  (opt <> EPOLL_CTL_DEL -> ev_fd e ∉ failed (EpollCtl e opt l).2 -> interest (EpollCtl e opt l).2 !! ev_fd e = Some (epoll_mask e)) /\
  (opt = EPOLL_CTL_DEL -> interest (EpollCtl e opt l).2 !! ev_fd e = None).
Proof.
  unfold EpollCtl, same_at, interest, failed. destruct (epoll_ctl _ _ _ _) as [w|] eqn:E; cbn; unfold epoll_ctl in E.
  - split_and!; [done | done | intros fd Hne; split; [|set_solver] | |];
      destruct opt, (watching (epoll_ l) !! ev_fd e), (default false (head (refusals (epoll_ l)))); try done; injection E as <-;
      by rewrite ?lookup_insert_eq, ?lookup_delete_eq, ?lookup_insert_ne, ?lookup_delete_ne by done.
  - split_and!; [done | done | intros fd Hne; set_solver | set_solver |].
    intros ->. by destruct (watching (epoll_ l) !! ev_fd e).
Qed.

Lemma EpollCtl_objects e opt l : objects (EpollCtl e opt l).2 = objects l.
Proof. by apply EpollCtl_spec. Qed.

Lemma EpollCtl_evs e opt l : evs_ (EpollCtl e opt l).2 = evs_ l.
Proof. by apply EpollCtl_spec. Qed.

(** One object, its descriptor and its slot change; the rest is as it was. *)
Lemma sync_change p e e' l l' (slot : option Z) :
  sync l -> objects l !! p = Some e -> ev_fd e' = ev_fd e -> objects l' = <[p := e']> (objects l) ->
  (watched e = true \/ slot_of (ev_fd e) l = Some None) ->
  (forall fd, slot_of fd l' = if decide (fd = ev_fd e) then Some slot else slot_of fd l) ->
  slot = (if watched e' then Some p else None) ->
  (forall fd, fd <> ev_fd e -> same_at fd l l') ->
  (if watched e' then ev_fd e ∉ failed l' -> interest l' !! ev_fd e = Some (epoll_mask e') else interest l' !! ev_fd e = None) ->
  sync l'.
Proof.
  intros (H1 & H2 & H3) He Hf Ho Hslot Hsl -> Hsame Hk. split_and!.
  - intros fd q. rewrite Hsl. destruct (decide (fd = ev_fd e)) as [->|Hne].
    + destruct (watched e') eqn:Hw; [|done]. intros [= <-]. exists e'. rewrite Ho, lookup_insert_eq, Hsl, decide_True, Hw by done. done.
    + intros Hq. destruct (H1 _ _ Hq) as (e0 & Ho0 & Hf0 & Hw0 & _ & Hi). destruct (Hsame fd Hne) as [Hs1 Hs2]. exists e0.
      rewrite Ho, lookup_insert_ne, Hsl, decide_False, Hs1 by congruence. split_and!; try done. by rewrite Hs2.
  - intros q e0 Ho0 Hw0. rewrite Ho in Ho0. rewrite Hsl. destruct (decide (q = p)) as [->|Hne].
    + rewrite lookup_insert_eq in Ho0. injection Ho0 as <-. by rewrite Hf, decide_True, Hw0.
    + rewrite lookup_insert_ne in Ho0 by done. pose proof (H2 _ _ Ho0 Hw0) as Hq. rewrite decide_False; [done|].
      intros Hx. rewrite Hx in Hq. destruct Hslot as [Hw|Hn]; [|congruence]. pose proof (H2 _ _ He Hw). congruence.
  - intros fd m Hm. rewrite Hsl. destruct (decide (fd = ev_fd e)) as [->|Hne].
    + destruct (watched e'); [by eexists|congruence].
    + destruct (Hsame fd Hne) as [Hs1 Hs2]. apply (H3 fd m). congruence.
Qed.

(** Registering an object that is not watched in a free slot. *)
Lemma AddFdEvent_sync p l l' :
  sync l -> AddFdEvent p l = Some l' ->
  sync l' /\ (exists e, objects l !! p = Some e /\ registered l' (ev_fd e) p).
Proof.
  intros Hs. unfold AddFdEvent. destruct (objects l !! p) as [e|] eqn:He; [|done]. cbn [mbind option_bind]. unfold Add.
  destruct (slot_of (ev_fd e) l) as [[q|]|] eqn:Hsl; try done. pose proof (slot_nonneg _ _ _ Hsl) as Hfd. intros [= <-].
  set (e' := SetFdWatcher true e). set (l1 := set_object p e' _). destruct (EpollCtl_spec e' EPOLL_CTL_ADD l1) as (Ho & Hv & Hsame & Hk & _).
  set (l' := (EpollCtl e' EPOLL_CTL_ADD l1).2) in *.
  assert (Hslot : forall fd, slot_of fd l' = if decide (fd = ev_fd e) then Some (Some p) else slot_of fd l).
  { intros fd. rewrite (slot_eq fd l1 l') by done. unfold l1. rewrite (slot_eq fd (set_slot (ev_fd e) (Some p) l)) by done.
    rewrite slot_set by done. destruct (decide (fd = ev_fd e)) as [->|]; [by rewrite Hsl | done]. }
  assert (Hsync : sync l') by (eapply (sync_change p e e' l l' (Some p)); eauto; exact (Hk ltac:(done))).
  split; [done|]. exists e. split; [done|]. apply Hsync. by rewrite Hslot, decide_True.
Qed.

Lemma AddFdEvent_objects p e l l' :
  objects l !! p = Some e -> AddFdEvent p l = Some l' -> objects l' = <[p := SetFdWatcher true e]> (objects l).
Proof.
  intros He. unfold AddFdEvent. rewrite He. simpl. unfold Add. destruct (slot_of (ev_fd e) l) as [[|]|]; try done.
  intros [= <-]. by rewrite EpollCtl_objects.
Qed.

Lemma Remove_objects p fd l : objects (Remove p fd l).2 = objects l.
Proof. unfold Remove. destruct (slot_of fd l) as [[q|]|]; [by destruct (q =? p)|done..]. Qed.

Lemma DelFdEvent_objects p e l l' :
  objects l !! p = Some e -> DelFdEvent p l = Some l' -> objects l' = <[p := SetFdWatcher false e]> (objects l).
Proof.
  intros He. unfold DelFdEvent. rewrite He. cbn [mbind option_bind]. destruct (watched e); [|done]. intros [= <-].
  rewrite Remove_objects. cbn [set_object objects]. by rewrite EpollCtl_objects.
Qed.

Lemma DelFdEvent_sync p l l' :
  sync l -> DelFdEvent p l = Some l' ->
  sync l' /\ (exists e, objects l !! p = Some e /\ slot_of (ev_fd e) l' = Some None /\ interest l' !! ev_fd e = None).
Proof.
  intros Hs. unfold DelFdEvent. destruct (objects l !! p) as [e|] eqn:He; [|done]. cbn [mbind option_bind].
  destruct (watched e) eqn:Hw; [|done]. pose proof (proj1 (proj2 Hs) _ _ He Hw) as Hsl. pose proof (slot_nonneg _ _ _ Hsl) as Hfd.
  destruct (EpollCtl_spec e EPOLL_CTL_DEL l) as (Ho & Hv & Hsame & _ & Hk). set (l1 := (EpollCtl e EPOLL_CTL_DEL l).2) in *.
  unfold Remove. rewrite (slot_eq _ l (set_object _ _ l1)) by done. rewrite Hsl, Z.eqb_refl. intros [= <-]. set (l' := set_slot _ _ _).
  assert (Hslot : forall fd, slot_of fd l' = if decide (fd = ev_fd e) then Some None else slot_of fd l).
  { intros fd. unfold l'. rewrite slot_set by done. rewrite !(slot_eq _ l (set_object _ _ l1)) by done.
    destruct (decide (fd = ev_fd e)) as [->|]; [by rewrite Hsl | done]. }
  split; [|exists e; split_and!; [done | by rewrite Hslot, decide_True | by apply Hk]].
  eapply (sync_change p e (SetFdWatcher false e) l l' None); eauto; [cbn; by rewrite Ho|exact (Hk eq_refl)].
Qed.

(** Changing an object that is not watched. *)
Lemma unwatched_sync p e e' l :
  objects l !! p = Some e -> watched e = false -> watched e' = false -> sync l -> sync (set_object p e' l).
Proof.
  intros He Hw Hw' (H1 & H2 & H3). split_and!; [| |exact H3].
  - intros fd q Hq. destruct (H1 _ _ Hq) as (e0 & Ho & Hr). exists e0. cbn [set_object objects].
    rewrite lookup_insert_ne by (intros ->; destruct Hr as (_ & Hr & _); congruence). done.
  - intros q e0 Ho Hw0. cbn [set_object objects] in Ho. destruct (decide (q = p)) as [->|]; [rewrite lookup_insert_eq in Ho; congruence|].
    rewrite lookup_insert_ne in Ho by done. by apply H2.
Qed.

(** What [SetEvent] leaves behind. *)
Lemma SetEvent_spec p ev e l :
  sync l -> objects l !! p = Some e ->
  exists l', SetEvent p ev l = Some l' /\ sync l' /\
    objects l' = <[p := mkEv (ev_fd e) (u8 ev) (ev_fired e) (ev_et e) (watched e) (owner e)]> (objects l) /\
    let e' := mkEv (ev_fd e) (u8 ev) (ev_fired e) (ev_et e) (watched e) (owner e) in
    l' = if watched e then (EpollCtl e' EPOLL_CTL_MOD (set_object p e' l)).2 else set_object p e' l.
Proof.
  intros Hs He. unfold SetEvent. rewrite He. cbn [mbind option_bind]. set (e' := mkEv _ _ _ _ _ _).
  unfold notify_watcher_of. cbn [set_object objects]. rewrite lookup_insert_eq. cbn [mbind option_bind]. change (watched e') with (watched e).
  destruct (watched e) eqn:Hw; [|eexists; split_and!; [done | by eapply unwatched_sync | done | done]].
  pose proof (proj1 (proj2 Hs) _ _ He Hw) as Hslot.
  unfold UpdateFdEvent. cbn [set_object objects]. rewrite lookup_insert_eq. cbn [mbind option_bind]. set (l1 := set_object p e' l).
  destruct (EpollCtl_spec e' EPOLL_CTL_MOD l1) as (Ho & Hv & Hsame & Hk & _).
  assert (Hl' : forall fd, slot_of fd (EpollCtl e' EPOLL_CTL_MOD l1).2 = slot_of fd l) by (intros fd; by rewrite (slot_eq fd l1) by done).
  exists (EpollCtl e' EPOLL_CTL_MOD l1).2. split_and!.
  - destruct (EpollCtl e' EPOLL_CTL_MOD l1) as [r l2]. cbn [snd] in *. unfold GetFdEvent. change (ev_fd e') with (ev_fd e).
    rewrite Hl', Hslot. by destruct r.
  - eapply (sync_change p e e' l _ (Some p)); eauto.
    + intros fd. rewrite Hl'. destruct (decide (fd = ev_fd e)) as [->|]; done.
    + exact (Hk ltac:(done)).
  - exact Ho.
  - done.
Qed.

Lemma SetEvent_sync p ev l :
  sync l -> is_Some (objects l !! p) -> exists l', SetEvent p ev l = Some l' /\ sync l'.
Proof. intros Hs [e He]. destruct (SetEvent_spec p ev e l Hs He) as (l' & E & Hl & _). by exists l'. Qed.

(** A change that is none of the kernel's business. *)
Lemma modify_sync p e e' l :
  objects l !! p = Some e -> ev_fd e' = ev_fd e -> watched e' = watched e -> epoll_mask e' = epoll_mask e -> sync l ->
  sync (set_object p e' l).
Proof.
  intros He Hfd Hw Hm Hs. destruct (watched e) eqn:Hwe; [|by eapply unwatched_sync].
  pose proof (proj1 (proj2 Hs) _ _ He Hwe) as Hslot. destruct (proj1 Hs _ _ Hslot) as (e0 & He0 & _ & _ & _ & Hi). assert (e0 = e) as -> by congruence.
  eapply (sync_change p e e' l _ (Some p)); eauto; [|by rewrite Hw|intros fd _; done|rewrite Hw, Hm; exact Hi].
  intros fd. rewrite (slot_eq fd l) by done. destruct (decide (fd = ev_fd e)) as [->|]; done.
Qed.

Lemma Invoke_mark_sync p e ev l :
  sync l -> objects l !! p = Some e ->
  sync (set_object p (mkEv (ev_fd e) (ev_events e) ev (ev_et e) (watched e) (owner e)) l).
Proof. intros Hs He. by eapply modify_sync. Qed.


Lemma Create_sync p fd ev l l' : sync l -> Create p fd ev l = Some l' -> sync l'.
Proof.
  intros (H1 & H2 & H3). unfold Create. destruct (objects l !! p) eqn:He; [done|]. intros [= <-].
  split_and!; [| |done].
  - intros fd' q Hq. destruct (H1 _ _ Hq) as (e & Ho & Hr). exists e. simpl. rewrite lookup_insert_ne by congruence. done.
  - intros q e Ho Hw. simpl in Ho. destruct (decide (q = p)) as [->|]; [rewrite lookup_insert_eq in Ho; by injection Ho as <-|].
    rewrite lookup_insert_ne in Ho by done. by apply H2.
Qed.

(** ** What a program does to the loop *)
Inductive op := OpCreate (p fd ev : Z) | OpInstall (p : Z) | OpRemove (p : Z) | OpSetEvent (p ev : Z)
              | OpEnableReading (p : Z) | OpEnableWriting (p : Z) | OpDisableReading (p : Z) | OpDisableWriting (p : Z).

Definition apply_op (o : op) (l : Loop) : option Loop :=
  match o with
  | OpCreate p fd ev => Create p fd ev l
  | OpInstall p => r ← InstallFdEvent p l; Some r.2
  | OpRemove p => r ← RemoveFdEvent p l; Some r.2
  | OpSetEvent p ev => SetEvent p ev l
  | OpEnableReading p => EnableReading p l
  | OpEnableWriting p => EnableWriting p l
  | OpDisableReading p => DisableReading p l
  | OpDisableWriting p => DisableWriting p l
  end.

Fixpoint apply_ops (ops : list op) (l : Loop) : option Loop :=
  match ops with [] => Some l | o :: ops' => l ← apply_op o l; apply_ops ops' l end.

(** The operations on the mask of an object are its [SetEvent], or nothing. *)
Lemma toggle_cases o p l l' :
  o = OpEnableReading p \/ o = OpEnableWriting p \/ o = OpDisableReading p \/ o = OpDisableWriting p ->
  apply_op o l = Some l' -> l' = l \/ exists ev, SetEvent p ev l = Some l'.
Proof.
  intros Ho. assert (Hc : apply_op o l = (e ← objects l !! p; apply_op o l)).
  { destruct Ho as [-> | [-> | [-> | ->]]]; cbn; unfold EnableReading, EnableWriting, DisableReading, DisableWriting; by destruct (objects l !! p). }
  destruct (objects l !! p) as [e|] eqn:He; [|rewrite Hc; done]. intros E.
  destruct Ho as [-> | [-> | [-> | ->]]]; cbn in E; unfold EnableReading, EnableWriting, DisableReading, DisableWriting in E; rewrite He in E;
    cbn [mbind option_bind] in E; destruct (has _ _); first [by left; injection E | right; by eexists].
Qed.

(** Every operation creates an object, installs one, removes one, sets a mask or does nothing. *)
Lemma apply_op_cases o l l' :
  apply_op o l = Some l' ->
  (exists p fd ev, o = OpCreate p fd ev /\ Create p fd ev l = Some l') \/
  (exists p, o = OpInstall p /\ AddFdEvent p l = Some l') \/
  (exists p e, o = OpRemove p /\ objects l !! p = Some e /\ if watched e then DelFdEvent p l = Some l' else l' = l) \/
  ((forall p, o <> OpInstall p /\ o <> OpRemove p /\ forall fd ev, o <> OpCreate p fd ev) /\
   (l' = l \/ exists p ev, SetEvent p ev l = Some l')).
Proof.
  destruct o as [p fd ev|p|p|p ev|p|p|p|p]; intros E.
  - left. by exists p, fd, ev.
  - right; left. exists p. split; [done|]. cbn in E. unfold InstallFdEvent in E. destruct (AddFdEvent p l); [|done]. by injection E as <-.
  - right; right; left. cbn in E. unfold RemoveFdEvent in E. destruct (objects l !! p) as [e|] eqn:He; [|done]. exists p, e.
    cbn [mbind option_bind] in E. destruct (watched e); [|by injection E as <-]. destruct (DelFdEvent p l); [|done]. by injection E as <-.
  - do 3 right. split; [done|]. right. by exists p, ev.
  - do 3 right. split; [done|]. apply (toggle_cases _ p) in E as [|[? ?]]; eauto 6.
  - do 3 right. split; [done|]. apply (toggle_cases _ p) in E as [|[? ?]]; eauto 6.
  - do 3 right. split; [done|]. apply (toggle_cases _ p) in E as [|[? ?]]; eauto 6.
  - do 3 right. split; [done|]. apply (toggle_cases _ p) in E as [|[? ?]]; eauto 6.
Qed.

Lemma SetEvent_inv p ev l l' : sync l -> SetEvent p ev l = Some l' ->
  sync l' /\ exists e, objects l !! p = Some e /\
    objects l' = <[p := mkEv (ev_fd e) (u8 ev) (ev_fired e) (ev_et e) (watched e) (owner e)]> (objects l).
Proof.
  intros Hs E. destruct (objects l !! p) as [e|] eqn:He; [|unfold SetEvent in E; by rewrite He in E].
  destruct (SetEvent_spec p ev e l Hs He) as (l2 & E2 & H2 & Ho & _). assert (l2 = l') as <- by congruence. split; [done|]. by exists e.
Qed.

Lemma apply_op_sync o l l' : sync l -> apply_op o l = Some l' -> sync l'.
Proof.
  intros Hs E. destruct (apply_op_cases o l l' E) as [(p & fd & ev & _ & H)|[(p & _ & H)|[(p & e & _ & _ & H)|[_ [->|(p & ev & H)]]]]].
  - by eapply Create_sync.
  - by eapply AddFdEvent_sync.
  - destruct (watched e); [by eapply DelFdEvent_sync | by subst].
  - done.
  - by eapply SetEvent_inv.
Qed.

Lemma apply_ops_sync ops l l' : sync l -> apply_ops ops l = Some l' -> sync l'.
Proof.
  revert l. induction ops as [|o ops IH]; intros l H; simpl; [by intros [= <-]|].
  destruct (apply_op o l) as [l1|] eqn:E; [|done]. simpl. apply IH. by eapply apply_op_sync.
Qed.

Lemma new_sync n k : sync (Loop_new n k).
Proof.
  split_and!; try by intros.
  intros fd p. unfold slot_of. simpl. destruct (0 <=? fd); [|done]. intros H%lookup_replicate. by destruct H.
Qed.

(** ** A kernel that refuses nothing *)

(** No refusal is to come, and no call on a descriptor of the table has failed. *)
Definition quiet (l : Loop) : Prop :=
  Forall (eq false) (refusals (epoll_ l)) /\ forall fd p, slot_of fd l = Some (Some p) -> fd ∉ failed l.

Lemma EpollCtl_quiet e opt l :
  Forall (eq false) (refusals (epoll_ l)) -> (interest l !! ev_fd e = None <-> opt = EPOLL_CTL_ADD) ->
  Forall (eq false) (refusals (epoll_ (EpollCtl e opt l).2)) /\ ev_fd e ∉ failed (EpollCtl e opt l).2.
Proof.
  intros Hq. unfold EpollCtl, failed, epoll_ctl. change (watching (epoll_ l)) with (interest l).
  destruct (refusals (epoll_ l)) as [|r rs]; [|apply Forall_cons_1 in Hq as [<- Hq]]; cbn [head tail default from_option];
    destruct opt, (interest l !! ev_fd e); intros [H1 H2]; try (by specialize (H1 eq_refl)); try (by specialize (H2 eq_refl));
    cbn; (split; [done|set_solver]).
Qed.

Lemma AddFdEvent_quiet p l l' : sync l -> quiet l -> AddFdEvent p l = Some l' -> quiet l'.
Proof.
  intros Hs [Hq Hf] E. pose proof (AddFdEvent_sync p l l' Hs E) as [Hs' _]. revert E. unfold AddFdEvent.
  destruct (objects l !! p) as [e|] eqn:He; [|done]. cbn [mbind option_bind]. unfold Add.
  destruct (slot_of (ev_fd e) l) as [[q|]|] eqn:Hsl; try done. pose proof (slot_nonneg _ _ _ Hsl) as Hfd. intros [= <-].
  set (e' := SetFdWatcher true e) in *. set (l1 := set_object p e' _) in *.
  destruct (EpollCtl_spec e' EPOLL_CTL_ADD l1) as (Ho & Hv & Hsame & _).
  destruct (EpollCtl_quiet e' EPOLL_CTL_ADD l1) as [Hr Hn]; [done| |].
  { split; [done|]. intros _. change (interest l !! ev_fd e = None). destruct (interest l !! ev_fd e) eqn:Ei; [|done].
    destruct Hs as (_ & _ & H3). apply H3 in Ei as [q Ei]. congruence. }
  split; [done|]. intros fd q. destruct (decide (fd = ev_fd e)) as [->|Hne]; [by intros _|].
  rewrite (slot_eq fd l1) by done. unfold l1. rewrite (slot_eq fd (set_slot (ev_fd e) (Some p) l)) by done.
  rewrite slot_set, decide_False by done. intros Hq'. apply (same_failed _ _ _ (Hsame fd Hne)). by apply (Hf fd q).
Qed.

Lemma DelFdEvent_quiet p l l' : sync l -> quiet l -> DelFdEvent p l = Some l' -> quiet l'.
Proof.
  intros Hs [Hq Hf] E. destruct (DelFdEvent_sync p l l' Hs E) as [_ (e0 & He0 & Hfree & _)]. revert E. unfold DelFdEvent. rewrite He0. cbn [mbind option_bind].
  destruct (watched e0) eqn:Hw; [|done]. pose proof (proj1 (proj2 Hs) _ _ He0 Hw) as Hsl. pose proof (slot_nonneg _ _ _ Hsl) as Hfd.
  destruct (proj1 Hs _ _ Hsl) as (e1 & _ & _ & _ & _ & Hi). specialize (Hi (Hf _ _ Hsl)).
  destruct (EpollCtl_spec e0 EPOLL_CTL_DEL l) as (Ho & Hv & Hsame & _).
  destruct (EpollCtl_quiet e0 EPOLL_CTL_DEL l) as [Hr Hn]; [done|rewrite Hi; done|].
  set (l1 := (EpollCtl e0 EPOLL_CTL_DEL l).2) in *. unfold Remove. rewrite (slot_eq _ l (set_object _ _ l1)) by done. rewrite Hsl, Z.eqb_refl.
  intros [= <-]. split; [done|]. intros fd q. destruct (decide (fd = ev_fd e0)) as [->|Hne]; [congruence|].
  rewrite slot_set, decide_False, (slot_eq _ l) by done. intros Hq'. change (fd ∉ failed l1). apply (same_failed _ _ _ (Hsame fd Hne)). by apply (Hf fd q).
Qed.

Lemma SetEvent_quiet p ev l l' : sync l -> quiet l -> SetEvent p ev l = Some l' -> quiet l'.
Proof.
  intros Hs [Hq Hf] E. destruct (objects l !! p) as [e|] eqn:He; [|unfold SetEvent in E; by rewrite He in E].
  destruct (SetEvent_spec p ev e l Hs He) as (l2 & E2 & _ & _ & Hl). assert (l2 = l') as -> by congruence. cbv zeta in Hl. subst l'.
  set (e' := mkEv _ _ _ _ _ _). destruct (watched e) eqn:Hw; [|done].
  pose proof (proj1 (proj2 Hs) _ _ He Hw) as Hsl. destruct (proj1 Hs _ _ Hsl) as (e1 & _ & _ & _ & _ & Hi). specialize (Hi (Hf _ _ Hsl)).
  set (l1 := set_object p e' l). destruct (EpollCtl_spec e' EPOLL_CTL_MOD l1) as (Ho & Hv & Hsame & _).
  destruct (EpollCtl_quiet e' EPOLL_CTL_MOD l1) as [Hr Hn]; [done|change (interest l1 !! ev_fd e') with (interest l !! ev_fd e); rewrite Hi; done|].
  split; [done|]. intros fd q. rewrite (slot_eq fd l1), (slot_eq fd l) by done. intros Hq'.
  destruct (decide (fd = ev_fd e)) as [->|Hne]; [done|]. apply (same_failed _ _ _ (Hsame fd Hne)). by apply (Hf fd q).
Qed.

Lemma apply_op_quiet o l l' : sync l -> quiet l -> apply_op o l = Some l' -> quiet l'.
Proof.
  intros Hs Hq E. destruct (apply_op_cases o l l' E) as [(p & fd & ev & _ & H)|[(p & _ & H)|[(p & e & _ & _ & H)|[_ [->|(p & ev & H)]]]]].
  - unfold Create in H. destruct (objects l !! p); [done|]. by injection H as <-.
  - by eapply AddFdEvent_quiet.
  - destruct (watched e); [by eapply DelFdEvent_quiet | by subst].
  - done.
  - by eapply SetEvent_quiet.
Qed.

Lemma apply_ops_quiet ops l l' : sync l -> quiet l -> apply_ops ops l = Some l' -> quiet l'.
Proof.
  revert l. induction ops as [|o ops IH]; intros l H Hq; simpl; [by intros [= <-]|].
  destruct (apply_op o l) as [l1|] eqn:E; [|done]. simpl. apply IH; [by eapply apply_op_sync|by eapply apply_op_quiet].
Qed.

Lemma new_quiet n k : Forall (eq false) k -> quiet (Loop_new n k).
Proof. intros Hk. split; [done|]. intros fd p _. unfold failed. cbn. set_solver. Qed.

(** C10.  The kernel watches what the program asked for.  After any sequence of creations,
    registrations, removals and changes of interest, whatever the descriptors and
    whichever additions and changes the kernel refuses: each descriptor of the table
    belongs to a live event object that knows it is watched, each such object is in the
    table, the kernel watches no other descriptor, and it watches each with exactly the
    interest of its event object, except those whose last [epoll_ctl] call failed.  With a
    kernel that refuses nothing there are no such descriptors. *)
Theorem epoll_interest_in_sync n kernel ops l :
  apply_ops ops (Loop_new n kernel) = Some l ->
  sync l /\ (Forall (eq false) kernel -> forall fd p, slot_of fd l = Some (Some p) ->
             exists e, objects l !! p = Some e /\ interest l !! fd = Some (epoll_mask e)).
Proof.
  intros E. pose proof (apply_ops_sync ops _ l (new_sync n kernel) E) as Hs. split; [done|]. intros Hk fd p Hp.
  destruct (apply_ops_quiet ops _ l (new_sync n kernel) (new_quiet n kernel Hk) E) as [_ Hf].
  destruct (proj1 Hs _ _ Hp) as (e & He & _ & _ & _ & Hi). exists e. split; [done|]. by apply Hi, (Hf fd p).
Qed.

Lemma epoll_interest_in_sync_witness :
  exists l, apply_ops [OpCreate 1 7 READ; OpCreate 2 8 READ; OpCreate 3 9 READ; OpInstall 1; OpInstall 2; OpInstall 3; OpEnableWriting 1;
      OpRemove 2; OpDisableReading 1] (Loop_new 64 [false; false; true]) = Some l /\
    sync l /\ interest l !! 7 = Some (Z.lor EPOLLOUT EPOLLRDHUP) /\ interest l !! 8 = None /\ interest l !! 9 = None.
Proof.
  eexists. split; [vm_compute; reflexivity|]. split; [|split; [|split]; reflexivity].
  apply (epoll_interest_in_sync 64 [false; false; true] [OpCreate 1 7 READ; OpCreate 2 8 READ; OpCreate 3 9 READ; OpInstall 1; OpInstall 2;
    OpInstall 3; OpEnableWriting 1; OpRemove 2; OpDisableReading 1]).
  vm_compute. reflexivity.
Defined.

(** [AddFdEvent] does not look at the answer: when the kernel refuses a descriptor,
    [InstallFdEvent] says [true] all the same, and the event stays in the table, watched by
    nobody. *)
Theorem refused_registration_reported_done :
  exists l l', apply_op (OpCreate 1 7 READ) (Loop_new 64 [true]) = Some l /\ InstallFdEvent 1 l = Some (true, l') /\
    GetFdEvent 7 l' = Some 1 /\ interest l' = ∅.
Proof. do 2 eexists. split; [vm_compute; reflexivity|]. split; [vm_compute; reflexivity|]. done. Qed.

(** ** Dispatch *)

(** The object at [p] is registered at this moment. *)
Definition current (l : Loop) (p : Z) : bool :=
  match objects l !! p with
  | Some e => watched e && bool_decide (GetFdEvent (ev_fd e) l = Some p)
  | None => false
  end.

(** What has happened to the events of a loop: the operations of the program, of its
    timers and of its handlers, and the calls of handlers. *)
Inductive action := Did (o : op) | Ran (p ev : Z).

(** The events created so far, each with its descriptor and whether it has been installed
    and not removed since; told from the history alone. *)
Definition note (st : gmap Z (Z * bool)) (a : action) : gmap Z (Z * bool) :=
  match a with
  | Did (OpCreate p fd _) => <[p := (fd, false)]> st
  | Did (OpInstall p) => alter (fun x => (x.1, true)) p st
  | Did (OpRemove p) => alter (fun x => (x.1, false)) p st
  | _ => st
  end.
Definition standing (h : list action) : gmap Z (Z * bool) := fold_left note h ∅.
Definition installed_for (h : list action) (fd p : Z) : Prop := standing h !! p = Some (fd, true).

(** The contract of a batch: each report, in order, calls the handler of the event
    installed for its descriptor at that moment, or nobody when there is none. *)
Inductive dispatched : list (Z * Z) -> list action -> list action -> Prop :=
  | dispatched_nil h : dispatched [] h h
  | dispatched_run fd ev evs h p ops h' :
      installed_for h fd p -> dispatched evs (h ++ Ran p ev :: map Did ops) h' -> dispatched ((fd, ev) :: evs) h h'
  | dispatched_skip fd ev evs h h' :
      (forall p, ~ installed_for h fd p) -> dispatched evs h h' -> dispatched ((fd, ev) :: evs) h h'.

(** A program: operations, and turns of the loop with what the kernel reports and what
    the timers due then do. *)
Inductive step := Do (o : op) | Turn (fired : list (Z * Z)) (timers : list op).

Inductive happened : list step -> list action -> list action -> Prop :=
  | happened_nil h : happened [] h h
  | happened_do o steps h h' : happened steps (h ++ [Did o]) h' -> happened (Do o :: steps) h h'
  | happened_turn fired timers steps h h1 h' :
      dispatched (map (fun e => (e.1, ToLtEvent e.2)) fired) (h ++ map Did timers) h1 -> happened steps h1 h' ->
      happened (Turn fired timers :: steps) h h'.

Section Handlers.
(** Handlers: any operations on any events, chosen from everything there is to see. *)
Context {S : Type} (handler : Z -> Z -> Loop * S -> list op * S).

Definition perform (ops : list op) (w : Loop * (S * list action)) : option (Loop * (S * list action)) :=
  l ← apply_ops ops w.1; Some (l, (w.2.1, w.2.2 ++ map Did ops)).

Definition handle (p ev : Z) (w : Loop * (S * list action)) : option (Loop * (S * list action)) :=
  let '(ops, s) := handler p ev (w.1, w.2.1) in
  perform ops (w.1, (s, w.2.2 ++ [Ran p ev])).

Fixpoint run (steps : list step) (w : Loop * (S * list action)) : option (Loop * (S * list action)) :=
  match steps with
  | [] => Some w
  | Do o :: steps' => w ← perform [o] w; run steps' w
  | Turn fired timers :: steps' => w ← Pump handle (perform timers) fired w; run steps' w
  end.
End Handlers.

(** The loop agrees with the history. *)
Definition view (l : Loop) : gmap Z (Z * bool) := (fun e => (ev_fd e, watched e)) <$> objects l.
Definition agrees (l : Loop) (h : list action) : Prop := sync l /\ view l = standing h.

Lemma standing_app h a : standing (h ++ [a]) = note (standing h) a.
Proof. unfold standing. by rewrite fold_left_app. Qed.

(** One object changes. *)
Lemma view_change p e e' l l' f :
  objects l !! p = Some e -> objects l' = <[p := e']> (objects l) -> f (ev_fd e, watched e) = (ev_fd e', watched e') ->
  view l' = alter f p (view l).
Proof.
  intros He Ho Hf. unfold view. rewrite Ho, fmap_insert. apply map_eq. intros q. destruct (decide (q = p)) as [->|Hne].
  - by rewrite lookup_insert_eq, lookup_alter_eq, lookup_fmap, He, <- Hf.
  - by rewrite lookup_insert_ne, lookup_alter_ne.
Qed.

Lemma alter_same {A} (f : A -> A) (p : Z) (m : gmap Z A) x : m !! p = Some x -> f x = x -> alter f p m = m.
Proof.
  intros Hx Hf. apply map_eq. intros q. destruct (decide (q = p)) as [->|]; [|by rewrite lookup_alter_ne].
  rewrite lookup_alter_eq, Hx. cbn. by rewrite Hf.
Qed.

Lemma apply_op_view o l l' : sync l -> apply_op o l = Some l' -> view l' = note (view l) (Did o).
Proof.
  intros Hs E.
  destruct (apply_op_cases o l l' E) as [(p & fd & ev & -> & H)|[(p & -> & H)|[(p & e & -> & He & H)|[Hn Hl]]]].
  - unfold Create in H. destruct (objects l !! p); [done|]. injection H as <-. unfold view. cbn. by rewrite fmap_insert.
  - destruct (objects l !! p) as [e|] eqn:He; [|unfold AddFdEvent in H; by rewrite He in H].
    eapply view_change; [done | by apply AddFdEvent_objects | done].
  - cbn. destruct (watched e) eqn:Hw; [eapply view_change; [done | by apply DelFdEvent_objects | done]|]. subst l'.
    symmetry. apply (alter_same _ _ _ (ev_fd e, false)); [|done]. unfold view. by rewrite lookup_fmap, He, <- Hw.
  - assert (note (view l) (Did o) = view l) as ->.
    { destruct o as [p fd ev|p|p| | | | |]; try done; destruct (Hn p) as (H1 & H2 & H3); [by destruct (H3 fd ev) | done..]. }
    destruct Hl as [->|(p & ev & H)]; [done|]. destruct (SetEvent_inv p ev l l' Hs H) as (_ & e & He & Ho).
    rewrite (view_change p e _ l l' id He Ho eq_refl). apply (alter_same _ _ _ (ev_fd e, watched e)); [|done].
    unfold view. by rewrite lookup_fmap, He.
Qed.

Lemma apply_ops_agrees ops l l' h : agrees l h -> apply_ops ops l = Some l' -> agrees l' (h ++ map Did ops).
Proof.
  revert l h. induction ops as [|o ops IH]; intros l h [Hs Hv]; cbn [apply_ops map]; [intros [= <-]; by rewrite app_nil_r|].
  destruct (apply_op o l) as [l1|] eqn:E; [|done]. cbn [mbind option_bind]. intros H.
  rewrite cons_middle, app_assoc. apply (IH l1); [|done]. split; [by eapply apply_op_sync|].
  rewrite standing_app, <- Hv. by apply apply_op_view.
Qed.

(** The table names the event the history says is installed. *)
Lemma agrees_lookup l h fd p : agrees l h -> GetFdEvent fd l = Some p <-> installed_for h fd p.
Proof.
  intros [(H1 & H2 & _) Hv]. unfold installed_for. rewrite <- Hv. unfold view. rewrite lookup_fmap_Some. unfold GetFdEvent. split.
  - destruct (slot_of fd l) as [[q|]|] eqn:Hs; try done. intros [= ->]. destruct (H1 _ _ Hs) as (e & He & <- & Hw & _). exists e. by rewrite Hw.
  - intros (e & [= <- Hw] & He). by rewrite (H2 _ _ He Hw).
Qed.

Section HandlersProofs.
Context {S : Type} (handler : Z -> Z -> Loop * S -> list op * S).

Lemma batch_dispatched evs w w' :
  agrees w.1 w.2.2 -> InvokeFiredEvent (handle handler) evs w = Some w' -> dispatched evs w.2.2 w'.2.2 /\ agrees w'.1 w'.2.2.
Proof.
  revert w. induction evs as [|[fd mask] evs IH]; intros w Hw; cbn [InvokeFiredEvent]; [intros [= <-]; split; [constructor|done]|].
  destruct (GetFdEvent fd w.1) as [p|] eqn:Hg; cbn [mbind option_bind].
  - pose proof (proj1 (agrees_lookup _ _ _ _ Hw) Hg) as Hin. unfold Invoke.
    destruct (objects w.1 !! p) as [e|] eqn:He; [|done]. cbn [mbind option_bind]. set (e' := mkEv _ _ _ _ _ _). unfold handle at 2. cbn [fst snd].
    destruct (handler p mask _) as [ops s]. unfold perform. cbn [fst snd].
    destruct (apply_ops ops _) as [l1|] eqn:El; [|done]. cbn [mbind option_bind]. intros Hr.
    assert (Ha : agrees l1 ((w.2.2 ++ [Ran p mask]) ++ map Did ops)).
    { apply (apply_ops_agrees ops (set_object p e' w.1)); [|done]. destruct Hw as [Hs Hv]. split; [by apply Invoke_mark_sync|].
      rewrite standing_app. cbn [note]. rewrite <- Hv. rewrite (view_change p e e' w.1 (set_object p e' w.1) id He eq_refl eq_refl).
      apply (alter_same _ _ _ (ev_fd e, watched e)); [|done]. unfold view. by rewrite lookup_fmap, He. }
    destruct (IH (l1, (s, (w.2.2 ++ [Ran p mask]) ++ map Did ops)) Ha Hr) as [Hd Ha']. split; [|done]. apply (dispatched_run _ _ _ _ p ops); [exact Hin|].
    cbn [fst snd] in Hd. rewrite <- app_assoc in Hd. exact Hd.
  - intros Hr. destruct (IH _ Hw Hr) as [Hd Ha']. split; [|done]. apply dispatched_skip; [|done].
    intros p Hp%(agrees_lookup _ _ _ _ Hw). congruence.
Qed.

Lemma perform_agrees ops (w w' : Loop * (S * list action)) :
  agrees w.1 w.2.2 -> perform ops w = Some w' -> agrees w'.1 w'.2.2 /\ w'.2.2 = w.2.2 ++ map Did ops.
Proof.
  intros Hw. unfold perform. destruct (apply_ops ops w.1) as [l|] eqn:E; [|done]. intros [= <-]. split; [|done]. by eapply apply_ops_agrees.
Qed.

Lemma run_happened steps w w' : agrees w.1 w.2.2 -> run handler steps w = Some w' -> happened steps w.2.2 w'.2.2.
Proof.
  revert w. induction steps as [|[o|fired timers] steps IH]; intros w Hw; cbn [run]; [intros [= <-]; constructor| |].
  - destruct (perform [o] w) as [w1|] eqn:E; [|done]. cbn [mbind option_bind]. intros H.
    destruct (perform_agrees [o] w w1 Hw E) as [Ha Eh]. constructor. change [Did o] with (map Did [o]). rewrite <- Eh. by apply IH.
  - unfold Pump. destruct (perform timers w) as [w1|] eqn:E; [|done]. cbn [mbind option_bind].
    destruct (InvokeFiredEvent _ _ w1) as [w2|] eqn:E2; [|done]. cbn [mbind option_bind]. intros H.
    destruct (perform_agrees timers w w1 Hw E) as [Ha Eh]. destruct (batch_dispatched _ w1 w2 Ha E2) as [Hd Ha2].
    eapply happened_turn; [rewrite <- Eh; exact Hd|]. by apply IH.
Qed.
End HandlersProofs.

(** C12.  Dispatch is exact.  Take any program of operations and turns of the loop, whatever the
    kernel reports and refuses, with timers and handlers that create, install, remove and
    change any events.  Each report of a batch calls the handler of the event that has been
    created for that descriptor, installed, and not removed since, also when an earlier
    handler or timer of the same turn removed it or installed another; a report of a
    descriptor with no such event calls nobody. *)
Theorem dispatch_exact {S : Type} (handler : Z -> Z -> Loop * S -> list op * S) n kernel steps s w :
  run handler steps (Loop_new n kernel, (s, [])) = Some w -> happened steps [] w.2.2.
Proof.
  apply (run_happened handler steps (Loop_new n kernel, (s, []))). split; [apply new_sync|done].
Qed.

(** Handlers that remove the object 2 and put the object 3 in its place. *)
Definition replacing_handler (p ev : Z) (w : Loop * unit) : list op * unit :=
  ((if p =? 1 then [OpRemove 2; OpCreate 3 9 READ; OpInstall 3] else []), tt).

Definition example_program : list step :=
  [Do (OpCreate 1 7 READ); Do (OpCreate 2 8 READ); Do (OpInstall 1); Do (OpInstall 2); Turn [(7, EPOLLIN); (8, EPOLLIN); (9, EPOLLOUT)] []].

Lemma dispatch_exact_witness :
  exists w, run replacing_handler example_program (Loop_new 64 [], (tt, [])) = Some w /\ happened example_program [] w.2.2 /\
    w.2.2 = [Did (OpCreate 1 7 READ); Did (OpCreate 2 8 READ); Did (OpInstall 1); Did (OpInstall 2);
             Ran 1 READ; Did (OpRemove 2); Did (OpCreate 3 9 READ); Did (OpInstall 3); Ran 3 WRITE].
Proof.
  eexists. split; [vm_compute; reflexivity|]. split; [|reflexivity].
  apply (dispatch_exact replacing_handler 64 [] example_program tt). vm_compute. reflexivity.
Defined.
End EventLoop.
