(* ===== verification/Connector.v ===== *)
(** * Outgoing connections (net_io/clients/client_connector.{h,cc})

    [Connector] starts non-blocking connects on the event loop and reports each of them to
    its delegate.  What the kernel answers ([socket], [connect], [getpeername],
    [getsockname]) is an argument of the operation; [events_log] lists the calls on the
    delegates, [closed_fds] the descriptors that were closed. *)
From stdpp Require Import gmap.
From S2P Require Import Prelude IOBuffer Channel EventLoop.
Import FdEvent EventLoop.

Module Connector.

Definition EINTR : Z := 4.
Definition EISCONN : Z := 106.
Definition EINPROGRESS : Z := 115.

(** A call on the delegate [hdl]. *)
Inductive report := OnConnectFailed (hdl count : Z) | OnConnected (hdl fd : Z).

Record Connector := mkConnector {
  loop : Loop;
  inprogress_ : list (Z * Z);      (* connect_ctx: the event and the delegate *)
  count_ : Z;
  events_log : list report;
  closed_fds : list Z;
}.

Definition Connector_new (l : Loop) : Connector := mkConnector l [] 0 [] [].

Definition say (r : report) (c : Connector) : Connector :=
  mkConnector (loop c) (inprogress_ c) (count_ c) (events_log c ++ [r]) (closed_fds c).
Definition CloseSocket (fd : Z) (c : Connector) : Connector :=
  mkConnector (loop c) (inprogress_ c) (count_ c) (events_log c) (closed_fds c ++ [fd]).
Definition with_loop (l : Loop) (c : Connector) : Connector :=
  mkConnector l (inprogress_ c) (count_ c) (events_log c) (closed_fds c).

Definition InprocessCount (c : Connector) : Z := count_ c.

(** What the kernel and the allocator answer to a dial. *)
Record dial_env := mkDialEnv {
  new_socket : Z;            (* CreateNoneBlockTCP, -1 on failure *)
  sockaddr_ok : bool;        (* ep.ToSockAddr *)
  connect_ret : Z;
  connect_error : Z;
  endpoints_ok : bool;       (* GetPeerEndpoint and GetLocalEndpoint *)
  new_event : Z;             (* the address of the FdEvent *)
}.

Definition Dial (r : Z) (env : dial_env) (c : Connector) : option Connector :=
  let sock_fd := new_socket env in
  let failed c := Some (say (OnConnectFailed r (u32 (zlen (inprogress_ c)))) c) in
  if sock_fd =? -1 then failed c
  else if negb (sockaddr_ok env) then failed (CloseSocket sock_fd c)
  else if (connect_ret env =? 0) && (connect_error env =? 0) then
    if endpoints_ok env then Some (say (OnConnected r sock_fd) c) else failed (CloseSocket sock_fd c)
  else if (connect_error env =? EINTR) || (connect_error env =? EISCONN) || (connect_error env =? EINPROGRESS) then
    l ← Create (new_event env) sock_fd WRITE (loop c);
    r' ← InstallFdEvent (new_event env) l;
    Some (mkConnector r'.2 (inprogress_ c ++ [(new_event env, r)]) (count_ c) (events_log c) (closed_fds c))
  else failed (CloseSocket sock_fd c).

(** The last reference to the event goes away: its destructor closes the descriptor it owns. *)
Definition release (p : Z) (c : Connector) : option Connector :=
  e ← objects (loop c) !! p;
  let c := with_loop (mkLoop (delete p (objects (loop c))) (evs_ (loop c)) (epoll_ (loop c))) c in
  Some (if owner e then CloseSocket (ev_fd e) c else c).

Definition find_ctx (p : Z) (c : Connector) : option (Z * Z) := find (fun x => x.1 =? p) (inprogress_ c).

(** [inprogress_.erase(iter)], the first entry of the event. *)
Fixpoint erase_ctx (p : Z) (l : list (Z * Z)) : list (Z * Z) :=
  match l with
  | [] => []
  | x :: l' => if x.1 =? p then l' else x :: erase_ctx p l'
  end.

Definition RemoveFromInprogress (p : Z) (notify_fail : bool) (c : Connector) : option Connector :=
  r ← RemoveFdEvent p (loop c);
  let c := with_loop r.2 c in
  match find_ctx p c with
  | None => Some c
  | Some (_, hdl) =>
      let c := if notify_fail then say (OnConnectFailed hdl (u32 (zlen (inprogress_ c)))) c else c in
      let rest := erase_ctx p (inprogress_ c) in
      release p (mkConnector (loop c) rest (u32 (zlen rest)) (events_log c) (closed_fds c))
  end.

Definition HandleError (p : Z) (c : Connector) : option Connector := RemoveFromInprogress p true c.

(** What the kernel says of a descriptor that fired. *)
Record fire_env := mkFireEnv { self_connect : bool; fire_endpoints_ok : bool }.

Definition HandleWrite (p : Z) (env : fire_env) (c : Connector) : option Connector :=
  if self_connect env then RemoveFromInprogress p true c
  else
    match find_ctx p c with
    | None => Some c
    | Some (_, hdl) =>
        e ← objects (loop c) !! p;
        let e := mkEv (ev_fd e) (ev_events e) (ev_fired e) (ev_et e) (watched e) false in   (* ReleaseOwnership *)
        r ← RemoveFdEvent p (set_object p e (loop c));
        let c := mkConnector r.2 (erase_ctx p (inprogress_ c)) (count_ c) (events_log c) (closed_fds c) in
        let c := if fire_endpoints_ok env then say (OnConnected hdl (ev_fd e)) c
                 else say (OnConnectFailed hdl (u32 (zlen (inprogress_ c)))) c in
        release p c
    end.

Definition HandleEvent (p ev : Z) (env : fire_env) (c : Connector) : option Connector :=
  if has_read ev then HandleWrite p env c else HandleError p c.

Fixpoint remove_all (ps : list (Z * Z)) (l : Loop) : option Loop :=
  match ps with [] => Some l | (p, _) :: ps' => r ← RemoveFdEvent p l; remove_all ps' r.2 end.

Fixpoint release_all (ps : list (Z * Z)) (c : Connector) : option Connector :=
  match ps with [] => Some c | (p, _) :: ps' => c ← release p c; release_all ps' c end.

Definition Stop (c : Connector) : option Connector :=
  l ← remove_all (inprogress_ c) (loop c);
  release_all (inprogress_ c) (mkConnector l [] 0 (events_log c) (closed_fds c)).

(** ** Every dial is reported once *)

(** What happens to a connector: a dial, an event of the loop, the client stopping.  An event
    of an object that is no longer registered is not dispatched. *)
Inductive op := OpDial (r : Z) (env : dial_env) | OpFire (p ev : Z) (env : fire_env) | OpStop.

Definition fire (p ev : Z) (env : fire_env) (c : Connector) : option Connector :=
  if current (loop c) p then
    e ← objects (loop c) !! p;
    HandleEvent p ev env (with_loop (set_object p (mkEv (ev_fd e) (ev_events e) ev (ev_et e) (watched e) (owner e)) (loop c)) c)
  else Some c.

Definition step (o : op) (c : Connector) : option Connector :=
  match o with
  | OpDial r env => Dial r env c
  | OpFire p ev env => fire p ev env c
  | OpStop => Stop c
  end.

(** The final state, the delegates that dialled and those whose dials were cancelled. *)
Fixpoint run (ops : list op) (c : Connector) : option (list Z * list Z * Connector) :=
  match ops with
  | [] => Some ([], [], c)
  | o :: ops' =>
      c' ← step o c;
      r ← run ops' c';
      let '(dialled, cancelled, c'') := r in
      Some (match o with OpDial r _ => [r] | _ => [] end ++ dialled,
            match o with OpStop => map snd (inprogress_ c) | _ => [] end ++ cancelled, c'')
  end.

Definition hdl_of (r : report) : Z := match r with OnConnectFailed h _ | OnConnected h _ => h end.

(** The delegates that have an answer or wait for one. *)
Definition accounted (c : Connector) : list Z := map hdl_of (events_log c) ++ map snd (inprogress_ c).

Definition live (l : Loop) (x : Z * Z) : Prop := exists e, objects l !! x.1 = Some e /\ watched e = true.

Definition cinv (c : Connector) : Prop :=
  sync (loop c) /\ NoDup (map fst (inprogress_ c)) /\ Forall (live (loop c)) (inprogress_ c).

Lemma RemoveFdEvent_spec p e l :
  sync l -> objects l !! p = Some e -> watched e = true ->
  exists l', RemoveFdEvent p l = Some (true, l') /\ sync l' /\ objects l' = <[p := SetFdWatcher false e]> (objects l).
Proof.
  intros Hs He Hw. unfold RemoveFdEvent. rewrite He. cbn [mbind option_bind]. rewrite Hw.
  destruct (DelFdEvent p l) as [l'|] eqn:E.
  - eexists. split; [done|]. split; [by eapply DelFdEvent_sync|]. by apply DelFdEvent_objects.
  - unfold DelFdEvent in E. rewrite He in E. cbn [mbind option_bind] in E. by rewrite Hw in E.
Qed.

Lemma delete_unwatched p e l :
  sync l -> objects l !! p = Some e -> watched e = false -> sync (mkLoop (delete p (objects l)) (evs_ l) (epoll_ l)).
Proof.
  intros (H1 & H2 & H3) He Hw. split_and!; [| |exact H3].
  - intros fd q Hq. destruct (H1 _ _ Hq) as (e' & Ho & Hf & Hw' & Hr). exists e'. simpl.
    rewrite lookup_delete_ne by congruence. done.
  - intros q e' Ho Hw'. simpl in Ho. apply lookup_delete_Some in Ho as [_ Ho]. by eapply H2.
Qed.

Lemma erase_ctx_split p h l :
  NoDup (map fst l) -> find (fun x => x.1 =? p) l = Some h ->
  h.1 = p /\ l ≡ₚ h :: erase_ctx p l /\ NoDup (map fst (erase_ctx p l)) /\ Forall (fun x => x.1 <> p) (erase_ctx p l).
Proof.
  induction l as [|x l IH]; simpl; [done|]. intros [Hx Hl]%list.NoDup_cons. destruct (Z.eqb_spec x.1 p) as [Hp|Hp].
  - intros [= <-]. split_and!; try done. apply Forall_forall. intros y Hy <-. apply Hx. rewrite Hp.
    apply list_elem_of_In, in_map_iff. by exists y.
  - intros Hf. destruct (IH Hl Hf) as (H1 & H2 & H3 & H4). split_and!; [done | rewrite H2 at 1; constructor | | by constructor].
    simpl. apply list.NoDup_cons. split; [|done]. intros Hin. apply Hx. rewrite (Permutation_map fst H2). by right.
Qed.

(** A pending dial that ends: its event is removed and released, and it is reported once. *)
Lemma finish_dial c l p e h r n closed :
  sync l -> objects l !! p = Some e -> watched e = true ->
  NoDup (map fst (inprogress_ c)) -> Forall (live l) (inprogress_ c) -> find_ctx p c = Some h -> hdl_of r = h.2 ->
  exists l', RemoveFdEvent p l = Some (true, l') /\
  exists c', release p (mkConnector l' (erase_ctx p (inprogress_ c)) n (events_log c ++ [r]) closed) = Some c' /\
    cinv c' /\ accounted c' ≡ₚ accounted c /\ inprogress_ c' = erase_ctx p (inprogress_ c).
Proof.
  intros Hs He Hw Hnd Hall Hf Hr. destruct (RemoveFdEvent_spec p e l Hs He Hw) as (l' & Hrm & Hs' & Ho). exists l'. split; [done|].
  destruct (erase_ctx_split p h _ Hnd Hf) as (Hh & Hperm & Hnd' & Hne).
  assert (He' : objects l' !! p = Some (SetFdWatcher false e)) by (rewrite Ho; apply lookup_insert_eq).
  unfold release. cbn [loop]. rewrite He'. cbn [mbind option_bind]. eexists. split; [done|]. set (c' := if owner _ then _ else _).
  assert (Hc' : loop c' = mkLoop (delete p (objects l')) (evs_ l') (epoll_ l') /\ inprogress_ c' = erase_ctx p (inprogress_ c) /\
    events_log c' = events_log c ++ [r]) by (unfold c'; by destruct (owner _)).
  destruct Hc' as (Hl & Hi & Hlog). split_and!; [| |done].
  - split_and!; rewrite ?Hl, ?Hi; [by eapply delete_unwatched | done |]. apply Forall_forall. intros x Hx.
    rewrite Forall_forall in Hne. specialize (Hne x Hx). assert (Hin : In x (inprogress_ c)).
    { eapply Permutation_in; [symmetry; exact Hperm | by right]. }
    rewrite Forall_forall in Hall. destruct (Hall x Hin) as (e0 & H0 & Hw0). exists e0. simpl.
    rewrite lookup_delete_ne, Ho, lookup_insert_ne by congruence. done.
  - unfold accounted. rewrite Hi, Hlog, map_app, <- app_assoc. apply Permutation_app_head. simpl.
    rewrite Hr. symmetry. exact (Permutation_map snd Hperm).
Qed.

Lemma current_live p l : current l p = true -> exists e, objects l !! p = Some e /\ watched e = true.
Proof.
  unfold current. destruct (objects l !! p) as [e|]; [|done]. intros [Hw _]%andb_true_iff. by exists e.
Qed.

(** The marking of an event as fired keeps everything. *)
Lemma mark_live p e ev l x : objects l !! p = Some e -> live l x ->
  live (set_object p (mkEv (ev_fd e) (ev_events e) ev (ev_et e) (watched e) (owner e)) l) x.
Proof.
  intros He (e0 & H0 & Hw). destruct (decide (x.1 = p)) as [Hx|Hx].
  - eexists. simpl. rewrite Hx, lookup_insert_eq. split; [done|]. simpl. congruence.
  - exists e0. simpl. by rewrite lookup_insert_ne.
Qed.

Lemma fail_step p c :
  cinv c -> (exists e, objects (loop c) !! p = Some e /\ watched e = true) ->
  exists c', RemoveFromInprogress p true c = Some c' /\ cinv c' /\ accounted c' ≡ₚ accounted c.
Proof.
  intros (Hs & Hnd & Hall) (e & He & Hw). unfold RemoveFromInprogress. destruct (find_ctx p c) as [h|] eqn:Hf.
  - destruct (finish_dial c (loop c) p e h (OnConnectFailed h.2 (u32 (zlen (inprogress_ c)))) (u32 (zlen (erase_ctx p (inprogress_ c))))
      (closed_fds c)) as (l' & Hrm & c' & Hrel & Hi & Ha & _); try done.
    rewrite Hrm. cbn [mbind option_bind snd]. change (find_ctx p (with_loop l' c)) with (find_ctx p c). rewrite Hf.
    destruct h as [q hdl]. by exists c'.
  - destruct (RemoveFdEvent_spec p e (loop c) Hs He Hw) as (l' & -> & Hs' & Ho). cbn [mbind option_bind snd].
    change (find_ctx p (with_loop l' c)) with (find_ctx p c). rewrite Hf. eexists. split; [done|]. split; [|done].
    split_and!; [done | done |]. rewrite Forall_forall in *. intros x Hx. destruct (Hall x Hx) as (e0 & H0 & Hw0).
    assert (Hne : p <> x.1).
    { intros ->. eapply (find_none _ _ Hf x) in Hx. by rewrite Z.eqb_refl in Hx. }
    exists e0. simpl. by rewrite Ho, lookup_insert_ne.
Qed.

Lemma write_step p env c :
  cinv c -> (exists e, objects (loop c) !! p = Some e /\ watched e = true) ->
  exists c', HandleWrite p env c = Some c' /\ cinv c' /\ accounted c' ≡ₚ accounted c.
Proof.
  intros Hinv Hp. unfold HandleWrite. destruct (self_connect env); [by apply fail_step|].
  destruct Hinv as (Hs & Hnd & Hall). destruct Hp as (e & He & Hw). destruct (find_ctx p c) as [h|] eqn:Hf; [|by exists c].
  destruct h as [q hdl]. rewrite He. cbn [mbind option_bind]. set (e' := mkEv _ _ _ _ _ _).
  assert (Hs' : sync (set_object p e' (loop c))).
  { by eapply modify_sync. }
  assert (Hall' : Forall (live (set_object p e' (loop c))) (inprogress_ c)).
  { eapply Forall_impl; [|exact Hall]. intros x (e0 & H0 & Hw0). destruct (decide (x.1 = p)) as [Hx|Hx].
    - exists e'. simpl. by rewrite Hx, lookup_insert_eq.
    - exists e0. simpl. by rewrite lookup_insert_ne. }
  set (rep := if fire_endpoints_ok env then OnConnected hdl (ev_fd e') else OnConnectFailed hdl (u32 (zlen (erase_ctx p (inprogress_ c))))).
  destruct (finish_dial c (set_object p e' (loop c)) p e' (q, hdl) rep (count_ c) (closed_fds c))
    as (l' & Hrm & c' & Hrel & Hi & Ha & _); try done; [simpl; apply lookup_insert_eq | unfold rep; by destruct (fire_endpoints_ok env) |].
  rewrite Hrm. cbn [mbind option_bind snd]. exists c'. split; [|done]. rewrite <- Hrel. unfold rep. by destruct (fire_endpoints_ok env).
Qed.

Lemma fire_step p ev env c :
  cinv c -> exists c', fire p ev env c = Some c' /\ cinv c' /\ accounted c' ≡ₚ accounted c.
Proof.
  intros Hinv. unfold fire. destruct (current (loop c) p) eqn:Hc; [|by exists c].
  destruct (current_live _ _ Hc) as (e & He & Hw). rewrite He. cbn [mbind option_bind]. set (c1 := with_loop _ c).
  destruct Hinv as (Hs & Hnd & Hall). assert (Hinv1 : cinv c1).
  { split_and!; [by apply Invoke_mark_sync | done |]. eapply Forall_impl; [|exact Hall]. intros x. by apply mark_live. }
  assert (Hp : exists e, objects (loop c1) !! p = Some e /\ watched e = true) by (eexists; simpl; by rewrite lookup_insert_eq).
  change (accounted c) with (accounted c1). unfold HandleEvent, HandleError.
  destruct (has_read ev); [by apply write_step | by apply fail_step].
Qed.

Lemma say_step r c : cinv c -> cinv (say r c) /\ accounted (say r c) ≡ₚ accounted c ++ [hdl_of r].
Proof.
  intros H. split; [done|]. unfold accounted. simpl. rewrite map_app, <- !app_assoc. apply Permutation_app_head, Permutation_app_comm.
Qed.

Lemma dial_step r env c c' : cinv c -> Dial r env c = Some c' -> cinv c' /\ accounted c' ≡ₚ accounted c ++ [r].
Proof.
  intros Hinv. unfold Dial. destruct (_ =? -1); [intros [= <-]; by apply say_step|].
  assert (Hcl : cinv (CloseSocket (new_socket env) c)) by done.
  destruct (negb _); [intros [= <-]; exact (say_step (OnConnectFailed r _) _ Hcl)|].
  destruct (_ && _).
  { destruct (endpoints_ok env); intros [= <-]; [by apply say_step | exact (say_step (OnConnectFailed r _) _ Hcl)]. }
  destruct (_ || _); [|intros [= <-]; exact (say_step (OnConnectFailed r _) _ Hcl)].
  destruct (Create _ _ _ _) as [l1|] eqn:Ecr; [|done]. cbn [mbind option_bind]. unfold InstallFdEvent.
  destruct (AddFdEvent _ l1) as [l2|] eqn:Ead; [|done]. cbn [mbind option_bind snd]. intros [= <-].
  destruct Hinv as (Hs & Hnd & Hall). pose proof (Create_sync _ _ _ _ _ Hs Ecr) as Hs1.
  destruct (AddFdEvent_sync _ _ _ Hs1 Ead) as [Hs2 (e & He & e2 & He2 & _ & Hw2 & _)].
  assert (Hfresh : objects (loop c) !! new_event env = None) by (unfold Create in Ecr; by destruct (objects (loop c) !! new_event env)).
  assert (Hobj : forall q, q <> new_event env -> objects l2 !! q = objects (loop c) !! q).
  { intros q Hq. rewrite (AddFdEvent_objects _ _ _ _ He Ead), lookup_insert_ne by done. unfold Create in Ecr.
    rewrite Hfresh in Ecr. injection Ecr as <-. simpl. by rewrite lookup_insert_ne. }
  split.
  - split_and!; [done | |].
    + cbn [inprogress_]. rewrite map_app. apply list.NoDup_app. split_and!; [done | | by apply NoDup_singleton].
      intros q Hq%list_elem_of_In Hq'. apply list_elem_of_singleton in Hq' as ->. apply in_map_iff in Hq as (x & Hx & Hin).
      rewrite Forall_forall in Hall. destruct (Hall x Hin) as (e0 & H0 & _). simpl in Hx. congruence.
    + apply Forall_app. split; [|constructor; [by exists e2 | done]]. eapply Forall_impl; [|exact Hall].
      intros x (e0 & H0 & Hw0). exists e0. cbn [loop]. rewrite Hobj by congruence. done.
  - unfold accounted. cbn [events_log inprogress_]. by rewrite map_app, app_assoc.
Qed.

Lemma remove_all_spec ps l :
  sync l -> NoDup (map fst ps) -> Forall (live l) ps ->
  exists l', remove_all ps l = Some l' /\ sync l' /\
    Forall (fun x => exists e, objects l' !! x.1 = Some e /\ watched e = false) ps /\
    (forall q, q ∉ map fst ps -> objects l' !! q = objects l !! q).
Proof.
  revert l. induction ps as [|[p h] ps IH]; intros l Hs Hnd Hall; [by exists l|].
  apply Forall_cons_1 in Hall as [(e & He & Hw) Hall]. apply list.NoDup_cons in Hnd as [Hp Hnd]. simpl in He, Hp.
  destruct (RemoveFdEvent_spec p e l Hs He Hw) as (l1 & E & Hs1 & Ho). cbn [remove_all]. rewrite E. cbn [mbind option_bind snd].
  destruct (IH l1 Hs1 Hnd) as (l' & Hr & Hs' & Hun & Hkeep).
  { rewrite Forall_forall in *. intros x Hx. destruct (Hall x Hx) as (e0 & H0 & Hw0). exists e0.
    rewrite Ho, lookup_insert_ne; [done|]. intros ->. apply Hp, list_elem_of_In, in_map_iff. by exists x. }
  exists l'. split_and!; [done | done | |].
  - constructor; [|done]. exists (SetFdWatcher false e). simpl. rewrite Hkeep by done. rewrite Ho. by rewrite lookup_insert_eq.
  - intros q Hq. cbn [map] in Hq. apply not_elem_of_cons in Hq as [Hq1 Hq2]. rewrite Hkeep by done. rewrite Ho. by rewrite lookup_insert_ne.
Qed.

Lemma release_all_spec ps c :
  sync (loop c) -> NoDup (map fst ps) -> Forall (fun x => exists e, objects (loop c) !! x.1 = Some e /\ watched e = false) ps ->
  exists c', release_all ps c = Some c' /\ sync (loop c') /\ inprogress_ c' = inprogress_ c /\ events_log c' = events_log c.
Proof.
  revert c. induction ps as [|[p h] ps IH]; intros c Hs Hnd Hall; [by exists c|].
  apply Forall_cons_1 in Hall as [(e & He & Hw) Hall]. apply list.NoDup_cons in Hnd as [Hp Hnd]. simpl in He, Hp.
  cbn [release_all]. unfold release at 1. rewrite He. cbn [mbind option_bind]. set (c1 := if owner e then _ else _).
  assert (H1 : loop c1 = mkLoop (delete p (objects (loop c))) (evs_ (loop c)) (epoll_ (loop c)) /\
    inprogress_ c1 = inprogress_ c /\ events_log c1 = events_log c) by (unfold c1; by destruct (owner e)).
  destruct H1 as (Hl & Hi & Hlog). destruct (IH c1) as (c' & Hr & Hs' & Hi' & Hlog').
  - rewrite Hl. by eapply delete_unwatched.
  - done.
  - rewrite Hl. rewrite Forall_forall in *. intros x Hx. destruct (Hall x Hx) as (e0 & H0 & Hw0). exists e0. simpl.
    rewrite lookup_delete_ne; [done|]. intros ->. apply Hp, list_elem_of_In, in_map_iff. by exists x.
  - exists c'. split_and!; congruence.
Qed.

Lemma stop_step c : cinv c -> exists c', Stop c = Some c' /\ cinv c' /\ inprogress_ c' = [] /\ events_log c' = events_log c.
Proof.
  intros (Hs & Hnd & Hall). unfold Stop. destruct (remove_all_spec _ _ Hs Hnd Hall) as (l' & -> & Hs' & Hun & _). cbn [mbind option_bind].
  destruct (release_all_spec (inprogress_ c) (mkConnector l' [] 0 (events_log c) (closed_fds c)) Hs' Hnd Hun)
    as (c' & Hr & Hs2 & Hi & Hl). exists c'. split_and!; try done. split_and!; [done | |]; rewrite Hi; constructor.
Qed.

Lemma step_accounted o c c' :
  cinv c -> step o c = Some c' ->
  cinv c' /\ accounted c' ++ match o with OpStop => map snd (inprogress_ c) | _ => [] end ≡ₚ
    accounted c ++ match o with OpDial r _ => [r] | _ => [] end.
Proof.
  intros Hinv. destruct o as [r env|p ev env|]; simpl.
  - intros E. rewrite app_nil_r. by apply dial_step with (env := env).
  - intros E. destruct (fire_step p ev env c Hinv) as (c1 & E1 & H1 & Ha). rewrite E1 in E. injection E as <-. by rewrite !app_nil_r.
  - intros E. destruct (stop_step c Hinv) as (c1 & E1 & H1 & Hi & Hl). rewrite E1 in E. injection E as <-. split; [done|].
    unfold accounted. rewrite Hi, Hl. by rewrite !app_nil_r.
Qed.

Lemma run_accounted ops c dialled cancelled c' :
  cinv c -> run ops c = Some (dialled, cancelled, c') -> cinv c' /\ accounted c' ++ cancelled ≡ₚ accounted c ++ dialled.
Proof.
  revert c dialled cancelled. induction ops as [|o ops IH]; intros c dialled cancelled Hinv.
  - intros [= <- <- <-]. done.
  - cbn [run]. destruct (step o c) as [c1|] eqn:E; [|done]. cbn [mbind option_bind].
    destruct (run ops c1) as [[[d k] c2]|] eqn:E2; [|done]. cbn [mbind option_bind]. intros [= <- <- <-].
    destruct (step_accounted o c c1 Hinv E) as [H1 Ha]. destruct (IH c1 d k H1 E2) as [H2 Hb]. split; [done|].
    rewrite (Permutation_app_comm (match o with OpStop => _ | _ => _ end) k), app_assoc, Hb, <- app_assoc,
      (Permutation_app_comm d), app_assoc, Ha, <- app_assoc. done.
Qed.

(** C17.  Each dial has one outcome.  Through any history of dials, loop events and stops, the
    delegates told of a success or a failure, those still waiting and those cancelled by
    [Stop] are, as multisets, the delegates that dialled; and no loop event and no
    [Stop] makes the connector fail a check. *)
Theorem dial_reported_once n kernel ops dialled cancelled c :
  run ops (Connector_new (Loop_new n kernel)) = Some (dialled, cancelled, c) ->
  map hdl_of (events_log c) ++ map snd (inprogress_ c) ++ cancelled ≡ₚ dialled /\
  (forall p ev env, is_Some (fire p ev env c)) /\ is_Some (Stop c).
Proof.
  intros H. assert (H0 : cinv (Connector_new (Loop_new n kernel))) by (split_and!; [apply new_sync | constructor | constructor]).
  destruct (run_accounted ops _ _ _ _ H0 H) as [Hc Ha]. split_and!.
  - rewrite app_assoc. exact Ha.
  - intros p ev env. destruct (fire_step p ev env c Hc) as (c' & -> & _). done.
  - destruct (stop_step c Hc) as (c' & -> & _). done.
Qed.

(** A connect in progress, on descriptor [fd]. *)
Definition in_progress (fd p : Z) : dial_env := mkDialEnv fd true (-1) EINPROGRESS true p.

(** Two dials, one of which connects, and a stop. *)
Definition history : list op :=
  [OpDial 100 (in_progress 7 1); OpDial 101 (in_progress 8 2);
   OpFire 1 (ToLtEvent (Z.lor EPOLLIN EPOLLOUT)) (mkFireEnv false true); OpStop].

Lemma history_runs : is_Some (run history (Connector_new (Loop_new 64 []))).
Proof. apply is_Some_alt. vm_compute. exact I. Qed.

Lemma dial_reported_once_witness :
  exists dialled cancelled c, run history (Connector_new (Loop_new 64 [])) = Some (dialled, cancelled, c) /\
    map hdl_of (events_log c) ++ map snd (inprogress_ c) ++ cancelled ≡ₚ dialled /\
    (forall p ev env, is_Some (fire p ev env c)) /\ is_Some (Stop c).
Proof.
  destruct history_runs as [[[dialled cancelled] c] E]. exists dialled, cancelled, c. split; [exact E|].
  exact (dial_reported_once 64 [] history dialled cancelled c E).
Defined.

(** An established connection is reported as a failure: when a pending connect succeeds the
    socket becomes writable and nothing else, and whatever else the kernel says of it,
    the delegate is told that it failed and the socket is closed. *)
Theorem writable_connect_reported_failed c p hdl e env :
  find_ctx p c = Some (p, hdl) -> objects (loop c) !! p = Some e -> watched e = true -> owner e = true ->
  exists c', HandleEvent p (ToLtEvent EPOLLOUT) env c = Some c' /\
    events_log c' = events_log c ++ [OnConnectFailed hdl (u32 (zlen (inprogress_ c)))] /\ closed_fds c' = closed_fds c ++ [ev_fd e].
Proof.
  intros Hf He Hw Ho. unfold HandleEvent. change (has_read (ToLtEvent EPOLLOUT)) with false. cbv iota.
  unfold HandleError, RemoveFromInprogress, RemoveFdEvent. rewrite He. cbn [mbind option_bind]. rewrite Hw.
  unfold DelFdEvent. rewrite He. cbn [mbind option_bind]. rewrite Hw. cbn [mbind option_bind snd]. set (l' := (Remove _ _ _).2).
  assert (He' : objects l' !! p = Some (SetFdWatcher false e)).
  { unfold l', Remove. destruct (slot_of _ _) as [[q|]|]; [destruct (q =? p)| |]; simpl; apply lookup_insert_eq. }
  change (find_ctx p (with_loop l' c)) with (find_ctx p c). rewrite Hf. unfold release. cbn [loop say with_loop]. rewrite He'.
  cbn [mbind option_bind]. eexists. split; [done|]. cbn [SetFdWatcher owner ev_fd]. rewrite Ho. done.
Qed.

(** The state after one dial. *)
Definition dialling : Connector :=
  mkConnector (mkLoop {[1 := mkEv 7 WRITE NONE false true true]} (<[7%nat := Some 1]> (replicate 64 None))
    (mkEpoll {[7 := Z.lor EPOLLOUT EPOLLRDHUP]} [] ∅)) [(1, 100)] 0 [] [].

Lemma dialling_dial : Dial 100 (in_progress 7 1) (Connector_new (Loop_new 64 [])) = Some dialling.
Proof. vm_compute. reflexivity. Qed.

Lemma writable_connect_reported_failed_witness :
  exists c', HandleEvent 1 (ToLtEvent EPOLLOUT) (mkFireEnv false true) dialling = Some c' /\
    events_log c' = events_log dialling ++ [OnConnectFailed 100 (u32 (zlen (inprogress_ dialling)))] /\
    closed_fds c' = closed_fds dialling ++ [7].
Proof.
  apply (writable_connect_reported_failed dialling 1 100 (mkEv 7 WRITE NONE false true true));
    [reflexivity | vm_compute; reflexivity | reflexivity | reflexivity].
Defined.

(** The count the client throttles its reconnects by does not see dials that start. *)
Theorem inprocess_count_stale :
  exists c, Dial 100 (in_progress 7 1) (Connector_new (Loop_new 64 [])) = Some c /\ zlen (inprogress_ c) = 1 /\ InprocessCount c = 0.
Proof. exists dialling. split; [apply dialling_dial|]. split; reflexivity. Qed.
End Connector.
