(* ===== verification/Client.v ===== *)
(** * The connection pool of a client (net_io/clients/client.{h,cc})

    [Client] keeps a number of connections to one remote: it dials through its
    [Connector], starts a client channel for each connection, replaces the ones that
    break and picks a ready channel for each request.  A channel is its address.
    What an operation posts to a loop or tells its delegate is a list of effects;
    [in_loop] says whether it runs on the client's work loop, [inprocess] is
    [InprocessCount()] of the connector at that moment.  [None] is a failed [CHECK].

    [System] composes the client with the connector of [Connector.v]: the posted
    dials run later in any order, and the reports of the connector reach the
    client. *)
From stdpp Require Import gmap.
From S2P Require Import Prelude IOBuffer Channel EventLoop Connector.
Import FdEvent EventLoop.

Module Client.

Definition kConnetBatchCount : Z := 10.
Definition kMaxReconInterval : Z := 10000.

Inductive effect :=
  | PostDial                         (* Connector::Dial on the work loop *)
  | PostDelayDial (delay : Z)
  | PostStop                         (* Connector::Stop *)
  | PostStart (ch : Z)               (* ClientChannel::StartClientChannel on the channel's loop *)
  | PostClose (ch : Z)               (* ClientChannel::CloseClientChannel *)
  | PostSend (ch req : Z)            (* ClientChannel::SendRequest *)
  | RepostInited (ch : Z)            (* the notification itself, on the work loop *)
  | RepostClosed (ch : Z)
  | ChannelReady (ch : Z)            (* ClientDelegate::OnClientChannelReady *)
  | AllBroken.                       (* ClientDelegate::OnAllClientPassiveBroken *)

Record Client := mkClient {
  connections : Z;                   (* config_.connections *)
  stopping_ : bool;
  delegate_ : bool;
  next_index_ : Z;
  in_use_channels_ : list Z;
  channels_count_ : Z;
  channels_ : list Z;
  next_reconnect_interval_ : Z;
}.

(** The constructor; it leaves [next_reconnect_interval_] as the memory was. *)
Definition Client_new (junk : Z) : Client := mkClient 0 false false 0 [] 0 [] junk.
Definition SetDelegate (d : bool) (c : Client) : Client :=
  mkClient (connections c) (stopping_ c) d (next_index_ c) (in_use_channels_ c) (channels_count_ c) (channels_ c) (next_reconnect_interval_ c).
Definition set_interval (i : Z) (c : Client) : Client :=
  mkClient (connections c) (stopping_ c) (delegate_ c) (next_index_ c) (in_use_channels_ c) (channels_count_ c) (channels_ c) i.
(** The list of the manager, and its copy for the callers with the count. *)
Definition publish (l : list Z) (c : Client) : Client :=
  mkClient (connections c) (stopping_ c) (delegate_ c) (next_index_ c) l (u32 (zlen l)) l (next_reconnect_interval_ c).

Definition required_count (c : Client) : Z := connections c.
Definition ConnectedCount (c : Client) : Z := channels_count_ c.

Definition Initialize (n : Z) (c : Client) : Client * list effect :=
  let c := mkClient n (stopping_ c) (delegate_ c) (next_index_ c) (in_use_channels_ c) (channels_count_ c) (channels_ c) (next_reconnect_interval_ c) in
  (c, replicate (Z.to_nat (Z.min kConnetBatchCount (required_count c))) PostDial).

Definition Finalize (c : Client) : Client * list effect :=
  if stopping_ c then (c, []) else
  (mkClient (connections c) true (delegate_ c) (next_index_ c) (in_use_channels_ c) 0 (channels_ c) (next_reconnect_interval_ c),
   PostStop :: map PostClose (in_use_channels_ c)).

Definition launch_next_if_need (in_loop : bool) (inprocess : Z) (c : Client) : option (list effect) :=
  if negb in_loop then None else
  if stopping_ c || (required_count c <=? ConnectedCount c + inprocess) then Some []
  else Some [PostDial].

Definition OnConnectFailed (in_loop : bool) (inprocess : Z) (c : Client) : option (Client * list effect) :=
  if negb in_loop then None else
  if stopping_ c || (required_count c <=? ConnectedCount c) then Some (c, []) else
  let c := set_interval (u32 (next_reconnect_interval_ c + 10)) c in
  if kConnetBatchCount <? inprocess then Some (c, [])
  else Some (c, [PostDelayDial (i32 (Z.min (next_reconnect_interval_ c) kMaxReconInterval))]).

(** [ch]: the channel created for the socket; [codec]: whether the scheme has one. *)
Definition OnConnected (in_loop : bool) (inprocess ch : Z) (codec : bool) (c : Client) : option (Client * list effect) :=
  if negb in_loop then None else
  let c := set_interval 0 c in
  if negb codec then None else
  let c := publish (channels_ c ++ [ch]) c in
  es ← launch_next_if_need in_loop inprocess c;
  Some (c, PostStart ch :: es).

Definition OnClientChannelInited (in_loop : bool) (ch : Z) (c : Client) : list effect :=
  if negb (stopping_ c) && negb in_loop then [RepostInited ch]
  else if delegate_ c then [ChannelReady ch] else [].

Definition OnClientChannelClosed (in_loop : bool) (inprocess ch : Z) (c : Client) : option (Client * list effect) :=
  if negb in_loop && negb (stopping_ c) then Some (c, [RepostClosed ch]) else
  let c := publish (filter (fun x => x <> ch) (channels_ c)) c in
  es ← launch_next_if_need in_loop inprocess c;
  let connected_count := u32 (zlen (channels_ c)) in
  Some (c, es ++ if negb (stopping_ c) && (connected_count =? 0) && delegate_ c then [AllBroken] else []).

(** The loop of [get_ready_channel]: [n] more tries after this one. *)
Fixpoint probe (ready : Z -> bool) (channels : list Z) (n : nat) (next_index : Z) : option Z * Z :=
  let idx := next_index mod zlen channels in
  let next_index := u32 (next_index + 1) in
  match channels !! Z.to_nat idx with
  | Some ch =>
      if ready ch then (Some ch, next_index)
      else match n with O => (None, next_index) | S n' => probe ready channels n' next_index end
  | None => (None, next_index)
  end.
Definition set_index (i : Z) (c : Client) : Client :=
  mkClient (connections c) (stopping_ c) (delegate_ c) i (in_use_channels_ c) (channels_count_ c) (channels_ c) (next_reconnect_interval_ c).
(** [ready ch] is [ch->Ready()] at the time of the call. *)
Definition get_ready_channel (ready : Z -> bool) (c : Client) : option Z * Client :=
  match in_use_channels_ c with
  | [] => (None, c)
  | channels =>
      let max_step := Z.to_nat (Z.min 10 (zlen channels)) in
      let '(ch, i) := probe ready channels max_step (next_index_ c) in
      (ch, set_index i c)
  end.

(** [AsyncDoRequest]: whether the request was handed to a channel's loop. *)
Definition AsyncDoRequest (ready : Z -> bool) (req : Z) (c : Client) : bool * Client * list effect :=
  match get_ready_channel ready c with
  | (None, c) => (false, c, [])
  | (Some ch, c) => (true, c, [PostSend ch req])
  end.

(** [DoRequest] of a coroutine; [posted] is the answer of [PostTask].  The outcome
    is the code the message fails with at once, or none when the coroutine yields. *)
Inductive fail_code := kNotConnected | kConnBroken.
Definition DoRequest (can_yield posted : bool) (ready : Z -> bool) (req : Z) (c : Client)
    : option (option fail_code * Client * list effect) :=
  if negb can_yield then None else
  match get_ready_channel ready c with
  | (None, c) => Some (Some kNotConnected, c, [])
  | (Some ch, c) => if posted then Some (None, c, [PostSend ch req]) else Some (Some kConnBroken, c, [])
  end.

(** ** The client and its connector *)

Record System := mkSystem { cl : Client; conn : Connector.Connector; dials : nat; stops : nat }.

Definition is_dial (e : effect) : bool := match e with PostDial | PostDelayDial _ => true | _ => false end.
Definition is_stop (e : effect) : bool := match e with PostStop => true | _ => false end.
Definition count_effects (p : effect -> bool) (es : list effect) : nat := length (filter (fun e => p e = true) es).

Definition apply (r : Client * list effect) (s : System) : System :=
  mkSystem r.1 (conn s) (dials s + count_effects is_dial r.2) (stops s + count_effects is_stop r.2).
Definition with_conn (k : Connector.Connector) (s : System) : System := mkSystem (cl s) k (dials s) (stops s).

(** A report of the connector, handled with the count it had when it was made. *)
Definition deliver (inprocess ch : Z) (r : Connector.report) (s : System) : option System :=
  r' ← match r with
       | Connector.OnConnectFailed _ _ => OnConnectFailed true inprocess (cl s)
       | Connector.OnConnected _ _ => OnConnected true inprocess ch true (cl s)
       end;
  Some (apply r' s).
Fixpoint deliver_all (inprocess ch : Z) (rs : list Connector.report) (s : System) : option System :=
  match rs with [] => Some s | r :: rs' => s ← deliver inprocess ch r s; deliver_all inprocess ch rs' s end.

(** The connector calls its delegate before it updates the count. *)
Definition connector_step (o : Connector.op) (ch : Z) (s : System) : option System :=
  k ← Connector.step o (conn s);
  s ← deliver_all (Connector.InprocessCount (conn s)) ch
        (drop (length (Connector.events_log (conn s))) (Connector.events_log k)) s;
  Some (with_conn k s).

Inductive sysop :=
  | RunDial (env : Connector.dial_env) (ch : Z)      (* a posted dial runs *)
  | Fire (p ev : Z) (env : Connector.fire_env) (ch : Z)
  | ChannelClosed (ch : Z)
  | DoFinalize
  | RunStop.

Definition sys_step (o : sysop) (s : System) : option System :=
  match o with
  | RunDial env ch =>
      match dials s with
      | O => Some s
      | S n => connector_step (Connector.OpDial 0 env) ch (mkSystem (cl s) (conn s) n (stops s))
      end
  | Fire p ev env ch => connector_step (Connector.OpFire p ev env) ch s
  | ChannelClosed ch => r ← OnClientChannelClosed true (Connector.InprocessCount (conn s)) ch (cl s); Some (apply r s)
  | DoFinalize => Some (apply (Finalize (cl s)) s)
  | RunStop =>
      match stops s with
      | O => Some s
      | S n => connector_step Connector.OpStop 0 (mkSystem (cl s) (conn s) (dials s) n)
      end
  end.
Fixpoint sys_run (ops : list sysop) (s : System) : option System :=
  match ops with [] => Some s | o :: ops' => s ← sys_step o s; sys_run ops' s end.

(** A client that has been initialised for [n] connections. *)
Definition started (n junk : Z) (loops : nat) : System :=
  apply (Initialize n (Client_new junk)) (mkSystem (Client_new junk) (Connector.Connector_new (Loop_new loops [])) 0 0).

(** ** The pool is always being refilled *)

Lemma dial_cases r env c c' :
  Connector.Dial r env c = Some c' ->
  Connector.count_ c' = Connector.count_ c /\
  ((exists rep, Connector.events_log c' = Connector.events_log c ++ [rep] /\ Connector.inprogress_ c' = Connector.inprogress_ c) \/
   (exists x, Connector.events_log c' = Connector.events_log c /\ Connector.inprogress_ c' = Connector.inprogress_ c ++ [x])).
Proof.
  unfold Connector.Dial. intros H.
  destruct (_ =? -1); [injection H as <-; split; [done|left; by eexists]|].
  destruct (negb _); [injection H as <-; split; [done|left; by eexists]|].
  destruct (_ && _).
  { destruct (Connector.endpoints_ok env); injection H as <-; (split; [done|left; by eexists]). }
  destruct (_ || _ || _); [|injection H as <-; split; [done|left; by eexists]].
  destruct (Create _ _ _ _) as [l|]; [|done]. cbn [mbind option_bind] in H.
  destruct (InstallFdEvent _ _) as [r'|]; [|done]. cbn [mbind option_bind] in H. injection H as <-.
  split; [done|right; by eexists].
Qed.

Lemma release_keeps p c c' :
  Connector.release p c = Some c' ->
  Connector.inprogress_ c' = Connector.inprogress_ c /\ Connector.count_ c' = Connector.count_ c /\
  Connector.events_log c' = Connector.events_log c.
Proof.
  unfold Connector.release. destruct (objects _ !! p) as [e|]; [|done]. cbn [mbind option_bind]. intros [= <-].
  by destruct (owner e).
Qed.
Lemma erase_length p h l : find (fun x => x.1 =? p) l = Some h -> length l = S (length (Connector.erase_ctx p l)).
Proof.
  induction l as [|x l IH]; [done|]. cbn [find Connector.erase_ctx]. destruct (x.1 =? p); [done|].
  intros H. cbn [length]. by rewrite IH.
Qed.

(** An event without the read bit fails the connect it belongs to. *)
Lemma fire_cases p ev env c c' :
  has_read ev = false -> Connector.fire p ev env c = Some c' ->
  (Connector.events_log c' = Connector.events_log c /\ Connector.inprogress_ c' = Connector.inprogress_ c /\
   Connector.count_ c' = Connector.count_ c /\ (current (Connector.loop c) p = false \/ Connector.find_ctx p c = None)) \/
  (exists h n, Connector.events_log c' = Connector.events_log c ++ [Connector.OnConnectFailed h n] /\
   length (Connector.inprogress_ c) = S (length (Connector.inprogress_ c')) /\
   Connector.count_ c' = u32 (zlen (Connector.inprogress_ c'))).
Proof.
  intros Hev H. unfold Connector.fire in H. destruct (current _ p) eqn:Ep; [|injection H as <-; left; by eauto].
  destruct (objects _ !! p) as [e|]; [|done]. cbn [mbind option_bind] in H.
  unfold Connector.HandleEvent, Connector.HandleError, Connector.RemoveFromInprogress in H. rewrite Hev in H.
  destruct (RemoveFdEvent _ _) as [r|]; [|done]. cbn [mbind option_bind] in H.
  unfold Connector.find_ctx in H. cbn [Connector.inprogress_ Connector.with_loop] in H.
  destruct (find _ _) as [[q h]|] eqn:E; [|injection H as <-; left; by eauto].
  right. apply release_keeps in H as (H1 & H2 & H3). cbn in H1, H2, H3.
  exists h. eexists. rewrite H1, H2, H3. split; [done|]. split; [by eapply erase_length|done].
Qed.
Lemma stop_cases c c' :
  Connector.Stop c = Some c' ->
  Connector.inprogress_ c' = [] /\ Connector.count_ c' = 0 /\ Connector.events_log c' = Connector.events_log c.
Proof.
  unfold Connector.Stop. destruct (Connector.remove_all _ _) as [l|]; [|done]. cbn [mbind option_bind].
  set (c0 := Connector.mkConnector _ _ _ _ _).
  assert (forall ps c c', Connector.release_all ps c = Some c' ->
    Connector.inprogress_ c' = Connector.inprogress_ c /\ Connector.count_ c' = Connector.count_ c /\
    Connector.events_log c' = Connector.events_log c) as H.
  { induction ps as [|[p h] ps IH]; intros a b; cbn [Connector.release_all]; [by intros [= <-]|].
    destruct (Connector.release p a) as [a'|] eqn:E; [|done]. cbn [mbind option_bind]. intros Hb.
    apply IH in Hb as (-> & -> & ->). by apply release_keeps in E. }
  intros Hr. apply H in Hr as (-> & -> & ->). done.
Qed.

(** The callers see the manager's list, and the count is its length. *)
Definition listed (c : Client) : Prop :=
  in_use_channels_ c = channels_ c /\ (stopping_ c = false -> channels_count_ c = u32 (zlen (channels_ c))).
(** The count never exceeds the dials in progress; a stop is posted only by
    [Finalize]; and a client that is not stopping has its connections, or a dial
    posted, or one in progress. *)
Definition count_ok (k : Connector.Connector) : Prop := 0 <= Connector.count_ k <= zlen (Connector.inprogress_ k).
Definition refilling (s : System) : Prop :=
  stopping_ (cl s) = false ->
  required_count (cl s) <= ConnectedCount (cl s) \/ (0 < dials s)%nat \/ Connector.inprogress_ (conn s) <> [].
Definition pool_inv (s : System) : Prop :=
  count_ok (conn s) /\ ((0 < stops s)%nat -> stopping_ (cl s) = true) /\
  listed (cl s) /\ refilling s.

Lemma launch_cases inprocess c :
  exists es, launch_next_if_need true inprocess c = Some es /\ count_effects is_stop es = 0%nat /\
  (stopping_ c = false -> required_count c <= ConnectedCount c + inprocess \/ count_effects is_dial es = 1%nat).
Proof.
  unfold launch_next_if_need. cbn [negb]. destruct (stopping_ c) eqn:E; cbn [orb]; [by eexists|].
  destruct (Z.leb_spec (required_count c) (ConnectedCount c + inprocess)); eexists; (split; [done|]); (split; [done|]); intros _; [by left|by right].
Qed.

(** What a report does to the client. *)
Definition settled (inprocess : Z) (s : System) : Prop :=
  stopping_ (cl s) = false ->
  required_count (cl s) <= ConnectedCount (cl s) + inprocess \/ (0 < dials s)%nat.

Lemma deliver_one inprocess ch r s :
  0 <= inprocess -> listed (cl s) ->
  exists s', deliver inprocess ch r s = Some s' /\ conn s' = conn s /\ stops s' = stops s /\
  stopping_ (cl s') = stopping_ (cl s) /\ listed (cl s') /\
  match r with
  | Connector.OnConnected _ _ => settled inprocess s'
  | Connector.OnConnectFailed _ _ => settled 0 s' \/ kConnetBatchCount < inprocess
  end.
Proof.
  intros Hi Hl. unfold deliver. destruct r as [h n|h fd].
  - unfold OnConnectFailed. cbn [negb]. destruct (stopping_ (cl s)) eqn:Es; cbn [orb mbind option_bind].
    { eexists. split; [done|]. cbn. rewrite Nat.add_0_r. split_and!; try done; try apply Hl. left. intros H. cbn in H. congruence. }
    destruct (Z.leb_spec (required_count (cl s)) (ConnectedCount (cl s))) as [Hr|Hr]; cbn [mbind option_bind].
    { eexists. split; [done|]. cbn. rewrite Nat.add_0_r. split_and!; try done; try apply Hl. left. intros _. left. cbn. lia. }
    destruct (Z.ltb_spec kConnetBatchCount inprocess); cbn [mbind option_bind].
    { eexists. split; [done|]. cbn. rewrite Nat.add_0_r. split_and!; try done; try apply Hl. by right. }
    eexists. split; [done|]. cbn. rewrite Nat.add_0_r. split_and!; try done; try apply Hl. left. intros _. right.
    change (0 < dials s + 1)%nat. lia.
  - unfold OnConnected. cbn [negb]. set (c := publish _ _). destruct (launch_cases inprocess c) as (es & -> & Hs & Hd).
    cbn [mbind option_bind]. eexists. split; [done|].
    assert (forall p, p (PostStart ch) = false -> count_effects p (PostStart ch :: es) = count_effects p es) as Hcons
      by (intros p Hp; unfold count_effects; by rewrite filter_cons_False by congruence).
    unfold apply. cbn [cl conn stops dials fst snd]. rewrite !Hcons, Hs, Nat.add_0_r by done.
    split_and!; [done..|]. intros Hst. cbn [cl dials] in *. destruct (Hd Hst) as [H|H]; [by left|right; lia].
Qed.

Lemma connector_step_inv o ch s s' :
  match o with Connector.OpFire _ ev _ => has_read ev = false | Connector.OpStop => stopping_ (cl s) = true | _ => True end ->
  count_ok (conn s) -> ((0 < stops s)%nat -> stopping_ (cl s) = true) -> listed (cl s) ->
  match o with Connector.OpFire _ _ _ => refilling s | _ => True end ->
  connector_step o ch s = Some s' -> pool_inv s'.
Proof.
  intros Ho Hc Hst Hl Hr H. unfold connector_step in H.
  destruct (Connector.step o (conn s)) as [k|] eqn:Ek; [|done]. cbn [mbind option_bind] in H.
  set (n := Connector.InprocessCount (conn s)) in *.
  assert (0 <= n <= zlen (Connector.inprogress_ (conn s))) as Hn by apply Hc.
  assert (forall rs, Connector.events_log k = Connector.events_log (conn s) ++ rs ->
    drop (length (Connector.events_log (conn s))) (Connector.events_log k) = rs) as Hdrop by (intros rs ->; by rewrite drop_app_length).
  destruct o as [r env|p ev env|]; cbn [Connector.step] in Ek.
  - destruct (dial_cases _ _ _ _ Ek) as (Hk & [(rep & E1 & E2)|(x & E1 & E2)]).
    + rewrite (Hdrop [rep] E1) in H. cbn [deliver_all] in H.
      destruct (deliver_one n ch rep s) as (s1 & E & H1 & H2 & H3 & H4 & H5); [lia|done|]. rewrite E in H. injection H as <-.
      unfold pool_inv, count_ok. cbn [with_conn conn cl stops]. rewrite Hk, E2, H2, H3. refine (conj Hc (conj Hst (conj H4 _))).
      intros Hs. cbn [with_conn cl dials conn] in *. rewrite E2. unfold settled in H5.
      destruct (Connector.inprogress_ (conn s)) eqn:Ei; [|by right; right].
      cbn in Hn. destruct rep; [destruct H5 as [H5|H5]; [|unfold kConnetBatchCount in H5; lia]|]; destruct (H5 Hs); (left; lia) || (right; left; lia).
    + rewrite (Hdrop []) in H by (by rewrite app_nil_r). injection H as <-.
      unfold pool_inv, count_ok. cbn [with_conn conn cl stops]. rewrite Hk, E2. refine (conj _ (conj Hst (conj Hl _))).
      * rewrite length_app. pose proof Hc as [? ?]. lia.
      * intros _. right; right. cbn. rewrite E2. by destruct (Connector.inprogress_ (conn s)).
  - destruct (fire_cases _ _ _ _ _ Ho Ek) as [(E1 & E2 & E3 & _)|(h & m & E1 & E2 & E3)].
    + rewrite (Hdrop []) in H by (by rewrite app_nil_r). injection H as <-.
      unfold pool_inv, count_ok, refilling. cbn [with_conn conn cl stops dials]. rewrite E2, E3. exact (conj Hc (conj Hst (conj Hl Hr))).
    + rewrite (Hdrop _ E1) in H. cbn [deliver_all] in H.
      destruct (deliver_one n ch (Connector.OnConnectFailed h m) s) as (s1 & E & H1 & H2 & H3 & H4 & H5); [lia|done|].
      rewrite E in H. injection H as <-.
      unfold pool_inv, count_ok. cbn [with_conn conn cl stops]. rewrite E3, H2, H3. refine (conj (conj _ _) (conj Hst (conj H4 _))).
      * apply u32_range.
      * apply Z.mod_le; lia.
      * intros Hs. cbn [with_conn cl dials conn] in *. destruct H5 as [H5|H5].
        -- destruct (H5 Hs); [left; lia|right; left; lia].
        -- right; right. intros E0. rewrite E0 in E2. unfold kConnetBatchCount in H5. simpl in E2. lia.
  - destruct (stop_cases _ _ Ek) as (E1 & E2 & E3). rewrite (Hdrop []) in H by (by rewrite app_nil_r). injection H as <-.
    unfold pool_inv, count_ok, refilling. cbn [with_conn conn cl stops dials]. rewrite E1, E2, Ho. by refine (conj _ (conj _ (conj Hl _))).
Qed.

(** The event pump reports the read bit for a pending connect when the kernel
    signals an error or a hang-up; the other events of a pending connect carry the
    write bit alone. *)
Definition op_ok (o : sysop) : Prop := match o with Fire _ ev _ _ => has_read ev = false | _ => True end.

Lemma pool_step o s s' : op_ok o -> pool_inv s -> sys_step o s = Some s' -> pool_inv s'.
Proof.
  intros Ho Hinv H. pose proof Hinv as (Hc & Hst & Hl & Hr). destruct o as [env ch|p ev env ch|ch| |]; cbn [sys_step] in H.
  - destruct (dials s) as [|n]; [injection H as <-; exact Hinv|]. by eapply connector_step_inv in H.
  - by eapply connector_step_inv in H.
  - unfold OnClientChannelClosed in H. cbn [negb andb] in H. set (c := publish _ _) in H.
    destruct (launch_cases (Connector.InprocessCount (conn s)) c) as (es & E & Hs & Hd). rewrite E in H.
    cbn [mbind option_bind] in H. injection H as <-.
    assert (forall q b, q AllBroken = false -> count_effects q (es ++ if (b : bool) then [AllBroken] else []) = count_effects q es) as Happ.
    { intros q b Hq. unfold count_effects. rewrite list.filter_app, length_app. destruct b; [|simpl; lia].
      rewrite filter_cons_False by congruence. simpl. lia. }
    unfold pool_inv, refilling, apply. cbn [cl conn stops dials fst snd]. rewrite !Happ, Hs, Nat.add_0_r by done.
    refine (conj Hc (conj Hst (conj (conj eq_refl (fun _ => eq_refl)) _))). intros Hns.
    destruct (Hd Hns) as [H|H]; [|right; left; lia].
    destruct (Connector.inprogress_ (conn s)) eqn:Ei; [|by right; right].
    left. destruct Hc as [_ Hc]. rewrite Ei in Hc. unfold Connector.InprocessCount in H. simpl in Hc. lia.
  - injection H as <-. unfold Finalize. destruct (stopping_ (cl s)) eqn:E.
    + unfold pool_inv, refilling, apply. cbn. rewrite !Nat.add_0_r. exact (conj Hc (conj (fun _ => E) (conj Hl Hr))).
    + unfold pool_inv, refilling, apply, listed. cbn [cl conn stops dials fst snd stopping_ in_use_channels_ channels_]. destruct Hl. done.
  - destruct (stops s) as [|n]; [injection H as <-; exact Hinv|]. eapply connector_step_inv in H; try done; cbn; [apply Hst; lia|intros _; apply Hst; lia].
Qed.

Lemma started_inv n junk k : 0 <= n -> pool_inv (started n junk k).
Proof.
  intros Hn. unfold started, Initialize. set (m := Z.to_nat (Z.min _ _)).
  assert (forall p, count_effects p (replicate m PostDial) = if p PostDial then m else 0%nat) as Hrep.
  { intros p. unfold count_effects. induction m as [|m' IH]; [by destruct (p PostDial)|]. cbn [replicate].
    destruct (p PostDial) eqn:E; [rewrite filter_cons_True by done; simpl; by rewrite IH|rewrite filter_cons_False by congruence; done]. }
  unfold pool_inv, refilling, apply. cbn [cl conn stops dials fst snd]. rewrite !Hrep. cbn [is_dial is_stop].
  split_and!; try done; [cbn; lia|]. intros _. cbn. subst m. cbn [required_count connections]. unfold kConnetBatchCount.
  destruct (Z.le_gt_cases n 0); [left; lia|right; left; lia].
Qed.

Lemma client_run_inv ops s s' : Forall op_ok ops -> pool_inv s -> sys_run ops s = Some s' -> pool_inv s'.
Proof.
  intros Ho. revert s. induction Ho as [|o ops Ho Hops IH]; intros s Hi; cbn [sys_run]; [by intros [= <-]|].
  destruct (sys_step o s) as [s1|] eqn:E; [|done]. cbn [mbind option_bind]. apply IH. by eapply pool_step.
Qed.

(** The connector inside keeps its own invariant. *)
Lemma connector_step_conn o ch s s' :
  connector_step o ch s = Some s' -> Connector.step o (conn s) = Some (conn s').
Proof.
  unfold connector_step. destruct (Connector.step o (conn s)) as [k|]; [|done]. cbn [mbind option_bind].
  destruct (deliver_all _ _ _ _) as [s1|]; [|done]. cbn [mbind option_bind]. by intros [= <-].
Qed.
Lemma step_cinv o s s' : Connector.cinv (conn s) -> sys_step o s = Some s' -> Connector.cinv (conn s').
Proof.
  intros Hi H. destruct o as [env ch|p ev env ch|ch| |]; cbn [sys_step] in H.
  - destruct (dials s); [by injection H as <-|]. apply connector_step_conn in H. by eapply Connector.step_accounted in H as [? _].
  - apply connector_step_conn in H. by eapply Connector.step_accounted in H as [? _].
  - destruct (OnClientChannelClosed _ _ _ _) as [r|]; [|done]. by injection H as <-.
  - by injection H as <-.
  - destruct (stops s); [by injection H as <-|]. apply connector_step_conn in H. by eapply Connector.step_accounted in H as [? _].
Qed.
Lemma run_cinv ops s s' : Connector.cinv (conn s) -> sys_run ops s = Some s' -> Connector.cinv (conn s').
Proof.
  revert s. induction ops as [|o ops IH]; intros s Hi; cbn [sys_run]; [by intros [= <-]|].
  destruct (sys_step o s) as [s1|] eqn:E; [|done]. cbn [mbind option_bind]. apply IH. by eapply step_cinv.
Qed.

Lemma live_current l x : sync l -> Connector.live l x -> current l x.1 = true.
Proof.
  intros (_ & H2 & _) (e & He & Hw). unfold current. rewrite He, Hw. cbn [andb]. apply bool_decide_true.
  unfold GetFdEvent. by rewrite (H2 _ _ He Hw).
Qed.

(** A connect that succeeds at once, and one that fails. *)
Definition connect_now : Connector.dial_env := Connector.mkDialEnv 3 true 0 0 true 0.
Lemma dial_now ch s n :
  dials s = S n -> listed (cl s) ->
  exists s', sys_step (RunDial connect_now ch) s = Some s' /\ channels_ (cl s') = channels_ (cl s) ++ [ch].
Proof.
  intros Hd Hl. cbn [sys_step]. rewrite Hd. unfold connector_step. cbn [Connector.step]. unfold Connector.Dial. cbn.
  rewrite drop_app_length. unfold deliver_all, deliver, OnConnected. cbn [negb mbind option_bind].
  set (c := publish _ _). destruct (launch_cases (Connector.InprocessCount (conn s)) c) as (es & -> & _).
  cbn [mbind option_bind]. by eexists.
Qed.
Lemma fail_one s p h rest :
  Connector.cinv (conn s) -> listed (cl s) -> 0 <= Connector.count_ (conn s) -> Connector.inprogress_ (conn s) = (p, h) :: rest ->
  exists s', sys_step (Fire p WRITE (Connector.mkFireEnv false true) 0) s = Some s' /\
  channels_ (cl s') = channels_ (cl s) /\ ConnectedCount (cl s') = ConnectedCount (cl s) /\
  required_count (cl s') = required_count (cl s) /\ stopping_ (cl s') = stopping_ (cl s) /\
  length (Connector.inprogress_ (conn s')) = length rest.
Proof.
  intros Hi Hl Hn Hp. cbn [sys_step]. unfold connector_step. cbn [Connector.step].
  destruct (Connector.fire_step p WRITE (Connector.mkFireEnv false true) (conn s) Hi) as (k & Hk & _). rewrite Hk. cbn [mbind option_bind].
  destruct (fire_cases p WRITE _ _ _ eq_refl Hk) as [(_ & _ & _ & H)|(h' & n & E1 & E2 & _)].
  { exfalso. destruct H as [H|H].
    - destruct Hi as (Hs & _ & Hall). rewrite Hp in Hall. apply Forall_cons_iff in Hall as [Hlive _].
      pose proof (live_current _ _ Hs Hlive) as Hcur. cbn [fst] in Hcur. congruence.
    - unfold Connector.find_ctx in H. rewrite Hp in H. cbn in H. by rewrite Z.eqb_refl in H. }
  rewrite E1, drop_app_length. cbn [deliver_all]. unfold deliver, OnConnectFailed. cbn [negb].
  rewrite Hp in E2. injection E2 as E2. symmetry in E2.
  destruct (_ || _); [|destruct (_ <? _)]; cbn [mbind option_bind]; eexists; split; try done.
Qed.

(** C32.  The pool of a client does not get stuck while no pending connect ends with an
    error event and the kernel refuses to watch no descriptor.  In every state that initialising a client for [n] connections and
    running dials, write events, closed channels, [Finalize] and [Stop] in any order
    can reach, a client that is not stopping and lacks connections has a dial posted or
    in progress, and the network can answer so that one more channel joins the pool;
    the callers see exactly the manager's channels. *)
Theorem pool_never_stuck n junk k ops s ch :
  0 <= n -> Forall op_ok ops -> sys_run ops (started n junk k) = Some s -> stopping_ (cl s) = false ->
  in_use_channels_ (cl s) = channels_ (cl s) /\ ConnectedCount (cl s) = u32 (zlen (channels_ (cl s))) /\
  (required_count (cl s) <= ConnectedCount (cl s) \/
   ((0 < dials s)%nat \/ Connector.inprogress_ (conn s) <> []) /\
   exists ops' s', Forall op_ok ops' /\ sys_run ops' s = Some s' /\ channels_ (cl s') = channels_ (cl s) ++ [ch]).
Proof.
  intros Hn Hops Hrun Hst. assert (pool_inv s) as Hinv by (eapply client_run_inv; [done| |done]; by apply started_inv).
  assert (Connector.cinv (conn s)) as Hci
    by (eapply run_cinv; [|done]; split_and!; [apply new_sync | constructor | constructor]).
  clear Hrun Hops. pose proof Hinv as (_ & _ & (Hl1 & Hl2) & Hr). split; [done|]. split; [by apply Hl2|].
  destruct (Z.le_gt_cases (required_count (cl s)) (ConnectedCount (cl s))) as [|Hlt]; [by left|right].
  split; [destruct (Hr Hst) as [?|?]; [lia|done]|].
  remember (length (Connector.inprogress_ (conn s))) as m eqn:Hm.
  revert s Hst Hinv Hci Hl1 Hl2 Hr Hlt Hm. induction m as [|m IH]; intros s Hst Hinv Hci Hl1 Hl2 Hr Hlt Hm.
  all: destruct (dials s) as [|d] eqn:Hd;
    [|destruct (dial_now ch s d Hd (conj Hl1 Hl2)) as (s' & E & Hch); exists [RunDial connect_now ch], s';
      cbn [sys_run]; rewrite E; by repeat constructor].
  { destruct (Hr Hst) as [?|[?|?]]; [lia|lia|]. by destruct (Connector.inprogress_ (conn s)). }
  destruct (Connector.inprogress_ (conn s)) as [|[p h] rest] eqn:Hp; [done|].
  destruct (fail_one s p h rest Hci (conj Hl1 Hl2)) as (s1 & E & F1 & F2 & F3 & F4 & F5); [apply Hinv|done|].
  assert (pool_inv s1) as Hinv1 by (eapply pool_step; [|exact Hinv|exact E]; done).
  pose proof Hinv1 as (_ & _ & (Hl1' & Hl2') & Hr').
  destruct (IH s1) as (ops' & s2 & Ho & Er & Hch); [congruence|done|by eapply step_cinv|done|done|done|lia|simpl in Hm; lia|].
  exists (Fire p WRITE (Connector.mkFireEnv false true) 0 :: ops'), s2. cbn [sys_run]. rewrite E.
  split; [by constructor|]. split; [done|]. by rewrite Hch, F1.
Qed.

Definition failing_history : list sysop :=
  [RunDial (Connector.in_progress 7 1) 0; Fire 1 WRITE (Connector.mkFireEnv false true) 0;
   RunDial connect_now 100; ChannelClosed 100].
Lemma failing_history_runs : is_Some (sys_run failing_history (started 2 0 64)).
Proof. by vm_compute; eexists. Qed.

Lemma pool_never_stuck_witness :
  exists s, sys_run failing_history (started 2 0 64) = Some s /\
  (required_count (cl s) <= ConnectedCount (cl s) \/
   ((0 < dials s)%nat \/ Connector.inprogress_ (conn s) <> []) /\
   exists ops' s', Forall op_ok ops' /\ sys_run ops' s = Some s' /\ channels_ (cl s') = channels_ (cl s) ++ [200]).
Proof.
  destruct failing_history_runs as [s Hs]. exists s. split; [exact Hs|].
  apply (pool_never_stuck 2 0 64 failing_history s 200); [lia|repeat constructor|exact Hs|].
  assert (option_map (fun s => stopping_ (cl s)) (sys_run failing_history (started 2 0 64)) = Some false) as H by (vm_compute; reflexivity).
  rewrite Hs in H. by injection H.
Defined.

(** With an error event the count goes stale: of two dials in progress one is
    reported by its write event, which sets the count to the one left, and the other
    ends with an error event, after which [HandleWrite] leaves the count.  The client
    then counts a dial that does not exist, and stays at one connection of two with
    nothing posted and nothing in progress. *)
Definition stale_history : list sysop :=
  [RunDial (Connector.in_progress 7 1) 0; RunDial (Connector.in_progress 8 2) 0;
   Fire 1 WRITE (Connector.mkFireEnv false true) 0; Fire 2 (Z.lor READ WRITE) (Connector.mkFireEnv false false) 0;
   RunDial connect_now 100; RunDial connect_now 101; ChannelClosed 100].
Theorem stale_count_stops_refill :
  option_map (fun s => (stopping_ (cl s), required_count (cl s), ConnectedCount (cl s), dials s,
                        Connector.inprogress_ (conn s), Connector.InprocessCount (conn s)))
    (sys_run stale_history (started 2 0 64)) = Some (false, 2, 1, 0%nat, [], 1).
Proof. vm_compute. reflexivity. Qed.

(** Posted dials are not counted: two dials that both succeed at once make a third,
    and the client holds more connections than it was configured for. *)
Theorem pool_overshoots :
  option_map (fun s => (required_count (cl s), channels_ (cl s)))
    (sys_run [RunDial connect_now 100; RunDial connect_now 101; RunDial connect_now 102] (started 2 0 64))
  = Some (2, [100; 101; 102]).
Proof. vm_compute. reflexivity. Qed.

(** A channel that breaks after [Finalize], on its own IO loop, takes the branch
    meant for the work loop and fails the check of [launch_next_if_need]. *)
Theorem closed_while_stopping_aborts inprocess ch c :
  stopping_ c = true -> OnClientChannelClosed false inprocess ch c = None.
Proof. intros Hs. unfold OnClientChannelClosed. rewrite Hs. reflexivity. Qed.

Lemma closed_while_stopping_aborts_witness :
  OnClientChannelClosed false 0 100 (Finalize (publish [100] (Client_new 0))).1 = None.
Proof. apply closed_while_stopping_aborts. reflexivity. Defined.

(** ** Choosing a channel *)

Lemma probe_spec ready channels n i :
  channels <> [] -> 0 <= i -> i + Z.of_nat n + 1 < 2 ^ 32 ->
  match probe ready channels n i with
  | (Some ch, j) => ready ch = true /\ ch ∈ channels /\ i < j <= i + Z.of_nat n + 1
  | (None, j) => j = i + Z.of_nat n + 1 /\
      forall m ch, i <= m <= i + Z.of_nat n -> channels !! Z.to_nat (m mod zlen channels) = Some ch -> ready ch = false
  end.
Proof.
  intros Hne. assert (0 < zlen channels) as Hl by (destruct channels; [done|simpl; lia]).
  revert i. induction n as [|n IH]; intros i Hi Hw; cbn [probe].
  all: pose proof (Z.mod_pos_bound i (zlen channels) Hl) as Hb; rewrite (u32_id (i + 1)) by lia.
  all: destruct (lookup_lt_is_Some_2 channels (Z.to_nat (i mod zlen channels))) as [ch Hch]; [lia|]; rewrite Hch.
  all: destruct (ready ch) eqn:Er; [split; [done|]; split; [by eapply list_elem_of_lookup_2|lia]|].
  - split; [lia|]. intros m ch' Hm Hch'. assert (m = i) as -> by lia. congruence.
  - specialize (IH (i + 1) ltac:(lia) ltac:(lia)). destruct (probe ready channels n (i + 1)) as [[ch'|] j].
    + destruct IH as (H1 & H2 & H3). split_and!; try done; lia.
    + destruct IH as [-> IH]. split; [lia|]. intros m ch' Hm Hch'.
      destruct (Z.eq_dec m i) as [->|]; [congruence|]. apply (IH m ch'); [lia|done].
Qed.

(** A window of as many consecutive indices as there are channels meets them all. *)
Lemma window_covers (channels : list Z) i n ch :
  channels <> [] -> zlen channels <= Z.of_nat n + 1 -> 0 <= i -> ch ∈ channels ->
  exists m, i <= m <= i + Z.of_nat n /\ channels !! Z.to_nat (m mod zlen channels) = Some ch.
Proof.
  intros Hne Hn Hi Hin. assert (0 < zlen channels) as Hl by (destruct channels; [done|simpl; lia]).
  apply list_elem_of_lookup_1 in Hin as [q Hq]. pose proof (lookup_lt_Some _ _ _ Hq) as Hql.
  set (L := zlen channels) in *. pose proof (Z.mod_pos_bound (Z.of_nat q - i) L Hl) as Hb.
  exists (i + (Z.of_nat q - i) mod L). split; [lia|].
  rewrite Z.add_mod_idemp_r by lia. replace (i + (Z.of_nat q - i)) with (Z.of_nat q) by lia.
  rewrite Z.mod_small by (subst L; lia). by rewrite Nat2Z.id.
Qed.

(** A client with up to eleven channels uses a ready one whenever there is one, as
    long as the index does not wrap: what [get_ready_channel] returns is a ready
    channel of the pool, nothing is returned only when none is ready, and each call
    moves the index on. *)
Theorem ready_channel_found ready c :
  zlen (in_use_channels_ c) <= 11 -> 0 <= next_index_ c -> next_index_ c + 11 < 2 ^ 32 ->
  match get_ready_channel ready c with
  | (Some ch, c') => ready ch = true /\ ch ∈ in_use_channels_ c /\ next_index_ c < next_index_ c'
  | (None, _) => forall ch, ch ∈ in_use_channels_ c -> ready ch = false
  end.
Proof.
  intros Hl Hi Hw. unfold get_ready_channel. destruct (in_use_channels_ c) as [|x l] eqn:E.
  { intros ch Hch. by apply elem_of_nil in Hch. }
  set (channels := x :: l) in *. set (n := Z.to_nat (Z.min 10 (zlen channels))).
  assert (Z.of_nat n <= 10 /\ zlen channels <= Z.of_nat n + 1) as [Hn1 Hn2] by (subst n; lia).
  pose proof (probe_spec ready channels n (next_index_ c) ltac:(done) Hi ltac:(lia)) as Hp.
  destruct (probe ready channels n (next_index_ c)) as [[ch|] j].
  - destruct Hp as (H1 & H2 & H3). split_and!; [done..|]. cbn [set_index next_index_]. lia.
  - destruct Hp as [_ Hp]. intros ch Hch. destruct (window_covers channels (next_index_ c) n ch) as (m & Hm & Hc); try done. by eapply Hp.
Qed.

Lemma ready_channel_found_witness :
  (get_ready_channel (fun ch => ch =? 103) (publish [101; 102; 103] (Client_new 0))).1 = Some 103.
Proof.
  pose proof (ready_channel_found (fun ch => ch =? 103) (publish [101; 102; 103] (Client_new 0))) as H.
  cbn [publish in_use_channels_ next_index_ Client_new] in H. specialize (H ltac:(simpl; lia) ltac:(lia) ltac:(lia)).
  destruct (get_ready_channel _ _) as [[ch|] c].
  - destruct H as (H & _). cbn [fst]. apply Z.eqb_eq in H. by rewrite H.
  - specialize (H 103). exfalso. discriminate H. by apply (bool_decide_unpack _).
Defined.

(** The delay before a reconnect is at most ten seconds, whatever the interval
    started from. *)
Theorem reconnect_delay_bounded in_loop inprocess c c' es d :
  OnConnectFailed in_loop inprocess c = Some (c', es) -> PostDelayDial d ∈ es -> 0 <= d <= kMaxReconInterval.
Proof.
  unfold OnConnectFailed. destruct in_loop; cbn [negb]; [|done]. destruct (_ || _).
  { intros [= <- <-] H. by apply elem_of_nil in H. }
  destruct (_ <? _); intros [= <- <-] H; [by apply elem_of_nil in H|].
  apply list_elem_of_singleton in H. injection H as ->. cbn [set_interval next_reconnect_interval_].
  pose proof (u32_range (next_reconnect_interval_ c + 10)). unfold kMaxReconInterval. rewrite i32_id by lia. lia.
Qed.

Lemma reconnect_delay_bounded_witness :
  exists c' es d, OnConnectFailed true 0 (Initialize 2 (Client_new 50000)).1 = Some (c', es) /\ PostDelayDial d ∈ es /\ 0 <= d <= kMaxReconInterval.
Proof.
  do 3 eexists. split; [reflexivity|]. split; [apply list_elem_of_here|].
  eapply (reconnect_delay_bounded true 0 (Initialize 2 (Client_new 50000)).1); [reflexivity|apply list_elem_of_here].
Defined.

End Client.
