(* ===== verification/Server.v ===== *)
(** * Listening services and servers (net_io/io_service.{h,cc},
    net_io/server/generic_server.h)

    An [IOService] owns the codecs of the connections it accepted; a [BaseServer]
    owns the services of one address, counts the connections of all of them and
    calls [closed_callback_] when the last service has stopped.  A service and a
    codec are their addresses.  What is posted to a loop is a task that runs later,
    at any time: [tasks] lists the ones still to run.  [None] is a failed [CHECK] or
    the call of an empty function. *)
From stdpp Require Import gmap.
From S2P Require Import Prelude.

Module Server.

Definition kClientConnLimit : Z := 65536.

Inductive task :=
  | TStart (sid : Z)                 (* IOService::Start on the acceptor's loop *)
  | TStop (sid : Z)                  (* IOService::Stop *)
  | TClose (sid codec : Z)           (* the closure of Stop, on the codec's loop *)
  | TRemove (sid codec : Z).         (* the closure of OnCodecClosed, on the acceptor's loop *)

Record IOService := mkService { listening_ : bool; is_stopping_ : bool; codecs_ : gset Z }.

Record Server := mkServer {
  services : gmap Z IOService;
  ioservices_ : list Z;
  client_count_ : Z;
  serving_flag_ : bool;
  closed_callback_ : bool;
  callbacks : nat;                   (* the calls of closed_callback_ *)
  next_loop : Z;                     (* the static index of GetNextIOWorkLoop *)
  closed_fds : list Z;
  tasks : list task;
}.

Definition Server_new : Server := mkServer ∅ [] 0 false false 0 0 [] [].

Definition set_service (sid : Z) (s : IOService) (w : Server) : Server :=
  mkServer (<[sid := s]> (services w)) (ioservices_ w) (client_count_ w) (serving_flag_ w) (closed_callback_ w) (callbacks w)
    (next_loop w) (closed_fds w) (tasks w).
Definition set_count (n : Z) (w : Server) : Server :=
  mkServer (services w) (ioservices_ w) n (serving_flag_ w) (closed_callback_ w) (callbacks w) (next_loop w) (closed_fds w) (tasks w).
Definition set_tasks (ts : list task) (w : Server) : Server :=
  mkServer (services w) (ioservices_ w) (client_count_ w) (serving_flag_ w) (closed_callback_ w) (callbacks w) (next_loop w) (closed_fds w) ts.
Definition post (ts : list task) (w : Server) : Server := set_tasks (tasks w ++ ts) w.
Definition CloseSocket (fd : Z) (w : Server) : Server :=
  mkServer (services w) (ioservices_ w) (client_count_ w) (serving_flag_ w) (closed_callback_ w) (callbacks w) (next_loop w) (closed_fds w ++ [fd]) (tasks w).

(** ** The server as the delegate of its services *)

Definition CanCreateNewChannel (w : Server) : bool := client_count_ w <? kClientConnLimit.
Definition IncreaseChannelCount (w : Server) : Server := set_count (u32 (client_count_ w + 1)) w.
Definition DecreaseChannelCount (w : Server) : Server := set_count (u32 (client_count_ w - 1)) w.

(** The index of the loop for the next connection, of [n] loops. *)
Definition GetNextIOWorkLoop (n : Z) (w : Server) : Z * Server :=
  (next_loop w mod n,
   mkServer (services w) (ioservices_ w) (client_count_ w) (serving_flag_ w) (closed_callback_ w) (callbacks w)
     (u32 (next_loop w + 1)) (closed_fds w) (tasks w)).

Definition IOServiceStoped (sid : Z) (w : Server) : Server :=
  let rest := filter (fun s => s <> sid) (ioservices_ w) in
  mkServer (services w) rest (client_count_ w) (serving_flag_ w) (closed_callback_ w)
    (match rest with [] => if closed_callback_ w then S (callbacks w) else callbacks w | _ => callbacks w end)
    (next_loop w) (closed_fds w) (tasks w).

(** ** The service *)

(** What the environment answers to an accepted socket: whether its local address
    is known and whether the protocol has a codec. *)
Record accept_env := mkAcceptEnv { acc_fd : Z; acc_codec : Z; local_ok : bool; codec_ok : bool }.

Definition CreateCodeService (loops : Z) (env : accept_env) (w : Server) : option (option Z * Server) :=
  let '(_, w) := GetNextIOWorkLoop loops w in
  if negb (local_ok env) then None
  else if negb (codec_ok env) then Some (None, CloseSocket (acc_fd env) w)
  else Some (Some (acc_codec env), w).
Definition StoreProtocolService (sid codec : Z) (w : Server) : option Server :=
  s ← services w !! sid;
  Some (IncreaseChannelCount (set_service sid (mkService (listening_ s) (is_stopping_ s) ({[codec]} ∪ codecs_ s)) w)).
Definition OnNewConnection (sid loops : Z) (env : accept_env) (w : Server) : option Server :=
  if negb (CanCreateNewChannel w) then Some (CloseSocket (acc_fd env) w) else
  r ← CreateCodeService loops env w;
  match r with
  | (None, w) => Some w
  | (Some codec, w) => StoreProtocolService sid codec w
  end.

Definition OnCodecClosed (sid codec : Z) (w : Server) : Server := post [TRemove sid codec] w.
Definition RemoveProtocolService (sid codec : Z) (w : Server) : option Server :=
  s ← services w !! sid;
  let w := if decide (codec ∈ codecs_ s)
           then DecreaseChannelCount (set_service sid (mkService (listening_ s) (is_stopping_ s) (codecs_ s ∖ {[codec]})) w)
           else w in
  s ← services w !! sid;
  Some (if is_stopping_ s && bool_decide (codecs_ s = ∅) then IOServiceStoped sid w else w).

(** [listen_ok]: the answer of [StartListen]. *)
Definition Start (sid : Z) (listen_ok : bool) (w : Server) : option Server :=
  s ← services w !! sid;
  if listen_ok then Some (set_service sid (mkService true (is_stopping_ s) (codecs_ s)) w) else None.
Definition Stop (sid : Z) (w : Server) : option Server :=
  s ← services w !! sid;
  let w := set_service sid (mkService false true (codecs_ s)) w in
  let w := post (map (TClose sid) (elements (codecs_ s))) w in
  Some (if bool_decide (codecs_ s = ∅) then IOServiceStoped sid w else w).

(** ** Serving and stopping *)

(** [ServeAddress]: [uri_ok], [has_codec] are the answers of the parser and of the
    codec factory, [sids] the services created, one or one per loop. *)
Definition ServeAddress (uri_ok has_codec : bool) (sids : list Z) (w : Server) : option Server :=
  if serving_flag_ w || negb uri_ok || negb has_codec then None else
  Some (mkServer (foldr (fun sid m => <[sid := mkService false false ∅]> m) (services w) sids)
          (ioservices_ w ++ sids) (client_count_ w) true (closed_callback_ w) (callbacks w)
          (next_loop w) (closed_fds w) (tasks w ++ map TStart sids)).
Definition StopServer (callback : bool) (w : Server) : option Server :=
  if negb (serving_flag_ w) then None else
  let w := mkServer (services w) (ioservices_ w) (client_count_ w) false callback (callbacks w)
             (next_loop w) (closed_fds w) (tasks w ++ map TStop (ioservices_ w)) in
  match ioservices_ w with
  | [] => if callback then Some (mkServer (services w) (ioservices_ w) (client_count_ w) (serving_flag_ w) callback
                                   (S (callbacks w)) (next_loop w) (closed_fds w) (tasks w))
          else None
  | _ => Some w
  end.

(** ** Runs *)

Inductive step :=
  | SAccept (sid : Z) (env : accept_env)    (* the acceptor of a listening service *)
  | SBroken (sid codec : Z)                 (* the peer closes a connection *)
  | SStopServer
  | SRun (i : nat).                         (* the i-th posted task runs *)

Definition run_task (t : task) (w : Server) : option Server :=
  match t with
  | TStart sid => Start sid true w
  | TStop sid => Stop sid w
  | TClose sid codec => Some (OnCodecClosed sid codec w)
  | TRemove sid codec => RemoveProtocolService sid codec w
  end.
(** Tasks of one loop run in the order they were posted. *)
Definition same_loop (t u : task) : bool :=
  match t, u with
  | TClose _ c, TClose _ d => c =? d
  | TClose _ _, _ | _, TClose _ _ => false
  | (TStart a | TStop a | TRemove a _), (TStart b | TStop b | TRemove b _) => a =? b
  end.
(** A codec that is alive keeps its address. *)
Definition in_use (codec : Z) (w : Server) : bool :=
  existsb (fun p => bool_decide (codec ∈ codecs_ p.2)) (map_to_list (services w)).
Definition do_step (loops : Z) (o : step) (w : Server) : option Server :=
  match o with
  | SAccept sid env =>
      match services w !! sid with
      | Some s => if listening_ s && negb (in_use (acc_codec env) w) then OnNewConnection sid loops env w else Some w
      | None => Some w
      end
  | SBroken sid codec =>
      match services w !! sid with
      | Some s => Some (if bool_decide (codec ∈ codecs_ s) then OnCodecClosed sid codec w else w)
      | None => Some w
      end
  | SStopServer => StopServer true w
  | SRun i =>
      match tasks w !! i with
      | Some t => if existsb (same_loop t) (take i (tasks w)) then Some w
                  else run_task t (set_tasks (delete i (tasks w)) w)
      | None => Some w
      end
  end.
Fixpoint do_steps (loops : Z) (os : list step) (w : Server) : option Server :=
  match os with [] => Some w | o :: os' => w ← do_step loops o w; do_steps loops os' w end.

(** A server on [sids], nothing run yet. *)
Definition served (sids : list Z) : option Server := ServeAddress true true sids Server_new.

(** ** What holds of a server at any time *)

Definition service_of (t : task) : Z := match t with TStart s | TStop s | TClose s _ | TRemove s _ => s end.
Definition total (m : gmap Z IOService) : nat := map_fold (fun _ s n => size (codecs_ s) + n)%nat 0%nat m.

(** A service is stopped once, and not started after that. *)
Fixpoint stop_last (ts : list task) : Prop :=
  match ts with
  | [] => True
  | t :: ts' => match t with TStop sid => TStart sid ∉ ts' /\ TStop sid ∉ ts' | _ => True end /\ stop_last ts'
  end.

(** A service that is stopping: each connection it still has waits for its
    removal. *)
Definition stopping_ok (w : Server) (sid : Z) (s : IOService) : Prop :=
  serving_flag_ w = false /\ listening_ s = false /\ TStart sid ∉ tasks w /\ TStop sid ∉ tasks w /\
  (forall c, c ∈ codecs_ s -> TClose sid c ∈ tasks w \/ TRemove sid c ∈ tasks w).
Definition svc_ok (w : Server) (sid : Z) (s : IOService) : Prop :=
  if is_stopping_ s then stopping_ok w sid s /\ (sid ∈ ioservices_ w <-> codecs_ s <> ∅)
  else sid ∈ ioservices_ w /\ (TStop sid ∈ tasks w <-> serving_flag_ w = false).

Definition ginv (w : Server) : Prop :=
  (forall t, t ∈ tasks w -> is_Some (services w !! service_of t)) /\
  (forall sid, sid ∈ ioservices_ w -> is_Some (services w !! sid)) /\
  stop_last (tasks w) /\
  (client_count_ w = Z.of_nat (total (services w)) /\ Z.of_nat (total (services w)) <= kClientConnLimit) /\
  (ioservices_ w = [] <-> (0 < callbacks w)%nat) /\
  closed_callback_ w = negb (serving_flag_ w).
Definition inv (w : Server) : Prop :=
  (forall sid s, services w !! sid = Some s -> svc_ok w sid s) /\ ginv w.

Lemma total_insert sid s s' m :
  m !! sid = Some s -> (total (<[sid := s']> m) + size (codecs_ s) = total m + size (codecs_ s'))%nat.
Proof.
  intros Hs. unfold total. rewrite <- insert_delete_eq.
  rewrite map_fold_insert_L by (intros; lia || apply lookup_delete_eq).
  rewrite (map_fold_delete_L _ _ _ _ m) by (intros; lia || exact Hs). lia.
Qed.
Lemma elem_delete (t x : task) i (ts : list task) : ts !! i = Some t -> x <> t -> x ∈ delete i ts <-> x ∈ ts.
Proof.
  intros Ht Hne. rewrite delete_take_drop. rewrite <- (take_drop_middle _ _ _ Ht) at 3.
  rewrite !elem_of_app, elem_of_cons. tauto.
Qed.
Lemma delete_elem (x : task) i (ts : list task) : x ∈ delete i ts -> x ∈ ts.
Proof.
  rewrite delete_take_drop, elem_of_app. intros [H|H]; [by eapply subseteq_take|by eapply subseteq_drop].
Qed.
Lemma stop_last_delete i ts : stop_last ts -> stop_last (delete i ts).
Proof.
  revert i. induction ts as [|t ts IH]; intros [|i]; cbn; [done..|tauto|]. intros [H1 H2]. split; [|by apply IH].
  destruct t; try done. destruct H1. split; intros ?%delete_elem; done.
Qed.
Lemma stop_last_app ts new :
  stop_last ts -> stop_last new -> (forall sid, TStop sid ∈ ts -> TStart sid ∉ new /\ TStop sid ∉ new) -> stop_last (ts ++ new).
Proof.
  intros Hts Hn H. induction ts as [|t ts IH]; cbn in *; [done|].
  split; [|apply IH; [apply Hts|intros sid Hin; apply H; by right]].
  destruct t as [|sid| |]; try done. destruct Hts as [[H1 H2] _]. destruct (H sid ltac:(left)) as [H3 H4].
  rewrite !elem_of_app. tauto.
Qed.
Lemma stop_not_later i ts sid :
  stop_last ts -> ts !! i = Some (TStop sid) -> existsb (same_loop (TStop sid)) (take i ts) = false ->
  TStart sid ∉ delete i ts /\ TStop sid ∉ delete i ts.
Proof.
  intros Hs Hi He. rewrite delete_take_drop.
  assert (forall u, same_loop (TStop sid) u = true -> u ∉ take i ts) as Hb.
  { intros u Hu Hin. apply Bool.not_true_iff_false in He. apply He. apply existsb_exists. exists u.
    split; [by apply list_elem_of_In|done]. }
  assert (TStart sid ∉ drop (S i) ts /\ TStop sid ∉ drop (S i) ts) as [H1 H2].
  { clear He Hb. revert i Hi. induction ts as [|t ts IH]; intros [|i] Hi; cbn in *; try done.
    - injection Hi as ->. rewrite drop_0. apply Hs.
    - apply IH; [apply Hs|done]. }
  rewrite !elem_of_app. pose proof (Hb (TStart sid) (Z.eqb_refl sid)). pose proof (Hb (TStop sid) (Z.eqb_refl sid)). tauto.
Qed.

(** What a service relies on: its own tasks, its place in the server's list. *)
Lemma svc_ok_ext w w' sid s :
  serving_flag_ w' = serving_flag_ w -> (forall t, service_of t = sid -> t ∈ tasks w' <-> t ∈ tasks w) ->
  (sid ∈ ioservices_ w' <-> sid ∈ ioservices_ w) -> svc_ok w sid s -> svc_ok w' sid s.
Proof.
  intros Hf Ht Hi. unfold svc_ok, stopping_ok.
  pose proof (Ht (TStart sid) eq_refl). pose proof (Ht (TStop sid) eq_refl).
  destruct (is_stopping_ s); [|rewrite Hf; tauto].
  intros [(H1 & H2 & H3 & H4 & H5) H6]. split; [|tauto]. split_and!; [congruence|done|tauto|tauto|].
  intros c Hc. pose proof (Ht (TClose sid c) eq_refl). pose proof (Ht (TRemove sid c) eq_refl). specialize (H5 c Hc). tauto.
Qed.

(** A service reports that it has stopped. *)
Lemma stoped_inv sid s w :
  services w !! sid = Some s -> is_stopping_ s = true -> codecs_ s = ∅ -> stopping_ok w sid s ->
  (forall sid' s', sid' <> sid -> services w !! sid' = Some s' -> svc_ok w sid' s') -> ginv w ->
  inv (IOServiceStoped sid w).
Proof.
  intros Hs Hst Hc Hok Hothers (G1 & G2 & G3 & G4 & G5 & G6). split.
  - intros sid' s' Hs'. destruct (decide (sid' = sid)) as [->|Hne].
    + cbn in Hs'. rewrite Hs in Hs'. injection Hs' as <-. unfold svc_ok. rewrite Hst. split; [done|].
      cbn. rewrite list_elem_of_filter, Hc. tauto.
    + apply (svc_ok_ext w); [done|done| |by apply Hothers]. cbn. rewrite list_elem_of_filter. tauto.
  - split_and!; try done; try apply G4.
    + intros sid' H. cbn in H. apply list_elem_of_filter in H as [_ H]. by apply G2.
    + destruct Hok as [Hf _]. cbn. rewrite G6, Hf. cbn [negb].
      destruct (filter _ (ioservices_ w)) eqn:E; [split; [lia|done]|]. rewrite <- G5. split; [done|].
      intros E'. by rewrite E' in E.
Qed.

Lemma set_service_lookup sid s w sid' : services (set_service sid s w) !! sid' = if decide (sid' = sid) then Some s else services w !! sid'.
Proof. cbn. destruct (decide (sid' = sid)) as [->|Hne]; [apply lookup_insert_eq|by apply lookup_insert_ne]. Qed.
Lemma set_service_some sid s s' w t : services w !! sid = Some s' -> is_Some (services w !! t) -> is_Some (services (set_service sid s w) !! t).
Proof. intros Hs Ht. rewrite set_service_lookup. by destruct (decide (t = sid)). Qed.

Lemma task_deleted i t w sid s :
  tasks w !! i = Some t -> sid <> service_of t -> svc_ok w sid s -> svc_ok (set_tasks (delete i (tasks w)) w) sid s.
Proof.
  intros Ht Hne. apply svc_ok_ext; [done| |done]. intros u Hu. apply (elem_delete t); [done|]. intros ->. congruence.
Qed.
Lemma task_posted ts w sid s :
  (forall t, t ∈ ts -> service_of t <> sid) -> svc_ok w sid s -> svc_ok (post ts w) sid s.
Proof.
  intros Hts. apply svc_ok_ext; [done| |done]. intros u Hu. cbn. rewrite elem_of_app.
  split; [intros [?|H]; [done|]|by left]. by apply Hts in H.
Qed.
Lemma ginv_tasks ts w :
  ginv w -> (forall t, t ∈ ts -> is_Some (services w !! service_of t)) -> stop_last ts -> ginv (set_tasks ts w).
Proof. intros (G1 & G2 & G3 & G4 & G5 & G6) H1 H2. split_and!; done || apply G4. Qed.
Lemma ginv_deleted i w : ginv w -> ginv (set_tasks (delete i (tasks w)) w).
Proof.
  intros G. pose proof G as (G1 & _ & G3 & _). apply ginv_tasks; [done| |by apply stop_last_delete].
  intros t ?%delete_elem. by apply G1.
Qed.

(** A removal is posted, for whatever reason. *)
Lemma remove_posted sid c w : inv w -> is_Some (services w !! sid) -> inv (OnCodecClosed sid c w).
Proof.
  intros [Hsvc G] Hs. pose proof G as (G1 & _ & G3 & _). split.
  - intros sid' s' Hs'. specialize (Hsvc sid' s' Hs'). revert Hsvc. unfold svc_ok, stopping_ok. cbn.
    assert (forall u, u <> TRemove sid c -> u ∈ tasks w ++ [TRemove sid c] <-> u ∈ tasks w) as Hu
      by (intros u Hu; rewrite elem_of_app, list_elem_of_singleton; tauto).
    pose proof (Hu (TStart sid') ltac:(done)). pose proof (Hu (TStop sid') ltac:(done)).
    destruct (is_stopping_ s'); [|tauto]. intros [(H1 & H2 & H3 & H4 & H5) H6]. split; [|done].
    split_and!; [done|done|tauto|tauto|]. intros d Hd. rewrite !elem_of_app. destruct (H5 d Hd); tauto.
  - apply ginv_tasks; [done| |].
    + intros u. rewrite elem_of_app, list_elem_of_singleton. intros [H| ->]; [by apply G1|done].
    + apply stop_last_app; [done|by cbn|]. intros sid' _. by rewrite !list_elem_of_singleton.
Qed.
(** A close that has posted its removal is done. *)
Lemma close_done i sid c w :
  inv w -> tasks w !! i = Some (TClose sid c) -> TRemove sid c ∈ tasks w -> inv (set_tasks (delete i (tasks w)) w).
Proof.
  intros [Hsvc G] Hi Hr. split; [|by apply ginv_deleted]. intros sid' s' Hs'.
  specialize (Hsvc sid' s' Hs'). revert Hsvc. unfold svc_ok, stopping_ok. cbn.
  assert (forall u, u <> TClose sid c -> u ∈ delete i (tasks w) <-> u ∈ tasks w) as Hu by (intros; by eapply elem_delete).
  pose proof (Hu (TStart sid') ltac:(done)). pose proof (Hu (TStop sid') ltac:(done)).
  destruct (is_stopping_ s'); [|tauto]. intros [(H1 & H2 & H3 & H4 & H5) H6]. split; [|done].
  split_and!; [done|done|tauto|tauto|]. intros d Hd. pose proof (Hu (TRemove sid' d) ltac:(done)).
  destruct (decide (sid' = sid /\ d = c)) as [[-> ->]|Hne]; [tauto|].
  pose proof (Hu (TClose sid' d) ltac:(intros [= -> ->]; tauto)). destruct (H5 d Hd); tauto.
Qed.
Lemma delete_app_l (i : nat) (t : task) (ts us : list task) : ts !! i = Some t -> delete i (ts ++ us) = delete i ts ++ us.
Proof.
  intros Hi. apply lookup_lt_Some in Hi. rewrite !delete_take_drop, take_app_le, drop_app_le by lia. by rewrite app_assoc.
Qed.
Lemma close_step i sid c w :
  inv w -> tasks w !! i = Some (TClose sid c) -> inv (OnCodecClosed sid c (set_tasks (delete i (tasks w)) w)).
Proof.
  intros Hinv Hi. pose proof Hinv as [_ (G1 & _)].
  pose proof (remove_posted sid c w Hinv (G1 _ (list_elem_of_lookup_2 _ _ _ Hi))) as H.
  assert (tasks (OnCodecClosed sid c w) !! i = Some (TClose sid c)) as Hi'
    by (cbn; rewrite lookup_app_l; [done|by eapply lookup_lt_Some]).
  apply (close_done i sid c) in H; [|done|cbn; apply elem_of_app; right; apply list_elem_of_here].
  cbn in H. by rewrite (delete_app_l i _ _ _ Hi) in H.
Qed.

(** ** Each step keeps it *)

(** Erasing a codec, if it is there, and counting it off. *)
Definition erased (c : Z) (s : IOService) : IOService :=
  if decide (c ∈ codecs_ s) then mkService (listening_ s) (is_stopping_ s) (codecs_ s ∖ {[c]}) else s.
Definition erase (sid c : Z) (s : IOService) (w : Server) : Server :=
  if decide (c ∈ codecs_ s) then DecreaseChannelCount (set_service sid (erased c s) w) else w.
Lemma RemoveProtocolService_erase sid c s w :
  services w !! sid = Some s ->
  RemoveProtocolService sid c w =
  Some (if is_stopping_ s && bool_decide (codecs_ (erased c s) = ∅) then IOServiceStoped sid (erase sid c s w) else erase sid c s w).
Proof.
  intros Hs. unfold RemoveProtocolService, erase, erased. rewrite Hs. cbn [mbind option_bind].
  destruct (decide (c ∈ codecs_ s)); cbn; [by rewrite lookup_insert_eq|by rewrite Hs].
Qed.
Lemma erased_codecs c s d : d ∈ codecs_ (erased c s) <-> d ∈ codecs_ s /\ d <> c.
Proof. unfold erased. destruct (decide (c ∈ codecs_ s)); cbn; [set_solver|naive_solver]. Qed.
Lemma erased_flags c s : is_stopping_ (erased c s) = is_stopping_ s /\ listening_ (erased c s) = listening_ s.
Proof. unfold erased. by destruct (decide _). Qed.
Lemma erase_keeps sid c s w :
  services w !! sid = Some s ->
  services (erase sid c s w) = <[sid := erased c s]> (services w) /\ tasks (erase sid c s w) = tasks w /\
  ioservices_ (erase sid c s w) = ioservices_ w /\ serving_flag_ (erase sid c s w) = serving_flag_ w.
Proof. intros Hs. unfold erase, erased. destruct (decide _); [done|]. split_and!; try done. by rewrite insert_id. Qed.
Lemma erase_ginv sid c s w : services w !! sid = Some s -> ginv w -> ginv (erase sid c s w).
Proof.
  intros Hs (K1 & K2 & K3 & K4 & K5 & K6). pose proof (total_insert sid s (erased c s) (services w) Hs) as Ht.
  unfold erase. destruct (decide (c ∈ codecs_ s)) as [Hc|Hc]; [|done].
  assert (size (codecs_ (erased c s)) + 1 = size (codecs_ s))%nat as Hsz.
  { unfold erased. rewrite decide_True by done. cbn [codecs_]. rewrite size_difference by set_solver. rewrite size_singleton.
    assert (0 < size (codecs_ s))%nat; [|lia]. apply Nat.neq_0_lt_0. intros H0. apply size_empty_inv in H0. set_solver. }
  split_and!; try done.
  - intros t Ht'. eapply set_service_some; [exact Hs|by apply K1].
  - intros t Ht'. eapply set_service_some; [exact Hs|by apply K2].
  - cbn. destruct K4 as [K4 K4']. rewrite K4. unfold kClientConnLimit in *. rewrite u32_id by lia. lia.
  - cbn. destruct K4 as [_ K4]. lia.
Qed.

Lemma remove_step i sid c w :
  inv w -> tasks w !! i = Some (TRemove sid c) ->
  exists w', RemoveProtocolService sid c (set_tasks (delete i (tasks w)) w) = Some w' /\ inv w'.
Proof.
  intros [Hsvc G] Hi. pose proof G as (G1 & _). destruct (G1 _ (list_elem_of_lookup_2 _ _ _ Hi)) as [s Hs]. cbn in Hs.
  set (w1 := set_tasks (delete i (tasks w)) w). rewrite (RemoveProtocolService_erase sid c s w1 Hs). eexists. split; [done|].
  pose proof (erase_ginv sid c s w1 Hs (ginv_deleted i w G)) as G2.
  destruct (erase_keeps sid c s w1 Hs) as (E1 & E2 & E3 & E4). set (w2 := erase sid c s w1) in *.
  destruct (erased_flags c s) as [Es2 El2]. set (s2 := erased c s) in *.
  assert (forall u, u <> TRemove sid c -> u ∈ tasks w2 <-> u ∈ tasks w) as Hu
    by (intros u Hne; rewrite E2; by eapply elem_delete).
  assert (services w2 !! sid = Some s2) as Hs2 by (rewrite E1; apply lookup_insert_eq).
  assert (forall sid' s', sid' <> sid -> services w2 !! sid' = Some s' -> svc_ok w2 sid' s') as Ho2.
  { intros sid' s' Hne Hs'. rewrite E1, lookup_insert_ne in Hs' by done.
    apply (svc_ok_ext w1); [done|intros; by rewrite E2|by rewrite E3|]. eapply task_deleted; [done|done|by apply Hsvc]. }
  specialize (Hsvc sid s Hs). unfold svc_ok in Hsvc. destruct (is_stopping_ s) eqn:Est; cbn [andb].
  - destruct Hsvc as [(H1 & H2 & H3 & H4 & H5) H6].
    assert (stopping_ok w2 sid s2) as Hok.
    { pose proof (Hu (TStart sid) ltac:(done)). pose proof (Hu (TStop sid) ltac:(done)).
      split_and!; [by rewrite E4|by rewrite El2|tauto|tauto|]. intros d [Hd Hdc]%erased_codecs.
      rewrite (Hu (TClose sid d)), (Hu (TRemove sid d)) by congruence. by apply H5. }
    destruct (bool_decide (codecs_ s2 = ∅)) eqn:Eb.
    + apply bool_decide_eq_true in Eb. by eapply stoped_inv.
    + apply bool_decide_eq_false in Eb. split; [|done]. intros sid' s' Hs'. destruct (decide (sid' = sid)) as [->|Hne]; [|by apply Ho2].
      rewrite Hs2 in Hs'. injection Hs' as <-. unfold svc_ok. rewrite Es2. split; [done|]. rewrite E3. cbn. rewrite H6.
      split; [done|]. intros _ E. apply Eb. apply set_eq. intros d. pose proof (erased_codecs c s d). set_solver.
  - split; [|done]. intros sid' s' Hs'. destruct (decide (sid' = sid)) as [->|Hne]; [|by apply Ho2].
    rewrite Hs2 in Hs'. injection Hs' as <-. unfold svc_ok. rewrite Es2, E3, E4. cbn. by rewrite Hu by done.
Qed.

Lemma service_stop_step i sid w :
  inv w -> tasks w !! i = Some (TStop sid) -> existsb (same_loop (TStop sid)) (take i (tasks w)) = false ->
  exists w', Stop sid (set_tasks (delete i (tasks w)) w) = Some w' /\ inv w'.
Proof.
  intros [Hsvc G] Hi He. pose proof G as (G1 & G2 & G3 & G4 & G5 & G6). pose proof (list_elem_of_lookup_2 _ _ _ Hi) as Hin.
  destruct (G1 _ Hin) as [s Hs]. cbn in Hs. destruct (stop_not_later i (tasks w) sid G3 Hi He) as [N1 N2].
  pose proof (Hsvc sid s Hs) as Hok. unfold svc_ok in Hok.
  destruct (is_stopping_ s) eqn:Est; [by destruct Hok as [(_ & _ & _ & H & _) _]|]. destruct Hok as [Hio Hserv].
  set (w1 := set_tasks (delete i (tasks w)) w). set (s2 := mkService false true (codecs_ s)).
  set (w2 := post (map (TClose sid) (elements (codecs_ s))) (set_service sid s2 w1)).
  exists (if bool_decide (codecs_ s = ∅) then IOServiceStoped sid w2 else w2).
  split; [unfold Stop; change (services w1) with (services w); by rewrite Hs|].
  assert (forall u, u ∈ map (TClose sid) (elements (codecs_ s)) <-> exists c, u = TClose sid c /\ c ∈ codecs_ s) as Hmap.
  { intros u. rewrite list_elem_of_fmap. setoid_rewrite elem_of_elements. done. }
  assert (services w2 !! sid = Some s2) as Hs2 by apply lookup_insert_eq.
  assert (stopping_ok w2 sid s2) as Hok2.
  { split_and!; try done; [by apply Hserv| | |].
    - cbn. rewrite elem_of_app, Hmap. intros [?|(c & ? & _)]; done.
    - cbn. rewrite elem_of_app, Hmap. intros [?|(c & ? & _)]; done.
    - intros c Hc. left. cbn. rewrite elem_of_app, Hmap. right. by exists c. }
  assert (forall sid' s', sid' <> sid -> services w2 !! sid' = Some s' -> svc_ok w2 sid' s') as Ho2.
  { intros sid' s' Hne Hs'. cbn in Hs'. rewrite lookup_insert_ne in Hs' by done.
    apply task_posted; [intros t (c & -> & _)%Hmap; by cbn|].
    apply (svc_ok_ext w1); [done..|]. eapply task_deleted; [done|done|by apply Hsvc]. }
  assert (ginv w2) as Gw2.
  { apply ginv_tasks; [|intros t|].
    - pose proof (ginv_deleted i w G) as (K1 & K2 & K3 & K4 & K5 & K6). split_and!; try done.
      + intros t Ht. eapply set_service_some; [exact Hs|by apply K1].
      + intros t Ht. eapply set_service_some; [exact Hs|by apply K2].
      + cbn. pose proof (total_insert sid s s2 (services w) Hs). cbn [codecs_ s2] in *. destruct G4. lia.
      + cbn. pose proof (total_insert sid s s2 (services w) Hs). cbn [codecs_ s2] in *. destruct G4. lia.
    - cbn. rewrite elem_of_app, Hmap. intros [H|(c & -> & _)]; [|by cbn; rewrite lookup_insert_eq].
      eapply (set_service_some sid s2 s w1 _ Hs). apply G1. by eapply delete_elem.
    - apply stop_last_app; [by apply stop_last_delete| |].
      + clear. induction (elements (codecs_ s)) as [|c l IH]; cbn; done.
      + intros sid' _. rewrite !Hmap. split; intros (c & ? & _); done. }
  destruct (bool_decide (codecs_ s = ∅)) eqn:Eb.
  - apply bool_decide_eq_true in Eb. by eapply stoped_inv.
  - apply bool_decide_eq_false in Eb. split; [|done]. intros sid' s' Hs'. destruct (decide (sid' = sid)) as [->|Hne]; [|by apply Ho2].
    rewrite Hs2 in Hs'. injection Hs' as <-. by split.
Qed.

Lemma start_step i sid w :
  inv w -> tasks w !! i = Some (TStart sid) ->
  exists w', Start sid true (set_tasks (delete i (tasks w)) w) = Some w' /\ inv w'.
Proof.
  intros [Hsvc G] Hi. pose proof G as (G1 & G2 & G3 & G4 & G5 & G6). pose proof (list_elem_of_lookup_2 _ _ _ Hi) as Hin.
  destruct (G1 _ Hin) as [s Hs]. cbn in Hs. pose proof (Hsvc sid s Hs) as Hok. unfold svc_ok in Hok.
  destruct (is_stopping_ s) eqn:Est; [by destruct Hok as [(_ & _ & H & _) _]|].
  set (w1 := set_tasks (delete i (tasks w)) w). unfold Start. change (services w1) with (services w). rewrite Hs. cbn [mbind option_bind].
  eexists. split; [done|]. split.
  - intros sid' s' Hs'. rewrite set_service_lookup in Hs'. destruct (decide (sid' = sid)) as [->|Hne].
    + injection Hs' as <-. unfold svc_ok. cbn. rewrite Est. rewrite (elem_delete (TStart sid)) by done. done.
    + apply (svc_ok_ext w1); [done..|]. eapply task_deleted; [done|done|by apply Hsvc].
  - pose proof (ginv_deleted i w G) as (K1 & K2 & K3 & K4 & K5 & K6). split_and!; try done.
    + intros t Ht. eapply set_service_some; [exact Hs|by apply K1].
    + intros t Ht. eapply set_service_some; [exact Hs|by apply K2].
    + cbn. pose proof (total_insert sid s (mkService true (is_stopping_ s) (codecs_ s)) (services w) Hs). cbn [codecs_] in *. destruct G4. lia.
    + cbn. pose proof (total_insert sid s (mkService true (is_stopping_ s) (codecs_ s)) (services w) Hs). cbn [codecs_] in *. destruct G4. lia.
Qed.

Lemma accept_step sid loops env s w :
  inv w -> services w !! sid = Some s -> listening_ s = true -> in_use (acc_codec env) w = false -> local_ok env = true ->
  exists w', OnNewConnection sid loops env w = Some w' /\ inv w' /\ tasks w' = tasks w /\ ioservices_ w' = ioservices_ w.
Proof.
  intros [Hsvc G] Hs Hl Hfresh Hlo. pose proof G as (G1 & G2 & G3 & G4 & G5 & G6). unfold OnNewConnection.
  destruct (CanCreateNewChannel w) eqn:Ec; cbn [negb]; [|by eexists].
  unfold CreateCodeService, GetNextIOWorkLoop. rewrite Hlo. cbn [negb]. destruct (codec_ok env); cbn [negb mbind option_bind]; [|by eexists].
  unfold StoreProtocolService. cbn [services]. rewrite Hs. cbn [mbind option_bind]. eexists. split; [done|]. split; [|done].
  assert (acc_codec env ∉ codecs_ s) as Hnew.
  { intros Hc. apply Bool.not_true_iff_false in Hfresh. apply Hfresh. unfold in_use. apply existsb_exists. exists (sid, s).
    split; [by apply list_elem_of_In, elem_of_map_to_list|by apply bool_decide_eq_true]. }
  assert (is_stopping_ s = false) as Est.
  { pose proof (Hsvc sid s Hs) as H. unfold svc_ok in H. destruct (is_stopping_ s); [|done]. destruct H as [(_ & H & _) _]. congruence. }
  set (s2 := mkService _ _ _).
  pose proof (total_insert sid s s2 (services w) Hs) as Ht. cbn [codecs_ s2] in Ht.
  rewrite size_union, size_singleton in Ht by set_solver.
  apply Z.ltb_lt in Ec. destruct G4 as [G4 G4']. split.
  - intros sid' s' Hs'. cbn in Hs'. destruct (decide (sid' = sid)) as [->|Hne].
    + rewrite lookup_insert_eq in Hs'. injection Hs' as <-. pose proof (Hsvc sid s Hs) as H. unfold svc_ok in *. cbn. by rewrite Est in *.
    + rewrite lookup_insert_ne in Hs' by done. apply (svc_ok_ext w); [done..|]. by apply Hsvc.
  - split_and!; try done.
    + intros t Ht'. eapply (set_service_some sid s2 s w); [exact Hs|by apply G1].
    + intros t Ht'. eapply (set_service_some sid s2 s w); [exact Hs|by apply G2].
    + cbn. unfold kClientConnLimit in *. rewrite u32_id by lia. lia.
    + cbn. unfold kClientConnLimit in *. lia.
Qed.

Lemma stop_server_step w w' :
  inv w -> NoDup (ioservices_ w) -> StopServer true w = Some w' -> inv w'.
Proof.
  intros [Hsvc G] Hnd H. pose proof G as (G1 & G2 & G3 & G4 & G5 & G6). unfold StopServer in H.
  destruct (serving_flag_ w) eqn:Ef; cbn [negb] in H; [|done].
  assert (forall u, u ∈ map TStop (ioservices_ w) <-> exists sid, u = TStop sid /\ sid ∈ ioservices_ w) as Hmap by (intros u; apply list_elem_of_fmap).
  assert (forall sid, TStop sid ∉ tasks w) as Hno.
  { intros sid Hin. destruct (G1 _ Hin) as [s Hs]. cbn in Hs. pose proof (Hsvc sid s Hs) as Hok. unfold svc_ok, stopping_ok in Hok.
    rewrite Ef in Hok. destruct (is_stopping_ s); [naive_solver|]. destruct Hok as [_ Hok]. by apply Hok in Hin. }
  assert (forall n, (ioservices_ w = [] <-> (0 < n)%nat) -> inv (mkServer (services w) (ioservices_ w) (client_count_ w) false true n
    (next_loop w) (closed_fds w) (tasks w ++ map TStop (ioservices_ w)))) as Hmain.
  { intros n Hn. split.
    - intros sid s Hs. pose proof (Hsvc sid s Hs) as Hok. unfold svc_ok, stopping_ok in *. cbn. rewrite Ef in Hok.
      destruct (is_stopping_ s); [naive_solver|]. destruct Hok as [Hio _]. split; [done|]. split; [done|]. intros _.
      rewrite elem_of_app, Hmap. right. by exists sid.
    - split_and!; try done; try apply G4.
      + cbn. intros t. rewrite elem_of_app, Hmap. intros [Ht|(sid & -> & Hin)]; [by apply G1|by apply G2].
      + cbn. apply stop_last_app; [done| |intros sid Hin; by apply Hno in Hin].
        clear - Hnd. induction Hnd as [|sid l Hin Hnd IH]; cbn; [done|]. split; [|done].
        split; rewrite list_elem_of_fmap; [intros (? & ? & _); done|]. intros (x & [= ->] & Hx). done. }
  assert (exists n, w' = mkServer (services w) (ioservices_ w) (client_count_ w) false true n (next_loop w) (closed_fds w)
    (tasks w ++ map TStop (ioservices_ w)) /\ (ioservices_ w = [] <-> (0 < n)%nat)) as (n & -> & Hn); [|by apply Hmain].
  clear Hmain Hmap Hnd G2. cbn [ioservices_] in H. destruct (ioservices_ w) eqn:Ei; injection H as <-; (eexists; split; [reflexivity|]).
  - cbn. split; [lia|done].
  - exact G5.
Qed.

(** ** Runs *)

(** The local address of an accepted socket is known. *)
Definition step_ok (o : step) : Prop := match o with SAccept _ env => local_ok env = true | _ => True end.

Lemma run_task_inv i t w :
  inv w -> tasks w !! i = Some t -> existsb (same_loop t) (take i (tasks w)) = false ->
  exists w', run_task t (set_tasks (delete i (tasks w)) w) = Some w' /\ inv w'.
Proof.
  intros Hinv Hi He. destruct t; [by apply start_step|by apply service_stop_step| |by apply remove_step].
  eexists. split; [done|]. by apply close_step.
Qed.
Lemma ioservices_stoped sid w : ioservices_ (IOServiceStoped sid w) = filter (fun s => s <> sid) (ioservices_ w).
Proof. done. Qed.
(** What a task leaves of the server's list and the tasks. *)
Lemma run_task_effect t w w' :
  run_task t w = Some w' ->
  NoDup (ioservices_ w) -> NoDup (ioservices_ w') /\ serving_flag_ w' = serving_flag_ w /\
  match t with
  | TStart _ => tasks w' = tasks w /\ total (services w') = total (services w)
  | TStop sid => exists s, services w !! sid = Some s /\ tasks w' = tasks w ++ map (TClose sid) (elements (codecs_ s)) /\
                 total (services w') = total (services w)
  | TClose sid c => tasks w' = tasks w ++ [TRemove sid c] /\ total (services w') = total (services w)
  | TRemove _ _ => tasks w' = tasks w /\ (total (services w') <= total (services w))%nat
  end.
Proof.
  intros H Hnd. destruct t as [sid|sid|sid c|sid c]; cbn [run_task] in H.
  - unfold Start in H. destruct (services w !! sid) as [s|] eqn:Es; [|done]. injection H as <-.
    pose proof (total_insert sid s (mkService true (is_stopping_ s) (codecs_ s)) (services w) Es) as Ht. cbn [codecs_] in Ht.
    split_and!; try done. cbn. lia.
  - unfold Stop in H. destruct (services w !! sid) as [s|] eqn:Es; [|done]. injection H as <-.
    pose proof (total_insert sid s (mkService false true (codecs_ s)) (services w) Es) as Ht. cbn [codecs_] in Ht.
    destruct (bool_decide _); cbn; (split; [first [by apply list.NoDup_filter | done]|]); (split; [done|]); exists s; (split; [done|]); (split; [done|]); lia.
  - injection H as <-. done.
  - destruct (services w !! sid) as [s|] eqn:Es; [|unfold RemoveProtocolService in H; by rewrite Es in H].
    rewrite (RemoveProtocolService_erase sid c s w Es) in H. injection H as <-.
    destruct (erase_keeps sid c s w Es) as (E1 & E2 & E3 & E4).
    assert (total (services (erase sid c s w)) <= total (services w))%nat as Ht.
    { rewrite E1. pose proof (total_insert sid s (erased c s) (services w) Es).
      assert (size (codecs_ (erased c s)) <= size (codecs_ s))%nat; [|lia].
      apply subseteq_size. intros d Hd. by apply erased_codecs in Hd as [? _]. }
    destruct (_ && _); cbn; rewrite ?E2, ?E3, ?E4; (split; [first [by apply list.NoDup_filter | done]|done]).
Qed.

Lemma do_step_inv loops o w w' :
  step_ok o -> inv w -> NoDup (ioservices_ w) -> do_step loops o w = Some w' -> inv w' /\ NoDup (ioservices_ w').
Proof.
  intros Ho Hinv Hnd H. destruct o as [sid env|sid c| |i]; cbn [do_step] in H.
  - destruct (services w !! sid) as [s|] eqn:Es; [|by injection H as <-].
    destruct (listening_ s && _) eqn:El; [|by injection H as <-]. apply andb_true_iff in El as [El Eu].
    destruct (accept_step sid loops env s w Hinv Es El) as (w1 & E & Hi & _ & Hio); [by destruct (in_use _ _)|done|].
    rewrite E in H. injection H as <-. by rewrite Hio.
  - destruct (services w !! sid) as [s|] eqn:Es; [|by injection H as <-]. injection H as <-.
    destruct (bool_decide _); [|done]. split; [by apply remove_posted|done].
  - split; [by eapply stop_server_step|]. unfold StopServer in H. destruct (serving_flag_ w); cbn [negb] in H; [|done].
    cbn [ioservices_] in H. destruct (ioservices_ w) eqn:Ei; injection H as <-; exact Hnd.
  - destruct (tasks w !! i) as [t|] eqn:Et; [|by injection H as <-].
    destruct (existsb _ _) eqn:Ee; [by injection H as <-|].
    destruct (run_task_inv i t w Hinv Et Ee) as (w1 & E & Hi). rewrite E in H. injection H as <-. split; [done|].
    by apply (run_task_effect t _ _ E).
Qed.
Lemma do_steps_inv loops os w w' :
  Forall step_ok os -> inv w -> NoDup (ioservices_ w) -> do_steps loops os w = Some w' -> inv w' /\ NoDup (ioservices_ w').
Proof.
  intros Ho. revert w. induction Ho as [|o os Ho Hos IH]; intros w Hi Hn; cbn [do_steps]; [by intros [= <-]|].
  destruct (do_step loops o w) as [w1|] eqn:E; [|done]. cbn [mbind option_bind].
  destruct (do_step_inv loops o w w1 Ho Hi Hn E). by apply IH.
Qed.

Lemma served_inv sids w : NoDup sids -> sids <> [] -> served sids = Some w -> inv w /\ NoDup (ioservices_ w).
Proof.
  intros Hnd Hne H. unfold served, ServeAddress in H. cbn [serving_flag_ Server_new orb negb] in H. injection H as <-. cbn.
  set (m := foldr _ _ _).
  assert (forall sid s, m !! sid = Some s <-> sid ∈ sids /\ s = mkService false false ∅) as Hm.
  { intros sid s. subst m. clear Hne. induction Hnd as [|x l Hx Hnd IH]; cbn; [set_solver|].
    destruct (decide (sid = x)) as [->|Hsx]; [rewrite lookup_insert_eq; set_solver|rewrite lookup_insert_ne by done; set_solver]. }
  assert (total m = 0%nat) as Ht.
  { subst m. clear Hm Hne. induction Hnd as [|x l Hx Hnd IH]; cbn; [done|]. unfold total in *.
    rewrite map_fold_insert_L; [cbn; by rewrite IH|intros; lia|]. clear -Hx. induction l as [|y l IH]; cbn; [done|].
    rewrite lookup_insert_ne by set_solver. apply IH. set_solver. }
  assert (forall u, u ∈ map TStart sids <-> exists sid, u = TStart sid /\ sid ∈ sids) as Hmap by (intros u; apply list_elem_of_fmap).
  split; [|done]. split.
  - intros sid s Hs. cbn in Hs. apply Hm in Hs as [Hin ->]. unfold svc_ok. cbn. split; [done|].
    rewrite Hmap. split; [intros (x & ? & _); done|done].
  - split_and!; cbn; try done.
    + intros t (sid & -> & Hin)%Hmap. eexists. cbn. by apply Hm.
    + intros sid Hin. eexists. by apply Hm.
    + clear. induction sids as [|x l IH]; cbn; done.
    + by rewrite Ht.
    + rewrite Ht. unfold kClientConnLimit. lia.
    + split; [done|lia].
Qed.

Lemma total_zero m : total m = 0%nat <-> forall sid s, m !! sid = Some s -> codecs_ s = ∅.
Proof.
  split.
  - intros Ht sid s Hs. unfold total in Ht. rewrite (map_fold_delete_L _ _ sid s m) in Ht by (intros; lia || done).
    apply leibniz_equiv, size_empty_inv. lia.
  - revert m. refine (map_ind _ _ _); [done|]. intros sid s m Hs IH H. unfold total in *.
    rewrite map_fold_insert_L by (intros; lia || done). rewrite (H sid s) by apply lookup_insert_eq. rewrite size_empty.
    cbn. apply IH. intros sid' s' Hs'. apply (H sid'). rewrite lookup_insert_ne; [done|congruence].
Qed.
Lemma service_le_total m sid s : m !! sid = Some s -> (size (codecs_ s) <= total m)%nat.
Proof. intros Hs. unfold total. rewrite (map_fold_delete_L _ _ sid s m) by (intros; lia || done). lia. Qed.

(** The server counts its connections, and stops in order.  At any time of any run
    the count is the number of codecs of all services, and never exceeds the limit;
    once [closed_callback_] has been called every service has stopped listening, no
    connection is left and the count is zero. *)
Theorem connections_counted sids loops os w0 w :
  NoDup sids -> sids <> [] -> served sids = Some w0 -> Forall step_ok os -> do_steps loops os w0 = Some w ->
  client_count_ w = Z.of_nat (total (services w)) /\ client_count_ w <= kClientConnLimit /\
  ((0 < callbacks w)%nat -> client_count_ w = 0 /\
   forall sid s, services w !! sid = Some s -> is_stopping_ s = true /\ listening_ s = false /\ codecs_ s = ∅).
Proof.
  intros Hnd Hne H0 Hos H. destruct (served_inv sids w0 Hnd Hne H0) as [Hi Hn].
  destruct (do_steps_inv loops os w0 w Hos Hi Hn H) as [[Hsvc (G1 & G2 & G3 & [G4 G4'] & G5 & G6)] _].
  split; [done|]. split; [lia|]. intros Hcb. apply G5 in Hcb.
  assert (forall sid s, services w !! sid = Some s -> is_stopping_ s = true /\ listening_ s = false /\ codecs_ s = ∅) as Hall.
  { intros sid s Hs. pose proof (Hsvc sid s Hs) as Hok. unfold svc_ok in Hok. rewrite Hcb in Hok.
    destruct (is_stopping_ s); [|destruct Hok as [Hok _]; by apply elem_of_nil in Hok].
    destruct Hok as [(_ & Hl & _) Hc]. split_and!; [done..|]. destruct (decide (codecs_ s = ∅)) as [E|E]; [done|].
    apply Hc in E. by apply elem_of_nil in E. }
  split; [|done]. rewrite G4. apply (f_equal Z.of_nat (y := 0%nat)). apply total_zero. intros sid s Hs. by apply (Hall sid s).
Qed.

(** Two services, three connections, one of which breaks while the server stops. *)
Definition accept (fd codec : Z) : accept_env := mkAcceptEnv fd codec true true.
Definition example_run : list step :=
  [SRun 0; SRun 0; SAccept 1 (accept 7 100); SAccept 2 (accept 8 200); SAccept 1 (accept 9 101);
   SBroken 1 100; SStopServer; SRun 0; SRun 0; SRun 0; SRun 0; SRun 0; SRun 0; SRun 0; SRun 0].
Lemma connections_counted_witness :
  exists w0 w, served [1; 2] = Some w0 /\ do_steps 4 example_run w0 = Some w /\ (0 < callbacks w)%nat /\ client_count_ w = 0.
Proof.
  destruct (served [1; 2]) as [w0|] eqn:E0; [|by vm_compute in E0].
  assert (option_map callbacks (w0 ← served [1; 2]; do_steps 4 example_run w0) = Some 1%nat) as Hc by (vm_compute; reflexivity).
  rewrite E0 in Hc. cbn [mbind option_bind] in Hc.
  destruct (do_steps 4 example_run w0) as [w|] eqn:E; [|done]. injection Hc as Hc. exists w0, w. split; [done|]. split; [exact E|].
  split; [lia|]. eapply (connections_counted [1; 2] 4 example_run w0 w);
    [by apply (bool_decide_unpack _)|done|exact E0|repeat constructor|exact E|lia].
Defined.

(** ** The server does stop *)

(** What the posted tasks can still cause. *)
Definition weight (n : nat) (t : task) : nat :=
  match t with TStart _ | TRemove _ _ => 1 | TClose _ _ => 2 | TStop _ => 1 + 2 * n end.
Definition load (n : nat) (ts : list task) : nat := sum_list_with (weight n) ts.

Lemma load_app n ts us : load n (ts ++ us) = (load n ts + load n us)%nat.
Proof. apply sum_list_with_app. Qed.
Lemma load_mono n m ts : (n <= m)%nat -> (load n ts <= load m ts)%nat.
Proof. intros H. induction ts as [|t ts IH]; cbn; [done|]. destruct t; cbn [weight]; unfold load in IH; lia. Qed.
Lemma load_closes n sid l : load n (map (TClose sid) l) = (2 * length l)%nat.
Proof. induction l as [|c l IH]; cbn; [done|]. unfold load in IH. lia. Qed.

Lemma load_delete n i t ts : ts !! i = Some t -> load n ts = (weight n t + load n (delete i ts))%nat.
Proof.
  intros Hi. rewrite delete_take_drop. rewrite <- (take_drop_middle _ _ _ Hi) at 1. rewrite !load_app. cbn. unfold load. lia.
Qed.

(** The [i]-th task is the first posted to its loop. *)
Definition enabled (i : nat) (w : Server) : bool :=
  match tasks w !! i with Some t => negb (existsb (same_loop t) (take i (tasks w))) | None => false end.

(** A schedule: task after task, each the first of its loop when it runs. *)
Fixpoint schedule (loops : Z) (js : list nat) (w : Server) : bool :=
  match js with
  | [] => true
  | i :: js => enabled i w && match do_step loops (SRun i) w with Some w' => schedule loops js w' | None => true end
  end.

Lemma task_step loops i w :
  inv w -> NoDup (ioservices_ w) -> enabled i w = true ->
  exists w', do_step loops (SRun i) w = Some w' /\ serving_flag_ w' = serving_flag_ w /\
  (load (total (services w')) (tasks w') < load (total (services w)) (tasks w))%nat.
Proof.
  intros Hinv Hnd Hen. unfold enabled in Hen. destruct (tasks w !! i) as [t|] eqn:Hi; [|done]. apply negb_true_iff in Hen.
  destruct (run_task_inv i t w Hinv Hi Hen) as (w' & E & _). exists w'. cbn [do_step]. rewrite Hi, Hen. split; [done|].
  destruct (run_task_effect t _ _ E Hnd) as (_ & Hf & Heff). split; [done|]. rewrite (load_delete _ i t _ Hi).
  cbn [tasks set_tasks services] in Heff. destruct t as [sid|sid|sid c|sid c]; cbn [weight].
  - destruct Heff as [-> ->]. lia.
  - destruct Heff as (s & Hs & -> & ->). rewrite load_app, load_closes. pose proof (service_le_total _ _ _ Hs).
    change (length (elements (codecs_ s))) with (size (codecs_ s)). lia.
  - destruct Heff as [-> ->]. rewrite load_app. cbn. lia.
  - destruct Heff as [-> Hle]. pose proof (load_mono _ _ (delete i (tasks w)) Hle). lia.
Qed.

(** When nothing is posted any more. *)
Lemma drained w : inv w -> serving_flag_ w = false -> tasks w = [] ->
  ioservices_ w = [] /\ (0 < callbacks w)%nat /\ client_count_ w = 0 /\
  forall sid s, services w !! sid = Some s -> is_stopping_ s = true /\ listening_ s = false /\ codecs_ s = ∅.
Proof.
  intros [Hsvc (G1 & G2 & _ & [G4 _] & G5 & _)] Hf Et.
  assert (forall sid s, services w !! sid = Some s -> is_stopping_ s = true /\ listening_ s = false /\ codecs_ s = ∅) as Hall.
  { intros sid s Hs. pose proof (Hsvc sid s Hs) as Hok. unfold svc_ok, stopping_ok in Hok. rewrite Et, Hf in Hok.
    destruct (is_stopping_ s); [|destruct Hok as [_ Hok]; exfalso; by apply (elem_of_nil (TStop sid)), Hok].
    destruct Hok as [(_ & Hl & _ & _ & Hp) _]. split_and!; [done..|]. apply set_eq. intros c. split; [|set_solver].
    intros Hc. destruct (Hp c Hc) as [X|X]; by apply elem_of_nil in X. }
  assert (ioservices_ w = []) as Hio.
  { destruct (ioservices_ w) as [|sid l] eqn:Ei; [done|]. exfalso. destruct (G2 sid ltac:(left)) as [s Hs].
    destruct (Hall sid s Hs) as (H1 & _ & H3). pose proof (Hsvc sid s Hs) as Hok. unfold svc_ok in Hok. rewrite H1, Ei in Hok.
    destruct Hok as [_ Hok]. apply Hok in H3; [done|left]. }
  split_and!; [done|by apply G5| |done]. rewrite G4. apply (f_equal Z.of_nat (y := 0%nat)), total_zero. intros sid s Hs. by apply (Hall sid s).
Qed.


(** The second service's tasks overtake the first's. *)
Definition example_schedule : list nat := [2; 2; 0; 1; 0; 0; 0]%nat.

(** But the callback can be called twice: a connection that breaks while the server
    stops is removed twice, and the second removal finds the service empty again. *)
Theorem closed_callback_twice :
  option_map callbacks (w0 ← served [1];
    do_steps 4 [SRun 0; SAccept 1 (accept 7 100); SStopServer; SRun 0; SBroken 1 100; SRun 1; SRun 0; SRun 0] w0) = Some 2%nat.
Proof. vm_compute. reflexivity. Qed.

(** Stopping without a callback when every service has already gone calls an empty
    function. *)
Theorem stop_without_callback_throws w :
  serving_flag_ w = true -> ioservices_ w = [] -> StopServer false w = None.
Proof. intros Hf Hi. unfold StopServer. rewrite Hf. cbn. by rewrite Hi. Qed.

Lemma stop_without_callback_throws_witness :
  exists w, served [] = Some w /\ StopServer false w = None.
Proof. eexists. split; [reflexivity|]. apply stop_without_callback_throws; reflexivity. Defined.

End Server.
