(* ===== verification/BeCursor.v ===== *)
(** * The boolean indexer: entry ids and cursors
      (components/boolean_indexer/{id_generator,scanner_cursor}.{h,cc})

    An entry packs the id of a conjunction (its document, its index in the document and
    its number of include expressions) and a flag, so that entries order by the size of
    the conjunction first, and the exclude entry of a conjunction comes before its include
    entry.  Cursors walk sorted posting lists; skipping is a binary search that ends in a
    linear scan.  [None] is an access outside the list. *)
From stdpp Require Import sorting.
From S2P Require Import Prelude.

(** ** Ids *)
Module BeId.

Definition NULLENTRY : Z := 0xFFFFFFFFFFFFFFFF.

Definition GenConjID (doc idx size : Z) : Z :=
  let doc := if doc <? 0 then i64 (Z.lor (Z.shiftl 1 43) (u64 (- doc))) else doc in
  Z.lor (Z.lor (u64 (Z.shiftl size 52)) (u64 (Z.shiftl idx 44))) (u64 doc).

Definition GetDocumentID (conj_id : Z) : Z :=
  let doc := Z.land conj_id 0x7FFFFFFFFFF in
  let neg := Z.land (Z.shiftr conj_id 43) 0x1 in
  if neg =? 0 then doc else - doc.

Definition GetIndexInDoc (conj_id : Z) : Z := Z.land (Z.shiftr conj_id 44) 0xFF.
Definition GetConjunctionSize (conj_id : Z) : Z := Z.land (Z.shiftr conj_id 52) 0xFF.

Definition GenEntryID (conj_id : Z) (exclude : bool) : Z :=
  let entry_id := u64 (Z.shiftl conj_id 4) in
  if exclude then entry_id else Z.lor entry_id 0x01.

Definition IsInclude (id : Z) : bool := 0 <? Z.land id 0x01.
Definition IsExclude (id : Z) : bool := negb (IsInclude id).
Definition GetConjunctionId (id : Z) : Z := Z.shiftr id 4.
Definition GetDocID (id : Z) : Z := GetDocumentID (GetConjunctionId id).
Definition GetConjSize (id : Z) : Z := GetConjunctionSize (GetConjunctionId id).

(** A word made of a high and a low part. *)
Lemma lor_high_low a b n : 0 <= n -> 0 <= b < 2 ^ n -> Z.lor (Z.shiftl a n) b = a * 2 ^ n + b.
Proof.
  intros Hn Hb. rewrite <- Z.shiftl_mul_pow2 by done.
  assert (Hdisj : forall i, 0 <= i -> Z.testbit (Z.shiftl a n) i && Z.testbit b i = false).
  { intros i Hi. destruct (Z.ltb_spec i n); [by rewrite Z.shiftl_spec_low|].
    rewrite <- (Z.mod_small b (2 ^ n)), Z.mod_pow2_bits_high by lia. apply andb_false_r. }
  rewrite Z.add_nocarry_lxor.
  - apply Z.bits_inj'. intros i Hi. specialize (Hdisj i Hi). rewrite Z.lxor_spec, Z.lor_spec.
    by destruct (Z.testbit _ _), (Z.testbit _ _).
  - apply Z.bits_inj'. intros i Hi. by rewrite Z.land_spec, Z.bits_0, Hdisj.
Qed.

Lemma land_mask x n : 0 <= n -> Z.land x (2 ^ n - 1) = x mod 2 ^ n.
Proof. intros Hn. rewrite <- Z.land_ones by done. by rewrite Z.ones_equiv, Z.sub_1_r. Qed.

(** The document with its sign, in 44 bits. *)
Definition doc_bits (doc : Z) : Z := if doc <? 0 then 2 ^ 43 - doc else doc.

Lemma GenConjID_arith doc idx size :
  - 2 ^ 43 < doc < 2 ^ 43 -> 0 <= idx < 256 -> 0 <= size < 256 ->
  GenConjID doc idx size = (size * 2 ^ 8 + idx) * 2 ^ 44 + doc_bits doc.
Proof.
  intros Hd Hi Hs. unfold GenConjID, doc_bits.
  assert (E : u64 (if doc <? 0 then i64 (Z.lor (Z.shiftl 1 43) (u64 (- doc))) else doc) = if doc <? 0 then 2 ^ 43 - doc else doc).
  { destruct (Z.ltb_spec doc 0); [|rewrite u64_id; lia].
    rewrite (u64_id (- doc)), lor_high_low by lia. rewrite i64_id, u64_id by lia. lia. }
  rewrite E. rewrite !Z.shiftl_mul_pow2 by lia. rewrite (u64_id (size * _)), (u64_id (idx * _)) by lia.
  replace (Z.lor (size * 2 ^ 52) (idx * 2 ^ 44)) with (Z.shiftl (size * 2 ^ 8 + idx) 44).
  - rewrite lor_high_low; [done | lia | destruct (doc <? 0) eqn:?; lia].
  - rewrite <- !Z.shiftl_mul_pow2 by lia. replace 52 with (8 + 44) by lia. rewrite <- Z.shiftl_shiftl by lia.
    rewrite <- Z.shiftl_lor. f_equal. by rewrite lor_high_low, Z.shiftl_mul_pow2 by lia.
Qed.

Lemma conj_fields doc idx size :
  - 2 ^ 43 < doc < 2 ^ 43 -> 0 <= idx < 256 -> 0 <= size < 256 ->
  let c := GenConjID doc idx size in
  0 <= c < 2 ^ 60 /\ GetDocumentID c = doc /\ GetIndexInDoc c = idx /\ GetConjunctionSize c = size.
Proof.
  intros Hd Hi Hs c. unfold c. rewrite GenConjID_arith by done. set (b := doc_bits doc).
  assert (Hb : 0 <= b < 2 ^ 44) by (unfold b, doc_bits; destruct (Z.ltb_spec doc 0); lia).
  unfold GetDocumentID, GetIndexInDoc, GetConjunctionSize. change 0x7FFFFFFFFFF with (2 ^ 43 - 1). change 0xFF with (2 ^ 8 - 1).
  change (Z.land (Z.shiftr ((size * 2 ^ 8 + idx) * 2 ^ 44 + b) 43) 1) with (Z.land (Z.shiftr ((size * 2 ^ 8 + idx) * 2 ^ 44 + b) 43) (2 ^ 1 - 1)).
  rewrite !land_mask by lia. rewrite !Z.shiftr_div_pow2 by lia.
  split; [lia|].
  replace (((size * 2 ^ 8 + idx) * 2 ^ 44 + b) / 2 ^ 44) with (size * 2 ^ 8 + idx) by (Z.to_euclidean_division_equations; lia).
  replace (((size * 2 ^ 8 + idx) * 2 ^ 44 + b) / 2 ^ 52) with size by (Z.to_euclidean_division_equations; lia).
  split_and!; [|Z.to_euclidean_division_equations; lia..].
  replace (((size * 2 ^ 8 + idx) * 2 ^ 44 + b) mod 2 ^ 43) with (b mod 2 ^ 43) by (Z.to_euclidean_division_equations; lia).
  replace (((size * 2 ^ 8 + idx) * 2 ^ 44 + b) / 2 ^ 43 mod 2 ^ 1) with (b / 2 ^ 43) by (Z.to_euclidean_division_equations; lia).
  unfold b, doc_bits. destruct (Z.ltb_spec doc 0).
  - replace ((2 ^ 43 - doc) / 2 ^ 43) with 1 by (Z.to_euclidean_division_equations; lia). simpl.
    Z.to_euclidean_division_equations; lia.
  - rewrite Z.div_small, Z.mod_small by lia. done.
Qed.

Lemma GenEntryID_arith c ex : 0 <= c < 2 ^ 60 -> GenEntryID c ex = c * 16 + (if ex then 0 else 1).
Proof.
  intros Hc. unfold GenEntryID. rewrite Z.shiftl_mul_pow2 by lia. change (2 ^ 4) with 16. rewrite u64_id by lia.
  destruct ex; [lia|]. replace (c * 16) with (Z.shiftl c 4) at 1 by (rewrite Z.shiftl_mul_pow2; lia). rewrite lor_high_low; lia.
Qed.

Lemma entry_fields c ex :
  0 <= c < 2 ^ 60 -> GetConjunctionId (GenEntryID c ex) = c /\ IsExclude (GenEntryID c ex) = ex.
Proof.
  intros Hc. rewrite GenEntryID_arith by done. unfold GetConjunctionId, IsExclude, IsInclude.
  rewrite Z.shiftr_div_pow2 by lia. rewrite (land_mask _ 1) by lia.
  split; [destruct ex; Z.to_euclidean_division_equations; lia|].
  replace ((c * 16 + (if ex then 0 else 1)) mod 2 ^ 1) with (if ex then 0 else 1) by (destruct ex; Z.to_euclidean_division_equations; lia).
  by destruct ex.
Qed.

(** Ids round-trip and order: for every document id of 43 bits and sign, the document, the
    index and the size of a conjunction and the flag of an entry are read back from the
    entry id; entries of smaller conjunctions come first, and the exclude entry of a
    conjunction comes right before its include entry. *)
Theorem entry_id_roundtrip doc idx size ex :
  - 2 ^ 43 < doc < 2 ^ 43 -> 0 <= idx < 256 -> 0 <= size < 256 ->
  let e := GenEntryID (GenConjID doc idx size) ex in
  GetDocID e = doc /\ GetIndexInDoc (GetConjunctionId e) = idx /\ GetConjSize e = size /\ IsExclude e = ex /\
  GenEntryID (GenConjID doc idx size) true + 1 = GenEntryID (GenConjID doc idx size) false /\
  (forall doc' idx' size' ex', - 2 ^ 43 < doc' < 2 ^ 43 -> 0 <= idx' < 256 -> size < size' < 256 ->
    e < GenEntryID (GenConjID doc' idx' size') ex').
Proof.
  intros Hd Hi Hs e. destruct (conj_fields doc idx size Hd Hi Hs) as (Hc & H1 & H2 & H3).
  destruct (entry_fields _ ex Hc) as [He Hx]. unfold e, GetDocID, GetConjSize. rewrite He, Hx. split_and!; try done.
  - rewrite !GenEntryID_arith by done. lia.
  - intros doc' idx' size' ex' Hd' Hi' Hs'. destruct (conj_fields doc' idx' size' Hd' Hi' ltac:(lia)) as (Hc' & _).
    rewrite !GenEntryID_arith by done. rewrite !GenConjID_arith by lia. unfold doc_bits.
    destruct ex, ex', (Z.ltb_spec doc 0), (Z.ltb_spec doc' 0); lia.
Qed.

Lemma entry_id_roundtrip_witness :
  let e := GenEntryID (GenConjID (-5) 3 2) true in
  GetDocID e = -5 /\ GetIndexInDoc (GetConjunctionId e) = 3 /\ GetConjSize e = 2 /\ IsExclude e = true /\
  GenEntryID (GenConjID (-5) 3 2) true + 1 = GenEntryID (GenConjID (-5) 3 2) false /\
  (forall doc' idx' size' ex', - 2 ^ 43 < doc' < 2 ^ 43 -> 0 <= idx' < 256 -> 2 < size' < 256 ->
    e < GenEntryID (GenConjID doc' idx' size') ex').
Proof. apply (entry_id_roundtrip (-5) 3 2 true); lia. Defined.
End BeId.

(** ** Cursors *)
Module BeCursor.
Import BeId.

Definition linear_skip_distance : Z := 64.

Record EntriesCursor := mkCursor { index_ : Z; id_list_ : list Z }.

Definition EntriesCursor_new (ids : list Z) : EntriesCursor := mkCursor 0 ids.
Definition size_ (c : EntriesCursor) : Z := zlen (id_list_ c).
Definition set_index (i : Z) (c : EntriesCursor) : EntriesCursor := mkCursor i (id_list_ c).

Definition ReachEnd (c : EntriesCursor) : bool := size_ c <=? index_ c.

Definition GetCurEntryID (c : EntriesCursor) : Z :=
  if index_ c <? size_ c then nth (Z.to_nat (index_ c)) (id_list_ c) 0 else NULLENTRY.

(** The [while] loops of the linear skips, over the entries from [index_] on. *)
Fixpoint advance (below : Z -> bool) (rest : list Z) (index : Z) : Z :=
  match rest with
  | x :: rest' => if below x then advance below rest' (index + 1) else index
  | [] => index
  end.

Definition linear (below : Z -> bool) (c : EntriesCursor) : EntriesCursor :=
  set_index (advance below (zdrop (index_ c) (id_list_ c)) (index_ c)) c.

Definition LinearSkipTo (id : Z) (c : EntriesCursor) : EntriesCursor := linear (fun x => x <? id) c.
Definition LinearSkip (id : Z) (c : EntriesCursor) : EntriesCursor := linear (fun x => x <=? id) c.

(** The loop of [Skip] and [SkipTo], which differ in which entries they leave behind. *)
Fixpoint skip_loop (fuel : nat) (below : Z -> bool) (right_idx : Z) (c : EntriesCursor) : option EntriesCursor :=
  match fuel with
  | O => None
  | S fuel' =>
      if index_ c <? right_idx then
        if i32 (right_idx - index_ c) <? linear_skip_distance then Some (linear below c)
        else
          let mid := Z.shiftr (i32 (index_ c + right_idx)) 1 in
          x ← id_list_ c !! Z.to_nat mid;
          let '(index, right_idx) := if below x then (mid + 1, right_idx) else (index_ c, mid) in
          let c := set_index index c in
          if size_ c <=? index then Some c
          else
            y ← id_list_ c !! Z.to_nat index;
            if below y then skip_loop fuel' below right_idx c else Some c
      else Some c
  end.

(** The distance to [right_idx] shrinks at every turn: the length is enough fuel. *)
Definition Skip (id : Z) (c : EntriesCursor) : option EntriesCursor :=
  skip_loop (S (length (id_list_ c))) (fun x => x <=? id) (i32 (size_ c)) c.
Definition SkipTo (id : Z) (c : EntriesCursor) : option EntriesCursor :=
  skip_loop (S (length (id_list_ c))) (fun x => x <? id) (i32 (size_ c)) c.

(** *** The binary search is the linear scan *)

Definition ordered (l : list Z) : Prop :=
  forall i j x y, (i <= j)%nat -> l !! i = Some x -> l !! j = Some y -> x <= y.

(** Everything before an entry that is left behind is left behind. *)
Definition downward (below : Z -> bool) : Prop := forall x y, x <= y -> below y = true -> below x = true.

Lemma advance_shift below rest i : advance below rest i = i + advance below rest 0.
Proof.
  revert i. induction rest as [|x rest IH]; intros i; simpl; [lia|]. destruct (below x); [|lia].
  rewrite (IH (i + 1)), (IH (0 + 1)). lia.
Qed.

Lemma advance_range below rest : 0 <= advance below rest 0 <= zlen rest.
Proof.
  induction rest as [|x rest IH]; simpl; [lia|]. destruct (below x); [|lia]. rewrite advance_shift. lia.
Qed.

(** Starting after entries that are left behind changes nothing. *)
Lemma linear_skip_prefix below c j :
  0 <= index_ c <= j -> j <= size_ c ->
  (forall i x, index_ c <= Z.of_nat i < j -> id_list_ c !! i = Some x -> below x = true) ->
  linear below (set_index j c) = linear below c.
Proof.
  intros Hi Hj Hb. unfold linear, set_index. simpl. f_equal. destruct c as [i l]. unfold size_ in Hj. simpl in *.
  remember (Z.to_nat (j - i)) as n eqn:Hn. revert i Hi Hb Hn. induction n as [|n IH]; intros i Hi Hb Hn.
  - by replace j with i by lia.
  - unfold zdrop at 2. destruct (drop (Z.to_nat i) l) as [|x rest] eqn:E.
    { apply (f_equal (@length Z)) in E. rewrite length_drop in E. simpl in E. lia. }
    assert (Hx : l !! Z.to_nat i = Some x).
    { rewrite <- (Nat.add_0_r (Z.to_nat i)), <- lookup_drop, E. done. }
    simpl. rewrite (Hb (Z.to_nat i) x) by (done || lia).
    replace rest with (zdrop (i + 1) l).
    + apply IH; [lia | | lia]. intros k y Hk. apply Hb. lia.
    + unfold zdrop. replace (Z.to_nat (i + 1)) with (Z.to_nat i + 1)%nat by lia. rewrite <- drop_drop, E. done.
Qed.

(** A scan that starts on an entry that is kept, or at the end, stays. *)
Lemma linear_stays below c :
  0 <= index_ c -> (forall x, id_list_ c !! Z.to_nat (index_ c) = Some x -> below x = false) -> linear below c = c.
Proof.
  intros Hi Hb. unfold linear, set_index. destruct c as [i l]. simpl in *. f_equal. unfold zdrop.
  destruct (drop (Z.to_nat i) l) as [|x rest] eqn:E; [done|]. simpl. rewrite Hb; [done|].
  rewrite <- (Nat.add_0_r (Z.to_nat i)), <- lookup_drop, E. done.
Qed.

Lemma skip_loop_linear fuel below right c :
  ordered (id_list_ c) -> downward below -> size_ c < 2 ^ 30 ->
  0 <= index_ c -> right <= size_ c -> index_ c <= right ->
  (forall x, id_list_ c !! Z.to_nat right = Some x -> below x = false) ->
  right - index_ c < Z.of_nat fuel -> skip_loop fuel below right c = Some (linear below c).
Proof.
  intros Ho Hd Hs. revert right c Ho Hs. induction fuel as [|fuel IH]; intros right c Ho Hs Hi Hr Hir Hb Hf; [lia|].
  cbn [skip_loop]. destruct (Z.ltb_spec (index_ c) right) as [Hlt|Hge].
  2: { rewrite linear_stays; [done | done |]. by replace (index_ c) with right by lia. }
  rewrite (i32_id (right - index_ c)) by lia. destruct (_ <? linear_skip_distance); [done|].
  rewrite (i32_id (index_ c + right)) by lia. rewrite Z.shiftr_div_pow2 by lia. set (mid := (index_ c + right) / 2 ^ 1).
  assert (Hmid : index_ c <= mid < right) by (unfold mid; Z.to_euclidean_division_equations; lia).
  destruct (lookup_lt_is_Some_2 (id_list_ c) (Z.to_nat mid)) as [x Hx]; [unfold size_ in *; lia|].
  rewrite Hx. cbn [mbind option_bind]. destruct (below x) eqn:Hbx.
  - set (c' := set_index (mid + 1) c). assert (Hl : linear below c' = linear below c).
    { apply linear_skip_prefix; [lia | lia |]. intros i y Hiy Hy. eapply Hd, Hbx. eapply Ho, Hx; [|exact Hy]. lia. }
    destruct (Z.leb_spec (size_ c') (mid + 1)) as [Hend|Hmore].
    + rewrite <- Hl, linear_stays; [done | simpl; lia |]. intros y Hy. apply lookup_lt_Some in Hy. unfold size_, c' in *. simpl in *. lia.
    + destruct (lookup_lt_is_Some_2 (id_list_ c') (Z.to_nat (mid + 1))) as [y Hy]; [unfold size_ in *; lia|].
      rewrite Hy. cbn [mbind option_bind]. destruct (below y) eqn:Hby.
      * rewrite <- Hl. apply IH; unfold c'; simpl; try done; lia.
      * rewrite <- Hl, linear_stays; [done | simpl; lia |]. simpl. intros z Hz. simpl in Hy. congruence.
  - set (c' := set_index (index_ c) c). assert (Hc' : c' = c) by (by destruct c). rewrite Hc'.
    destruct (Z.leb_spec (size_ c) (index_ c)) as [Hend|Hmore]; [lia|].
    destruct (lookup_lt_is_Some_2 (id_list_ c) (Z.to_nat (index_ c))) as [y Hy]; [unfold size_ in *; lia|].
    rewrite Hy. cbn [mbind option_bind]. destruct (below y) eqn:Hby.
    + apply IH; try done; try lia. intros z Hz. congruence.
    + rewrite linear_stays; [done | done |]. intros z Hz. congruence.
Qed.

Definition cursor_ok (c : EntriesCursor) : Prop := ordered (id_list_ c) /\ size_ c < 2 ^ 30 /\ 0 <= index_ c <= size_ c.

Lemma Skip_linear id c : cursor_ok c -> Skip id c = Some (LinearSkip id c).
Proof.
  intros (Ho & Hs & Hi). unfold Skip. rewrite i32_id by (unfold size_ in *; lia). apply skip_loop_linear; unfold size_ in *; try done; try lia.
  - intros x y Hxy Hy%Z.leb_le. apply Z.leb_le. lia.
  - intros x Hx. apply lookup_lt_Some in Hx. lia.
Qed.

Lemma SkipTo_linear id c : cursor_ok c -> SkipTo id c = Some (LinearSkipTo id c).
Proof.
  intros (Ho & Hs & Hi). unfold SkipTo. rewrite i32_id by (unfold size_ in *; lia). apply skip_loop_linear; unfold size_ in *; try done; try lia.
  - intros x y Hxy Hy%Z.ltb_lt. apply Z.ltb_lt. lia.
  - intros x Hx. apply lookup_lt_Some in Hx. lia.
Qed.

(** On a sorted posting list of fewer than [2^30] entries the binary search reads only
    entries of the list, terminates, and stops where the linear scan does. *)
Theorem cursor_skip_is_linear_scan id c :
  cursor_ok c -> Skip id c = Some (LinearSkip id c) /\ SkipTo id c = Some (LinearSkipTo id c).
Proof. intros H. split; [by apply Skip_linear | by apply SkipTo_linear]. Qed.

(** Two hundred even entries, and a skip to 131. *)
Definition evens : EntriesCursor := mkCursor 3 (map (fun i => 2 * Z.of_nat i) (seq 0 200)).

Lemma ordered_check l : forallb (fun i => nth i l 0 <=? nth (S i) l 0) (seq 0 (pred (length l))) = true -> ordered l.
Proof.
  rewrite forallb_forall. intros H. assert (Hs : forall n i x y, l !! i = Some x -> l !! (i + n)%nat = Some y -> x <= y).
  { induction n as [|n IH]; intros i x y Hx Hy; [rewrite Nat.add_0_r, Hx in Hy; injection Hy as ->; lia|].
    pose proof (lookup_lt_Some _ _ _ Hy) as Hlt. destruct (lookup_lt_is_Some_2 l (i + n)) as [z Hz]; [lia|].
    pose proof (IH i x z Hx Hz). specialize (H (i + n)%nat ltac:(apply in_seq; lia)). apply Z.leb_le in H.
    rewrite (nth_lookup_Some l (i + n) 0 z Hz), (nth_lookup_Some l (S (i + n)) 0 y) in H; [lia|].
    by replace (S (i + n)) with (i + S n)%nat by lia. }
  intros i j x y Hij Hx Hy. apply (Hs (j - i)%nat i); [done|]. by replace (i + (j - i))%nat with j by lia.
Qed.

Lemma cursor_skip_is_linear_scan_witness :
  Skip 131 evens = Some (LinearSkip 131 evens) /\ SkipTo 131 evens = Some (LinearSkipTo 131 evens).
Proof.
  apply (cursor_skip_is_linear_scan 131 evens). split; [apply ordered_check; vm_compute; reflexivity|].
  split; vm_compute; [reflexivity | split; discriminate].
Defined.

(** *** FieldCursor *)

(** [current_] is a position in [cursors_]. *)
Record FieldCursor := mkField { cursors_ : list EntriesCursor; current_ : nat; current_id_ : Z }.

Definition FieldCursor_new : FieldCursor := mkField [] 0 0.

Definition AddEntries (entrylist : list Z) (f : FieldCursor) : FieldCursor :=
  mkField (cursors_ f ++ [EntriesCursor_new entrylist]) (current_ f) (current_id_ f).

(** The first cursor with the smallest entry, from position [i] on. *)
Fixpoint pick (cs : list EntriesCursor) (i : nat) (best : nat) (min_id : Z) : nat * Z :=
  match cs with
  | [] => (best, min_id)
  | c :: cs' => let id := GetCurEntryID c in
                if id <? min_id then pick cs' (S i) i id else pick cs' (S i) best min_id
  end.

Definition Initialize (f : FieldCursor) : option FieldCursor :=
  c0 ← cursors_ f !! 0%nat;
  let '(cur, id) := pick (cursors_ f) 0 0 (GetCurEntryID c0) in
  Some (mkField (cursors_ f) cur id).

Definition Field_ReachEnd (f : FieldCursor) : bool := current_id_ f =? NULLENTRY.
Definition GetCurConjID (f : FieldCursor) : Z := GetConjunctionId (current_id_ f).

(** [Skip] and [SkipTo] move every cursor, then look at the one with the smallest entry. *)
Definition field_move (move : EntriesCursor -> option EntriesCursor) (f : FieldCursor) : option FieldCursor :=
  cs ← mapM move (cursors_ f);
  let cur := (pick cs 0 (current_ f) NULLENTRY).1 in
  c ← cs !! cur;
  Some (mkField cs cur (GetCurEntryID c)).

Definition Field_Skip (id : Z) (f : FieldCursor) : option FieldCursor := field_move (Skip id) f.
Definition Field_SkipTo (id : Z) (f : FieldCursor) : option FieldCursor := field_move (SkipTo id) f.

(** The entries a cursor has not passed. *)
Definition rest (c : EntriesCursor) : list Z := zdrop (index_ c) (id_list_ c).
Definition remaining (f : FieldCursor) : list Z := concat (map rest (cursors_ f)).

Definition below_null (l : list Z) : Prop := Forall (fun e => 0 <= e < NULLENTRY) l.

Definition field_ok (f : FieldCursor) : Prop :=
  Forall (fun c => cursor_ok c /\ below_null (id_list_ c)) (cursors_ f) /\ (current_ f < length (cursors_ f))%nat.

(** The current entry is the smallest that remains, [NULLENTRY] when none does. *)
Definition at_min (f : FieldCursor) : Prop :=
  (remaining f = [] /\ current_id_ f = NULLENTRY) \/
  (current_id_ f ∈ remaining f /\ Forall (fun x => current_id_ f <= x) (remaining f)).

Lemma rest_cur c : cursor_ok c -> below_null (id_list_ c) ->
  match rest c with
  | [] => GetCurEntryID c = NULLENTRY
  | x :: _ => GetCurEntryID c = x /\ x < NULLENTRY /\ Forall (fun y => x <= y) (rest c)
  end.
Proof.
  intros (Ho & Hs & Hi) Hb. unfold rest, GetCurEntryID, zdrop, size_ in *. destruct (drop (Z.to_nat (index_ c)) (id_list_ c)) as [|x l] eqn:E.
  - apply (f_equal (@length Z)) in E. rewrite length_drop in E. simpl in E.
    destruct (Z.ltb_spec (index_ c) (zlen (id_list_ c))); [lia | done].
  - assert (Hx : id_list_ c !! Z.to_nat (index_ c) = Some x)
      by (rewrite <- (Nat.add_0_r (Z.to_nat _)), <- lookup_drop, E; done).
    pose proof (lookup_lt_Some _ _ _ Hx). rewrite (proj2 (Z.ltb_lt _ _)) by lia. split_and!.
    + by apply nth_lookup_Some.
    + unfold below_null in Hb. rewrite Forall_lookup in Hb. apply (Hb _ _ Hx).
    + apply Forall_lookup. intros k y Hy. rewrite <- E, lookup_drop in Hy. eapply Ho; [|exact Hx | exact Hy]. lia.
Qed.

Lemma advance_drop below l :
  exists p, l = p ++ drop (Z.to_nat (advance below l 0)) l /\ Forall (fun x => below x = true) p /\
    match drop (Z.to_nat (advance below l 0)) l with [] => True | y :: _ => below y = false end.
Proof.
  induction l as [|x l IH]; [by exists []|]. simpl. destruct (below x) eqn:E; [|exists []; split_and!; try done; by simpl].
  rewrite advance_shift. pose proof (advance_range below l). replace (Z.to_nat (0 + 1 + advance below l 0)) with (S (Z.to_nat (advance below l 0))) by lia.
  destruct IH as (p & Hp & Hall & Hm). exists (x :: p). simpl. split_and!; [by f_equal | by constructor | done].
Qed.

(** What a skip leaves: the entries that are not below, in place. *)
Lemma linear_rest below c :
  cursor_ok c -> downward below ->
  cursor_ok (linear below c) /\ exists p, rest c = p ++ rest (linear below c) /\ Forall (fun x => below x = true) p /\
    Forall (fun x => below x = false) (rest (linear below c)).
Proof.
  intros (Ho & Hs & Hi) Hd. unfold linear. rewrite advance_shift. pose proof (advance_range below (zdrop (index_ c) (id_list_ c))) as Hr.
  assert (Hlen : zlen (zdrop (index_ c) (id_list_ c)) = size_ c - index_ c) by (unfold size_ in *; by rewrite zlen_zdrop).
  split; [split_and!; simpl; unfold size_ in *; simpl; done || lia|].
  destruct (advance_drop below (rest c)) as (p & Hp & Hall & Hm). exists p.
  assert (E : rest (set_index (index_ c + advance below (zdrop (index_ c) (id_list_ c)) 0) c) = drop (Z.to_nat (advance below (rest c) 0)) (rest c)).
  { unfold rest, zdrop, set_index. simpl. rewrite drop_drop. f_equal. unfold zdrop in Hr. lia. }
  rewrite E. split_and!; try done. set (q := drop _ _) in *. destruct q as [|y q'] eqn:Eq; [done|].
  assert (Hrest : forall j z, (y :: q') !! j = Some z -> y <= z).
  { intros j z Hz. assert (H0 : rest c !! length p = Some y) by (rewrite Hp, lookup_app_r, Nat.sub_diag by done; done).
    assert (H1 : rest c !! (length p + j)%nat = Some z) by (rewrite Hp, lookup_app_r by lia; by replace (length p + j - length p)%nat with j by lia).
    unfold rest, zdrop in H0, H1. rewrite !lookup_drop in H0, H1. eapply Ho; [|exact H0 | exact H1]. lia. }
  apply Forall_lookup. intros j z Hz. destruct (below z) eqn:Ez; [|done]. rewrite (Hd y z) in Hm; [done | by eapply Hrest | done].
Qed.

Lemma pick_spec cs i best m :
  let r := pick cs i best m in
  r.2 <= m /\ Forall (fun c => r.2 <= GetCurEntryID c) cs /\
  ((r.1 = best /\ r.2 = m) \/ exists k c, r.1 = (i + k)%nat /\ cs !! k = Some c /\ GetCurEntryID c = r.2 /\ r.2 < m).
Proof.
  revert i best m. induction cs as [|c cs IH]; intros i best m; simpl; [split_and!; [lia | constructor | by left]|].
  destruct (Z.ltb_spec (GetCurEntryID c) m) as [Hlt|Hge].
  - destruct (IH (S i) i (GetCurEntryID c)) as (H1 & H2 & H3). split_and!; [lia | by constructor |]. right.
    destruct H3 as [[-> ->]|(k & c' & -> & Hk & Hc & Hm)]; [exists 0%nat, c | exists (S k), c']; split_and!; try done; lia.
  - destruct (IH (S i) best m) as (H1 & H2 & H3). split_and!; [lia | constructor; [lia | done] |].
    destruct H3 as [[-> ->]|(k & c' & -> & Hk & Hc & Hm)]; [by left | right; exists (S k), c']; split_and!; try done; lia.
Qed.

(** A field whose current cursor has the smallest entry is at its minimum. *)
Lemma at_min_intro f c :
  field_ok f -> cursors_ f !! current_ f = Some c -> current_id_ f = GetCurEntryID c ->
  Forall (fun c' => current_id_ f <= GetCurEntryID c') (cursors_ f) -> at_min f.
Proof.
  intros [Hall _] Hc Hid Hmin. unfold at_min, remaining. rewrite Forall_forall in Hall, Hmin.
  assert (Hr : forall c', In c' (cursors_ f) -> forall x, x ∈ rest c' -> current_id_ f <= x).
  { intros c' Hc' x Hx. destruct (Hall c' Hc') as [Hok Hb]. pose proof (rest_cur c' Hok Hb) as H. pose proof (Hmin c' Hc').
    destruct (rest c') as [|y l]; [by apply not_elem_of_nil in Hx|]. destruct H as (Hy & _ & Hl). rewrite Hy in *.
    rewrite Forall_forall in Hl. apply list_elem_of_In in Hx. specialize (Hl x Hx). simpl in *. lia. }
  assert (Hin : In c (cursors_ f)) by (by eapply list_elem_of_In, list_elem_of_lookup_2).
  destruct (Hall c Hin) as [Hok Hb]. pose proof (rest_cur c Hok Hb) as H. destruct (rest c) as [|y l] eqn:E.
  - left. rewrite Hid, H. split; [|done]. assert (Hnil : forall c', In c' (cursors_ f) -> rest c' = []).
    { intros c' Hc'. destruct (Hall c' Hc') as [Hok' Hb']. pose proof (rest_cur c' Hok' Hb') as H'. pose proof (Hmin c' Hc') as Hm.
      rewrite Hid, H in Hm. destruct (rest c') as [|z l']; [done|]. destruct H' as (Hz & Hlt & _). rewrite Hz in Hm. lia. }
    clear -Hnil. induction (cursors_ f) as [|c' cs IH]; [done|]. simpl. rewrite Hnil by (by left). simpl. apply IH. intros c2 Hc2. apply Hnil. by right.
  - right. destruct H as (Hy & _ & _). split.
    + rewrite Hid, Hy. apply list_elem_of_In, in_concat. exists (rest c). split; [by apply in_map | rewrite E; by left].
    + apply Forall_forall. intros x Hx. apply in_concat in Hx as (l' & Hl' & Hx). apply in_map_iff in Hl' as (c' & <- & Hc').
      eapply Hr; [done | by apply list_elem_of_In].
Qed.

Definition rests (cs : list EntriesCursor) : list Z := concat (map rest cs).

Lemma rests_linear below cs :
  downward below -> Forall (fun c => cursor_ok c /\ below_null (id_list_ c)) cs ->
  Forall (fun c => cursor_ok c /\ below_null (id_list_ c)) (map (linear below) cs) /\
  (forall x, x ∈ rests (map (linear below) cs) <-> x ∈ rests cs /\ below x = false) /\
  (length (rests (map (linear below) cs)) <= length (rests cs))%nat /\
  ((exists x, x ∈ rests cs /\ below x = true) -> (length (rests (map (linear below) cs)) < length (rests cs))%nat).
Proof.
  intros Hd. induction 1 as [|c cs [Hok Hb] Hall IH].
  - split_and!; simpl; [constructor | | lia |]; intros; [|by destruct H as (? & ?%not_elem_of_nil & _)].
    rewrite elem_of_nil. naive_solver.
  - destruct IH as (H1 & H2 & H3 & H4). destruct (linear_rest below c Hok Hd) as (Hok' & p & Hp & Hpb & Hq).
    unfold rests in *. simpl. rewrite Hp, !length_app. rewrite Forall_forall in Hpb, Hq. split_and!.
    + constructor; [|done]. split; [done | exact Hb].
    + intros x. rewrite !elem_of_app, H2. split.
      * intros [Hx|[Hx Hx']]; [|naive_solver]. split; [by left; right|]. by apply Hq, list_elem_of_In.
      * intros [[[Hx|Hx]|Hx] Hx']; [|by left | right; done]. apply list_elem_of_In, Hpb in Hx. congruence.
    + lia.
    + intros (x & Hx & Hx'). rewrite !elem_of_app in Hx. destruct Hx as [[Hx|Hx]|Hx].
      * destruct p; [by apply not_elem_of_nil in Hx | simpl; lia].
      * apply list_elem_of_In, Hq in Hx. congruence.
      * specialize (H4 (ex_intro _ x (conj Hx Hx'))). lia.
Qed.

Lemma field_move_spec below move f :
  (forall c, cursor_ok c -> move c = Some (linear below c)) -> downward below -> field_ok f ->
  exists f', field_move move f = Some f' /\ field_ok f' /\ at_min f' /\
    (forall x, x ∈ remaining f' <-> x ∈ remaining f /\ below x = false) /\
    (length (remaining f') <= length (remaining f))%nat /\
    ((exists x, x ∈ remaining f /\ below x = true) -> (length (remaining f') < length (remaining f))%nat).
Proof.
  intros Hm Hd [Hall Hcur]. destruct (rests_linear below (cursors_ f) Hd Hall) as (H1 & H2 & H3 & H4).
  unfold field_move. assert (E : mapM move (cursors_ f) = Some (map (linear below) (cursors_ f))).
  { apply mapM_Some, Forall2_fmap_r, Forall_Forall2_diag. eapply Forall_impl; [|exact Hall]. intros c [Hc _]. by apply Hm. }
  rewrite E. cbn [mbind option_bind]. set (cs := map (linear below) (cursors_ f)) in *.
  pose proof (pick_spec cs 0 (current_ f) NULLENTRY) as Hp. destruct (pick cs 0 (current_ f) NULLENTRY) as [cur m]. simpl in Hp |- *.
  destruct Hp as (Hle & Hmin & Hor).
  assert (Hlk : exists c, cs !! cur = Some c /\ GetCurEntryID c <= m /\ (cur < length cs)%nat).
  { destruct Hor as [[-> ->]|(k & c & -> & Hk & Hc & _)].
    - destruct (lookup_lt_is_Some_2 cs (current_ f)) as [c Hc]; [unfold cs; by rewrite length_map|]. exists c. split_and!; [done | | by eapply lookup_lt_Some].
      rewrite Forall_lookup in H1. destruct (H1 _ _ Hc) as [Hok Hb]. pose proof (rest_cur c Hok Hb) as H. destruct (rest c); [lia|]. lia.
    - exists c. simpl. split_and!; [done | lia | by eapply lookup_lt_Some]. }
  destruct Hlk as (c & Hc & Hcm & Hlt). rewrite Hc. cbn [mbind option_bind]. eexists. split; [done|].
  assert (Hfo : field_ok (mkField cs cur (GetCurEntryID c))) by (split; done). split_and!; try done.
  apply (at_min_intro _ c); try done. simpl. eapply Forall_impl; [|exact Hmin]. simpl. lia.
Qed.

Lemma Field_Skip_spec id f :
  field_ok f -> exists f', Field_Skip id f = Some f' /\ field_ok f' /\ at_min f' /\
    (forall x, x ∈ remaining f' <-> x ∈ remaining f /\ (x <=? id) = false) /\
    (length (remaining f') <= length (remaining f))%nat /\
    ((exists x, x ∈ remaining f /\ (x <=? id) = true) -> (length (remaining f') < length (remaining f))%nat).
Proof.
  apply (field_move_spec (fun x => x <=? id)); [apply Skip_linear|]. intros x y Hxy Hy%Z.leb_le. apply Z.leb_le. lia.
Qed.

Lemma Field_SkipTo_spec id f :
  field_ok f -> exists f', Field_SkipTo id f = Some f' /\ field_ok f' /\ at_min f' /\
    (forall x, x ∈ remaining f' <-> x ∈ remaining f /\ (x <? id) = false) /\
    (length (remaining f') <= length (remaining f))%nat /\
    ((exists x, x ∈ remaining f /\ (x <? id) = true) -> (length (remaining f') < length (remaining f))%nat).
Proof.
  apply (field_move_spec (fun x => x <? id)); [apply SkipTo_linear|]. intros x y Hxy Hy%Z.ltb_lt. apply Z.ltb_lt. lia.
Qed.

(** A new cursor over posting lists. *)
Lemma Initialize_spec lists :
  lists <> [] -> Forall (fun l => ordered l /\ zlen l < 2 ^ 30 /\ below_null l) lists ->
  exists f, Initialize (mkField (map EntriesCursor_new lists) 0 0) = Some f /\ field_ok f /\ at_min f /\ remaining f = concat lists.
Proof.
  intros Hne Hall. unfold Initialize. simpl. destruct lists as [|l0 ls]; [done|]. set (cs := map EntriesCursor_new (l0 :: ls)).
  change (cs !! 0%nat) with (Some (EntriesCursor_new l0)). cbn [mbind option_bind].
  pose proof (pick_spec cs 0 0 (GetCurEntryID (EntriesCursor_new l0))) as Hp. destruct (pick cs 0 0 _) as [cur m]. simpl in Hp.
  destruct Hp as (Hle & Hmin & Hor). eexists. split; [done|].
  assert (Hfo : field_ok (mkField cs cur m)).
  { split; simpl.
    - unfold cs. apply Forall_map. eapply Forall_impl; [|exact Hall]. intros l (Ho & Hs & Hb). split; [split_and!; unfold size_; simpl; done || lia | done].
    - destruct Hor as [[-> _]|(k & c & -> & Hk & _)]; [simpl; lia | apply lookup_lt_Some in Hk; exact Hk]. }
  split_and!; [done | |].
  - destruct Hor as [[-> ->]|(k & c & -> & Hk & Hc & Hm)]; [by apply (at_min_intro _ (EntriesCursor_new l0)) | by apply (at_min_intro _ c)].
  - unfold remaining, cs. cbn [cursors_]. rewrite map_map. change (fun x => rest (EntriesCursor_new x)) with (fun x : list Z => x). by rewrite map_id.
Qed.
End BeCursor.
