(* ===== verification/BeIndexer.v ===== *)
(** * The boolean indexer: documents, posting lists, retrieval
      (components/boolean_indexer: document, parser, common_container, be_indexer,
      builder, index_scanner)

    A document is a disjunction of conjunctions of include and exclude expressions.  The
    builder writes one entry per value of each expression into posting lists, and the
    scanner merges the posting lists of a query.  [std::hash] is a parameter.
    [std::sort] of the cursors may order equal ones in any way, so it is a parameter too.
    [None] is a null pointer that is used, a failed [assert] or an access out of range. *)
From stdpp Require Import gmap sorting.
From S2P Require Import Prelude StdMap StrUtils BeCursor.
Import StdMap BeId BeCursor.

Module BeIndexer.

(** ** Documents (document.{h,cc}) *)

(** [std::set<std::string>]. *)
Abbreviation ValueContainer := (list (list Z)).

Fixpoint set_insert (v : list Z) (s : ValueContainer) : ValueContainer :=
  match s with
  | [] => [v]
  | x :: s' => if lex_ltb v x then v :: s else if lex_ltb x v then x :: set_insert v s' else s
  end.

Record AttrValues := mkAttr { name_ : list Z; values_ : ValueContainer }.

Definition AppendValues (vs : list (list Z)) (a : AttrValues) : AttrValues :=
  mkAttr (name_ a) (foldl (fun s v => set_insert v s) (values_ a) vs).
Definition SetValue (vs : list (list Z)) (a : AttrValues) : AttrValues := AppendValues vs (mkAttr (name_ a) []).
Definition AttrValues_new (name : list Z) (vs : list (list Z)) : AttrValues := AppendValues vs (mkAttr name []).

Record BooleanExpr := mkExpr { attr_ : AttrValues; exclude_ : bool }.

Record Conjunction := mkConj { csize_ : Z; con_id_ : Z; assigns_ : list (list Z * BooleanExpr) }.

Definition Conjunction_new : Conjunction := mkConj 0 0 [].
Definition SetConjunctionId (id : Z) (c : Conjunction) : Conjunction := mkConj (csize_ c) id (assigns_ c).

Definition AddExpression (e : BooleanExpr) (c : Conjunction) : option Conjunction :=
  match map_find lex_ltb (name_ (attr_ e)) (assigns_ c) with
  | Some _ => None
  | None => Some (mkConj (csize_ c +64 (if exclude_ e then 0 else 1)) (con_id_ c)
                    (map_insert lex_ltb (name_ (attr_ e)) e (assigns_ c)))
  end.

Definition Include (field : list Z) (vs : list (list Z)) (c : Conjunction) : option Conjunction :=
  AddExpression (mkExpr (AttrValues_new field vs) false) c.
Definition Exclude (field : list Z) (vs : list (list Z)) (c : Conjunction) : option Conjunction :=
  AddExpression (mkExpr (AttrValues_new field vs) true) c.

Record Document := mkDoc { doc_id_ : Z; conjunctions_ : list Conjunction }.

Definition Document_new (doc_id : Z) : Document := mkDoc doc_id [].

(** The index and the size are narrowed to eight bits by the call. *)
Definition AddConjunction (c : Conjunction) (d : Document) : Document :=
  let conj_id := GenConjID (doc_id_ d) (u8 (zlen (conjunctions_ d))) (u8 (csize_ c)) in
  mkDoc (doc_id_ d) (conjunctions_ d ++ [SetConjunctionId conj_id c]).

(** ** Parsers (parser/) *)

Record Token := mkToken { fail_ : bool; int64s : list Z }.

Inductive ExprParser := NumberParser | HasherParser.

Section Indexer.
Variable hasher_ : list Z -> Z.
Variable sort_cursors : list FieldCursor -> list FieldCursor.

Fixpoint parse_numbers (vs : list (list Z)) (value : Z) (acc : list Z) : Token :=
  match vs with
  | [] => mkToken false acc
  | v :: vs' =>
      match v with
      | [] => parse_numbers vs' value acc
      | _ => let '(ok, value) := StrUtils.ToInt64 v value in
             if ok : bool then parse_numbers vs' value (acc ++ [value]) else mkToken true acc
      end
  end.

Fixpoint parse_hashes (vs : list (list Z)) (acc : list Z) : Token :=
  match vs with
  | [] => mkToken false acc
  | v :: vs' => match v with [] => parse_hashes vs' acc | _ => parse_hashes vs' (acc ++ [i64 (hasher_ v)]) end
  end.

Definition ParseQueryAssign (p : ExprParser) (vs : ValueContainer) : Token :=
  match p with NumberParser => parse_numbers vs 0 [] | HasherParser => parse_hashes vs [] end.
Definition ParseIndexing (p : ExprParser) (vs : ValueContainer) : Token := ParseQueryAssign p vs.

(** ** Posting lists (posting_list.h, common_container.{h,cc}) *)

Record FieldMeta := mkMeta { fm_name : list Z; parser : ExprParser }.

Record CommonContainer := mkContainer { max_len_ : Z; sum_len_ : Z; postings : gmap (list Z * Z) (list Z) }.

Definition CommonContainer_new : CommonContainer := mkContainer 0 0 ∅.

Definition IndexingToken (meta : FieldMeta) (eid : Z) (token : Token) (c : CommonContainer) : bool * CommonContainer :=
  if fail_ token then (false, c)
  else (true, mkContainer (max_len_ c) (sum_len_ c)
          (foldl (fun m value => <[(fm_name meta, value) := default [] (m !! (fm_name meta, value)) ++ [eid]]> m) (postings c) (int64s token))).

Definition RetrieveEntries (meta : FieldMeta) (token : Token) (c : CommonContainer) : list (list Z) :=
  omap (fun value => postings c !! (fm_name meta, value)) (int64s token).

Definition CompileEntries (c : CommonContainer) : bool * CommonContainer :=
  let '(sum, mx) := foldl (fun '(sum, mx) e => (i32 (sum + zlen e), if mx <? zlen e then i32 (zlen e) else mx))
                      (sum_len_ c, max_len_ c) (map snd (map_to_list (postings c))) in
  (true, mkContainer mx sum (merge_sort Z.le <$> postings c)).

(** ** The index and its builder (be_indexer.{h,cc}, builder/) *)

Definition default_field_key : list Z := str "___default___".

Record BooleanIndexer := mkIndexer {
  wildcard_list_ : list Z;
  field_meta_ : list (list Z * FieldMeta);
  containers_ : list (list Z * CommonContainer);
}.

Definition BooleanIndexer_new : BooleanIndexer := mkIndexer [] [] [(default_field_key, CommonContainer_new)].

Definition AddWildcardEntry (conj_id : Z) (x : BooleanIndexer) : BooleanIndexer :=
  mkIndexer (wildcard_list_ x ++ [GenEntryID conj_id false]) (field_meta_ x) (containers_ x).

Definition CompleteIndex (x : BooleanIndexer) : bool * BooleanIndexer :=
  (true, mkIndexer (merge_sort Z.le (wildcard_list_ x)) (field_meta_ x) (map (fun kc => (kc.1, (CompileEntries kc.2).2)) (containers_ x))).

Definition GetMeta (field : list Z) (x : BooleanIndexer) : option FieldMeta := map_find lex_ltb field (field_meta_ x).

Definition SetMeta (field : list Z) (meta : FieldMeta) (x : BooleanIndexer) : BooleanIndexer :=
  mkIndexer (wildcard_list_ x) (map_insert lex_ltb field meta (field_meta_ x)) (containers_ x).

(** The key of the container of a field, and the container. *)
Definition GetContainer (field : list Z) (x : BooleanIndexer) : option (list Z * CommonContainer) :=
  match map_find lex_ltb field (containers_ x) with
  | Some c => Some (field, c)
  | None => c ← map_find lex_ltb default_field_key (containers_ x); Some (default_field_key, c)
  end.

Definition put_container (key : list Z) (c : CommonContainer) (x : BooleanIndexer) : BooleanIndexer :=
  mkIndexer (wildcard_list_ x) (field_meta_ x) (map_assign lex_ltb key c (containers_ x)).

Definition GetFieldMeta (field : list Z) (x : BooleanIndexer) : FieldMeta * BooleanIndexer :=
  match GetMeta field x with
  | Some meta => (meta, x)
  | None => let meta := mkMeta field HasherParser in (meta, SetMeta field meta x)
  end.

(** One expression of a conjunction; the flag says that the document is abandoned. *)
Definition index_expr (conj_id : Z) (field : list Z) (e : BooleanExpr) (x : BooleanIndexer) : option (bool * BooleanIndexer) :=
  let eid := GenEntryID conj_id (exclude_ e) in
  let '(meta, x) := GetFieldMeta field x in
  kc ← GetContainer field x;
  let token := ParseIndexing (parser meta) (values_ (attr_ e)) in
  if fail_ token then Some (true, x)
  else Some (false, put_container kc.1 (IndexingToken meta eid token kc.2).2 x).

Fixpoint index_exprs (conj_id : Z) (es : list (list Z * BooleanExpr)) (x : BooleanIndexer) : option (bool * BooleanIndexer) :=
  match es with
  | [] => Some (false, x)
  | (field, e) :: es' =>
      r ← index_expr conj_id field e x;
      if r.1 : bool then Some r else index_exprs conj_id es' r.2
  end.

Fixpoint index_conjunctions (cs : list Conjunction) (x : BooleanIndexer) : option BooleanIndexer :=
  match cs with
  | [] => Some x
  | c :: cs' =>
      let x := if csize_ c =? 0 then AddWildcardEntry (con_id_ c) x else x in
      r ← index_exprs (con_id_ c) (assigns_ c) x;
      if r.1 : bool then Some r.2 else index_conjunctions cs' r.2
  end.

Definition AddDocument (d : Document) (x : BooleanIndexer) : option BooleanIndexer := index_conjunctions (conjunctions_ d) x.

Definition BuildIndexer (x : BooleanIndexer) : BooleanIndexer := (CompleteIndex x).2.

Definition GenWildcardCursor (x : BooleanIndexer) : option FieldCursor :=
  match wildcard_list_ x with
  | [] => None
  | _ => Some (AddEntries (wildcard_list_ x) FieldCursor_new)
  end.

(** ** The scanner (index_scanner.{h,cc}) *)

Fixpoint query_cursors (queries : list AttrValues) (x : BooleanIndexer) (acc : list FieldCursor) : option (list FieldCursor) :=
  match queries with
  | [] => Some acc
  | q :: queries' =>
      meta ← GetMeta (name_ q) x;            (* [meta->parser] before the null check *)
      kc ← GetContainer (name_ q) x;
      let token := ParseQueryAssign (parser meta) (values_ q) in
      if fail_ token then query_cursors queries' x acc
      else
        let f := foldl (fun f entries => AddEntries entries f) FieldCursor_new (RetrieveEntries meta token kc.2) in
        match cursors_ f with
        | [] => query_cursors queries' x acc
        | _ => f ← Initialize f; query_cursors queries' x (acc ++ [f])
        end
  end.

Definition init_cursors (queries : list AttrValues) (x : BooleanIndexer) : option (list FieldCursor) :=
  fs ← query_cursors queries x [];
  match GenWildcardCursor x with
  | None => Some fs
  | Some w => w ← Initialize w; Some (fs ++ [w])
  end.

(** [pop_back] while the last cursor has reached its end. *)
Fixpoint drop_ended (fs : list FieldCursor) : list FieldCursor :=
  match fs with
  | [] => []
  | f :: fs' => match drop_ended fs' with
                | [] => if Field_ReachEnd f then [] else [f]
                | l => f :: l
                end
  end.

(** Skip the cursors that stand on the conjunction, until one does not. *)
Fixpoint skip_same (conj_id next_eid : Z) (fs : list FieldCursor) : option (list FieldCursor) :=
  match fs with
  | [] => Some []
  | f :: fs' =>
      if conj_id =? GetCurConjID f then
        f ← Field_Skip next_eid f; fs' ← skip_same conj_id next_eid fs'; Some (f :: fs')
      else Some fs
  end.

(** One turn of the loop: [inl] is the final result. *)
Definition scan_step (fs : list FieldCursor) (result : list Z) : option (list Z + list FieldCursor * list Z) :=
  let fs := drop_ended (sort_cursors fs) in
  match fs with
  | [] => Some (inl result)
  | f0 :: _ =>
      let eid := current_id_ f0 in
      let conj_id := GetConjunctionId eid in
      let k := GetConjunctionSize conj_id in
      let k := if k =? 0 then 1 else k in
      if zlen fs <? k then Some (inl result)
      else
        fk ← fs !! Z.to_nat (k - 1);
        let end_eid := current_id_ fk in
        let end_conj_id := GetConjunctionId eid in
        let front := take (Z.to_nat k) fs in
        let back := drop (Z.to_nat k) fs in
        r ← (if end_conj_id =? conj_id then
               let next_eid := end_eid +64 1 in
               if IsInclude eid then Some (result ++ [GetDocID eid], next_eid, back)
               else back ← skip_same conj_id next_eid back; Some (result, next_eid, back)
             else Some (result, GenEntryID (GetConjunctionId end_eid) true, back));
        let '(result, next_eid, back) := r in
        front ← mapM (Field_SkipTo next_eid) front;
        Some (inr (front ++ back, result))
  end.

Fixpoint scan (fuel : nat) (fs : list FieldCursor) (result : list Z) : option (list Z) :=
  match fuel with
  | O => None
  | S fuel' =>
      r ← scan_step fs result;
      match r with
      | inl result => Some result
      | inr (fs, result) => scan fuel' fs result
      end
  end.

(** Every turn passes an entry: one turn per entry and one to stop are enough. *)
Definition Retrieve (queries : list AttrValues) (x : BooleanIndexer) : option (list Z) :=
  fs ← init_cursors queries x;
  scan (S (length (concat (map remaining fs)))) fs [].
End Indexer.

(** A sorting of the cursors. *)
Fixpoint insert_cursor (f : FieldCursor) (fs : list FieldCursor) : list FieldCursor :=
  match fs with
  | [] => [f]
  | g :: fs' => if current_id_ f <? current_id_ g then f :: fs else g :: insert_cursor f fs'
  end.
Definition sort_by_entry (fs : list FieldCursor) : list FieldCursor := foldr insert_cursor [] fs.

(** *** An example through the whole component *)

Definition a_hash (s : list Z) : Z := foldl (fun h b => h * 31 + b) 7 s.

Definition one_conj (id : Z) (exprs : list (list Z * list (list Z) * bool)) : option Document :=
  c ← foldl (fun c e => c ← c; AddExpression (mkExpr (AttrValues_new e.1.1 e.1.2) e.2) c) (Some Conjunction_new) exprs;
  Some (AddConjunction c (Document_new id)).

Definition example_index : option BooleanIndexer :=
  d1 ← one_conj 1 [(str "age", [str "10"], false); (str "tag", [str "a"], false)];
  d5 ← one_conj 5 [(str "age", [str "10"], false); (str "tag", [str "b"], false)];
  x ← AddDocument a_hash d1 BooleanIndexer_new;
  x ← AddDocument a_hash d5 x;
  Some (BuildIndexer x).

(** Two documents want age 10 with tag a, and age 10 with tag b; a query for age 10 and
    tag b matches the second.  The scanner returns the first: it compares the conjunction
    of the first cursor with itself instead of with that of the [k]-th one. *)
Theorem retrieve_returns_wrong_document :
  (x ← example_index; Retrieve a_hash sort_by_entry [AttrValues_new (str "age") [str "10"]; AttrValues_new (str "tag") [str "b"]] x) = Some [1].
Proof. vm_compute. reflexivity. Qed.

(** A query that names a field no document has uses a null pointer. *)
Theorem unknown_field_faults :
  (x ← example_index; Retrieve a_hash sort_by_entry [AttrValues_new (str "city") [str "10"]] x) = None.
Proof. vm_compute. reflexivity. Qed.

(** ** Termination and soundness of the scan *)
Section Scan.
Variable sort_cursors : list FieldCursor -> list FieldCursor.
Hypothesis sort_perm : forall fs, sort_cursors fs ≡ₚ fs.
Hypothesis sort_sorted : forall fs, StronglySorted (fun f g => current_id_ f <= current_id_ g) (sort_cursors fs).

Definition entries (fs : list FieldCursor) : list Z := concat (map remaining fs).

Definition fields_ok (fs : list FieldCursor) : Prop := Forall (fun f => field_ok f /\ at_min f) fs.

Lemma remaining_null f : field_ok f -> Forall (fun x => 0 <= x < NULLENTRY) (remaining f).
Proof.
  intros [Hall _]. unfold remaining. apply Forall_concat, Forall_map. eapply Forall_impl; [|exact Hall].
  intros c [_ Hb]. unfold rest, zdrop. by apply Forall_drop.
Qed.

(** A cursor has reached its end exactly when nothing remains. *)
Lemma ended_iff f : field_ok f -> at_min f ->
  (Field_ReachEnd f = true /\ remaining f = []) \/
  (Field_ReachEnd f = false /\ current_id_ f ∈ remaining f /\ Forall (fun x => current_id_ f <= x) (remaining f) /\ 0 <= current_id_ f < NULLENTRY).
Proof.
  intros Hok [[Hr Hc]|[Hin Hmin]]; unfold Field_ReachEnd.
  - left. by rewrite Hc.
  - right. pose proof (remaining_null f Hok) as Hn. rewrite Forall_forall in Hn. specialize (Hn _ (proj1 (list_elem_of_In _ _) Hin)).
    split_and!; try done; try lia.
Qed.

Lemma drop_ended_spec fs :
  fields_ok fs -> StronglySorted (fun f g => current_id_ f <= current_id_ g) fs ->
  exists ended, fs = drop_ended fs ++ ended /\ Forall (fun f => remaining f = []) ended /\
    Forall (fun f => Field_ReachEnd f = false) (drop_ended fs).
Proof.
  induction fs as [|f fs IH]; intros Hok Hs; [by exists []|]. apply Forall_cons_1 in Hok as [[Hf Hm] Hok].
  apply StronglySorted_inv in Hs as [Hs Hle]. destruct (IH Hok Hs) as (ended & Hfs & Hend & Hlive). cbn [drop_ended].
  destruct (ended_iff f Hf Hm) as [[He Hr]|(He & Hin & Hmin & Hn)].
  - assert (drop_ended fs = []) as E.
    { destruct (drop_ended fs) as [|g gs] eqn:Eg; [done|]. exfalso. apply Forall_cons_1 in Hlive as [Hg _].
      unfold fields_ok in Hok. rewrite Hfs in Hok, Hle. apply Forall_cons_1 in Hok as [[Hgo Hgm] _]. apply Forall_cons_1 in Hle as [Hle _].
      destruct (ended_iff g Hgo Hgm) as [[? _]|(_ & _ & _ & Hgn)]; [congruence|]. unfold Field_ReachEnd in He. apply Z.eqb_eq in He. lia. }
    rewrite E, He in *. exists (f :: ended). simpl in *. subst fs. split_and!; [done | by constructor | constructor].
  - exists ended. destruct (drop_ended fs) as [|g gs] eqn:Eg.
    + rewrite He. simpl in *. subst fs. split_and!; [done | done | by repeat constructor].
    + split_and!; [by rewrite Hfs at 1 | done | by constructor].
Qed.

Lemma entries_app a b : entries (a ++ b) = entries a ++ entries b.
Proof. unfold entries. by rewrite map_app, concat_app. Qed.

Lemma entries_perm a b : a ≡ₚ b -> entries a ≡ₚ entries b.
Proof. intros H. unfold entries. by rewrite H. Qed.

(** After sorting and dropping, the same entries remain, in cursors that are not at their end. *)
Lemma sorted_live fs :
  fields_ok fs ->
  let live := drop_ended (sort_cursors fs) in
  fields_ok live /\ entries live ≡ₚ entries fs /\ StronglySorted (fun f g => current_id_ f <= current_id_ g) live /\
  Forall (fun f => current_id_ f ∈ remaining f /\ Forall (fun x => current_id_ f <= x) (remaining f) /\ 0 <= current_id_ f < NULLENTRY) live.
Proof.
  intros Hok live. assert (Hok' : fields_ok (sort_cursors fs)) by (unfold fields_ok; by rewrite sort_perm).
  destruct (drop_ended_spec _ Hok' (sort_sorted fs)) as (ended & Hfs & Hend & Hlive). fold live in Hfs, Hlive.
  assert (Hokl : fields_ok live) by (unfold fields_ok in Hok'; rewrite Hfs in Hok'; by apply Forall_app in Hok' as [? _]).
  split_and!; [done | | |].
  - rewrite <- (entries_perm _ _ (sort_perm fs)), Hfs, entries_app.
    assert (entries ended = []) as ->; [|by rewrite app_nil_r].
    clear -Hend. unfold entries. induction Hend as [|f l Hf Hl IH]; [done|]. simpl. by rewrite Hf.
  - pose proof (sort_sorted fs) as Hs. rewrite Hfs in Hs. clear -Hs. induction live as [|f l IH]; [constructor|].
    apply StronglySorted_inv in Hs as [Hs Hf]. constructor; [by apply IH|]. by apply Forall_app in Hf as [? _].
  - unfold fields_ok in Hokl. rewrite Forall_forall in *. intros f Hf. destruct (Hokl f Hf) as [H1 H2].
    destruct (ended_iff f H1 H2) as [[He _]|(_ & ? & ? & ?)]; [|done]. rewrite (Hlive f Hf) in He. done.
Qed.

(** Cursor by cursor, nothing is added. *)
Definition shrinks : list FieldCursor -> list FieldCursor -> Prop :=
  Forall2 (fun f f' => forall x, x ∈ remaining f' -> x ∈ remaining f).

Lemma shrinks_refl fs : shrinks fs fs.
Proof. unfold shrinks. induction fs; constructor; auto. Qed.

(** Skipping the cursors of a list. *)
Lemma skip_front next fs :
  fields_ok fs ->
  exists fs', mapM (Field_SkipTo next) fs = Some fs' /\ fields_ok fs' /\
    (forall x, x ∈ entries fs' <-> x ∈ entries fs /\ next <= x) /\ (length (entries fs') <= length (entries fs))%nat /\
    ((exists x, x ∈ entries fs /\ x < next) -> (length (entries fs') < length (entries fs))%nat) /\ shrinks fs fs'.
Proof.
  induction fs as [|f fs IH]; intros Hok.
  - exists []. unfold entries. simpl. split_and!; try done; [intros x; rewrite elem_of_nil; naive_solver | by intros (x & ?%not_elem_of_nil & _) | constructor].
  - apply Forall_cons_1 in Hok as [[Hf Hm] Hok]. destruct (IH Hok) as (fs' & E & Hok' & Hin & Hle & Hlt & Hsh).
    destruct (Field_SkipTo_spec next f Hf) as (f' & Ef & Hf' & Hm' & Hin' & Hle' & Hlt'). exists (f' :: fs').
    cbn [mapM]. rewrite Ef. cbn [mbind option_bind]. rewrite E. cbn [mbind option_bind]. unfold entries in *. simpl. rewrite !length_app.
    split_and!; [done | by constructor | | lia | | constructor; [intros x Hx%Hin'; by destruct Hx | done]].
    + intros x. rewrite !elem_of_app, Hin, Hin', Z.ltb_ge. clear. tauto.
    + intros (x & Hx & Hlx). rewrite elem_of_app in Hx. destruct Hx as [Hx|Hx].
      * assert (length (remaining f') < length (remaining f))%nat by (apply Hlt'; exists x; split; [done | by apply Z.ltb_lt]). lia.
      * assert (length (concat (map remaining fs')) < length (concat (map remaining fs)))%nat by (apply Hlt; by exists x). lia.
Qed.

Lemma skip_back conj next fs :
  fields_ok fs ->
  exists fs', skip_same conj next fs = Some fs' /\ fields_ok fs' /\
    (forall x, x ∈ entries fs' -> x ∈ entries fs) /\ (length (entries fs') <= length (entries fs))%nat /\
    (forall x, x ∈ entries fs -> next < x -> x ∈ entries fs') /\ shrinks fs fs'.
Proof.
  induction fs as [|f fs IH]; intros Hok; [exists []; split_and!; try done; constructor|]. apply Forall_cons_1 in Hok as [[Hf Hm] Hok].
  cbn [skip_same]. destruct (conj =? GetCurConjID f).
  - destruct (IH Hok) as (fs' & E & Hok' & Hin & Hle & Hkeep & Hsh).
    destruct (Field_Skip_spec next f Hf) as (f' & Ef & Hf' & Hm' & Hin' & Hle' & _). rewrite Ef. cbn [mbind option_bind]. rewrite E.
    cbn [mbind option_bind]. exists (f' :: fs'). unfold entries in *. simpl. rewrite !length_app.
    split_and!; [done | by constructor | | lia | | constructor; [intros x Hx%Hin'; by destruct Hx | done]].
    + intros x. rewrite !elem_of_app, Hin'. intros [[Hx _]|Hx%Hin]; [by left | by right].
    + intros x. rewrite !elem_of_app, Hin', Z.leb_gt. intros [Hx|Hx] Hn; [left; done | right; by apply Hkeep].
  - exists (f :: fs). split_and!; try done; [by constructor | apply shrinks_refl].
Qed.

Lemma land_byte_range x : 0 <= Z.land x 0xFF < 256.
Proof. change 0xFF with (2 ^ 8 - 1). rewrite land_mask by lia. apply Z.mod_pos_bound. lia. Qed.

Lemma elem_entries f fs x : f ∈ fs -> x ∈ remaining f -> x ∈ entries fs.
Proof.
  intros Hf Hx. apply list_elem_of_In, in_concat. exists (remaining f). split; [by apply in_map, list_elem_of_In | by apply list_elem_of_In].
Qed.

(** The [k] of a turn, and the cursor it indexes. *)
Lemma kth_cursor (fs : list FieldCursor) size f0 fs0 :
  fs = f0 :: fs0 -> 0 <= size -> let k := if size =? 0 then 1 else size in
  k <= zlen fs -> exists fk, fs !! Z.to_nat (k - 1) = Some fk /\ 1 <= k /\
    (StronglySorted (fun f g => current_id_ f <= current_id_ g) fs -> current_id_ f0 <= current_id_ fk) /\
    f0 ∈ take (Z.to_nat k) fs.
Proof.
  intros -> Hs k Hk. assert (1 <= k) by (unfold k; destruct (Z.eqb_spec size 0); lia).
  destruct (lookup_lt_is_Some_2 (f0 :: fs0) (Z.to_nat (k - 1))) as [fk Hfk]; [lia|]. exists fk. split_and!; try done.
  - intros [_ Hle]%StronglySorted_inv. destruct (Z.to_nat (k - 1)) as [|j]; [injection Hfk as ->; lia|]. simpl in Hfk.
    rewrite Forall_lookup in Hle. by eapply Hle.
  - replace (Z.to_nat k) with (S (Z.to_nat (k - 1))) by lia. simpl. by left.
Qed.

Lemma scan_step_progress fs result :
  fields_ok fs ->
  scan_step sort_cursors fs result = Some (inl result) \/
  exists fs' result', scan_step sort_cursors fs result = Some (inr (fs', result')) /\ fields_ok fs' /\
    (forall x, x ∈ entries fs' -> x ∈ entries fs) /\ (length (entries fs') < length (entries fs))%nat /\
    (result' = result \/ exists e, e ∈ entries fs /\ IsInclude e = true /\ result' = result ++ [GetDocID e]).
Proof.
  intros Hok. destruct (sorted_live fs Hok) as (Hokl & Hperm & Hsort & Hlive). unfold scan_step.
  set (live := drop_ended (sort_cursors fs)) in *. assert (Hlen : length (entries live) = length (entries fs)) by (by rewrite Hperm).
  assert (Hsub : forall x, x ∈ entries live -> x ∈ entries fs) by (intros x; by rewrite Hperm).
  destruct live as [|f0 fs0] eqn:El; [by left|]. rewrite <- El in *. set (size := GetConjunctionSize _). cbv zeta.
  destruct (Z.ltb_spec (zlen live) (if size =? 0 then 1 else size)) as [|Hk]; [by left|]. right.
  destruct (kth_cursor live size f0 fs0 El) as (fk & Hfk & Hk1 & Hle & Hin0); [apply land_byte_range | done |]. rewrite Hfk. cbn [mbind option_bind].
  rewrite Z.eqb_refl. set (k := if size =? 0 then 1 else size) in *. specialize (Hle Hsort).
  rewrite Forall_forall in Hlive. destruct (Hlive f0) as (H0in & _ & _); [rewrite El; by left|].
  destruct (Hlive fk) as (_ & _ & Hkn); [by eapply list_elem_of_In, list_elem_of_lookup_2|]. unfold NULLENTRY in Hkn.
  rewrite (u64_id (current_id_ fk + 1)) by lia. set (next := current_id_ fk + 1).
  assert (Hsplit : entries live = entries (take (Z.to_nat k) live) ++ entries (drop (Z.to_nat k) live)) by (by rewrite <- entries_app, take_drop).
  assert (Hokf : fields_ok (take (Z.to_nat k) live)) by (by apply Forall_take). assert (Hokb : fields_ok (drop (Z.to_nat k) live)) by (by apply Forall_drop).
  destruct (skip_front next _ Hokf) as (front' & Ef & Hof & Hinf & _ & Hltf & _).
  assert (Hlt : (length (entries front') < length (entries (take (Z.to_nat k) live)))%nat).
  { apply Hltf. exists (current_id_ f0). split; [by eapply elem_entries | unfold next; lia]. }
  destruct (IsInclude (current_id_ f0)) eqn:Einc; cbn [mbind option_bind].
  - rewrite Ef. cbn [mbind option_bind]. do 2 eexists. split; [done|]. rewrite <- Hlen, Hsplit, entries_app, !length_app. split_and!.
    + by apply Forall_app.
    + intros x. rewrite elem_of_app, Hinf. intros Hx. apply Hsub. rewrite Hsplit, elem_of_app. destruct Hx as [[Hx _]|Hx]; [by left | by right].
    + lia.
    + right. exists (current_id_ f0). split_and!; try done. apply Hsub. apply (elem_entries f0); [rewrite El; by left | done].
  - destruct (skip_back (GetConjunctionId (current_id_ f0)) next _ Hokb) as (back' & Eb & Hob & Hinb & Hleb & _ & _).
    rewrite Eb. cbn [mbind option_bind]. rewrite Ef. cbn [mbind option_bind]. do 2 eexists. split; [done|].
    rewrite <- Hlen, Hsplit, entries_app, !length_app. split_and!; [by apply Forall_app | | lia | by left].
    intros x. rewrite elem_of_app, Hinf. intros Hx. apply Hsub. rewrite Hsplit, elem_of_app. destruct Hx as [[Hx _]|Hx%Hinb]; [by left | by right].
Qed.

(** The scan terminates on every query, whatever the sizes of the conjunctions, and never
    invents a document: with one turn per entry and one to stop it returns, and every
    document it returns has an include entry in a posting list of the query. *)
Theorem scan_terminates_sound fs :
  fields_ok fs ->
  exists result, scan sort_cursors (S (length (entries fs))) fs [] = Some result /\
    Forall (fun d => exists e, e ∈ entries fs /\ IsInclude e = true /\ GetDocID e = d) result.
Proof.
  intros Hok. assert (Hgen : forall fuel fs' acc, fields_ok fs' -> (length (entries fs') < fuel)%nat -> (forall x, x ∈ entries fs' -> x ∈ entries fs) ->
    Forall (fun d => exists e, e ∈ entries fs /\ IsInclude e = true /\ GetDocID e = d) acc ->
    exists result, scan sort_cursors fuel fs' acc = Some result /\
      Forall (fun d => exists e, e ∈ entries fs /\ IsInclude e = true /\ GetDocID e = d) result).
  { induction fuel as [|fuel IH]; intros fs' acc Hok' Hlen Hsub Hacc; [lia|]. cbn [scan].
    destruct (scan_step_progress fs' acc Hok') as [E|(fs2 & acc2 & E & Hok2 & Hsub2 & Hlt & Hor)]; rewrite E; cbn [mbind option_bind]; [by exists acc|].
    apply IH; [done | lia | by auto |]. destruct Hor as [->|(e & He & Hinc & ->)]; [done|].
    apply Forall_app. split; [done|]. constructor; [|done]. exists e. auto. }
  apply Hgen; auto.
Qed.

(** ** Completeness for conjunctions with at most one include expression *)

(** Entries as the builder makes them, of conjunctions of size at most one. *)
Definition small_entry (e : Z) : Prop := e mod 16 <= 1 /\ GetConjSize e <= 1.

(** No field holds an include and an exclude entry of the same conjunction. *)
Definition unmixed (l : list Z) : Prop :=
  forall e e', e ∈ l -> e' ∈ l -> GetConjunctionId e = GetConjunctionId e' -> IsInclude e = IsInclude e'.

(** An include entry of a conjunction none of whose exclude entries is there. *)
Definition satisfied (all : list Z) (e : Z) : Prop :=
  e ∈ all /\ IsInclude e = true /\ forall e', e' ∈ all -> GetConjunctionId e' = GetConjunctionId e -> IsInclude e' = true.

Lemma conj_div e : GetConjunctionId e = e / 16.
Proof. unfold GetConjunctionId. by rewrite Z.shiftr_div_pow2. Qed.

Lemma include_mod e : e mod 16 <= 1 -> IsInclude e = (e mod 16 =? 1).
Proof.
  intros H. unfold IsInclude. change 1 with (2 ^ 1 - 1) at 1. rewrite land_mask by lia. assert (E : e mod 2 ^ 1 = e mod 16) by (Z.to_euclidean_division_equations; lia).
  rewrite E. pose proof (Z.mod_pos_bound e 16). destruct (Z.eqb_spec (e mod 16) 1) as [->|]; [done|]. apply Z.ltb_ge. lia.
Qed.

(** The exclude entry of a conjunction is right before its include entry. *)
Lemma include_after_exclude e e' :
  e mod 16 <= 1 -> e' mod 16 <= 1 -> GetConjunctionId e = GetConjunctionId e' -> IsInclude e = true -> IsInclude e' = false -> e = e' + 1.
Proof.
  intros H H'. rewrite !conj_div, !include_mod by done. intros Hc Hi%Z.eqb_eq Hi'%Z.eqb_neq.
  pose proof (Z.mod_pos_bound e' 16). Z.to_euclidean_division_equations; lia.
Qed.

(** Past the cursors that stand on the conjunction, none of its entries is left. *)
Lemma skip_same_clears c fs fs' :
  fields_ok fs -> StronglySorted (fun f g => current_id_ f <= current_id_ g) fs ->
  Forall (fun f => Forall (fun x => current_id_ f <= x) (remaining f)) fs -> Forall (fun f => c * 16 <= current_id_ f) fs ->
  Forall (fun e => e mod 16 <= 1) (entries fs) ->
  skip_same c (c * 16 + 1) fs = Some fs' -> Forall (fun x => GetConjunctionId x <> c) (entries fs').
Proof.
  revert fs'. induction fs as [|f fs IH]; intros fs' Hok Hs Hmin Hge Hwf; [intros [= <-]; constructor|]. cbn [skip_same].
  apply Forall_cons_1 in Hok as [[Hf Hm] Hok]. apply StronglySorted_inv in Hs as [Hs Hle].
  apply Forall_cons_1 in Hmin as [Hmf Hmin]. apply Forall_cons_1 in Hge as [Hgf Hge].
  unfold entries in Hwf. simpl in Hwf. apply Forall_app in Hwf as [Hwf Hwfs]. unfold GetCurConjID.
  destruct (Z.eqb_spec c (GetConjunctionId (current_id_ f))) as [Hc|Hc].
  - destruct (Field_Skip_spec (c * 16 + 1) f Hf) as (f' & -> & _ & _ & Hin & _). cbn [mbind option_bind].
    destruct (skip_same c (c * 16 + 1) fs) as [fs2|]; [|done]. cbn [mbind option_bind]. intros [= <-].
    unfold entries. simpl. apply Forall_app. split; [|by apply IH]. apply Forall_forall. intros x Hx. apply list_elem_of_In, Hin in Hx as [Hx Hgt%Z.leb_gt].
    rewrite Forall_forall in Hwf. specialize (Hwf x (proj1 (list_elem_of_In _ _) Hx)). simpl in Hwf. rewrite conj_div. Z.to_euclidean_division_equations; lia.
  - intros [= <-]. rewrite conj_div in Hc.
    assert (Hbig : (c + 1) * 16 <= current_id_ f) by (Z.to_euclidean_division_equations; lia).
    unfold entries. apply Forall_concat, Forall_map. constructor.
    + eapply Forall_impl; [|exact Hmf]. simpl. intros x Hx. rewrite conj_div. Z.to_euclidean_division_equations; lia.
    + rewrite Forall_forall in *. intros g Hg. specialize (Hle g Hg). specialize (Hmin g Hg). eapply Forall_impl; [|exact Hmin].
      simpl. intros x Hx. rewrite conj_div. Z.to_euclidean_division_equations; lia.
Qed.

Lemma unmixed_shrinks fs fs' : shrinks fs fs' -> Forall (fun f => unmixed (remaining f)) fs -> Forall (fun f => unmixed (remaining f)) fs'.
Proof.
  intros Hsh. induction Hsh as [|f f' fs fs' Hf Hsh IH]; [done|]. intros [H Hall]%Forall_cons_1. constructor; [|by apply IH].
  intros e e' He He'. apply H; by apply Hf.
Qed.

Lemma drop_ended_Forall (P : FieldCursor -> Prop) fs : Forall P fs -> Forall P (drop_ended fs).
Proof.
  induction 1 as [|f fs Hf Hfs IH]; [constructor|]. cbn [drop_ended].
  destruct (drop_ended fs) as [|g gs]; [|by constructor]. destruct (Field_ReachEnd f); by repeat constructor.
Qed.

Lemma Forall_entries (P : Z -> Prop) fs : (forall x, x ∈ entries fs -> P x) <-> Forall P (entries fs).
Proof. rewrite Forall_forall. by setoid_rewrite list_elem_of_In. Qed.

Lemma least_entry f fs :
  Forall (fun x => current_id_ f <= x) (remaining f) -> Forall (fun g => current_id_ f <= current_id_ g) fs ->
  Forall (fun g => current_id_ g ∈ remaining g /\ Forall (fun x => current_id_ g <= x) (remaining g) /\ 0 <= current_id_ g < NULLENTRY) fs ->
  Forall (fun x => current_id_ f <= x) (entries (f :: fs)).
Proof.
  intros Hf Hle Hlive. unfold entries. apply Forall_concat, Forall_map. constructor; [done|].
  rewrite Forall_forall in *. intros g Hg. destruct (Hlive g Hg) as (_ & Hm & _). specialize (Hle g Hg).
  eapply Forall_impl; [|exact Hm]. simpl. lia.
Qed.

Lemma small_size e : small_entry e ->
  (if GetConjunctionSize (GetConjunctionId e) =? 0 then 1 else GetConjunctionSize (GetConjunctionId e)) = 1.
Proof.
  intros [_ H]. unfold GetConjSize in H. pose proof (land_byte_range (Z.shiftr (GetConjunctionId e) 52)) as Hb.
  unfold GetConjunctionSize in *. destruct (Z.eqb_spec (Z.land (Z.shiftr (GetConjunctionId e) 52) 255) 0); lia.
Qed.

Lemma exclude_base e : small_entry e -> IsInclude e = false -> e = GetConjunctionId e * 16.
Proof.
  intros [H _]. rewrite include_mod, conj_div by done. intros Hn%Z.eqb_neq. pose proof (Z.mod_pos_bound e 16).
  Z.to_euclidean_division_equations; lia.
Qed.

(** Past an exclude entry, an entry of another conjunction is past its include entry too. *)
Lemma other_conj e x : small_entry e -> IsInclude e = false -> e <= x -> GetConjunctionId x <> GetConjunctionId e -> e + 1 < x.
Proof. intros Hs Hi Hle. pose proof (exclude_base e Hs Hi) as Hb. rewrite !conj_div in *. Z.to_euclidean_division_equations; lia. Qed.

(** One turn on small conjunctions: it ends on no entry, reports the least entry when
    it is an include, and otherwise passes its whole conjunction. *)
Lemma small_step fs result :
  fields_ok fs -> Forall small_entry (entries fs) -> Forall (fun f => unmixed (remaining f)) fs ->
  (entries fs = [] /\ scan_step sort_cursors fs result = Some (inl result)) \/
  exists fs' eid, eid ∈ entries fs /\ Forall (fun x => eid <= x) (entries fs) /\ Forall (fun f => unmixed (remaining f)) fs' /\
    ((IsInclude eid = true /\ scan_step sort_cursors fs result = Some (inr (fs', result ++ [GetDocID eid])) /\
      (forall x, x ∈ entries fs -> x = eid \/ x ∈ entries fs')) \/
     (IsInclude eid = false /\ scan_step sort_cursors fs result = Some (inr (fs', result)) /\
      (forall x, x ∈ entries fs -> GetConjunctionId x <> GetConjunctionId eid -> x ∈ entries fs') /\
      (forall x, x ∈ entries fs' -> GetConjunctionId x = GetConjunctionId eid -> IsInclude x = false))).
Proof.
  intros Hok Hsm Hum. destruct (sorted_live fs Hok) as (Hokl & Hperm & Hsort & Hlive).
  assert (Huml : Forall (fun f => unmixed (remaining f)) (drop_ended (sort_cursors fs))) by (apply drop_ended_Forall; by rewrite sort_perm).
  rewrite <- Hperm in Hsm. unfold scan_step. destruct (drop_ended (sort_cursors fs)) as [|f0 fs0] eqn:El.
  { left. split; [|done]. by apply Permutation_nil. }
  right. clear El. assert (Hel : forall x, x ∈ entries fs <-> x ∈ remaining f0 ++ entries fs0) by (intros x; by rewrite <- Hperm). cbv zeta. apply Forall_cons_1 in Hokl as [Hok0 Hoks]. apply Forall_cons_1 in Huml as [Hum0 Hums].
  pose proof (StronglySorted_inv Hsort) as [Hsorts Hle0]. apply Forall_cons_1 in Hlive as [(H0in & H0min & H0n) Hlive].
  assert (Hent : entries (f0 :: fs0) = remaining f0 ++ entries fs0) by done.
  assert (Hmin : Forall (fun x => current_id_ f0 <= x) (entries (f0 :: fs0))) by (by apply least_entry).
  rewrite Hperm in Hmin. rewrite Hent in *. apply Forall_app in Hsm as [Hsm0 Hsms].
  assert (Hs0 : small_entry (current_id_ f0)) by (rewrite Forall_forall in Hsm0; by apply Hsm0, list_elem_of_In).
  rewrite (small_size _ Hs0). replace (zlen (f0 :: fs0) <? 1) with false by (symmetry; apply Z.ltb_ge; simpl; lia).
  change (Z.to_nat (1 - 1)) with 0%nat. change ((f0 :: fs0) !! 0%nat) with (Some f0). change (Z.to_nat 1) with 1%nat.
  change (take 1 (f0 :: fs0)) with [f0]. change (drop 1 (f0 :: fs0)) with fs0. cbn [mbind option_bind]. rewrite Z.eqb_refl.
  unfold NULLENTRY in H0n. rewrite (u64_id (current_id_ f0 + 1)) by lia.
  destruct (skip_front (current_id_ f0 + 1) [f0]) as (front' & Ef & _ & Hinf & _ & _ & Hshf); [by constructor|].
  assert (Humf : Forall (fun f => unmixed (remaining f)) front') by (eapply unmixed_shrinks; [exact Hshf | by constructor]).
  assert (Hone : entries [f0] = remaining f0) by (unfold entries; simpl; by rewrite app_nil_r). rewrite Hone in Hinf.
  destruct (IsInclude (current_id_ f0)) eqn:Einc; cbn [mbind option_bind].
  - rewrite Ef. exists (front' ++ fs0), (current_id_ f0). split_and!; [rewrite Hel, elem_of_app; by left | done | by apply Forall_app |].
    left. split_and!; [done | done |]. rewrite Forall_forall in H0min. intros x. rewrite Hel, entries_app, !elem_of_app, Hinf. intros [Hx|Hx]; [|by auto].
    pose proof (H0min x (proj1 (list_elem_of_In _ _) Hx)). destruct (decide (x = current_id_ f0)); [by left | right; left; split; [done | lia]].
  - destruct (skip_back (GetConjunctionId (current_id_ f0)) (current_id_ f0 + 1) fs0 Hoks) as (back' & Eb & _ & Hinb & _ & Hkeep & Hshb).
    rewrite Eb. cbn [mbind option_bind]. rewrite Ef. exists (front' ++ back'), (current_id_ f0).
    split_and!; [rewrite Hel, elem_of_app; by left | done | apply Forall_app; split; [done | by eapply unmixed_shrinks] |].
    right. split_and!; [done | done | |]; intros x; rewrite entries_app, elem_of_app, Hinf.
    + intros Hx Hc. assert (current_id_ f0 + 1 < x) by (apply other_conj; try done; rewrite Forall_forall in Hmin; by apply Hmin, list_elem_of_In).
      rewrite Hel, elem_of_app in Hx. destruct Hx as [Hx|Hx]; [left; split; [done | lia] | right; by apply Hkeep].
    + intros [[Hx _]|Hx] Hc; [rewrite <- Einc; by apply Hum0|]. exfalso. revert Hc.
      eapply (proj2 (Forall_entries (fun x => GetConjunctionId x <> GetConjunctionId (current_id_ f0)) back')); [|exact Hx].
      eapply skip_same_clears; [exact Hoks | done | | | |].
      * eapply Forall_impl; [|exact Hlive]. by intros f (_ & ? & _).
      * eapply Forall_impl; [|exact Hle0]. simpl. intros f. pose proof (exclude_base _ Hs0 Einc). lia.
      * eapply Forall_impl; [|exact Hsms]. by intros e [? _].
      * rewrite <- (exclude_base _ Hs0 Einc). exact Eb.
Qed.

(** What holds between two turns: an include entry that remains is remained with by the
    exclude entries of its conjunction, the documents reported are satisfied ones, and a
    satisfied entry remains or has been reported. *)
Record small_inv (all : list Z) (fs : list FieldCursor) (result : list Z) : Prop := {
  si_fields : fields_ok fs;
  si_unmixed : Forall (fun f => unmixed (remaining f)) fs;
  si_sub : forall x, x ∈ entries fs -> x ∈ all;
  si_excl : forall e e', e ∈ entries fs -> e' ∈ all -> IsInclude e = true -> IsInclude e' = false ->
    GetConjunctionId e' = GetConjunctionId e -> e' ∈ entries fs;
  si_good : forall d, d ∈ result -> exists e, satisfied all e /\ GetDocID e = d;
  si_all : forall e, satisfied all e -> e ∈ entries fs \/ GetDocID e ∈ result }.

Lemma small_inv_step all fs result :
  Forall small_entry all -> small_inv all fs result ->
  (entries fs = [] /\ scan_step sort_cursors fs result = Some (inl result)) \/
  exists fs' result', scan_step sort_cursors fs result = Some (inr (fs', result')) /\ small_inv all fs' result' /\
    (length (entries fs') < length (entries fs))%nat.
Proof.
  intros Hsm [Hok Hum Hsub Hex Hgood Hall]. rewrite Forall_forall in Hsm. setoid_rewrite <- list_elem_of_In in Hsm.
  assert (Hsm' : Forall small_entry (entries fs)) by (apply Forall_entries; auto).
  destruct (small_step fs result Hok Hsm' Hum) as [|(fs' & eid & He & Hmin & Hum' & Hcase)]; [by left|]. right.
  rewrite <- Forall_entries in Hmin.
  destruct (scan_step_progress fs result Hok) as [E|(fs2 & r2 & E & Hok2 & Hsub2 & Hlt & _)];
    [rewrite E in Hcase; by destruct Hcase as [(_ & ? & _)|(_ & ? & _)]|].
  rewrite E in Hcase. exists fs2, r2. split_and!; [done | | done].
  destruct Hcase as [(Hinc & [= <- ->] & Hkeep)|(Hinc & [= <- ->] & Hkeep & Hclear)]; split; try done; try by auto.
  - intros e e' Hin Hin' Hi Hi' Hc. destruct (Hkeep e') as [->|]; [by apply (Hex e e'); auto | congruence | done].
  - intros d [Hd|Hd%list_elem_of_singleton]%elem_of_app; [by apply Hgood|]. exists eid. split; [|done]. split_and!; [auto | done |].
    intros e' He' Hc. destruct (IsInclude e') eqn:Hi'; [done|]. exfalso.
    pose proof (Hmin e' (Hex eid e' He He' Hinc Hi' Hc)). destruct (Hsm eid (Hsub _ He)), (Hsm e' He').
    pose proof (include_after_exclude eid e' ltac:(done) ltac:(done) (eq_sym Hc) Hinc Hi'). lia.
  - intros e Hs. destruct (Hall e Hs) as [Hin|]; [|right; apply elem_of_app; by left].
    destruct (Hkeep e Hin) as [->|]; [right; apply elem_of_app; right; by left | by left].
  - intros e e' Hin Hin' Hi Hi' Hc. apply Hkeep; [by apply (Hex e e'); auto|]. intros Hc'.
    rewrite (Hclear e Hin) in Hi; [done | congruence].
  - intros e Hs. destruct (Hall e Hs) as [Hin|]; [|by right]. left. apply Hkeep; [done|]. intros Hc.
    destruct Hs as (_ & _ & Hs). rewrite (Hs eid) in Hinc; [done | by auto | done].
Qed.

(** C27.  Conjunctions of at most one include expression are answered exactly: with one turn per
    entry and one to stop the scan returns the documents that have, among the posting lists
    of the query, an include entry of a conjunction without an exclude entry there, and
    no other document. *)
Theorem small_conjunctions_exact fs :
  fields_ok fs -> Forall small_entry (entries fs) -> Forall (fun f => unmixed (remaining f)) fs ->
  exists result, scan sort_cursors (S (length (entries fs))) fs [] = Some result /\
    forall d, d ∈ result <-> exists e, satisfied (entries fs) e /\ GetDocID e = d.
Proof.
  intros Hok Hsm Hum. set (all := entries fs) in *.
  assert (Hgen : forall fuel fs' acc, small_inv all fs' acc -> (length (entries fs') < fuel)%nat ->
    exists result, scan sort_cursors fuel fs' acc = Some result /\ forall d, d ∈ result <-> exists e, satisfied all e /\ GetDocID e = d).
  { induction fuel as [|fuel IH]; intros fs' acc Hinv Hlen; [lia|]. cbn [scan].
    destruct (small_inv_step all fs' acc Hsm Hinv) as [[Hnil E]|(fs2 & acc2 & E & Hinv2 & Hlt)]; rewrite E; cbn [mbind option_bind].
    - exists acc. split; [done|]. intros d. split; [apply (si_good _ _ _ Hinv)|]. intros (e & Hs & <-).
      destruct (si_all _ _ _ Hinv e Hs) as [Hin|]; [|done]. rewrite Hnil in Hin. by apply not_elem_of_nil in Hin.
    - apply IH; [done | lia]. }
  apply Hgen; [|by unfold all; lia]. split; try done; [by intros d ?%not_elem_of_nil | intros e Hs; left; apply Hs].
Qed.
End Scan.

(** *** The sorting of the examples *)

Lemma insert_cursor_perm f fs : insert_cursor f fs ≡ₚ f :: fs.
Proof.
  induction fs as [|g fs IH]; [done|]. cbn [insert_cursor]. destruct (current_id_ f <? current_id_ g); [done|].
  rewrite IH. apply Permutation_swap.
Qed.

Lemma sort_by_entry_perm fs : sort_by_entry fs ≡ₚ fs.
Proof. induction fs as [|f fs IH]; [done|]. simpl. by rewrite insert_cursor_perm, IH. Qed.

Lemma sort_by_entry_sorted fs : StronglySorted (fun f g => current_id_ f <= current_id_ g) (sort_by_entry fs).
Proof.
  induction fs as [|f fs IH]; [constructor|]. simpl. revert IH. generalize (sort_by_entry fs) as l.
  induction l as [|g l IHl]; intros Hs; cbn [insert_cursor]; [by repeat constructor|].
  apply StronglySorted_inv in Hs as [Hs Hg]. destruct (Z.ltb_spec (current_id_ f) (current_id_ g)).
  - constructor; [by constructor|]. constructor; [lia|]. eapply Forall_impl; [|exact Hg]. simpl. lia.
  - constructor; [by apply IHl|]. rewrite insert_cursor_perm. by constructor.
Qed.

(** Documents 7 and 9 want one value of a first field; 9 excludes a value of a second. *)
Definition example_lists : list (list (list Z)) :=
  [[[GenEntryID (GenConjID 7 0 1) false; GenEntryID (GenConjID 9 0 1) false]]; [[GenEntryID (GenConjID 9 0 1) true]]].

Definition example_fields : list FieldCursor :=
  omap (fun lists => Initialize (mkField (map EntriesCursor_new lists) 0 0)) example_lists.

Lemma example_fields_ok : fields_ok example_fields.
Proof.
  unfold example_fields, example_lists. cbn [omap list_omap].
  do 2 (match goal with |- context [Initialize (mkField (map EntriesCursor_new ?ls) 0 0)] =>
    destruct (Initialize_spec ls) as (? & -> & ? & ? & _); 
      [done | constructor; [split_and!; [apply ordered_check | | unfold below_null; repeat constructor]; vm_compute; congruence | done] |] end).
  constructor; [done|]. constructor; [done | constructor].
Qed.

Lemma example_entries : Forall small_entry (entries example_fields).
Proof. repeat constructor; vm_compute; congruence. Qed.

Lemma example_unmixed : Forall (fun f => unmixed (remaining f)) example_fields.
Proof.
  repeat constructor; intros e e' He He'; vm_compute in He, He';
    repeat (apply elem_of_cons in He as [->|He] || apply elem_of_cons in He' as [->|He']); try (by apply not_elem_of_nil in He);
    try (by apply not_elem_of_nil in He'); vm_compute; congruence.
Qed.

Lemma scan_terminates_sound_witness :
  exists result, scan sort_by_entry 4 example_fields [] = Some result /\
    Forall (fun d => exists e, e ∈ entries example_fields /\ IsInclude e = true /\ GetDocID e = d) result.
Proof. exact (scan_terminates_sound sort_by_entry sort_by_entry_perm sort_by_entry_sorted example_fields example_fields_ok). Defined.

Lemma small_conjunctions_exact_witness :
  exists result, scan sort_by_entry 4 example_fields [] = Some result /\
    forall d, d ∈ result <-> exists e, satisfied (entries example_fields) e /\ GetDocID e = d.
Proof.
  exact (small_conjunctions_exact sort_by_entry sort_by_entry_perm sort_by_entry_sorted example_fields
    example_fields_ok example_entries example_unmixed).
Defined.

(** Document 9 is excluded. *)
Example example_scan : scan sort_by_entry 4 example_fields [] = Some [7].
Proof. vm_compute. reflexivity. Qed.

End BeIndexer.
