(* ===== verification/Numerics.v ===== *)
(** * Integer types, range checks and conversions
      (base/numerics/safe_conversions_impl.h, safe_conversions.h)

    The templates are functions of the integer types they are instantiated with: a type
    is one of the eight fixed-width ones, a metafunction maps types to types or booleans,
    and a function template takes its type arguments first.  A value of type [t] is an
    integer in [in_range t].  Operands of mixed types meet in [common], the type of the
    usual arithmetic conversions.  The floating-point instantiations are not modelled. *)
From stdpp Require Import base option.
From S2P Require Import Prelude.

Module Numerics.

(** ** The language: fixed-width integers *)

Inductive ity := int8_t | uint8_t | int16_t | uint16_t | int32_t | uint32_t | int64_t | uint64_t.

#[export] Instance ity_eq_dec : EqDecision ity.
Proof. solve_decision. Defined.

Definition is_signed (t : ity) : bool :=
  match t with int8_t | int16_t | int32_t | int64_t => true | _ => false end.

Definition bits (t : ity) : Z :=
  match t with int8_t | uint8_t => 8 | int16_t | uint16_t => 16 | int32_t | uint32_t => 32 | int64_t | uint64_t => 64 end.

Definition make_signed (t : ity) : ity :=
  match t with uint8_t => int8_t | uint16_t => int16_t | uint32_t => int32_t | uint64_t => int64_t | t => t end.
Definition make_unsigned (t : ity) : ity :=
  match t with int8_t => uint8_t | int16_t => uint16_t | int32_t => uint32_t | int64_t => uint64_t | t => t end.

(** [std::numeric_limits]. *)
Definition digits (t : ity) : Z := bits t - Z.b2z (is_signed t).
Definition limits_max (t : ity) : Z := 2 ^ digits t - 1.
Definition limits_lowest (t : ity) : Z := if is_signed t then - 2 ^ digits t else 0.

Definition in_range (t : ity) (v : Z) : Prop := limits_lowest t <= v <= limits_max t.
Definition in_rangeb (t : ity) (v : Z) : bool := (limits_lowest t <=? v) && (v <=? limits_max t).

(** [static_cast<t>(v)]. *)
Definition cast (t : ity) (v : Z) : Z :=
  let m := v mod 2 ^ bits t in if is_signed t && (2 ^ digits t <=? m) then m - 2 ^ bits t else m.

(** Integral promotion and the usual arithmetic conversions. *)
Definition promote (t : ity) : ity := if bits t <? 32 then int32_t else t.
Definition common (a b : ity) : ity :=
  let a := promote a in
  let b := promote b in
  if Bool.eqb (is_signed a) (is_signed b) then (if bits a <? bits b then b else a)
  else
    let '(u, s) := if is_signed a then (b, a) else (a, b) in
    if bits s <=? bits u then u else s.

Definition c_le (a : ity) (x : Z) (b : ity) (y : Z) : bool := cast (common a b) x <=? cast (common a b) y.
Definition c_lt (a : ity) (x : Z) (b : ity) (y : Z) : bool := cast (common a b) x <? cast (common a b) y.
Definition c_eq (a : ity) (x : Z) (b : ity) (y : Z) : bool := cast (common a b) x =? cast (common a b) y.

(** ** Helper templates *)

Definition MaxExponent (t : ity) : Z := digits t + 1.
Definition IntegerBitsPlusSign (t : ity) : Z := digits t + Z.b2z (is_signed t).
Definition PositionOfSignBit (t : ity) : Z := IntegerBitsPlusSign t - 1.

Definition IsValueNegative (t : ity) (value : Z) : bool := if is_signed t then value <? 0 else false.

Definition ConditionalNegate (t : ity) (x : Z) (is_negative : bool) : Z :=
  let ty := common (make_unsigned t) (make_signed t) in
  let neg := Z.b2z is_negative in
  cast (make_signed t) (cast ty (cast ty (Z.lxor (cast ty (cast (make_unsigned t) x)) (cast ty (- neg))) + neg)).

Definition SafeUnsignedAbs (t : ity) (value : Z) : Z :=
  let u := make_unsigned t in
  if IsValueNegative t value then cast u (cast (common uint32_t u) (0 - cast u value)) else cast u value.

(** *** Range relations *)

Inductive NumericRangeRepresentation := NUMERIC_RANGE_NOT_CONTAINED | NUMERIC_RANGE_CONTAINED.

Definition contained_if (b : bool) : NumericRangeRepresentation :=
  if b then NUMERIC_RANGE_CONTAINED else NUMERIC_RANGE_NOT_CONTAINED.

Definition StaticDstRangeRelationToSrcRange (Dst Src : ity) : NumericRangeRepresentation :=
  match is_signed Dst, is_signed Src with
  | true, true | false, false => contained_if (MaxExponent Src <=? MaxExponent Dst)
  | true, false => contained_if (MaxExponent Src <? MaxExponent Dst)
  | false, true => NUMERIC_RANGE_NOT_CONTAINED
  end.

Definition IsTypeInRangeForNumericType (Dst Src : ity) : bool :=
  match StaticDstRangeRelationToSrcRange Dst Src with NUMERIC_RANGE_CONTAINED => true | NUMERIC_RANGE_NOT_CONTAINED => false end.

Record RangeCheck := mkRange { is_underflow_ : bool; is_overflow_ : bool }.

Definition RangeCheck_new (is_in_lower_bound is_in_upper_bound : bool) : RangeCheck :=
  mkRange (negb is_in_lower_bound) (negb is_in_upper_bound).
Definition IsValid (r : RangeCheck) : bool := negb (is_overflow_ r) && negb (is_underflow_ r).
Definition IsInvalid (r : RangeCheck) : bool := is_overflow_ r && is_underflow_ r.
Definition IsOverflow (r : RangeCheck) : bool := is_overflow_ r && negb (is_underflow_ r).
Definition IsUnderflow (r : RangeCheck) : bool := negb (is_overflow_ r) && is_underflow_ r.
Definition RangeCheck_eqb (a b : RangeCheck) : bool :=
  Bool.eqb (is_underflow_ a) (is_underflow_ b) && Bool.eqb (is_overflow_ a) (is_overflow_ b).

(** [NarrowingRange]: for integers the shift is zero and the limits are adjusted by nothing. *)
Definition kShift (Dst Src : ity) : Z :=
  if (MaxExponent Dst <? MaxExponent Src) && (digits Src <? digits Dst) then digits Dst - digits Src else 0.

Definition Adjust (Dst Src : ity) (value : Z) : Z :=
  let p := promote Dst in
  let mask := cast p (Z.lnot (cast p (cast p (Z.shiftl 1 (kShift Dst Src)) - 1))) in
  let ty := common (make_unsigned Dst) p in
  cast Dst (ConditionalNegate ty (Z.land (cast ty (SafeUnsignedAbs Dst value)) (cast ty mask)) (IsValueNegative Dst value)).

Definition narrow_max (Dst Src : ity) : Z := Adjust Dst Src (limits_max Dst).
Definition narrow_lowest (Dst Src : ity) : Z := Adjust Dst Src (limits_lowest Dst).

Definition DstRangeRelationToSrcRange (Dst Src : ity) (value : Z) : RangeCheck :=
  let lo := narrow_lowest Dst Src in
  let hi := narrow_max Dst Src in
  let Promotion := common Src Dst in
  match StaticDstRangeRelationToSrcRange Dst Src, is_signed Dst, is_signed Src with
  | NUMERIC_RANGE_CONTAINED, _, _ =>
      RangeCheck_new ((lo <=? cast Dst (limits_lowest Src)) || (lo <=? cast Dst value))
                     ((cast Dst (limits_max Src) <=? hi) || (cast Dst value <=? hi))
  | NUMERIC_RANGE_NOT_CONTAINED, true, true => RangeCheck_new (c_le Dst lo Src value) (c_le Src value Dst hi)
  | NUMERIC_RANGE_NOT_CONTAINED, false, false =>
      RangeCheck_new ((lo =? cast Dst 0) || c_le Dst lo Src value) (c_le Src value Dst hi)
  | NUMERIC_RANGE_NOT_CONTAINED, true, false =>
      RangeCheck_new ((lo <=? cast Dst 0) || (cast Promotion lo <=? cast Promotion value))
                     (cast Promotion value <=? cast Promotion hi)
  | NUMERIC_RANGE_NOT_CONTAINED, false, true =>
      let ge_zero := cast Src 0 <=? value in
      RangeCheck_new (ge_zero && (c_eq Dst lo int32_t 0 || (lo <=? cast Dst value)))
                     ((cast Promotion (limits_max Src) <=? cast Promotion hi) || (cast Promotion value <=? cast Promotion hi))
  end.

(** *** Promotions *)

Definition IntegerForDigitsAndSign (size : Z) (signed : bool) : option ity :=
  if size =? 8 then Some (if signed then int8_t else uint8_t)
  else if size =? 16 then Some (if signed then int16_t else uint16_t)
  else if size =? 32 then Some (if signed then int32_t else uint32_t)
  else if size =? 64 then Some (if signed then int64_t else uint64_t)
  else None.

(** No type: the instantiation does not compile. *)
Definition TwiceWiderInteger (t : ity) (signed : bool) : option ity :=
  IntegerForDigitsAndSign (IntegerBitsPlusSign t * 2) signed.

Definition MaxExponentPromotion (Lhs Rhs : ity) : ity :=
  if MaxExponent Rhs <? MaxExponent Lhs then Lhs else Rhs.

Definition LowestValuePromotion (Lhs Rhs : ity) : ity :=
  if is_signed Lhs then
    (if is_signed Rhs then (if MaxExponent Rhs <? MaxExponent Lhs then Lhs else Rhs) else Lhs)
  else
    (if is_signed Rhs then Rhs else (if MaxExponent Lhs <? MaxExponent Rhs then Lhs else Rhs)).

(** The type and [is_contained]. *)
Definition BigEnoughPromotion (Lhs Rhs : ity) : option (ity * bool) :=
  let m := MaxExponentPromotion Lhs Rhs in
  let is_intmax_type := IntegerBitsPlusSign m =? IntegerBitsPlusSign int64_t in
  let is_max_exponent := IsTypeInRangeForNumericType m Lhs && IsTypeInRangeForNumericType m Rhs in
  match is_intmax_type, is_max_exponent with
  | _, true => Some (m, true)
  | false, false => t ← TwiceWiderInteger m (is_signed Lhs || is_signed Rhs); Some (t, true)
  | true, false => Some (m, false)
  end.

Definition IsIntegerArithmeticSafe (T Lhs Rhs : ity) : bool :=
  implb (is_signed Lhs) (is_signed T) && (2 * IntegerBitsPlusSign Lhs <=? IntegerBitsPlusSign T) &&
  implb (is_signed Rhs) (is_signed T) && (2 * IntegerBitsPlusSign Rhs <=? IntegerBitsPlusSign T).

Definition FastIntegerArithmeticPromotion (Lhs Rhs : ity) : option (ity * bool) :=
  let m := MaxExponentPromotion Lhs Rhs in
  let signed := is_signed Lhs || is_signed Rhs in
  if IsIntegerArithmeticSafe (if signed then int64_t else uint64_t) m m
  then t ← TwiceWiderInteger m signed; Some (t, true)
  else p ← BigEnoughPromotion Lhs Rhs; Some (p.1, false).

(** ** Comparisons *)

Definition as_signed (t : ity) (value : Z) : Z := cast (make_signed t) value.
Definition as_unsigned (t : ity) (value : Z) : Z := cast (make_unsigned t) value.

Definition IsLess (L R : ity) (lhs rhs : Z) : bool :=
  let l_range := DstRangeRelationToSrcRange R L lhs in
  let r_range := DstRangeRelationToSrcRange L R rhs in
  IsUnderflow l_range || IsOverflow r_range || (RangeCheck_eqb l_range r_range && c_lt L lhs R rhs).

Definition IsLessOrEqual (L R : ity) (lhs rhs : Z) : bool :=
  let l_range := DstRangeRelationToSrcRange R L lhs in
  let r_range := DstRangeRelationToSrcRange L R rhs in
  IsUnderflow l_range || IsOverflow r_range || (RangeCheck_eqb l_range r_range && c_le L lhs R rhs).

Definition IsGreater (L R : ity) (lhs rhs : Z) : bool :=
  let l_range := DstRangeRelationToSrcRange R L lhs in
  let r_range := DstRangeRelationToSrcRange L R rhs in
  IsOverflow l_range || IsUnderflow r_range ||
  (RangeCheck_eqb l_range r_range && (cast (common L R) rhs <? cast (common L R) lhs)).

Definition IsGreaterOrEqual (L R : ity) (lhs rhs : Z) : bool :=
  let l_range := DstRangeRelationToSrcRange R L lhs in
  let r_range := DstRangeRelationToSrcRange L R rhs in
  IsOverflow l_range || IsUnderflow r_range ||
  (RangeCheck_eqb l_range r_range && (cast (common L R) rhs <=? cast (common L R) lhs)).

Definition IsEqual (L R : ity) (lhs rhs : Z) : bool :=
  RangeCheck_eqb (DstRangeRelationToSrcRange R L lhs) (DstRangeRelationToSrcRange L R rhs) && c_eq L lhs R rhs.

Definition IsNotEqual (L R : ity) (lhs rhs : Z) : bool :=
  negb (RangeCheck_eqb (DstRangeRelationToSrcRange R L lhs) (DstRangeRelationToSrcRange L R rhs)) || negb (c_eq L lhs R rhs).

Definition SafeCompare (C : ity -> ity -> Z -> Z -> bool) (L R : ity) (lhs rhs : Z) : option bool :=
  p ← BigEnoughPromotion L R;
  let '(BigType, is_contained) := p in
  Some (if is_contained : bool then C BigType BigType (cast BigType (cast L lhs)) (cast BigType (cast R rhs)) else C L R lhs rhs).

Definition IsMaxInRangeForNumericType (Dst Src : ity) : bool := IsGreaterOrEqual Dst Src (limits_max Dst) (limits_max Src).
Definition IsMinInRangeForNumericType (Dst Src : ity) : bool := IsLessOrEqual Dst Src (limits_lowest Dst) (limits_lowest Src).

Definition CommonMax (Dst Src : ity) : Z :=
  if negb (IsMaxInRangeForNumericType Dst Src) then cast Dst (limits_max Dst) else cast Dst (limits_max Src).
Definition CommonMin (Dst Src : ity) : Z :=
  if negb (IsMinInRangeForNumericType Dst Src) then cast Dst (limits_lowest Dst) else cast Dst (limits_lowest Src).
Definition CommonMaxOrMin (Dst Src : ity) (is_min : bool) : Z := if is_min then CommonMin Dst Src else CommonMax Dst Src.

(** ** Conversions (safe_conversions.h) *)

(** [IsValueInRangeFastOp]: [None] when it is not supported. *)
Definition IsValueInRangeFastOp (Dst Src : ity) (value : Z) : option bool :=
  if IsTypeInRangeForNumericType Dst Src then None
  else if is_signed Dst && is_signed Src then Some (c_eq Src value Dst (cast Dst value))
  else if negb (is_signed Dst) && is_signed Src then
    Some (as_unsigned Src value <=? as_unsigned Src (CommonMax Src Dst))
  else None.

Definition IsValueInRangeForNumericType (Dst Src : ity) (value : Z) : bool :=
  match IsValueInRangeFastOp Dst Src value with
  | Some b => b
  | None => IsValid (DstRangeRelationToSrcRange Dst Src value)
  end.

(** [None] is the trap of [CheckOnFailure]. *)
Definition checked_cast (Dst Src : ity) (value : Z) : option Z :=
  if IsValueInRangeForNumericType Dst Src value then Some (cast Dst (cast Src value)) else None.

(** [SaturationDefaultLimits] of an integer type. *)
Definition sat_NaN : Z := 0.
Definition sat_Overflow (t : ity) : Z := limits_max t.
Definition sat_Underflow (t : ity) : Z := limits_lowest t.

Definition saturated_cast_impl (Dst : ity) (value : Z) (constraint : RangeCheck) : Z :=
  if negb (is_overflow_ constraint) then
    (if negb (is_underflow_ constraint) then cast Dst value else sat_Underflow Dst)
  else sat_Overflow Dst.

Definition SaturateFastOp (Dst Src : ity) (value : Z) : Z :=
  let saturated := CommonMaxOrMin Dst Src
    (IsMaxInRangeForNumericType Dst Src || (negb (IsMinInRangeForNumericType Dst Src) && IsValueNegative Src value)) in
  if IsValueInRangeForNumericType Dst Src value then cast Dst value else saturated.

(** [constant] is [IsCompileTimeConstant(value)]. *)
Definition saturated_cast (constant : bool) (Dst Src : ity) (value : Z) : Z :=
  if negb constant then SaturateFastOp Dst Src (cast Src value)
  else saturated_cast_impl Dst (cast Src value) (DstRangeRelationToSrcRange Dst Src (cast Src value)).

(** [None] where the static assertion fails. *)
Definition strict_cast (Dst Src : ity) (value : Z) : option Z :=
  if IsTypeInRangeForNumericType Dst Src then Some (cast Dst (cast Src value)) else None.

(** ** The conversions of the language *)

Lemma pow_bits t : 2 ^ bits t = if is_signed t then 2 * 2 ^ digits t else 2 ^ digits t.
Proof. by destruct t. Qed.

Lemma cast_in t v : in_range t (cast t v).
Proof.
  unfold in_range, cast, limits_lowest, limits_max. pose proof (Z.mod_pos_bound v (2 ^ bits t) ltac:(by destruct t)) as Hm. rewrite pow_bits in *.
  assert (0 < 2 ^ digits t) by (by destruct t). set (d := 2 ^ digits t) in *. clearbody d.
  destruct (is_signed t); cbn [andb]; [destruct (Z.leb_spec d (v mod (2 * d)))|]; lia.
Qed.

Lemma cast_id t v : in_range t v -> cast t v = v.
Proof.
  unfold in_range, cast, limits_lowest, limits_max. rewrite pow_bits. assert (0 < 2 ^ digits t) by (by destruct t). set (d := 2 ^ digits t) in *. clearbody d.
  intros Hv. destruct (is_signed t); cbn [andb].
  - destruct (Z.ltb_spec v 0).
    + assert (v mod (2 * d) = v + 2 * d) as -> by (symmetry; apply Z.mod_unique with (-1); lia). destruct (Z.leb_spec d (v + 2 * d)); lia.
    + rewrite Z.mod_small by lia. destruct (Z.leb_spec d v); lia.
  - apply Z.mod_small. lia.
Qed.

Lemma unsigned_range t v : in_range (make_unsigned t) v <-> 0 <= v < 2 ^ bits t.
Proof.
  unfold in_range. assert (limits_lowest (make_unsigned t) = 0 /\ limits_max (make_unsigned t) = 2 ^ bits t - 1) as [-> ->] by (by destruct t). lia.
Qed.

(** Casts agree with the integer modulo the width. *)
Lemma cast_mod t v : exists k, cast t v = v + k * 2 ^ bits t.
Proof.
  unfold cast. destruct (is_signed t && _); [exists (- (v / 2 ^ bits t) - 1) | exists (- (v / 2 ^ bits t))];
    rewrite Z.mod_eq by (by destruct t); lia.
Qed.

Lemma in_rangeb_spec t v : in_rangeb t v = true <-> in_range t v.
Proof. unfold in_rangeb, in_range. rewrite andb_true_iff, !Z.leb_le. done. Qed.

Lemma in_rangeb_false t v : in_rangeb t v = false <-> v < limits_lowest t \/ limits_max t < v.
Proof. unfold in_rangeb. rewrite andb_false_iff, !Z.leb_gt. done. Qed.

(** Evaluate the type-level part of a goal whose types are known. *)
Ltac eval_types :=
  repeat match goal with
  | |- context [narrow_max ?d ?s] => let x := eval vm_compute in (narrow_max d s) in change (narrow_max d s) with x
  | |- context [narrow_lowest ?d ?s] => let x := eval vm_compute in (narrow_lowest d s) in change (narrow_lowest d s) with x
  | |- context [StaticDstRangeRelationToSrcRange ?d ?s] =>
      let x := eval vm_compute in (StaticDstRangeRelationToSrcRange d s) in change (StaticDstRangeRelationToSrcRange d s) with x
  | |- context [common ?d ?s] => let x := eval vm_compute in (common d s) in change (common d s) with x
  | |- context [limits_max ?d] => assert_fails (is_var d); let x := eval vm_compute in (limits_max d) in change (limits_max d) with x
  | |- context [limits_lowest ?d] => assert_fails (is_var d); let x := eval vm_compute in (limits_lowest d) in change (limits_lowest d) with x
  | |- context [bits ?d] => assert_fails (is_var d); let x := eval vm_compute in (bits d) in change (bits d) with x
  | |- context [digits ?d] => assert_fails (is_var d); let x := eval vm_compute in (digits d) in change (digits d) with x
  | |- context [is_signed ?d] => assert_fails (is_var d); let x := eval vm_compute in (is_signed d) in change (is_signed d) with x
  end; cbn iota beta zeta;
  repeat match goal with |- context [2 ^ Zpos ?p] => let x := eval vm_compute in (2 ^ Zpos p) in change (2 ^ Zpos p) with x end.

Ltac in_range_lia := unfold in_range; eval_types; lia.
Ltac drop_casts :=
  repeat match goal with
  | |- context [cast ?t (Zneg ?p)] => let x := eval vm_compute in (cast t (Zneg p)) in change (cast t (Zneg p)) with x
  | |- context [cast ?t ?v] => rewrite (cast_id t v) by in_range_lia
  end.
Ltac solve_bools := repeat match goal with
  | |- context [Z.leb ?a ?b] => destruct (Z.leb_spec a b)
  | |- context [Z.ltb ?a ?b] => destruct (Z.ltb_spec a b)
  | |- context [Z.eqb ?a ?b] => destruct (Z.eqb_spec a b)
  end; cbn [orb andb negb xorb]; try reflexivity; try lia.

(** The range check computes the two comparisons with the limits of the destination. *)
Lemma range_check_exact Dst Src v : in_range Src v ->
  DstRangeRelationToSrcRange Dst Src v = mkRange (v <? limits_lowest Dst) (limits_max Dst <? v).
Proof.
  intros Hv. destruct Dst, Src; unfold in_range in Hv; revert Hv; unfold DstRangeRelationToSrcRange, RangeCheck_new, c_le, c_eq; eval_types;
    intros Hv; drop_casts; solve_bools.
Qed.

(** *** What the metafunctions compute *)

Lemma contained_spec Dst Src : IsTypeInRangeForNumericType Dst Src = true <->
  limits_lowest Dst <= limits_lowest Src /\ limits_max Src <= limits_max Dst.
Proof. rewrite <- !Z.leb_le, <- andb_true_iff. by destruct Dst, Src. Qed.

Lemma contained_in_range Dst Src v : IsTypeInRangeForNumericType Dst Src = true -> in_range Src v -> in_range Dst v.
Proof. rewrite contained_spec. unfold in_range. lia. Qed.

Lemma IsValueNegative_spec t v : in_range t v -> IsValueNegative t v = (v <? 0).
Proof.
  unfold IsValueNegative, in_range, limits_lowest. destruct (is_signed t); [done|]. intros [H _]. symmetry. by apply Z.ltb_ge.
Qed.

Lemma lowest_le_0 t : limits_lowest t <= 0.
Proof. by destruct t. Qed.

Lemma max_ge_0 t : 127 <= limits_max t.
Proof. by destruct t. Qed.

(** A value of both operand types is a value of their common type. *)
Lemma common_in_range a b v : in_range a v -> in_range b v -> in_range (common a b) v.
Proof. unfold in_range. destruct a, b; eval_types; lia. Qed.

Lemma CommonMax_spec Dst Src : CommonMax Dst Src = Z.min (limits_max Dst) (limits_max Src).
Proof. destruct Dst, Src; vm_compute; reflexivity. Qed.

Lemma CommonMin_spec Dst Src : CommonMin Dst Src = Z.max (limits_lowest Dst) (limits_lowest Src).
Proof. destruct Dst, Src; vm_compute; reflexivity. Qed.

Lemma IsMaxInRange_spec Dst Src : IsMaxInRangeForNumericType Dst Src = (limits_max Src <=? limits_max Dst).
Proof. destruct Dst, Src; vm_compute; reflexivity. Qed.

Lemma IsMinInRange_spec Dst Src : IsMinInRangeForNumericType Dst Src = (limits_lowest Dst <=? limits_lowest Src).
Proof. destruct Dst, Src; vm_compute; reflexivity. Qed.

(** The promoted type is there for every pair; when it is said to contain them, it does. *)
Lemma BigEnough_spec L R : exists t c, BigEnoughPromotion L R = Some (t, c) /\
  (c = true -> IsTypeInRangeForNumericType t L = true /\ IsTypeInRangeForNumericType t R = true).
Proof. destruct L, R; vm_compute; eauto. Qed.

Lemma Fast_spec L R : exists t c, FastIntegerArithmeticPromotion L R = Some (t, c).
Proof. destruct L, R; vm_compute; eauto. Qed.

(** ** Exactness of the comparisons and conversions *)

Section Compare.
Context (L R : ity) (x y : Z) (Hx : in_range L x) (Hy : in_range R y).

(** The common shape of the four orderings: [cmp] on the integers. *)
Lemma ordering_exact (cmp : Z -> Z -> bool) :
  (forall a b, a < b -> cmp a b = true) -> (forall a b, b < a -> cmp a b = false) ->
  let l := DstRangeRelationToSrcRange R L x in
  let r := DstRangeRelationToSrcRange L R y in
  IsUnderflow l || IsOverflow r || (RangeCheck_eqb l r && cmp (cast (common L R) x) (cast (common L R) y)) = cmp x y.
Proof.
  intros Hlt Hgt. cbv zeta. rewrite !range_check_exact by done. unfold IsUnderflow, IsOverflow, RangeCheck_eqb. cbn [is_underflow_ is_overflow_].
  pose proof Hx as Hx'. pose proof Hy as Hy'. unfold in_range in Hx', Hy'.
  destruct (Z.ltb_spec x (limits_lowest R)); [destruct (Z.ltb_spec (limits_max R) x); [lia|]; cbn [negb andb orb]; symmetry; apply Hlt; lia|].
  destruct (Z.ltb_spec (limits_max L) y); [destruct (Z.ltb_spec y (limits_lowest L)); [lia|]; rewrite orb_true_r; symmetry; apply Hlt; lia|].
  destruct (Z.ltb_spec (limits_max R) x), (Z.ltb_spec y (limits_lowest L)); cbn [negb andb orb Bool.eqb]; try (symmetry; apply Hgt; lia).
  rewrite !cast_id; [done | |]; apply common_in_range; unfold in_range; lia.
Qed.
End Compare.

Lemma flipped_ordering (cmp : Z -> Z -> bool) L R x y :
  in_range L x -> in_range R y ->
  (forall a b, a < b -> cmp a b = true) -> (forall a b, b < a -> cmp a b = false) ->
  let l := DstRangeRelationToSrcRange R L x in
  let r := DstRangeRelationToSrcRange L R y in
  IsOverflow l || IsUnderflow r || (RangeCheck_eqb l r && cmp (cast (common L R) y) (cast (common L R) x)) = cmp y x.
Proof.
  intros Hx Hy Hlt Hgt l r. rewrite <- (ordering_exact R L y x Hy Hx cmp Hlt Hgt). fold l r. f_equal; [apply orb_comm|].
  assert (common L R = common R L) as -> by (by destruct L, R). f_equal. unfold RangeCheck_eqb.
  by destruct (is_underflow_ l), (is_overflow_ l), (is_underflow_ r), (is_overflow_ r).
Qed.

Lemma IsLess_exact L R x y : in_range L x -> in_range R y -> IsLess L R x y = (x <? y).
Proof. intros Hx Hy. apply (ordering_exact L R x y Hx Hy Z.ltb); intros a b H; [by apply Z.ltb_lt | apply Z.ltb_ge; lia]. Qed.

Lemma IsLessOrEqual_exact L R x y : in_range L x -> in_range R y -> IsLessOrEqual L R x y = (x <=? y).
Proof. intros Hx Hy. apply (ordering_exact L R x y Hx Hy Z.leb); intros a b H; [apply Z.leb_le; lia | by apply Z.leb_gt]. Qed.

Lemma IsGreater_exact L R x y : in_range L x -> in_range R y -> IsGreater L R x y = (y <? x).
Proof. intros Hx Hy. apply (flipped_ordering Z.ltb L R x y Hx Hy); intros a b H; [by apply Z.ltb_lt | apply Z.ltb_ge; lia]. Qed.

Lemma IsGreaterOrEqual_exact L R x y : in_range L x -> in_range R y -> IsGreaterOrEqual L R x y = (y <=? x).
Proof. intros Hx Hy. apply (flipped_ordering Z.leb L R x y Hx Hy); intros a b H; [apply Z.leb_le; lia | by apply Z.leb_gt]. Qed.

Lemma IsEqual_exact L R x y : in_range L x -> in_range R y -> IsEqual L R x y = (x =? y).
Proof.
  intros Hx Hy. unfold IsEqual, c_eq. rewrite !range_check_exact by done. unfold RangeCheck_eqb. cbn [is_underflow_ is_overflow_].
  pose proof Hx as Hx'. pose proof Hy as Hy'. unfold in_range in Hx', Hy'.
  destruct (Z.ltb_spec x (limits_lowest R)), (Z.ltb_spec y (limits_lowest L)), (Z.ltb_spec (limits_max R) x), (Z.ltb_spec (limits_max L) y);
    cbn [andb Bool.eqb]; try lia; try (symmetry; apply Z.eqb_neq; lia).
  rewrite !cast_id; [done | |]; apply common_in_range; unfold in_range; lia.
Qed.

Lemma IsNotEqual_exact L R x y : in_range L x -> in_range R y -> IsNotEqual L R x y = negb (x =? y).
Proof. intros Hx Hy. rewrite <- (IsEqual_exact L R x y Hx Hy). unfold IsNotEqual, IsEqual. by rewrite negb_andb. Qed.

Lemma in_range_exact Dst Src v : in_range Src v -> IsValueInRangeForNumericType Dst Src v = in_rangeb Dst v.
Proof.
  intros Hv. unfold IsValueInRangeForNumericType, IsValueInRangeFastOp.
  assert (Hgen : IsValid (DstRangeRelationToSrcRange Dst Src v) = in_rangeb Dst v).
  { rewrite range_check_exact by done. unfold IsValid, in_rangeb. cbn. rewrite !Z.ltb_antisym, !negb_involutive. apply andb_comm. }
  destruct (IsTypeInRangeForNumericType Dst Src) eqn:Ec; [done|].
  destruct (is_signed Dst) eqn:Ed, (is_signed Src) eqn:Es; cbn [andb negb]; try done.
  - assert (Hc : forall w, in_range Src w -> in_range Dst w -> in_range (common Src Dst) w) by (intros; by apply common_in_range).
    assert (Hs : in_range Src (cast Dst v) /\ in_range (common Src Dst) v).
    { pose proof (cast_in Dst v) as Hd. unfold in_range in *. destruct Dst, Src; try done; revert Hd Hv; eval_types; lia. }
    unfold c_eq. rewrite (cast_id _ v) by apply Hs. rewrite (cast_id (common Src Dst) (cast Dst v)) by (apply Hc; [apply Hs | apply cast_in]).
    destruct (in_rangeb Dst v) eqn:Er; [apply in_rangeb_spec in Er; rewrite (cast_id _ _ Er); apply Z.eqb_refl|].
    apply Z.eqb_neq. intros E. pose proof (cast_in Dst v) as Hin. rewrite <- E in Hin. apply in_rangeb_spec in Hin. congruence.
  - unfold as_unsigned. rewrite CommonMax_spec. pose proof (max_ge_0 Src) as H1. pose proof (max_ge_0 Dst) as H2.
    assert (Hu : limits_max (make_unsigned Src) = 2 * limits_max Src + 1 /\ limits_lowest (make_unsigned Src) = 0 /\ limits_lowest Dst = 0 /\ limits_lowest Src = - limits_max Src - 1 /\ 2 ^ bits (make_unsigned Src) = 2 * limits_max Src + 2).
    { clear -Ed Es. destruct Src; try discriminate Es; destruct Dst; try discriminate Ed; vm_compute; repeat split. }
    destruct Hu as (Hu1 & Hu2 & Hl & Hls & Hb). rewrite (cast_id _ (Z.min _ _)) by (unfold in_range; lia). unfold in_range in Hv.
    unfold in_rangeb. rewrite Hl. destruct (Z.leb_spec 0 v).
    + rewrite cast_id by (unfold in_range; lia). cbn [andb]. destruct (Z.leb_spec v (limits_max Dst)); [apply Z.leb_le | apply Z.leb_gt]; lia.
    + cbn [andb]. apply Z.leb_gt. pose proof (cast_in (make_unsigned Src) v) as Hci. unfold in_range in Hci.
      destruct (cast_mod (make_unsigned Src) v) as [k Hk]. rewrite Hk in *. rewrite Hb in *. assert (k = 1) as -> by nia. lia.
Qed.

(** The nearest value of the type. *)
Definition clamp (t : ity) (v : Z) : Z := Z.max (limits_lowest t) (Z.min v (limits_max t)).

Lemma clamp_in t v : in_range t (clamp t v).
Proof. unfold clamp, in_range. pose proof (lowest_le_0 t). pose proof (max_ge_0 t). lia. Qed.

Lemma clamp_id t v : in_range t v -> clamp t v = v.
Proof. unfold clamp, in_range. lia. Qed.

(** Saturating conversions return the nearest value of the destination type, whether the
    compiler takes the constant or the run-time path. *)
Theorem saturated_cast_clamps constant Dst Src v : in_range Src v -> saturated_cast constant Dst Src v = clamp Dst v.
Proof.
  intros Hv. unfold saturated_cast. rewrite (cast_id Src v Hv). pose proof (lowest_le_0 Dst) as Hl. pose proof (max_ge_0 Dst) as Hh.
  pose proof Hv as Hv'. unfold in_range in Hv'. destruct constant; cbn [negb].
  - unfold saturated_cast_impl. rewrite range_check_exact by done. cbn [is_overflow_ is_underflow_]. unfold sat_Overflow, sat_Underflow, clamp.
    destruct (Z.ltb_spec (limits_max Dst) v), (Z.ltb_spec v (limits_lowest Dst)); cbn [negb]; try lia.
    rewrite cast_id by (unfold in_range; lia). lia.
  - unfold SaturateFastOp. rewrite in_range_exact by done. destruct (in_rangeb Dst v) eqn:Er.
    + apply in_rangeb_spec in Er. by rewrite cast_id, clamp_id.
    + unfold clamp, CommonMaxOrMin. rewrite CommonMax_spec, CommonMin_spec, IsMaxInRange_spec, IsMinInRange_spec, (IsValueNegative_spec Src v Hv).
      apply in_rangeb_false in Er. solve_bools.
Qed.

(** Mixed-type comparisons compare the integers: the six operators, through [SafeCompare],
    give the ordering of the mathematical values for every pair of operand types. *)
Theorem SafeCompare_exact L R x y :
  in_range L x -> in_range R y ->
  SafeCompare IsLess L R x y = Some (x <? y) /\ SafeCompare IsLessOrEqual L R x y = Some (x <=? y) /\
  SafeCompare IsGreater L R x y = Some (y <? x) /\ SafeCompare IsGreaterOrEqual L R x y = Some (y <=? x) /\
  SafeCompare IsEqual L R x y = Some (x =? y) /\ SafeCompare IsNotEqual L R x y = Some (negb (x =? y)).
Proof.
  intros Hx Hy. unfold SafeCompare. destruct (BigEnough_spec L R) as (t & c & -> & Hc). cbn [mbind option_bind].
  rewrite !(cast_id L x), !(cast_id R y) by done. destruct c.
  - destruct (Hc eq_refl) as [HL HR]. pose proof (contained_in_range _ _ _ HL Hx). pose proof (contained_in_range _ _ _ HR Hy).
    rewrite !cast_id by done. rewrite IsLess_exact, IsLessOrEqual_exact, IsGreater_exact, IsGreaterOrEqual_exact, IsEqual_exact, IsNotEqual_exact by done. done.
  - rewrite IsLess_exact, IsLessOrEqual_exact, IsGreater_exact, IsGreaterOrEqual_exact, IsEqual_exact, IsNotEqual_exact by done. done.
Qed.

(** Checked conversions trap exactly on the values the destination cannot hold, and a
    strict conversion that compiles keeps the value. *)
Theorem checked_cast_exact Dst Src v :
  in_range Src v ->
  checked_cast Dst Src v = (if in_rangeb Dst v then Some v else None) /\
  (forall r, strict_cast Dst Src v = Some r -> r = v /\ in_range Dst v).
Proof.
  intros Hv. unfold checked_cast, strict_cast. rewrite in_range_exact, (cast_id Src v Hv) by done. split.
  - destruct (in_rangeb Dst v) eqn:Er; [|done]. apply in_rangeb_spec in Er. by rewrite cast_id.
  - intros r. destruct (IsTypeInRangeForNumericType Dst Src) eqn:Ec; [|done]. intros [= <-].
    pose proof (contained_in_range _ _ _ Ec Hv). by rewrite cast_id.
Qed.

End Numerics.
