(* ===== verification/CheckedMath.v ===== *)
(** * Checked arithmetic
      (base/numerics/checked_math_impl.h, checked_math.h, safe_math_clang_gcc_impl.h,
      safe_math_shared_impl.h)

    An operation struct [Checked<Name>Op<T, U>] with its [Do<V>(x, y, &result)] is a
    function of the types [T], [U], [V] and of the toolchain the headers are compiled
    with, which selects the overflow builtins or the portable code.  It returns what [Do]
    returns and what it leaves in [*result], which its callers initialise with zero.
    [CheckedNumeric] carries its type, its validity and its value. *)
From stdpp Require Import base option list.
From S2P Require Import Prelude Numerics.
Import Numerics.

Module CheckedMath.

(** GCC and Clang have the builtins; Clang's multiplication does not mix 64-bit signs. *)
Inductive toolchain := Gcc | Clang | Portable.

(** [__builtin_add_overflow] and the like: the exact result, wrapped to the type of
    [*result], and whether it fits. *)
Definition builtin_fits (V : ity) (exact : Z) : bool * Z := (in_rangeb V exact, cast V exact).

(** ** Wrappers (safe_math_shared_impl.h) *)

Definition NegateWrapper (t : ity) (value : Z) : Z := cast t (0 - cast (make_unsigned t) value).
Definition InvertWrapper (t : ity) (value : Z) : Z := cast (make_unsigned t) (Z.lnot value).
Definition AbsWrapper (t : ity) (value : Z) : Z := cast t (SafeUnsignedAbs t value).

(** ** The operations *)

Definition CheckedAddImpl (T : ity) (x y : Z) : bool * Z :=
  let U := make_unsigned T in
  let S := make_signed T in
  let ux := cast U x in
  let uy := cast U y in
  let uresult := cast U (ux + uy) in
  if (if is_signed T then cast S (Z.land (Z.lxor uresult ux) (Z.lxor uresult uy)) <? 0 else uresult <? uy)
  then (false, 0) else (true, cast T uresult).

Definition CheckedSubImpl (T : ity) (x y : Z) : bool * Z :=
  let U := make_unsigned T in
  let S := make_signed T in
  let ux := cast U x in
  let uy := cast U y in
  let uresult := cast U (ux - uy) in
  if (if is_signed T then cast S (Z.land (Z.lxor uresult ux) (Z.lxor ux uy)) <? 0 else x <? y)
  then (false, 0) else (true, cast T uresult).

Definition CheckedMulImpl (T : ity) (x y : Z) : bool * Z :=
  let U := make_unsigned T in
  let S := make_signed T in
  let ux := SafeUnsignedAbs T x in
  let uy := SafeUnsignedAbs T y in
  let uresult := cast U (ux * uy) in
  let is_negative := is_signed T && (cast S (Z.lxor x y) <? 0) in
  if (Z.b2z (negb (is_signed T) || is_negative) <? uy) &&
     (cast U (cast U (limits_max T) + Z.b2z is_negative) / uy <? ux)
  then (false, 0) else (true, cast T (if is_negative then cast U (0 - uresult) else uresult)).

(** The promoted types; they exist for every pair of operand types. *)
Definition fast_promotion (T U : ity) : ity :=
  match FastIntegerArithmeticPromotion T U with Some (t, _) => t | None => MaxExponentPromotion T U end.
Definition big_promotion (T U : ity) : ity :=
  match BigEnoughPromotion T U with Some (t, _) => t | None => MaxExponentPromotion T U end.

(** The portable code that addition and subtraction share. *)
Definition portable_sum (op : Z -> Z -> Z) (impl : ity -> Z -> Z -> bool * Z) (T U V : ity) (x y : Z) : bool * Z :=
  let FastPromotion := fast_promotion T U in
  let Promotion := if IntegerBitsPlusSign int64_t <? IntegerBitsPlusSign FastPromotion then big_promotion T U else FastPromotion in
  if negb (IsValueInRangeForNumericType Promotion T x) || negb (IsValueInRangeForNumericType Promotion U y) then (false, 0)
  else
    let '(is_valid, presult) :=
      if IsIntegerArithmeticSafe Promotion T U then (true, cast Promotion (op (cast Promotion x) (cast Promotion y)))
      else impl Promotion (cast Promotion x) (cast Promotion y) in
    if negb is_valid || negb (IsValueInRangeForNumericType V Promotion presult) then (false, 0)
    else (true, cast V presult).

Definition CheckedAddOp (tc : toolchain) (T U V : ity) (x y : Z) : bool * Z :=
  match tc with
  | Gcc | Clang => builtin_fits V (x + y)
  | Portable => portable_sum Z.add CheckedAddImpl T U V x y
  end.

Definition CheckedSubOp (tc : toolchain) (T U V : ity) (x y : Z) : bool * Z :=
  match tc with
  | Gcc | Clang => builtin_fits V (x - y)
  | Portable => portable_sum Z.sub CheckedSubImpl T U V x y
  end.

Definition CheckedMulFastOp_supported (tc : toolchain) (T U : ity) : bool :=
  match tc with
  | Gcc => true
  | Clang => (IsTypeInRangeForNumericType int64_t T && IsTypeInRangeForNumericType int64_t U) ||
             (IsTypeInRangeForNumericType uint64_t T && IsTypeInRangeForNumericType uint64_t U)
  | Portable => false
  end.

Definition CheckedMulOp (tc : toolchain) (T U V : ity) (x y : Z) : bool * Z :=
  if CheckedMulFastOp_supported tc T U then builtin_fits V (x * y)
  else
    let Promotion := fast_promotion T U in
    if (negb (IsValueInRangeForNumericType Promotion T x) || negb (IsValueInRangeForNumericType Promotion U y)) &&
       negb (x =? 0) && negb (y =? 0) then (false, 0)
    else
      let px := cast Promotion x in
      let py := cast Promotion y in
      let '(is_valid, presult) :=
        if CheckedMulFastOp_supported tc Promotion Promotion then builtin_fits Promotion (px * py)
        else if IsIntegerArithmeticSafe Promotion T U then (true, cast Promotion (px * py))
        else CheckedMulImpl Promotion px py in
      if negb is_valid || negb (IsValueInRangeForNumericType V Promotion presult) then (false, 0)
      else (true, cast V presult).

(** The one quotient of two signed integers that does not fit. *)
Definition negation_overflows (T U Promotion : ity) (x y : Z) : bool :=
  is_signed T && is_signed U && IsTypeInRangeForNumericType T Promotion &&
  (cast Promotion x =? limits_lowest Promotion) && c_eq U y U (cast U (-1)).

Definition CheckedDivOp (T U V : ity) (x y : Z) : bool * Z :=
  if y =? 0 then (false, 0)
  else
    let Promotion := big_promotion T U in
    if negation_overflows T U Promotion x y then (false, 0)
    else if (negb (IsValueInRangeForNumericType Promotion T x) || negb (IsValueInRangeForNumericType Promotion U y)) && negb (x =? 0)
    then (false, 0)
    else
      let presult := cast Promotion (Z.quot (cast Promotion x) (cast Promotion y)) in
      if negb (IsValueInRangeForNumericType V Promotion presult) then (false, 0) else (true, cast V presult).

Definition CheckedModOp (T U V : ity) (x y : Z) : bool * Z :=
  if y =? 0 then (false, 0)
  else
    let Promotion := big_promotion T U in
    if negation_overflows T U Promotion x y then (true, 0)
    else
      let presult := cast Promotion (Z.rem (cast Promotion x) (cast Promotion y)) in
      if negb (IsValueInRangeForNumericType V Promotion presult) then (false, 0) else (true, cast V (cast Promotion presult)).

Definition CheckedLshOp (T U V : ity) (x shift : Z) : bool * Z :=
  let n := as_unsigned int32_t (digits T) in
  if negb (IsValueNegative T x) && c_lt (make_unsigned U) (as_unsigned U shift) uint32_t n then
    let result := cast V (cast (promote (make_unsigned T)) (Z.shiftl (as_unsigned T x) shift)) in
    (c_eq (promote V) (Z.shiftr result shift) T x, result)
  else if negb (is_signed T) || negb (x =? 0) || negb (c_eq (make_unsigned U) (as_unsigned U shift) uint32_t n) then (false, 0)
  else (true, 0).

Definition CheckedRshOp (T U V : ity) (x shift : Z) : bool * Z :=
  if c_le int32_t (IntegerBitsPlusSign T) (make_unsigned U) (as_unsigned U shift) then (false, 0)
  else
    let tmp := cast T (Z.shiftr x shift) in
    if negb (IsValueInRangeForNumericType V T tmp) then (false, 0) else (true, cast V tmp).

(** The three bitwise operations, on the unsigned promotion. *)
Definition bitwise_op (op : Z -> Z -> Z) (T U V : ity) (x y : Z) : bool * Z :=
  let R := make_unsigned (MaxExponentPromotion T U) in
  let tmp := cast R (op (cast R x) (cast R y)) in
  if negb (IsValueInRangeForNumericType V R tmp) then (false, 0) else (true, cast V tmp).

Definition CheckedAndOp := bitwise_op Z.land.
Definition CheckedOrOp := bitwise_op Z.lor.
Definition CheckedXorOp := bitwise_op Z.lxor.

Definition CheckedMaxOp (T U V : ity) (x y : Z) : bool * Z :=
  let R := MaxExponentPromotion T U in
  let tmp := if IsGreater T U x y then cast R x else cast R y in
  if negb (IsValueInRangeForNumericType V R tmp) then (false, 0) else (true, cast V tmp).

Definition CheckedMinOp (T U V : ity) (x y : Z) : bool * Z :=
  let R := LowestValuePromotion T U in
  let tmp := if IsLess T U x y then cast R x else cast R y in
  if negb (IsValueInRangeForNumericType V R tmp) then (false, 0) else (true, cast V tmp).

(** The struct a [MathOp] is given, its [result_type] and its [Do]. *)
Inductive math := Add | Sub | Mul | Div | Mod | Lsh | Rsh | And | Or | Xor | Max | Min.

Definition result_type (m : math) (T U : ity) : ity :=
  match m with
  | Add | Sub | Mul | Div | Mod | Max => MaxExponentPromotion T U
  | Lsh | Rsh => T
  | And | Or | Xor => make_unsigned (MaxExponentPromotion T U)
  | Min => LowestValuePromotion T U
  end.

Definition Do (tc : toolchain) (m : math) (T U V : ity) (x y : Z) : bool * Z :=
  match m with
  | Add => CheckedAddOp tc T U V x y
  | Sub => CheckedSubOp tc T U V x y
  | Mul => CheckedMulOp tc T U V x y
  | Div => CheckedDivOp T U V x y
  | Mod => CheckedModOp T U V x y
  | Lsh => CheckedLshOp T U V x y
  | Rsh => CheckedRshOp T U V x y
  | And => CheckedAndOp T U V x y
  | Or => CheckedOrOp T U V x y
  | Xor => CheckedXorOp T U V x y
  | Max => CheckedMaxOp T U V x y
  | Min => CheckedMinOp T U V x y
  end.

(** ** [CheckedNumeric] (checked_math.h) *)

Record CheckedNumeric := mkNum { type : ity; is_valid_ : bool; value_ : Z }.

(** [CheckedNumericState<T, NUMERIC_INTEGER>(Src value, bool is_valid)]. *)
Definition CheckedNumericState (T Src : ity) (value : Z) (is_valid : bool) : CheckedNumeric :=
  mkNum T (is_valid && IsValueInRangeForNumericType T Src value) (cast T value).

Definition CheckedNumeric_new (T Src : ity) (value : Z) : CheckedNumeric := CheckedNumericState T Src value true.

Definition IsValid (Dst : ity) (n : CheckedNumeric) : bool :=
  is_valid_ n && IsValueInRangeForNumericType Dst (type n) (value_ n).

(** [AssignIfValid]: the new value of [*result], if it is assigned. *)
Definition AssignIfValid (Dst : ity) (n : CheckedNumeric) : option Z :=
  if IsValid Dst n then Some (cast Dst (value_ n)) else None.

(** [None] is the trap. *)
Definition ValueOrDie (Dst : ity) (n : CheckedNumeric) : option Z :=
  if IsValid Dst n then Some (cast Dst (value_ n)) else None.

Definition ValueOrDefault (Dst Src : ity) (default_value : Z) (n : CheckedNumeric) : option Z :=
  if IsValid Dst n then Some (cast Dst (value_ n)) else checked_cast Dst Src default_value.

(** The copy constructor from another instantiation. *)
Definition Cast (Dst : ity) (n : CheckedNumeric) : CheckedNumeric :=
  CheckedNumericState Dst (type n) (value_ n) (IsValid (type n) n).

(** [operator-] *)
Definition Negate (n : CheckedNumeric) : CheckedNumeric :=
  let T := type n in
  let is_valid := IsValid T n && (negb (is_signed T) || negb (NegateWrapper T (value_ n) =? limits_lowest T)) in
  CheckedNumericState T T (NegateWrapper T (value_ n)) is_valid.

(** [operator~], which builds the unsigned instantiation and converts it back. *)
Definition Invert (n : CheckedNumeric) : CheckedNumeric :=
  let T := type n in
  let u := CheckedNumericState (make_unsigned T) (make_unsigned T) (InvertWrapper T (value_ n)) (IsValid T n) in
  Cast T u.

Definition Abs (n : CheckedNumeric) : CheckedNumeric :=
  if negb (IsValueNegative (type n) (value_ n)) then n else Negate n.

Definition UnsignedAbs (n : CheckedNumeric) : CheckedNumeric :=
  let U := make_unsigned (type n) in
  CheckedNumericState U U (SafeUnsignedAbs (type n) (value_ n)) (is_valid_ n).

(** An operand is a plain integer or a [CheckedNumeric]; [Wrapper] looks through it. *)
Inductive operand := Pod (t : ity) (v : Z) | Num (n : CheckedNumeric).

Definition UnderlyingType (o : operand) : ity := match o with Pod t _ => t | Num n => type n end.
Definition Wrapper_is_valid (o : operand) : bool := match o with Pod _ _ => true | Num n => IsValid (type n) n end.
Definition Wrapper_value (o : operand) : Z := match o with Pod _ v => v | Num n => value_ n end.

Definition MathOp (tc : toolchain) (m : math) (T : ity) (lhs rhs : operand) : CheckedNumeric :=
  let '(ok, result) :=
    if Wrapper_is_valid lhs && Wrapper_is_valid rhs
    then Do tc m (UnderlyingType lhs) (UnderlyingType rhs) T (Wrapper_value lhs) (Wrapper_value rhs)
    else (false, 0) in
  CheckedNumericState T T result ok.

(** The compound assignments. *)
Definition MathOp_assign (tc : toolchain) (m : math) (rhs : operand) (n : CheckedNumeric) : CheckedNumeric :=
  let T := type n in
  let '(ok, result) :=
    if is_valid_ n && Wrapper_is_valid rhs
    then Do tc m T (UnderlyingType rhs) T (value_ n) (Wrapper_value rhs)
    else (false, 0) in
  CheckedNumericState T T result ok.

Definition CheckMathOp (tc : toolchain) (m : math) (lhs rhs : operand) : CheckedNumeric :=
  MathOp tc m (result_type m (UnderlyingType lhs) (UnderlyingType rhs)) lhs rhs.

(** The variadic functions fold to the left. *)
Definition CheckMathOps (tc : toolchain) (m : math) (lhs rhs : operand) (args : list operand) : CheckedNumeric :=
  foldl (fun n a => CheckMathOp tc m (Num n) a) (CheckMathOp tc m lhs rhs) args.

(** [operator++] and [operator--]. *)
Definition Increment (tc : toolchain) (n : CheckedNumeric) : CheckedNumeric := MathOp_assign tc Add (Pod int32_t 1) n.
Definition Decrement (tc : toolchain) (n : CheckedNumeric) : CheckedNumeric := MathOp_assign tc Sub (Pod int32_t 1) n.

(** ** What the operations compute *)

(** The integer an operation denotes, if any. *)
Definition exact (m : math) (x y : Z) : option Z :=
  match m with
  | Add => Some (x + y)
  | Sub => Some (x - y)
  | Mul => Some (x * y)
  | Div => if y =? 0 then None else Some (Z.quot x y)
  | Mod => if y =? 0 then None else Some (Z.rem x y)
  | Lsh => if y <? 0 then None else Some (x * 2 ^ y)
  | Rsh => if y <? 0 then None else Some (x / 2 ^ y)
  | And => Some (Z.land x y)
  | Or => Some (Z.lor x y)
  | Xor => Some (Z.lxor x y)
  | Max => Some (Z.max x y)
  | Min => Some (Z.min x y)
  end.

Lemma cast_congruent t a b : (exists k, a = b + k * 2 ^ bits t) -> cast t a = cast t b.
Proof. intros [k ->]. unfold cast. rewrite Z.mod_add by (by destruct t). done. Qed.

(** The bit that a cast to the signed type reads as the sign. *)
Lemma cast_sign t w : is_signed t = true -> 0 <= w < 2 ^ bits t -> (cast t w <? 0) = Z.testbit w (digits t).
Proof.
  intros Hs Hw. rewrite Z.testbit_eqb by (by destruct t). pose proof (pow_bits t) as Hb. rewrite Hs in Hb.
  unfold cast. rewrite Z.mod_small, Hs by done. cbn [andb]. assert (0 < 2 ^ digits t) by (by destruct t). set (d := 2 ^ digits t) in *. rewrite Hb in *.
  assert (w / d = if d <=? w then 1 else 0) as -> by (destruct (Z.leb_spec d w); [symmetry; apply Z.div_unique with (w - d); lia | apply Z.div_small; lia]).
  destruct (Z.leb_spec d w); [apply Z.ltb_lt; lia | apply Z.ltb_ge; lia].
Qed.

Lemma unsigned_bounds t v : 0 <= cast (make_unsigned t) v < 2 ^ bits t.
Proof. apply unsigned_range, cast_in. Qed.

Lemma bits_lt x n : 0 <= n -> (0 <= x < 2 ^ n <-> 0 <= x /\ forall i, n <= i -> Z.testbit x i = false).
Proof.
  intros Hn. split.
  - intros [H0 H]. split; [done|]. intros i Hi. destruct (Z.eq_dec x 0) as [->|]; [apply Z.bits_0|].
    apply Z.bits_above_log2; [done|]. apply Z.lt_le_trans with n; [apply Z.log2_lt_pow2; lia | done].
  - intros [H0 H]. split; [done|]. destruct (Z.eq_dec x 0) as [->|]; [lia|].
    apply Z.log2_lt_pow2; [lia|]. apply Z.nle_gt. intros Hl. specialize (H _ Hl). rewrite Z.bit_log2 in H by lia. done.
Qed.

Lemma lxor_bounds x y n : 0 <= n -> 0 <= x < 2 ^ n -> 0 <= y < 2 ^ n -> 0 <= Z.lxor x y < 2 ^ n.
Proof.
  intros Hn [Hx Hxb]%bits_lt [Hy Hyb]%bits_lt; try done. apply bits_lt; [done|]. split; [by apply Z.lxor_nonneg|].
  intros i Hi. rewrite Z.lxor_spec, Hxb, Hyb by done. done.
Qed.

Lemma lor_bounds x y n : 0 <= n -> 0 <= x < 2 ^ n -> 0 <= y < 2 ^ n -> 0 <= Z.lor x y < 2 ^ n.
Proof.
  intros Hn [Hx Hxb]%bits_lt [Hy Hyb]%bits_lt; try done. apply bits_lt; [done|]. split; [by apply Z.lor_nonneg|].
  intros i Hi. rewrite Z.lor_spec, Hxb, Hyb by done. done.
Qed.

Lemma land_bounds x y n : 0 <= n -> 0 <= x < 2 ^ n -> 0 <= y < 2 ^ n -> 0 <= Z.land x y < 2 ^ n.
Proof.
  intros Hn [Hx Hxb]%bits_lt [Hy Hyb]%bits_lt; try done. apply bits_lt; [done|]. split; [apply Z.land_nonneg; by left|].
  intros i Hi. rewrite Z.land_spec, Hxb by done. done.
Qed.

(** The unsigned image of a value, and its top bit. *)
Lemma unsigned_image t v : in_range t v -> cast (make_unsigned t) v = if v <? 0 then v + 2 ^ bits t else v.
Proof.
  intros Hv. pose proof (cast_in (make_unsigned t) v) as H. destruct (cast_mod (make_unsigned t) v) as [k Hk].
  apply unsigned_range in H. rewrite Hk in *. unfold in_range in Hv.
  destruct (Z.ltb_spec v 0); destruct t; revert H Hv; cbn [make_unsigned]; eval_types; lia.
Qed.

Lemma top_bit t w : is_signed t = true -> 0 <= w < 2 ^ bits t -> Z.testbit w (digits t) = (2 ^ digits t <=? w).
Proof.
  intros Hs Hw. rewrite <- (cast_sign t w Hs Hw). unfold cast. rewrite Z.mod_small, Hs by done. cbn [andb].
  pose proof (pow_bits t) as Hb. rewrite Hs in Hb. destruct (Z.leb_spec (2 ^ digits t) w); [apply Z.ltb_lt; lia | apply Z.ltb_ge; lia].
Qed.

Lemma CheckedAddImpl_exact T x y : in_range T x -> in_range T y ->
  CheckedAddImpl T x y = if in_rangeb T (x + y) then (true, x + y) else (false, 0).
Proof.
  intros Hx Hy. unfold CheckedAddImpl. pose proof (unsigned_bounds T x) as Bx. pose proof (unsigned_bounds T y) as By.
  pose proof (unsigned_bounds T (cast (make_unsigned T) x + cast (make_unsigned T) y)) as Br.
  destruct (cast_mod (make_unsigned T) (cast (make_unsigned T) x + cast (make_unsigned T) y)) as [k Hk].
  set (r := cast (make_unsigned T) (cast (make_unsigned T) x + cast (make_unsigned T) y)) in *.
  rewrite (unsigned_image T x Hx), (unsigned_image T y Hy) in *. set (ux := if x <? 0 then _ else x) in *. set (uy := if y <? 0 then _ else y) in *.
  assert (E : (if is_signed T then cast (make_signed T) (Z.land (Z.lxor r ux) (Z.lxor r uy)) <? 0 else r <? uy) = negb (in_rangeb T (x + y))).
  { destruct (is_signed T) eqn:Es.
    - assert (make_signed T = T) as -> by (by destruct T). assert (0 <= bits T) by (by destruct T).
      rewrite cast_sign by (done || (apply land_bounds; [done | |]; by apply lxor_bounds)).
      rewrite Z.land_spec, !Z.lxor_spec, !(top_bit T) by done. subst ux uy. unfold in_rangeb, in_range in *. destruct (Z.ltb_spec x 0), (Z.ltb_spec y 0);
        (clear Bx By; revert Hx Hy Br Hk; destruct T; try done; eval_types; intros; clearbody r; solve_bools).
    - subst ux uy. unfold in_rangeb, in_range in *. destruct (Z.ltb_spec x 0), (Z.ltb_spec y 0);
        (clear Bx By; revert Hx Hy Br Hk; destruct T; try done; eval_types; intros; clearbody r; solve_bools). }
  rewrite E. destruct (in_rangeb T (x + y)) eqn:Er; [|done]. cbn [negb]. f_equal. apply in_rangeb_spec in Er.
  rewrite <- (cast_id T (x + y) Er). apply cast_congruent. exists (k + (if x <? 0 then 1 else 0) + (if y <? 0 then 1 else 0)).
  rewrite Hk. assert (bits (make_unsigned T) = bits T) as -> by (by destruct T). subst ux uy. destruct (x <? 0), (y <? 0); lia.
Qed.

Lemma CheckedSubImpl_exact T x y : in_range T x -> in_range T y ->
  CheckedSubImpl T x y = if in_rangeb T (x - y) then (true, x - y) else (false, 0).
Proof.
  intros Hx Hy. unfold CheckedSubImpl. pose proof (unsigned_bounds T x) as Bx. pose proof (unsigned_bounds T y) as By.
  pose proof (unsigned_bounds T (cast (make_unsigned T) x - cast (make_unsigned T) y)) as Br.
  destruct (cast_mod (make_unsigned T) (cast (make_unsigned T) x - cast (make_unsigned T) y)) as [k Hk].
  set (r := cast (make_unsigned T) (cast (make_unsigned T) x - cast (make_unsigned T) y)) in *.
  rewrite (unsigned_image T x Hx), (unsigned_image T y Hy) in *. set (ux := if x <? 0 then _ else x) in *. set (uy := if y <? 0 then _ else y) in *.
  assert (E : (if is_signed T then cast (make_signed T) (Z.land (Z.lxor r ux) (Z.lxor ux uy)) <? 0 else x <? y) = negb (in_rangeb T (x - y))).
  { destruct (is_signed T) eqn:Es.
    - assert (make_signed T = T) as -> by (by destruct T). assert (0 <= bits T) by (by destruct T).
      rewrite cast_sign by (done || (apply land_bounds; [done | |]; by apply lxor_bounds)).
      rewrite Z.land_spec, !Z.lxor_spec, !(top_bit T) by done. subst ux uy. unfold in_rangeb, in_range in *. destruct (Z.ltb_spec x 0), (Z.ltb_spec y 0);
        (clear Bx By; revert Hx Hy Br Hk; destruct T; try done; eval_types; intros; clearbody r; solve_bools).
    - unfold in_rangeb, in_range in *. clear Bx By Br Hk. revert Hx Hy. destruct T; try done; eval_types; intros; solve_bools. }
  rewrite E. destruct (in_rangeb T (x - y)) eqn:Er; [|done]. cbn [negb]. f_equal. apply in_rangeb_spec in Er.
  rewrite <- (cast_id T (x - y) Er). apply cast_congruent. exists (k + (if x <? 0 then 1 else 0) - (if y <? 0 then 1 else 0)).
  rewrite Hk. assert (bits (make_unsigned T) = bits T) as -> by (by destruct T). subst ux uy. destruct (x <? 0), (y <? 0); lia.
Qed.

Lemma SafeUnsignedAbs_exact t v : in_range t v -> SafeUnsignedAbs t v = Z.abs v.
Proof.
  intros Hv. unfold SafeUnsignedAbs. rewrite (IsValueNegative_spec t v Hv). pose proof (unsigned_image t v Hv) as E.
  destruct (Z.ltb_spec v 0); rewrite E; [|lia].
  assert (Hc : forall a, cast (make_unsigned t) (cast (common uint32_t (make_unsigned t)) a) = cast (make_unsigned t) a).
  { intros a. apply cast_congruent. destruct (cast_mod (common uint32_t (make_unsigned t)) a) as [k ->].
    destruct t; eval_types; [exists (k * 2 ^ 24) | exists (k * 2 ^ 24) | exists (k * 2 ^ 16) | exists (k * 2 ^ 16) | exists k | exists k | exists k | exists k];
      eval_types; lia. }
  rewrite Hc. rewrite <- (cast_id (make_unsigned t) (Z.abs v)).
  - apply cast_congruent. exists (-1). assert (bits (make_unsigned t) = bits t) as -> by (by destruct t). lia.
  - apply unsigned_range. unfold in_range in Hv. revert Hv. destruct t; eval_types; lia.
Qed.

Lemma lxor_sign x y : (0 <=? Z.lxor x y) = negb (xorb (0 <=? x) (0 <=? y)).
Proof.
  destruct (Z.leb_spec 0 (Z.lxor x y)) as [H|H], (Z.leb_spec 0 x), (Z.leb_spec 0 y); cbn; try done; exfalso.
  all: try (apply Z.lxor_nonneg in H; lia). all: apply Z.nle_gt in H; apply H, Z.lxor_nonneg; lia.
Qed.

Lemma lxor_signed_bounds x y n : 0 <= n -> - 2 ^ n <= x < 2 ^ n -> - 2 ^ n <= y < 2 ^ n -> - 2 ^ n <= Z.lxor x y < 2 ^ n.
Proof.
  intros Hn Hx Hy. assert (Hl : forall a, Z.lnot a = - a - 1) by (unfold Z.lnot; lia).
  destruct (Z.ltb_spec x 0), (Z.ltb_spec y 0).
  - rewrite <- Z.lxor_lnot_lnot. pose proof (lxor_bounds (Z.lnot x) (Z.lnot y) n). rewrite !Hl in *. lia.
  - pose proof (lxor_bounds (Z.lnot x) y n) as Hb. rewrite <- Z.lnot_lxor_l, !Hl in Hb. lia.
  - pose proof (lxor_bounds x (Z.lnot y) n) as Hb. rewrite <- Z.lnot_lxor_r, !Hl in Hb. lia.
  - pose proof (lxor_bounds x y n). lia.
Qed.

Lemma lxor_in_range t x y : is_signed t = true -> in_range t x -> in_range t y -> in_range t (Z.lxor x y).
Proof.
  unfold in_range, limits_lowest, limits_max. intros -> Hx Hy. pose proof (lxor_signed_bounds x y (digits t) ltac:(by destruct t)). lia.
Qed.

(** The guard of the multiplication: the division tells whether the product fits. *)
Lemma mul_guard a b hi c : 0 <= a -> 0 <= b -> 0 <= c <= 1 -> a * c <= hi ->
  (c <? b) && (hi / b <? a) = negb (a * b <=? hi).
Proof.
  intros Ha Hb Hc Hhi. destruct (Z.ltb_spec c b); cbn [andb].
  - destruct (Z.ltb_spec (hi / b) a) as [Hd|Hd], (Z.leb_spec (a * b) hi) as [Hm|Hm]; cbn; try done; exfalso.
    + assert (a <= hi / b) by (apply Z.div_le_lower_bound; lia). lia.
    + assert (b * (hi / b) <= hi) by (apply Z.mul_div_le; lia). nia.
  - symmetry. apply negb_false_iff, Z.leb_le. assert (b = 0 \/ b = c) as [->| ->] by lia; [nia | done].
Qed.

(** The portable multiplication, on the 64-bit types it is instantiated with. *)
Lemma CheckedMulImpl_exact T x y : bits T = 64 -> in_range T x -> in_range T y ->
  CheckedMulImpl T x y = if in_rangeb T (x * y) then (true, x * y) else (false, 0).
Proof.
  intros Hb Hx Hy. unfold CheckedMulImpl. rewrite !SafeUnsignedAbs_exact by done.
  assert (E : is_signed T && (cast (make_signed T) (Z.lxor x y) <? 0) = is_signed T && xorb (x <? 0) (y <? 0)).
  { destruct (is_signed T) eqn:Es; [cbn [andb] | done]. assert (make_signed T = T) as -> by (by destruct T).
    rewrite cast_id by (by apply lxor_in_range). rewrite !Z.ltb_antisym, lxor_sign. by destruct (0 <=? x), (0 <=? y). }
  rewrite E. clear E. set (neg := is_signed T && _).
  assert (Hmul : Z.abs x * Z.abs y = Z.abs (x * y)) by (symmetry; apply Z.abs_mul).
  assert (Hsg : neg = true -> x * y <= 0) by (subst neg; destruct (is_signed T), (Z.ltb_spec x 0), (Z.ltb_spec y 0); cbn; try done; nia).
  assert (Hsg' : neg = false -> 0 <= x * y).
  { subst neg. unfold in_range, limits_lowest in Hx, Hy. destruct (is_signed T), (Z.ltb_spec x 0), (Z.ltb_spec y 0); cbn; try done; nia. }
  assert (Hlim : cast (make_unsigned T) (cast (make_unsigned T) (limits_max T) + Z.b2z neg) = limits_max T + Z.b2z neg).
  { subst neg. destruct T; try done; destruct (x <? 0), (y <? 0); vm_compute; reflexivity. }
  rewrite Hlim. clear Hlim. set (hi := limits_max T + Z.b2z neg).
  assert (Hfit : in_rangeb T (x * y) = (Z.abs x * Z.abs y <=? hi)).
  { rewrite Hmul. unfold in_rangeb. subst hi. assert (limits_lowest T = if is_signed T then - limits_max T - 1 else 0) as -> by (by destruct T).
    pose proof (max_ge_0 T). destruct neg eqn:En; cbn [Z.b2z]; [specialize (Hsg eq_refl) | specialize (Hsg' eq_refl)].
    - assert (is_signed T = true) as -> by (subst neg; by destruct (is_signed T)). solve_bools.
    - destruct (is_signed T); solve_bools. }
  assert (Hcond : (Z.b2z (negb (is_signed T) || neg) <? Z.abs y) && (hi / Z.abs y <? Z.abs x) = negb (in_rangeb T (x * y))).
  { rewrite Hfit. apply mul_guard; [lia | lia | destruct (_ || _); cbn; lia |]. subst hi. pose proof (max_ge_0 T).
    assert (Hns : is_signed T = false -> neg = false) by (subst neg; by intros ->).
    assert (Habs : Z.abs x <= limits_max T + Z.b2z (is_signed T)) by (unfold in_range in Hx; revert Hx; clear; destruct T; eval_types; cbn; lia).
    destruct (is_signed T); [destruct neg | rewrite (Hns eq_refl)]; cbn in *; lia. }
  rewrite Hcond. destruct (in_rangeb T (x * y)) eqn:Er; [|done]. cbn [negb]. f_equal. apply in_rangeb_spec in Er. clear Hcond Hfit.
  rewrite <- (cast_id T (x * y) Er). rewrite Hmul. apply cast_congruent. assert (Hbu : bits (make_unsigned T) = bits T) by (by destruct T).
  destruct (cast_mod (make_unsigned T) (Z.abs (x * y))) as [k Hk]. rewrite Hk, Hbu. destruct neg.
  - destruct (cast_mod (make_unsigned T) (0 - (Z.abs (x * y) + k * 2 ^ bits T))) as [k' ->]. rewrite Hbu. exists (k' - k). specialize (Hsg eq_refl). lia.
  - exists k. specialize (Hsg' eq_refl). lia.
Qed.

(** *** The operations against the integers *)

Definition fits (ok : bool) (v : Z) : bool * Z := if ok then (true, v) else (false, 0).

(** The last step of every operation: the range check into the destination. *)
Lemma narrow_exact V P p : in_range P p ->
  (if negb (IsValueInRangeForNumericType V P p) then (false, 0) else (true, cast V p)) = fits (in_rangeb V p) p.
Proof.
  intros Hp. rewrite in_range_exact by done. unfold fits. destruct (in_rangeb V p) eqn:E; [|done]. cbn [negb]. by rewrite cast_id by (by apply in_rangeb_spec).
Qed.

Lemma fast_width T U : IntegerBitsPlusSign int64_t <? IntegerBitsPlusSign (fast_promotion T U) = false.
Proof. destruct T, U; vm_compute; reflexivity. Qed.

(** The portable code is instantiated with a type twice as wide, or a 64-bit one. *)
Lemma unsafe_width T U : IsIntegerArithmeticSafe (fast_promotion T U) T U = false -> bits (fast_promotion T U) = 64.
Proof. destruct T, U; vm_compute; congruence. Qed.

Lemma safe_add T U x y : IsIntegerArithmeticSafe (fast_promotion T U) T U = true -> in_range T x -> in_range U y -> in_range (fast_promotion T U) (x + y).
Proof. unfold in_range. destruct T, U; intros Hs; try discriminate Hs; clear Hs; eval_types; intros; lia. Qed.

(** The types [Do] is called with: the left operand's for an assignment, [result_type]
    for an operator. *)
Definition destination (m : math) (T U V : ity) : Prop := V = T \/ V = result_type m T U.

(** Unsigned operands subtract in an unsigned type: a negative difference wraps to a value
    that does not fit the destination. *)
Lemma safe_sub T U V x y : IsIntegerArithmeticSafe (fast_promotion T U) T U = true -> destination Sub T U V -> in_range T x -> in_range U y ->
  in_range (fast_promotion T U) (x - y) \/ x - y < 0 /\ in_rangeb V (cast (fast_promotion T U) (x - y)) = false /\ limits_lowest V = 0.
Proof.
  unfold in_range, destination. destruct (Z.ltb_spec (x - y) 0) as [Hn|Hn].
  - intros Hs HV Hx Hy. destruct (is_signed T || is_signed U) eqn:Es; [left|right].
    + revert Hx Hy. clear HV. destruct T, U; try discriminate Hs; try discriminate Es; eval_types; lia.
    + split; [done|]. assert (HVu : limits_lowest V = 0 /\ limits_max V < 2 ^ bits (fast_promotion T U) - limits_max U).
      { clear Hx Hy. destruct T, U; try discriminate Hs; try discriminate Es; destruct HV as [-> | ->]; vm_compute; split; reflexivity. }
      split; [|apply HVu]. apply in_rangeb_false. right. destruct HVu as [_ HVu].
      rewrite <- (cast_congruent (fast_promotion T U) (x - y + 2 ^ bits (fast_promotion T U))) by (exists 1; lia).
      rewrite cast_id; [|unfold in_range]; revert Hx Hy HVu; clear -Hs Es Hn; destruct T, U; try discriminate Hs; try discriminate Es; eval_types; lia.
  - intros Hs _ Hx Hy. left. revert Hx Hy. destruct T, U; try discriminate Hs; clear Hs; eval_types; lia.
Qed.

Lemma safe_mul T U x y : IsIntegerArithmeticSafe (fast_promotion T U) T U = true -> in_range T x -> in_range U y -> in_range (fast_promotion T U) (x * y).
Proof. unfold in_range. destruct T, U; intros Hs; try discriminate Hs; clear Hs; eval_types; intros; nia. Qed.

Lemma portable_sum_exact op impl T U V x y :
  (forall P a b, in_range P a -> in_range P b -> impl P a b = fits (in_rangeb P (op a b)) (op a b)) ->
  let P := fast_promotion T U in
  (IsIntegerArithmeticSafe P T U = true -> in_range P (op x y) \/ in_rangeb P (op x y) = false /\ in_rangeb V (cast P (op x y)) = false) ->
  in_range T x -> in_range U y ->
  portable_sum op impl T U V x y = fits (in_rangeb P x && in_rangeb P y && in_rangeb P (op x y) && in_rangeb V (op x y)) (op x y).
Proof.
  intros Himpl P Hsafe Hx Hy. unfold portable_sum. rewrite fast_width. fold P. rewrite !in_range_exact by done.
  destruct (in_rangeb P x) eqn:Ex; [|done]. destruct (in_rangeb P y) eqn:Ey; [|done]. cbn [negb orb andb].
  apply in_rangeb_spec in Ex, Ey. rewrite !(cast_id P x), !(cast_id P y) by done. destruct (IsIntegerArithmeticSafe P T U).
  - cbn [negb orb]. rewrite narrow_exact by apply cast_in. destruct (Hsafe eq_refl) as [Hin|[-> ->]]; [|done].
    rewrite cast_id by done. apply in_rangeb_spec in Hin. by rewrite Hin.
  - rewrite Himpl by done. unfold fits at 1. destruct (in_rangeb P (op x y)) eqn:Er; [|done]. cbn [negb orb andb].
    apply in_rangeb_spec in Er. by rewrite narrow_exact.
Qed.

(** Whether the promoted type of the portable code holds the operands and the result. *)
Definition promotion_holds (T U : ity) (x y r : Z) : bool :=
  in_rangeb (fast_promotion T U) x && in_rangeb (fast_promotion T U) y && in_rangeb (fast_promotion T U) r.

Lemma CheckedAddOp_exact tc T U V x y : in_range T x -> in_range U y ->
  CheckedAddOp tc T U V x y =
  match tc with
  | Portable => fits (promotion_holds T U x y (x + y) && in_rangeb V (x + y)) (x + y)
  | _ => builtin_fits V (x + y)
  end.
Proof.
  intros Hx Hy. destruct tc; try done. apply portable_sum_exact; [intros; by apply CheckedAddImpl_exact | | done | done].
  intros Hs. left. by apply safe_add.
Qed.

Lemma CheckedSubOp_exact tc T U V x y : destination Sub T U V -> in_range T x -> in_range U y ->
  CheckedSubOp tc T U V x y =
  match tc with
  | Portable => fits (promotion_holds T U x y (x - y) && in_rangeb V (x - y)) (x - y)
  | _ => builtin_fits V (x - y)
  end.
Proof.
  intros HV Hx Hy. destruct tc; try done. apply portable_sum_exact; [intros; by apply CheckedSubImpl_exact | | done | done].
  intros Hs. destruct (safe_sub T U V x y Hs HV Hx Hy) as [|(Hn & Hf & _)]; [by left|].
  destruct (in_rangeb (fast_promotion T U) (x - y)) eqn:Er; [left; by apply in_rangeb_spec | by right].
Qed.

(** From here on the operations are compared with [exact] when they report success. *)
Definition sound (m : math) (V : ity) (x y : Z) (result : bool * Z) : Prop :=
  forall r, result = (true, r) -> exact m x y = Some r /\ in_range V r.

Lemma fits_sound m V x y ok v : (ok = true -> exact m x y = Some v /\ in_range V v) -> sound m V x y (fits ok v).
Proof. intros H r. unfold fits. destruct ok; [|done]. intros [= <-]. by apply H. Qed.

Lemma narrow_sound m V P x y p : in_range P p -> exact m x y = Some p ->
  sound m V x y (if negb (IsValueInRangeForNumericType V P p) then (false, 0) else (true, cast V p)).
Proof. intros Hp He. rewrite narrow_exact by done. apply fits_sound. intros Hv. by apply in_rangeb_spec in Hv. Qed.

Lemma builtin_sound m V x y v : exact m x y = Some v -> sound m V x y (builtin_fits V v).
Proof. intros He r. unfold builtin_fits. intros [= Hr <-]. apply in_rangeb_spec in Hr. by rewrite cast_id. Qed.

Lemma zero_in t : in_range t 0.
Proof. unfold in_range. pose proof (lowest_le_0 t). pose proof (max_ge_0 t). lia. Qed.

Lemma Add_sound tc T U V x y : in_range T x -> in_range U y -> sound Add V x y (CheckedAddOp tc T U V x y).
Proof.
  intros Hx Hy. rewrite CheckedAddOp_exact by done. destruct tc; try by apply builtin_sound.
  apply fits_sound. intros [_ Hv]%andb_true_iff. by apply in_rangeb_spec in Hv.
Qed.

Lemma Sub_sound tc T U V x y : destination Sub T U V -> in_range T x -> in_range U y -> sound Sub V x y (CheckedSubOp tc T U V x y).
Proof.
  intros HV Hx Hy. rewrite CheckedSubOp_exact by done. destruct tc; try by apply builtin_sound.
  apply fits_sound. intros [_ Hv]%andb_true_iff. by apply in_rangeb_spec in Hv.
Qed.

Lemma Mul_sound tc T U V x y : in_range T x -> in_range U y -> sound Mul V x y (CheckedMulOp tc T U V x y).
Proof.
  intros Hx Hy. unfold CheckedMulOp. destruct (CheckedMulFastOp_supported tc T U); [by apply builtin_sound|].
  set (P := fast_promotion T U). rewrite !in_range_exact by done.
  destruct ((negb (in_rangeb P x) || negb (in_rangeb P y)) && negb (x =? 0) && negb (y =? 0)) eqn:Eg; [by intros r|].
  assert (Hprod : cast P x * cast P y = x * y).
  { destruct (Z.eqb_spec x 0) as [->|]; [by rewrite (cast_id P 0) by apply zero_in|].
    destruct (Z.eqb_spec y 0) as [->|]; [rewrite (cast_id P 0) by apply zero_in; lia|].
    rewrite !andb_true_r in Eg. apply orb_false_iff in Eg as [Ex%negb_false_iff Ey%negb_false_iff]. apply in_rangeb_spec in Ex, Ey. by rewrite !cast_id. }
  assert (Hmul : forall q, q = (if CheckedMulFastOp_supported tc P P then builtin_fits P (cast P x * cast P y)
      else if IsIntegerArithmeticSafe P T U then (true, cast P (cast P x * cast P y)) else CheckedMulImpl P (cast P x) (cast P y)) ->
    q.1 = true -> q.2 = x * y /\ in_range P (x * y)).
  { intros q -> Hq. destruct (CheckedMulFastOp_supported tc P P).
    - rewrite Hprod in *. apply in_rangeb_spec in Hq. split; [by apply cast_id | done].
    - destruct (IsIntegerArithmeticSafe P T U) eqn:Es.
      + rewrite Hprod. assert (in_range P (x * y)) by (by apply safe_mul). split; [by apply cast_id | done].
      + rewrite CheckedMulImpl_exact, Hprod in * by (apply cast_in || by apply unsafe_width).
        destruct (in_rangeb P (x * y)) eqn:Er; [|done]. split; [done | by apply in_rangeb_spec]. }
  specialize (Hmul _ eq_refl). destruct (if CheckedMulFastOp_supported tc P P then _ else _) as [ok p]. cbn [fst snd] in Hmul.
  destruct ok; [|by intros r]. destruct (Hmul eq_refl) as [-> Hin]. cbn [negb orb]. by apply narrow_sound.
Qed.

Lemma quot_in_range P x y : in_range P x -> in_range P y -> y <> 0 -> ~ (is_signed P = true /\ x = limits_lowest P /\ y = -1) -> in_range P (Z.quot x y).
Proof.
  intros Hx Hy H0 Hno. pose proof (max_ge_0 P) as Hmax. unfold in_range in *. assert (Hlo : limits_lowest P = if is_signed P then - limits_max P - 1 else 0) by (by destruct P).
  pose proof (Z.quot_rem' x y) as Hqr. pose proof (Z.rem_bound_abs x y H0) as Hr. pose proof (Z.rem_sign_mul x y H0) as Hsg.
  assert (Habs : Z.abs (Z.quot x y) <= Z.abs x) by nia.
  assert (Habs2 : 2 <= Z.abs y -> 2 * Z.abs (Z.quot x y) <= Z.abs x) by nia.
  destruct (is_signed P); rewrite Hlo in *.
  - destruct (Z.eq_dec y 1) as [->|]; [rewrite Z.quot_1_r; lia|]. destruct (Z.eq_dec y (-1)) as [->|]; [|lia].
    change (-1) with (- (1)). rewrite Z.quot_opp_r, Z.quot_1_r by done. assert (x <> - limits_max P - 1) by naive_solver. lia.
  - assert (0 <= Z.quot x y) by (apply Z.quot_pos; lia). lia.
Qed.

Lemma cast_nonzero P U y : in_range U y -> bits U <= bits P -> y <> 0 -> cast P y <> 0.
Proof.
  intros Hy Hb H0 E. destruct (cast_mod P y) as [k Hk]. rewrite E in Hk. assert (2 ^ bits U <= 2 ^ bits P) by (apply Z.pow_le_mono_r; lia).
  assert (Hlt : - 2 ^ bits U < y < 2 ^ bits U) by (unfold in_range in Hy; revert Hy; clear; destruct U; eval_types; lia).
  set (B := 2 ^ bits P) in *. destruct (Z.lt_trichotomy k 0) as [|[->|]]; [|lia|]; [assert (k * B <= - B) by nia | assert (B <= k * B) by nia]; lia.
Qed.

(** The guard against the quotient that does not fit is exact. *)
Lemma guard_types T U : limits_lowest T <= limits_lowest (big_promotion T U) ->
  is_signed T && IsTypeInRangeForNumericType T (big_promotion T U) = is_signed (big_promotion T U).
Proof. destruct T, U; vm_compute; congruence. Qed.

Lemma negation_guard T U x y : in_range T x -> in_range U y -> let P := big_promotion T U in in_range P x ->
  negation_overflows T U P x y = (is_signed P && (x =? limits_lowest P) && (y =? -1)).
Proof.
  intros Hx Hy P HP. unfold negation_overflows, c_eq. rewrite (cast_id P x HP).
  assert (Hcu : forall w, in_range U w -> cast (common U U) w = w) by (intros w Hw; apply cast_id; by apply common_in_range).
  rewrite !Hcu by (done || apply cast_in). destruct (Z.eqb_spec x (limits_lowest P)) as [E|E]; [|by rewrite !andb_false_r].
  rewrite !andb_true_r. pose proof (guard_types T U) as Hg. fold P in Hg. rewrite <- Hg by (unfold in_range in Hx; lia).
  assert (Hm : is_signed U && (y =? cast U (-1)) = (y =? -1)).
  { destruct (is_signed U) eqn:Es; [rewrite cast_id; [done | destruct U; try done; in_range_lia]|].
    cbn [andb]. symmetry. apply Z.eqb_neq. unfold in_range, limits_lowest in Hy. rewrite Es in Hy. lia. }
  rewrite <- Hm. destruct (is_signed T), (is_signed U), (IsTypeInRangeForNumericType T P); try done.
Qed.

Lemma big_width T U : bits U <= bits (big_promotion T U).
Proof. destruct T, U; vm_compute; congruence. Qed.

Lemma Div_sound T U V x y : in_range T x -> in_range U y -> sound Div V x y (CheckedDivOp T U V x y).
Proof.
  intros Hx Hy. unfold CheckedDivOp. destruct (Z.eqb_spec y 0) as [|H0]; [by intros r|]. set (P := big_promotion T U).
  destruct (negation_overflows T U P x y) eqn:En; [by intros r|]. rewrite !in_range_exact by done.
  destruct ((negb (in_rangeb P x) || negb (in_rangeb P y)) && negb (x =? 0)) eqn:Eg; [by intros r|].
  assert (He : forall q, exact Div x y = Some q <-> Z.quot x y = q) by (intros q; cbn; destruct (Z.eqb_spec y 0); [done|]; split; congruence).
  assert (Hq : Z.quot (cast P x) (cast P y) = Z.quot x y /\ in_range P (Z.quot x y)).
  { destruct (Z.eqb_spec x 0) as [->|Hx0].
    - rewrite (cast_id P 0) by apply zero_in. rewrite !Z.quot_0_l by (done || by (apply (cast_nonzero P U); [done | apply big_width | done])). split; [done | apply zero_in].
    - rewrite andb_true_r in Eg. apply orb_false_iff in Eg as [Ex%negb_false_iff Ey%negb_false_iff]. apply in_rangeb_spec in Ex, Ey.
      rewrite !cast_id by done. split; [done|]. apply quot_in_range; try done. intros (Hs & Hl & Hm).
      rewrite negation_guard in En by done. fold P in En. rewrite Hs, Hl, Hm, Z.eqb_refl in En. done. }
  destruct Hq as [-> Hin]. rewrite (cast_id P (Z.quot x y)) by done. apply narrow_sound; [done | by apply He].
Qed.

Lemma Mod_sound T U V x y : (exists t, BigEnoughPromotion T U = Some (t, true)) -> in_range T x -> in_range U y -> sound Mod V x y (CheckedModOp T U V x y).
Proof.
  intros [t Ht] Hx Hy. unfold CheckedModOp. destruct (Z.eqb_spec y 0) as [|H0]; [by intros r|].
  destruct (BigEnough_spec T U) as (t' & c & E & Hc). rewrite Ht in E. injection E as <- <-. destruct (Hc eq_refl) as [HT HU].
  assert (big_promotion T U = t) as -> by (unfold big_promotion; by rewrite Ht). pose proof (contained_in_range _ _ _ HT Hx) as Px. pose proof (contained_in_range _ _ _ HU Hy) as Py.
  assert (He : exact Mod x y = Some (Z.rem x y)) by (cbn; by destruct (Z.eqb_spec y 0)).
  assert (Htp : big_promotion T U = t) by (unfold big_promotion; by rewrite Ht).
  assert (Hr : in_range t (Z.rem x y)).
  { assert (Habs : Z.abs (Z.rem x y) <= Z.abs x) by (rewrite <- Z.rem_abs by done; apply Z.rem_le; lia).
    pose proof (Z.rem_sign_mul x y H0). unfold in_range in *. pose proof (lowest_le_0 t). pose proof (max_ge_0 t).
    destruct (Z.lt_trichotomy x 0) as [|[->|]]; [assert (Z.rem x y <= 0) by nia | | assert (0 <= Z.rem x y) by nia]; lia. }
  destruct (negation_overflows T U t x y) eqn:En.
  - pose proof (negation_guard T U x y Hx Hy) as Hg. cbv zeta in Hg. rewrite Htp in Hg. rewrite Hg in En by done.
    apply andb_true_iff in En as [_ ->%Z.eqb_eq]. intros r [= <-]. cbn. change (-1) with (- (1)). rewrite Z.rem_opp_r, Z.rem_1_r by done. split; [done | apply zero_in].
  - rewrite !(cast_id t x), !(cast_id t y), !(cast_id t (Z.rem x y)) by done. by apply narrow_sound.
Qed.

(** A shift count, read as unsigned, is below a width exactly when it is one. *)
Lemma as_unsigned_value U s : in_range U s -> as_unsigned U s = if s <? 0 then s + 2 ^ bits U else s.
Proof. apply unsigned_image. Qed.

Lemma shift_count U s : in_range U s -> as_unsigned U s = s /\ 0 <= s \/ 64 < as_unsigned U s /\ s < 0.
Proof.
  intros Hs. rewrite as_unsigned_value by done. destruct (Z.ltb_spec s 0); [right | left; lia]. split; [|done].
  unfold in_range in Hs. revert Hs. destruct U; eval_types; lia.
Qed.

Lemma c_unsigned U s n : in_range U s -> 0 <= n <= 64 ->
  cast (common (make_unsigned U) uint32_t) (as_unsigned U s) = as_unsigned U s /\ cast (common (make_unsigned U) uint32_t) n = n.
Proof.
  intros Hs Hn. assert (H : in_range (make_unsigned U) (as_unsigned U s)) by apply cast_in. unfold in_range in H.
  split; apply cast_id; revert H; unfold in_range; destruct U; cbn [make_unsigned]; eval_types; lia.
Qed.

Lemma digits_bounds T : 7 <= digits T <= 64 /\ digits T <= bits T.
Proof. by destruct T. Qed.

Lemma shiftr_in_range T x s : in_range T x -> 0 <= s -> in_range T (Z.shiftr x s).
Proof.
  intros Hx Hs. rewrite Z.shiftr_div_pow2 by done. assert (0 < 2 ^ s) by (apply Z.pow_pos_nonneg; lia). unfold in_range in *.
  pose proof (lowest_le_0 T). pose proof (max_ge_0 T). split; [apply Z.div_le_lower_bound; nia | apply Z.div_le_upper_bound; nia].
Qed.

Lemma Lsh_sound T U x s : in_range T x -> in_range U s -> sound Lsh T x s (CheckedLshOp T U T x s).
Proof.
  intros Hx Hs r. unfold CheckedLshOp, c_lt, c_eq. pose proof (digits_bounds T) as [Hd Hdb].
  assert (as_unsigned int32_t (digits T) = digits T) as -> by (apply cast_id; in_range_lia).
  destruct (c_unsigned U s (digits T) Hs) as [-> ->]; [lia|]. rewrite (IsValueNegative_spec T x Hx).
  destruct (shift_count U s Hs) as [[-> Hs0]|[Hbig Hneg]].
  2: { replace (as_unsigned U s <? digits T) with false by (symmetry; apply Z.ltb_ge; lia). rewrite andb_false_r.
       replace (as_unsigned U s =? digits T) with false by (symmetry; apply Z.eqb_neq; lia). rewrite orb_true_r. done. }
  assert (He : exact Lsh x s = Some (x * 2 ^ s)) by (cbn; by destruct (Z.ltb_spec s 0); [lia|]). rewrite He.
  destruct (negb (x <? 0) && (s <? digits T)) eqn:Eg.
  - apply andb_true_iff in Eg as [Hx0%negb_true_iff%Z.ltb_ge Hsd%Z.ltb_lt]. intros [= Heq <-]. split; [|apply cast_in]. f_equal. apply Z.eqb_eq in Heq.
    set (res := cast T _) in *. pose proof (cast_in T (cast (promote (make_unsigned T)) (Z.shiftl (as_unsigned T x) s))) as Hr. fold res in Hr.
    assert (Hc : forall w, in_range T w -> cast (common (promote T) T) w = w) by (intros w Hw; apply cast_id; unfold in_range in *; revert Hw; destruct T; eval_types; lia).
    assert (Hsh : in_range T (Z.shiftr res s)) by (by apply shiftr_in_range). rewrite !Hc in Heq by done. rewrite Z.shiftr_div_pow2 in Heq by done.
    assert (Hk : exists k, res = x * 2 ^ s + k * 2 ^ bits T).
    { subst res. destruct (cast_mod T (cast (promote (make_unsigned T)) (Z.shiftl (as_unsigned T x) s))) as [k1 ->].
      destruct (cast_mod (promote (make_unsigned T)) (Z.shiftl (as_unsigned T x) s)) as [k2 ->]. unfold as_unsigned.
      rewrite (unsigned_image T x Hx). replace (x <? 0) with false by (symmetry; by apply Z.ltb_ge). rewrite Z.shiftl_mul_pow2 by done.
      assert (2 ^ bits (promote (make_unsigned T)) = 2 ^ (bits (promote (make_unsigned T)) - bits T) * 2 ^ bits T) as -> by (by destruct T).
      exists (k2 * 2 ^ (bits (promote (make_unsigned T)) - bits T) + k1). lia. }
    destruct Hk as [k Hk]. assert (0 < 2 ^ s) by (apply Z.pow_pos_nonneg; lia). assert (2 ^ s < 2 ^ bits T) by (apply Z.pow_lt_mono_r; lia).
    pose proof (Z.div_mod res (2 ^ s) ltac:(lia)) as Hdm. pose proof (Z.mod_pos_bound res (2 ^ s) ltac:(lia)).
    set (B := 2 ^ bits T) in *. assert (k = 0) as -> by (rewrite Heq in Hdm; destruct (Z.lt_trichotomy k 0) as [|[|]]; [nia | done | nia]). lia.
  - destruct (Z.eqb_spec x 0) as [->|]; [|rewrite orb_true_r; by destruct (negb (is_signed T))].
    destruct (Z.eqb_spec s (digits T)); [|by rewrite orb_true_r]. rewrite !orb_false_r.
    destruct (negb (is_signed T)); [done|]. intros [= <-]. split; [by rewrite Z.mul_0_l | apply zero_in].
Qed.

Lemma Rsh_sound T U V x s : in_range T x -> in_range U s -> sound Rsh V x s (CheckedRshOp T U V x s).
Proof.
  intros Hx Hs. unfold CheckedRshOp, c_le. assert (IntegerBitsPlusSign T = bits T) as -> by (unfold IntegerBitsPlusSign, digits; lia).
  assert (Hb : 8 <= bits T <= 64) by (by destruct T).
  assert (cast (common int32_t (make_unsigned U)) (bits T) = bits T /\ cast (common int32_t (make_unsigned U)) (as_unsigned U s) = as_unsigned U s) as [-> ->].
  { assert (H : in_range (make_unsigned U) (as_unsigned U s)) by apply cast_in. unfold in_range in H.
    split; apply cast_id; revert H; unfold in_range; clear -Hb; destruct U; cbn [make_unsigned]; eval_types; lia. }
  destruct (shift_count U s Hs) as [[-> Hs0]|[Hbig Hneg]].
  - destruct (Z.leb_spec (bits T) s); [by intros r|]. assert (Hin : in_range T (Z.shiftr x s)) by (by apply shiftr_in_range). rewrite (cast_id T) by done.
    apply narrow_sound; [done|]. cbn. destruct (Z.ltb_spec s 0); [lia|]. by rewrite Z.shiftr_div_pow2.
  - replace (bits T <=? as_unsigned U s) with true by (symmetry; apply Z.leb_le; lia). by intros r.
Qed.

Lemma Max_sound T U V x y : in_range T x -> in_range U y -> sound Max V x y (CheckedMaxOp T U V x y).
Proof.
  intros Hx Hy. unfold CheckedMaxOp. rewrite IsGreater_exact by done. set (R := MaxExponentPromotion T U).
  assert (Hin : in_range R (Z.max x y)) by (unfold in_range in *; revert Hx Hy; subst R; clear; destruct T, U; eval_types; lia).
  assert ((if y <? x then cast R x else cast R y) = Z.max x y) as ->.
  { destruct (Z.ltb_spec y x); (rewrite cast_id; [lia|]); [replace x with (Z.max x y) by lia | replace y with (Z.max x y) by lia]; done. }
  by apply narrow_sound.
Qed.

Lemma Min_sound T U V x y : in_range T x -> in_range U y -> sound Min V x y (CheckedMinOp T U V x y).
Proof.
  intros Hx Hy. unfold CheckedMinOp. rewrite IsLess_exact by done. set (R := LowestValuePromotion T U).
  assert (Hin : in_range R (Z.min x y)) by (unfold in_range in *; revert Hx Hy; subst R; clear; destruct T, U; eval_types; lia).
  assert ((if x <? y then cast R x else cast R y) = Z.min x y) as ->.
  { destruct (Z.ltb_spec x y); (rewrite cast_id; [lia|]); [replace x with (Z.min x y) by lia | replace y with (Z.min x y) by lia]; done. }
  by apply narrow_sound.
Qed.

Lemma bitwise_sound m op T U V x y :
  (forall a b n, 0 <= n -> 0 <= a < 2 ^ n -> 0 <= b < 2 ^ n -> 0 <= op a b < 2 ^ n) -> exact m x y = Some (op x y) ->
  is_signed T = false -> is_signed U = false -> in_range T x -> in_range U y -> sound m V x y (bitwise_op op T U V x y).
Proof.
  intros Hop He HT HU Hx Hy. unfold bitwise_op. set (R := make_unsigned (MaxExponentPromotion T U)).
  assert (Hxy : 0 <= x < 2 ^ bits R /\ 0 <= y < 2 ^ bits R).
  { unfold in_range in *. revert Hx Hy. subst R. clear -HT HU. destruct T; try discriminate HT; destruct U; try discriminate HU; eval_types; lia. }
  assert (Hr : forall v, 0 <= v < 2 ^ bits R -> in_range R v).
  { intros v Hv. apply (unsigned_range (MaxExponentPromotion T U)). revert Hv. subst R. clear. destruct T, U; done. }
  destruct Hxy as [Bx By]. rewrite !(cast_id R x), !(cast_id R y), (cast_id R (op x y)) by (apply Hr; try done; apply Hop; try done; by destruct R).
  apply narrow_sound; [|done]. apply Hr, Hop; try done. by destruct R.
Qed.

(** The operand types on which success means the exact result.  The remainder does not
    check its operands, so a negative dividend must survive the promotion; bitwise
    operations work on unsigned images. *)
Definition op_ok (m : math) (T U : ity) : bool :=
  match m with
  | Mod => match BigEnoughPromotion T U with Some (_, c) => c | None => false end
  | And | Or | Xor => negb (is_signed T) && negb (is_signed U)
  | _ => true
  end.

Lemma Do_sound tc m T U V x y :
  op_ok m T U = true -> destination m T U V -> in_range T x -> in_range U y -> sound m V x y (Do tc m T U V x y).
Proof.
  intros Hok HV Hx Hy. destruct m; cbn [Do].
  - by apply Add_sound.
  - by apply Sub_sound.
  - by apply Mul_sound.
  - by apply Div_sound.
  - apply Mod_sound; try done. cbn in Hok. destruct (BigEnoughPromotion T U) as [[t []]|]; try done. by exists t.
  - assert (V = T) as -> by (by destruct HV). by apply Lsh_sound.
  - by apply Rsh_sound.
  - apply andb_true_iff in Hok as [?%negb_true_iff ?%negb_true_iff]. apply bitwise_sound; try done. apply land_bounds.
  - apply andb_true_iff in Hok as [?%negb_true_iff ?%negb_true_iff]. apply bitwise_sound; try done. apply lor_bounds.
  - apply andb_true_iff in Hok as [?%negb_true_iff ?%negb_true_iff]. apply bitwise_sound; try done. apply lxor_bounds.
  - by apply Max_sound.
  - by apply Min_sound.
Qed.

(** *** Expressions *)

(** An expression over plain integers with the overloaded operators; [Opp] is the minus
    of [MakeCheckedNum] of its operand. *)
Inductive expr := Lit (t : ity) (v : Z) | Op (m : math) (a b : expr) | Opp (e : expr).

Definition checked (o : operand) : CheckedNumeric := match o with Pod t v => CheckedNumeric_new t t v | Num n => n end.

Fixpoint eval (tc : toolchain) (e : expr) : operand :=
  match e with
  | Lit t v => Pod t v
  | Op m a b => Num (CheckMathOp tc m (eval tc a) (eval tc b))
  | Opp e => Num (Negate (checked (eval tc e)))
  end.

Fixpoint expr_type (e : expr) : ity :=
  match e with
  | Lit t _ => t
  | Op m a b => result_type m (expr_type a) (expr_type b)
  | Opp e => expr_type e
  end.

Fixpoint denote (e : expr) : option Z :=
  match e with
  | Lit _ v => Some v
  | Op m a b => x ← denote a; y ← denote b; exact m x y
  | Opp e => x ← denote e; Some (- x)
  end.

Fixpoint well_typed (e : expr) : Prop :=
  match e with
  | Lit t v => in_range t v
  | Op m a b => well_typed a /\ well_typed b /\ op_ok m (expr_type a) (expr_type b) = true
  | Opp e => well_typed e /\ is_signed (expr_type e) = true
  end.

Lemma MathOp_value tc m T l r : in_range T (value_ (MathOp tc m T l r)) /\ type (MathOp tc m T l r) = T.
Proof. unfold MathOp. destruct (if _ && _ then _ else _) as [ok v]. split; [apply cast_in | done]. Qed.

Lemma eval_typed tc e : well_typed e -> UnderlyingType (eval tc e) = expr_type e /\ in_range (expr_type e) (Wrapper_value (eval tc e)).
Proof.
  induction e as [t v|m a IHa b IHb|e IHe]; cbn [well_typed eval expr_type].
  - done.
  - intros (Ha & Hb & _). destruct (IHa Ha) as [Ta _], (IHb Hb) as [Tb _]. cbn [UnderlyingType Wrapper_value]. unfold CheckMathOp. rewrite Ta, Tb.
    destruct (MathOp_value tc m (result_type m (expr_type a) (expr_type b)) (eval tc a) (eval tc b)). done.
  - intros (He & _). destruct (IHe He) as [Te Hv]. cbn. destruct (eval tc e); cbn in *; rewrite Te; split; try done; apply cast_in.
Qed.

Lemma State_valid T v ok : in_range T v -> is_valid_ (CheckedNumericState T T v ok) = ok /\ value_ (CheckedNumericState T T v ok) = v /\
  IsValid T (CheckedNumericState T T v ok) = ok.
Proof.
  intros Hv. unfold CheckedNumericState, IsValid. cbn. rewrite !in_range_exact, (cast_id T v Hv) by (done || by rewrite cast_id).
  apply in_rangeb_spec in Hv. by rewrite Hv, !andb_true_r.
Qed.

Lemma Negate_value T x : is_signed T = true -> in_range T x -> (NegateWrapper T x =? limits_lowest T) = (x =? limits_lowest T) /\
  (x <> limits_lowest T -> NegateWrapper T x = - x).
Proof.
  intros Hs Hx. unfold NegateWrapper. assert (Hl : limits_lowest T = - limits_max T - 1) by (by destruct T). unfold in_range in Hx.
  assert (Hbt : 2 ^ bits T = 2 * limits_max T + 2) by (by destruct T).
  assert (E : cast T (0 - cast (make_unsigned T) x) = cast T (- x)).
  { apply cast_congruent. destruct (cast_mod (make_unsigned T) x) as [k ->]. assert (bits (make_unsigned T) = bits T) as -> by (by destruct T). exists (- k). lia. }
  rewrite E. destruct (Z.eqb_spec x (limits_lowest T)) as [->|Hne].
  - split; [|done]. apply Z.eqb_eq. rewrite <- (cast_id T (limits_lowest T)) at 2 by (unfold in_range; pose proof (max_ge_0 T); lia).
    apply cast_congruent. exists 1. lia.
  - rewrite cast_id by (unfold in_range; lia). split; [apply Z.eqb_neq; lia | done].
Qed.

Lemma Negate_valid n : in_range (type n) (value_ n) -> is_signed (type n) = true -> IsValid (type n) (Negate n) = true ->
  IsValid (type n) n = true /\ value_ (Negate n) = - value_ n.
Proof.
  intros Hv Hs. destruct (Negate_value (type n) (value_ n) Hs Hv) as [En Ev]. unfold Negate. rewrite Hs, En. cbn [negb orb].
  destruct (State_valid (type n) (NegateWrapper (type n) (value_ n)) (IsValid (type n) n && negb (value_ n =? limits_lowest (type n)))) as (_ & H2 & H3); [apply cast_in|].
  rewrite H2, H3. intros [? Hne%negb_true_iff%Z.eqb_neq]%andb_true_iff. split; [done | by apply Ev].
Qed.

Lemma checked_operand o : in_range (UnderlyingType o) (Wrapper_value o) ->
  type (checked o) = UnderlyingType o /\ value_ (checked o) = Wrapper_value o /\ IsValid (UnderlyingType o) (checked o) = Wrapper_is_valid o.
Proof. destruct o as [t v|n]; cbn; [|done]. intros Hv. destruct (State_valid t v true Hv) as (_ & ? & ?). done. Qed.

Lemma eval_sound tc e : well_typed e -> Wrapper_is_valid (eval tc e) = true -> denote e = Some (Wrapper_value (eval tc e)).
Proof.
  induction e as [t v|m a IHa b IHb|e IHe]; cbn [well_typed eval denote].
  - done.
  - intros (Ha & Hb & Hok). destruct (eval_typed tc a Ha) as [Ta Ra], (eval_typed tc b Hb) as [Tb Rb]. cbn [Wrapper_is_valid Wrapper_value].
    unfold CheckMathOp, MathOp. rewrite Ta, Tb. set (T := result_type m _ _).
    destruct (Wrapper_is_valid (eval tc a)) eqn:Va; [|discriminate]. destruct (Wrapper_is_valid (eval tc b)) eqn:Vb; [|discriminate].
    rewrite (IHa Ha eq_refl), (IHb Hb eq_refl). cbn [andb mbind option_bind].
    pose proof (Do_sound tc m (expr_type a) (expr_type b) T _ _ Hok (or_intror eq_refl) Ra Rb) as Hs.
    destruct (Do tc m _ _ T _ _) as [[] r]; [|discriminate]. destruct (Hs r eq_refl) as [-> Hr]. intros _.
    f_equal. cbn. symmetry. by apply cast_id.
  - intros (He & Hs). destruct (eval_typed tc e He) as [Te Re]. rewrite <- Te in Re, Hs. destruct (checked_operand _ Re) as (Ht & Hv & Hval).
    cbn [Wrapper_is_valid Wrapper_value]. assert (type (Negate (checked (eval tc e))) = type (checked (eval tc e))) as -> by done. intros Hn.
    destruct (Negate_valid (checked (eval tc e))) as [H1 H2]; [by rewrite Ht, Hv | by rewrite Ht | done |]. rewrite H2, Hv.
    rewrite Ht, Hval in H1. by rewrite (IHe He H1).
Qed.

(** C37.  Checked arithmetic never lies where its operand types allow the check: whatever the
    toolchain, if [ValueOrDie<Dst>] of an expression of checked operations returns, the
    integer it returns is the exact value of the expression, computed without any
    overflow, and a value of [Dst].  The expressions are of any depth over integers of any
    width, with sums, differences, products, quotients, shifts, minima and maxima on any
    types; remainders where a promotion holds both operands (not those of a signed operand
    and a 64-bit unsigned one, see [checked_mod_mixed_sign_wrong]); bitwise operations on
    unsigned operands; and negations of signed operands. *)
Theorem checked_expression_exact tc e n Dst v :
  well_typed e -> eval tc e = Num n -> ValueOrDie Dst n = Some v -> denote e = Some v /\ in_range Dst v.
Proof.
  intros Hwt He. destruct (eval_typed tc e Hwt) as [Ht Hr]. pose proof (eval_sound tc e Hwt) as Hs. rewrite He in *. cbn in Ht, Hr, Hs.
  unfold ValueOrDie, IsValid in *. rewrite Ht in *. rewrite in_range_exact in * by done. destruct (is_valid_ n); [|done]. cbn [andb] in *.
  destruct (in_rangeb Dst (value_ n)) eqn:Ed; [|done]. intros [= <-]. apply in_rangeb_spec in Ed. rewrite cast_id by done. split; [|done].
  apply Hs. by apply in_rangeb_spec.
Qed.

(** Sums, differences and products of integers. *)
Fixpoint ring_expr (e : expr) : Prop :=
  match e with
  | Lit t v => in_range t v
  | Op m a b => (m = Add \/ m = Sub \/ m = Mul) /\ ring_expr a /\ ring_expr b
  | Opp _ => False
  end.

(** Every subexpression fits the type the templates compute for it. *)
Fixpoint representable (e : expr) : bool :=
  match e with
  | Lit _ _ => true
  | Op m a b => representable a && representable b && match denote e with Some v => in_rangeb (expr_type e) v | None => false end
  | Opp e' => representable e' && match denote e with Some v => in_rangeb (expr_type e) v | None => false end
  end.

Lemma ring_typed e : ring_expr e -> well_typed e.
Proof.
  induction e as [t v|m a IHa b IHb|e IHe]; cbn [ring_expr well_typed]; [done | | done]. intros (Hm & Ha & Hb). split_and!; [by apply IHa | by apply IHb|].
  by destruct Hm as [->|[-> | ->]].
Qed.

Lemma ring_Do m T U V x y : m = Add \/ m = Sub \/ m = Mul -> exists v, exact m x y = Some v /\ Do Gcc m T U V x y = builtin_fits V v.
Proof. intros [->|[-> | ->]]; by eexists. Qed.

(** C38.  With the overflow builtins of GCC the check is exact: a sum, difference or product of
    any depth is valid precisely when every intermediate result fits its type, so valid
    computations are never rejected and invalid ones never accepted. *)
Theorem checked_ring_complete e : ring_expr e -> Wrapper_is_valid (eval Gcc e) = representable e.
Proof.
  induction e as [t v|m a IHa b IHb|e IHe]; cbn [ring_expr]; [done | | done]. intros (Hm & Ha & Hb). cbn [eval representable denote Wrapper_is_valid].
  specialize (IHa Ha). specialize (IHb Hb). apply ring_typed in Ha, Hb. destruct (eval_typed Gcc a Ha) as [Ta Ra], (eval_typed Gcc b Hb) as [Tb Rb].
  rewrite <- IHa, <- IHb. unfold CheckMathOp, MathOp. rewrite Ta, Tb. set (T := result_type m _ _).
  destruct (Wrapper_is_valid (eval Gcc a)) eqn:Va; [|done]. destruct (Wrapper_is_valid (eval Gcc b)) eqn:Vb; [|done].
  rewrite (eval_sound Gcc a Ha Va), (eval_sound Gcc b Hb Vb). cbn [andb mbind option_bind].
  destruct (ring_Do m (expr_type a) (expr_type b) T (Wrapper_value (eval Gcc a)) (Wrapper_value (eval Gcc b)) Hm) as (v & -> & ->).
  unfold builtin_fits. cbn [expr_type]. fold T. destruct (State_valid T (cast T v) (in_rangeb T v) (cast_in T v)) as (_ & _ & H). exact H.
Qed.

(** 100 + 27 in [int8_t] and the product with a 16-bit factor. *)
Definition example_expr : expr := Op Mul (Op Add (Lit int8_t 100) (Lit int8_t 27)) (Lit int16_t (-200)).

Lemma checked_expression_exact_witness : denote example_expr = Some (-25400) /\ in_range int32_t (-25400).
Proof.
  apply (checked_expression_exact Portable example_expr (mkNum int16_t true (-25400)) int32_t (-25400)).
  - vm_compute. repeat split; discriminate.
  - vm_compute. reflexivity.
  - vm_compute. reflexivity.
Defined.

Lemma checked_ring_complete_witness : Wrapper_is_valid (eval Gcc example_expr) = true.
Proof.
  rewrite (checked_ring_complete example_expr); [vm_compute; reflexivity|].
  vm_compute. split; [by right; right | split; [|split; discriminate]]. split; [by left | repeat split; discriminate].
Defined.

(** The remainder of a negative 64-bit integer by an unsigned one is taken of its unsigned
    image and reported as valid: -1 modulo 10 is 5. *)
Theorem checked_mod_mixed_sign_wrong tc :
  let n := CheckMathOp tc Mod (Pod int64_t (-1)) (Pod uint64_t 10) in
  ValueOrDie uint64_t n = Some 5 /\ exact Mod (-1) 10 = Some (-1).
Proof. destruct tc; vm_compute; split; reflexivity. Qed.

(** Without the builtins a sum that fits is rejected when a negative operand meets a
    64-bit unsigned one. *)
Theorem portable_sum_rejects : 
  Wrapper_is_valid (Num (CheckMathOp Gcc Add (Pod int64_t (-1)) (Pod uint64_t 10))) = true /\
  Wrapper_is_valid (Num (CheckMathOp Portable Add (Pod int64_t (-1)) (Pod uint64_t 10))) = false.
Proof. vm_compute. split; reflexivity. Qed.

End CheckedMath.
