(* ===== verification/ClampedMath.v ===== *)
(** * Saturating arithmetic (base/numerics/clamped_math_impl.h, clamped_math.h)

    The operation structs [Clamped<Name>Op<T, U>] with their [Do<V>], and
    [ClampedNumeric], on the integer types of Numerics.v.  [constant] is what
    [IsCompileTimeConstant] answers, which selects between equivalent code paths.  The
    assembler paths of 32-bit ARM are not modelled. *)
From stdpp Require Import base option list.
From S2P Require Import Prelude Numerics CheckedMath.
Import Numerics CheckedMath.

Module ClampedMath.

Section Ops.
Variable tc : toolchain.
Variable constant : bool.

Definition MustTreatAsConstexpr : bool := match tc with Portable => true | _ => constant end.

(** [ClampedNegFastOp]: [None] when it is not supported. *)
Definition ClampedNegFastOp (T : ity) (value : Z) : option Z :=
  match tc with
  | Portable => None
  | _ => if is_signed T then
           let '(ok, result) := builtin_fits T (0 - value) in Some (if ok then result else limits_max T)
         else None
  end.

Definition SaturatedNegWrapper (T : ity) (value : Z) : Z :=
  if is_signed T then
    match (if MustTreatAsConstexpr then None else ClampedNegFastOp T value) with
    | None => if negb (NegateWrapper T value =? limits_lowest T) then NegateWrapper T value else limits_max T
    | Some r => r
    end
  else 0.

Definition SaturatedAbsWrapper (T : ity) (value : Z) : Z :=
  let a := SafeUnsignedAbs T value in
  cast T (cast (common (make_unsigned T) int32_t) (a - Z.b2z (IsValueNegative T (cast T a)))).

Definition ClampedAddOp (T U V : ity) (x y : Z) : Z :=
  let saturated := CommonMaxOrMin V V (IsValueNegative U y) in
  let '(ok, result) := CheckedAddOp tc T U V x y in if ok : bool then result else saturated.

Definition ClampedSubOp (T U V : ity) (x y : Z) : Z :=
  let saturated := CommonMaxOrMin V V (negb (IsValueNegative U y)) in
  let '(ok, result) := CheckedSubOp tc T U V x y in if ok : bool then result else saturated.

Definition ClampedMulOp (T U V : ity) (x y : Z) : Z :=
  let saturated := CommonMaxOrMin V V (xorb (IsValueNegative T x) (IsValueNegative U y)) in
  let '(ok, result) := CheckedMulOp tc T U V x y in if ok : bool then result else saturated.

Definition ClampedDivOp (T U V : ity) (x y : Z) : Z :=
  let '(ok, result) := CheckedDivOp T U V x y in
  if ok : bool then result
  else if negb (x =? 0) then CommonMaxOrMin V V (xorb (IsValueNegative T x) (IsValueNegative U y)) else sat_NaN.

Definition ClampedModOp (T U V : ity) (x y : Z) : Z :=
  let '(ok, result) := CheckedModOp T U V x y in if ok : bool then result else cast V x.

(** The shift count is unsigned. *)
Definition ClampedLshOp (T U V : ity) (x shift : Z) : Z :=
  let result := cast V (cast (promote (make_unsigned T)) (Z.shiftl (as_unsigned T x) shift)) in
  if c_lt U shift int32_t (digits T) && c_eq (promote V) (Z.shiftr result shift) T x then result
  else if negb (x =? 0) then CommonMaxOrMin V V (IsValueNegative T x) else 0.

Definition ClampedRshOp (T U V : ity) (x shift : Z) : Z :=
  let saturated := cast V (as_unsigned V 0 - Z.b2z (IsValueNegative T x)) in
  if c_lt U shift int32_t (IntegerBitsPlusSign T) then saturated_cast constant V (promote T) (Z.shiftr x shift) else saturated.

Definition clamped_bitwise (op : Z -> Z -> Z) (T U V : ity) (x y : Z) : Z :=
  let R := make_unsigned (MaxExponentPromotion T U) in cast V (op (cast R x) (cast R y)).
Definition ClampedAndOp := clamped_bitwise Z.land.
Definition ClampedOrOp := clamped_bitwise Z.lor.
Definition ClampedXorOp := clamped_bitwise Z.lxor.

Definition ClampedMaxOp (T U V : ity) (x y : Z) : Z :=
  if IsGreater T U x y then saturated_cast constant V T x else saturated_cast constant V U y.
Definition ClampedMinOp (T U V : ity) (x y : Z) : Z :=
  if IsLess T U x y then saturated_cast constant V T x else saturated_cast constant V U y.

Definition ClampedDo (m : math) (T U V : ity) (x y : Z) : Z :=
  match m with
  | Add => ClampedAddOp T U V x y
  | Sub => ClampedSubOp T U V x y
  | Mul => ClampedMulOp T U V x y
  | Div => ClampedDivOp T U V x y
  | Mod => ClampedModOp T U V x y
  | Lsh => ClampedLshOp T U V x y
  | Rsh => ClampedRshOp T U V x y
  | And => ClampedAndOp T U V x y
  | Or => ClampedOrOp T U V x y
  | Xor => ClampedXorOp T U V x y
  | Max => ClampedMaxOp T U V x y
  | Min => ClampedMinOp T U V x y
  end.

(** ** [ClampedNumeric] (clamped_math.h) *)

Record ClampedNumeric := mkClamped { ctype : ity; cvalue : Z }.

Definition ClampedNumeric_new (T Src : ity) (value : Z) : ClampedNumeric := mkClamped T (saturated_cast constant T Src value).
Definition ClampedCast (Dst : ity) (n : ClampedNumeric) : ClampedNumeric := ClampedNumeric_new Dst (ctype n) (cvalue n).
Definition ClampedNegate (n : ClampedNumeric) : ClampedNumeric :=
  ClampedNumeric_new (ctype n) (ctype n) (SaturatedNegWrapper (ctype n) (cvalue n)).
Definition ClampedInvert (n : ClampedNumeric) : ClampedNumeric :=
  let U := make_unsigned (ctype n) in ClampedCast (ctype n) (ClampedNumeric_new U U (InvertWrapper (ctype n) (cvalue n))).
Definition ClampedAbs (n : ClampedNumeric) : ClampedNumeric :=
  ClampedNumeric_new (ctype n) (ctype n) (SaturatedAbsWrapper (ctype n) (cvalue n)).
Definition ClampedUnsignedAbs (n : ClampedNumeric) : ClampedNumeric :=
  let U := make_unsigned (ctype n) in ClampedNumeric_new U U (SafeUnsignedAbs (ctype n) (cvalue n)).

(** The operands carry their types; a plain integer is read as it is. *)
Definition ClampedMathOp (m : math) (T : ity) (lhs rhs : ClampedNumeric) : ClampedNumeric :=
  ClampedNumeric_new T T (ClampedDo m (ctype lhs) (ctype rhs) T (cvalue lhs) (cvalue rhs)).
Definition ClampedMathOp_assign (m : math) (rhs lhs : ClampedNumeric) : ClampedNumeric := ClampedMathOp m (ctype lhs) lhs rhs.
Definition ClampMathOp (m : math) (lhs rhs : ClampedNumeric) : ClampedNumeric :=
  ClampedMathOp m (result_type m (ctype lhs) (ctype rhs)) lhs rhs.
Definition ClampMathOps (m : math) (lhs rhs : ClampedNumeric) (args : list ClampedNumeric) : ClampedNumeric :=
  foldl (ClampMathOp m) (ClampMathOp m lhs rhs) args.

(** [operator++], [operator--] and the conversion operator. *)
Definition ClampedIncrement : ClampedNumeric -> ClampedNumeric := ClampedMathOp_assign Add (mkClamped int32_t 1).
Definition ClampedDecrement : ClampedNumeric -> ClampedNumeric := ClampedMathOp_assign Sub (mkClamped int32_t 1).
Definition ClampedConvert (Dst : ity) (n : ClampedNumeric) : Z := saturated_cast constant Dst (ctype n) (cvalue n).
Definition RawValue (n : ClampedNumeric) : Z := cvalue n.

(** ** Saturation *)

Lemma limits_of_type V b : CommonMaxOrMin V V b = if b then limits_lowest V else limits_max V.
Proof. unfold CommonMaxOrMin. rewrite CommonMax_spec, CommonMin_spec. destruct b; lia. Qed.

(** The promotions of operand types that the result type contains. *)
Lemma contained_promotions T U : let V := MaxExponentPromotion T U in
  IsTypeInRangeForNumericType V T = true -> IsTypeInRangeForNumericType V U = true ->
  big_promotion T U = V /\ IsTypeInRangeForNumericType (fast_promotion T U) V = true.
Proof. destruct T, U; vm_compute; try congruence; split; reflexivity. Qed.

Section Contained.
Variables T U : ity.
Let V := MaxExponentPromotion T U.
Hypothesis HT : IsTypeInRangeForNumericType V T = true.
Hypothesis HU : IsTypeInRangeForNumericType V U = true.
Variables x y : Z.
Hypothesis Hx : in_range T x.
Hypothesis Hy : in_range U y.

Lemma promoted v : in_range V v -> in_range (fast_promotion T U) v.
Proof. apply contained_in_range. by apply contained_promotions. Qed.

Lemma holds v : in_range V v -> promotion_holds T U x y v = true.
Proof.
  intros Hv. unfold promotion_holds. rewrite !andb_true_iff, !in_rangeb_spec.
  split_and!; apply promoted; [exact (contained_in_range _ _ _ HT Hx) | exact (contained_in_range _ _ _ HU Hy) | done].
Qed.

Lemma fits_in_range v : (in_range V v -> promotion_holds T U x y v = true) ->
  (let '(ok, result) := fits (promotion_holds T U x y v && in_rangeb V v) v in ok = in_rangeb V v /\ (ok = true -> result = v)).
Proof. intros Hh. destruct (in_rangeb V v) eqn:E; [rewrite Hh by (by apply in_rangeb_spec); done | by rewrite andb_false_r]. Qed.

Lemma builtin_in_range v : let '(ok, result) := builtin_fits V v in ok = in_rangeb V v /\ (ok = true -> result = v).
Proof. unfold builtin_fits. split; [done|]. intros E%in_rangeb_spec. by apply cast_id. Qed.

Lemma Add_complete : let '(ok, result) := CheckedAddOp tc T U V x y in ok = in_rangeb V (x + y) /\ (ok = true -> result = x + y).
Proof. rewrite CheckedAddOp_exact by done. destruct tc; [apply builtin_in_range | apply builtin_in_range |]. apply fits_in_range, holds. Qed.

Lemma Sub_complete : let '(ok, result) := CheckedSubOp tc T U V x y in ok = in_rangeb V (x - y) /\ (ok = true -> result = x - y).
Proof.
  rewrite CheckedSubOp_exact by (done || by right). destruct tc; [apply builtin_in_range | apply builtin_in_range |]. apply fits_in_range, holds.
Qed.

Lemma narrow_complete v ok p : ok = in_rangeb (fast_promotion T U) v -> (ok = true -> p = v) ->
  let '(ok', result) := if negb ok || negb (IsValueInRangeForNumericType V (fast_promotion T U) p) then (false, 0) else (true, cast V p) in
  ok' = in_rangeb V v /\ (ok' = true -> result = v).
Proof.
  intros -> Hp. destruct (in_rangeb (fast_promotion T U) v) eqn:Er; cbn [negb orb].
  - rewrite (Hp eq_refl). apply in_rangeb_spec in Er. rewrite narrow_exact by done. by destruct (in_rangeb V v).
  - split; [|done]. destruct (in_rangeb V v) eqn:Ev; [|done]. apply in_rangeb_spec, promoted, in_rangeb_spec in Ev. congruence.
Qed.

Lemma Mul_complete : let '(ok, result) := CheckedMulOp tc T U V x y in ok = in_rangeb V (x * y) /\ (ok = true -> result = x * y).
Proof.
  unfold CheckedMulOp. destruct (CheckedMulFastOp_supported tc T U); [apply builtin_in_range|].
  assert (Px : in_range (fast_promotion T U) x) by exact (promoted _ (contained_in_range _ _ _ HT Hx)).
  assert (Py : in_range (fast_promotion T U) y) by exact (promoted _ (contained_in_range _ _ _ HU Hy)).
  rewrite !in_range_exact, !(cast_id _ x), !(cast_id _ y) by done. rewrite (proj2 (in_rangeb_spec _ x) Px), (proj2 (in_rangeb_spec _ y) Py). cbn [negb orb andb].
  destruct (CheckedMulFastOp_supported tc (fast_promotion T U) (fast_promotion T U)).
  - unfold builtin_fits. apply narrow_complete; [done|]. intros E%in_rangeb_spec. by apply cast_id.
  - destruct (IsIntegerArithmeticSafe (fast_promotion T U) T U) eqn:Es.
    + pose proof (safe_mul T U x y Es Hx Hy) as Hin. apply narrow_complete; [symmetry; by apply in_rangeb_spec|]. intros _. by apply cast_id.
    + rewrite CheckedMulImpl_exact by (done || by apply unsafe_width). destruct (in_rangeb (fast_promotion T U) (x * y)) eqn:Er; by apply narrow_complete.
Qed.

Lemma Div_complete : y <> 0 -> let '(ok, result) := CheckedDivOp T U V x y in ok = in_rangeb V (Z.quot x y) /\ (ok = true -> result = Z.quot x y).
Proof.
  intros H0. unfold CheckedDivOp. destruct (Z.eqb_spec y 0); [done|]. destruct (contained_promotions T U HT HU) as [HP _]. fold V in HP.
  assert (Px : in_range V x) by exact (contained_in_range _ _ _ HT Hx). assert (Py : in_range V y) by exact (contained_in_range _ _ _ HU Hy).
  pose proof (negation_guard T U x y Hx Hy) as Hg. cbv zeta in Hg. rewrite HP in *. rewrite Hg by done.
  assert (Hq : is_signed V && (x =? limits_lowest V) && (y =? -1) = negb (in_rangeb V (Z.quot x y))).
  { destruct (is_signed V && (x =? limits_lowest V) && (y =? -1)) eqn:E.
    - rewrite !andb_true_iff, !Z.eqb_eq in E. destruct E as ((Es & ->) & ->). change (-1) with (- (1)). rewrite Z.quot_opp_r, Z.quot_1_r by done.
      symmetry. apply negb_true_iff, in_rangeb_false. right. unfold limits_lowest, limits_max. rewrite Es. lia.
    - symmetry. apply negb_false_iff, in_rangeb_spec, quot_in_range; try done. intros (Es & Hl & Hm).
      rewrite Es, Hl, Hm, Z.eqb_refl in E. done. }
  rewrite Hq. destruct (in_rangeb V (Z.quot x y)) eqn:Er; cbn [negb]; [|done]. apply in_rangeb_spec in Er.
  rewrite (in_range_exact V T x Hx), (in_range_exact V U y Hy), !(cast_id V x), !(cast_id V y), (cast_id V (Z.quot x y)) by done.
  rewrite (proj2 (in_rangeb_spec _ x) Px), (proj2 (in_rangeb_spec _ y) Py). cbn [negb orb andb]. rewrite narrow_exact by done.
  by rewrite (proj2 (in_rangeb_spec _ _) Er).
Qed.

(** What a saturating operation returns when the checked one says whether the result fits
    and the bound is chosen on the side where it does not. *)
Lemma saturate v ok result side : ok = in_rangeb V v -> (ok = true -> result = v) ->
  (limits_max V < v -> side = false) -> (v < limits_lowest V -> side = true) ->
  (if ok : bool then result else CommonMaxOrMin V V side) = clamp V v.
Proof.
  intros -> Hr Hhi Hlo. pose proof (lowest_le_0 V). pose proof (max_ge_0 V). destruct (in_rangeb V v) eqn:E.
  - rewrite (Hr eq_refl). symmetry. apply clamp_id. by apply in_rangeb_spec.
  - rewrite limits_of_type. unfold clamp. apply in_rangeb_false in E as [E|E]; [rewrite (Hlo E) | rewrite (Hhi E)]; lia.
Qed.

Lemma value_bounds : limits_lowest V <= x <= limits_max V /\ limits_lowest V <= y <= limits_max V.
Proof. split; [exact (contained_in_range _ _ _ HT Hx) | exact (contained_in_range _ _ _ HU Hy)]. Qed.

(** When the type of the result contains the operand types, the saturating operations
    return the exact result moved to the nearest value of that type. *)
Lemma ClampedDo_saturates m v : m = Add \/ m = Sub \/ m = Mul \/ m = Div -> exact m x y = Some v -> ClampedDo m T U V x y = clamp V v.
Proof.
  pose proof value_bounds as [Bx By]. pose proof (lowest_le_0 V) as Hl. pose proof (max_ge_0 V) as Hh.
  intros Hm He. destruct Hm as [->|[->|[-> | ->]]]; cbn [exact ClampedDo] in *.
  - injection He as <-. unfold ClampedAddOp. pose proof Add_complete as Hc. destruct (CheckedAddOp tc T U V x y) as [ok r]. destruct Hc.
    rewrite (IsValueNegative_spec U y Hy). apply saturate; try done; [intros; apply Z.ltb_ge | intros; apply Z.ltb_lt]; lia.
  - injection He as <-. unfold ClampedSubOp. pose proof Sub_complete as Hc. destruct (CheckedSubOp tc T U V x y) as [ok r]. destruct Hc.
    rewrite (IsValueNegative_spec U y Hy). apply saturate; try done; intros; [apply negb_false_iff, Z.ltb_lt | apply negb_true_iff, Z.ltb_ge]; lia.
  - injection He as <-. unfold ClampedMulOp. pose proof Mul_complete as Hc. destruct (CheckedMulOp tc T U V x y) as [ok r]. destruct Hc.
    rewrite (IsValueNegative_spec U y Hy), (IsValueNegative_spec T x Hx).
    apply saturate; try done; intros; destruct (Z.ltb_spec x 0), (Z.ltb_spec y 0); cbn; try done; exfalso; nia.
  - destruct (Z.eqb_spec y 0) as [|H0]; [done|]. injection He as <-. unfold ClampedDivOp. pose proof (Div_complete H0) as Hc.
    destruct (CheckedDivOp T U V x y) as [ok r]. destruct Hc as [Hok Hr]. rewrite (IsValueNegative_spec U y Hy), (IsValueNegative_spec T x Hx).
    destruct (Z.eqb_spec x 0) as [->|Hx0].
    + rewrite Z.quot_0_l in * by done. rewrite (clamp_id V 0) by apply zero_in. destruct ok; [by apply Hr|]. done.
    + cbn [negb]. pose proof (Z.quot_rem' x y) as Hqr. pose proof (Z.rem_bound_abs x y H0). pose proof (Z.rem_sign_mul x y H0).
      apply saturate; try done; intros; destruct (Z.ltb_spec x 0), (Z.ltb_spec y 0); cbn; try done; exfalso; nia.
Qed.

End Contained.
Definition clamped_ok (n : ClampedNumeric) : Prop := in_range (ctype n) (cvalue n).

Lemma renew T w : in_range T w -> RawValue (ClampedNumeric_new T T w) = w.
Proof. intros Hw. unfold RawValue, ClampedNumeric_new. cbn. rewrite saturated_cast_clamps by done. by apply clamp_id. Qed.

Lemma ClampMathOp_exact m lhs rhs v :
  m = Add \/ m = Sub \/ m = Mul \/ m = Div -> clamped_ok lhs -> clamped_ok rhs ->
  let V := result_type m (ctype lhs) (ctype rhs) in
  IsTypeInRangeForNumericType V (ctype lhs) = true -> IsTypeInRangeForNumericType V (ctype rhs) = true ->
  exact m (cvalue lhs) (cvalue rhs) = Some v -> RawValue (ClampMathOp m lhs rhs) = clamp V v.
Proof.
  intros Hm Hl Hr V HT HU He. assert (HV : V = MaxExponentPromotion (ctype lhs) (ctype rhs)) by (by destruct Hm as [->|[->|[-> | ->]]]).
  unfold ClampMathOp, ClampedMathOp. fold V. rewrite HV in *. rewrite (ClampedDo_saturates _ _ HT HU _ _ Hl Hr m v Hm He). apply renew, clamp_in.
Qed.

Lemma SaturatedNeg_exact T x : in_range T x -> SaturatedNegWrapper T x = clamp T (- x).
Proof.
  intros Hx. unfold SaturatedNegWrapper. destruct (is_signed T) eqn:Es.
  - destruct (Negate_value T x Es Hx) as [En Ev]. assert (Hl : limits_lowest T = - limits_max T - 1) by (by destruct T).
    assert (Hw : (if negb (NegateWrapper T x =? limits_lowest T) then NegateWrapper T x else limits_max T) = clamp T (- x)).
    { rewrite En. unfold clamp, in_range in *. destruct (Z.eqb_spec x (limits_lowest T)); cbn [negb]; [|rewrite Ev by done]; lia. }
    destruct MustTreatAsConstexpr; [done|]. unfold ClampedNegFastOp, builtin_fits. destruct tc; [| |done]; rewrite Es;
      (destruct (in_rangeb T (0 - x)) eqn:Er; [apply in_rangeb_spec in Er; rewrite cast_id by done; symmetry; rewrite <- Z.sub_0_l; by apply clamp_id |
        apply in_rangeb_false in Er; unfold clamp, in_range in *; lia]).
  - assert (Hl : limits_lowest T = 0) by (unfold limits_lowest; by rewrite Es). unfold clamp, in_range in *. pose proof (max_ge_0 T). lia.
Qed.

Lemma SaturatedAbs_exact T x : in_range T x -> SaturatedAbsWrapper T x = clamp T (Z.abs x).
Proof.
  intros Hx. unfold SaturatedAbsWrapper. rewrite SafeUnsignedAbs_exact by done. rewrite IsValueNegative_spec by apply cast_in.
  assert (Ha : Z.abs x = limits_max T + 1 /\ is_signed T = true \/ in_range T (Z.abs x)) by (unfold in_range in *; revert Hx; clear; destruct T; eval_types; lia).
  pose proof (max_ge_0 T) as Hm. destruct Ha as [[Ha Hs]|Ha].
  - rewrite Ha. assert (cast T (limits_max T + 1) <? 0 = true) as -> by (clear -Hs; destruct T; try discriminate Hs; vm_compute; reflexivity).
    rewrite !cast_id; [unfold clamp | | rewrite cast_id]; unfold in_range; pose proof (lowest_le_0 T); try (cbn; lia);
      clear -Hs; destruct T; try discriminate Hs; vm_compute; split; discriminate.
  - rewrite (cast_id T (Z.abs x)) by done. replace (Z.abs x <? 0) with false by (symmetry; apply Z.ltb_ge; lia). cbn [Z.b2z]. rewrite Z.sub_0_r.
    rewrite (cast_id (common _ _)), cast_id, clamp_id by (done || (unfold in_range in *; revert Ha; clear; destruct T; cbn [make_unsigned]; eval_types; lia)). done.
Qed.

(** Saturating arithmetic returns the nearest representable value.  For operand types the
    result type contains, [ClampAdd], [ClampSub], [ClampMul] and [ClampDiv] by a divisor
    other than zero give the exact result clamped to the type, with every toolchain;
    negation and absolute value saturate for every type: the negation of the lowest signed
    value is the largest, that of an unsigned one is zero. *)
Theorem clamped_arithmetic_saturates lhs rhs :
  clamped_ok lhs -> clamped_ok rhs ->
  (forall m v, m = Add \/ m = Sub \/ m = Mul \/ m = Div ->
    let V := result_type m (ctype lhs) (ctype rhs) in
    IsTypeInRangeForNumericType V (ctype lhs) = true -> IsTypeInRangeForNumericType V (ctype rhs) = true ->
    exact m (cvalue lhs) (cvalue rhs) = Some v -> RawValue (ClampMathOp m lhs rhs) = clamp V v) /\
  RawValue (ClampedNegate lhs) = clamp (ctype lhs) (- cvalue lhs) /\ RawValue (ClampedAbs lhs) = clamp (ctype lhs) (Z.abs (cvalue lhs)).
Proof.
  intros Hl Hr. split; [intros; by apply ClampMathOp_exact|]. unfold ClampedNegate, ClampedAbs.
  rewrite SaturatedNeg_exact, SaturatedAbs_exact by done. split; apply renew, clamp_in.
Qed.

End Ops.

Lemma clamped_arithmetic_saturates_witness :
  RawValue (ClampMathOp Portable false Mul (mkClamped int64_t (-9223372036854775808)) (mkClamped int32_t 3)) = -9223372036854775808 /\
  RawValue (ClampedNegate Portable false (mkClamped int64_t (-9223372036854775808))) = 9223372036854775807.
Proof.
  destruct (clamped_arithmetic_saturates Portable false (mkClamped int64_t (-9223372036854775808)) (mkClamped int32_t 3)) as (Hop & Hneg & _).
  - vm_compute. split; discriminate.
  - vm_compute. split; discriminate.
  - split; [|rewrite Hneg; vm_compute; reflexivity]. rewrite (Hop Mul (-27670116110564327424)); [vm_compute; reflexivity | auto | reflexivity | reflexivity | reflexivity].
Defined.

(** The containment is needed: the sum of -5 and an unsigned 3 is below zero, and saturates
    to the largest 64-bit value because only the sign of the second operand is looked at. *)
Theorem clamped_add_mixed_sign_wrong tc constant :
  RawValue (ClampMathOp tc constant Add (mkClamped int64_t (-5)) (mkClamped uint64_t 3)) = limits_max uint64_t /\
  clamp uint64_t (-5 + 3) = 0.
Proof. destruct tc, constant; vm_compute; split; reflexivity. Qed.

End ClampedMath.
