(* ===== verification/TimeDelta.v ===== *)
(** * Durations and points in time
      (base/time/time_delta.{h,cc}, time_base.h, time.{h,cc}, time_ticks.cc)

    A [TimeDelta] and a [Time] are 64-bit counts of microseconds, on top of the checked and
    saturating arithmetic of base/numerics.  [None] is a failed [LTCHECK] or a signed
    overflow.  The conversions of the C library ([mktime], [timegm], [localtime_r],
    [gmtime_r]) are parameters.  The floating-point accessors are not modelled. *)
From stdpp Require Import base option.
From S2P Require Import Prelude Numerics CheckedMath ClampedMath.
Import Numerics.

Module TimeDelta.
Import CheckedMath ClampedMath.

Definition kHoursPerDay : Z := 24.
Definition kSecondsPerMinute : Z := 60.
Definition kMinutesPerHour : Z := 60.
Definition kSecondsPerHour : Z := kSecondsPerMinute * kMinutesPerHour.
Definition kMillisecondsPerSecond : Z := 1000.
Definition kMillisecondsPerDay : Z := kMillisecondsPerSecond * kSecondsPerHour * kHoursPerDay.
Definition kMicrosecondsPerMillisecond : Z := 1000.
Definition kMicrosecondsPerSecond : Z := kMicrosecondsPerMillisecond * kMillisecondsPerSecond.
Definition kMicrosecondsPerMinute : Z := kMicrosecondsPerSecond * kSecondsPerMinute.
Definition kMicrosecondsPerHour : Z := kMicrosecondsPerMinute * kMinutesPerHour.
Definition kMicrosecondsPerDay : Z := kMicrosecondsPerHour * kHoursPerDay.
Definition kNanosecondsPerMicrosecond : Z := 1000.
Definition kNanosecondsPerSecond : Z := kNanosecondsPerMicrosecond * kMicrosecondsPerSecond.

Record TimeDelta := mkDelta { delta_ : Z }.

Definition int64_max : Z := limits_max int64_t.
Definition int64_min : Z := limits_lowest int64_t.

(** A signed 64-bit result; overflow is undefined. *)
Definition s64 (v : Z) : option Z := if in_rangeb int64_t v then Some v else None.
Definition LTCHECK (b : bool) : option unit := if b then Some tt else None.

Definition Max : TimeDelta := mkDelta int64_max.
Definition Min : TimeDelta := mkDelta int64_min.
Definition FiniteMax : TimeDelta := mkDelta (int64_max - 1).
Definition FiniteMin : TimeDelta := mkDelta (int64_min + 1).

Definition is_zero (d : TimeDelta) : bool := delta_ d =? 0.
Definition is_max (d : TimeDelta) : bool := delta_ d =? delta_ Max.
Definition is_min (d : TimeDelta) : bool := delta_ d =? delta_ Min.
Definition is_inf (d : TimeDelta) : bool := is_min d || is_max d.

Section Arithmetic.
(** How the numeric headers are compiled. *)
Variable tc : toolchain.
Variable constant : bool.

Definition i64 (v : Z) : ClampedNumeric := mkClamped int64_t v.
Definition clamp_op (m : math) (a b : Z) : Z := RawValue (ClampMathOp tc constant m (i64 a) (i64 b)).

Definition FromSeconds (secs : Z) : TimeDelta := mkDelta (clamp_op Mul secs kMicrosecondsPerSecond).
Definition FromMilliseconds (ms : Z) : TimeDelta := mkDelta (clamp_op Mul ms kMicrosecondsPerMillisecond).
Definition FromMicroseconds (us : Z) : TimeDelta := mkDelta us.
Definition FromNanoseconds (ns : Z) : TimeDelta := mkDelta (Z.quot ns kNanosecondsPerMicrosecond).

(** [tv_sec] and [tv_nsec]. *)
Definition FromTimeSpec (ts : Z * Z) : option TimeDelta :=
  p ← s64 (ts.1 * kMicrosecondsPerSecond); s ← s64 (p + Z.quot ts.2 kNanosecondsPerMicrosecond); Some (mkDelta s).

Definition InSeconds (d : TimeDelta) : Z := if is_inf d then delta_ d else Z.quot (delta_ d) kMicrosecondsPerSecond.

Definition ToTimeSpec (d : TimeDelta) : option (Z * Z) :=
  let microseconds := delta_ d in
  let '(seconds, microseconds) :=
    if kMicrosecondsPerSecond <=? microseconds then (InSeconds d, microseconds - InSeconds d * kMicrosecondsPerSecond) else (0, microseconds) in
  ns ← s64 (microseconds * kNanosecondsPerMicrosecond); Some (seconds, ns).

Definition magnitude (d : TimeDelta) : TimeDelta :=
  if is_min d then Max
  else let mask := Z.shiftr (delta_ d) 63 in mkDelta (Z.lxor (delta_ d + mask) mask).

Definition plus (d other : TimeDelta) : option TimeDelta :=
  if negb (is_inf other) then Some (mkDelta (clamp_op Add (delta_ d) (delta_ other)))
  else _ ← LTCHECK (negb (is_inf d) || (delta_ d =? delta_ other)); Some other.

Definition minus (d other : TimeDelta) : option TimeDelta :=
  if negb (is_inf other) then Some (mkDelta (clamp_op Sub (delta_ d) (delta_ other)))
  else _ ← LTCHECK (negb (delta_ d =? delta_ other)); Some (if delta_ other <? 0 then Max else Min).

Definition opp (d : TimeDelta) : TimeDelta :=
  if negb (is_inf d) then mkDelta (- delta_ d) else if delta_ d <? 0 then Max else Min.

(** [operator*(T a)] and [operator/(T a)]. *)
Definition scale (m : math) (d : TimeDelta) (T : ity) (a : Z) : option TimeDelta :=
  let rv := MathOp_assign tc m (Pod T a) (CheckedNumeric_new int64_t int64_t (delta_ d)) in
  if IsValid int64_t rv then v ← ValueOrDie int64_t rv; Some (mkDelta v)
  else Some (if Bool.eqb (delta_ d <? 0) (a <? 0) then Max else Min).
Definition times := scale Mul.
Definition divided := scale Div.

Definition IntDiv (d a : TimeDelta) : option Z :=
  if negb (is_inf d) && negb (is_zero a) then s64 (Z.quot (delta_ d) (delta_ a))
  else
    _ ← LTCHECK (negb (is_zero d) || negb (is_zero a));
    _ ← LTCHECK (negb (is_inf d) || negb (is_inf a));
    Some (if Bool.eqb (delta_ d <? 0) (delta_ a <? 0) then int64_max else int64_min).

Definition modulo (d a : TimeDelta) : TimeDelta :=
  mkDelta (if is_inf d || is_zero a || is_inf a then delta_ d else Z.rem (delta_ d) (delta_ a)).

Definition InHours (d : TimeDelta) : Z := saturated_cast constant int32_t int64_t (Z.quot (delta_ d) kMicrosecondsPerHour).
Definition InMinutes (d : TimeDelta) : Z := saturated_cast constant int32_t int64_t (Z.quot (delta_ d) kMicrosecondsPerMinute).
Definition InNanoseconds (d : TimeDelta) : Z := clamp_op Mul (delta_ d) kNanosecondsPerMicrosecond.

Definition InDays (d : TimeDelta) : Z :=
  if negb (is_inf d) then cast int32_t (Z.quot (delta_ d) kMicrosecondsPerDay)
  else if delta_ d <? 0 then limits_lowest int32_t else limits_max int32_t.

Definition InDaysFloored (d : TimeDelta) : Z :=
  if negb (is_inf d) then
    let result := cast int32_t (Z.quot (delta_ d) kMicrosecondsPerDay) in
    if delta_ d <? result * kMicrosecondsPerDay then result - 1 else result
  else if delta_ d <? 0 then limits_lowest int32_t else limits_max int32_t.

Definition InMilliseconds (d : TimeDelta) : Z :=
  if negb (is_inf d) then Z.quot (delta_ d) kMicrosecondsPerMillisecond else if delta_ d <? 0 then int64_min else int64_max.

Definition InMillisecondsRoundedUp (d : TimeDelta) : Z :=
  if negb (is_inf d) then
    let result := Z.quot (delta_ d) kMicrosecondsPerMillisecond in
    if result * kMicrosecondsPerMillisecond <? delta_ d then result + 1 else result
  else delta_ d.

Definition CeilToMultiple (d interval : TimeDelta) : option TimeDelta :=
  if is_inf d || is_zero interval then Some d
  else
    let remainder := modulo d interval in
    if delta_ d <? 0 then minus d remainder
    else if is_zero remainder then Some d
    else r ← minus d remainder; plus r (magnitude interval).

Definition FloorToMultiple (d interval : TimeDelta) : option TimeDelta :=
  if is_inf d || is_zero interval then Some d
  else
    let remainder := modulo d interval in
    if delta_ d <? 0 then
      if is_zero remainder then Some d else r ← minus d remainder; minus r (magnitude interval)
    else minus d remainder.

Definition RoundToMultiple (d interval : TimeDelta) : option TimeDelta :=
  if is_inf d || is_zero interval then Some d
  else if is_inf interval then Some (mkDelta 0)
  else
    half ← divided (magnitude interval) int32_t 2;
    if delta_ d <? 0 then r ← minus d half; CeilToMultiple r interval
    else r ← plus d half; FloorToMultiple r interval.

(** ** Durations against the integers *)

Definition delta_ok (d : TimeDelta) : Prop := in_range int64_t (delta_ d).
Definition finite (d : TimeDelta) : Prop := int64_min < delta_ d < int64_max.

Lemma clamp_op_exact m a b v : m = Add \/ m = Sub \/ m = Mul \/ m = Div -> in_range int64_t a -> in_range int64_t b ->
  exact m a b = Some v -> clamp_op m a b = clamp int64_t v.
Proof.
  intros Hm Ha Hb He. unfold clamp_op. rewrite (ClampMathOp_exact tc constant m (i64 a) (i64 b) v Hm Ha Hb); try done;
    by destruct Hm as [->|[->|[-> | ->]]].
Qed.

Lemma finite_not_inf d : finite d -> is_inf d = false.
Proof. unfold finite, is_inf, is_min, is_max. intros H. apply orb_false_iff. unfold Max, Min. cbn [delta_]. rewrite !Z.eqb_neq. lia. Qed.

Lemma finite_ok d : finite d -> delta_ok d.
Proof. unfold finite, delta_ok, in_range, int64_min, int64_max. lia. Qed.

Lemma magnitude_exact d : finite d -> delta_ (magnitude d) = Z.abs (delta_ d).
Proof.
  intros Hf. unfold magnitude. assert (is_min d = false) as -> by (apply finite_not_inf in Hf; by apply orb_false_iff in Hf as [? _]). cbn [delta_].
  unfold finite in Hf. destruct (Z.ltb_spec (delta_ d) 0).
  - assert (Z.shiftr (delta_ d) 63 = -1) as ->.
    { rewrite Z.shiftr_div_pow2 by lia. unfold int64_min in Hf. change (limits_lowest int64_t) with (- 2 ^ 63) in Hf.
      symmetry. apply Z.div_unique with (delta_ d + 2 ^ 63); lia. }
    rewrite Z.lxor_m1_r. unfold Z.lnot. lia.
  - assert (Z.shiftr (delta_ d) 63 = 0) as ->.
    { rewrite Z.shiftr_div_pow2 by lia. unfold int64_max in Hf. change (limits_max int64_t) with (2 ^ 63 - 1) in Hf. apply Z.div_small. lia. }
    rewrite Z.lxor_0_r. lia.
Qed.

Lemma minus_exact d e : delta_ok d -> finite e -> minus d e = Some (mkDelta (clamp int64_t (delta_ d - delta_ e))).
Proof.
  intros Hd He. unfold minus. rewrite finite_not_inf by done. cbn [negb]. do 2 f_equal. apply clamp_op_exact; [auto | done | by apply finite_ok | done].
Qed.

Lemma plus_exact d e : delta_ok d -> finite e -> plus d e = Some (mkDelta (clamp int64_t (delta_ d + delta_ e))).
Proof.
  intros Hd He. unfold plus. rewrite finite_not_inf by done. cbn [negb]. do 2 f_equal. apply clamp_op_exact; [auto | done | by apply finite_ok | done].
Qed.

Lemma modulo_exact d a : finite d -> finite a -> delta_ a <> 0 -> delta_ (modulo d a) = Z.rem (delta_ d) (delta_ a) /\ finite (modulo d a) /\
  Z.abs (delta_ d - Z.rem (delta_ d) (delta_ a)) <= Z.abs (delta_ d).
Proof.
  intros Hd Ha H0. unfold modulo. rewrite !finite_not_inf by done. unfold is_zero. rewrite (proj2 (Z.eqb_neq _ _) H0). cbn [orb delta_]. split; [done|].
  pose proof (Z.rem_bound_abs (delta_ d) (delta_ a) H0). pose proof (Z.rem_sign_mul (delta_ d) (delta_ a) H0).
  assert (Z.abs (Z.rem (delta_ d) (delta_ a)) <= Z.abs (delta_ d)) by (rewrite <- Z.rem_abs by done; apply Z.rem_le; lia).
  assert (int64_min = - int64_max - 1) by done. unfold finite in *. cbn [delta_]. split; [lia | nia].
Qed.

(** Truncated remainders and the multiples around an integer. *)
Lemma floor_multiple x a : a <> 0 ->
  Z.abs a * (x / Z.abs a) = if x <? 0 then (if Z.rem x a =? 0 then x else x - Z.rem x a - Z.abs a) else x - Z.rem x a.
Proof.
  intros H0. pose proof (Z.rem_bound_abs x a H0) as Hb. pose proof (Z.rem_sign_mul x a H0) as Hs. pose proof (Z.quot_rem' x a) as Hqr.
  assert (Hq : a * Z.quot x a = Z.abs a * (Z.quot x a * Z.sgn a)) by nia.
  destruct (Z.ltb_spec x 0); [destruct (Z.eqb_spec (Z.rem x a) 0) as [E|E]|].
  - assert (Z.quot x a * Z.sgn a = x / Z.abs a) by (apply Z.div_unique with 0; lia). lia.
  - assert (Z.quot x a * Z.sgn a - 1 = x / Z.abs a) by (apply Z.div_unique with (Z.rem x a + Z.abs a); nia). nia.
  - pose proof (Z.rem_nonneg x a H0 ltac:(lia)). assert (Z.quot x a * Z.sgn a = x / Z.abs a) by (apply Z.div_unique with (Z.rem x a); lia). lia.
Qed.

Lemma ceil_multiple x a : a <> 0 ->
  - (Z.abs a * (- x / Z.abs a)) = if x <? 0 then x - Z.rem x a else if Z.rem x a =? 0 then x else x - Z.rem x a + Z.abs a.
Proof.
  intros H0. pose proof (floor_multiple (- x) a H0) as Hf. rewrite Z.rem_opp_l in Hf by done.
  destruct (Z.ltb_spec (- x) 0), (Z.ltb_spec x 0); try lia.
  - rewrite Hf. destruct (Z.eqb_spec (- Z.rem x a) 0), (Z.eqb_spec (Z.rem x a) 0); lia.
  - assert (x = 0) as -> by lia. rewrite Z.rem_0_l in * by done. cbn [Z.eqb Z.opp] in *. lia.
Qed.

Lemma small_finite i : Z.abs (delta_ i) < int64_max -> finite i.
Proof. assert (int64_min = - int64_max - 1) by done. unfold finite. lia. Qed.

Lemma FloorToMultiple_exact d i : finite d -> Z.abs (delta_ i) < int64_max -> delta_ i <> 0 ->
  FloorToMultiple d i = Some (mkDelta (clamp int64_t (Z.abs (delta_ i) * (delta_ d / Z.abs (delta_ i))))).
Proof.
  intros Hd Hia H0. pose proof (small_finite i Hia) as Hi. unfold FloorToMultiple. rewrite finite_not_inf by done. unfold is_zero at 1. rewrite (proj2 (Z.eqb_neq _ _) H0). cbn [orb].
  destruct (modulo_exact d i Hd Hi H0) as (Hr & Hfr & Habs). rewrite floor_multiple by done. rewrite !(minus_exact d) by (done || by apply finite_ok).
  unfold is_zero. rewrite Hr. unfold finite in Hd. assert (Hmm : int64_min = - int64_max - 1) by done. assert (Hin : in_range int64_t (delta_ d - Z.rem (delta_ d) (delta_ i))).
  { unfold in_range. fold int64_min int64_max. lia. }
  destruct (Z.ltb_spec (delta_ d) 0); [|done]. destruct (Z.eqb_spec (Z.rem (delta_ d) (delta_ i)) 0) as [E|E].
  - rewrite clamp_id by (unfold in_range; fold int64_min int64_max; lia). by destruct d.
  - cbn [mbind option_bind]. rewrite clamp_id by done. rewrite minus_exact; [| done |]; cbn [delta_]; [by rewrite magnitude_exact|].
    unfold finite in *. rewrite magnitude_exact by done. lia.
Qed.

Lemma CeilToMultiple_exact d i : finite d -> Z.abs (delta_ i) < int64_max -> delta_ i <> 0 ->
  CeilToMultiple d i = Some (mkDelta (clamp int64_t (- (Z.abs (delta_ i) * (- delta_ d / Z.abs (delta_ i)))))).
Proof.
  intros Hd Hia H0. pose proof (small_finite i Hia) as Hi. unfold CeilToMultiple. rewrite finite_not_inf by done. unfold is_zero at 1. rewrite (proj2 (Z.eqb_neq _ _) H0). cbn [orb].
  destruct (modulo_exact d i Hd Hi H0) as (Hr & Hfr & Habs). rewrite ceil_multiple by done. rewrite !(minus_exact d) by (done || by apply finite_ok).
  unfold is_zero. rewrite Hr. unfold finite in Hd. assert (Hmm : int64_min = - int64_max - 1) by done. assert (Hin : in_range int64_t (delta_ d - Z.rem (delta_ d) (delta_ i))).
  { unfold in_range. fold int64_min int64_max. lia. }
  destruct (Z.ltb_spec (delta_ d) 0); [done|]. destruct (Z.eqb_spec (Z.rem (delta_ d) (delta_ i)) 0) as [E|E].
  - rewrite clamp_id by (unfold in_range; fold int64_min int64_max; lia). by destruct d.
  - cbn [mbind option_bind]. rewrite clamp_id by done. rewrite plus_exact; [| done |]; cbn [delta_]; [by rewrite magnitude_exact|].
    unfold finite in *. rewrite magnitude_exact by done. lia.
Qed.

Lemma half_exact i : finite i -> divided (magnitude i) int32_t 2 = Some (mkDelta (Z.abs (delta_ i) / 2)).
Proof.
  intros Hi. pose proof (magnitude_exact i Hi) as Hm. destruct (magnitude i) as [a]. cbn in Hm. subst a. unfold finite in Hi.
  assert (Hr : in_range int64_t (Z.abs (delta_ i)) /\ in_range int64_t (Z.abs (delta_ i) / 2)).
  { unfold in_range. fold int64_min int64_max. assert (int64_min = - int64_max - 1 /\ 0 < int64_max) as [? ?] by done. Z.to_euclidean_division_equations; lia. }
  destruct Hr as [Ha Hh]. unfold divided, scale, MathOp_assign. cbn [delta_ UnderlyingType Wrapper_is_valid Wrapper_value].
  destruct (State_valid int64_t (Z.abs (delta_ i)) true Ha) as (V1 & V2 & V3). unfold CheckedNumeric_new. rewrite V1, V2. cbn [andb type CheckedNumericState Do].
  pose proof (Div_complete int64_t int32_t eq_refl eq_refl (Z.abs (delta_ i)) 2 Ha) as Hc. cbv zeta in Hc. change (MaxExponentPromotion int64_t int32_t) with int64_t in Hc.
  specialize (Hc ltac:(split; vm_compute; discriminate) ltac:(done)). destruct (CheckedDivOp int64_t int32_t int64_t (Z.abs (delta_ i)) 2) as [ok r].
  rewrite Z.quot_div_nonneg in Hc by lia. destruct Hc as [Hok Hres]. rewrite (proj2 (in_rangeb_spec _ _) Hh) in Hok. subst ok. rewrite (Hres eq_refl).
  destruct (State_valid int64_t (Z.abs (delta_ i) / 2) true Hh) as (W1 & W2 & W3). unfold ValueOrDie. rewrite W3. cbn [mbind option_bind]. rewrite W2, cast_id by done. done.
Qed.

(** Rounding a duration to a multiple of another: the floor and the ceiling are the
    neighbouring multiples of the interval's magnitude, saturated to the type, and rounding
    goes to the nearest multiple, ties away from zero, as long as adding half an interval
    stays finite.  None of the internal checks fails. *)
Theorem round_to_multiple_exact d i :
  finite d -> Z.abs (delta_ i) < int64_max -> delta_ i <> 0 ->
  let a := Z.abs (delta_ i) in
  FloorToMultiple d i = Some (mkDelta (clamp int64_t (a * (delta_ d / a)))) /\
  CeilToMultiple d i = Some (mkDelta (clamp int64_t (- (a * (- delta_ d / a))))) /\
  (Z.abs (delta_ d) + a / 2 < int64_max ->
   RoundToMultiple d i = Some (mkDelta (clamp int64_t (Z.sgn (delta_ d) * (a * ((Z.abs (delta_ d) + a / 2) / a)))))).
Proof.
  intros Hd Hia H0 a. pose proof (small_finite i Hia) as Hi. split_and!; [by apply FloorToMultiple_exact | by apply CeilToMultiple_exact|]. intros Hroom.
  unfold RoundToMultiple. rewrite !finite_not_inf, half_exact by done. unfold is_zero. rewrite (proj2 (Z.eqb_neq _ _) H0). cbn [orb mbind option_bind]. fold a.
  assert (Hmm : int64_min = - int64_max - 1 /\ 0 < int64_max) by done. assert (Ha : 0 < a) by (subst a; lia).
  assert (Hhalf : finite (mkDelta (a / 2))) by (unfold finite in *; cbn [delta_]; Z.to_euclidean_division_equations; lia).
  pose proof (Z.div_pos a 2 ltac:(lia) ltac:(lia)). destruct (Z.ltb_spec (delta_ d) 0).
  - rewrite minus_exact by (done || by apply finite_ok). cbn [mbind option_bind delta_].
    rewrite clamp_id by (unfold in_range; fold int64_min int64_max; lia). rewrite CeilToMultiple_exact; [| unfold finite; cbn [delta_]; lia | done | done].
    do 3 f_equal. cbn [delta_]. fold a. rewrite Z.sgn_neg, Z.abs_neq by lia. replace (- (delta_ d - a / 2)) with (- delta_ d + a / 2) by lia. lia.
  - rewrite plus_exact by (done || by apply finite_ok). cbn [mbind option_bind delta_].
    rewrite clamp_id by (unfold in_range; fold int64_min int64_max; lia). rewrite FloorToMultiple_exact; [| unfold finite; cbn [delta_]; lia | done | done].
    do 3 f_equal. cbn [delta_]. fold a. rewrite Z.abs_eq by lia. destruct (Z.eq_dec (delta_ d) 0) as [->|]; [|rewrite Z.sgn_pos by lia; lia].
    cbn [Z.sgn]. rewrite Z.mul_0_l. rewrite Z.add_0_l, (Z.div_small (a / 2) a); [lia|]. Z.to_euclidean_division_equations; lia.
Qed.

End Arithmetic.
(** -7 s and 250 ms to multiples of 500 ms. *)
Lemma round_to_multiple_exact_witness :
  FloorToMultiple Gcc false (mkDelta (-7250000)) (mkDelta 500000) = Some (mkDelta (-7500000)) /\
  RoundToMultiple Gcc false (mkDelta (-7250000)) (mkDelta 500000) = Some (mkDelta (-7500000)).
Proof.
  destruct (round_to_multiple_exact Gcc false (mkDelta (-7250000)) (mkDelta 500000)) as (Hf & _ & Hr).
  - split; reflexivity.
  - split; reflexivity.
  - discriminate.
  - rewrite Hf, Hr; [split; vm_compute; reflexivity | reflexivity].
Defined.

End TimeDelta.

(** ** Points in time (time_base.h, time.{h,cc}) *)
Module Time.
Import CheckedMath TimeDelta.

(** Microseconds since 1601-01-01 UTC. *)
Record Time := mkTime { us_ : Z }.

Definition kTimeTToMicrosecondsOffset : Z := 11644473600000000.

Definition Time_Max : Time := mkTime int64_max.
Definition Time_Min : Time := mkTime int64_min.
Definition is_null (t : Time) : bool := us_ t =? 0.
Definition Time_is_max (t : Time) : bool := us_ t =? us_ Time_Max.
Definition Time_is_min (t : Time) : bool := us_ t =? us_ Time_Min.
Definition Time_is_inf (t : Time) : bool := Time_is_min t || Time_is_max t.
Definition UnixEpoch : Time := mkTime kTimeTToMicrosecondsOffset.

Record Exploded := mkExploded {
  year : Z; month : Z; day_of_week : Z; day_of_month : Z; hour : Z; minute : Z; second : Z; millisecond : Z }.

(** [struct tm]. *)
Record tm := mkTm { tm_sec : Z; tm_min : Z; tm_hour : Z; tm_mday : Z; tm_mon : Z; tm_year : Z; tm_wday : Z; tm_isdst : Z }.

Section Clock.
Variable tc : toolchain.
Variable constant : bool.
(** [mktime]/[timegm] and [localtime_r]/[gmtime_r]; the flag is [is_local]. *)
Variable SysTimeFromTimeStruct : bool -> tm -> Z.
Variable SysTimeToTimeStruct : bool -> Z -> tm.

Definition Time_minus (t other : Time) : option TimeDelta := v ← s64 (us_ t - us_ other); Some (FromMicroseconds v).
Definition Time_add (t : Time) (delta : TimeDelta) : option Time :=
  d ← plus tc constant (FromMicroseconds (us_ t)) delta; Some (mkTime (delta_ d)).
Definition Time_sub (t : Time) (delta : TimeDelta) : option Time :=
  d ← minus tc constant (FromMicroseconds (us_ t)) delta; Some (mkTime (delta_ d)).

Definition FromTimeT (t : Z) : option Time :=
  if t =? 0 then Some (mkTime 0)
  else if t =? int64_max then Some Time_Max
  else Time_add UnixEpoch (FromSeconds tc constant t).

Definition ToTimeT (t : Time) : option Z :=
  if is_null t then Some 0
  else if negb (Time_is_inf t) && (us_ t <? int64_max - kTimeTToMicrosecondsOffset) then
    d ← Time_minus t UnixEpoch; Some (InSeconds d)
  else Some (if us_ t <? 0 then int64_min else int64_max).

(** [tv_sec] and [tv_usec]. *)
Definition FromTimeVal (t : Z * Z) : option Time :=
  let '(tv_sec, tv_usec) := t in
  _ ← LTCHECK (0 <? tv_usec);
  _ ← LTCHECK (tv_usec <? cast int32_t kMicrosecondsPerSecond);
  if (tv_usec =? 0) && (tv_sec =? 0) then Some (mkTime 0)
  else if (tv_usec =? kMicrosecondsPerSecond - 1) && (tv_sec =? int64_max) then Some Time_Max
  else
    a ← s64 (tv_sec * kMicrosecondsPerSecond);
    b ← s64 (a + tv_usec);
    c ← s64 (b + kTimeTToMicrosecondsOffset);
    Some (mkTime c).

Definition ToTimeVal (t : Time) : option (Z * Z) :=
  if is_null t then Some (0, 0)
  else if Time_is_max t then Some (int64_max, kMicrosecondsPerSecond - 1)
  else us ← s64 (us_ t - kTimeTToMicrosecondsOffset); Some (Z.quot us kMicrosecondsPerSecond, Z.rem us kMicrosecondsPerSecond).

Definition ToRoundedDownMillisecondsSinceUnixEpoch (t : Time) : Z :=
  let kEpochOffsetMillis := Z.quot kTimeTToMicrosecondsOffset kMicrosecondsPerMillisecond in
  let millis := Z.quot (us_ t) kMicrosecondsPerMillisecond in
  let submillis := Z.rem (us_ t) kMicrosecondsPerMillisecond in
  millis - kEpochOffsetMillis - Z.b2z (submillis <? 0).

(** Whether it succeeds, and the time. *)
Definition FromMillisecondsSinceUnixEpoch (unix_milliseconds : Z) : option (bool * Time) :=
  let n := CheckedNumeric_new int64_t int64_t unix_milliseconds in
  let n := MathOp_assign tc Mul (Pod int64_t kMicrosecondsPerMillisecond) n in
  let n := MathOp_assign tc Add (Pod int64_t kTimeTToMicrosecondsOffset) n in
  v ← ValueOrDefault int64_t int32_t 0 n;
  Some (IsValid int64_t n, mkTime v).

Definition Explode (is_local : bool) (t : Time) : Exploded :=
  let millis_since_unix_epoch := ToRoundedDownMillisecondsSinceUnixEpoch t in
  let seconds := Z.quot millis_since_unix_epoch kMillisecondsPerSecond in
  let millis := Z.rem millis_since_unix_epoch kMillisecondsPerSecond in
  let '(seconds, millis) := if millis <? 0 then (seconds - 1, millis + kMillisecondsPerSecond) else (seconds, millis) in
  let s := SysTimeToTimeStruct is_local seconds in
  mkExploded (tm_year s + 1900) (tm_mon s + 1) (tm_wday s) (tm_mday s) (tm_hour s) (tm_min s) (tm_sec s) millis.

Definition ExplodedMostlyEquals (a b : Exploded) : bool :=
  (year a =? year b) && (month a =? month b) && (day_of_month a =? day_of_month b) && (hour a =? hour b) &&
  (minute a =? minute b) && (second a =? second b) && (millisecond a =? millisecond b).

(** The seconds of a broken-down time; [mktime] is asked again with and without daylight
    saving time when it answers -1. *)
Definition exploded_seconds (is_local : bool) (s : Z -> tm) : Z :=
  let seconds := SysTimeFromTimeStruct is_local (s (-1)) in
  if seconds =? -1 then
    let seconds_isdst0 := SysTimeFromTimeStruct is_local (s 0) in
    let seconds_isdst1 := SysTimeFromTimeStruct is_local (s 1) in
    if seconds_isdst0 <? 0 then seconds_isdst1
    else if seconds_isdst1 <? 0 then seconds_isdst0
    else Z.min seconds_isdst0 seconds_isdst1
  else seconds.

Definition exploded_millis (e : Exploded) (seconds : Z) : option (option Z) :=
  if (seconds =? -1) && ((year e <? 1969) || (1970 <? year e)) then
    Some (Some (if year e <? 1969 then limits_lowest int32_t * kMillisecondsPerSecond
                else limits_max int32_t * kMillisecondsPerSecond + (kMillisecondsPerSecond - 1)))
  else
    let n := CheckedNumeric_new int64_t int64_t seconds in
    let n := MathOp_assign tc Mul (Pod int64_t kMillisecondsPerSecond) n in
    let n := MathOp_assign tc Add (Pod int32_t (millisecond e)) n in
    if negb (IsValid int64_t n) then Some None else v ← ValueOrDie int64_t n; Some (Some v).

Definition FromExploded (is_local : bool) (e : Exploded) : option (bool * Time) :=
  let mon := Decrement tc (CheckedNumeric_new int32_t int32_t (month e)) in
  let yr := MathOp_assign tc Sub (Pod int32_t 1900) (CheckedNumeric_new int32_t int32_t (year e)) in
  if negb (IsValid int32_t mon) || negb (IsValid int32_t yr) then Some (false, mkTime 0)
  else
    m ← ValueOrDie int32_t mon;
    y ← ValueOrDie int32_t yr;
    let s isdst := mkTm (second e) (minute e) (hour e) (day_of_month e) m y (day_of_week e) isdst in
    ms ← exploded_millis e (exploded_seconds is_local s);
    match ms with
    | None => Some (false, mkTime 0)
    | Some milliseconds =>
        r ← FromMillisecondsSinceUnixEpoch milliseconds;
        let '(ok, converted_time) := r in
        if negb ok then Some (false, mkTime 0)
        else if ExplodedMostlyEquals (Explode is_local converted_time) e then Some (true, converted_time)
        else Some (false, mkTime 0)
    end.

Definition Midnight (is_local : bool) (t : Time) : option Time :=
  let at_hour h := let e := Explode is_local t in mkExploded (year e) (month e) (day_of_week e) (day_of_month e) h 0 0 0 in
  r ← FromExploded is_local (at_hour 0);
  if r.1 : bool then Some r.2
  else
    _ ← LTCHECK is_local;
    r ← FromExploded is_local (at_hour 1);
    _ ← LTCHECK r.1;
    Some r.2.

(** [tv_sec] and [tv_nsec] of the monotonic clock (time_ticks.cc), with a 64-bit [tv_sec]. *)
Definition ConvertTimespecToMicros (ts : Z * Z) : option Z :=
  let n := CheckedNumeric_new int64_t int64_t ts.1 in
  let n := MathOp_assign tc Mul (Pod int64_t kMicrosecondsPerSecond) n in
  let n := MathOp_assign tc Add (Pod int64_t (Z.quot ts.2 kNanosecondsPerMicrosecond)) n in
  ValueOrDie int64_t n.

(** *** Checked sums of products *)

Lemma assign_exact m U a b v : m = Add \/ m = Mul -> IsTypeInRangeForNumericType int64_t U = true ->
  in_range int64_t a -> in_range U b -> exact m a b = Some v -> in_range int64_t v ->
  MathOp_assign tc m (Pod U b) (mkNum int64_t true a) = mkNum int64_t true v.
Proof.
  intros Hm HU Ha Hb He Hv. assert (HV : MaxExponentPromotion int64_t U = int64_t) by (destruct U; try done; discriminate HU).
  unfold MathOp_assign. cbn [is_valid_ Wrapper_is_valid andb type value_ UnderlyingType Wrapper_value].
  assert (HD : Do tc m int64_t U int64_t a b = (true, v)).
  { destruct Hm as [-> | ->]; cbn [Do exact] in *; injection He as <-.
    - pose proof (ClampedMath.Add_complete tc int64_t U) as Hc. rewrite HV in Hc. specialize (Hc eq_refl HU a b Ha Hb).
      destruct (CheckedAddOp tc int64_t U int64_t a b) as [ok r]. destruct Hc as [Hok Hr]. rewrite (proj2 (in_rangeb_spec _ _) Hv) in Hok. subst ok. by rewrite Hr.
    - pose proof (ClampedMath.Mul_complete tc int64_t U) as Hc. rewrite HV in Hc. specialize (Hc eq_refl HU a b Ha Hb).
      destruct (CheckedMulOp tc int64_t U int64_t a b) as [ok r]. destruct Hc as [Hok Hr]. rewrite (proj2 (in_rangeb_spec _ _) Hv) in Hok. subst ok. by rewrite Hr. }
  rewrite HD. unfold CheckedNumericState. rewrite in_range_exact, (proj2 (in_rangeb_spec _ _) Hv), cast_id by done. done.
Qed.

Lemma new_exact T v : in_range T v -> CheckedNumeric_new T T v = mkNum T true v.
Proof. intros Hv. unfold CheckedNumeric_new, CheckedNumericState. by rewrite in_range_exact, (proj2 (in_rangeb_spec _ _) Hv), cast_id. Qed.

Lemma value_exact T v : in_range T v -> IsValid T (mkNum T true v) = true /\ ValueOrDie T (mkNum T true v) = Some v.
Proof.
  intros Hv. unfold ValueOrDie, IsValid. cbn. rewrite in_range_exact, (proj2 (in_rangeb_spec _ _) Hv), cast_id by done. done.
Qed.

(** *** Seconds and milliseconds *)

Lemma rounded_down t : ToRoundedDownMillisecondsSinceUnixEpoch t = us_ t / 1000 - 11644473600000.
Proof.
  unfold ToRoundedDownMillisecondsSinceUnixEpoch, kMicrosecondsPerMillisecond. change (Z.quot kTimeTToMicrosecondsOffset 1000) with 11644473600000.
  pose proof (Z.quot_rem' (us_ t) 1000). pose proof (Z.rem_bound_abs (us_ t) 1000 ltac:(done)). set (q := Z.quot (us_ t) 1000) in *. set (r := Z.rem (us_ t) 1000) in *.
  destruct (Z.ltb_spec r 0); cbn [Z.b2z]; [assert (us_ t / 1000 = q - 1) as -> by (symmetry; apply Z.div_unique with (r + 1000); lia) |
    assert (us_ t / 1000 = q) as -> by (symmetry; apply Z.div_unique with r; lia)]; lia.
Qed.

Lemma explode_split x : 
  (let seconds := Z.quot x 1000 in let millis := Z.rem x 1000 in if millis <? 0 then (seconds - 1, millis + 1000) else (seconds, millis)) = (x / 1000, x mod 1000).
Proof.
  cbv zeta. pose proof (Z.quot_rem' x 1000). pose proof (Z.rem_bound_abs x 1000 ltac:(done)). set (q := Z.quot x 1000) in *. set (r := Z.rem x 1000) in *.
  destruct (Z.ltb_spec r 0); f_equal; [apply Z.div_unique with (r + 1000) | apply Z.mod_unique with (q - 1) | apply Z.div_unique with r | apply Z.mod_unique with q]; lia.
Qed.

Lemma from_millis ms : in_range int64_t (ms * 1000) -> in_range int64_t (ms * 1000 + kTimeTToMicrosecondsOffset) ->
  FromMillisecondsSinceUnixEpoch ms = Some (true, mkTime (ms * 1000 + kTimeTToMicrosecondsOffset)).
Proof.
  intros H1 H2. assert (H0 : in_range int64_t ms) by (unfold in_range in *; revert H1; eval_types; lia). unfold FromMillisecondsSinceUnixEpoch.
  rewrite new_exact by done. rewrite (assign_exact Mul int64_t ms kMicrosecondsPerMillisecond (ms * 1000)); [| auto | done | done | done | done | done].
  rewrite (assign_exact Add int64_t _ _ (ms * 1000 + kTimeTToMicrosecondsOffset)); [| auto | done | done | done | done | done].
  destruct (value_exact int64_t _ H2) as [Hv _]. unfold ValueOrDefault. rewrite Hv. cbn [value_ mbind option_bind]. by rewrite cast_id.
Qed.

(** *** Broken-down time *)

Definition with_isdst (d : Z) (s : tm) : tm := mkTm (tm_sec s) (tm_min s) (tm_hour s) (tm_mday s) (tm_mon s) (tm_year s) (tm_wday s) d.

(** What the C library documents for UTC, for the seconds [lo..hi] it can represent:
    [timegm] inverts [gmtime_r] and ignores the daylight saving flag, years and months stay
    in the range of [int], and -1 is in 1969. *)
Variables lo hi : Z.
Hypothesis timegm_gmtime : forall s d, lo <= s <= hi -> SysTimeFromTimeStruct false (with_isdst d (SysTimeToTimeStruct false s)) = s.
Hypothesis gmtime_range : forall s, lo <= s <= hi ->
  let t := SysTimeToTimeStruct false s in
  0 <= tm_mon t <= 11 /\ in_range int32_t (tm_year t) /\ in_range int32_t (tm_year t + 1900).
Hypothesis gmtime_before_epoch : tm_year (SysTimeToTimeStruct false (-1)) = 69.

Lemma exploded_seconds_exact s :
  lo <= s <= hi -> exploded_seconds false (fun d => with_isdst d (SysTimeToTimeStruct false s)) = s.
Proof. intros Hs. unfold exploded_seconds. rewrite !timegm_gmtime by done. destruct (Z.eqb_spec s (-1)) as [->|]; done. Qed.

Lemma exploded_millis_exact e s : (s = -1 -> year e = 1969) -> 0 <= millisecond e < 1000 -> in_range int64_t (s * 1000) -> in_range int64_t (s * 1000 + millisecond e) ->
  exploded_millis e s = Some (Some (s * 1000 + millisecond e)).
Proof.
  intros Hy Hm H1 H2. assert (H0 : in_range int64_t s) by (unfold in_range in *; revert H1; eval_types; lia). unfold exploded_millis.
  assert ((s =? -1) && ((year e <? 1969) || (1970 <? year e)) = false) as ->.
  { destruct (Z.eqb_spec s (-1)) as [E|]; [|done]. by rewrite (Hy E). }
  rewrite new_exact by done. rewrite (assign_exact Mul int64_t s kMillisecondsPerSecond (s * 1000)); [| auto | done | done | done | done | done].
  rewrite (assign_exact Add int32_t _ (millisecond e) (s * 1000 + millisecond e)); [| auto | done | done | | done | done].
  - destruct (value_exact int64_t _ H2) as [-> ->]. done.
  - unfold in_range. eval_types. lia.
Qed.

Lemma field_minus a b : in_range int32_t a -> 0 <= b <= 1900 -> in_range int32_t (a - b) ->
  MathOp_assign tc Sub (Pod int32_t b) (CheckedNumeric_new int32_t int32_t a) = mkNum int32_t true (a - b).
Proof.
  intros Ha Hb Hv. rewrite new_exact by done. unfold MathOp_assign. cbn [is_valid_ Wrapper_is_valid andb type value_ UnderlyingType Wrapper_value Do].
  pose proof (ClampedMath.Sub_complete tc int32_t int32_t eq_refl eq_refl a b Ha ltac:(unfold in_range; eval_types; lia)) as Hc. change (MaxExponentPromotion int32_t int32_t) with int32_t in Hc.
  destruct (CheckedSubOp tc int32_t int32_t int32_t a b) as [ok r]. destruct Hc as [Hok Hr]. rewrite (proj2 (in_rangeb_spec _ _) Hv) in Hok. subst ok. rewrite Hr by done.
  unfold CheckedNumericState. rewrite in_range_exact, (proj2 (in_rangeb_spec _ _) Hv), cast_id by done. done.
Qed.

Lemma mostly_equals_refl e : ExplodedMostlyEquals e e = true.
Proof. unfold ExplodedMostlyEquals. by rewrite !Z.eqb_refl. Qed.

(** Exploding a time in UTC and putting it together again gives the time back, rounded
    down to its millisecond, for every time whose seconds the C library can represent;
    the second before the epoch, where [timegm] answers -1, is no exception. *)
Theorem exploded_roundtrip t :
  int64_min + 1000 <= us_ t <= int64_max -> let s := (us_ t / 1000 - 11644473600000) / 1000 in lo <= s <= hi -> in_range int64_t (s * 1000000) ->
  FromExploded false (Explode false t) = Some (true, mkTime (us_ t / 1000 * 1000)).
Proof.
  intros Ht s Hs Hr. set (ms := us_ t / 1000 - 11644473600000) in *. set (b := SysTimeToTimeStruct false s).
  assert (He : Explode false t = mkExploded (tm_year b + 1900) (tm_mon b + 1) (tm_wday b) (tm_mday b) (tm_hour b) (tm_min b) (tm_sec b) (ms mod 1000)).
  { unfold Explode, kMillisecondsPerSecond. rewrite rounded_down. fold ms. pose proof (explode_split ms) as Hx. cbv zeta in Hx. rewrite Hx. done. }
  destruct (gmtime_range s Hs) as (Hmon & Hyr & Hyr'). fold b in Hmon, Hyr, Hyr'.
  assert (Hm32 : in_range int32_t (tm_mon b + 1)) by (unfold in_range; eval_types; lia).
  pose proof (Z.div_mod ms 1000 ltac:(done)) as Hdm. fold s in Hdm. pose proof (Z.mod_pos_bound ms 1000 ltac:(done)) as Hmb.
  assert (Hdt : us_ t / 1000 * 1000 = ms * 1000 + kTimeTToMicrosecondsOffset) by (unfold ms, kTimeTToMicrosecondsOffset; lia).
  pose proof (Z.div_mod (us_ t) 1000 ltac:(done)) as Hdu. pose proof (Z.mod_pos_bound (us_ t) 1000 ltac:(done)) as Hub.
  unfold int64_min, int64_max in Ht. assert (Hms : in_range int64_t (ms * 1000 + kTimeTToMicrosecondsOffset)) by (rewrite <- Hdt; unfold in_range; lia).
  rewrite He at 1. unfold FromExploded, Decrement. cbn [month year second minute hour day_of_month day_of_week].
  rewrite !field_minus by (done || lia || (unfold in_range in *; rewrite ?Z.add_simpl_r; revert Hmon Hyr; eval_types; lia)). rewrite !Z.add_simpl_r.
  destruct (value_exact int32_t (tm_mon b)) as [-> ->]; [unfold in_range; eval_types; lia|]. destruct (value_exact int32_t (tm_year b) Hyr) as [-> ->]. cbn [negb orb mbind option_bind].
  change (fun isdst => mkTm _ _ _ _ _ _ _ isdst) with (fun d => with_isdst d b).
  rewrite (exploded_seconds_exact s Hs : exploded_seconds false (fun d => with_isdst d b) = s).
  rewrite exploded_millis_exact; cbn [year millisecond]; [| intros E; subst b; rewrite E, gmtime_before_epoch; done | done | revert Hr; unfold in_range; eval_types; lia |
    revert Hr; unfold in_range; eval_types; lia].
  cbn [mbind option_bind]. replace (s * 1000 + ms mod 1000) with ms by lia.
  rewrite from_millis by (done || (revert Hr Hms; unfold in_range, kTimeTToMicrosecondsOffset; eval_types; lia)). cbn [mbind option_bind negb].
  assert (Explode false (mkTime (ms * 1000 + kTimeTToMicrosecondsOffset)) = Explode false t) as ->.
  { unfold Explode. rewrite !rounded_down. cbn [us_]. rewrite <- Hdt, Z.div_mul by done. done. }
  rewrite He, mostly_equals_refl, Hdt. done.
Qed.

(** Seconds since the Unix epoch survive the conversion to [Time] and back over the whole
    range where neither direction saturates, except the one second that is the null time. *)
Theorem time_t_roundtrip t :
  -9223372036854 <= t <= 9200083089654 -> t <> -11644473600 ->
  exists time, FromTimeT t = Some time /\ ToTimeT time = Some t.
Proof.
  intros Ht Hnull. unfold FromTimeT. destruct (Z.eqb_spec t 0) as [->|Hz]; [by exists (mkTime 0)|].
  assert (t =? int64_max = false) as -> by (apply Z.eqb_neq; unfold int64_max; eval_types; lia).
  assert (Hs : FromSeconds tc constant t = mkDelta (t * 1000000)).
  { unfold FromSeconds. f_equal. rewrite (clamp_op_exact tc constant Mul t kMicrosecondsPerSecond (t * 1000000)); [| auto | | done | done].
    - apply clamp_id. unfold in_range. eval_types. lia.
    - unfold in_range. eval_types. lia. }
  unfold Time_add. rewrite Hs, plus_exact; [| done | unfold finite, int64_min, int64_max; cbn [delta_]; eval_types; lia]. cbn [mbind option_bind delta_ us_ UnixEpoch FromMicroseconds].
  rewrite clamp_id by (unfold in_range, kTimeTToMicrosecondsOffset; eval_types; lia).
  eexists. split; [done|]. unfold ToTimeT, is_null, Time_is_inf, Time_is_min, Time_is_max, Time_minus, s64. cbn [us_ Time_Min Time_Max UnixEpoch]. unfold kTimeTToMicrosecondsOffset, int64_min, int64_max.
  replace (11644473600000000 + t * 1000000 - 11644473600000000) with (t * 1000000) by lia.
  rewrite (proj2 (in_rangeb_spec int64_t (t * 1000000))) by (unfold in_range; eval_types; lia). cbn [mbind option_bind].
  assert (Hin : InSeconds (FromMicroseconds (t * 1000000)) = t).
  { unfold InSeconds. rewrite finite_not_inf by (unfold finite, int64_min, int64_max; cbn; eval_types; lia). cbn. apply Z.quot_mul. done. }
  rewrite Hin. eval_types. solve_bools.
Qed.

End Clock.
(** A calendar of one-day years, enough for the C library's contract. *)
Definition day_calendar_to (_ : bool) (s : Z) : tm :=
  mkTm (s mod 60) (s / 60 mod 60) (s / 3600 mod 24) 1 0 (s / 86400 + 70) 0 0.
Definition day_calendar_from (_ : bool) (t : tm) : Z :=
  (tm_year t - 70) * 86400 + tm_hour t * 3600 + tm_min t * 60 + tm_sec t.

Lemma exploded_roundtrip_witness :
  FromExploded Gcc day_calendar_from day_calendar_to false (Explode day_calendar_to false (mkTime 13000000000123456)) = Some (true, mkTime 13000000000123000).
Proof.
  apply (exploded_roundtrip Gcc day_calendar_from day_calendar_to (-10000000000) 10000000000).
  - intros s d _. unfold day_calendar_from, day_calendar_to. cbn [with_isdst tm_sec tm_min tm_hour tm_mday tm_mon tm_year tm_wday tm_isdst].
    Z.to_euclidean_division_equations. lia.
  - intros s Hs. cbn. unfold in_range. eval_types. Z.to_euclidean_division_equations. lia.
  - reflexivity.
  - split; vm_compute; discriminate.
  - split; vm_compute; discriminate.
  - split; vm_compute; discriminate.
Defined.

Lemma time_t_roundtrip_witness : exists time, FromTimeT Clang true 1700000000 = Some time /\ ToTimeT time = Some 1700000000.
Proof. apply (time_t_roundtrip Clang true 1700000000); lia. Defined.

(** The second of the null time comes back as zero. *)
Theorem null_second_lost tc constant : (time ← FromTimeT tc constant (-11644473600); ToTimeT time) = Some 0.
Proof. destruct tc, constant; vm_compute; reflexivity. Qed.

(** A [timeval] on a whole second fails the check, although the code that follows handles
    it and [ToTimeVal] produces it. *)
Theorem whole_second_timeval_aborts sec : FromTimeVal (sec, 0) = None /\ ToTimeVal (mkTime 11644473601000000) = Some (1, 0).
Proof. split; vm_compute; reflexivity. Qed.

End Time.
