(* ===== verification/IPAddress.v ===== *)
(** * Addresses and end points (net_io/base/ip_address, ip_endpoint,
    address_family, sockaddr_storage, net_io/socket_utils)

    [IPAddressBytes] is a 16-byte array with a length; an address is its first
    [size_] bytes in network order.  [debug] says whether the build checks
    [DCHECK]; [mem] is what the storage of a fresh array happens to hold.  [None]
    is a failed check or an access outside an object.  The text conversions of the
    C library, [inet_pton] and [inet_ntop], are parameters. *)
From S2P Require Import Prelude IOBuffer ByteOrder StdMap StrUtils.
Import StdMap.

Module IPAddress.

(** ** The byte array *)

Record IPAddressBytes := { bytes_ : list Z; size_ : Z }.
Definition view (b : IPAddressBytes) : list Z := ztake (size_ b) (bytes_ b).

Definition kIPv4AddressSize : Z := 4.
Definition kIPv6AddressSize : Z := 16.
Definition kIPv4MappedPrefix : list Z := replicate 10 0 ++ [255; 255].

(** An IP address wraps the array. *)
Abbreviation IPAddress := IPAddressBytes.

Section Address.
Context (debug : bool) (mem : list Z).

Definition DCHECK (c : bool) : option unit := if debug && negb c then None else Some tt.

Definition IPAddressBytes_new : IPAddressBytes := {| bytes_ := mem; size_ := 0 |}.
Definition empty (b : IPAddressBytes) : bool := size_ b =? 0.
Definition Assign (b : IPAddressBytes) (data : list Z) (data_len : Z) : option IPAddressBytes :=
  if (data_len <=? 16) && (data_len <=? zlen data)
  then Some {| bytes_ := ztake data_len data ++ zdrop data_len (bytes_ b); size_ := u8 data_len |}
  else None.
Definition Resize (b : IPAddressBytes) (size : Z) : option IPAddressBytes :=
  _ ← DCHECK (size <=? 16);
  Some {| bytes_ := bytes_ b; size_ := u8 size |}.
Definition back (b : IPAddressBytes) : option Z :=
  _ ← DCHECK (negb (empty b));
  if empty b then None else bytes_ b !! Z.to_nat (size_ b - 1).
Definition push_back (b : IPAddressBytes) (val : Z) : option IPAddressBytes :=
  _ ← DCHECK (size_ b <? 16);
  if size_ b <? 16
  then Some {| bytes_ := <[Z.to_nat (size_ b) := val]> (bytes_ b); size_ := size_ b + 1 |}
  else None.
(** [operator[]]. *)
Definition at_ (b : IPAddressBytes) (pos : nat) : option Z :=
  _ ← DCHECK (Z.of_nat pos <? size_ b);
  bytes_ b !! pos.
Definition bytes_lt (a b : IPAddressBytes) : bool :=
  if size_ a =? size_ b then lex_ltb (view a) (view b) else size_ a <? size_ b.
Definition bytes_eq (a b : IPAddressBytes) : bool :=
  (size_ a =? size_ b) && bool_decide (view a = ztake (size_ a) (bytes_ b)).

(** ** Constructors *)

Definition IPAddress_new : IPAddress := IPAddressBytes_new.
(** [IPAddress(address, address_len)]. *)
Definition IPAddress_of (address : list Z) (address_len : Z) : option IPAddress :=
  Assign IPAddressBytes_new address address_len.
(** [IPAddress(b0, ..., b3)] and [IPAddress(b0, ..., b15)]. *)
Fixpoint push_all (b : IPAddressBytes) (vals : list Z) : option IPAddressBytes :=
  match vals with
  | [] => Some b
  | v :: vals' => b' ← push_back b v; push_all b' vals'
  end.
Definition IPAddress4 (b0 b1 b2 b3 : Z) : option IPAddress := push_all IPAddressBytes_new [b0; b1; b2; b3].
Definition IPAddress16 (b0 b1 b2 b3 b4 b5 b6 b7 b8 b9 b10 b11 b12 b13 b14 b15 : Z) : option IPAddress :=
  push_all IPAddressBytes_new [b0; b1; b2; b3; b4; b5; b6; b7; b8; b9; b10; b11; b12; b13; b14; b15].

Definition IPv4Localhost : option IPAddress := IPAddress_of [127; 0; 0; 1] 4.
Definition IPv6Localhost : option IPAddress := IPAddress_of (replicate 15 0 ++ [1]) 16.
Definition AllZeros (num_zero_bytes : Z) : option IPAddress :=
  if num_zero_bytes <=? 16 then push_all IPAddress_new (replicate (Z.to_nat num_zero_bytes) 0) else None.
Definition IPv4AllZeros : option IPAddress := AllZeros kIPv4AddressSize.
Definition IPv6AllZeros : option IPAddress := AllZeros kIPv6AddressSize.

(** ** Classification *)

Definition IsIPv4 (a : IPAddress) : bool := size_ a =? kIPv4AddressSize.
Definition IsIPv6 (a : IPAddress) : bool := size_ a =? kIPv6AddressSize.
Definition IsValid (a : IPAddress) : bool := IsIPv4 a || IsIPv6 a.
Definition CopyBytesToVector (a : IPAddress) : list Z := view a.
Definition IsZero (a : IPAddress) : bool := forallb (fun x => x =? 0) (view a) && negb (empty a).
Definition IPAddressStartsWith (a : IPAddress) (prefix : list Z) : bool :=
  if size_ a <? zlen prefix then false else bool_decide (prefix = ztake (zlen prefix) (bytes_ a)).
Definition IsIPv4MappedIPv6 (a : IPAddress) : bool := IsIPv6 a && IPAddressStartsWith a kIPv4MappedPrefix.

(** The loop of [IsLoopback] from the index [i], [n] indices left. *)
Fixpoint zero_bytes (a : IPAddress) (i n : nat) : option bool :=
  match n with
  | O => Some true
  | S n' => x ← at_ a i; if x =? 0 then zero_bytes a (S i) n' else Some false
  end.
Definition IsLoopback (a : IPAddress) : option bool :=
  if IsIPv4 a then x ← at_ a 0; Some (x =? 127)
  else if IsIPv6 a then
    z ← zero_bytes a 0 (Z.to_nat (size_ a - 1));
    if (z : bool) then x ← back a; Some (x =? 1) else Some false
  else Some false.
Definition IsLinkLocal (a : IPAddress) : option bool :=
  if IsIPv4 a then
    x ← at_ a 0; if x =? 169 then y ← at_ a 1; Some (y =? 254) else Some false
  else if IsIPv4MappedIPv6 a then
    x ← at_ a 12; if x =? 169 then y ← at_ a 13; Some (y =? 254) else Some false
  else if IsIPv6 a then
    x ← at_ a 0; if x =? 254 then y ← at_ a 1; Some (Z.land y 192 =? 128) else Some false
  else Some false.

Definition operator_eq (a that : IPAddress) : bool := bytes_eq a that.
Definition operator_lt (a that : IPAddress) : bool :=
  if negb (size_ a =? size_ that) then size_ a <? size_ that else bytes_lt a that.

(** ** Prefixes *)

(** The loop over the whole bytes of the prefix. *)
Fixpoint entire_bytes (a : IPAddressBytes) (ip_prefix : list Z) (i n : nat) : option bool :=
  match n with
  | O => Some true
  | S n' =>
      x ← at_ a i; p ← ip_prefix !! i;
      if x =? p then entire_bytes a ip_prefix (S i) n' else Some false
  end.
Definition IPAddressPrefixCheck (ip_address : IPAddressBytes) (ip_prefix : list Z)
    (prefix_length_in_bits : Z) : option bool :=
  let num_entire_bytes_in_prefix := Z.to_nat (prefix_length_in_bits / 8) in
  same ← entire_bytes ip_address ip_prefix 0 num_entire_bytes_in_prefix;
  if negb same then Some false else
  let remaining_bits := prefix_length_in_bits mod 8 in
  if remaining_bits =? 0 then Some true else
  let mask := u8 (Z.shiftl 255 (8 - remaining_bits)) in
  x ← at_ ip_address num_entire_bytes_in_prefix;
  p ← ip_prefix !! num_entire_bytes_in_prefix;
  Some (Z.land x mask =? Z.land p mask).

Definition kReservedIPv4Ranges : list (list Z * Z) :=
  [([0; 0; 0; 0], 8); ([10; 0; 0; 0], 8); ([100; 64; 0; 0], 10);
   ([127; 0; 0; 0], 8); ([169; 254; 0; 0], 16); ([172; 16; 0; 0], 12);
   ([192; 0; 2; 0], 24); ([192; 88; 99; 0], 24); ([192; 168; 0; 0], 16);
   ([198; 18; 0; 0], 15); ([198; 51; 100; 0], 24); ([203; 0; 113; 0], 24);
   ([224; 0; 0; 0], 3)].
Definition kPublicIPv6Ranges : list (list Z * Z) := [([32; 0], 3); ([255; 0], 8)].

(** Whether one of the ranges holds the address. *)
Fixpoint in_ranges (a : IPAddressBytes) (ranges : list (list Z * Z)) : option bool :=
  match ranges with
  | [] => Some false
  | (p, n) :: ranges' =>
      m ← IPAddressPrefixCheck a p n;
      if (m : bool) then Some true else in_ranges a ranges'
  end.
Definition IsPubliclyRoutableIPv4 (ip_address : IPAddressBytes) : option bool :=
  _ ← DCHECK (kIPv4AddressSize =? size_ ip_address);
  r ← in_ranges ip_address kReservedIPv4Ranges;
  Some (negb r).

(** The two objects [ConvertIPv4MappedIPv6ToIPv4] takes an iterator into; a pair
    of iterators into different objects is not a range. *)
Inductive object := address_bytes | mapped_prefix.
Definition range (a : IPAddress) (first last : object * Z) : option (list Z) :=
  match first, last with
  | (address_bytes, i), (address_bytes, j) => Some (slice i j (bytes_ a))
  | (mapped_prefix, i), (mapped_prefix, j) => Some (slice i j kIPv4MappedPrefix)
  | _, _ => None
  end.
Definition ConvertIPv4ToIPv4MappedIPv6 (a : IPAddress) : option IPAddress :=
  _ ← DCHECK (IsIPv4 a);
  let bytes := kIPv4MappedPrefix ++ view a in
  IPAddress_of bytes (zlen bytes).
Definition ConvertIPv4MappedIPv6ToIPv4 (a : IPAddress) : option IPAddress :=
  _ ← DCHECK (IsIPv4MappedIPv6 a);
  bytes ← range a (address_bytes, zlen kIPv4MappedPrefix) (mapped_prefix, zlen kIPv4MappedPrefix);
  IPAddress_of bytes (zlen bytes).

Definition IsPubliclyRoutableIPv6 (ip_address : IPAddressBytes) : option bool :=
  _ ← DCHECK (kIPv6AddressSize =? size_ ip_address);
  p ← in_ranges ip_address kPublicIPv6Ranges;
  if (p : bool) then Some true else
  if IsIPv4MappedIPv6 ip_address then
    ipv4 ← ConvertIPv4MappedIPv6ToIPv4 ip_address;
    IsPubliclyRoutableIPv4 ipv4
  else Some false.
Definition IsPubliclyRoutable (a : IPAddress) : option bool :=
  if IsIPv4 a then IsPubliclyRoutableIPv4 a
  else if IsIPv6 a then IsPubliclyRoutableIPv6 a
  else Some true.

(** The recursion converts each side at most once; a third conversion fails its
    check, so that three levels are enough. *)
Fixpoint matches_prefix (fuel : nat) (ip_address ip_prefix : IPAddress) (prefix_length_in_bits : Z) : option bool :=
  match fuel with
  | O => None
  | S fuel' =>
      _ ← DCHECK (IsValid ip_address);
      _ ← DCHECK (IsValid ip_prefix);
      _ ← DCHECK (prefix_length_in_bits <=? size_ ip_prefix * 8);
      if negb (size_ ip_address =? size_ ip_prefix) then
        if IsIPv4 ip_address then
          a ← ConvertIPv4ToIPv4MappedIPv6 ip_address;
          matches_prefix fuel' a ip_prefix prefix_length_in_bits
        else
          p ← ConvertIPv4ToIPv4MappedIPv6 ip_prefix;
          matches_prefix fuel' ip_address p (96 + prefix_length_in_bits)
      else IPAddressPrefixCheck ip_address (bytes_ ip_prefix) prefix_length_in_bits
  end.
Definition IPAddressMatchesPrefix : IPAddress -> IPAddress -> Z -> option bool := matches_prefix 3.

(** The inner loop of [CommonPrefixLength] at bit [j], [n] bits left; [None] when
    no bit is set. *)
Fixpoint first_bit (diff : Z) (j : Z) (n : nat) : option Z :=
  match n with
  | O => None
  | S n' => if has diff 128 then Some j else first_bit (u32 (Z.shiftl diff 1)) (j + 1) n'
  end.
Fixpoint common_prefix (a1 a2 : IPAddress) (i n : nat) : option Z :=
  match n with
  | O => Some (size_ a1 * 8)
  | S n' =>
      x ← at_ a1 i; y ← at_ a2 i;
      let diff := Z.lxor x y in
      if diff =? 0 then common_prefix a1 a2 (S i) n' else
      match first_bit diff 0 8 with
      | Some j => Some (Z.of_nat i * 8 + j)
      | None => common_prefix a1 a2 (S i) n'
      end
  end.
Definition CommonPrefixLength (a1 a2 : IPAddress) : option Z :=
  _ ← DCHECK (size_ a1 =? size_ a2);
  common_prefix a1 a2 0 (Z.to_nat (size_ a1)).
Definition MaskPrefixLength (mask : IPAddress) : option Z :=
  ones ← IPAddress_of (replicate 16 255) 16;
  CommonPrefixLength mask ones.

(** ** Text *)

(** A [StringPiece]: the memory from its pointer on, and its length. *)
Record StringPiece := { data : list Z; piece_len : nat }.
Definition piece_of (s : list Z) : StringPiece := {| data := s ++ [0]; piece_len := length s |}.
Definition piece_text (p : StringPiece) : list Z := take (piece_len p) (data p).
Definition substr (p : StringPiece) (pos n : nat) : StringPiece :=
  {| data := drop pos (data p); piece_len := Nat.min n (piece_len p - pos) |}.

(** The C string at a pointer: the bytes before the first NUL. *)
Fixpoint c_str (m : list Z) : option (list Z) :=
  match m with
  | [] => None
  | c :: m' => if c =? 0 then Some [] else s ← c_str m'; Some (c :: s)
  end.

(** [inet_pton v6 text]: the bytes of the address, [None] for an invalid text;
    [inet_ntop v6 bytes]: the text of an address. *)
Context (inet_pton : bool -> list Z -> option (list Z)) (inet_ntop : bool -> list Z -> list Z).

Definition ParseIPLiteralToBytes (ip_literal : StringPiece) (bytes : IPAddressBytes)
    : option (bool * IPAddressBytes) :=
  let v6 := bool_decide (58 ∈ piece_text ip_literal) in
  bytes ← Resize bytes (if v6 then 16 else 4);
  text ← c_str (data ip_literal);
  match inet_pton v6 text with
  | Some bs => Some (true, {| bytes_ := bs ++ zdrop (zlen bs) (bytes_ bytes); size_ := size_ bytes |})
  | None => Some (false, bytes)
  end.
Definition AssignFromIPLiteral (a : IPAddress) (ip_literal : StringPiece) : option (bool * IPAddress) :=
  '(success, a) ← ParseIPLiteralToBytes ip_literal a;
  if (success : bool) then Some (true, a) else a ← Resize a 0; Some (false, a).

(** [AsWriteInto] makes the string [out_len - 1] NULs; [inet_ntop] writes the text
    over its front when the text and its terminator fit. *)
Definition ToString (a : IPAddress) : list Z :=
  let v6 := negb (IsIPv4 a) in
  let out_len := if v6 then 46%nat else 16%nat in
  let text := inet_ntop v6 (ztake (if v6 then 16 else 4) (bytes_ a)) in
  if Nat.ltb (length text) out_len then text ++ replicate (out_len - 1 - length text) 0
  else replicate (out_len - 1) 0.
Definition IPAddressToStringWithPort (a : IPAddress) (port : Z) : option (list Z) :=
  let address_str := ToString a in
  match address_str with
  | [] => Some []
  | _ =>
      text ← c_str (address_str ++ [0]);
      if IsIPv6 a then Some (str "[" ++ text ++ str "]:" ++ StrUtils.to_string port)
      else Some (text ++ str ":" ++ StrUtils.to_string port)
  end.
Definition IPAddressToPackedString (a : IPAddress) : list Z := view a.

(** [ParseCIDRBlock(cidr_literal, ip_address, prefix_length_in_bits)]: the result
    and the two outputs.  [number_of_bits] is uninitialised before it is parsed. *)
Definition ParseCIDRBlock (cidr_literal : list Z) (a : IPAddress) (prefix_length_in_bits : Z)
    : option (bool * IPAddress * Z) :=
  parts ← StrUtils.Split cidr_literal (str "/") false;
  match parts with
  | [p0; p1] =>
      '(ok, a) ← AssignFromIPLiteral a (piece_of p0);
      if negb ok then Some (false, a, prefix_length_in_bits) else
      let '(ok, number_of_bits) := StrUtils.ParseTo 32 p1 0 in
      if negb ok then Some (false, a, prefix_length_in_bits) else
      if size_ a * 8 <? number_of_bits then Some (false, a, prefix_length_in_bits)
      else Some (true, a, number_of_bits)
  | _ => Some (false, a, prefix_length_in_bits)
  end.
Definition ParseURLHostnameToAddress (hostname : StringPiece) (a : IPAddress) : option (bool * IPAddress) :=
  let text := piece_text hostname in
  if (2 <=? piece_len hostname)%nat && bool_decide (text !! 0%nat = Some 91)
     && bool_decide (text !! (piece_len hostname - 1)%nat = Some 93) then
    '(ok, a) ← AssignFromIPLiteral a (substr hostname 1 (piece_len hostname - 2));
    Some (ok && IsIPv6 a, a)
  else
    '(ok, a) ← AssignFromIPLiteral a hostname;
    Some (ok && IsIPv4 a, a).

End Address.

(** ** Addresses as numbers *)

(** The number a sequence of bytes in network order stands for, and its [n] most
    significant bits. *)
Fixpoint be (l : list Z) : Z :=
  match l with [] => 0 | b :: l' => b * 2 ^ (8 * zlen l') + be l' end.
Definition top (n : Z) (l : list Z) : Z := be l / 2 ^ (8 * zlen l - n).

Lemma be_range l : bytes_ok l -> 0 <= be l < 2 ^ (8 * zlen l).
Proof.
  induction 1 as [|b l Hb Hl IH]; [done|]. cbn [be length].
  rewrite Nat2Z.inj_succ, <- Z.add_1_r, Z.mul_add_distr_l, Z.pow_add_r by lia. unfold is_byte in Hb. nia.
Qed.
Lemma be_app l k : be (l ++ k) = be l * 2 ^ (8 * zlen k) + be k.
Proof.
  induction l as [|b l IH]; [done|]. cbn [be app]. rewrite IH, length_app.
  rewrite Nat2Z.inj_add, Z.mul_add_distr_l, Z.pow_add_r by lia. lia.
Qed.
(** Two mixed-radix numerals with the same radix agree when their digits do. *)
Lemma digits_inj m a b x y :
  0 <= x < m -> 0 <= y < m -> a * m + x = b * m + y <-> a = b /\ x = y.
Proof. intros. split; [|intros [-> ->]; done]. intros. assert (a = b) by nia. subst. lia. Qed.
Lemma be_inj l k : bytes_ok l -> bytes_ok k -> length l = length k -> be l = be k <-> l = k.
Proof.
  intros Hl. revert k. induction Hl as [|b l Hb Hl IH]; intros [|c k] Hk Hlen; try done.
  apply Forall_cons_iff in Hk as [Hc Hk']. injection Hlen as Hlen. cbn [be].
  rewrite Hlen, digits_inj; [rewrite (IH k) by done; split; [by intros [-> ->] | by intros [=]] | | by apply be_range].
  rewrite <- Hlen. by apply be_range.
Qed.

Lemma top_range n l : bytes_ok l -> 0 <= n <= 8 * zlen l -> 0 <= top n l < 2 ^ n.
Proof.
  intros Hl Hn. pose proof (be_range l Hl) as Hb. unfold top.
  split; [apply Z.div_pos; [lia | apply Z.pow_pos_nonneg; lia]|].
  apply Z.div_lt_upper_bound; [apply Z.pow_pos_nonneg; lia|].
  rewrite <- Z.pow_add_r by lia. replace (8 * zlen l - n + n) with (8 * zlen l) by lia. apply Hb.
Qed.
Lemma top_app r l k :
  bytes_ok k -> 0 <= r <= 8 * zlen k -> top (8 * zlen l + r) (l ++ k) = be l * 2 ^ r + top r k.
Proof.
  intros Hk Hr. unfold top. rewrite be_app, length_app.
  replace (8 * _ - (8 * zlen l + r)) with (8 * zlen k - r) by lia.
  replace (8 * zlen k) with (r + (8 * zlen k - r)) at 1 by lia.
  rewrite Z.pow_add_r, Z.mul_assoc, Z.div_add_l by lia || (apply Z.pow_nonzero; lia). done.
Qed.
Lemma top_byte r x l : bytes_ok l -> 0 <= r <= 8 -> top r (x :: l) = x / 2 ^ (8 - r).
Proof.
  intros Hl Hr. unfold top. cbn [be length]. pose proof (be_range l Hl).
  replace (8 * Z.of_nat (S (length l)) - r) with (8 * zlen l + (8 - r)) by lia.
  rewrite Z.pow_add_r, <- Z.div_div by lia || (apply Z.pow_pos_nonneg; lia) || (apply Z.pow_nonzero; lia).
  rewrite Z.div_add_l, (Z.div_small (be l)) by lia. by rewrite Z.add_0_r.
Qed.
(** Only the leading bytes matter. *)
Lemma top_app_l n l k : bytes_ok k -> 0 <= n <= 8 * zlen l -> top n (l ++ k) = top n l.
Proof.
  intros Hk Hn. unfold top. rewrite be_app, length_app, Nat2Z.inj_add.
  replace (8 * (zlen l + zlen k) - n) with (8 * zlen k + (8 * zlen l - n)) by lia.
  rewrite Z.pow_add_r, <- Z.div_div by first [lia | apply Z.pow_nonzero; lia | apply Z.pow_pos_nonneg; lia].
  rewrite Z.div_add_l by (apply Z.pow_nonzero; lia).
  by rewrite (Z.div_small (be k)), Z.add_0_r by by apply be_range.
Qed.
Lemma top_top m n l : 0 <= m <= n -> n <= 8 * zlen l -> top m l = top n l / 2 ^ (n - m).
Proof.
  intros Hm Hn. unfold top.
  rewrite Z.div_div by first [apply Z.pow_nonzero; lia | apply Z.pow_pos_nonneg; lia].
  rewrite <- Z.pow_add_r by lia. do 2 f_equal. lia.
Qed.
Lemma top_0 l : bytes_ok l -> top 0 l = 0.
Proof. intros Hl. pose proof (top_range 0 l Hl). lia. Qed.

(** The mask of a partial byte keeps its [r] most significant bits. *)
Lemma mask_byte r x :
  0 < r < 8 -> is_byte x -> Z.land x (u8 (Z.shiftl 255 (8 - r))) = x / 2 ^ (8 - r) * 2 ^ (8 - r).
Proof.
  intros Hr Hx.
  assert (forallb (fun r => forallb (fun x => Z.land x (u8 (Z.shiftl 255 (8 - r))) =? x / 2 ^ (8 - r) * 2 ^ (8 - r))
    (seqZ 0 256)) (seqZ 1 7) = true) as H by (vm_compute; reflexivity).
  rewrite forallb_forall in H. specialize (H r). rewrite forallb_forall in H.
  apply Z.eqb_eq, H; apply list_elem_of_In, elem_of_seqZ; unfold is_byte in Hx; lia.
Qed.

(** ** The prefix comparison *)

Definition wf (a : IPAddress) : Prop :=
  length (bytes_ a) = 16%nat /\ bytes_ok (bytes_ a) /\ 0 <= size_ a <= 16.

Lemma view_length a : wf a -> zlen (view a) = size_ a.
Proof. intros (Hl & _ & Hs). apply zlen_ztake. lia. Qed.
Lemma view_ok a : wf a -> bytes_ok (view a).
Proof. intros (_ & Hb & _). by apply Forall_take. Qed.
Lemma at_view debug a i : wf a -> Z.of_nat i < size_ a -> at_ debug a i = view a !! i.
Proof.
  intros Hw Hi. unfold at_, DCHECK. rewrite (proj2 (Z.ltb_lt _ _) Hi), andb_false_r. simpl.
  unfold view, ztake. rewrite lookup_take_lt; [done|lia].
Qed.

Lemma entire_bytes_spec debug a p i n :
  wf a -> Z.of_nat (i + n) <= size_ a -> (i + n <= length p)%nat ->
  entire_bytes debug a p i n = Some (bool_decide (take n (drop i (view a)) = take n (drop i p))).
Proof.
  intros Hw. pose proof (view_length a Hw) as Hv. revert i. induction n as [|n IH]; intros i Ha Hp.
  { rewrite !take_0. by rewrite bool_decide_true. }
  cbn [entire_bytes]. rewrite at_view by (done || lia).
  destruct (lookup_lt_is_Some_2 (view a) i) as [x Hx]; [lia|].
  destruct (lookup_lt_is_Some_2 p i) as [y Hy]; [lia|].
  rewrite Hx, Hy. cbn [mbind option_bind]. rewrite (drop_S _ _ _ Hx), (drop_S _ _ _ Hy), !firstn_cons.
  destruct (Z.eqb_spec x y) as [->|Hne]; [|rewrite bool_decide_false; congruence].
  rewrite IH by lia. f_equal. apply bool_decide_ext. split; congruence.
Qed.

Lemma top_split n l (q := Z.to_nat (n / 8)) :
  bytes_ok l -> 0 <= n <= 8 * zlen l ->
  top n l = be (take q l) * 2 ^ (n mod 8) + top (n mod 8) (drop q l) /\ length (take q l) = q /\
  0 <= top (n mod 8) (drop q l) < 2 ^ (n mod 8).
Proof.
  intros Hl Hn. pose proof (Z.div_mod n 8 ltac:(lia)) as Hd. pose proof (Z.mod_pos_bound n 8 ltac:(lia)) as Hm.
  assert (0 <= n / 8 <= zlen l) as Hq
    by (split; [apply Z.div_pos; lia | apply Z.div_le_upper_bound; lia]).
  assert (length (take q l) = q) as Hlen by (rewrite length_take; subst q; lia).
  assert (bytes_ok (drop q l)) as Hok by by apply Forall_drop.
  assert (n mod 8 <= 8 * zlen (drop q l)) as Hr by (rewrite length_drop; subst q; lia).
  split_and!; [|done|apply top_range; [done|lia]..].
  rewrite <- (top_app _ (take q l)) by (done || lia). rewrite take_drop, Hlen. f_equal. subst q. lia.
Qed.

Lemma prefix_check_top debug a p n :
  wf a -> bytes_ok p -> 0 <= n <= 8 * size_ a -> n <= 8 * zlen p ->
  IPAddressPrefixCheck debug a p n = Some (bool_decide (top n (view a) = top n p)).
Proof.
  intros Hw Hp Hn Hnp. pose proof (view_length a Hw) as Hv. pose proof (view_ok a Hw) as Hok.
  destruct (top_split n (view a)) as (-> & Hla & Hra); [done|lia|].
  destruct (top_split n p) as (-> & Hlp & Hrp); [done|lia|].
  unfold IPAddressPrefixCheck. set (q := Z.to_nat (n / 8)) in *.
  pose proof (Z.mod_pos_bound n 8 ltac:(lia)) as Hm.
  assert (q <= length (view a))%nat by (rewrite length_take in Hla; lia).
  assert (q <= length p)%nat by (rewrite length_take in Hlp; lia).
  rewrite entire_bytes_spec by (done || lia). cbn [mbind option_bind]. rewrite !drop_0.
  rewrite (bool_decide_ext _ _ (digits_inj _ _ _ _ _ Hra Hrp)).
  rewrite (bool_decide_ext _ _ (and_iff_compat_r _ (be_inj _ _ (Forall_take _ _ _ Hok) (Forall_take _ _ _ Hp) (eq_trans Hla (eq_sym Hlp))))).
  rewrite bool_decide_and. case_bool_decide; [|done]. cbn [negb andb].
  destruct (Z.eqb_spec (n mod 8) 0) as [->|Hr].
  { rewrite !top_0 by by apply Forall_drop. done. }
  assert (Z.of_nat q * 8 < n) by (pose proof (Z.div_mod n 8 ltac:(lia)); subst q; rewrite Z2Nat.id; [lia|apply Z.div_pos; lia]).
  rewrite at_view by (done || lia).
  destruct (lookup_lt_is_Some_2 (view a) q) as [x Hx]; [lia|].
  destruct (lookup_lt_is_Some_2 p q) as [y Hy]; [lia|].
  rewrite Hx, Hy. cbn [mbind option_bind]. rewrite (drop_S _ _ _ Hx), (drop_S _ _ _ Hy).
  rewrite !top_byte by (lia || by apply Forall_drop).
  pose proof (Forall_lookup_1 _ _ _ _ Hok Hx). pose proof (Forall_lookup_1 _ _ _ _ Hp Hy).
  rewrite (mask_byte _ x), (mask_byte _ y) by (done || lia).
  f_equal. case_bool_decide as Hc; [by rewrite Hc, Z.eqb_refl|].
  apply Z.eqb_neq. intros E. apply Hc. apply Z.mul_cancel_r in E; [done | apply Z.pow_nonzero; lia].
Qed.

Definition wf_ip (a : IPAddress) : Prop := wf a /\ IsValid a = true.

(** An address in its 128-bit form: an IPv4 address is the tail of the mapped
    prefix. *)
Definition mapped (a : IPAddress) : list Z := if IsIPv4 a then kIPv4MappedPrefix ++ view a else view a.

Lemma IPAddress_of_spec mem l :
  length mem = 16%nat -> bytes_ok mem -> bytes_ok l -> zlen l <= 16 ->
  exists a, IPAddress_of mem l (zlen l) = Some a /\ wf a /\ view a = l /\ size_ a = zlen l.
Proof.
  intros Hm Hmem Hl Hlen. unfold IPAddress_of, Assign. rewrite (proj2 (Z.leb_le _ _) Hlen), Z.leb_refl. cbn [andb].
  eexists. split; [done|]. rewrite (u8_id (zlen l)) by lia. unfold wf, view. cbn [bytes_ size_].
  rewrite (ztake_all _ l) by lia. split_and!; [| |lia|lia|by apply ztake_app|done].
  - unfold zdrop. rewrite length_app, length_drop. cbn [bytes_ IPAddressBytes_new]. lia.
  - apply Forall_app_2; [done|]. by apply Forall_drop.
Qed.
Lemma IPAddress_of_inv mem l n a : IPAddress_of mem l n = Some a -> n = zlen l -> size_ a = zlen l.
Proof.
  intros H ->. unfold IPAddress_of, Assign in H. destruct (_ && _) eqn:E; [|done].
  injection H as <-. cbn [size_]. apply u8_id. lia.
Qed.

Lemma map_ipv4 debug mem a :
  length mem = 16%nat -> bytes_ok mem -> wf a -> IsIPv4 a = true ->
  exists b, ConvertIPv4ToIPv4MappedIPv6 debug mem a = Some b /\ wf b /\ view b = mapped a /\ size_ b = 16.
Proof.
  intros Hm Hmem Hw H4. unfold ConvertIPv4ToIPv4MappedIPv6, DCHECK, mapped. rewrite H4, andb_false_r. cbn [mbind option_bind].
  pose proof (view_length a Hw) as Hv. unfold IsIPv4, kIPv4AddressSize in H4.
  assert (zlen (kIPv4MappedPrefix ++ view a) = 16) as Hl by (rewrite length_app; simpl length; lia).
  destruct (IPAddress_of_spec mem (kIPv4MappedPrefix ++ view a)) as (b & -> & Hb & Hvb & Hs); [done|done| |lia|].
  - apply Forall_app_2; [|by apply view_ok]. repeat constructor; unfold is_byte; lia.
  - exists b. split_and!; [done..|lia].
Qed.

Lemma matches_same fuel debug mem a p n :
  wf_ip a -> wf_ip p -> size_ a = size_ p -> 0 <= n <= 8 * size_ p ->
  matches_prefix debug mem (S fuel) a p n = Some (bool_decide (top n (view a) = top n (view p))).
Proof.
  intros [Ha Va] [Hp Vp] Hs Hn. cbn [matches_prefix]. unfold DCHECK. rewrite Va, Vp, Hs, Z.eqb_refl.
  rewrite (proj2 (Z.leb_le _ _)) by lia. rewrite !andb_false_r. cbn [mbind option_bind negb].
  pose proof (view_length p Hp) as Hv. destruct Hp as (Hl & Hok & Hsz). rewrite prefix_check_top by (done || lia). f_equal. apply bool_decide_ext.
  enough (top n (bytes_ p) = top n (view p)) as -> by done.
  rewrite <- (ztake_zdrop (size_ p) (bytes_ p)). apply top_app_l; [by apply Forall_drop|lia].
Qed.

(** C34.  Every address is in exactly the blocks CIDR notation says.  For valid
    addresses of either family and a prefix length the prefix can have,
    [IPAddressMatchesPrefix] compares the leading bits of the two numbers: those of
    the addresses themselves within a family, those of the 128-bit forms (with 96
    more bits for an IPv4 prefix) across families. *)
Theorem prefix_match_is_cidr debug mem a p n :
  length mem = 16%nat -> bytes_ok mem -> wf_ip a -> wf_ip p -> 0 <= n <= 8 * size_ p ->
  IPAddressMatchesPrefix debug mem a p n =
  Some (if size_ a =? size_ p then bool_decide (top n (view a) = top n (view p))
        else let n' := if IsIPv4 p then 96 + n else n in
             bool_decide (top n' (mapped a) = top n' (mapped p))).
Proof.
  intros Hm Hmem [Ha Va] [Hp Vp] Hn. unfold IPAddressMatchesPrefix.
  destruct (Z.eqb_spec (size_ a) (size_ p)) as [Hs|Hs]; [by apply matches_same|].
  set (f := 2%nat). cbn [matches_prefix]. unfold DCHECK at 1 2 3. rewrite Va, Vp, (proj2 (Z.leb_le _ _)) by lia.
  rewrite !andb_false_r, (proj2 (Z.eqb_neq _ _) Hs). cbn [mbind option_bind negb].
  assert (size_ a = 4 /\ size_ p = 16 \/ size_ a = 16 /\ size_ p = 4) as [[H1 H2]|[H1 H2]]
    by (unfold IsValid, IsIPv4, IsIPv6, kIPv4AddressSize, kIPv6AddressSize in *; lia).
  - assert (IsIPv4 a = true) as H4 by (unfold IsIPv4; by rewrite H1).
    assert (IsIPv4 p = false) as H6 by (unfold IsIPv4; by rewrite H2).
    rewrite H4, H6. destruct (map_ipv4 debug mem a) as (b & -> & Hb & Hvb & Hsb); [done..|]. cbn [mbind option_bind].
    subst f. rewrite matches_same; [|split; [done|unfold IsValid, IsIPv6; by rewrite Hsb, orb_true_r]|done|lia|lia].
    rewrite Hvb. by replace (mapped p) with (view p) by (unfold mapped; by rewrite H6).
  - assert (IsIPv4 a = false) as H6 by (unfold IsIPv4; by rewrite H1).
    assert (IsIPv4 p = true) as H4 by (unfold IsIPv4; by rewrite H2).
    rewrite H4, H6. destruct (map_ipv4 debug mem p) as (b & -> & Hb & Hvb & Hsb); [done..|]. cbn [mbind option_bind].
    subst f. rewrite matches_same; [|done|split; [done|unfold IsValid, IsIPv6; by rewrite Hsb, orb_true_r]|lia|lia].
    rewrite Hvb. by replace (mapped a) with (view a) by (unfold mapped; by rewrite H6).
Qed.

Lemma prefix_match_is_cidr_witness :
  exists a p, IPAddress4 false (replicate 16 7) 10 1 2 3 = Some a /\ IPAddress4 false (replicate 16 9) 10 0 0 0 = Some p /\
  IPAddressMatchesPrefix true (replicate 16 0) a p 8 = Some true.
Proof.
  do 2 eexists. split; [reflexivity|]. split; [reflexivity|].
  rewrite prefix_match_is_cidr; [reflexivity|reflexivity| | | |vm_compute; split; congruence].
  all: repeat split; try done; repeat constructor; done.
Defined.

(** ** The common prefix *)

(** The bits of a byte from the left. *)
Lemma first_bit_spec diff :
  is_byte diff -> diff <> 0 ->
  exists j, first_bit diff 0 8 = Some j /\ 0 <= j < 8 /\
  forall r, 0 <= r <= 8 -> diff / 2 ^ (8 - r) = 0 <-> r <= j.
Proof.
  intros Hd H0.
  assert (forallb (fun diff => match first_bit diff 0 8 with
    | Some j => (0 <=? j) && (j <? 8) &&
        forallb (fun r => Bool.eqb (diff / 2 ^ (8 - r) =? 0) (r <=? j)) (seqZ 0 9)
    | None => false end) (seqZ 1 255) = true) as H by (vm_compute; reflexivity).
  rewrite forallb_forall in H. specialize (H diff).
  destruct (first_bit diff 0 8) as [j|]; [|discriminate H; apply list_elem_of_In, elem_of_seqZ; unfold is_byte in Hd; lia].
  exists j. split; [done|]. rewrite !andb_true_iff, forallb_forall in H.
  destruct H as [[Hj1 Hj2] Hr]; [apply list_elem_of_In, elem_of_seqZ; unfold is_byte in Hd; lia|].
  split; [lia|]. intros r Hrr. specialize (Hr r). rewrite Bool.eqb_true_iff in Hr.
  rewrite <- Z.eqb_eq, Hr; [lia|]. apply list_elem_of_In, elem_of_seqZ. lia.
Qed.

Lemma lxor_div x y s : 0 <= s -> Z.lxor x y / 2 ^ s = 0 <-> x / 2 ^ s = y / 2 ^ s.
Proof. intros. rewrite <- !Z.shiftr_div_pow2, Z.shiftr_lxor, Z.lxor_eq_0_iff by done. done. Qed.
Lemma lxor_two_bytes x y : is_byte x -> is_byte y -> is_byte (Z.lxor x y).
Proof.
  unfold is_byte. intros. split; [apply Z.lxor_nonneg; lia|].
  enough (Z.lxor x y / 2 ^ 8 = 0) by (pose proof (Z.div_mod (Z.lxor x y) (2 ^ 8)); pose proof (Z.mod_pos_bound (Z.lxor x y) (2 ^ 8)); lia).
  apply lxor_div; [lia|]. rewrite !Z.div_small by lia. done.
Qed.

(** [k] is the length of the longest common prefix of two bit strings. *)
Definition longest_prefix (v1 v2 : list Z) (k : Z) : Prop :=
  0 <= k <= 8 * zlen v1 /\ forall m, 0 <= m <= 8 * zlen v1 -> m <= k <-> top m v1 = top m v2.

Lemma longest_prefix_differ c x y r1 r2 j :
  is_byte x -> is_byte y -> bytes_ok r1 -> bytes_ok r2 -> length r1 = length r2 ->
  0 <= j < 8 -> (forall r, 0 <= r <= 8 -> Z.lxor x y / 2 ^ (8 - r) = 0 <-> r <= j) ->
  longest_prefix (c ++ x :: r1) (c ++ y :: r2) (8 * zlen c + j).
Proof.
  intros Hx Hy H1 H2 Hr Hj Hbits.
  assert (forall l, bytes_ok l -> forall z, is_byte z -> bytes_ok (z :: l)) as Hcons by (intros; by constructor).
  assert (forall r, 0 <= r <= 8 -> r <= j <-> top (8 * zlen c + r) (c ++ x :: r1) = top (8 * zlen c + r) (c ++ y :: r2)) as Hbyte.
  { intros r Hr8. rewrite !top_app by (auto || (cbn [length]; lia)). rewrite !top_byte by (done || lia).
    rewrite <- Hbits, lxor_div by lia. lia. }
  split; [rewrite length_app; cbn [length]; lia|]. intros m Hm.
  destruct (Z.le_gt_cases m (8 * zlen c)) as [Hc|Hc].
  { rewrite !top_app_l by (auto || lia). split; [done | lia]. }
  destruct (Z.le_gt_cases m (8 * zlen c + 8)) as [Hc'|Hc'].
  { replace m with (8 * zlen c + (m - 8 * zlen c)) by lia. rewrite <- Hbyte by lia. lia. }
  split; [lia|]. intros E. exfalso. apply (f_equal (fun t => t / 2 ^ (m - (8 * zlen c + 8)))) in E.
  rewrite length_app in Hm. cbn [length] in Hm.
  rewrite <- !top_top in E by (rewrite ?length_app; cbn [length]; lia). apply Hbyte in E; lia.
Qed.

Lemma common_prefix_spec debug a1 a2 i n :
  wf a1 -> wf a2 -> size_ a1 = size_ a2 -> Z.of_nat (i + n) = size_ a1 -> take i (view a1) = take i (view a2) ->
  exists k, common_prefix debug a1 a2 i n = Some k /\ longest_prefix (view a1) (view a2) k.
Proof.
  intros H1 H2 Hs. pose proof (view_length a1 H1) as L1. pose proof (view_length a2 H2) as L2.
  pose proof (view_ok a1 H1) as O1. pose proof (view_ok a2 H2) as O2.
  revert i. induction n as [|n IH]; intros i Hi Ht; cbn [common_prefix].
  { rewrite !take_ge in Ht by lia. exists (size_ a1 * 8). split; [done|]. split; [lia|]. intros m Hm. rewrite Ht. split; [done|lia]. }
  rewrite !at_view by (done || lia).
  destruct (lookup_lt_is_Some_2 (view a1) i) as [x Hx]; [lia|].
  destruct (lookup_lt_is_Some_2 (view a2) i) as [y Hy]; [lia|].
  rewrite Hx, Hy. cbn [mbind option_bind].
  pose proof (Forall_lookup_1 _ _ _ _ O1 Hx) as Bx. pose proof (Forall_lookup_1 _ _ _ _ O2 Hy) as By.
  destruct (Z.eqb_spec (Z.lxor x y) 0) as [E|E].
  { apply Z.lxor_eq in E as ->. apply IH; [lia|].
    by rewrite (take_S_r _ _ _ Hx), (take_S_r _ _ _ Hy), Ht. }
  destruct (first_bit_spec (Z.lxor x y)) as (j & -> & Hj & Hb); [by apply lxor_two_bytes|done|].
  exists (Z.of_nat i * 8 + j). split; [done|].
  rewrite <- (take_drop i (view a1)), <- (take_drop i (view a2)), Ht, (drop_S _ _ _ Hx), (drop_S _ _ _ Hy).
  replace (Z.of_nat i * 8) with (8 * zlen (take i (view a2))) by (rewrite length_take; lia).
  apply longest_prefix_differ; try done; try by apply Forall_drop. rewrite !length_drop. lia.
Qed.

(** [CommonPrefixLength] is the length of the longest common prefix of two
    addresses of one family, and so decides [IPAddressMatchesPrefix]: an address is
    in the block of length [m] around another exactly when their common prefix has
    at least [m] bits. *)
Theorem common_prefix_decides_match debug mem a1 a2 :
  wf_ip a1 -> wf_ip a2 -> size_ a1 = size_ a2 ->
  exists k, CommonPrefixLength debug a1 a2 = Some k /\ 0 <= k <= 8 * size_ a1 /\
  forall m, 0 <= m <= 8 * size_ a1 -> IPAddressMatchesPrefix debug mem a1 a2 m = Some (m <=? k).
Proof.
  intros H1 H2 Hs. destruct (common_prefix_spec debug a1 a2 0 (Z.to_nat (size_ a1))) as (k & Hk & Hr & Hm).
  { apply H1. } { apply H2. } { done. } { destruct H1 as [(_ & _ & H1) _]. lia. } { done. }
  pose proof (view_length a1 (proj1 H1)) as L1. rewrite L1 in Hr, Hm.
  exists k. unfold CommonPrefixLength, DCHECK. rewrite (proj2 (Z.eqb_eq _ _) Hs), andb_false_r. cbn [mbind option_bind].
  split_and!; [done|lia|lia|]. intros m Hmm. unfold IPAddressMatchesPrefix. rewrite matches_same by (done || lia).
  f_equal. pose proof (Hm m Hmm). destruct (Z.leb_spec m k); [apply bool_decide_true; tauto | apply bool_decide_false; lia].
Qed.

Definition example_address (b : list Z) : IPAddress := {| bytes_ := b ++ replicate (16 - length b) 170; size_ := zlen b |}.

Lemma common_prefix_decides_match_witness :
  exists k, CommonPrefixLength true (example_address [10; 1; 2; 3]) (example_address [10; 1; 3; 3]) = Some k /\ k = 23 /\
  IPAddressMatchesPrefix true (replicate 16 0) (example_address [10; 1; 2; 3]) (example_address [10; 1; 3; 3]) 24 = Some false.
Proof.
  destruct (common_prefix_decides_match true (replicate 16 0) (example_address [10; 1; 2; 3]) (example_address [10; 1; 3; 3]))
    as (k & H1 & H2 & H3); [repeat split; try done; repeat constructor; done..|].
  exists k. split; [done|]. assert (k = 23) as -> by (vm_compute in H1; congruence).
  split; [done|]. rewrite H3; [done|]. vm_compute. split; congruence.
Defined.

(** [MaskPrefixLength] compares any mask with sixteen bytes of ones: the sizes of
    an IPv4 mask differ, which stops a checked build. *)
Theorem ipv4_mask_length_fails mem mask :
  IsIPv4 mask = true -> MaskPrefixLength true mem mask = None.
Proof.
  intros H4. unfold MaskPrefixLength. destruct (IPAddress_of mem (replicate 16 255) 16) as [ones|] eqn:E; [|done].
  apply IPAddress_of_inv in E; [|done]. cbn [mbind option_bind]. unfold CommonPrefixLength, DCHECK.
  apply Z.eqb_eq in H4. unfold kIPv4AddressSize in H4. by rewrite H4, E.
Qed.

Lemma ipv4_mask_length_fails_witness :
  MaskPrefixLength true (replicate 16 0) (example_address [255; 255; 255; 0]) = None /\
  MaskPrefixLength false (replicate 16 0) (example_address [255; 255; 255; 0]) = Some 24.
Proof. split; [by apply ipv4_mask_length_fails | reflexivity]. Defined.

(** ** Routability *)

Lemma in_ranges_spec debug a ranges :
  wf a -> Forall (fun '(p, n) => bytes_ok p /\ 0 <= n <= 8 * size_ a /\ n <= 8 * zlen p) ranges ->
  in_ranges debug a ranges = Some (existsb (fun '(p, n) => top n (view a) =? top n p) ranges).
Proof.
  intros Hw. induction 1 as [|[p n] ranges (Hp & Hn & Hl) Hr IH]; [done|].
  cbn [in_ranges existsb]. rewrite prefix_check_top by done. cbn [mbind option_bind].
  case_bool_decide as Hc; [by rewrite Hc, Z.eqb_refl | by rewrite (proj2 (Z.eqb_neq _ _) Hc)].
Qed.

(** The blocks of the table as intervals of 32-bit numbers. *)
Definition reserved_ipv4 (v : Z) : bool :=
  existsb (fun '(lo, hi) => (lo <=? v) && (v <=? hi))
    [(0x00000000, 0x00FFFFFF); (0x0A000000, 0x0AFFFFFF); (0x64400000, 0x647FFFFF); (0x7F000000, 0x7FFFFFFF);
     (0xA9FE0000, 0xA9FEFFFF); (0xAC100000, 0xAC1FFFFF); (0xC0000200, 0xC00002FF); (0xC0586300, 0xC05863FF);
     (0xC0A80000, 0xC0A8FFFF); (0xC6120000, 0xC613FFFF); (0xC6336400, 0xC63364FF); (0xCB007100, 0xCB0071FF);
     (0xE0000000, 0xFFFFFFFF)].

Lemma block_interval v c k : 0 <= k -> (v / 2 ^ k =? c) = (c * 2 ^ k <=? v) && (v <=? c * 2 ^ k + (2 ^ k - 1)).
Proof.
  intros Hk. pose proof (Z.pow_pos_nonneg 2 k ltac:(lia) Hk) as Hp.
  pose proof (Z.div_mod v (2 ^ k) ltac:(lia)). pose proof (Z.mod_pos_bound v (2 ^ k) Hp).
  destruct (Z.eqb_spec (v / 2 ^ k) c); nia.
Qed.

(** An IPv4 address is publicly routable exactly when its number is outside the
    reserved intervals; an IPv6 address that is not IPv4-mapped exactly when it is
    in [2000::/3] or [ff00::/8]. *)
Theorem routable_exact debug mem a :
  wf_ip a -> IsIPv4MappedIPv6 a = false ->
  IsPubliclyRoutable debug mem a =
  Some (if IsIPv4 a then negb (reserved_ipv4 (be (view a)))
        else (top 3 (view a) =? 1) || (top 8 (view a) =? 255)).
Proof.
  intros [Hw Hv] Hm. unfold IsPubliclyRoutable. pose proof (view_length a Hw) as Hl.
  destruct (IsIPv4 a) eqn:H4.
  - apply Z.eqb_eq in H4. unfold kIPv4AddressSize in H4. unfold IsPubliclyRoutableIPv4, DCHECK.
    rewrite H4. cbn [Z.eqb negb]. rewrite andb_false_r. cbn [mbind option_bind].
    rewrite in_ranges_spec; [|done|rewrite H4; unfold kReservedIPv4Ranges;
      repeat (constructor; [repeat split; first [done | lia | repeat constructor; unfold is_byte; lia]|]); constructor].
    cbn [mbind option_bind]. do 2 f_equal. unfold reserved_ipv4, kReservedIPv4Ranges. cbn [existsb].
    unfold top. rewrite Hl, H4. generalize (be (view a)). intros v.
    rewrite !block_interval by (cbn; lia). reflexivity.
  - assert (IsIPv6 a = true) as H6 by (unfold IsValid in Hv; rewrite H4 in Hv; done). rewrite H6.
    apply Z.eqb_eq in H6. unfold kIPv6AddressSize in H6. unfold IsPubliclyRoutableIPv6, DCHECK.
    rewrite H6. cbn [Z.eqb negb Pos.eqb]. rewrite andb_false_r. cbn [mbind option_bind].
    rewrite in_ranges_spec; [|done|rewrite H6; unfold kPublicIPv6Ranges;
      repeat (constructor; [repeat split; first [done | lia | repeat constructor; unfold is_byte; lia]|]); constructor].
    cbn [mbind option_bind]. rewrite Hm. unfold kPublicIPv6Ranges. cbn [existsb].
    change (top 3 [32; 0]) with 1. change (top 8 [255; 0]) with 255. rewrite orb_false_r. by destruct (_ || _).
Qed.

Lemma routable_exact_witness :
  IsPubliclyRoutable true (replicate 16 0) (example_address [172; 31; 0; 1]) = Some false /\
  IsPubliclyRoutable true (replicate 16 0) (example_address [172; 32; 0; 1]) = Some true.
Proof.
  rewrite !routable_exact; [split; reflexivity|..].
  all: try reflexivity; repeat split; try done; repeat constructor; done.
Defined.

(** For an IPv4-mapped address the IPv4 part is taken between iterators into two
    different arrays, so that the answer is undefined in every build. *)
Theorem mapped_routability_undefined debug mem a :
  wf a -> IsIPv4MappedIPv6 a = true -> IsPubliclyRoutable debug mem a = None.
Proof.
  intros Hw Hm. unfold IsPubliclyRoutable. pose proof Hm as Hm'. unfold IsIPv4MappedIPv6 in Hm'.
  apply andb_true_iff in Hm' as [H6 Hst]. rewrite H6.
  assert (IsIPv4 a = false) as -> by (unfold IsIPv4, IsIPv6, kIPv4AddressSize, kIPv6AddressSize in *; lia).
  apply Z.eqb_eq in H6. unfold kIPv6AddressSize in H6. unfold IsPubliclyRoutableIPv6. unfold DCHECK at 1.
  rewrite H6. cbn [Z.eqb negb Pos.eqb]. rewrite andb_false_r. cbn [mbind option_bind].
  rewrite in_ranges_spec; [|done|rewrite H6; unfold kPublicIPv6Ranges;
    repeat (constructor; [repeat split; first [done | lia | repeat constructor; unfold is_byte; lia]|]); constructor].
  cbn [mbind option_bind]. rewrite Hm.
  assert (exists l, bytes_ok l /\ view a = 0 :: l) as (l & Hl & E).
  { unfold IPAddressStartsWith in Hst. destruct (_ <? _); [done|]. apply bool_decide_eq_true in Hst.
    unfold view. rewrite H6. destruct Hw as (Hlen & Hok & _). destruct (bytes_ a) as [|b l]; [done|].
    injection Hst as <- _. apply Forall_cons_iff in Hok as [_ Hok].
    exists (take 15 l). split; [by apply Forall_take | done]. }
  unfold kPublicIPv6Ranges. cbn [existsb]. rewrite E. change (top 3 [32; 0]) with 1. change (top 8 [255; 0]) with 255.
  rewrite (top_byte 3), (top_byte 8) by (done || lia). change (_ || _) with false. cbv iota. unfold ConvertIPv4MappedIPv6ToIPv4, DCHECK. by destruct (debug && _).
Qed.

Lemma mapped_routability_undefined_witness :
  IsPubliclyRoutable false (replicate 16 0) (example_address (kIPv4MappedPrefix ++ [8; 8; 8; 8])) = None.
Proof. apply mapped_routability_undefined; [repeat split; try done; repeat constructor; done | reflexivity]. Defined.

(** ** Text *)

Definition text_size (v6 : bool) : nat := if v6 then 16 else 4.

(** What the C library promises of the two conversions: texts fit their buffers
    and hold no NUL, a colon tells the families apart, parsing inverts printing,
    and only digits, letters, dots and colons are accepted. *)
Class InetLaws (inet_pton : bool -> list Z -> option (list Z)) (inet_ntop : bool -> list Z -> list Z) := {
  ntop_len v6 bs : length bs = text_size v6 -> bytes_ok bs ->
    (length (inet_ntop v6 bs) < if v6 then 46 else 16)%nat;
  ntop_nul v6 bs : length bs = text_size v6 -> bytes_ok bs -> 0 ∉ inet_ntop v6 bs;
  ntop_colon v6 bs : length bs = text_size v6 -> bytes_ok bs -> 58 ∈ inet_ntop v6 bs <-> v6 = true;
  pton_ntop v6 bs : length bs = text_size v6 -> bytes_ok bs -> inet_pton v6 (inet_ntop v6 bs) = Some bs;
  pton_size v6 s bs : inet_pton v6 s = Some bs -> length bs = text_size v6 /\ bytes_ok bs;
  pton_bracket v6 s bs : inet_pton v6 s = Some bs -> 93 ∉ s
}.

Lemma c_str_app s m : 0 ∉ s -> c_str (s ++ 0 :: m) = Some s.
Proof.
  induction s as [|c s IH]; intros H; [done|]. apply not_elem_of_cons in H as [Hc Hs].
  cbn [c_str app]. rewrite (proj2 (Z.eqb_neq c 0)) by done. by rewrite IH.
Qed.
Lemma c_str_total s m : exists t, c_str (s ++ 0 :: m) = Some t.
Proof.
  induction s as [|c s [t IH]]; [by exists []|]. cbn [c_str app]. destruct (c =? 0); [by exists []|].
  rewrite IH. by exists (c :: t).
Qed.
Lemma piece_text_of s : piece_text (piece_of s) = s.
Proof. unfold piece_text, piece_of. cbn [data piece_len]. by rewrite take_app_length. Qed.

(** The string keeps the NULs of its buffer, so that it has the same length for
    every address of a family, and is never empty. *)
Lemma ToString_length inet_ntop a : length (ToString inet_ntop a) = if IsIPv4 a then 15%nat else 45%nat.
Proof.
  unfold ToString. destruct (IsIPv4 a); cbn [negb];
    match goal with |- context [Nat.ltb ?x ?y] => destruct (Nat.ltb_spec x y) end;
    rewrite ?length_app, ?length_replicate; lia.
Qed.

Section Text.
Context (debug : bool) (inet_pton : bool -> list Z -> option (list Z)) (inet_ntop : bool -> list Z -> list Z).
Context `{InetLaws inet_pton inet_ntop}.
Abbreviation assign := (AssignFromIPLiteral debug inet_pton).

(** Assigning never faults on a terminated text: it parses the bytes up to the
    first NUL, and leaves an empty address when they are no address. *)
Lemma assign_literal a p text :
  c_str (data p) = Some text ->
  assign a p =
  let v6 := bool_decide (58 ∈ piece_text p) in
  Some match inet_pton v6 text with
       | Some bs => (true, {| bytes_ := bs ++ zdrop (zlen bs) (bytes_ a); size_ := if v6 then 16 else 4 |})
       | None => (false, {| bytes_ := bytes_ a; size_ := 0 |})
       end.
Proof.
  intros Ht. unfold AssignFromIPLiteral, ParseIPLiteralToBytes, Resize, DCHECK. rewrite Ht.
  case_bool_decide; cbn [Z.leb Z.compare negb]; rewrite andb_false_r; cbn [mbind option_bind].
  all: destruct (inet_pton _ text) as [bs|]; cbn [mbind option_bind Z.leb Z.compare negb]; by rewrite ?andb_false_r.
Qed.

Lemma to_string_text a :
  wf_ip a -> exists k, let v6 := negb (IsIPv4 a) in
  let text := inet_ntop v6 (view a) in
  ToString inet_ntop a = text ++ replicate k 0 /\ length (view a) = text_size v6.
Proof.
  intros [Hw Hv]. pose proof (view_length a Hw) as Hl. pose proof (view_ok a Hw) as Hok.
  assert (size_ a = if negb (IsIPv4 a) then 16 else 4) as Hs.
  { unfold IsValid, IsIPv6, IsIPv4, kIPv4AddressSize, kIPv6AddressSize in *. destruct (Z.eqb_spec (size_ a) 4); simpl in *; lia. }
  unfold ToString. assert (view a = ztake (if negb (IsIPv4 a) then 16 else 4) (bytes_ a)) as <- by (unfold view; by rewrite <- Hs).
  assert (length (view a) = text_size (negb (IsIPv4 a))) as Hsz by (unfold text_size; destruct (negb _); lia).
  pose proof (ntop_len _ _ Hsz Hok) as Hn.
  destruct (negb (IsIPv4 a)); rewrite (proj2 (Nat.ltb_lt _ _) Hn); eexists; by split.
Qed.

(** Printing an address and parsing the text gives the address back, for both
    families, whatever the target held before. *)
Theorem address_text_roundtrip a b :
  wf_ip a -> wf b ->
  exists a', assign b (piece_of (ToString inet_ntop a)) = Some (true, a') /\ wf_ip a' /\
  view a' = view a /\ operator_eq a' a = true.
Proof.
  intros Ha Hb. destruct (to_string_text a Ha) as (k & Et & Hsz). pose proof (view_ok a (proj1 Ha)) as Hok.
  set (v6 := negb (IsIPv4 a)) in *. set (text := inet_ntop v6 (view a)) in *.
  pose proof (ntop_colon _ _ Hsz Hok) as Hcol.
  rewrite (assign_literal _ _ text);
    [|rewrite Et; unfold piece_of; cbn [data]; rewrite <- app_assoc; destruct k; apply c_str_app, ntop_nul; done].
  rewrite piece_text_of, Et.
  replace (bool_decide (58 ∈ text ++ replicate k 0)) with v6.
  2:{ destruct v6; symmetry; [apply bool_decide_true, elem_of_app; left; by apply Hcol|apply bool_decide_false].
      rewrite elem_of_app, elem_of_replicate. intros [H1|[H1 _]]; [by apply Hcol in H1|done]. }
  cbv zeta. subst text. rewrite (pton_ntop _ _ Hsz Hok). eexists. split; [done|].
  destruct Hb as (Hlb & Hbb & _). pose proof (view_length a (proj1 Ha)) as Hva.
  assert (zlen (view a) = if v6 then 16 else 4) as Hz by (unfold text_size in Hsz; destruct v6; lia).
  assert (forall m, view {| bytes_ := view a ++ m; size_ := if v6 then 16 else 4 |} = view a) as Hview
    by (intros; unfold view at 1; cbn [bytes_ size_]; apply ztake_app; lia).
  refine (conj (conj _ _) (conj (Hview _) _)).
  - unfold wf. cbn [bytes_ size_]. split_and!; [|by apply Forall_app_2; [|apply Forall_drop]|destruct v6; lia..].
    unfold zdrop. rewrite length_app, length_drop. clear Hview. destruct v6; lia.
  - unfold IsValid, IsIPv4, IsIPv6. cbn [size_]. by destruct v6.
  - unfold operator_eq, bytes_eq. rewrite Hview. cbn [size_]. rewrite <- Hz, Hva, Z.eqb_refl.
    by apply bool_decide_true.
Qed.

(** A bracketed host name, the only form IPv6 literals have in URLs, is never an
    address: the text handed to [inet_pton] keeps the closing bracket. *)
Theorem bracketed_host_rejected host a :
  0 ∉ host ->
  ParseURLHostnameToAddress debug inet_pton (piece_of (91 :: host ++ [93])) a =
  Some (false, {| bytes_ := bytes_ a; size_ := 0 |}).
Proof.
  intros H0. unfold ParseURLHostnameToAddress. rewrite piece_text_of.
  assert (piece_len (piece_of (91 :: host ++ [93])) = S (S (length host))) as ->
    by (unfold piece_of; cbn [piece_len length]; rewrite length_app; simpl; lia).
  assert ((91 :: host ++ [93]) !! (S (S (length host)) - 1)%nat = Some 93) as ->
    by (rewrite app_comm_cons; by apply list_lookup_middle).
  cbn [lookup list_lookup Nat.leb]. rewrite !bool_decide_true by done. cbn [andb].
  rewrite (assign_literal _ _ (host ++ [93])).
  2:{ change (c_str ((host ++ [93]) ++ 0 :: []) = Some (host ++ [93])). apply c_str_app.
      rewrite elem_of_app, list_elem_of_singleton. by intros [?|?]. }
  cbv zeta. destruct (inet_pton _ (host ++ [93])) as [bs|] eqn:E; [|done].
  apply pton_bracket in E. exfalso. apply E, elem_of_app. right. by apply list_elem_of_singleton.
Qed.

(** A well-formed CIDR literal is never parsed: reading the prefix length to the
    end of the string leaves the stream not [good]. *)
Theorem cidr_literal_rejected lit n a plen :
  47 ∉ lit -> 0 <= n < 2 ^ 32 ->
  exists a', ParseCIDRBlock debug inet_pton (lit ++ 47 :: StrUtils.to_string n) a plen = Some (false, a', plen).
Proof.
  intros H47 Hn. unfold ParseCIDRBlock. change (str "/") with [47]. rewrite StrUtils.Split_split_on.
  cbn [mbind option_bind]. rewrite StrUtils.split_on_app by done.
  rewrite StrUtils.split_on_single.
  2:{ destruct (StrUtils.to_string_digits n) as (c & ds & -> & Hd & _); [lia|]. intros Hin.
      apply list_elem_of_In in Hin. rewrite Forall_forall in Hd. by apply Hd in Hin. }
  destruct (c_str_total lit []) as [t Ht]. rewrite (assign_literal _ _ t) by done. cbv zeta.
  destruct (inet_pton _ t) as [bs|]; cbn [mbind option_bind negb]; [|by eexists].
  unfold StrUtils.ParseTo. rewrite StrUtils.extract_to_string by done. cbn [negb andb StrUtils.ex_eof StrUtils.ex_fail].
  by eexists.
Qed.

End Text.

(** *** An instance of the conversions

    Dotted decimals, and the eight groups of hexadecimal digits written out in
    full. *)
Definition canonical4 (p : list Z) : bool :=
  let v := StrUtils.dec_value p in (0 <=? v) && (v <? 256) && bool_decide (p = StrUtils.to_string v).
Definition hex (d : Z) : Z := if d <? 10 then 48 + d else 87 + d.
Definition unhex (c : Z) : option Z :=
  if (48 <=? c) && (c <=? 57) then Some (c - 48)
  else if (97 <=? c) && (c <=? 102) then Some (c - 87) else None.
Definition hex_byte (b : Z) : list Z := [hex (b / 16); hex (b mod 16)].
Fixpoint groups (bs : list Z) : list (list Z) :=
  match bs with
  | a :: b :: bs' => (hex_byte a ++ hex_byte b) :: groups bs'
  | _ => []
  end.
Definition ungroup (g : list Z) : option (list Z) :=
  match g with
  | [a; b; c; d] => a ← unhex a; b ← unhex b; c ← unhex c; d ← unhex d; Some [16 * a + b; 16 * c + d]
  | _ => None
  end.
Fixpoint ungroups (gs : list (list Z)) : option (list Z) :=
  match gs with
  | [] => Some []
  | g :: gs' => bs ← ungroup g; rest ← ungroups gs'; Some (bs ++ rest)
  end.
Definition example_ntop (v6 : bool) (bs : list Z) : list Z :=
  if v6 then StrUtils.Join (groups bs) [58] else StrUtils.Join (map StrUtils.to_string bs) [46].
Definition example_pton (v6 : bool) (s : list Z) : option (list Z) :=
  if v6 then if Nat.eqb (length (StrUtils.split_on 58 s)) 8 then ungroups (StrUtils.split_on 58 s) else None
  else let ps := StrUtils.split_on 46 s in
       if Nat.eqb (length ps) 4 && forallb canonical4 ps then Some (map StrUtils.dec_value ps) else None.

Lemma to_string_byte b : is_byte b ->
  (length (StrUtils.to_string b) <= 3)%nat /\ StrUtils.dec_value (StrUtils.to_string b) = b /\
  Forall (fun c => StrUtils.isdigit c = true) (StrUtils.to_string b).
Proof.
  intros Hb. destruct (StrUtils.to_string_digits b) as (c & ds & E & Hd & Hv); [apply Hb|].
  split; [|by rewrite E].
  assert (forallb (fun b => Nat.leb (length (StrUtils.to_string b)) 3) (seqZ 0 256) = true) as H by (vm_compute; reflexivity).
  rewrite forallb_forall in H. apply Nat.leb_le, H, list_elem_of_In, elem_of_seqZ. unfold is_byte in Hb. lia.
Qed.
Lemma unhex_hex d : 0 <= d < 16 -> unhex (hex d) = Some d.
Proof. intros. unfold unhex, hex. destruct (Z.ltb_spec d 10); [rewrite (proj2 (Z.leb_le _ _)), (proj2 (Z.leb_le _ _)) by lia; simpl; f_equal; lia|].
  rewrite (proj2 (Z.leb_gt _ 57)) by lia. rewrite andb_false_r, !(proj2 (Z.leb_le _ _)) by lia. simpl. f_equal. lia. Qed.
Lemma unhex_range c d : unhex c = Some d -> 0 <= d < 16 /\ (48 <= c <= 57 \/ 97 <= c <= 102).
Proof. unfold unhex. destruct (Z.leb_spec 48 c), (Z.leb_spec c 57), (Z.leb_spec 97 c), (Z.leb_spec c 102); simpl; intros [=]; lia. Qed.

Lemma hex_range d : 0 <= d < 16 -> 48 <= hex d <= 57 \/ 97 <= hex d <= 102.
Proof. intros. unfold hex. destruct (Z.ltb_spec d 10); lia. Qed.
Lemma nibbles b : is_byte b -> 0 <= b / 16 < 16 /\ 0 <= b mod 16 < 16 /\ 16 * (b / 16) + b mod 16 = b.
Proof. unfold is_byte. intros. pose proof (Z.div_mod b 16). pose proof (Z.mod_pos_bound b 16). lia. Qed.

Lemma groups_spec n bs : length bs = (2 * n)%nat -> bytes_ok bs ->
  length (groups bs) = n /\ ungroups (groups bs) = Some bs /\
  Forall (fun g => length g = 4%nat /\ Forall (fun c => 48 <= c <= 57 \/ 97 <= c <= 102) g) (groups bs).
Proof.
  revert bs. induction n as [|n IH]; intros [|a [|b bs]] Hl Hb; try (simpl in Hl; lia); [by repeat split|].
  apply Forall_cons_iff in Hb as [Ha Hb]. apply Forall_cons_iff in Hb as [Hb Hbs].
  destruct (IH bs) as (H1 & H2 & H3); [simpl in Hl; lia|done|].
  pose proof (nibbles a Ha) as (Ha1 & Ha2 & Ea). pose proof (nibbles b Hb) as (Hb1 & Hb2 & Eb).
  cbn [groups length ungroups]. split_and!.
  - by rewrite H1.
  - unfold ungroup, hex_byte. cbn [app]. rewrite !unhex_hex by done. cbn [mbind option_bind].
    rewrite H2. cbn [mbind option_bind app]. by rewrite Ea, Eb.
  - constructor; [|done]. split; [done|]. unfold hex_byte. cbn [app]. repeat (constructor; [by apply hex_range|]). constructor.
Qed.

Lemma ungroups_inv gs bs : ungroups gs = Some bs ->
  length bs = (2 * length gs)%nat /\ bytes_ok bs /\ Forall (fun g => 93 ∉ g) gs.
Proof.
  revert bs. induction gs as [|g gs IH]; intros bs Hbs; [by injection Hbs as <-|].
  cbn [ungroups] in Hbs. destruct (ungroup g) as [b2|] eqn:E; [|done]. cbn [mbind option_bind] in Hbs.
  destruct (ungroups gs) as [rest|]; [|done]. injection Hbs as <-. destruct (IH rest eq_refl) as (H1 & H2 & H3).
  destruct g as [|a [|b [|c [|d [|]]]]]; try done. unfold ungroup in E.
  destruct (unhex a) as [a'|] eqn:Ea; [|done]. destruct (unhex b) as [b'|] eqn:Eb; [|done].
  destruct (unhex c) as [c'|] eqn:Ec; [|done]. destruct (unhex d) as [d'|] eqn:Ed; [|done]. injection E as <-.
  apply unhex_range in Ea, Eb, Ec, Ed. split_and!.
  - cbn [app length]. lia.
  - cbn [app]. constructor; [unfold is_byte; lia|]. constructor; [unfold is_byte; lia|]. done.
  - constructor; [|done]. rewrite !elem_of_cons, elem_of_nil. lia.
Qed.

Lemma join_elem x d v : x ∈ StrUtils.Join v [d] -> x = d \/ exists t, t ∈ v /\ x ∈ t.
Proof.
  induction v as [|t v IH]; [by intros ?%elem_of_nil|]. destruct v as [|t' v].
  { intros Hx. right. exists t. split; [apply list_elem_of_here|done]. }
  change (StrUtils.Join (t :: t' :: v) [d]) with (t ++ d :: StrUtils.Join (t' :: v) [d]).
  rewrite elem_of_app, elem_of_cons. intros [Hx|[->|Hx]]; [right; exists t; split; [apply list_elem_of_here|done]|by left|].
  destruct (IH Hx) as [->|(u & Hu & Hxu)]; [by left|right; exists u; split; [by apply list_elem_of_further|done]].
Qed.
Lemma join_length d k v :
  v <> [] -> Forall (fun t => (length t <= k)%nat) v -> (length (StrUtils.Join v [d]) < length v * S k)%nat.
Proof.
  intros Hne Hv. induction Hv as [|t v Ht Hv IH]; [done|]. destruct v as [|t' v]; [simpl; lia|].
  change (StrUtils.Join (t :: t' :: v) [d]) with (t ++ d :: StrUtils.Join (t' :: v) [d]).
  rewrite length_app. cbn [length] in *. specialize (IH ltac:(done)). lia.
Qed.
Lemma join_has d t t' v : d ∈ StrUtils.Join (t :: t' :: v) [d].
Proof.
  change (StrUtils.Join (t :: t' :: v) [d]) with (t ++ d :: StrUtils.Join (t' :: v) [d]).
  apply elem_of_app. right. apply list_elem_of_here.
Qed.

(** The characters of a printed address. *)
Lemma ntop_tokens v6 bs : length bs = text_size v6 -> bytes_ok bs ->
  exists v d, example_ntop v6 bs = StrUtils.Join v [d] /\ StrUtils.split_on d (example_ntop v6 bs) = v /\
  d = (if v6 then 58 else 46) /\ length v = (if v6 then 8%nat else 4%nat) /\
  Forall (fun t => (length t <= if v6 then 4 else 3)%nat) v /\
  forall x, x ∈ example_ntop v6 bs -> x = d \/ 48 <= x <= 57 \/ 97 <= x <= 102.
Proof.
  intros Hl Hb.
  assert (exists v d, example_ntop v6 bs = StrUtils.Join v [d] /\ d = (if v6 then 58 else 46) /\
    length v = (if v6 then 8%nat else 4%nat) /\
    Forall (fun t => (length t <= if v6 then 4 else 3)%nat /\ Forall (fun x => 48 <= x <= 57 \/ 97 <= x <= 102) t) v)
    as (v & d & E & Hd & Hlv & Hv).
  { destruct v6.
    - destruct (groups_spec 8 bs Hl Hb) as (H1 & _ & H3). exists (groups bs), 58. split_and!; [done..|].
      revert H3. apply Forall_impl. intros g [Hg1 Hg2]. split; [lia|done].
    - exists (map StrUtils.to_string bs), 46. split_and!; [done|done|by rewrite length_map|].
      apply Forall_fmap. revert Hb. apply Forall_impl. intros b Hb. destruct (to_string_byte b Hb) as (H1 & _ & H3).
      split; [done|]. revert H3. apply Forall_impl. intros c Hc. unfold StrUtils.isdigit in Hc. lia. }
  exists v, d. rewrite E. rewrite Forall_forall in Hv. split_and!; try done.
  - apply StrUtils.split_on_join; [destruct v6, v; done|]. rewrite Forall_forall. intros t Ht Hdt.
    destruct (Hv t Ht) as [_ Hc]. rewrite Forall_forall in Hc. apply list_elem_of_In, Hc in Hdt. destruct v6; lia.
  - rewrite Forall_forall. intros t Ht. by apply Hv.
  - intros x Hx. destruct (join_elem _ _ _ Hx) as [->|(t & Ht & Hxt)]; [by left|right].
    apply list_elem_of_In in Ht, Hxt. destruct (Hv t Ht) as [_ Hc]. rewrite Forall_forall in Hc. by apply Hc.
Qed.

Lemma example_roundtrip v6 bs :
  length bs = text_size v6 -> bytes_ok bs -> example_pton v6 (example_ntop v6 bs) = Some bs.
Proof.
  intros Hl Hb. destruct (ntop_tokens v6 bs Hl Hb) as (v & d & E & Hs & -> & Hlv & _).
  unfold example_pton. destruct v6; rewrite Hs, Hlv; cbn [Nat.eqb andb].
  - rewrite <- Hs, E. destruct (groups_spec 8 bs Hl Hb) as (H1 & H2 & H3). unfold example_ntop in Hs. rewrite <- E.
    unfold example_ntop. rewrite StrUtils.split_on_join; [done|by destruct (groups bs)|].
    revert H3. apply Forall_impl. intros g [_ Hg] Hin. rewrite Forall_forall in Hg.
    apply list_elem_of_In, Hg in Hin. lia.
  - assert (v = map StrUtils.to_string bs) as ->.
    { rewrite <- Hs. unfold example_ntop. apply StrUtils.split_on_join; [by destruct bs|].
      apply Forall_fmap. revert Hb. apply Forall_impl. intros b Hb Hin. destruct (to_string_byte b Hb) as (_ & _ & H3).
      rewrite Forall_forall in H3. apply list_elem_of_In, H3 in Hin. done. }
    assert (forall b, is_byte b -> canonical4 (StrUtils.to_string b) = true /\ StrUtils.dec_value (StrUtils.to_string b) = b) as Hc.
    { intros b Hbb. destruct (to_string_byte b Hbb) as (_ & Hv & _). split; [|done]. unfold canonical4. rewrite Hv.
      unfold is_byte in Hbb. rewrite bool_decide_true by done. lia. }
    clear - Hb Hc. induction Hb as [|b bs Hb Hbs IH]; [done|]. cbn [map forallb].
    rewrite (proj1 (Hc b Hb)), (proj2 (Hc b Hb)). cbn [andb]. destruct (forallb _ _); [by injection IH as ->|done].
Qed.

Lemma example_size v6 s bs : example_pton v6 s = Some bs -> length bs = text_size v6 /\ bytes_ok bs.
Proof.
  intros Hp. unfold example_pton in Hp. destruct v6.
  - destruct (Nat.eqb_spec (length (StrUtils.split_on 58 s)) 8) as [H8|]; [|done].
    apply ungroups_inv in Hp as (H1 & H2 & _). split; [unfold text_size; lia|done].
  - destruct (_ && _) eqn:E; [|done]. injection Hp as <-. apply andb_true_iff in E as [E1 E2]. apply Nat.eqb_eq in E1.
    split; [by rewrite length_map|]. rewrite forallb_forall in E2. rewrite Forall_forall. intros x Hx.
    apply in_map_iff in Hx as (p & <- & Hp). apply E2 in Hp. unfold canonical4 in Hp. unfold is_byte. lia.
Qed.

Lemma example_bracket v6 s bs : example_pton v6 s = Some bs -> 93 ∉ s.
Proof.
  intros Hp. unfold example_pton in Hp. destruct v6.
  - destruct (Nat.eqb _ _); [|done]. apply ungroups_inv in Hp as (_ & _ & Hg).
    rewrite <- (StrUtils.join_split_on 58 s). intros [H1|(t & Ht & Hx)]%join_elem; [done|].
    rewrite Forall_forall in Hg. by apply list_elem_of_In, Hg in Ht.
  - destruct (_ && _) eqn:E; [|done]. apply andb_true_iff in E as [_ E2]. rewrite forallb_forall in E2.
    rewrite <- (StrUtils.join_split_on 46 s). intros [H1|(t & Ht & Hx)]%join_elem; [done|].
    apply list_elem_of_In, E2 in Ht. unfold canonical4 in Ht. rewrite !andb_true_iff in Ht. destruct Ht as [[H1 _] H3].
    apply bool_decide_eq_true in H3. rewrite H3 in Hx. destruct (StrUtils.to_string_digits (StrUtils.dec_value t)) as (c & ds & E & Hd & _); [lia|].
    rewrite E in Hx. rewrite Forall_forall in Hd. apply list_elem_of_In, Hd in Hx. done.
Qed.

#[export] Instance example_inet : InetLaws example_pton example_ntop.
Proof.
  split.
  - intros v6 bs Hl Hb. destruct (ntop_tokens v6 bs Hl Hb) as (v & d & -> & _ & _ & Hlv & Hv & _).
    pose proof (join_length d _ v ltac:(destruct v6, v; done) Hv). destruct v6; lia.
  - intros v6 bs Hl Hb. destruct (ntop_tokens v6 bs Hl Hb) as (v & d & _ & _ & Hd & _ & _ & Hx).
    intros H0%Hx. destruct v6; lia.
  - intros v6 bs Hl Hb. destruct (ntop_tokens v6 bs Hl Hb) as (v & d & E & _ & Hd & Hlv & _ & Hx).
    destruct v6; [|split; [intros H0%Hx; lia|done]].
    split; [done|intros _]. rewrite E, Hd. destruct v as [|t [|t' v]]; try done. apply join_has.
  - apply example_roundtrip.
  - apply example_size.
  - apply example_bracket.
Qed.

Lemma address_text_roundtrip_witness :
  exists a', AssignFromIPLiteral true example_pton (example_address []) (piece_of (ToString example_ntop (example_address [127; 0; 0; 1])))
             = Some (true, a') /\ view a' = [127; 0; 0; 1].
Proof.
  destruct (address_text_roundtrip true example_pton example_ntop (example_address [127; 0; 0; 1]) (example_address []))
    as (a' & H1 & _ & H2 & _); [repeat split; try done; repeat constructor; done..|].
  exists a'. split; [exact H1 | exact H2].
Defined.

Lemma bracketed_host_rejected_witness :
  ParseURLHostnameToAddress false example_pton (piece_of (str "[0000:0000:0000:0000:0000:0000:0000:0001]")) (example_address [])
  = Some (false, example_address []) /\
  AssignFromIPLiteral false example_pton (example_address []) (piece_of (str "0000:0000:0000:0000:0000:0000:0000:0001"))
  = Some (true, example_address (replicate 15 0 ++ [1])).
Proof.
  split; [|reflexivity].
  apply (bracketed_host_rejected false example_pton example_ntop (str "0000:0000:0000:0000:0000:0000:0000:0001")).
  by apply (bool_decide_unpack _).
Defined.

Lemma cidr_literal_rejected_witness :
  exists a', ParseCIDRBlock false example_pton (str "10.10.3.1/20") (example_address []) 0 = Some (false, a', 0).
Proof. apply (cidr_literal_rejected false example_pton (str "10.10.3.1") 20); [by apply (bool_decide_unpack _) | lia]. Defined.

End IPAddress.
