(* ===== verification/Endpoint.v ===== *)
(** * End points and socket addresses (net_io/base/ip_endpoint, address_family,
    sockaddr_storage; the address functions of net_io/socket_utils)

    A [sockaddr] is the bytes of its object.  [None] is a failed check or an
    access outside an object. *)
From S2P Require Import Prelude ByteOrder StdMap StrUtils IPAddress.
Import StdMap ByteOrder IPAddress.

Module Endpoint.

Inductive AddressFamily := ADDRESS_FAMILY_UNSPECIFIED | ADDRESS_FAMILY_IPV4 | ADDRESS_FAMILY_IPV6.
Definition AF_UNSPEC : Z := 0.
Definition AF_INET : Z := 2.
Definition AF_INET6 : Z := 10.
Definition GetAddressFamily (a : IPAddress) : AddressFamily :=
  if IsIPv4 a then ADDRESS_FAMILY_IPV4
  else if IsIPv6 a then ADDRESS_FAMILY_IPV6
  else ADDRESS_FAMILY_UNSPECIFIED.
Definition ConvertAddressFamily (f : AddressFamily) : Z :=
  match f with
  | ADDRESS_FAMILY_IPV4 => AF_INET
  | ADDRESS_FAMILY_IPV6 => AF_INET6
  | ADDRESS_FAMILY_UNSPECIFIED => AF_UNSPEC
  end.

Record IPEndPoint := { address_ : IPAddress; port_ : Z }.
Definition GetFamily (ep : IPEndPoint) : AddressFamily := GetAddressFamily (address_ ep).
Definition GetSockAddrFamily (ep : IPEndPoint) : Z :=
  if size_ (address_ ep) =? kIPv4AddressSize then AF_INET
  else if size_ (address_ ep) =? kIPv6AddressSize then AF_INET6
  else AF_UNSPEC.

(** [htobe16], [be16toh]. *)
Definition htobe16 (x : Z) : Z := ByteSwap16 x.
Definition be16toh (x : Z) : Z := ByteSwap16 x.

(** [sizeof] of [sockaddr], [sockaddr_in], [sockaddr_in6] and [sockaddr_storage]. *)
Definition kSockaddrSize : Z := 16.
Definition kSockaddrInSize : Z := 16.
Definition kSockaddrIn6Size : Z := 28.
Definition kStorageSize : Z := 128.

(** The objects: family, port, address, padding; family, port, flow label,
    address, scope. *)
Definition sockaddr_in (family port : Z) (addr : list Z) : list Z :=
  le_bytes 2 family ++ le_bytes 2 port ++ addr ++ replicate 8 0.
Definition sockaddr_in6 (family port : Z) (addr : list Z) : list Z :=
  le_bytes 2 family ++ le_bytes 2 port ++ replicate 4 0 ++ addr ++ replicate 4 0.
Definition sa_family (sa : list Z) : Z := le_value (slice 0 2 sa).
Definition sin_port (sa : list Z) : Z := le_value (slice 2 4 sa).
Definition sin_addr (sa : list Z) : list Z := slice 4 8 sa.
Definition sin6_addr (sa : list Z) : list Z := slice 8 24 sa.

Section Endpoint.
Context (debug : bool) (mem : list Z).

Definition IPEndPoint_new : IPEndPoint := {| address_ := IPAddress_new mem; port_ := 0 |}.

Definition IPEndPoint_of (address : IPAddress) (p : Z) : IPEndPoint := {| address_ := address; port_ := p |}.
(** [IPEndPoint(ip, port)]: the address stays empty when the text is none. *)
Definition IPEndPoint_parse (inet_pton : bool -> list Z -> option (list Z)) (ip : StringPiece) (p : Z) : option IPEndPoint :=
  '(_, a) ← AssignFromIPLiteral debug inet_pton (IPAddress_new mem) ip;
  Some {| address_ := a; port_ := p |}.
Definition endpoint_ToString (inet_ntop : bool -> list Z -> list Z) (ep : IPEndPoint) : option (list Z) :=
  IPAddressToStringWithPort inet_ntop (address_ ep) (port_ ep).
Definition ToStringWithoutPort (inet_ntop : bool -> list Z -> list Z) (ep : IPEndPoint) : list Z :=
  ToString inet_ntop (address_ ep).

(** Writes an object over the front of the memory at a pointer. *)
Definition store (obj m : list Z) : option (list Z) :=
  if zlen m <? zlen obj then None else Some (obj ++ zdrop (zlen obj) m).

(** [ToSockAddr(address, address_length)]: the result and the memory. *)
Definition ToSockAddr (ep : IPEndPoint) (address : list Z) (address_length : Z) : option (Z * list Z) :=
  _ ← DCHECK debug (negb (address_length =? 0));
  let a := address_ ep in
  if size_ a =? kIPv4AddressSize then
    if address_length <? kSockaddrInSize then Some (0, address) else
    m ← store (sockaddr_in AF_INET (htobe16 (port_ ep)) (ztake 4 (bytes_ a))) address;
    Some (kSockaddrInSize, m)
  else if size_ a =? kIPv6AddressSize then
    if address_length <? kSockaddrIn6Size then Some (0, address) else
    m ← store (sockaddr_in6 AF_INET6 (htobe16 (port_ ep)) (ztake 16 (bytes_ a))) address;
    Some (kSockaddrIn6Size, m)
  else Some (0, address).

(** The address bytes and the port of a [sockaddr]; the inner [None] is the
    function's [false], the outer one a read past the object. *)
Definition GetIPAddressFromSockAddr (sock_addr : list Z) (sock_addr_len : Z) : option (option (list Z * Z * Z)) :=
  if zlen sock_addr <? 2 then None else
  if sa_family sock_addr =? AF_INET then
    if sock_addr_len <? kSockaddrInSize then Some None else
    if zlen sock_addr <? 8 then None else
    Some (Some (sin_addr sock_addr, kIPv4AddressSize, be16toh (sin_port sock_addr)))
  else if sa_family sock_addr =? AF_INET6 then
    if sock_addr_len <? kSockaddrIn6Size then Some None else
    if zlen sock_addr <? 24 then None else
    Some (Some (sin6_addr sock_addr, kIPv6AddressSize, be16toh (sin_port sock_addr)))
  else Some None.
Definition FromSockAddr (ep : IPEndPoint) (sock_addr : list Z) (sock_addr_len : Z) : option (bool * IPEndPoint) :=
  r ← GetIPAddressFromSockAddr sock_addr sock_addr_len;
  match r with
  | None => Some (false, ep)
  | Some (address, address_len, port) =>
      a ← IPAddress_of mem address address_len;
      Some (true, {| address_ := a; port_ := port |})
  end.

Definition endpoint_eq (a b : IPEndPoint) : bool := operator_eq (address_ a) (address_ b) && (port_ a =? port_ b).
(** [std::tie] compares the addresses first, then the ports. *)
Definition endpoint_lt (a b : IPEndPoint) : bool :=
  if negb (size_ (address_ a) =? size_ (address_ b)) then size_ (address_ a) <? size_ (address_ b)
  else if operator_lt (address_ a) (address_ b) then true
  else if operator_lt (address_ b) (address_ a) then false
  else port_ a <? port_ b.

(** ** [SockaddrStorage] *)

Record SockaddrStorage := { addr_len : Z; addr_storage : list Z }.
(** [junk]: the uninitialised storage. *)
Definition SockaddrStorage_new (junk : list Z) : SockaddrStorage :=
  {| addr_len := kStorageSize; addr_storage := junk |}.
Definition SockaddrStorage_assign (this other : SockaddrStorage) : option SockaddrStorage :=
  if zlen (addr_storage other) <? addr_len other then None else
  m ← store (ztake (addr_len other) (addr_storage other)) (addr_storage this);
  Some {| addr_len := addr_len other; addr_storage := m |}.

(** ** The address functions of [socketutils] *)

(** [getpeername], [getsockname]: [None] for an error, else the kernel's address;
    as much of it as [addrlen] allows is copied, and [addrlen] becomes its full
    length. *)
Definition get_name (name : option (list Z)) (m : list Z) : option (list Z * Z) :=
  n ← name;
  Some (ztake (zlen m) n ++ zdrop (zlen n) m, zlen n).
(** [GetPeerEndpoint], [GetLocalEndpoint]: the call into a [struct sockaddr]. *)
Definition GetEndpoint (name : option (list Z)) (ep : IPEndPoint) : option (bool * IPEndPoint) :=
  match get_name name (replicate (Z.to_nat kSockaddrSize) 0) with
  | None => Some (false, ep)
  | Some (peeraddr, addrlen) => FromSockAddr ep peeraddr addrlen
  end.
(** [GetLocalAddrIn], [GetPeerAddrIn]. *)
Definition GetAddrIn (name : option (list Z)) : list Z :=
  match get_name name (replicate (Z.to_nat kSockaddrSize) 0) with
  | None => replicate (Z.to_nat kSockaddrSize) 0
  | Some (addr, _) => addr
  end.
Definition SockAddrFamily (addr : list Z) : Z := if sa_family addr =? AF_INET then AF_INET else AF_INET6.

Definition IsSelfConnect (junk : list Z) (local peer : option (list Z)) : option bool :=
  '(ok, local_ep) ← GetEndpoint local IPEndPoint_new;
  if negb ok then Some false else
  '(ok, peer_ep) ← GetEndpoint peer IPEndPoint_new;
  if negb ok then Some false else
  '(n, peer_storage) ← ToSockAddr peer_ep (addr_storage (SockaddrStorage_new junk)) (addr_len (SockaddrStorage_new junk));
  if n =? 0 then Some false else
  '(n, local_storage) ← ToSockAddr local_ep (addr_storage (SockaddrStorage_new junk)) (addr_len (SockaddrStorage_new junk));
  if n =? 0 then Some false else
  if GetSockAddrFamily local_ep =? AF_INET then
    Some ((sin_port local_storage =? sin_port peer_storage) &&
          bool_decide (sin_addr local_storage = sin_addr peer_storage))
  else if GetSockAddrFamily local_ep =? AF_INET6 then
    Some ((sin_port local_storage =? sin_port peer_storage) &&
          bool_decide (sin6_addr local_storage = sin6_addr peer_storage))
  else Some false.

End Endpoint.

(** ** Socket addresses *)

(** The object a valid end point is stored as. *)
Definition sockaddr_of (ep : IPEndPoint) : list Z :=
  if IsIPv4 (address_ ep) then sockaddr_in AF_INET (htobe16 (port_ ep)) (view (address_ ep))
  else sockaddr_in6 AF_INET6 (htobe16 (port_ ep)) (view (address_ ep)).
Definition wf_ep (ep : IPEndPoint) : Prop := wf_ip (address_ ep) /\ 0 <= port_ ep < 2 ^ 16.

Lemma wf_ip_size a : wf_ip a -> size_ a = if IsIPv4 a then 4 else 16.
Proof.
  intros [_ Hv]. unfold IsValid, IsIPv4, IsIPv6, kIPv4AddressSize, kIPv6AddressSize in *.
  destruct (Z.eqb_spec (size_ a) 4); simpl in Hv; lia.
Qed.
Lemma wf_ep_length ep : wf_ep ep -> zlen (view (address_ ep)) = if IsIPv4 (address_ ep) then 4 else 16.
Proof. intros [H _]. rewrite view_length by apply H. by apply wf_ip_size. Qed.
Lemma sockaddr_of_length ep :
  wf_ep ep -> zlen (sockaddr_of ep) = if IsIPv4 (address_ ep) then kSockaddrInSize else kSockaddrIn6Size.
Proof.
  intros H. pose proof (wf_ep_length ep H) as Hl. unfold sockaddr_of, sockaddr_in, sockaddr_in6.
  destruct (IsIPv4 _); rewrite !length_app, !le_bytes_length, !length_replicate;
    unfold kSockaddrInSize, kSockaddrIn6Size; lia.
Qed.

Lemma to_sock_addr debug ep m len :
  wf_ep ep -> zlen (sockaddr_of ep) <= len -> len <= zlen m ->
  ToSockAddr debug ep m len = Some (zlen (sockaddr_of ep), sockaddr_of ep ++ zdrop (zlen (sockaddr_of ep)) m).
Proof.
  intros Hw H1 H2. pose proof (sockaddr_of_length ep Hw) as Hl. pose proof (wf_ip_size _ (proj1 Hw)) as Hs.
  unfold ToSockAddr, DCHECK. rewrite Hl in *. unfold sockaddr_of in *. unfold view in *. rewrite Hs in *.
  unfold kSockaddrInSize, kSockaddrIn6Size, kIPv4AddressSize, kIPv6AddressSize in *.
  destruct (IsIPv4 _); rewrite (proj2 (Z.eqb_neq len 0)) by lia; cbn [negb]; rewrite andb_false_r; cbn [mbind option_bind Z.eqb Pos.eqb];
    rewrite (proj2 (Z.ltb_ge _ _)) by lia; unfold store; rewrite Hl, (proj2 (Z.ltb_ge _ _)) by lia; done.
Qed.

(** The fields of a stored end point, read back. *)
Lemma sockaddr_fields ep rest :
  wf_ep ep ->
  sa_family (sockaddr_of ep ++ rest) = (if IsIPv4 (address_ ep) then AF_INET else AF_INET6) /\
  slice 2 4 (sockaddr_of ep ++ rest) = [port_ ep / 256; port_ ep mod 256] /\
  be16toh (sin_port (sockaddr_of ep ++ rest)) = port_ ep /\
  (if IsIPv4 (address_ ep) then sin_addr else sin6_addr) (sockaddr_of ep ++ rest) = view (address_ ep).
Proof.
  intros Hw. pose proof (wf_ep_length ep Hw) as Hl. destruct Hw as [Ha Hp].
  assert (le_bytes 2 (htobe16 (port_ ep)) = [port_ ep / 256; port_ ep mod 256]) as Hport.
  { unfold htobe16, ByteSwap16. rewrite bswap_bytes. simpl. f_equal. apply Z.mod_small.
    split; [apply Z.div_pos; lia | apply Z.div_lt_upper_bound; lia]. }
  assert (be16toh (le_value (le_bytes 2 (htobe16 (port_ ep)))) = port_ ep) as Hback.
  { unfold be16toh, htobe16, ByteSwap16. rewrite le_value_bytes; [by apply bswap_invol; simpl; lia|].
    unfold bswap. pose proof (le_value_range (rev (le_bytes 2 (port_ ep)))) as H. rewrite length_rev, le_bytes_length in H.
    apply H, Forall_rev, le_bytes_ok. }
  unfold sa_family, sin_port, sin_addr, sin6_addr, sockaddr_of, sockaddr_in, sockaddr_in6.
  destruct (IsIPv4 (address_ ep)); rewrite Hport in *; rewrite <- !app_assoc; split_and!; try reflexivity; try exact Hback.
  - unfold slice, zdrop. cbn [Z.to_nat Pos.to_nat Pos.iter_op le_bytes app drop Nat.add]. apply ztake_app. lia.
  - unfold slice, zdrop. cbn [Z.to_nat Pos.to_nat Pos.iter_op le_bytes app drop Nat.add replicate]. apply ztake_app. lia.
Qed.

Lemma from_sock_addr mem ep ep0 rest len :
  length mem = 16%nat -> bytes_ok mem -> wf_ep ep -> zlen (sockaddr_of ep) <= len ->
  exists ep', FromSockAddr mem ep0 (sockaddr_of ep ++ rest) len = Some (true, ep') /\
  wf_ep ep' /\ view (address_ ep') = view (address_ ep) /\ port_ ep' = port_ ep.
Proof.
  intros Hm Hmem Hw Hlen. destruct (sockaddr_fields ep rest Hw) as (Hf & _ & Hp & Hv).
  pose proof (sockaddr_of_length ep Hw) as Hl. pose proof (wf_ep_length ep Hw) as Hvl.
  destruct (IPAddress_of_spec mem (view (address_ ep))) as (a & Ha & Hwa & Hva & Hsa);
    [done|done|apply view_ok, Hw|destruct (IsIPv4 _); lia|].
  exists {| address_ := a; port_ := port_ ep |}. split.
  - unfold FromSockAddr, GetIPAddressFromSockAddr. rewrite Hf, length_app.
    unfold kSockaddrInSize, kSockaddrIn6Size, kIPv4AddressSize, kIPv6AddressSize, AF_INET, AF_INET6 in *.
    rewrite Hl in Hlen. destruct (IsIPv4 _); cbn [Z.eqb Pos.eqb];
      rewrite !(proj2 (Z.ltb_ge _ _)) by lia; cbn [mbind option_bind]; by rewrite Hv, Hp, <- Hvl, Ha.
  - split; [|done]. split; [|apply Hw]. split; [done|]. cbn [address_].
    unfold IsValid, IsIPv4 at 1, IsIPv6. rewrite Hsa, Hvl. by destruct (IsIPv4 _).
Qed.

Lemma same_view_eq a b : wf a -> wf b -> view a = view b -> operator_eq a b = true.
Proof.
  intros Ha Hb E. unfold operator_eq, bytes_eq. pose proof (view_length a Ha). pose proof (view_length b Hb).
  rewrite E in *. assert (size_ a = size_ b) as Hs by lia. rewrite Hs, Z.eqb_refl. by apply bool_decide_true.
Qed.

(** A valid end point survives the trip through a socket address.  Into enough
    memory [ToSockAddr] stores the object of its family, with the port in network
    order, and leaves the rest; [FromSockAddr] reads an equal end point back. *)
Theorem endpoint_roundtrip debug mem ep ep0 m len :
  length mem = 16%nat -> bytes_ok mem -> wf_ep ep -> zlen (sockaddr_of ep) <= len -> len <= zlen m ->
  exists n m' ep', ToSockAddr debug ep m len = Some (n, m') /\
  n = zlen (sockaddr_of ep) /\ zlen m' = zlen m /\ zdrop n m' = zdrop n m /\
  slice 2 4 m' = [port_ ep / 256; port_ ep mod 256] /\
  FromSockAddr mem ep0 m' n = Some (true, ep') /\ endpoint_eq ep' ep = true.
Proof.
  intros Hm Hmem Hw H1 H2. set (n := zlen (sockaddr_of ep)).
  destruct (from_sock_addr mem ep ep0 (zdrop n m) n) as (ep' & H3 & H4 & H5 & H6); [done..|].
  exists n, (sockaddr_of ep ++ zdrop n m), ep'. rewrite to_sock_addr by done. split_and!; try done.
  - rewrite length_app, Nat2Z.inj_add, zlen_zdrop by lia. fold n. lia.
  - by apply zdrop_app.
  - by apply sockaddr_fields.
  - unfold endpoint_eq. rewrite same_view_eq by (apply H4 || apply Hw || done). by rewrite H6, Z.eqb_refl.
Qed.

Definition example_endpoint : IPEndPoint := {| address_ := example_address [192; 168; 0; 7]; port_ := 8080 |}.

Lemma endpoint_roundtrip_witness :
  exists n m' ep', ToSockAddr true example_endpoint (replicate 20 1) 20 = Some (n, m') /\ n = 16 /\
  FromSockAddr (replicate 16 0) example_endpoint m' n = Some (true, ep') /\ endpoint_eq ep' example_endpoint = true.
Proof.
  destruct (endpoint_roundtrip true (replicate 16 0) example_endpoint example_endpoint (replicate 20 1) 20)
    as (n & m' & ep' & H1 & H2 & _ & _ & _ & H3 & H4);
    [repeat split; try done; repeat constructor; done..|].
  exists n, m', ep'. split_and!; [exact H1|by rewrite H2|exact H3|exact H4].
Defined.

(** A buffer declared too small is refused and left alone. *)
Theorem short_buffer_refused debug ep m len :
  wf_ep ep -> 0 < len < zlen (sockaddr_of ep) -> ToSockAddr debug ep m len = Some (0, m).
Proof.
  intros Hw Hlen. rewrite (sockaddr_of_length ep Hw) in Hlen. pose proof (wf_ip_size _ (proj1 Hw)) as Hs.
  unfold ToSockAddr, DCHECK, kSockaddrInSize, kSockaddrIn6Size, kIPv4AddressSize, kIPv6AddressSize in *.
  rewrite (proj2 (Z.eqb_neq len 0)) by lia. cbn [negb]. rewrite andb_false_r. cbn [mbind option_bind]. rewrite Hs.
  destruct (IsIPv4 _); cbn [Z.eqb Pos.eqb]; by rewrite (proj2 (Z.ltb_lt _ _)) by lia.
Qed.

Lemma short_buffer_refused_witness : ToSockAddr true example_endpoint [1; 2] 2 = Some (0, [1; 2]).
Proof.
  apply short_buffer_refused; [repeat split; try done; repeat constructor; done | vm_compute; split; congruence].
Defined.

(** ** Text *)

(** An end point prints as [address:port], an IPv6 address in brackets. *)
Theorem endpoint_text inet_pton inet_ntop `{!InetLaws inet_pton inet_ntop} ep :
  wf_ep ep ->
  let v6 := negb (IsIPv4 (address_ ep)) in
  let text := inet_ntop v6 (view (address_ ep)) in
  endpoint_ToString inet_ntop ep =
  Some ((if v6 then str "[" ++ text ++ str "]:" else text ++ str ":") ++ StrUtils.to_string (port_ ep)).
Proof.
  intros Hw. cbv zeta. destruct (to_string_text inet_pton inet_ntop (address_ ep) (proj1 Hw)) as (k & Et & Hsz).
  pose proof (view_ok _ (proj1 (proj1 Hw))) as Hok. pose proof (wf_ip_size _ (proj1 Hw)) as Hs.
  unfold endpoint_ToString, IPAddressToStringWithPort. rewrite Et.
  set (text := inet_ntop _ _) in *. assert (0 ∉ text) as H0 by by apply ntop_nul.
  assert (c_str ((text ++ replicate k 0) ++ [0]) = Some text) as ->
    by (rewrite <- app_assoc; destruct k; by apply c_str_app).
  assert (IsIPv6 (address_ ep) = negb (IsIPv4 (address_ ep))) as -> by (unfold IsIPv6; rewrite Hs; by destruct (IsIPv4 _)).
  cbn [mbind option_bind].
  assert (text ++ replicate k 0 <> []) as Hne.
  { rewrite <- Et. intros E. apply (f_equal length) in E. rewrite ToString_length in E. by destruct (IsIPv4 _). }
  destruct (text ++ replicate k 0); [done|]. by destruct (negb _); rewrite <- ?app_assoc.
Qed.

Lemma endpoint_text_witness :
  endpoint_ToString example_ntop example_endpoint = Some (str "192.168.0.7:8080").
Proof.
  rewrite (endpoint_text example_pton example_ntop); [reflexivity|]. repeat split; try done; repeat constructor; done.
Defined.

(** ** Sockets *)

Lemma get_endpoint mem ep ep0 :
  length mem = 16%nat -> bytes_ok mem -> wf_ep ep -> IsIPv4 (address_ ep) = true ->
  exists ep', GetEndpoint mem (Some (sockaddr_of ep)) ep0 = Some (true, ep') /\
  wf_ep ep' /\ view (address_ ep') = view (address_ ep) /\ port_ ep' = port_ ep.
Proof.
  intros Hm Hmem Hw H4. pose proof (sockaddr_of_length ep Hw) as Hl. rewrite H4 in Hl. unfold kSockaddrInSize in Hl.
  unfold GetEndpoint, get_name. cbn [mbind option_bind]. rewrite length_replicate.
  rewrite ztake_all by (unfold kSockaddrSize; lia). apply from_sock_addr; [done..|lia].
Qed.

(** [IsSelfConnect] on an IPv4 socket tells exactly whether the two ends are the
    same address and port. *)
Theorem self_connect_exact debug mem junk local peer :
  length mem = 16%nat -> bytes_ok mem -> zlen junk = kStorageSize -> wf_ep local -> wf_ep peer ->
  IsIPv4 (address_ local) = true -> IsIPv4 (address_ peer) = true ->
  IsSelfConnect debug mem junk (Some (sockaddr_of local)) (Some (sockaddr_of peer)) = Some (endpoint_eq local peer).
Proof.
  intros Hm Hmem Hj Hwl Hwp Hl4 Hp4. unfold IsSelfConnect.
  destruct (get_endpoint mem local (IPEndPoint_new mem)) as (l & -> & Hwl' & Hvl & Hpl); [done..|].
  destruct (get_endpoint mem peer (IPEndPoint_new mem)) as (p & -> & Hwp' & Hvp & Hpp); [done..|].
  cbn [mbind option_bind negb addr_storage addr_len SockaddrStorage_new].
  assert (forall ep, wf_ep ep -> IsIPv4 (address_ ep) = true -> zlen (sockaddr_of ep) = 16) as H16
    by (intros ep Hw E; rewrite sockaddr_of_length, E by done; done).
  assert (forall a b, wf_ep a -> wf_ep b -> view (address_ a) = view (address_ b) -> IsIPv4 (address_ b) = true -> IsIPv4 (address_ a) = true) as H4.
  { intros a b Ha Hb E H. apply wf_ep_length in Ha, Hb. rewrite E, Hb, H in Ha. by destruct (IsIPv4 (address_ a)). }
  pose proof (H4 l local Hwl' Hwl Hvl Hl4) as Hl4'. pose proof (H4 p peer Hwp' Hwp Hvp Hp4) as Hp4'.
  unfold kStorageSize in *.
  rewrite (to_sock_addr debug p) by first [done | lia | rewrite H16 by done; lia]. cbn [mbind option_bind]. rewrite (H16 p) by done. cbn [Z.eqb].
  rewrite (to_sock_addr debug l) by first [done | lia | rewrite H16 by done; lia]. cbn [mbind option_bind]. rewrite (H16 l) by done. cbn [Z.eqb].
  unfold GetSockAddrFamily. rewrite (wf_ip_size _ (proj1 Hwl')), Hl4'. cbn [Z.eqb Pos.eqb kIPv4AddressSize AF_INET].
  destruct (sockaddr_fields l (zdrop 16 junk) Hwl') as (_ & El & Pl & Vl).
  destruct (sockaddr_fields p (zdrop 16 junk) Hwp') as (_ & Ep & Pp & Vp).
  rewrite Hl4' in Vl. rewrite Hp4' in Vp. rewrite Vl, Vp, Hvl, Hvp. f_equal. unfold endpoint_eq. rewrite andb_comm. f_equal.
  - unfold operator_eq, bytes_eq. pose proof (wf_ip_size _ (proj1 Hwl)) as Sl. pose proof (wf_ip_size _ (proj1 Hwp)) as Sp.
    rewrite Hl4 in Sl. rewrite Hp4 in Sp. rewrite Sl, Sp. cbn [Z.eqb Pos.eqb andb]. unfold view. by rewrite Sl, Sp.
  - rewrite <- Hpl, <- Hpp. destruct (Z.eqb_spec (port_ l) (port_ p)) as [E|E]; [|apply Z.eqb_neq; congruence].
    unfold sin_port. by rewrite El, Ep, E, Z.eqb_refl.
Qed.

Lemma self_connect_exact_witness :
  IsSelfConnect false (replicate 16 0) (replicate 128 7) (Some (sockaddr_of example_endpoint)) (Some (sockaddr_of example_endpoint))
  = Some true.
Proof.
  rewrite self_connect_exact; [reflexivity|..]; try reflexivity; repeat split; try done; repeat constructor; done.
Defined.

(** For an IPv6 socket the kernel's address does not fit the [struct sockaddr] it
    is fetched into, while the length returned says it does: the address is read
    past the end of the object. *)
Theorem ipv6_socket_overread debug mem junk local peer :
  wf_ep local -> IsIPv4 (address_ local) = false ->
  GetEndpoint mem (Some (sockaddr_of local)) peer = None /\
  IsSelfConnect debug mem junk (Some (sockaddr_of local)) (Some (sockaddr_of peer)) = None.
Proof.
  intros Hw H4. pose proof (sockaddr_of_length local Hw) as Hl. rewrite H4 in Hl. unfold kSockaddrIn6Size in Hl.
  enough (forall ep, GetEndpoint mem (Some (sockaddr_of local)) ep = None) as H
    by (split; [apply H|unfold IsSelfConnect; by rewrite H]).
  intros ep. unfold GetEndpoint, get_name. cbn [mbind option_bind]. rewrite length_replicate.
  change (Z.of_nat (Z.to_nat kSockaddrSize)) with 16.
  assert (zlen (ztake 16 (sockaddr_of local) ++ zdrop (zlen (sockaddr_of local)) (replicate (Z.to_nat kSockaddrSize) 0)) = 16) as Hz
    by (rewrite zdrop_all, app_nil_r, zlen_ztake by (rewrite ?length_replicate; unfold kSockaddrSize; lia); done).
  unfold FromSockAddr, GetIPAddressFromSockAddr. rewrite Hz.
  assert (sa_family (ztake 16 (sockaddr_of local) ++ zdrop (zlen (sockaddr_of local)) (replicate (Z.to_nat kSockaddrSize) 0)) = AF_INET6) as ->.
  { unfold sockaddr_of. by rewrite H4. }
  by rewrite Hl.
Qed.

Lemma ipv6_socket_overread_witness :
  let ep := {| address_ := example_address (replicate 15 0 ++ [1]); port_ := 80 |} in
  GetEndpoint (replicate 16 0) (Some (sockaddr_of ep)) ep = None.
Proof.
  cbv zeta. apply (ipv6_socket_overread false _ []); [|reflexivity].
  repeat split; try done; repeat constructor; done.
Defined.

(** ** The order of end points *)

Lemma operator_lt_lex a b : wf_ip a -> wf_ip b -> size_ a = size_ b -> operator_lt a b = lex_ltb (view a) (view b).
Proof. intros Ha Hb Hs. unfold operator_lt, bytes_lt. by rewrite Hs, Z.eqb_refl. Qed.
Lemma same_size_eq a b : size_ a = size_ b -> operator_eq a b = true <-> view a = view b.
Proof.
  intros Hs. unfold operator_eq, bytes_eq. rewrite Hs, Z.eqb_refl. cbn [andb]. rewrite bool_decide_eq_true.
  unfold view. by rewrite Hs.
Qed.
Lemma endpoint_lt_key a b : wf_ep a -> wf_ep b ->
  endpoint_lt a b = true <->
  size_ (address_ a) < size_ (address_ b) \/ size_ (address_ a) = size_ (address_ b) /\
  (lex_ltb (view (address_ a)) (view (address_ b)) = true \/ view (address_ a) = view (address_ b) /\ port_ a < port_ b).
Proof.
  intros Ha Hb. unfold endpoint_lt. destruct (Z.eqb_spec (size_ (address_ a)) (size_ (address_ b))) as [E|E]; cbn [negb]; [|rewrite Z.ltb_lt; lia].
  rewrite !operator_lt_lex by (apply Ha || apply Hb || done).
  destruct (lex_ltb (view (address_ a)) (view (address_ b))) eqn:E1; [intuition lia|].
  destruct (lex_ltb (view (address_ b)) (view (address_ a))) eqn:E2.
  - split; [done|]. intros [?|(_ & [?|[Hv _]])]; [lia|done|]. by rewrite Hv, st_irrefl in E2.
  - rewrite Z.ltb_lt. pose proof (st_total _ _ E1 E2). intuition lia.
Qed.

(** End points are strictly and totally ordered, IPv4 before IPv6: [operator<] is
    irreflexive and transitive, and two end points neither of which is smaller are
    equal, so that they can be the keys of an ordered container. *)
Theorem endpoint_order a b c :
  wf_ep a -> wf_ep b -> wf_ep c ->
  endpoint_lt a a = false /\
  (endpoint_lt a b = true -> endpoint_lt b c = true -> endpoint_lt a c = true) /\
  (endpoint_lt a b = false -> endpoint_lt b a = false -> endpoint_eq a b = true) /\
  (IsIPv4 (address_ a) = true -> IsIPv4 (address_ b) = false -> endpoint_lt a b = true).
Proof.
  intros Ha Hb Hc. split_and!.
  - destruct (endpoint_lt a a) eqn:E; [|done]. apply endpoint_lt_key in E; [|done..]. rewrite st_irrefl in E. intuition lia.
  - rewrite !endpoint_lt_key by done. intros [H1|(H1 & H1')] [H2|(H2 & H2')]; [left; lia..|].
    right. split; [lia|]. destruct H1' as [H1'|[H1' Hp1]], H2' as [H2'|[H2' Hp2]].
    + left. by eapply st_trans.
    + left. by rewrite <- H2'.
    + left. by rewrite H1'.
    + right. split; [congruence|lia].
  - intros H1 H2. apply not_true_iff_false in H1, H2. rewrite endpoint_lt_key in H1, H2 by done.
    assert (size_ (address_ a) = size_ (address_ b)) as Hs by lia.
    assert (view (address_ a) = view (address_ b)) as Hv
      by (apply st_total; apply not_true_iff_false; intros E; [apply H1 | apply H2]; right; split; [lia | by left | lia | by left]).
    unfold endpoint_eq. rewrite (proj2 (same_size_eq _ _ Hs) Hv). cbn [andb]. apply Z.eqb_eq.
    destruct (Z.lt_total (port_ a) (port_ b)) as [?|[?|?]]; [exfalso; apply H1; tauto|done|].
    exfalso. apply H2. right. split; [lia|]. right. by split.
  - intros H4 H6. apply endpoint_lt_key; [done..|]. left.
    rewrite (wf_ip_size _ (proj1 Ha)), (wf_ip_size _ (proj1 Hb)), H4, H6. lia.
Qed.

Lemma endpoint_order_witness :
  endpoint_lt example_endpoint {| address_ := example_address (replicate 15 0 ++ [1]); port_ := 80 |} = true.
Proof.
  apply (endpoint_order example_endpoint {| address_ := example_address (replicate 15 0 ++ [1]); port_ := 80 |} example_endpoint);
    [repeat split; try done; repeat constructor; done..|reflexivity|reflexivity].
Defined.

End Endpoint.
