(* ===== verification/Acceptor.v ===== *)
(** * The listening socket (net_io/socket_acceptor.{h,cc})

    [SocketAcceptor] owns the event of its socket, registers it with the event loop
    while it listens, and hands each accepted connection to its handler.  The answers
    of the kernel are arguments; [accepted] lists the calls of [OnNewConnection].
    [None] is a failed [CHECK], a null event or a read outside an object. *)
From stdpp Require Import gmap.
From S2P Require Import Prelude IOBuffer ByteOrder Channel EventLoop Connector IPAddress Endpoint.
Import FdEvent EventLoop.

Module Acceptor.

Record Acceptor := mkAcceptor {
  loop : Loop;
  listening_ : bool;
  socket_event_ : option Z;
  accepted : list (Z * Endpoint.IPEndPoint);
  closed_fds : list Z;
}.
Definition with_loop (l : Loop) (a : Acceptor) : Acceptor := mkAcceptor l (listening_ a) (socket_event_ a) (accepted a) (closed_fds a).
Definition CloseSocket (fd : Z) (a : Acceptor) : Acceptor :=
  mkAcceptor (loop a) (listening_ a) (socket_event_ a) (accepted a) (closed_fds a ++ [fd]).

(** [socket_event_ = ev] and [socket_event_.reset()]: the event held before is destroyed, and closes its
    descriptor. *)
Definition replace_event (p : option Z) (a : Acceptor) : Acceptor :=
  match socket_event_ a with
  | Some q =>
      match objects (loop a) !! q with
      | Some e =>
          mkAcceptor (mkLoop (delete q (objects (loop a))) (evs_ (loop a)) (epoll_ (loop a))) (listening_ a) p (accepted a)
            (if owner e then closed_fds a ++ [ev_fd e] else closed_fds a)
      | None => mkAcceptor (loop a) (listening_ a) p (accepted a) (closed_fds a)
      end
  | None => mkAcceptor (loop a) (listening_ a) p (accepted a) (closed_fds a)
  end.

(** The kernel's answers to [socket] and [bind], and the address of the event. *)
Record listen_env := mkListenEnv { new_socket : Z; bind_ret : Z; new_event : Z }.
Definition InitListener (env : listen_env) (a : Acceptor) : option (bool * Acceptor) :=
  if new_socket env <? 0 then Some (false, a)
  else if bind_ret env <? 0 then Some (false, CloseSocket (new_socket env) a)
  else l ← Create (new_event env) (new_socket env) NONE (loop a);
       Some (true, replace_event (Some (new_event env)) (with_loop l a)).

(** The constructor checks that the listener was created. *)
Definition SocketAcceptor_new (env : listen_env) (l : Loop) : option Acceptor :=
  r ← InitListener env (mkAcceptor l false None [] []);
  let '(ok, a) := r in if (ok : bool) then Some a else None.

(** The destructor. *)
Definition SocketAcceptor_delete (a : Acceptor) : option Acceptor := if listening_ a then None else Some (replace_event None a).

Definition DisableAll (p : Z) (l : Loop) : option Loop := SetEvent p NONE l.

(** [listen_ret]: the answer of [listen]. *)
Definition StartListen (listen_ret : Z) (a : Acceptor) : option (bool * Acceptor) :=
  if listening_ a then Some (true, a) else
  p ← socket_event_ a;
  l ← EnableReading p (loop a);
  r ← InstallFdEvent p l;
  let '(_, l) := r in
  if listen_ret <? 0 then
    r ← RemoveFdEvent p l;
    let '(_, l) := r in
    l ← DisableAll p l;
    Some (false, with_loop l a)
  else Some (true, mkAcceptor l true (socket_event_ a) (accepted a) (closed_fds a)).

Definition StopListen (a : Acceptor) : option Acceptor :=
  if negb (listening_ a) then Some a else
  p ← socket_event_ a;
  r ← RemoveFdEvent p (loop a);
  let '(_, l) := r in
  l ← DisableAll p l;
  Some (mkAcceptor l false (socket_event_ a) (accepted a) (closed_fds a)).

(** [accept4]: the descriptor and the peer's address, copied into a
    [struct sockaddr]. *)
Record accept_result := mkAccept { peer_fd : Z; peer_name : list Z }.
Definition AcceptRead (mem : list Z) (env : accept_result) (a : Acceptor) : option Acceptor :=
  if peer_fd env <? 0 then Some a else
  r ← Endpoint.get_name (Some (peer_name env)) (replicate (Z.to_nat Endpoint.kSockaddrSize) 0);
  let '(socket_in, _) := r in
  r ← Endpoint.FromSockAddr mem (Endpoint.IPEndPoint_new mem) socket_in Endpoint.kSockaddrSize;
  let '(_, client_addr) := r in
  Some (mkAcceptor (loop a) (listening_ a) (socket_event_ a) (accepted a ++ [(peer_fd env, client_addr)]) (closed_fds a)).

Definition HandleError (env : listen_env) (listen_ret : Z) (a : Acceptor) : option Acceptor :=
  a ← StopListen a;
  r ← InitListener env a;
  let '(ok, a) := r in
  if (ok : bool) then r ← StartListen listen_ret a; Some r.2 else Some a.

Definition HandleEvent (mem : list Z) (ev : Z) (acc : accept_result) (env : listen_env) (listen_ret : Z) (a : Acceptor) : option Acceptor :=
  a ← (if has_read ev then AcceptRead mem acc a else Some a);
  if has_error ev then HandleError env listen_ret a else Some a.

(** ** Listening means registered *)

(** The event exists; it is watched, with the read bit, exactly while listening. *)
Definition acc_inv (a : Acceptor) : Prop :=
  sync (loop a) /\ exists p e, socket_event_ a = Some p /\ objects (loop a) !! p = Some e /\
  watched e = listening_ a /\ (listening_ a = true -> has (ev_events e) READ = true).

Lemma set_event_spec p ev e l l' :
  sync l -> objects l !! p = Some e -> SetEvent p ev l = Some l' ->
  objects l' !! p = Some (mkEv (ev_fd e) (u8 ev) (ev_fired e) (ev_et e) (watched e) (owner e)).
Proof.
  intros Hs He E. destruct (SetEvent_spec p ev e l Hs He) as (l2 & E2 & _ & Ho & _).
  assert (l2 = l') as <- by congruence. rewrite Ho. apply lookup_insert_eq.
Qed.

Lemma enable_reading_spec p e l :
  sync l -> objects l !! p = Some e -> exists l' e', EnableReading p l = Some l' /\ sync l' /\
  objects l' !! p = Some e' /\ watched e' = watched e /\ ev_fd e' = ev_fd e /\ has (ev_events e') READ = true.
Proof.
  intros Hs He. unfold EnableReading. rewrite He. cbn [mbind option_bind].
  destruct (has (ev_events e) READ) eqn:Hr; [by exists l, e|].
  destruct (SetEvent_sync p (Z.lor (ev_events e) READ) l Hs) as (l' & E & Hs'); [by eexists|].
  pose proof (set_event_spec _ _ _ _ _ Hs He E) as He'. exists l'. eexists. split; [done|]. split; [done|]. split; [exact He'|].
  split_and!; try done. cbn [ev_events]. unfold has, READ, u8.
  apply negb_true_iff, Z.eqb_neq. intros H0. apply (f_equal (fun z => Z.testbit z 0)) in H0.
  rewrite Z.land_spec, Z.mod_pow2_bits_low, Z.lor_spec, Z.bits_0 in H0 by lia. cbn in H0. by rewrite orb_true_r in H0.
Qed.
Lemma remove_spec p e l :
  sync l -> objects l !! p = Some e -> watched e = true ->
  exists l' e', RemoveFdEvent p l = Some (true, l') /\ sync l' /\ objects l' !! p = Some e' /\ watched e' = false.
Proof.
  intros Hs He Hw. unfold RemoveFdEvent. rewrite He. cbn [mbind option_bind]. rewrite Hw.
  destruct (DelFdEvent p l) as [l'|] eqn:E; [|unfold DelFdEvent in E; rewrite He in E; cbn in E; by rewrite Hw in E].
  exists l', (SetFdWatcher false e). split; [done|]. split; [by eapply DelFdEvent_sync|]. split; [|done].
  rewrite (DelFdEvent_objects _ _ _ _ He E). apply lookup_insert_eq.
Qed.
Lemma disable_spec p e l :
  sync l -> objects l !! p = Some e -> exists l' e', DisableAll p l = Some l' /\ sync l' /\ objects l' !! p = Some e' /\ watched e' = watched e.
Proof.
  intros Hs He. destruct (SetEvent_sync p NONE l Hs) as (l' & E & Hs'); [by eexists|].
  pose proof (set_event_spec _ _ _ _ _ Hs He E) as He'. by exists l', (mkEv (ev_fd e) (u8 NONE) (ev_fired e) (ev_et e) (watched e) (owner e)).
Qed.

Lemma start_inv r a b a' : acc_inv a -> StartListen r a = Some (b, a') -> acc_inv a' /\ listening_ a' = b.
Proof.
  intros (Hs & p & e & Hp & He & Hw & Hr). unfold StartListen. destruct (listening_ a) eqn:El.
  { intros [= <- <-]. split; [|done]. split; [done|]. exists p, e. by rewrite El. }
  rewrite Hp. cbn [mbind option_bind].
  destruct (enable_reading_spec p e (loop a) Hs He) as (l1 & e1 & -> & Hs1 & He1 & Hw1 & Hf1 & Hr1). cbn [mbind option_bind].
  unfold InstallFdEvent. destruct (AddFdEvent p l1) as [l2|] eqn:Ea; [|done]. cbn [mbind option_bind].
  destruct (AddFdEvent_sync p l1 l2 Hs1 Ea) as [Hs2 _]. pose proof (AddFdEvent_objects _ _ _ _ He1 Ea) as Ho2.
  assert (objects l2 !! p = Some (SetFdWatcher true e1)) as He2 by (rewrite Ho2; apply lookup_insert_eq).
  destruct (r <? 0).
  - destruct (remove_spec p _ l2 Hs2 He2 eq_refl) as (l3 & e3 & -> & Hs3 & He3 & Hw3). cbn [mbind option_bind].
    destruct (disable_spec p e3 l3 Hs3 He3) as (l4 & e4 & -> & Hs4 & He4 & Hw4). cbn [mbind option_bind]. intros [= <- <-].
    split; [|done]. split; [done|]. exists p, e4. cbn. rewrite El. split_and!; try done. congruence.
  - intros [= <- <-]. split; [|done]. split; [done|]. exists p, (SetFdWatcher true e1). by split_and!.
Qed.
Lemma stop_inv a : acc_inv a -> exists a', StopListen a = Some a' /\ acc_inv a' /\ listening_ a' = false.
Proof.
  intros (Hs & p & e & Hp & He & Hw & Hr). unfold StopListen. destruct (listening_ a) eqn:El; cbn [negb].
  - rewrite Hp. cbn [mbind option_bind]. destruct (remove_spec p e (loop a) Hs He Hw) as (l1 & e1 & -> & Hs1 & He1 & Hw1).
    cbn [mbind option_bind]. destruct (disable_spec p e1 l1 Hs1 He1) as (l2 & e2 & -> & Hs2 & He2 & Hw2). cbn [mbind option_bind].
    eexists. split; [done|]. split; [|done]. split; [done|]. exists p, e2. cbn. split_and!; try done. congruence.
  - exists a. split; [done|]. split; [|done]. split; [done|]. exists p, e. by rewrite El.
Qed.
Lemma init_inv env a a' :
  sync (loop a) -> listening_ a = false ->
  (socket_event_ a = None \/ exists q e, socket_event_ a = Some q /\ objects (loop a) !! q = Some e /\ watched e = false) ->
  InitListener env a = Some (true, a') -> acc_inv a' /\ listening_ a' = false.
Proof.
  intros Hs Hl Hold. unfold InitListener. destruct (_ <? 0); [done|]. destruct (_ <? 0); [done|].
  destruct (Create _ _ _ _) as [l|] eqn:Ec; [|done]. cbn [mbind option_bind]. intros [= <-].
  pose proof (Create_sync _ _ _ _ _ Hs Ec) as Hs1. unfold Create in Ec.
  destruct (objects (loop a) !! new_event env) eqn:En; [done|]. injection Ec as <-. set (e1 := mkEv _ _ _ _ _ _) in *.
  assert (objects (set_object (new_event env) e1 (loop a)) !! new_event env = Some e1) as He1 by apply lookup_insert_eq.
  unfold replace_event. cbn [with_loop socket_event_ loop listening_].
  destruct Hold as [->|(q & eq & -> & Hq & Hwq)].
  { split; [|done]. split; [done|]. exists (new_event env), e1. cbn. split_and!; try done. congruence. }
  assert (q <> new_event env) as Hne by congruence.
  assert (objects (set_object (new_event env) e1 (loop a)) !! q = Some eq) as Eo by (cbn; by rewrite lookup_insert_ne).
  rewrite Eo. split; [|done]. split.
  - by apply (Connector.delete_unwatched q eq).
  - exists (new_event env), e1. cbn. rewrite lookup_delete_ne, lookup_insert_eq by done. split_and!; try done. congruence.
Qed.
Lemma init_failed env a a' : InitListener env a = Some (false, a') -> loop a' = loop a /\ listening_ a' = listening_ a /\ socket_event_ a' = socket_event_ a.
Proof.
  unfold InitListener. destruct (_ <? 0); [by intros [= <-]|]. destruct (_ <? 0); [by intros [= <-]|].
  by destruct (Create _ _ _ _).
Qed.
Lemma stopped_old a : acc_inv a -> listening_ a = false -> sync (loop a) /\
  exists q e, socket_event_ a = Some q /\ objects (loop a) !! q = Some e /\ watched e = false.
Proof. intros (Hs & p & e & Hp & He & Hw & _) Hl. split; [done|]. exists p, e. by rewrite Hw. Qed.

(** What is done to an acceptor. *)
Inductive op :=
  | OpStart (listen_ret : Z)
  | OpStop
  | OpEvent (ev : Z) (acc : accept_result) (env : listen_env) (listen_ret : Z).
Definition step (mem : list Z) (o : op) (a : Acceptor) : option Acceptor :=
  match o with
  | OpStart r => x ← StartListen r a; Some x.2
  | OpStop => StopListen a
  | OpEvent ev acc env r => HandleEvent mem ev acc env r a
  end.
Fixpoint run (mem : list Z) (ops : list op) (a : Acceptor) : option Acceptor :=
  match ops with [] => Some a | o :: ops' => a ← step mem o a; run mem ops' a end.

Lemma accept_inv mem acc a a' : acc_inv a -> AcceptRead mem acc a = Some a' -> acc_inv a'.
Proof.
  intros Hi. unfold AcceptRead. destruct (_ <? 0); [by intros [= <-]|].
  destruct (Endpoint.get_name _ _) as [[m n]|]; [|done]. cbn [mbind option_bind].
  destruct (Endpoint.FromSockAddr _ _ _ _) as [[b ep]|]; [|done]. cbn [mbind option_bind]. by intros [= <-].
Qed.
Lemma error_inv env r a a' : acc_inv a -> HandleError env r a = Some a' -> acc_inv a'.
Proof.
  intros Hi. unfold HandleError. destruct (stop_inv a Hi) as (a1 & -> & Hi1 & Hl1). cbn [mbind option_bind].
  destruct (InitListener env a1) as [[[] a2]|] eqn:E; [| |done]; cbn [mbind option_bind].
  - destruct (stopped_old a1 Hi1 Hl1) as [Hs1 Ho1]. destruct (init_inv env a1 a2 Hs1 Hl1 (or_intror Ho1) E) as [Hi2 _].
    destruct (StartListen r a2) as [[b a3]|] eqn:E3; [|done]. cbn. intros [= <-]. by eapply start_inv in E3 as [? _].
  - intros [= <-]. destruct (init_failed env a1 a2 E) as (E1 & E2 & E3). destruct Hi1 as (Hs & p & e & Hr).
    split; [by rewrite E1|]. exists p, e. by rewrite E1, E2, E3.
Qed.
Lemma acceptor_step_inv mem o a a' : acc_inv a -> step mem o a = Some a' -> acc_inv a'.
Proof.
  intros Hi. destruct o as [r| |ev acc env r]; cbn [step].
  - destruct (StartListen r a) as [[b a1]|] eqn:E; [|done]. cbn. intros [= <-]. by eapply start_inv in E as [? _].
  - destruct (stop_inv a Hi) as (a1 & -> & Hi1 & _). by intros [= <-].
  - unfold HandleEvent. destruct (has_read ev).
    + destruct (AcceptRead mem acc a) as [a1|] eqn:E; [|done]. cbn [mbind option_bind]. apply accept_inv in E; [|done].
      destruct (has_error ev); [by apply error_inv|by intros [= <-]].
    + cbn [mbind option_bind]. destruct (has_error ev); [by apply error_inv|by intros [= <-]].
Qed.
Lemma acceptor_run_inv mem ops a a' : acc_inv a -> run mem ops a = Some a' -> acc_inv a'.
Proof.
  revert a. induction ops as [|o ops IH]; intros a Hi; cbn [run]; [by intros [= <-]|].
  destruct (step mem o a) as [a1|] eqn:E; [|done]. cbn [mbind option_bind]. apply IH. by eapply acceptor_step_inv.
Qed.

Lemma read_mask e : has (ev_events e) READ = true -> has (epoll_mask e) EPOLLIN = true.
Proof.
  intros H. unfold epoll_mask, ToEpollEvent. rewrite H. by destruct (has (ev_events e) WRITE), (ev_et e).
Qed.

(** An acceptor listens exactly while the kernel reports to it.  Through any sequence
    of starts, stops and events, the table of the loop stays in step with the kernel;
    while [listening_] is set the socket is registered with the acceptor's own event
    for reading (which the kernel watches, unless it refused the last call on the
    descriptor), and otherwise its event is not registered at all. *)
Theorem listening_iff_registered n kernel env mem ops a0 a :
  SocketAcceptor_new env (Loop_new n kernel) = Some a0 -> run mem ops a0 = Some a ->
  sync (loop a) /\ exists p e, socket_event_ a = Some p /\ objects (loop a) !! p = Some e /\
  if listening_ a then registered (loop a) (ev_fd e) p /\
                       (ev_fd e ∉ failed (loop a) -> exists m, interest (loop a) !! ev_fd e = Some m /\ has m EPOLLIN = true)
  else forall fd, ~ registered (loop a) fd p.
Proof.
  intros H0 H. unfold SocketAcceptor_new in H0.
  destruct (InitListener env _) as [[[] a1]|] eqn:E; [| |done]; cbn in H0; [|done]. injection H0 as <-.
  destruct (init_inv _ (mkAcceptor (Loop_new n kernel) false None [] []) _ (new_sync n kernel) eq_refl (or_introl eq_refl) E) as [Hi _].
  destruct (acceptor_run_inv mem ops a1 a Hi H) as (Hs & p & e & Hp & He & Hw & Hr). split; [done|].
  exists p, e. split; [done|]. split; [done|]. destruct (listening_ a).
  - destruct Hs as (H1 & H2 & _). pose proof (H1 _ _ (H2 _ _ He Hw)) as Hreg. split; [done|].
    destruct Hreg as (e' & He' & _ & _ & _ & Hi'). rewrite He in He'. injection He' as <-. intros Hn. eexists. split; [by apply Hi'|].
    apply read_mask. by apply Hr.
  - intros fd (e' & He' & _ & Hw' & _). rewrite He in He'. injection He' as <-. congruence.
Qed.

Definition example_ops : list op := [OpStart 0; OpEvent READ (mkAccept 9 []) (mkListenEnv 8 0 2) 0; OpStop; OpStart 0].

Lemma listening_iff_registered_witness :
  exists a0 a, SocketAcceptor_new (mkListenEnv 7 0 1) (Loop_new 64 []) = Some a0 /\ run (replicate 16 0) (take 1 example_ops) a0 = Some a /\
  sync (loop a).
Proof.
  destruct (SocketAcceptor_new (mkListenEnv 7 0 1) (Loop_new 64 [])) as [a0|] eqn:E0; [|by vm_compute in E0].
  destruct (run (replicate 16 0) (take 1 example_ops) a0) as [a|] eqn:E.
  - exists a0, a. split; [done|]. split; [exact E|]. by eapply (listening_iff_registered 64 [] (mkListenEnv 7 0 1) (replicate 16 0) (take 1 example_ops) a0 a).
  - exfalso. assert (is_Some (a0 ← SocketAcceptor_new (mkListenEnv 7 0 1) (Loop_new 64 []); run (replicate 16 0) (take 1 example_ops) a0)) as [x Hx]
      by (vm_compute; by eexists). rewrite E0 in Hx. cbn [mbind option_bind] in Hx. congruence.
Defined.

(** ** Peers *)

(** An IPv4 peer is reported with its address and port; an IPv6 peer, whose address
    does not fit, with an empty address and port zero. *)
Theorem peer_address mem ep fd a :
  length mem = 16%nat -> bytes_ok mem -> Endpoint.wf_ep ep -> 0 <= fd ->
  exists a' ep', AcceptRead mem (mkAccept fd (Endpoint.sockaddr_of ep)) a = Some a' /\ accepted a' = accepted a ++ [(fd, ep')] /\
  if IPAddress.IsIPv4 (Endpoint.address_ ep) then Endpoint.endpoint_eq ep' ep = true
  else IPAddress.IsValid (Endpoint.address_ ep') = false /\ Endpoint.port_ ep' = 0.
Proof.
  intros Hm Hmem Hw Hfd. pose proof (Endpoint.sockaddr_of_length ep Hw) as Hl. unfold AcceptRead. cbn [peer_fd peer_name].
  rewrite (proj2 (Z.ltb_ge _ _)) by lia. unfold Endpoint.get_name. cbn [mbind option_bind]. rewrite length_replicate.
  change (Z.of_nat (Z.to_nat Endpoint.kSockaddrSize)) with 16. destruct (IPAddress.IsIPv4 (Endpoint.address_ ep)) eqn:H4.
  - unfold Endpoint.kSockaddrInSize in Hl. rewrite ztake_all by lia.
    destruct (Endpoint.from_sock_addr mem ep (Endpoint.IPEndPoint_new mem)
      (zdrop (zlen (Endpoint.sockaddr_of ep)) (replicate (Z.to_nat Endpoint.kSockaddrSize) 0)) Endpoint.kSockaddrSize)
      as (ep' & -> & Hw' & Hv & Hp); [done..|unfold Endpoint.kSockaddrSize; lia|].
    cbn [mbind option_bind]. eexists. exists ep'. split; [done|]. split; [done|]. unfold Endpoint.endpoint_eq.
    rewrite Endpoint.same_view_eq by (apply Hw' || apply Hw || done). by rewrite Hp, Z.eqb_refl.
  - set (m := ztake 16 (Endpoint.sockaddr_of ep) ++ _).
    assert (Endpoint.sa_family m = Endpoint.AF_INET6 /\ 2 <= zlen m) as [Hf Hlm].
    { unfold m. rewrite length_app, Nat2Z.inj_add, zlen_ztake by (unfold Endpoint.kSockaddrIn6Size in Hl; lia). split; [|lia].
      unfold Endpoint.sockaddr_of. by rewrite H4. }
    unfold Endpoint.FromSockAddr, Endpoint.GetIPAddressFromSockAddr. rewrite Hf, (proj2 (Z.ltb_ge _ _)) by lia.
    cbn. eexists. eexists. split; [done|]. split; [done|]. done.
Qed.

Lemma peer_address_witness :
  exists a' ep', AcceptRead (replicate 16 0) (mkAccept 9 (Endpoint.sockaddr_of Endpoint.example_endpoint)) (mkAcceptor (Loop_new 8 []) true (Some 1) [] [])
  = Some a' /\ accepted a' = [(9, ep')] /\ Endpoint.endpoint_eq ep' Endpoint.example_endpoint = true.
Proof.
  destruct (peer_address (replicate 16 0) Endpoint.example_endpoint 9 (mkAcceptor (Loop_new 8 []) true (Some 1) [] []))
    as (a' & ep' & H1 & H2 & H3); [reflexivity|by repeat constructor|repeat split; try done; repeat constructor; done|lia|].
  exists a', ep'. split; [exact H1|]. split; [exact H2|exact H3].
Defined.

(** The relaunch is never reached: what the pump makes of the kernel's events never
    has the error bit. *)
Theorem relaunch_unreachable epoll_ev : has_error (ToLtEvent epoll_ev) = false.
Proof. unfold ToLtEvent. by destruct (has epoll_ev _), (has epoll_ev _), (has epoll_ev _). Qed.

End Acceptor.
