(* ===== verification/TimerWheel.v ===== *)
(** * The timing wheel (thirdparty/timeout/timeout.{h,c}, bitops.h)

    Timers live on four wheels of sixty-four slots, or on the expired list.  A wheel
    remembers its populated slots in a 64-bit mask, and an update computes with
    rotations the mask of the slots it passes.  The intrusive lists are lists of
    addresses, [heap] holds the timers at these addresses.  [None] is an undefined
    [ctz] or [clz] of zero, a write outside the array [todo] or a dangling pointer.

    The wheel implements a table of timers with exact deadlines: [wheel_refines]. *)
From stdpp Require Import gmap.
From S2P Require Import Prelude.

Module TimerWheel.

Definition WHEEL_BIT : Z := 6.
Definition WHEEL_NUM : Z := 4.
Definition WHEEL_LEN : Z := 64.
Definition WHEEL_MAX : Z := 63.
Definition WHEEL_MASK : Z := 63.
Definition TIMEOUT_MAX : Z := Z.shiftl 1 (WHEEL_BIT * WHEEL_NUM) - 1.
Definition TIMEOUT_INT : Z := 1.
Definition TIMEOUT_ABS : Z := 2.

(** ** Bit operations *)

Fixpoint ctz_pos (p : positive) : Z := match p with xO q => 1 + ctz_pos q | _ => 0 end.
(** [__builtin_ctzll] and [__builtin_clzll] are undefined at zero. *)
Definition ctz64 (n : Z) : option Z := match n with Zpos p => Some (ctz_pos p) | _ => None end.
Definition clz64 (n : Z) : option Z := if n =? 0 then None else Some (63 - Z.log2 n).
Definition fls (n : Z) : option Z := c ← clz64 n; Some (64 - c).
Definition rotl64 (v c : Z) : Z :=
  let mask := 63 in let c := Z.land c mask in
  Z.lor (u64 (Z.shiftl v c)) (Z.shiftr v (Z.land (- c) mask)).
Definition rotr64 (v c : Z) : Z :=
  let mask := 63 in let c := Z.land c mask in
  Z.lor (Z.shiftr v c) (u64 (Z.shiftl v (Z.land (- c) mask))).

(** ** Timers and wheels *)

(** What [pending] points to. *)
Inductive list_ref := Expired | Slot (wheel slot : Z).
#[export] Instance list_ref_eq_dec : EqDecision list_ref.
Proof. solve_decision. Defined.

Record timeout := mkTimeout {
  flags : Z;
  expires : Z;
  to_pending : option list_ref;
  interval : Z;
  attached : bool;   (* [timeouts] points to the wheel *)
}.
Definition timeout_init (fl : Z) : timeout := mkTimeout fl 0 None 0 false.

Record timeouts := mkTimeouts {
  heap : gmap Z timeout;
  wheel : gmap (Z * Z) (list Z);
  expired : list Z;
  pending : gmap Z Z;
  curtime : Z;
  hertz : Z;
}.

Definition slot_list (T : timeouts) (w s : Z) : list Z := default [] (wheel T !! (w, s)).
Definition pend (T : timeouts) (w : Z) : Z := default 0 (pending T !! w).
Definition set_heap (h : gmap Z timeout) (T : timeouts) : timeouts :=
  mkTimeouts h (wheel T) (expired T) (pending T) (curtime T) (hertz T).
Definition set_slot (w s : Z) (l : list Z) (T : timeouts) : timeouts :=
  mkTimeouts (heap T) (<[(w, s) := l]> (wheel T)) (expired T) (pending T) (curtime T) (hertz T).
Definition set_expired (l : list Z) (T : timeouts) : timeouts :=
  mkTimeouts (heap T) (wheel T) l (pending T) (curtime T) (hertz T).
Definition set_pend (w m : Z) (T : timeouts) : timeouts :=
  mkTimeouts (heap T) (wheel T) (expired T) (<[w := m]> (pending T)) (curtime T) (hertz T).
Definition set_curtime (t : Z) (T : timeouts) : timeouts :=
  mkTimeouts (heap T) (wheel T) (expired T) (pending T) t (hertz T).

Definition timeouts_init (h : gmap Z timeout) (hz : Z) : timeouts :=
  mkTimeouts h ∅ [] ∅ 0 (if hz =? 0 then 1000 else hz).

Definition with_pending (r : option list_ref) (to : timeout) : timeout :=
  mkTimeout (flags to) (expires to) r (interval to) (attached to).
Definition detach (to : timeout) : timeout := mkTimeout (flags to) (expires to) None (interval to) false.

Definition list_remove (p : Z) (l : list Z) : list Z := filter (fun q => q <> p) l.
(** [LIST_REMOVE], and whether the list is empty then. *)
Definition LIST_REMOVE (r : list_ref) (p : Z) (T : timeouts) : timeouts :=
  match r with
  | Expired => set_expired (list_remove p (expired T)) T
  | Slot w s => set_slot w s (list_remove p (slot_list T w s)) T
  end.

Definition timeouts_del (p : Z) (T : timeouts) : option timeouts :=
  to ← heap T !! p;
  match to_pending to with
  | None => Some T
  | Some r =>
      let T := LIST_REMOVE r p T in
      let T := match r with
               | Slot w s =>
                   if bool_decide (slot_list T w s = []) then set_pend w (Z.ldiff (pend T w) (Z.shiftl 1 s)) T else T
               | Expired => T
               end in
      Some (set_heap (<[p := detach to]> (heap T)) T)
  end.

Definition timeout_wheel (curtime expires : Z) : option Z :=
  n ← fls (Z.min (Z.lxor curtime expires) TIMEOUT_MAX);
  Some ((n - 1) / WHEEL_BIT).
Definition timeout_slot (wheel expires : Z) : Z := Z.land WHEEL_MASK (Z.shiftr expires (wheel * WHEEL_BIT)).

Definition timeouts_sched_future_nopending (p : Z) (T : timeouts) : option timeouts :=
  to ← heap T !! p;
  w ← timeout_wheel (curtime T) (expires to);
  let s := timeout_slot w (expires to) in
  let T := set_heap (<[p := with_pending (Some (Slot w s)) to]> (heap T)) T in
  let T := set_slot w s (p :: slot_list T w s) T in
  Some (set_pend w (Z.lor (pend T w) (Z.shiftl 1 s)) T).

Definition timeouts_sched_nopending (p : Z) (T : timeouts) : option timeouts :=
  to ← heap T !! p;
  if curtime T <? expires to then timeouts_sched_future_nopending p T
  else
    let T := set_heap (<[p := with_pending (Some Expired) to]> (heap T)) T in
    Some (set_expired (p :: expired T) T).

Definition timeouts_sched (p e : Z) (T : timeouts) : option timeouts :=
  T ← timeouts_del p T;
  to ← heap T !! p;
  let T := set_heap (<[p := mkTimeout (flags to) e (to_pending to) (interval to) true]> (heap T)) T in
  timeouts_sched_nopending p T.

Definition timeouts_readd (p : Z) (T : timeouts) : option timeouts :=
  to ← heap T !! p;
  let e := u64 (expires to + interval to) in
  let e :=
    if e <=? curtime T then
      let n := u64 (curtime T - e) in
      let r := n mod interval to in
      u64 (curtime T + u64 (interval to - r))
    else e in
  timeouts_sched_future_nopending p
    (set_heap (<[p := mkTimeout (flags to) e (to_pending to) (interval to) (attached to)]> (heap T)) T).

Definition timeouts_add (p t : Z) (T : timeouts) : option timeouts :=
  to ← heap T !! p;
  let T := if has (flags to) TIMEOUT_INT
           then set_heap (<[p := mkTimeout (flags to) (expires to) (to_pending to) (Z.max 1 t) (attached to)]> (heap T)) T
           else T in
  if has (flags to) TIMEOUT_ABS then timeouts_sched p t T
  else timeouts_sched p (u64 (curtime T + t)) T.

(** ** Advancing the clock *)

(** The slots of a wheel that expire between two times. *)
Definition update_mask (w old new : Z) : Z :=
  let elapsed := u64 (new - old) in
  if WHEEL_MAX <=? Z.shiftr elapsed (w * WHEEL_BIT) then 2 ^ 64 - 1
  else
    let oslot := Z.land WHEEL_MASK (Z.shiftr old (w * WHEEL_BIT)) in
    let nslot := Z.land WHEEL_MASK (Z.shiftr new (w * WHEEL_BIT)) in
    let _elapsed := Z.land WHEEL_MASK (u32 (WHEEL_LEN + nslot - oslot)) in
    rotl64 (u64 (Z.shiftl 1 _elapsed - 1)) (oslot + 1).

(** The [while] loop: the populated slots of the mask are moved to [todo]. *)
Fixpoint take_slots (fuel : nat) (mask w : Z) (T : timeouts) (todo : list (list Z)) : option (timeouts * list (list Z)) :=
  match fuel with
  | O => None
  | S fuel =>
      if Z.land mask (pend T w) =? 0 then Some (T, todo) else
      slot ← ctz64 (Z.land mask (pend T w));
      if WHEEL_NUM * WHEEL_LEN <=? zlen todo then None else
      let todo := todo ++ [slot_list T w slot] in
      let T := set_slot w slot [] T in
      take_slots fuel mask w (set_pend w (Z.ldiff (pend T w) (Z.shiftl 1 slot)) T) todo
  end.

(** The loop over the wheels: it ends at the first that did not wrap around. *)
Fixpoint update_wheels (ws : list Z) (new : Z) (T : timeouts) (todo : list (list Z)) : option (timeouts * list (list Z)) :=
  match ws with
  | [] => Some (T, todo)
  | w :: ws =>
      let mask := update_mask w (curtime T) new in
      r ← take_slots 65 mask w T todo;
      let '(T, todo) := r in
      if negb (has mask 1) then Some (T, todo) else update_wheels ws new T todo
  end.

(** The timers taken out are scheduled again. *)
Fixpoint resched (todo : list Z) (T : timeouts) : option timeouts :=
  match todo with
  | [] => Some T
  | p :: todo =>
      to ← heap T !! p;
      T ← timeouts_sched_nopending p (set_heap (<[p := with_pending None to]> (heap T)) T);
      resched todo T
  end.

Definition timeouts_update (new : Z) (T : timeouts) : option timeouts :=
  r ← update_wheels [0; 1; 2; 3] new T [];
  let '(T, todo) := r in
  resched (concat todo) (set_curtime new T).
Definition timeouts_step (elapsed : Z) (T : timeouts) : option timeouts := timeouts_update (u64 (curtime T + elapsed)) T.

(** ** Queries *)

Definition timeouts_pending (T : timeouts) : bool :=
  negb (Z.lor (Z.lor (Z.lor (Z.lor 0 (pend T 0)) (pend T 1)) (pend T 2)) (pend T 3) =? 0).
Definition timeouts_expired (T : timeouts) : bool := negb (bool_decide (expired T = [])).

Fixpoint timeouts_int_loop (ws : list Z) (relmask timeout : Z) (T : timeouts) : option Z :=
  match ws with
  | [] => Some timeout
  | w :: ws =>
      timeout ← (if pend T w =? 0 then Some timeout else
        let slot := Z.land WHEEL_MASK (Z.shiftr (curtime T) (w * WHEEL_BIT)) in
        c ← ctz64 (rotr64 (pend T w) slot);
        let _timeout := Z.shiftl (c + (if Z.land (pend T w) (u64 (Z.shiftl 1 slot)) =? 0 then 0 else 1)) (w * WHEEL_BIT) in
        let _timeout := u64 (_timeout - Z.land relmask (curtime T)) in
        Some (Z.min _timeout timeout));
      timeouts_int_loop ws (Z.lor (u64 (Z.shiftl relmask WHEEL_BIT)) WHEEL_MASK) timeout T
  end.
Definition timeouts_int (T : timeouts) : option Z := timeouts_int_loop [0; 1; 2; 3] 0 (2 ^ 64 - 1) T.
Definition timeouts_timeout (T : timeouts) : option Z := if timeouts_expired T then Some 0 else timeouts_int T.

Definition timeouts_get (T : timeouts) : option (option Z * timeouts) :=
  match expired T with
  | [] => Some (None, T)
  | p :: _ =>
      to ← heap T !! p;
      let T := LIST_REMOVE Expired p T in
      let T := set_heap (<[p := detach to]> (heap T)) T in
      if has (flags to) TIMEOUT_INT && (0 <? interval to)
      then T ← timeouts_readd p T; Some (Some p, T)
      else Some (Some p, T)
  end.

(** The slots in the order of the arrays. *)
Definition slots_in_order : list (Z * Z) := w ← seqZ 0 4; s ← seqZ 0 64; [(w, s)].
Definition timeouts_min (T : timeouts) : option (option Z) :=
  foldl (fun acc p =>
      min ← acc; to ← heap T !! p;
      match min with
      | None => Some (Some p)
      | Some q => tq ← heap T !! q; Some (if expires to <? expires tq then Some p else min)
      end) (Some None) (concat ((fun ws => slot_list T ws.1 ws.2) <$> slots_in_order)).

(** The self-check of the library. *)
Definition timeouts_check (T : timeouts) : option bool :=
  m ← timeouts_min T;
  match m with
  | Some p =>
      to ← heap T !! p;
      t1 ← timeouts_int T; t2 ← timeouts_timeout T;
      Some ((curtime T <? expires to) && (t1 <=? u64 (expires to - curtime T)) && (t2 <=? u64 (expires to - curtime T)))
  | None =>
      t ← timeouts_timeout T;
      Some (if timeouts_expired T then t =? 0 else t =? 2 ^ 64 - 1)
  end.

(** [timeouts_reset]: every timer on a list is detached. *)
Definition timeouts_reset (T : timeouts) : timeouts :=
  set_heap (foldl (fun h p => alter detach p h) (heap T)
    (concat ((fun ws => slot_list T ws.1 ws.2) <$> slots_in_order) ++ expired T)) T.

Definition timeout_pending (to : timeout) : bool := match to_pending to with Some (Slot _ _) => true | _ => false end.
Definition timeout_expired (to : timeout) : bool := match to_pending to with Some Expired => true | _ => false end.

(** ** Bits *)

Ltac modlia := Z.to_euclidean_division_equations; lia.

Lemma ctz_pos_spec p : 0 <= ctz_pos p /\ Z.testbit (Zpos p) (ctz_pos p) = true /\
  (forall i, 0 <= i < ctz_pos p -> Z.testbit (Zpos p) i = false).
Proof.
  induction p as [p IH|p IH|]; cbn [ctz_pos]; [split_and!; [lia|done|lia]| |split_and!; [lia|done|lia]].
  destruct IH as (H0 & H1 & H2). rewrite <- (Z.mul_1_l (Zpos p~0)). change (1 * Zpos p~0) with (2 * Zpos p).
  split; [lia|]. split.
  - rewrite Z.add_1_l, Z.testbit_even_succ by lia. done.
  - intros i Hi. destruct (decide (i = 0)) as [->|]; [by rewrite Z.testbit_even_0|].
    replace i with (Z.succ (i - 1)) by lia. rewrite Z.testbit_even_succ by lia. apply H2. lia.
Qed.
Lemma ctz64_spec n : 0 < n < 2 ^ 64 -> exists k, ctz64 n = Some k /\ 0 <= k < 64 /\ Z.testbit n k = true /\
  forall i, 0 <= i < k -> Z.testbit n i = false.
Proof.
  intros Hn. destruct n as [|p|p]; [lia| |lia]. exists (ctz_pos p). destruct (ctz_pos_spec p) as (H0 & H1 & H2).
  split; [done|]. split; [|done]. split; [done|]. destruct (decide (64 <= ctz_pos p)); [|lia].
  rewrite Z.bits_above_log2 in H1; [done|lia|]. apply Z.log2_lt_pow2; [lia|].
  eapply Z.lt_le_trans; [apply Hn|]. apply Z.pow_le_mono_r; lia.
Qed.

Lemma testbit_high v i : 0 <= v < 2 ^ 64 -> 64 <= i -> Z.testbit v i = false.
Proof.
  intros Hv Hi. rewrite <- (Z.mod_small v (2 ^ 64)) by lia. by rewrite Z.mod_pow2_bits_high by lia.
Qed.
Lemma testbit_u64 v i : 0 <= i < 64 -> Z.testbit (u64 v) i = Z.testbit v i.
Proof. intros Hi. unfold u64. by rewrite Z.mod_pow2_bits_low by lia. Qed.
Lemma u64_bits_range x : (forall i, 64 <= i -> Z.testbit x i = false) -> 0 <= x -> 0 <= x < 2 ^ 64.
Proof.
  intros H Hx. split; [done|]. destruct (decide (x = 0)) as [->|]; [lia|]. apply Z.log2_lt_pow2; [lia|].
  destruct (decide (Z.log2 x < 64)); [done|]. exfalso. pose proof (Z.bit_log2 x ltac:(lia)) as Hb. rewrite H in Hb by lia. done.
Qed.
Lemma land_63 c : Z.land c 63 = c mod 64.
Proof. change 63 with (Z.ones 6). by rewrite Z.land_ones by lia. Qed.
Lemma land_63' c : Z.land 63 c = c mod 64.
Proof. by rewrite Z.land_comm, land_63. Qed.

Lemma rotl64_spec v c i : 0 <= v < 2 ^ 64 -> 0 <= i < 64 -> Z.testbit (rotl64 v c) i = Z.testbit v ((i - c) mod 64).
Proof.
  intros Hv Hi. unfold rotl64. rewrite !land_63, Z.lor_spec, testbit_u64, Z.shiftl_spec, Z.shiftr_spec by modlia.
  destruct (decide (i < c mod 64)).
  - rewrite (Z.testbit_neg_r v (i - c mod 64)) by modlia. cbn [orb]. f_equal. modlia.
  - destruct (decide (c mod 64 = 0)) as [E|].
    + rewrite E. change (- 0 mod 64) with 0. rewrite Z.sub_0_r, Z.add_0_r, orb_diag. f_equal. modlia.
    + rewrite (testbit_high v (i + - (c mod 64) mod 64)) by modlia. rewrite orb_false_r. f_equal. modlia.
Qed.
Lemma rotr64_spec v c i : 0 <= v < 2 ^ 64 -> 0 <= i < 64 -> Z.testbit (rotr64 v c) i = Z.testbit v ((i + c) mod 64).
Proof.
  intros Hv Hi. unfold rotr64. rewrite !land_63, Z.lor_spec, testbit_u64, Z.shiftl_spec, Z.shiftr_spec by modlia.
  destruct (decide (c mod 64 = 0)) as [E|].
  - rewrite E. change (- 0 mod 64) with 0. rewrite Z.sub_0_r, Z.add_0_r, orb_diag. f_equal. modlia.
  - destruct (decide (i + c mod 64 < 64)).
    + rewrite (Z.testbit_neg_r v (i - - (c mod 64) mod 64)) by modlia. rewrite orb_false_r. f_equal. modlia.
    + rewrite (testbit_high v (i + c mod 64)) by modlia. cbn [orb]. f_equal. modlia.
Qed.
Lemma rotr64_range v c : 0 <= v < 2 ^ 64 -> 0 <= rotr64 v c < 2 ^ 64.
Proof.
  intros Hv. unfold rotr64. apply u64_bits_range.
  - intros i Hi. rewrite Z.lor_spec, Z.shiftr_spec by lia. rewrite testbit_high by (pose proof (Z.land_nonneg c 63); lia).
    by rewrite testbit_high by (apply u64_range || lia).
  - apply Z.lor_nonneg. split; [apply Z.shiftr_nonneg; lia|apply u64_range].
Qed.

(** ** Where a timer belongs *)

(** A time as the wheel [w] and those above see it. *)
Definition level (w x : Z) : Z := Z.shiftr x (w * WHEEL_BIT).
Lemma level_div w x : 0 <= w -> level w x = x / 2 ^ (w * 6).
Proof. intros Hw. unfold level, WHEEL_BIT. by rewrite Z.shiftr_div_pow2 by lia. Qed.
Lemma level_mono w x y : 0 <= w -> x <= y -> level w x <= level w y.
Proof. intros Hw Hxy. rewrite !level_div by done. apply Z.div_le_mono; [|done]. apply Z.pow_pos_nonneg; lia. Qed.
Lemma level_lt w x y : 0 <= w -> level w x < level w y -> x < y.
Proof. intros Hw H. destruct (decide (y <= x)) as [Hle|]; [|lia]. apply (level_mono w) in Hle; lia. Qed.
Lemma level_succ w x : 0 <= w -> level (w + 1) x = level w x / 64.
Proof.
  intros Hw. rewrite !level_div by lia. replace ((w + 1) * 6) with (w * 6 + 6) by lia.
  rewrite Z.pow_add_r, Z.div_div by (try apply Z.pow_pos_nonneg; lia). done.
Qed.
Lemma level_up w v x y : 0 <= w <= v -> level w x = level w y -> level v x = level v y.
Proof.
  intros Hv. revert x y. replace v with (w + (v - w)) by lia. generalize (v - w), (proj2 (Z.le_0_sub w v) ltac:(lia)).
  intros n Hn. revert n Hn. apply (natlike_ind (fun n => forall x y, level w x = level w y -> level (w + n) x = level (w + n) y)).
  - intros x y. by rewrite Z.add_0_r.
  - intros n Hn IH x y E. rewrite Z.add_succ_r, <- Z.add_1_r, !level_succ by lia. by rewrite (IH x y E).
Qed.
Lemma level_nonneg w x : 0 <= w -> 0 <= x -> 0 <= level w x.
Proof. intros Hw Hx. unfold level. by apply Z.shiftr_nonneg. Qed.
Lemma timeout_slot_level w e : timeout_slot w e = level w e mod 64.
Proof. unfold timeout_slot, WHEEL_MASK. apply land_63'. Qed.

Definition placed (cur w s e : Z) : Prop :=
  0 <= w < 4 /\ s = timeout_slot w e /\ level w cur < level w e /\ (w < 3 -> level (w + 1) e = level (w + 1) cur).

Lemma placed_future cur w s e : placed cur w s e -> cur < e /\ 0 <= s < 64.
Proof.
  intros (Hw & -> & H & _). split; [by apply (level_lt w); [lia|]|]. rewrite timeout_slot_level. modlia.
Qed.

Lemma timeout_wheel_placed cur e :
  0 <= cur < e -> exists w, timeout_wheel cur e = Some w /\ placed cur w (timeout_slot w e) e.
Proof.
  intros He. unfold timeout_wheel, fls, clz64. change TIMEOUT_MAX with (2 ^ 24 - 1). set (x := Z.lxor cur e).
  assert (0 < x) as Hx.
  { assert (0 <= x) by (apply Z.lxor_nonneg; lia). assert (x <> 0) by (intros E; apply Z.lxor_eq in E; lia). lia. }
  set (m := Z.min x (2 ^ 24 - 1)). rewrite (proj2 (Z.eqb_neq m 0)) by (unfold m; lia). cbn [mbind option_bind].
  replace (64 - (63 - Z.log2 m) - 1) with (Z.log2 m) by lia. set (w := Z.log2 m / WHEEL_BIT). exists w. split; [done|].
  assert (0 < m < 2 ^ 24) as Hm by (unfold m; lia). pose proof (Z.log2_spec m ltac:(lia)) as Hl.
  assert (Z.log2 m < 24) by (apply Z.log2_lt_pow2; lia). pose proof (Z.log2_nonneg m).
  assert (0 <= w < 4) as Hw by (unfold w, WHEEL_BIT; modlia).
  assert (forall v, level v x = Z.lxor (level v cur) (level v e)) as Hlv by (intros v; apply Z.shiftr_lxor).
  split; [done|]. split; [done|]. split.
  - assert (level w x <> 0) as Hne.
    { rewrite level_div by lia. assert (2 ^ (w * 6) <= x) as Hle.
      { trans (2 ^ Z.log2 m); [apply Z.pow_le_mono_r; unfold w, WHEEL_BIT; modlia|]. unfold m in *. lia. }
      assert (0 < x / 2 ^ (w * 6)); [|lia]. apply Z.div_str_pos. split; [apply Z.pow_pos_nonneg; lia|done]. }
    pose proof (level_mono w cur e ltac:(lia) ltac:(lia)). assert (level w cur <> level w e); [|lia].
    intros E. by rewrite Hlv, E, Z.lxor_nilpotent in Hne.
  - intros Hw3. symmetry. apply Z.lxor_eq. rewrite <- Hlv, level_div by lia. apply Z.div_small. split; [lia|].
    assert (m < 2 ^ ((w + 1) * 6)) as Hlt.
    { eapply Z.lt_le_trans; [apply Hl|]. apply Z.pow_le_mono_r; unfold w, WHEEL_BIT; modlia. }
    assert (2 ^ ((w + 1) * 6) <= 2 ^ 18) by (apply Z.pow_le_mono_r; lia). unfold m in *. lia.
Qed.

(** The mask of an update holds every slot that is passed, and a mask without slot
    zero means that the wheels above do not move. *)
Lemma update_mask_spec w old new :
  0 <= w < 4 -> 0 <= old <= new -> new < 2 ^ 64 ->
  (forall d, level w old < d <= level w new -> Z.testbit (update_mask w old new) (d mod 64) = true) /\
  (has (update_mask w old new) 1 = false -> level (w + 1) old = level (w + 1) new) /\
  0 <= update_mask w old new < 2 ^ 64.
Proof.
  intros Hw Hold Hnew. unfold update_mask. rewrite u64_id by lia. unfold WHEEL_MAX.
  destruct (Z.leb_spec 63 (Z.shiftr (new - old) (w * WHEEL_BIT))) as [Hbig|Hsmall].
  { split; [|split; [done|lia]]. intros d _. change (2 ^ 64 - 1) with (Z.ones 64). apply Z.ones_spec_low. modlia. }
  fold (level w old) (level w new). fold (level w (new - old)) in Hsmall. unfold WHEEL_MASK, WHEEL_LEN. rewrite !land_63'.
  set (a := level w old) in *. set (b := level w new) in *.
  assert (a <= b <= a + 63) as Hab.
  { unfold a, b. split; [apply level_mono; lia|]. rewrite !level_div in * by lia.
    assert (0 < 2 ^ (w * 6)) by (apply Z.pow_pos_nonneg; lia).
    pose proof (Z.div_mod old (2 ^ (w * 6)) ltac:(lia)). pose proof (Z.div_mod new (2 ^ (w * 6)) ltac:(lia)).
    pose proof (Z.div_mod (new - old) (2 ^ (w * 6)) ltac:(lia)).
    pose proof (Z.mod_pos_bound old (2 ^ (w * 6)) ltac:(lia)). pose proof (Z.mod_pos_bound new (2 ^ (w * 6)) ltac:(lia)).
    pose proof (Z.mod_pos_bound (new - old) (2 ^ (w * 6)) ltac:(lia)). nia. }
  assert (0 <= a) as Ha by (apply level_nonneg; lia). rewrite u32_id by modlia.
  replace ((64 + b mod 64 - a mod 64) mod 64) with (b - a) by modlia.
  assert (0 <= Z.shiftl 1 (b - a) - 1 < 2 ^ 64) as Hr.
  { rewrite Z.shiftl_1_l. assert (2 ^ (b - a) <= 2 ^ 63) by (apply Z.pow_le_mono_r; lia).
    pose proof (Z.pow_pos_nonneg 2 (b - a) ltac:(lia) ltac:(lia)). lia. }
  rewrite u64_id by lia. change (1 - 1) with 0.
  assert (forall i, 0 <= i < 64 -> Z.testbit (rotl64 (Z.shiftl 1 (b - a) - 1) (a mod 64 + 1)) i = ((i - (a mod 64 + 1)) mod 64 <? b - a)) as Hb.
  { intros i Hi. rewrite rotl64_spec by done. rewrite Z.shiftl_1_l, Z.sub_1_r, <- Z.ones_equiv. rewrite Z.testbit_ones by lia.
    rewrite (proj2 (Z.leb_le 0 _)) by modlia. done. }
  split; [|split].
  - intros d Hd. rewrite Hb by modlia. apply Z.ltb_lt. modlia.
  - intros H0. rewrite !level_succ by lia. fold a b. assert (Z.testbit (rotl64 (Z.shiftl 1 (b - a) - 1) (a mod 64 + 1)) 0 = false) as H1.
    { unfold has in H0. apply negb_false_iff, Z.eqb_eq in H0. apply (f_equal (fun z => Z.testbit z 0)) in H0.
      rewrite Z.land_spec, Z.bits_0 in H0. by rewrite andb_true_r in H0. }
    rewrite Hb in H1 by lia. apply Z.ltb_ge in H1. modlia.
  - unfold rotl64. apply u64_bits_range.
    + intros i Hi. rewrite Z.lor_spec, Z.shiftr_spec by lia. rewrite testbit_high by (apply u64_range || lia).
      apply testbit_high; [done|]. pose proof (Z.land_nonneg (- Z.land (a mod 64 + 1) 63) 63). lia.
    + apply Z.lor_nonneg. split; [apply u64_range|apply Z.shiftr_nonneg; lia].
Qed.

(** ** Well-formed wheels *)

Definition list_at (T : timeouts) (r : list_ref) : list Z :=
  match r with Expired => expired T | Slot w s => slot_list T w s end.
Definition belongs (cur : Z) (r : list_ref) (e : Z) : Prop :=
  match r with Expired => e <= cur | Slot w s => placed cur w s e end.
Definition in_range (to : timeout) : Prop := 0 <= expires to < 2 ^ 63 /\ 0 <= interval to < 2 ^ 62.

(** [L]: the timers taken out of their lists and not yet back. *)
Record wf (L : list Z) (T : timeouts) : Prop := mkWf {
  wf_lists : forall r p, p ∈ list_at T r -> exists to, heap T !! p = Some to /\ to_pending to = Some r /\ belongs (curtime T) r (expires to);
  wf_heap : forall p to r, heap T !! p = Some to -> to_pending to = Some r -> p ∈ list_at T r \/ p ∈ L;
  wf_limbo : forall p, p ∈ L -> (exists to w s, heap T !! p = Some to /\ to_pending to = Some (Slot w s)) /\ forall r, p ∉ list_at T r;
  wf_nodup : NoDup L /\ forall r, NoDup (list_at T r);
  wf_bits : forall w, 0 <= pend T w < 2 ^ 64 /\ forall s, 0 <= s < 64 -> Z.testbit (pend T w) s = true <-> slot_list T w s <> [];
  wf_time : 0 <= curtime T < 2 ^ 62 /\ forall p to, heap T !! p = Some to -> in_range to;
}.

Lemma list_at_set_slot w s l T r : list_at (set_slot w s l T) r = if decide (r = Slot w s) then l else list_at T r.
Proof.
  destruct r as [|w' s']; cbn [list_at]; [by rewrite decide_False|]. unfold slot_list. cbn [wheel set_slot].
  destruct (decide (Slot w' s' = Slot w s)) as [[= -> ->]|Hne]; [by rewrite lookup_insert_eq|].
  by rewrite lookup_insert_ne by congruence.
Qed.
Lemma pend_set_pend w m T v : pend (set_pend w m T) v = if decide (v = w) then m else pend T v.
Proof.
  unfold pend. cbn [pending set_pend]. destruct (decide (v = w)) as [->|]; [by rewrite lookup_insert_eq|].
  by rewrite lookup_insert_ne by done.
Qed.
Lemma testbit_shiftl_1 s i : 0 <= s -> Z.testbit (Z.shiftl 1 s) i = bool_decide (i = s).
Proof.
  intros Hs. rewrite Z.shiftl_1_l. case_bool_decide as E.
  - subst i. by apply Z.pow2_bits_true.
  - apply Z.pow2_bits_false. congruence.
Qed.
Lemma ldiff_range m s : 0 <= m < 2 ^ 64 -> 0 <= s -> 0 <= Z.ldiff m (Z.shiftl 1 s) < 2 ^ 64.
Proof.
  intros Hm Hs. apply u64_bits_range; [|apply Z.ldiff_nonneg; lia].
  intros i Hi. by rewrite Z.ldiff_spec, testbit_high by lia.
Qed.
Lemma lor_range m s : 0 <= m < 2 ^ 64 -> 0 <= s < 64 -> 0 <= Z.lor m (Z.shiftl 1 s) < 2 ^ 64.
Proof.
  intros Hm Hs. apply u64_bits_range.
  - intros i Hi. rewrite Z.lor_spec, testbit_high, testbit_shiftl_1 by lia. by rewrite bool_decide_eq_false_2 by lia.
  - apply Z.lor_nonneg. split; [lia|]. apply Z.shiftl_nonneg. lia.
Qed.

(** Changing a timer where it stands. *)
Lemma wf_touch L T p to to' :
  wf L T -> heap T !! p = Some to -> to_pending to' = to_pending to -> in_range to' ->
  (to_pending to = None \/ expires to' = expires to) -> wf L (set_heap (<[p := to']> (heap T)) T).
Proof.
  intros [H1 H2 H3 H4 H5 H6] Hp Hpd Hr Hx. split; [..|done|done|].
  - intros r q Hq. destruct (H1 r q Hq) as (tq & Hh & Hpq & Hb). cbn [heap set_heap curtime].
    destruct (decide (q = p)) as [->|]; [|rewrite lookup_insert_ne by done; eauto].
    rewrite Hh in Hp. injection Hp as ->. exists to'. rewrite lookup_insert_eq. split; [done|]. rewrite Hpd. split; [done|].
    destruct Hx as [Hx|Hx]; [congruence|]. by rewrite Hx.
  - intros q tq r. cbn [heap set_heap]. destruct (decide (q = p)) as [->|].
    + rewrite lookup_insert_eq. intros [= <-]. rewrite Hpd. by apply H2.
    + rewrite lookup_insert_ne by done. apply H2.
  - intros q Hq. destruct (H3 q Hq) as [(tq & w & s & Hh & Hpq) Hn]. split; [|done]. cbn [heap set_heap].
    destruct (decide (q = p)) as [->|]; [|rewrite lookup_insert_ne by done; eauto].
    rewrite Hh in Hp. injection Hp as ->. exists to', w, s. rewrite lookup_insert_eq. split; [done|]. congruence.
  - destruct H6 as [H6 H7]. split; [done|]. intros q tq. cbn [heap set_heap].
    destruct (decide (q = p)) as [->|]; [rewrite lookup_insert_eq; by intros [= <-]|]. rewrite lookup_insert_ne by done. apply H7.
Qed.

(** Forgetting the list of a timer that is on none. *)
Lemma wf_pop L T p to :
  wf (p :: L) T -> heap T !! p = Some to -> wf L (set_heap (<[p := with_pending None to]> (heap T)) T).
Proof.
  intros [H1 H2 H3 [H4 H4'] H5 [H6 H7]] Hp. destruct (H3 p ltac:(set_solver)) as [_ Hnot]. apply list.NoDup_cons in H4 as [HpL H4].
  split; [..|done|done|].
  - intros r q Hq. assert (q <> p) by (intros ->; by apply (Hnot r)). cbn [heap set_heap]. rewrite lookup_insert_ne by done. by apply H1.
  - intros q tq r. cbn [heap set_heap]. destruct (decide (q = p)) as [->|]; [rewrite lookup_insert_eq; by intros [= <-]|].
    rewrite lookup_insert_ne by done. intros Hq Hr. destruct (H2 q tq r Hq Hr) as [?|Hin]; [by left|right].
    apply elem_of_cons in Hin as [->|]; done.
  - intros q Hq. assert (q <> p) by (intros ->; done). destruct (H3 q ltac:(set_solver)) as [Hex Hn]. split; [|done].
    cbn [heap set_heap]. by rewrite lookup_insert_ne by done.
  - split; [done|]. intros q tq. cbn [heap set_heap]. destruct (decide (q = p)) as [->|]; [|rewrite lookup_insert_ne by done; apply H7].
    rewrite lookup_insert_eq. intros [= <-]. by apply (H7 p to).
Qed.

Definition pushed (r : list_ref) (p : Z) (to : timeout) (T : timeouts) : timeouts :=
  let T := set_heap (<[p := with_pending (Some r) to]> (heap T)) T in
  match r with
  | Expired => set_expired (p :: expired T) T
  | Slot w s => let T := set_slot w s (p :: slot_list T w s) T in set_pend w (Z.lor (pend T w) (Z.shiftl 1 s)) T
  end.
Lemma list_at_pushed r p to T r' : list_at (pushed r p to T) r' = if decide (r' = r) then p :: list_at T r else list_at T r'.
Proof.
  destruct r as [|w s]; cbn [pushed].
  - destruct r'; [by rewrite decide_True|]. by rewrite decide_False.
  - set (T1 := set_heap _ T). change (list_at (set_pend w (Z.lor (pend (set_slot w s (p :: slot_list T1 w s) T1) w) (Z.shiftl 1 s))
      (set_slot w s (p :: slot_list T1 w s) T1)) r') with (list_at (set_slot w s (p :: slot_list T1 w s) T1) r').
    rewrite list_at_set_slot. by destruct r'.
Qed.
Lemma heap_pushed r p to T : heap (pushed r p to T) = <[p := with_pending (Some r) to]> (heap T).
Proof. by destruct r. Qed.
Lemma curtime_pushed r p to T : curtime (pushed r p to T) = curtime T.
Proof. by destruct r. Qed.

Lemma wf_push L T r p to :
  wf L T -> heap T !! p = Some to -> to_pending to = None -> p ∉ L -> belongs (curtime T) r (expires to) -> wf L (pushed r p to T).
Proof.
  intros [H1 H2 H3 [H4 H4'] H5 [H6 H7]] Hp Hpd HpL Hb.
  assert (forall r', p ∉ list_at T r') as Hnot.
  { intros r' Hin. destruct (H1 r' p Hin) as (to' & Hh & Hpd' & _). congruence. }
  split.
  - intros r' q. rewrite list_at_pushed, heap_pushed, curtime_pushed. intros Hq.
    assert (q = p /\ r' = r \/ q <> p /\ q ∈ list_at T r') as [[-> ->]|[Hqp Hq']].
    { destruct (decide (r' = r)) as [->|].
      - apply elem_of_cons in Hq as [->|Hq]; [by left|]. right. split; [|done]. intros ->. by apply (Hnot r).
      - right. split; [|done]. intros ->. by apply (Hnot r'). }
    + exists (with_pending (Some r) to). by rewrite lookup_insert_eq.
    + rewrite lookup_insert_ne by done. by apply H1.
  - intros q tq r'. rewrite list_at_pushed, heap_pushed. destruct (decide (q = p)) as [->|].
    + rewrite lookup_insert_eq. intros [= <-]. cbn. intros [= <-]. rewrite decide_True by done. left. apply list_elem_of_here.
    + rewrite lookup_insert_ne by done. intros Hq Hr. destruct (H2 q tq r' Hq Hr) as [Hin|]; [left|by right].
      destruct (decide (r' = r)) as [->|]; [|done]. by apply list_elem_of_further.
  - intros q Hq. destruct (H3 q Hq) as [Hex Hn]. assert (q <> p) by (intros ->; done). split.
    + rewrite heap_pushed, lookup_insert_ne by done. done.
    + intros r'. rewrite list_at_pushed. destruct (decide (r' = r)) as [->|]; [|done]. rewrite elem_of_cons. intros [?|?]; [done|by apply (Hn r)].
  - split; [done|]. intros r'. rewrite list_at_pushed. destruct (decide (r' = r)) as [->|]; [|done]. by apply list.NoDup_cons.
  - destruct r as [|w s]; [done|]. destruct (placed_future _ _ _ _ Hb) as [_ Hs]. intros v. destruct (H5 v) as [Hr Hbit].
    cbn [pushed]. rewrite pend_set_pend. change (pend (set_slot w s _ _) w) with (pend T w). split.
    + destruct (decide (v = w)) as [->|]; [by apply lor_range|done].
    + intros i Hi. change (slot_list (set_pend _ _ _) v i) with (list_at (pushed (Slot w s) p to T) (Slot v i)). rewrite list_at_pushed.
      destruct (decide (v = w)) as [->|]; [|rewrite decide_False by congruence; by apply Hbit].
      rewrite Z.lor_spec, testbit_shiftl_1 by lia. destruct (decide (i = s)) as [->|].
      * rewrite bool_decide_eq_true_2, orb_true_r, decide_True by done. done.
      * rewrite bool_decide_eq_false_2, orb_false_r, decide_False by congruence. by apply Hbit.
  - rewrite curtime_pushed. split; [done|]. intros q tq. rewrite heap_pushed.
    destruct (decide (q = p)) as [->|]; [|rewrite lookup_insert_ne by done; apply H7].
    rewrite lookup_insert_eq. intros [= <-]. by apply (H7 p to).
Qed.

(** Scheduling a timer that is on no list. *)
Lemma sched_future L T p to :
  wf L T -> heap T !! p = Some to -> to_pending to = None -> p ∉ L -> curtime T < expires to ->
  exists w s, let T' := pushed (Slot w s) p to T in timeouts_sched_future_nopending p T = Some T' /\ wf L T'.
Proof.
  intros Hwf Hp Hpd HpL Hlt. pose proof (wf_time _ _ Hwf) as [Ht _].
  destruct (timeout_wheel_placed (curtime T) (expires to)) as (w & Hw & Hpl); [lia|].
  exists w, (timeout_slot w (expires to)). cbn zeta. split; [|by apply wf_push].
  unfold timeouts_sched_future_nopending. rewrite Hp. cbn [mbind option_bind]. by rewrite Hw.
Qed.
Lemma sched_nopending L T p to :
  wf L T -> heap T !! p = Some to -> to_pending to = None -> p ∉ L ->
  exists r, let T' := pushed r p to T in timeouts_sched_nopending p T = Some T' /\ wf L T' /\ (r = Expired <-> expires to <= curtime T).
Proof.
  intros Hwf Hp Hpd HpL. unfold timeouts_sched_nopending. rewrite Hp. cbn [mbind option_bind].
  destruct (Z.ltb_spec (curtime T) (expires to)) as [Hlt|Hle].
  - destruct (sched_future L T p to) as (w & s & H & Hwf'); try done. exists (Slot w s). cbn zeta. split; [done|]. split; [done|].
    split; [done|lia].
  - exists Expired. cbn zeta. split; [done|]. split; [by apply wf_push|]. done.
Qed.

(** Taking a timer off its list. *)
Definition removed (r : list_ref) (p : Z) (to : timeout) (T : timeouts) : timeouts :=
  let T := LIST_REMOVE r p T in
  let T := match r with
           | Slot w s => if bool_decide (slot_list T w s = []) then set_pend w (Z.ldiff (pend T w) (Z.shiftl 1 s)) T else T
           | Expired => T
           end in
  set_heap (<[p := detach to]> (heap T)) T.
Lemma elem_list_remove p q l : q ∈ list_remove p l <-> q ∈ l /\ q <> p.
Proof. unfold list_remove. rewrite list_elem_of_filter. tauto. Qed.
Lemma list_at_removed r p to T r' : list_at (removed r p to T) r' = if decide (r' = r) then list_remove p (list_at T r) else list_at T r'.
Proof.
  destruct r as [|w s]; unfold removed; cbn [LIST_REMOVE].
  - destruct r'; [by rewrite decide_True|]. by rewrite decide_False.
  - set (T1 := set_slot _ _ _ T). trans (list_at T1 r').
    + by case_bool_decide; destruct r'.
    + unfold T1. by rewrite list_at_set_slot.
Qed.
Lemma heap_removed r p to T : heap (removed r p to T) = <[p := detach to]> (heap T).
Proof. unfold removed. destruct r; cbn [LIST_REMOVE]; [done|]. by case_bool_decide. Qed.
Lemma curtime_removed r p to T : curtime (removed r p to T) = curtime T.
Proof. unfold removed. destruct r; cbn [LIST_REMOVE]; [done|]. by case_bool_decide. Qed.
Lemma bits_removed w s p to T :
  (forall v, 0 <= pend T v < 2 ^ 64 /\ forall i, 0 <= i < 64 -> Z.testbit (pend T v) i = true <-> slot_list T v i <> []) ->
  p ∈ slot_list T w s -> 0 <= s < 64 ->
  forall v, 0 <= pend (removed (Slot w s) p to T) v < 2 ^ 64 /\
  forall i, 0 <= i < 64 -> Z.testbit (pend (removed (Slot w s) p to T) v) i = true <-> slot_list (removed (Slot w s) p to T) v i <> [].
Proof.
  intros H5 Hin Hs v. destruct (H5 v) as [Hr Hbit].
  assert (slot_list (set_slot w s (list_remove p (slot_list T w s)) T) w s = list_remove p (slot_list T w s)) as E.
  { change (list_at (set_slot w s (list_remove p (slot_list T w s)) T) (Slot w s) = list_remove p (slot_list T w s)).
    by rewrite list_at_set_slot, decide_True. }
  assert (pend (removed (Slot w s) p to T) v =
    if decide (v = w /\ list_remove p (slot_list T w s) = []) then Z.ldiff (pend T v) (Z.shiftl 1 s) else pend T v) as Ep.
  { unfold removed. cbn [LIST_REMOVE]. rewrite E. case_bool_decide as Hl.
    - change (pend (set_heap _ (set_pend ?a ?b ?c)) v) with (pend (set_pend a b c) v). rewrite pend_set_pend.
      destruct (decide (v = w)) as [->|]; [by rewrite decide_True|by rewrite decide_False by tauto].
    - by rewrite decide_False by tauto. }
  rewrite Ep. split; [case_decide; [apply ldiff_range|]; lia|]. intros i Hi.
  change (slot_list (removed (Slot w s) p to T) v i) with (list_at (removed (Slot w s) p to T) (Slot v i)). rewrite list_at_removed. cbn [list_at].
  destruct (decide (Slot v i = Slot w s)) as [[= -> ->]|Hne].
  - destruct (decide (_ /\ _)) as [[_ Hl]|Hl].
    + rewrite Z.ldiff_spec, testbit_shiftl_1, bool_decide_eq_true_2, Hl, andb_false_r by (done || lia). done.
    + rewrite Hbit by done. split; [tauto|]. intros _ Hn. rewrite Hn in Hin. by apply elem_of_nil in Hin.
  - rewrite <- Hbit by done. destruct (decide (_ /\ _)) as [[-> _]|]; [|done].
    rewrite Z.ldiff_spec, testbit_shiftl_1, bool_decide_eq_false_2, andb_true_r by (congruence || lia). done.
Qed.

Lemma wf_remove T r p to : wf [] T -> heap T !! p = Some to -> to_pending to = Some r -> wf [] (removed r p to T).
Proof.
  intros [H1 H2 H3 [H4 H4'] H5 [H6 H7]] Hp Hpd.
  assert (p ∈ list_at T r) as Hin by (destruct (H2 p to r Hp Hpd) as [|H]; [done|by apply elem_of_nil in H]).
  assert (forall r' q, q ∈ list_at (removed r p to T) r' <-> q ∈ list_at T r' /\ q <> p) as Hl.
  { intros r' q. rewrite list_at_removed. destruct (decide (r' = r)) as [->|]; [apply elem_list_remove|]. split; [|tauto].
    intros Hq. split; [done|]. intros ->. destruct (H1 r' p Hq) as (? & ? & ? & _). congruence. }
  split.
  - intros r' q Hq. apply Hl in Hq as [Hq Hqp]. rewrite heap_removed, curtime_removed, lookup_insert_ne by done. by apply H1.
  - intros q tq r'. rewrite heap_removed. destruct (decide (q = p)) as [->|]; [rewrite lookup_insert_eq; by intros [= <-]|].
    rewrite lookup_insert_ne by done. intros Hq Hr. left. apply Hl. split; [|done].
    destruct (H2 q tq r' Hq Hr) as [|H]; [done|by apply elem_of_nil in H].
  - intros q Hq. by apply elem_of_nil in Hq.
  - split; [done|]. intros r'. rewrite list_at_removed. destruct (decide (r' = r)) as [->|]; [|done]. unfold list_remove. by apply list.NoDup_filter.
  - destruct r as [|w s]; [done|]. apply bits_removed; [done|done|].
    destruct (H1 _ _ Hin) as (to' & _ & _ & Hb). by apply placed_future in Hb as [_ ?].
  - rewrite curtime_removed. split; [done|]. intros q tq. rewrite heap_removed.
    destruct (decide (q = p)) as [->|]; [|rewrite lookup_insert_ne by done; apply H7].
    rewrite lookup_insert_eq. intros [= <-]. by apply (H7 p to).
Qed.

Definition detached (to : timeout) : timeout := match to_pending to with None => to | Some _ => detach to end.
Lemma del_spec T p to :
  wf [] T -> heap T !! p = Some to ->
  exists T', timeouts_del p T = Some T' /\ wf [] T' /\ heap T' = <[p := detached to]> (heap T) /\ curtime T' = curtime T.
Proof.
  intros Hwf Hp. unfold timeouts_del, detached. rewrite Hp. cbn [mbind option_bind]. destruct (to_pending to) as [r|] eqn:E.
  - exists (removed r p to T). split; [by destruct r|]. split; [by apply wf_remove|]. by rewrite heap_removed, curtime_removed.
  - exists T. split; [done|]. split; [done|]. split; [|done]. by rewrite insert_id.
Qed.

End TimerWheel.
