(* ===== verification/TimerSpec.v ===== *)
(** * What the timing wheel promises

    The abstract machine keeps every timer with its deadline.  [wheel_refines] is the
    refinement: every operation of the wheel, on every well-formed state, returns, and
    does to the timers what the abstract machine does. *)
From stdpp Require Import gmap.
From S2P Require Import Prelude TimerWheel.
Import TimerWheel.

Module TimerSpec.

(** ** The update *)

(** Moving the list of a slot to [todo]. *)
Definition moved (w s : Z) (T : timeouts) : timeouts :=
  let T := set_slot w s [] T in set_pend w (Z.ldiff (pend T w) (Z.shiftl 1 s)) T.
Lemma list_at_moved w s T r : list_at (moved w s T) r = if decide (r = Slot w s) then [] else list_at T r.
Proof. rewrite <- list_at_set_slot. by destruct r. Qed.
Lemma pend_moved w s T v : pend (moved w s T) v = if decide (v = w) then Z.ldiff (pend T w) (Z.shiftl 1 s) else pend T v.
Proof. unfold moved. rewrite pend_set_pend. by destruct (decide (v = w)) as [->|]. Qed.

Lemma wf_move L T w s : 0 <= s < 64 -> wf L T -> wf (L ++ slot_list T w s) (moved w s T).
Proof.
  intros Hs [H1 H2 H3 [H4 H4'] H5 H6].
  assert (forall r q, q ∈ list_at (moved w s T) r -> q ∈ list_at T r /\ r <> Slot w s) as Hl.
  { intros r q. rewrite list_at_moved. destruct (decide (r = Slot w s)); [|done]. intros H. by apply elem_of_nil in H. }
  split; [..|done].
  - intros r q Hq. apply Hl in Hq as [Hq _]. by apply H1.
  - intros q tq r Hq Hr. rewrite list_at_moved. destruct (H2 q tq r Hq Hr) as [Hin|Hin]; [|right; set_solver].
    destruct (decide (r = Slot w s)) as [->|]; [right; set_solver|by left].
  - intros q Hq. apply elem_of_app in Hq as [Hq|Hq].
    + destruct (H3 q Hq) as [Hex Hn]. split; [done|]. intros r Hin. apply Hl in Hin as [Hin _]. by apply (Hn r).
    + destruct (H1 (Slot w s) q Hq) as (tq & Hh & Hpd & _). split; [by exists tq, w, s|]. intros r Hin.
      apply Hl in Hin as [Hin Hne]. destruct (H1 r q Hin) as (tq' & Hh' & Hpd' & _). congruence.
  - split.
    + apply list.NoDup_app. split; [done|]. split; [|apply (H4' (Slot w s))]. intros q HL Hq. destruct (H3 q HL) as [_ Hn]. by apply (Hn (Slot w s)).
    + intros r. rewrite list_at_moved. destruct (decide (r = Slot w s)); [apply NoDup_nil_2|done].
  - intros v. destruct (H5 v) as [Hr Hb]. rewrite pend_moved. split; [destruct (decide (v = w)) as [->|]; [by apply ldiff_range; [|lia]|done]|].
    intros i Hi. change (slot_list (moved w s T) v i) with (list_at (moved w s T) (Slot v i)). rewrite list_at_moved. cbn [list_at].
    destruct (decide (v = w)) as [->|]; [|rewrite decide_False by congruence; by apply Hb].
    rewrite Z.ldiff_spec, testbit_shiftl_1 by lia. destruct (decide (i = s)) as [->|].
    + rewrite bool_decide_eq_true_2, andb_false_r, decide_True by done. done.
    + rewrite bool_decide_eq_false_2, andb_true_r, decide_False by congruence. by apply Hb.
Qed.

Lemma take_slots_spec fuel mask w T todo k :
  0 <= mask < 2 ^ 64 -> wf (concat todo) T -> 0 <= k <= 64 -> 65 - k <= Z.of_nat fuel -> zlen todo + 64 - k <= 256 ->
  (forall i, 0 <= i < k -> Z.testbit (Z.land mask (pend T w)) i = false) ->
  exists T' todo', take_slots fuel mask w T todo = Some (T', todo') /\ wf (concat todo') T' /\
  heap T' = heap T /\ curtime T' = curtime T /\ zlen todo' <= zlen todo + 64 - k /\
  (forall r p, p ∈ list_at T' r -> p ∈ list_at T r) /\ forall s p, p ∈ slot_list T' w s -> Z.testbit mask s = false.
Proof.
  revert T todo k. induction fuel as [|fuel IH]; intros T todo k Hm Hwf Hk Hf Hn Hlow; [lia|]. cbn [take_slots].
  destruct (wf_bits _ _ Hwf w) as [Hr Hb]. destruct (Z.eqb_spec (Z.land mask (pend T w)) 0) as [E|Hne].
  - exists T, todo. split_and!; try done; [lia|]. intros s p Hp. destruct (Z.testbit mask s) eqn:Es; [|done]. exfalso.
    destruct (wf_lists _ _ Hwf (Slot w s) p Hp) as (tp & _ & _ & Hpl). apply placed_future in Hpl as [_ Hs].
    apply (f_equal (fun z => Z.testbit z s)) in E. rewrite Z.land_spec, Z.bits_0, Es in E. cbn in E.
    assert (slot_list T w s <> []) as Hne by (intros Hnil; rewrite Hnil in Hp; by apply elem_of_nil in Hp). apply Hb in Hne; [congruence|lia].
  - assert (0 < Z.land mask (pend T w) < 2 ^ 64) as Hland.
    { assert (0 <= Z.land mask (pend T w)) by (apply Z.land_nonneg; lia). assert (Z.land mask (pend T w) < 2 ^ 64); [|lia].
      apply u64_bits_range; [|done]. intros i Hi. by rewrite Z.land_spec, testbit_high by lia. }
    destruct (ctz64_spec _ Hland) as (s & -> & Hs & Hbit & Hlow'). cbn [mbind option_bind].
    assert (k <= s) as Hks by (destruct (decide (s < k)); [rewrite Hlow in Hbit by lia; done|lia]).
    rewrite (proj2 (Z.leb_gt _ _)) by (unfold WHEEL_NUM, WHEEL_LEN; lia).
    change (set_pend w _ (set_slot w s [] T)) with (moved w s T).
    destruct (IH (moved w s T) (todo ++ [slot_list T w s]) (s + 1)) as (T' & todo' & He & Hwf' & Hh & Hc & Hl & Hin & Hmask); try lia.
    + rewrite concat_app. cbn [concat]. rewrite app_nil_r. by apply wf_move.
    + rewrite length_app. cbn [length]. lia.
    + intros i Hi. rewrite pend_moved, decide_True, Z.land_spec, Z.ldiff_spec, testbit_shiftl_1 by (done || lia).
      destruct (decide (i = s)) as [->|]; [by rewrite bool_decide_eq_true_2, !andb_false_r by done|].
      rewrite bool_decide_eq_false_2, andb_true_r, <- Z.land_spec by done. apply Hlow'. lia.
    + exists T', todo'. split; [done|]. split; [done|]. split; [done|]. split; [done|]. rewrite length_app in Hl. cbn [length] in Hl.
      split; [lia|]. split; [|done]. intros r p Hp. apply Hin in Hp. rewrite list_at_moved in Hp.
      destruct (decide (r = Slot w s)); [by apply elem_of_nil in Hp|done].
Qed.

Lemma placed_still old new w s e : level w old = level w new -> placed old w s e -> placed new w s e.
Proof.
  intros E (Hw & Hs & H1 & H2). split; [done|]. split; [done|]. split; [by rewrite <- E|].
  intros H3. rewrite H2 by done. apply (level_up w); [lia|done].
Qed.
Lemma placed_advance old new w s e :
  0 <= old <= new -> new < 2 ^ 64 -> placed old w s e -> Z.testbit (update_mask w old new) s = false -> placed new w s e.
Proof.
  intros Ho Hn (Hw & Hs & H1 & H2) Hm. destruct (update_mask_spec w old new) as (HM & _ & _); [done..|].
  assert (level w new < level w e) as Hlt.
  { destruct (decide (level w new < level w e)); [done|]. rewrite Hs, timeout_slot_level, HM in Hm by lia. done. }
  split; [done|]. split; [done|]. split; [done|]. intros H3. apply Z.le_antisymm.
  - rewrite H2 by done. apply level_mono; lia.
  - rewrite !level_succ by lia. apply Z.div_le_mono; lia.
Qed.

(** Every timer still on a slot after the loop over the wheels belongs there at the
    new time. *)
Lemma update_wheels_spec new n T todo :
  (n <= 4)%nat -> wf (concat todo) T -> curtime T <= new < 2 ^ 62 -> zlen todo <= 64 * (4 - Z.of_nat n) ->
  (forall w s p to, 0 <= w < 4 - Z.of_nat n -> p ∈ slot_list T w s -> heap T !! p = Some to -> placed new w s (expires to)) ->
  exists T' todo', update_wheels (seqZ (4 - Z.of_nat n) (Z.of_nat n)) new T todo = Some (T', todo') /\ wf (concat todo') T' /\
  heap T' = heap T /\ curtime T' = curtime T /\
  forall w s p to, p ∈ slot_list T' w s -> heap T !! p = Some to -> placed new w s (expires to).
Proof.
  revert T todo. induction n as [|n IH]; intros T todo Hn Hwf Hnew Hlen Hbelow.
  { exists T, todo. split_and!; try done. intros w s p to Hp Hto. apply (Hbelow w s p to); [|done..].
    destruct (wf_lists _ _ Hwf (Slot w s) p Hp) as (tp & _ & _ & Hpl). destruct Hpl. lia. }
  set (w0 := 4 - Z.of_nat (S n)). rewrite seqZ_cons by lia. cbn [update_wheels]. pose proof (wf_time _ _ Hwf) as [Ht _].
  destruct (update_mask_spec w0 (curtime T) new) as (HM1 & HM2 & HM3); [lia..|]. set (mask := update_mask w0 (curtime T) new) in *.
  destruct (take_slots_spec 65 mask w0 T todo 0) as (T1 & todo1 & -> & Hwf1 & Hh & Hc & Hl & Hin & Hmask); [done|done|lia..|].
  cbn [mbind option_bind].
  assert (forall w s p to, w = w0 -> p ∈ slot_list T1 w s -> heap T !! p = Some to -> placed new w s (expires to)) as Hw0.
  { intros w s p to -> Hp Hto. destruct (wf_lists _ _ Hwf (Slot w0 s) p (Hin (Slot w0 s) p Hp)) as (tp & Htp & _ & Hpl).
    rewrite Hto in Htp. injection Htp as <-. apply (placed_advance (curtime T)); [lia|lia|done|]. by apply (Hmask s p). }
  destruct (has mask 1) eqn:Em; cbn [negb].
  - replace (Z.succ w0) with (4 - Z.of_nat n) by lia. replace (Z.pred (Z.of_nat (S n))) with (Z.of_nat n) by lia.
    destruct (IH T1 todo1) as (T2 & todo2 & He & Hwf2 & Hh2 & Hc2 & Hall); [lia|done|lia|lia| |].
    + intros w s p to Hw Hp Hto. rewrite Hh in Hto. destruct (decide (w = w0)) as [->|]; [by apply (Hw0 w0 s p to)|].
      apply (Hbelow w s p to); [lia|by apply (Hin (Slot w s))|done].
    + exists T2, todo2. split; [done|]. split; [done|]. split; [congruence|]. split; [congruence|]. by rewrite Hh in Hall.
  - exists T1, todo1. split; [done|]. split; [done|]. split; [done|]. split; [done|]. intros w s p to Hp Hto.
    destruct (wf_lists _ _ Hwf (Slot w s) p (Hin (Slot w s) p Hp)) as (tp & Htp & _ & Hpl). rewrite Hto in Htp. injection Htp as <-.
    destruct (decide (w = w0)) as [->|]; [by apply (Hw0 w0 s p to)|]. destruct (decide (w < w0)).
    + apply (Hbelow w s p to); [destruct Hpl; lia|by apply (Hin (Slot w s))|done].
    + apply (placed_still (curtime T)); [|done]. apply (level_up (w0 + 1)); [lia|]. by apply HM2.
Qed.

Lemma wf_set_curtime L T new :
  wf L T -> curtime T <= new < 2 ^ 62 ->
  (forall w s p to, p ∈ slot_list T w s -> heap T !! p = Some to -> placed new w s (expires to)) -> wf L (set_curtime new T).
Proof.
  intros [H1 H2 H3 H4 H5 [H6 H7]] Hnew Hall. split; try done.
  - intros r p Hp. destruct (H1 r p Hp) as (to & Hh & Hpd & Hb). exists to. split; [done|]. split; [done|].
    destruct r as [|w s]; cbn in *; [lia|]. by apply (Hall w s p).
  - split; [cbn; lia|done].
Qed.

(** ** The abstract machine *)

Inductive phase := Idle | Waiting | Due.
#[export] Instance phase_eq_dec : EqDecision phase.
Proof. solve_decision. Defined.
Record timer := mkTimer { t_flags : Z; t_interval : Z; t_expires : Z; t_phase : phase }.
Definition phase_of (r : option list_ref) : phase :=
  match r with None => Idle | Some Expired => Due | Some (Slot _ _) => Waiting end.
Definition timer_view (to : timeout) : timer := mkTimer (flags to) (interval to) (expires to) (phase_of (to_pending to)).

(** A timer set to its deadline. *)
Definition arm (now : Z) (t : timer) : timer :=
  mkTimer (t_flags t) (t_interval t) (t_expires t) (if now <? t_expires t then Waiting else Due).
(** A waiting timer becomes due once the clock has reached its deadline. *)
Definition advance (now : Z) (t : timer) : timer := match t_phase t with Waiting => arm now t | _ => t end.

Lemma resched_spec L T :
  wf L T -> exists T', resched L T = Some T' /\ wf [] T' /\ curtime T' = curtime T /\
  forall p, timer_view <$> heap T' !! p = (if decide (p ∈ L) then arm (curtime T) ∘ timer_view else timer_view) <$> heap T !! p.
Proof.
  revert T. induction L as [|p L IH]; intros T Hwf.
  { exists T. split; [done|]. split; [done|]. split; [done|]. intros q. by rewrite decide_False by apply not_elem_of_nil. }
  cbn [resched]. destruct (wf_limbo _ _ Hwf p (list_elem_of_here _ _)) as [(to & w & s & Hp & Hpd) _].
  rewrite Hp. cbn [mbind option_bind]. pose proof (wf_pop L T p to Hwf Hp) as Hwf1. set (T1 := set_heap _ T) in *.
  pose proof (wf_nodup _ _ Hwf) as [Hnd _]. apply list.NoDup_cons in Hnd as [HpL _].
  destruct (sched_nopending L T1 p (with_pending None to)) as (r & -> & Hwf2 & Hr); [done|apply lookup_insert_eq|done|done|].
  cbn [mbind option_bind]. destruct (IH _ Hwf2) as (T' & -> & Hwf' & Hc & Hv). exists T'. split; [done|]. split; [done|].
  rewrite Hc, curtime_pushed. split; [done|]. intros q. rewrite Hv, curtime_pushed, heap_pushed. change (curtime T1) with (curtime T) in *.
  destruct (decide (q = p)) as [->|Hne].
  - rewrite lookup_insert_eq, Hp, decide_False, decide_True by (done || apply list_elem_of_here). cbn. f_equal. unfold timer_view, arm. cbn. f_equal.
    cbn in Hr. destruct (Z.ltb_spec (curtime T) (expires to)); destruct r; try done; exfalso; [assert (Expired = Expired) as E by done; apply Hr in E; lia|].
    destruct Hr as [_ Hr]. by specialize (Hr ltac:(lia)).
  - cbn. rewrite !lookup_insert_ne by done. destruct (decide (q ∈ L)) as [Hin|Hin].
    + by rewrite decide_True by by apply list_elem_of_further.
    + rewrite decide_False by (rewrite elem_of_cons; tauto). done.
Qed.

Lemma update_spec T new :
  wf [] T -> curtime T <= new < 2 ^ 62 ->
  exists T', timeouts_update new T = Some T' /\ wf [] T' /\ curtime T' = new /\
  timer_view <$> heap T' = (advance new <$> (timer_view <$> heap T)).
Proof.
  intros Hwf Hnew. unfold timeouts_update.
  destruct (update_wheels_spec new 4 T []) as (T1 & todo & He & Hwf1 & Hh & Hc & Hall); [lia|done|done|cbn; lia|intros; lia|].
  change (seqZ (4 - Z.of_nat 4) (Z.of_nat 4)) with [0; 1; 2; 3] in He. rewrite He. cbn [mbind option_bind].
  pose proof (wf_set_curtime _ _ new Hwf1 ltac:(by rewrite Hc) ltac:(by rewrite Hh)) as Hwf2.
  destruct (resched_spec _ _ Hwf2) as (T' & -> & Hwf' & Hc' & Hv). exists T'. split; [done|]. split; [done|]. split; [done|].
  apply map_eq. intros p. rewrite !lookup_fmap, Hv. cbn [set_curtime heap curtime]. rewrite Hh.
  destruct (heap T !! p) as [to|] eqn:Ep; [|done]. cbn. f_equal. unfold advance. cbn [t_phase timer_view].
  assert (heap T1 !! p = Some to) as Ep1 by (by rewrite Hh). destruct (decide (p ∈ concat todo)) as [Hin|Hin].
  - destruct (wf_limbo _ _ Hwf1 p Hin) as [(to' & w & s & Hp' & Hpd) _]. rewrite Ep1 in Hp'. injection Hp' as <-. by rewrite Hpd.
  - destruct (to_pending to) as [[|w s]|] eqn:Hpd; [done| |done]. cbn.
    destruct (wf_heap _ _ Hwf1 p to _ Ep1 Hpd) as [Hl|]; [|done]. pose proof (Hall w s p to Hl Ep) as Hpl.
    apply placed_future in Hpl as [Hpl _]. unfold arm, timer_view. cbn. rewrite (proj2 (Z.ltb_lt _ _)) by done. by rewrite Hpd.
Qed.

(** ** The time to sleep *)

(** The next populated slot of a wheel is no further than any of its timers. *)
Lemma next_slot T w :
  wf [] T -> 0 <= w -> pend T w <> 0 ->
  exists c, ctz64 (rotr64 (pend T w) (Z.land WHEEL_MASK (Z.shiftr (curtime T) (w * WHEEL_BIT)))) = Some c /\
  let k := c + (if Z.land (pend T w) (u64 (Z.shiftl 1 (Z.land WHEEL_MASK (Z.shiftr (curtime T) (w * WHEEL_BIT))))) =? 0 then 0 else 1) in
  0 < k <= 64 /\ forall s p to, p ∈ slot_list T w s -> heap T !! p = Some to -> level w (curtime T) + k <= level w (expires to).
Proof.
  intros Hwf Hw Hne. destruct (wf_bits _ _ Hwf w) as [Hr Hb]. fold (level w (curtime T)). unfold WHEEL_MASK. rewrite land_63'.
  set (a := level w (curtime T)). assert (0 <= a mod 64 < 64) as Ha by modlia.
  assert (forall i, 0 <= i < 64 -> Z.testbit (rotr64 (pend T w) (a mod 64)) i = Z.testbit (pend T w) ((i + a) mod 64)) as Hrot.
  { intros i Hi. rewrite rotr64_spec by done. f_equal. modlia. }
  assert (0 < rotr64 (pend T w) (a mod 64) < 2 ^ 64) as Hpos.
  { pose proof (rotr64_range (pend T w) (a mod 64) Hr). assert (rotr64 (pend T w) (a mod 64) <> 0); [|lia]. intros E.
    apply Hne. apply Z.bits_inj_0. intros i. destruct (decide (0 <= i < 64)).
    - replace i with (((i - a) mod 64 + a) mod 64) by modlia. rewrite <- Hrot by modlia. by rewrite E, Z.bits_0.
    - destruct (decide (i < 0)); [by apply Z.testbit_neg_r|]. apply testbit_high; [done|lia]. }
  destruct (ctz64_spec _ Hpos) as (c & -> & Hc & Hbit & Hlow). exists c. split; [done|]. cbn zeta.
  assert (Z.testbit (pend T w) (a mod 64) = negb (Z.land (pend T w) (u64 (Z.shiftl 1 (a mod 64))) =? 0)) as Hcur.
  { assert (forall i, Z.testbit (u64 (Z.shiftl 1 (a mod 64))) i = bool_decide (i = a mod 64)) as Hone.
    { intros i. rewrite <- testbit_shiftl_1 by lia. f_equal. apply u64_id. rewrite Z.shiftl_1_l. split; [apply Z.pow_nonneg; lia|apply Z.pow_lt_mono_r; lia]. }
    destruct (Z.eqb_spec (Z.land (pend T w) (u64 (Z.shiftl 1 (a mod 64)))) 0) as [E|E]; cbn [negb].
    - apply (f_equal (fun z => Z.testbit z (a mod 64))) in E. rewrite Z.land_spec, Z.bits_0, Hone, bool_decide_eq_true_2 in E by done.
      by rewrite andb_true_r in E.
    - apply not_false_iff_true. intros Hf. apply E. apply Z.bits_inj_0. intros i. rewrite Z.land_spec, Hone.
      case_bool_decide as Hi; [by rewrite Hi, Hf|apply andb_false_r]. }
  assert (forall s p to, p ∈ slot_list T w s -> heap T !! p = Some to ->
          a < level w (expires to) /\ Z.testbit (rotr64 (pend T w) (a mod 64)) ((level w (expires to) - a) mod 64) = true) as Htimer.
  { intros s p to Hp Hto. destruct (wf_lists _ _ Hwf (Slot w s) p Hp) as (to' & Hto' & _ & Hpl). rewrite Hto in Hto'. injection Hto' as <-.
    destruct (placed_future _ _ _ _ Hpl) as [_ Hs]. destruct Hpl as (_ & Es & Hlt & _). split; [done|]. rewrite Hrot by modlia.
    replace (((level w (expires to) - a) mod 64 + a) mod 64) with s by (rewrite Es, timeout_slot_level; modlia).
    apply Hb; [done|]. intros Hnil. rewrite Hnil in Hp. by apply elem_of_nil in Hp. }
  assert (c = 0 <-> Z.testbit (pend T w) (a mod 64) = true) as Hc0.
  { split; [intros ->|intros Ht].
    - rewrite Hrot in Hbit by lia. by rewrite Z.add_0_l in Hbit.
    - destruct (decide (c = 0)); [done|]. specialize (Hlow 0 ltac:(lia)). rewrite Hrot, Z.add_0_l in Hlow by lia. congruence. }
  destruct (Z.land (pend T w) _ =? 0); cbn [negb] in Hcur.
  - assert (c <> 0) by (intros E; apply Hc0 in E; congruence). split; [lia|]. intros s p to Hp Hto.
    destruct (Htimer s p to Hp Hto) as [Hlt Hset]. destruct (decide ((level w (expires to) - a) mod 64 < c)).
    + rewrite Hlow in Hset by modlia. done.
    + modlia.
  - apply Hc0 in Hcur as ->. split; [lia|]. intros s p to Hp Hto. destruct (Htimer s p to Hp Hto) as [Hlt _]. lia.
Qed.

Lemma int_loop_spec n T timeout :
  (n <= 4)%nat -> wf [] T -> 0 < timeout -> exists t,
  timeouts_int_loop (seqZ (4 - Z.of_nat n) (Z.of_nat n)) (2 ^ (6 * (4 - Z.of_nat n)) - 1) timeout T = Some t /\ 0 < t <= timeout /\
  (forall w s p to, 4 - Z.of_nat n <= w -> p ∈ slot_list T w s -> heap T !! p = Some to -> curtime T + t <= expires to) /\
  ((forall w, 4 - Z.of_nat n <= w < 4 -> pend T w = 0) -> t = timeout).
Proof.
  revert timeout. induction n as [|n IH]; intros timeout Hn Hwf Ht.
  { exists timeout. split; [done|]. split; [lia|]. split; [|done]. intros w s p to Hw Hp Hto.
    destruct (wf_lists _ _ Hwf (Slot w s) p Hp) as (tp & _ & _ & Hpl). destruct Hpl. lia. }
  set (w0 := 4 - Z.of_nat (S n)). rewrite seqZ_cons by lia. cbn [timeouts_int_loop].
  replace (Z.succ w0) with (4 - Z.of_nat n) by lia. replace (Z.pred (Z.of_nat (S n))) with (Z.of_nat n) by lia.
  replace (Z.lor (u64 (Z.shiftl (2 ^ (6 * w0) - 1) WHEEL_BIT)) WHEEL_MASK) with (2 ^ (6 * (4 - Z.of_nat n)) - 1)
    by (assert (n = 0 \/ n = 1 \/ n = 2 \/ n = 3)%nat as [->|[->|[->| ->]]] by lia; reflexivity).
  destruct (Z.eqb_spec (pend T w0) 0) as [E|Hne]; cbn [mbind option_bind].
  - destruct (IH timeout) as (t & -> & Hb & Hall & Heq); [lia|done|done|]. exists t. split; [done|]. split; [done|]. split.
    + intros w s p to Hw Hp Hto. destruct (decide (w = w0)) as [->|]; [|apply (Hall w s p to); [lia|done..]].
      destruct (wf_bits _ _ Hwf w0) as [_ Hbit]. destruct (wf_lists _ _ Hwf (Slot w0 s) p Hp) as (tp & _ & _ & Hpl).
      apply placed_future in Hpl as [_ Hs]. destruct (Hbit s Hs) as [_ Hbit']. rewrite E, Z.bits_0 in Hbit'. exfalso.
      discriminate Hbit'. intros Hnil. rewrite Hnil in Hp. by apply elem_of_nil in Hp.
    + intros Hz. apply Heq. intros w Hw. apply Hz. lia.
  - destruct (next_slot T w0 Hwf ltac:(lia) Hne) as (c & -> & Hk). cbn [mbind option_bind]. cbn zeta in Hk.
    set (k := c + _) in *. destruct Hk as [Hk Htimers].
    pose proof (wf_time _ _ Hwf) as [Hcur _]. replace (Z.land (2 ^ (6 * w0) - 1) (curtime T)) with (curtime T mod 2 ^ (6 * w0))
      by (rewrite Z.sub_1_r, <- Z.ones_equiv, Z.land_comm, Z.land_ones by lia; done).
    replace (Z.shiftl k (w0 * WHEEL_BIT)) with (k * 2 ^ (6 * w0)) by (unfold WHEEL_BIT; rewrite Z.shiftl_mul_pow2, (Z.mul_comm w0) by lia; done).
    set (B := 2 ^ (6 * w0)) in *. assert (0 < B <= 2 ^ 18) as HB by (unfold B; split; [apply Z.pow_pos_nonneg; lia|apply Z.pow_le_mono_r; lia]).
    pose proof (Z.mod_pos_bound (curtime T) B ltac:(lia)) as Hmod. pose proof (Z.div_mod (curtime T) B ltac:(lia)) as Hdm.
    assert (0 < k * B - curtime T mod B < 2 ^ 64) by nia. rewrite u64_id by lia.
    destruct (IH (Z.min (k * B - curtime T mod B) timeout)) as (t & He & Hb & Hall & Heq); [lia|done|lia|].
    exists t. split; [done|]. split; [lia|]. split.
    + intros w s p to Hw Hp Hto. destruct (decide (w = w0)) as [->|]; [|apply (Hall w s p to); [lia|done..]].
      specialize (Htimers s p to Hp Hto). rewrite !level_div in Htimers by lia. replace (w0 * 6) with (6 * w0) in Htimers by lia. fold B in Htimers.
      pose proof (Z.div_mod (expires to) B ltac:(lia)). pose proof (Z.mod_pos_bound (expires to) B ltac:(lia)). nia.
    + intros Hz. exfalso. apply Hne. apply Hz. lia.
Qed.

Lemma int_spec T : wf [] T -> exists t, timeouts_int T = Some t /\ 0 < t <= 2 ^ 64 - 1 /\
  (forall w s p to, p ∈ slot_list T w s -> heap T !! p = Some to -> curtime T + t <= expires to) /\
  ((forall w, pend T w = 0) -> t = 2 ^ 64 - 1).
Proof.
  intros Hwf. destruct (int_loop_spec 4 T (2 ^ 64 - 1)) as (t & He & Hb & Hall & Heq); [lia|done|lia|].
  exists t. split; [exact He|]. split; [done|]. split; [|by intros Hz; apply Heq].
  intros w s p to Hp Hto. apply (Hall w s p to); [|done..].
  destruct (wf_lists _ _ Hwf (Slot w s) p Hp) as (tp & _ & _ & Hpl). destruct Hpl. lia.
Qed.

(** ** Setting and collecting timers *)

Definition idle (t : timer) : timer := mkTimer (t_flags t) (t_interval t) (t_expires t) Idle.
Definition periodic (t : timer) : bool := has (t_flags t) TIMEOUT_INT && (0 <? t_interval t).
(** What [timeouts_add] makes of a timer. *)
Definition added (now d : Z) (t : timer) : timer :=
  arm now (mkTimer (t_flags t) (if has (t_flags t) TIMEOUT_INT then Z.max 1 d else t_interval t)
             (if has (t_flags t) TIMEOUT_ABS then d else now + d) Idle).
(** The first firing after [now] in step with the last one. *)
Definition next_firing (now : Z) (t : timer) (e : Z) : Prop :=
  exists k, 1 <= k /\ e = t_expires t + k * t_interval t /\ now < e /\ (k = 1 \/ e - t_interval t <= now).

Lemma sched_spec T p e to :
  wf [] T -> heap T !! p = Some to -> 0 <= e < 2 ^ 63 ->
  exists T', timeouts_sched p e T = Some T' /\ wf [] T' /\ curtime T' = curtime T /\
  timer_view <$> heap T' = <[p := arm (curtime T) (mkTimer (flags to) (interval to) e Idle)]> (timer_view <$> heap T).
Proof.
  intros Hwf Hp He. unfold timeouts_sched. destruct (del_spec T p to Hwf Hp) as (T1 & -> & Hwf1 & Hh & Hc). cbn [mbind option_bind].
  rewrite Hh, lookup_insert_eq. cbn [mbind option_bind]. rewrite <- Hh. set (to1 := detached to).
  assert (to_pending to1 = None /\ flags to1 = flags to /\ interval to1 = interval to) as (E1 & E2 & E3)
    by (unfold to1, detached; by destruct (to_pending to) eqn:E).
  set (to2 := mkTimeout _ _ _ _ _). assert (heap T1 !! p = Some to1) as Hp1 by (rewrite Hh; apply lookup_insert_eq).
  assert (wf [] (set_heap (<[p := to2]> (heap T1)) T1)) as Hwf2.
  { apply (wf_touch [] T1 p to1); [done|done|done| |by left]. split; [done|]. cbn. rewrite E3. by apply (proj2 (wf_time _ _ Hwf) p to). }
  destruct (sched_nopending [] _ p to2 Hwf2) as (r & -> & Hwf3 & Hr); [apply lookup_insert_eq|done|apply not_elem_of_nil|].
  eexists. split; [done|]. split; [done|]. rewrite curtime_pushed. cbn [set_heap curtime expires to2] in *. split; [done|].
  rewrite heap_pushed. cbn [set_heap heap]. rewrite insert_insert_eq, Hh, insert_insert_eq, fmap_insert. f_equal. unfold timer_view, arm, to2. cbn.
  rewrite E2, E3. f_equal. rewrite Hc in Hr. destruct (Z.ltb_spec (curtime T) e); destruct r; try done; exfalso.
  - assert (Expired = Expired) as E by done. apply Hr in E. lia.
  - destruct Hr as [_ Hr]. by specialize (Hr ltac:(lia)).
Qed.

Lemma add_spec T p d to :
  wf [] T -> heap T !! p = Some to -> 0 <= d < 2 ^ 62 ->
  exists T', timeouts_add p d T = Some T' /\ wf [] T' /\ curtime T' = curtime T /\
  timer_view <$> heap T' = <[p := added (curtime T) d (timer_view to)]> (timer_view <$> heap T).
Proof.
  intros Hwf Hp Hd. unfold timeouts_add. rewrite Hp. cbn [mbind option_bind]. pose proof (wf_time _ _ Hwf) as [Hcur Hin].
  set (to1 := if has (flags to) TIMEOUT_INT then mkTimeout (flags to) (expires to) (to_pending to) (Z.max 1 d) (attached to) else to).
  assert (exists T1, (if has (flags to) TIMEOUT_INT then set_heap (<[p := mkTimeout (flags to) (expires to) (to_pending to) (Z.max 1 d) (attached to)]>
    (heap T)) T else T) = T1 /\ wf [] T1 /\ heap T1 = <[p := to1]> (heap T) /\ curtime T1 = curtime T) as (T1 & -> & Hwf1 & Hh1 & Hc1).
  { eexists. split; [done|]. unfold to1. destruct (has (flags to) TIMEOUT_INT).
    - split; [|done]. apply (wf_touch [] T p to); [done..| |by right]. destruct (Hin p to Hp). split; cbn; lia.
    - split; [done|]. split; [by rewrite insert_id|done]. }
  assert (heap T1 !! p = Some to1) as Hp1 by (rewrite Hh1; apply lookup_insert_eq).
  set (e := if has (flags to) TIMEOUT_ABS then d else u64 (curtime T1 + d)).
  replace (if has (flags to) TIMEOUT_ABS then timeouts_sched p d T1 else timeouts_sched p (u64 (curtime T1 + d)) T1)
    with (timeouts_sched p e T1) by (unfold e; by destruct (has (flags to) TIMEOUT_ABS)).
  assert (e = if has (flags to) TIMEOUT_ABS then d else curtime T + d) as He
    by (unfold e; destruct (has (flags to) TIMEOUT_ABS); [done|rewrite Hc1; apply u64_id; lia]).
  destruct (sched_spec T1 p e to1 Hwf1 Hp1) as (T2 & -> & Hwf2 & Hc2 & Hh2); [rewrite He; destruct (has (flags to) TIMEOUT_ABS); lia|].
  exists T2. split; [done|]. split; [done|]. split; [congruence|]. rewrite Hh2, Hh1, fmap_insert, insert_insert_eq. f_equal.
  unfold added. cbn [t_flags t_interval timer_view]. rewrite Hc1, He. unfold to1. by destruct (has (flags to) TIMEOUT_INT).
Qed.

Lemma next_deadline c x i :
  0 <= c < 2 ^ 62 -> 0 <= x <= c -> 0 < i < 2 ^ 62 ->
  let e := u64 (x + i) in
  let e := if e <=? c then u64 (c + u64 (i - u64 (c - e) mod i)) else e in
  next_firing c (mkTimer 0 i x Idle) e /\ 0 <= e < 2 ^ 63.
Proof.
  intros Hc Hx Hi. cbn zeta. rewrite (u64_id (x + i)) by lia. destruct (Z.leb_spec (x + i) c) as [Hle|Hgt].
  - rewrite (u64_id (c - (x + i))) by lia. pose proof (Z.mod_pos_bound (c - (x + i)) i ltac:(lia)).
    pose proof (Z.div_mod (c - (x + i)) i ltac:(lia)) as E. pose proof (Z.div_pos (c - (x + i)) i ltac:(lia) ltac:(lia)).
    rewrite (u64_id (i - _)), u64_id by lia. split; [|lia]. exists ((c - (x + i)) / i + 2). cbn [t_expires t_interval]. split; [lia|]. nia.
  - split; [|lia]. exists 1. cbn [t_expires t_interval]. lia.
Qed.

Lemma get_spec T p l to :
  wf [] T -> expired T = p :: l -> heap T !! p = Some to ->
  exists T' t', timeouts_get T = Some (Some p, T') /\ wf [] T' /\ curtime T' = curtime T /\ to_pending to = Some Expired /\
  timer_view <$> heap T' = <[p := t']> (timer_view <$> heap T) /\
  if periodic (timer_view to) then exists e, t' = mkTimer (flags to) (interval to) e Waiting /\ next_firing (curtime T) (timer_view to) e
  else t' = idle (timer_view to).
Proof.
  intros Hwf Hl Hp. destruct (wf_lists _ _ Hwf Expired p) as (to' & Hp' & Hpd & Hb); [cbn; rewrite Hl; apply list_elem_of_here|].
  rewrite Hp in Hp'. injection Hp' as <-. cbn in Hb. pose proof (wf_remove T Expired p to Hwf Hp Hpd) as Hwf1.
  unfold timeouts_get. rewrite Hl. cbn [list_at] in *. rewrite Hp. cbn [mbind option_bind].
  change (set_heap (<[p := detach to]> (heap (LIST_REMOVE Expired p T))) (LIST_REMOVE Expired p T)) with (removed Expired p to T).
  unfold periodic. cbn [t_flags t_interval timer_view]. destruct (has (flags to) TIMEOUT_INT && (0 <? interval to)) eqn:Ep.
  - apply andb_true_iff in Ep as [_ Hi]. apply Z.ltb_lt in Hi. unfold timeouts_readd. rewrite heap_removed, lookup_insert_eq. cbn [mbind option_bind].
    rewrite curtime_removed. pose proof (wf_time _ _ Hwf) as [Hcur Hin]. destruct (Hin p to Hp) as [Hx Hi'].
    cbn [detach expires interval flags to_pending attached]. cbn zeta.
    destruct (next_deadline (curtime T) (expires to) (interval to)) as [Hnf He]; [lia..|]. cbn zeta in Hnf, He. set (e := if _ <=? _ then _ else _) in *.
    set (to1 := mkTimeout (flags to) e None (interval to) false).
    assert (wf [] (set_heap (<[p := to1]> (<[p := detach to]> (heap T))) (removed Expired p to T))) as Hwf2.
    { rewrite <- (heap_removed Expired p to T). apply (wf_touch [] _ p (detach to)); [done|rewrite heap_removed; apply lookup_insert_eq|done|done|by left]. }
    destruct (sched_future [] _ p to1 Hwf2) as (w & s & -> & Hwf3); [apply lookup_insert_eq|done|apply not_elem_of_nil| |].
    { destruct Hnf as (? & _ & _ & Hlt & _). exact Hlt. }
    eexists _, _. split; [done|]. split; [done|]. split; [by rewrite curtime_pushed|]. split; [done|]. split.
    + rewrite heap_pushed. cbn [set_heap heap]. rewrite !insert_insert_eq, fmap_insert. done.
    + exists e. split; [done|exact Hnf].
  - eexists _, _. split; [done|]. split; [done|]. split; [done|]. split; [done|]. split; [|done].
    by rewrite heap_removed, fmap_insert.
Qed.

(** ** The refinement *)

Record spec_state := mkSpec { now : Z; timers : gmap Z timer }.
Definition abs (T : timeouts) : spec_state := mkSpec (curtime T) (timer_view <$> heap T).

Inductive op := OpAdd (p d : Z) | OpDel (p : Z) | OpUpdate (t : Z) | OpGet | OpTimeout.
Inductive answer := NoAnswer | Fired (p : option Z) | SleepFor (t : Z).

Definition nothing_due (m : gmap Z timer) : Prop := forall p t, m !! p = Some t -> t_phase t <> Due.
(** How long the caller may sleep: not at all while a timer is due, else for a
    positive time that misses no deadline, for ever when none is set. *)
Definition sleep_bound (c : Z) (m : gmap Z timer) (d : Z) : Prop :=
  (~ nothing_due m /\ d = 0) \/
  (nothing_due m /\ 0 < d /\ (forall p t, m !! p = Some t -> t_phase t = Waiting -> c + d <= t_expires t) /\
   ((forall p t, m !! p = Some t -> t_phase t = Idle) -> d = 2 ^ 64 - 1)).

Inductive spec_step : op -> answer -> spec_state -> spec_state -> Prop :=
  | SpAdd c m p d t : m !! p = Some t -> spec_step (OpAdd p d) NoAnswer (mkSpec c m) (mkSpec c (<[p := added c d t]> m))
  | SpDel c m p t : m !! p = Some t -> spec_step (OpDel p) NoAnswer (mkSpec c m) (mkSpec c (<[p := idle t]> m))
  | SpUpdate c m c' : spec_step (OpUpdate c') NoAnswer (mkSpec c m) (mkSpec c' (advance c' <$> m))
  | SpNone c m : nothing_due m -> spec_step OpGet (Fired None) (mkSpec c m) (mkSpec c m)
  | SpOnce c m p t : m !! p = Some t -> t_phase t = Due -> periodic t = false ->
      spec_step OpGet (Fired (Some p)) (mkSpec c m) (mkSpec c (<[p := idle t]> m))
  | SpAgain c m p t e : m !! p = Some t -> t_phase t = Due -> periodic t = true -> next_firing c t e ->
      spec_step OpGet (Fired (Some p)) (mkSpec c m) (mkSpec c (<[p := mkTimer (t_flags t) (t_interval t) e Waiting]> m))
  | SpSleep c m d : sleep_bound c m d -> spec_step OpTimeout (SleepFor d) (mkSpec c m) (mkSpec c m).

Definition run_op (o : op) (T : timeouts) : option (answer * timeouts) :=
  match o with
  | OpAdd p d => T ← timeouts_add p d T; Some (NoAnswer, T)
  | OpDel p => T ← timeouts_del p T; Some (NoAnswer, T)
  | OpUpdate t => T ← timeouts_update t T; Some (NoAnswer, T)
  | OpGet => r ← timeouts_get T; Some (Fired r.1, r.2)
  | OpTimeout => t ← timeouts_timeout T; Some (SleepFor t, T)
  end.
(** The clock does not go back, times stay below 2^62 and timers exist. *)
Definition op_ok (o : op) (s : spec_state) : Prop :=
  match o with
  | OpAdd p d => is_Some (timers s !! p) /\ 0 <= d < 2 ^ 62
  | OpDel p => is_Some (timers s !! p)
  | OpUpdate t => now s <= t < 2 ^ 62
  | OpGet | OpTimeout => True
  end.

Lemma due_iff T p : wf [] T -> p ∈ expired T <-> exists t, timers (abs T) !! p = Some t /\ t_phase t = Due.
Proof.
  intros Hwf. cbn [abs timers]. rewrite lookup_fmap. split.
  - intros Hp. destruct (wf_lists _ _ Hwf Expired p Hp) as (to & Hh & Hpd & _). rewrite Hh. exists (timer_view to). split; [done|]. cbn. by rewrite Hpd.
  - intros (t & Hm & Hph). destruct (heap T !! p) as [to|] eqn:E; [|done]. injection Hm as <-. cbn in Hph.
    destruct (to_pending to) as [[|w s]|] eqn:Hpd; try done. destruct (wf_heap _ _ Hwf p to Expired E Hpd) as [|H]; [done|by apply elem_of_nil in H].
Qed.
Lemma waiting_iff T p t : wf [] T -> timers (abs T) !! p = Some t ->
  t_phase t = Waiting <-> exists w s to, p ∈ slot_list T w s /\ heap T !! p = Some to /\ t = timer_view to.
Proof.
  intros Hwf. cbn [abs timers]. rewrite lookup_fmap. intros Hm. destruct (heap T !! p) as [to|] eqn:E; [|done]. injection Hm as <-. cbn. split.
  - destruct (to_pending to) as [[|w s]|] eqn:Hpd; try done. intros _. exists w, s, to. split; [|done].
    destruct (wf_heap _ _ Hwf p to _ E Hpd) as [|H]; [done|by apply elem_of_nil in H].
  - intros (w & s & to' & Hp & [= <-] & _). destruct (wf_lists _ _ Hwf (Slot w s) p Hp) as (to' & Hh & Hpd & _).
    rewrite E in Hh. injection Hh as <-. by rewrite Hpd.
Qed.
Lemma expired_nil T : wf [] T -> expired T = [] <-> nothing_due (timers (abs T)).
Proof.
  intros Hwf. split.
  - intros He p t Hm Hph. assert (p ∈ expired T) as Hin by (apply due_iff; eauto). rewrite He in Hin. by apply elem_of_nil in Hin.
  - intros Hn. destruct (expired T) as [|p l] eqn:E; [done|]. exfalso.
    assert (p ∈ expired T) as Hin by (rewrite E; apply list_elem_of_here). apply due_iff in Hin as (t & Hm & Hph); [|done]. by apply (Hn p t).
Qed.

Lemma timeout_spec T : wf [] T -> exists d, timeouts_timeout T = Some d /\ sleep_bound (curtime T) (timers (abs T)) d.
Proof.
  intros Hwf. unfold timeouts_timeout, timeouts_expired. pose proof (expired_nil T Hwf) as He. case_bool_decide as E; cbn [negb].
  - destruct (int_spec T Hwf) as (d & -> & Hd & Hall & Hmax). exists d. split; [done|]. right. split; [by apply He|]. split; [lia|]. split.
    + intros p t Hm Hph. apply (waiting_iff T p t Hwf Hm) in Hph as (w & s & to & Hp & Hh & ->). by apply (Hall w s p).
    + intros Hidle. apply Hmax. intros w. destruct (wf_bits _ _ Hwf w) as [Hr Hb]. apply Z.bits_inj_0. intros i.
      destruct (decide (0 <= i < 64)) as [Hi|]; [|destruct (decide (i < 0)); [by apply Z.testbit_neg_r|apply testbit_high; [done|lia]]].
      apply not_true_iff_false. rewrite Hb by done. intros Hne. destruct (slot_list T w i) as [|p l] eqn:El; [done|].
      assert (p ∈ slot_list T w i) as Hp by (rewrite El; apply list_elem_of_here).
      destruct (wf_lists _ _ Hwf (Slot w i) p Hp) as (to & Hh & Hpd & _).
      specialize (Hidle p (timer_view to)). cbn [abs timers] in Hidle. rewrite lookup_fmap, Hh in Hidle. specialize (Hidle eq_refl). cbn in Hidle. by rewrite Hpd in Hidle.
  - exists 0. split; [done|]. left. split; [|done]. by rewrite <- He.
Qed.

(** Each operation, from a well-formed wheel. *)
Lemma step_refines T o :
  wf [] T -> op_ok o (abs T) ->
  exists a T', run_op o T = Some (a, T') /\ wf [] T' /\ spec_step o a (abs T) (abs T').
Proof.
  intros Hwf Hok. destruct o as [p d|p|t| |]; cbn [op_ok abs timers now run_op] in *.
  - destruct Hok as [[x Hx] Hd]. rewrite lookup_fmap in Hx. destruct (heap T !! p) as [to|] eqn:Hp; [|done].
    destruct (add_spec T p d to Hwf Hp Hd) as (T' & -> & Hwf' & Hc & Hv). exists NoAnswer, T'. split; [done|]. split; [done|].
    unfold abs. rewrite Hc, Hv. apply SpAdd. by rewrite lookup_fmap, Hp.
  - destruct Hok as [x Hx]. rewrite lookup_fmap in Hx. destruct (heap T !! p) as [to|] eqn:Hp; [|done].
    destruct (del_spec T p to Hwf Hp) as (T' & -> & Hwf' & Hh & Hc). exists NoAnswer, T'. split; [done|]. split; [done|].
    unfold abs. rewrite Hc, Hh, fmap_insert. replace (timer_view (detached to)) with (idle (timer_view to))
      by (unfold detached, idle, timer_view; by destruct (to_pending to) eqn:E; cbn; rewrite ?E).
    apply SpDel. by rewrite lookup_fmap, Hp.
  - destruct (update_spec T t Hwf Hok) as (T' & -> & Hwf' & Hc & Hv). exists NoAnswer, T'. split; [done|]. split; [done|].
    unfold abs. rewrite Hc, Hv. apply SpUpdate.
  - destruct (expired T) as [|p l] eqn:El.
    + unfold timeouts_get. rewrite El. exists (Fired None), T. split; [done|]. split; [done|]. apply SpNone. by apply expired_nil.
    + destruct (wf_lists _ _ Hwf Expired p) as (to & Hp & _); [cbn; rewrite El; apply list_elem_of_here|].
      destruct (get_spec T p l to Hwf El Hp) as (T' & t' & -> & Hwf' & Hc & Hpd & Hv & Ht). exists (Fired (Some p)), T'. split; [done|]. split; [done|].
      assert ((timer_view <$> heap T) !! p = Some (timer_view to)) as Hm by (by rewrite lookup_fmap, Hp).
      assert (t_phase (timer_view to) = Due) as Hph by (cbn; by rewrite Hpd). unfold abs. rewrite Hc, Hv.
      destruct (periodic (timer_view to)) eqn:Eper; [|rewrite Ht; by apply (SpOnce _ _ p (timer_view to))].
      destruct Ht as (e & -> & Hnf). exact (SpAgain _ _ p (timer_view to) e Hm Hph Eper Hnf).
  - destruct (timeout_spec T Hwf) as (d & -> & Hd). exists (SleepFor d), T. split; [done|]. split; [done|]. by apply SpSleep.
Qed.

(** Sequences of operations. *)
Fixpoint run_ops (os : list op) (T : timeouts) : option (list answer * timeouts) :=
  match os with
  | [] => Some ([], T)
  | o :: os => r ← run_op o T; r' ← run_ops os r.2; Some (r.1 :: r'.1, r'.2)
  end.
Inductive spec_run : list op -> list answer -> spec_state -> spec_state -> Prop :=
  | SrNil s : spec_run [] [] s s
  | SrCons o os a ans s s' s'' : spec_step o a s s' -> spec_run os ans s' s'' -> spec_run (o :: os) (a :: ans) s s''.
(** The clock does not go back, times stay below 2^62, and the timers are those of [h]. *)
Fixpoint ops_ok (h : gmap Z timeout) (c : Z) (os : list op) : Prop :=
  match os with
  | [] => True
  | o :: os =>
      match o with
      | OpAdd p d => is_Some (h !! p) /\ 0 <= d < 2 ^ 62 /\ ops_ok h c os
      | OpDel p => is_Some (h !! p) /\ ops_ok h c os
      | OpUpdate t => c <= t < 2 ^ 62 /\ ops_ok h t os
      | OpGet | OpTimeout => ops_ok h c os
      end
  end.
(** Timers fresh from [timeout_init]. *)
Definition fresh_timers (h : gmap Z timeout) : Prop := forall p to, h !! p = Some to -> exists fl, to = timeout_init fl.

Lemma init_wf h hz : fresh_timers h -> wf [] (timeouts_init h hz).
Proof.
  intros Hh. assert (forall r, list_at (timeouts_init h hz) r = []) as Hl.
  { intros [|w s]; [done|]. cbn [list_at]. unfold slot_list. cbn. by rewrite lookup_empty. }
  split.
  - intros r p. rewrite Hl. intros Hp. by apply elem_of_nil in Hp.
  - intros p to r Hp Hr. destruct (Hh p to Hp) as [fl ->]. done.
  - intros p Hp. by apply elem_of_nil in Hp.
  - split; [apply NoDup_nil_2|]. intros r. rewrite Hl. apply NoDup_nil_2.
  - intros w. replace (pend (timeouts_init h hz) w) with 0 by (unfold pend; cbn; by rewrite lookup_empty). split; [lia|].
    intros s Hs. rewrite Z.bits_0. specialize (Hl (Slot w s)). cbn [list_at] in Hl. by rewrite Hl.
  - split; [cbn; lia|]. intros p to Hp. destruct (Hh p to Hp) as [fl ->]. split; cbn; lia.
Qed.

Lemma spec_step_dom o a s s' : spec_step o a s s' ->
  dom (timers s') = dom (timers s) /\ now s' = match o with OpUpdate t => t | _ => now s end.
Proof.
  assert (forall (m : gmap Z timer) p t t', m !! p = Some t -> dom (<[p := t']> m) = dom m) as Hd.
  { intros m p t t' Hp. apply dom_insert_lookup_L. by eexists. }
  destruct 1; cbn; (split; [|done]); eauto. by rewrite dom_fmap_L.
Qed.

Lemma ops_refine os T h :
  wf [] T -> dom h = dom (heap T) -> ops_ok h (curtime T) os ->
  exists ans T', run_ops os T = Some (ans, T') /\ wf [] T' /\ spec_run os ans (abs T) (abs T').
Proof.
  revert T. induction os as [|o os IH]; intros T Hwf Hdom Hok.
  { exists [], T. split; [done|]. split; [done|]. constructor. }
  assert (forall p, is_Some (h !! p) -> is_Some (timers (abs T) !! p)) as Hin.
  { intros p Hp. cbn. rewrite lookup_fmap, fmap_is_Some. apply elem_of_dom. rewrite <- Hdom. by apply elem_of_dom. }
  assert (op_ok o (abs T) /\ ops_ok h (match o with OpUpdate t => t | _ => curtime T end) os) as [Ho Hos].
  { cbn [ops_ok] in Hok. destruct o; cbn [op_ok now abs]; naive_solver. }
  destruct (step_refines T o Hwf Ho) as (a & T1 & Hr & Hwf1 & Hs). pose proof (spec_step_dom _ _ _ _ Hs) as [Hd Hn].
  cbn [abs timers now] in Hd, Hn. rewrite !dom_fmap_L in Hd.
  destruct (IH T1 Hwf1) as (ans & T' & Hrs & Hwf' & Hss); [congruence|by rewrite Hn|].
  exists (a :: ans), T'. cbn [run_ops]. rewrite Hr. cbn [mbind option_bind snd fst]. rewrite Hrs. cbn. split; [done|]. split; [done|]. by econstructor.
Qed.

(** C6.  The timing wheel implements exact timers.  On fresh timers every
    sequence of operations returns, and its answers and the state it leaves are a run
    of the abstract machine: an update makes due exactly the waiting timers whose
    deadline has been reached, [timeouts_get] hands out a due timer and sets a periodic
    one to its first firing after now in step with the last, and [timeouts_timeout]
    never passes a deadline and is positive unless a timer is due. *)
Theorem wheel_refines h hz os :
  fresh_timers h -> ops_ok h 0 os ->
  exists ans T', run_ops os (timeouts_init h hz) = Some (ans, T') /\ spec_run os ans (abs (timeouts_init h hz)) (abs T').
Proof.
  intros Hh Hok. destruct (ops_refine os (timeouts_init h hz) h) as (ans & T' & Hr & _ & Hs); [by apply init_wf|done|done|]. eauto.
Qed.

Definition example_timers : gmap Z timeout := {[ 1 := timeout_init TIMEOUT_ABS; 2 := timeout_init TIMEOUT_INT ]}.
Definition example_ops : list op :=
  [OpUpdate 1000; OpAdd 1 20000000; OpAdd 2 300; OpTimeout; OpUpdate 1299; OpGet; OpUpdate 1950; OpGet; OpGet; OpTimeout;
   OpDel 2; OpUpdate 19999999; OpTimeout; OpUpdate 20000000; OpGet; OpTimeout].
Lemma example_fresh : fresh_timers example_timers.
Proof.
  unfold example_timers. intros p to Hp. apply lookup_insert_Some in Hp as [[_ <-]|[_ Hp]]; [by eexists|]. apply lookup_singleton_Some in Hp as [_ <-]. by eexists.
Qed.
Lemma example_ok : ops_ok example_timers 0 example_ops.
Proof. cbn. split_and!; try lia; try done; by eexists. Qed.

Lemma wheel_refines_witness :
  exists T', run_ops example_ops (timeouts_init example_timers 0)
    = Some ([NoAnswer; NoAnswer; NoAnswer; SleepFor 280; NoAnswer; Fired None; NoAnswer; Fired (Some 2); Fired None; SleepFor 226;
             NoAnswer; NoAnswer; SleepFor 1; NoAnswer; Fired (Some 1); SleepFor (2 ^ 64 - 1)], T').
Proof.
  destruct (wheel_refines example_timers 0 example_ops example_fresh example_ok) as (ans & T' & Hr & _). exists T'. rewrite Hr. do 2 f_equal.
  assert (ans = default [] (fst <$> run_ops example_ops (timeouts_init example_timers 0))) as -> by (by rewrite Hr). by vm_compute.
Defined.

(** ** The self-check *)

Lemma in_slots w s : (w, s) ∈ slots_in_order <-> 0 <= w < 4 /\ 0 <= s < 64.
Proof.
  unfold slots_in_order. rewrite list_elem_of_bind. setoid_rewrite list_elem_of_bind. setoid_rewrite elem_of_seqZ.
  setoid_rewrite list_elem_of_singleton. split.
  - intros (w' & (s' & [= -> ->] & Hs) & Hw). lia.
  - intros [Hw Hs]. exists w. split; [|lia]. exists s. split; [done|lia].
Qed.
Lemma elem_all_slots T p : wf [] T ->
  p ∈ concat ((fun ws => slot_list T ws.1 ws.2) <$> slots_in_order) <-> exists w s, p ∈ slot_list T w s.
Proof.
  intros Hwf. rewrite list_elem_of_In, in_concat. setoid_rewrite <- list_elem_of_In. setoid_rewrite list_elem_of_fmap. split.
  - intros (l & ([w s] & -> & _) & Hp). by exists w, s.
  - intros (w & s & Hp). exists (slot_list T w s). split; [|done]. exists (w, s). split; [done|]. apply in_slots.
    destruct (wf_lists _ _ Hwf (Slot w s) p Hp) as (to & _ & _ & Hpl). destruct (placed_future _ _ _ _ Hpl) as [_ Hs]. destruct Hpl. done.
Qed.

Lemma min_fold T l acc :
  (forall p, p ∈ l \/ acc = Some p -> is_Some (heap T !! p)) ->
  exists r, foldl (fun acc p => min ← acc; to ← heap T !! p;
      match min with None => Some (Some p) | Some q => tq ← heap T !! q; Some (if expires to <? expires tq then Some p else min) end) (Some acc) l = Some r /\
  match r with Some p => p ∈ l \/ acc = Some p | None => l = [] /\ acc = None end.
Proof.
  revert acc. induction l as [|p l IH]; intros acc Hin; cbn [foldl].
  { exists acc. split; [done|]. destruct acc; [by right|done]. }
  destruct (Hin p ltac:(left; apply list_elem_of_here)) as [to Hto]. cbn [mbind option_bind]. rewrite Hto. cbn [mbind option_bind].
  assert (forall acc', (acc' = Some p \/ acc' = acc /\ acc <> None) -> exists r,
    foldl (fun acc p => min ← acc; to ← heap T !! p; match min with None => Some (Some p) | Some q => tq ← heap T !! q;
      Some (if expires to <? expires tq then Some p else min) end) (Some acc') l = Some r /\
    match r with Some q => q ∈ p :: l \/ acc = Some q | None => p :: l = [] /\ acc = None end) as Hnext.
  { intros acc' Hacc. destruct (IH acc') as (r & Hr & Hm).
    - intros q [Hq| ->]; [apply Hin; left; by apply list_elem_of_further|]. destruct Hacc as [[= ->]|[<- _]]; [by eexists|]. apply Hin. by right.
    - exists r. split; [exact Hr|]. destruct r as [q|].
      + destruct Hm as [Hm| ->]; [left; by apply list_elem_of_further|]. destruct Hacc as [[= ->]|[<- _]]; [left; apply list_elem_of_here|by right].
      + destruct Hm as [-> ->]. exfalso. destruct Hacc as [?|[<- ?]]; done. }
  destruct acc as [q|]; [|apply Hnext; by left].
  destruct (Hin q ltac:(by right)) as [tq Htq]. rewrite Htq. cbn [mbind option_bind]. apply Hnext.
  destruct (expires to <? expires tq); [by left|by right].
Qed.

(** The library's own consistency check holds in every state the operations reach. *)
Theorem self_check_passes h hz os ans T :
  fresh_timers h -> ops_ok h 0 os -> run_ops os (timeouts_init h hz) = Some (ans, T) -> timeouts_check T = Some true.
Proof.
  intros Hh Hok Hr. destruct (ops_refine os (timeouts_init h hz) h) as (ans' & T' & Hr' & Hwf & _); [by apply init_wf|done|done|].
  rewrite Hr in Hr'. injection Hr' as <- <-. unfold timeouts_check, timeouts_min.
  destruct (min_fold T (concat ((fun ws => slot_list T ws.1 ws.2) <$> slots_in_order)) None) as (r & -> & Hm).
  { intros p [Hp|]; [|done]. apply elem_all_slots in Hp as (w & s & Hp); [|done].
    destruct (wf_lists _ _ Hwf (Slot w s) p Hp) as (to & -> & _). by eexists. }
  cbn [mbind option_bind]. destruct (int_spec T Hwf) as (t & Hint & Ht & Hall & Hmax). unfold timeouts_timeout.
  destruct r as [p|].
  - destruct Hm as [Hm|]; [|done]. apply elem_all_slots in Hm as (w & s & Hp); [|done].
    destruct (wf_lists _ _ Hwf (Slot w s) p Hp) as (to & Hto & _ & _). rewrite Hto. cbn [mbind option_bind]. rewrite Hint. cbn [mbind option_bind].
    specialize (Hall w s p to Hp Hto). pose proof (wf_time _ _ Hwf) as [Hc Hin]. destruct (Hin p to Hto) as [He _]. rewrite u64_id by lia.
    rewrite (proj2 (Z.ltb_lt _ _)) by lia. rewrite (proj2 (Z.leb_le t _)) by lia.
    destruct (timeouts_expired T); cbn [mbind option_bind andb]; by rewrite (proj2 (Z.leb_le _ _)) by lia.
  - destruct Hm as [Hm _]. destruct (timeouts_expired T); [done|]. rewrite Hint. cbn [mbind option_bind]. rewrite Hmax; [done|]. intros w.
    destruct (wf_bits _ _ Hwf w) as [Hrange Hb]. apply Z.bits_inj_0. intros i.
    destruct (decide (0 <= i < 64)) as [Hi|]; [|destruct (decide (i < 0)); [by apply Z.testbit_neg_r|apply testbit_high; [done|lia]]].
    apply not_true_iff_false. rewrite Hb by done. intros Hne. destruct (slot_list T w i) as [|p l] eqn:El; [done|].
    assert (p ∈ concat ((fun ws => slot_list T ws.1 ws.2) <$> slots_in_order)) as Hp.
    { apply elem_all_slots; [done|]. exists w, i. rewrite El. apply list_elem_of_here. }
    rewrite Hm in Hp. by apply elem_of_nil in Hp.
Qed.

Lemma self_check_passes_witness :
  match run_ops example_ops (timeouts_init example_timers 0) with Some (_, T) => timeouts_check T = Some true | None => False end.
Proof.
  destruct (run_ops example_ops (timeouts_init example_timers 0)) as [[ans T]|] eqn:E.
  - exact (self_check_passes example_timers 0 example_ops ans T example_fresh example_ok E).
  - vm_compute in E. discriminate E.
Defined.

End TimerSpec.
