(* ===== verification/MessageLoop.v ===== *)
(** * Message loops (base/message_loop/message_loop.{h,cc})

    Tasks posted by other threads go to a concurrent queue; the poster wakes the loop
    through an event descriptor, which [notify_flag_] keeps from being written more than
    once per wake-up.  Tasks posted on the loop itself go to [in_loop_tasks_].  The
    threads interleave at their accesses to shared state, in a sequentially consistent
    memory: a poster is between two statements of [PostTask] and [WakeUpIfNeeded], the
    loop between two statements of [ThreadMain] and the handlers it calls.

    The concurrent queue and what the tasks do are parameters. *)
From stdpp Require Import gmap.
From S2P Require Import Prelude.

Module MessageLoop.

(** ** The concurrent queue

    What [PostTask] and [RunScheduledTask] use of [ConcurrentTaskQueue]: elements of one
    producer come out in the order they went in, and a [try_dequeue] fails when every
    producer's stream appeared empty at the time it was checked.  The streams are not
    checked at one time, and other threads enqueue meanwhile; so [try_dequeue] is a
    function of the queue when the call starts and of the queue when it returns, and
    its failure says something about the former only.  The loop is the only consumer. *)
Class TaskQueue (Q : Type) := {
  queue_new : Q;
  enqueue : Z -> Z -> Q -> Q;                    (* producer, task *)
  try_dequeue : Q -> Q -> option (Z * Z * Q);
}.
Class TaskQueueLaws (Q : Type) `{!TaskQueue Q} := {
  contents : Q -> list (Z * Z);
  contents_new : contents queue_new = [];
  contents_enqueue i t q : contents (enqueue i t q) = contents q ++ [(i, t)];
  try_dequeue_None q0 q : contents q0 `prefix_of` contents q -> try_dequeue q0 q = None -> contents q0 = [];
  try_dequeue_Some q0 q i t q' : contents q0 `prefix_of` contents q -> try_dequeue q0 q = Some (i, t, q') ->
    exists l1 l2, contents q = l1 ++ (i, t) :: l2 /\ contents q' = l1 ++ l2 /\ forall u, (i, u) ∉ l1;
}.

(** ** Threads *)

(** A thread inside [PostTask]: past the [CHECK], past [enqueue], after it has set
    [notify_flag_], after a failed write. *)
Inductive poster := Checked (task : Z) | Enqueued | FlagSet | WriteFailed.
#[export] Instance poster_eq_dec : EqDecision poster.
Proof. solve_decision. Defined.

Inductive fired := TaskEvent | WakeupEvent.
(** The loop's thread: at [while (running_)], in [Pump], with events to handle, after
    reading the event descriptor, in [RunScheduledTask] before and inside [try_dequeue],
    in [RunNestedTask], and in the same after the loop. *)
Inductive loop_pc {Q : Type} :=
  | AtWhile | Waiting
  | Handling (evs : list fired) | Clearing (evs : list fired)
  | Draining (evs : list fired) | Dequeuing (evs : list fired) (q0 : Q)
  | Nested (tasks : list Z)
  | LastNested (tasks : list Z) | LastDrain | LastDequeuing (q0 : Q) | Ended.
Arguments loop_pc : clear implicits.

(** What a task does to its own loop. *)
Inductive action := Post (task : Z) | Quit.

Section loop.
Context {Q : Type} `{!TaskQueue Q}.
Variable does : Z -> list action.

Record MessageLoop := mkLoop {
  running_ : bool;
  notify_flag_ : bool;
  task_fd : Z;                      (* the counter of [task_event_] *)
  wakeup_pipe : nat;                (* bytes in the pipe of [wakeup_event_] *)
  scheduled_tasks_ : Q;
  in_loop_tasks_ : list Z;
  posters : gmap Z poster;          (* the threads inside [PostTask] *)
  pc : loop_pc Q;
  posted : list (Z * Z);            (* enqueued so far, with the thread *)
  ran : list (Z * Z);               (* dequeued and run *)
  posted_in_loop : list Z;
  ran_in_loop : list Z;
}.

(** A loop whose thread has reached the [while]. *)
Definition MessageLoop_new : MessageLoop := mkLoop true false 0 0 queue_new [] ∅ AtWhile [] [] [] [].

Definition set_pc (p : loop_pc Q) (m : MessageLoop) : MessageLoop :=
  mkLoop (running_ m) (notify_flag_ m) (task_fd m) (wakeup_pipe m) (scheduled_tasks_ m) (in_loop_tasks_ m) (posters m) p
    (posted m) (ran m) (posted_in_loop m) (ran_in_loop m).
Definition set_poster (i : Z) (p : option poster) (m : MessageLoop) : MessageLoop :=
  mkLoop (running_ m) (notify_flag_ m) (task_fd m) (wakeup_pipe m) (scheduled_tasks_ m) (in_loop_tasks_ m)
    (match p with Some p => <[i := p]> (posters m) | None => delete i (posters m) end) (pc m) (posted m) (ran m) (posted_in_loop m) (ran_in_loop m).
Definition set_flag (b : bool) (m : MessageLoop) : MessageLoop :=
  mkLoop (running_ m) b (task_fd m) (wakeup_pipe m) (scheduled_tasks_ m) (in_loop_tasks_ m) (posters m) (pc m)
    (posted m) (ran m) (posted_in_loop m) (ran_in_loop m).
Definition set_task_fd (n : Z) (m : MessageLoop) : MessageLoop :=
  mkLoop (running_ m) (notify_flag_ m) n (wakeup_pipe m) (scheduled_tasks_ m) (in_loop_tasks_ m) (posters m) (pc m)
    (posted m) (ran m) (posted_in_loop m) (ran_in_loop m).
Definition set_pipe (n : nat) (m : MessageLoop) : MessageLoop :=
  mkLoop (running_ m) (notify_flag_ m) (task_fd m) n (scheduled_tasks_ m) (in_loop_tasks_ m) (posters m) (pc m)
    (posted m) (ran m) (posted_in_loop m) (ran_in_loop m).
Definition QuitLoop (m : MessageLoop) : MessageLoop :=
  mkLoop false (notify_flag_ m) (task_fd m) (wakeup_pipe m) (scheduled_tasks_ m) (in_loop_tasks_ m) (posters m) (pc m)
    (posted m) (ran m) (posted_in_loop m) (ran_in_loop m).

(** [PostTask] on the loop's own thread. *)
Definition PostTask_in_loop (t : Z) (m : MessageLoop) : option MessageLoop :=
  if running_ m then
    Some (mkLoop (running_ m) (notify_flag_ m) (task_fd m) (wakeup_pipe m) (scheduled_tasks_ m) (in_loop_tasks_ m ++ [t]) (posters m) (pc m)
            (posted m) (ran m) (posted_in_loop m ++ [t]) (ran_in_loop m))
  else None.
Fixpoint run_actions (acts : list action) (m : MessageLoop) : option MessageLoop :=
  match acts with
  | [] => Some m
  | Post t :: acts => m ← PostTask_in_loop t m; run_actions acts m
  | Quit :: acts => run_actions acts (QuitLoop m)
  end.

(** ** [PostTask] and [WakeUpIfNeeded] on another thread, statement by statement *)

(** The largest counter of an event descriptor. *)
Definition kEventFdMax : Z := 2 ^ 64 - 2.
Definition PostTask_check (i t : Z) (m : MessageLoop) : option MessageLoop :=
  match posters m !! i with
  | Some _ => None
  | None => if running_ m then Some (set_poster i (Some (Checked t)) m) else None
  end.
(** [enqueue] returns false when it cannot allocate; [PostTask] goes on all the same. *)
Definition PostTask_enqueue (i : Z) (result : bool) (m : MessageLoop) : option MessageLoop :=
  match posters m !! i with
  | Some (Checked t) =>
      if negb result then Some (set_poster i (Some Enqueued) m)
      else Some (mkLoop (running_ m) (notify_flag_ m) (task_fd m) (wakeup_pipe m) (enqueue i t (scheduled_tasks_ m)) (in_loop_tasks_ m)
              (<[i := Enqueued]> (posters m)) (pc m) (posted m ++ [(i, t)]) (ran m) (posted_in_loop m) (ran_in_loop m))
  | _ => None
  end.
Definition WakeUpIfNeeded_test_and_set (i : Z) (m : MessageLoop) : option MessageLoop :=
  match posters m !! i with
  | Some Enqueued =>
      if notify_flag_ m then Some (set_poster i None m) else Some (set_poster i (Some FlagSet) (set_flag true m))
  | _ => None
  end.
Definition WakeUpIfNeeded_write (i : Z) (m : MessageLoop) : option MessageLoop :=
  match posters m !! i with
  | Some FlagSet =>
      if task_fd m + 1 <=? kEventFdMax then Some (set_poster i None (set_task_fd (task_fd m + 1) m))
      else Some (set_poster i (Some WriteFailed) m)
  | _ => None
  end.
Definition WakeUpIfNeeded_clear (i : Z) (m : MessageLoop) : option MessageLoop :=
  match posters m !! i with
  | Some WriteFailed => Some (set_poster i None (set_flag false m))
  | _ => None
  end.

(** ** [ThreadMain] *)

(** The delay given to the pump. *)
Definition PumpTimeout (runner_pending : bool) (size_approx : Z) (m : MessageLoop) : Z :=
  if runner_pending then 0 else if 0 <? zlen (in_loop_tasks_ m) + size_approx then 0 else 50.

(** The descriptors epoll finds readable; [swap] is the order it reports them in. *)
Definition ready (swap : bool) (m : MessageLoop) : list fired :=
  let a := if 0 <? task_fd m then [TaskEvent] else [] in
  let b := if (0 <? wakeup_pipe m)%nat then [WakeupEvent] else [] in
  if swap then b ++ a else a ++ b.

(** [RunScheduledTask]: the return of a [try_dequeue] that started on [q0]; one task,
    after which the loop is [again] at the call, or the end of the loop. *)
Definition RunScheduledTask (q0 : Q) (again next : loop_pc Q) (m : MessageLoop) : option MessageLoop :=
  match try_dequeue q0 (scheduled_tasks_ m) with
  | None => Some (set_pc next m)
  | Some (i, t, q) =>
      run_actions (does t)
        (mkLoop (running_ m) (notify_flag_ m) (task_fd m) (wakeup_pipe m) q (in_loop_tasks_ m) (posters m) again
           (posted m) (ran m ++ [(i, t)]) (posted_in_loop m) (ran_in_loop m))
  end.
(** [RunNestedTask]: the vector is moved out, then each task runs. *)
Definition take_nested (k : list Z -> loop_pc Q) (m : MessageLoop) : MessageLoop :=
  mkLoop (running_ m) (notify_flag_ m) (task_fd m) (wakeup_pipe m) (scheduled_tasks_ m) [] (posters m) (k (in_loop_tasks_ m))
    (posted m) (ran m) (posted_in_loop m) (ran_in_loop m).
Definition RunNestedTask (t : Z) (rest : loop_pc Q) (m : MessageLoop) : option MessageLoop :=
  run_actions (does t)
    (mkLoop (running_ m) (notify_flag_ m) (task_fd m) (wakeup_pipe m) (scheduled_tasks_ m) (in_loop_tasks_ m) (posters m) rest
       (posted m) (ran m) (posted_in_loop m) (ran_in_loop m ++ [t])).

(** [RunCommandTask]: the read of the event descriptor, after which [notify_flag_] is
    cleared and the queue drained, or the [kQuit] of the pipe. *)
Definition RunCommandTask (ev : fired) (evs : list fired) (m : MessageLoop) : MessageLoop :=
  match ev with
  | TaskEvent => set_pc (Clearing evs) (set_task_fd 0 m)
  | WakeupEvent => set_pc (Handling evs) (QuitLoop (set_pipe (pred (wakeup_pipe m)) m))
  end.

Definition ThreadMain_step (swap : bool) (m : MessageLoop) : option MessageLoop :=
  match pc m with
  | AtWhile => Some (if running_ m then set_pc Waiting m else take_nested LastNested m)
  | Waiting => Some (set_pc (Handling (ready swap m)) m)
  | Handling [] => Some (take_nested Nested m)
  | Handling (ev :: evs) => Some (RunCommandTask ev evs m)
  | Clearing evs => Some (set_pc (Draining evs) (set_flag false m))
  | Draining evs => Some (set_pc (Dequeuing evs (scheduled_tasks_ m)) m)
  | Dequeuing evs q0 => RunScheduledTask q0 (Draining evs) (Handling evs) m
  | Nested [] => Some (set_pc AtWhile m)
  | Nested (t :: ts) => RunNestedTask t (Nested ts) m
  | LastNested [] => Some (set_pc LastDrain m)
  | LastNested (t :: ts) => RunNestedTask t (LastNested ts) m
  | LastDrain => Some (set_pc (LastDequeuing (scheduled_tasks_ m)) m)
  | LastDequeuing q0 => RunScheduledTask q0 LastDrain Ended m
  | Ended => None
  end.

(** ** Interleavings *)

Inductive label :=
  | PCheck (i t : Z) | PEnqueue (i : Z) (result : bool) | PTestAndSet (i : Z) | PWrite (i : Z) | PClear (i : Z)
  | Loop (swap : bool)
  | HandlerPosts (t : Z)     (* a descriptor's or a timer's handler, inside [Pump] *)
  | QuitCalled               (* [QuitLoop] by another thread *)
  | QuitNotified.            (* the write of [kQuit] by the destructor *)
Definition do_step (l : label) (m : MessageLoop) : option MessageLoop :=
  match l with
  | PCheck i t => PostTask_check i t m
  | PEnqueue i result => PostTask_enqueue i result m
  | PTestAndSet i => WakeUpIfNeeded_test_and_set i m
  | PWrite i => WakeUpIfNeeded_write i m
  | PClear i => WakeUpIfNeeded_clear i m
  | Loop swap => ThreadMain_step swap m
  | HandlerPosts t => match pc m with Handling _ => PostTask_in_loop t m | _ => None end
  | QuitCalled => Some (QuitLoop m)
  | QuitNotified => Some (set_pipe (S (wakeup_pipe m)) m)
  end.
Fixpoint do_steps (ls : list label) (m : MessageLoop) : option MessageLoop :=
  match ls with [] => Some m | l :: ls => m ← do_step l m; do_steps ls m end.

(** ** What holds at any time *)

Context `{!TaskQueueLaws Q}.

Definition by_thread (i : Z) (l : list (Z * Z)) : list (Z * Z) := filter (fun x => x.1 = i) l.
(** The threads about to write to the event descriptor. *)
Definition writers (ps : gmap Z poster) : Z := Z.of_nat (size (filter (fun x => x.2 = FlagSet) ps)).
Arguments by_thread : simpl never.
Arguments writers : simpl never.
Definition is_clearing (p : loop_pc Q) : bool := match p with Clearing _ => true | _ => false end.
(** The loop is about to drain the queue, or will not wait again. *)
Definition awake (p : loop_pc Q) : bool :=
  match p with Clearing _ | Draining _ | Dequeuing _ _ | LastNested _ | LastDrain | LastDequeuing _ | Ended => true | _ => false end.
Definition rest_of (p : loop_pc Q) : list Z := match p with Nested ts | LastNested ts => ts | _ => [] end.

Definition events_ok (m : MessageLoop) : Prop :=
  match pc m with
  | Handling evs => (TaskEvent ∈ evs -> 0 < task_fd m) /\ NoDup evs
  | Clearing evs => notify_flag_ m = true /\ TaskEvent ∉ evs /\ NoDup evs
  | Draining evs | Dequeuing evs _ => TaskEvent ∉ evs /\ NoDup evs
  | _ => True
  end.
(** The event descriptor is readable, or a thread is on its way to see to it. *)
Definition woken (m : MessageLoop) : Prop :=
  0 < task_fd m \/ exists i p, posters m !! i = Some p /\ (p = Enqueued \/ p = FlagSet).
(** What was enqueued since the call started has its wake-up. *)
Definition scan_ok (m : MessageLoop) : Prop :=
  match pc m with
  | Dequeuing _ q0 => contents q0 `prefix_of` contents (scheduled_tasks_ m) /\ (contents (scheduled_tasks_ m) <> contents q0 -> woken m)
  | LastDequeuing q0 => contents q0 `prefix_of` contents (scheduled_tasks_ m)
  | _ => True
  end.
Record inv (m : MessageLoop) : Prop := mkInv {
  inv_fd : 0 <= task_fd m /\ task_fd m + writers (posters m) = if notify_flag_ m && negb (is_clearing (pc m)) then 1 else 0;
  inv_written : forall i, posters m !! i <> Some WriteFailed;
  inv_wake : contents (scheduled_tasks_ m) <> [] -> woken m \/ awake (pc m) = true;
  inv_scan : scan_ok m;
  inv_events : events_ok m;
  inv_fifo : forall i, by_thread i (posted m) = by_thread i (ran m) ++ by_thread i (contents (scheduled_tasks_ m));
  inv_nested : posted_in_loop m = ran_in_loop m ++ rest_of (pc m) ++ in_loop_tasks_ m;
}.

Lemma writers_set i p ps : writers (<[i := p]> ps) = writers (delete i ps) + if decide (p = FlagSet) then 1 else 0.
Proof.
  unfold writers. rewrite <- insert_delete_eq. destruct (decide (p = FlagSet)) as [->|Hne].
  - rewrite map_filter_insert_True by done. rewrite map_size_insert_None; [lia|].
    apply map_lookup_filter_None. left. apply lookup_delete_eq.
  - rewrite map_filter_insert_False by done. rewrite delete_delete_eq. lia.
Qed.
Lemma writers_delete i ps : writers (delete i ps) = writers ps - if decide (ps !! i = Some FlagSet) then 1 else 0.
Proof.
  destruct (ps !! i) as [p|] eqn:E.
  - rewrite <- (insert_id ps i p) at 2 by done. rewrite writers_set. destruct (decide (p = FlagSet)) as [->|Hne].
    + rewrite decide_True by done. lia.
    + rewrite decide_False by congruence. lia.
  - rewrite delete_id by done. rewrite decide_False by done. lia.
Qed.
Lemma writers_nonneg ps : 0 <= writers ps.
Proof. unfold writers. lia. Qed.

Lemma run_actions_spec acts m m' : run_actions acts m = Some m' -> exists ts b,
  m' = mkLoop b (notify_flag_ m) (task_fd m) (wakeup_pipe m) (scheduled_tasks_ m) (in_loop_tasks_ m ++ ts) (posters m) (pc m)
         (posted m) (ran m) (posted_in_loop m ++ ts) (ran_in_loop m).
Proof.
  revert m. induction acts as [|[t|] acts IH]; intros m; cbn [run_actions].
  - intros [= <-]. exists [], (running_ m). rewrite !app_nil_r. by destruct m.
  - unfold PostTask_in_loop. destruct (running_ m); [|done]. cbn [mbind option_bind]. intros H. apply IH in H as (ts & b & ->).
    exists (t :: ts), b. cbn. by rewrite <- !app_assoc.
  - intros H. apply IH in H as (ts & b & ->). by exists ts, b.
Qed.

Lemma by_thread_app i l k : by_thread i (l ++ k) = by_thread i l ++ by_thread i k.
Proof. apply list.filter_app. Qed.
Lemma by_thread_cons i j t l : by_thread i ((j, t) :: l) = (if decide (j = i) then [(j, t)] else []) ++ by_thread i l.
Proof. unfold by_thread. rewrite list.filter_cons. cbn [fst]. by destruct (decide (j = i)). Qed.
Lemma by_thread_none i l : (forall u, (i, u) ∉ l) -> by_thread i l = [].
Proof.
  unfold by_thread. induction l as [|[j t] l IH]; intros Hno; [done|]. rewrite list.filter_cons. cbn [fst].
  rewrite decide_False; [apply IH; intros u Hu; apply (Hno u); by apply list_elem_of_further|].
  intros ->. apply (Hno t). apply list_elem_of_here.
Qed.
Lemma dequeue_inv m i t q0 q :
  contents q0 `prefix_of` contents (scheduled_tasks_ m) -> try_dequeue q0 (scheduled_tasks_ m) = Some (i, t, q) -> inv m ->
  forall j, by_thread j (posted m) = by_thread j (ran m ++ [(i, t)]) ++ by_thread j (contents q).
Proof.
  intros Hq Hd Hi j. destruct (try_dequeue_Some _ _ _ _ _ Hq Hd) as (l1 & l2 & Hc & Hc' & Hno).
  rewrite (inv_fifo m Hi), Hc, Hc', !by_thread_app, !by_thread_cons, <- app_assoc. f_equal.
  destruct (decide (i = j)) as [->|Hne]; [by rewrite (by_thread_none j l1 Hno)|done].
Qed.

Lemma loop_new_inv : inv MessageLoop_new.
Proof.
  split.
  - done.
  - intros i. cbn [posters MessageLoop_new]. by rewrite lookup_empty.
  - cbn [scheduled_tasks_ MessageLoop_new]. by rewrite contents_new.
  - done.
  - done.
  - intros i. cbn [scheduled_tasks_ MessageLoop_new]. by rewrite contents_new.
  - done.
Qed.

(** A step of a posting thread after which the loop is or will be woken. *)
Lemma poster_inv m m' :
  inv m -> running_ m' = running_ m -> pc m' = pc m -> in_loop_tasks_ m' = in_loop_tasks_ m ->
  posted_in_loop m' = posted_in_loop m -> ran_in_loop m' = ran_in_loop m ->
  0 <= task_fd m' /\ task_fd m' + writers (posters m') = (if notify_flag_ m' && negb (is_clearing (pc m)) then 1 else 0) ->
  (forall i, posters m' !! i <> Some WriteFailed) ->
  (is_clearing (pc m) = false -> woken m') -> contents (scheduled_tasks_ m) `prefix_of` contents (scheduled_tasks_ m') ->
  events_ok m' ->
  (forall i, by_thread i (posted m') = by_thread i (ran m') ++ by_thread i (contents (scheduled_tasks_ m'))) -> inv m'.
Proof.
  intros [_ _ _ Hs _ _ H6] _ Hpc Hn1 Hn2 Hn3 H1 H2 Hw Hq H4 H5. split; try done.
  - by rewrite Hpc.
  - intros _. destruct (is_clearing (pc m)) eqn:Ec; [right; rewrite Hpc; by destruct (pc m)|left; by apply Hw].
  - unfold scan_ok in *. rewrite Hpc. destruct (pc m); try done; [|by etrans]. destruct Hs as [Hp _]. split; [by etrans|]. intros _. by apply Hw.
  - by rewrite Hn1, Hn2, Hn3, Hpc.
Qed.

Lemma woken_poster m i p : posters m !! i = Some p -> p = Enqueued \/ p = FlagSet -> woken m.
Proof. intros H Hp. right. by exists i, p. Qed.

(** Somebody has set the flag: the descriptor was written, or is about to be. *)
Lemma flag_woken m : 0 < task_fd m + writers (posters m) -> woken m.
Proof.
  intros H. destruct (decide (0 < task_fd m)) as [|Hz]; [by left|]. unfold writers in H.
  destruct (map_choose (filter (fun x : Z * poster => x.2 = FlagSet) (posters m))) as (j & p & Hj).
  { intros E. rewrite E, map_size_empty in H. lia. }
  apply map_lookup_filter_Some in Hj as [Hj Hp]. cbn in Hp. by apply (woken_poster m j p); [|right].
Qed.

(** Steps of a posting thread. *)
Lemma poster_step_inv l m m' :
  match l with PCheck _ _ | PEnqueue _ _ | PTestAndSet _ | PWrite _ | PClear _ => True | _ => False end ->
  inv m -> do_step l m = Some m' -> inv m'.
Proof.
  intros Hl Hi. pose proof Hi as [[H0 H1] H2 H3 Hsc H4 H5 H6]. pose proof (writers_nonneg (posters m)) as Hw.
  assert (forall j i p, p <> WriteFailed -> <[i := p]> (posters m) !! j <> Some WriteFailed) as Hset
    by (intros j i p Hp; destruct (decide (j = i)) as [->|]; [rewrite lookup_insert_eq; congruence|by rewrite lookup_insert_ne]).
  assert (forall j i, delete i (posters m) !! j <> Some WriteFailed) as Hdel
    by (intros j i; destruct (decide (j = i)) as [->|]; [by rewrite lookup_delete_eq|by rewrite lookup_delete_ne]).
  destruct l as [i t|i result|i|i|i|swap|t| |]; try done; cbn [do_step].
  - unfold PostTask_check. destruct (posters m !! i) eqn:Ei; [done|]. destruct (running_ m); [|done]. intros [= <-].
    assert (woken m -> woken (set_poster i (Some (Checked t)) m)) as Hk.
    { intros [?|(j & p & Hj & Hp)]; [by left|right]. exists j, p. cbn. rewrite lookup_insert_ne; [done|]. intros ->. congruence. }
    split; try done; cbn.
    + split; [done|]. rewrite writers_set, writers_delete, !decide_False by congruence. by rewrite Z.sub_0_r, Z.add_0_r.
    + intros j. by apply Hset.
    + intros Hc. destruct (H3 Hc); [left; by apply Hk|by right].
    + unfold scan_ok in *. cbn. destruct (pc m); try done. split; [apply Hsc|]. intros Hne. by apply Hk, Hsc.
  - unfold PostTask_enqueue. destruct (posters m !! i) as [[t| | |]|] eqn:Ei; try done.
    assert (task_fd m + writers (<[i := Enqueued]> (posters m)) = task_fd m + writers (posters m)) as Hwr
      by (rewrite writers_set, writers_delete, !decide_False by congruence; lia).
    destruct result; cbn [negb]; intros [= <-]; apply (poster_inv m); try done; cbn; try (rewrite Hwr; done); try (intros j; by apply Hset).
    all: try (intros _; apply (woken_poster _ i Enqueued); [cbn; apply lookup_insert_eq|by left]).
    + rewrite contents_enqueue. by apply prefix_app_r.
    + intros j. rewrite contents_enqueue, !by_thread_app, H5. by rewrite app_assoc.
  - unfold WakeUpIfNeeded_test_and_set. destruct (posters m !! i) as [[t| | |]|] eqn:Ei; try done. destruct (notify_flag_ m) eqn:Ef; intros [= <-].
    + assert (writers (delete i (posters m)) = writers (posters m)) as Hwr by (rewrite writers_delete, decide_False by congruence; lia).
      apply (poster_inv m); try done; cbn; try (rewrite Hwr, Ef; done); [intros j; by apply Hdel|].
      intros Ec. apply flag_woken. cbn. rewrite Hwr, H1, Ec. done.
    + cbn in H1. apply (poster_inv m); try done; cbn.
      * split; [done|]. rewrite writers_set, writers_delete, decide_False, decide_True by (congruence || done).
        assert (is_clearing (pc m) = false) as ->; [|cbn; lia].
        unfold events_ok in H4. destruct (pc m); try done. destruct H4 as [H4 _]. congruence.
      * intros j. by apply Hset.
      * intros _. apply (woken_poster _ i FlagSet); [cbn; apply lookup_insert_eq|by right].
      * unfold events_ok in *. cbn. destruct (pc m); try done. destruct H4 as [H4 ?]. done.
  - unfold WakeUpIfNeeded_write. destruct (posters m !! i) as [[t| | |]|] eqn:Ei; try done.
    assert (1 <= writers (posters m)) as Hone.
    { pose proof (writers_nonneg (delete i (posters m))) as Hd. rewrite writers_delete, decide_True in Hd by done. lia. }
    assert (task_fd m = 0 /\ writers (posters m) = 1 /\ notify_flag_ m = true /\ is_clearing (pc m) = false) as (E0 & E1 & Ef & Ec)
      by (destruct (notify_flag_ m), (is_clearing (pc m)); cbn in H1; lia).
    rewrite E0. cbn. intros [= <-]. apply (poster_inv m); try done; cbn.
    + split; [lia|]. rewrite writers_delete, decide_True, Ef, Ec by done. cbn. lia.
    + intros j. by apply Hdel.
    + intros _. left. cbn. lia.
    + unfold events_ok in *. cbn. destruct (pc m); try done. split; [lia|]. by destruct H4.
  - unfold WakeUpIfNeeded_clear. destruct (posters m !! i) as [[t| | |]|] eqn:Ei; try done. by destruct (H2 i).
Qed.

Lemma actions_inv acts m m' : inv m -> run_actions acts m = Some m' -> inv m'.
Proof.
  intros [H1 H2 H3 Hs H4 H5 H6] H. apply run_actions_spec in H as (ts & b & ->). split; try done. cbn.
  by rewrite H6, <- !app_assoc.
Qed.
(** The states around [try_dequeue]. *)
Definition dequeues (p : loop_pc Q) (q0 : Q) (again next : loop_pc Q) : Prop :=
  (exists evs, p = Dequeuing evs q0 /\ again = Draining evs /\ next = Handling evs) \/
  (p = LastDequeuing q0 /\ again = LastDrain /\ next = Ended).
Lemma scan_prefix m q0 again next : inv m -> dequeues (pc m) q0 again next -> contents q0 `prefix_of` contents (scheduled_tasks_ m).
Proof.
  intros Hi Hd. pose proof (inv_scan m Hi) as Hs. unfold scan_ok in Hs. destruct Hd as [(evs & E & _)|(E & _)]; rewrite E in Hs; [by destruct Hs|done].
Qed.
Lemma scheduled_inv m m' q0 again next :
  inv m -> dequeues (pc m) q0 again next -> RunScheduledTask q0 again next m = Some m' -> inv m'.
Proof.
  intros Hi Hd. pose proof (scan_prefix m q0 again next Hi Hd) as Hp. pose proof Hi as [H1 H2 H3 Hs H4 H5 H6].
  unfold RunScheduledTask. destruct (try_dequeue _ _) as [[[i t] q]|] eqn:Ed.
  - apply actions_inv. pose proof (dequeue_inv m i t q0 q Hp Ed Hi) as Hf. unfold events_ok, scan_ok in *.
    destruct Hd as [(evs & E & -> & ->)|(E & -> & ->)]; rewrite E in *; split; try done; intros _; by right.
  - apply try_dequeue_None in Ed; [|done]. intros [= <-]. unfold events_ok, scan_ok in *.
    destruct Hd as [(evs & E & -> & ->)|(E & -> & ->)]; rewrite E in *; split; try done; cbn.
    + intros Hne. left. apply Hs. by rewrite Ed.
    + destruct H4. split; [set_solver|done].
Qed.
Lemma nested_inv t ts m m' (k : list Z -> loop_pc Q) :
  inv m -> pc m = k (t :: ts) -> (k = Nested \/ k = LastNested) -> RunNestedTask t (k ts) m = Some m' -> inv m'.
Proof.
  intros Hi Hpc Hk. unfold RunNestedTask. apply actions_inv. pose proof Hi as [H1 H2 H3 Hs H4 H5 H6].
  destruct Hk as [-> | ->]; rewrite Hpc in *; split; try done; cbn in *; rewrite H6; by rewrite <- !app_assoc.
Qed.
Lemma take_nested_inv m (k : list Z -> loop_pc Q) :
  inv m -> rest_of (pc m) = [] -> is_clearing (pc m) = false -> awake (pc m) = false -> (k = Nested \/ k = LastNested) ->
  inv (take_nested k m).
Proof.
  intros Hi Hr Hc Ha Hk. pose proof Hi as [H1 H2 H3 Hs H4 H5 H6]. rewrite Hc, Ha, Hr in *.
  destruct Hk as [-> | ->]; split; try done; cbn in *; try (by rewrite app_nil_r); intros Hne; left; by destruct (H3 Hne).
Qed.

Lemma loop_step_inv swap m m' : inv m -> ThreadMain_step swap m = Some m' -> inv m'.
Proof.
  intros Hi. pose proof Hi as [[H0 H1] H2 H3 Hs H4 H5 H6]. pose proof (writers_nonneg (posters m)) as Hw. unfold ThreadMain_step.
  unfold events_ok in H4. destruct (pc m) as [| |[|[] evs]|evs|evs|evs q0|[|t ts]|[|t ts]| |q0|] eqn:Epc.
  - destruct (running_ m); intros [= <-].
    + split; try done; cbn; by rewrite ?Epc in *.
    + apply take_nested_inv; rewrite ?Epc; auto.
  - intros [= <-]. split; try done; cbn. unfold events_ok. cbn. unfold ready. split.
    + destruct (Z.ltb_spec 0 (task_fd m)); [done|]. destruct (0 <? wakeup_pipe m)%nat, swap; cbn; set_solver.
    + destruct (0 <? task_fd m), (0 <? wakeup_pipe m)%nat, swap; cbn; repeat constructor; set_solver.
  - intros [= <-]. apply take_nested_inv; rewrite ?Epc; auto.
  - intros [= <-]. destruct H4 as [Hfd Hnd]. apply list.NoDup_cons in Hnd as [Hnin Hnd]. specialize (Hfd (list_elem_of_here _ _)).
    cbn in H1. assert (notify_flag_ m = true) as Ef by (destruct (notify_flag_ m); [done|cbn in H1; lia]). rewrite Ef in H1. cbn in H1.
    split; try done; cbn.
    + split; [lia|]. rewrite Ef. cbn. lia.
    + intros _. by right.
  - intros [= <-]. destruct H4 as [Hfd Hnd]. apply list.NoDup_cons in Hnd as [Hnin Hnd]. split; try done; cbn.
    split; [|done]. cbn. intros Hin. apply Hfd. by apply list_elem_of_further.
  - intros [= <-]. destruct H4 as (Ef & Hnin & Hnd). rewrite Ef in H1. cbn in H1. by split; auto.
  - intros [= <-]. by split.
  - apply scheduled_inv; [done|]. rewrite Epc. left. eauto.
  - intros [= <-]. split; try done; cbn; by rewrite ?Epc in *.
  - apply (nested_inv t ts m m' Nested); auto.
  - by intros [= <-].
  - apply (nested_inv t ts m m' LastNested); auto.
  - intros [= <-]. split; try done. unfold scan_ok; cbn. reflexivity.
  - apply scheduled_inv; [done|]. rewrite Epc. by right.
  - done.
Qed.

Lemma step_keeps_inv l m m' : inv m -> do_step l m = Some m' -> inv m'.
Proof.
  intros Hi. destruct l as [i t|i result|i|i|i|swap|t| |]; try (by apply (poster_step_inv _ m m')); cbn [do_step].
  - by apply loop_step_inv.
  - destruct (pc m) eqn:E; try done. intros H. apply (actions_inv [Post t] m m' Hi). cbn. by rewrite H.
  - intros [= <-]. by destruct Hi.
  - intros [= <-]. by destruct Hi.
Qed.
Lemma steps_keep_inv ls m m' : inv m -> do_steps ls m = Some m' -> inv m'.
Proof.
  revert m. induction ls as [|l ls IH]; intros m Hi; cbn [do_steps]; [by intros [= <-]|].
  destruct (do_step l m) as [m1|] eqn:E; [|done]. apply IH. by apply (step_keeps_inv l m).
Qed.

(** C7.  No wake-up is lost.  However posting threads and the loop interleave, in a
    sequentially consistent memory and with tasks that arrive while the queue is being
    looked through: when the loop is about to wait, no thread is inside [PostTask] and a task is queued, then the event
    descriptor is readable and [epoll_wait] reports it. *)
Theorem wakeup_never_lost ls m swap :
  do_steps ls MessageLoop_new = Some m -> pc m = Waiting -> posters m = ∅ -> contents (scheduled_tasks_ m) <> [] ->
  0 < task_fd m /\ TaskEvent ∈ ready swap m.
Proof.
  intros Hr Hpc Hps Hne. pose proof (steps_keep_inv ls _ m loop_new_inv Hr) as Hi.
  assert (0 < task_fd m) as Hfd.
  { destruct (inv_wake m Hi Hne) as [[?|(i & p & Hp & _)]|Ha]; [done| |by rewrite Hpc in Ha]. rewrite Hps, lookup_empty in Hp. done. }
  split; [done|]. unfold ready. rewrite (proj2 (Z.ltb_lt _ _)) by done. destruct (0 <? wakeup_pipe m)%nat, swap; set_solver.
Qed.

(** Every task is run at most once; those of one thread run in the order it posted
    them, and those posted on the loop in the order they were posted. *)
Theorem tasks_run_in_order ls m :
  do_steps ls MessageLoop_new = Some m ->
  (forall i, by_thread i (posted m) = by_thread i (ran m) ++ by_thread i (contents (scheduled_tasks_ m))) /\
  posted_in_loop m = ran_in_loop m ++ rest_of (pc m) ++ in_loop_tasks_ m.
Proof. intros Hr. pose proof (steps_keep_inv ls _ m loop_new_inv Hr) as Hi. split; apply Hi. Qed.

(** ** Progress of a loop that is not stopped *)

Definition no_quit : Prop := forall t, Quit ∉ does t.
Definition lasting (l : label) : bool := match l with QuitCalled | QuitNotified => false | _ => true end.
Definition alive (m : MessageLoop) : Prop :=
  running_ m = true /\ wakeup_pipe m = 0%nat /\
  match pc m with
  | Handling evs | Clearing evs | Draining evs | Dequeuing evs _ => WakeupEvent ∉ evs
  | LastNested _ | LastDrain | LastDequeuing _ | Ended => False
  | _ => True
  end.

Lemma actions_run acts m : Quit ∉ acts -> running_ m = true -> exists ts, run_actions acts m =
  Some (mkLoop true (notify_flag_ m) (task_fd m) (wakeup_pipe m) (scheduled_tasks_ m) (in_loop_tasks_ m ++ ts) (posters m) (pc m)
         (posted m) (ran m) (posted_in_loop m ++ ts) (ran_in_loop m)).
Proof.
  revert m. induction acts as [|[t|] acts IH]; intros m Hq Hr; cbn [run_actions].
  - exists []. rewrite !app_nil_r. destruct m; cbn in *; by subst.
  - unfold PostTask_in_loop. rewrite Hr. cbn [mbind option_bind]. edestruct IH as [ts ->]; [set_solver|done|].
    exists (t :: ts). cbn. by rewrite <- !app_assoc.
  - set_solver.
Qed.

Lemma alive_step l m m' : no_quit -> lasting l = true -> alive m -> do_step l m = Some m' -> alive m'.
Proof.
  intros Hq Hl (Hr & Hp & Hpc). assert (forall acts m1 m2, Quit ∉ acts -> alive m1 -> run_actions acts m1 = Some m2 -> alive m2) as Hact.
  { intros acts m1 m2 Hacts (A1 & A2 & A3) H. destruct (actions_run acts m1 Hacts A1) as [ts E]. rewrite E in H. injection H as <-. done. }
  destruct l as [i t|i result|i|i|i|swap|t| |]; try done; cbn [do_step].
  - unfold PostTask_check. destruct (posters m !! i); [done|]. rewrite Hr. by intros [= <-].
  - unfold PostTask_enqueue. destruct (posters m !! i) as [[]|]; try done. destruct result; by intros [= <-].
  - unfold WakeUpIfNeeded_test_and_set. destruct (posters m !! i) as [[]|]; try done. destruct (notify_flag_ m); by intros [= <-].
  - unfold WakeUpIfNeeded_write. destruct (posters m !! i) as [[]|]; try done. destruct (_ <=? _); by intros [= <-].
  - unfold WakeUpIfNeeded_clear. destruct (posters m !! i) as [[]|]; try done. by intros [= <-].
  - unfold ThreadMain_step. destruct (pc m) as [| |[|[] evs]|evs|evs|evs q0|[|t ts]|[|t ts]| |q0|] eqn:Epc; try done.
    + rewrite Hr. by intros [= <-].
    + intros [= <-]. split; [done|]. split; [done|]. cbn. unfold ready. rewrite Hp. destruct (0 <? task_fd m), swap; cbn; set_solver.
    + by intros [= <-].
    + intros [= <-]. split; [done|]. split; [done|]. cbn. set_solver.
    + set_solver.
    + by intros [= <-].
    + by intros [= <-].
    + unfold RunScheduledTask. destruct (try_dequeue _ _) as [[[i t] q]|]; [|by intros [= <-]]. by apply Hact; [apply Hq|].
    + by intros [= <-].
    + unfold RunNestedTask. apply Hact; [apply Hq|done].
  - destruct (pc m) eqn:Epc; try done. intros H. apply (Hact [Post t] m); [set_solver|split; [done|]; by rewrite Epc|]. cbn. by rewrite H.
Qed.

(** The loop's own steps lead from [m] to [m'], running what they dequeue. *)
Definition progress (m m' : MessageLoop) : Prop :=
  (exists n, do_steps (replicate n (Loop false)) m = Some m') /\ alive m' /\ posters m' = posters m /\
  (exists l, ran m' = ran m ++ l /\ contents (scheduled_tasks_ m) ≡ₚ l ++ contents (scheduled_tasks_ m')) /\
  exists l, posted_in_loop m' = posted_in_loop m ++ l.

Lemma do_steps_app ls ks m : do_steps (ls ++ ks) m = m1 ← do_steps ls m; do_steps ks m1.
Proof. revert m. induction ls as [|l ls IH]; intros m; cbn [do_steps app]; [done|]. destruct (do_step l m) as [m1|]; [apply IH|done]. Qed.
Lemma progress_refl m : alive m -> progress m m.
Proof. intros Ha. split; [by exists 0%nat|]. split; [done|]. split; [done|]. split; exists []; by rewrite ?app_nil_r. Qed.
Lemma progress_trans m1 m2 m3 : progress m1 m2 -> progress m2 m3 -> progress m1 m3.
Proof.
  intros ((n & Hn) & _ & Hp & (l & Hl & Hc) & (k & Hk)) ((n' & Hn') & Ha' & Hp' & (l' & Hl' & Hc') & (k' & Hk')). split.
  { exists (n + n')%nat. by rewrite replicate_add, do_steps_app, Hn. }
  split; [done|]. split; [congruence|]. split.
  - exists (l ++ l'). rewrite Hl', Hl, app_assoc. split; [done|]. by rewrite Hc, Hc', app_assoc.
  - exists (k ++ k'). by rewrite Hk', Hk, app_assoc.
Qed.
Lemma progress_step m m' : no_quit -> alive m -> ThreadMain_step false m = Some m' -> posters m' = posters m ->
  ran m' = ran m -> scheduled_tasks_ m' = scheduled_tasks_ m -> (exists l, posted_in_loop m' = posted_in_loop m ++ l) -> progress m m'.
Proof.
  intros Hq Ha Hs Hp Hr Hc Hl. split; [exists 1%nat; cbn; by rewrite Hs|]. split; [by apply (alive_step (Loop false) m)|]. split; [done|].
  split; [|done]. exists []. by rewrite app_nil_r, Hr, Hc.
Qed.

Lemma progress_inv m m' : inv m -> progress m m' -> inv m'.
Proof. intros Hi ((n & Hn) & _). by apply (steps_keep_inv _ m m' Hi Hn). Qed.
Lemma progress_alive m m' : progress m m' -> alive m'.
Proof. intros (_ & Ha & _). done. Qed.
Lemma progress_empty m m' : progress m m' -> contents (scheduled_tasks_ m) = [] -> contents (scheduled_tasks_ m') = [].
Proof. intros (_ & _ & _ & (l & _ & Hc) & _) E. rewrite E in Hc. apply Permutation_nil_l in Hc. symmetry in Hc. by apply app_eq_nil in Hc as [_ ?]. Qed.

(** One task, from inside [try_dequeue]. *)
Lemma drain_one m evs i t q0 q :
  no_quit -> inv m -> alive m -> pc m = Dequeuing evs q0 -> try_dequeue q0 (scheduled_tasks_ m) = Some (i, t, q) ->
  exists m1, progress m m1 /\ pc m1 = Draining evs /\ length (contents (scheduled_tasks_ m)) = S (length (contents (scheduled_tasks_ m1))).
Proof.
  intros Hq Hi Ha Hpc Hd. assert (dequeues (pc m) q0 (Draining evs) (Handling evs)) as Hds by (left; eauto).
  destruct (try_dequeue_Some _ _ _ _ _ (scan_prefix m _ _ _ Hi Hds) Hd) as (l1 & l2 & Hc & Hc' & _).
  set (m0 := mkLoop (running_ m) (notify_flag_ m) (task_fd m) (wakeup_pipe m) q (in_loop_tasks_ m) (posters m) (Draining evs)
       (posted m) (ran m ++ [(i, t)]) (posted_in_loop m) (ran_in_loop m)).
  destruct (actions_run (does t) m0 (Hq t) ltac:(apply Ha)) as [ts Hr].
  assert (ThreadMain_step false m = run_actions (does t) m0) as Hs by (unfold ThreadMain_step; rewrite Hpc; unfold RunScheduledTask; by rewrite Hd).
  match type of Hr with _ = Some ?x => exists x end. split; [|split; [done|]].
  - split; [exists 1%nat; cbn; by rewrite Hs, Hr|]. split; [apply (alive_step (Loop false) m); [done|done|done|cbn; by rewrite Hs, Hr]|].
    split; [done|]. split; [|by exists ts]. exists [(i, t)]. split; [done|]. cbn. rewrite Hc, Hc'. by rewrite Permutation_middle.
  - cbn. rewrite Hc, Hc', !length_app. cbn. lia.
Qed.
(** The call that finds nothing. *)
Lemma drain_end m evs q0 : no_quit -> alive m -> pc m = Dequeuing evs q0 -> try_dequeue q0 (scheduled_tasks_ m) = None ->
  progress m (set_pc (Handling evs) m).
Proof.
  intros Hq Ha Hpc Ed. apply progress_step; try done; [unfold ThreadMain_step, RunScheduledTask; by rewrite Hpc, Ed|exists []; by rewrite app_nil_r].
Qed.
Lemma drain m evs : no_quit -> inv m -> alive m -> pc m = Draining evs ->
  exists m', progress m m' /\ pc m' = Handling evs /\ contents (scheduled_tasks_ m') = [].
Proof.
  intros Hq. remember (length (contents (scheduled_tasks_ m))) as n eqn:En. revert m En. induction n as [n IH] using lt_wf_ind; intros m En Hi Ha Hpc.
  set (m0 := set_pc (Dequeuing evs (scheduled_tasks_ m)) m).
  assert (progress m m0) as Hp0 by (apply progress_step; try done; [unfold ThreadMain_step; by rewrite Hpc|exists []; by rewrite app_nil_r]).
  pose proof (progress_inv _ _ Hi Hp0) as Hi0. pose proof (progress_alive _ _ Hp0) as Ha0.
  destruct (try_dequeue (scheduled_tasks_ m) (scheduled_tasks_ m0)) as [[[i t] q]|] eqn:Ed.
  - destruct (drain_one m0 evs i t _ q Hq Hi0 Ha0 eq_refl Ed) as (m1 & Hp1 & Hpc1 & El). cbn in El.
    pose proof (progress_trans _ _ _ Hp0 Hp1) as Hp.
    destruct (IH (length (contents (scheduled_tasks_ m1))) ltac:(lia) m1 eq_refl (progress_inv _ _ Hi Hp) (progress_alive _ _ Hp) Hpc1) as (m' & Hp' & ?).
    exists m'. split; [|done]. by apply (progress_trans m m1).
  - exists (set_pc (Handling evs) m0). split; [apply (progress_trans m m0); [done|]; by eapply drain_end|].
    split; [done|]. by eapply try_dequeue_None; [|exact Ed].
Qed.
Lemma nested_done m ts : no_quit -> alive m -> pc m = Nested ts ->
  exists m', progress m m' /\ pc m' = AtWhile /\ ran_in_loop m' = ran_in_loop m ++ ts.
Proof.
  intros Hq. revert m. induction ts as [|t ts IH]; intros m Ha Hpc.
  - exists (set_pc AtWhile m). split; [|split; [done|by rewrite app_nil_r]].
    apply progress_step; try done; [unfold ThreadMain_step; by rewrite Hpc|exists []; by rewrite app_nil_r].
  - set (m0 := mkLoop (running_ m) (notify_flag_ m) (task_fd m) (wakeup_pipe m) (scheduled_tasks_ m) (in_loop_tasks_ m) (posters m) (Nested ts)
       (posted m) (ran m) (posted_in_loop m) (ran_in_loop m ++ [t])).
    destruct (actions_run (does t) m0 (Hq t) ltac:(apply Ha)) as [us Hr].
    assert (ThreadMain_step false m = run_actions (does t) m0) as Hs by (unfold ThreadMain_step; by rewrite Hpc).
    set (m1 := mkLoop true _ _ _ _ _ _ _ _ _ _ _) in Hr.
    assert (progress m m1) as Hp by (apply progress_step; try done; [by rewrite Hs|by exists us]).
    destruct (IH m1 (progress_alive _ _ Hp) eq_refl) as (m' & Hp' & Hpc' & Hran). exists m'. split; [by apply (progress_trans m m1)|].
    split; [done|]. rewrite Hran. cbn. by rewrite <- app_assoc.
Qed.
(** The events are handled, then the tasks posted meanwhile on the loop run. *)
Lemma handled m evs : no_quit -> inv m -> alive m -> pc m = Handling evs ->
  exists m', progress m m' /\ pc m' = AtWhile /\ (exists l, ran_in_loop m' = posted_in_loop m ++ l) /\
  (TaskEvent ∈ evs -> contents (scheduled_tasks_ m') = []).
Proof.
  intros Hq. revert m. induction evs as [|ev evs IH]; intros m Hi Ha Hpc.
  - assert (progress m (take_nested Nested m)) as Hp
      by (apply progress_step; try done; [unfold ThreadMain_step; by rewrite Hpc|exists []; by rewrite app_nil_r]).
    destruct (nested_done (take_nested Nested m) _ Hq (progress_alive _ _ Hp) eq_refl) as (m' & Hp' & Hpc' & Hran).
    exists m'. split; [exact (progress_trans _ _ _ Hp Hp')|]. split; [done|]. split; [|intros H; by apply elem_of_nil in H].
    exists []. rewrite app_nil_r, Hran. cbn. by rewrite (inv_nested m Hi), Hpc.
  - destruct ev; [|destruct Ha as (_ & _ & Ha); rewrite Hpc in Ha; set_solver].
    assert (progress m (set_pc (Clearing evs) (set_task_fd 0 m))) as Hp1
      by (apply progress_step; try done; [unfold ThreadMain_step; by rewrite Hpc|exists []; by rewrite app_nil_r]).
    set (m1 := set_pc (Clearing evs) (set_task_fd 0 m)) in *.
    assert (progress m1 (set_pc (Draining evs) (set_flag false m1))) as Hp2
      by (apply progress_step; try done; [by apply (progress_alive m)|exists []; by rewrite app_nil_r]).
    destruct (drain _ evs Hq (progress_inv _ _ (progress_inv _ _ Hi Hp1) Hp2) (progress_alive _ _ Hp2) eq_refl) as (m3 & Hp3 & Hpc3 & He).
    pose proof (progress_trans _ _ _ (progress_trans _ _ _ Hp1 Hp2) Hp3) as Hp.
    destruct (IH m3 (progress_inv _ _ Hi Hp) (progress_alive _ _ Hp) Hpc3) as (m' & Hp' & Hpc' & (l & Hl) & _).
    exists m'. split; [by apply (progress_trans m m3)|]. split; [done|]. destruct Hp as (_ & _ & _ & _ & (k & Hk)). split.
    + exists (k ++ l). by rewrite Hl, Hk, app_assoc.
    + intros _. by apply (progress_empty m3).
Qed.
Lemma reach_while m : no_quit -> inv m -> alive m -> exists m', progress m m' /\ pc m' = AtWhile.
Proof.
  intros Hq Hi Ha. destruct (pc m) as [| |evs|evs|evs|evs q0|ts|ts| |q0|] eqn:Epc.
  - exists m. split; [by apply progress_refl|done].
  - assert (progress m (set_pc (Handling (ready false m)) m)) as Hp
      by (apply progress_step; try done; [unfold ThreadMain_step; by rewrite Epc|exists []; by rewrite app_nil_r]).
    destruct (handled _ _ Hq (progress_inv _ _ Hi Hp) (progress_alive _ _ Hp) eq_refl) as (m' & Hp' & Hpc & _).
    exists m'. split; [by apply (progress_trans m _ m' Hp)|done].
  - destruct (handled m evs Hq Hi Ha Epc) as (m' & Hp' & Hpc & _). by exists m'.
  - assert (progress m (set_pc (Draining evs) (set_flag false m))) as Hp
      by (apply progress_step; try done; [unfold ThreadMain_step; by rewrite Epc|exists []; by rewrite app_nil_r]).
    destruct (drain _ evs Hq (progress_inv _ _ Hi Hp) (progress_alive _ _ Hp) eq_refl) as (m1 & Hp1 & Hpc1 & _). pose proof (progress_trans _ _ _ Hp Hp1) as Hp2.
    destruct (handled m1 evs Hq (progress_inv _ _ Hi Hp2) (progress_alive _ _ Hp2) Hpc1) as (m' & Hp' & Hpc & _).
    exists m'. split; [by apply (progress_trans m m1)|done].
  - destruct (drain _ evs Hq Hi Ha Epc) as (m1 & Hp1 & Hpc1 & _).
    destruct (handled m1 evs Hq (progress_inv _ _ Hi Hp1) (progress_alive _ _ Hp1) Hpc1) as (m' & Hp' & Hpc & _).
    exists m'. split; [by apply (progress_trans m m1)|done].
  - assert (exists m1, progress m m1 /\ pc m1 = Handling evs) as (m1 & Hp1 & Hpc1).
    { destruct (try_dequeue q0 (scheduled_tasks_ m)) as [[[i t] q]|] eqn:Ed.
      - destruct (drain_one m evs i t q0 q Hq Hi Ha Epc Ed) as (m1 & Hp1 & Hpc1 & _).
        destruct (drain m1 evs Hq (progress_inv _ _ Hi Hp1) (progress_alive _ _ Hp1) Hpc1) as (m2 & Hp2 & Hpc2 & _).
        exists m2. split; [by apply (progress_trans m m1)|done].
      - exists (set_pc (Handling evs) m). split; [by eapply drain_end|done]. }
    destruct (handled m1 evs Hq (progress_inv _ _ Hi Hp1) (progress_alive _ _ Hp1) Hpc1) as (m' & Hp' & Hpc & _).
    exists m'. split; [by apply (progress_trans m m1)|done].
  - destruct (nested_done m ts Hq Ha Epc) as (m' & Hp' & Hpc & _). by exists m'.
  - destruct Ha as (_ & _ & Ha). by rewrite Epc in Ha.
  - destruct Ha as (_ & _ & Ha). by rewrite Epc in Ha.
  - destruct Ha as (_ & _ & Ha). by rewrite Epc in Ha.
  - destruct Ha as (_ & _ & Ha). by rewrite Epc in Ha.
Qed.

Lemma steps_alive ls m m' : no_quit -> Forall (fun l => lasting l = true) ls -> alive m -> do_steps ls m = Some m' -> alive m'.
Proof.
  intros Hq. revert m. induction ls as [|l ls IH]; intros m Hf Ha; cbn [do_steps]; [by intros [= <-]|].
  apply Forall_cons_iff in Hf as [Hl Hf]. destruct (do_step l m) as [m1|] eqn:E; [|done]. apply IH; [done|]. by apply (alive_step l m).
Qed.

(** C8.  Posted tasks run.  In a loop that nobody stops, from every state in which no thread
    is inside [PostTask], the loop's thread on its own, after finitely many steps, has
    run every task that was queued, each once, and every task that had been posted on
    the loop. *)
Theorem posted_tasks_run ls m :
  no_quit -> Forall (fun l => lasting l = true) ls -> do_steps ls MessageLoop_new = Some m -> posters m = ∅ ->
  exists n m', do_steps (replicate n (Loop false)) m = Some m' /\ contents (scheduled_tasks_ m') = [] /\
  (exists l, ran m' = ran m ++ l /\ l ≡ₚ contents (scheduled_tasks_ m)) /\ exists l, ran_in_loop m' = posted_in_loop m ++ l.
Proof.
  intros Hq Hf Hr Hps. pose proof (steps_keep_inv ls _ m loop_new_inv Hr) as Hi.
  assert (alive m) as Ha by (by apply (steps_alive ls MessageLoop_new)).
  destruct (reach_while m Hq Hi Ha) as (m1 & Hp1 & Hpc1). pose proof (progress_inv _ _ Hi Hp1) as Hi1. pose proof (progress_alive _ _ Hp1) as Ha1.
  assert (progress m1 (set_pc Waiting m1)) as Hp2
    by (apply progress_step; try done; [unfold ThreadMain_step; rewrite Hpc1; by rewrite (proj1 Ha1)|exists []; by rewrite app_nil_r]).
  set (m2 := set_pc Waiting m1) in *. pose proof (progress_inv _ _ Hi1 Hp2) as Hi2.
  assert (progress m2 (set_pc (Handling (ready false m2)) m2)) as Hp3
    by (apply progress_step; try done; [by apply (progress_alive m1)|exists []; by rewrite app_nil_r]).
  destruct (handled _ _ Hq (progress_inv _ _ Hi2 Hp3) (progress_alive _ _ Hp3) eq_refl) as (m' & Hp4 & _ & (k & Hk) & He).
  pose proof (progress_trans _ _ _ (progress_trans _ _ _ (progress_trans _ _ _ Hp1 Hp2) Hp3) Hp4) as Hp.
  assert (contents (scheduled_tasks_ m') = []) as Hemp.
  { destruct (decide (contents (scheduled_tasks_ m2) = [])) as [Hn|Hn]; [by apply (progress_empty _ _ (progress_trans _ _ _ Hp3 Hp4))|].
    apply He. destruct (inv_wake m2 Hi2 Hn) as [[Hfd|(i & p & Hp' & _)]|]; [|exfalso|done].
    - unfold ready. rewrite (proj2 (Z.ltb_lt _ _)) by done. destruct (0 <? wakeup_pipe m2)%nat; set_solver.
    - destruct Hp1 as (_ & _ & Hps1 & _). cbn in Hp'. rewrite Hps1, Hps, lookup_empty in Hp'. done. }
  pose proof Hp as ((n & Hn) & _ & _ & (l & Hl & Hc) & _). exists n, m'. split; [done|]. split; [done|]. split.
  - exists l. split; [done|]. rewrite Hemp, app_nil_r in Hc. by symmetry.
  - destruct Hp1 as (_ & _ & _ & _ & (k1 & Hk1)). exists (k1 ++ k). rewrite Hk. cbn. by rewrite Hk1, app_assoc.
Qed.

End loop.

(** ** Examples *)

(** A queue that looks only at what was there when the call started. *)
#[export] Instance list_queue : TaskQueue (list (Z * Z)) := {
  queue_new := [];
  enqueue i t q := q ++ [(i, t)];
  try_dequeue q0 q := match q0, q with [], _ | _, [] => None | _ :: _, x :: q' => Some (x, q') end;
}.
#[export, refine] Instance list_queue_laws : TaskQueueLaws (list (Z * Z)) := { contents q := q }.
Proof.
  - done.
  - done.
  - intros [|x q0] [|y q]; cbn; try done. by intros ?%prefix_nil_not.
  - intros [|x q0] [|y q] i t q' _; cbn; try done. intros [= -> ->]. exists [], q'. split; [done|]. split; [done|]. intros u. apply not_elem_of_nil.
Defined.

(** Task 5 posts task 6 on the loop. *)
Definition example_does (t : Z) : list action := if t =? 5 then [Post 6] else [].
Lemma example_no_quit : no_quit example_does.
Proof. intros t. unfold example_does. destruct (t =? 5); set_solver. Qed.
(** Two threads post while the loop goes round; the second finds the flag set. *)
Definition example_run : list label :=
  [Loop false; PCheck 1 5; PEnqueue 1 true; PTestAndSet 1; PCheck 2 7; PEnqueue 2 true; PTestAndSet 2; PWrite 1].

Lemma wakeup_never_lost_witness :
  exists m, do_steps example_does example_run (MessageLoop_new (Q := list (Z * Z))) = Some m /\ 0 < task_fd m /\ TaskEvent ∈ ready true m.
Proof.
  eexists. split; [vm_compute; reflexivity|].
  apply (wakeup_never_lost example_does example_run _ true); [vm_compute; reflexivity|reflexivity|reflexivity|discriminate].
Defined.

Lemma tasks_run_in_order_witness :
  exists m, do_steps example_does (example_run ++ replicate 6 (Loop false)) (MessageLoop_new (Q := list (Z * Z))) = Some m /\
  by_thread 1 (ran m) = by_thread 1 (posted m).
Proof.
  eexists. split; [vm_compute; reflexivity|].
  match goal with |- by_thread 1 (ran ?m) = _ => destruct (tasks_run_in_order example_does (example_run ++ replicate 6 (Loop false)) m) as [H _] end;
    [vm_compute; reflexivity|]. rewrite H. cbn. reflexivity.
Defined.

Lemma posted_tasks_run_witness :
  exists m n m', do_steps example_does example_run (MessageLoop_new (Q := list (Z * Z))) = Some m /\
  do_steps example_does (replicate n (Loop false)) m = Some m' /\ scheduled_tasks_ m' = [].
Proof.
  eexists. edestruct (posted_tasks_run example_does example_run) as (n & m' & H1 & H2 & _);
    [exact example_no_quit|repeat constructor|vm_compute; reflexivity|reflexivity|].
  exists n, m'. split; [vm_compute; reflexivity|]. split; [exact H1|exact H2].
Defined.

(** A task can be accepted and never run: the poster passes the [CHECK], the loop is
    stopped and drains its queue for the last time, and then the task is enqueued. *)
Theorem task_lost_at_shutdown :
  exists m, do_steps example_does ([PCheck 1 7; QuitCalled] ++ replicate 4 (Loop false) ++ [PEnqueue 1 true; PTestAndSet 1; PWrite 1])
              (MessageLoop_new (Q := list (Z * Z))) = Some m /\
  pc m = Ended /\ posters m !! 1 = None /\ posted m = [(1, 7)] /\ ran m = [].
Proof. eexists. split; [vm_compute; reflexivity|]. by vm_compute. Qed.

(** A task that posts a follow-up on its loop aborts the process when it runs in the
    last drain: [CHECK(running_)] fails. *)
Theorem follow_up_after_quit_aborts :
  exists m, do_steps example_does ([PCheck 1 5; PEnqueue 1 true; PTestAndSet 1; PWrite 1; QuitCalled] ++ replicate 3 (Loop false))
              (MessageLoop_new (Q := list (Z * Z))) = Some m /\
  pc m = LastDequeuing [(1, 5)] /\ ThreadMain_step example_does false m = None.
Proof. eexists. split; [vm_compute; reflexivity|]. by vm_compute. Qed.

End MessageLoop.
