(* ===== verification/EventPump.v ===== *)
(** * The timers of the event pump (base/message_loop/event_pump.cc, timeout_event.{h,cc},
      timer_task_helper.cc, and [MessageLoop::PostDelayTask])

    A [TimeoutEvent] is a timer of the wheel with a handler and an ownership flag; the
    pump adds events, removes them, computes how long to wait, and runs the handlers of
    the events that are due.  The clock's readings are arguments.  What a handler does
    to the pump is a parameter; a deleted event is no longer in the maps, and [None] is
    a use of it, a failed [CHECK] or an undefined operation of the wheel. *)
From stdpp Require Import gmap.
From S2P Require Import Prelude TimerWheel TimerSpec.
Import TimerWheel TimerSpec.

Module EventPump.

Record TimeoutEvent := mkEvent { handler_ : option Z; del_after_invoke_ : bool }.
Record Pump := mkPump {
  timeout_wheel_ : timeouts;
  events : gmap Z TimeoutEvent;      (* what the events hold beside their timer *)
  fired : list Z;                    (* the events whose handlers ran *)
}.

(** What a handler does: add an event a little later than the pump read the clock,
    remove one, delete one. *)
Inductive effect := EAdd (p lag : Z) | ERemove (p : Z) | EDelete (p : Z).

Section pump.
Variable does : Z -> list effect.

Definition set_wheel (T : timeouts) (P : Pump) : Pump := mkPump T (events P) (fired P).

(** ** [TimeoutEvent] *)

(** The constructor, at a fresh address. *)
Definition TimeoutEvent_new (p ms : Z) (repeat : bool) (P : Pump) : option Pump :=
  match heap (timeout_wheel_ P) !! p with
  | Some _ => None
  | None =>
      let to := timeout_init (if repeat then TIMEOUT_INT else TIMEOUT_ABS) in
      let to := mkTimeout (flags to) (expires to) (to_pending to) ms (attached to) in
      Some (mkPump (set_heap (<[p := to]> (heap (timeout_wheel_ P))) (timeout_wheel_ P)) (<[p := mkEvent None false]> (events P)) (fired P))
  end.
Definition CreateOneShot (p ms : Z) (delete_after_invoke : bool) (P : Pump) : option Pump :=
  P ← TimeoutEvent_new p ms false P;
  ev ← events P !! p;
  Some (mkPump (timeout_wheel_ P) (<[p := mkEvent (handler_ ev) delete_after_invoke]> (events P)) (fired P)).
Definition InstallHandler (p h : Z) (P : Pump) : option Pump :=
  ev ← events P !! p;
  Some (mkPump (timeout_wheel_ P) (<[p := mkEvent (Some h) (del_after_invoke_ ev)]> (events P)) (fired P)).
Definition UpdateInterval (p ms : Z) (P : Pump) : option Pump :=
  to ← heap (timeout_wheel_ P) !! p;
  Some (set_wheel (set_heap (<[p := mkTimeout (flags to) (expires to) (to_pending to) (u64 ms) (attached to)]> (heap (timeout_wheel_ P)))
          (timeout_wheel_ P)) P).
Definition IsAttached (to : timeout) : bool := match to_pending to with Some _ => true | None => false end.
Definition IsRepeated (to : timeout) : bool := has (flags to) TIMEOUT_INT.
(** The destructor checks that the event is not attached. *)
Definition delete_event (p : Z) (P : Pump) : option Pump :=
  to ← heap (timeout_wheel_ P) !! p;
  if IsAttached to then None
  else Some (mkPump (set_heap (delete p (heap (timeout_wheel_ P))) (timeout_wheel_ P)) (delete p (events P)) (fired P)).

(** ** The pump *)

Definition add_timer_internal (now p : Z) (P : Pump) : option Pump :=
  to ← heap (timeout_wheel_ P) !! p;
  let t := if IsRepeated to then interval to else u64 (now + interval to) in
  T ← timeouts_add p t (timeout_wheel_ P);
  Some (set_wheel T P).
Definition AddTimeoutEvent (now p : Z) (P : Pump) : option Pump := add_timer_internal now p P.
Definition RemoveTimeoutEvent (p : Z) (P : Pump) : option Pump :=
  T ← timeouts_del p (timeout_wheel_ P); Some (set_wheel T P).

Fixpoint run_effects (es : list effect) (P : Pump) : option Pump :=
  match es with
  | [] => Some P
  | EAdd p lag :: es => P ← AddTimeoutEvent (curtime (timeout_wheel_ P) + lag) p P; run_effects es P
  | ERemove p :: es => P ← RemoveTimeoutEvent p P; run_effects es P
  | EDelete p :: es => P ← delete_event p P; run_effects es P
  end.
Definition Invoke (p : Z) (P : Pump) : option Pump :=
  ev ← events P !! p;
  let P := mkPump (timeout_wheel_ P) (events P) (fired P ++ [p]) in
  match handler_ ev with Some h => run_effects (does h) P | None => Some P end.

(** The loop over the expired timers; an event is read again after its handler. *)
Fixpoint process_loop (fuel : nat) (P : Pump) : option Pump :=
  match fuel with
  | O => None
  | S fuel =>
      r ← timeouts_get (timeout_wheel_ P);
      let '(expired, T) := r in
      let P := set_wheel T P in
      match expired with
      | None => Some P
      | Some p =>
          P ← Invoke p P;
          to ← heap (timeout_wheel_ P) !! p;
          ev ← events P !! p;
          P ← (if negb (IsRepeated to) && del_after_invoke_ ev then delete_event p P else Some P);
          process_loop fuel P
      end
  end.
Definition ProcessTimerEvent (now : Z) (P : Pump) : option Pump :=
  T ← timeouts_update now (timeout_wheel_ P);
  process_loop (S (size (heap T))) (set_wheel T P).

Definition NextTimeout (now : Z) (P : Pump) : option (Z * Pump) :=
  let default_timeout_ms := 50 in
  T ← timeouts_update now (timeout_wheel_ P);
  let P := set_wheel T P in
  if timeouts_expired T then Some (0, P) else
  if timeouts_pending T then t ← timeouts_timeout T; Some (Z.min default_timeout_ms t, P)
  else Some (default_timeout_ms, P).

(** [Pump]: the delay of the wait, then the timers at the time it ended. *)
Definition Pump_timers (ms now1 now2 : Z) (P : Pump) : option (Z * Pump) :=
  r ← NextTimeout now1 P;
  let '(t, P) := r in
  P ← ProcessTimerEvent now2 P;
  Some (Z.min ms t, P).

(** [MessageLoop::PostDelayTask] on the loop's thread: [p] is the new event. *)
Definition PostDelayTask (now p task ms : Z) (P : Pump) : option Pump :=
  P ← CreateOneShot p ms true P;
  P ← InstallHandler p task P;
  AddTimeoutEvent now p P.
(** [TimerTaskHelper::Run]: the task of [PostDelayTask] on another thread, scheduled at
    [schedule_time], reaches the loop at [now]; [None] in the result is the task run. *)
Definition TimerTaskHelper_Run (schedule_time delay_ms now p task : Z) (P : Pump) : option (option Z * Pump) :=
  let has_passed_time := u64 (now - schedule_time) in
  let new_delay_ms := i64 (delay_ms - has_passed_time) in
  if new_delay_ms <=? 0 then Some (Some task, P)
  else
    P ← CreateOneShot p new_delay_ms true P;
    P ← InstallHandler p task P;
    P ← AddTimeoutEvent now p P;
    Some (None, P).

(** [InitializeTimeWheel]; no event is attached yet. *)
Definition InitializeTimeWheel (now : Z) : option Pump :=
  T ← timeouts_update now (timeouts_init ∅ 1000); Some (mkPump T ∅ []).
(** [FinalizeTimeWheel]: every timer on a list is removed, those the pump owns are
    deleted. *)
Definition on_lists (T : timeouts) : list Z := expired T ++ concat ((fun ws => slot_list T ws.1 ws.2) <$> slots_in_order).
Fixpoint remove_all (ps : list Z) (P : Pump) (owned : list Z) : option (Pump * list Z) :=
  match ps with
  | [] => Some (P, owned)
  | p :: ps =>
      P ← RemoveTimeoutEvent p P;
      ev ← events P !! p;
      remove_all ps P (if del_after_invoke_ ev then owned ++ [p] else owned)
  end.
Fixpoint delete_all (ps : list Z) (P : Pump) : option Pump :=
  match ps with [] => Some P | p :: ps => P ← delete_event p P; delete_all ps P end.
Definition FinalizeTimeWheel (P : Pump) : option Pump :=
  r ← remove_all (on_lists (timeout_wheel_ P)) P [];
  P ← delete_all r.2 r.1;
  Some (set_wheel (timeouts_reset (timeout_wheel_ P)) P).

(** ** Events and the wheel *)

Notation timers_of P := (timers (abs (timeout_wheel_ P))).

Lemma wf_new T p to : wf [] T -> heap T !! p = None -> in_range to -> to_pending to = None -> wf [] (set_heap (<[p := to]> (heap T)) T).
Proof.
  intros [H1 H2 H3 H4 H5 [H6 H7]] Hp Hr Hpd. split; [..|done|done|].
  - intros r q Hq. destruct (H1 r q Hq) as (tq & Hh & ?). exists tq. cbn [heap set_heap]. rewrite lookup_insert_ne; [done|]. intros ->. congruence.
  - intros q tq r. cbn [heap set_heap]. destruct (decide (q = p)) as [->|]; [rewrite lookup_insert_eq; intros [= <-]; congruence|].
    rewrite lookup_insert_ne by done. apply H2.
  - intros q Hq. by apply elem_of_nil in Hq.
  - split; [done|]. intros q tq. cbn [heap set_heap]. destruct (decide (q = p)) as [->|]; [rewrite lookup_insert_eq; by intros [= <-]|].
    rewrite lookup_insert_ne by done. apply H7.
Qed.
Lemma wf_drop T p to : wf [] T -> heap T !! p = Some to -> to_pending to = None -> wf [] (set_heap (delete p (heap T)) T).
Proof.
  intros [H1 H2 H3 H4 H5 [H6 H7]] Hp Hpd. split; [..|done|done|].
  - intros r q Hq. destruct (H1 r q Hq) as (tq & Hh & Hpq & Hb). exists tq. cbn [heap set_heap]. rewrite lookup_delete_ne; [done|]. intros ->. congruence.
  - intros q tq r. cbn [heap set_heap]. intros Hq. apply lookup_delete_Some in Hq as [_ Hq]. by apply H2.
  - intros q Hq. by apply elem_of_nil in Hq.
  - split; [done|]. intros q tq. cbn [heap set_heap]. intros Hq. apply lookup_delete_Some in Hq as [_ Hq]. by apply (H7 q).
Qed.

(** The events handlers use: they exist as long as the pump does, and have a delay. *)
Variable static : gset Z.
Definition ok (P : Pump) : Prop :=
  wf [] (timeout_wheel_ P) /\ dom (events P) = dom (heap (timeout_wheel_ P)) /\ curtime (timeout_wheel_ P) < 2 ^ 60 /\
  forall q, q ∈ static -> exists t ev, timers_of P !! q = Some t /\ events P !! q = Some ev /\ del_after_invoke_ ev = false /\
    1 <= t_interval t < 2 ^ 60 /\ (t_flags t = TIMEOUT_INT \/ t_flags t = TIMEOUT_ABS).
Definition effect_ok (e : effect) : Prop :=
  match e with EAdd q lag => q ∈ static /\ 0 <= lag < 2 ^ 60 | ERemove q => q ∈ static | EDelete _ => False end.
Definition does_ok : Prop := forall h, Forall effect_ok (does h).

(** What an operation on static events leaves alone. *)
Definition keeps (P P' : Pump) : Prop :=
  ok P' /\ events P' = events P /\ fired P' = fired P /\ curtime (timeout_wheel_ P') = curtime (timeout_wheel_ P) /\
  (forall q, q ∉ static -> timers_of P' !! q = timers_of P !! q) /\
  forall q, q ∈ expired (timeout_wheel_ P') -> q ∈ expired (timeout_wheel_ P).

Lemma keeps_refl P : ok P -> keeps P P.
Proof. done. Qed.
Lemma keeps_trans P1 P2 P3 : keeps P1 P2 -> keeps P2 P3 -> keeps P1 P3.
Proof.
  intros (_ & E1 & F1 & C1 & S1 & D1) (O2 & E2 & F2 & C2 & S2 & D2). split_and!; try done; try congruence.
  - intros q Hq. by rewrite S2, S1.
  - intros q Hq. by apply D1, D2.
Qed.

(** Replacing the timer of an event. *)
Lemma update_ok P T' q t t' :
  ok P -> wf [] T' -> timers_of P !! q = Some t -> curtime T' = curtime (timeout_wheel_ P) ->
  timer_view <$> heap T' = <[q := t']> (timer_view <$> heap (timeout_wheel_ P)) ->
  t_flags t' = t_flags t -> t_interval t' = t_interval t -> ok (set_wheel T' P).
Proof.
  intros (Hwf & Hd & Hc & Hst) Hwf' Ht Hc' Hv Hf Hi.
  assert (timers (abs T') = <[q := t']> (timers_of P)) as Hm by (cbn; exact Hv).
  split; [done|]. split.
  - cbn [events set_wheel timeout_wheel_]. rewrite Hd. apply (f_equal dom) in Hv. rewrite dom_fmap_L, dom_insert_lookup_L, dom_fmap_L in Hv; [done|]. by exists t.
  - cbn [timeout_wheel_ set_wheel]. rewrite Hc'. split; [done|]. intros r Hr. destruct (Hst r Hr) as (tr & ev & Htr & Hev & Hdel & Hir & Hfr).
    rewrite Hm. destruct (decide (r = q)) as [->|]; [|rewrite lookup_insert_ne by done; eauto 10].
    rewrite Ht in Htr. injection Htr as <-. exists t', ev. rewrite lookup_insert_eq, Hf, Hi. done.
Qed.
(** The events that are due after a timer that is not due replaced one. *)
Lemma update_due P T' q t' r :
  ok P -> wf [] T' -> timer_view <$> heap T' = <[q := t']> (timer_view <$> heap (timeout_wheel_ P)) -> t_phase t' <> Due ->
  r ∈ expired T' -> r ∈ expired (timeout_wheel_ P) /\ r <> q.
Proof.
  intros (Hwf & _) Hwf' Hv Hph Hr. apply (due_iff T') in Hr as (tr & Htr & Hd'); [|done]. cbn [abs timers] in Htr. rewrite Hv in Htr.
  destruct (decide (r = q)) as [->|]; [rewrite lookup_insert_eq in Htr; by injection Htr as <-|]. rewrite lookup_insert_ne in Htr by done.
  split; [|done]. apply due_iff; [done|]. by exists tr.
Qed.
Lemma keeps_update P T' q t t' :
  ok P -> wf [] T' -> q ∈ static -> timers_of P !! q = Some t -> curtime T' = curtime (timeout_wheel_ P) ->
  timer_view <$> heap T' = <[q := t']> (timer_view <$> heap (timeout_wheel_ P)) ->
  t_flags t' = t_flags t -> t_interval t' = t_interval t -> t_phase t' <> Due -> keeps P (set_wheel T' P).
Proof.
  intros Ho Hwf' Hq Ht Hc' Hv Hf Hi Hph. split_and!; try done.
  - by apply (update_ok P T' q t t').
  - intros r Hr. cbn [timeout_wheel_ set_wheel abs timers]. rewrite Hv, lookup_insert_ne; [done|]. intros ->. done.
  - intros r Hr. by apply (update_due P T' q t' r).
Qed.

Lemma timers_lookup T p t : timers (abs T) !! p = Some t -> exists to, heap T !! p = Some to /\ t = timer_view to.
Proof. cbn. rewrite lookup_fmap. destruct (heap T !! p) as [to|]; [|done]. intros [= <-]. by exists to. Qed.

Lemma effect_keeps e P : effect_ok e -> ok P -> exists P',
  match e with EAdd p lag => AddTimeoutEvent (curtime (timeout_wheel_ P) + lag) p P | ERemove p => RemoveTimeoutEvent p P | EDelete p => delete_event p P end
  = Some P' /\ keeps P P'.
Proof.
  intros He Ho. pose proof Ho as (Hwf & _ & Hc & Hst). destruct e as [q lag|q|q]; [|..|done].
  - destruct He as [Hq Hlag]. destruct (Hst q Hq) as (t & ev & Ht & _ & _ & Hi & Hf). destruct (timers_lookup _ _ _ Ht) as (to & Hto & ->).
    cbn [timer_view t_flags t_interval] in Hi, Hf. pose proof (wf_time _ _ Hwf) as [Hcur _]. unfold AddTimeoutEvent, add_timer_internal, IsRepeated. rewrite Hto. cbn [mbind option_bind].
    set (d := if has (flags to) TIMEOUT_INT then interval to else u64 (curtime (timeout_wheel_ P) + lag + interval to)).
    assert (0 <= d < 2 ^ 62 /\ added (curtime (timeout_wheel_ P)) d (timer_view to) =
      mkTimer (flags to) (interval to) (if has (flags to) TIMEOUT_INT then curtime (timeout_wheel_ P) + d else d) Waiting) as [Hd Ha].
    { unfold d, added, arm. cbn [timer_view t_flags t_interval t_expires]. destruct Hf as [-> | ->].
      - change (has TIMEOUT_INT TIMEOUT_ABS) with false. change (has TIMEOUT_INT TIMEOUT_INT) with true. cbn iota. split; [lia|].
        rewrite Z.max_r by lia. rewrite (proj2 (Z.ltb_lt _ _)) by lia. done.
      - change (has TIMEOUT_ABS TIMEOUT_INT) with false. change (has TIMEOUT_ABS TIMEOUT_ABS) with true. cbn iota. rewrite u64_id by lia.
        split; [lia|]. rewrite (proj2 (Z.ltb_lt _ _)) by lia. done. }
    destruct (add_spec (timeout_wheel_ P) q d to Hwf Hto Hd) as (T' & -> & Hwf' & Hc' & Hv). cbn [mbind option_bind]. eexists. split; [done|].
    apply (keeps_update P T' q (timer_view to) _ Ho Hwf' Hq Ht Hc' Hv); by rewrite Ha.
  - destruct (Hst q He) as (t & ev & Ht & _ & _ & Hi & Hf). destruct (timers_lookup _ _ _ Ht) as (to & Hto & ->).
    destruct (del_spec (timeout_wheel_ P) q to Hwf Hto) as (T' & E & Hwf' & Hh & Hc'). unfold RemoveTimeoutEvent. rewrite E. cbn [mbind option_bind].
    eexists. split; [done|]. apply (keeps_update P T' q (timer_view to) (timer_view (detached to)) Ho Hwf' He Ht Hc'); [by rewrite Hh, fmap_insert|..];
      unfold detached, timer_view; by destruct (to_pending to) eqn:Ep; cbn; rewrite ?Ep.
Qed.
Lemma effects_keep es P : Forall effect_ok es -> ok P -> exists P', run_effects es P = Some P' /\ keeps P P'.
Proof.
  revert P. induction es as [|e es IH]; intros P Hes Ho; [exists P; by split; [|apply keeps_refl]|].
  apply Forall_cons_iff in Hes as [He Hes]. destruct (effect_keeps e P He Ho) as (P1 & E & K1).
  destruct (IH P1 Hes (proj1 K1)) as (P2 & E2 & K2). exists P2. split; [|by apply (keeps_trans P P1)].
  destruct e; cbn [run_effects]; rewrite E; exact E2.
Qed.

(** ** One timer *)

(** What is left of an event that was due, after its handler. *)
Definition after (c : Z) (t : timer) (ev : TimeoutEvent) (o : option timer) (oe : option TimeoutEvent) : Prop :=
  if periodic t then (exists e, o = Some (mkTimer (t_flags t) (t_interval t) e Waiting) /\ next_firing c t e) /\ oe = Some ev
  else if negb (has (t_flags t) TIMEOUT_INT) && del_after_invoke_ ev then o = None /\ oe = None
  else o = Some (idle t) /\ oe = Some ev.

Lemma drop_ok P p to :
  ok P -> p ∉ static -> heap (timeout_wheel_ P) !! p = Some to -> to_pending to = None ->
  exists P', delete_event p P = Some P' /\ ok P' /\ fired P' = fired P /\ curtime (timeout_wheel_ P') = curtime (timeout_wheel_ P) /\
  timers_of P' = delete p (timers_of P) /\ events P' = delete p (events P) /\ expired (timeout_wheel_ P') = expired (timeout_wheel_ P).
Proof.
  intros (Hwf & Hd & Hc & Hst) Hs Hto Hpd. unfold delete_event, IsAttached. rewrite Hto. cbn [mbind option_bind]. rewrite Hpd.
  eexists. split; [done|]. split_and!; try done; [|by cbn; rewrite fmap_delete].
  split; [by apply (wf_drop _ p to)|]. cbn [events timeout_wheel_ set_heap heap curtime]. split; [by rewrite !dom_delete_L, Hd|]. split; [done|].
  intros q Hq. assert (q <> p) by (intros ->; done). destruct (Hst q Hq) as (t & ev & Ht & Hev & Hrest). exists t, ev.
  cbn [abs timers set_heap heap]. rewrite fmap_delete, !lookup_delete_ne by done. done.
Qed.

Lemma process_one P p l fuel :
  does_ok -> ok P -> expired (timeout_wheel_ P) = p :: l ->
  exists P' t ev, process_loop (S fuel) P = process_loop fuel P' /\ ok P' /\ curtime (timeout_wheel_ P') = curtime (timeout_wheel_ P) /\
  fired P' = fired P ++ [p] /\ (forall q, q ∈ expired (timeout_wheel_ P') -> q ∈ expired (timeout_wheel_ P) /\ q <> p) /\
  (forall q, q ∉ static -> q <> p -> timers_of P' !! q = timers_of P !! q /\ events P' !! q = events P !! q) /\
  timers_of P !! p = Some t /\ events P !! p = Some ev /\
  (p ∉ static -> after (curtime (timeout_wheel_ P)) t ev (timers_of P' !! p) (events P' !! p)).
Proof.
  intros Hdoes Ho El. pose proof Ho as (Hwf & Hd & Hc & Hst).
  destruct (wf_lists _ _ Hwf Expired p) as (to & Hto & _); [cbn; rewrite El; apply list_elem_of_here|].
  destruct (get_spec _ p l to Hwf El Hto) as (T1 & t1 & Hget & Hwf1 & Hc1 & Hpd & Hv1 & Ht1).
  assert (timers_of P !! p = Some (timer_view to)) as Ht by (cbn; by rewrite lookup_fmap, Hto).
  assert (is_Some (events P !! p)) as [ev Hev] by (apply elem_of_dom; rewrite Hd; by apply elem_of_dom; eexists).
  assert (t_flags t1 = flags to /\ t_interval t1 = interval to /\ t_phase t1 <> Due) as (F1 & I1 & P1)
    by (destruct (periodic (timer_view to)); [destruct Ht1 as (e & -> & _)|subst t1]; done).
  pose proof (update_ok P T1 p (timer_view to) t1 Ho Hwf1 Ht Hc1 Hv1 F1 I1) as Ho1.
  assert (exists P2, Invoke p (set_wheel T1 P) = Some P2 /\ ok P2 /\ events P2 = events P /\ fired P2 = fired P ++ [p] /\
    curtime (timeout_wheel_ P2) = curtime (timeout_wheel_ P) /\ (forall q, q ∉ static -> timers_of P2 !! q = timers (abs T1) !! q) /\
    forall q, q ∈ expired (timeout_wheel_ P2) -> q ∈ expired T1) as (P2 & Hinv & Ho2 & He2 & Hf2 & Hc2 & Hs2 & Hx2).
  { unfold Invoke. cbn [set_wheel events timeout_wheel_ fired]. rewrite Hev. cbn [mbind option_bind]. set (Pf := mkPump T1 _ _).
    assert (ok Pf) as Hof by exact Ho1. destruct (handler_ ev) as [h|].
    - destruct (effects_keep (does h) Pf (Hdoes h) Hof) as (P2 & E & K1 & K2 & K3 & K4 & K5 & K6). exists P2. rewrite K4. by split_and!.
    - exists Pf. by split_and!. }
  assert (forall q, q ∈ expired (timeout_wheel_ P2) -> q ∈ expired (timeout_wheel_ P) /\ q <> p) as Hx
    by (intros q Hq; apply (update_due P T1 p t1 q Ho Hwf1 Hv1 P1); by apply Hx2).
  assert (exists to2, heap (timeout_wheel_ P2) !! p = Some to2 /\ (p ∉ static -> timer_view to2 = t1)) as (to2 & Hto2 & Hsame).
  { assert (is_Some (heap (timeout_wheel_ P2) !! p)) as [to2 Hto2].
    { apply elem_of_dom. rewrite <- (proj1 (proj2 Ho2)), He2. apply elem_of_dom. by exists ev. }
    exists to2. split; [done|]. intros Hs. specialize (Hs2 p Hs). cbn [abs timers] in Hs2. rewrite Hv1, lookup_insert_eq, lookup_fmap, Hto2 in Hs2. by injection Hs2. }
  assert (process_loop (S fuel) P = P3 ← (if negb (IsRepeated to2) && del_after_invoke_ ev then delete_event p P2 else Some P2); process_loop fuel P3) as Heq.
  { cbn [process_loop]. rewrite Hget. cbn [mbind option_bind]. rewrite Hinv. cbn [mbind option_bind]. rewrite Hto2. cbn [mbind option_bind]. by rewrite He2, Hev. }
  rewrite Heq. clear Heq. destruct (decide (p ∈ static)) as [Hs|Hs].
  - assert (del_after_invoke_ ev = false) as -> by (destruct (Hst p Hs) as (? & ev' & _ & Hev' & Hdel & _); congruence). rewrite andb_false_r.
    exists P2, (timer_view to), ev. split; [done|]. split_and!; try done. intros q Hq Hqp. split; [|by rewrite He2]. rewrite Hs2 by done.
    cbn [abs timers]. by rewrite Hv1, lookup_insert_ne.
  - specialize (Hsame Hs). assert (IsRepeated to2 = has (flags to) TIMEOUT_INT) as -> by (unfold IsRepeated; rewrite <- F1, <- Hsame; done).
    assert (forall q, q ∉ static -> q <> p -> timers_of P2 !! q = timers_of P !! q) as Hoth
      by (intros q Hq Hqp; rewrite Hs2 by done; cbn [abs timers]; by rewrite Hv1, lookup_insert_ne).
    assert (timers_of P2 !! p = Some t1) as Hp2 by (cbn [abs timers]; by rewrite lookup_fmap, Hto2, <- Hsame).
    destruct (negb (has (flags to) TIMEOUT_INT) && del_after_invoke_ ev) eqn:Edel.
    + assert (periodic (timer_view to) = false) as Eper by (unfold periodic; cbn [timer_view t_flags]; by destruct (has (flags to) TIMEOUT_INT)).
      rewrite Eper in Ht1. subst t1.
      destruct (drop_ok P2 p to2 Ho2 Hs Hto2) as (P3 & -> & Ho3 & Hf3 & Hc3 & Ht3 & He3 & Hx3).
      { apply (f_equal t_phase) in Hsame. cbn in Hsame. by destruct (to_pending to2) as [[]|]. }
      exists P3, (timer_view to), ev. cbn [mbind option_bind]. split; [done|]. split_and!; try done; try congruence.
      * intros q Hq. rewrite Hx3 in Hq. by apply Hx.
      * intros q Hq Hqp. rewrite Ht3, He3, !lookup_delete_ne, Hoth, He2 by done. done.
      * intros _. unfold after. rewrite Eper. cbn [timer_view t_flags]. rewrite Edel, Ht3, He3, !lookup_delete_eq. done.
    + exists P2, (timer_view to), ev. cbn [mbind option_bind]. split; [done|]. split_and!; try done.
      * intros q Hq Hqp. by rewrite Hoth, He2.
      * intros _. unfold after. cbn [timer_view t_flags]. rewrite Edel, Hp2, He2. destruct (periodic (timer_view to)); [|by subst t1].
        destruct Ht1 as (e & -> & Hnf). split; [|done]. by exists e.
Qed.

(** ** All the timers that are due *)

Definition fired_times (x : Z) (l : list Z) : nat := length (filter (fun y => y = x) l).
Lemma times_snoc x p l : fired_times x (l ++ [p]) = (fired_times x l + if decide (p = x) then 1 else 0)%nat.
Proof. unfold fired_times. rewrite list.filter_app, length_app, list.filter_cons, list.filter_nil. by destruct (decide (p = x)). Qed.

(** Following one event through the handlers: it fires once if it is due, and is left
    alone otherwise. *)
Definition fate (P P' : Pump) (x : Z) : Prop :=
  match timers_of P !! x, events P !! x with
  | Some t, Some ev =>
      if decide (t_phase t = Due) then
        fired_times x (fired P') = S (fired_times x (fired P)) /\ after (curtime (timeout_wheel_ P)) t ev (timers_of P' !! x) (events P' !! x)
      else fired_times x (fired P') = fired_times x (fired P) /\ timers_of P' !! x = Some t /\ events P' !! x = Some ev
  | o, oe => fired_times x (fired P') = fired_times x (fired P) /\ timers_of P' !! x = o /\ events P' !! x = oe
  end.

Lemma after_not_due c t ev o oe : after c t ev o oe -> match o with Some t' => t_phase t' <> Due /\ oe = Some ev | None => oe = None end.
Proof.
  unfold after. destruct (periodic t); [by intros [(e & -> & _) ->]|]. destruct (negb _ && _); by intros [-> ->].
Qed.

Lemma process_loop_spec fuel P :
  does_ok -> ok P -> (length (expired (timeout_wheel_ P)) < fuel)%nat ->
  exists P', process_loop fuel P = Some P' /\ ok P' /\ curtime (timeout_wheel_ P') = curtime (timeout_wheel_ P) /\
  expired (timeout_wheel_ P') = [] /\ forall x, x ∉ static -> fate P P' x.
Proof.
  intros Hdoes. revert P. induction fuel as [|fuel IH]; intros P Ho Hlen; [lia|].
  destruct (expired (timeout_wheel_ P)) as [|p l] eqn:El.
  - exists P. split; [|split; [done|]; split; [done|]; split; [done|]].
    + cbn [process_loop]. unfold timeouts_get. rewrite El. by destruct P.
    + intros x _. unfold fate. destruct (timers_of P !! x) as [t|] eqn:Et; [|done]. destruct (events P !! x); [|done].
      rewrite decide_False; [done|]. intros Hd. assert (x ∈ expired (timeout_wheel_ P)) as Hin by (apply due_iff; [apply Ho|by exists t]).
      rewrite El in Hin. by apply elem_of_nil in Hin.
  - destruct (process_one P p l fuel Hdoes Ho El) as (P1 & t & ev & Heq & Ho1 & Hc1 & Hf1 & Hx1 & Hoth & Ht & Hev & Haft).
    assert (NoDup (expired (timeout_wheel_ P1)) /\ NoDup (expired (timeout_wheel_ P))) as [Hnd1 Hnd]
      by (split; [exact (proj2 (wf_nodup _ _ (proj1 Ho1)) Expired)|exact (proj2 (wf_nodup _ _ (proj1 Ho)) Expired)]).
    destruct (IH P1 Ho1) as (P' & Hr & Ho' & Hc' & Hx' & Hfate).
    { assert (p ∉ expired (timeout_wheel_ P1)) as Hnin by (intros Hin; by destruct (Hx1 p Hin)).
      assert (length (p :: expired (timeout_wheel_ P1)) <= length (p :: l))%nat; [|cbn in *; lia].
      apply submseteq_length, NoDup_submseteq; [by apply list.NoDup_cons|]. intros q Hq. apply elem_of_cons in Hq as [->|Hq]; [apply list_elem_of_here|].
      rewrite <- El. by apply Hx1. }
    exists P'. rewrite Heq. split; [done|]. split; [done|]. split; [congruence|]. split; [done|].
    intros x Hxs. specialize (Hfate x Hxs). unfold fate in *. rewrite Hf1, times_snoc in Hfate. destruct (decide (p = x)) as [->|Hpx].
    + rewrite Ht, Hev. assert (t_phase t = Due) as Hdue.
      { assert (x ∈ expired (timeout_wheel_ P)) as Hin by (rewrite El; apply list_elem_of_here).
        apply due_iff in Hin as (t' & Ht' & Hd'); [congruence|apply Ho]. }
      rewrite decide_True by done. specialize (Haft Hxs). pose proof (after_not_due _ _ _ _ _ Haft) as Hnd'.
      destruct (timers_of P1 !! x) as [t1|].
      * destruct Hnd' as [Hph He1]. rewrite He1 in Hfate, Haft. rewrite decide_False in Hfate by done.
        destruct Hfate as (Hn & E1 & E2). rewrite E1, E2. split; [lia|done].
      * rewrite Hnd' in Hfate, Haft. destruct Hfate as (Hn & E1 & E2). rewrite E1, E2. split; [lia|done].
    + destruct (Hoth x Hxs ltac:(done)) as [E1 E2]. rewrite E1, E2, Hc1, Nat.add_0_r in Hfate. exact Hfate.
Qed.

(** [ProcessTimerEvent] at a clock reading: the wheel advances, then the handlers run. *)
Lemma process_spec now P :
  does_ok -> ok P -> curtime (timeout_wheel_ P) <= now < 2 ^ 60 ->
  exists P', ProcessTimerEvent now P = Some P' /\ ok P' /\ curtime (timeout_wheel_ P') = now /\ expired (timeout_wheel_ P') = [] /\
  exists P1, events P1 = events P /\ fired P1 = fired P /\ curtime (timeout_wheel_ P1) = now /\
  timers_of P1 = advance now <$> timers_of P /\ forall x, x ∉ static -> fate P1 P' x.
Proof.
  intros Hdoes (Hwf & Hd & Hc & Hst) Hnow. destruct (update_spec (timeout_wheel_ P) now Hwf) as (T1 & Hup & Hwf1 & Hc1 & Hv1); [lia|].
  set (P1 := set_wheel T1 P). assert (ok P1) as Ho1.
  { split; [done|]. cbn [P1 set_wheel events timeout_wheel_]. apply (f_equal dom) in Hv1 as Hdom. rewrite !dom_fmap_L in Hdom. split; [congruence|]. split; [lia|].
    intros q Hq. destruct (Hst q Hq) as (t & ev & Ht & Hev & Hrest). exists (advance now t), ev. cbn [abs timers]. rewrite Hv1, lookup_fmap.
    cbn [abs timers] in Ht. rewrite Ht. split; [done|]. split; [done|]. unfold advance. by destruct (t_phase t). }
  destruct (process_loop_spec (S (size (heap T1))) P1 Hdoes Ho1) as (P' & Hl & Ho' & Hc' & Hx & Hfate).
  { cbn [P1 set_wheel timeout_wheel_]. assert (length (expired T1) <= size (heap T1))%nat; [|lia].
    rewrite <- size_dom, <- (size_list_to_set (C := gset Z) (expired T1)) by exact (proj2 (wf_nodup _ _ Hwf1) Expired).
    apply subseteq_size. intros q Hq. apply elem_of_list_to_set in Hq. destruct (wf_lists _ _ Hwf1 Expired q Hq) as (to & Hto & _).
    apply elem_of_dom. by exists to. }
  exists P'. unfold ProcessTimerEvent. rewrite Hup. cbn [mbind option_bind]. split; [exact Hl|]. split; [done|]. split; [by rewrite Hc'|]. split; [done|].
  exists P1. by split_and!.
Qed.

(** The pump at successive readings of the clock. *)
Fixpoint process_times (ns : list Z) (P : Pump) : option Pump :=
  match ns with [] => Some P | n :: ns => P ← ProcessTimerEvent n P; process_times ns P end.
Fixpoint clock_ok (c : Z) (ns : list Z) : Prop :=
  match ns with [] => True | n :: ns => c <= n < 2 ^ 60 /\ clock_ok n ns end.

Lemma process_gone ns P x :
  does_ok -> ok P -> x ∉ static -> clock_ok (curtime (timeout_wheel_ P)) ns -> timers_of P !! x = None ->
  exists P', process_times ns P = Some P' /\ ok P' /\ timers_of P' !! x = None /\ fired_times x (fired P') = fired_times x (fired P).
Proof.
  intros Hdoes. revert P. induction ns as [|n ns IH]; intros P Ho Hx Hc Hn; [by exists P|]. destruct Hc as [Hn' Hc].
  destruct (process_spec n P Hdoes Ho Hn') as (P1 & Hp & Ho1 & Hc1 & _ & P0 & He0 & Hf0 & _ & Ht0 & Hfate).
  specialize (Hfate x Hx). unfold fate in Hfate. rewrite Ht0, lookup_fmap, Hn in Hfate. cbn in Hfate. destruct Hfate as (E1 & E2 & _).
  destruct (IH P1 Ho1 Hx) as (P' & Hr & Ho' & Hn1 & Hf1); [by rewrite Hc1|done|]. exists P'. cbn [process_times]. rewrite Hp. cbn [mbind option_bind].
  split_and!; [done..|]. congruence.
Qed.
(** A one-shot event that the pump owns: it fires once its deadline is reached, and
    then it is gone. *)
Lemma process_once ns P x t ev :
  does_ok -> ok P -> x ∉ static -> clock_ok (curtime (timeout_wheel_ P)) ns -> timers_of P !! x = Some t -> events P !! x = Some ev ->
  del_after_invoke_ ev = true -> t_flags t = TIMEOUT_ABS -> (t_phase t = Waiting \/ t_phase t = Due /\ t_expires t <= curtime (timeout_wheel_ P)) ->
  exists P', process_times ns P = Some P' /\ ok P' /\
  if existsb (fun n => t_expires t <=? n) ns
  then timers_of P' !! x = None /\ fired_times x (fired P') = S (fired_times x (fired P))
  else is_Some (timers_of P' !! x) /\ fired_times x (fired P') = fired_times x (fired P).
Proof.
  intros Hdoes. revert P t. induction ns as [|n ns IH]; intros P t Ho Hx Hc Ht Hev Hdel Hfl Hph; [exists P; by rewrite Ht|]. destruct Hc as [Hn Hc].
  destruct (process_spec n P Hdoes Ho Hn) as (P1 & Hp & Ho1 & Hc1 & _ & P0 & He0 & Hf0 & Hc0 & Ht0 & Hfate).
  specialize (Hfate x Hx). unfold fate in Hfate. rewrite Ht0, lookup_fmap, Ht, He0, Hev in Hfate. cbn [fmap option_fmap option_map] in Hfate.
  cbn [process_times existsb]. rewrite Hp. cbn [mbind option_bind].
  assert (t_phase (advance n t) = if t_expires t <=? n then Due else Waiting) as Ea.
  { unfold advance. destruct Hph as [E|[E Hle]]; rewrite E.
    - unfold arm. cbn. destruct (Z.ltb_spec n (t_expires t)), (Z.leb_spec (t_expires t) n); lia || done.
    - rewrite E. by rewrite (proj2 (Z.leb_le _ _)) by lia. }
  rewrite Ea in Hfate. destruct (Z.leb_spec (t_expires t) n) as [Hle|Hlt]; cbn [orb].
  - rewrite decide_True in Hfate by done. destruct Hfate as [Hf Haft]. assert (t_flags (advance n t) = TIMEOUT_ABS) as Efl
      by (unfold advance; by destruct (t_phase t)). unfold after in Haft.
    replace (periodic (advance n t)) with false in Haft by (unfold periodic; by rewrite Efl). rewrite Efl, Hdel in Haft.
    change (has TIMEOUT_ABS TIMEOUT_INT) with false in Haft. cbn [negb andb] in Haft. destruct Haft as [Hnone _].
    destruct (process_gone ns P1 x Hdoes Ho1 Hx) as (P' & Hr & Ho' & Hn1 & Hf1); [by rewrite Hc1|done|]. exists P'. split_and!; try done. by rewrite Hf1, Hf, Hf0.
  - rewrite decide_False in Hfate by done. destruct Hfate as (Hf & Ht1 & He1).
    assert (t_expires (advance n t) = t_expires t /\ t_flags (advance n t) = t_flags t) as [Ex Efl] by (unfold advance; by destruct (t_phase t)).
    destruct (IH P1 (advance n t) Ho1 Hx) as (P' & Hr & Ho' & Hres); [by rewrite Hc1|done|done|done|by rewrite Efl|left; exact Ea|].
    exists P'. split; [done|]. split; [done|]. by rewrite Ex, Hf, Hf0 in Hres.
Qed.

Lemma post_delay_spec now p task ms P :
  ok P -> curtime (timeout_wheel_ P) <= now -> 0 <= ms -> now + ms < 2 ^ 61 -> timers_of P !! p = None ->
  exists P1, PostDelayTask now p task ms P = Some P1 /\ ok P1 /\ fired P1 = fired P /\ curtime (timeout_wheel_ P1) = curtime (timeout_wheel_ P) /\
  events P1 !! p = Some (mkEvent (Some task) true) /\
  timers_of P1 !! p = Some (arm (curtime (timeout_wheel_ P)) (mkTimer TIMEOUT_ABS ms (now + ms) Idle)).
Proof.
  intros (Hwf & Hd & Hc & Hst) Hnow Hms Hlim Hp. assert (heap (timeout_wheel_ P) !! p = None) as Hh
    by (cbn in Hp; rewrite lookup_fmap in Hp; by destruct (heap (timeout_wheel_ P) !! p)).
  pose proof (wf_time _ _ Hwf) as [Hcur _].
  unfold PostDelayTask, CreateOneShot, TimeoutEvent_new. rewrite Hh. cbn [mbind option_bind events]. rewrite lookup_insert_eq. cbn [mbind option_bind].
  unfold InstallHandler. cbn [events]. rewrite lookup_insert_eq. cbn [mbind option_bind handler_ del_after_invoke_ events timeout_wheel_ fired].
  cbn [timeout_init flags expires to_pending attached]. set (to := mkTimeout TIMEOUT_ABS 0 None ms false).
  set (T1 := set_heap (<[p := to]> (heap (timeout_wheel_ P))) (timeout_wheel_ P)). rewrite !insert_insert_eq.
  assert (wf [] T1) as Hwf1 by (apply wf_new; [done|done|split; cbn; lia|done]).
  assert (heap T1 !! p = Some to) as Hto by apply lookup_insert_eq.
  destruct (add_spec T1 p (now + ms) to Hwf1 Hto) as (T2 & Hadd & Hwf2 & Hc2 & Hv2); [lia|].
  unfold AddTimeoutEvent, add_timer_internal. cbn [timeout_wheel_]. rewrite Hto. cbn [mbind option_bind].
  change (IsRepeated to) with false. cbn iota. change (interval to) with ms. rewrite u64_id by lia. rewrite Hadd. cbn [mbind option_bind].
  eexists. split; [done|]. cbn [set_wheel events fired timeout_wheel_ abs timers]. rewrite Hv2, lookup_insert_eq. split_and!; try done; [|apply lookup_insert_eq].
  split; [done|]. cbn [events timeout_wheel_]. split.
  - apply (f_equal dom) in Hv2. rewrite !dom_insert_L, !dom_fmap_L in *. unfold T1 in Hv2. cbn [heap set_heap] in Hv2. rewrite dom_insert_L in Hv2. set_solver.
  - cbn [set_wheel timeout_wheel_ events]. rewrite Hc2. split; [done|]. intros q Hq. destruct (Hst q Hq) as (t & ev & Ht & Hev & Hrest). assert (q <> p) by (intros ->; congruence).
    exists t, ev. cbn [abs timers]. rewrite Hv2, !lookup_insert_ne by done. unfold T1. cbn [heap set_heap]. rewrite fmap_insert, lookup_insert_ne by done. done.
Qed.


(** ** How long the pump waits *)

Lemma pending_waiting T : wf [] T -> timeouts_pending T = false -> forall p t, timers (abs T) !! p = Some t -> t_phase t <> Waiting.
Proof.
  intros Hwf Hp p t Ht Hph. apply (waiting_iff T p t Hwf Ht) in Hph as (w & s & to & Hin & _).
  destruct (wf_lists _ _ Hwf (Slot w s) p Hin) as (to' & _ & _ & Hpl). destruct (placed_future _ _ _ _ Hpl) as [_ Hs]. destruct Hpl as [Hw _].
  unfold timeouts_pending in Hp. apply negb_false_iff, Z.eqb_eq in Hp. rewrite !Z.lor_eq_0_iff in Hp. destruct Hp as [[[[_ H0] H1] H2] H3].
  destruct (wf_bits _ _ Hwf w) as [_ Hb]. assert (pend T w = 0) as E
    by (assert (w = 0 \/ w = 1 \/ w = 2 \/ w = 3) as [->|[->|[->| ->]]] by lia; done).
  assert (slot_list T w s <> []) as Hne by (intros Hn; rewrite Hn in Hin; by apply elem_of_nil in Hin).
  apply Hb in Hne; [|done]. by rewrite E, Z.bits_0 in Hne.
Qed.

(** C39.  The pump does not sleep past a timer: the delay [NextTimeout] returns is at most
    fifty, zero exactly when a handler is due, and ends no later than every deadline. *)
Theorem never_oversleeps now P :
  ok P -> curtime (timeout_wheel_ P) <= now < 2 ^ 60 ->
  exists r P', NextTimeout now P = Some (r, P') /\ 0 <= r <= 50 /\ timers_of P' = advance now <$> timers_of P /\
  (r = 0 <-> ~ nothing_due (timers_of P')) /\ forall p t, timers_of P' !! p = Some t -> t_phase t = Waiting -> now + r <= t_expires t.
Proof.
  intros (Hwf & _) Hnow. destruct (update_spec (timeout_wheel_ P) now Hwf) as (T1 & Hup & Hwf1 & Hc1 & Hv1); [lia|].
  unfold NextTimeout. rewrite Hup. cbn [mbind option_bind]. pose proof (expired_nil T1 Hwf1) as He. unfold timeouts_expired.
  case_bool_decide as E; cbn [negb]; [|exists 0, (set_wheel T1 P); split_and!; try done; [by rewrite <- He|]].
  - assert (nothing_due (timers (abs T1))) as Hn by (by apply He). destruct (timeouts_pending T1) eqn:Ep.
    + destruct (timeout_spec T1 Hwf1) as (d & -> & [[Hd _]|(_ & Hd & Hall & _)]); [done|]. cbn [mbind option_bind]. rewrite Hc1 in Hall.
      eexists _, (set_wheel T1 P). split; [done|]. split; [lia|]. split; [done|]. split; [split; [lia|by intros []]|].
      intros p t Ht Hph. specialize (Hall p t Ht Hph). lia.
    + exists 50, (set_wheel T1 P). split_and!; try done. intros p t Ht Hph. by destruct (pending_waiting T1 Hwf1 Ep p t Ht).
  - intros p t Ht Hph. apply (waiting_iff T1 p t Hwf1 Ht) in Hph as (w & s & to & Hin & Hto & ->).
    destruct (wf_lists _ _ Hwf1 (Slot w s) p Hin) as (to' & Hto' & _ & Hpl). rewrite Hto in Hto'. injection Hto' as <-.
    apply placed_future in Hpl as [Hpl _]. cbn. rewrite Hc1 in Hpl. lia.
Qed.

(** A task with a delay posted from another thread: when its helper reaches the loop at
    [now], the task runs at once if its time has come, and otherwise gets a timer whose
    deadline is exactly the time of posting plus the delay. *)
Theorem remote_delay_exact schedule_time delay_ms now p task P :
  ok P -> 0 <= schedule_time <= now -> curtime (timeout_wheel_ P) <= now -> now < 2 ^ 60 -> 0 <= delay_ms < 2 ^ 32 -> timers_of P !! p = None ->
  exists r P', TimerTaskHelper_Run schedule_time delay_ms now p task P = Some (r, P') /\
  if schedule_time + delay_ms <=? now then r = Some task /\ P' = P
  else r = None /\ exists t, timers_of P' !! p = Some t /\ t_expires t = schedule_time + delay_ms /\ t_phase t = Waiting.
Proof.
  intros Ho Hs Hnow Hlim Hd Hp. unfold TimerTaskHelper_Run. rewrite u64_id, i64_id by lia.
  destruct (Z.leb_spec (schedule_time + delay_ms) now) as [Hle|Hlt].
  - rewrite (proj2 (Z.leb_le _ _)) by lia. eexists _, P. by split.
  - rewrite (proj2 (Z.leb_gt _ _)) by lia.
    destruct (post_delay_spec now p task (delay_ms - (now - schedule_time)) P Ho Hnow) as (P1 & Hpost & _ & _ & _ & _ & Ht); [lia|lia|done|].
    unfold PostDelayTask in Hpost. destruct (CreateOneShot _ _ _ _) as [P2|]; [|done]. cbn [mbind option_bind] in *.
    destruct (InstallHandler _ _ _) as [P3|]; [|done]. cbn [mbind option_bind] in *. rewrite Hpost. cbn [mbind option_bind].
    exists None, P1. split; [done|]. split; [done|]. eexists. split; [exact Ht|]. unfold arm. cbn. split; [lia|]. rewrite (proj2 (Z.ltb_lt _ _)) by lia. done.
Qed.

(** The first period of a repeating event is counted from the last time the wheel was
    advanced, not from the time it is added. *)
Theorem first_period_from_wheel_time now p to P :
  ok P -> heap (timeout_wheel_ P) !! p = Some to -> flags to = TIMEOUT_INT -> 1 <= interval to < 2 ^ 60 ->
  exists P' t, AddTimeoutEvent now p P = Some P' /\ timers_of P' !! p = Some t /\ t_expires t = curtime (timeout_wheel_ P) + interval to.
Proof.
  intros (Hwf & _ & _ & _) Hto Hf Hi. unfold AddTimeoutEvent, add_timer_internal, IsRepeated. rewrite Hto. cbn [mbind option_bind]. rewrite Hf.
  change (has TIMEOUT_INT TIMEOUT_INT) with true. cbn iota.
  destruct (add_spec (timeout_wheel_ P) p (interval to) to Hwf Hto) as (T' & -> & _ & _ & Hv); [lia|]. cbn [mbind option_bind].
  eexists _, _. split; [done|]. cbn [timeout_wheel_ set_wheel abs timers]. rewrite Hv, lookup_insert_eq. split; [done|]. cbn. by rewrite Hf.
Qed.

(** ** Closing the pump *)

Definition sound (P : Pump) : Prop := wf [] (timeout_wheel_ P) /\ dom (events P) = dom (heap (timeout_wheel_ P)).
Definition owned_by_pump (P : Pump) (p : Z) : bool := match events P !! p with Some ev => del_after_invoke_ ev | None => false end.

Lemma remove_events_spec ps P owned :
  sound P -> Forall (fun p => is_Some (timers_of P !! p)) ps ->
  exists P', remove_all ps P owned = Some (P', owned ++ filter (fun p => owned_by_pump P p = true) ps) /\ sound P' /\ events P' = events P /\
  forall q, timers_of P' !! q = (if decide (q ∈ ps) then idle else id) <$> timers_of P !! q.
Proof.
  revert P owned. induction ps as [|p ps IH]; intros P owned [Hwf Hd] Hps.
  { exists P. cbn. rewrite app_nil_r. split_and!; try done. intros q. rewrite decide_False by apply not_elem_of_nil. by destruct (_ !! q). }
  apply Forall_cons_iff in Hps as [[t Ht] Hps]. destruct (timers_lookup _ _ _ Ht) as (to & Hto & ->).
  destruct (del_spec _ p to Hwf Hto) as (T1 & Hdel & Hwf1 & Hh1 & _). cbn [remove_all]. unfold RemoveTimeoutEvent. rewrite Hdel. cbn [mbind option_bind].
  assert (is_Some (events P !! p)) as [ev Hev] by (apply elem_of_dom; rewrite Hd; by apply elem_of_dom; eexists).
  cbn [set_wheel events]. rewrite Hev. cbn [mbind option_bind].
  assert (timers (abs T1) = <[p := idle (timer_view to)]> (timers_of P)) as Hv.
  { cbn. rewrite Hh1, fmap_insert. f_equal. unfold detached, idle, timer_view. by destruct (to_pending to) eqn:E; cbn; rewrite ?E. }
  destruct (IH (set_wheel T1 P) (if del_after_invoke_ ev then owned ++ [p] else owned)) as (P' & Hr & Hs' & He' & Ht').
  - split; [done|]. cbn [set_wheel events timeout_wheel_]. rewrite Hd, Hh1. symmetry. apply dom_insert_lookup_L. by exists to.
  - eapply Forall_impl; [|exact Hps]. intros q Hq. cbn [set_wheel timeout_wheel_]. rewrite Hv. destruct (decide (q = p)) as [->|];
      [rewrite lookup_insert_eq; by eexists|by rewrite lookup_insert_ne].
  - exists P'. rewrite Hr. split.
    { assert (owned_by_pump P p = del_after_invoke_ ev) as Eo by (unfold owned_by_pump; by rewrite Hev). do 2 f_equal. rewrite list.filter_cons.
      change (fun p0 => owned_by_pump (set_wheel T1 P) p0 = true) with (fun p0 => owned_by_pump P p0 = true).
      destruct (decide (owned_by_pump P p = true)) as [E|E]; rewrite Eo in E; destruct (del_after_invoke_ ev); try done. by rewrite <- app_assoc. }
    split; [done|]. split; [done|]. intros q. rewrite Ht'. cbn [set_wheel timeout_wheel_]. rewrite Hv. destruct (decide (q = p)) as [->|Hne].
    + rewrite lookup_insert_eq, Ht. rewrite (decide_True (P := p ∈ p :: ps)) by apply list_elem_of_here. by destruct (decide (p ∈ ps)).
    + rewrite lookup_insert_ne by done. destruct (decide (q ∈ ps)) as [Hin|Hin].
      * by rewrite decide_True by by apply list_elem_of_further.
      * rewrite decide_False by (rewrite elem_of_cons; tauto). done.
Qed.
Lemma delete_all_spec ps P :
  sound P -> NoDup ps -> Forall (fun p => exists t, timers_of P !! p = Some t /\ t_phase t = Idle) ps ->
  exists P', delete_all ps P = Some P' /\ sound P' /\ (forall q, events P' !! q = if decide (q ∈ ps) then None else events P !! q) /\
  forall q, timers_of P' !! q = if decide (q ∈ ps) then None else timers_of P !! q.
Proof.
  revert P. induction ps as [|p ps IH]; intros P [Hwf Hd] Hnd Hps.
  { exists P. split_and!; try done; intros q; by rewrite decide_False by apply not_elem_of_nil. }
  apply list.NoDup_cons in Hnd as [Hnin Hnd]. apply Forall_cons_iff in Hps as [(t & Ht & Hph) Hps]. destruct (timers_lookup _ _ _ Ht) as (to & Hto & ->).
  assert (to_pending to = None) as Hpd by (cbn in Hph; by destruct (to_pending to) as [[]|]).
  cbn [delete_all]. unfold delete_event, IsAttached. rewrite Hto. cbn [mbind option_bind]. rewrite Hpd. cbn [mbind option_bind]. set (P1 := mkPump _ _ _).
  assert (timers_of P1 = delete p (timers_of P)) as Hv by (cbn; by rewrite fmap_delete).
  destruct (IH P1) as (P' & Hr & Hs' & He' & Ht').
  - split; [by apply (wf_drop _ p to)|]. cbn. by rewrite !dom_delete_L, Hd.
  - done.
  - apply Forall_forall. intros q Hq. apply (proj1 (Forall_forall _ _) Hps q) in Hq as Hq'. rewrite Hv, lookup_delete_ne; [done|].
    intros ->. apply Hnin. by apply list_elem_of_In.
  - exists P'. split; [done|]. split; [done|]. split; intros q; rewrite ?He', ?Ht', ?Hv; cbn [P1 events];
      (destruct (decide (q = p)) as [->|]; [rewrite lookup_delete_eq, (decide_True (P := p ∈ p :: ps)) by apply list_elem_of_here; by destruct (decide (p ∈ ps))|]);
      rewrite lookup_delete_ne by done; (destruct (decide (q ∈ ps)); [by rewrite decide_True by by apply list_elem_of_further|]);
      rewrite decide_False by (rewrite elem_of_cons; tauto); done.
Qed.

Lemma on_lists_iff T p : wf [] T -> p ∈ on_lists T <-> exists t, timers (abs T) !! p = Some t /\ t_phase t <> Idle.
Proof.
  intros Hwf. unfold on_lists. rewrite elem_of_app, (elem_all_slots T p Hwf), (due_iff T p Hwf). split.
  - intros [(t & Ht & Hd)|(w & s & Hin)]; [exists t; by rewrite Hd|]. destruct (wf_lists _ _ Hwf (Slot w s) p Hin) as (to & Hto & Hpd & _).
    exists (timer_view to). cbn. rewrite lookup_fmap, Hto, Hpd. done.
  - intros (t & Ht & Hph). destruct (t_phase t) eqn:E; [done| |left; by exists t]. right.
    apply (waiting_iff T p t Hwf Ht) in E as (w & s & to & Hin & _). by exists w, s.
Qed.
Lemma on_lists_nodup T : wf [] T -> NoDup (on_lists T).
Proof.
  intros Hwf. pose proof (wf_nodup _ _ Hwf) as [_ Hnd]. unfold on_lists. apply list.NoDup_app. split; [apply (Hnd Expired)|]. split.
  - intros p Hp Hq. apply (elem_all_slots T p Hwf) in Hq as (w & s & Hq). destruct (wf_lists _ _ Hwf Expired p Hp) as (to & Hto & Hpd & _).
    destruct (wf_lists _ _ Hwf (Slot w s) p Hq) as (to' & Hto' & Hpd' & _). congruence.
  - assert (NoDup slots_in_order) as Hs by (apply (bool_decide_unpack _); by vm_compute). induction Hs as [|[w s] l Hnin Hs IH]; [apply NoDup_nil_2|].
    cbn. apply list.NoDup_app. split; [apply (Hnd (Slot w s))|]. split; [|done]. intros p Hp Hq.
    apply list_elem_of_In, in_concat in Hq as (k & Hk & Hq). apply list_elem_of_In, list_elem_of_fmap in Hk as ([w' s'] & -> & Hin). apply list_elem_of_In in Hq.
    destruct (wf_lists _ _ Hwf (Slot w s) p Hp) as (to & Hto & Hpd & _). destruct (wf_lists _ _ Hwf (Slot w' s') p Hq) as (to' & Hto' & Hpd' & _). congruence.
Qed.

(** Closing the pump detaches every event, deletes the attached ones that it owns, and
    leaves the others to their owners. *)
Theorem finalize_detaches P :
  sound P ->
  exists P', FinalizeTimeWheel P = Some P' /\
  (forall q t, timers_of P' !! q = Some t -> t_phase t = Idle) /\
  forall q, events P' !! q = if bool_decide (q ∈ on_lists (timeout_wheel_ P)) && owned_by_pump P q then None else events P !! q.
Proof.
  intros Hs. pose proof Hs as [Hwf Hd]. unfold FinalizeTimeWheel.
  destruct (remove_events_spec (on_lists (timeout_wheel_ P)) P [] Hs) as (P1 & -> & Hs1 & He1 & Ht1).
  { apply Forall_forall. intros q Hq. apply list_elem_of_In, on_lists_iff in Hq as (t & Ht & _); [by exists t|done]. }
  cbn [mbind option_bind fst snd app]. set (ow := filter _ _).
  assert (forall q, q ∈ ow <-> q ∈ on_lists (timeout_wheel_ P) /\ owned_by_pump P q = true) as How by (intros q; unfold ow; rewrite list_elem_of_filter; tauto).
  assert (forall q t, timers_of P1 !! q = Some t -> t_phase t = Idle) as Hidle.
  { intros q t. rewrite Ht1. destruct (timers_of P !! q) as [t0|] eqn:E; [|done]. destruct (decide (q ∈ on_lists _)) as [|Hn]; cbn; intros [= <-]; [done|].
    destruct (decide (t_phase t0 = Idle)); [done|]. exfalso. apply Hn, on_lists_iff; [done|]. by exists t0. }
  destruct (delete_all_spec ow P1 Hs1) as (P2 & -> & Hs2 & He2 & Ht2).
  { apply list.NoDup_filter. by apply on_lists_nodup. }
  { apply Forall_forall. intros q Hq. apply list_elem_of_In, How in Hq as [Hq _]. apply on_lists_iff in Hq as (t & Ht & _); [|done].
    assert (exists t', timers_of P1 !! q = Some t') as [t' Ht'] by (rewrite Ht1, Ht; by eexists). exists t'. split; [done|]. by apply (Hidle q). }
  cbn [mbind option_bind]. eexists. split; [done|].
  assert (on_lists (timeout_wheel_ P2) = []) as Hnil.
  { destruct (on_lists (timeout_wheel_ P2)) as [|q l] eqn:E; [done|]. assert (q ∈ on_lists (timeout_wheel_ P2)) as Hq by (rewrite E; apply list_elem_of_here).
    apply on_lists_iff in Hq as (t & Ht & Hph); [|apply Hs2]. rewrite Ht2 in Ht. destruct (decide (q ∈ ow)); [done|]. by destruct (Hph (Hidle q t Ht)). }
  unfold on_lists in Hnil. apply app_eq_nil in Hnil as [Hx Hslots].
  assert (timeouts_reset (timeout_wheel_ P2) = timeout_wheel_ P2) as -> by (unfold timeouts_reset; rewrite Hslots, Hx; by destruct (timeout_wheel_ P2)).
  split.
  - intros q t. cbn [set_wheel timeout_wheel_]. rewrite Ht2. destruct (decide (q ∈ ow)); [done|]. apply Hidle.
  - intros q. cbn [set_wheel events]. rewrite He2, He1. destruct (decide (q ∈ ow)) as [Hq|Hq].
    + apply How in Hq as [Hq ->]. by rewrite bool_decide_eq_true_2.
    + destruct (bool_decide (q ∈ _) && owned_by_pump P q) eqn:E; [|done]. exfalso. apply Hq, How. apply andb_true_iff in E as [E ->].
      by apply bool_decide_eq_true in E.
Qed.

End pump.

(** ** Examples *)

(** A pump with one repeating event, whose handler adds it again. *)
Definition example_pump : Pump :=
  mkPump (set_heap {[ 1 := mkTimeout TIMEOUT_INT 0 None 500 false ]} (timeouts_init ∅ 1000)) {[ 1 := mkEvent (Some 9) false ]} [].
Definition example_does (h : Z) : list effect := if h =? 9 then [EAdd 1 3] else [].
Lemma example_wf : wf [] (timeout_wheel_ example_pump).
Proof.
  apply (wf_new (timeouts_init ∅ 1000)); [|by vm_compute|split; cbn; lia|done].
  apply init_wf. intros p to Hp. by rewrite lookup_empty in Hp.
Qed.
Lemma example_pump_ok : ok {[ 1 ]} example_pump.
Proof.
  split; [exact example_wf|]. split; [by vm_compute|]. split; [cbn; lia|]. intros q Hq. apply elem_of_singleton in Hq as ->.
  eexists _, _. split; [reflexivity|]. split; [reflexivity|]. split; [done|]. split; [cbn; lia|by left].
Qed.
Lemma example_does_ok : does_ok example_does {[ 1 ]}.
Proof. intros h. unfold example_does. destruct (h =? 9); repeat constructor; lia. Qed.

Lemma never_oversleeps_witness : exists r P', NextTimeout 700 example_pump = Some (r, P') /\ 0 <= r <= 50.
Proof.
  destruct (never_oversleeps {[ 1 ]} 700 example_pump) as (r & P' & H1 & H2 & _); [exact example_pump_ok|cbn; lia|].
  exists r, P'. split; [exact H1|exact H2].
Defined.
Lemma remote_delay_exact_witness :
  exists r P', TimerTaskHelper_Run 1000 300 1100 2 42 example_pump = Some (r, P') /\ r = None.
Proof.
  destruct (remote_delay_exact example_does {[ 1 ]} 1000 300 1100 2 42 example_pump) as (r & P' & H1 & H2 & _);
    [exact example_pump_ok|lia|cbn; lia|lia|lia|reflexivity|]. exists r, P'. split; [exact H1|exact H2].
Defined.
Lemma first_period_from_wheel_time_witness :
  exists P' t, AddTimeoutEvent 400 1 example_pump = Some P' /\ timers (abs (timeout_wheel_ P')) !! 1 = Some t /\ t_expires t = 500.
Proof.
  destruct (first_period_from_wheel_time {[ 1 ]} 400 1 (mkTimeout TIMEOUT_INT 0 None 500 false) example_pump) as (P' & t & H1 & H2 & H3);
    [exact example_pump_ok|reflexivity|reflexivity|cbn; lia|]. exists P', t. split; [exact H1|]. split; [exact H2|exact H3].
Defined.
Lemma finalize_detaches_witness : exists P', FinalizeTimeWheel example_pump = Some P' /\ is_Some (events P' !! 1).
Proof.
  destruct (finalize_detaches example_does example_pump) as (P' & H1 & _ & H2); [split; [exact example_wf|by vm_compute]|].
  exists P'. split; [exact H1|]. rewrite H2. vm_compute. by eexists.
Defined.

(** Stopping a repeating timer from its own callback ([RepeatingTimer::Stop] on the
    loop's thread removes the event and deletes it) makes [ProcessTimerEvent] read the
    deleted event. *)
Definition stop_itself (h : Z) : list effect := [ERemove 1; EDelete 1].
Theorem stop_in_callback_use_after_free :
  exists P, AddTimeoutEvent 0 1 example_pump = Some P /\
  is_Some (ProcessTimerEvent example_does 500 P) /\ is_Some (ProcessTimerEvent stop_itself 499 P) /\ ProcessTimerEvent stop_itself 500 P = None.
Proof. eexists. split; [vm_compute; reflexivity|]. split; [by vm_compute; eexists|]. split; [by vm_compute; eexists|by vm_compute]. Qed.

End EventPump.
