(* ===== verification/PrTime.v ===== *)
(** Broken-down times: src/base/time/nspr/prtime.cc and prtime.h.

    [PRExplodedTime] is a date with separate fields; [PR_NormalizeTime] brings
    every field into its range and [PR_ImplodeTime] turns the record into a
    count of microseconds since 1970.  The fields keep their widths: the
    additions on the 32-bit fields and on the 16-bit year wrap ([i32], [i16]),
    and [fits] bounds the fields so that none of them does.

    The reference is the proleptic Gregorian calendar, counted day by day:
    [civil_days] adds up the lengths of the years and months that come before a
    date.  [normalize_exact] shows that normalising keeps the instant for every
    time zone function and leaves every field in range; [implode_exact] that
    imploding gives exactly that instant.  The loops over months are fuelled by
    the number of months they can take; [PR_NormalizeTime_total] shows that it
    is enough whatever the fields hold. *)
From Stdlib Require Import ZArith Lia.
From stdpp Require Import base option list.
From S2P Require Import Prelude.
Open Scope Z_scope.

(* ------------------------------------------------------------------ *)
(** * The code *)

Definition i16 (x : Z) : Z := (x + 2 ^ 15) mod 2 ^ 16 - 2 ^ 15.

Record PRTimeParameters := mkParams { tp_gmt_offset : Z; tp_dst_offset : Z }.

Record PRExplodedTime := mkExploded {
  tm_usec : Z; tm_sec : Z; tm_min : Z; tm_hour : Z; tm_mday : Z; tm_month : Z;
  tm_year : Z; tm_wday : Z; tm_yday : Z; tm_params : PRTimeParameters }.

Definition COUNT_LEAPS (Y : Z) : Z := Z.quot (Y - 1) 4 - Z.quot (Y - 1) 100 + Z.quot (Y - 1) 400.
Definition COUNT_DAYS (Y : Z) : Z := (Y - 1) * 365 + COUNT_LEAPS Y.
Definition DAYS_BETWEEN_YEARS (A B : Z) : Z := COUNT_DAYS B - COUNT_DAYS A.

Definition lastDayOfMonth (leap : bool) (month : Z) : Z :=
  nth (Z.to_nat month)
    (if leap
     then [-1; 30; 59; 90; 120; 151; 181; 212; 243; 273; 304; 334; 365]
     else [-1; 30; 58; 89; 119; 150; 180; 211; 242; 272; 303; 333; 364]) 0.

Definition nDays (leap : bool) (month : Z) : Z :=
  nth (Z.to_nat month)
    (if leap
     then [31; 29; 31; 30; 31; 30; 31; 31; 30; 31; 30; 31]
     else [31; 28; 31; 30; 31; 30; 31; 31; 30; 31; 30; 31]) 0.

Definition IsLeapYear (year : Z) : bool :=
  (Z.rem year 4 =? 0) && negb (Z.rem year 100 =? 0) || (Z.rem year 400 =? 0).

(** The block both functions repeat for each field [x] with [n] units in the
    next field [y]: move the excess to [y] and leave a remainder that is not
    negative. *)
Definition carry (n x y : Z) : Z * Z :=
  if (x <? 0) || (n <=? x) then
    let y := i32 (y + Z.quot x n) in
    let x := Z.rem x n in
    if x <? 0 then (x + n, i32 (y - 1)) else (x, y)
  else (x, y).

(** "Decrement mday, yday, and wday", on the fields
    (mday, month, year, yday, wday). *)
Definition day_before (mday month year yday wday : Z) : Z * Z * Z * Z * Z :=
  let mday := i32 (mday - 1) in
  let yday := i16 (yday - 1) in
  let '(mday, month, year, yday) :=
    if mday <? 1 then
      let month := i32 (month - 1) in
      let '(month, year, yday) :=
        if month <? 0 then
          let year := i16 (year - 1) in
          (11, year, if IsLeapYear year then 365 else 364)
        else (month, year, yday) in
      (nDays (IsLeapYear year) month, month, year, yday)
    else (mday, month, year, yday) in
  let wday := wday - 1 in
  (mday, month, year, yday, if wday <? 0 then 6 else wday).

(** "Increment mday, yday, and wday". *)
Definition day_after (mday month year yday wday : Z) : Z * Z * Z * Z * Z :=
  let mday := i32 (mday + 1) in
  let yday := i16 (yday + 1) in
  let '(mday, month, year, yday) :=
    if nDays (IsLeapYear year) month <? mday then
      let month := i32 (month + 1) in
      if 11 <? month then (1, 0, i16 (year + 1), 0) else (1, month, year, yday)
    else (mday, month, year, yday) in
  let wday := wday + 1 in
  (mday, month, year, yday, if 6 <? wday then 0 else wday).

Definition ApplySecOffset (time : PRExplodedTime) (secOffset : Z) : PRExplodedTime :=
  let '(mkExploded usec sec min hour mday month year wday yday params) := time in
  let sec := i32 (sec + secOffset) in
  let '(sec, min) := carry 60 sec min in
  let '(min, hour) := carry 60 min hour in
  let '(hour, (mday, month, year, yday, wday)) :=
    if hour <? 0 then (hour + 24, day_before mday month year yday wday)
    else if 23 <? hour then (hour - 24, day_after mday month year yday wday)
    else (hour, (mday, month, year, yday, wday)) in
  mkExploded usec sec min hour mday month year wday yday params.

(** The [do ... while] loop for a day of the month that is too small, on the
    fields (year, month, mday). *)
Fixpoint mday_back (fuel : nat) (year month mday : Z) : option (Z * Z * Z) :=
  match fuel with
  | O => None
  | S fuel =>
      let month := month - 1 in
      let '(month, year) := if month <? 0 then (11, i16 (year - 1)) else (month, year) in
      let mday := i32 (mday + nDays (IsLeapYear year) month) in
      if mday <? 1 then mday_back fuel year month mday else Some (year, month, mday)
  end.

(** The [while] loop for a day of the month that is too large. *)
Fixpoint mday_forward (fuel : nat) (year month mday : Z) : option (Z * Z * Z) :=
  let daysInMonth := nDays (IsLeapYear year) month in
  if daysInMonth <? mday then
    match fuel with
    | O => None
    | S fuel =>
        let mday := i32 (mday - daysInMonth) in
        let month := month + 1 in
        let '(month, year) := if 11 <? month then (0, i16 (year + 1)) else (month, year) in
        mday_forward fuel year month mday
    end
  else Some (year, month, mday).

(** Every month has 28 days, so this many months cover [mday]. *)
Definition months_fuel (mday : Z) : nat := S (Z.to_nat (Z.abs mday / 28)).

Definition PR_NormalizeTime (params : PRExplodedTime -> PRTimeParameters) (time : PRExplodedTime) : option PRExplodedTime :=
  (* Get back to GMT *)
  let sec := i32 (tm_sec time - i32 (tp_gmt_offset (tm_params time) + tp_dst_offset (tm_params time))) in
  (* Now normalize GMT *)
  let '(usec, sec) := carry 1000000 (tm_usec time) sec in
  let '(sec, min) := carry 60 sec (tm_min time) in
  let '(min, hour) := carry 60 min (tm_hour time) in
  let '(hour, mday) := carry 24 hour (tm_mday time) in
  (* Normalize month and year before mday *)
  let '(month, year) :=
    if (tm_month time <? 0) || (12 <=? tm_month time) then
      let year := i16 (tm_year time + i16 (Z.quot (tm_month time) 12)) in
      let month := Z.rem (tm_month time) 12 in
      if month <? 0 then (month + 12, i16 (year - 1)) else (month, year)
    else (tm_month time, tm_year time) in
  (* Now that month and year are in proper range, normalize mday *)
  '(year, month, mday) ←
    if mday <? 1 then mday_back (months_fuel mday) year month mday
    else mday_forward (months_fuel mday) year month mday;
  (* Recompute yday and wday *)
  let yday := i16 (mday + lastDayOfMonth (IsLeapYear year) month) in
  let numDays := i32 (DAYS_BETWEEN_YEARS 1970 year + yday) in
  let wday := Z.rem (i32 (numDays + 4)) 7 in
  let wday := if wday <? 0 then wday + 7 else wday in
  (* Recompute time parameters *)
  let gmt := mkExploded usec sec min hour mday month year wday yday (mkParams 0 0) in
  let p := params gmt in
  Some (ApplySecOffset (mkExploded usec sec min hour mday month year wday yday p)
          (i32 (tp_gmt_offset p + tp_dst_offset p))).

Definition PR_GMTParameters (gmt : PRExplodedTime) : PRTimeParameters := mkParams 0 0.

Definition PR_ImplodeTime (exploded : PRExplodedTime) : option Z :=
  copy ← PR_NormalizeTime PR_GMTParameters exploded;
  let numDays := i32 (DAYS_BETWEEN_YEARS 1970 (tm_year copy)) in
  let numSecs := i32 (tm_yday copy * 86400 + tm_hour copy * 3600 + tm_min copy * 60 + tm_sec copy) in
  let temp := i64 (numDays * 86400) in
  let numSecs64 := i64 (numSecs + temp) in
  let numSecs64 := i64 (numSecs64 - tp_gmt_offset (tm_params copy)) in
  let numSecs64 := i64 (numSecs64 - tp_dst_offset (tm_params copy)) in
  let temp := i64 (numSecs64 * 1000000) in
  Some (i64 (tm_usec copy + temp)).

(* ------------------------------------------------------------------ *)
(** * The reference calendar *)

Definition leap (y : Z) : bool :=
  (y mod 4 =? 0) && negb (y mod 100 =? 0) || (y mod 400 =? 0).

Definition month_len (y m : Z) : Z :=
  if m =? 1 then if leap y then 29 else 28
  else if (m =? 3) || (m =? 5) || (m =? 8) || (m =? 10) then 30 else 31.

Definition year_len (y : Z) : Z := if leap y then 366 else 365.

(** The days of the years 1 .. n and of the first n months of year y. *)
Fixpoint years_sum (n : nat) : Z :=
  match n with O => 0 | S n => years_sum n + year_len (Z.of_nat (S n)) end.
Fixpoint months_sum (y : Z) (n : nat) : Z :=
  match n with O => 0 | S n => months_sum y n + month_len y (Z.of_nat n) end.

(** Days from 1 January 1 to day [d] of month [m] (from 0) of year [y], and
    from 1 January 1970. *)
Definition days_AD (y m d : Z) : Z :=
  years_sum (Z.to_nat (y - 1)) + months_sum y (Z.to_nat m) + d - 1.
Definition civil_days (y m d : Z) : Z := days_AD y m d - days_AD 1970 0 1.

(** The instant a record stands for, in microseconds since 1970, whatever the
    size of its fields. *)
Definition instant (e : PRExplodedTime) : Z :=
  (civil_days (tm_year e + tm_month e / 12) (tm_month e mod 12) (tm_mday e) * 86400
   + tm_hour e * 3600 + tm_min e * 60 + tm_sec e
   - (tp_gmt_offset (tm_params e) + tp_dst_offset (tm_params e))) * 1000000 + tm_usec e.

Definition offset_of (e : PRExplodedTime) : Z :=
  tp_gmt_offset (tm_params e) + tp_dst_offset (tm_params e).

(** Every field in its range, with the calculated fields right. *)
Record date_ok (y m d wday yday : Z) : Prop := {
  ok_year : 1 <= y;
  ok_month : 0 <= m < 12;
  ok_mday : 1 <= d <= month_len y m;
  ok_yday : yday = months_sum y (Z.to_nat m) + d - 1;
  ok_wday : wday = (civil_days y m d + 4) mod 7 }.

Record normalized (e : PRExplodedTime) : Prop := {
  n_usec : 0 <= tm_usec e < 1000000;
  n_sec : 0 <= tm_sec e < 60;
  n_min : 0 <= tm_min e < 60;
  n_hour : 0 <= tm_hour e < 24;
  n_date : date_ok (tm_year e) (tm_month e) (tm_mday e) (tm_wday e) (tm_yday e) }.

(** The most days the fields other than the month and year can add up to. *)
Definition day_shift (e : PRExplodedTime) : Z :=
  Z.abs (tm_mday e) + (Z.abs (tm_hour e) + (Z.abs (tm_min e) + (Z.abs (tm_sec e)
    + Z.abs (tm_usec e) / 1000000 + Z.abs (offset_of e) + 2) / 60 + 2) / 60 + 2) / 24 + 2.

(** The fields leave room in their machine types, and the year stays between 1
    and 32766 whatever the other fields carry into it. *)
Definition small (x : Z) : bool := Z.abs x <=? 1000000000.
Definition fits (e : PRExplodedTime) : bool :=
  small (tm_usec e) && small (tm_sec e) && small (tm_min e) && small (tm_hour e)
  && small (tm_mday e) && small (4 * tp_gmt_offset (tm_params e))
  && small (4 * tp_dst_offset (tm_params e)) && (Z.abs (tm_month e) <=? 300000)
  && (Z.abs (tm_month e) / 12 + day_shift e / 336 + 4 <? tm_year e)
  && (tm_year e + Z.abs (tm_month e) / 12 + day_shift e / 336 + 4 <? 32767).

(* ------------------------------------------------------------------ *)
(** * The calendar arithmetic of the code agrees with the reference *)

Ltac zdiv := Z.to_euclidean_division_equations; lia.

(** Evaluates the month sums at a literal month. *)
Ltac month_literals :=
  repeat match goal with
  | |- context [Z.to_nat (Zpos ?p)] =>
      let n := eval vm_compute in (Z.to_nat (Zpos p)) in change (Z.to_nat (Zpos p)) with n
  | |- context [Z.to_nat 0] => change (Z.to_nat 0) with O
  end; cbn; unfold month_len, year_len; cbn.

Lemma i16_id x : - 2 ^ 15 <= x < 2 ^ 15 -> i16 x = x.
Proof. intros; unfold i16; rewrite Z.mod_small; lia. Qed.
#[export] Hint Rewrite i16_id using lia : machine.

Lemma IsLeapYear_leap y : 0 <= y -> IsLeapYear y = leap y.
Proof. intros; unfold IsLeapYear, leap; by rewrite !Z.rem_mod_nonneg by lia. Qed.

(** A statement about the twelve months is checked on each of them. *)
Lemma months_case (P : Z -> Prop) :
  P 0 -> P 1 -> P 2 -> P 3 -> P 4 -> P 5 -> P 6 -> P 7 -> P 8 -> P 9 -> P 10 -> P 11 ->
  forall m, 0 <= m < 12 -> P m.
Proof.
  intros; assert (m = 0 \/ m = 1 \/ m = 2 \/ m = 3 \/ m = 4 \/ m = 5 \/ m = 6 \/ m = 7
    \/ m = 8 \/ m = 9 \/ m = 10 \/ m = 11) by lia.
  by repeat match goal with H : _ \/ _ |- _ => destruct H as [->|H] | H : m = _ |- _ => subst m end.
Qed.

Lemma nDays_leap y m : 0 <= m < 12 -> nDays (leap y) m = month_len y m.
Proof. unfold month_len; revert m; by apply months_case; destruct (leap y). Qed.

Lemma nDays_month_len y m : 0 <= y -> 0 <= m < 12 -> nDays (IsLeapYear y) m = month_len y m.
Proof. intros Hy Hm; rewrite (IsLeapYear_leap y Hy); by apply nDays_leap. Qed.

Lemma month_len_bounds y m : 28 <= month_len y m <= 31.
Proof. unfold month_len; repeat case_match; lia. Qed.

Lemma nDays_bounds b m : 0 <= m < 12 -> 28 <= nDays b m <= 31.
Proof. revert m; apply months_case; destruct b; vm_compute; split; congruence. Qed.

Lemma lastDay_leap y m :
  0 <= m < 12 -> lastDayOfMonth (leap y) m = months_sum y (Z.to_nat m) - 1.
Proof.
  revert m; apply months_case; unfold lastDayOfMonth; month_literals;
    destruct (leap y); reflexivity.
Qed.

Lemma lastDay_months_sum y m :
  0 <= y -> 0 <= m < 12 -> lastDayOfMonth (IsLeapYear y) m = months_sum y (Z.to_nat m) - 1.
Proof. intros Hy Hm; rewrite (IsLeapYear_leap y Hy); by apply lastDay_leap. Qed.

Lemma months_sum_year y : months_sum y 11 + month_len y 11 = year_len y.
Proof. month_literals; destruct (leap y); reflexivity. Qed.

Lemma table_bounds b m : 0 <= m < 12 -> -1 <= lastDayOfMonth b m /\ lastDayOfMonth b m + nDays b m <= 365.
Proof. revert m; apply months_case; destruct b; vm_compute; split; congruence. Qed.

Lemma months_sum_bounds y m d :
  0 <= m < 12 -> 1 <= d <= month_len y m -> 0 <= months_sum y (Z.to_nat m) + d - 1 <= 365.
Proof.
  intros Hm Hd; pose proof (lastDay_leap y m Hm); pose proof (nDays_leap y m Hm).
  pose proof (table_bounds (leap y) m Hm); lia.
Qed.

Lemma COUNT_DAYS_sum n : COUNT_DAYS (Z.of_nat n + 1) = years_sum n.
Proof.
  unfold COUNT_DAYS, COUNT_LEAPS; rewrite !Z.quot_div_nonneg by lia.
  induction n as [|n IH]; [reflexivity|].
  cbn [years_sum]; rewrite <- IH; unfold year_len, leap.
  rewrite Nat2Z.inj_succ; repeat case_match; zdiv.
Qed.

Lemma COUNT_DAYS_AD y : 1 <= y -> COUNT_DAYS y = years_sum (Z.to_nat (y - 1)).
Proof. intros; rewrite <- COUNT_DAYS_sum; f_equal; lia. Qed.

Lemma DAYS_BETWEEN_civil y m d :
  1 <= y -> DAYS_BETWEEN_YEARS 1970 y + (months_sum y (Z.to_nat m) + d - 1) = civil_days y m d.
Proof.
  intros; unfold DAYS_BETWEEN_YEARS, civil_days, days_AD.
  rewrite (COUNT_DAYS_AD y) by done.
  change (years_sum (Z.to_nat (1970 - 1))) with (years_sum 1969).
  rewrite <- (COUNT_DAYS_sum 1969); change (Z.of_nat 1969 + 1) with 1970.
  change (months_sum 1970 (Z.to_nat 0)) with 0; lia.
Qed.

Lemma COUNT_DAYS_bounds y : 1 <= y <= 32767 -> 0 <= COUNT_DAYS y <= 12000000.
Proof. intros; unfold COUNT_DAYS, COUNT_LEAPS; zdiv. Qed.

(** The day after the last of a month is the first of the next one. *)
Lemma civil_next_month y m d :
  1 <= y -> 0 <= m < 11 -> civil_days y (m + 1) d = civil_days y m (d + month_len y m).
Proof.
  intros; unfold civil_days, days_AD; replace (Z.to_nat (m + 1)) with (S (Z.to_nat m)) by lia.
  cbn [months_sum]; rewrite Z2Nat.id by lia; lia.
Qed.

Lemma civil_next_year y d :
  1 <= y -> civil_days (y + 1) 0 d = civil_days y 11 (d + month_len y 11).
Proof.
  intros; unfold civil_days, days_AD; pose proof (months_sum_year y) as Hy.
  replace (Z.to_nat (y + 1 - 1)) with (S (Z.to_nat (y - 1))) by lia.
  change (Z.to_nat 0) with O; change (Z.to_nat 11) with 11%nat.
  cbn [years_sum]; change (months_sum (y + 1) 0) with 0.
  replace (Z.of_nat (S (Z.to_nat (y - 1)))) with y by lia; lia.
Qed.

Lemma civil_days_add y m d k : civil_days y m (d + k) = civil_days y m d + k.
Proof. unfold civil_days, days_AD; lia. Qed.

#[local] Opaque civil_days years_sum.

(* ------------------------------------------------------------------ *)
(** * Carries and loops *)

Lemma quot_bound x n B : 24 <= n -> - 24 * B <= x <= 24 * B -> - B <= Z.quot x n <= B.
Proof.
  intros Hn Hx; pose proof (Z.quot_rem x n ltac:(lia)); pose proof (Z.rem_bound_abs x n ltac:(lia)).
  pose proof (Z.rem_sign_mul x n ltac:(lia)); nia.
Qed.

(** Truncated and floored division differ by one for a negative remainder. *)
Lemma quot_rem_floor x n :
  0 < n -> (x mod n, x / n) = if Z.rem x n <? 0 then (Z.rem x n + n, Z.quot x n - 1) else (Z.rem x n, Z.quot x n).
Proof.
  intros Hn; pose proof (Z.quot_rem x n ltac:(lia)) as E; pose proof (Z.rem_bound_abs x n ltac:(lia)).
  destruct (Z.rem x n <? 0) eqn:F; f_equal; symmetry.
  - apply (Z.mod_unique_pos _ _ (Z.quot x n - 1)); lia.
  - apply (Z.div_unique_pos _ _ _ (Z.rem x n + n)); lia.
  - apply (Z.mod_unique_pos _ _ (Z.quot x n)); lia.
  - apply (Z.div_unique_pos _ _ _ (Z.rem x n)); lia.
Qed.

Lemma carry_spec n x y :
  24 <= n -> - 2000000000 <= x <= 2000000000 -> - 2000000000 <= y <= 2000000000 ->
  carry n x y = (x mod n, y + x / n).
Proof.
  intros Hn Hx Hy; unfold carry; pose proof (quot_bound x n 100000000 Hn ltac:(lia)).
  pose proof (quot_rem_floor x n ltac:(lia)) as E.
  destruct ((x <? 0) || (n <=? x)) eqn:F; cbn zeta.
  - rewrite (i32_id (y + _)) by lia; destruct (Z.rem x n <? 0); injection E as -> ->;
      [rewrite i32_id by lia|]; f_equal; lia.
  - f_equal; [rewrite Z.mod_small by lia|rewrite Z.div_small by lia]; lia.
Qed.

(** The fuel suffices for the loops, for any year and day, and they stop in a
    month and at a day of a month. *)
Definition some_day (r : option (Z * Z * Z)) : Prop :=
  exists y m d, r = Some (y, m, d) /\ 0 <= m < 12 /\ 1 <= d <= 31.

Lemma mday_back_total fuel y m d :
  0 <= m < 12 -> - 2 ^ 31 <= d < 1 -> - d < 28 * Z.of_nat fuel -> some_day (mday_back fuel y m d).
Proof.
  revert y m d; induction fuel as [|fuel IH]; intros y m d Hm Hd Hf; [lia|]; cbn [mday_back].
  destruct (m - 1 <? 0) eqn:E.
  - pose proof (nDays_bounds (IsLeapYear (i16 (y - 1))) 11); rewrite i32_id by lia.
    case_match; [apply IH; lia|do 3 eexists; split; [done|lia]].
  - pose proof (nDays_bounds (IsLeapYear y) (m - 1)); rewrite i32_id by lia.
    case_match; [apply IH; lia|do 3 eexists; split; [done|lia]].
Qed.

Lemma mday_forward_total fuel y m d :
  0 <= m < 12 -> 1 <= d < 2 ^ 31 -> d <= 28 * (Z.of_nat fuel + 1) -> some_day (mday_forward fuel y m d).
Proof.
  revert y m d; induction fuel as [|fuel IH]; intros y m d Hm Hd Hf; cbn [mday_forward];
    pose proof (nDays_bounds (IsLeapYear y) m Hm);
    (case_match; [|do 3 eexists; split; [done|lia]]); [lia|].
  destruct (11 <? m + 1) eqn:E; rewrite i32_id by lia; apply IH; lia.
Qed.

(** Both loops stop at a day of its month and keep the date. *)
Definition same_date (y m d : Z) (r : option (Z * Z * Z)) : Prop :=
  exists y' m' d', r = Some (y', m', d') /\ 2 <= y' < 32767 /\ 0 <= m' < 12
    /\ 1 <= d' <= month_len y' m' /\ civil_days y' m' d' = civil_days y m d.

Lemma mday_back_spec fuel y m d :
  0 <= m < 12 -> 2 <= y < 32767 -> - 2 ^ 31 <= d < 1 -> - d < 28 * Z.of_nat fuel ->
  28 - d <= 28 * (12 * y + m - 24) -> same_date y m d (mday_back fuel y m d).
Proof.
  revert y m d; induction fuel as [|fuel IH]; intros y m d Hm Hy Hd Hf Hi; [lia|]; cbn [mday_back].
  assert (exists y' m', (if m - 1 <? 0 then (11, i16 (y - 1)) else (m - 1, y)) = (m', y')
    /\ 2 <= y' < 32767 /\ 0 <= m' < 12 /\ 12 * y' + m' = 12 * y + m - 1
    /\ civil_days y' m' (d + month_len y' m') = civil_days y m d) as (y' & m' & -> & Hy' & Hm' & Hix & Hc).
  { destruct (m - 1 <? 0) eqn:E; [rewrite i16_id by lia|]; do 2 eexists; (split; [reflexivity|]); split_and!; try lia.
    - rewrite <- civil_next_year by lia; replace (y - 1 + 1) with y by lia; by replace m with 0 by lia.
    - rewrite <- civil_next_month by lia; by replace (m - 1 + 1) with m by lia. }
  rewrite nDays_month_len by lia; pose proof (month_len_bounds y' m'); rewrite i32_id by lia.
  destruct (d + month_len y' m' <? 1) eqn:E.
  - destruct (IH y' m' (d + month_len y' m')) as (a & b & c & ? & ? & ? & ? & ?); try lia.
    exists a, b, c; split_and!; first [done|lia|congruence].
  - exists y', m', (d + month_len y' m'); split_and!; first [done|lia].
Qed.

Lemma mday_forward_spec fuel y m d :
  0 <= m < 12 -> 2 <= y < 32767 -> 1 <= d < 2 ^ 31 -> d <= 28 * (Z.of_nat fuel + 1) ->
  d <= 28 * (12 * 32766 + 11 - (12 * y + m)) -> same_date y m d (mday_forward fuel y m d).
Proof.
  revert y m d; induction fuel as [|fuel IH]; intros y m d Hm Hy Hd Hf Hi; cbn [mday_forward];
    rewrite nDays_month_len by lia; pose proof (month_len_bounds y m);
    (destruct (month_len y m <? d) eqn:E; [|exists y, m, d; split_and!; first [done|lia]]); [lia|].
  rewrite i32_id by lia.
  assert (exists y' m', (if 11 <? m + 1 then (0, i16 (y + 1)) else (m + 1, y)) = (m', y')
    /\ 2 <= y' < 32767 /\ 0 <= m' < 12 /\ 12 * y' + m' = 12 * y + m + 1
    /\ civil_days y' m' (d - month_len y m) = civil_days y m d) as (y' & m' & -> & Hy' & Hm' & Hix & Hc).
  { destruct (11 <? m + 1) eqn:F; [rewrite i16_id by lia|]; do 2 eexists; (split; [reflexivity|]); split_and!; try lia.
    - rewrite civil_next_year by lia; replace m with 11 by lia; by rewrite Z.sub_add.
    - rewrite civil_next_month by lia; by rewrite Z.sub_add. }
  destruct (IH y' m' (d - month_len y m)) as (a & b & c & ? & ? & ? & ? & ?); try lia.
  exists a, b, c; split_and!; first [done|lia|congruence].
Qed.

(** The loops never run out of fuel from the fields the code enters them with. *)
Lemma mday_total y m d :
  0 <= m < 12 -> - 2 ^ 31 <= d < 2 ^ 31 ->
  some_day (if d <? 1 then mday_back (months_fuel d) y m d else mday_forward (months_fuel d) y m d).
Proof.
  intros Hm Hd; unfold months_fuel; assert (0 <= Z.abs d / 28) by zdiv.
  assert (Z.abs d < 28 * (Z.abs d / 28 + 1)) by zdiv.
  case_match; [apply mday_back_total|apply mday_forward_total]; lia.
Qed.

Lemma mday_spec y m d :
  0 <= m < 12 -> - 2 ^ 31 <= d < 2 ^ 31 -> Z.abs d / 336 + 3 < y -> y + Z.abs d / 336 + 3 < 32767 ->
  same_date y m d (if d <? 1 then mday_back (months_fuel d) y m d else mday_forward (months_fuel d) y m d).
Proof.
  intros Hm Hd Hlo Hhi; unfold months_fuel; assert (0 <= Z.abs d / 28) by zdiv.
  assert (Z.abs d < 28 * (Z.abs d / 28 + 1)) by zdiv.
  assert (Z.abs d < 336 * (Z.abs d / 336 + 1)) by zdiv.
  assert (0 <= Z.abs d / 336) by zdiv.
  case_match; [apply mday_back_spec|apply mday_forward_spec]; lia.
Qed.

(** The month block keeps the month count. *)
Lemma month_spec m y :
  Z.abs m <= 300000 -> Z.abs m / 12 + 2 < y -> y + Z.abs m / 12 + 2 < 32767 ->
  (if (m <? 0) || (12 <=? m) then
     let year := i16 (y + i16 (Z.quot m 12)) in
     let month := Z.rem m 12 in
     if month <? 0 then (month + 12, i16 (year - 1)) else (month, year)
   else (m, y)) = (m mod 12, y + m / 12).
Proof.
  intros Hm Hlo Hhi; pose proof (quot_rem_floor m 12 ltac:(lia)) as E.
  assert (Z.abs (Z.quot m 12) = Z.abs m / 12) by zdiv.
  destruct ((m <? 0) || (12 <=? m)) eqn:F; cbn zeta.
  - rewrite (i16_id (Z.quot m 12)) by zdiv; rewrite (i16_id (y + _)) by lia.
    destruct (Z.rem m 12 <? 0); injection E as -> ->; [rewrite i16_id by lia|]; f_equal; lia.
  - f_equal; [rewrite Z.mod_small by lia|rewrite Z.div_small by lia]; lia.
Qed.

(* ------------------------------------------------------------------ *)
(** * One day back and one day forward *)

Lemma date_ok_intro y m d wday yday :
  1 <= y -> 0 <= m < 12 -> 1 <= d <= month_len y m -> yday = months_sum y (Z.to_nat m) + d - 1 ->
  wday = (civil_days y m d + 4) mod 7 -> date_ok y m d wday yday.
Proof. by constructor. Qed.

Lemma months_sum_S y m : 0 <= m -> months_sum y (Z.to_nat (m + 1)) = months_sum y (Z.to_nat m) + month_len y m.
Proof. intros; replace (Z.to_nat (m + 1)) with (S (Z.to_nat m)) by lia; cbn [months_sum]; by rewrite Z2Nat.id. Qed.

(** The two blocks give the neighbouring day. *)
Definition neighbour (k y m d : Z) (r : Z * Z * Z * Z * Z) : Prop :=
  let '(mday, month, year, yday, wday) := r in
  date_ok year month mday wday yday /\ year <= 32767
  /\ civil_days year month mday = civil_days y m d + k.

Lemma day_before_spec y m d wday yday :
  date_ok y m d wday yday -> 2 <= y <= 32767 -> neighbour (-1) y m d (day_before d m y yday wday).
Proof.
  intros [Hy Hm Hd Hyd Hw] Hr; unfold day_before; pose proof (month_len_bounds y m).
  pose proof (months_sum_bounds y m d Hm Hd); rewrite (i32_id (d - 1)), (i16_id (yday - 1)) by lia.
  assert (Hwd : forall c, c = civil_days y m d - 1 -> (if wday - 1 <? 0 then 6 else wday - 1) = (c + 4) mod 7)
    by (intros c ->; case_match; zdiv).
  destruct (d - 1 <? 1) eqn:E; [rewrite i32_id by lia; destruct (m - 1 <? 0) eqn:F|].
  - rewrite i16_id by lia; rewrite nDays_month_len by lia.
    assert (Hc : civil_days (y - 1) 11 (month_len (y - 1) 11) = civil_days y m d - 1).
    { pose proof (civil_next_year (y - 1) 0 ltac:(lia)) as Hn.
      rewrite Z.sub_add, Z.add_0_l in Hn; replace m with 0 by lia; replace d with (0 + 1) by lia.
      rewrite civil_days_add; lia. }
    pose proof (month_len_bounds (y - 1) 11).
    split_and!; [apply date_ok_intro; try lia; [|by apply Hwd]|lia|lia].
    rewrite IsLeapYear_leap by lia; pose proof (months_sum_year (y - 1)) as Hs.
    change (Z.to_nat 11) with 11%nat; unfold year_len in Hs; case_match; lia.
  - rewrite nDays_month_len by lia.
    assert (Hc : civil_days y (m - 1) (month_len y (m - 1)) = civil_days y m d - 1).
    { pose proof (civil_next_month y (m - 1) 0 ltac:(lia) ltac:(lia)) as Hn.
      rewrite Z.sub_add, Z.add_0_l in Hn; replace d with (0 + 1) by lia.
      rewrite civil_days_add; lia. }
    pose proof (months_sum_S y (m - 1) ltac:(lia)) as Hs; rewrite Z.sub_add in Hs.
    pose proof (month_len_bounds y (m - 1)).
    split_and!; [apply date_ok_intro; try lia; by apply Hwd|lia|lia].
  - assert (Hc : civil_days y m (d - 1) = civil_days y m d - 1)
      by (pose proof (civil_days_add y m (d - 1) 1) as Hn; rewrite Z.sub_add in Hn; lia).
    split_and!; [apply date_ok_intro; try lia; by apply Hwd|lia|lia].
Qed.

Lemma day_after_spec y m d wday yday :
  date_ok y m d wday yday -> y <= 32766 -> neighbour 1 y m d (day_after d m y yday wday).
Proof.
  intros [Hy Hm Hd Hyd Hw] Hr; unfold day_after; pose proof (month_len_bounds y m).
  pose proof (months_sum_bounds y m d Hm Hd); rewrite (i32_id (d + 1)), (i16_id (yday + 1)) by lia.
  assert (Hwd : forall c, c = civil_days y m d + 1 -> (if 6 <? wday + 1 then 0 else wday + 1) = (c + 4) mod 7)
    by (intros c ->; case_match; zdiv).
  rewrite nDays_month_len by lia; rewrite i32_id by lia.
  destruct (month_len y m <? d + 1) eqn:E; [destruct (11 <? m + 1) eqn:F|].
  - assert (Hc : civil_days (y + 1) 0 1 = civil_days y m d + 1).
    { rewrite civil_next_year by lia; replace m with 11 in * by lia.
      replace (1 + month_len y 11) with (d + 1) by lia; by rewrite civil_days_add. }
    rewrite i16_id by lia; pose proof (month_len_bounds (y + 1) 0).
    split_and!; [apply date_ok_intro; try lia; [done|by apply Hwd]|lia|lia].
  - assert (Hc : civil_days y (m + 1) 1 = civil_days y m d + 1).
    { rewrite civil_next_month by lia; replace (1 + month_len y m) with (d + 1) by lia.
      by rewrite civil_days_add. }
    pose proof (months_sum_S y m ltac:(lia)); pose proof (month_len_bounds y (m + 1)).
    split_and!; [apply date_ok_intro; try lia; by apply Hwd|lia|lia].
  - assert (Hc : civil_days y m (d + 1) = civil_days y m d + 1) by apply civil_days_add.
    split_and!; [apply date_ok_intro; try lia; by apply Hwd|lia|lia].
Qed.

(* ------------------------------------------------------------------ *)
(** * Whole functions *)

(** The seconds a record's own fields count. *)
Definition local_secs (e : PRExplodedTime) : Z :=
  civil_days (tm_year e) (tm_month e) (tm_mday e) * 86400 + tm_hour e * 3600 + tm_min e * 60 + tm_sec e.

Lemma instant_local e :
  0 <= tm_month e < 12 -> instant e = (local_secs e - offset_of e) * 1000000 + tm_usec e.
Proof.
  intros; unfold instant, local_secs, offset_of.
  by rewrite Z.div_small, Z.mod_small, Z.add_0_r by lia.
Qed.

Lemma ApplySecOffset_spec e off :
  normalized e -> 2 <= tm_year e <= 32766 -> Z.abs off < 86400 ->
  normalized (ApplySecOffset e off) /\ local_secs (ApplySecOffset e off) = local_secs e + off
  /\ tm_usec (ApplySecOffset e off) = tm_usec e /\ tm_params (ApplySecOffset e off) = tm_params e.
Proof.
  destruct e as [usec sec min hour mday month year wday yday p]; intros [Hu Hs Hmi Hh Hd] Hy Ho; cbn in *.
  rewrite i32_id, carry_spec by lia; rewrite carry_spec by zdiv.
  set (s1 := sec + off); set (m1 := min + s1 / 60); set (h1 := hour + m1 / 60).
  assert (-24 <= h1 < 48) by (unfold h1, m1, s1; zdiv).
  assert (Hsecs : h1 * 3600 + m1 mod 60 * 60 + s1 mod 60 = hour * 3600 + min * 60 + sec + off)
    by (unfold h1, m1, s1; zdiv).
  assert (0 <= s1 mod 60 < 60 /\ 0 <= m1 mod 60 < 60) as [? ?] by zdiv.
  pose proof (day_before_spec _ _ _ _ _ Hd ltac:(lia)) as Hb.
  pose proof (day_after_spec _ _ _ _ _ Hd ltac:(lia)) as Ha.
  destruct (h1 <? 0) eqn:E; [|destruct (23 <? h1) eqn:F].
  - destruct (day_before _ _ _ _ _) as [[[[d' mo'] y'] yd'] w']; destruct Hb as (Hok & _ & Hc).
    unfold local_secs; cbn; split_and!; [constructor; cbn; first [done|lia]|lia|done|done].
  - destruct (day_after _ _ _ _ _) as [[[[d' mo'] y'] yd'] w']; destruct Ha as (Hok & _ & Hc).
    unfold local_secs; cbn; split_and!; [constructor; cbn; first [done|lia]|lia|done|done].
  - unfold local_secs; cbn; split_and!; [constructor; cbn; first [done|lia]|lia|done|done].
Qed.

Lemma abs_div_le x a n : 0 < n -> Z.abs x <= a -> Z.abs (x / n) <= a / n + 1.
Proof.
  intros Hn Ha; pose proof (Z.div_mod a n ltac:(lia)); pose proof (Z.mod_pos_bound a n Hn).
  assert (- (a / n + 1) <= x / n <= a / n) by
    (split; [apply Z.div_le_lower_bound|apply Z.div_le_mono]; nia).
  lia.
Qed.

(** The bounds of a field after a carry. *)
Lemma carry_bound x y b n Bx By B :
  0 < n -> Z.abs x <= Bx -> Z.abs y <= b -> b <= By -> (Bx + By / n + 2 <=? B) = true ->
  Z.abs (x + y / n) <= Z.abs x + b / n + 2 /\ Z.abs x + b / n + 2 <= B.
Proof.
  intros Hn Hx Hy Hb HB; pose proof (abs_div_le y b n Hn Hy); pose proof (Z.div_le_mono b By n Hn Hb); lia.
Qed.

Lemma seconds_bound sec usec off :
  Z.abs sec <= 1000000000 -> Z.abs usec <= 1000000000 -> Z.abs off <= 500000000 ->
  Z.abs (sec - off + usec / 1000000) <= Z.abs sec + Z.abs usec / 1000000 + Z.abs off + 2
  /\ Z.abs sec + Z.abs usec / 1000000 + Z.abs off + 2 <= 1600000000.
Proof.
  intros Hs Hu Ho; pose proof (abs_div_le usec (Z.abs usec) 1000000 eq_refl ltac:(lia)).
  pose proof (Z.div_le_mono (Z.abs usec) 1000000000 1000000 eq_refl Hu) as Hm.
  change (1000000000 / 1000000) with 1000 in Hm; lia.
Qed.

(** The fields after each carry, seconds to days, within the bounds of their
    types, and the year far enough from its ends. *)
Definition sec1 (e : PRExplodedTime) : Z := tm_sec e - offset_of e + tm_usec e / 1000000.
Definition min1 (e : PRExplodedTime) : Z := tm_min e + sec1 e / 60.
Definition hour1 (e : PRExplodedTime) : Z := tm_hour e + min1 e / 60.
Definition mday1 (e : PRExplodedTime) : Z := tm_mday e + hour1 e / 24.

Record roomy (e : PRExplodedTime) : Prop := {
  r_fields : (Z.abs (tm_usec e) <= 1000000000 /\ Z.abs (tm_sec e) <= 1000000000
    /\ Z.abs (offset_of e) <= 500000000 /\ Z.abs (tm_min e) <= 1000000000
    /\ Z.abs (tm_hour e) <= 1000000000 /\ Z.abs (tm_mday e) <= 1000000000);
  r_carried : (Z.abs (sec1 e) <= 1600000000 /\ Z.abs (min1 e) <= 1100000000
    /\ Z.abs (hour1 e) <= 1100000000 /\ Z.abs (mday1 e) <= 1100000000);
  r_month : (Z.abs (tm_month e) <= 300000 /\ Z.abs (tm_month e) / 12 + 2 < tm_year e
    /\ tm_year e + Z.abs (tm_month e) / 12 + 2 < 32767);
  r_year : (Z.abs (mday1 e) / 336 + 3 < tm_year e + tm_month e / 12
    /\ tm_year e + tm_month e / 12 + Z.abs (mday1 e) / 336 + 3 < 32767) }.

Lemma fits_roomy e : fits e = true -> roomy e.
Proof.
  unfold fits, small; rewrite !andb_true_iff, !Z.leb_le, !Z.ltb_lt.
  intros [[[[[[[[[Hu Hs] Hmi] Hh] Hmd] Hgo] Hdo] Hmo] Hlo] Hhi].
  assert (Ho : Z.abs (offset_of e) <= 500000000) by (clear -Hgo Hdo; unfold offset_of; lia).
  clear Hgo Hdo; unfold day_shift in Hlo, Hhi.
  destruct (seconds_bound _ _ _ Hs Hu Ho) as [Hs1 Bs]; fold (sec1 e) in Hs1.
  remember (Z.abs (tm_sec e) + _ + _ + 2) as sb eqn:Esb; clear Esb.
  destruct (carry_bound (tm_min e) (sec1 e) sb 60 1000000000 1600000000 1100000000
    eq_refl Hmi Hs1 Bs eq_refl) as [Hm1 Bm]; fold (min1 e) in Hm1.
  remember (Z.abs (tm_min e) + _ + 2) as mb eqn:Emb; clear Emb.
  destruct (carry_bound (tm_hour e) (min1 e) mb 60 1000000000 1100000000 1100000000
    eq_refl Hh Hm1 Bm eq_refl) as [Hh1 Bh]; fold (hour1 e) in Hh1.
  remember (Z.abs (tm_hour e) + _ + 2) as hb eqn:Ehb; clear Ehb.
  destruct (carry_bound (tm_mday e) (hour1 e) hb 24 1000000000 1100000000 1100000000
    eq_refl Hmd Hh1 Bh eq_refl) as [Hd1 Bd]; fold (mday1 e) in Hd1.
  remember (Z.abs (tm_mday e) + _ + 2) as db eqn:Edb; clear Edb.
  pose proof (Z.div_le_mono _ _ 336 eq_refl Hd1) as Hdd.
  pose proof (abs_div_le (tm_month e) _ 12 eq_refl (Z.le_refl _)) as Hmm.
  pose proof (Z.div_pos (Z.abs (mday1 e)) 336 (Z.abs_nonneg _) eq_refl) as Hpos.
  constructor; [by split_and!|split_and!; (by etrans)|clear -Hmo Hlo Hhi Hdd Hpos|clear -Hlo Hhi Hdd Hmm];
    generalize dependent (Z.abs (mday1 e) / 336); intros q **; lia.
Qed.

(** Carrying the seconds up to the days keeps the instant. *)
Lemma carried_instant e :
  (civil_days (tm_year e + tm_month e / 12) (tm_month e mod 12) (mday1 e) * 86400
   + hour1 e mod 24 * 3600 + min1 e mod 60 * 60 + sec1 e mod 60) * 1000000 + tm_usec e mod 1000000 = instant e.
Proof.
  unfold instant; fold (offset_of e); unfold mday1 at 1; rewrite civil_days_add.
  pose proof (Z.div_mod (hour1 e) 24); pose proof (Z.div_mod (min1 e) 60).
  pose proof (Z.div_mod (sec1 e) 60); pose proof (Z.div_mod (tm_usec e) 1000000).
  assert (hour1 e = tm_hour e + min1 e / 60) by done.
  assert (min1 e = tm_min e + sec1 e / 60) by done.
  assert (sec1 e = tm_sec e - offset_of e + tm_usec e / 1000000) by done; lia.
Qed.

(** The weekday the code computes. *)
Lemma wday_spec c : (if Z.rem c 7 <? 0 then Z.rem c 7 + 7 else Z.rem c 7) = c mod 7.
Proof. pose proof (quot_rem_floor c 7 ltac:(lia)) as E; case_match; by injection E. Qed.

(** Everything [PR_NormalizeTime] does before it asks for the time zone: the
    same instant in GMT, with every field in its range. *)
Lemma normalize_gmt e :
  fits e = true ->
  exists gmt, normalized gmt /\ tm_params gmt = mkParams 0 0 /\ 2 <= tm_year gmt <= 32766
    /\ instant gmt = instant e
    /\ forall params, PR_NormalizeTime params e =
        let p := params gmt in
        Some (ApplySecOffset (mkExploded (tm_usec gmt) (tm_sec gmt) (tm_min gmt) (tm_hour gmt)
          (tm_mday gmt) (tm_month gmt) (tm_year gmt) (tm_wday gmt) (tm_yday gmt) p)
          (i32 (tp_gmt_offset p + tp_dst_offset p))).
Proof.
  intros [Hf Hc (Hm0 & Hm1 & Hm2) (Hy1 & Hy2)]%fits_roomy; unfold PR_NormalizeTime.
  assert (Hm : 0 <= tm_month e mod 12 < 12) by by apply Z.mod_pos_bound.
  pose proof (month_spec _ _ Hm0 Hm1 Hm2) as Hms; cbn zeta in Hms; clear Hm0 Hm1 Hm2.
  destruct (mday_spec _ _ (mday1 e) Hm ltac:(lia) Hy1 Hy2) as (y & m & d & Hd0 & Hy & Hmo & Hd & Hcd).
  clear Hy1 Hy2; fold (offset_of e).
  rewrite (i32_id (offset_of e)), (i32_id (tm_sec e - offset_of e)) by lia.
  rewrite (carry_spec 1000000) by lia; fold (sec1 e).
  rewrite (carry_spec 60 (sec1 e)) by lia; fold (min1 e).
  rewrite (carry_spec 60 (min1 e)) by lia; fold (hour1 e).
  rewrite (carry_spec 24) by lia; fold (mday1 e).
  rewrite Hms, Hd0; cbn [mbind option_bind].
  rewrite lastDay_months_sum by lia; pose proof (months_sum_bounds y m d Hmo Hd).
  rewrite (i16_id (d + _)) by lia; pose proof (DAYS_BETWEEN_civil y m d ltac:(lia)) as Hdb.
  replace (d + (months_sum y (Z.to_nat m) - 1)) with (months_sum y (Z.to_nat m) + d - 1) by lia.
  rewrite Hdb; pose proof (COUNT_DAYS_bounds y ltac:(lia)).
  assert (0 <= civil_days y m d + COUNT_DAYS 1970 <= 13000000)
    by (unfold DAYS_BETWEEN_YEARS in Hdb; clear -Hdb H H0; lia).
  change (COUNT_DAYS 1970) with 719162 in *.
  rewrite (i32_id (civil_days y m d)), i32_id, wday_spec by lia.
  exists (mkExploded (tm_usec e mod 1000000) (sec1 e mod 60) (min1 e mod 60) (hour1 e mod 24) d m y
    ((civil_days y m d + 4) mod 7) (months_sum y (Z.to_nat m) + d - 1) (mkParams 0 0)).
  split_and!; cbn [tm_params tm_year]; try done; try lia.
  - constructor; cbn; try (by apply Z.mod_pos_bound); apply date_ok_intro; first [done|lia].
  - rewrite <- (carried_instant e), <- Hcd, instant_local by done.
    unfold local_secs, offset_of; cbn; lia.
Qed.

(** With a time zone function whose offsets stay within a day. *)
Lemma normalize_spec params e :
  fits e = true -> (forall gmt, Z.abs (offset_of (mkExploded 0 0 0 0 0 0 0 0 0 (params gmt))) < 86400) ->
  exists r, PR_NormalizeTime params e = Some r /\ normalized r /\ instant r = instant e
    /\ exists gmt, normalized gmt /\ tm_params gmt = mkParams 0 0 /\ instant gmt = instant e
        /\ tm_params r = params gmt.
Proof.
  intros (gmt & Hn & Hp & Hy & Hi & Heq)%normalize_gmt Hoff; rewrite Heq; cbn zeta; clear Heq.
  specialize (Hoff gmt); unfold offset_of in Hoff; cbn in Hoff; rewrite i32_id by lia.
  set (g := mkExploded _ _ _ _ _ _ _ _ _ (params gmt)).
  destruct (ApplySecOffset_spec g (tp_gmt_offset (params gmt) + tp_dst_offset (params gmt)))
    as (Hr & Hl & Hu & Hpr); [by destruct Hn; constructor|cbn; lia|lia|].
  eexists; split_and!; [done|done| |by exists gmt].
  pose proof (ok_month _ _ _ _ _ (n_date _ Hr)); pose proof (ok_month _ _ _ _ _ (n_date _ Hn)).
  rewrite <- Hi, !instant_local, Hl, Hu by done; unfold offset_of; rewrite Hpr, Hp; cbn.
  change (local_secs g) with (local_secs gmt); lia.
Qed.

Lemma civil_days_bounds y m d :
  1 <= y <= 32767 -> 0 <= m < 12 -> 1 <= d <= month_len y m ->
  -719162 <= civil_days y m d <= 13000000 /\ DAYS_BETWEEN_YEARS 1970 y = civil_days y 0 1
  /\ -719162 <= civil_days y 0 1 <= 13000000.
Proof.
  intros Hy Hm Hd; pose proof (COUNT_DAYS_bounds y Hy); pose proof (months_sum_bounds y m d Hm Hd).
  pose proof (DAYS_BETWEEN_civil y m d ltac:(lia)); pose proof (DAYS_BETWEEN_civil y 0 1 ltac:(lia)) as Hz.
  change (months_sum y (Z.to_nat 0)) with 0 in Hz; unfold DAYS_BETWEEN_YEARS in *.
  change (COUNT_DAYS 1970) with 719162 in *; lia.
Qed.

Lemma implode_normalized r :
  normalized r -> tm_year r <= 32767 -> tm_params r = mkParams 0 0 ->
  let numDays := i32 (DAYS_BETWEEN_YEARS 1970 (tm_year r)) in
  let numSecs := i32 (tm_yday r * 86400 + tm_hour r * 3600 + tm_min r * 60 + tm_sec r) in
  let numSecs64 := i64 (i64 (i64 (numSecs + i64 (numDays * 86400))
                     - tp_gmt_offset (tm_params r)) - tp_dst_offset (tm_params r)) in
  i64 (tm_usec r + i64 (numSecs64 * 1000000)) = instant r.
Proof.
  intros [Hu Hs Hmi Hh [Hy Hm Hd Hyd Hw]] Hyb Hp numDays numSecs numSecs64.
  destruct (civil_days_bounds (tm_year r) (tm_month r) (tm_mday r)) as (Hb & He & Hb0); try done.
  pose proof (months_sum_bounds _ _ _ Hm Hd).
  pose proof (DAYS_BETWEEN_civil (tm_year r) (tm_month r) (tm_mday r) Hy) as Hdb.
  rewrite (instant_local r Hm); unfold local_secs, offset_of.
  unfold numSecs64, numSecs, numDays; rewrite Hp; cbn; rewrite !Z.sub_0_r.
  rewrite (i32_id (DAYS_BETWEEN_YEARS _ _)), (i32_id (tm_yday r * _ + _ + _ + _)) by lia.
  repeat match goal with
  | |- context [i64 ?x] => lazymatch x with context [i64 _] => fail | _ => rewrite (i64_id x) by lia end
  end; lia.
Qed.

(** The fields below the date in range. *)
Definition time_ok (e : PRExplodedTime) : Prop :=
  0 <= tm_usec e < 1000000 /\ 0 <= tm_sec e < 60 /\ 0 <= tm_min e < 60 /\ 0 <= tm_hour e < 24.

Lemma ApplySecOffset_0 e : time_ok e -> ApplySecOffset e 0 = e.
Proof.
  destruct e as [usec sec min hour mday month year wday yday p]; intros (Hu & Hs & Hmi & Hh); cbn in *.
  rewrite i32_id, Z.add_0_r, carry_spec, !Z.mod_small, Z.div_small, Z.add_0_r by lia.
  rewrite carry_spec, Z.mod_small, Z.div_small, Z.add_0_r by lia.
  by destruct (Z.ltb_spec hour 0), (Z.ltb_spec 23 hour); try lia.
Qed.

Lemma normalized_time_ok e : normalized e -> time_ok e.
Proof. by intros []. Qed.

Lemma carry_range n x y :
  24 <= n -> - 2 ^ 31 <= y < 2 ^ 31 -> - 2 ^ 31 <= (carry n x y).2 < 2 ^ 31.
Proof. intros; unfold carry; repeat case_match; cbn; first [apply i32_range|lia]. Qed.

(** The month block leaves a month, whatever the year. *)
Lemma month_range (m y : Z) :
  let my := if (m <? 0) || (12 <=? m) then
     let year := i16 (y + i16 (Z.quot m 12)) in
     let month := Z.rem m 12 in
     if month <? 0 then (month + 12, i16 (year - 1)) else (month, year)
   else (m, y) in 0 <= my.1 < 12.
Proof. cbn zeta; repeat case_match; cbn; zdiv. Qed.

(** Fields of at most a million, with the offsets of a zone. *)
Definition modest (e : PRExplodedTime) : Prop :=
  - 1000000 <= tm_usec e <= 1000000 /\ - 1000000 <= tm_sec e <= 1000000
  /\ - 1000000 <= tm_min e <= 1000000 /\ - 1000000 <= tm_hour e <= 1000000
  /\ - 1000000 <= tm_mday e <= 1000000 /\ - 1000000 <= offset_of e <= 1000000.

Lemma div_interval x n B : 0 < n -> - B <= x <= B -> - B - 1 <= x / n <= B.
Proof. intros; split; [apply Z.div_le_lower_bound|apply Z.div_le_upper_bound]; nia. Qed.

Lemma carried_interval e :
  modest e -> - 4000000 <= sec1 e <= 4000000 /\ - 6000000 <= min1 e <= 6000000
    /\ - 8000000 <= hour1 e <= 8000000 /\ - 10000000 <= mday1 e <= 10000000.
Proof.
  intros (Hu & Hs & Hmi & Hh & Hd & Ho).
  assert (H1 : - 4000000 <= sec1 e <= 4000000)
    by (unfold sec1; pose proof (div_interval _ 1000000 1000000 eq_refl Hu); lia).
  assert (H2 : - 6000000 <= min1 e <= 6000000)
    by (unfold min1; pose proof (div_interval _ 60 4000000 eq_refl H1); lia).
  assert (H3 : - 8000000 <= hour1 e <= 8000000)
    by (unfold hour1; pose proof (div_interval _ 60 6000000 eq_refl H2); lia).
  split_and!; try lia; unfold mday1; pose proof (div_interval _ 24 8000000 eq_refl H3); lia.
Qed.

(** Without any condition on the year, every field below it is in range. *)
Lemma normalize_fields e :
  modest e -> exists r, PR_NormalizeTime PR_GMTParameters e = Some r /\ time_ok r
    /\ 0 <= tm_month r < 12 /\ 1 <= tm_mday r <= 31 /\ offset_of r = 0.
Proof.
  intros H; destruct (carried_interval e H) as (H1 & H2 & H3 & H4).
  destruct H as (Hu & Hs & Hmi & Hh & Hd & Ho); unfold PR_NormalizeTime.
  pose proof (month_range (tm_month e) (tm_year e)) as Hm; cbn zeta in Hm.
  fold (offset_of e); rewrite (i32_id (offset_of e)), (i32_id (tm_sec e - offset_of e)) by lia.
  rewrite (carry_spec 1000000) by lia; fold (sec1 e).
  rewrite (carry_spec 60 (sec1 e)) by lia; fold (min1 e).
  rewrite (carry_spec 60 (min1 e)) by lia; fold (hour1 e).
  rewrite (carry_spec 24) by lia; fold (mday1 e).
  destruct (if _ || _ then _ else _) as [m y]; cbn [fst] in Hm.
  destruct (mday_total y m (mday1 e) Hm ltac:(lia)) as (y' & m' & d' & -> & Hm' & Hd'); cbn [mbind option_bind].
  eexists; split; [reflexivity|]; change (i32 (tp_gmt_offset _ + _)) with 0.
  rewrite ApplySecOffset_0; unfold time_ok; cbn; split_and?; try done; try lia; by apply Z.mod_pos_bound.
Qed.

(** [PR_NormalizeTime] terminates with a result whatever the fields hold. *)
Theorem PR_NormalizeTime_total params e :
  - 2 ^ 31 <= tm_mday e < 2 ^ 31 -> is_Some (PR_NormalizeTime params e).
Proof.
  intros Hd; unfold PR_NormalizeTime.
  destruct (carry 1000000 _ _) as [? sec]; destruct (carry 60 sec _) as [? min].
  destruct (carry 60 min _) as [? hour].
  pose proof (carry_range 24 hour (tm_mday e) ltac:(lia) Hd) as Hr.
  destruct (carry 24 hour _) as [? mday]; cbn in Hr.
  pose proof (month_range (tm_month e) (tm_year e)) as Hm; cbn zeta in Hm.
  destruct (if _ || _ then _ else _) as [m y]; cbn [fst] in Hm.
  destruct (mday_total y m mday Hm Hr) as (y' & m' & d' & -> & _); cbn; eauto.
Qed.

(** Normalising keeps the instant. *)
Theorem normalize_exact params e :
  fits e = true -> (forall gmt, Z.abs (offset_of (mkExploded 0 0 0 0 0 0 0 0 0 (params gmt))) < 86400) ->
  exists r, PR_NormalizeTime params e = Some r /\ normalized r /\ instant r = instant e
    /\ exists gmt, normalized gmt /\ tm_params gmt = mkParams 0 0 /\ instant gmt = instant e
        /\ tm_params r = params gmt.
Proof. apply normalize_spec. Qed.

Lemma implode_spec e : fits e = true -> PR_ImplodeTime e = Some (instant e).
Proof.
  intros (gmt & Hn & Hp & Hy & Hi & Heq)%normalize_gmt; unfold PR_ImplodeTime.
  rewrite Heq; cbn zeta; cbn [mbind option_bind]; clear Heq.
  replace (mkExploded _ _ _ _ _ _ _ _ _ _) with gmt
    by (destruct gmt; cbn in Hp; by subst).
  change (i32 (tp_gmt_offset _ + _)) with 0; rewrite (ApplySecOffset_0 gmt (normalized_time_ok gmt Hn)), <- Hi.
  by rewrite <- (implode_normalized gmt Hn ltac:(lia) Hp).
Qed.

(** C25.  Imploding gives the instant. *)
Theorem implode_exact e : fits e = true -> PR_ImplodeTime e = Some (instant e).
Proof. apply implode_spec. Qed.

(** ** Records that are in range already *)

Lemma carry_id n x y : 0 <= x < n -> carry n x y = (x, y).
Proof. intros; unfold carry; by destruct (Z.ltb_spec x 0), (Z.leb_spec n x); try lia. Qed.

Definition same_fields (e r : PRExplodedTime) : Prop :=
  tm_usec r = tm_usec e /\ tm_sec r = tm_sec e /\ tm_min r = tm_min e /\ tm_hour r = tm_hour e
  /\ tm_mday r = tm_mday e /\ tm_month r = tm_month e /\ tm_year r = tm_year e /\ tm_params r = mkParams 0 0.

(** Normalising computes the weekday and the day of the year and changes
    nothing else. *)
Lemma normalize_valid e :
  time_ok e -> 0 <= tm_month e < 12 -> 0 <= tm_year e ->
  1 <= tm_mday e <= month_len (tm_year e) (tm_month e) -> tm_params e = mkParams 0 0 ->
  exists r, PR_NormalizeTime PR_GMTParameters e = Some r /\ same_fields e r.
Proof.
  intros (Hu & Hs & Hmi & Hh) Hm Hy Hd Hp; unfold PR_NormalizeTime; rewrite Hp; cbn [tp_gmt_offset tp_dst_offset].
  change (i32 (0 + 0)) with 0; rewrite Z.sub_0_r, i32_id by lia.
  rewrite (carry_id 1000000), (carry_id 60), (carry_id 60), (carry_id 24) by lia.
  destruct (Z.ltb_spec (tm_month e) 0), (Z.leb_spec 12 (tm_month e)); try lia; cbn [orb].
  destruct (Z.ltb_spec (tm_mday e) 1); [lia|].
  unfold months_fuel; cbn [mday_forward]; rewrite nDays_month_len by lia.
  destruct (Z.ltb_spec (month_len (tm_year e) (tm_month e)) (tm_mday e)); [lia|]; cbn [mbind option_bind].
  eexists; split; [reflexivity|]; change (i32 (tp_gmt_offset _ + _)) with 0; by rewrite ApplySecOffset_0.
Qed.

(** Any zone's offset leaves room in the fields. *)
Lemma valid_fits e :
  time_ok e -> 0 <= tm_month e < 12 -> 1 <= tm_mday e <= 31 -> 5 <= tm_year e <= 32000 ->
  - 400000 <= tp_gmt_offset (tm_params e) <= 400000 /\ - 10000 <= tp_dst_offset (tm_params e) <= 10000 ->
  fits e = true.
Proof.
  intros (Hu & Hs & Hmi & Hh) Hm Hd Hy Ho.
  assert (Hsh : 0 <= day_shift e <= 100).
  { unfold day_shift; set (o := Z.abs (offset_of e)).
    assert (0 <= o <= 410000) by (unfold o, offset_of; lia); clearbody o.
    rewrite !Z.abs_eq by lia; rewrite (Z.div_small (tm_usec e)) by lia.
    set (s := tm_sec e + 0 + o + 2); assert (0 <= s / 60 <= 6840) by (unfold s; zdiv).
    set (m := tm_min e + s / 60 + 2); assert (0 <= m / 60 <= 120) by (unfold m; zdiv).
    set (h := tm_hour e + m / 60 + 2); assert (0 <= h / 24 <= 10) by (unfold h; zdiv); lia. }
  unfold fits, small; rewrite !andb_true_iff, !Z.leb_le, !Z.ltb_lt.
  rewrite (Z.div_small (Z.abs _)), (Z.div_small (day_shift e)) by lia; lia.
Qed.

(** 29 February 2000 written as the 60th day of January, at 25:61:61 and 1.5
    seconds, two hours east of Greenwich. *)
Definition leap_example : PRExplodedTime :=
  mkExploded 1500000 61 61 25 60 0 2000 0 0 (mkParams 3600 3600).

Definition two_hours_east (gmt : PRExplodedTime) : PRTimeParameters := mkParams 3600 3600.

Lemma PR_NormalizeTime_total_witness :
  - 2 ^ 31 <= tm_mday leap_example < 2 ^ 31 /\ is_Some (PR_NormalizeTime two_hours_east leap_example).
Proof. split; [vm_compute; split; congruence|]. apply PR_NormalizeTime_total; vm_compute; split; congruence. Defined.

Lemma normalize_exact_witness :
  fits leap_example = true /\
  exists r, PR_NormalizeTime two_hours_east leap_example = Some r /\ normalized r
    /\ instant r = instant leap_example
    /\ exists gmt, normalized gmt /\ tm_params gmt = mkParams 0 0 /\ instant gmt = instant leap_example
        /\ tm_params r = two_hours_east gmt.
Proof.
  split; [vm_compute; reflexivity|].
  apply (normalize_exact two_hours_east leap_example); [vm_compute; reflexivity|].
  intros gmt; vm_compute; reflexivity.
Defined.

(** 1 March 2000, 00:02:02.5 GMT. *)
Lemma implode_exact_witness :
  fits leap_example = true /\ PR_ImplodeTime leap_example = Some (instant leap_example)
  /\ instant leap_example = 951868922500000.
Proof.
  split; [vm_compute; reflexivity|split; [|vm_compute; reflexivity]].
  apply implode_exact; vm_compute; reflexivity.
Defined.
