(* ===== verification/PrRoundtrip.v ===== *)
(** Round trips of [PR_ParseTimeString] (src/base/time/nspr/prtime.cc): the dates
    of HTTP and mail headers ([rfc1123]) and ISO 8601 times ([iso8601]) are
    printed from their fields and parse back to exactly the instant the calendar
    of PrTime.v gives, for every date, time and numeric zone.

    The proofs follow the loop token by token: a lemma for each kind of token
    gives the state and the cursor after the pass that reads it, whatever text
    follows, and [finish_exact] turns the final state into the instant. *)
From Stdlib Require Import ZArith Lia.
From Stdlib Require String.
From stdpp Require Import base option list.
From S2P Require Import Prelude Numerics CheckedMath ClampedMath TimeDelta PrTime PrParse.
#[local] Open Scope string_scope.
Open Scope list_scope.
Open Scope Z_scope.

(* ------------------------------------------------------------------ *)
(** * Printing *)

Definition dig (d : Z) : Z := 48 + d.
Definition two (n : Z) : list Z := [dig (n / 10); dig (n mod 10)].
Definition four (n : Z) : list Z := two (n / 100) ++ two (n mod 100).
Definition six (n : Z) : list Z := two (n / 10000) ++ four (n mod 10000).

Definition day_name (w : Z) : list Z :=
  str (nth (Z.to_nat w) ["Sun"; "Mon"; "Tue"; "Wed"; "Thu"; "Fri"; "Sat"] "").
Definition month_name (m : Z) : list Z :=
  str (nth (Z.to_nat m) ["Jan"; "Feb"; "Mar"; "Apr"; "May"; "Jun"; "Jul"; "Aug"; "Sep"; "Oct"; "Nov"; "Dec"] "").

(** A zone is "GMT" or a sign with hours and minutes. *)
Inductive zone_text := GMT | Ahead (hh mm : Z) | Behind (hh mm : Z).
Definition print_zone (z : zone_text) : list Z :=
  match z with
  | GMT => str "GMT"
  | Ahead hh mm => str "+" ++ two hh ++ two mm
  | Behind hh mm => str "-" ++ two hh ++ two mm
  end.
Definition zone_minutes (z : zone_text) : Z :=
  match z with GMT => 0 | Ahead hh mm => hh * 60 + mm | Behind hh mm => - (hh * 60 + mm) end.

(** Two digits each, and not the "-0001" the parser takes for no offset. *)
Definition zone_valid (z : zone_text) : bool :=
  match z with
  | GMT => true
  | Ahead hh mm => (0 <=? hh) && (hh <? 100) && (0 <=? mm) && (mm <? 100)
  | Behind hh mm => (0 <=? hh) && (hh <? 100) && (0 <=? mm) && (mm <? 100) && negb (hh * 60 + mm =? 1)
  end.

Definition clock (h mi s : Z) : list Z := two h ++ str ":" ++ two mi ++ str ":" ++ two s.

(** "Sun, 06 Nov 1994 08:49:37 GMT". *)
Definition rfc1123 (w d m y h mi s : Z) (z : zone_text) : list Z :=
  day_name w ++ str ", " ++ two d ++ str " " ++ month_name m ++ str " " ++ four y ++ str " "
  ++ clock h mi s ++ str " " ++ print_zone z.

(** "1995-06-17T23:11:25.342156Z". *)
Definition iso8601 (y m d h mi s us : Z) : list Z :=
  four y ++ str "-" ++ two (m + 1) ++ str "-" ++ two d ++ str "T" ++ clock h mi s ++ str "." ++ six us ++ str "Z".

(** The instant of a date and time of day, [zone] minutes ahead of GMT. *)
Definition civil_instant (y m d h mi s us zone : Z) : Z :=
  (civil_days y m d * 86400 + h * 3600 + mi * 60 + s - zone * 60) * 1000000 + us.

Definition date_valid (y m d : Z) : bool := (0 <=? m) && (m <? 12) && (1 <=? d) && (d <=? month_len y m).
Definition time_valid (h mi s us : Z) : bool :=
  (0 <=? h) && (h <? 24) && (0 <=? mi) && (mi <? 60) && (0 <=? s) && (s <? 60) && (0 <=? us) && (us <? 1000000).

(* ------------------------------------------------------------------ *)
(** * Digits *)

Lemma isdig_dig d : 0 <= d <= 9 -> isdig (dig d) = true.
Proof. intros; unfold isdig, dig; lia. Qed.

Lemma two_isdig n : 0 <= n < 100 -> Forall (fun c => isdig c = true) (two n).
Proof. intros; unfold two; repeat constructor; apply isdig_dig; zdiv. Qed.

Lemma number_two n : number (two n) = n.
Proof. unfold number, two, dig; cbn [foldl]; zdiv. Qed.

Lemma four_isdig n : 0 <= n < 10000 -> Forall (fun c => isdig c = true) (four n).
Proof. intros; unfold four; apply Forall_app; split; apply two_isdig; zdiv. Qed.

Lemma number_app a b : number (a ++ b) = number a * 10 ^ zlen b + number b.
Proof.
  induction b as [|c b IH] using rev_ind.
  - rewrite app_nil_r; cbn; lia.
  - rewrite app_assoc, !number_snoc, IH, length_app, Nat2Z.inj_add, Z.pow_add_r by lia.
    change (10 ^ zlen [c]) with 10; lia.
Qed.

Lemma number_four n : number (four n) = n.
Proof. unfold four; rewrite number_app, !number_two; change (10 ^ zlen (two (n mod 100))) with 100; zdiv. Qed.

Lemma number_six n : number (six n) = n.
Proof.
  unfold six; rewrite number_app, number_two, number_four.
  change (10 ^ zlen (four (n mod 10000))) with 10000; zdiv.
Qed.

Lemma six_isdig n : 0 <= n < 1000000 -> Forall (fun c => isdig c = true) (six n).
Proof. intros; unfold six; apply Forall_app; split; [apply two_isdig|apply four_isdig]; zdiv. Qed.

Lemma digits_app ds r :
  Forall (fun c => isdig c = true) ds -> isdig (char_at r 0) = false -> digits (ds ++ r) = ds.
Proof.
  intros Hd Hr; induction Hd as [|c ds Hc _ IH]; cbn; [|by rewrite Hc, IH].
  destruct r as [|c r]; [done|]; cbn in Hr |- *; by rewrite Hr.
Qed.

(* ------------------------------------------------------------------ *)
(** * Skipping *)

(** Evaluates the character constants. *)
Ltac chars :=
  repeat match goal with
  | |- context [chr ?s] => let v := eval vm_compute in (chr s) in change (chr s) with v
  | H : context [chr ?s] |- _ => let v := eval vm_compute in (chr s) in change (chr s) with v in H
  end.

Lemma isdig_plain c :
  isdig c = true -> separator c || (c =? chr "-") || (c =? chr "+") = false /\ (c =? chr "T") = false.
Proof. unfold isdig, separator; intros; chars; lia. Qed.

Lemma skip_token_digits p ds r :
  Forall (fun c => isdig c = true) ds -> exists q, skip_token p (ds ++ r) = skip_token q r.
Proof.
  intros Hd; revert p; induction Hd as [|c ds Hc _ IH]; intros p; cbn [app skip_token]; [by exists p|].
  apply isdig_plain in Hc as [Hs HT]; rewrite Hs; unfold iso_T; cbn [char_at nth]; rewrite HT; cbn; apply IH.
Qed.

(** The text after a blank is the start of a token. *)
Definition ready (r : list Z) (y : Z) : Prop := skip_more 32 r y = (32, r) /\ iso_T r = false.

Lemma skip_blank q r y : ready r y -> skip (q, 32 :: r) y = (32, r).
Proof. intros [Hs HT]; unfold skip; cbn [skip_token skip_more fst snd]; cbn; by rewrite Hs; cbn; rewrite HT. Qed.

Lemma skip_digits p ds r y :
  Forall (fun c => isdig c = true) ds -> ready r y -> skip (p, ds ++ 32 :: r) y = (32, r).
Proof.
  intros Hd Hr; destruct (skip_token_digits p ds (32 :: r) Hd) as [q Hq].
  rewrite <- (skip_blank q r y Hr); unfold skip; cbn [fst snd]; by rewrite Hq.
Qed.

Lemma ready_digit c r y : isdig c = true -> ready (c :: r) y.
Proof.
  intros [Hs HT]%isdig_plain; apply orb_false_iff in Hs as [Hs _]; apply orb_false_iff in Hs as [Hs Hm].
  unfold ready, iso_T; cbn [skip_more char_at nth]; by rewrite Hs, Hm, HT.
Qed.

Lemma ready_two n r y : 0 <= n < 100 -> ready (two n ++ r) y.
Proof. intros H; apply ready_digit, isdig_dig; zdiv. Qed.

(* ------------------------------------------------------------------ *)
(** * One pass for each kind of token *)

Lemma try_keywords_skip s w t ks rest st :
  letter (char_at rest 1) (char_at (str w) 0) && letter (char_at rest 2) (char_at (str w) 1) = false ->
  try_keywords ((s, w, t) :: ks) rest st = try_keywords ks rest st.
Proof. intros H; cbn [try_keywords]; by rewrite <- andb_assoc, H, andb_false_r. Qed.

Lemma try_keywords_hit s w t ks rest st :
  letter (char_at rest 1) (char_at (str w) 0) && letter (char_at rest 2) (char_at (str w) 1) = true ->
  slot_of s st = TT_UNKNOWN -> try_keywords ((s, w, t) :: ks) rest st = set_slot s st t.
Proof. intros H Hs; cbn [try_keywords]; by rewrite <- andb_assoc, H, Hs. Qed.

(** Reads a word of the table when its variable is still unknown. *)
Ltac keyword Hs :=
  unfold word_case; cbn [char_at nth];
  match goal with |- context [keywords ?c] =>
    let v := eval vm_compute in (keywords c) in change (keywords c) with v end;
  change (letter _ (chr "u")) with false; cbv iota;
  repeat (rewrite try_keywords_skip by reflexivity);
  rewrite try_keywords_hit by (reflexivity || exact Hs); reflexivity.

(** One case for each weekday. *)
Ltac weekdays w :=
  let Hc := fresh in
  assert (w = 0 \/ w = 1 \/ w = 2 \/ w = 3 \/ w = 4 \/ w = 5 \/ w = 6) as Hc by lia;
  destruct_or! Hc; subst w.

Lemma day_word w r st :
  0 <= w < 7 -> dotw st = TT_UNKNOWN ->
  word_case (day_name w ++ r) st = set_dotw st (token_of (w + int_of TT_SUN)).
Proof.
  intros Hw Hd; weekdays w; cbn [day_name Z.to_nat nth str app]; keyword Hd.
Qed.

Lemma month_word m r st :
  0 <= m < 12 -> month st = TT_UNKNOWN ->
  word_case (month_name m ++ r) st = set_month st (token_of (m + int_of TT_JAN)).
Proof.
  intros Hm Hk; revert m Hm; apply months_case; cbn [month_name Z.to_nat nth str app]; keyword Hk.
Qed.

(** A word of letters, then blanks or a comma, then the next token. *)
Lemma step_word word seps p r st st' :
  isalpha (char_at word 0) = true -> word_case (word ++ seps ++ r) st = st' -> year st' = year st ->
  (forall l, exists q, skip_token p (word ++ seps ++ l) = (q, seps ++ l)) ->
  (forall q l y, skip_more q (seps ++ l) y = skip_more 32 l y) -> ready r (year st) ->
  step (p, word ++ seps ++ r) st = (st', (32, r)).
Proof.
  intros Ha Hw Hy Ht Hm [Hr HT]; rewrite step_skip; unfold switch; cbn [snd].
  assert (char_at (word ++ seps ++ r) 0 = char_at word 0) as -> by (by destruct word).
  assert (isdig (char_at word 0) = false) as -> by (unfold isalpha, isdig in *; lia).
  assert ((char_at word 0 =? chr "+") || (char_at word 0 =? chr "-") = false) as -> by (unfold isalpha in *; chars; lia).
  cbn [fst snd]; rewrite Hw, Hy; destruct (Ht r) as [q Hq].
  unfold skip; cbn [fst snd]; rewrite Hq; cbn [fst snd]; by rewrite Hm, Hr; cbn [snd]; rewrite HT.
Qed.

Lemma step_day w p r st :
  0 <= w < 7 -> dotw st = TT_UNKNOWN -> ready r (year st) ->
  step (p, day_name w ++ str ", " ++ r) st = (set_dotw st (token_of (w + int_of TT_SUN)), (32, r)).
Proof.
  intros Hw Hd Hr; apply step_word; try done; [|by apply day_word|].
  - by weekdays w.
  - weekdays w; intros l; eexists; reflexivity.
Qed.

Lemma step_month m p r st :
  0 <= m < 12 -> month st = TT_UNKNOWN -> ready r (year st) ->
  step (p, month_name m ++ str " " ++ r) st = (set_month st (token_of (m + int_of TT_JAN)), (32, r)).
Proof.
  intros Hm Hk Hr; apply step_word; try done; [|by apply month_word|]; clear Hr; revert m Hm.
  - by apply months_case.
  - apply (months_case (fun m => forall l, exists q, skip_token p (month_name m ++ str " " ++ l) = (q, str " " ++ l)));
      intros l; eexists; reflexivity.
Qed.

(** A number and a blank: neither a time nor a date with slashes. *)
Lemma step_number p ds r st :
  Forall (fun c => isdig c = true) ds -> ds <> [] ->
  let st' := (digits_case (p, ds ++ 32 :: r) st).1 in
  ready r (year st') -> step (p, ds ++ 32 :: r) st = (st', (32, r)).
Proof.
  intros Hd Hn st' Hr; rewrite step_skip; unfold switch; cbn [snd].
  assert (isdig (char_at (ds ++ 32 :: r) 0) = true) as -> by (destruct Hd; [done|by cbn]).
  fold st'; rewrite <- (skip_digits p ds r (year st') Hd Hr).
  assert ((digits_case (p, ds ++ 32 :: r) st).2 = (p, ds ++ 32 :: r)) as ->; [|done].
  unfold digits_case; cbn [snd]; rewrite digits_app by done; by rewrite drop_app_length.
Qed.

Lemma step_date n p r st :
  0 <= n < 32 -> date st < 0 -> ready r (year st) ->
  step (p, two n ++ 32 :: r) st = (set_date st n, (32, r)).
Proof.
  intros Hn Hd Hr.
  assert ((digits_case (p, two n ++ 32 :: r) st).1 = set_date st n) as E.
  { unfold digits_case; cbn [snd]; rewrite digits_app by (first [apply two_isdig; lia|done]).
    rewrite drop_app_length, number_two; cbn [fst].
    destruct (Z.ltb_spec (date st) 0), (Z.ltb_spec n 32); try lia; done. }
  rewrite (step_number p (two n) r st); [by rewrite E|apply two_isdig; lia|done|by rewrite E].
Qed.

Lemma step_year n p r st :
  0 <= n < 10000 -> year st < 0 -> ready r n ->
  step (p, four n ++ 32 :: r) st = (set_year st n, (32, r)).
Proof.
  intros Hn Hd Hr.
  assert ((digits_case (p, four n ++ 32 :: r) st).1 = set_year st n) as E.
  { unfold digits_case; cbn [snd]; rewrite digits_app by (first [apply four_isdig; lia|done]).
    rewrite drop_app_length, number_four; cbn [fst].
    destruct (Z.ltb_spec (year st) 0); try lia; done. }
  rewrite (step_number p (four n) r st); [by rewrite E|apply four_isdig; lia|done|by rewrite E].
Qed.

Lemma ready_month m r y : 0 <= m < 12 -> ready (month_name m ++ r) y.
Proof. revert m; apply (months_case (fun m => ready (month_name m ++ r) y)); done. Qed.

Lemma ready_four n r y : 0 <= n < 10000 -> ready (four n ++ r) y.
Proof. intros; apply ready_digit, isdig_dig; zdiv. Qed.

(** ** The time of day *)

Lemma advance_app n ds p r :
  length ds = S n -> advance (S n) (p, ds ++ r) = (char_at ds n, r).
Proof.
  intros Hl; cbn [advance snd]; f_equal; [unfold char_at; rewrite app_nth1; [done|lia]|].
  by rewrite <- Hl, drop_app_length.
Qed.

Lemma two_advance n p r : advance 2 (p, two n ++ r) = (dig (n mod 10), r).
Proof. by apply (advance_app 1 (two n)). Qed.

(** HH:MM:SS up to what follows the seconds. *)
Lemma time_case_clock h mi s p r st :
  0 <= h < 100 -> 0 <= mi < 100 -> 0 <= s < 100 -> hour st < 0 -> isdig (char_at r 0) = false ->
  time_case (two h) (p, clock h mi s ++ r) st =
    let '(us, e) := fraction (dig (s mod 10), r) in
    let '(h', z) := meridiem h (zone st) e.2 in
    (set_time (set_zone st z) h' mi s us, e).
Proof.
  intros Hh Hm Hs Hst Hr; unfold time_case, clock.
  destruct (Z.leb_spec 0 (hour st)); [lia|]; cbn [andb].
  change (Nat.ltb 2 (length (two h))) with false; cbv iota.
  rewrite <- !app_assoc; change (length (two h)) with 2%nat.
  rewrite (app_assoc (two h)), (advance_app 2 (two h ++ str ":")) by done.
  cbn [snd]; rewrite (digits_app (two mi)) by (first [by apply two_isdig|done]).
  change (length (two mi)) with 2%nat; cbn [Nat.eqb Nat.ltb Nat.leb]; rewrite two_advance; cbn [snd].
  change (char_at (str ":" ++ two s ++ r) 0 =? chr ":") with true; cbv iota.
  rewrite (advance_app 0 (str ":")) by done; cbn [snd].
  rewrite (digits_app (two s)) by (first [by apply two_isdig|done]).
  change (length (two s)) with 2%nat; cbn [Nat.eqb Nat.ltb Nat.leb]; by rewrite two_advance, !number_two.
Qed.

Lemma digits_case_clock h mi s p r st :
  0 <= h < 100 -> digits_case (p, clock h mi s ++ r) st = time_case (two h) (p, clock h mi s ++ r) st.
Proof.
  intros Hh; unfold digits_case; cbn [snd]; unfold clock; rewrite <- !app_assoc.
  rewrite digits_app by (first [by apply two_isdig|done]); by rewrite drop_app_length.
Qed.

Lemma switch_clock h mi s p r st :
  0 <= h < 100 -> switch (p, clock h mi s ++ r) st = time_case (two h) (p, clock h mi s ++ r) st.
Proof.
  intros Hh; unfold switch; cbn [snd].
  assert (isdig (char_at (clock h mi s ++ r) 0) = true) as -> by (apply isdig_dig; zdiv).
  by apply digits_case_clock.
Qed.

(** A clock, a blank, and a zone. *)
Lemma step_clock h mi s z p st :
  0 <= h < 24 -> 0 <= mi < 60 -> 0 <= s < 60 -> hour st < 0 -> ready (print_zone z) (year st) ->
  zone_valid z = true ->
  step (p, clock h mi s ++ 32 :: print_zone z) st = (set_time st h mi s (-1), (32, print_zone z)).
Proof.
  intros Hh Hm Hs Hst Hr Hz; rewrite step_skip, switch_clock by lia.
  rewrite time_case_clock by (first [lia|done]).
  change (fraction (dig (s mod 10), 32 :: print_zone z)) with (-1, (dig (s mod 10), 32 :: print_zone z)); cbn [snd].
  assert (meridiem h (zone st) (32 :: print_zone z) = (h, zone st)) as ->.
  { unfold meridiem; change (char_at (32 :: print_zone z) 0 =? chr "Z") with false; cbv iota.
    destruct (h <=? 12); [|done]; destruct z; cbn -[two Z.eqb]; rewrite ?andb_false_r; done. }
  cbn [fst snd year set_time set_zone]; rewrite skip_blank by done; by destruct st.
Qed.

(** ** The zone at the end *)

Lemma zone_digits hh mm :
  0 <= hh < 100 -> 0 <= mm < 100 -> Forall (fun c => isdig c = true) (two hh ++ two mm).
Proof. intros; apply Forall_app; split; by apply two_isdig. Qed.

Lemma ready_zone z y : zone_valid z = true -> ready (print_zone z) y.
Proof.
  destruct z as [|hh mm|hh mm]; intros Hz; [done|done|].
  cbn in Hz; split; [|done]; cbn [print_zone]; change (str "-" ++ ?l) with (45 :: l).
  cbn [skip_more]; change (separator 45) with false; change (isalpha 32) with false; cbv iota.
  change (char_at (two hh ++ two mm) 0) with (dig (hh / 10)); rewrite isdig_dig by zdiv; by cbn.
Qed.

Definition zone_state (z : zone_text) (st : scan_state) : scan_state :=
  match z with
  | GMT => set_zone st TT_GMT
  | _ => set_zone (set_offset st (zone_minutes z)) TT_GMT
  end.

Lemma skip_all p ds y : Forall (fun c => isdig c = true) ds -> (skip (p, ds) y).2 = [].
Proof.
  intros Hd; destruct (skip_token_digits p ds [] Hd) as [q Hq]; rewrite app_nil_r in Hq.
  unfold skip; cbn [fst snd]; by rewrite Hq.
Qed.

Lemma sign_case_zone sign hh mm p st :
  sign = 43 \/ sign = 45 -> 0 <= hh < 100 -> 0 <= mm < 100 -> zone st = TT_UNKNOWN -> zone_offset st = -1 ->
  sign_case (p, sign :: two hh ++ two mm) st =
    (set_zone (set_offset st ((hh * 60 + mm) * (if sign =? 43 then 1 else -1))) TT_GMT, (sign, two hh ++ two mm)).
Proof.
  intros Hs Hh Hm Hz Ho; unfold sign_case; rewrite Hz, Ho; cbn [negb Z.eqb andb known].
  change (advance 1 (p, sign :: ?l)) with (sign, l); cbn [snd].
  pose proof (digits_app (two hh ++ two mm) [] (zone_digits hh mm Hh Hm) eq_refl) as Hd.
  rewrite app_nil_r in Hd; rewrite Hd; change (length (two hh ++ two mm)) with 4%nat; cbn [Nat.eqb].
  change (take 2 (two hh ++ two mm)) with (two hh); change (drop 2 (two hh ++ two mm)) with (two mm).
  by rewrite !number_two.
Qed.

Lemma step_zone z p st :
  zone_valid z = true -> zone st = TT_UNKNOWN -> zone_offset st = -1 ->
  exists q, step (p, print_zone z) st = (zone_state z st, (q, [])).
Proof.
  intros Hv Hz Ho; rewrite step_skip; destruct z as [|hh mm|hh mm]; cbn [print_zone].
  - assert (switch (p, str "GMT") st = (set_zone st TT_GMT, (p, str "GMT"))) as ->; [|by eexists].
    change (switch (p, str "GMT") st) with (word_case (str "GMT") st, (p, str "GMT")); f_equal.
    cbn [str]; keyword Hz.
  - cbn in Hv; change (switch (p, str "+" ++ ?l) st) with (sign_case (p, 43 :: l) st).
    rewrite sign_case_zone by (first [by left|lia|done]); cbn [fst snd].
    set (c := skip _ _); exists c.1; rewrite (surjective_pairing c); f_equal; [|f_equal; apply skip_all, zone_digits; lia].
    cbn; by rewrite Z.mul_1_r.
  - cbn in Hv; change (switch (p, str "-" ++ ?l) st) with (sign_case (p, 45 :: l) st).
    rewrite sign_case_zone by (first [by right|lia|done]); cbn [fst snd].
    set (c := skip _ _); exists c.1; rewrite (surjective_pairing c); f_equal; [|f_equal; apply skip_all, zone_digits; lia].
    unfold zone_state; do 2 f_equal; cbn; lia.
Qed.

(* ------------------------------------------------------------------ *)
(** * From the final state to the instant *)

Lemma int_of_month m : 0 <= m < 12 -> int_of (token_of (m + int_of TT_JAN)) - int_of TT_JAN = m.
Proof. revert m; by apply months_case. Qed.

Lemma known_month m : 0 <= m < 12 -> known (token_of (m + int_of TT_JAN)) = true.
Proof. revert m; by apply months_case. Qed.

(** What the scan of a complete date leaves: a month name, GMT, and the fields. *)
Record scanned (st : scan_state) (y m d h mi s us zo : Z) : Prop := {
  sc_month : month st = token_of (m + int_of TT_JAN);
  sc_zone : zone st = TT_GMT;
  sc_offset : zone_offset st = zo \/ zone_offset st = -1 /\ zo = 0;
  sc_minute : zo <> -1;
  sc_date : date st = d;
  sc_year : year st = y;
  sc_time : hour st = h /\ min st = mi /\ sec st = s;
  sc_usec : usec st = us \/ usec st = -1 /\ us = 0 }.

Lemma finish_exact mktime localtime_r gmt st y m d h mi s us zo :
  scanned st y m d h mi s us zo -> 5 <= y <= 9999 -> date_valid y m d = true -> time_valid h mi s us = true ->
  -6100 <= zo <= 6100 ->
  finish mktime localtime_r gmt st = Some (Some (civil_instant y m d h mi s us zo)).
Proof.
  intros [Hmo Hz Ho H1 Hd Hy (Hh & Hmi & Hs) Hu] Hyr Hdv Htv Hzo; unfold date_valid, time_valid in *.
  pose proof (month_len_bounds y m).
  assert (finish mktime localtime_r gmt st =
    (result ← PR_NormalizeTime PR_GMTParameters (exploded st);
     t ← PR_ImplodeTime (with_params result (zo * 60) 0); Some (Some t))) as ->.
  { unfold finish; rewrite Hz, Hmo, known_month, Hd, Hy by lia.
    destruct (Z.eqb_spec d (-1)), (Z.eqb_spec y (-1)), (Z.ltb_spec int16_max y); unfold int16_max in *; try lia.
    destruct Ho as [Ho|[Ho ->]]; rewrite Ho; [|done].
    apply Z.eqb_neq in H1; change (known TT_GMT) with true; rewrite H1; cbn [andb mbind option_bind negb orb].
    destruct (PR_NormalizeTime _ _) as [r|]; [cbn [mbind option_bind]|done]; by rewrite H1. }
  assert (E : exploded st = mkExploded us s mi h d m y (tm_wday (exploded st)) 0 (mkParams 0 0)).
  { unfold exploded; rewrite Hmo, Hd, Hy, Hh, Hmi, Hs, int_of_month, i16_id by lia; cbn [tm_wday].
    f_equal; case_match; lia. }
  destruct (normalize_valid (exploded st)) as (r & -> & Hr); try (rewrite E; cbn; unfold time_ok; cbn; first [done|lia]).
  rewrite E in Hr; destruct Hr as (R1 & R2 & R3 & R4 & R5 & R6 & R7 & _).
  cbn [tm_usec tm_sec tm_min tm_hour tm_mday tm_month tm_year] in R1, R2, R3, R4, R5, R6, R7.
  cbn [mbind option_bind]; rewrite implode_spec by (apply valid_fits; unfold time_ok; cbn; lia); cbn [mbind option_bind].
  do 2 f_equal; rewrite instant_local by (cbn; lia); unfold local_secs, offset_of, civil_instant, with_params.
  cbn [tm_usec tm_sec tm_min tm_hour tm_mday tm_month tm_year tm_params tp_gmt_offset tp_dst_offset].
  rewrite R1, R2, R3, R4, R5, R6, R7; lia.
Qed.

Lemma scan_pass n p r st st' cur' :
  r <> [] -> step (p, r) st = (st', cur') -> scan (S n) (p, r) st = scan n cur' st'.
Proof. intros Hr Hs; destruct r; [done|]; cbn [scan snd]; by rewrite Hs. Qed.

Definition rfc_state (w d m y h mi s : Z) (z : zone_text) : scan_state :=
  zone_state z (mkScan (token_of (w + int_of TT_SUN)) (token_of (m + int_of TT_JAN)) TT_UNKNOWN (-1) d y h mi s (-1)).

Lemma scan_rfc1123 w d m y h mi s z :
  0 <= w < 7 -> 0 <= y <= 9999 -> date_valid y m d = true -> time_valid h mi s 0 = true -> zone_valid z = true ->
  scan max_passes (0, rfc1123 w d m y h mi s z) scan_init = Some (rfc_state w d m y h mi s z).
Proof.
  intros Hw Hy Hdv Htv Hz; unfold date_valid, time_valid in *; pose proof (month_len_bounds y m).
  change max_passes with (6 + 995)%nat; cbn [Nat.add]; unfold rfc1123.
  erewrite scan_pass; [|by destruct (day_name w)|apply step_day; first [lia|done|apply ready_two; lia]].
  change (str " " ++ ?l) with (32 :: l).
  erewrite scan_pass; [|done|apply step_date; first [lia|done|apply ready_month; lia]].
  erewrite scan_pass; [|by destruct (month_name m)|apply (step_month m); first [lia|done|apply ready_four; lia]].
  change (str " " ++ ?l) with (32 :: l).
  erewrite scan_pass; [|done|apply step_year; first [lia|done|apply ready_two; lia]].
  erewrite scan_pass; [|done|apply step_clock; first [lia|done|by apply ready_zone]].
  destruct (step_zone z 32 (set_time (set_year (set_month (set_date (set_dotw scan_init (token_of (w + int_of TT_SUN))) d)
    (token_of (m + int_of TT_JAN))) y) h mi s (-1)) Hz eq_refl eq_refl) as [q Hq].
  erewrite scan_pass; [|by destruct z|exact Hq]; reflexivity.
Qed.

Lemma parse_rfc1123 mktime localtime_r gmt w d m y h mi s z :
  0 <= w < 7 -> 5 <= y <= 9999 -> date_valid y m d = true -> time_valid h mi s 0 = true -> zone_valid z = true ->
  PR_ParseTimeString mktime localtime_r (rfc1123 w d m y h mi s z) gmt
    = Some (Some (civil_instant y m d h mi s 0 (zone_minutes z))).
Proof.
  intros Hw Hy Hdv Htv Hz; unfold PR_ParseTimeString; rewrite scan_rfc1123 by (first [lia|done]).
  apply finish_exact; try done; destruct z as [|hh mm|hh mm]; cbn in Hz |- *; try lia;
    constructor; cbn -[token_of int_of]; auto; lia.
Qed.

(** [Time::FromStringInternal]: [None] is an abort, [Some None] the result
    false. *)
Definition FromStringInternal (tc : CheckedMath.toolchain) (constant : bool)
    (mktime : tm_local -> Z) (localtime_r : Z -> tm_local) (time_string : list Z) (is_local : bool) : option (option Time.Time) :=
  if char_at time_string 0 =? 0 then Some None
  else
    result ← PR_ParseTimeString mktime localtime_r time_string (negb is_local);
    match result with
    | None => Some None
    | Some result_time =>
        t ← Time.Time_add tc constant Time.UnixEpoch (TimeDelta.FromMicroseconds result_time); Some (Some t)
    end.

Lemma civil_instant_bounds y m d h mi s us zo :
  1 <= y <= 9999 -> date_valid y m d = true -> time_valid h mi s us = true -> -6100 <= zo <= 6100 ->
  - 2 ^ 60 < civil_instant y m d h mi s us zo < 2 ^ 60.
Proof.
  intros Hy Hdv Htv Hz; unfold date_valid, time_valid in *.
  destruct (civil_days_bounds y m d) as (Hb & _); try lia; unfold civil_instant; lia.
Qed.

Lemma from_parsed tc constant t :
  - 2 ^ 60 < t < 2 ^ 60 ->
  Time.Time_add tc constant Time.UnixEpoch (TimeDelta.FromMicroseconds t)
    = Some (Time.mkTime (Time.kTimeTToMicrosecondsOffset + t)).
Proof.
  intros Ht; unfold Time.Time_add; rewrite TimeDelta.plus_exact;
    unfold TimeDelta.delta_ok, TimeDelta.finite; cbn [TimeDelta.delta_ TimeDelta.FromMicroseconds Time.us_ Time.UnixEpoch].
  - cbn [mbind option_bind TimeDelta.delta_]; do 2 f_equal; rewrite Numerics.clamp_id; [done|].
    unfold Numerics.in_range, Time.kTimeTToMicrosecondsOffset.
    change (Numerics.limits_lowest _) with (- 2 ^ 63); change (Numerics.limits_max _) with (2 ^ 63 - 1); lia.
  - vm_compute; split; congruence.
  - change TimeDelta.int64_min with (- 2 ^ 63); change TimeDelta.int64_max with (2 ^ 63 - 1); lia.
Qed.

(** C24.  RFC 1123 dates, as HTTP and mail headers have them: a valid date of the years 5 to
    9999 with a valid time of day, in GMT or any zone +hhmm or -hhmm but -0001 (see
    [minute_behind_ignored]), is parsed to its instant, exactly, whatever the local zone,
    the weekday written and the caller's default. *)
Theorem rfc1123_roundtrip tc constant mktime localtime_r is_local w d m y h mi s z :
  0 <= w < 7 -> 5 <= y <= 9999 -> date_valid y m d = true -> time_valid h mi s 0 = true -> zone_valid z = true ->
  let t := civil_instant y m d h mi s 0 (zone_minutes z) in
  PR_ParseTimeString mktime localtime_r (rfc1123 w d m y h mi s z) (negb is_local) = Some (Some t)
  /\ FromStringInternal tc constant mktime localtime_r (rfc1123 w d m y h mi s z) is_local
     = Some (Some (Time.mkTime (Time.kTimeTToMicrosecondsOffset + t))).
Proof.
  intros Hw Hy Hdv Htv Hz t; pose proof (parse_rfc1123 mktime localtime_r (negb is_local) w d m y h mi s z) as E.
  split; [by apply E|]; unfold FromStringInternal; rewrite E by done; cbn [mbind option_bind].
  assert (char_at (rfc1123 w d m y h mi s z) 0 =? 0 = false) as ->.
  { by weekdays w. }
  rewrite from_parsed; [done|]; apply civil_instant_bounds; try done; [lia|].
  destruct z; cbn in *; lia.
Qed.

(* ------------------------------------------------------------------ *)
(** * ISO 8601 *)

Lemma digit_dig d r : 0 <= d <= 9 -> digit (dig d :: r) = Some (d, r).
Proof. intros; cbn [digit]; rewrite isdig_dig by done; unfold dig; repeat f_equal; lia. Qed.

Lemma three_numbers_iso y n d r :
  0 <= y < 10000 -> 0 <= n < 100 -> 0 <= d < 100 -> isdig (char_at r 0) = true ->
  three_numbers (four y ++ 45 :: two n ++ 45 :: two d ++ 84 :: r) = Some (y, n, d, 84 :: r).
Proof.
  intros Hy Hn Hd Hr; unfold three_numbers, four, two; cbn [app].
  rewrite digit_dig by zdiv; cbn [mbind option_bind]; unfold more at 1; rewrite digit_dig by zdiv.
  unfold more2; rewrite digit_dig by zdiv; rewrite digit_dig by zdiv; cbn [mbind option_bind].
  change (slash (45 :: ?l)) with (Some l); cbn [mbind option_bind].
  rewrite digit_dig by zdiv; cbn [mbind option_bind]; unfold more at 1; rewrite digit_dig by zdiv.
  change (slash (45 :: ?l)) with (Some l); cbn [mbind option_bind].
  rewrite digit_dig by zdiv; cbn [mbind option_bind]; unfold more at 1; rewrite digit_dig by zdiv.
  change (digit (84 :: r)) with (@None (Z * list Z)); cbn [mbind option_bind].
  change (char_at (84 :: r) 1) with (char_at r 0); rewrite Hr; change ((char_at (84 :: r) 0 =? chr "T") && true) with true.
  cbv iota; do 3 f_equal; [f_equal|]; zdiv.
Qed.

(** The date, with the 'T' before the time skipped. *)
Lemma step_iso_date y m d p r st :
  100 <= y <= 9999 -> 0 <= m < 12 -> 1 <= d <= 31 -> isdig (char_at r 0) = true -> month st = TT_UNKNOWN ->
  step (p, four y ++ str "-" ++ two (m + 1) ++ str "-" ++ two d ++ str "T" ++ r) st =
    (set_year (set_month (set_date st d) (token_of (m + int_of TT_JAN))) y, (84, r)).
Proof.
  intros Hy Hm Hd Hr Hk; repeat change (str "-" ++ ?l) with (45 :: l); change (str "T" ++ ?l) with (84 :: l).
  set (text := four y ++ _).
  assert (digits_case (p, text) st =
    (set_year (set_month (set_date st d) (token_of (m + int_of TT_JAN))) y, (dig (d mod 10), 84 :: r))) as E.
  { unfold digits_case, text; cbn [snd]; rewrite digits_app by (first [apply four_isdig; lia|done]).
    rewrite drop_app_length; change (char_at (45 :: ?l) 1) with (char_at l 0).
    change (char_at (two (m + 1) ++ ?l) 0) with (dig ((m + 1) / 10)); rewrite isdig_dig by zdiv.
    change (char_at (45 :: ?l) 0 =? chr ":") with false.
    change (((char_at (45 :: ?l) 0 =? chr "/") || (char_at (45 :: ?l) 0 =? chr "-")) && true) with true; cbv iota.
    unfold date_case; rewrite Hk; change (known TT_UNKNOWN) with false; cbv iota; cbn [snd].
    rewrite three_numbers_iso by (first [lia|done]).
    destruct (Z.ltb_spec 31 y); [|lia]; cbn [orb]; destruct (Z.ltb_spec 12 (m + 1)), (Z.ltb_spec 31 d); try lia.
    f_equal; [|].
    - unfold century; destruct (Z.ltb_spec y 70), (Z.ltb_spec y 100); try lia; do 3 f_equal; lia.
    - match goal with |- advance ?n _ = _ => replace n with 10%nat; [done|] end; cbn; lia. }
  rewrite step_skip; unfold switch; cbn [snd].
  assert (isdig (char_at text 0) = true) as -> by (apply isdig_dig; zdiv).
  rewrite E; cbn [fst snd]; f_equal; unfold skip; cbn [fst snd skip_token].
  assert (iso_T (84 :: r) = true) as HT by exact Hr.
  rewrite HT, orb_true_r; cbn [fst snd skip_more]; change (separator 84) with false; cbn [andb].
  change (84 =? chr "-") with false; cbn [andb fst snd]; by rewrite HT.
Qed.

Lemma scan_iso8601 y m d h mi s us :
  100 <= y <= 9999 -> date_valid y m d = true -> time_valid h mi s us = true ->
  scan max_passes (0, iso8601 y m d h mi s us) scan_init
    = Some (mkScan TT_UNKNOWN (token_of (m + int_of TT_JAN)) TT_GMT (-1) d y h mi s us).
Proof.
  intros Hy Hdv Htv; unfold date_valid, time_valid in *; pose proof (month_len_bounds y m).
  change max_passes with (2 + 999)%nat; cbn [Nat.add]; unfold iso8601.
  erewrite scan_pass; [|done|apply step_iso_date; first [lia|done|apply isdig_dig; zdiv]].
  set (st := set_year _ y).
  assert (exists q, step (84, clock h mi s ++ str "." ++ six us ++ str "Z") st
    = (set_time (set_zone st TT_GMT) h mi s us, (q, []))) as [q Hq].
  { rewrite step_skip, switch_clock by lia; rewrite time_case_clock by (first [lia|done]).
    change (str "." ++ ?l) with (46 :: l); unfold fraction; change (char_at (?p, 46 :: ?l).2 0 =? chr ".") with true.
    change (advance 1 (?p, 46 :: ?l)) with (46, l); cbv iota; cbn [snd].
    rewrite (digits_app (six us)) by (first [apply six_isdig; lia|done]).
    change (length (six us)) with 6%nat; change (take 6 (six us)) with (six us); rewrite number_six.
    change (46 :: six us ++ ?l) with ((46 :: six us) ++ l).
    rewrite (advance_app 6 (46 :: six us)) by done; cbn [snd].
    change (meridiem h (zone st) (str "Z")) with (h, TT_GMT); cbn [fst snd].
    rewrite Z.mul_1_r; by eexists. }
  erewrite scan_pass; [|done|exact Hq]; reflexivity.
Qed.

(** ISO 8601 times in UTC, to the microsecond. *)
Theorem iso8601_roundtrip mktime localtime_r gmt y m d h mi s us :
  100 <= y <= 9999 -> date_valid y m d = true -> time_valid h mi s us = true ->
  PR_ParseTimeString mktime localtime_r (iso8601 y m d h mi s us) gmt
    = Some (Some (civil_instant y m d h mi s us 0)).
Proof.
  intros Hy Hdv Htv; unfold PR_ParseTimeString; rewrite scan_iso8601 by done.
  apply finish_exact; try done; [|lia]; constructor; cbn -[token_of int_of]; auto; lia.
Qed.

(* ------------------------------------------------------------------ *)
(** * The listed formats, and two slips *)

(** The formats the comment above the function lists, with the instants they
    stand for in microseconds since 1970. *)
Definition listed_formats : list (String.string * Z) :=
  [("14 Apr 89 03:20:12", 608527212000000);
   ("14 Apr 89 03:20 GMT", 608527200000000);
   ("Fri, 17 Mar 89 4:01:33", 606110493000000);
   ("Fri, 17 Mar 89 4:01 GMT", 606110460000000);
   ("Mon Jan 16 16:12 PDT 1989", 600995520000000);
   ("Mon Jan 16 16:12 +0130 1989", 600964920000000);
   ("6 May 1992 16:41-JST (Wednesday)", 705138060000000);
   ("22-AUG-1993 10:59:12.82", 746017152820000);
   ("22-AUG-1993 10:59pm", 746060340000000);
   ("22-AUG-1993 12:59am", 745981140000000);
   ("22-AUG-1993 12:59 PM", 746024340000000);
   ("Friday, August 04, 1995 3:54 PM", 807551640000000);
   ("06/21/95 04:24:34 PM", 803751874000000);
   ("20/06/95 21:07", 803682420000000);
   ("95-06-08 19:32:48 EDT", 802654368000000)].

Theorem listed_formats_parse mktime localtime_r :
  Forall (fun '(s, t) => PR_ParseTimeString mktime localtime_r (str s) true = Some (Some t)) listed_formats.
Proof. repeat constructor; vm_compute; reflexivity. Qed.

(** A zone one minute behind Greenwich is taken for Greenwich: the offset it
    computes is the mark for "no offset yet". *)
Theorem minute_behind_ignored mktime localtime_r gmt :
  PR_ParseTimeString mktime localtime_r (str "Sun, 06 Nov 1994 08:49:37 -0001") gmt
    = PR_ParseTimeString mktime localtime_r (str "Sun, 06 Nov 1994 08:49:37 GMT") gmt
  /\ PR_ParseTimeString mktime localtime_r (str "Sun, 06 Nov 1994 08:49:37 -0002") gmt
    = Some (Some (civil_instant 1994 10 6 8 49 37 0 (-2))).
Proof. split; vm_compute; reflexivity. Qed.

(** Month 00 is accepted and means December of the year before. *)
Theorem month_zero_accepted mktime localtime_r gmt :
  PR_ParseTimeString mktime localtime_r (str "1995-00-10T00:00:00Z") gmt
    = Some (Some (civil_instant 1994 11 10 0 0 0 0 0)).
Proof. vm_compute; reflexivity. Qed.

Lemma rfc1123_roundtrip_witness :
  rfc1123 0 6 10 1994 8 49 37 (Behind 5 30) = str "Sun, 06 Nov 1994 08:49:37 -0530" /\
  let t := civil_instant 1994 10 6 8 49 37 0 (-330) in
  PR_ParseTimeString (fun _ => -1) (fun _ => mkTm 0 0 0 2 0 70) (rfc1123 0 6 10 1994 8 49 37 (Behind 5 30)) true = Some (Some t)
  /\ FromStringInternal CheckedMath.Gcc false (fun _ => -1) (fun _ => mkTm 0 0 0 2 0 70)
       (rfc1123 0 6 10 1994 8 49 37 (Behind 5 30)) false
     = Some (Some (Time.mkTime (Time.kTimeTToMicrosecondsOffset + t))).
Proof.
  split; [vm_compute; reflexivity|].
  apply (rfc1123_roundtrip CheckedMath.Gcc false (fun _ => -1) (fun _ => mkTm 0 0 0 2 0 70) false 0 6 10 1994 8 49 37 (Behind 5 30));
    first [vm_compute; reflexivity|lia].
Defined.

Lemma iso8601_roundtrip_witness :
  iso8601 1995 5 17 23 11 25 342156 = str "1995-06-17T23:11:25.342156Z" /\
  PR_ParseTimeString (fun _ => -1) (fun _ => mkTm 0 0 0 2 0 70) (iso8601 1995 5 17 23 11 25 342156) false
    = Some (Some (civil_instant 1995 5 17 23 11 25 342156 0)).
Proof.
  split; [vm_compute; reflexivity|].
  apply (iso8601_roundtrip (fun _ => -1) (fun _ => mkTm 0 0 0 2 0 70) false 1995 5 17 23 11 25 342156);
    first [vm_compute; reflexivity|lia].
Defined.
