(* ===== verification/Resp.v ===== *)
(** The RESP decoder (src/thirdparty/resp/resp/{decoder,result,unique_value}.hpp),
    the parser behind the redis client codec.

    [decode] is fed whatever bytes have arrived and answers [Completed] with a
    value, [Incompleted] or [Error], with the number of bytes it used.  What it
    remembers in between is the state of the scalar being read and two stacks for
    the arrays that are still open, the outermost on top.  The functions call
    each other as in the code, with fuel; [None] is a failed assertion (a number
    of 32 characters or more overruns the local array [numstr]) or no fuel.  A
    [buffer] and a [unique_array] are their contents; allocation is assumed to
    succeed.

    The specification is a byte automaton with the open arrays innermost first
    ([feed]).  [decode_feed] shows that the decoder implements it, with fuel
    that is linear in the input, and so that it does not matter how the bytes are
    cut into pieces; [decode_wire] that every value a server can send is decoded
    to itself. *)
From Stdlib Require Import ZArith Lia.
From stdpp Require Import base option list.
From S2P Require Import Prelude StrUtils.
Import StrUtils.

Module Resp.

(* ------------------------------------------------------------------ *)
(** * Values and results *)

(** [unique_value], by its type. *)
Inductive value :=
  | Null
  | Str (s : list Z)
  | Err (s : list Z)
  | Integer (n : Z)
  | Bulk (s : list Z)
  | Arr (vs : list value).

Inductive result := Completed (size : nat) (v : value) | Incompleted (size : nat) | Error (size : nat).

Inductive state :=
  | st_start | st_string | st_string_lf | st_error_string | st_error_lf | st_integer | st_integer_lf
  | st_bulk_size | st_bulk_size_lf | st_bulk | st_bulk_cr | st_bulk_lf | st_array_size | st_array_size_lf.

Record decoder := mkDecoder {
  stat_ : state; bulk_size_ : Z; buf_ : list Z; array_stack_ : list Z; value_stack_ : list value }.

Definition decoder_new : decoder := mkDecoder st_start 0 [] [] [].

Definition set_stat s d := mkDecoder s (bulk_size_ d) (buf_ d) (array_stack_ d) (value_stack_ d).
Definition set_bulk_size n d := mkDecoder (stat_ d) n (buf_ d) (array_stack_ d) (value_stack_ d).
Definition set_buf b d := mkDecoder (stat_ d) (bulk_size_ d) b (array_stack_ d) (value_stack_ d).
Definition push_value v d := mkDecoder (stat_ d) (bulk_size_ d) (buf_ d) (array_stack_ d) (v :: value_stack_ d).
Definition push_array n d := mkDecoder (stat_ d) (bulk_size_ d) (buf_ d) (n :: array_stack_ d) (value_stack_ d).
Definition set_stacks a v d := mkDecoder (stat_ d) (bulk_size_ d) (buf_ d) a v.

(** A plain [char] is signed: the bytes from 128 on are negative. *)
Definition ischar (c : Z) : bool := c <? 128.
Definition isctrl (c : Z) : bool := (c <=? 31) || (c =? 127).

(** [std::strtol] on a text of digits and dashes that ends with a newline. *)
Definition strtol (s : list Z) : Z :=
  let '(neg, ds) := match s with 45 :: s' => (true, take_digits s') | _ => (false, take_digits s) end in
  let n := if neg : bool then - dec_value ds else dec_value ds in
  Z.max (- 2 ^ 63) (Z.min n (2 ^ 63 - 1)).

(** The number in [buf_], through the array of 32 characters. *)
Definition buf_number (b : list Z) : option Z := if Nat.ltb (length b) 32 then Some (strtol b) else None.

(** [return result(completed, n, get_result())] after pushing [v]. *)
Definition completed (n : nat) (v : value) (d : decoder) : option (decoder * result) :=
  match value_stack_ (push_value v d) with
  | uv :: vs => Some (set_stacks (array_stack_ d) vs d, Completed n uv)
  | [] => None
  end.

Definition error (n : nat) (d : decoder) : option (decoder * result) := Some (set_stat st_start d, Error n).

(* ------------------------------------------------------------------ *)
(** * The decoder *)

Fixpoint decode (fuel : nat) (d : decoder) (data : list Z) {struct fuel} : option (decoder * result) :=
  match fuel with
  | O => None
  | S fuel =>
      match array_stack_ d with
      | [] => decode_chunk fuel d 0 data
      | _ => decode_array fuel d data
      end
  end
with decode_array (fuel : nat) (d : decoder) (data : list Z) {struct fuel} : option (decoder * result) :=
  match fuel with
  | O => None
  | S fuel =>
      match array_stack_ d, value_stack_ d with
      | arraySize :: sizes, Arr arrayValue :: values =>
          let d := set_stacks sizes values d in
          match sizes with
          | [] => array_rest fuel d arraySize arrayValue 0 data
          | _ :: _ =>
              '(d, res) ← decode_array fuel d data;
              match res with
              | Completed n v => array_rest fuel d (arraySize - 1) (arrayValue ++ [v]) n (drop n data)
              | _ => Some (push_array arraySize (push_value (Arr arrayValue) d), res)
              end
          end
      | _, _ => None
      end
  end
(** From [if( i == size )] on, with [i] bytes used and [rest] left. *)
with array_rest (fuel : nat) (d : decoder) (arraySize : Z) (arrayValue : list value) (i : nat) (rest : list Z)
    {struct fuel} : option (decoder * result) :=
  match fuel with
  | O => None
  | S fuel =>
      match rest with
      | [] =>
          if arraySize =? 0 then completed i (Arr arrayValue) d
          else Some (push_array arraySize (push_value (Arr arrayValue) d), Incompleted i)
      | _ :: _ => array_loop fuel d arraySize arrayValue 0 i rest
      end
  end
with array_loop (fuel : nat) (d : decoder) (arraySize : Z) (arrayValue : list value) (x : Z) (i : nat) (rest : list Z)
    {struct fuel} : option (decoder * result) :=
  match fuel with
  | O => None
  | S fuel =>
      if x <? arraySize then
        '(d, res) ← decode fuel d rest;
        match res with
        | Error n => Some (d, Error (i + n))
        | Incompleted n => Some (push_array (arraySize - x) (push_value (Arr arrayValue) d), Incompleted (i + n))
        | Completed n v => array_loop fuel d arraySize (arrayValue ++ [v]) (x + 1) (i + n) (drop n rest)
        end
      else completed i (Arr arrayValue) d
  end
(** The loop over the bytes, with [i] of them used and [data] from the current
    one on. *)
with decode_chunk (fuel : nat) (d : decoder) (i : nat) (data : list Z) {struct fuel} : option (decoder * result) :=
  match fuel with
  | O => None
  | S fuel =>
      match data with
      | [] => Some (d, Incompleted i)
      | c :: rest =>
          let next d := decode_chunk fuel d (S i) rest in
          let text st_lf :=
            if c =? 13 then next (set_stat st_lf d)
            else if ischar c && negb (isctrl c) then next (set_buf (buf_ d ++ [c]) d)
            else error (S i) d in
          let digits st_lf :=
            if c =? 13 then if Nat.eqb (length (buf_ d)) 0 then error (S i) d else next (set_stat st_lf d)
            else if isdigit c || (c =? 45) then next (set_buf (buf_ d ++ [c]) d)
            else error (S i) d in
          match stat_ d with
          | st_start =>
              let d := set_buf [] d in
              if c =? 43 then next (set_stat st_string d)
              else if c =? 45 then next (set_stat st_error_string d)
              else if c =? 58 then next (set_stat st_integer d)
              else if c =? 36 then next (set_bulk_size 0 (set_stat st_bulk_size d))
              else if c =? 42 then next (set_stat st_array_size d)
              else error (S i) d
          | st_string => text st_string_lf
          | st_error_string => text st_error_lf
          | st_bulk_size => digits st_bulk_size_lf
          | st_array_size => digits st_array_size_lf
          | st_integer => digits st_integer_lf
          | st_string_lf =>
              if c =? 10 then completed (S i) (Str (buf_ d)) (set_stat st_start d) else error (S i) d
          | st_error_lf =>
              if c =? 10 then completed (S i) (Err (buf_ d)) (set_stat st_start d) else error (S i) d
          | st_bulk_size_lf =>
              if c =? 10 then
                n ← buf_number (buf_ d);
                let d := set_buf [] (set_bulk_size n d) in
                if n =? -1 then completed (S i) Null (set_stat st_start d)
                else if n =? 0 then next (set_stat st_bulk_cr d)
                else if n <? 0 then error (S i) d
                else
                  let available := zlen rest in
                  let canRead := Z.min n available in
                  let d := set_buf (take (Z.to_nat canRead) rest) d in
                  let i := (i + Z.to_nat canRead)%nat in
                  if available <? n then
                    Some (set_stat st_bulk (set_bulk_size (n - canRead) d), Incompleted (S i))
                  else decode_chunk fuel (set_stat st_bulk_cr d) (S i) (drop (Z.to_nat canRead) rest)
              else error (S i) d
          | st_bulk =>
              let available := zlen data in
              let canRead := Z.min available (bulk_size_ d) in
              if canRead <? Z.of_nat i then None
              else
                let d := set_buf (buf_ d ++ take (Z.to_nat (canRead - Z.of_nat i)) data) d in
                let d := set_bulk_size (bulk_size_ d - canRead) d in
                let n := (i + Z.to_nat canRead)%nat in
                if 0 <? bulk_size_ d then Some (d, Incompleted n)
                else
                  let d := set_stat st_bulk_cr d in
                  let rest := drop (Z.to_nat canRead) data in
                  match rest with
                  | [] => Some (d, Incompleted n)
                  | _ :: _ => decode_chunk fuel d n rest
                  end
          | st_bulk_cr => if c =? 13 then next (set_stat st_bulk_lf d) else error (S i) d
          | st_bulk_lf =>
              if c =? 10 then completed (S i) (Bulk (buf_ d)) (set_stat st_start d) else error (S i) d
          | st_array_size_lf =>
              if c =? 10 then
                n ← buf_number (buf_ d);
                let d := set_buf [] d in
                if (n =? -1) || (n =? 0) then completed (S i) (Arr []) (set_stat st_start d)
                else if n <? 0 then error (S i) d
                else
                  let d := set_stat st_start (push_value (Arr []) (push_array n d)) in
                  match rest with
                  | [] => Some (d, Incompleted (S i))
                  | _ :: _ =>
                      '(d, res) ← decode_array fuel d rest;
                      Some (d, match res with
                               | Completed n v => Completed (n + S i) v
                               | Incompleted n => Incompleted (n + S i)
                               | Error n => Error (n + S i)
                               end)
                  end
              else error (S i) d
          | st_integer_lf =>
              if c =? 10 then
                n ← buf_number (buf_ d);
                completed (S i) (Integer n) (set_stat st_start (set_buf [] d))
              else error (S i) d
          end
      end
  end.

(** Enough for any input: every byte and every open array costs a few calls. *)
Definition decode_fuel (d : decoder) (data : list Z) : nat := 6 * length data + length (array_stack_ d) + 10.
Definition Decode (d : decoder) (data : list Z) : option (decoder * result) := decode (decode_fuel d data) d data.

(* ------------------------------------------------------------------ *)
(** * The automaton *)

(** What is known of the scalar being read. *)
Inductive leaf :=
  | Start
  | Text (err : bool) (b : list Z) | TextLF (err : bool) (b : list Z)
  | Digits (k : Z) (b : list Z) | DigitsLF (k : Z) (b : list Z)  (* k: the type character *)
  | InBulk (n : Z) (b : list Z) | BulkCR (b : list Z) | BulkLF (b : list Z).

Inductive event := Next (l : leaf) | Value (v : value) | Array (n : Z) | Fail | Crash.

Definition number_event (k : Z) (b : list Z) : event :=
  match buf_number b with
  | None => Crash
  | Some n =>
      if k =? 58 then Value (Integer n)
      else if k =? 36 then
        if n =? -1 then Value Null else if n =? 0 then Next (BulkCR [])
        else if n <? 0 then Fail else Next (InBulk n [])
      else if (n =? -1) || (n =? 0) then Value (Arr []) else if n <? 0 then Fail else Array n
  end.

Definition leaf_step (l : leaf) (c : Z) : event :=
  match l with
  | Start =>
      if c =? 43 then Next (Text false [])
      else if c =? 45 then Next (Text true [])
      else if (c =? 58) || (c =? 36) || (c =? 42) then Next (Digits c [])
      else Fail
  | Text e b =>
      if c =? 13 then Next (TextLF e b) else if ischar c && negb (isctrl c) then Next (Text e (b ++ [c])) else Fail
  | TextLF e b => if c =? 10 then Value (if e then Err b else Str b) else Fail
  | Digits k b =>
      if c =? 13 then if Nat.eqb (length b) 0 then Fail else Next (DigitsLF k b)
      else if isdigit c || (c =? 45) then Next (Digits k (b ++ [c])) else Fail
  | DigitsLF k b => if c =? 10 then number_event k b else Fail
  | InBulk n b => if n =? 1 then Next (BulkCR (b ++ [c])) else Next (InBulk (n - 1) (b ++ [c]))
  | BulkCR b => if c =? 13 then Next (BulkLF b) else Fail
  | BulkLF b => if c =? 10 then Value (Bulk b) else Fail
  end.

(** An open array: the elements still to come and those read. *)
Definition frame : Type := Z * list value.

(** A value ends the innermost array it completes, and so on outwards. *)
Fixpoint complete (v : value) (fr : list frame) : value + list frame :=
  match fr with
  | [] => inl v
  | (n, vs) :: fr => if n =? 1 then complete (Arr (vs ++ [v])) fr else inr ((n - 1, vs ++ [v]) :: fr)
  end.

Inductive outcome :=
  | Pending (l : leaf) (fr : list frame)
  | Finished (v : value) (rest : list Z)
  | Failed (rest : list Z)
  | Crashed.

Fixpoint feed (l : leaf) (fr : list frame) (data : list Z) : outcome :=
  match data with
  | [] => Pending l fr
  | c :: rest =>
      match leaf_step l c with
      | Next l => feed l fr rest
      | Value v =>
          match complete v fr with
          | inl v => Finished v rest
          | inr fr => feed Start fr rest
          end
      | Array n => feed Start ((n, []) :: fr) rest
      | Fail => Failed rest
      | Crash => Crashed
      end
  end.

(** Bytes after bytes. *)
Lemma feed_cut l fr a b :
  feed l fr (a ++ b) =
    match feed l fr a with
    | Pending l' fr' => feed l' fr' b
    | Finished v rest => Finished v (rest ++ b)
    | Failed rest => Failed (rest ++ b)
    | Crashed => Crashed
    end.
Proof.
  revert l fr; induction a as [|c a IH]; intros l fr; cbn [app feed]; [done|].
  destruct (leaf_step l c) as [l'|v|n| |]; [done| |done|done|done].
  by destruct (complete v fr).
Qed.

Lemma complete_app v fr outer :
  complete v (fr ++ outer) =
    match complete v fr with inl w => complete w outer | inr fr' => inr (fr' ++ outer) end.
Proof. revert v; induction fr as [|[n vs] fr IH]; intros v; cbn [app complete]; [done|]; by case_match. Qed.

(** Inner arrays are read as if the outer ones were not there. *)
Lemma feed_outer l fr outer data :
  feed l (fr ++ outer) data =
    match feed l fr data with
    | Pending l' fr' => Pending l' (fr' ++ outer)
    | Finished v rest =>
        match complete v outer with inl w => Finished w rest | inr fr' => feed Start fr' rest end
    | Failed rest => Failed rest
    | Crashed => Crashed
    end.
Proof.
  revert l fr; induction data as [|c data IH]; intros l fr; cbn [feed]; [done|].
  destruct (leaf_step l c) as [l'|v|n| |]; [done| |by rewrite app_comm_cons|done|done].
  rewrite complete_app; by destruct (complete v fr).
Qed.

(** What is left is a proper suffix. *)
Lemma feed_suffix l fr data :
  match feed l fr data with
  | Finished _ rest | Failed rest => exists c pre, data = c :: pre ++ rest
  | _ => True
  end.
Proof.
  revert l fr; induction data as [|c data IH]; intros l fr; cbn [feed]; [done|].
  assert (Hle : forall l' fr', match feed l' fr' data with
    | Finished _ rest | Failed rest => exists c' pre, c :: data = c' :: pre ++ rest | _ => True end).
  { intros l' fr'; specialize (IH l' fr'); destruct (feed l' fr' data); try done;
      destruct IH as (c' & pre & ->); by exists c, (c' :: pre). }
  destruct (leaf_step l c) as [l'|v|n| |]; [apply Hle| |apply Hle|by exists c, []|done].
  destruct (complete v fr); [by exists c, []|apply Hle].
Qed.

(** A bulk string is read at once. *)
Lemma feed_bulk n b fr data :
  0 < n ->
  feed (InBulk n b) fr data =
    if zlen data <? n then Pending (InBulk (n - zlen data) (b ++ data)) fr
    else feed (BulkCR (b ++ take (Z.to_nat n) data)) fr (drop (Z.to_nat n) data).
Proof.
  revert n b; induction data as [|c data IH]; intros n b Hn; cbn [feed].
  { destruct (Z.ltb_spec (zlen (@nil Z)) n) as [_|H]; [|cbn in H; lia].
    cbn; by rewrite Z.sub_0_r, app_nil_r. }
  cbn [leaf_step]; destruct (Z.eqb_spec n 1) as [->|Hn1].
  - destruct (Z.ltb_spec (zlen (c :: data)) 1) as [H|_]; [cbn in H; lia|]; by cbn [Z.to_nat take drop Pos.to_nat Pos.iter_op].
  - rewrite IH by lia; cbn [length]; rewrite Nat2Z.inj_succ.
    replace (Z.to_nat n) with (S (Z.to_nat (n - 1))) by lia; cbn [take drop].
    rewrite <- !app_assoc; cbn [app].
    destruct (Z.ltb_spec (zlen data) (n - 1)), (Z.ltb_spec (Z.succ (zlen data)) n); try lia; [|done].
    do 2 f_equal; lia.
Qed.

(* ------------------------------------------------------------------ *)
(** * The decoder implements the automaton *)

Definition digits_state (k : Z) : state :=
  if k =? 58 then st_integer else if k =? 36 then st_bulk_size else st_array_size.
Definition digits_lf (k : Z) : state :=
  if k =? 58 then st_integer_lf else if k =? 36 then st_bulk_size_lf else st_array_size_lf.

(** The decoder's own fields stand for the scalar ... *)
Definition leaf_of (d : decoder) (l : leaf) : Prop :=
  match l with
  | Start => stat_ d = st_start
  | Text e b => stat_ d = (if e then st_error_string else st_string) /\ buf_ d = b
  | TextLF e b => stat_ d = (if e then st_error_lf else st_string_lf) /\ buf_ d = b
  | Digits k b => stat_ d = digits_state k /\ buf_ d = b
  | DigitsLF k b => stat_ d = digits_lf k /\ buf_ d = b
  | InBulk n b => stat_ d = st_bulk /\ buf_ d = b /\ bulk_size_ d = n /\ 0 < n
  | BulkCR b => stat_ d = st_bulk_cr /\ buf_ d = b
  | BulkLF b => stat_ d = st_bulk_lf /\ buf_ d = b
  end.

(** ... and its stacks for the open arrays, outermost on top. *)
Definition stacks (d : decoder) (fr : list frame) : Prop :=
  array_stack_ d = rev (map fst fr) /\ value_stack_ d = rev (map (fun f => Arr f.2) fr)
  /\ Forall (fun f => 0 < f.1) fr.

(** The answer the automaton's outcome calls for, [T] being the position of the
    end of the input. *)
Definition agrees (T : nat) (o : outcome) (r : option (decoder * result)) : Prop :=
  match o with
  | Pending l fr => exists d, r = Some (d, Incompleted T) /\ leaf_of d l /\ stacks d fr
  | Finished v rest => exists d, r = Some (d, Completed (T - length rest) v) /\ leaf_of d Start /\ stacks d []
  | Failed rest => exists d, r = Some (d, Error (T - length rest))
  | Crashed => r = None
  end.

Lemma stacks_push d fr n vs :
  stacks d fr -> 0 < n -> stacks (push_array n (push_value (Arr vs) d)) (fr ++ [(n, vs)]).
Proof.
  intros (Ha & Hv & Hp) Hn; unfold stacks; cbn; rewrite Ha, Hv, !map_app, !rev_app_distr; cbn.
  split_and!; [done|done|]; apply Forall_app; by split; [|constructor].
Qed.

Lemma stacks_pop d fr n vs :
  stacks d (fr ++ [(n, vs)]) ->
  array_stack_ d = n :: rev (map fst fr) /\ value_stack_ d = Arr vs :: rev (map (fun f => Arr f.2) fr)
  /\ 0 < n /\ stacks (set_stacks (rev (map fst fr)) (rev (map (fun f => Arr f.2) fr)) d) fr.
Proof.
  intros (Ha & Hv & Hp); rewrite !map_app, !rev_app_distr in *; cbn in *.
  apply Forall_app in Hp as [Hp Hn]; apply Forall_inv in Hn; cbn in Hn; by split_and!.
Qed.

(** [completed] and [error] against the automaton. *)
Lemma completed_agrees T d v rest n :
  n = (T - length rest)%nat -> stat_ d = st_start -> stacks d [] -> agrees T (Finished v rest) (completed n v d).
Proof. intros -> Hs Hk; by eexists; split; [reflexivity|]. Qed.

Lemma error_agrees T d rest n : n = (T - length rest)%nat -> agrees T (Failed rest) (error n d).
Proof. intros ->; by eexists. Qed.

Definition in_bulk (l : leaf) : bool := match l with InBulk _ _ => true | _ => false end.

(** What is proved together of the five functions, by induction on the fuel. *)
Record implements (fuel : nat) : Prop := {
  chunk_ok d l i data :
    leaf_of d l -> stacks d [] -> (i = 0%nat \/ in_bulk l = false) -> (6 * length data + 1 <= fuel)%nat ->
    agrees (i + length data) (feed l [] data) (decode_chunk fuel d i data);
  loop_ok d l n vs x i rest :
    leaf_of d l -> stacks d [] -> 0 <= x <= n -> (x = n -> l = Start) -> (6 * length rest + 4 <= fuel)%nat ->
    agrees (i + length rest) (if x =? n then Finished (Arr vs) rest else feed l [(n - x, vs)] rest)
      (array_loop fuel d n vs x i rest);
  rest_ok d l n vs i rest :
    leaf_of d l -> stacks d [] -> 0 <= n -> (n = 0 -> l = Start) -> (6 * length rest + 5 <= fuel)%nat ->
    agrees (i + length rest) (if n =? 0 then Finished (Arr vs) rest else feed l [(n, vs)] rest)
      (array_rest fuel d n vs i rest);
  array_ok d l fr data :
    leaf_of d l -> stacks d fr -> fr <> [] -> (6 * length data + length fr + 5 <= fuel)%nat ->
    agrees (length data) (feed l fr data) (decode_array fuel d data);
  decode_ok d l fr data :
    leaf_of d l -> stacks d fr -> (6 * length data + match fr with [] => 2 | _ => length fr + 6 end <= fuel)%nat ->
    agrees (length data) (feed l fr data) (decode fuel d data) }.

Lemma drop_suffix {A} (c : A) pre rest : drop (length (c :: pre ++ rest) - length rest) (c :: pre ++ rest) = rest.
Proof.
  replace (length (c :: pre ++ rest) - length rest)%nat with (length (c :: pre))
    by (cbn; rewrite length_app; lia).
  by rewrite app_comm_cons, drop_app_length.
Qed.

Section step.
Context (fuel : nat) (IH : implements fuel).

Lemma decode_ok_S d l fr data :
  leaf_of d l -> stacks d fr -> (6 * length data + match fr with [] => 2 | _ => length fr + 6 end <= S fuel)%nat ->
  agrees (length data) (feed l fr data) (decode (S fuel) d data).
Proof.
  intros Hl Hs Hf; cbn [decode]; destruct fr as [|f fr].
  - pose proof Hs as (Ha & _); cbn in Ha; rewrite Ha.
    apply (chunk_ok _ IH d l 0%nat); [done|done|by left|lia].
  - pose proof Hs as (Ha & _ & _); destruct (array_stack_ d) as [|n ns] eqn:E.
    { apply (f_equal length) in Ha; rewrite length_rev, length_map in Ha; done. }
    apply (array_ok _ IH); try done; cbn [length] in *; lia.
Qed.

Lemma rest_ok_S d l n vs i rest :
  leaf_of d l -> stacks d [] -> 0 <= n -> (n = 0 -> l = Start) -> (6 * length rest + 5 <= S fuel)%nat ->
  agrees (i + length rest) (if n =? 0 then Finished (Arr vs) rest else feed l [(n, vs)] rest)
    (array_rest (S fuel) d n vs i rest).
Proof.
  intros Hl Hs Hn H0 Hf; cbn [array_rest]; destruct rest as [|c rest].
  - rewrite Nat.add_0_r; destruct (Z.eqb_spec n 0) as [->|Hn0].
    + apply completed_agrees; [cbn; lia| |done]; by rewrite (H0 eq_refl) in Hl.
    + eexists; split_and!; [reflexivity|by destruct l|].
      apply (stacks_push d [] n vs Hs); lia.
  - pose proof (loop_ok _ IH d l n vs 0 i (c :: rest) Hl Hs) as H; rewrite Z.sub_0_r, Z.eqb_sym in H.
    apply H; try lia; intros <-; auto.
Qed.

Lemma loop_ok_S d l n vs x i rest :
  leaf_of d l -> stacks d [] -> 0 <= x <= n -> (x = n -> l = Start) -> (6 * length rest + 4 <= S fuel)%nat ->
  agrees (i + length rest) (if x =? n then Finished (Arr vs) rest else feed l [(n - x, vs)] rest)
    (array_loop (S fuel) d n vs x i rest).
Proof.
  intros Hl Hs Hx H0 Hf; cbn [array_loop]; destruct (Z.eqb_spec x n) as [->|Hn].
  { rewrite Z.ltb_irrefl; apply completed_agrees; [lia| |done]; by rewrite (H0 eq_refl) in Hl. }
  destruct (Z.ltb_spec x n); [|lia].
  pose proof (decode_ok _ IH d l [] rest Hl Hs ltac:(cbv iota; lia)) as Hd.
  pose proof (feed_outer l [] [(n - x, vs)] rest) as Ho; cbn [app] in Ho; rewrite Ho.
  pose proof (feed_suffix l [] rest) as Hsuf.
  destruct (feed l [] rest) as [l' fr'|v r|r|]; cbn [agrees] in Hd.
  - destruct Hd as (d' & -> & Hl' & Hs'); cbn [mbind option_bind].
    eexists; split_and!; [reflexivity|by destruct l'|apply stacks_push; [done|lia]].
  - destruct Hd as (d' & -> & Hl' & Hs'); cbn [mbind option_bind].
    destruct Hsuf as (c & pre & ->); rewrite drop_suffix.
    pose proof (loop_ok _ IH d' Start n (vs ++ [v]) (x + 1)
      (i + (length (c :: pre ++ r) - length r))%nat r Hl' Hs') as Hloop.
    replace (i + (length (c :: pre ++ r) - length r) + length r)%nat with (i + length (c :: pre ++ r))%nat in Hloop
      by (cbn; rewrite length_app; lia).
    cbn [complete]; replace (n - x =? 1) with (x + 1 =? n) by lia.
    replace (n - (x + 1)) with (n - x - 1) in Hloop by lia.
    assert (6 * length r + 4 <= fuel)%nat by (cbn in Hf; rewrite length_app in Hf; lia).
    specialize (Hloop ltac:(lia) ltac:(done) ltac:(done)); by destruct (x + 1 =? n).
  - destruct Hd as (d' & ->); cbn [mbind option_bind]; destruct Hsuf as (c & pre & ->).
    eexists; do 3 f_equal; cbn; rewrite length_app; lia.
  - by rewrite Hd.
Qed.

Lemma array_ok_S d l fr data :
  leaf_of d l -> stacks d fr -> fr <> [] -> (6 * length data + length fr + 5 <= S fuel)%nat ->
  agrees (length data) (feed l fr data) (decode_array (S fuel) d data).
Proof.
  intros Hl Hs Hne Hf; destruct (exists_last Hne) as (fr' & [n vs] & ->); cbn [decode_array].
  apply stacks_pop in Hs as (Ha & Hv & Hn & Hs); rewrite Ha, Hv; rewrite length_app in Hf; cbn [length] in Hf.
  set (d1 := set_stacks _ _ d) in *; assert (Hl1 : leaf_of d1 l) by (by destruct l).
  destruct fr' as [|f fr'] using rev_ind; [cbn [rev map]|clear IHfr'].
  - pose proof (rest_ok _ IH d1 l n vs 0 data Hl1 Hs ltac:(lia) ltac:(lia) ltac:(cbn in Hf; lia)) as H.
    destruct (Z.eqb_spec n 0); [lia|]; exact H.
  - rewrite length_app in Hf; cbn [length] in Hf.
    destruct (rev (map fst (fr' ++ [f]))) as [|z zs] eqn:E.
    { apply (f_equal length) in E; rewrite length_rev, length_map, length_app in E; cbn in E; lia. }
    pose proof (array_ok _ IH d1 l (fr' ++ [f]) data Hl1 Hs) as Hr; rewrite length_app in Hr; cbn [length] in Hr.
    specialize (Hr ltac:(by destruct fr') ltac:(lia)).
    rewrite feed_outer; pose proof (feed_suffix l (fr' ++ [f]) data) as Hsuf.
    destruct (feed l (fr' ++ [f]) data) as [l' fr''|v r|r|]; cbn [agrees] in Hr.
    + destruct Hr as (d' & -> & Hl' & Hs'); cbn [mbind option_bind].
      eexists; split_and!; [reflexivity|by destruct l'|by apply stacks_push].
    + destruct Hr as (d' & -> & Hl' & Hs'); cbn [mbind option_bind].
      destruct Hsuf as (c & pre & ->); rewrite drop_suffix.
      pose proof (rest_ok _ IH d' Start (n - 1) (vs ++ [v]) (length (c :: pre ++ r) - length r)%nat r Hl' Hs') as Hrest.
      replace (length (c :: pre ++ r) - length r + length r)%nat with (length (c :: pre ++ r)) in Hrest
        by (cbn; rewrite length_app; lia).
      assert (6 * length r + 5 <= fuel)%nat by (cbn in Hf; rewrite length_app in Hf; lia).
      specialize (Hrest ltac:(lia) ltac:(done) ltac:(done)).
      cbn [complete]; replace (n =? 1) with (n - 1 =? 0) by lia; by destruct (n - 1 =? 0).
    + destruct Hr as (d' & ->); cbn [mbind option_bind]; by eexists.
    + by rewrite Hr.
Qed.

(** ** One byte of a chunk *)

Lemma next_ok d l i rest :
  leaf_of d l -> stacks d [] -> in_bulk l = false -> (6 * length rest + 1 <= fuel)%nat ->
  agrees (i + S (length rest)) (feed l [] rest) (decode_chunk fuel d (S i) rest).
Proof.
  intros Hl Hs Hb Hf; rewrite Nat.add_succ_r, <- Nat.add_succ_l; apply (chunk_ok _ IH); auto.
Qed.

(** The end of the number of a bulk string: as much of the string as there is. *)
Lemma bulk_start_ok d n i rest :
  buf_ d = [] -> bulk_size_ d = n -> stacks d [] -> 0 < n -> (6 * length rest + 1 <= fuel)%nat ->
  let canRead := Z.min n (zlen rest) in
  let d := set_buf (take (Z.to_nat canRead) rest) d in
  let i' := (i + Z.to_nat canRead)%nat in
  agrees (i + S (length rest)) (feed (InBulk n []) [] rest)
    (if zlen rest <? n then Some (set_stat st_bulk (set_bulk_size (n - canRead) d), Incompleted (S i'))
     else decode_chunk fuel (set_stat st_bulk_cr d) (S i') (drop (Z.to_nat canRead) rest)).
Proof.
  intros Hb Hn Hs Hpos Hf canRead d1 i'; rewrite feed_bulk by done; cbn [app].
  unfold i', d1, canRead; destruct (Z.ltb_spec (zlen rest) n) as [Hlt|Hge].
  - rewrite Z.min_r, Nat2Z.id, firstn_all by lia.
    eexists; split_and!; [do 3 f_equal; lia| |by destruct Hs]; cbn; split_and!; (done || lia).
  - rewrite Z.min_l by lia.
    replace (i + S (length rest))%nat with (S (i + Z.to_nat n) + length (drop (Z.to_nat n) rest))%nat
      by (rewrite length_drop; lia).
    apply (chunk_ok _ IH); [done|done|by right|rewrite length_drop; lia].
Qed.

(** In the middle of a bulk string, which only the first byte of a call can be. *)
Lemma bulk_more_ok d n b c rest :
  leaf_of d (InBulk n b) -> stacks d [] -> (6 * length (c :: rest) + 1 <= S fuel)%nat ->
  agrees (length (c :: rest)) (feed (InBulk n b) [] (c :: rest)) (decode_chunk (S fuel) d 0 (c :: rest)).
Proof.
  intros (Hst & Hb & Hn & Hpos) Hs Hf; cbn [decode_chunk]; rewrite Hst, Hn.
  set (data := c :: rest) in *; clearbody data; rewrite feed_bulk by done; change (Z.of_nat 0) with 0; rewrite Z.sub_0_r, Nat.add_0_l.
  destruct (Z.ltb_spec (Z.min (zlen data) n) 0); [lia|]; cbn [bulk_size_ set_bulk_size set_buf]; rewrite Hn.
  destruct (Z.ltb_spec (zlen data) n) as [Hlt|Hge].
  - rewrite Z.min_l by lia; destruct (Z.ltb_spec 0 (n - zlen data)); [|lia].
    rewrite Nat2Z.id, firstn_all; eexists; split_and!; [reflexivity| |by destruct Hs].
    cbn; rewrite Hb; split_and!; (done || lia).
  - rewrite Z.min_r by lia; destruct (Z.ltb_spec 0 (n - n)); [lia|].
    set (d1 := set_stat st_bulk_cr _); assert (Hl1 : leaf_of d1 (BulkCR (b ++ take (Z.to_nat n) data))) by (by rewrite <- Hb).
    assert (Hs1 : stacks d1 []) by (by destruct Hs).
    pose proof (length_drop data (Z.to_nat n)) as Hlen.
    destruct (drop (Z.to_nat n) data) as [|c' rest'] eqn:E.
    + cbn [length] in Hlen; eexists; split_and!; [do 3 f_equal; lia|done|done].
    + replace (length data) with (Z.to_nat n + length (c' :: rest'))%nat by lia.
      apply (chunk_ok _ IH); [done|done|by right|]; cbn [length] in *; lia.
Qed.

(** A number that opens an array. *)
Lemma array_start_ok d n i rest :
  stacks d [] -> 0 < n -> (6 * length rest + 6 <= fuel)%nat ->
  let d := set_stat st_start (push_value (Arr []) (push_array n d)) in
  agrees (i + S (length rest)) (feed Start [(n, [])] rest)
    match rest with
    | [] => Some (d, Incompleted (S i))
    | _ :: _ =>
        '(d, res) ← decode_array fuel d rest;
        Some (d, match res with
                 | Completed n v => Completed (n + S i) v
                 | Incompleted n => Incompleted (n + S i)
                 | Error n => Error (n + S i)
                 end)
    end.
Proof.
  intros Hs Hn Hf d1; assert (Hs1 : stacks d1 [(n, [])]) by (apply (stacks_push d [] n []) in Hs; done).
  destruct rest as [|c rest]; [eexists; split_and!; [do 3 f_equal; cbn; lia|done|done]|].
  pose proof (array_ok _ IH d1 Start [(n, [])] (c :: rest) eq_refl Hs1 ltac:(done) ltac:(cbn [length] in *; lia)) as H.
  pose proof (feed_suffix Start [(n, [])] (c :: rest)) as Hsuf; set (data := c :: rest) in *; clearbody data.
  destruct (feed Start [(n, [])] data) as [l' fr'|v r|r|]; cbn [agrees] in H |- *.
  - destruct H as (d' & -> & Hl & Hk); cbn; eexists; split_and!; [do 3 f_equal; lia|done|done].
  - destruct H as (d' & -> & Hl & Hk); destruct Hsuf as (? & ? & Hsuf); apply (f_equal length) in Hsuf; cbn [length] in Hsuf.
    rewrite length_app in Hsuf; cbn; eexists; split_and!; [do 3 f_equal; lia|done|done].
  - destruct H as (d' & ->); destruct Hsuf as (? & ? & Hsuf); apply (f_equal length) in Hsuf; cbn [length] in Hsuf.
    rewrite length_app in Hsuf; cbn; eexists; do 3 f_equal; lia.
  - by rewrite H.
Qed.
Lemma digits_case k b (i : nat) rest d (c : Z) :
  stat_ d = digits_state k -> buf_ d = b -> stacks d [] -> (6 * length rest + 1 <= fuel)%nat ->
  agrees (i + S (length rest)) (feed (Digits k b) [] (c :: rest))
    (if c =? 13 then if Nat.eqb (length (buf_ d)) 0 then error (S i) d else decode_chunk fuel (set_stat (digits_lf k) d) (S i) rest
     else if isdigit c || (c =? 45) then decode_chunk fuel (set_buf (buf_ d ++ [c]) d) (S i) rest
     else error (S i) d).
Proof.
  intros Hst Hb Hs Hf; cbn [feed leaf_step]; rewrite Hb; destruct (c =? 13).
  - destruct (Nat.eqb (length b) 0); [apply error_agrees; lia|by apply next_ok].
  - destruct (isdigit c || (c =? 45)); [by apply next_ok|apply error_agrees; lia].
Qed.

Lemma text_case (e : bool) b (i : nat) rest d (c : Z) :
  stat_ d = (if e then st_error_string else st_string) -> buf_ d = b -> stacks d [] -> (6 * length rest + 1 <= fuel)%nat ->
  agrees (i + S (length rest)) (feed (Text e b) [] (c :: rest))
    (if c =? 13 then decode_chunk fuel (set_stat (if e then st_error_lf else st_string_lf) d) (S i) rest
     else if ischar c && negb (isctrl c) then decode_chunk fuel (set_buf (buf_ d ++ [c]) d) (S i) rest
     else error (S i) d).
Proof.
  intros Hst Hb Hs Hf; cbn [feed leaf_step]; rewrite Hb; destruct (c =? 13); [by apply next_ok|].
  destruct (ischar c && negb (isctrl c)); [by apply next_ok|apply error_agrees; lia].
Qed.

(** The newline that ends a number. *)
Lemma number_case k b (i : nat) rest d :
  stat_ d = digits_lf k -> buf_ d = b -> stacks d [] -> (6 * length rest + 6 <= fuel)%nat ->
  agrees (i + S (length rest)) (feed (DigitsLF k b) [] (10 :: rest)) (decode_chunk (S fuel) d i (10 :: rest)).
Proof.
  intros Hst Hb Hs Hf; cbn [feed leaf_step decode_chunk]; rewrite Hst, Hb; unfold digits_lf, number_event.
  change (10 =? 10) with true; cbv iota.
  destruct (k =? 58); [|destruct (k =? 36)]; destruct (buf_number b) as [n|]; cbn [mbind option_bind]; try done.
  - cbn [complete]; apply completed_agrees; [lia|done|done].
  - destruct (n =? -1); [cbn [complete]; apply completed_agrees; [lia|done|done]|].
    destruct (Z.eqb_spec n 0); [apply next_ok; try done; lia|].
    destruct (Z.ltb_spec n 0); [apply error_agrees; lia|].
    apply (bulk_start_ok (set_buf [] (set_bulk_size n d))); try done; lia.
  - destruct ((n =? -1) || (n =? 0)) eqn:E; [cbn [complete]; apply completed_agrees; [lia|done|done]|].
    destruct (Z.ltb_spec n 0); [apply error_agrees; lia|].
    apply (array_start_ok (set_buf [] d)); try done; lia.
Qed.

Lemma chunk_ok_S d l i data :
  leaf_of d l -> stacks d [] -> (i = 0%nat \/ in_bulk l = false) -> (6 * length data + 1 <= S fuel)%nat ->
  agrees (i + length data) (feed l [] data) (decode_chunk (S fuel) d i data).
Proof.
  intros Hl Hs Hi Hf; destruct data as [|c rest].
  { cbn [decode_chunk feed length]; rewrite Nat.add_0_r; eexists; split_and!; done. }
  destruct l as [|e b|e b|k b|k b|n b|b|b].
  - cbn [decode_chunk feed leaf_step length] in *; rewrite Hl.
    destruct (c =? 43); [apply next_ok; (done || lia)|].
    destruct (c =? 45); [apply next_ok; (done || lia)|].
    destruct (Z.eqb_spec c 58) as [->|]; [apply next_ok; (done || lia)|].
    destruct (Z.eqb_spec c 36) as [->|]; [apply next_ok; (done || lia)|].
    destruct (Z.eqb_spec c 42) as [->|]; [apply next_ok; (done || lia)|apply error_agrees; lia].
  - destruct Hl as [Hst Hb]; pose proof (text_case e b i rest d c Hst Hb Hs ltac:(cbn in Hf; lia)) as H.
    cbn [decode_chunk]; rewrite Hst; by destruct e.
  - destruct Hl as [Hst Hb]; cbn [decode_chunk feed leaf_step length] in *; rewrite Hst.
    destruct e, (c =? 10); try (apply error_agrees; lia); rewrite Hb; apply completed_agrees; (done || lia).
  - destruct Hl as [Hst Hb]; pose proof (digits_case k b i rest d c Hst Hb Hs ltac:(cbn in Hf; lia)) as H.
    cbn [decode_chunk]; rewrite Hst; unfold digits_lf, digits_state in *; by destruct (k =? 58), (k =? 36).
  - destruct Hl as [Hst Hb]; cbn [length] in *; destruct (Z.eqb_spec c 10) as [->|Hc].
    + apply number_case; (done || lia).
    + apply Z.eqb_neq in Hc; cbn [decode_chunk feed leaf_step]; rewrite Hst, Hc.
      unfold digits_lf; destruct (k =? 58), (k =? 36); apply error_agrees; lia.
  - destruct Hi as [->|]; [|done]; by apply bulk_more_ok.
  - destruct Hl as [Hst Hb]; cbn [decode_chunk feed leaf_step length] in *; rewrite Hst.
    destruct (c =? 13); [apply next_ok; (done || lia)|apply error_agrees; lia].
  - destruct Hl as [Hst Hb]; cbn [decode_chunk feed leaf_step length] in *; rewrite Hst.
    destruct (c =? 10); [|apply error_agrees; lia]; rewrite Hb; apply completed_agrees; (done || lia).
Qed.
End step.

Lemma implements_all fuel : implements fuel.
Proof.
  induction fuel as [|fuel IH].
  { constructor; intros; first [lia|by destruct fr; lia]. }
  constructor.
  - by apply chunk_ok_S.
  - by apply loop_ok_S.
  - by apply rest_ok_S.
  - by apply array_ok_S.
  - by apply decode_ok_S.
Qed.

(** The decoder and the automaton give the same answer. *)
Lemma Decode_feed d l fr data :
  leaf_of d l -> stacks d fr -> agrees (length data) (feed l fr data) (Decode d data).
Proof.
  intros Hl Hs; apply (decode_ok _ (implements_all _)); try done.
  unfold decode_fuel; destruct Hs as (-> & _ & _); rewrite length_rev, length_map.
  unfold frame in *; destruct fr as [|f fr]; cbn [length]; lia.
Qed.

(* ------------------------------------------------------------------ *)
(** * What a server sends *)

Fixpoint wire (v : value) : list Z :=
  match v with
  | Null => str "$-1" ++ [13; 10]
  | Str s => str "+" ++ s ++ [13; 10]
  | Err s => str "-" ++ s ++ [13; 10]
  | Integer n => str ":" ++ to_string n ++ [13; 10]
  | Bulk s => str "$" ++ to_string (zlen s) ++ [13; 10] ++ s ++ [13; 10]
  | Arr vs => str "*" ++ to_string (zlen vs) ++ [13; 10] ++ concat (map wire vs)
  end.

(** Lines of printable ASCII, and counts and integers of 64 bits. *)
Fixpoint sendable (v : value) : bool :=
  match v with
  | Null => true
  | Str s | Err s => forallb (fun c => (32 <=? c) && (c <=? 126)) s
  | Integer n => (- 2 ^ 63 <=? n) && (n <? 2 ^ 63)
  | Bulk s => zlen s <? 2 ^ 63
  | Arr vs => (zlen vs <? 2 ^ 63) && forallb sendable vs
  end.

(** Induction through the elements of arrays. *)
Lemma value_rect' (P : value -> Prop) :
  P Null -> (forall s, P (Str s)) -> (forall s, P (Err s)) -> (forall n, P (Integer n)) -> (forall s, P (Bulk s)) ->
  (forall vs, Forall P vs -> P (Arr vs)) -> forall v, P v.
Proof.
  intros H1 H2 H3 H4 H5 H6; fix F 1; intros [|s|s|n|s|vs]; [exact H1|apply H2|apply H3|apply H4|apply H5|].
  apply H6; induction vs as [|v vs IH]; constructor; [apply F|exact IH].
Qed.

(** ** Numbers *)

Lemma dec_rev_length fuel n k :
  0 <= n < 10 ^ Z.of_nat k -> (0 < k)%nat -> (length (dec_rev fuel n) <= k)%nat.
Proof.
  revert n k; induction fuel as [|fuel IH]; intros n k Hn Hk; cbn [dec_rev length]; [lia|].
  destruct (Z.ltb_spec n 10); cbn [length]; [lia|]; destruct k as [|k]; [lia|].
  assert (length (dec_rev fuel (n / 10)) <= k)%nat; [|lia].
  rewrite Nat2Z.inj_succ, Z.pow_succ_r in Hn by lia.
  apply IH; [split; [apply Z.div_pos; lia|apply Z.div_lt_upper_bound; lia]|].
  destruct k; [cbn in Hn; lia|lia].
Qed.

Lemma strtol_to_string n : - 2 ^ 63 <= n < 2 ^ 63 -> strtol (to_string n) = n.
Proof.
  intros Hn; unfold strtol, to_string; destruct (Z.ltb_spec n 0) as [Hneg|Hpos].
  - destruct (dec_rev_ok (S (Z.to_nat (Z.log2 (- n)))) (- n)) as (Hv & _ & Hd); [lia..|].
    rewrite take_digits_all, Hv by (by apply Forall_rev); lia.
  - destruct (dec_rev_ok (S (Z.to_nat (Z.log2 n))) n) as (Hv & Hne & Hd); [lia..|].
    pose proof (Forall_rev Hd) as Hd'; set (ds := rev (dec_rev _ n)) in *; clearbody ds.
    assert ((match ds with 45 :: s' => (true, take_digits s') | _ => (false, take_digits ds) end) = (false, take_digits ds)) as ->.
    { destruct ds as [|c ds]; [done|]; destruct (Z.eq_dec c 45) as [->|Hc]; [by apply Forall_inv in Hd'|].
      destruct c as [|p|p]; try done; do 6 (destruct p as [p|p|]; try done). }
    rewrite take_digits_all, Hv by done; lia.
Qed.

Lemma to_string_short n :
  - 2 ^ 63 <= n < 2 ^ 63 -> (0 < length (to_string n) < 32)%nat
  /\ Forall (fun c => isdigit c || (c =? 45) = true) (to_string n).
Proof.
  intros Hn; unfold to_string; assert (2 ^ 63 < 10 ^ Z.of_nat 20) by (vm_compute; reflexivity).
  assert (Hmono : forall ds, Forall (fun c => isdigit c = true) ds -> Forall (fun c => isdigit c || (c =? 45) = true) ds).
  { intros ds H0; eapply Forall_impl; [|exact H0]; by intros c ->. }
  destruct (Z.ltb_spec n 0); cbn [length]; rewrite length_rev.
  - destruct (dec_rev_ok (S (Z.to_nat (Z.log2 (- n)))) (- n)) as (_ & _ & Hd); [lia..|].
    pose proof (dec_rev_length (S (Z.to_nat (Z.log2 (- n)))) (- n) 20 ltac:(lia) ltac:(lia)).
    split; [lia|]; constructor; [done|]; by apply Hmono, Forall_rev.
  - destruct (dec_rev_ok (S (Z.to_nat (Z.log2 n))) n) as (_ & Hne & Hd); [lia..|].
    pose proof (dec_rev_length (S (Z.to_nat (Z.log2 n))) n 20 ltac:(lia) ltac:(lia)).
    set (ds := dec_rev _ n) in *; clearbody ds; split; [|by apply Hmono, Forall_rev].
    destruct ds; [congruence|cbn [length] in *; lia].
Qed.

(** ** The automaton on the wire format *)

(** A value has been read. *)
Definition emit (v : value) (fr : list frame) (rest : list Z) : outcome :=
  match complete v fr with inl w => Finished w rest | inr fr' => feed Start fr' rest end.

Lemma feed_text e b s fr r :
  forallb (fun c => (32 <=? c) && (c <=? 126)) s = true ->
  feed (Text e b) fr (s ++ [13; 10] ++ r) = emit (if e then Err (b ++ s) else Str (b ++ s)) fr r.
Proof.
  revert b; induction s as [|c s IH]; intros b H; [by rewrite app_nil_r|].
  cbn [forallb] in H; apply andb_true_iff in H as [Hc H]; cbn [app feed leaf_step].
  destruct (Z.eqb_spec c 13); [lia|]; replace (ischar c && negb (isctrl c)) with true
    by (unfold ischar, isctrl; lia).
  rewrite IH by done; by rewrite <- app_assoc.
Qed.

Lemma feed_digits k b s fr r :
  Forall (fun c => isdigit c || (c =? 45) = true) s -> (0 < length (b ++ s))%nat ->
  feed (Digits k b) fr (s ++ 13 :: r) = feed (DigitsLF k (b ++ s)) fr r.
Proof.
  intros H; revert b; induction H as [|c s Hc _ IH]; intros b Hl.
  - rewrite app_nil_r in *; cbn; destruct (Nat.eqb_spec (length b) 0); [lia|done].
  - cbn [app feed leaf_step]; destruct (Z.eqb_spec c 13) as [->|_]; [done|]; rewrite Hc.
    by rewrite IH, <- app_assoc by (rewrite <- app_assoc; done).
Qed.

(** A type character and a number. *)
Lemma feed_number k n fr r :
  k = 58 \/ k = 36 \/ k = 42 -> - 2 ^ 63 <= n < 2 ^ 63 ->
  feed Start fr (k :: to_string n ++ [13; 10] ++ r) =
    match number_event k (to_string n) with
    | Next l => feed l fr r
    | Value v => emit v fr r
    | Array m => feed Start ((m, []) :: fr) r
    | Fail => Failed r
    | Crash => Crashed
    end.
Proof.
  intros Hk Hn; destruct (to_string_short n Hn) as [Hl Hd].
  assert (leaf_step Start k = Next (Digits k [])) as Hs by (by destruct Hk as [->|[->| ->]]).
  cbn [feed]; rewrite Hs; change ([13; 10] ++ r) with (13 :: 10 :: r).
  rewrite feed_digits by (done || cbn [app]; lia); done.
Qed.

Lemma number_event_eq k n :
  - 2 ^ 63 <= n < 2 ^ 63 ->
  number_event k (to_string n) =
    if k =? 58 then Value (Integer n)
    else if k =? 36 then
      if n =? -1 then Value Null else if n =? 0 then Next (BulkCR []) else if n <? 0 then Fail else Next (InBulk n [])
    else if (n =? -1) || (n =? 0) then Value (Arr []) else if n <? 0 then Fail else Array n.
Proof.
  intros Hn; destruct (to_string_short n Hn) as [Hl _]; unfold number_event, buf_number.
  destruct (Nat.ltb_spec (length (to_string n)) 32); [|lia]; by rewrite strtol_to_string.
Qed.

Lemma feed_elements fr vs :
  Forall (fun v => forall fr r, feed Start fr (wire v ++ r) = emit v fr r) vs -> vs <> [] -> forall acc r,
  feed Start ((zlen vs, acc) :: fr) (concat (map wire vs) ++ r) = emit (Arr (acc ++ vs)) fr r.
Proof.
  induction 1 as [|v vs Hv _ IH]; intros Hne acc r; [done|]; cbn [map concat].
  rewrite <- app_assoc, Hv; unfold emit at 1; cbn [complete].
  destruct vs as [|v' vs]; [done|].
  destruct (Z.eqb_spec (zlen (v :: v' :: vs)) 1); [cbn [length] in *; lia|].
  replace (zlen (v :: v' :: vs) - 1) with (zlen (v' :: vs)) by (cbn [length]; lia).
  by rewrite IH, <- app_assoc.
Qed.

Lemma feed_wire v : sendable v = true -> forall fr r, feed Start fr (wire v ++ r) = emit v fr r.
Proof.
  induction v as [|s|s|n|s|vs IH] using value_rect'; cbn [sendable wire]; intros Hv fr r; rewrite <- ?app_assoc.
  - done.
  - by apply (feed_text false [] s fr r).
  - by apply (feed_text true [] s fr r).
  - change (str ":" ++ ?l) with (58 :: l); rewrite feed_number, number_event_eq by (auto || lia); done.
  - change (str "$" ++ ?l) with (36 :: l); rewrite feed_number, number_event_eq by (auto || lia); cbn [Z.eqb Pos.eqb].
    destruct (Z.eqb_spec (zlen s) (-1)); [lia|]; destruct (Z.eqb_spec (zlen s) 0) as [E|].
    { destruct s; [done|cbn in E; lia]. }
    destruct (Z.ltb_spec (zlen s) 0); [lia|]; rewrite feed_bulk by lia.
    destruct (Z.ltb_spec (zlen (s ++ [13; 10] ++ r)) (zlen s)); [rewrite length_app in *; lia|].
    rewrite Nat2Z.id, take_app_length, drop_app_length; done.
  - apply andb_true_iff in Hv as [Hn Hv].
    change (str "*" ++ ?l) with (42 :: l); rewrite feed_number, number_event_eq by (auto || lia); cbn [Z.eqb Pos.eqb].
    destruct (Z.eqb_spec (zlen vs) (-1)); [lia|]; cbn [orb]; destruct (Z.eqb_spec (zlen vs) 0) as [E|].
    { destruct vs; [done|cbn in E; lia]. }
    destruct (Z.ltb_spec (zlen vs) 0); [lia|]; apply feed_elements; [|by intros ->].
    rewrite forallb_forall in Hv; apply Forall_forall; intros v Hin; rewrite Forall_forall in IH; auto.
Qed.

(* ------------------------------------------------------------------ *)
(** * Any cutting of the input *)

Definition idle (d : decoder) : Prop := leaf_of d Start /\ stacks d [].

(** The decoder fed piece by piece, up to the first answer that is not
    [Incompleted]. *)
Fixpoint decode_pieces (d : decoder) (ps : list (list Z)) : option (decoder * list result) :=
  match ps with
  | [] => Some (d, [])
  | p :: ps =>
      '(d, r) ← Decode d p;
      match r with
      | Incompleted _ => '(d, rs) ← decode_pieces d ps; Some (d, r :: rs)
      | _ => Some (d, [r])
      end
  end.

Definition waits (ps : list (list Z)) : list result := map (fun p => Incompleted (length p)) ps.

(** The pieces are the bytes of [ps], the answer [r k] comes in the middle of one
    of them and leaves [rest]. *)
Definition answered (d : decoder) (ps : list (list Z)) (r : nat -> result) (rest : list Z) (d' : decoder) : Prop :=
  exists pre p post k, ps = pre ++ p :: post /\ (k <= length p)%nat /\ rest = drop k p ++ concat post /\
    decode_pieces d ps = Some (d', waits pre ++ [r k]).

Lemma answered_here d p ps r rest d' :
  (exists c pre, p = c :: pre ++ rest) -> Decode d p = Some (d', r (length p - length rest)%nat) ->
  (forall n m, r n <> Incompleted m) ->
  answered d (p :: ps) r (rest ++ concat ps) d'.
Proof.
  intros (c & pre0 & Hp) E Hr; change (c :: pre0 ++ rest) with ((c :: pre0) ++ rest) in Hp.
  revert Hp E; generalize (c :: pre0); intros pre -> E; exists [], (pre ++ rest), ps, (length pre).
  replace (length (pre ++ rest) - length rest)%nat with (length pre) in E by (rewrite length_app; lia).
  rewrite drop_app_length, length_app; split_and!; [done|lia|done|]; cbn [decode_pieces]; rewrite E; cbn.
  destruct (r (length pre)) eqn:E'; try done; by destruct (Hr (length pre) size).
Qed.

Lemma answered_later d d1 p ps r rest d' :
  Decode d p = Some (d1, Incompleted (length p)) -> answered d1 ps r rest d' -> answered d (p :: ps) r rest d'.
Proof.
  intros E (pre & q & post & k & -> & Hk & -> & H); exists (p :: pre), q, post, k; split_and!; [done..|].
  cbn [decode_pieces]; rewrite E; cbn; by rewrite H.
Qed.

Lemma pieces_feed ps : forall d l fr, leaf_of d l -> stacks d fr ->
  match feed l fr (concat ps) with
  | Pending l' fr' => exists d', decode_pieces d ps = Some (d', waits ps) /\ leaf_of d' l' /\ stacks d' fr'
  | Finished v rest => exists d', answered d ps (fun k => Completed k v) rest d' /\ idle d'
  | Failed rest => exists d', answered d ps Error rest d'
  | Crashed => decode_pieces d ps = None
  end.
Proof.
  induction ps as [|p ps IH]; intros d l fr Hl Hs; cbn [concat]; [by exists d|].
  rewrite feed_cut; pose proof (Decode_feed d l fr p Hl Hs) as Hd; pose proof (feed_suffix l fr p) as Hx.
  destruct (feed l fr p) as [l1 fr1|v rest|rest|]; cbn [agrees] in Hd.
  - destruct Hd as (d1 & E & Hl1 & Hs1); specialize (IH d1 l1 fr1 Hl1 Hs1).
    destruct (feed l1 fr1 (concat ps)) as [l2 fr2|v rest|rest|].
    + destruct IH as (d2 & E2 & H2); exists d2; split; [|done]; cbn [decode_pieces]; rewrite E; cbn; by rewrite E2.
    + destruct IH as (d2 & E2 & H2); eauto using answered_later.
    + destruct IH as (d2 & E2); eauto using answered_later.
    + cbn [decode_pieces]; rewrite E; cbn; by rewrite IH.
  - destruct Hd as (d1 & E & H1); exists d1; split; [|done]; by apply answered_here.
  - destruct Hd as (d1 & E); exists d1; by apply answered_here.
  - cbn [decode_pieces]; by rewrite Hd.
Qed.

(** C22.  The decoder, fed its input in any pieces, implements the automaton on their
    concatenation: it waits at the end of each piece until the automaton finishes
    or fails, and then has used exactly the bytes the automaton has used; it
    aborts only where the automaton does. *)
Theorem decode_feed (ps : list (list Z)) :
  match feed Start [] (concat ps) with
  | Pending l fr => exists d, decode_pieces decoder_new ps = Some (d, waits ps) /\ leaf_of d l /\ stacks d fr
  | Finished v rest => exists d, answered decoder_new ps (fun k => Completed k v) rest d /\ idle d
  | Failed rest => exists d, answered decoder_new ps Error rest d
  | Crashed => decode_pieces decoder_new ps = None
  end.
Proof. apply pieces_feed; done. Qed.

(** A value that a server sends is decoded to itself, however its bytes are cut
    and whatever follows them, by any decoder that is idle, which is idle again
    afterwards. *)
Theorem decode_wire (d : decoder) (v : value) (ps : list (list Z)) (r : list Z) :
  idle d -> sendable v = true -> concat ps = wire v ++ r ->
  exists d' pre p post k,
    ps = pre ++ p :: post /\ concat pre ++ take k p = wire v /\ drop k p ++ concat post = r /\
    decode_pieces d ps = Some (d', waits pre ++ [Completed k v]) /\ idle d'.
Proof.
  intros [Hl Hs] Hv Hps; pose proof (pieces_feed ps d Start [] Hl Hs) as H.
  rewrite Hps, feed_wire in H by done; cbn in H; destruct H as (d' & (pre & p & post & k & -> & Hk & -> & E) & Hi).
  exists d', pre, p, post, k; split_and!; [done| |done|done|done].
  rewrite concat_app in Hps; cbn [concat] in Hps.
  rewrite <- (take_drop k p) in Hps at 1; rewrite <- app_assoc, app_assoc in Hps; by apply app_inv_tail in Hps.
Qed.

Lemma decode_wire_witness :
  exists d' pre p post k,
    [str "*2"; [13; 10; 58; 55; 13]; [10] ++ str "$2"; [13; 10; 104; 105; 13; 10; 43]] = pre ++ p :: post /\
    concat pre ++ take k p = wire (Arr [Integer 7; Bulk (str "hi")]) /\ drop k p ++ concat post = str "+" /\
    decode_pieces decoder_new [str "*2"; [13; 10; 58; 55; 13]; [10] ++ str "$2"; [13; 10; 104; 105; 13; 10; 43]]
      = Some (d', waits pre ++ [Completed k (Arr [Integer 7; Bulk (str "hi")])]) /\ idle d'.
Proof. apply decode_wire; vm_compute; repeat first [split | constructor | reflexivity]. Defined.

(** A number of 32 digits overruns the decoder's local array of 32 characters. *)
Theorem long_number_aborts :
  Decode decoder_new (str ":" ++ replicate 32 48 ++ [13; 10]) = None.
Proof. vm_compute; reflexivity. Qed.

(** The null array is decoded as the empty one. *)
Theorem null_array_empty :
  exists d, Decode decoder_new (str "*-1" ++ [13; 10]) = Some (d, Completed 5 (Arr [])).
Proof. eexists; vm_compute; reflexivity. Qed.
End Resp.
