(* ===== verification/RespData.v ===== *)
(** The storage classes of the RESP library (src/thirdparty/resp/resp/{buffer,
    unique_array}.hpp).

    [RespBuffer] is a byte buffer that refers to foreign memory (capacity 0), uses
    its own small array (capacity 64) or a heap block.  A write past the capacity
    is [None].  [append_contents] shows that appending never writes past the
    storage and is list concatenation, which is how Resp.v and RedisCodec.v use it.

    [UniqueArray] is the chunked array of the decoder, whose copies are moves.  A
    node is its elements; a null or missing node, or a full one, is [None].
    [push_capacity] is the exact number of elements that fit after [reserve]:
    enough for the decoder, which reserves the announced size first, and only
    eight when nothing was reserved. *)
From Stdlib Require Import ZArith Lia.
From stdpp Require Import base option list.
From S2P Require Import Prelude.

Module RespBuffer.

Definition RESP_SMALL_BUFFER_SIZE : Z := 64.

Record buffer := mkBuffer { capacity_ : Z; bytes : list Z }.

Definition empty_buffer : buffer := mkBuffer 0 [].
Definition buffer_ref (bs : list Z) : buffer := mkBuffer 0 bs.
Definition size (b : buffer) : Z := zlen (bytes b).

Definition is_ref (b : buffer) : bool := capacity_ b =? 0.
Definition is_small (b : buffer) : bool := (0 <? capacity_ b) && (capacity_ b <=? RESP_SMALL_BUFFER_SIZE).
Definition is_large (b : buffer) : bool := RESP_SMALL_BUFFER_SIZE <? capacity_ b.

(** [move(des, src)], which first frees what [des] holds. *)
Definition move (src : buffer) : buffer * buffer :=
  if is_ref src then (mkBuffer 0 (bytes src), mkBuffer 0 [])
  else if is_small src then (mkBuffer RESP_SMALL_BUFFER_SIZE (bytes src), mkBuffer 0 [])
  else (mkBuffer (capacity_ src) (bytes src), mkBuffer 0 []).

Definition copy_from (other : buffer) : option buffer :=
  if negb (is_ref other) && (capacity_ other <? size other) then None
  else Some (mkBuffer (capacity_ other) (bytes other)).

Definition assign (b rhs : buffer) : option buffer :=
  let cap := if is_ref rhs then 0
             else if is_small rhs then RESP_SMALL_BUFFER_SIZE
             else if capacity_ b <? capacity_ rhs then capacity_ rhs else capacity_ b in
  if negb (cap =? 0) && (cap <? size rhs) then None else Some (mkBuffer cap (bytes rhs)).

Definition clear (b : buffer) : buffer := mkBuffer (capacity_ b) [].
Definition reset (b : buffer) : buffer := mkBuffer 0 [].

Definition reserve (capacity : Z) (b : buffer) : buffer :=
  if capacity_ b <? capacity then
    let capacity := if capacity mod RESP_SMALL_BUFFER_SIZE =? 0 then capacity
                    else u64 (RESP_SMALL_BUFFER_SIZE * (capacity / RESP_SMALL_BUFFER_SIZE + 1)) in
    if is_ref b || is_small b then
      mkBuffer (if RESP_SMALL_BUFFER_SIZE <? capacity then capacity else RESP_SMALL_BUFFER_SIZE) (bytes b)
    else mkBuffer capacity (bytes b)
  else b.

(** The five [append] overloads differ in how the bytes are given. *)
Definition append (data : list Z) (b : buffer) : option buffer :=
  let b := reserve (u64 (size b + zlen data)) b in
  if capacity_ b <? size b + zlen data then None else Some (mkBuffer (capacity_ b) (bytes b ++ data)).

(** A buffer that owns its storage owns whole blocks, and enough of them. *)
Definition wf (b : buffer) : Prop :=
  capacity_ b = 0 \/ (capacity_ b mod 64 = 0 /\ 0 < capacity_ b /\ size b <= capacity_ b).

Lemma round_up n : 0 <= n < 2 ^ 63 ->
  let c := if n mod 64 =? 0 then n else u64 (64 * (n / 64 + 1)) in n <= c /\ c mod 64 = 0.
Proof.
  intros Hn c; subst c; destruct (Z.eqb_spec (n mod 64) 0); [lia|].
  pose proof (Z.div_mod n 64); pose proof (Z.mod_pos_bound n 64).
  unfold u64; rewrite Z.mod_small by lia; split; [lia|]. rewrite Z.mul_comm; by apply Z_mod_mult.
Qed.

Lemma reserve_spec n b : 0 <= n < 2 ^ 63 -> wf b ->
  bytes (reserve n b) = bytes b /\ n <= capacity_ (reserve n b) /\ (n < size b \/ wf (reserve n b)).
Proof.
  intros Hn Hb; unfold reserve; destruct (Z.ltb_spec (capacity_ b) n) as [Hc|Hc]; [|split_and!; [done|lia|by right]].
  destruct (round_up n Hn) as [H1 H2]; change RESP_SMALL_BUFFER_SIZE with 64 in *.
  revert H1 H2; generalize (if n mod 64 =? 0 then n else u64 (64 * (n / 64 + 1))); intros c H1 H2.
  assert (0 <= capacity_ b) by (destruct Hb as [->|]; lia).
  destruct (is_ref b || is_small b); cbn [bytes capacity_]; [destruct (Z.ltb_spec 64 c)|];
    (split; [done|]; split; [lia|]); unfold wf, size; cbn [bytes capacity_];
    (destruct (Z.lt_ge_cases n (zlen (bytes b))); [by left|]); right; right; split_and!; done || lia.
Qed.

(** Appending never writes past the storage: the contents are the two lists, one
    after the other, and the storage stays whole blocks. *)
Theorem append_contents (b : buffer) (data : list Z) :
  wf b -> size b + zlen data < 2 ^ 63 ->
  exists b', append data b = Some b' /\ bytes b' = bytes b ++ data /\ wf b'.
Proof.
  intros Hb Hs; unfold append; pose proof (Zle_0_nat (length data)); pose proof (Zle_0_nat (length (bytes b))).
  unfold u64; rewrite Z.mod_small by (unfold size in *; lia).
  destruct (reserve_spec (size b + zlen data) b) as (E & Hc & Hw); [unfold size in *; lia|done|].
  set (b' := reserve (size b + zlen data) b) in *.
  replace (size b') with (size b) by (unfold size; by rewrite E).
  destruct (Z.ltb_spec (capacity_ b') (size b + zlen data)); [lia|].
  eexists; split; [done|]; cbn [bytes]; rewrite E; split; [done|].
  destruct Hw as [?|[Hw|(K1 & K2 & _)]]; [unfold size in *; lia| |].
  - by left.
  - right; unfold size in *; cbn [bytes capacity_]; rewrite length_app; lia.
Qed.

Lemma append_contents_witness :
  exists b', append (replicate 40 7) (mkBuffer 64 (replicate 60 5)) = Some b' /\
    bytes b' = replicate 60 5 ++ replicate 40 7 /\ wf b'.
Proof. apply (append_contents (mkBuffer 64 (replicate 60 5)) (replicate 40 7)); [right|]; vm_compute; auto; split_and!; auto; discriminate. Defined.

(** Moves, copies and assignments keep the contents and the block structure. *)
Theorem transfers_keep (b c : buffer) :
  wf b -> wf c ->
  (bytes (move b).1 = bytes b /\ wf (move b).1 /\ bytes (move b).2 = [] /\ is_ref (move b).2 = true) /\
  (exists d, copy_from b = Some d /\ bytes d = bytes b /\ wf d) /\
  (exists d, assign c b = Some d /\ bytes d = bytes b /\ wf d).
Proof.
  intros Hb Hc; unfold wf, size in *; split; [|split].
  - unfold move, is_ref, is_small; change RESP_SMALL_BUFFER_SIZE with 64.
    destruct (Z.eqb_spec (capacity_ b) 0); [by auto|]; destruct Hb as [|(H1 & H2 & H3)]; [lia|].
    destruct (_ && _) eqn:E; cbn; (split; [done|]); (split; [|done]); right; [|done].
    assert (capacity_ b = 64) by (pose proof (Z.div_mod (capacity_ b) 64); lia); split_and!; try done; lia.
  - exists (mkBuffer (capacity_ b) (bytes b)); split; [|by auto].
    unfold copy_from, is_ref, size; destruct (Z.eqb_spec (capacity_ b) 0); [done|].
    destruct Hb as [|(H1 & H2 & H3)]; [lia|]; by destruct (Z.ltb_spec (capacity_ b) (zlen (bytes b))); [lia|].
  - unfold assign, is_ref, is_small, size; change RESP_SMALL_BUFFER_SIZE with 64.
    destruct (Z.eqb_spec (capacity_ b) 0) as [E|E]; [eexists; split; [done|]; by auto|].
    destruct Hb as [|(H1 & H2 & H3)]; [lia|].
    assert (forall cap, cap mod 64 = 0 -> 0 < cap -> zlen (bytes b) <= cap ->
      exists d, (if negb (cap =? 0) && (cap <? zlen (bytes b)) then None else Some (mkBuffer cap (bytes b))) = Some d
        /\ bytes d = bytes b /\ (capacity_ d = 0 \/ (capacity_ d mod 64 = 0 /\ 0 < capacity_ d /\ zlen (bytes d) <= capacity_ d)))
      as K.
    { intros cap K1 K2 K3; destruct (Z.ltb_spec cap (zlen (bytes b))); [lia|]; rewrite andb_false_r.
      eexists; split; [done|]; by auto. }
    destruct ((0 <? capacity_ b) && (capacity_ b <=? 64)) eqn:Es; [apply K; try done; pose proof (Z.div_mod (capacity_ b) 64); lia|].
    destruct (Z.ltb_spec (capacity_ c) (capacity_ b)); [by apply K|].
    destruct Hc as [|(K1 & K2 & K3)]; [lia|]; apply K; [done|done|lia].
Qed.

Lemma transfers_keep_witness :
  (bytes (move (mkBuffer 64 [1])).1 = [1] /\ wf (move (mkBuffer 64 [1])).1 /\ bytes (move (mkBuffer 64 [1])).2 = [] /\
    is_ref (move (mkBuffer 64 [1])).2 = true) /\
  (exists d, copy_from (mkBuffer 64 [1]) = Some d /\ bytes d = [1] /\ wf d) /\
  (exists d, assign (mkBuffer 0 [2]) (mkBuffer 64 [1]) = Some d /\ bytes d = [1] /\ wf d).
Proof.
  apply (transfers_keep (mkBuffer 64 [1]) (mkBuffer 0 [2])); [right|by left];
    vm_compute; split_and!; auto; discriminate.
Defined.
End RespBuffer.

Module UniqueArray.
#[local] Open Scope nat_scope.

Definition NODE_CAPACITY : nat := 8.

Section Array.
Context {T : Type}.

Record unique_array := mkArray { index_ : list (list T); node_size_ : nat; size_ : nat }.

Definition empty_array : unique_array := mkArray [] 0 0.

(** The copy constructor takes the nodes and leaves the source empty. *)
Definition take_array (other : unique_array) : unique_array * unique_array := (other, empty_array).

Definition get (i : nat) (a : unique_array) : option T :=
  if i <? size_ a then
    let node_index := i / NODE_CAPACITY in
    if node_index <? node_size_ a then
      node ← index_ a !! node_index; node !! (i mod NODE_CAPACITY)
    else None
  else None.

Definition grow (n : nat) (a : unique_array) : unique_array :=
  mkArray (index_ a ++ replicate n []) (node_size_ a) (size_ a).

Definition reserve (capacity : nat) (a : unique_array) : unique_array :=
  let curr_capacity := node_size_ a * NODE_CAPACITY in
  if curr_capacity <? capacity then
    let incr_size := capacity - curr_capacity in
    let base_size := incr_size / NODE_CAPACITY in
    grow (if incr_size mod NODE_CAPACITY =? 0 then base_size else base_size + 1) a
  else a.

Definition push_back (t : T) (a : unique_array) : option unique_array :=
  let a := reserve (size_ a + 1) a in
  let curr_node := if node_size_ a =? 0 then 0 else node_size_ a - 1 in
  node ← index_ a !! curr_node;
  if length node =? NODE_CAPACITY then None
  else Some (mkArray (<[curr_node := node ++ [t]]> (index_ a)) ((size_ a + 1) / NODE_CAPACITY + 1) (size_ a + 1)).

(** [clear] empties the nodes and leaves [size_] and [node_size_] as they are. *)
Definition clear (a : unique_array) : option unique_array :=
  if node_size_ a <=? length (index_ a) then
    Some (mkArray (replicate (node_size_ a) [] ++ drop (node_size_ a) (index_ a)) (node_size_ a) (size_ a))
  else None.

Fixpoint push_all (ts : list T) (a : unique_array) : option unique_array :=
  match ts with [] => Some a | t :: ts => a ← push_back t a; push_all ts a end.

(** ** The layout *)

Definition chunks (N : nat) (ts : list T) : list (list T) := map (fun j => take 8 (drop (8 * j) ts)) (seq 0 N).

Lemma chunks_lookup N ts i : chunks N ts !! i = if i <? N then Some (take 8 (drop (8 * i) ts)) else None.
Proof.
  unfold chunks; rewrite list_lookup_fmap; destruct (Nat.ltb_spec i N); [by rewrite lookup_seq_lt by lia|].
  by rewrite lookup_seq_ge by lia.
Qed.

Lemma chunks_nil N : chunks N [] = replicate N [].
Proof.
  apply list_eq; intros i; rewrite chunks_lookup; destruct (Nat.ltb_spec i N).
  - by rewrite lookup_replicate_2, drop_nil by lia.
  - symmetry; apply lookup_replicate_None; lia.
Qed.

Lemma last_chunk (ts : list T) : take 8 (drop (8 * (length ts / 8)) ts) = drop (8 * (length ts / 8)) ts.
Proof. pose proof (Nat.div_mod_eq (length ts) 8); pose proof (Nat.mod_upper_bound (length ts) 8);
  apply take_ge; rewrite length_drop; lia. Qed.

Lemma last_chunk_length (ts : list T) : length (drop (8 * (length ts / 8)) ts) < 8.
Proof. pose proof (Nat.div_mod_eq (length ts) 8); pose proof (Nat.mod_upper_bound (length ts) 8);
  rewrite length_drop; lia. Qed.

Lemma chunks_snoc N ts t : length ts / 8 < N ->
  <[length ts / 8 := drop (8 * (length ts / 8)) ts ++ [t]]> (chunks N ts) = chunks N (ts ++ [t]).
Proof.
  intros Hq; pose proof (Nat.div_mod_eq (length ts) 8) as Hd; pose proof (Nat.mod_upper_bound (length ts) 8).
  apply list_eq; intros i; rewrite chunks_lookup; destruct (decide (i = length ts / 8)) as [->|Hi].
  - rewrite list_lookup_insert_eq by (unfold chunks; by rewrite length_map, length_seq).
    destruct (Nat.ltb_spec (length ts / 8) N); [|lia]; rewrite drop_app_le by lia; f_equal.
    rewrite take_ge; [done|]; rewrite length_app; pose proof (last_chunk_length ts); cbn [length]; lia.
  - rewrite list_lookup_insert_ne, chunks_lookup by done; destruct (i <? N); [|done]; f_equal.
    assert (i < length ts / 8 \/ length ts / 8 < i) as [Hlt|Hgt] by lia.
    + by rewrite drop_app_le, take_app_le by (rewrite ?length_drop; lia).
    + rewrite !drop_ge by (rewrite ?length_app; cbn [length]; lia); done.
Qed.

(** [ts] is stored in [N] nodes. *)
Definition holds (N : nat) (ts : list T) (a : unique_array) : Prop :=
  index_ a = chunks N ts /\ size_ a = length ts /\ node_size_ a = length ts / 8 + 1.

Lemma push_holds N ts t a : holds N ts a ->
  (length ts / 8 < N -> exists a', push_back t a = Some a' /\ holds N (ts ++ [t]) a') /\
  (N <= length ts / 8 -> push_back t a = None).
Proof.
  intros (Hi & Hs & Hn); unfold push_back, reserve; rewrite Hn, Hs; change NODE_CAPACITY with 8.
  pose proof (Nat.div_mod_eq (length ts) 8); pose proof (Nat.mod_upper_bound (length ts) 8).
  destruct (Nat.ltb_spec ((length ts / 8 + 1) * 8) (length ts + 1)); [lia|].
  rewrite Hn, Hs, Hi; destruct (Nat.eqb_spec (length ts / 8 + 1) 0); [lia|].
  rewrite Nat.add_sub, chunks_lookup; split; intros Hq.
  - destruct (Nat.ltb_spec (length ts / 8) N); [|lia]; cbn [mbind option_bind].
    rewrite last_chunk; destruct (Nat.eqb_spec (length (drop (8 * (length ts / 8)) ts)) 8);
      [pose proof (last_chunk_length ts); lia|].
    eexists; split; [done|]; rewrite chunks_snoc by done; unfold holds; cbn [index_ size_ node_size_].
    by rewrite length_app.
  - by destruct (Nat.ltb_spec (length ts / 8) N); [lia|].
Qed.

Lemma push_all_holds N us : forall ts a, holds N ts a -> ts <> [] ->
  (length (ts ++ us) <= 8 * N -> exists a', push_all us a = Some a' /\ holds N (ts ++ us) a') /\
  (8 * N < length (ts ++ us) -> length ts <= 8 * N -> push_all us a = None).
Proof.
  induction us as [|u us IH]; intros ts a Ha Hne; rewrite length_app; cbn [length push_all].
  { rewrite app_nil_r; split; [by exists a|lia]. }
  pose proof (Nat.div_mod_eq (length ts) 8); pose proof (Nat.mod_upper_bound (length ts) 8).
  destruct (push_holds N ts u a Ha) as [H1 H2].
  destruct (decide (length ts / 8 < N)) as [Hq|Hq].
  - destruct (H1 Hq) as (a' & -> & Ha'); cbn [mbind option_bind].
    destruct (IH (ts ++ [u]) a' Ha') as [I1 I2]; [by destruct ts|].
    rewrite <- app_assoc, length_app in I1, I2; cbn [app length] in I1, I2; rewrite length_app in I2; cbn [length] in I2.
    split; intros; [apply I1|apply I2]; lia.
  - rewrite H2 by lia; cbn [mbind option_bind]; split; [lia|done].
Qed.

Definition nodes_for (n : nat) : nat := if n mod 8 =? 0 then n / 8 else n / 8 + 1.

Lemma first_push n t : exists a, push_back t (reserve n empty_array) = Some a /\ holds (nodes_for n + 1) [t] a.
Proof.
  assert (reserve n empty_array = mkArray (chunks (nodes_for n) []) 0 0) as ->.
  { unfold reserve, grow, nodes_for; cbn [node_size_ size_ index_ empty_array]; change NODE_CAPACITY with 8.
    rewrite Nat.mul_0_l, Nat.sub_0_r, chunks_nil; by destruct (Nat.ltb_spec 0 n); [|replace n with 0 by lia]. }
  unfold push_back; cbn [size_].
  assert (reserve (0 + 1) (mkArray (chunks (nodes_for n) []) 0 0) = mkArray (chunks (nodes_for n + 1) (@nil T)) 0 0) as ->
    by (rewrite !chunks_nil, replicate_add; done).
  cbn [node_size_ size_ index_].
  cbn [Nat.eqb]; rewrite chunks_lookup; destruct (Nat.ltb_spec 0 (nodes_for n + 1)); [|lia]; cbn [mbind option_bind].
  change (take 8 (drop (8 * 0) (@nil T))) with (@nil T); eexists; split; [done|]; split; [|done].
  exact (chunks_snoc (nodes_for n + 1) [] t H).
Qed.

Lemma get_holds N ts a i : holds N ts a -> length ts <= 8 * N -> i < length ts -> get i a = ts !! i.
Proof.
  intros (Hi & Hs & Hn) HN Hl; unfold get; rewrite Hs, Hn, Hi; change NODE_CAPACITY with 8.
  pose proof (Nat.div_mod_eq i 8); pose proof (Nat.mod_upper_bound i 8).
  destruct (Nat.ltb_spec i (length ts)); [|lia].
  destruct (Nat.ltb_spec (i / 8) (length ts / 8 + 1)); [|pose proof (Nat.Div0.div_le_mono i (length ts) 8); lia].
  rewrite chunks_lookup; destruct (Nat.ltb_spec (i / 8) N); [|lia]; cbn [mbind option_bind].
  rewrite lookup_take_lt, lookup_drop by lia; f_equal; lia.
Qed.

(** After [reserve(n)], the array takes exactly the elements that fit into the
    nodes for [n] and one more node, and gives them back by index; one more is an
    access past the node table. *)
Theorem push_capacity (n : nat) (ts : list T) :
  (length ts <= 8 * (nodes_for n + 1) -> exists a, push_all ts (reserve n empty_array) = Some a /\
     size_ a = length ts /\ forall i, i < length ts -> get i a = ts !! i) /\
  (8 * (nodes_for n + 1) < length ts -> push_all ts (reserve n empty_array) = None).
Proof.
  destruct ts as [|t ts].
  { split; [|cbn; lia]; intros _; eexists; split; [done|]; split; [|cbn; lia].
    unfold reserve; by destruct (_ <? _). }
  cbn [push_all]; destruct (first_push n t) as (a & -> & Ha); cbn [mbind option_bind].
  destruct (push_all_holds (nodes_for n + 1) ts [t] a Ha) as [H1 H2]; [done|]; change ([t] ++ ts) with (t :: ts) in *.
  split; [|intros; apply H2; cbn [length] in *; lia].
  intros Hl; destruct (H1 Hl) as (a' & -> & Ha'); exists a'; split; [done|]; split; [apply Ha'|].
  intros i; by apply (get_holds _ _ _ _ Ha').
Qed.

End Array.
Arguments unique_array : clear implicits.

(** The announced size is always enough room, and nothing reserved is room for eight. *)
Lemma nodes_enough n : n <= 8 * (nodes_for n + 1).
Proof.
  pose proof (Nat.div_mod_eq n 8); pose proof (Nat.mod_upper_bound n 8); unfold nodes_for.
  destruct (_ =? _); lia.
Qed.

(** An array that was not reserved fails at the ninth element. *)
Theorem ninth_element_fails :
  push_all (repeat 7%Z 8) empty_array <> None /\ push_all (repeat 7%Z 9) empty_array = None.
Proof. split; vm_compute; [discriminate|reflexivity]. Qed.

(** [clear] keeps the size: the elements it promises are gone. *)
Theorem clear_keeps_size :
  exists a b, push_all [1; 2; 3]%Z empty_array = Some a /\ clear a = Some b /\ size_ b = 3 /\ get 0 b = None.
Proof. eexists _, _; split_and!; vm_compute; reflexivity. Qed.
End UniqueArray.
