(* ===== verification/RedisCodec.v ===== *)
(** The redis client codec (src/net_io/codec/redis/{redis_request,redis_response,
    resp_codec_service}.{h,cc}) and the RESP encoder it uses
    (src/thirdparty/resp/resp/encoder.hpp).

    A request is a list of commands, encoded one after the other; the service
    sends it, counts the replies it is to get and hands them over as one response.
    A connection that needs a password or a database first sends its own request
    and is ready when the replies to it are in.  The reaction of the outside world
    to a notice of the service is an argument ([react]), since it may call back
    into the service before the notice returns.

    [request_wire] shows that the commands of a request are on the wire as the
    arrays of bulk strings the server expects; [replies_delivered] that the
    replies are delivered as one response, in order, however their bytes are cut;
    [handshake] what the replies to the service's own request do.  [pipelined_reply_lost] is a flaw: the request that a handler
    sends while it is told of a response is forgotten. *)
From Stdlib Require Import ZArith Lia.
From Stdlib Require String.
From stdpp Require Import base option list gmap.
From S2P Require Import Prelude StrUtils IOBuffer Channel Codec UrlUtils Resp.
Import IOBuffer StrUtils FdEvent TcpChannel Codec Resp.
#[local] Open Scope string_scope.
#[local] Open Scope list_scope.
#[local] Open Scope Z_scope.

(* ------------------------------------------------------------------ *)
(** * The encoder *)
Module RespEncoder.

Definition RESP_LARGE_BUFFER_SIZE : Z := 1024.

(** Append to the last buffer; [None] for [back()] of an empty vector. *)
Fixpoint on_back (bs : list Z) (buffers : list (list Z)) : option (list (list Z)) :=
  match buffers with
  | [] => None
  | [b] => Some [b ++ bs]
  | b :: buffers => buffers ← on_back bs buffers; Some (b :: buffers)
  end.

Definition append_size (buffers : list (list Z)) (ty : Z) (size : Z) : option (list (list Z)) :=
  let buffers := match buffers with [] => [[]] | _ => buffers end in
  buffers ← on_back [ty] buffers;
  buffers ← on_back (to_string (u32 size)) buffers;
  on_back [13; 10] buffers.

Definition append (buffers : list (list Z)) (arg : list Z) : option (list (list Z)) :=
  buffers ← append_size buffers 36 (zlen arg);
  if RESP_LARGE_BUFFER_SIZE <? zlen arg then Some ((buffers ++ [arg]) ++ [[13; 10]])
  else
    buffers ← on_back arg buffers;
    on_back [13; 10] buffers.

Fixpoint append_all (buffers : list (list Z)) (args : list (list Z)) : option (list (list Z)) :=
  match args with [] => Some buffers | a :: args => buffers ← append buffers a; append_all buffers args end.

(** The static [encode(buffers, cmd, args)]. *)
Definition encode_into (buffers : list (list Z)) (cmd : list Z) (args : list (list Z)) : option (list (list Z)) :=
  buffers ← append_size buffers 42 (zlen args + 1);
  buffers ← append buffers cmd;
  append_all buffers args.

(** [encode(cmd, arg1, .., argn)], the six overloads. *)
Definition encode (cmd : list Z) (args : list (list Z)) : option (list (list Z)) :=
  buffers ← append_size [] 42 (zlen args + 1);
  append_all buffers (cmd :: args).

(** An encoder: the vector it is building into, when [begin] was called, and the
    queued arguments. *)
Record encoder := mkEncoder { buffers_ : option (list (list Z)); cmd_args_ : list (list Z) }.

Definition encoder_new : encoder := mkEncoder None [].

Definition begin (e : encoder) : option encoder :=
  match buffers_ e with None => Some (mkEncoder (Some []) (cmd_args_ e)) | Some _ => None end.
Definition cmd (e : encoder) : option encoder :=
  match cmd_args_ e with [] => Some e | _ => None end.
Definition arg (e : encoder) (a : list Z) : encoder := mkEncoder (buffers_ e) (cmd_args_ e ++ [a]).
Definition command_end (name : list Z) (e : encoder) : option encoder :=
  buffers ← buffers_ e;
  buffers ← encode_into buffers name (cmd_args_ e);
  Some (mkEncoder (Some buffers) []).
Definition end_ (e : encoder) : option (list (list Z) * encoder) :=
  buffers ← buffers_ e; Some (buffers, mkEncoder None (cmd_args_ e)).

(** [begin], [cmd(name)], [arg] for each argument, [command::end] and [end]. *)
Definition encode_queued (name : list Z) (args : list (list Z)) (e : encoder) : option (list (list Z) * encoder) :=
  e ← begin e;
  e ← cmd e;
  e ← command_end name (foldl arg e args);
  end_ e.

(** ** What is encoded *)

(** A command as a value: the array of its words. *)
Definition command_value (words : list (list Z)) : value := Arr (map Bulk words).

Definition words_ok (words : list (list Z)) : Prop :=
  zlen words < 2 ^ 32 /\ Forall (fun w => zlen w < 2 ^ 32) words.

Lemma on_back_ok bs buffers : buffers <> [] ->
  exists b', on_back bs buffers = Some b' /\ concat b' = concat buffers ++ bs /\ b' <> [].
Proof.
  induction buffers as [|b [|b2 bufs] IH]; intros H; [done| |].
  - exists [b ++ bs]; cbn; by rewrite !app_nil_r.
  - destruct IH as (b' & E & Hc & Hn); [done|]; exists (b :: b'); cbn [on_back] in *; rewrite E; cbn [mbind option_bind].
    split_and!; [done| |done]; cbn [concat] in *; by rewrite Hc, <- !app_assoc.
Qed.

Lemma append_size_ok buffers ty n : 0 <= n < 2 ^ 32 ->
  exists b', append_size buffers ty n = Some b' /\ b' <> [] /\
    concat b' = concat buffers ++ [ty] ++ to_string n ++ [13; 10].
Proof.
  intros Hn; unfold append_size.
  assert (exists b0, match buffers with [] => [[]] | _ => buffers end = b0 /\ b0 <> [] /\ concat b0 = concat buffers)
    as (b0 & -> & H0 & C0) by (destruct buffers; eexists; done).
  replace (u32 n) with n by (unfold u32; symmetry; apply Z.mod_small; lia).
  destruct (on_back_ok [ty] b0 H0) as (b1 & -> & C1 & H1); cbn [mbind option_bind].
  destruct (on_back_ok (to_string n) b1 H1) as (b2 & -> & C2 & H2); cbn [mbind option_bind].
  destruct (on_back_ok [13; 10] b2 H2) as (b3 & -> & C3 & H3).
  exists b3; split_and!; [done|done|]; by rewrite C3, C2, C1, C0, <- !app_assoc.
Qed.

Lemma append_ok buffers a : zlen a < 2 ^ 32 ->
  exists b', append buffers a = Some b' /\ b' <> [] /\ concat b' = concat buffers ++ wire (Bulk a).
Proof.
  intros Ha; unfold append; destruct (append_size_ok buffers 36 (zlen a)) as (b1 & -> & H1 & C1); [lia|].
  cbn [mbind option_bind]; destruct (_ <? _).
  - eexists; split; [done|]; split; [by destruct b1|].
    rewrite !concat_app, C1; cbn [concat wire]; rewrite !app_nil_r, <- !app_assoc; done.
  - destruct (on_back_ok a b1 H1) as (b2 & -> & C2 & H2); cbn [mbind option_bind].
    destruct (on_back_ok [13; 10] b2 H2) as (b3 & -> & C3 & H3); exists b3; split_and!; [done|done|].
    rewrite C3, C2, C1; cbn [wire]; rewrite <- !app_assoc; done.
Qed.

Lemma append_all_ok args : Forall (fun w => zlen w < 2 ^ 32) args -> forall buffers,
  exists b', append_all buffers args = Some b' /\ concat b' = concat buffers ++ concat (map wire (map Bulk args)).
Proof.
  induction 1 as [|a args Ha _ IH]; intros buffers; cbn [append_all map concat]; [exists buffers; by rewrite app_nil_r|].
  destruct (append_ok buffers a Ha) as (b1 & -> & H1 & C1); cbn [mbind option_bind].
  destruct (IH b1) as (b2 & -> & C2); exists b2; split; [done|]; by rewrite C2, C1, <- app_assoc.
Qed.

Lemma encode_into_ok buffers c args : words_ok (c :: args) ->
  exists b', encode_into buffers c args = Some b' /\ concat b' = concat buffers ++ wire (command_value (c :: args)).
Proof.
  intros [Hn Hw]; unfold encode_into; destruct (append_size_ok buffers 42 (zlen args + 1)) as (b1 & -> & H1 & C1);
    [cbn [length] in Hn; lia|]; cbn [mbind option_bind].
  change (b ← append b1 c; append_all b args) with (append_all b1 (c :: args)).
  destruct (append_all_ok (c :: args) Hw b1) as (b2 & -> & C2); exists b2; split; [done|].
  rewrite C2, C1; unfold command_value; cbn [wire]; rewrite length_map; cbn [length].
  replace (Z.of_nat (S (length args))) with (zlen args + 1) by lia; rewrite <- !app_assoc; done.
Qed.

Lemma encode_eq c args : encode c args = encode_into [] c args.
Proof. reflexivity. Qed.

Lemma foldl_arg args : forall e, foldl arg e args = mkEncoder (buffers_ e) (cmd_args_ e ++ args).
Proof.
  induction args as [|a args IH]; intros [b c]; cbn [foldl]; [by rewrite app_nil_r|].
  rewrite IH; cbn; by rewrite <- app_assoc.
Qed.

Lemma encode_queued_ok c args : words_ok (c :: args) ->
  exists b', encode_queued c args encoder_new = Some (b', encoder_new) /\ concat b' = wire (command_value (c :: args)).
Proof.
  intros H; unfold encode_queued; cbn [begin encoder_new buffers_ mbind option_bind cmd cmd_args_].
  rewrite foldl_arg; unfold command_end; cbn [buffers_ cmd_args_ mbind option_bind app].
  destruct (encode_into_ok [] c args H) as (b' & -> & C); exists b'; done.
Qed.
End RespEncoder.

(* ------------------------------------------------------------------ *)
(** * Requests and responses *)
Module RedisMessage.
Import RespEncoder.

Record RedisRequest := mkRequest { body_ : list Z; cmd_counter_ : Z; encoder_ : encoder }.

Definition RedisRequest_new : RedisRequest := mkRequest [] 0 encoder_new.

(** The methods of the class; the number of [IncrByFloat] is given as the text
    [std::to_string] makes of it. *)
Inductive method :=
  | Get (key : list Z) | MGet (keys : list (list Z))
  | Set_ (key value : list Z) | SetWithExpire (key value : list Z) (second : Z)
  | MSet (kvs : list (list Z * list Z))
  | Exists (key : list Z) | Delete (key : list Z)
  | Incr (key : list Z) | IncrBy (key : list Z) (by_ : Z) | IncrByFloat (key by_ : list Z)
  | Decr (key : list Z) | DecrBy (key : list Z) (by_ : Z)
  | Select (db : list Z) | Auth (password : list Z)
  | TTL (key : list Z) | Persist (key : list Z) | Expire (key : list Z) (second : Z)
  | Ping.

(** [for (auto& buffer : buffers) body_.append(..); cmd_counter_++;] *)
Definition add_command (buffers : list (list Z)) (r : RedisRequest) : RedisRequest :=
  mkRequest (body_ r ++ concat buffers) (u32 (cmd_counter_ r + 1)) (encoder_ r).

Definition add_encoded (cmd : String.string) (args : list (list Z)) (r : RedisRequest) : option RedisRequest :=
  buffers ← encode (str cmd) args; Some (add_command buffers r).

Definition add_queued (cmd : String.string) (args : list (list Z)) (r : RedisRequest) : option RedisRequest :=
  '(buffers, e) ← encode_queued (str cmd) args (encoder_ r);
  Some (add_command buffers (mkRequest (body_ r) (cmd_counter_ r) e)).

Definition perform (m : method) (r : RedisRequest) : option RedisRequest :=
  match m with
  | Get key => add_encoded "GET" [key] r
  | MGet keys => add_queued "MGET" keys r
  | Set_ key value => add_encoded "SET" [key; value] r
  | SetWithExpire key value second => add_encoded "SET" [key; value; str "EX"; to_string (u32 second)] r
  | MSet kvs => add_queued "MSET" (concat (map (fun kv => [kv.1; kv.2]) kvs)) r
  | Exists key => add_encoded "EXISTS" [key] r
  | Delete key => add_encoded "DEL" [key] r
  | Incr key => add_encoded "INCR" [key] r
  | IncrBy key by_ => add_encoded "INCRBY" [key; to_string (u64 by_)] r
  | IncrByFloat key by_ => add_encoded "INCRBYFLOAT" [key; by_] r
  | Decr key => add_encoded "DECR" [key] r
  | DecrBy key by_ => add_encoded "DECRBY" [key; to_string (u64 by_)] r
  | Select db => add_encoded "SELECT" [db] r
  | Auth password => add_encoded "AUTH" [password] r
  | TTL key => add_encoded "TTL" [key] r
  | Persist key => add_encoded "PERSIST" [key] r
  | Expire key second => add_encoded "EXPIRE" [key; to_string (u64 second)] r
  | Ping => add_encoded "PING" [] r
  end.

Fixpoint perform_all (ms : list method) (r : RedisRequest) : option RedisRequest :=
  match ms with [] => Some r | m :: ms => r ← perform m r; perform_all ms r end.

Definition AsHeartbeat (r : RedisRequest) : option RedisRequest :=
  perform Ping (mkRequest [] 0 (encoder_ r)).

Definition RedisRequest_IsHeartbeat (r : RedisRequest) : bool := bool_decide (body_ r = str "PING").

(** ** Responses *)

Record RedisResponse := mkResponse { results_ : list value }.

Definition AddResult (v : value) (r : RedisResponse) : RedisResponse := mkResponse (results_ r ++ [v]).
Definition Count (r : RedisResponse) : Z := zlen (results_ r).

(** A buffer is not terminated: [strncmp(s.data(), ..)] goes on into the bytes
    that follow the contents in memory, [past s]. *)
Definition memory_prefix (past : list Z -> list Z) (s : list Z) (n : nat) : list Z := take n (s ++ past s).

Definition RedisResponse_IsHeartbeat (past : list Z -> list Z) (r : RedisResponse) : bool :=
  match results_ r with
  | [Str s] => bool_decide (map tolower (memory_prefix past s 4) = str "pong")
  | _ => false
  end.

Definition value_type (v : value) : Z :=
  match v with Null => 0 | Str _ => 1 | Err _ => 2 | Integer _ => 3 | Bulk _ => 4 | Arr _ => 5 end.

Definition dump_element (v : value) : list Z :=
  match v with
  | Null => str "null"
  | Err s | Str s | Bulk s => str "'" ++ s ++ str "'"
  | _ => str "'unknown type'"
  end.

Fixpoint dump_elements (vs : list value) : list Z :=
  match vs with
  | [] => []
  | [v] => dump_element v
  | v :: vs => dump_element v ++ str ", " ++ dump_elements vs
  end.

(** One line of [DebugDump] and what it leaves of the value: the local copy of an
    array takes its elements. *)
Definition dump_value (i : Z) (v : value) : list Z * value :=
  let line text := str "index:" ++ to_string i ++ str " type:" ++ to_string (value_type v) ++ str " res:" ++ text ++ [10] in
  match v with
  | Err s | Str s | Bulk s => (line s, v)
  | Integer n => (line (to_string n), v)
  | Null => (line (str "null"), v)
  | Arr vs => (line (dump_elements vs), Arr [])
  end.

Fixpoint dump_from (i : Z) (vs : list value) : list Z * list value :=
  match vs with
  | [] => ([], [])
  | v :: vs =>
      let '(t, v) := dump_value i v in
      let '(ts, vs) := dump_from (i + 1) vs in (t ++ ts, v :: vs)
  end.

Definition DebugDump (r : RedisResponse) : list Z * RedisResponse :=
  let '(t, vs) := dump_from 0 (results_ r) in (t, mkResponse vs).

(** ** The commands of a request *)

Definition words (m : method) : list (list Z) :=
  match m with
  | Get key => [str "GET"; key]
  | MGet keys => str "MGET" :: keys
  | Set_ key value => [str "SET"; key; value]
  | SetWithExpire key value second => [str "SET"; key; value; str "EX"; to_string second]
  | MSet kvs => str "MSET" :: concat (map (fun kv => [kv.1; kv.2]) kvs)
  | Exists key => [str "EXISTS"; key]
  | Delete key => [str "DEL"; key]
  | Incr key => [str "INCR"; key]
  | IncrBy key by_ => [str "INCRBY"; key; to_string by_]
  | IncrByFloat key by_ => [str "INCRBYFLOAT"; key; by_]
  | Decr key => [str "DECR"; key]
  | DecrBy key by_ => [str "DECRBY"; key; to_string by_]
  | Select db => [str "SELECT"; db]
  | Auth password => [str "AUTH"; password]
  | TTL key => [str "TTL"; key]
  | Persist key => [str "PERSIST"; key]
  | Expire key second => [str "EXPIRE"; key; to_string second]
  | Ping => [str "PING"]
  end.

(** Arguments of the types of the methods, and sizes the encoder's 32-bit count
    can print. *)
Definition method_ok (m : method) : Prop :=
  words_ok (words m) /\
  match m with
  | SetWithExpire _ _ n => 0 <= n < 2 ^ 32
  | IncrBy _ n | DecrBy _ n | Expire _ n => 0 <= n < 2 ^ 64
  | _ => True
  end.

Lemma add_encoded_ok c args r : words_ok (str c :: args) ->
  add_encoded c args r =
    Some (mkRequest (body_ r ++ wire (command_value (str c :: args))) (u32 (cmd_counter_ r + 1)) (encoder_ r)).
Proof.
  intros H; unfold add_encoded; rewrite encode_eq; destruct (encode_into_ok [] (str c) args H) as (b & -> & C).
  cbn [mbind option_bind]; unfold add_command; by rewrite C.
Qed.

Lemma add_queued_ok c args r : words_ok (str c :: args) -> encoder_ r = encoder_new ->
  add_queued c args r =
    Some (mkRequest (body_ r ++ wire (command_value (str c :: args))) (u32 (cmd_counter_ r + 1)) encoder_new).
Proof.
  intros H E; unfold add_queued; rewrite E; destruct (encode_queued_ok (str c) args H) as (b & -> & C).
  cbn [mbind option_bind]; unfold add_command; cbn [body_ cmd_counter_ encoder_]; by rewrite C.
Qed.

Lemma perform_ok m r : method_ok m -> encoder_ r = encoder_new ->
  perform m r = Some (mkRequest (body_ r ++ wire (command_value (words m))) (u32 (cmd_counter_ r + 1)) encoder_new).
Proof.
  intros [Hw Hm] E; rewrite <- E; destruct m; cbn [perform words] in *;
    try (by rewrite add_queued_ok, E); try (by rewrite add_encoded_ok);
    rewrite ?(u64_id second), ?(u64_id by_) by done; try (by rewrite add_encoded_ok).
  replace (u32 second) with second by (unfold u32; symmetry; apply Z.mod_small; done); by rewrite add_encoded_ok.
Qed.

Lemma perform_all_ok ms : Forall method_ok ms -> forall r, encoder_ r = encoder_new -> 0 <= cmd_counter_ r ->
  cmd_counter_ r + zlen ms < 2 ^ 32 ->
  perform_all ms r =
    Some (mkRequest (body_ r ++ concat (map (fun m => wire (command_value (words m))) ms))
            (cmd_counter_ r + zlen ms) encoder_new).
Proof.
  induction 1 as [|m ms Hm _ IH]; intros r E H0 Hn; cbn [perform_all map concat].
  - rewrite app_nil_r; cbn [length]; rewrite Z.add_0_r; destruct r; cbn in *; by subst.
  - cbn [length] in *; rewrite perform_ok by done; cbn [mbind option_bind].
    assert (u32 (cmd_counter_ r + 1) = cmd_counter_ r + 1) as -> by (unfold u32; apply Z.mod_small; lia).
    rewrite IH by (done || cbn [cmd_counter_]; lia); cbn [body_ cmd_counter_]; rewrite <- app_assoc; do 2 f_equal; lia.
Qed.

(** The value of a command is one a RESP decoder reads. *)
Lemma command_sendable ws : words_ok ws -> sendable (command_value ws) = true.
Proof.
  intros [Hn Hw]; unfold command_value; cbn [sendable]; rewrite length_map; apply andb_true_iff; split; [lia|].
  apply forallb_forall; intros v Hv; apply in_map_iff in Hv as (w & <- & Hin); cbn [sendable].
  rewrite Forall_forall in Hw; specialize (Hw w Hin); lia.
Qed.
End RedisMessage.

(* ------------------------------------------------------------------ *)
(** * The service *)
Module RespCodecService.
Import RespEncoder RedisMessage.

Record RespService := mkResp {
  codec : CodecService RedisResponse;
  init_wait_res_flags_ : Z;
  next_incoming_count_ : Z;
  current_response : option RedisResponse;
  decoder_ : decoder;
}.

Definition kWaitNone : Z := 0.
Definition kWaitAuth : Z := 1.
Definition kWaitSelectDB : Z := 2.

Definition set_codec c s := mkResp c (init_wait_res_flags_ s) (next_incoming_count_ s) (current_response s) (decoder_ s).
Definition set_flags f s := mkResp (codec s) f (next_incoming_count_ s) (current_response s) (decoder_ s).
Definition set_next n s := mkResp (codec s) (init_wait_res_flags_ s) n (current_response s) (decoder_ s).
Definition set_current r s := mkResp (codec s) (init_wait_res_flags_ s) (next_incoming_count_ s) r (decoder_ s).
Definition set_decoder d s := mkResp (codec s) (init_wait_res_flags_ s) (next_incoming_count_ s) (current_response s) d.

Definition RespService_new (c : CodecService RedisResponse) : RespService := mkResp c 0 0 None decoder_new.

Definition SendRequest (request : RedisRequest) (s : RespService) : option (bool * RespService) :=
  if negb (next_incoming_count_ s =? 0) then None
  else
    '(rv, c) ← on_channel (TcpChannel.Send (body_ request) (channel_ (codec s))) (codec s);
    let s := set_codec c s in
    if 0 <=? rv then Some (true, set_next (cmd_counter_ request) s) else Some (false, s).

(** [NewHeartbeat]; no message for a server-side service. *)
Definition NewHeartbeat (s : RespService) : option (option RedisRequest) :=
  if server_side_ (codec s) then Some None else r ← AsHeartbeat RedisRequest_new; Some (Some r).

(** [info] is what [delegate_->GetRemoteInfo()] gives. *)
Definition StartProtocolService (info : option UrlUtils.RemoteInfo) (s : RespService) : option RespService :=
  let s := set_codec (StartInternal (codec s)) s in
  match (if has_delegate_ (codec s) then info else None) with
  | None => Some (set_codec (NotifyCodecReady (codec s)) s)
  | Some info =>
      let request := RedisRequest_new in
      '(request, s) ← (match UrlUtils.passwd info with
                       | [] => Some (request, s)
                       | pw => request ← perform (Auth pw) request;
                               Some (request, set_flags (Z.lor (init_wait_res_flags_ s) kWaitAuth) s)
                       end);
      '(request, s) ← (match UrlUtils.queries info !! str "db" with
                       | None | Some [] => Some (request, s)
                       | Some db => request ← perform (Select db) request;
                                    Some (request, set_flags (Z.lor (init_wait_res_flags_ s) kWaitSelectDB) s)
                       end);
      if cmd_counter_ request =? 0 then Some (set_codec (NotifyCodecReady (codec s)) s)
      else
        '(sent, s) ← SendRequest request s;
        if sent : bool then Some (set_next (cmd_counter_ request) s)
        else
          let s := set_flags kWaitNone s in
          let s := set_codec (CloseService false (codec s)) s in
          Some (set_codec (NotifyCodecClosed (codec s)) s)
  end.

Section Receive.
(** What follows the contents of a buffer in memory, and what the outside does to
    the service when it is told of something. *)
Context (past : list Z -> list Z) (react : notice RedisResponse -> RespService -> option RespService).

(** [NotifyCodecReady] and what the delegate does. *)
Definition notify_ready (s : RespService) : option RespService :=
  let c := NotifyCodecReady (codec s) in
  if has_delegate_ c then react Codec.Ready (set_codec c s) else Some (set_codec c s).

Definition reply_ok (v : value) : bool :=
  match v with Str s => bool_decide (memory_prefix past s 2 = str "OK") | _ => false end.

(** Close when the reply at [res_index] is not +OK. *)
Definition HandleInitResponse (response : RedisResponse) (s : RespService) : option RespService :=
  '(closed, res_index, s) ←
    (if Z.testbit (init_wait_res_flags_ s) 0 then
       let s := set_flags (Z.ldiff (init_wait_res_flags_ s) kWaitAuth) s in
       v ← results_ response !! 0%nat;
       if reply_ok v then Some (false, 1%nat, s)
       else Some (true, 1%nat, set_codec (CloseService false (codec s)) s)
     else Some (false, 0%nat, s));
  if closed : bool then Some s
  else
    '(closed, s) ←
      (if Z.testbit (init_wait_res_flags_ s) 1 then
         let s := set_flags (Z.ldiff (init_wait_res_flags_ s) kWaitSelectDB) s in
         v ← results_ response !! res_index;
         if reply_ok v then Some (false, s)
         else Some (true, set_codec (CloseService false (codec s)) s)
       else Some (false, s));
    if closed : bool then Some s else notify_ready s.

Fixpoint receive_loop (fuel : nat) (s : RespService) : option RespService :=
  match fuel with
  | O => None
  | S fuel =>
      let buffer := in_ (channel_ (codec s)) in
      '(d, res) ← Decode (decoder_ s) (contents buffer);
      let s := set_decoder d s in
      match res with
      | Completed n v =>
          let s := set_next (u32 (next_incoming_count_ s - 1)) s in
          let s := set_codec (with_in (Consume (Z.of_nat n) buffer) (codec s)) s in
          r ← current_response s;
          let s := set_current (Some (AddResult v r)) s in
          if 0 <? next_incoming_count_ s then receive_loop fuel s else Some s
      | Incompleted n | Error n => Some (set_codec (with_in (Consume (Z.of_nat n) buffer) (codec s)) s)
      end
  end.

(** The last part of [OnDataReceived]: the response is complete when no reply is
    missing. *)
Definition finish_response (s : RespService) : option RespService :=
  if next_incoming_count_ s =? 0 then
    r ← current_response s;
    s ← (if has_handler_ (codec s) && (init_wait_res_flags_ s =? 0) then
           react (Message r) (set_current None (set_codec (notify (Message r) (codec s)) s))
         else if negb (init_wait_res_flags_ s =? 0) then
           s ← HandleInitResponse r s; Some (set_flags 0 s)
         else Some s);
    Some (set_next 0 (set_current None s))
  else Some s.

(** Every turn of the loop but the last consumes a byte. *)
Definition OnDataReceived (s : RespService) : option RespService :=
  if server_side_ (codec s) then None
  else
    let s := match current_response s with None => set_current (Some (mkResponse [])) s | Some _ => s end in
    s ← receive_loop (S (length (contents (in_ (channel_ (codec s)))))) s;
    finish_response s.

(** Bytes arrive on the connection. *)
Definition arrive (piece : list Z) (s : RespService) : option RespService :=
  b ← WriteRawData piece (in_ (channel_ (codec s)));
  OnDataReceived (set_codec (with_in b (codec s)) s).

Fixpoint arrive_all (pieces : list (list Z)) (s : RespService) : option RespService :=
  match pieces with [] => Some s | p :: pieces => s ← arrive p s; arrive_all pieces s end.
End Receive.

(** ** Replies *)

(** [data] brings the scalar [l] and the arrays [fr] to the end of the first of
    [us], is then the wire format of the others and ends with them. *)
Inductive spells : leaf -> list frame -> list Z -> list value -> Prop :=
  | spells_one l fr data v : feed l fr data = Finished v [] -> spells l fr data [v]
  | spells_more l fr data v rest us :
      feed l fr data = Finished v rest -> spells Start [] rest us -> spells l fr data (v :: us).

Lemma spells_wire vs : vs <> [] -> Forall (fun v => sendable v = true) vs -> spells Start [] (concat (map wire vs)) vs.
Proof.
  intros Hne H; induction H as [|v vs Hv _ IH]; [done|]; cbn [map concat].
  destruct vs as [|v' vs].
  - apply spells_one; cbn [map concat]; rewrite feed_wire by done; done.
  - eapply spells_more; [by rewrite feed_wire|]; by apply IH.
Qed.

Lemma spells_pending l fr l' fr' a b us :
  feed l fr a = Pending l' fr' -> spells l fr (a ++ b) us -> spells l' fr' b us.
Proof.
  intros E H; inversion H; subst; rewrite feed_cut, E in *; [by apply spells_one|by eapply spells_more].
Qed.

(** [n] bytes have gone through the reader buffer and are used; the loop leaves
    the rest alone. *)
Definition same (n : Z) (s s' : RespService) : Prop :=
  exists b, inv b /\ contents b = [] /\ room (in_ (channel_ (codec s))) - n <= room b /\
    codec s' = with_in b (codec s) /\ init_wait_res_flags_ s' = init_wait_res_flags_ s.

(** The service waits for [us] after it has got [rs]. *)
Definition waiting (l : leaf) (fr : list frame) (rs us : list value) (s : RespService) : Prop :=
  inv (in_ (channel_ (codec s))) /\ leaf_of (decoder_ s) l /\ stacks (decoder_ s) fr /\
  current_response s = Some (mkResponse rs) /\ next_incoming_count_ s = zlen us /\ zlen us < 2 ^ 32.

(** All of [rs] are there. *)
Definition complete_with (rs : list value) (s : RespService) : Prop :=
  idle (decoder_ s) /\ current_response s = Some (mkResponse rs) /\ next_incoming_count_ s = 0.

Lemma consume_rest b n rest pre :
  inv b -> contents b = pre ++ rest -> n = length pre ->
  inv (Consume (Z.of_nat n) b) /\ contents (Consume (Z.of_nat n) b) = rest /\ room b - 0 <= room (Consume (Z.of_nat n) b).
Proof.
  intros Hi Hc ->; destruct (Consume_ok b (zlen pre) Hi ltac:(lia)) as (H1 & H2 & H3); split_and!; [done| |lia].
  rewrite H2, Hc; by apply zdrop_app.
Qed.

Lemma receive_loop_spells fuel : forall s l fr rs us more,
  waiting l fr rs us s -> spells l fr (contents (in_ (channel_ (codec s))) ++ more) us ->
  (length (contents (in_ (channel_ (codec s)))) < fuel)%nat ->
  exists s', receive_loop fuel s = Some s' /\ same 0 s s' /\
    ((more = [] /\ complete_with (rs ++ us) s') \/
     exists l' fr' us1 us2, us = us1 ++ us2 /\ waiting l' fr' (rs ++ us1) us2 s' /\ spells l' fr' more us2).
Proof.
  induction fuel as [|fuel IH]; intros s l fr rs us more (Hi & Hl & Hs & Hc & Hn & Hm) Hsp Hf; [lia|].
  cbn [receive_loop]; set (data := contents (in_ (channel_ (codec s)))) in *.
  pose proof (Decode_feed (decoder_ s) l fr data Hl Hs) as Hd; pose proof (feed_suffix l fr data) as Hx.
  destruct (feed l fr data) as [l' fr'|v rest|rest|] eqn:Ef; cbn [agrees] in Hd.
  - destruct Hd as (d & -> & Hl' & Hs'); cbn [mbind option_bind].
    destruct (consume_rest (in_ (channel_ (codec s))) (length data) [] data Hi) as (H1 & H2 & H3); [by rewrite app_nil_r|done|].
    eexists; split; [done|]; split; [by eexists|]; right.
    exists l', fr', [], us; rewrite app_nil_r; split_and!; [done| |by eapply spells_pending].
    by split_and!.
  - destruct Hd as (d & -> & Hl' & Hs'); cbn [mbind option_bind].
    destruct Hx as (c & pre & Ed).
    destruct (consume_rest (in_ (channel_ (codec s))) (length data - length rest) rest (c :: pre) Hi) as (H1 & H2 & H3);
      [done|rewrite Ed; cbn [length]; rewrite length_app; lia|].
    set (b := Consume (Z.of_nat (length data - length rest)) (in_ (channel_ (codec s)))) in *; clearbody b data.
    cbn [current_response set_codec set_next set_decoder]; rewrite Hc; cbn [mbind option_bind].
    revert H2 Ed; inversion Hsp as [? ? ? v' E'|? ? ? v' rest' us' E' Hsp']; subst; intros H2 Ed;
      rewrite feed_cut, Ef in E'; injection E' as -> E'.
    + apply app_eq_nil in E' as [-> ->]; cbn [next_incoming_count_ set_current set_codec set_next set_decoder].
      rewrite Hn; cbn [length]; change (u32 (Z.of_nat 1 - 1)) with 0; cbn [Z.ltb Z.compare].
      eexists; split; [done|]; split; [exists b; by split_and!|left; split; [done|]; by split_and!].
    + subst rest'; cbn [next_incoming_count_ set_current set_codec set_next set_decoder]; rewrite Hn.
      assert (us' <> []) as Hne by (by inversion Hsp').
      assert (0 < zlen us') by (destruct us'; [done|cbn [length]; lia]).
      replace (u32 (zlen (v' :: us') - 1)) with (zlen us')
        by (cbn [length] in *; unfold u32; rewrite Z.mod_small; lia).
      destruct (Z.ltb_spec 0 (zlen us')); [|lia].
      edestruct (IH (set_current (Some (AddResult v' (mkResponse rs)))
        (set_codec (with_in b (codec s)) (set_next (zlen us') (set_decoder d s)))) Start [] (rs ++ [v']) us' more)
        as (s' & E & (b2 & K1 & K2 & K3 & K4 & K5) & Hcase).
      * split_and!; try done; cbn [length] in Hm; lia.
      * cbn; by rewrite H2.
      * cbn; rewrite H2; apply (f_equal length) in Ed; cbn [length] in Ed; rewrite length_app in Ed; lia.
      * cbn in K3, K4, K5; exists s'; split; [exact E|]; split; [exists b2; split_and!; [done|done|lia|by rewrite K4|done]|].
        destruct Hcase as [[-> Hcw]|(l' & fr' & us1 & us2 & -> & Hw & Hsp2)].
        -- left; split; [done|]; by rewrite <- app_assoc in Hcw.
        -- right; exists l', fr', (v' :: us1), us2; split_and!; [done| |done]; by rewrite <- app_assoc in Hw.
  - inversion Hsp as [? ? ? ? E'|? ? ? ? ? ? E']; subst; by rewrite feed_cut, Ef in E'.
  - inversion Hsp as [? ? ? ? E'|? ? ? ? ? ? E']; subst; by rewrite feed_cut, Ef in E'.
Qed.

Lemma same_trans n m s1 s2 s3 : same n s1 s2 -> same m s2 s3 -> same (n + m) s1 s3.
Proof.
  intros (b & B1 & B2 & B3 & B4 & B5) (c & C1 & C2 & C3 & C4 & C5); exists c.
  rewrite B4 in C3, C4; cbn in C3; split_and!; [done|done|lia|by rewrite C4|congruence].
Qed.

Section Arrivals.
Context (past : list Z -> list Z) (react : notice RedisResponse -> RespService -> option RespService).

Definition results_of (r : option RedisResponse) : list value := match r with Some r => results_ r | None => [] end.

(** A client service with an empty reader buffer that has read [l] and [fr] and
    misses [us]. *)
Definition expecting (l : leaf) (fr : list frame) (us : list value) (s : RespService) : Prop :=
  server_side_ (codec s) = false /\ inv (in_ (channel_ (codec s))) /\ contents (in_ (channel_ (codec s))) = [] /\
  leaf_of (decoder_ s) l /\ stacks (decoder_ s) fr /\ next_incoming_count_ s = zlen us /\ zlen us < 2 ^ 32.

Lemma arrive_spells p s l fr us more :
  expecting l fr us s -> zlen p <= room (in_ (channel_ (codec s))) -> spells l fr (p ++ more) us ->
  exists s', same (zlen p) s s' /\ arrive past react p s = finish_response past react s' /\
    ((more = [] /\ complete_with (results_of (current_response s) ++ us) s') \/
     exists l' fr' us1 us2, us = us1 ++ us2 /\ expecting l' fr' us2 s' /\ spells l' fr' more us2 /\
       current_response s' = Some (mkResponse (results_of (current_response s) ++ us1))).
Proof.
  intros (Hss & Hi & Hc & Hl & Hs & Hn & Hm) Hr Hsp; unfold arrive.
  destruct (WriteRawData_ok _ p Hi Hr) as (b & -> & Hi' & Hc' & Hr'); cbn [mbind option_bind].
  unfold OnDataReceived; cbn [codec set_codec server_side_ with_in with_channel]; rewrite Hss.
  rewrite Hc in Hc'; cbn [app] in Hc'.
  set (s1 := match current_response (set_codec (with_in b (codec s)) s) with None => _ | Some _ => _ end).
  assert (H1 : codec s1 = with_in b (codec s) /\ init_wait_res_flags_ s1 = init_wait_res_flags_ s /\
    waiting l fr (results_of (current_response s)) us s1).
  { unfold s1; cbn [current_response set_codec]; destruct (current_response s) as [[rs]|] eqn:E; cbn [results_of results_];
      by split_and!. }
  destruct H1 as (E1 & E2 & Hw); clearbody s1; rewrite E1; cbn [channel_ with_in with_channel in_]; rewrite Hc'.
  destruct (receive_loop_spells (S (length p)) s1 l fr (results_of (current_response s)) us more Hw)
    as (s' & E & Hsame & Hcase); [by rewrite E1; cbn; rewrite Hc'|rewrite E1; cbn; rewrite Hc'; lia|].
  rewrite E; cbn [mbind option_bind].
  assert (Hs1 : same (zlen p) s s').
  { destruct Hsame as (b' & B1 & B2 & B3 & B4 & B5); rewrite E1 in B3, B4; cbn in B3, B4.
    exists b'; split_and!; [done|done|lia|done|congruence]. }
  exists s'; split; [done|]; split; [done|]; destruct Hcase as [|(l' & fr' & us1 & us2 & Eu & Hw' & Hsp')]; [by left|].
  right; exists l', fr', us1, us2; destruct Hw' as (W1 & W2 & W3 & W4 & W5 & W6).
  destruct Hs1 as (b' & B1 & B2 & B3 & B4 & B5); split; [done|]; split; [|done].
  unfold expecting; rewrite B4; by split_and!.
Qed.

(** The replies arrive in any pieces; the last piece completes the response. *)
Lemma arrive_all_spells ps : Forall (fun p => p <> []) ps -> forall s l fr us,
  expecting l fr us s -> spells l fr (concat ps) us -> zlen (concat ps) <= room (in_ (channel_ (codec s))) -> ps <> [] ->
  exists s', same (zlen (concat ps)) s s' /\ arrive_all past react ps s = finish_response past react s' /\
    complete_with (results_of (current_response s) ++ us) s'.
Proof.
  induction 1 as [|p ps Hp Hps IH]; intros s l fr us He Hsp Hr Hne; [done|]; cbn [concat arrive_all] in *.
  rewrite length_app in *.
  destruct (arrive_spells p s l fr us (concat ps) He ltac:(lia) Hsp) as (s1 & Hs1 & -> & [[Em Hcw]|Hmore]).
  - destruct Hps as [|q ps Hq]; [|by destruct q]; exists s1; split; [|split; [|done]].
    + by replace (Z.of_nat (length p + length (concat []))) with (zlen p) by (cbn; lia).
    + cbn [arrive_all]; by destruct (finish_response past react s1).
  - destruct Hmore as (l' & fr' & us1 & us2 & -> & He' & Hsp' & Hc').
    assert (us2 <> []) as Hu by (by inversion Hsp').
    assert (finish_response past react s1 = Some s1) as ->.
    { unfold finish_response; destruct He' as (_ & _ & _ & _ & _ & -> & _).
      destruct us2; [done|]; cbn [length]; destruct (Z.eqb_spec (Z.of_nat (S (length us2))) 0); [lia|done]. }
    cbn [mbind option_bind].
    destruct (IH s1 l' fr' us2 He' Hsp') as (s2 & Hs2 & -> & Hcw).
    { destruct Hs1 as (b & B1 & B2 & B3 & B4 & B5); rewrite B4; cbn; lia. }
    { intros ->; by inversion Hsp'. }
    exists s2; split; [|split; [done|]].
    + rewrite Nat2Z.inj_add; by eapply same_trans.
    + rewrite Hc' in Hcw; cbn [results_of results_] in Hcw; by rewrite app_assoc.
Qed.
End Arrivals.
End RespCodecService.

(* ------------------------------------------------------------------ *)
(** * What the codec guarantees *)
Module RedisTheorems.
Import RespEncoder RedisMessage RespCodecService.

(** The first [n] values of a stream, as a peer with the same decoder reads them. *)
Fixpoint decode_values (n : nat) (d : decoder) (data : list Z) : option (list value * decoder * list Z) :=
  match n with
  | O => Some ([], d, data)
  | S n =>
      '(d, r) ← Decode d data;
      match r with
      | Completed k v => '(vs, d, rest) ← decode_values n d (drop k data); Some (v :: vs, d, rest)
      | _ => None
      end
  end.

Lemma decode_values_wire vs rest : Forall (fun v => sendable v = true) vs -> forall d, idle d ->
  exists d', decode_values (length vs) d (concat (map wire vs) ++ rest) = Some (vs, d', rest) /\ idle d'.
Proof.
  induction 1 as [|v vs Hv _ IH]; intros d Hd; cbn [length decode_values map concat]; [by exists d|].
  pose proof (Decode_feed d Start [] ((wire v ++ concat (map wire vs)) ++ rest) (proj1 Hd) (proj2 Hd)) as H.
  rewrite <- app_assoc in *; rewrite feed_wire in H by done; cbn [emit complete agrees] in H.
  destruct H as (d1 & -> & Hi); cbn [mbind option_bind].
  replace (length (wire v ++ concat (map wire vs) ++ rest) - length (concat (map wire vs) ++ rest))%nat
    with (length (wire v)) by (rewrite length_app; lia).
  rewrite drop_app_length; destruct (IH d1 Hi) as (d' & -> & Hi'); by exists d'.
Qed.

(** C35.  A request built by any sequence of commands holds exactly these commands: a
    server that reads the body gets for each command the array of its words, in
    order, and nothing else; the request expects as many replies. *)
Theorem request_wire (ms : list method) :
  Forall method_ok ms -> zlen ms < 2 ^ 32 ->
  exists r, perform_all ms RedisRequest_new = Some r /\ cmd_counter_ r = zlen ms /\
    exists d, decode_values (length ms) decoder_new (body_ r) = Some (map (fun m => command_value (words m)) ms, d, []) /\
      idle d.
Proof.
  intros H Hn; rewrite perform_all_ok by (done || cbn; lia); eexists; split; [done|]; split; [done|]; cbn [body_ RedisRequest_new app].
  rewrite <- (map_map (fun m => command_value (words m)) wire), <- (app_nil_r (concat _)).
  rewrite <- (length_map (fun m => command_value (words m)) ms); apply decode_values_wire; [|done].
  apply Forall_map; eapply Forall_impl; [|exact H]; intros m [Hw _]; by apply command_sendable.
Qed.

Lemma request_wire_witness :
  exists r, perform_all [Auth (str "pw"); MSet [(str "a", str "1"); (str "b", [])]; IncrBy (str "n") 12] RedisRequest_new
      = Some r /\ cmd_counter_ r = 3 /\
    exists d, decode_values 3 decoder_new (body_ r)
      = Some ([command_value [str "AUTH"; str "pw"]; command_value [str "MSET"; str "a"; str "1"; str "b"; []];
               command_value [str "INCRBY"; str "n"; str "12"]], d, []) /\ idle d.
Proof.
  apply (request_wire [Auth (str "pw"); MSet [(str "a", str "1"); (str "b", [])]; IncrBy (str "n") 12]); [|done].
  repeat apply Forall_cons; try apply Forall_nil; unfold method_ok, words_ok; split_and!; try done;
    repeat apply Forall_cons; try apply Forall_nil; done.
Defined.

(** ** Responses *)

(** The outside does not call back. *)
Definition quiet (_ : notice RedisResponse) (s : RespService) : option RespService := Some s.

(** A client service that is ready for the replies to a request. *)
Definition awaits (n : Z) (s : RespService) : Prop :=
  server_side_ (codec s) = false /\ inv (in_ (channel_ (codec s))) /\ contents (in_ (channel_ (codec s))) = [] /\
  idle (decoder_ s) /\ current_response s = None /\ next_incoming_count_ s = n /\ n < 2 ^ 32.

Lemma arrive_all_replies past react vs ps s :
  awaits (zlen vs) s -> vs <> [] -> Forall (fun v => sendable v = true) vs ->
  concat ps = concat (map wire vs) -> Forall (fun p => p <> []) ps ->
  zlen (concat ps) <= room (in_ (channel_ (codec s))) ->
  exists s', same (zlen (concat ps)) s s' /\ arrive_all past react ps s = finish_response past react s' /\
    complete_with vs s'.
Proof.
  intros (H1 & H2 & H3 & [H4 H5] & H6 & H7 & H8) Hne Hv Hps Hp Hr.
  pose proof (spells_wire vs Hne Hv) as Hsp; rewrite <- Hps in Hsp.
  destruct (arrive_all_spells past react ps Hp s Start [] vs) as (s' & Hs & -> & Hc); [by split_and!|done|done|..].
  - intros ->; by inversion Hsp.
  - rewrite H6 in Hc; by exists s'.
Qed.

(** C21.  The replies to a request are delivered as one response with exactly these
    values in this order, when the last of them is complete and not before, whatever
    the pieces in which the bytes arrive.  The simple strings and errors among the
    replies are of printable ASCII and the integers of 64 bits ([sendable]); the handshake
    is over; the whole of the replies fits in the reader's memory.
    The handler, which may do anything, is called once, on a service with an empty reader
    buffer; what it sets as the replies to wait for is overwritten when it returns
    ([pipelined_reply_lost]), and a handler that sends nothing leaves the service ready
    for the next request. *)
Theorem replies_delivered (past : list Z -> list Z) (react : notice RedisResponse -> RespService -> option RespService)
    (s : RespService) (vs : list value) (ps : list (list Z)) :
  awaits (zlen vs) s -> has_handler_ (codec s) = true -> init_wait_res_flags_ s = 0 ->
  vs <> [] -> Forall (fun v => sendable v = true) vs ->
  concat ps = concat (map wire vs) -> Forall (fun p => p <> []) ps ->
  zlen (concat ps) <= room (in_ (channel_ (codec s))) ->
  exists s1, awaits 0 s1 /\ notices (codec s1) = notices (codec s) ++ [Message (mkResponse vs)] /\
    sent (sock (channel_ (codec s1))) = sent (sock (channel_ (codec s))) /\
    arrive_all past react ps s = (s2 ← react (Message (mkResponse vs)) s1; Some (set_next 0 (set_current None s2))) /\
    (react (Message (mkResponse vs)) s1 = Some s1 -> arrive_all past react ps s = Some s1).
Proof.
  intros Hs Hh Hf Hne Hv Hps Hp Hr.
  destruct (arrive_all_replies past react vs ps s Hs Hne Hv Hps Hp Hr) as (s1 & (b & B1 & B2 & B3 & B4 & B5) & -> & Hi & Hc & Hn).
  unfold finish_response; rewrite Hn, Hc, B4, B5, Hf; cbn [Z.eqb mbind option_bind has_handler_ with_in with_channel]; rewrite Hh.
  cbn [andb]; eexists; split; [|split; [|split; [|split; [reflexivity|]]]].
  - destruct Hs as (K & _); unfold awaits; by split_and!.
  - done.
  - done.
  - intros ->; cbn; unfold set_next, set_current, set_codec; cbn; by rewrite Hn.
Qed.

Definition idle_client : RespService :=
  RespService_new (mkService false false true true true CONNECTED
    (mkChannel (mkFdEvent 7 true READ 0 true (Some [])) IOBuffer_new IOBuffer_new (mkSocket 0 [] (repeat (WAccept 1000) 9) [])) []).

Lemma replies_delivered_witness :
  exists s1, awaits 0 s1 /\ notices (codec s1) = [Message (mkResponse [Str (str "OK"); Integer 7])] /\
    sent (sock (channel_ (codec s1))) = [] /\
    arrive_all (fun _ => []) quiet [str "+"; str "OK" ++ [13]; [10; 58; 55; 13; 10]] (set_next 2 idle_client) =
      (s2 ← quiet (Message (mkResponse [Str (str "OK"); Integer 7])) s1; Some (set_next 0 (set_current None s2))) /\
    (quiet (Message (mkResponse [Str (str "OK"); Integer 7])) s1 = Some s1 ->
     arrive_all (fun _ => []) quiet [str "+"; str "OK" ++ [13]; [10; 58; 55; 13; 10]] (set_next 2 idle_client) = Some s1).
Proof.
  apply (replies_delivered (fun _ => []) quiet (set_next 2 idle_client) [Str (str "OK"); Integer 7]
           [str "+"; str "OK" ++ [13]; [10; 58; 55; 13; 10]]).
  - split_and!; [reflexivity|apply inv_new|apply contents_new|by split|reflexivity..].
  - reflexivity.
  - reflexivity.
  - discriminate.
  - repeat apply Forall_cons; try apply Forall_nil; reflexivity.
  - reflexivity.
  - repeat apply Forall_cons; try apply Forall_nil; discriminate.
  - unfold room, max_vector_size; cbn; lia.
Defined.

(** ** The first request of a connection *)

Lemma perform_count m r r' : perform m r = Some r' -> cmd_counter_ r' = u32 (cmd_counter_ r + 1).
Proof.
  assert (forall c args, add_encoded c args r = Some r' -> cmd_counter_ r' = u32 (cmd_counter_ r + 1)) as He.
  { intros c args; unfold add_encoded; destruct (encode (str c) args); cbn; [|done]; by intros [= <-]. }
  assert (forall c args, add_queued c args r = Some r' -> cmd_counter_ r' = u32 (cmd_counter_ r + 1)) as Hq.
  { intros c args; unfold add_queued; destruct (encode_queued _ _ _) as [[b e]|]; cbn; [|done]; by intros [= <-]. }
  destruct m; cbn [perform]; eauto.
Qed.

(** What the service waits for, by its flags, and how many replies that takes. *)
Definition flags_ok (s : RespService) : Prop :=
  (init_wait_res_flags_ s = 0 /\ next_incoming_count_ s = 0) \/
  (init_wait_res_flags_ s = 1 /\ next_incoming_count_ s = 1) \/
  (init_wait_res_flags_ s = 2 /\ next_incoming_count_ s = 1) \/
  (init_wait_res_flags_ s = 3 /\ next_incoming_count_ s = 2).

Lemma SendRequest_sent r s s' : SendRequest r s = Some (true, s') ->
  init_wait_res_flags_ s' = init_wait_res_flags_ s /\ current_response s' = current_response s /\ decoder_ s' = decoder_ s.
Proof.
  unfold SendRequest; destruct (negb _); [done|]; destruct (on_channel _ _) as [[rv c]|]; cbn; [|done].
  destruct (0 <=? rv); [|done]; by intros [= <-].
Qed.

Lemma start_flags info c s :
  StartProtocolService info (RespService_new c) = Some s ->
  flags_ok s /\ current_response s = None /\ decoder_ s = decoder_new.
Proof.
  unfold StartProtocolService; cbn [codec set_codec RespService_new].
  destruct (if has_delegate_ (StartInternal c) then info else None) as [i|];
    [|intros [= <-]; split; [by left|done]].
  set (s0 := set_codec _ _); assert (H0 : init_wait_res_flags_ s0 = 0 /\ next_incoming_count_ s0 = 0 /\
    current_response s0 = None /\ decoder_ s0 = decoder_new) by done; clearbody s0.
  assert (forall r s1, init_wait_res_flags_ s1 ∈ [1; 2; 3] ->
      cmd_counter_ r = (if init_wait_res_flags_ s1 =? 3 then 2 else 1) ->
      current_response s1 = None -> decoder_ s1 = decoder_new ->
      (if cmd_counter_ r =? 0 then Some (set_codec (NotifyCodecReady (codec s1)) s1)
       else '(sent, s2) ← SendRequest r s1;
         if sent : bool then Some (set_next (cmd_counter_ r) s2)
         else Some (set_codec (NotifyCodecClosed (CloseService false (codec s2))) (set_flags kWaitNone s2))) = Some s ->
      next_incoming_count_ s1 = 0 ->
      flags_ok s /\ current_response s = None /\ decoder_ s = decoder_new) as K.
  { intros r s1 Hf Hr H1 H2 E Hn; destruct (Z.eqb_spec (cmd_counter_ r) 0); [destruct (_ =? 3); lia|].
    destruct (SendRequest r s1) as [[[] s2]|] eqn:Es; cbn [mbind option_bind] in E; [| |done]; injection E as <-.
    - destruct (SendRequest_sent r s1 s2 Es) as (F1 & F2 & F3); rewrite <- F2, <- F3 in *; split; [|done].
      right; unfold flags_ok; cbn [init_wait_res_flags_ next_incoming_count_ set_next]; rewrite F1, Hr.
      rewrite !elem_of_cons, elem_of_nil in Hf; destruct Hf as [->|[->|[->|[]]]]; auto.
    - unfold SendRequest in Es; destruct (negb _); [done|]; destruct (on_channel _ _) as [[rv cc]|]; cbn in Es; [|done].
      destruct (0 <=? rv); [done|]; injection Es as <-; split; [by left|done]. }
  destruct H0 as (F0 & N0 & C0 & D0); revert K.
  destruct (UrlUtils.passwd i) as [|p0 pw]; [|destruct (perform (Auth _) _) as [r1|] eqn:E1];
    cbn [mbind option_bind]; [| |done];
    (destruct (UrlUtils.queries i !! str "db") as [[|d0 db]|];
      [|destruct (perform (Select _) _) as [r2|] eqn:E2|]); cbn [mbind option_bind]; try done;
    try (apply perform_count in E1; cbn in E1); try (apply perform_count in E2; try rewrite E1 in E2; cbn in E2); intros K E.
  1,3: injection E as <-; split; [by left|done].
  all: eapply (K _ _); [..|exact E|]; cbn [init_wait_res_flags_ set_flags next_incoming_count_ current_response decoder_];
    rewrite ?F0, ?E1, ?E2; try done; cbn; rewrite !elem_of_cons; auto.
Qed.

Lemma CloseService_facts (c : CodecService RedisResponse) : has_delegate_ c = true ->
  notices (CloseService false c) = notices c ++ [Codec.Closed] /\ status_ (CloseService false c) = CLOSED /\
  server_side_ (CloseService false c) = server_side_ c /\ in_ (channel_ (CloseService false c)) = in_ (channel_ c).
Proof.
  intros Hd; unfold CloseService, NotifyCodecClosed; cbn [negb]; destruct (as_fdev_handler_ c);
    cbn [has_delegate_ with_status RemoveFdEvent with_channel]; rewrite Hd; done.
Qed.

Lemma NotifyCodecReady_facts (c : CodecService RedisResponse) : has_delegate_ c = true ->
  notices (NotifyCodecReady c) = notices c ++ [Codec.Ready] /\
  status_ (NotifyCodecReady c) = (if decide (status_ c = CONNECTING) then CONNECTED else status_ c) /\
  server_side_ (NotifyCodecReady c) = server_side_ c /\ in_ (channel_ (NotifyCodecReady c)) = in_ (channel_ c) /\
  has_delegate_ (NotifyCodecReady c) = true.
Proof. intros Hd; unfold NotifyCodecReady; destruct (decide _); cbn [has_delegate_ with_status]; rewrite Hd; done. Qed.

(** How the replies to the service's own request end the handshake. *)
Definition handshaken (accepted : bool) (s s' : RespService) : Prop :=
  init_wait_res_flags_ s' = 0 /\
  if accepted then
    notices (codec s') = notices (codec s) ++ [Codec.Ready] /\
    status_ (codec s') = (if decide (status_ (codec s) = CONNECTING) then CONNECTED else status_ (codec s))
  else notices (codec s') = notices (codec s) ++ [Codec.Closed] /\ status_ (codec s') = CLOSED.

Lemma HandleInitResponse_spec past vs s :
  has_delegate_ (codec s) = true ->
  (init_wait_res_flags_ s = 1 /\ zlen vs = 1) \/ (init_wait_res_flags_ s = 2 /\ zlen vs = 1) \/
  (init_wait_res_flags_ s = 3 /\ zlen vs = 2) ->
  exists s', HandleInitResponse past quiet (mkResponse vs) s = Some s' /\
    handshaken (forallb (reply_ok past) vs) s (set_flags 0 s') /\ decoder_ s' = decoder_ s /\
    server_side_ (codec s') = server_side_ (codec s) /\ in_ (channel_ (codec s')) = in_ (channel_ (codec s)).
Proof.
  destruct s as [c f n r d]; cbn [codec init_wait_res_flags_]; intros Hd Hv.
  destruct (CloseService_facts c Hd) as (C1 & C2 & C3 & C4).
  destruct (NotifyCodecReady_facts c Hd) as (R1 & R2 & R3 & R4 & R5).
  unfold HandleInitResponse, notify_ready, quiet, handshaken.
  destruct Hv as [[-> Hl]|[[-> Hl]|[-> Hl]]]; destruct vs as [|v1 [|v2 [|v3 vs]]];
    cbn [length] in Hl; try lia; cbn -[NotifyCodecReady CloseService reply_ok];
    destruct (reply_ok past v1); cbn -[NotifyCodecReady CloseService reply_ok];
    try (destruct (reply_ok past v2); cbn -[NotifyCodecReady CloseService reply_ok]);
    rewrite ?R5; eexists; (split; [done|]); cbn -[NotifyCodecReady CloseService]; by split_and!.
Qed.

(** A connection that has to log in or select a database becomes ready exactly
    when every reply to its first request is +OK; any other reply closes it.
    Either way the delegate hears of it once, after the last reply, and the
    service is idle again. *)
Theorem handshake (past : list Z -> list Z) (info : option UrlUtils.RemoteInfo) (c : CodecService RedisResponse)
    (s : RespService) (vs : list value) (ps : list (list Z)) :
  StartProtocolService info (RespService_new c) = Some s -> init_wait_res_flags_ s <> 0 ->
  has_delegate_ (codec s) = true -> server_side_ (codec s) = false ->
  inv (in_ (channel_ (codec s))) -> contents (in_ (channel_ (codec s))) = [] ->
  zlen vs = next_incoming_count_ s -> Forall (fun v => sendable v = true) vs ->
  concat ps = concat (map wire vs) -> Forall (fun p => p <> []) ps ->
  zlen (concat ps) <= room (in_ (channel_ (codec s))) ->
  exists s', arrive_all past quiet ps s = Some s' /\ awaits 0 s' /\ handshaken (forallb (reply_ok past) vs) s s'.
Proof.
  intros Hst Hf Hd Hss Hi Hc Hn Hv Hps Hp Hr.
  destruct (start_flags _ _ _ Hst) as (Hfl & Hcur & Hdec).
  assert (Hk : 0 < zlen vs < 2 ^ 32 /\ ((init_wait_res_flags_ s = 1 /\ zlen vs = 1) \/
    (init_wait_res_flags_ s = 2 /\ zlen vs = 1) \/ (init_wait_res_flags_ s = 3 /\ zlen vs = 2)))
    by (rewrite Hn; destruct Hfl as [[? ?]|[[-> ->]|[[-> ->]|[-> ->]]]]; [done|lia..]).
  destruct Hk as [Hl Hk].
  destruct (arrive_all_replies past quiet vs ps s) as (s1 & (b & B1 & B2 & B3 & B4 & B5) & -> & Hid & Hcu & Hnx); try done.
  { unfold awaits; rewrite Hdec; split_and!; try done; lia. }
  { intros ->; cbn in Hl; lia. }
  destruct (HandleInitResponse_spec past vs s1) as (s2 & E & [Hz Hh] & D2 & S2 & I2);
    [by rewrite B4|by rewrite B5|].
  unfold finish_response; rewrite Hnx, Hcu, B5; cbn [Z.eqb mbind option_bind].
  destruct (Z.eqb_spec (init_wait_res_flags_ s) 0); [done|]; rewrite andb_false_r; cbn [negb]; rewrite E.
  cbn [mbind option_bind]; eexists; split; [done|]; rewrite B4 in Hh, S2, I2.
  split; [|split; [done|by destruct (forallb _ vs)]].
  unfold awaits; cbn [codec set_next set_current set_flags decoder_ current_response next_incoming_count_].
  rewrite D2, S2, I2; by split_and!.
Qed.

Definition with_password : UrlUtils.RemoteInfo :=
  UrlUtils.set_queries (UrlUtils.set_passwd UrlUtils.RemoteInfo_new (str "pw")) {[str "db" := str "3"]}.

(** The state of a connection that waits for the replies to AUTH and SELECT. *)
Definition logging_in : RespService :=
  match StartProtocolService (Some with_password) idle_client with Some s => s | None => idle_client end.

Lemma handshake_witness :
  exists s', arrive_all (fun _ => []) quiet [str "+OK"; [13; 10]; str "-ERR" ++ [13; 10]] logging_in = Some s' /\
    awaits 0 s' /\ handshaken false logging_in s'.
Proof.
  apply (handshake (fun _ => []) (Some with_password) (codec idle_client) logging_in [Str (str "OK"); Err (str "ERR")]
           [str "+OK"; [13; 10]; str "-ERR" ++ [13; 10]]).
  - vm_compute; reflexivity.
  - vm_compute; discriminate.
  - vm_compute; reflexivity.
  - vm_compute; reflexivity.
  - replace (in_ (channel_ (codec logging_in))) with IOBuffer_new by (vm_compute; reflexivity). apply inv_new.
  - vm_compute; reflexivity.
  - vm_compute; reflexivity.
  - repeat apply Forall_cons; try apply Forall_nil; reflexivity.
  - reflexivity.
  - repeat apply Forall_cons; try apply Forall_nil; discriminate.
  - replace (in_ (channel_ (codec logging_in))) with IOBuffer_new by (vm_compute; reflexivity).
    unfold room, max_vector_size; cbn; lia.
Defined.

(** ** Flaws *)

Definition get_request (key : String.string) : RedisRequest :=
  match perform (Get (str key)) RedisRequest_new with Some r => r | None => RedisRequest_new end.

Definition reply (s : String.string) : list Z := str s ++ [13; 10].

(** A handler that sends the next request when it is told of a response, as
    [QueuedChannel::OnCodecMessage] does. *)
Definition sends_next (n : notice RedisResponse) (s : RespService) : option RespService :=
  match n with Message _ => snd <$> SendRequest (get_request "b") s | _ => Some s end.

(** The count of replies that the handler's request has set is overwritten when
    the handler returns: the request is on the wire, its reply is never
    delivered, and the next request fails a check. *)
Theorem pipelined_reply_lost :
  exists s1 s2, arrive (fun _ => []) sends_next (reply "+A") (set_next 1 idle_client) = Some s1 /\
    sent (sock (channel_ (codec s1))) = body_ (get_request "b") /\
    arrive (fun _ => []) sends_next (reply "+B") s1 = Some s2 /\
    notices (codec s2) = [Message (mkResponse [Str (str "A")])] /\ SendRequest (get_request "c") s2 = None.
Proof.
  eexists _, _; split; [vm_compute; reflexivity|]; split; [vm_compute; reflexivity|].
  split; [vm_compute; reflexivity|]; split; vm_compute; reflexivity.
Qed.

(** Bytes that are not RESP are dropped and nobody is told. *)
Theorem protocol_error_ignored :
  exists s, arrive (fun _ => []) quiet (reply "?") (set_next 1 idle_client) = Some s /\
    notices (codec s) = [] /\ status_ (codec s) = CONNECTED /\ next_incoming_count_ s = 1.
Proof. eexists; split; [vm_compute; reflexivity|]; split_and!; vm_compute; reflexivity. Qed.

(** When the first request cannot be sent, the delegate is told twice that the
    service is closed. *)
Theorem start_failure_closes_twice :
  exists s, StartProtocolService (Some with_password)
      (set_codec (with_channel (mkChannel (fdev_ (channel_ (codec idle_client))) IOBuffer_new IOBuffer_new
         (mkSocket 0 [] [WErr 32] [])) (codec idle_client)) idle_client) = Some s /\
    notices (codec s) = [Codec.Closed; Codec.Closed].
Proof. eexists; split; vm_compute; reflexivity. Qed.

(** The heartbeat request is not recognised as one. *)
Theorem heartbeat_unrecognised :
  exists r, NewHeartbeat idle_client = Some (Some r) /\ RedisRequest_IsHeartbeat r = false.
Proof. eexists; split; [vm_compute; reflexivity|vm_compute; reflexivity]. Qed.

(** Dumping a response for the log empties its arrays. *)
Theorem dump_empties_arrays (vs : list value) :
  (DebugDump (mkResponse [Arr vs])).2 = mkResponse [Arr []].
Proof. reflexivity. Qed.
End RedisTheorems.
