(* ===== verification/LinkedList.v ===== *)
(** * Intrusive linked lists (base/queue/{linked_list,double_linked_list}.h)

    The nodes live in a heap; an address is a positive integer and 0 is the null
    pointer.  [None] is the use of a null or dangling pointer.  A [LinkedList] is a
    ring through its root node, a [DoubleLinkedList] a chain between two sentinels
    whose nodes remember their list.

    [ring h r ns] says that the heap holds the list [ns] in the ring of [r].  The
    theorems show that the operations implement those of plain lists and leave
    every other node alone, which is how the coroutine scheduler uses them. *)
From stdpp Require Import gmap.
From S2P Require Import Prelude.

Record node := mkNode { pre_ : Z; next_ : Z; holder_ : Z }.
Notation heap := (gmap Z node).

Definition set_pre (a v : Z) (h : heap) : option heap :=
  n ← h !! a; Some (<[a := mkNode v (next_ n) (holder_ n)]> h).
Definition set_next (a v : Z) (h : heap) : option heap :=
  n ← h !! a; Some (<[a := mkNode (pre_ n) v (holder_ n)]> h).
Definition set_holder (a v : Z) (h : heap) : option heap :=
  n ← h !! a; Some (<[a := mkNode (pre_ n) (next_ n) v]> h).

(* ------------------------------------------------------------------ *)
(** * LinkedList *)
Module LinkedList.

(** ** Nodes; [nullptr] is 0 *)

(** [Node(Node&& rhs)] at address [a]. *)
Definition Node_move (a rhs : Z) (h : heap) : option heap :=
  n ← h !! rhs;
  let h := <[a := mkNode (pre_ n) (next_ n) 0]> (<[rhs := mkNode 0 0 (holder_ n)]> h) in
  if next_ n =? 0 then Some h
  else
    h ← set_pre (next_ n) a h;
    set_next (pre_ n) a h.

Definition Attatched (a : Z) (h : heap) : option bool :=
  n ← h !! a; Some (negb (pre_ n =? 0) && negb (next_ n =? 0)).

Definition InsertBefore (this e : Z) (h : heap) : option heap :=
  h ← set_next this e h;
  ne ← h !! e;
  h ← set_pre this (pre_ ne) h;
  ne ← h !! e;
  h ← set_next (pre_ ne) this h;
  set_pre e this h.

Definition InsertAfter (this e : Z) (h : heap) : option heap :=
  ne ← h !! e;
  h ← set_next this (next_ ne) h;
  h ← set_pre this e h;
  ne ← h !! e;
  h ← set_pre (next_ ne) this h;
  set_next e this h.

Definition RemoveFromList (this : Z) (h : heap) : option heap :=
  n ← h !! this;
  h ← set_next (pre_ n) (next_ n) h;
  n ← h !! this;
  h ← set_pre (next_ n) (pre_ n) h;
  h ← set_next this 0 h;
  set_pre this 0 h.

(** ** The list: its root node and its count *)

Record LinkedList := mkList { root_ : Z; size_ : Z }.

(** The constructor, with the list object at address [r]. *)
Definition LinkedList_new (r : Z) (h : heap) : LinkedList * heap := (mkList r 0, <[r := mkNode r r 0]> h).

Definition Append (e : Z) (l : LinkedList) (h : heap) : option (LinkedList * heap) :=
  h ← InsertBefore e (root_ l) h; Some (mkList (root_ l) (u64 (size_ l + 1)), h).

Definition Remove (e : Z) (l : LinkedList) (h : heap) : option (LinkedList * heap) :=
  h ← RemoveFromList e h; Some (mkList (root_ l) (u64 (size_ l - 1)), h).

Definition head (l : LinkedList) (h : heap) : option Z := n ← h !! root_ l; Some (next_ n).

Definition empty (l : LinkedList) (h : heap) : option bool := a ← head l h; Some (a =? root_ l).

(** [First()]: 0 when the list is empty. *)
Definition First (l : LinkedList) (h : heap) : option Z :=
  b ← empty l h; if b : bool then Some 0 else head l h.

Definition PopAndRemove (l : LinkedList) (h : heap) : option (Z * LinkedList * heap) :=
  e ← First l h;
  if e =? 0 then Some (e, l, h) else h ← RemoveFromList e h; Some (e, l, h).

End LinkedList.

(* ------------------------------------------------------------------ *)
(** * DoubleLinkedList *)
Module DoubleLinkedList.

(** [self] is the address of the list object, the value of [holder_]. *)
Record DoubleLinkedList := mkDList { self : Z; head_ : Z; tail_ : Z; dsize_ : Z }.

Definition DoubleLinkedList_new (self hd tl : Z) (h : heap) : DoubleLinkedList * heap :=
  (mkDList self hd tl 0, <[hd := mkNode 0 tl 0]> (<[tl := mkNode hd 0 0]> h)).

Definition Attatched (n : Z) (l : DoubleLinkedList) (h : heap) : option bool :=
  x ← h !! n; Some (holder_ x =? self l).

Definition PushBack (n : Z) (l : DoubleLinkedList) (h : heap) : option (bool * DoubleLinkedList * heap) :=
  if n =? 0 then Some (false, l, h)
  else
    at_ ← Attatched n l h;
    if at_ : bool then Some (false, l, h)
    else
      t ← h !! tail_ l;
      h ← set_next (pre_ t) n h;
      t ← h !! tail_ l;
      h ← set_pre n (pre_ t) h;
      h ← set_pre (tail_ l) n h;
      h ← set_next n (tail_ l) h;
      h ← set_holder n (self l) h;
      Some (true, mkDList (self l) (head_ l) (tail_ l) (u64 (dsize_ l + 1)), h).

Definition PushFront (n : Z) (l : DoubleLinkedList) (h : heap) : option (bool * DoubleLinkedList * heap) :=
  if n =? 0 then Some (false, l, h)
  else
    at_ ← Attatched n l h;
    if at_ : bool then Some (false, l, h)
    else
      hd ← h !! head_ l;
      h ← set_pre (next_ hd) n h;
      hd ← h !! head_ l;
      h ← set_next n (next_ hd) h;
      h ← set_next (head_ l) n h;
      h ← set_pre n (head_ l) h;
      h ← set_holder n (self l) h;
      Some (true, mkDList (self l) (head_ l) (tail_ l) (u64 (dsize_ l + 1)), h).

Definition Front (l : DoubleLinkedList) (h : heap) : option Z :=
  if 0 <? dsize_ l then hd ← h !! head_ l; Some (next_ hd) else Some 0.
Definition Back (l : DoubleLinkedList) (h : heap) : option Z :=
  if 0 <? dsize_ l then t ← h !! tail_ l; Some (pre_ t) else Some 0.

Definition Remove (n : Z) (l : DoubleLinkedList) (h : heap) : option (bool * DoubleLinkedList * heap) :=
  if dsize_ l <=? 0 then Some (false, l, h)
  else
    at_ ← Attatched n l h;
    if negb at_ then Some (false, l, h)
    else
      x ← h !! n;
      h ← set_next (pre_ x) (next_ x) h;
      x ← h !! n;
      h ← set_pre (next_ x) (pre_ x) h;
      h ← set_pre n 0 h;
      h ← set_next n 0 h;
      h ← set_holder n 0 h;
      Some (true, mkDList (self l) (head_ l) (tail_ l) (u64 (dsize_ l - 1)), h).

(** The loop of the destructor, from [n]: it reads the next node after the node is removed. *)
Fixpoint destroy_loop (fuel : nat) (n : Z) (l : DoubleLinkedList) (h : heap) : option heap :=
  match fuel with
  | O => None
  | S fuel =>
      if n =? tail_ l then Some (delete (head_ l) (delete (tail_ l) h))
      else
        '(_, l, h) ← Remove n l h;
        x ← h !! n;
        destroy_loop fuel (next_ x) l h
  end.

Definition DoubleLinkedList_destroy (fuel : nat) (l : DoubleLinkedList) (h : heap) : option heap :=
  hd ← h !! head_ l; destroy_loop fuel (next_ hd) l h.

End DoubleLinkedList.

(* ------------------------------------------------------------------ *)
(** * Chains of nodes *)
Module Chain.

(** The links of a heap. *)
Definition nx (h : heap) (a : Z) : option Z := next_ <$> h !! a.
Definition pv (h : heap) (a : Z) : option Z := pre_ <$> h !! a.
Definition hl (h : heap) (a : Z) : option Z := holder_ <$> h !! a.

Definition upd (f : Z -> option Z) (a v : Z) (b : Z) : option Z := if decide (b = a) then Some v else f b.

Lemma upd_eq f a v : upd f a v a = Some v.
Proof. unfold upd; by destruct (decide (a = a)). Qed.
Lemma upd_ne f a v b : b <> a -> upd f a v b = f b.
Proof. intros; unfold upd; by destruct (decide (b = a)). Qed.

(** What a heap knows of its nodes. *)
Definition fields (h : heap) (n p o : Z -> option Z) : Prop :=
  (forall b, nx h b = n b) /\ (forall b, pv h b = p b) /\ (forall b, hl h b = o b).

Lemma fields_self h : fields h (nx h) (pv h) (hl h).
Proof. done. Qed.

Lemma fields_next h a v n p o : fields h n p o -> is_Some (n a) -> exists h', set_next a v h = Some h' /\ fields h' (upd n a v) p o.
Proof.
  intros (Hn & Hp & Ho) [x Hx]; rewrite <- Hn in Hx; unfold nx in Hx; apply fmap_Some in Hx as (y & Hy & ->).
  unfold set_next; rewrite Hy; cbn; eexists; split; [done|].
  split; [|split]; intros b; rewrite <- ?Hn, <- ?Hp, <- ?Ho; unfold upd, nx, pv, hl; rewrite lookup_insert;
    destruct (decide (a = b)) as [<-|Hb]; cbn; try (destruct (decide _)); congruence || (by rewrite Hy) || (by rewrite <- ?Hn, <- ?Hp, <- ?Ho).
Qed.

Lemma fields_pre h a v n p o : fields h n p o -> is_Some (p a) -> exists h', set_pre a v h = Some h' /\ fields h' n (upd p a v) o.
Proof.
  intros (Hn & Hp & Ho) [x Hx]; rewrite <- Hp in Hx; unfold pv in Hx; apply fmap_Some in Hx as (y & Hy & ->).
  unfold set_pre; rewrite Hy; cbn; eexists; split; [done|].
  split; [|split]; intros b; rewrite <- ?Hn, <- ?Hp, <- ?Ho; unfold upd, nx, pv, hl; rewrite lookup_insert;
    destruct (decide (a = b)) as [<-|Hb]; cbn; try (destruct (decide _)); congruence || (by rewrite Hy) || (by rewrite <- ?Hn, <- ?Hp, <- ?Ho).
Qed.

Lemma fields_holder h a v n p o : fields h n p o -> is_Some (o a) -> exists h', set_holder a v h = Some h' /\ fields h' n p (upd o a v).
Proof.
  intros (Hn & Hp & Ho) [x Hx]; rewrite <- Ho in Hx; unfold hl in Hx; apply fmap_Some in Hx as (y & Hy & ->).
  unfold set_holder; rewrite Hy; cbn; eexists; split; [done|].
  split; [|split]; intros b; rewrite <- ?Hn, <- ?Hp, <- ?Ho; unfold upd, nx, pv, hl; rewrite lookup_insert;
    destruct (decide (a = b)) as [<-|Hb]; cbn; try (destruct (decide _)); congruence || (by rewrite Hy) || (by rewrite <- ?Hn, <- ?Hp, <- ?Ho).
Qed.

(** A node that is there, with the links it has. *)
Lemma fields_get h n p o a x y : fields h n p o -> n a = Some x -> p a = Some y ->
  exists z, h !! a = Some (mkNode y x z) /\ o a = Some z.
Proof.
  intros (Hn & Hp & Ho) E1 E2; rewrite <- Hn in E1; rewrite <- Hp in E2; rewrite <- Ho; unfold nx, pv, hl in *.
  destruct (h !! a) as [[p' n' o']|]; cbn in *; [|done]; injection E1 as ->; injection E2 as ->; by eexists.
Qed.

(** [l] is what lies between [a] and [b]. *)
Fixpoint path (n p : Z -> option Z) (a : Z) (l : list Z) (b : Z) : Prop :=
  match l with
  | [] => n a = Some b /\ p b = Some a
  | x :: l => (n a = Some x /\ p x = Some a) /\ path n p x l b
  end.

Lemma path_app n p a l1 x l2 b : path n p a (l1 ++ x :: l2) b <-> path n p a l1 x /\ path n p x l2 b.
Proof.
  revert a; induction l1 as [|y l1 IH]; intros a; cbn [app path]; [done|]; rewrite IH; tauto.
Qed.

Lemma path_ext n p n' p' a l b :
  path n p a l b -> (forall x, x ∈ a :: l -> n' x = n x) -> (forall x, x ∈ l ++ [b] -> p' x = p x) -> path n' p' a l b.
Proof.
  revert a; induction l as [|y l IH]; intros a; cbn [app path].
  - intros [H1 H2] Hn Hp; by rewrite Hn, Hp by set_solver.
  - intros [[H1 H2] H3] Hn Hp; rewrite Hn, Hp by set_solver; split; [done|]; apply IH; [done| |]; set_solver.
Qed.

(** The last node before [b] can be linked to another end. *)
Lemma path_retarget n p a l b :
  path n p a l b -> NoDup (a :: l) ->
  exists e, e ∈ a :: l /\ (e = a <-> l = []) /\ n e = Some b /\ p b = Some e /\
    forall n' p' c, (forall x, x ∈ a :: l -> x <> e -> n' x = n x) -> (forall x, x ∈ l -> p' x = p x) ->
      n' e = Some c -> p' c = Some e -> path n' p' a l c.
Proof.
  destruct l as [|e l _] using rev_ind; cbn [path]; intros H Hd.
  - exists a; split; [set_solver|]; split; [done|]; split; [apply H|]; split; [apply H|]; auto.
  - apply path_app in H as [H1 [H2 H3]]; exists e.
    rewrite app_comm_cons in Hd; apply list.NoDup_app in Hd as (Hd1 & Hd2 & _).
    split; [set_solver|]; split; [split; [intros ->; exfalso; apply (Hd2 a); set_solver|by destruct l]|].
    split; [done|]; split; [done|]; intros n' p' c Hn Hp Hc1 Hc2; apply path_app; split; [|by split].
    apply path_ext with n p; [done| |].
    + intros x Hx; apply Hn; [set_solver|]; intros ->; apply (Hd2 e); [done|set_solver].
    + intros x Hx; apply Hp; set_solver.
Qed.

(** Every node of a chain is there. *)
Lemma path_some n p a l b x : path n p a l b -> (x ∈ a :: l -> is_Some (n x)) /\ (x ∈ l ++ [b] -> is_Some (p x)).
Proof.
  revert a; induction l as [|y l IH]; intros a; cbn [app path].
  - intros [H1 H2]; split; intros Hx; set_unfold; destruct_or! Hx; subst; try done; by eexists.
  - intros [[H1 H2] H3]; destruct (IH y H3) as [I1 I2]; split; intros Hx; set_unfold; destruct Hx as [->|Hx]; auto; by eexists.
Qed.
End Chain.

(* ------------------------------------------------------------------ *)
(** * LinkedList implements lists *)
Module LinkedListSpec.
Import Chain LinkedList.

(** The heap holds the elements [ns] in the list [l]. *)
Definition ring (h : heap) (l : LinkedList) (ns : list Z) : Prop :=
  path (nx h) (pv h) (root_ l) ns (root_ l) /\ NoDup (root_ l :: ns) /\ 0 ∉ root_ l :: ns /\
  size_ l = zlen ns /\ zlen ns < 2 ^ 64.

(** A node that is in no list. *)
Definition detached (h : heap) (e : Z) : Prop := nx h e = Some 0 /\ pv h e = Some 0.

Lemma fields_same h h' x : nx h x = nx h' x -> pv h x = pv h' x -> hl h x = hl h' x -> h !! x = h' !! x.
Proof.
  unfold nx, pv, hl; destruct (h !! x) as [[]|], (h' !! x) as [[]|]; cbn; try done; congruence.
Qed.

Lemma InsertBefore_fields this e q h n p o :
  fields h n p o -> this <> e -> is_Some (n this) -> is_Some (p this) -> p e = Some q -> is_Some (n e) -> is_Some (n q) ->
  exists h', InsertBefore this e h = Some h' /\ fields h' (upd (upd n this e) q this) (upd (upd p this q) e this) o.
Proof.
  intros H Hne Hn Hp He [y Hy] Hq; unfold InsertBefore.
  destruct (fields_next h this e n p o H Hn) as (h1 & -> & H1); cbn [mbind option_bind].
  destruct (fields_get h1 _ _ _ e y q H1) as (z & -> & _); [by rewrite upd_ne|done|]; cbn [mbind option_bind pre_].
  destruct (fields_pre h1 this q _ _ _ H1 Hp) as (h2 & -> & H2); cbn [mbind option_bind].
  destruct (fields_get h2 _ _ _ e y q H2) as (z2 & -> & _); [by rewrite upd_ne|by rewrite upd_ne|]; cbn [mbind option_bind pre_].
  destruct (fields_next h2 q this _ _ _ H2) as (h3 & -> & H3).
  { unfold upd; destruct (decide (q = this)); [by eexists|done]. }
  cbn [mbind option_bind]; apply fields_pre; [done|]; rewrite upd_ne by done; by eexists.
Qed.

Lemma RemoveFromList_fields this a b h n p o :
  fields h n p o -> a <> this -> b <> this -> n this = Some b -> p this = Some a -> is_Some (n a) -> is_Some (p b) ->
  exists h', RemoveFromList this h = Some h' /\ fields h' (upd (upd n a b) this 0) (upd (upd p b a) this 0) o.
Proof.
  intros H Ha Hb Hn Hp Hna Hpb; unfold RemoveFromList.
  destruct (fields_get h n p o this b a H Hn Hp) as (z & -> & _); cbn [mbind option_bind next_ pre_].
  destruct (fields_next h a b n p o H Hna) as (h1 & -> & H1); cbn [mbind option_bind].
  destruct (fields_get h1 _ _ _ this b a H1) as (z1 & -> & _); [by rewrite upd_ne|done|]; cbn [mbind option_bind next_ pre_].
  destruct (fields_pre h1 b a _ _ _ H1 Hpb) as (h2 & -> & H2); cbn [mbind option_bind].
  destruct (fields_next h2 this 0 _ _ _ H2) as (h3 & -> & H3); [rewrite upd_ne by done; by eexists|]; cbn [mbind option_bind].
  apply fields_pre; [done|]; rewrite upd_ne by done; by eexists.
Qed.

Lemma Append_ring h l ns e :
  ring h l ns -> e ∉ root_ l :: ns -> e <> 0 -> is_Some (h !! e) -> zlen ns + 1 < 2 ^ 64 ->
  exists l' h', Append e l h = Some (l', h') /\ ring h' l' (ns ++ [e]) /\ root_ l' = root_ l /\
    forall x, x ∉ e :: root_ l :: ns -> h' !! x = h !! x.
Proof.
  intros (Hp & Hd & H0 & Hs & Hl) He Hz [ne Hne] Hb; unfold Append; set (r := root_ l) in *.
  destruct (path_retarget _ _ _ _ _ Hp Hd) as (q & Hq & _ & Hq1 & Hq2 & Hre).
  destruct (proj1 (path_some _ _ _ _ _ r Hp) ltac:(set_solver)) as [rn Hrn].
  destruct (InsertBefore_fields e r q h _ _ _ (fields_self h)) as (h' & -> & F1 & F2 & F3); try done;
    [set_solver|by eexists; unfold nx; rewrite Hne|by eexists; unfold pv; rewrite Hne|].
  cbn [mbind option_bind]; eexists _, h'; split; [done|]; cbn [root_].
  assert (q <> e /\ e <> r) as [Hqe Her] by (split; set_solver).
  split; [|split; [done|]].
  - split; [|split; [|split; [set_solver|]]]; cbn [root_ size_].
    + apply path_app; split.
      * apply Hre; [intros x Hx Hxq|intros x Hx| |].
        -- rewrite F1, !upd_ne; [done|set_solver|done].
        -- rewrite F2, !upd_ne; [done|set_solver|]. intros ->; by apply list.NoDup_cons in Hd as [? _].
        -- by rewrite F1, upd_eq.
        -- rewrite F2, upd_ne, upd_eq; done.
      * split; [rewrite F1, upd_ne, upd_eq; done|by rewrite F2, upd_eq].
    + rewrite app_comm_cons; apply list.NoDup_app; split; [done|]; split; [set_solver|apply list.NoDup_singleton].
    + rewrite length_app; cbn [length]; rewrite Hs; unfold u64; rewrite Z.mod_small; lia.
  - intros x Hx; symmetry; apply fields_same; rewrite ?F1, ?F2, ?F3; unfold upd;
      repeat (destruct (decide _) as [->|]; [set_solver|]); done.
Qed.

Lemma Remove_ring h l l1 e l2 :
  ring h l (l1 ++ e :: l2) ->
  exists l' h', Remove e l h = Some (l', h') /\ ring h' l' (l1 ++ l2) /\ root_ l' = root_ l /\ detached h' e /\
    hl h' e = hl h e /\ forall x, x ∉ root_ l :: l1 ++ e :: l2 -> h' !! x = h !! x.
Proof.
  intros (Hp & Hd & H0 & Hs & Hl); unfold Remove; set (r := root_ l) in *.
  apply path_app in Hp as [Hp1 Hp2]; apply list.NoDup_cons in Hd as [Hr Hd]; apply list.NoDup_app in Hd as (Hd1 & Hd12 & Hd2).
  apply list.NoDup_cons in Hd2 as [He2 Hd2].
  destruct (path_retarget _ _ _ _ _ Hp1) as (a & Ha & _ & Ha1 & Ha2 & Hre); [apply list.NoDup_cons; set_solver|].
  assert (Hb : exists b, nx h e = Some b /\ b <> e /\ pv h b = Some e /\ b ∈ l2 ++ [r]).
  { destruct l2 as [|b l2]; [exists r|exists b]; cbn [path] in Hp2; split_and!; try apply Hp2; set_solver. }
  destruct Hb as (b & Hb1 & Hbe & Hb2 & Hb3).
  assert (a <> e) by set_solver.
  destruct (RemoveFromList_fields e a b h _ _ _ (fields_self h)) as (h' & -> & F1 & F2 & F3); try done.
  cbn [mbind option_bind]; eexists _, h'; split; [done|]; cbn [root_].
  assert (Hc : forall c, c = b -> path (nx h') (pv h') r l1 c).
  { intros c ->; apply Hre; [intros x Hx Hxa|intros x Hx| |].
    - rewrite F1, !upd_ne; [done|done|set_solver].
    - rewrite F2, !upd_ne; [done| |set_solver]. intros ->; set_unfold; destruct Hb3; [by apply (Hd12 b); set_unfold; auto|set_solver].
    - by rewrite F1, upd_ne, upd_eq.
    - by rewrite F2, upd_ne, upd_eq. }
  split; [|split; [done|split; [split; [by rewrite F1, upd_eq|by rewrite F2, upd_eq]|split; [by rewrite F3|]]]].
  - split; [|split; [|split; [set_solver|]]]; cbn [root_ size_].
    + destruct l2 as [|b' l2]; cbn [path] in Hp2.
      { rewrite app_nil_r; apply Hc; destruct Hp2 as [E _]; congruence. }
      apply path_app; destruct Hp2 as [[E _] Hp2]; assert (b' = b) as -> by congruence.
      split; [by apply Hc|]; apply path_ext with (nx h) (pv h); [done| |].
      * intros x Hx; rewrite F1, !upd_ne; [done| |set_solver]. intros ->; set_unfold; destruct Ha as [->|Ha]; [set_solver|].
        apply (Hd12 a); set_unfold; tauto.
      * intros x Hx; rewrite F2, !upd_ne; [done| |set_unfold; set_solver]. intros ->; apply list.NoDup_cons in Hd2 as [? _]; set_solver.
    + apply list.NoDup_cons; split; [set_solver|]; apply list.NoDup_app; split; [done|]; split; [set_solver|done].
    + rewrite !length_app in *; cbn [length] in *; rewrite Hs; unfold u64; rewrite Z.mod_small; lia.
  - intros x Hx; symmetry; apply fields_same; rewrite ?F1, ?F2, ?F3; unfold upd;
      repeat (destruct (decide _) as [->|]; [set_solver|]); done.
Qed.

(** ** A list under any sequence of operations *)

Inductive op := OAppend (e : Z) | ORemove (e : Z) | OFirst | OAttached (e : Z).

(** The calls, with what they return. *)
Fixpoint run_ops (ops : list op) (l : LinkedList) (h : heap) : option (list Z * LinkedList * heap) :=
  match ops with
  | [] => Some ([], l, h)
  | OAppend e :: ops => '(l, h) ← Append e l h; run_ops ops l h
  | ORemove e :: ops => '(l, h) ← Remove e l h; run_ops ops l h
  | OFirst :: ops => a ← First l h; '(outs, l, h) ← run_ops ops l h; Some (a :: outs, l, h)
  | OAttached e :: ops =>
      b ← Attatched e h; '(outs, l, h) ← run_ops ops l h; Some ((if b : bool then 1 else 0) :: outs, l, h)
  end.

(** The same on a plain list; [None] when a node is appended twice or removed
    without being in the list. *)
Fixpoint spec_ops (ops : list op) (ns : list Z) : option (list Z * list Z) :=
  match ops with
  | [] => Some ([], ns)
  | OAppend e :: ops => if decide (e ∈ ns) then None else spec_ops ops (ns ++ [e])
  | ORemove e :: ops => if decide (e ∈ ns) then spec_ops ops (filter (fun x => x <> e) ns) else None
  | OFirst :: ops => '(outs, ns') ← spec_ops ops ns; Some (default 0 (List.head ns) :: outs, ns')
  | OAttached e :: ops =>
      '(outs, ns') ← spec_ops ops ns; Some ((if decide (e ∈ ns) then 1 else 0) :: outs, ns')
  end.

Definition op_node (o : op) : list Z :=
  match o with OAppend e | ORemove e | OAttached e => [e] | OFirst => [] end.

(** The nodes [pool] that the operations use: each is in the list or in none. *)
Definition pool_ok (pool : list Z) (l : LinkedList) (ns : list Z) (h : heap) : Prop :=
  ns ⊆ pool /\ root_ l ∉ pool /\ 0 ∉ pool /\ zlen pool < 2 ^ 64 /\ forall e, e ∈ pool -> e ∉ ns -> detached h e.

Lemma First_ring h l ns : ring h l ns -> First l h = Some (default 0 (List.head ns)).
Proof.
  intros (Hp & Hd & H0 & _); unfold First, empty, head, nx in *.
  assert (exists y, nx h (root_ l) = Some y /\ y = default (root_ l) (List.head ns)) as (y & Hy & Ey)
    by (destruct ns as [|x ns]; eexists; (split; [apply Hp|done])).
  unfold nx in Hy; apply fmap_Some in Hy as (nd & -> & ->); cbn; rewrite Ey.
  destruct ns as [|x ns]; cbn; [by rewrite Z.eqb_refl|].
  destruct (Z.eqb_spec x (root_ l)) as [->|]; [apply list.NoDup_cons in Hd as [Hd _]; set_solver|done].
Qed.

Lemma Attatched_ring h l ns pool e : ring h l ns -> pool_ok pool l ns h -> e ∈ pool ->
  Attatched e h = Some (bool_decide (e ∈ ns)).
Proof.
  intros (Hp & Hd & H0 & _) (_ & _ & _ & _ & Hdet) He; unfold Attatched.
  destruct (decide (e ∈ ns)) as [Hin|Hin].
  - rewrite bool_decide_eq_true_2 by done.
    apply list_elem_of_split in Hin as (l1 & l2 & ->); apply path_app in Hp as [Hp1 Hp2].
    destruct (path_retarget _ _ _ _ _ Hp1) as (q & Hq & _ & _ & Hq2 & _).
    { apply list.NoDup_cons in Hd as [? Hd]; apply list.NoDup_app in Hd as (? & _ & _); apply list.NoDup_cons; set_solver. }
    assert (exists b, nx h e = Some b /\ b ∈ l2 ++ [root_ l]) as (b & Hb & Hb2)
      by (destruct l2 as [|b l2]; eexists; (split; [apply Hp2|set_solver])).
    unfold nx, pv in *; destruct (h !! e) as [nd|]; cbn in *; [|done].
    injection Hb as ->; injection Hq2 as ->.
    destruct (Z.eqb_spec q 0) as [->|]; [set_solver|]; destruct (Z.eqb_spec b 0) as [->|]; [set_solver|done].
  - rewrite bool_decide_eq_false_2 by done; destruct (Hdet e He Hin) as [H1 H2]; unfold nx, pv in *.
    destruct (h !! e) as [nd|]; cbn in *; [|done]; injection H1 as ->; injection H2 as ->; done.
Qed.

Lemma filter_split (l1 l2 : list Z) e : NoDup (l1 ++ e :: l2) -> filter (fun x => x <> e) (l1 ++ e :: l2) = l1 ++ l2.
Proof.
  intros Hd; apply list.NoDup_app in Hd as (_ & H12 & H2); apply list.NoDup_cons in H2 as [H2 _].
  assert (forall l : list Z, e ∉ l -> filter (fun x => x <> e) l = l) as K.
  { induction l as [|y l IH]; intros Hl; [done|]; rewrite filter_cons_True by set_solver; rewrite IH; set_solver. }
  rewrite list.filter_app, filter_cons_False by auto; rewrite !K; [done|set_solver|]. intros Hin; apply (H12 e); set_solver.
Qed.

(** C31.  Any sequence of operations on a linked list returns what the same operations
    on a plain list return and leaves that list, whatever the addresses of its
    nodes, as long as no node is appended twice and only elements are removed. *)
Theorem LinkedList_refines (ops : list op) (pool : list Z) : forall (h : heap) (l : LinkedList) (ns outs ns' : list Z),
  ring h l ns -> pool_ok pool l ns h -> concat (map op_node ops) ⊆ pool -> spec_ops ops ns = Some (outs, ns') ->
  exists l' h', run_ops ops l h = Some (outs, l', h') /\ ring h' l' ns' /\ pool_ok pool l' ns' h'.
Proof.
  induction ops as [|o ops IH]; intros h l ns outs ns' Hr Hpool Hops E; cbn [run_ops spec_ops map concat] in *.
  { injection E as <- <-; by exists l, h. }
  pose proof Hr as (_ & Hnd & _ & _ & _); pose proof Hpool as (P1 & P2 & P3 & P4 & P5).
  destruct o as [e|e| |e]; cbn [op_node] in Hops.
  - destruct (decide (e ∈ ns)) as [|Hin]; [done|]; assert (He : e ∈ pool) by set_solver.
    destruct (P5 e He Hin) as [D1 D2].
    assert (Hle : zlen ns + 1 <= zlen pool).
    { assert (length (e :: ns) <= length pool)%nat; [|cbn [length] in *; lia].
      apply submseteq_length, NoDup_submseteq; [|set_solver]. apply list.NoDup_cons in Hnd as [_ ?]; by apply list.NoDup_cons. }
    destruct (Append_ring h l ns e Hr) as (l1 & h1 & -> & Hr1 & Hroot & Hfr); [set_solver|set_solver| |lia|].
    { unfold nx in D1; destruct (h !! e); [by eexists|done]. }
    cbn [mbind option_bind]; apply (IH h1 l1 (ns ++ [e])); [done| |set_solver|done].
    unfold pool_ok; rewrite Hroot; split_and!; [set_solver|done|done|done|].
    intros x Hx Hxn; unfold detached, nx, pv; rewrite Hfr by set_solver; apply P5; set_solver.
  - destruct (decide (e ∈ ns)) as [Hin|]; [|done].
    apply list_elem_of_split in Hin as (l1 & l2 & ->).
    destruct (Remove_ring h l l1 e l2 Hr) as (l' & h1 & -> & Hr1 & Hroot & Hdet & _ & Hfr); cbn [mbind option_bind].
    rewrite filter_split in E by (by apply list.NoDup_cons in Hnd as [_ ?]).
    apply (IH h1 l' (l1 ++ l2)); [done| |set_solver|done].
    unfold pool_ok; rewrite Hroot; split_and!; [set_solver|done|done|done|].
    intros x Hx Hxn; destruct (decide (x = e)) as [->|]; [done|]; unfold detached, nx, pv; rewrite Hfr by set_solver; apply P5; set_solver.
  - rewrite (First_ring h l ns Hr); cbn [mbind option_bind]; destruct (spec_ops ops ns) as [[o2 n2]|] eqn:E2; [|done].
    cbn in E; injection E as <- <-; destruct (IH h l ns o2 n2 Hr Hpool ltac:(set_solver) E2) as (l' & h' & -> & Hr' & Hp'); by exists l', h'.
  - rewrite (Attatched_ring h l ns pool e Hr Hpool) by set_solver; cbn [mbind option_bind].
    destruct (spec_ops ops ns) as [[o2 n2]|] eqn:E2; [|done]; cbn in E; injection E as <- <-.
    destruct (IH h l ns o2 n2 Hr Hpool ltac:(set_solver) E2) as (l' & h' & -> & Hr' & Hp'); exists l', h'; split; [|done].
    cbn; case_bool_decide; by case_decide.
Qed.

Definition three_nodes : heap := <[1 := mkNode 1 1 0]> (<[5 := mkNode 0 0 0]> (<[6 := mkNode 0 0 0]> ∅)).

Lemma LinkedList_refines_witness :
  exists l' h', run_ops [OAppend 5; OAppend 6; OFirst; ORemove 5; OFirst; OAttached 5] (mkList 1 0) three_nodes
      = Some ([5; 6; 0], l', h') /\ ring h' l' [6] /\ pool_ok [5; 6] l' [6] h'.
Proof.
  apply (LinkedList_refines [OAppend 5; OAppend 6; OFirst; ORemove 5; OFirst; OAttached 5] [5; 6] three_nodes (mkList 1 0) []).
  - split_and!; cbn; try reflexivity; try set_solver. apply list.NoDup_singleton.
  - split_and!; cbn; try set_solver; try reflexivity. intros e He _; set_unfold in He; destruct He as [->|[->|[]]]; by split.
  - cbn; set_solver.
  - vm_compute; reflexivity.
Defined.

(** [PopAndRemove] does not count down: the list is empty and its size is one. *)
Theorem pop_keeps_size :
  exists l h l' h', Append 5 (mkList 1 0) three_nodes = Some (l, h) /\ PopAndRemove l h = Some (5, l', h') /\
    empty l' h' = Some true /\ size_ l' = 1.
Proof. eexists _, _, _, _; split_and!; vm_compute; reflexivity. Qed.
End LinkedListSpec.

(* ------------------------------------------------------------------ *)
(** * What goes wrong with DoubleLinkedList *)
Module DoubleLinkedListFlaws.
Import DoubleLinkedList.

(** Two empty lists, with sentinels at 1, 2 and 3, 4, and a free node at 9. *)
Definition two_lists : DoubleLinkedList * DoubleLinkedList * heap :=
  let h := <[9 := mkNode 0 0 0]> (∅ : heap) in
  let '(a, h) := DoubleLinkedList_new 10 1 2 h in
  let '(b, h) := DoubleLinkedList_new 20 3 4 h in (a, b, h).

(** The destructor of a list that still has a node reads through the null pointer
    it has just stored, whatever the fuel. *)
Theorem destroy_nonempty_crashes (fuel : nat) :
  forall l h, PushBack 9 two_lists.1.1 two_lists.2 = Some (true, l, h) -> DoubleLinkedList_destroy fuel l h = None.
Proof.
  intros l h E; vm_compute in E; injection E as <- <-; unfold DoubleLinkedList_destroy; cbn.
  destruct fuel as [|[|fuel]]; [done|done|]; vm_compute; reflexivity.
Qed.

(** A node that is in one list is accepted by another: the first list then leads
    into the second and does not end at its own tail. *)
Theorem push_corrupts_other_list :
  exists a b h1 h2, PushBack 9 two_lists.1.1 two_lists.2 = Some (true, a, h1) /\
    PushBack 9 two_lists.1.2 h1 = Some (true, b, h2) /\
    Front a h2 = Some 9 /\ next_ <$> h2 !! 9 = Some (tail_ b) /\ tail_ b <> tail_ a.
Proof. eexists _, _, _, _; split_and!; [vm_compute; reflexivity..|vm_compute; discriminate]. Qed.
End DoubleLinkedListFlaws.
