(* ===== verification/CoRunner.v ===== *)
(** * The coroutine scheduler (base/coroutine/{co_runner,bstctx_impl}.{h,cc,hpp})

    A [CoroRunner] belongs to a message loop.  Its [Run] resumes the coroutines that
    are ready and starts coroutines for the tasks that are scheduled; a coroutine
    runs tasks until there are none left, and a task that waits switches back to
    the main coroutine, to be resumed through the closure [MakeResumer] gave it.

    What a task does is a list of [action]s, the calls it makes of the runner; a
    suspended coroutine is the actions it still has to do.  [step] is one step of
    the loop's thread: of [Run], or of the coroutine that is running.  [env] is a
    step of anybody else: other threads that schedule, publish, steal or resume,
    timers, and the loop between two [Run]s.  The switch of the call stacks itself
    (fcontext) is taken as given.  A linked list of coroutines is the list of its
    elements, which LinkedList.v justifies, and a posted task is not null.  Which
    element a concurrent queue gives is a parameter.

    [runner_inv] is the invariant of the lists; [abort_iff_refused] says when the
    runner's own checks fail; [task_run_once] that no task is lost or run twice;
    [run_starts_all] that [Run] ends and what it has done then; [resume_once] what a
    resumer does. *)
From stdpp Require Import gmap.
From S2P Require Import Prelude.

Module CoRunner.

(* ------------------------------------------------------------------ *)
(** * Tasks and the state of the runner *)

(** A resumer is kept by whoever gets it, under a name. *)
Inductive action :=
  | MakeResumer (h : Z)
  | CallResumer (h : Z)
  | Yield
  | Sched
  | Sleep
  | Schedule (t : list action)    (* a task for this runner *)
  | Publish (t : list action)     (* a task for any runner *)
  | Work (n : Z).

Abbreviation task := (list action).

(** What the queues hold: tasks, and closures that resume a coroutine. *)
Inductive item := ITask (t : task) | IResume (co id : Z).

(** [class Coroutine]: [code] is what it does when it is resumed, [None] when it is
    to ask for the next task. *)
Record Coroutine := mkCo { resume_id_ : Z; code : option task }.

(** [class OneRunContext]: the tasks from [task_idx] on, and how many more may be
    taken from which queue. *)
Inductive queue := NoQueue | RemoteSched | GlobalRemote.
Record OneRunContext := mkRun { tasks : list item; max_dequeue : nat; tsk_queue : queue }.

Record Pool := mkPool {
  coros : gmap Z Coroutine;       (* the coroutines that exist *)
  next_co : Z;                    (* the address of the next one; main_ is 0 *)
  ready_list_ : list Z;
  freelist_ : list Z;
  gc_list_ : list Z;
  max_reuse_co_ : Z;
}.

Record Queues := mkQueues {
  run_ : OneRunContext; sched_tasks_ : list item; remote_sched_ : list item; g_remote : list item }.

(** The resumers and timers that are out, and the history: tasks posted, started,
    taken by other runners, and the work done. *)
Record Outside := mkOutside {
  resumers : gmap Z (Z * Z); timers : list (Z * Z);
  posted : list task; started : list task; stolen : list task; trace : list Z }.

(** Where [Run] is: in the first loop over the ready coroutines, in the loops over
    [remote_sched_], [sched_tasks_] and [g_remote], in the last loop, or not running. *)
Inductive phase := Ready1 | Remote | Nested | Steal | Ready2 | NotRunning.

Record Runner := mkRunner {
  phase_ : phase;
  current_ : Z;
  pool : Pool;
  queues : Queues;
  outside : Outside;
  co_usage_cnt : Z; peek_co_actives_ : Z; sched_ticks_ : Z; time_ms : Z;
}.

Definition set_phase p s := mkRunner p (current_ s) (pool s) (queues s) (outside s) (co_usage_cnt s) (peek_co_actives_ s) (sched_ticks_ s) (time_ms s).
Definition set_current c s := mkRunner (phase_ s) c (pool s) (queues s) (outside s) (co_usage_cnt s) (peek_co_actives_ s) (sched_ticks_ s) (time_ms s).
Definition set_pool p s := mkRunner (phase_ s) (current_ s) p (queues s) (outside s) (co_usage_cnt s) (peek_co_actives_ s) (sched_ticks_ s) (time_ms s).
Definition set_queues q s := mkRunner (phase_ s) (current_ s) (pool s) q (outside s) (co_usage_cnt s) (peek_co_actives_ s) (sched_ticks_ s) (time_ms s).
Definition set_outside o s := mkRunner (phase_ s) (current_ s) (pool s) (queues s) o (co_usage_cnt s) (peek_co_actives_ s) (sched_ticks_ s) (time_ms s).
Definition set_usage n s := mkRunner (phase_ s) (current_ s) (pool s) (queues s) (outside s) n (peek_co_actives_ s) (sched_ticks_ s) (time_ms s).

Definition set_coros m p := mkPool m (next_co p) (ready_list_ p) (freelist_ p) (gc_list_ p) (max_reuse_co_ p).
Definition set_ready l p := mkPool (coros p) (next_co p) l (freelist_ p) (gc_list_ p) (max_reuse_co_ p).
Definition set_free l p := mkPool (coros p) (next_co p) (ready_list_ p) l (gc_list_ p) (max_reuse_co_ p).
Definition set_gc l p := mkPool (coros p) (next_co p) (ready_list_ p) (freelist_ p) l (max_reuse_co_ p).

Definition set_run r q := mkQueues r (sched_tasks_ q) (remote_sched_ q) (g_remote q).
Definition set_sched l q := mkQueues (run_ q) l (remote_sched_ q) (g_remote q).
Definition set_remote l q := mkQueues (run_ q) (sched_tasks_ q) l (g_remote q).
Definition set_global l q := mkQueues (run_ q) (sched_tasks_ q) (remote_sched_ q) l.

Definition add_posted t o := mkOutside (resumers o) (timers o) (posted o ++ [t]) (started o) (stolen o) (trace o).
Definition add_started t o := mkOutside (resumers o) (timers o) (posted o) (started o ++ [t]) (stolen o) (trace o).
Definition add_stolen t o := mkOutside (resumers o) (timers o) (posted o) (started o) (stolen o ++ [t]) (trace o).
Definition add_work n o := mkOutside (resumers o) (timers o) (posted o) (started o) (stolen o) (trace o ++ [n]).
Definition set_resumer h r o := mkOutside (<[h := r]> (resumers o)) (timers o) (posted o) (started o) (stolen o) (trace o).
Definition set_timers l o := mkOutside (resumers o) l (posted o) (started o) (stolen o) (trace o).

Definition main_ : Z := 0.
Definition kMinReuseCoros : Z := 64.
Definition kMillsPerSec : Z := 1000.

Definition runner_new (ticks : Z) : Runner :=
  mkRunner NotRunning main_ (mkPool ∅ 1 [] [] [] 64)
    (mkQueues (mkRun [] 0 NoQueue) [] [] []) (mkOutside ∅ [] [] [] [] []) 0 0 ticks ticks.

(* ------------------------------------------------------------------ *)
(** * The operations *)

Definition Attatched (c : Z) (p : Pool) : bool := bool_decide (c ∈ ready_list_ p ++ freelist_ p ++ gc_list_ p).

(** [do_resume]: a resumer made before the last resume is stale. *)
Definition do_resume (c id : Z) (p : Pool) : Pool :=
  match coros p !! c with
  | None => p
  | Some co => if (resume_id_ co =? id) && negb (Attatched c p) then set_ready (ready_list_ p ++ [c]) p else p
  end.

Definition GC (c : Z) (p : Pool) : option Pool :=
  if Attatched c p then None
  else if zlen (freelist_ p) <? max_reuse_co_ p then Some (set_free (freelist_ p ++ [c]) p)
  else Some (set_gc (gc_list_ p ++ [c]) p).

Definition FreeCoros (p : Pool) : Pool :=
  set_gc [] (set_coros (foldl (fun m c => delete c m) (coros p) (gc_list_ p)) p).

(** [current_ = next; next->Resume()]; the counter of the main coroutine is not kept. *)
Definition SwitchContext (next : Z) (s : Runner) : option Runner :=
  if next =? current_ s then None
  else
    let s := set_current next s in
    if next =? main_ then Some s
    else
      co ← coros (pool s) !! next;
      Some (set_pool (set_coros (<[next := mkCo (u64 (resume_id_ co + 1)) (code co)]> (coros (pool s))) (pool s)) s).

(** Back to the main coroutine, which goes on with [FreeCoros()]. *)
Definition switch_to_main (s : Runner) : option Runner :=
  s ← SwitchContext main_ s; Some (set_pool (FreeCoros (pool s)) s).

Definition Spawn (s : Runner) : Z * Runner :=
  match freelist_ (pool s) with
  | c :: rest => (c, set_pool (set_free rest (pool s)) s)
  | [] =>
      let p := pool s in let c := next_co p in
      (c, set_pool (mkPool (<[c := mkCo 0 None]> (coros p)) (c + 1) (ready_list_ p) [] (gc_list_ p) (max_reuse_co_ p)) s)
  end.

Definition Remain (r : OneRunContext) : nat := length (tasks r) + max_dequeue r.

Definition TaskCount (q : Queues) : Z := zlen (sched_tasks_ q) + zlen (g_remote q) + zlen (remote_sched_ q).

Definition HasPeedingTask (s : Runner) : bool :=
  (0 <? TaskCount (queues s)) || negb (bool_decide (ready_list_ (pool s) = [])).

Definition set_code (c : Z) (k : option task) (s : Runner) : option Runner :=
  co ← coros (pool s) !! c;
  Some (set_pool (set_coros (<[c := mkCo (resume_id_ co) k]> (coros (pool s))) (pool s)) s).

Section Steps.
(** The index of the element that a dequeue gives. *)
Context (choose : list item -> nat).

Definition dequeue (q : list item) : option (item * list item) :=
  let i := (choose q mod length q)%nat in
  match q !! i with Some x => Some (x, delete i q) | None => None end.

(** [PopTask] *)
Definition PopTask (q : Queues) : option item * Queues :=
  let r := run_ q in
  match tasks r with
  | t :: ts => (Some t, set_run (mkRun ts (max_dequeue r) (tsk_queue r)) q)
  | [] =>
      match max_dequeue r with
      | O => (None, q)
      | S n =>
          let from := match tsk_queue r with RemoteSched => remote_sched_ q | GlobalRemote => g_remote q | NoQueue => [] end in
          match dequeue from with
          | Some (x, rest) =>
              let q := match tsk_queue r with RemoteSched => set_remote rest q | GlobalRemote => set_global rest q | NoQueue => q end in
              (Some x, set_run (mkRun [] n (tsk_queue r)) q)
          | None => (None, set_run (mkRun [] 0 (tsk_queue r)) q)
          end
      end
  end.

Inductive result := Next (s : Runner) | Finished (s : Runner) | Abort.

Definition next_of (o : option Runner) : result := match o with Some s => Next s | None => Abort end.

(** An action of the coroutine [c], whose counter is [id]. *)
Definition act (c id : Z) (a : action) (s : Runner) : option Runner :=
  match a with
  | MakeResumer h => Some (set_outside (set_resumer h (c, id) (outside s)) s)
  | CallResumer h =>
      '(c', id') ← resumers (outside s) !! h; Some (set_pool (do_resume c' id' (pool s)) s)
  | Yield => switch_to_main s
  | Sched =>
      if HasPeedingTask s then
        switch_to_main (set_queues (set_sched (sched_tasks_ (queues s) ++ [IResume c id]) (queues s)) s)
      else Some s
  | Sleep => switch_to_main (set_outside (set_timers (timers (outside s) ++ [(c, id)]) (outside s)) s)
  | Schedule t =>
      Some (set_outside (add_posted t (outside s)) (set_queues (set_sched (sched_tasks_ (queues s) ++ [ITask t]) (queues s)) s))
  | Publish t =>
      Some (set_outside (add_posted t (outside s)) (set_queues (set_global (g_remote (queues s) ++ [ITask t]) (queues s)) s))
  | Work n => Some (set_outside (add_work n (outside s)) s)
  end.

(** [task->Run()] *)
Definition run_item (c : Z) (x : item) (s : Runner) : option Runner :=
  match x with
  | ITask t => set_code c (Some t) (set_outside (add_started t (outside s)) s)
  | IResume c' id => Some (set_pool (do_resume c' id (pool s)) s)
  end.

(** [ExitCurrent] *)
Definition ExitCurrent (s : Runner) : option Runner :=
  p ← GC (current_ s) (pool s); switch_to_main (set_pool p s).

(** One step of the running coroutine: [CoroMain] and the tasks it runs. *)
Definition coro_step (c : Z) (s : Runner) : option Runner :=
  co ← coros (pool s) !! c;
  match code co with
  | None =>
      match PopTask (queues s) with
      | (Some x, q) => run_item c x (set_queues q s)
      | (None, q) => ExitCurrent (set_queues q s)
      end
  | Some [] => set_code c None s
  | Some (a :: k) => s ← set_code c (Some k) s; act c (resume_id_ co) a s
  end.

(** [SwitchContext(Spawn())] *)
Definition spawn_step (s : Runner) : option Runner :=
  let '(c, s) := Spawn (set_usage (co_usage_cnt s + 1) s) in SwitchContext c s.

(** [ready_list_.Remove(co); SwitchContext(co)] *)
Definition ready_step (c : Z) (rest : list Z) (s : Runner) : option Runner :=
  SwitchContext c (set_pool (set_ready rest (pool s)) s).

Definition enter (p : phase) (r : OneRunContext) (s : Runner) : Runner := set_phase p (set_queues (set_run r (queues s)) s).

(** The end of [Run]. *)
Definition finish_run (s : Runner) : Runner :=
  let peek := Z.max (peek_co_actives_ s) (co_usage_cnt s) in
  let s := mkRunner NotRunning (current_ s) (pool s) (queues s) (outside s) (co_usage_cnt s) peek (sched_ticks_ s) (time_ms s) in
  if kMillsPerSec <? u64 (time_ms s - sched_ticks_ s) then
    let p := pool s in
    mkRunner NotRunning (current_ s)
      (mkPool (coros p) (next_co p) (ready_list_ p) (freelist_ p) (gc_list_ p) (Z.max kMinReuseCoros peek))
      (queues s) (outside s) (co_usage_cnt s) peek (time_ms s) (time_ms s)
  else s.

(** One step of [Run] in the main coroutine. *)
Definition main_step (s : Runner) : result :=
  let q := queues s in
  match phase_ s with
  | Ready1 =>
      match ready_list_ (pool s) with
      | c :: rest => next_of (ready_step c rest s)
      | [] => Next (enter Remote (mkRun [] (length (remote_sched_ q)) RemoteSched) s)
      end
  | Remote =>
      if Nat.eqb (Remain (run_ q)) 0
      then Next (set_queues (set_run (mkRun (sched_tasks_ q) 0 NoQueue) (set_sched [] q)) (set_phase Nested s))
      else next_of (spawn_step s)
  | Nested =>
      if Nat.eqb (Remain (run_ q)) 0 then Next (enter Steal (mkRun [] (length (g_remote q)) GlobalRemote) s)
      else next_of (spawn_step s)
  | Steal =>
      if Nat.eqb (Remain (run_ q)) 0 then Next (set_phase Ready2 s) else next_of (spawn_step s)
  | Ready2 =>
      match ready_list_ (pool s) with
      | c :: rest => next_of (ready_step c rest s)
      | [] => Finished (finish_run s)
      end
  | NotRunning => Finished s
  end.

Definition step (s : Runner) : result :=
  if current_ s =? main_ then main_step s else next_of (coro_step (current_ s) s).

(** The loop calls [Run()]. *)
Definition start_run (s : Runner) : Runner := set_usage 0 (set_phase Ready1 s).

(** The steps of [Run], at most [n] of them. *)
Fixpoint run_steps (n : nat) (s : Runner) : result :=
  match n with
  | O => Next s
  | S n => match step s with Next s => run_steps n s | r => r end
  end.
End Steps.

(** ** The rest of the world *)

Definition in_loop (s : Runner) : Prop := current_ s = main_ /\ phase_ s = NotRunning.

Definition post_remote (x : item) (s : Runner) : Runner :=
  set_queues (set_remote (remote_sched_ (queues s) ++ [x]) (queues s)) s.

Inductive env : Runner -> Runner -> Prop :=
  (* another thread: ScheduleTask, Publish, Resume, and another runner that steals *)
  | EnvSchedule t s : env s (post_remote (ITask t) (set_outside (add_posted t (outside s)) s))
  | EnvPublish t s : env s (set_outside (add_posted t (outside s)) (set_queues (set_global (g_remote (queues s) ++ [ITask t]) (queues s)) s))
  | EnvResume c id s : env s (post_remote (IResume c id) s)
  | EnvSteal l1 t l2 s : g_remote (queues s) = l1 ++ ITask t :: l2 ->
      env s (set_outside (add_stolen t (outside s)) (set_queues (set_global (l1 ++ l2) (queues s)) s))
  (* the loop between two Runs: AppendTask, a resumer that is called, a timer, Run itself *)
  | EnvAppend t s : in_loop s ->
      env s (set_outside (add_posted t (outside s)) (set_queues (set_sched (sched_tasks_ (queues s) ++ [ITask t]) (queues s)) s))
  | EnvCall c id s : in_loop s -> env s (set_pool (do_resume c id (pool s)) s)
  | EnvRun s : in_loop s -> env s (start_run s)
  | EnvClock now s : env s (mkRunner (phase_ s) (current_ s) (pool s) (queues s) (outside s) (co_usage_cnt s) (peek_co_actives_ s) (sched_ticks_ s) now).

Section Reach.
Context (choose : list item -> nat).

Inductive reachable : Runner -> Prop :=
  | reach_new t : reachable (runner_new t)
  | reach_env s s' : reachable s -> env s s' -> reachable s'
  | reach_step s s' : reachable s -> step choose s = Next s' -> reachable s'
  | reach_end s s' : reachable s -> step choose s = Finished s' -> reachable s'.
End Reach.

(* ------------------------------------------------------------------ *)
(** * The invariant *)

(** The lists of coroutines, while [cur] runs: they are disjoint, they and the
    running coroutine exist, no coroutine waits to be destroyed, and exactly the
    free ones have no task to go on with. *)
Definition pool_inv (cur : Z) (p : Pool) : Prop :=
  gc_list_ p = [] /\ NoDup (ready_list_ p ++ freelist_ p) /\
  (forall c, c ∈ ready_list_ p ++ freelist_ p -> is_Some (coros p !! c)) /\
  (forall c co, coros p !! c = Some co -> 0 < c < next_co p) /\ 0 < next_co p /\
  (cur <> main_ -> is_Some (coros p !! cur) /\ cur ∉ freelist_ p) /\
  (forall c co, coros p !! c = Some co -> c <> cur -> code co = None <-> c ∈ freelist_ p).

(** [run_] belongs to the loop that [Run] is in. *)
Definition run_inv (p : phase) (r : OneRunContext) : Prop :=
  match p with
  | Ready1 | Ready2 | NotRunning => tasks r = [] /\ max_dequeue r = O
  | Remote => tasks r = [] /\ tsk_queue r = RemoteSched
  | Nested => max_dequeue r = O
  | Steal => tasks r = [] /\ tsk_queue r = GlobalRemote
  end.

Definition runner_inv (s : Runner) : Prop :=
  pool_inv (current_ s) (pool s) /\ run_inv (phase_ s) (run_ (queues s)) /\
  (current_ s <> main_ -> phase_ s <> NotRunning).

Lemma Attatched_inv cur p c : pool_inv cur p -> Attatched c p = bool_decide (c ∈ ready_list_ p ++ freelist_ p).
Proof. intros (Hg & _); unfold Attatched; rewrite Hg, app_nil_r; done. Qed.

Lemma do_resume_inv cur c id p : pool_inv cur p -> pool_inv cur (do_resume c id p).
Proof.
  intros Hi; unfold do_resume; rewrite (Attatched_inv cur) by done.
  destruct (coros p !! c) as [co|] eqn:E; [|done]; destruct (_ =? _); [|done]; cbn [andb].
  case_bool_decide as Hin; [done|]; cbn [negb]; destruct Hi as (H1 & H2 & H3 & H4 & H5 & H6 & H7).
  split_and!; cbn [set_ready gc_list_ ready_list_ freelist_ coros next_co]; try done.
  - rewrite <- app_assoc; apply list.NoDup_app in H2 as (N1 & N2 & N3); apply list.NoDup_app; split; [done|]; split; [set_solver|].
    cbn; apply list.NoDup_cons; set_solver.
  - intros x Hx; set_unfold; destruct_or! Hx; subst; [apply H3; set_solver|by eexists|apply H3; set_solver].
Qed.

Lemma FreeCoros_nil p : gc_list_ p = [] -> FreeCoros p = p.
Proof. destruct p; cbn; intros ->; done. Qed.

(** The pool after the counter and the code of a coroutine are set. *)
Lemma pool_inv_update cur cur' c id k p :
  pool_inv cur p -> is_Some (coros p !! c) -> (cur' = cur \/ (cur = main_ /\ cur' = c)) -> c ∉ freelist_ p -> (c <> cur' -> k <> None) ->
  pool_inv cur' (set_coros (<[c := mkCo id k]> (coros p)) p).
Proof.
  intros (H1 & H2 & H3 & H4 & H5 & H6 & H7) [co Hc] Hcur Hf Hk.
  split_and!; cbn [set_coros gc_list_ ready_list_ freelist_ coros next_co]; try done.
  - intros x Hx; destruct (decide (x = c)) as [->|]; [rewrite lookup_insert_eq|rewrite lookup_insert_ne by done]; [by eexists|auto].
  - intros x y Hx; destruct (decide (x = c)) as [->|]; [by eapply H4|rewrite lookup_insert_ne in Hx by done; by eapply H4].
  - intros Hm; destruct (decide (cur' = c)) as [->|]; [rewrite lookup_insert_eq; split; [by eexists|done]|].
    rewrite lookup_insert_ne by done; destruct Hcur as [->|[_ ->]]; [auto|done].
  - intros x y Hx Hxc; destruct (decide (x = c)) as [->|Hn].
    + rewrite lookup_insert_eq in Hx; injection Hx as <-; cbn; split; [intros ->; by destruct Hk|done].
    + rewrite lookup_insert_ne in Hx by done; apply (H7 x y Hx). destruct Hcur as [->|[-> ->]]; [done|].
      destruct (H4 x y Hx); unfold main_; lia.
Qed.

(** A running coroutine that has a task to go on with gives up the processor. *)
Lemma pool_inv_suspend cur p co :
  pool_inv cur p -> coros p !! cur = Some co -> code co <> None -> pool_inv main_ (FreeCoros p).
Proof.
  intros Hi Hc Hk; pose proof Hi as (H1 & H2 & H3 & H4 & H5 & H6 & H7); rewrite FreeCoros_nil by done.
  split_and!; try done; intros x y Hx Hxc; destruct (decide (x = cur)) as [->|]; [|by apply H7].
  assert (y = co) as -> by congruence; split; [done|]; intros Hf; exfalso; apply H6; [|done].
  destruct (H4 cur co Hc); unfold main_; lia.
Qed.

Lemma switch_to_main_ok s co :
  runner_inv s -> current_ s <> main_ -> coros (pool s) !! current_ s = Some co -> code co <> None ->
  exists s', switch_to_main s = Some s' /\ runner_inv s' /\ current_ s' = main_ /\ pool s' = pool s /\
    queues s' = queues s /\ outside s' = outside s /\ phase_ s' = phase_ s.
Proof.
  intros (Hp & Hr & Hc) Hm Hco Hk; unfold switch_to_main, SwitchContext.
  destruct (Z.eqb_spec main_ (current_ s)); [congruence|]; rewrite Z.eqb_refl; cbn [mbind option_bind].
  assert (gc_list_ (pool s) = []) as Hg by (destruct Hp; done).
  eexists; split; [done|]; cbn [pool set_pool set_current current_ queues outside phase_]; rewrite FreeCoros_nil by done.
  split; [|done]; split; [|split; [done|by intros ?]]; cbn.
  rewrite <- (FreeCoros_nil (pool s)) by done; by eapply pool_inv_suspend.
Qed.

(** The running coroutine ends. *)
Lemma ExitCurrent_ok s co :
  runner_inv s -> current_ s <> main_ -> coros (pool s) !! current_ s = Some co -> code co = None ->
  (current_ s ∈ ready_list_ (pool s) -> ExitCurrent s = None) /\
  (current_ s ∉ ready_list_ (pool s) -> exists s', ExitCurrent s = Some s' /\ runner_inv s' /\ current_ s' = main_ /\
     queues s' = queues s /\ outside s' = outside s /\ phase_ s' = phase_ s /\ ready_list_ (pool s') = ready_list_ (pool s) /\
     (coros (pool s') = coros (pool s) \/ coros (pool s') = delete (current_ s) (coros (pool s)))).
Proof.
  intros (Hp & Hr & Hc) Hm Hco Hk; pose proof Hp as (H1 & H2 & H3 & H4 & H5 & H6 & H7); destruct (H6 Hm) as [_ Hnf].
  unfold ExitCurrent, GC; rewrite (Attatched_inv (current_ s)) by done; split; intros Hin.
  { rewrite bool_decide_eq_true_2 by set_solver; done. }
  rewrite bool_decide_eq_false_2 by set_solver.
  unfold switch_to_main, SwitchContext.
  destruct (zlen (freelist_ (pool s)) <? max_reuse_co_ (pool s)); cbn [mbind option_bind current_ set_pool];
    (destruct (Z.eqb_spec main_ (current_ s)); [congruence|]); rewrite Z.eqb_refl; cbn [mbind option_bind];
    eexists; (split; [done|]); cbn [pool set_pool set_current current_ queues outside phase_].
  - rewrite FreeCoros_nil by done; cbn [set_free ready_list_ coros]; split; [|split_and!; auto]; split; [|split; [done|by intros ?]].
    cbn; split_and!; cbn [set_free gc_list_ ready_list_ freelist_ coros next_co]; try done.
    + rewrite app_assoc; apply list.NoDup_app; split; [done|]; split; [set_solver|apply list.NoDup_singleton].
    + intros x Hx; set_unfold; destruct_or! Hx; subst; [apply H3; set_solver|apply H3; set_solver|by eexists].
    + intros x y Hx Hx0; destruct (decide (x = current_ s)) as [->|Hn]; [|rewrite (H7 x y Hx Hn); set_solver].
      assert (y = co) as -> by congruence; split; [set_solver|done].
  - unfold FreeCoros; cbn [set_gc set_coros gc_list_ coros ready_list_ freelist_ next_co]; rewrite H1; cbn [app foldl].
    split; [|split_and!; auto]; split; [|split; [done|by intros ?]].
    cbn; split_and!; cbn [set_gc set_coros gc_list_ ready_list_ freelist_ coros next_co]; try done.
    + intros x Hx; rewrite lookup_delete_ne by set_solver; auto.
    + intros x y Hx; apply lookup_delete_Some in Hx as [_ Hx]; by eapply H4.
    + intros x y Hx Hx0; apply lookup_delete_Some in Hx as [Hn Hx]; apply (H7 x y); auto.
Qed.

(** [Run] switches to a coroutine that exists and is in none of the lists. *)
Lemma SwitchContext_ok s c co :
  pool_inv main_ (pool s) -> current_ s = main_ -> run_inv (phase_ s) (run_ (queues s)) -> phase_ s <> NotRunning ->
  coros (pool s) !! c = Some co -> c ∉ freelist_ (pool s) ->
  SwitchContext c s = Some (set_pool (set_coros (<[c := mkCo (u64 (resume_id_ co + 1)) (code co)]> (coros (pool s))) (pool s)) (set_current c s))
  /\ runner_inv (set_pool (set_coros (<[c := mkCo (u64 (resume_id_ co + 1)) (code co)]> (coros (pool s))) (pool s)) (set_current c s)).
Proof.
  intros Hp Hcur Hr Hph Hco Hf; pose proof Hp as (H1 & H2 & H3 & H4 & H5 & H6 & H7); pose proof (H4 c co Hco).
  unfold SwitchContext; rewrite Hcur; destruct (Z.eqb_spec c main_) as [->|]; [unfold main_ in *; lia|]; cbn [pool set_current].
  rewrite Hco; cbn [mbind option_bind]; split; [done|]; split; [|split; [done|by intros _]]; cbn.
  by apply pool_inv_update with main_; [done|eexists|right|done|].
Qed.

Lemma ready_step_ok s c rest :
  runner_inv s -> current_ s = main_ -> phase_ s <> NotRunning -> ready_list_ (pool s) = c :: rest ->
  exists s' co, ready_step c rest s = Some s' /\ runner_inv s' /\ current_ s' = c /\ coros (pool s) !! c = Some co /\
    queues s' = queues s /\ outside s' = outside s /\ phase_ s' = phase_ s /\ ready_list_ (pool s') = rest /\
    coros (pool s') = <[c := mkCo (u64 (resume_id_ co + 1)) (code co)]> (coros (pool s)).
Proof.
  intros (Hp & Hr & Hc) Hcur Hph Hrd; rewrite Hcur in Hp; pose proof Hp as (H1 & H2 & H3 & H4 & H5 & H6 & H7).
  destruct (H3 c) as [co Hco]; [rewrite Hrd; set_solver|]; rewrite Hrd in *.
  cbn [app] in H2; apply list.NoDup_cons in H2 as [Hn H2].
  assert (Hp' : pool_inv main_ (set_ready rest (pool s))).
  { split_and!; cbn [set_ready gc_list_ ready_list_ freelist_ coros next_co]; try done; intros x Hx; apply H3; set_solver. }
  destruct (SwitchContext_ok (set_pool (set_ready rest (pool s)) s) c co Hp') as [E Hi]; try done; [cbn; set_solver|].
  unfold ready_step; rewrite E; eexists _, co; split; [done|]; split; [done|]; by split_and!.
Qed.

Lemma spawn_step_ok s :
  runner_inv s -> current_ s = main_ -> phase_ s <> NotRunning ->
  exists s' c id, spawn_step s = Some s' /\ runner_inv s' /\ current_ s' = c /\ c <> main_ /\
    (coros (pool s) !! c = None \/ exists i, coros (pool s) !! c = Some (mkCo i None)) /\
    queues s' = queues s /\ outside s' = outside s /\ phase_ s' = phase_ s /\ ready_list_ (pool s') = ready_list_ (pool s) /\
    coros (pool s') = <[c := mkCo id None]> (coros (pool s)).
Proof.
  intros (Hp & Hr & Hc) Hcur Hph; rewrite Hcur in Hp; pose proof Hp as (H1 & H2 & H3 & H4 & H5 & H6 & H7).
  unfold spawn_step, Spawn; cbn [pool set_usage]; destruct (freelist_ (pool s)) as [|c rest] eqn:Ef.
  - set (c := next_co (pool s)); set (p' := mkPool _ _ _ _ _ _).
    assert (Hn : coros (pool s) !! c = None).
    { destruct (coros (pool s) !! c) as [co|] eqn:E; [|done]; destruct (H4 c co E); unfold c in *; lia. }
    assert (Hp' : pool_inv c p').
    { unfold p'; split_and!; cbn [gc_list_ ready_list_ freelist_ coros next_co]; try done; try lia.
      - intros x Hx; destruct (decide (x = c)) as [->|]; [rewrite lookup_insert_eq; by eexists|rewrite lookup_insert_ne by done; auto].
      - intros x y Hx; destruct (decide (x = c)) as [->|]; [unfold c; lia|rewrite lookup_insert_ne in Hx by done; destruct (H4 x y Hx); unfold c; lia].
      - intros _; rewrite lookup_insert_eq; split; [by eexists|set_solver].
      - intros x y Hx Hxc; rewrite lookup_insert_ne in Hx by done; rewrite (H7 x y Hx); [done|]; destruct (H4 x y Hx); unfold main_; lia. }
    assert (c <> main_) by (unfold c, main_; lia).
    unfold SwitchContext; cbn [current_ set_pool set_usage]; rewrite Hcur; destruct (Z.eqb_spec c main_); [done|].
    assert (Hpc : coros p' !! c = Some (mkCo 0 None)) by (unfold p'; cbn; apply lookup_insert_eq).
    assert (Hpf : coros p' = <[c := mkCo 0 None]> (coros (pool s)) /\ ready_list_ p' = ready_list_ (pool s) /\ freelist_ p' = []) by done.
    destruct Hpf as (P1 & P2 & P3); clearbody p' c; cbn [pool set_current set_pool]; rewrite Hpc; cbn [mbind option_bind resume_id_ code].
    eexists _, c, _; split; [done|]; split; [|split_and!; try done; [by left|]].
    + split; [|split; [done|by intros _]]; cbn; apply (pool_inv_update c c c); [done|by eexists|by left|rewrite P3; set_solver|done].
    + cbn; by rewrite P1, insert_insert_eq.
  - destruct (H3 c) as [co Hco]; [set_solver|].
    assert (Hm : c <> main_) by (destruct (H4 c co Hco); unfold main_; lia).
    assert (Hk : code co = None) by (apply (H7 c co Hco Hm); set_solver).
    apply list.NoDup_app in H2 as (N1 & N2 & N3); apply list.NoDup_cons in N3 as [N3 N4].
    assert (Hp' : pool_inv c (set_free rest (pool s))).
    { split_and!; cbn [set_free gc_list_ ready_list_ freelist_ coros next_co]; try done.
      - apply list.NoDup_app; split; [done|]; split; [set_solver|done].
      - intros x Hx; apply H3; set_solver.
      - intros x y Hx Hxc; rewrite (H7 x y Hx); [set_solver|]; destruct (H4 x y Hx); unfold main_; lia. }
    unfold SwitchContext; cbn [current_ set_pool set_usage]; rewrite Hcur; destruct (Z.eqb_spec c main_); [done|].
    cbn [pool set_current set_pool coros set_free]; rewrite Hco; cbn [mbind option_bind].
    eexists _, c, _; split; [done|]; split; [|split_and!; try done; [right; exists (resume_id_ co); rewrite Hco; destruct co; cbn in *; by subst|cbn; by rewrite Hk]].
    split; [|split; [done|by intros _]]; cbn; apply (pool_inv_update c c c _ _ (set_free rest (pool s)) Hp'); [by eexists|by left|done|done].
Qed.

Lemma set_code_ok s co k :
  runner_inv s -> current_ s <> main_ -> coros (pool s) !! current_ s = Some co ->
  set_code (current_ s) k s =
    Some (set_pool (set_coros (<[current_ s := mkCo (resume_id_ co) k]> (coros (pool s))) (pool s)) s) /\
  runner_inv (set_pool (set_coros (<[current_ s := mkCo (resume_id_ co) k]> (coros (pool s))) (pool s)) s).
Proof.
  intros (Hp & Hr & Hc) Hm Hco; unfold set_code; rewrite Hco; cbn [mbind option_bind]; split; [done|].
  split; [|split; done]; cbn; pose proof Hp as (_ & _ & _ & _ & _ & H6 & _); destruct (H6 Hm) as [_ Hf].
  apply (pool_inv_update (current_ s) (current_ s)); [done|by eexists|by left|done|done].
Qed.

Section Facts.
Context (choose : list item -> nat).
Notation step := (step choose).
Notation PopTask := (PopTask choose).

Lemma dequeue_split q x rest : dequeue choose q = Some (x, rest) -> exists l1 l2, q = l1 ++ x :: l2 /\ rest = l1 ++ l2.
Proof.
  unfold dequeue; destruct (q !! _) as [y|] eqn:E; [|done]; intros [= -> <-].
  exists (take (choose q mod length q) q), (drop (S (choose q mod length q)) q); split; [by rewrite take_drop_middle|].
  apply list.delete_take_drop.
Qed.

Lemma dequeue_None q : dequeue choose q = None -> q = [].
Proof.
  unfold dequeue; destruct q as [|x q]; [done|]; intros E; exfalso.
  destruct ((x :: q) !! (choose (x :: q) mod length (x :: q))%nat) as [y|] eqn:E'; [done|].
  apply lookup_ge_None in E'; pose proof (Nat.mod_upper_bound (choose (x :: q)) (length (x :: q))); cbn [length] in *; lia.
Qed.

Lemma PopTask_run_inv p q : run_inv p (run_ q) -> run_inv p (run_ (PopTask q).2).
Proof.
  unfold CoRunner.PopTask, run_inv; intros H; destruct (tasks (run_ q)) as [|t ts] eqn:Et.
  - destruct (max_dequeue (run_ q)) as [|n] eqn:En; [destruct p; cbn; naive_solver|].
    destruct (dequeue choose _) as [[x rest]|]; destruct p, (tsk_queue (run_ q)) eqn:Eq; cbn; naive_solver.
  - destruct p; cbn; naive_solver.
Qed.

(** A coroutine that is not at its end. *)
Lemma act_inv s co a :
  runner_inv s -> current_ s <> main_ -> coros (pool s) !! current_ s = Some co -> code co <> None ->
  match act (current_ s) (resume_id_ co) a s with
  | Some s' => runner_inv s' /\ phase_ s' = phase_ s
  | None => exists h, a = CallResumer h /\ resumers (outside s) !! h = None
  end.
Proof.
  intros Hi Hm Hco Hk; pose proof Hi as (Hp & Hr & Hc); destruct a as [h|h| | | |t|t|n]; cbn [act].
  - by split.
  - destruct (resumers (outside s) !! h) as [[c' id']|] eqn:E; cbn [mbind option_bind]; [|by exists h].
    split; [|done]; split; [by apply do_resume_inv|done].
  - destruct (switch_to_main_ok s co Hi Hm Hco Hk) as (s' & -> & Hi' & _ & _ & _ & _ & Hph); done.
  - destruct (HasPeedingTask s); [|done].
    set (s1 := set_queues _ s); destruct (switch_to_main_ok s1 co) as (s' & -> & Hi' & _ & _ & _ & _ & Hph); done.
  - set (s1 := set_outside _ s); destruct (switch_to_main_ok s1 co) as (s' & -> & Hi' & _ & _ & _ & _ & Hph); done.
  - by split.
  - by split.
  - by split.
Qed.

(** When a step of a coroutine is refused. *)
Definition refused (s : Runner) : Prop :=
  exists co, coros (pool s) !! current_ s = Some co /\
    ((code co = None /\ (PopTask (queues s)).1 = None /\ current_ s ∈ ready_list_ (pool s)) \/
     (exists h k, code co = Some (CallResumer h :: k) /\ resumers (outside s) !! h = None)).

Lemma coro_step_inv s :
  runner_inv s -> current_ s <> main_ ->
  match coro_step choose (current_ s) s with
  | Some s' => runner_inv s' /\ phase_ s' = phase_ s
  | None => refused s
  end.
Proof.
  intros Hi Hm; pose proof Hi as (Hp & Hr & Hc); pose proof Hp as (_ & _ & _ & _ & _ & H6 & _); destruct (H6 Hm) as [[co Hco] Hf].
  unfold coro_step; rewrite Hco; cbn [mbind option_bind]; destruct (code co) as [[|a k]|] eqn:Ek.
  - destruct (set_code_ok s co None Hi Hm Hco) as [-> Hi']; done.
  - destruct (set_code_ok s co (Some k) Hi Hm Hco) as [-> Hi']; cbn [mbind option_bind].
    set (s1 := set_pool _ s) in *; pose proof (act_inv s1 (mkCo (resume_id_ co) (Some k)) a Hi') as H.
    change (current_ s1) with (current_ s) in H; change (resume_id_ (mkCo (resume_id_ co) (Some k))) with (resume_id_ co) in H.
    specialize (H Hm); destruct (act _ _ a s1) as [s'|]; [apply H|destruct H as (h & -> & Hh)];
      try (unfold s1; cbn; by rewrite lookup_insert_eq); try done.
    exists co; split; [done|]; right; by exists h, k.
  - pose proof (PopTask_run_inv (phase_ s) (queues s) Hr) as Hr'.
    destruct (PopTask (queues s)) as [[[t|c' id']|] q] eqn:Eq; cbn [snd] in Hr'.
    + cbn [run_item]; set (s1 := set_outside _ (set_queues q s)).
      assert (runner_inv s1) as Hi1 by (by split).
      destruct (set_code_ok s1 co (Some t) Hi1 Hm Hco) as [E Hi']; change (current_ s1) with (current_ s) in E; rewrite E; done.
    + cbn [run_item]; split; [|done]; split; [by apply do_resume_inv|done].
    + assert (runner_inv (set_queues q s)) as Hi1 by (by split).
      destruct (ExitCurrent_ok (set_queues q s) co Hi1 Hm Hco Ek) as [E1 E2].
      destruct (decide (current_ s ∈ ready_list_ (pool s))) as [Hin|Hin].
      * rewrite E1 by done; exists co; split; [done|]; left; by rewrite Eq.
      * destruct (E2 Hin) as (s' & -> & Hi' & _ & _ & _ & Hph & _); done.
Qed.

Lemma runner_step_inv s : runner_inv s ->
  match step s with
  | Next s' => runner_inv s'
  | Finished s' => runner_inv s'
  | Abort => current_ s <> main_ /\ refused s
  end.
Proof.
  intros Hi; unfold CoRunner.step; destruct (Z.eqb_spec (current_ s) main_) as [Hm|Hm].
  - pose proof Hi as (Hp & Hr & Hc); unfold main_step; destruct (phase_ s) eqn:Eph.
    + destruct (ready_list_ (pool s)) as [|c rest] eqn:Erd.
      { split; [done|]; split; [done|]; by cbn. }
      destruct (ready_step_ok s c rest Hi Hm ltac:(congruence) Erd) as (s' & co & -> & Hi' & _); done.
    + destruct (Nat.eqb_spec (Remain (run_ (queues s))) 0); [split; [done|]; by split|].
      destruct (spawn_step_ok s Hi Hm ltac:(congruence)) as (s' & c & id & -> & Hi' & _); done.
    + destruct (Nat.eqb_spec (Remain (run_ (queues s))) 0); [split; [done|]; by split|].
      destruct (spawn_step_ok s Hi Hm ltac:(congruence)) as (s' & c & id & -> & Hi' & _); done.
    + destruct (Nat.eqb_spec (Remain (run_ (queues s))) 0) as [E|].
      { unfold Remain in E; split; [done|]; split; [|done]; cbn; destruct Hr as [-> _]; split; [done|lia]. }
      destruct (spawn_step_ok s Hi Hm ltac:(congruence)) as (s' & c & id & -> & Hi' & _); done.
    + destruct (ready_list_ (pool s)) as [|c rest] eqn:Erd.
      { unfold finish_run; destruct (_ <? _); (split; [|split; [done|by rewrite Hm]]); cbn; by rewrite Hm in *. }
      destruct (ready_step_ok s c rest Hi Hm ltac:(congruence) Erd) as (s' & co & -> & Hi' & _); done.
    + done.
  - pose proof (coro_step_inv s Hi Hm) as H; destruct (coro_step choose (current_ s) s); cbn; [apply H|done].
Qed.

Lemma env_inv s s' : env s s' -> runner_inv s -> runner_inv s'.
Proof.
  intros He (Hp & Hr & Hc); destruct He; split; cbn; try done; try (by split).
  - by apply do_resume_inv.
  - destruct H as [H1 H2]; rewrite H2 in *; by split.
Qed.

Lemma reachable_inv s : reachable choose s -> runner_inv s.
Proof.
  induction 1 as [t|s s' _ IH He|s s' _ IH He|s s' _ IH He].
  - split; [|by split]; cbn; split_and!; try done; try (intros ? ? H; by rewrite lookup_empty in H); [by apply list.NoDup_nil|set_solver].
  - by eapply env_inv.
  - pose proof (runner_step_inv s IH) as H; by rewrite He in H.
  - pose proof (runner_step_inv s IH) as H; by rewrite He in H.
Qed.
End Facts.

(* ------------------------------------------------------------------ *)
(** * No task is lost or run twice *)

(** The steps that only touch the coroutines. *)
Definition same_work (s s' : Runner) : Prop := queues s' = queues s /\ outside s' = outside s.

Lemma SwitchContext_work c s s' : SwitchContext c s = Some s' -> same_work s s'.
Proof.
  unfold SwitchContext; destruct (_ =? _); [done|]; destruct (_ =? _); [by intros [= <-]|].
  destruct (coros _ !! c); cbn; [|done]; by intros [= <-].
Qed.

Lemma switch_to_main_work s s' : switch_to_main s = Some s' -> same_work s s'.
Proof.
  unfold switch_to_main; destruct (SwitchContext main_ s) as [s1|] eqn:E; cbn; [|done].
  intros [= <-]; apply SwitchContext_work in E; done.
Qed.

Lemma set_code_work c k s s' : set_code c k s = Some s' -> same_work s s'.
Proof. unfold set_code; destruct (coros _ !! c); cbn; [|done]; by intros [= <-]. Qed.

Lemma ExitCurrent_work s s' : ExitCurrent s = Some s' -> same_work s s'.
Proof.
  unfold ExitCurrent; destruct (GC _ _) as [p|]; cbn; [|done]; intros E; apply switch_to_main_work in E; done.
Qed.

Lemma spawn_step_work s s' : spawn_step s = Some s' -> same_work s s'.
Proof.
  unfold spawn_step, Spawn; destruct (freelist_ _); intros E; apply SwitchContext_work in E; done.
Qed.

Lemma ready_step_work c rest s s' : ready_step c rest s = Some s' -> same_work s s'.
Proof. unfold ready_step; intros E; apply SwitchContext_work in E; done. Qed.

Definition item_tasks (l : list item) : list task :=
  omap (fun x => match x with ITask t => Some t | IResume _ _ => None end) l.

(** Everything that is queued. *)
Definition queued (q : Queues) : list item := tasks (run_ q) ++ sched_tasks_ q ++ remote_sched_ q ++ g_remote q.

(** Every task that was posted has been started, was taken by another runner, or is queued. *)
Definition balanced (s : Runner) : Prop :=
  posted (outside s) ≡ₚ started (outside s) ++ stolen (outside s) ++ item_tasks (queued (queues s)).

Lemma same_work_balanced s s' : same_work s s' -> balanced s -> balanced s'.
Proof. intros [H1 H2]; unfold balanced; by rewrite H1, H2. Qed.

Lemma item_tasks_app l1 l2 : item_tasks (l1 ++ l2) = item_tasks l1 ++ item_tasks l2.
Proof. apply omap_app. Qed.

Lemma item_tasks_perm l1 l2 : l1 ≡ₚ l2 -> item_tasks l1 ≡ₚ item_tasks l2.
Proof. intros H; unfold item_tasks; by rewrite H. Qed.

Lemma PopTask_queued choose q :
  match PopTask choose q with
  | (Some x, q') => queued q ≡ₚ x :: queued q'
  | (None, q') => queued q' = queued q
  end.
Proof.
  unfold PopTask, queued; destruct (tasks (run_ q)) as [|t ts] eqn:Et; [|cbn; done].
  destruct (max_dequeue (run_ q)) as [|n]; [by rewrite Et|].
  destruct (dequeue choose _) as [[x rest]|] eqn:E.
  - apply dequeue_split in E as (l1 & l2 & E & ->); destruct (tsk_queue (run_ q)); cbn.
    + by destruct l1.
    + rewrite E; solve_Permutation.
    + rewrite E; solve_Permutation.
  - done.
Qed.

Section Balance.
Context (choose : list item -> nat).

Lemma act_balanced c id a s s' : act c id a s = Some s' -> balanced s -> balanced s'.
Proof.
  destruct a as [h|h| | | |t|t|n]; cbn [act].
  - by intros [= <-].
  - destruct (resumers _ !! h) as [[c' id']|]; cbn; [|done]; by intros [= <-].
  - intros E; apply same_work_balanced; by apply switch_to_main_work.
  - destruct (HasPeedingTask s); [|by intros [= <-]]; intros E Hb; apply switch_to_main_work in E.
    apply (same_work_balanced _ _ E); unfold balanced, queued in *; cbn; rewrite !item_tasks_app in *; cbn; by rewrite app_nil_r.
  - intros E Hb; apply switch_to_main_work in E; by apply (same_work_balanced _ _ E).
  - intros [= <-] Hb; unfold balanced, queued in *; cbn; rewrite !item_tasks_app in *; cbn; rewrite Hb; solve_Permutation.
  - intros [= <-] Hb; unfold balanced, queued in *; cbn; rewrite !item_tasks_app in *; cbn; rewrite Hb; solve_Permutation.
  - by intros [= <-].
Qed.

Lemma coro_step_balanced c s s' : coro_step choose c s = Some s' -> balanced s -> balanced s'.
Proof.
  unfold coro_step; destruct (coros _ !! c) as [co|]; cbn; [|done]; destruct (code co) as [[|a k]|].
  - intros E; apply same_work_balanced; by eapply set_code_work.
  - destruct (set_code c (Some k) s) as [s1|] eqn:E1; cbn; [|done]; intros E Hb; eapply act_balanced; [exact E|].
    apply set_code_work in E1; by apply (same_work_balanced _ _ E1).
  - pose proof (PopTask_queued choose (queues s)) as Hq; destruct (PopTask choose (queues s)) as [[[t|c' id']|] q]; cbn [run_item].
    + intros E Hb; apply set_code_work in E; apply (same_work_balanced _ _ E); unfold balanced in *; cbn.
      rewrite Hb, (item_tasks_perm _ _ Hq); cbn; solve_Permutation.
    + intros [= <-] Hb; unfold balanced in *; cbn; by rewrite Hb, (item_tasks_perm _ _ Hq).
    + intros E Hb; apply ExitCurrent_work in E; apply (same_work_balanced _ _ E); unfold balanced in *; cbn; by rewrite Hq.
Qed.

Lemma step_balanced s : runner_inv s -> balanced s ->
  match step choose s with Next s' | Finished s' => balanced s' | Abort => True end.
Proof.
  intros (_ & Hr & _) Hb; unfold step; destruct (current_ s =? main_).
  - assert (forall o, (forall s', o = Some s' -> same_work s s') -> match next_of o with Next s' | Finished s' => balanced s' | Abort => True end) as K.
    { intros [s'|] H; cbn; [|done]; by apply (same_work_balanced s s' (H s' eq_refl)). }
    unfold main_step; destruct (phase_ s); cbn [run_inv] in Hr.
    + destruct (ready_list_ (pool s)); [|apply K; intros; by eapply ready_step_work].
      destruct Hr as [Ht _]; unfold balanced, queued in *; cbn; rewrite Ht in Hb; done.
    + destruct (Nat.eqb _ 0); [|apply K, spawn_step_work]; destruct Hr as [Ht _]; unfold balanced, queued in *; cbn.
      rewrite Ht in Hb; done.
    + destruct (Nat.eqb_spec (Remain (run_ (queues s))) 0) as [E|]; [|apply K, spawn_step_work].
      unfold Remain in E; unfold balanced, queued in *; cbn; destruct (tasks (run_ (queues s))); [done|cbn in E; lia].
    + destruct (Nat.eqb _ 0); [done|apply K, spawn_step_work].
    + destruct (ready_list_ (pool s)); [|apply K; intros; by eapply ready_step_work].
      unfold finish_run; by destruct (_ <? _).
    + done.
  - pose proof (coro_step_balanced (current_ s) s) as H; destruct (coro_step choose (current_ s) s); cbn; [by apply H|done].
Qed.

Lemma env_balanced s s' : env s s' -> balanced s -> balanced s'.
Proof.
  intros He Hb; destruct He; unfold balanced, queued in *; cbn; try done; rewrite ?item_tasks_app in *; cbn; try done;
    rewrite Hb; try solve_Permutation.
  rewrite H, ?item_tasks_app; cbn; rewrite ?item_tasks_app; solve_Permutation.
Qed.

(** C14.  In every state that is reached, with any interleaving of the loop, its
    coroutines and the other threads, every posted task is exactly one of: started
    on this runner, taken by another one, or still queued.  So no task is lost and
    none is started twice. *)
Theorem task_run_once (s : Runner) : reachable choose s ->
  posted (outside s) ≡ₚ started (outside s) ++ stolen (outside s) ++ item_tasks (queued (queues s)).
Proof.
  intros H; change (balanced s); induction H as [t|s s' _ IH He|s s' Hr IH He|s s' Hr IH He].
  - apply Permutation_refl.
  - by eapply env_balanced.
  - pose proof (step_balanced s (reachable_inv choose s Hr) IH) as K; by rewrite He in K.
  - pose proof (step_balanced s (reachable_inv choose s Hr) IH) as K; by rewrite He in K.
Qed.
End Balance.

(* ------------------------------------------------------------------ *)
(** * Run terminates *)

(** The work in an action, a queued item and a coroutine. *)
Fixpoint action_size (a : action) : nat :=
  match a with Schedule t | Publish t => 5 + sum_list_with action_size t | _ => 4 end.
Definition item_size (x : item) : nat := match x with ITask t => 3 + sum_list_with action_size t | IResume _ _ => 2 end.
Definition co_size (co : Coroutine) : nat := match code co with Some t => 1 + sum_list_with action_size t | None => 0 end.
Definition coros_size (m : gmap Z Coroutine) : nat := map_fold (fun _ co n => co_size co + n)%nat O m.

Lemma coros_size_insert m c co : m !! c = None -> coros_size (<[c := co]> m) = (co_size co + coros_size m)%nat.
Proof. intros H; unfold coros_size; rewrite map_fold_insert_L; [done|intros; lia|done]. Qed.

Lemma coros_size_delete m c co : m !! c = Some co -> coros_size m = (co_size co + coros_size (delete c m))%nat.
Proof.
  intros H; rewrite <- (insert_delete_id m c co H) at 1; apply coros_size_insert, lookup_delete_eq.
Qed.

Lemma coros_size_update m c co co' : m !! c = Some co ->
  (coros_size (<[c := co']> m) + co_size co = coros_size m + co_size co')%nat.
Proof.
  intros H; rewrite (coros_size_delete m c co H), <- insert_delete_eq, coros_size_insert by apply lookup_delete_eq; lia.
Qed.

(** All the work that is left, and the position in the loop that does it. *)
Definition work (s : Runner) : nat :=
  coros_size (coros (pool s)) + sum_list_with item_size (queued (queues s)) + length (ready_list_ (pool s)) + max_dequeue (run_ (queues s)).

Definition position (s : Runner) : nat :=
  if current_ s =? main_ then 5
  else match coros (pool s) !! current_ s with
       | Some co => match code co with
                    | None => if Nat.eqb (Remain (run_ (queues s))) 0 then 6 else 4
                    | Some _ => 4
                    end
       | None => 0
       end.

Definition measure (s : Runner) : nat := 10 * work s + position s.

Lemma position_bound s : (position s <= 6)%nat.
Proof.
  unfold position; destruct (_ =? _); [lia|]; destruct (coros _ !! _) as [co|]; [|lia]; destruct (code co); [lia|].
  destruct (Nat.eqb _ _); lia.
Qed.

Lemma measure_less s s' : (work s' < work s)%nat -> (measure s' < measure s)%nat.
Proof. intros H; unfold measure; pose proof (position_bound s'); lia. Qed.

Lemma sum_perm l1 l2 : l1 ≡ₚ l2 -> sum_list_with item_size l1 = sum_list_with item_size l2.
Proof. intros H; induction H; cbn; lia. Qed.

Lemma sum_app l1 l2 : sum_list_with item_size (l1 ++ l2) = (sum_list_with item_size l1 + sum_list_with item_size l2)%nat.
Proof. apply sum_list_with_app. Qed.

Lemma do_resume_size c id p :
  coros (do_resume c id p) = coros p /\ (length (ready_list_ (do_resume c id p)) <= length (ready_list_ p) + 1)%nat.
Proof.
  unfold do_resume; destruct (coros p !! c) as [co|]; [|split; [done|lia]]; destruct (_ && _); [|split; [done|lia]].
  split; [done|]; cbn; rewrite length_app; cbn; lia.
Qed.

Lemma switch_to_main_pool s s' : switch_to_main s = Some s' -> gc_list_ (pool s) = [] -> pool s' = pool s.
Proof.
  intros E Hg.
  unfold switch_to_main, SwitchContext in E; destruct (_ =? _); [done|]; rewrite Z.eqb_refl in E; cbn in E.
  injection E as <-; cbn; by apply FreeCoros_nil.
Qed.

Lemma PopTask_max choose q :
  match PopTask choose q with
  | (Some x, q') => (max_dequeue (run_ q') <= max_dequeue (run_ q))%nat
  | (None, q') => tasks (run_ q) = [] /\ max_dequeue (run_ q') = O /\ (max_dequeue (run_ q) = O -> q' = q)
  end.
Proof.
  unfold PopTask; destruct (tasks (run_ q)) as [|t ts] eqn:Et; [|cbn; lia].
  destruct (max_dequeue (run_ q)) as [|n] eqn:En; [done|].
  destruct (dequeue choose _) as [[x rest]|]; [|cbn; split_and!; done]; destruct (tsk_queue (run_ q)); cbn; lia.
Qed.

Lemma act_work c id a s s' : runner_inv s -> act c id a s = Some s' -> (work s' < work s + action_size a)%nat.
Proof.
  intros ((Hg & _) & _); destruct a as [h|h| | | |t|t|n]; cbn [act action_size].
  - intros [= <-]; unfold work; cbn; lia.
  - destruct (resumers _ !! h) as [[c' id']|]; cbn; [|done]; intros [= <-]; unfold work; cbn.
    destruct (do_resume_size c' id' (pool s)) as [-> ?]; lia.
  - intros E; pose proof (switch_to_main_pool _ _ E Hg) as Hp; apply switch_to_main_work in E as [Hq _].
    unfold work; rewrite Hp, Hq; lia.
  - destruct (HasPeedingTask s); [|intros [= <-]; lia]; intros E.
    pose proof (switch_to_main_pool _ _ E Hg) as Hp; apply switch_to_main_work in E as [Hq _].
    unfold work; rewrite Hp, Hq; unfold queued; cbn; rewrite !sum_app; cbn; lia.
  - intros E; pose proof (switch_to_main_pool _ _ E Hg) as Hp; apply switch_to_main_work in E as [Hq _].
    unfold work; rewrite Hp, Hq; cbn; lia.
  - intros [= <-]; unfold work, queued; cbn; rewrite !sum_app; cbn; lia.
  - intros [= <-]; unfold work, queued; cbn; rewrite !sum_app; cbn; lia.
  - intros [= <-]; unfold work; cbn; lia.
Qed.

Section Termination.
Context (choose : list item -> nat).

Lemma coro_step_measure s s' :
  runner_inv s -> current_ s <> main_ -> coro_step choose (current_ s) s = Some s' -> (measure s' < measure s)%nat.
Proof.
  intros Hi Hm; pose proof Hi as (Hp & Hr & _); pose proof Hp as (_ & _ & _ & _ & _ & H6 & _); destruct (H6 Hm) as [[co Hco] Hf].
  unfold coro_step; rewrite Hco; cbn [mbind option_bind]; destruct (code co) as [[|a k]|] eqn:Ek.
  - destruct (set_code_ok s co None Hi Hm Hco) as [-> _]; intros [= <-]; apply measure_less; unfold work; cbn.
    pose proof (coros_size_update (coros (pool s)) (current_ s) co (mkCo (resume_id_ co) None) Hco) as H.
    unfold co_size at 1 2 in H; rewrite Ek in H; cbn in H; lia.
  - destruct (set_code_ok s co (Some k) Hi Hm Hco) as [-> Hi']; cbn [mbind option_bind]; intros E; apply measure_less.
    apply act_work in E; [|done].
    pose proof (coros_size_update (coros (pool s)) (current_ s) co (mkCo (resume_id_ co) (Some k)) Hco) as H.
    unfold co_size at 1 2 in H; rewrite Ek in H; cbn in H; unfold work in *; cbn in *; lia.
  - pose proof (PopTask_queued choose (queues s)) as Hq; pose proof (PopTask_max choose (queues s)) as Hx.
    destruct (PopTask choose (queues s)) as [[[t|c' id']|] q] eqn:Epop; cbn [run_item].
    + apply sum_perm in Hq; cbn in Hq.
      set (s1 := set_outside _ (set_queues q s)); unfold set_code; cbn [pool s1 set_outside set_queues]; rewrite Hco; cbn [mbind option_bind].
      intros [= <-]; apply measure_less; unfold work; cbn.
      pose proof (coros_size_update (coros (pool s)) (current_ s) co (mkCo (resume_id_ co) (Some t)) Hco) as H.
      unfold co_size at 1 2 in H; rewrite Ek in H; cbn in H; lia.
    + apply sum_perm in Hq; cbn in Hq; intros [= <-]; apply measure_less; unfold work; cbn.
      destruct (do_resume_size c' id' (pool s)) as [-> ?]; lia.
    + destruct Hx as (Ht & Hx0 & Hxq); set (s1 := set_queues q s).
      assert (runner_inv s1) as Hi1.
      { split; [done|]; split; [|apply Hi]; pose proof (PopTask_run_inv choose (phase_ s) (queues s) Hr) as H; by rewrite Epop in H. }
      destruct (ExitCurrent_ok s1 co Hi1 Hm Hco Ek) as [E1 E2]; intros E.
      destruct (decide (current_ s ∈ ready_list_ (pool s))) as [Hin|Hin]; [by rewrite E1 in E|].
      destruct (E2 Hin) as (s2 & E3 & _ & Hc2 & Hq2 & _ & _ & Hrd2 & Hcs2).
      assert (s2 = s') as -> by congruence; clear E E1 E2 E3.
      assert (coros_size (coros (pool s')) = coros_size (coros (pool s))) as Hsz.
      { destruct Hcs2 as [->| ->]; [done|]; cbn [pool s1 set_queues]; rewrite (coros_size_delete _ _ _ Hco).
        unfold co_size; by rewrite Ek. }
      assert (work s' <= work s - max_dequeue (run_ (queues s)))%nat.
      { unfold work; rewrite Hsz, Hq2, Hrd2; cbn; rewrite Hq, Hx0; lia. }
      destruct (max_dequeue (run_ (queues s))) as [|n] eqn:En; [|apply measure_less; unfold work in *; lia].
      unfold measure, position at 1; rewrite Hc2; cbn [Z.eqb main_]; unfold position.
      destruct (Z.eqb_spec (current_ s) main_); [done|]; rewrite Hco, Ek; unfold Remain; rewrite Ht, En; cbn; lia.
Qed.

Definition rank (p : phase) : nat :=
  match p with Ready1 => 5 | Remote => 4 | Nested => 3 | Steal => 2 | Ready2 => 1 | NotRunning => 0 end.

Lemma runner_step_progress s s' : runner_inv s -> step choose s = Next s' ->
  (phase_ s' = phase_ s /\ (measure s' < measure s)%nat) \/ (rank (phase_ s') < rank (phase_ s))%nat.
Proof.
  intros Hi; unfold step; destruct (Z.eqb_spec (current_ s) main_) as [Hm|Hm].
  - assert (Hsp : Nat.eqb (Remain (run_ (queues s))) 0 = false -> phase_ s <> NotRunning -> next_of (spawn_step s) = Next s' ->
      phase_ s' = phase_ s /\ (measure s' < measure s)%nat).
    { intros Hrem Hph E; destruct (spawn_step_ok s Hi Hm Hph) as (s2 & c & id & E2 & _ & Hc & Hcm & Hco & Hq & _ & Hph2 & Hrd & Hcs).
      rewrite E2 in E; injection E as <-; split; [done|].
      assert (work s2 = work s) as Hw.
      { unfold work; rewrite Hcs, Hq, Hrd; destruct Hco as [Hn|[i Hs]]; [rewrite coros_size_insert by done; done|].
        pose proof (coros_size_update _ c _ (mkCo id None) Hs) as H; cbn in H; lia. }
      unfold measure; rewrite Hw; unfold position; rewrite Hc, Hm, Hcs, Hq, lookup_insert_eq; cbn [code Z.eqb main_].
      destruct (Z.eqb_spec c main_); [done|]; rewrite Hrem; cbn; lia. }
    assert (Hrdy : forall c rest, ready_list_ (pool s) = c :: rest -> phase_ s <> NotRunning -> next_of (ready_step c rest s) = Next s' ->
      phase_ s' = phase_ s /\ (measure s' < measure s)%nat).
    { intros c rest Erd Hph E; destruct (ready_step_ok s c rest Hi Hm Hph Erd) as (s2 & co & E2 & _ & _ & Hco & Hq & _ & Hph2 & Hrd & Hcs).
      rewrite E2 in E; injection E as <-; split; [done|]; apply measure_less; unfold work; rewrite Hcs, Hq, Hrd, Erd; cbn [length].
      pose proof (coros_size_update _ c _ (mkCo (u64 (resume_id_ co + 1)) (code co)) Hco) as H; unfold co_size in H; cbn in H; lia. }
    unfold main_step; destruct (phase_ s) eqn:Eph.
    + destruct (ready_list_ (pool s)) as [|c rest]; [intros [= <-]; right; cbn; lia|left; by apply (Hrdy c rest)].
    + destruct (Nat.eqb _ 0); [intros [= <-]; right; cbn; lia|left; by apply Hsp].
    + destruct (Nat.eqb _ 0); [intros [= <-]; right; cbn; lia|left; by apply Hsp].
    + destruct (Nat.eqb _ 0); [intros [= <-]; right; cbn; lia|left; by apply Hsp].
    + destruct (ready_list_ (pool s)) as [|c rest]; [done|left; by apply (Hrdy c rest)].
    + done.
  - pose proof (coro_step_inv choose s Hi Hm) as H; pose proof (coro_step_measure s) as Hd.
    destruct (coro_step choose (current_ s) s) as [s2|]; [|done]; intros [= <-]; left; split; [apply H|by apply Hd].
Qed.

Lemma run_ends r : forall m s, runner_inv s -> rank (phase_ s) = r -> (measure s < m)%nat ->
  exists n, match run_steps choose n s with Next _ => False | _ => True end.
Proof.
  induction r as [r IHr] using lt_wf_ind; induction m as [|m IHm]; intros s Hi Hr Hm; [lia|].
  pose proof (runner_step_inv choose s Hi) as Hs; destruct (step choose s) as [s'|s'|] eqn:E;
    [|exists 1%nat; cbn; by rewrite E|exists 1%nat; cbn; by rewrite E].
  assert (exists n, match run_steps choose n s' with Next _ => False | _ => True end) as [n Hn].
  { destruct (runner_step_progress s s' Hi E) as [[Hp Hl]|Hl].
    - apply IHm; [done|congruence|lia].
    - apply (IHr (rank (phase_ s')) ltac:(lia) (S (measure s'))); [done|done|lia]. }
  exists (S n); cbn; by rewrite E.
Qed.

(** ** What a run owes *)

(** The items a run is still to start, and the queue it takes them from. *)
Definition awaiting (p : phase) (q : Queues) : list item :=
  match p with Ready1 | Remote => remote_sched_ q ++ sched_tasks_ q | Nested => tasks (run_ q) | _ => [] end.

Definition drained (p : phase) (q : Queues) : Prop :=
  match p with
  | Ready1 => True
  | Remote => max_dequeue (run_ q) = length (remote_sched_ q)
  | _ => remote_sched_ q = []
  end.

(** Of the tasks [D] that were due when [before] had been started, each has been
    started or is awaited. *)
Definition owed (before D : list task) (s : Runner) : Prop :=
  drained (phase_ s) (queues s) /\
  exists L, started (outside s) = before ++ L /\ D ⊆+ L ++ item_tasks (awaiting (phase_ s) (queues s)).

Lemma owed_same before D s s' : phase_ s' = phase_ s -> same_work s s' -> owed before D s -> owed before D s'.
Proof. intros Hp [Hq Ho]; unfold owed; by rewrite Hp, Hq, Ho. Qed.

Lemma PopTask_owed p q : run_inv p (run_ q) -> drained p q ->
  match PopTask choose q with
  | (Some x, q') => drained p q' /\ item_tasks (awaiting p q) ⊆+ item_tasks [x] ++ item_tasks (awaiting p q')
  | (None, q') => drained p q' /\ awaiting p q' = awaiting p q
  end.
Proof.
  unfold PopTask, run_inv; intros Hr Hd; destruct (tasks (run_ q)) as [|t ts] eqn:Et.
  - destruct (max_dequeue (run_ q)) as [|n] eqn:En; [done|].
    destruct (dequeue choose _) as [[x rest]|] eqn:E.
    + apply dequeue_split in E as (l1 & l2 & E & ->); destruct p; try congruence; try (destruct Hr; congruence).
      * destruct Hr as [_ Hr]; rewrite Hr in *; cbn [awaiting drained run_ remote_sched_ g_remote set_remote set_run set_global max_dequeue tasks sched_tasks_ tsk_queue] in *; rewrite E in *; rewrite En, length_app in Hd; cbn [length] in Hd.
        split; [rewrite length_app; lia|]; rewrite <- item_tasks_app; apply Permutation_submseteq, item_tasks_perm; solve_Permutation.
      * destruct Hr as [_ Hr]; rewrite Hr; cbn; split; [done|]; by apply submseteq_nil_l.
    + apply dequeue_None in E; destruct p; try congruence; try (destruct Hr; congruence); cbn in *; try done.
      * destruct Hr as [_ Hr]; rewrite Hr in *; by rewrite E.
  - destruct p; try (destruct Hr; congruence); cbn [awaiting drained run_ remote_sched_ g_remote set_remote set_run set_global max_dequeue tasks sched_tasks_ tsk_queue] in *; split; [done|].
    rewrite Et, <- item_tasks_app; done.
Qed.

(** What a coroutine does only adds to the queues. *)
Lemma owed_grows before D s s' l :
  phase_ s' = phase_ s -> started (outside s') = started (outside s) -> run_ (queues s') = run_ (queues s) ->
  remote_sched_ (queues s') = remote_sched_ (queues s) -> sched_tasks_ (queues s') = sched_tasks_ (queues s) ++ l ->
  owed before D s -> owed before D s'.
Proof.
  intros Hp Ho Hr Hm Hs [Hd (L & HL & HD)]; unfold owed; rewrite Hp, Ho; split.
  { unfold drained in *; by rewrite Hr, Hm. }
  exists L; split; [done|]; etransitivity; [exact HD|]; apply submseteq_skips_l.
  unfold awaiting; rewrite Hr, Hm, Hs; destruct (phase_ s); try done;
    rewrite !item_tasks_app; apply submseteq_skips_l, submseteq_inserts_r; done.
Qed.

Lemma act_owed before D c id a s s' : act c id a s = Some s' -> phase_ s' = phase_ s -> owed before D s -> owed before D s'.
Proof.
  destruct a as [h|h| | | |t|t|n]; cbn [act]; intros E Hph.
  - injection E as <-; apply (owed_grows _ _ _ _ []); by rewrite ?app_nil_r.
  - destruct (resumers _ !! h) as [[c' id']|]; cbn in E; [|done]; injection E as <-; apply (owed_grows _ _ _ _ []); by rewrite ?app_nil_r.
  - apply owed_same; [done|]; by apply switch_to_main_work.
  - destruct (HasPeedingTask s); [|by injection E as <-]; apply switch_to_main_work in E as [Eq Eo].
    apply (owed_grows _ _ _ _ [IResume c id]); rewrite ?Eq, ?Eo; done.
  - apply switch_to_main_work in E as [Eq Eo]; apply (owed_grows _ _ _ _ []); rewrite ?Eq, ?Eo, ?app_nil_r; done.
  - injection E as <-; by apply (owed_grows _ _ _ _ [ITask t]).
  - injection E as <-; apply (owed_grows _ _ _ _ []); by rewrite ?app_nil_r.
  - injection E as <-; apply (owed_grows _ _ _ _ []); by rewrite ?app_nil_r.
Qed.

Lemma coro_step_owed before D s s' : runner_inv s -> current_ s <> main_ ->
  coro_step choose (current_ s) s = Some s' -> owed before D s -> owed before D s'.
Proof.
  intros Hi Hm E Ho; pose proof (coro_step_inv choose s Hi Hm) as Hph; rewrite E in Hph; destruct Hph as [_ Hph].
  unfold coro_step in E; destruct (coros (pool s) !! current_ s) as [co|]; cbn [mbind option_bind] in E; [|done].
  destruct (code co) as [[|a k]|].
  - apply set_code_work in E; by apply (owed_same _ _ s).
  - destruct (set_code (current_ s) (Some k) s) as [s1|] eqn:E1; cbn [mbind option_bind] in E; [|done].
    assert (phase_ s1 = phase_ s) as Hp1.
    { unfold set_code in E1; destruct (coros _ !! _); cbn in E1; [|done]; by injection E1 as <-. }
    apply set_code_work in E1; apply (act_owed _ _ _ _ _ _ _ E); [congruence|by apply (owed_same _ _ s)].
  - destruct Ho as [Hd (L & HL & HD)]; destruct Hi as (_ & Hr & _).
    pose proof (PopTask_owed (phase_ s) (queues s) Hr Hd) as Hpop; destruct (PopTask choose (queues s)) as [[x|] q]; destruct Hpop as [Hd' Hpop].
    + assert (D ⊆+ (L ++ item_tasks [x]) ++ item_tasks (awaiting (phase_ s) q)) as HD'.
      { rewrite <- app_assoc; etransitivity; [exact HD|]; by apply submseteq_skips_l. }
      destruct x as [t|c' id]; cbn [run_item] in E.
      * apply set_code_work in E as [Eq Eo]; unfold owed; rewrite Hph, Eq, Eo; cbn; split; [done|].
        exists (L ++ [t]); by rewrite HL, app_assoc.
      * injection E as <-; split; [done|]; exists L; by rewrite app_nil_r in HD'.
    + apply ExitCurrent_work in E as [Eq Eo]; unfold owed; rewrite Hph, Eq, Eo; cbn; split; [done|]; exists L; by rewrite Hpop.
Qed.

Lemma step_owed before D s : runner_inv s -> owed before D s ->
  match step choose s with Next s' | Finished s' => owed before D s' | Abort => True end.
Proof.
  intros Hi Ho; unfold step; destruct (Z.eqb_spec (current_ s) main_) as [Hm|Hm].
  - pose proof Hi as (_ & Hr & _); pose proof Ho as [Hd (L & HL & HD)]; unfold main_step; destruct (phase_ s) eqn:Eph.
    + destruct (ready_list_ (pool s)) as [|c rest] eqn:Erd; [by split; [|exists L]|].
      destruct (ready_step_ok s c rest Hi Hm ltac:(congruence) Erd) as (s' & co & -> & _ & _ & _ & Hq & Hoo & Hph & _).
      apply (owed_same _ _ s); [done|by split|done].
    + destruct (Nat.eqb_spec (Remain (run_ (queues s))) 0) as [E|].
      { unfold Remain in E; cbn in Hd; assert (remote_sched_ (queues s) = []) as Hrem by (apply nil_length_inv; lia).
        split; [done|]; exists L; split; [done|]; cbn in HD; by rewrite Hrem in HD. }
      destruct (spawn_step_ok s Hi Hm ltac:(congruence)) as (s' & c & id & -> & _ & _ & _ & _ & Hq & Hoo & Hph & _).
      apply (owed_same _ _ s); [done|by split|done].
    + destruct (Nat.eqb_spec (Remain (run_ (queues s))) 0) as [E|].
      { unfold Remain in E; assert (tasks (run_ (queues s)) = []) as Ht by (apply nil_length_inv; lia).
        split; [done|]; exists L; split; [done|]; cbn in HD; by rewrite Ht in HD. }
      destruct (spawn_step_ok s Hi Hm ltac:(congruence)) as (s' & c & id & -> & _ & _ & _ & _ & Hq & Hoo & Hph & _).
      apply (owed_same _ _ s); [done|by split|done].
    + destruct (Nat.eqb_spec (Remain (run_ (queues s))) 0) as [E|]; [by split; [|exists L]|].
      destruct (spawn_step_ok s Hi Hm ltac:(congruence)) as (s' & c & id & -> & _ & _ & _ & _ & Hq & Hoo & Hph & _).
      apply (owed_same _ _ s); [done|by split|done].
    + destruct (ready_list_ (pool s)) as [|c rest] eqn:Erd; [unfold finish_run; destruct (_ <? _); by split; [|exists L]|].
      destruct (ready_step_ok s c rest Hi Hm ltac:(congruence) Erd) as (s' & co & -> & _ & _ & _ & Hq & Hoo & Hph & _).
      apply (owed_same _ _ s); [done|by split|done].
    + done.
  - pose proof (coro_step_owed before D s) as H; destruct (coro_step choose (current_ s) s) as [s'|]; cbn; [by apply H|done].
Qed.

(** When [Run] returns, nothing is ready. *)
Lemma step_finished s s' : phase_ s <> NotRunning -> runner_inv s -> step choose s = Finished s' ->
  in_loop s' /\ ready_list_ (pool s') = [].
Proof.
  intros Hph Hi; unfold step; destruct (Z.eqb_spec (current_ s) main_) as [Hm|Hm]; [|by destruct (coro_step _ _ _)].
  unfold main_step; destruct (phase_ s); try done.
  - destruct (ready_list_ (pool s)); [done|]; by destruct (ready_step _ _ _).
  - destruct (Nat.eqb _ 0); [done|]; by destruct (spawn_step _).
  - destruct (Nat.eqb _ 0); [done|]; by destruct (spawn_step _).
  - destruct (Nat.eqb _ 0); [done|]; by destruct (spawn_step _).
  - destruct (ready_list_ (pool s)) eqn:E; [|by destruct (ready_step _ _ _)].
    intros [= <-]; unfold finish_run; destruct (_ <? _); by split.
Qed.

Lemma step_running s s' : phase_ s <> NotRunning -> runner_inv s -> step choose s = Next s' -> phase_ s' <> NotRunning.
Proof.
  intros Hph Hi; unfold step; destruct (Z.eqb_spec (current_ s) main_) as [Hm|Hm].
  - assert (Hs : next_of (spawn_step s) = Next s' -> phase_ s' <> NotRunning).
    { destruct (spawn_step_ok s Hi Hm Hph) as (s2 & c & id & -> & _ & _ & _ & _ & _ & _ & Hp & _); intros [= <-]; congruence. }
    assert (Hr : forall c rest, ready_list_ (pool s) = c :: rest -> next_of (ready_step c rest s) = Next s' -> phase_ s' <> NotRunning).
    { intros c rest Erd; destruct (ready_step_ok s c rest Hi Hm Hph Erd) as (s2 & co & -> & _ & _ & _ & _ & _ & Hp & _); intros [= <-]; congruence. }
    unfold main_step; destruct (phase_ s) eqn:Eph; try done.
    + destruct (ready_list_ (pool s)) as [|c rest]; [by intros [= <-]|by apply Hr].
    + destruct (Nat.eqb _ 0); [by intros [= <-]|done].
    + destruct (Nat.eqb _ 0); [by intros [= <-]|done].
    + destruct (Nat.eqb _ 0); [by intros [= <-]|done].
    + destruct (ready_list_ (pool s)) as [|c rest]; [done|by apply Hr].
  - pose proof (coro_step_inv choose s Hi Hm) as H; destruct (coro_step choose (current_ s) s) as [s2|]; [|done].
    intros [= <-]; destruct H as [_ ->]; done.
Qed.

Lemma run_steps_owed before D n : forall s, runner_inv s -> phase_ s <> NotRunning -> owed before D s ->
  match run_steps choose n s with
  | Next s' => True
  | Finished s' => owed before D s' /\ in_loop s' /\ ready_list_ (pool s') = []
  | Abort => exists m s', run_steps choose m s = Next s' /\ current_ s' <> main_ /\ refused choose s'
  end.
Proof.
  induction n as [|n IH]; intros s Hi Hph Ho; [done|]; cbn [run_steps].
  pose proof (runner_step_inv choose s Hi) as H1; pose proof (step_owed before D s Hi Ho) as H2.
  pose proof (step_running s) as H3; pose proof (step_finished s) as H4.
  destruct (step choose s) as [s'|s'|] eqn:E; [|split; [done|by apply H4]|by exists O, s].
  specialize (IH s' H1 (H3 s' Hph Hi eq_refl) H2); destruct (run_steps choose n s') as [| |]; [done|done|].
  destruct IH as (m & s2 & Hm & Hs2); exists (S m), s2; cbn [run_steps]; by rewrite E.
Qed.

(** When the loop runs its coroutines, [Run] comes to an end, unless it aborts: it
    resumes every coroutine that is ready, it starts every task that the loop and
    the other threads had scheduled, and leaves neither a ready coroutine nor a
    scheduled task of another thread behind. *)
Theorem run_starts_all (s : Runner) : reachable choose s -> in_loop s ->
  exists n, match run_steps choose n (start_run s) with
  | Next _ => False
  | Finished s' =>
      in_loop s' /\ ready_list_ (pool s') = [] /\ remote_sched_ (queues s') = [] /\
      exists L, started (outside s') = started (outside s) ++ L /\
        item_tasks (remote_sched_ (queues s) ++ sched_tasks_ (queues s)) ⊆+ L
  | Abort => exists m s', run_steps choose m (start_run s) = Next s' /\ current_ s' <> main_ /\ refused choose s'
  end.
Proof.
  intros Hreach Hl; pose proof (env_inv _ _ (EnvRun s Hl) (reachable_inv _ _ Hreach)) as Hi.
  destruct (run_ends 5 (S (measure (start_run s))) (start_run s) Hi eq_refl ltac:(lia)) as [n Hn]; exists n.
  pose proof (run_steps_owed (started (outside s)) (item_tasks (remote_sched_ (queues s) ++ sched_tasks_ (queues s))) n (start_run s) Hi) as H.
  destruct (run_steps choose n (start_run s)) as [s'|s'|]; [done|..|apply H; [done|]].
  - destruct H as ([Hd (L & HL & HD)] & Hlp & Hrd); [done| |].
    + split; [done|]; exists []; by rewrite app_nil_r.
    + split; [done|]; split; [done|]; destruct Hlp as [_ Hp]; rewrite Hp in *; split; [done|]; exists L; split; [done|].
      by rewrite app_nil_r in HD.
  - split; [done|]; exists []; by rewrite app_nil_r.
Qed.

(** C26.  A step of the runner aborts exactly when a coroutine that is on the ready list
    runs out of tasks, which [GC] checks, or when a task calls a resumer that it
    was not given; no check of [Run], of [Spawn] or of a switch ever fails. *)
Theorem abort_iff_refused (s : Runner) : reachable choose s ->
  step choose s = Abort <-> current_ s <> main_ /\ refused choose s.
Proof.
  intros Hreach; pose proof (reachable_inv _ _ Hreach) as Hi; split.
  - intros E; pose proof (runner_step_inv choose s Hi) as H; by rewrite E in H.
  - intros [Hm (co & Hco & H)]; unfold step; destruct (Z.eqb_spec (current_ s) main_); [done|].
    unfold coro_step; rewrite Hco; cbn [mbind option_bind]; destruct H as [(Hk & Hpop & Hin)|(h & k & Hk & Hh)]; rewrite Hk.
    + destruct (PopTask choose (queues s)) as [[x|] q] eqn:Eq; [done|].
      assert (runner_inv (set_queues q s)) as Hi1.
      { destruct Hi as (Hp & Hr & Hc); split; [done|]; split; [|done].
        pose proof (PopTask_run_inv choose (phase_ s) (queues s) Hr) as K; by rewrite Eq in K. }
      destruct (ExitCurrent_ok (set_queues q s) co Hi1 Hm Hco Hk) as [-> _]; done.
    + destruct (set_code_ok s co (Some k) Hi Hm Hco) as [-> _]; cbn [mbind option_bind act outside set_pool]; by rewrite Hh.
Qed.
End Termination.

(* ------------------------------------------------------------------ *)
(** * Resumers *)

(** A resumer puts its coroutine on the ready list at most once: called again before
    the coroutine has gone on, and called after it has, it does nothing. *)
Theorem resume_once (c id : Z) (p : Pool) :
  let p' := do_resume c id p in
  do_resume c id p' = p' /\
  (forall co, coros p !! c = Some co -> resume_id_ co <> id -> p' = p) /\
  (forall co, coros p !! c = Some co -> resume_id_ co = id -> Attatched c p = false ->
     ready_list_ p' = ready_list_ p ++ [c]).
Proof.
  cbn; unfold do_resume; destruct (coros p !! c) as [co|] eqn:E; [|rewrite E; split_and!; by intros].
  destruct (Z.eqb_spec (resume_id_ co) id) as [He|He]; cbn [andb].
  - destruct (Attatched c p) eqn:Ea; cbn [negb].
    + rewrite E, (proj2 (Z.eqb_eq _ _) He), Ea; split_and!; [done|..]; intros co' Hc; congruence.
    + cbn [coros set_ready]; rewrite E, (proj2 (Z.eqb_eq _ _) He); split_and!; [|intros co' Hc; congruence|done].
      unfold Attatched; cbn [ready_list_ set_ready]; rewrite bool_decide_eq_true_2 by set_solver; done.
  - rewrite E, (proj2 (Z.eqb_neq _ _) He); split_and!; [done|done|]; intros co' Hc; congruence.
Qed.

(* ------------------------------------------------------------------ *)
(** * Witnesses and an error in the code *)

Definition first_item : list item -> nat := fun _ => O.

Lemma reach_steps choose n : forall s s', reachable choose s -> run_steps choose n s = Next s' -> reachable choose s'.
Proof.
  induction n as [|n IH]; intros s s' Hr; cbn; [by intros [= <-]|].
  destruct (step choose s) as [s1|s1|] eqn:E; [|done|done]; apply IH; by eapply reach_step.
Qed.

(** A loop that was given one task, before its [Run]. *)
Definition demo (t : task) : Runner :=
  set_outside (add_posted t (outside (runner_new 0)))
    (set_queues (set_sched [ITask t] (queues (runner_new 0))) (runner_new 0)).

Lemma demo_reachable t : reachable first_item (demo t).
Proof. eapply reach_env; [apply (reach_new _ 0)|]; by apply (EnvAppend t). Qed.

Lemma demo_run_reachable t n s : run_steps first_item n (start_run (demo t)) = Next s -> reachable first_item s.
Proof. apply reach_steps; eapply reach_env; [apply demo_reachable|by apply EnvRun]. Qed.

Lemma task_run_once_witness :
  posted (outside (demo [Work 7])) ≡ₚ started (outside (demo [Work 7])) ++ stolen (outside (demo [Work 7])) ++ [[Work 7]].
Proof. exact (task_run_once first_item (demo [Work 7]) (demo_reachable _)). Defined.

Lemma run_starts_all_witness : exists n, match run_steps first_item n (start_run (demo [Sched; Yield])) with
  | Next _ => False
  | Finished s' => remote_sched_ (queues s') = []
  | Abort => True
  end.
Proof.
  destruct (run_starts_all first_item (demo [Sched; Yield]) (demo_reachable _) (conj eq_refl eq_refl)) as [n Hn]; exists n.
  destruct (run_steps first_item n (start_run (demo [Sched; Yield]))); [exact Hn|apply Hn|exact I].
Defined.

(** A task that makes a resumer, whose event happens at once, and that then has no
    need to wait: its coroutine is on the ready list when it comes to its end, and
    [CHECK(!co->Attatched())] of [GC] brings the process down. *)
Theorem early_resume_aborts :
  exists n, run_steps first_item n (start_run (demo [MakeResumer 0; CallResumer 0])) = Abort.
Proof. exists 20%nat; vm_compute; reflexivity. Qed.

Definition early (n : nat) : Runner :=
  match run_steps first_item n (start_run (demo [MakeResumer 0; CallResumer 0])) with Next s => s | _ => runner_new 0 end.

Lemma abort_iff_refused_witness :
  step first_item (early 7) = Abort /\ current_ (early 7) <> main_ /\ refused first_item (early 7).
Proof.
  assert (step first_item (early 7) = Abort) as H by (vm_compute; reflexivity); split; [exact H|].
  apply (abort_iff_refused first_item (early 7)); [|exact H].
  apply (demo_run_reachable [MakeResumer 0; CallResumer 0] 7); vm_compute; reflexivity.
Defined.
End CoRunner.
