(* ===== verification/CoSync.v ===== *)
(** * Waiting in coroutines (base/coroutine/{co_mutex,wait_group,io_event}.{h,cc})

    [CoMutex], [WaitGroup] and [IOEvent] park the coroutine that waits and keep the
    resumer that [MakeResumer] gave it.  What the resumer does is [do_resume] of
    CoRunner.v, on the pool of the coroutines; [proceed] is the runner that switches to
    a coroutine of its ready list.  Each component is a machine with an event for
    every step that another thread, or the loop, can see: a critical section of the
    spin lock, a task that is posted, a resumer that is called.  A coroutine cannot be
    resumed between making its resumer and parking, because its own loop does the
    resuming ([CoroRunner::Resume] posts to it), so these are one step.

    [mutex_exclusive] and [mutex_fifo] are the contract of the mutex, and
    [mutex_stray_resume] what breaks it; [wait_success] and [wait_wakes] that of the
    wait group, with [wait_early_success]; [io_wait_first] and [io_registered] that of
    the event, with [io_event_between_waits]. *)
From stdpp Require Import gmap.
From S2P Require Import Prelude Channel EventLoop CoRunner.
Import CoRunner.

(* ------------------------------------------------------------------ *)
(** * Parked coroutines *)

Module Park.
(** [MakeResumer] in the coroutine [c]. *)
Definition resumer_of (c : Z) (p : Pool) : option (Z * Z) := co ← coros p !! c; Some (c, resume_id_ co).

Definition idle (c : Z) (p : Pool) : bool := bool_decide (is_Some (coros p !! c)) && negb (Attatched c p).

(** [Run] takes [c] from the ready list and switches to it. *)
Definition proceed (c : Z) (p : Pool) : option Pool :=
  co ← coros p !! c;
  if bool_decide (c ∈ ready_list_ p) then
    Some (set_coros (<[c := mkCo (u64 (resume_id_ co + 1)) (code co)]> (coros p))
            (set_ready (filter (fun x => x <> c) (ready_list_ p)) p))
  else None.

Definition bump (c : Z) (p : Pool) : Pool :=
  match coros p !! c with
  | Some co => set_coros (<[c := mkCo (u64 (resume_id_ co + 1)) (code co)]> (coros p)) p
  | None => p
  end.

(** A pool whose coroutines are all out of the lists. *)
Definition fresh (ids : list Z) : Pool :=
  mkPool (list_to_map ((fun c => (c, mkCo 0 (Some []))) <$> ids)) 100 [] [] [] 64.

Definition lists_empty (p : Pool) : Prop := ready_list_ p = [] /\ freelist_ p = [] /\ gc_list_ p = [].

Lemma resume_parked c id co p :
  coros p !! c = Some co -> resume_id_ co = id -> ready_list_ p = [] -> freelist_ p = [] -> gc_list_ p = [] ->
  do_resume c id p = set_ready [c] p.
Proof.
  intros Hc Hi Hr Hf Hg; unfold do_resume, Attatched; rewrite Hc, Hr, Hf, Hg, Hi, Z.eqb_refl; cbn.
  by rewrite bool_decide_eq_false_2 by set_solver.
Qed.
End Park.
Import Park.

(* ------------------------------------------------------------------ *)
(** * CoMutex *)

Module CoMutex.
(** Where a coroutine is: outside, between [lock] and [unlock], parked in [lock], or in
    [unlock] with the resumer it has taken from the queue. *)
Inductive place := Out | In | Waiting | Handing (c id : Z).

Record CoMutex := mkMutex {
  locked_ : bool;
  waiters_ : list (Z * Z);
  places : gmap Z place;
  flight : list (Z * Z);      (* resumers that were called and have not had their effect *)
  pool : Pool;
  queued : list Z;            (* the history: who had to wait, and who went on *)
  granted : list Z;
}.

Definition place_of (c : Z) (m : CoMutex) : place := default Out (places m !! c).
Definition put (c : Z) (x : place) (m : CoMutex) : CoMutex :=
  mkMutex (locked_ m) (waiters_ m) (<[c := x]> (places m)) (flight m) (pool m) (queued m) (granted m).

Definition new (p : Pool) : CoMutex := mkMutex false [] ∅ [] p [] [].

Inductive event :=
  | Lock (c : Z)
  | TryLock (c : Z)
  | Unlock (c : Z)       (* up to the end of the critical section *)
  | Hand (c : Z)         (* [resumer()] *)
  | Deliver              (* the resumer's effect, in the loop of its coroutine *)
  | Proceed (c : Z)      (* the runner switches to the coroutine, and [lock] returns *)
  | Elsewhere (c : Z)    (* the coroutine waited for something else, and was resumed *)
  | Stray (c id : Z).    (* a resumer that is not the mutex's *)

Definition lock (c : Z) (m : CoMutex) : option CoMutex :=
  if negb (locked_ m) then Some (put c In (mkMutex true (waiters_ m) (places m) (flight m) (pool m) (queued m) (granted m)))
  else
    r ← resumer_of c (pool m);
    Some (put c Waiting (mkMutex true (waiters_ m ++ [r]) (places m) (flight m) (pool m) (queued m ++ [c]) (granted m))).

Definition try_lock (c : Z) (m : CoMutex) : bool * CoMutex :=
  if locked_ m then (false, m)
  else (true, put c In (mkMutex true (waiters_ m) (places m) (flight m) (pool m) (queued m) (granted m))).

Definition unlock (c : Z) (m : CoMutex) : CoMutex :=
  match waiters_ m with
  | [] => put c Out (mkMutex false [] (places m) (flight m) (pool m) (queued m) (granted m))
  | (w, id) :: rest => put c (Handing w id) (mkMutex (locked_ m) rest (places m) (flight m) (pool m) (queued m) (granted m))
  end.

(** A coroutine locks when it is outside and runs, and unlocks when it is inside. *)
Definition do_event (e : event) (m : CoMutex) : option CoMutex :=
  match e with
  | Lock c => match place_of c m with Out => if idle c (pool m) then lock c m else None | _ => None end
  | TryLock c => match place_of c m with Out => if idle c (pool m) then Some (try_lock c m).2 else None | _ => None end
  | Unlock c => match place_of c m with In => Some (unlock c m) | _ => None end
  | Hand c =>
      match place_of c m with
      | Handing w id =>
          Some (put c Out (mkMutex (locked_ m) (waiters_ m) (places m) (flight m ++ [(w, id)]) (pool m) (queued m) (granted m)))
      | _ => None
      end
  | Deliver =>
      match flight m with
      | (w, id) :: rest =>
          Some (mkMutex (locked_ m) (waiters_ m) (places m) rest (do_resume w id (pool m)) (queued m) (granted m))
      | [] => None
      end
  | Proceed c =>
      match place_of c m with
      | Waiting =>
          p ← proceed c (pool m);
          Some (put c In (mkMutex (locked_ m) (waiters_ m) (places m) (flight m) p (queued m) (granted m ++ [c])))
      | _ => None
      end
  | Elsewhere c =>
      match place_of c m with
      | Out | In => Some (mkMutex (locked_ m) (waiters_ m) (places m) (flight m) (bump c (pool m)) (queued m) (granted m))
      | _ => None
      end
  | Stray c id => Some (mkMutex (locked_ m) (waiters_ m) (places m) (flight m) (do_resume c id (pool m)) (queued m) (granted m))
  end.

Fixpoint exec (es : list event) (m : CoMutex) : option CoMutex :=
  match es with
  | [] => Some m
  | e :: es => m ← do_event e m; exec es m
  end.

Definition has_id (c id : Z) (p : Pool) : Prop := exists co, coros p !! c = Some co /\ resume_id_ co = id.

(** A history in which only the mutex resumes the coroutines that wait for it: any other
    resumer that is called belongs to a wait that is over. *)
Definition proper (e : event) (m : CoMutex) : Prop := match e with Stray c id => ~ has_id c id (pool m) | _ => True end.
Fixpoint proper_run (es : list event) (m : CoMutex) : Prop :=
  match es with
  | [] => True
  | e :: es => proper e m /\ match do_event e m with Some m' => proper_run es m' | None => True end
  end.

(** ** The invariant *)

(** How far the mutex's owner is on its way in: inside, on the ready list, resumed by
    a call under way, or taken from the queue by the coroutine [h]. *)
Inductive stage := SIn | SReady | SFlight (id : Z) | SHand (h id : Z).

Definition expect (o : Z) (st : stage) (ws : list Z) (c : Z) : place :=
  if decide (c = o) then match st with SIn => In | _ => Waiting end
  else match st with
       | SHand h id => if decide (c = h) then Handing o id else if decide (c ∈ ws) then Waiting else Out
       | _ => if decide (c ∈ ws) then Waiting else Out
       end.

Definition stage_ok (o : Z) (st : stage) (ws : list Z) (p : Pool) : Prop :=
  match st with
  | SIn => True
  | SReady => is_Some (coros p !! o)
  | SFlight id => has_id o id p
  | SHand h id => has_id o id p /\ h <> o /\ h ∉ ws
  end.

Record owned (m : CoMutex) (o : Z) (st : stage) : Prop := mkOwned {
  ow_locked : locked_ m = true;
  ow_place : forall c, place_of c m = expect o st (waiters_ m).*1 c;
  ow_flight : flight m = match st with SFlight id => [(o, id)] | _ => [] end;
  ow_ready : ready_list_ (pool m) = match st with SReady => [o] | _ => [] end;
  ow_ids : forall c id, (c, id) ∈ waiters_ m -> has_id c id (pool m);
  ow_stage : stage_ok o st (waiters_ m).*1 (pool m);
  ow_nodup : NoDup (o :: (waiters_ m).*1);
  ow_fifo : queued m = granted m ++ match st with SIn => [] | _ => [o] end ++ (waiters_ m).*1;
}.

Record unowned (m : CoMutex) : Prop := mkUnowned {
  un_locked : locked_ m = false; un_waiters : waiters_ m = []; un_flight : flight m = []; un_ready : ready_list_ (pool m) = [];
  un_place : forall c, place_of c m = Out; un_fifo : queued m = granted m }.

Definition inv (m : CoMutex) : Prop :=
  freelist_ (pool m) = [] /\ gc_list_ (pool m) = [] /\ (unowned m \/ exists o st, owned m o st).

Lemma place_put c x m c' : place_of c' (put c x m) = if decide (c' = c) then x else place_of c' m.
Proof.
  unfold place_of, put; cbn [places]; destruct (decide (c' = c)) as [->|]; [by rewrite lookup_insert_eq|by rewrite lookup_insert_ne].
Qed.

(** One more coroutine in the queue. *)
Lemma expect_queue o st ws c x : x <> c -> expect o st (ws ++ [c]) x = expect o st ws x.
Proof.
  intros Hx; unfold expect; destruct (decide (x ∈ ws)) as [H|H].
  - assert (x ∈ ws ++ [c]) by (apply elem_of_app; by left); destruct st; repeat case_decide; done.
  - assert (x ∉ ws ++ [c]) by (intros K; apply elem_of_app in K as [K|K]; [done|apply list_elem_of_singleton in K; done]).
    destruct st; repeat case_decide; done.
Qed.

Lemma waiting_not_out m o st c id : owned m o st -> (c, id) ∈ waiters_ m -> c <> o /\ place_of c m = Waiting.
Proof.
  intros [_ Hp _ _ _ Hst Hnd _] Hin; assert (c ∈ (waiters_ m).*1) as Hc by (apply list_elem_of_fmap; by exists (c, id)).
  apply list.NoDup_cons in Hnd as [Hno _]; assert (c <> o) by congruence; split; [done|].
  rewrite Hp; unfold expect; rewrite decide_False by done; destruct st; try (by rewrite decide_True).
  destruct Hst as (_ & _ & Hh); rewrite decide_False by congruence; by rewrite decide_True.
Qed.

(** The owner goes in: nobody had the mutex. *)
Lemma enter_owned c m :
  unowned m -> owned (put c In (mkMutex true (waiters_ m) (places m) (flight m) (pool m) (queued m) (granted m))) c SIn.
Proof.
  intros [_ Hw Hf Hr Hp Hq]; split; cbn [locked_ waiters_ flight pool queued granted put]; rewrite ?Hw; try done.
  - intros x; rewrite place_put; unfold expect; destruct (decide (x = c)); [done|]; apply Hp.
  - intros ? ? H; set_solver.
  - by apply list.NoDup_singleton.
  - by rewrite Hq, app_nil_r.
Qed.

(** Another coroutine queues. *)
Lemma queue_owned c id m o st :
  owned m o st -> place_of c m = Out -> resumer_of c (pool m) = Some (c, id) ->
  owned (put c Waiting (mkMutex true (waiters_ m ++ [(c, id)]) (places m) (flight m) (pool m) (queued m ++ [c]) (granted m))) o st.
Proof.
  intros [Hl Hp Hf Hr Hi Hst Hnd Hq] Hc Hres; rewrite Hp in Hc; unfold resumer_of in Hres.
  destruct (coros (pool m) !! c) as [co|] eqn:Eco; [|done]; injection Hres as Hid.
  assert (c <> o /\ c ∉ (waiters_ m).*1 /\ match st with SHand h _ => c <> h | _ => True end) as (Hco & Hcw & Hch).
  { unfold expect in Hc; destruct (decide (c = o)); [by destruct st|]; split; [done|].
    destruct st; repeat case_decide; try done. }
  split; cbn [locked_ waiters_ flight pool queued granted put]; rewrite ?fmap_app; cbn [fmap list_fmap fst]; try done.
  - intros x; rewrite place_put; change (place_of x (mkMutex true (waiters_ m ++ [(c, id)]) (places m) (flight m) (pool m) (queued m ++ [c]) (granted m))) with (place_of x m).
    destruct (decide (x = c)) as [->|Hx]; [|by rewrite Hp, expect_queue].
    unfold expect; assert (c ∈ (waiters_ m).*1 ++ [c]) by (apply elem_of_app; right; by apply list_elem_of_singleton).
    destruct st; repeat case_decide; done.
  - intros x i Hx; apply elem_of_app in Hx as [Hx|Hx]; [by apply Hi|].
    apply list_elem_of_singleton in Hx; injection Hx as -> ->; by exists co.
  - destruct st; try done; destruct Hst as (H1 & H2 & H3); split; [done|]; split; [done|]; set_solver.
  - change (o :: (waiters_ m).*1 ++ [c]) with ((o :: (waiters_ m).*1) ++ [c]); apply list.NoDup_app; split; [done|].
    split; [set_solver|by apply list.NoDup_singleton].
  - by rewrite Hq, !app_assoc.
Qed.

Lemma place_in m o st c : owned m o st -> place_of c m = In -> c = o /\ st = SIn.
Proof.
  intros H E; rewrite (ow_place _ _ _ H) in E; unfold expect in E; destruct st; repeat case_decide; done.
Qed.

Lemma place_handing m o st c w id : owned m o st -> place_of c m = Handing w id -> w = o /\ st = SHand c id.
Proof.
  intros H E; rewrite (ow_place _ _ _ H) in E; unfold expect in E; destruct st; repeat case_decide; naive_solver.
Qed.

(** The owner leaves: the mutex is free, or the first of the queue owns it. *)
Lemma unlock_owned m o : owned m o SIn ->
  match waiters_ m with
  | [] => unowned (unlock o m)
  | (w, id) :: rest => owned (unlock o m) w (SHand o id)
  end.
Proof.
  intros H; pose proof H as [Hl Hp Hf Hr Hi _ Hnd Hq]; unfold unlock; destruct (waiters_ m) as [|[w id] rest] eqn:Ew.
  - split; cbn [locked_ waiters_ flight pool queued granted put]; try done; [|by rewrite Hq, app_nil_r].
    intros c; rewrite place_put; destruct (decide (c = o)); [done|].
    change (place_of c m = Out); rewrite Hp; unfold expect; rewrite decide_False by done; by rewrite decide_False by set_solver.
  - cbn in Hnd; apply list.NoDup_cons in Hnd as [Ho Hnd]; pose proof Hnd as Hnd'; apply list.NoDup_cons in Hnd as [Hw Hnd].
    apply not_elem_of_cons in Ho as [Hwo Ho].
    split; cbn [locked_ waiters_ flight pool queued granted put]; try done.
    + intros c; rewrite place_put.
      change (place_of c (mkMutex (locked_ m) rest (places m) (flight m) (pool m) (queued m) (granted m))) with (place_of c m).
      rewrite Hp; unfold expect; cbn [fmap list_fmap fst]; destruct (decide (c = o)) as [->|]; [by rewrite decide_False|].
      destruct (decide (c = w)) as [->|]; [by rewrite decide_True by set_solver|].
      destruct (decide (c ∈ rest.*1)); [by rewrite decide_True by set_solver|by rewrite decide_False by set_solver].
    + intros c i Hc; apply Hi; set_solver.
    + split; [apply Hi; set_solver|]; by split.
Qed.

Lemma hand_owned m o h id : owned m o (SHand h id) ->
  owned (put h Out (mkMutex (locked_ m) (waiters_ m) (places m) (flight m ++ [(o, id)]) (pool m) (queued m) (granted m))) o (SFlight id).
Proof.
  intros [Hl Hp Hf Hr Hi (Hid & Hho & Hhw) Hnd Hq]; split; cbn [locked_ waiters_ flight pool queued granted put]; try done; [|by rewrite Hf].
  intros c; rewrite place_put; destruct (decide (c = h)) as [->|].
  - unfold expect; rewrite decide_False by done; by rewrite decide_False.
  - change (place_of c m = expect o (SFlight id) (waiters_ m).*1 c); rewrite Hp; unfold expect; by rewrite (decide_False (P := c = h)).
Qed.

Lemma deliver_owned m o id : freelist_ (pool m) = [] -> gc_list_ (pool m) = [] -> owned m o (SFlight id) ->
  owned (mkMutex (locked_ m) (waiters_ m) (places m) [] (do_resume o id (pool m)) (queued m) (granted m)) o SReady.
Proof.
  intros Hfr Hg [Hl Hp Hf Hr Hi (co & Hco & Hid) Hnd Hq]; rewrite (resume_parked o id co) by done.
  split; cbn [locked_ waiters_ flight pool queued granted put]; try done. by exists co.
Qed.

Lemma proceed_owned m o p : owned m o SReady -> proceed o (pool m) = Some p ->
  owned (put o In (mkMutex (locked_ m) (waiters_ m) (places m) (flight m) p (queued m) (granted m ++ [o]))) o SIn.
Proof.
  intros [Hl Hp Hf Hr Hi [co Hco] Hnd Hq]; unfold proceed; rewrite Hco; cbn [mbind option_bind].
  rewrite Hr, bool_decide_eq_true_2 by set_solver; intros [= <-]; apply list.NoDup_cons in Hnd as [Ho Hnd].
  split; cbn [locked_ waiters_ flight pool queued granted put]; try done.
  - intros c; rewrite place_put; destruct (decide (c = o)) as [->|]; [unfold expect; by rewrite decide_True|].
    change (place_of c m = expect o SIn (waiters_ m).*1 c); rewrite Hp; unfold expect; by rewrite !(decide_False (P := c = o)).
  - cbn [ready_list_ set_coros set_ready]; rewrite filter_cons_False by naive_solver; done.
  - intros c i Hc; destruct (Hi c i Hc) as (co' & Hc' & Hi'); exists co'; cbn [coros set_coros]; split; [|done].
    rewrite lookup_insert_ne; [done|]; intros ->; apply Ho; apply list_elem_of_fmap; by exists (c, i).
  - by apply list.NoDup_cons.
  - by rewrite Hq, <- app_assoc.
Qed.

Lemma has_id_bump c x i p : x <> c -> has_id x i p -> has_id x i (bump c p).
Proof.
  intros Hx (co & Hc & Hi); unfold bump; destruct (coros p !! c); [|by exists co].
  exists co; cbn [coros set_coros]; by rewrite lookup_insert_ne.
Qed.

Lemma elsewhere_owned c m o st : owned m o st -> place_of c m = Out \/ place_of c m = In ->
  owned (mkMutex (locked_ m) (waiters_ m) (places m) (flight m) (bump c (pool m)) (queued m) (granted m)) o st.
Proof.
  intros H Hc; assert (st <> SIn -> c <> o) as Hco.
  { intros Hst ->; rewrite (ow_place _ _ _ H) in Hc; unfold expect in Hc; rewrite decide_True in Hc by done; destruct st, Hc; done. }
  assert (forall x i, (x, i) ∈ waiters_ m -> x <> c) as Hcw.
  { intros x i Hx ->; destruct (waiting_not_out _ _ _ _ _ H Hx) as [_ E]; rewrite E in Hc; by destruct Hc. }
  destruct H as [Hl Hp Hf Hr Hi Hst Hnd Hq]; split; cbn [locked_ waiters_ flight pool queued granted]; try done.
  - unfold bump; by destruct (coros _ !! c).
  - intros x i Hx; apply has_id_bump; [by eapply Hcw|by apply Hi].
  - destruct st; try done; cbn in *.
    + unfold bump; destruct (coros (pool m) !! c); [|done]; cbn [coros set_coros]; by rewrite lookup_insert_ne by (apply Hco; done).
    + apply has_id_bump; [apply not_eq_sym, Hco; done|done].
    + destruct Hst as [H1 H2]; split; [|done]; apply has_id_bump; [apply not_eq_sym, Hco; done|done].
Qed.

(** The steps of the coroutines and of the mutex. *)
Definition plain (e : event) : Prop := match e with Stray _ _ => False | _ => True end.

Lemma plain_proper es m : Forall plain es -> proper_run es m.
Proof.
  revert m; induction es as [|e es IH]; intros m; [done|]; intros [He Hes]%Forall_cons_1; split; [by destruct e|].
  destruct (do_event e m); [by apply IH|done].
Qed.

(** A resumer of a wait that is over does nothing. *)
Lemma stale_resume c id m : proper (Stray c id) m -> do_event (Stray c id) m = Some m.
Proof.
  intros H; cbn [do_event]; assert (do_resume c id (pool m) = pool m) as ->; [|by destruct m].
  unfold do_resume; destruct (coros (pool m) !! c) as [co|] eqn:Ec; [|done].
  destruct (Z.eqb_spec (resume_id_ co) id) as [Ei|]; [destruct H; by exists co|]; by rewrite ?andb_false_r.
Qed.

Lemma mutex_do_event_lists e m m' : plain e -> do_event e m = Some m' ->
  freelist_ (pool m') = freelist_ (pool m) /\ gc_list_ (pool m') = gc_list_ (pool m).
Proof.
  intros He; destruct e as [c|c|c|c| |c|c|c id]; cbn [do_event]; try done.
  - destruct (place_of c m); try done; destruct (idle _ _); [|done]; unfold lock; destruct (negb _); [by intros [= <-]|].
    destruct (resumer_of _ _); cbn; [by intros [= <-]|done].
  - destruct (place_of c m); try done; destruct (idle _ _); [|done]; unfold try_lock; destruct (locked_ m); by intros [= <-].
  - destruct (place_of c m); try done; unfold unlock; destruct (waiters_ m) as [|[w id] rest]; by intros [= <-].
  - destruct (place_of c m); try done; by intros [= <-].
  - destruct (flight m) as [|[w id] rest]; [done|]; intros [= <-]; cbn [pool]; unfold do_resume.
    destruct (coros _ !! w); [|done]; by destruct (_ && _).
  - destruct (place_of c m); try done; unfold proceed; destruct (coros _ !! c); cbn; [|done].
    destruct (bool_decide _); cbn; [by intros [= <-]|done].
  - destruct (place_of c m); try done; unfold bump; intros [= <-]; cbn; by destruct (coros _ !! c).
Qed.

Lemma lock_owned c m m' o st : owned m o st -> place_of c m = Out -> lock c m = Some m' -> owned m' o st.
Proof.
  intros H Hc; unfold lock; rewrite (ow_locked _ _ _ H); cbn [negb].
  destruct (resumer_of c (pool m)) as [[c' id]|] eqn:E; cbn [mbind option_bind]; [|done]; intros [= <-].
  assert (c' = c) as -> by (unfold resumer_of in E; destruct (coros _ !! c); cbn in E; [congruence|done]).
  by apply queue_owned.
Qed.

Lemma do_event_owned e m m' o st : inv m -> owned m o st -> plain e -> do_event e m = Some m' ->
  unowned m' \/ exists o' st', owned m' o' st'.
Proof.
  intros (Hfr & Hg & _) H He; destruct e as [c|c|c|c| |c|c|c id]; cbn [do_event]; try done.
  - destruct (place_of c m) eqn:Ep; try done; destruct (idle _ _); [|done]; intros E; right; exists o, st; by apply (lock_owned c m).
  - destruct (place_of c m) eqn:Ep; try done; destruct (idle _ _); [|done]; unfold try_lock; rewrite (ow_locked _ _ _ H).
    intros [= <-]; right; by exists o, st.
  - destruct (place_of c m) eqn:Ep; try done; destruct (place_in _ _ _ _ H Ep) as [-> ->]; intros [= <-].
    pose proof (unlock_owned m o H) as K; destruct (waiters_ m) as [|[w id] rest]; [by left|right; by exists w, (SHand o id)].
  - destruct (place_of c m) as [| | |w id] eqn:Ep; try done; destruct (place_handing _ _ _ _ _ _ H Ep) as [-> ->].
    intros [= <-]; right; exists o, (SFlight id); by apply hand_owned.
  - pose proof (ow_flight _ _ _ H) as Ef; destruct st as [| |id|h id]; rewrite Ef; try done; intros [= <-].
    right; exists o, SReady; by apply deliver_owned.
  - destruct (place_of c m) eqn:Ep; try done; destruct (proceed c (pool m)) as [p|] eqn:E; cbn [mbind option_bind]; [|done].
    intros [= <-]; pose proof (ow_ready _ _ _ H) as Er; assert (c = o /\ st = SReady) as [-> ->].
    { unfold proceed in E; destruct (coros _ !! c); cbn in E; [|done]; destruct (bool_decide_reflect (c ∈ ready_list_ (pool m))) as [Hin|]; [|done].
      rewrite Er in Hin; destruct st; set_solver. }
    right; exists o, SIn; by apply proceed_owned.
  - destruct (place_of c m) eqn:Ep; try done; intros [= <-]; right; exists o, st; apply elsewhere_owned; auto.
Qed.

Lemma do_event_unowned e m m' : unowned m -> plain e -> do_event e m = Some m' ->
  unowned m' \/ exists o' st', owned m' o' st'.
Proof.
  intros H He; pose proof (un_place _ H) as Hp; destruct e as [c|c|c|c| |c|c|c id]; cbn [do_event]; try done; rewrite ?Hp.
  - destruct (idle _ _); [|done]; unfold lock; rewrite (un_locked _ H); cbn [negb]; intros [= <-]; right; exists c, SIn; by apply enter_owned.
  - destruct (idle _ _); [|done]; unfold try_lock; rewrite (un_locked _ H); intros [= <-]; right; exists c, SIn; by apply enter_owned.
  - done.
  - done.
  - by rewrite (un_flight _ H).
  - done.
  - intros [= <-]; left; destruct H as [H1 H2 H3 H4 H5 H6]; split; try done; cbn; unfold bump; by destruct (coros _ !! c).
Qed.

Lemma mutex_do_event_inv e m m' : inv m -> proper e m -> do_event e m = Some m' -> inv m'.
Proof.
  intros H Hp E; assert (plain e \/ m' = m) as [He| ->]; [|clear Hp|done].
  { destruct e as [c|c|c|c| |c|c|c id]; try by left. right; rewrite (stale_resume _ _ _ Hp) in E; by injection E as <-. }
  pose proof H as (Hfr & Hg & Ho); destruct (mutex_do_event_lists _ _ _ He E) as [E1 E2].
  split; [congruence|]; split; [congruence|]; destruct Ho as [Ho|(o & st & Ho)].
  - by eapply do_event_unowned.
  - by eapply do_event_owned.
Qed.

Lemma mutex_exec_inv es : forall m m', inv m -> proper_run es m -> exec es m = Some m' -> inv m'.
Proof.
  induction es as [|e es IH]; intros m m' Hi Hes; cbn; [by intros [= <-]|]; destruct Hes as [He Hes].
  destruct (do_event e m) as [m1|] eqn:E; cbn [mbind option_bind]; [|done]; apply IH; [by eapply mutex_do_event_inv|done].
Qed.

Lemma new_unowned p : ready_list_ p = [] -> unowned (new p).
Proof. intros H; by split. Qed.

(** ** Progress *)

Lemma mutex_exec_app es1 es2 m : exec (es1 ++ es2) m = (m' ← exec es1 m; exec es2 m').
Proof. revert m; induction es1 as [|e es1 IH]; intros m; cbn; [done|]; destruct (do_event e m); cbn; [apply IH|done]. Qed.

Lemma reached_inv p es m : lists_empty p -> proper_run es (new p) -> exec es (new p) = Some m -> inv m.
Proof.
  intros (H1 & H2 & H3) Hes E; refine (mutex_exec_inv es _ _ _ Hes E); split; [done|]; split; [done|]; left; by apply new_unowned.
Qed.

(** Whoever owns the mutex gets in: the unlocking coroutine calls the resumer, it has
    its effect, and the runner switches. *)
Lemma advance m o st : freelist_ (pool m) = [] -> gc_list_ (pool m) = [] -> owned m o st ->
  exists m', exec (match st with SIn => [] | SReady => [Proceed o] | SFlight _ => [Deliver; Proceed o] | SHand h _ => [Hand h; Deliver; Proceed o] end) m = Some m' /\
    owned m' o SIn /\ waiters_ m' = waiters_ m.
Proof.
  assert (HR : forall m, owned m o SReady -> exists m', exec [Proceed o] m = Some m' /\ owned m' o SIn /\ waiters_ m' = waiters_ m).
  { intros m0 H; cbn [exec do_event]; assert (place_of o m0 = Waiting) as -> by (rewrite (ow_place _ _ _ H); unfold expect; by rewrite decide_True).
    destruct (proceed o (pool m0)) as [p|] eqn:E; cbn [mbind option_bind].
    - eexists; split; [done|]; split; [by apply proceed_owned|done].
    - exfalso; destruct (ow_stage _ _ _ H) as [co Hco]; unfold proceed in E; rewrite Hco, (ow_ready _ _ _ H), bool_decide_eq_true_2 in E by set_solver; done. }
  assert (HF : forall m id, freelist_ (pool m) = [] -> gc_list_ (pool m) = [] -> owned m o (SFlight id) ->
    exists m', exec [Deliver; Proceed o] m = Some m' /\ owned m' o SIn /\ waiters_ m' = waiters_ m).
  { intros m0 id Hf Hg H; pose proof (deliver_owned _ _ _ Hf Hg H) as H'; apply HR in H' as (m' & E & Hm).
    exists m'; split; [|done]; cbn [exec do_event]; rewrite (ow_flight _ _ _ H); exact E. }
  intros Hf Hg H; destruct st as [| |id|h id]; [by exists m|by apply HR|by apply (HF m id)|].
  pose proof (hand_owned _ _ _ _ H) as H'; apply HF in H' as (m' & E & Hm); [|done|done].
  exists m'; split; [|done]; cbn [exec do_event].
  assert (place_of h m = Handing o id) as ->; [|exact E].
  rewrite (ow_place _ _ _ H); unfold expect; destruct (ow_stage _ _ _ H) as (_ & Hn & _); rewrite decide_False by done; by rewrite decide_True.
Qed.

(** The owner unlocks, and the first in the queue gets in. *)
Lemma handover m o w id rest : freelist_ (pool m) = [] -> gc_list_ (pool m) = [] -> owned m o SIn -> waiters_ m = (w, id) :: rest ->
  exists m', exec [Unlock o; Hand o; Deliver; Proceed w] m = Some m' /\ owned m' w SIn /\ waiters_ m' = rest.
Proof.
  intros Hf Hg H Hw; pose proof (unlock_owned m o H) as K; rewrite Hw in K.
  assert (place_of o m = In) as Hp by (rewrite (ow_place _ _ _ H); unfold expect; by rewrite decide_True).
  assert (pool (unlock o m) = pool m /\ waiters_ (unlock o m) = rest) as [Ep Er] by (unfold unlock; by rewrite Hw).
  destruct (advance (unlock o m) w (SHand o id)) as (m' & E & Hm & Hr); [by rewrite Ep|by rewrite Ep|done|].
  exists m'; split; [|split; [done|congruence]]; change (Unlock o :: [Hand o; Deliver; Proceed w]) with ([Unlock o] ++ [Hand o; Deliver; Proceed w]).
  rewrite mutex_exec_app; cbn [exec do_event]; rewrite Hp; exact E.
Qed.

Lemma served k : forall m o x, inv m -> owned m o SIn -> (waiters_ m).*1 !! k = Some x ->
  exists es m', Forall plain es /\ exec es m = Some m' /\ place_of x m' = In /\ length es = (4 * S k)%nat.
Proof.
  induction k as [|k IH]; intros m o x Hi H Hx; destruct (waiters_ m) as [|[w id] rest] eqn:Ew; try done;
    pose proof Hi as (Hf & Hg & _); destruct (handover m o w id rest Hf Hg H Ew) as (m1 & E1 & H1 & Hr);
    assert (Forall plain [Unlock o; Hand o; Deliver; Proceed w]) as Hpr by (repeat constructor).
  - cbn in Hx; injection Hx as ->; exists [Unlock o; Hand o; Deliver; Proceed x], m1; split_and!; try done.
    rewrite (ow_place _ _ _ H1); unfold expect; by rewrite decide_True.
  - destruct (IH m1 w x) as (es & m' & Hes & E & Hp & Hl); [eapply mutex_exec_inv; [done|by apply plain_proper|done]|done|by rewrite Hr|].
    exists ([Unlock o; Hand o; Deliver; Proceed w] ++ es), m'; split_and!; [by apply Forall_app|by rewrite mutex_exec_app, E1|done|rewrite length_app, Hl; cbn; lia].
Qed.

(** ** The contract *)

(** The waits that are over, or about to be: those whose coroutine left the queue. *)
Definition released (m : CoMutex) : nat := length (queued m) - length (waiters_ m).
Definition is_unlock (e : event) : bool := match e with Unlock _ => true | _ => false end.
Definition unlocks (es : list event) : nat := length (filter (fun e => is_unlock e = true) es).

Lemma inv_queue m : inv m -> exists next, queued m = (granted m ++ next) ++ (waiters_ m).*1 /\
  (next = [] \/ exists o, next = [o] /\ place_of o m = Waiting /\ o ∉ (waiters_ m).*1).
Proof.
  intros (_ & _ & [H|(o & st & H)]).
  - exists []; rewrite (un_waiters _ H), (un_fifo _ H), !app_nil_r; by split; [|left].
  - eexists; rewrite <- app_assoc; split; [apply (ow_fifo _ _ _ H)|]; destruct st; [by left|..];
      (right; exists o; split; [done|]; split; [rewrite (ow_place _ _ _ H); unfold expect; by rewrite decide_True|];
       pose proof (ow_nodup _ _ _ H) as Hn; by apply list.NoDup_cons in Hn as [Hn _]).
Qed.

Lemma released_length m next : queued m = (granted m ++ next) ++ (waiters_ m).*1 -> released m = length (granted m ++ next).
Proof. intros E; unfold released; rewrite E, length_app, length_fmap; lia. Qed.

(** One step: the histories grow, and an unlock releases a wait if there is one. *)
Lemma step_released e m m' : inv m -> proper e m -> do_event e m = Some m' ->
  queued m `prefix_of` queued m' /\ granted m `prefix_of` granted m' /\
  (released m + (if is_unlock e then length (waiters_ m) `min` 1 else 0) <= released m')%nat /\
  (length (waiters_ m) <= length (waiters_ m') + (if is_unlock e then 1 else 0))%nat.
Proof.
  intros Hi Hp; destruct (inv_queue m Hi) as (next & Eq & _); assert (length (waiters_ m) <= length (queued m))%nat as Hlen
    by (rewrite Eq, length_app, length_fmap; lia).
  destruct e as [c|c|c|c| |c|c|c id]; [..|rewrite (stale_resume _ _ _ Hp); intros [= <-]; split_and!; [done|done|cbn; lia..]]; cbn [do_event is_unlock].
  - destruct (place_of c m); try done; destruct (idle _ _); [|done]; unfold lock; destruct (negb _).
    + intros [= <-]; split_and!; [done|done|unfold released; cbn; lia..].
    + destruct (resumer_of _ _); cbn [mbind option_bind]; [|done]; intros [= <-]; split_and!; [by apply prefix_app_r|done|..];
        unfold released; cbn; rewrite ?length_app; cbn; lia.
  - destruct (place_of c m); try done; destruct (idle _ _); [|done]; unfold try_lock; destruct (locked_ m); intros [= <-];
      (split_and!; [done|done|unfold released; cbn; lia..]).
  - destruct (place_of c m); try done; unfold unlock; destruct (waiters_ m) as [|[w id] rest] eqn:Ew; intros [= <-];
      (split_and!; [done|done|unfold released; rewrite ?Ew; cbn in *; lia..]).
  - destruct (place_of c m); try done; intros [= <-]; split_and!; [done|done|unfold released; cbn; lia..].
  - destruct (flight m) as [|[w id] rest]; [done|]; intros [= <-]; split_and!; [done|done|unfold released; cbn; lia..].
  - destruct (place_of c m); try done; destruct (proceed c (pool m)); cbn [mbind option_bind]; [|done].
    intros [= <-]; split_and!; [done|by apply prefix_app_r|unfold released; cbn; lia..].
  - destruct (place_of c m); try done; intros [= <-]; (split_and!; [done|done|unfold released; cbn; lia..]).
Qed.

Lemma run_released es : forall m m', inv m -> proper_run es m -> exec es m = Some m' ->
  queued m `prefix_of` queued m' /\ granted m `prefix_of` granted m' /\
  (released m + unlocks es `min` length (waiters_ m) <= released m')%nat.
Proof.
  induction es as [|e es IH]; intros m m' Hi; cbn [exec proper_run]; [intros _ [= <-]; split_and!; [done|done|cbn; lia]|].
  intros [He Hes]; destruct (do_event e m) as [m1|] eqn:E; cbn [mbind option_bind]; [|done]; intros H.
  destruct (step_released e m m1 Hi He E) as (H1 & H2 & H3 & H4); destruct (IH m1 m') as (H5 & H6 & H7); [by eapply mutex_do_event_inv|done|done|].
  split_and!; [by etrans|by etrans|]; unfold unlocks in *; rewrite filter_cons; destruct (is_unlock e) eqn:Eu; case_decide; try done; cbn [length]; lia.
Qed.

(** C15.  Mutual exclusion, starting with idle schedulers, for any interleaving of any number
    of coroutines on any number of threads in which a coroutine that waits in the mutex is resumed by nobody but the
    mutex (resumers of waits that are over may be called at any time): at most one
    coroutine is between [lock] and [unlock]; the mutex is locked then; and when it is
    locked and nobody is inside, the one coroutine that it was handed to is on its way, by
    a step that is enabled.  [mutex_stray_resume] shows what another resumer does. *)
Theorem mutex_exclusive (p : Pool) (es : list event) (m : CoMutex) :
  lists_empty p -> proper_run es (new p) -> exec es (new p) = Some m ->
  (forall c c', place_of c m = In -> place_of c' m = In -> c = c') /\
  (forall c, place_of c m = In -> locked_ m = true) /\
  (locked_ m = true -> (forall c, place_of c m <> In) ->
     exists e, is_Some (do_event e m) /\ match e with Hand _ | Deliver | Proceed _ => True | _ => False end).
Proof.
  intros Hp Hes E; destruct (reached_inv p es m Hp Hes E) as (Hf & Hg & [H|(o & st & H)]).
  - pose proof (un_place _ H) as Hpl; split_and!; [intros c c' Hc; by rewrite Hpl in Hc|intros c Hc; by rewrite Hpl in Hc|].
    by rewrite (un_locked _ H).
  - split_and!.
    + intros c c' Hc Hc'; destruct (place_in _ _ _ _ H Hc), (place_in _ _ _ _ H Hc'); congruence.
    + intros _ _; apply H.
    + intros _ Hno; destruct (advance m o st Hf Hg H) as (m' & Ea & _); destruct st as [| |id|h id].
      * exfalso; apply (Hno o); rewrite (ow_place _ _ _ H); unfold expect; by rewrite decide_True.
      * exists (Proceed o); split; [|done]; cbn [exec] in Ea; by destruct (do_event (Proceed o) m).
      * exists Deliver; split; [|done]; cbn [exec] in Ea; by destruct (do_event Deliver m).
      * exists (Hand h); split; [|done]; cbn [exec] in Ea; by destruct (do_event (Hand h) m).
Qed.

(** What was queued at [released m + k] has been granted since, or is next. *)
Lemma granted_since m m' k x : inv m -> inv m' -> queued m `prefix_of` queued m' -> granted m `prefix_of` granted m' ->
  (waiters_ m).*1 !! k = Some x -> (released m + k < released m')%nat ->
  exists since, granted m' = granted m ++ since /\ (x ∈ since \/ place_of x m' = Waiting /\ x ∉ (waiters_ m').*1).
Proof.
  intros Hi Hi' [q Hq] [since Hg] Hx Hk; exists since; split; [done|].
  destruct (inv_queue m Hi) as (next & Eq & _), (inv_queue m' Hi') as (next' & Eq' & Hn').
  rewrite (released_length _ _ Eq) in Hk; rewrite (released_length _ _ Eq') in Hk.
  assert (queued m' !! (length (granted m ++ next) + k)%nat = Some x) as Hl.
  { rewrite Hq; apply lookup_app_l_Some; rewrite Eq, lookup_app_r by lia; by replace (_ - _)%nat with k by lia. }
  rewrite Eq', lookup_app_l in Hl by done; apply lookup_app_Some in Hl as [Hl|[Hge Hl]].
  - left; rewrite Hg, lookup_app_r in Hl by (rewrite length_app; lia); by eapply list_elem_of_lookup_2.
  - right; destruct Hn' as [->|(o & -> & Ho)]; [done|]; apply list_elem_of_lookup_2, list_elem_of_singleton in Hl as ->; done.
Qed.

(** C16.  First come, first served, and nobody starves, under the same condition.  The
    coroutines that had to wait get in in the order in which they came, with at most one
    on its way in.  Whatever happens next, once the mutex has been unlocked [k + 1] times
    the coroutine that was at position [k] of the queue has got in, or is the one it has
    been handed to; and it can always come to that, with [k + 1] unlocks and the steps
    that hand the mutex on. *)
Theorem mutex_fifo (p : Pool) (es : list event) (m : CoMutex) :
  lists_empty p -> proper_run es (new p) -> exec es (new p) = Some m ->
  (exists next, (length next <= 1)%nat /\ queued m = granted m ++ next ++ (waiters_ m).*1) /\
  (forall k x es' m', (waiters_ m).*1 !! k = Some x -> proper_run es' m -> exec es' m = Some m' -> (k < unlocks es')%nat ->
     exists since, granted m' = granted m ++ since /\ (x ∈ since \/ place_of x m' = Waiting /\ x ∉ (waiters_ m').*1)) /\
  (forall k x, (waiters_ m).*1 !! k = Some x ->
     exists es' m', proper_run es' m /\ (length es' <= 4 * S k + 3)%nat /\ exec es' m = Some m' /\ place_of x m' = In).
Proof.
  intros Hp Hes E; pose proof (reached_inv p es m Hp Hes E) as Hi; split_and!.
  - destruct (inv_queue m Hi) as (next & Eq & Hn); exists next; rewrite <- app_assoc in Eq; split; [|done].
    destruct Hn as [->|(o & -> & _)]; cbn; lia.
  - intros k x es' m' Hx Hes' E' Hk; destruct (run_released es' m m' Hi Hes' E') as (H1 & H2 & H3).
    apply (granted_since m m' k x); try done; [by eapply mutex_exec_inv|].
    apply lookup_lt_Some in Hx; rewrite length_fmap in Hx; lia.
  - intros k x Hx; pose proof Hi as (Hf & Hg & [H|(o & st & H)]); [by rewrite (un_waiters _ H) in Hx|].
    destruct (advance m o st Hf Hg H) as (m1 & E1 & H1 & Hw); set (es1 := match st with SIn => _ | _ => _ end) in *.
    assert (Forall plain es1 /\ (length es1 <= 3)%nat) as [Hp1 Hl1] by (unfold es1; destruct st; (split; [repeat constructor|cbn; lia])).
    destruct (served k m1 o x) as (es2 & m2 & Hp2 & E2 & Hin & Hl2); [eapply mutex_exec_inv; [done|by apply plain_proper|done]|done|by rewrite Hw|].
    exists (es1 ++ es2), m2; split_and!; [by apply plain_proper, Forall_app|rewrite length_app; lia|by rewrite mutex_exec_app, E1|done].
Qed.

(** [lock] does not look at the mutex again when it goes on: a resumer that the
    coroutine made before, and that is called while it waits, lets it in beside the owner. *)
Theorem mutex_stray_resume :
  exists m, exec [Lock 1; Lock 2; Stray 2 0; Proceed 2] (new (fresh [1; 2])) = Some m /\ place_of 1 m = In /\ place_of 2 m = In.
Proof. eexists; split; [vm_compute; reflexivity|]; split; vm_compute; reflexivity. Qed.

Lemma mutex_exclusive_witness : exists m,
  exec [Lock 1; Lock 2; Lock 3; Unlock 1; Hand 1; Deliver; Proceed 2] (new (fresh [1; 2; 3])) = Some m /\
  forall c, place_of c m = In -> locked_ m = true.
Proof.
  eexists; split; [vm_compute; reflexivity|].
  eapply (mutex_exclusive (fresh [1; 2; 3]) [Lock 1; Lock 2; Lock 3; Unlock 1; Hand 1; Deliver; Proceed 2]);
    [split_and!; reflexivity|apply plain_proper; repeat constructor|vm_compute; reflexivity].
Defined.

Lemma mutex_fifo_witness : exists m,
  exec [Lock 1; Lock 2; Lock 3; Unlock 1; Hand 1] (new (fresh [1; 2; 3])) = Some m /\
  exists es' m', exec es' m = Some m' /\ place_of 3 m' = In.
Proof.
  eexists; split; [vm_compute; reflexivity|].
  destruct (mutex_fifo (fresh [1; 2; 3]) [Lock 1; Lock 2; Lock 3; Unlock 1; Hand 1] _
    ltac:(split_and!; reflexivity) ltac:(apply plain_proper; repeat constructor) ltac:(vm_compute; reflexivity)) as (_ & _ & H).
  destruct (H O 3) as (es' & m' & _ & _ & E & Hin); [reflexivity|]; exists es', m'; split; assumption.
Defined.
End CoMutex.

(* ------------------------------------------------------------------ *)
(** * WaitGroup *)

Module WaitGroup.
Inductive Result := kSuccess | kTimeout.

Record WaitGroup := mkGroup {
  resumer_ : option (Z * Z);
  result_status_ : Result;
  flag_ : bool;
  wait_count_ : Z;
  timeout_ : bool;             (* the timer is in the pump *)
  posted : nat;                (* calls of wakeup_internal the loop still has to make *)
  waiting : option Z;          (* the coroutine in Wait *)
  returned : option Result;    (* what Wait has returned *)
  pool : Pool;
}.

Definition new (p : Pool) : WaitGroup := mkGroup None kSuccess false 0 false 0 None None p.

Definition set_count n g := mkGroup (resumer_ g) (result_status_ g) (flag_ g) n (timeout_ g) (posted g) (waiting g) (returned g) (pool g).
Definition set_posted n g := mkGroup (resumer_ g) (result_status_ g) (flag_ g) (wait_count_ g) (timeout_ g) n (waiting g) (returned g) (pool g).
Definition set_pool p g := mkGroup (resumer_ g) (result_status_ g) (flag_ g) (wait_count_ g) (timeout_ g) (posted g) (waiting g) (returned g) p.

Definition Add (count : Z) (g : WaitGroup) : option WaitGroup :=
  if 0 <? count then Some (set_count (i64 (wait_count_ g + count)) g) else None.

Definition Done (g : WaitGroup) : WaitGroup :=
  let old := wait_count_ g in
  let g := set_count (i64 (old - 1)) g in
  if negb (old =? 1) then g else set_posted (S (posted g)) g.

Definition wakeup_internal (g : WaitGroup) : WaitGroup :=
  match resumer_ g with Some (c, id) => set_pool (do_resume c id (pool g)) g | None => g end.

Definition OnTimeOut (g : WaitGroup) : WaitGroup :=
  wakeup_internal (mkGroup (resumer_ g) kTimeout (flag_ g) (wait_count_ g) false (posted g) (waiting g) (returned g) (pool g)).

(** [Wait] up to [CO_YIELD], in the coroutine [c]; a second [Wait] aborts. *)
Definition Wait (c timeout_ms : Z) (g : WaitGroup) : option WaitGroup :=
  if flag_ g then None
  else if wait_count_ g =? 0 then
    Some (mkGroup (resumer_ g) (result_status_ g) true (wait_count_ g) (timeout_ g) (posted g) (waiting g) (Some kSuccess) (pool g))
  else
    r ← resumer_of c (pool g);
    Some (mkGroup (Some r) (result_status_ g) true (wait_count_ g) (0 <? timeout_ms) (posted g) (Some c) (returned g) (pool g)).

(** ... and from there on. *)
Definition Wait_resumed (p : Pool) (g : WaitGroup) : WaitGroup :=
  mkGroup (resumer_ g) (result_status_ g) (flag_ g) (wait_count_ g) false (posted g) None (Some (result_status_ g)) p.

Inductive event := EAdd (n : Z) | EDone | EWait (c ms : Z) | EWakeup | EFire | EProceed.

Definition do_event (e : event) (g : WaitGroup) : option WaitGroup :=
  match e with
  | EAdd n => Add n g
  | EDone => Some (Done g)
  | EWait c ms => if idle c (pool g) then Wait c ms g else None
  | EWakeup => match posted g with S n => Some (wakeup_internal (set_posted n g)) | O => None end
  | EFire => if timeout_ g then Some (OnTimeOut g) else None
  | EProceed => c ← waiting g; p ← proceed c (pool g); Some (Wait_resumed p g)
  end.

Fixpoint exec (es : list event) (g : WaitGroup) : option WaitGroup :=
  match es with
  | [] => Some g
  | e :: es => g ← do_event e g; exec es g
  end.

Definition is_add (e : event) : bool := match e with EAdd _ => true | _ => false end.
(** The group after the [Add]s, of [n] in all, and [d] of the [Done]s. *)
Record inv (n d : Z) (g : WaitGroup) : Prop := mkInv {
  inv_range : 0 <= d <= n /\ n < 2 ^ 63;
  inv_count : wait_count_ g = n - d;
  inv_posted : (0 < posted g)%nat -> d = n;
  inv_lists : freelist_ (pool g) = [] /\ gc_list_ (pool g) = [];
  inv_wait : match waiting g with
    | Some c => flag_ g = true /\ returned g = None /\ exists id, resumer_ g = Some (c, id) /\
        (exists co, coros (pool g) !! c = Some co /\ resume_id_ co = id) /\
        ((ready_list_ (pool g) = [] /\ result_status_ g = kSuccess /\ (d = n -> (0 < posted g)%nat)) \/
         (ready_list_ (pool g) = [c] /\ (d = n \/ result_status_ g = kTimeout)))
    | None => (returned g = Some kSuccess -> d = n) /\ timeout_ g = false /\
        (flag_ g = false -> resumer_ g = None /\ result_status_ g = kSuccess /\ returned g = None /\ ready_list_ (pool g) = []) /\
        (flag_ g = true -> returned g <> None)
    end;
}.

Lemma Done_inv n d g : d < n -> inv n d g -> inv n (d + 1) (Done g).
Proof.
  intros Hd [[Hr1 Hr2] Hc Hp Hl Hw]; assert (posted g = O) as Hp0 by (destruct (posted g); [done|]; specialize (Hp ltac:(lia)); lia).
  unfold Done; rewrite Hc, i64_id by lia; destruct (Z.eqb_spec (n - d) 1) as [E|E]; cbn [negb];
    (split; cbn [wait_count_ set_count set_posted posted pool waiting returned flag_ resumer_ timeout_ result_status_];
     [lia|lia|rewrite ?Hp0; lia|done|]); destruct (waiting g) as [c|].
  - destruct Hw as (H1 & H2 & id & H3 & H4 & H5); split; [done|]; split; [done|]; exists id; split; [done|]; split; [done|].
    destruct H5 as [(K1 & K2 & K3)|(K1 & K2)]; [left|right]; split_and!; try done; [intros; lia|left; lia].
  - destruct Hw as (H1 & H2 & H3 & H4); split; [intros H; specialize (H1 H); lia|done].
  - destruct Hw as (H1 & H2 & id & H3 & H4 & H5); split; [done|]; split; [done|]; exists id; split; [done|]; split; [done|].
    destruct H5 as [(K1 & K2 & K3)|(K1 & K2)]; [left|right]; split_and!; try done; [intros; lia|destruct K2; [lia|by right]].
  - destruct Hw as (H1 & H2 & H3 & H4); split; [intros H; specialize (H1 H); lia|done].
Qed.

(** A wakeup, by the last [Done] or by the timer. *)
Lemma wakeup_inv n d g k r t :
  inv n d g -> (k <= posted g)%nat -> t = false \/ t = timeout_ g -> d = n /\ r = result_status_ g \/ r = kTimeout /\ timeout_ g = true ->
  inv n d (wakeup_internal (mkGroup (resumer_ g) r (flag_ g) (wait_count_ g) t k (waiting g) (returned g) (pool g))).
Proof.
  intros [Hr Hc Hp [Hf Hg] Hw] Hk Ht Hor; unfold wakeup_internal; cbn [resumer_ pool].
  assert (forall c id, freelist_ (do_resume c id (pool g)) = [] /\ gc_list_ (do_resume c id (pool g)) = []) as Hl.
  { intros c id; unfold do_resume; destruct (coros _ !! c); [|done]; by destruct (_ && _). }
  destruct (waiting g) as [c|] eqn:Ew.
  - destruct Hw as (H1 & H2 & id & H3 & (co & H4 & H5) & H6); rewrite H3.
    split; cbn [set_pool wait_count_ posted pool waiting returned flag_ resumer_ timeout_ result_status_]; try done; [intros; apply Hp; lia|].
    split; [done|]; split; [done|]; exists id; split; [done|].
    assert (d = n \/ r = kTimeout) as Hwhy by (destruct Hor as [[? _]|[? _]]; auto).
    destruct H6 as [(K1 & K2 & K3)|(K1 & K2)].
    + rewrite (resume_parked c id co) by done; split; [by exists co|]; by right.
    + assert (do_resume c id (pool g) = pool g) as ->; [|split; [by exists co|by right]].
      unfold do_resume, Attatched; rewrite H4, K1, bool_decide_eq_true_2 by set_solver; by rewrite andb_false_r.
  - destruct Hw as (H1 & H2 & H3 & H4); destruct Hor as [[Hd ->]|[_ Ht']]; [|congruence].
    assert (t = false) as -> by (destruct Ht; congruence).
    assert (forall p', (flag_ g = false -> p' = pool g) -> freelist_ p' = [] -> gc_list_ p' = [] ->
      inv n d (mkGroup (resumer_ g) (result_status_ g) (flag_ g) (wait_count_ g) false k None (returned g) p')) as K.
    { intros p' Hpp Hf' Hg'; split; cbn [wait_count_ posted pool waiting returned flag_ resumer_ timeout_ result_status_]; try done.
      split; [done|]; split; [done|]; split; [|done]; intros Hfl; rewrite (Hpp Hfl); by apply H3. }
    destruct (resumer_ g) as [[c id]|] eqn:Er; [|by apply K].
    apply K; try apply Hl; intros Hfl; destruct (H3 Hfl) as (? & _); congruence.
Qed.

Lemma Wait_inv n d c ms g g' : inv n d g -> idle c (pool g) = true -> Wait c ms g = Some g' -> inv n d g'.
Proof.
  intros [Hr Hc Hp [Hf Hg] Hw] Hid; unfold Wait; destruct (flag_ g) eqn:Ef; [done|].
  assert (waiting g = None) as Ewt by (destruct (waiting g); [destruct Hw; congruence|done]); rewrite Ewt in Hw.
  destruct Hw as (H1 & H2 & H3 & H4); destruct (H3 eq_refl) as (H5 & H6 & H7 & H8).
  destruct (Z.eqb_spec (wait_count_ g) 0) as [E|E].
  - intros [= <-]; split; cbn [wait_count_ posted pool waiting returned flag_ resumer_ timeout_ result_status_]; try done.
    rewrite Ewt; split_and!; try done; intros; lia.
  - unfold resumer_of; destruct (coros (pool g) !! c) as [co|] eqn:Eco; cbn [mbind option_bind]; [|done]; intros [= <-].
    split; cbn [wait_count_ posted pool waiting returned flag_ resumer_ timeout_ result_status_]; try done.
    split; [done|]; split; [done|]; exists (resume_id_ co); split; [done|]; split; [by exists co|].
    left; split; [done|]; split; [done|]; intros; lia.
Qed.

Definition done_of (e : event) : Z := match e with EDone => 1 | _ => 0 end.

Lemma wait_do_event_inv n d e g g' :
  inv n d g -> is_add e = false -> d + done_of e <= n -> do_event e g = Some g' -> inv n (d + done_of e) g'.
Proof.
  intros H He Hd; destruct e as [k| |c ms| | |]; cbn [do_event done_of] in *; rewrite ?Z.add_0_r in *; try done.
  - intros [= <-]; apply Done_inv; [lia|done].
  - destruct (idle c (pool g)) eqn:Ei; [by apply Wait_inv|done].
  - destruct (posted g) as [|k] eqn:Ep; [done|]; intros [= <-].
    apply (wakeup_inv n d g k (result_status_ g) (timeout_ g) H ltac:(lia)); [by right|left].
    split; [apply (inv_posted _ _ _ H); lia|done].
  - destruct (timeout_ g) eqn:Et; [|done]; intros [= <-]; apply wakeup_inv; [done|lia|by left|by right].
  - destruct (waiting g) as [c|] eqn:Ew; cbn [mbind option_bind]; [|done].
    destruct (proceed c (pool g)) as [p|] eqn:Ep; cbn [mbind option_bind]; [|done]; intros [= <-].
    destruct H as [H1 H2 H3 [H4 H5] Hw]; rewrite Ew in Hw; destruct Hw as (W1 & W2 & id & W3 & (co & W4 & W5) & W6).
    unfold proceed in Ep; rewrite W4 in Ep; cbn [mbind option_bind] in Ep.
    destruct (bool_decide_reflect (c ∈ ready_list_ (pool g))) as [Hin|]; [|done]; injection Ep as <-.
    destruct W6 as [(K1 & _)|(K1 & K2)]; [rewrite K1 in Hin; set_solver|].
    unfold Wait_resumed; split; cbn [wait_count_ posted pool waiting returned flag_ resumer_ timeout_ result_status_]; try done.
    split; [intros [= E]; destruct K2; congruence|]; split; [done|]; rewrite W1; by split.
Qed.

Fixpoint count_done (es : list event) : Z := match es with [] => 0 | e :: es => done_of e + count_done es end.
Fixpoint count_add (es : list event) : Z := match es with [] => 0 | EAdd n :: es => n + count_add es | _ :: es => count_add es end.

Lemma count_done_pos es : 0 <= count_done es.
Proof. induction es as [|e es IH]; cbn; [lia|]; destruct e; cbn; lia. Qed.

Lemma wait_exec_inv n es : forall d g g', inv n d g -> Forall (fun e => is_add e = false) es -> d + count_done es <= n ->
  exec es g = Some g' -> inv n (d + count_done es) g'.
Proof.
  induction es as [|e es IH]; intros d g g' Hi Hes Hn; cbn in *; [intros [= <-]; by rewrite Z.add_0_r|]; inversion Hes; subst.
  pose proof (count_done_pos es); destruct (do_event e g) as [g1|] eqn:E; cbn [mbind option_bind]; [|done]; rewrite Z.add_assoc; apply IH; [|done|lia].
  apply (wait_do_event_inv n d e g); [done|done|lia|done].
Qed.

Lemma wait_exec_app es1 es2 g : exec (es1 ++ es2) g = (g' ← exec es1 g; exec es2 g').
Proof. revert g; induction es1 as [|e es1 IH]; intros g; cbn; [done|]; destruct (do_event e g); cbn; [apply IH|done]. Qed.

Lemma exec_adds es : forall g g', Forall (fun e => is_add e = true) es -> - 2 ^ 63 <= wait_count_ g ->
  wait_count_ g + count_add es < 2 ^ 63 -> exec es g = Some g' -> 0 <= count_add es /\ g' = set_count (wait_count_ g + count_add es) g.
Proof.
  induction es as [|e es IH]; intros g g' Hes Hlo Hn; cbn in *; [intros [= <-]; rewrite Z.add_0_r; split; [lia|by destruct g]|].
  inversion Hes; subst; destruct e as [k| | | | |]; try done; cbn [do_event]; unfold Add; destruct (Z.ltb_spec 0 k); [|done].
  cbn [mbind option_bind]; intros E.
  assert (0 <= count_add es) as Hpos.
  { clear -E; revert E; generalize (set_count (i64 (wait_count_ g + k)) g); induction es as [|e es IHe]; cbn; [lia|]; intros g0.
    destruct (do_event e g0) as [g1|] eqn:E1; cbn; [|done]; intros E; specialize (IHe g1 E).
    destruct e; try done; cbn [do_event] in E1; unfold Add in E1; destruct (Z.ltb_spec 0 n); [lia|done]. }
  rewrite i64_id in E by lia; apply IH in E as [_ ->]; cbn [set_count wait_count_]; [|done|lia|lia].
  split; [lia|]; by rewrite Z.add_assoc.
Qed.

Lemma adds_then_inv p adds es g :
  lists_empty p -> Forall (fun e => is_add e = true) adds -> Forall (fun e => is_add e = false) es ->
  count_done es <= count_add adds < 2 ^ 63 -> exec (adds ++ es) (new p) = Some g ->
  inv (count_add adds) (count_done es) g.
Proof.
  intros (Hr & Hf & Hg) Ha He Hn; rewrite wait_exec_app; destruct (exec adds (new p)) as [g1|] eqn:E; cbn [mbind option_bind]; [|done].
  apply exec_adds in E as [Hpos ->]; [|done|cbn; lia|cbn; lia]; intros E; cbn [wait_count_ new] in E.
  apply (wait_exec_inv (count_add adds) es 0) in E; [done| |done|lia].
  split; cbn [set_count new wait_count_ posted pool waiting returned flag_ resumer_ timeout_ result_status_]; try done; [lia|lia|lia].
Qed.

(** ** The contract *)

(** When the [Add]s come before the [Done]s, of which there are no more: [Wait]
    returns [kSuccess] only after the last [Done], whatever the interleaving with the
    other threads and the timer. *)
Theorem wait_success (p : Pool) (adds es : list event) (g : WaitGroup) :
  lists_empty p -> Forall (fun e => is_add e = true) adds -> Forall (fun e => is_add e = false) es ->
  count_done es <= count_add adds < 2 ^ 63 -> exec (adds ++ es) (new p) = Some g -> returned g = Some kSuccess ->
  count_done es = count_add adds /\ wait_count_ g = 0 /\ waiting g = None.
Proof.
  intros Hp Ha He Hn E Hret; destruct (adds_then_inv p adds es g Hp Ha He Hn E) as [H1 H2 H3 H4 H5].
  destruct (waiting g) as [c|]; [destruct H5 as (_ & ? & _); congruence|]; destruct H5 as [H5 _]; specialize (H5 Hret); split; [done|]; split; [lia|done].
Qed.

Lemma proceed_ready c co p : coros p !! c = Some co -> ready_list_ p = [c] -> exists p', proceed c p = Some p'.
Proof. intros H1 H2; unfold proceed; rewrite H1, H2; cbn [mbind option_bind]; rewrite bool_decide_eq_true_2 by set_solver; by eexists. Qed.

(** ... and no wakeup is lost: once the last [Done] is made, the coroutine that waits
    is on the ready list, or the loop has the task that puts it there, and goes on. *)
Theorem wait_wakes (p : Pool) (adds es : list event) (g : WaitGroup) (c : Z) :
  lists_empty p -> Forall (fun e => is_add e = true) adds -> Forall (fun e => is_add e = false) es ->
  count_done es = count_add adds -> count_add adds < 2 ^ 63 -> exec (adds ++ es) (new p) = Some g -> waiting g = Some c ->
  exists es' g', (es' = [EProceed] \/ es' = [EWakeup; EProceed]) /\
    exec es' g = Some g' /\ waiting g' = None /\ returned g' = Some (result_status_ g).
Proof.
  intros Hp Ha He Hn1 Hn2 E Hw; destruct (adds_then_inv p adds es g Hp Ha He ltac:(lia) E) as [H1 H2 H3 [H4 H4'] H5].
  rewrite Hw in H5; destruct H5 as (W1 & W2 & id & W3 & (co & W4 & W5) & [(K1 & K2 & K3)|(K1 & K2)]).
  - destruct (posted g) as [|k] eqn:Ep; [specialize (K3 Hn1); lia|].
    set (g1 := set_pool (set_ready [c] (pool g)) (set_posted k g)).
    assert (do_event EWakeup g = Some g1) as E1.
    { cbn [do_event]; rewrite Ep; unfold wakeup_internal; cbn [resumer_ set_posted]; rewrite W3; cbn [pool]; by rewrite (resume_parked c id co). }
    destruct (proceed_ready c co (pool g1)) as [p' Ep']; [done|done|].
    exists [EWakeup; EProceed], (Wait_resumed p' g1); split; [by right|]; split; [|done]; cbn [exec]; rewrite E1; cbn [mbind option_bind do_event].
    change (waiting g1) with (waiting g); rewrite Hw; cbn [mbind option_bind]; by rewrite Ep'.
  - destruct (proceed_ready c co (pool g)) as [p' Ep']; [done|done|].
    exists [EProceed], (Wait_resumed p' g); split; [by left|]; split; [|done]; cbn [exec do_event]; rewrite Hw; cbn [mbind option_bind]; by rewrite Ep'.
Qed.

Lemma wait_success_witness : exists g,
  exec ([EAdd 2] ++ [EDone; EWait 1 0; EDone; EWakeup; EProceed]) (new (fresh [1])) = Some g /\ wait_count_ g = 0.
Proof.
  eexists; split; [vm_compute; reflexivity|].
  apply (wait_success (fresh [1]) [EAdd 2] [EDone; EWait 1 0; EDone; EWakeup; EProceed]);
    [split_and!; reflexivity|repeat constructor|repeat constructor|cbn; lia|vm_compute; reflexivity|reflexivity].
Defined.

Lemma wait_wakes_witness : exists g es' g',
  exec ([EAdd 2] ++ [EDone; EWait 1 0; EDone]) (new (fresh [1])) = Some g /\ exec es' g = Some g' /\ waiting g' = None.
Proof.
  destruct (exec ([EAdd 2] ++ [EDone; EWait 1 0; EDone]) (new (fresh [1]))) as [g|] eqn:E; [|vm_compute in E; discriminate].
  exists g; destruct (wait_wakes (fresh [1]) [EAdd 2] [EDone; EWait 1 0; EDone] g 1) as (es' & g' & _ & H1 & H2 & _);
    [split_and!; reflexivity|repeat constructor|repeat constructor|reflexivity|cbn; lia|exact E
    |vm_compute in E; injection E as <-; reflexivity|]; exists es', g'; split_and!; [reflexivity|exact H1|exact H2].
Defined.

(** A count that goes back to zero and up again leaves a wakeup behind, which ends the
    next [Wait]: it returns [kSuccess] with a task still to be done. *)
Theorem wait_early_success :
  exists g, exec [EAdd 1; EDone; EAdd 1; EWait 1 0; EWakeup; EProceed] (new (fresh [1])) = Some g /\
    returned g = Some kSuccess /\ wait_count_ g = 1.
Proof. eexists; split; [vm_compute; reflexivity|]; split; vm_compute; reflexivity. Qed.
End WaitGroup.

(* ------------------------------------------------------------------ *)
(** * IOEvent *)

Module IOEvent.
Import EventLoop.

Inductive Result := None_ | Ok | Error | Timeout.

Record IOEvent := mkIO {
  result_ : Result;
  fd_event_ : Z;               (* the FdEvent, by its address *)
  resumer_ : option (Z * Z);
  timer : bool;                (* the timer of Wait is in the pump *)
  waiting : option Z;          (* the coroutine in Wait *)
  returned : list Result;      (* what Wait has returned, so far *)
  pump_ : Loop;
  pool : Pool;
}.

(** The constructor, in a coroutine. *)
Definition initialize (fdev : Z) (l : Loop) (p : Pool) : option IOEvent :=
  e ← objects l !! fdev;
  if 0 <? ev_fd e then
    l ← (if ev_events e =? FdEvent.NONE then l ← EnableReading fdev l; EnableWriting fdev l else Some l);
    '(_, l) ← InstallFdEvent fdev l;
    Some (mkIO None_ fdev None false None [] l p)
  else None.

Definition destroy (io : IOEvent) : option Loop := r ← RemoveFdEvent (fd_event_ io) (pump_ io); Some r.2.

Definition set_result (res : Result) (io : IOEvent) : IOEvent :=
  match result_ io with
  | None_ => mkIO res (fd_event_ io) (resumer_ io) (timer io) (waiting io) (returned io) (pump_ io) (pool io)
  | _ => io
  end.

(** [resumer_()]; an empty one throws. *)
Definition call_resumer (io : IOEvent) : option IOEvent :=
  '(c, id) ← resumer_ io;
  Some (mkIO (result_ io) (fd_event_ io) (resumer_ io) (timer io) (waiting io) (returned io) (pump_ io) (do_resume c id (pool io))).

Definition HandleEvent (ev : Z) (io : IOEvent) : option IOEvent :=
  e ← objects (pump_ io) !! fd_event_ io;
  call_resumer (if has (ev_events e) ev then set_result Ok io else set_result Error io).

(** The timer that [Wait] set. *)
Definition OnTimer (io : IOEvent) : option IOEvent :=
  if timer io then
    call_resumer (set_result Timeout (mkIO (result_ io) (fd_event_ io) (resumer_ io) false (waiting io) (returned io) (pump_ io) (pool io)))
  else None.

(** [Wait] up to where it parks, in the coroutine [c], and from there on. *)
Definition Wait (c ms : Z) (io : IOEvent) : option IOEvent :=
  r ← resumer_of c (pool io);
  Some (mkIO None_ (fd_event_ io) (Some r) (0 <? ms) (Some c) (returned io) (pump_ io) (pool io)).

Definition Wait_resumed (p : Pool) (io : IOEvent) : option IOEvent :=
  match result_ io with
  | None_ => None
  | r => Some (mkIO r (fd_event_ io) None false None (returned io ++ [r]) (pump_ io) p)
  end.

Inductive event := EWait (c ms : Z) | EFire (ev : Z) | ETimer | EProceed.

Definition do_event (e : event) (io : IOEvent) : option IOEvent :=
  match e with
  | EWait c ms => match waiting io with None => if idle c (pool io) then Wait c ms io else None | Some _ => None end
  | EFire ev => HandleEvent ev io
  | ETimer => OnTimer io
  | EProceed => c ← waiting io; p ← proceed c (pool io); Wait_resumed p io
  end.

Fixpoint exec (es : list event) (io : IOEvent) : option IOEvent :=
  match es with
  | [] => Some io
  | e :: es => io ← do_event e io; exec es io
  end.

(** ** The contract *)

(** What the wait of an event ends with when [h] happens. *)
Definition outcome (mask : Z) (h : event) : Result :=
  match h with ETimer => Timeout | EFire ev => if has mask ev then Ok else Error | _ => None_ end.

(** What can happen while a coroutine waits: events, and the timer once, when there is one. *)
Fixpoint happenings (timer : bool) (hs : list event) : bool :=
  match hs with
  | [] => true
  | EFire _ :: hs => happenings timer hs
  | ETimer :: hs => timer && happenings false hs
  | _ => false
  end.

(** The coroutine [c] has been resumed and will return [r]. *)
Definition resumed (c : Z) (r : Result) (t : bool) (rs : list Result) (l : Loop) (fdev : Z) (io : IOEvent) : Prop :=
  result_ io = r /\ waiting io = Some c /\ timer io = t /\ returned io = rs /\ pump_ io = l /\ fd_event_ io = fdev /\
  exists id co, resumer_ io = Some (c, id) /\ coros (pool io) !! c = Some co /\ ready_list_ (pool io) = [c].

Lemma happening_resumed h c r t rs l fdev e io :
  objects l !! fdev = Some e -> r <> None_ -> resumed c r t rs l fdev io -> happenings t [h] = true ->
  exists io', do_event h io = Some io' /\ resumed c r (match h with ETimer => false | _ => t end) rs l fdev io'.
Proof.
  intros He Hr (H1 & H2 & H3 & H4 & H5 & H6 & id & co & H7 & H8 & H9) Hh.
  assert (do_resume c id (pool io) = pool io) as Hd.
  { unfold do_resume, Attatched; rewrite H8, H9, bool_decide_eq_true_2 by set_solver; by rewrite andb_false_r. }
  assert (forall x, set_result x io = io) as Hs by (intros x; unfold set_result; by destruct (result_ io)).
  destruct h as [|ev| |]; try done; cbn [do_event].
  - unfold HandleEvent; rewrite H5, H6, He; cbn [mbind option_bind]; rewrite !Hs; assert ((if has (ev_events e) ev then io else io) = io) as -> by (by destruct (has _ _)).
    unfold call_resumer; rewrite H7; cbn [mbind option_bind]; eexists; split; [done|]; rewrite Hd; split_and!; try done; by exists id, co.
  - cbn in Hh; destruct t; [|done]; unfold OnTimer; rewrite H3; unfold set_result; cbn [result_]; rewrite H1.
    assert (forall io', resumer_ io' = Some (c, id) -> call_resumer io' = Some (mkIO (result_ io') (fd_event_ io') (resumer_ io') (timer io') (waiting io') (returned io') (pump_ io') (do_resume c id (pool io')))) as K.
    { intros io' E; unfold call_resumer; rewrite E; done. }
    destruct r; [done|..]; (rewrite K by done; cbn [pool result_ fd_event_ resumer_ timer waiting returned pump_];
      eexists; split; [done|]; rewrite Hd; split_and!; try done; by exists id, co).
Qed.

Lemma first_happening h c id co t rs l fdev e p :
  objects l !! fdev = Some e -> lists_empty p -> coros p !! c = Some co -> resume_id_ co = id -> happenings t [h] = true ->
  exists io', do_event h (mkIO None_ fdev (Some (c, id)) t (Some c) rs l p) = Some io' /\
    resumed c (outcome (ev_events e) h) (match h with ETimer => false | _ => t end) rs l fdev io' /\
    freelist_ (pool io') = [] /\ gc_list_ (pool io') = [].
Proof.
  intros He (Hl1 & Hl2 & Hl3) Hc Hid Hh.
  assert (forall r t', resumed c r t' rs l fdev (mkIO r fdev (Some (c, id)) t' (Some c) rs l (set_ready [c] p))) as K.
  { intros r t'; split_and!; try done; by exists id, co. }
  destruct h as [|ev| |]; try done; cbn [do_event outcome].
  - unfold HandleEvent; cbn [pump_ fd_event_]; rewrite He; cbn [mbind option_bind].
    destruct (has (ev_events e) ev); unfold call_resumer; cbn; rewrite (resume_parked c id co) by done;
      (eexists; split; [done|]; split; [apply K|done]).
  - cbn in Hh; destruct t; [|done]; unfold OnTimer, call_resumer; cbn; rewrite (resume_parked c id co) by done.
    eexists; split; [done|]; split; [apply K|done].
Qed.

Lemma io_do_event_lists h io io' : do_event h io = Some io' -> h <> EProceed ->
  freelist_ (pool io') = freelist_ (pool io) /\ gc_list_ (pool io') = gc_list_ (pool io).
Proof.
  assert (forall io io', call_resumer io = Some io' -> freelist_ (pool io') = freelist_ (pool io) /\ gc_list_ (pool io') = gc_list_ (pool io)) as K.
  { intros io1 io2; unfold call_resumer; destruct (resumer_ io1) as [[c id]|]; cbn; [|done]; intros [= <-]; cbn.
    unfold do_resume; destruct (coros _ !! c); [|done]; by destruct (_ && _). }
  assert (forall r io, pool (set_result r io) = pool io) as Ks by (intros r io1; unfold set_result; by destruct (result_ io1)).
  intros E Hh; destruct h as [c ms|ev| |]; cbn [do_event] in E; [| | |done].
  - destruct (waiting io); [done|]; destruct (idle _ _); [|done]; unfold Wait in E; destruct (resumer_of _ _); cbn in E; [|done]; by injection E as <-.
  - unfold HandleEvent in E; destruct (objects _ !! _) as [e|]; cbn [mbind option_bind] in E; [|done].
    destruct (has _ _); apply K in E; by rewrite Ks in E.
  - unfold OnTimer in E; destruct (timer io); [|done]; apply K in E; by rewrite Ks in E.
Qed.

Lemma happenings_resumed hs : forall c r t rs l fdev e io,
  objects l !! fdev = Some e -> r <> None_ -> resumed c r t rs l fdev io -> happenings t hs = true ->
  freelist_ (pool io) = [] -> gc_list_ (pool io) = [] ->
  exists io' t', exec hs io = Some io' /\ resumed c r t' rs l fdev io' /\ freelist_ (pool io') = [] /\ gc_list_ (pool io') = [].
Proof.
  induction hs as [|h hs IH]; intros c r t rs l fdev e io He Hr H Hh Hf Hg; [by exists io, t|].
  assert (happenings t [h] = true /\ happenings (match h with ETimer => false | _ => t end) hs = true) as [H1 H2].
  { destruct h; cbn in *; try done; destruct t; done. }
  destruct (happening_resumed h c r t rs l fdev e io He Hr H H1) as (io1 & E1 & Hr1).
  destruct (io_do_event_lists h io io1 E1) as [Hf1 Hg1]; [by destruct h|].
  destruct (IH c r _ rs l fdev e io1 He Hr Hr1 H2) as (io' & t' & E & K); [congruence|congruence|].
  exists io', t'; split; [|done]; cbn [exec]; by rewrite E1.
Qed.

Lemma io_exec_app es1 es2 io : exec (es1 ++ es2) io = (io' ← exec es1 io; exec es2 io').
Proof. revert io; induction es1 as [|e es1 IH]; intros io; cbn; [done|]; destruct (do_event e io); cbn; [apply IH|done]. Qed.

(** [Wait] returns what happened first, an event of the descriptor or the timeout,
    however much happens before the coroutine goes on; and it leaves the object ready
    for the next [Wait], with no timer and no resumer. *)
Theorem io_wait_first (io : IOEvent) (e : Ev) (c ms : Z) (h : event) (hs : list event) :
  objects (pump_ io) !! fd_event_ io = Some e -> lists_empty (pool io) -> is_Some (coros (pool io) !! c) -> waiting io = None ->
  happenings (0 <? ms) (h :: hs) = true ->
  exists io', exec (EWait c ms :: h :: hs ++ [EProceed]) io = Some io' /\
    returned io' = returned io ++ [outcome (ev_events e) h] /\
    waiting io' = None /\ timer io' = false /\ resumer_ io' = None /\ pump_ io' = pump_ io /\ fd_event_ io' = fd_event_ io /\ lists_empty (pool io').
Proof.
  intros He Hl [co Hco] Hw Hh; cbn [exec do_event]; rewrite Hw; unfold idle, Attatched; pose proof Hl as (Hl1 & Hl2 & Hl3).
  rewrite (bool_decide_eq_true_2 (is_Some _)) by (by eexists); rewrite Hl1, Hl2, Hl3, (bool_decide_eq_false_2 (c ∈ _)) by set_solver; cbn [andb negb].
  unfold Wait, resumer_of; rewrite Hco; cbn [mbind option_bind].
  set (t := 0 <? ms) in *; set (rs := returned io); set (l := pump_ io) in *; set (fdev := fd_event_ io) in *.
  assert (happenings t [h] = true /\ happenings (match h with ETimer => false | _ => t end) hs = true) as [H1 H2].
  { destruct h; cbn in *; try done; destruct t; done. }
  destruct (first_happening h c (resume_id_ co) co t rs l fdev e (pool io) He Hl Hco eq_refl H1) as (io1 & E1 & Hr1 & Hf1 & Hg1).
  rewrite E1; cbn [mbind option_bind]; assert (outcome (ev_events e) h <> None_) as Hn by (destruct h; try done; cbn; by destruct (has _ _)).
  destruct (happenings_resumed hs c _ _ rs l fdev e io1 He Hn Hr1 H2 Hf1 Hg1) as (io2 & t' & E2 & (R1 & R2 & R3 & R4 & R5 & R6 & id & co' & R7 & R8 & R9) & Hf2 & Hg2).
  rewrite io_exec_app, E2; cbn [mbind option_bind exec do_event]; rewrite R2; cbn [mbind option_bind].
  unfold proceed; rewrite R8, R9; cbn [mbind option_bind]; rewrite bool_decide_eq_true_2 by set_solver; unfold Wait_resumed; rewrite R1.
  destruct (outcome (ev_events e) h) eqn:Eo; [done|..]; (eexists; split; [done|]; cbn [returned waiting timer resumer_ pump_ fd_event_ pool]; rewrite R4, R5, R6;
    split_and!; try done; unfold set_coros, set_ready; cbn [ready_list_]; rewrite filter_cons_False by naive_solver; done).
Qed.

Lemma SetEvent_object p ev l l' e : sync l -> objects l !! p = Some e -> SetEvent p ev l = Some l' ->
  objects l' !! p = Some (mkEv (ev_fd e) (u8 ev) (ev_fired e) (ev_et e) (watched e) (owner e)).
Proof.
  intros Hs He E; destruct (SetEvent_spec p ev e l Hs He) as (l2 & E2 & _ & Ho & _).
  assert (l2 = l') as <- by congruence; rewrite Ho; apply lookup_insert_eq.
Qed.

(** The descriptor's events after the first half of the constructor. *)
Lemma enabled_events fdev e l l' : sync l -> objects l !! fdev = Some e ->
  (if ev_events e =? FdEvent.NONE then l ← EnableReading fdev l; EnableWriting fdev l else Some l) = Some l' ->
  sync l' /\ exists e', objects l' !! fdev = Some e' /\ ev_fd e' = ev_fd e /\ ev_events e' <> FdEvent.NONE.
Proof.
  intros Hs He; destruct (Z.eqb_spec (ev_events e) FdEvent.NONE) as [En|En]; [|intros [= <-]; split; [done|by exists e]].
  destruct (EnableReading fdev l) as [l1|] eqn:E1; cbn [mbind option_bind]; [|done]; intros E2.
  pose proof (apply_op_sync (OpEnableReading fdev) l l1 Hs E1) as Hs1; pose proof (apply_op_sync (OpEnableWriting fdev) l1 l' Hs1 E2) as Hs2.
  split; [done|]; unfold EnableReading in E1; rewrite He in E1; cbn [mbind option_bind] in E1; rewrite En in E1.
  change (has FdEvent.NONE FdEvent.READ) with false in E1; apply (SetEvent_object _ _ _ _ _ Hs He) in E1.
  unfold EnableWriting in E2; rewrite E1 in E2; cbn [mbind option_bind ev_events] in E2.
  change (has (u8 (Z.lor FdEvent.NONE FdEvent.READ)) FdEvent.WRITE) with false in E2; apply (SetEvent_object _ _ _ _ _ Hs1 E1) in E2.
  eexists; split; [exact E2|]; by split.
Qed.

(** The constructor registers the descriptor with the loop, with something to wait for,
    and keeps the loop in step with the kernel; the destructor takes it out again. *)
Theorem io_registered (fdev : Z) (l : Loop) (p : Pool) (io : IOEvent) :
  sync l -> initialize fdev l p = Some io ->
  sync (pump_ io) /\ waiting io = None /\
  (exists e, objects (pump_ io) !! fdev = Some e /\ 0 < ev_fd e /\ ev_events e <> FdEvent.NONE /\ registered (pump_ io) (ev_fd e) fdev) /\
  (exists l', destroy io = Some l' /\ sync l' /\
     forall e, objects l !! fdev = Some e -> slot_of (ev_fd e) l' = Some None /\ interest l' !! ev_fd e = None).
Proof.
  intros Hs; unfold initialize; destruct (objects l !! fdev) as [e|] eqn:He; cbn [mbind option_bind]; [|done].
  destruct (Z.ltb_spec 0 (ev_fd e)) as [Hfd|]; [|done].
  destruct (if ev_events e =? FdEvent.NONE then _ else _) as [l1|] eqn:E1; cbn [mbind option_bind]; [|done].
  destruct (enabled_events fdev e l l1 Hs He E1) as (Hs1 & e1 & He1 & Hf1 & Hn1).
  unfold InstallFdEvent; destruct (AddFdEvent fdev l1) as [l2|] eqn:E2; cbn [mbind option_bind]; [|done]; intros [= <-].
  destruct (AddFdEvent_sync fdev l1 l2 Hs1 E2) as (Hs2 & e1' & He1' & Hreg); assert (e1' = e1) as -> by congruence.
  pose proof (AddFdEvent_objects fdev e1 l1 l2 He1 E2) as Ho.
  assert (objects l2 !! fdev = Some (SetFdWatcher true e1)) as He2 by (rewrite Ho; apply lookup_insert_eq).
  cbn [pump_ waiting]; split; [done|]; split; [done|]; split; [exists (SetFdWatcher true e1); split_and!; try done; cbn; lia|].
  unfold destroy, RemoveFdEvent; cbn [pump_ fd_event_]; rewrite He2; cbn [mbind option_bind watched SetFdWatcher].
  destruct (DelFdEvent fdev l2) as [l3|] eqn:E3; cbn [mbind option_bind].
  - destruct (DelFdEvent_sync fdev l2 l3 Hs2 E3) as (Hs3 & e3 & He3 & H1 & H2); exists l3; split; [done|]; split; [done|].
    intros e' [= <-]; assert (ev_fd e3 = ev_fd e) as <- by (rewrite He2 in He3; injection He3 as <-; done); done.
  - unfold DelFdEvent in E3; rewrite He2 in E3; done.
Qed.

(** The descriptor is registered before the first [Wait] and between two of them, and
    an event of it then calls an empty resumer, which throws in the loop. *)
Theorem io_event_between_waits (io : IOEvent) (ev : Z) : resumer_ io = None -> HandleEvent ev io = None.
Proof.
  intros H; unfold HandleEvent; destruct (objects _ !! _) as [e|]; cbn [mbind option_bind]; [|done].
  assert (forall r, resumer_ (set_result r io) = None) as K by (intros r; unfold set_result; by destruct (result_ io)).
  unfold call_resumer; destruct (has _ _); by rewrite K.
Qed.

(** *** Witnesses *)
Definition demo_loop : Loop := match Create 40 5 0 (Loop_new 8 []) with Some l => l | None => Loop_new 8 [] end.

Lemma demo_sync : sync demo_loop.
Proof. apply (Create_sync 40 5 0 (Loop_new 8 [])); [apply new_sync|reflexivity]. Qed.

Definition demo : option IOEvent := initialize 40 demo_loop (fresh [1]).

Lemma io_registered_witness : exists io, demo = Some io /\ sync (pump_ io) /\ waiting io = None.
Proof.
  destruct demo as [io|] eqn:E; [|vm_compute in E; discriminate]; exists io; split; [reflexivity|].
  destruct (io_registered 40 demo_loop (fresh [1]) io demo_sync E) as (H1 & H2 & _); split; assumption.
Defined.

Definition demo_io : IOEvent := match demo with Some io => io | None => mkIO None_ 0 None false None [] demo_loop (fresh []) end.

Lemma io_wait_first_witness : exists io',
  exec (EWait 1 500 :: EFire 2 :: [ETimer; EFire 4] ++ [EProceed]) demo_io = Some io' /\ returned io' = [] ++ [Ok].
Proof.
  destruct (io_wait_first demo_io (mkEv 5 3 0 false true true) 1 500 (EFire 2) [ETimer; EFire 4]) as (io' & H1 & H2 & _).
  - vm_compute; reflexivity.
  - split_and!; vm_compute; reflexivity.
  - exists (mkCo 0 (Some [])); vm_compute; reflexivity.
  - vm_compute; reflexivity.
  - reflexivity.
  - exists io'; split; [exact H1|exact H2].
Defined.

Lemma io_event_between_waits_witness : exists io, demo = Some io /\ HandleEvent 2 io = None.
Proof.
  destruct demo as [io|] eqn:E; [|vm_compute in E; discriminate]; exists io; split; [reflexivity|].
  apply io_event_between_waits; vm_compute in E; injection E as <-; reflexivity.
Defined.
End IOEvent.
