(* ===== verification/Crc.v ===== *)
(** * Cyclic redundancy checks (thirdparty/hash/crc.{h,cpp})

    The six table-driven checks, the function that runs one of them backwards, and
    the check of 64 bits that names the posting lists of the inverted index.  The
    tables are the source's.  [crc_reflected] and [crc_forward] are the definition of a
    check, bit by bit: a remainder shifted out at its low or its high end.

    [crc_tables_exact] says that all six compute the check of their polynomial,
    [crc32_rev_exact] that the reversal undoes the check, and [crc32_detects] that a
    change within four bytes never goes unnoticed. *)
From stdpp Require Import list.
From S2P Require Import Prelude.

Module Crc.

Definition crc8_atm_table : list Z :=
  [ 0x00; 0x07; 0x0e; 0x09; 0x1c; 0x1b; 0x12; 0x15; 0x38; 0x3f; 0x36; 0x31; 0x24; 0x23; 0x2a; 0x2d;
    0x70; 0x77; 0x7e; 0x79; 0x6c; 0x6b; 0x62; 0x65; 0x48; 0x4f; 0x46; 0x41; 0x54; 0x53; 0x5a; 0x5d;
    0xe0; 0xe7; 0xee; 0xe9; 0xfc; 0xfb; 0xf2; 0xf5; 0xd8; 0xdf; 0xd6; 0xd1; 0xc4; 0xc3; 0xca; 0xcd;
    0x90; 0x97; 0x9e; 0x99; 0x8c; 0x8b; 0x82; 0x85; 0xa8; 0xaf; 0xa6; 0xa1; 0xb4; 0xb3; 0xba; 0xbd;
    0xc7; 0xc0; 0xc9; 0xce; 0xdb; 0xdc; 0xd5; 0xd2; 0xff; 0xf8; 0xf1; 0xf6; 0xe3; 0xe4; 0xed; 0xea;
    0xb7; 0xb0; 0xb9; 0xbe; 0xab; 0xac; 0xa5; 0xa2; 0x8f; 0x88; 0x81; 0x86; 0x93; 0x94; 0x9d; 0x9a;
    0x27; 0x20; 0x29; 0x2e; 0x3b; 0x3c; 0x35; 0x32; 0x1f; 0x18; 0x11; 0x16; 0x03; 0x04; 0x0d; 0x0a;
    0x57; 0x50; 0x59; 0x5e; 0x4b; 0x4c; 0x45; 0x42; 0x6f; 0x68; 0x61; 0x66; 0x73; 0x74; 0x7d; 0x7a;
    0x89; 0x8e; 0x87; 0x80; 0x95; 0x92; 0x9b; 0x9c; 0xb1; 0xb6; 0xbf; 0xb8; 0xad; 0xaa; 0xa3; 0xa4;
    0xf9; 0xfe; 0xf7; 0xf0; 0xe5; 0xe2; 0xeb; 0xec; 0xc1; 0xc6; 0xcf; 0xc8; 0xdd; 0xda; 0xd3; 0xd4;
    0x69; 0x6e; 0x67; 0x60; 0x75; 0x72; 0x7b; 0x7c; 0x51; 0x56; 0x5f; 0x58; 0x4d; 0x4a; 0x43; 0x44;
    0x19; 0x1e; 0x17; 0x10; 0x05; 0x02; 0x0b; 0x0c; 0x21; 0x26; 0x2f; 0x28; 0x3d; 0x3a; 0x33; 0x34;
    0x4e; 0x49; 0x40; 0x47; 0x52; 0x55; 0x5c; 0x5b; 0x76; 0x71; 0x78; 0x7f; 0x6a; 0x6d; 0x64; 0x63;
    0x3e; 0x39; 0x30; 0x37; 0x22; 0x25; 0x2c; 0x2b; 0x06; 0x01; 0x08; 0x0f; 0x1a; 0x1d; 0x14; 0x13;
    0xae; 0xa9; 0xa0; 0xa7; 0xb2; 0xb5; 0xbc; 0xbb; 0x96; 0x91; 0x98; 0x9f; 0x8a; 0x8d; 0x84; 0x83;
    0xde; 0xd9; 0xd0; 0xd7; 0xc2; 0xc5; 0xcc; 0xcb; 0xe6; 0xe1; 0xe8; 0xef; 0xfa; 0xfd; 0xf4; 0xf3 ].

Definition crc16_ansi_table : list Z :=
  [ 0x0000; 0x0580; 0x0f80; 0x0a00; 0x1b80; 0x1e00; 0x1400; 0x1180; 0x3380; 0x3600; 0x3c00; 0x3980;
    0x2800; 0x2d80; 0x2780; 0x2200; 0x6380; 0x6600; 0x6c00; 0x6980; 0x7800; 0x7d80; 0x7780; 0x7200;
    0x5000; 0x5580; 0x5f80; 0x5a00; 0x4b80; 0x4e00; 0x4400; 0x4180; 0xc380; 0xc600; 0xcc00; 0xc980;
    0xd800; 0xdd80; 0xd780; 0xd200; 0xf000; 0xf580; 0xff80; 0xfa00; 0xeb80; 0xee00; 0xe400; 0xe180;
    0xa000; 0xa580; 0xaf80; 0xaa00; 0xbb80; 0xbe00; 0xb400; 0xb180; 0x9380; 0x9600; 0x9c00; 0x9980;
    0x8800; 0x8d80; 0x8780; 0x8200; 0x8381; 0x8601; 0x8c01; 0x8981; 0x9801; 0x9d81; 0x9781; 0x9201;
    0xb001; 0xb581; 0xbf81; 0xba01; 0xab81; 0xae01; 0xa401; 0xa181; 0xe001; 0xe581; 0xef81; 0xea01;
    0xfb81; 0xfe01; 0xf401; 0xf181; 0xd381; 0xd601; 0xdc01; 0xd981; 0xc801; 0xcd81; 0xc781; 0xc201;
    0x4001; 0x4581; 0x4f81; 0x4a01; 0x5b81; 0x5e01; 0x5401; 0x5181; 0x7381; 0x7601; 0x7c01; 0x7981;
    0x6801; 0x6d81; 0x6781; 0x6201; 0x2381; 0x2601; 0x2c01; 0x2981; 0x3801; 0x3d81; 0x3781; 0x3201;
    0x1001; 0x1581; 0x1f81; 0x1a01; 0x0b81; 0x0e01; 0x0401; 0x0181; 0x0383; 0x0603; 0x0c03; 0x0983;
    0x1803; 0x1d83; 0x1783; 0x1203; 0x3003; 0x3583; 0x3f83; 0x3a03; 0x2b83; 0x2e03; 0x2403; 0x2183;
    0x6003; 0x6583; 0x6f83; 0x6a03; 0x7b83; 0x7e03; 0x7403; 0x7183; 0x5383; 0x5603; 0x5c03; 0x5983;
    0x4803; 0x4d83; 0x4783; 0x4203; 0xc003; 0xc583; 0xcf83; 0xca03; 0xdb83; 0xde03; 0xd403; 0xd183;
    0xf383; 0xf603; 0xfc03; 0xf983; 0xe803; 0xed83; 0xe783; 0xe203; 0xa383; 0xa603; 0xac03; 0xa983;
    0xb803; 0xbd83; 0xb783; 0xb203; 0x9003; 0x9583; 0x9f83; 0x9a03; 0x8b83; 0x8e03; 0x8403; 0x8183;
    0x8002; 0x8582; 0x8f82; 0x8a02; 0x9b82; 0x9e02; 0x9402; 0x9182; 0xb382; 0xb602; 0xbc02; 0xb982;
    0xa802; 0xad82; 0xa782; 0xa202; 0xe382; 0xe602; 0xec02; 0xe982; 0xf802; 0xfd82; 0xf782; 0xf202;
    0xd002; 0xd582; 0xdf82; 0xda02; 0xcb82; 0xce02; 0xc402; 0xc182; 0x4382; 0x4602; 0x4c02; 0x4982;
    0x5802; 0x5d82; 0x5782; 0x5202; 0x7002; 0x7582; 0x7f82; 0x7a02; 0x6b82; 0x6e02; 0x6402; 0x6182;
    0x2002; 0x2582; 0x2f82; 0x2a02; 0x3b82; 0x3e02; 0x3402; 0x3182; 0x1382; 0x1602; 0x1c02; 0x1982;
    0x0802; 0x0d82; 0x0782; 0x0202 ].

Definition crc16_ccitt_table : list Z :=
  [ 0x0000; 0x2110; 0x4220; 0x6330; 0x8440; 0xa550; 0xc660; 0xe770; 0x0881; 0x2991; 0x4aa1; 0x6bb1;
    0x8cc1; 0xadd1; 0xcee1; 0xeff1; 0x3112; 0x1002; 0x7332; 0x5222; 0xb552; 0x9442; 0xf772; 0xd662;
    0x3993; 0x1883; 0x7bb3; 0x5aa3; 0xbdd3; 0x9cc3; 0xfff3; 0xdee3; 0x6224; 0x4334; 0x2004; 0x0114;
    0xe664; 0xc774; 0xa444; 0x8554; 0x6aa5; 0x4bb5; 0x2885; 0x0995; 0xeee5; 0xcff5; 0xacc5; 0x8dd5;
    0x5336; 0x7226; 0x1116; 0x3006; 0xd776; 0xf666; 0x9556; 0xb446; 0x5bb7; 0x7aa7; 0x1997; 0x3887;
    0xdff7; 0xfee7; 0x9dd7; 0xbcc7; 0xc448; 0xe558; 0x8668; 0xa778; 0x4008; 0x6118; 0x0228; 0x2338;
    0xccc9; 0xedd9; 0x8ee9; 0xaff9; 0x4889; 0x6999; 0x0aa9; 0x2bb9; 0xf55a; 0xd44a; 0xb77a; 0x966a;
    0x711a; 0x500a; 0x333a; 0x122a; 0xfddb; 0xdccb; 0xbffb; 0x9eeb; 0x799b; 0x588b; 0x3bbb; 0x1aab;
    0xa66c; 0x877c; 0xe44c; 0xc55c; 0x222c; 0x033c; 0x600c; 0x411c; 0xaeed; 0x8ffd; 0xeccd; 0xcddd;
    0x2aad; 0x0bbd; 0x688d; 0x499d; 0x977e; 0xb66e; 0xd55e; 0xf44e; 0x133e; 0x322e; 0x511e; 0x700e;
    0x9fff; 0xbeef; 0xdddf; 0xfccf; 0x1bbf; 0x3aaf; 0x599f; 0x788f; 0x8891; 0xa981; 0xcab1; 0xeba1;
    0x0cd1; 0x2dc1; 0x4ef1; 0x6fe1; 0x8010; 0xa100; 0xc230; 0xe320; 0x0450; 0x2540; 0x4670; 0x6760;
    0xb983; 0x9893; 0xfba3; 0xdab3; 0x3dc3; 0x1cd3; 0x7fe3; 0x5ef3; 0xb102; 0x9012; 0xf322; 0xd232;
    0x3542; 0x1452; 0x7762; 0x5672; 0xeab5; 0xcba5; 0xa895; 0x8985; 0x6ef5; 0x4fe5; 0x2cd5; 0x0dc5;
    0xe234; 0xc324; 0xa014; 0x8104; 0x6674; 0x4764; 0x2454; 0x0544; 0xdba7; 0xfab7; 0x9987; 0xb897;
    0x5fe7; 0x7ef7; 0x1dc7; 0x3cd7; 0xd326; 0xf236; 0x9106; 0xb016; 0x5766; 0x7676; 0x1546; 0x3456;
    0x4cd9; 0x6dc9; 0x0ef9; 0x2fe9; 0xc899; 0xe989; 0x8ab9; 0xaba9; 0x4458; 0x6548; 0x0678; 0x2768;
    0xc018; 0xe108; 0x8238; 0xa328; 0x7dcb; 0x5cdb; 0x3feb; 0x1efb; 0xf98b; 0xd89b; 0xbbab; 0x9abb;
    0x754a; 0x545a; 0x376a; 0x167a; 0xf10a; 0xd01a; 0xb32a; 0x923a; 0x2efd; 0x0fed; 0x6cdd; 0x4dcd;
    0xaabd; 0x8bad; 0xe89d; 0xc98d; 0x267c; 0x076c; 0x645c; 0x454c; 0xa23c; 0x832c; 0xe01c; 0xc10c;
    0x1fef; 0x3eff; 0x5dcf; 0x7cdf; 0x9baf; 0xbabf; 0xd98f; 0xf89f; 0x176e; 0x367e; 0x554e; 0x745e;
    0x932e; 0xb23e; 0xd10e; 0xf01e ].

Definition crc32_ieee_table : list Z :=
  [ 0x00000000; 0xb71dc104; 0x6e3b8209; 0xd926430d; 0xdc760413; 0x6b6bc517; 0xb24d861a; 0x0550471e;
    0xb8ed0826; 0x0ff0c922; 0xd6d68a2f; 0x61cb4b2b; 0x649b0c35; 0xd386cd31; 0x0aa08e3c; 0xbdbd4f38;
    0x70db114c; 0xc7c6d048; 0x1ee09345; 0xa9fd5241; 0xacad155f; 0x1bb0d45b; 0xc2969756; 0x758b5652;
    0xc836196a; 0x7f2bd86e; 0xa60d9b63; 0x11105a67; 0x14401d79; 0xa35ddc7d; 0x7a7b9f70; 0xcd665e74;
    0xe0b62398; 0x57abe29c; 0x8e8da191; 0x39906095; 0x3cc0278b; 0x8bdde68f; 0x52fba582; 0xe5e66486;
    0x585b2bbe; 0xef46eaba; 0x3660a9b7; 0x817d68b3; 0x842d2fad; 0x3330eea9; 0xea16ada4; 0x5d0b6ca0;
    0x906d32d4; 0x2770f3d0; 0xfe56b0dd; 0x494b71d9; 0x4c1b36c7; 0xfb06f7c3; 0x2220b4ce; 0x953d75ca;
    0x28803af2; 0x9f9dfbf6; 0x46bbb8fb; 0xf1a679ff; 0xf4f63ee1; 0x43ebffe5; 0x9acdbce8; 0x2dd07dec;
    0x77708634; 0xc06d4730; 0x194b043d; 0xae56c539; 0xab068227; 0x1c1b4323; 0xc53d002e; 0x7220c12a;
    0xcf9d8e12; 0x78804f16; 0xa1a60c1b; 0x16bbcd1f; 0x13eb8a01; 0xa4f64b05; 0x7dd00808; 0xcacdc90c;
    0x07ab9778; 0xb0b6567c; 0x69901571; 0xde8dd475; 0xdbdd936b; 0x6cc0526f; 0xb5e61162; 0x02fbd066;
    0xbf469f5e; 0x085b5e5a; 0xd17d1d57; 0x6660dc53; 0x63309b4d; 0xd42d5a49; 0x0d0b1944; 0xba16d840;
    0x97c6a5ac; 0x20db64a8; 0xf9fd27a5; 0x4ee0e6a1; 0x4bb0a1bf; 0xfcad60bb; 0x258b23b6; 0x9296e2b2;
    0x2f2bad8a; 0x98366c8e; 0x41102f83; 0xf60dee87; 0xf35da999; 0x4440689d; 0x9d662b90; 0x2a7bea94;
    0xe71db4e0; 0x500075e4; 0x892636e9; 0x3e3bf7ed; 0x3b6bb0f3; 0x8c7671f7; 0x555032fa; 0xe24df3fe;
    0x5ff0bcc6; 0xe8ed7dc2; 0x31cb3ecf; 0x86d6ffcb; 0x8386b8d5; 0x349b79d1; 0xedbd3adc; 0x5aa0fbd8;
    0xeee00c69; 0x59fdcd6d; 0x80db8e60; 0x37c64f64; 0x3296087a; 0x858bc97e; 0x5cad8a73; 0xebb04b77;
    0x560d044f; 0xe110c54b; 0x38368646; 0x8f2b4742; 0x8a7b005c; 0x3d66c158; 0xe4408255; 0x535d4351;
    0x9e3b1d25; 0x2926dc21; 0xf0009f2c; 0x471d5e28; 0x424d1936; 0xf550d832; 0x2c769b3f; 0x9b6b5a3b;
    0x26d61503; 0x91cbd407; 0x48ed970a; 0xfff0560e; 0xfaa01110; 0x4dbdd014; 0x949b9319; 0x2386521d;
    0x0e562ff1; 0xb94beef5; 0x606dadf8; 0xd7706cfc; 0xd2202be2; 0x653deae6; 0xbc1ba9eb; 0x0b0668ef;
    0xb6bb27d7; 0x01a6e6d3; 0xd880a5de; 0x6f9d64da; 0x6acd23c4; 0xddd0e2c0; 0x04f6a1cd; 0xb3eb60c9;
    0x7e8d3ebd; 0xc990ffb9; 0x10b6bcb4; 0xa7ab7db0; 0xa2fb3aae; 0x15e6fbaa; 0xccc0b8a7; 0x7bdd79a3;
    0xc660369b; 0x717df79f; 0xa85bb492; 0x1f467596; 0x1a163288; 0xad0bf38c; 0x742db081; 0xc3307185;
    0x99908a5d; 0x2e8d4b59; 0xf7ab0854; 0x40b6c950; 0x45e68e4e; 0xf2fb4f4a; 0x2bdd0c47; 0x9cc0cd43;
    0x217d827b; 0x9660437f; 0x4f460072; 0xf85bc176; 0xfd0b8668; 0x4a16476c; 0x93300461; 0x242dc565;
    0xe94b9b11; 0x5e565a15; 0x87701918; 0x306dd81c; 0x353d9f02; 0x82205e06; 0x5b061d0b; 0xec1bdc0f;
    0x51a69337; 0xe6bb5233; 0x3f9d113e; 0x8880d03a; 0x8dd09724; 0x3acd5620; 0xe3eb152d; 0x54f6d429;
    0x7926a9c5; 0xce3b68c1; 0x171d2bcc; 0xa000eac8; 0xa550add6; 0x124d6cd2; 0xcb6b2fdf; 0x7c76eedb;
    0xc1cba1e3; 0x76d660e7; 0xaff023ea; 0x18ede2ee; 0x1dbda5f0; 0xaaa064f4; 0x738627f9; 0xc49be6fd;
    0x09fdb889; 0xbee0798d; 0x67c63a80; 0xd0dbfb84; 0xd58bbc9a; 0x62967d9e; 0xbbb03e93; 0x0cadff97;
    0xb110b0af; 0x060d71ab; 0xdf2b32a6; 0x6836f3a2; 0x6d66b4bc; 0xda7b75b8; 0x035d36b5; 0xb440f7b1 ].

Definition crc32_ieee_le_table : list Z :=
  [ 0x00000000; 0x77073096; 0xee0e612c; 0x990951ba; 0x076dc419; 0x706af48f; 0xe963a535; 0x9e6495a3;
    0x0edb8832; 0x79dcb8a4; 0xe0d5e91e; 0x97d2d988; 0x09b64c2b; 0x7eb17cbd; 0xe7b82d07; 0x90bf1d91;
    0x1db71064; 0x6ab020f2; 0xf3b97148; 0x84be41de; 0x1adad47d; 0x6ddde4eb; 0xf4d4b551; 0x83d385c7;
    0x136c9856; 0x646ba8c0; 0xfd62f97a; 0x8a65c9ec; 0x14015c4f; 0x63066cd9; 0xfa0f3d63; 0x8d080df5;
    0x3b6e20c8; 0x4c69105e; 0xd56041e4; 0xa2677172; 0x3c03e4d1; 0x4b04d447; 0xd20d85fd; 0xa50ab56b;
    0x35b5a8fa; 0x42b2986c; 0xdbbbc9d6; 0xacbcf940; 0x32d86ce3; 0x45df5c75; 0xdcd60dcf; 0xabd13d59;
    0x26d930ac; 0x51de003a; 0xc8d75180; 0xbfd06116; 0x21b4f4b5; 0x56b3c423; 0xcfba9599; 0xb8bda50f;
    0x2802b89e; 0x5f058808; 0xc60cd9b2; 0xb10be924; 0x2f6f7c87; 0x58684c11; 0xc1611dab; 0xb6662d3d;
    0x76dc4190; 0x01db7106; 0x98d220bc; 0xefd5102a; 0x71b18589; 0x06b6b51f; 0x9fbfe4a5; 0xe8b8d433;
    0x7807c9a2; 0x0f00f934; 0x9609a88e; 0xe10e9818; 0x7f6a0dbb; 0x086d3d2d; 0x91646c97; 0xe6635c01;
    0x6b6b51f4; 0x1c6c6162; 0x856530d8; 0xf262004e; 0x6c0695ed; 0x1b01a57b; 0x8208f4c1; 0xf50fc457;
    0x65b0d9c6; 0x12b7e950; 0x8bbeb8ea; 0xfcb9887c; 0x62dd1ddf; 0x15da2d49; 0x8cd37cf3; 0xfbd44c65;
    0x4db26158; 0x3ab551ce; 0xa3bc0074; 0xd4bb30e2; 0x4adfa541; 0x3dd895d7; 0xa4d1c46d; 0xd3d6f4fb;
    0x4369e96a; 0x346ed9fc; 0xad678846; 0xda60b8d0; 0x44042d73; 0x33031de5; 0xaa0a4c5f; 0xdd0d7cc9;
    0x5005713c; 0x270241aa; 0xbe0b1010; 0xc90c2086; 0x5768b525; 0x206f85b3; 0xb966d409; 0xce61e49f;
    0x5edef90e; 0x29d9c998; 0xb0d09822; 0xc7d7a8b4; 0x59b33d17; 0x2eb40d81; 0xb7bd5c3b; 0xc0ba6cad;
    0xedb88320; 0x9abfb3b6; 0x03b6e20c; 0x74b1d29a; 0xead54739; 0x9dd277af; 0x04db2615; 0x73dc1683;
    0xe3630b12; 0x94643b84; 0x0d6d6a3e; 0x7a6a5aa8; 0xe40ecf0b; 0x9309ff9d; 0x0a00ae27; 0x7d079eb1;
    0xf00f9344; 0x8708a3d2; 0x1e01f268; 0x6906c2fe; 0xf762575d; 0x806567cb; 0x196c3671; 0x6e6b06e7;
    0xfed41b76; 0x89d32be0; 0x10da7a5a; 0x67dd4acc; 0xf9b9df6f; 0x8ebeeff9; 0x17b7be43; 0x60b08ed5;
    0xd6d6a3e8; 0xa1d1937e; 0x38d8c2c4; 0x4fdff252; 0xd1bb67f1; 0xa6bc5767; 0x3fb506dd; 0x48b2364b;
    0xd80d2bda; 0xaf0a1b4c; 0x36034af6; 0x41047a60; 0xdf60efc3; 0xa867df55; 0x316e8eef; 0x4669be79;
    0xcb61b38c; 0xbc66831a; 0x256fd2a0; 0x5268e236; 0xcc0c7795; 0xbb0b4703; 0x220216b9; 0x5505262f;
    0xc5ba3bbe; 0xb2bd0b28; 0x2bb45a92; 0x5cb36a04; 0xc2d7ffa7; 0xb5d0cf31; 0x2cd99e8b; 0x5bdeae1d;
    0x9b64c2b0; 0xec63f226; 0x756aa39c; 0x026d930a; 0x9c0906a9; 0xeb0e363f; 0x72076785; 0x05005713;
    0x95bf4a82; 0xe2b87a14; 0x7bb12bae; 0x0cb61b38; 0x92d28e9b; 0xe5d5be0d; 0x7cdcefb7; 0x0bdbdf21;
    0x86d3d2d4; 0xf1d4e242; 0x68ddb3f8; 0x1fda836e; 0x81be16cd; 0xf6b9265b; 0x6fb077e1; 0x18b74777;
    0x88085ae6; 0xff0f6a70; 0x66063bca; 0x11010b5c; 0x8f659eff; 0xf862ae69; 0x616bffd3; 0x166ccf45;
    0xa00ae278; 0xd70dd2ee; 0x4e048354; 0x3903b3c2; 0xa7672661; 0xd06016f7; 0x4969474d; 0x3e6e77db;
    0xaed16a4a; 0xd9d65adc; 0x40df0b66; 0x37d83bf0; 0xa9bcae53; 0xdebb9ec5; 0x47b2cf7f; 0x30b5ffe9;
    0xbdbdf21c; 0xcabac28a; 0x53b39330; 0x24b4a3a6; 0xbad03605; 0xcdd70693; 0x54de5729; 0x23d967bf;
    0xb3667a2e; 0xc4614ab8; 0x5d681b02; 0x2a6f2b94; 0xb40bbe37; 0xc30c8ea1; 0x5a05df1b; 0x2d02ef8d ].

Definition crc64_tab : list Z :=
  [ 0x0000000000000000; 0x7ad870c830358979; 0xf5b0e190606b12f2; 0x8f689158505e9b8b;
    0xc038e5739841b68f; 0xbae095bba8743ff6; 0x358804e3f82aa47d; 0x4f50742bc81f2d04;
    0xab28ecb46814fe75; 0xd1f09c7c5821770c; 0x5e980d24087fec87; 0x24407dec384a65fe;
    0x6b1009c7f05548fa; 0x11c8790fc060c183; 0x9ea0e857903e5a08; 0xe478989fa00bd371;
    0x7d08ff3b88be6f81; 0x07d08ff3b88be6f8; 0x88b81eabe8d57d73; 0xf2606e63d8e0f40a;
    0xbd301a4810ffd90e; 0xc7e86a8020ca5077; 0x4880fbd87094cbfc; 0x32588b1040a14285;
    0xd620138fe0aa91f4; 0xacf86347d09f188d; 0x2390f21f80c18306; 0x594882d7b0f40a7f;
    0x1618f6fc78eb277b; 0x6cc0863448deae02; 0xe3a8176c18803589; 0x997067a428b5bcf0;
    0xfa11fe77117cdf02; 0x80c98ebf2149567b; 0x0fa11fe77117cdf0; 0x75796f2f41224489;
    0x3a291b04893d698d; 0x40f16bccb908e0f4; 0xcf99fa94e9567b7f; 0xb5418a5cd963f206;
    0x513912c379682177; 0x2be1620b495da80e; 0xa489f35319033385; 0xde51839b2936bafc;
    0x9101f7b0e12997f8; 0xebd98778d11c1e81; 0x64b116208142850a; 0x1e6966e8b1770c73;
    0x8719014c99c2b083; 0xfdc17184a9f739fa; 0x72a9e0dcf9a9a271; 0x08719014c99c2b08;
    0x4721e43f0183060c; 0x3df994f731b68f75; 0xb29105af61e814fe; 0xc849756751dd9d87;
    0x2c31edf8f1d64ef6; 0x56e99d30c1e3c78f; 0xd9810c6891bd5c04; 0xa3597ca0a188d57d;
    0xec09088b6997f879; 0x96d1784359a27100; 0x19b9e91b09fcea8b; 0x636199d339c963f2;
    0xdf7adabd7a6e2d6f; 0xa5a2aa754a5ba416; 0x2aca3b2d1a053f9d; 0x50124be52a30b6e4;
    0x1f423fcee22f9be0; 0x659a4f06d21a1299; 0xeaf2de5e82448912; 0x902aae96b271006b;
    0x74523609127ad31a; 0x0e8a46c1224f5a63; 0x81e2d7997211c1e8; 0xfb3aa75142244891;
    0xb46ad37a8a3b6595; 0xceb2a3b2ba0eecec; 0x41da32eaea507767; 0x3b024222da65fe1e;
    0xa2722586f2d042ee; 0xd8aa554ec2e5cb97; 0x57c2c41692bb501c; 0x2d1ab4dea28ed965;
    0x624ac0f56a91f461; 0x1892b03d5aa47d18; 0x97fa21650afae693; 0xed2251ad3acf6fea;
    0x095ac9329ac4bc9b; 0x7382b9faaaf135e2; 0xfcea28a2faafae69; 0x8632586aca9a2710;
    0xc9622c4102850a14; 0xb3ba5c8932b0836d; 0x3cd2cdd162ee18e6; 0x460abd1952db919f;
    0x256b24ca6b12f26d; 0x5fb354025b277b14; 0xd0dbc55a0b79e09f; 0xaa03b5923b4c69e6;
    0xe553c1b9f35344e2; 0x9f8bb171c366cd9b; 0x10e3202993385610; 0x6a3b50e1a30ddf69;
    0x8e43c87e03060c18; 0xf49bb8b633338561; 0x7bf329ee636d1eea; 0x012b592653589793;
    0x4e7b2d0d9b47ba97; 0x34a35dc5ab7233ee; 0xbbcbcc9dfb2ca865; 0xc113bc55cb19211c;
    0x5863dbf1e3ac9dec; 0x22bbab39d3991495; 0xadd33a6183c78f1e; 0xd70b4aa9b3f20667;
    0x985b3e827bed2b63; 0xe2834e4a4bd8a21a; 0x6debdf121b863991; 0x1733afda2bb3b0e8;
    0xf34b37458bb86399; 0x8993478dbb8deae0; 0x06fbd6d5ebd3716b; 0x7c23a61ddbe6f812;
    0x3373d23613f9d516; 0x49aba2fe23cc5c6f; 0xc6c333a67392c7e4; 0xbc1b436e43a74e9d;
    0x95ac9329ac4bc9b5; 0xef74e3e19c7e40cc; 0x601c72b9cc20db47; 0x1ac40271fc15523e;
    0x5594765a340a7f3a; 0x2f4c0692043ff643; 0xa02497ca54616dc8; 0xdafce7026454e4b1;
    0x3e847f9dc45f37c0; 0x445c0f55f46abeb9; 0xcb349e0da4342532; 0xb1eceec59401ac4b;
    0xfebc9aee5c1e814f; 0x8464ea266c2b0836; 0x0b0c7b7e3c7593bd; 0x71d40bb60c401ac4;
    0xe8a46c1224f5a634; 0x927c1cda14c02f4d; 0x1d148d82449eb4c6; 0x67ccfd4a74ab3dbf;
    0x289c8961bcb410bb; 0x5244f9a98c8199c2; 0xdd2c68f1dcdf0249; 0xa7f41839ecea8b30;
    0x438c80a64ce15841; 0x3954f06e7cd4d138; 0xb63c61362c8a4ab3; 0xcce411fe1cbfc3ca;
    0x83b465d5d4a0eece; 0xf96c151de49567b7; 0x76048445b4cbfc3c; 0x0cdcf48d84fe7545;
    0x6fbd6d5ebd3716b7; 0x15651d968d029fce; 0x9a0d8ccedd5c0445; 0xe0d5fc06ed698d3c;
    0xaf85882d2576a038; 0xd55df8e515432941; 0x5a3569bd451db2ca; 0x20ed197575283bb3;
    0xc49581ead523e8c2; 0xbe4df122e51661bb; 0x3125607ab548fa30; 0x4bfd10b2857d7349;
    0x04ad64994d625e4d; 0x7e7514517d57d734; 0xf11d85092d094cbf; 0x8bc5f5c11d3cc5c6;
    0x12b5926535897936; 0x686de2ad05bcf04f; 0xe70573f555e26bc4; 0x9ddd033d65d7e2bd;
    0xd28d7716adc8cfb9; 0xa85507de9dfd46c0; 0x273d9686cda3dd4b; 0x5de5e64efd965432;
    0xb99d7ed15d9d8743; 0xc3450e196da80e3a; 0x4c2d9f413df695b1; 0x36f5ef890dc31cc8;
    0x79a59ba2c5dc31cc; 0x037deb6af5e9b8b5; 0x8c157a32a5b7233e; 0xf6cd0afa9582aa47;
    0x4ad64994d625e4da; 0x300e395ce6106da3; 0xbf66a804b64ef628; 0xc5bed8cc867b7f51;
    0x8aeeace74e645255; 0xf036dc2f7e51db2c; 0x7f5e4d772e0f40a7; 0x05863dbf1e3ac9de;
    0xe1fea520be311aaf; 0x9b26d5e88e0493d6; 0x144e44b0de5a085d; 0x6e963478ee6f8124;
    0x21c640532670ac20; 0x5b1e309b16452559; 0xd476a1c3461bbed2; 0xaeaed10b762e37ab;
    0x37deb6af5e9b8b5b; 0x4d06c6676eae0222; 0xc26e573f3ef099a9; 0xb8b627f70ec510d0;
    0xf7e653dcc6da3dd4; 0x8d3e2314f6efb4ad; 0x0256b24ca6b12f26; 0x788ec2849684a65f;
    0x9cf65a1b368f752e; 0xe62e2ad306bafc57; 0x6946bb8b56e467dc; 0x139ecb4366d1eea5;
    0x5ccebf68aecec3a1; 0x2616cfa09efb4ad8; 0xa97e5ef8cea5d153; 0xd3a62e30fe90582a;
    0xb0c7b7e3c7593bd8; 0xca1fc72bf76cb2a1; 0x45775673a732292a; 0x3faf26bb9707a053;
    0x70ff52905f188d57; 0x0a2722586f2d042e; 0x854fb3003f739fa5; 0xff97c3c80f4616dc;
    0x1bef5b57af4dc5ad; 0x61372b9f9f784cd4; 0xee5fbac7cf26d75f; 0x9487ca0fff135e26;
    0xdbd7be24370c7322; 0xa10fceec0739fa5b; 0x2e675fb4576761d0; 0x54bf2f7c6752e8a9;
    0xcdcf48d84fe75459; 0xb71738107fd2dd20; 0x387fa9482f8c46ab; 0x42a7d9801fb9cfd2;
    0x0df7adabd7a6e2d6; 0x772fdd63e7936baf; 0xf8474c3bb7cdf024; 0x829f3cf387f8795d;
    0x66e7a46c27f3aa2c; 0x1c3fd4a417c62355; 0x935745fc4798b8de; 0xe98f353477ad31a7;
    0xa6df411fbfb21ca3; 0xdc0731d78f8795da; 0x536fa08fdfd90e51; 0x29b7d047efec8728 ].

Definition crc32_ieee_le_rev_table : list Z :=
  [ 0x00; 0x41; 0xc3; 0x82; 0x86; 0xc7; 0x45; 0x04; 0x4d; 0x0c; 0x8e; 0xcf; 0xcb; 0x8a; 0x08; 0x49;
    0x9a; 0xdb; 0x59; 0x18; 0x1c; 0x5d; 0xdf; 0x9e; 0xd7; 0x96; 0x14; 0x55; 0x51; 0x10; 0x92; 0xd3;
    0x75; 0x34; 0xb6; 0xf7; 0xf3; 0xb2; 0x30; 0x71; 0x38; 0x79; 0xfb; 0xba; 0xbe; 0xff; 0x7d; 0x3c;
    0xef; 0xae; 0x2c; 0x6d; 0x69; 0x28; 0xaa; 0xeb; 0xa2; 0xe3; 0x61; 0x20; 0x24; 0x65; 0xe7; 0xa6;
    0xea; 0xab; 0x29; 0x68; 0x6c; 0x2d; 0xaf; 0xee; 0xa7; 0xe6; 0x64; 0x25; 0x21; 0x60; 0xe2; 0xa3;
    0x70; 0x31; 0xb3; 0xf2; 0xf6; 0xb7; 0x35; 0x74; 0x3d; 0x7c; 0xfe; 0xbf; 0xbb; 0xfa; 0x78; 0x39;
    0x9f; 0xde; 0x5c; 0x1d; 0x19; 0x58; 0xda; 0x9b; 0xd2; 0x93; 0x11; 0x50; 0x54; 0x15; 0x97; 0xd6;
    0x05; 0x44; 0xc6; 0x87; 0x83; 0xc2; 0x40; 0x01; 0x48; 0x09; 0x8b; 0xca; 0xce; 0x8f; 0x0d; 0x4c;
    0x95; 0xd4; 0x56; 0x17; 0x13; 0x52; 0xd0; 0x91; 0xd8; 0x99; 0x1b; 0x5a; 0x5e; 0x1f; 0x9d; 0xdc;
    0x0f; 0x4e; 0xcc; 0x8d; 0x89; 0xc8; 0x4a; 0x0b; 0x42; 0x03; 0x81; 0xc0; 0xc4; 0x85; 0x07; 0x46;
    0xe0; 0xa1; 0x23; 0x62; 0x66; 0x27; 0xa5; 0xe4; 0xad; 0xec; 0x6e; 0x2f; 0x2b; 0x6a; 0xe8; 0xa9;
    0x7a; 0x3b; 0xb9; 0xf8; 0xfc; 0xbd; 0x3f; 0x7e; 0x37; 0x76; 0xf4; 0xb5; 0xb1; 0xf0; 0x72; 0x33;
    0x7f; 0x3e; 0xbc; 0xfd; 0xf9; 0xb8; 0x3a; 0x7b; 0x32; 0x73; 0xf1; 0xb0; 0xb4; 0xf5; 0x77; 0x36;
    0xe5; 0xa4; 0x26; 0x67; 0x63; 0x22; 0xa0; 0xe1; 0xa8; 0xe9; 0x6b; 0x2a; 0x2e; 0x6f; 0xed; 0xac;
    0x0a; 0x4b; 0xc9; 0x88; 0x8c; 0xcd; 0x4f; 0x0e; 0x47; 0x06; 0x84; 0xc5; 0xc1; 0x80; 0x02; 0x43;
    0x90; 0xd1; 0x53; 0x12; 0x16; 0x57; 0xd5; 0x94; 0xdd; 0x9c; 0x1e; 0x5f; 0x5b; 0x1a; 0x98; 0xd9 ].

(** [_DECLARE_CRC_FUNC_]: a byte, and a block. *)
Definition crc_byte (table : list Z) (code byte : Z) : Z :=
  Z.lxor (nth (Z.to_nat (Z.lxor (u8 code) byte)) table 0) (Z.shiftr code 8).
Definition crc_block (table : list Z) (start : Z) (buf : list Z) : Z := foldl (crc_byte table) start buf.

Definition crc8_atm := crc_block crc8_atm_table.
Definition crc16_ansi := crc_block crc16_ansi_table.
Definition crc16_ccitt := crc_block crc16_ccitt_table.
Definition crc32_ieee := crc_block crc32_ieee_table.
Definition crc32_ieee_le := crc_block crc32_ieee_le_table.
Definition crc64 := crc_block crc64_tab.

(** The bytes from the end of the block to its start. *)
Definition crc32_ieee_le_rev (e : Z) (buf : list Z) : Z :=
  foldl (fun code byte =>
    let i := nth (Z.to_nat (Z.shiftr code 24)) crc32_ieee_le_rev_table 0 in
    Z.lor (u32 (Z.shiftl (Z.lxor (nth (Z.to_nat i) crc32_ieee_le_table 0) code) 8)) (Z.lxor i byte)) e (rev buf).

(* ------------------------------------------------------------------ *)
(** * The definition of a check *)

(** One bit: the remainder is shifted out at the low end, or at the high end of [w] bits. *)
Definition reflected_bit (poly x : Z) : Z := Z.lxor (Z.shiftr x 1) (if Z.odd x then poly else 0).
Definition forward_bit (w poly x : Z) : Z :=
  Z.lxor (Z.land (Z.shiftl x 1) (Z.ones w)) (if Z.testbit x (w - 1) then poly else 0).

Definition reflected_byte (poly code byte : Z) : Z := Nat.iter 8 (reflected_bit poly) (Z.lxor code byte).
Definition forward_byte (w poly code byte : Z) : Z := Nat.iter 8 (forward_bit w poly) (Z.lxor code (Z.shiftl byte (w - 8))).

Definition crc_reflected (poly start : Z) (buf : list Z) : Z := foldl (reflected_byte poly) start buf.
Definition crc_forward (w poly start : Z) (buf : list Z) : Z := foldl (forward_byte w poly) start buf.

(** The forward checks keep their remainder with its bytes swapped. *)
Definition byte_of (k x : Z) : Z := Z.land (Z.shiftr x (8 * k)) 255.
Definition swap16 (x : Z) : Z := Z.lxor (Z.shiftl (byte_of 0 x) 8) (byte_of 1 x).
Definition swap32 (x : Z) : Z :=
  Z.lxor (Z.lxor (Z.shiftl (byte_of 0 x) 24) (Z.shiftl (byte_of 1 x) 16)) (Z.lxor (Z.shiftl (byte_of 2 x) 8) (byte_of 3 x)).

Definition byte (b : Z) : Prop := 0 <= b < 256.

(* ------------------------------------------------------------------ *)
(** * Bits *)

Lemma bit_high x n i : 0 <= x < 2 ^ n -> n <= i -> Z.testbit x i = false.
Proof.
  intros Hx Hi; destruct (Z.eq_dec x 0) as [->|]; [apply Z.bits_0|].
  apply Z.bits_above_log2; [lia|]; assert (Z.log2 x < n) by (apply Z.log2_lt_pow2; lia); lia.
Qed.

Lemma lt_pow2 x n : 0 <= n -> 0 <= x -> (forall i, n <= i -> Z.testbit x i = false) -> x < 2 ^ n.
Proof.
  intros Hn Hx H; destruct (Z.eq_dec x 0) as [->|]; [lia|]; destruct (Z.lt_ge_cases x (2 ^ n)) as [|Hge]; [done|].
  assert (n <= Z.log2 x) by (apply Z.log2_le_pow2; lia).
  specialize (H (Z.log2 x) ltac:(done)); rewrite Z.bit_log2 in H by lia; congruence.
Qed.

Lemma lxor_range x y n : 0 <= n -> 0 <= x < 2 ^ n -> 0 <= y < 2 ^ n -> 0 <= Z.lxor x y < 2 ^ n.
Proof.
  intros Hn Hx Hy; assert (0 <= Z.lxor x y) by (apply Z.lxor_nonneg; lia); split; [done|]; apply lt_pow2; [done|done|].
  intros i Hi; by rewrite Z.lxor_spec, (bit_high x n), (bit_high y n).
Qed.

Lemma shiftr_range x n k : 0 <= k <= n -> 0 <= x < 2 ^ n -> 0 <= Z.shiftr x k < 2 ^ (n - k).
Proof.
  intros Hk Hx; rewrite Z.shiftr_div_pow2 by lia; split; [apply Z.div_pos; lia|].
  apply Z.div_lt_upper_bound; [lia|]; rewrite <- Z.pow_add_r by lia; replace (k + (n - k)) with n by lia; lia.
Qed.

Lemma u8_bits x i : 0 <= i -> Z.testbit (u8 x) i = Z.testbit x i && (i <? 8).
Proof.
  intros Hi; unfold u8; change 256 with (2 ^ 8); destruct (Z.ltb_spec i 8).
  - by rewrite Z.mod_pow2_bits_low, andb_true_r by lia.
  - by rewrite Z.mod_pow2_bits_high, andb_false_r by lia.
Qed.

Lemma lxor_xorb_if (a b p : Z) (x y : bool) :
  Z.lxor (Z.lxor a b) (if xorb x y then p else 0) = Z.lxor (Z.lxor a (if x then p else 0)) (Z.lxor b (if y then p else 0)).
Proof.
  apply Z.bits_inj'; intros i Hi; rewrite !Z.lxor_spec; destruct x, y; cbn; rewrite ?Z.bits_0;
    destruct (Z.testbit a i), (Z.testbit b i), (Z.testbit p i); done.
Qed.

Lemma iter_S (n : nat) (f : Z -> Z) x : Nat.iter (S n) f x = f (Nat.iter n f x).
Proof. reflexivity. Qed.

Lemma iter_lxor (f : Z -> Z) n x y :
  (forall a b, f (Z.lxor a b) = Z.lxor (f a) (f b)) -> Nat.iter n f (Z.lxor x y) = Z.lxor (Nat.iter n f x) (Nat.iter n f y).
Proof. intros Hf; induction n as [|n IH]; [done|]; by rewrite !iter_S, IH, Hf. Qed.

(* ------------------------------------------------------------------ *)
(** * A table does eight bits at once *)

(** ** At the low end *)

Lemma reflected_bit_lxor poly x y : reflected_bit poly (Z.lxor x y) = Z.lxor (reflected_bit poly x) (reflected_bit poly y).
Proof. unfold reflected_bit; rewrite Z.shiftr_lxor, <- !Z.bit0_odd, Z.lxor_spec; apply lxor_xorb_if. Qed.

Lemma reflected_shift poly x (n : nat) : Nat.iter n (reflected_bit poly) (Z.shiftl x (Z.of_nat n)) = x.
Proof.
  revert x; induction n as [|n IH]; intros x; [cbn; apply Z.shiftl_0_r|].
  replace (Nat.iter (S n) (reflected_bit poly) (Z.shiftl x (Z.of_nat (S n))))
    with (Nat.iter n (reflected_bit poly) (reflected_bit poly (Z.shiftl x (Z.of_nat (S n))))) by (by rewrite Nat.iter_swap).
  replace (reflected_bit poly (Z.shiftl x (Z.of_nat (S n)))) with (Z.shiftl x (Z.of_nat n)); [apply IH|].
  unfold reflected_bit; rewrite <- Z.bit0_odd, Z.shiftl_spec_low, Z.lxor_0_r by lia.
  rewrite Z.shiftr_shiftl_l by lia; f_equal; lia.
Qed.

Lemma split_low x b : byte b -> Z.lxor x b = Z.lxor (Z.lxor (u8 x) b) (Z.shiftl (Z.shiftr x 8) 8).
Proof.
  intros Hb; apply Z.bits_inj'; intros i Hi; rewrite !Z.lxor_spec, u8_bits, Z.shiftl_spec by lia; destruct (Z.ltb_spec i 8).
  - rewrite (Z.testbit_neg_r _ (i - 8)) by lia; rewrite andb_true_r, xorb_false_r; done.
  - rewrite Z.shiftr_spec, (bit_high b 8) by (unfold byte in *; lia); rewrite andb_false_r, !xorb_false_r; cbn.
    by replace (i - 8 + 8) with i by lia.
Qed.

Lemma reflected_byte_split poly code b : byte b ->
  reflected_byte poly code b = Z.lxor (Nat.iter 8 (reflected_bit poly) (Z.lxor (u8 code) b)) (Z.shiftr code 8).
Proof.
  intros Hb; unfold reflected_byte; rewrite (split_low code b Hb), iter_lxor by apply reflected_bit_lxor.
  f_equal; apply (reflected_shift poly _ 8).
Qed.

Lemma index_byte code b : byte b -> byte (Z.lxor (u8 code) b).
Proof. intros Hb; apply (lxor_range _ _ 8); [lia|apply u8_range|done]. Qed.

(** A table of 256 entries, checked entry by entry. *)
Definition table_is (table : list Z) (f : Z -> Z) : bool := forallb (fun i => nth (Z.to_nat i) table 0 =? f i) (Z.of_nat <$> seq 0 256).

Lemma table_is_spec table f i : table_is table f = true -> byte i -> nth (Z.to_nat i) table 0 = f i.
Proof.
  unfold table_is; rewrite forallb_forall; intros H Hi; apply Z.eqb_eq, H; apply list_elem_of_In, list_elem_of_fmap.
  exists (Z.to_nat i); split; [unfold byte in *; lia|]; apply elem_of_seq; unfold byte in *; lia.
Qed.

Lemma crc_is_reflected table poly start buf :
  table_is table (Nat.iter 8 (reflected_bit poly)) = true -> Forall byte buf ->
  crc_block table start buf = crc_reflected poly start buf.
Proof.
  intros Ht; revert start; induction buf as [|b buf IH]; intros start Hb; [done|]; inversion Hb; subst.
  change (crc_block table (crc_byte table start b) buf = crc_reflected poly (reflected_byte poly start b) buf).
  rewrite <- IH by done; f_equal; rewrite reflected_byte_split by done; unfold crc_byte.
  by rewrite (table_is_spec _ _ _ Ht) by (by apply index_byte).
Qed.

(** ** At the high end *)

Lemma land_lxor a b c : Z.land (Z.lxor a b) c = Z.lxor (Z.land a c) (Z.land b c).
Proof.
  apply Z.bits_inj'; intros i Hi; rewrite !Z.lxor_spec, !Z.land_spec, Z.lxor_spec.
  destruct (Z.testbit a i), (Z.testbit b i), (Z.testbit c i); done.
Qed.

Section Forward.
Context (w poly : Z) (Hw : 8 <= w).

Lemma forward_bit_lxor x y : forward_bit w poly (Z.lxor x y) = Z.lxor (forward_bit w poly x) (forward_bit w poly y).
Proof. unfold forward_bit; rewrite Z.shiftl_lxor, land_lxor, Z.lxor_spec; apply lxor_xorb_if. Qed.

Lemma forward_shift (n : nat) x : Z.of_nat n <= w -> 0 <= x < 2 ^ (w - Z.of_nat n) ->
  Nat.iter n (forward_bit w poly) x = Z.shiftl x (Z.of_nat n).
Proof.
  induction n as [|n IH]; intros Hn Hx; [by rewrite Z.shiftl_0_r|]; rewrite iter_S, IH; [|lia|].
  - unfold forward_bit; rewrite Z.shiftl_spec, (bit_high x (w - Z.of_nat (S n))), Z.lxor_0_r by lia.
    rewrite Z.shiftl_shiftl, Z.land_ones by lia; replace (Z.of_nat n + 1) with (Z.of_nat (S n)) by lia.
    rewrite Z.mod_small; [done|]; rewrite Z.shiftl_mul_pow2 by lia; split; [nia|].
    replace (2 ^ w) with (2 ^ (w - Z.of_nat (S n)) * 2 ^ Z.of_nat (S n)) by (rewrite <- Z.pow_add_r by lia; f_equal; lia).
    apply Z.mul_lt_mono_pos_r; lia.
  - split; [lia|]; assert (2 ^ (w - Z.of_nat (S n)) <= 2 ^ (w - Z.of_nat n)) by (apply Z.pow_le_mono_r; lia); lia.
Qed.

Lemma split_high c b : 0 <= c -> Z.lxor c (Z.shiftl b (w - 8)) =
  Z.lxor (Z.shiftl (Z.lxor (Z.shiftr c (w - 8)) b) (w - 8)) (Z.land c (Z.ones (w - 8))).
Proof.
  intros Hc; apply Z.bits_inj'; intros i Hi; rewrite !Z.lxor_spec, Z.land_spec, !Z.shiftl_spec, Z.lxor_spec by lia.
  destruct (Z.lt_ge_cases i (w - 8)).
  - rewrite Z.ones_spec_low, andb_true_r by lia; rewrite !(Z.testbit_neg_r _ (i - (w - 8))) by lia; by rewrite xorb_false_r.
  - rewrite Z.ones_spec_high, andb_false_r, xorb_false_r, Z.shiftr_spec by lia; by replace (i - (w - 8) + (w - 8)) with i by lia.
Qed.

Lemma forward_byte_split c b : 0 <= c < 2 ^ w ->
  forward_byte w poly c b =
  Z.lxor (Nat.iter 8 (forward_bit w poly) (Z.shiftl (Z.lxor (Z.shiftr c (w - 8)) b) (w - 8))) (Z.shiftl (Z.land c (Z.ones (w - 8))) 8).
Proof.
  intros Hc; unfold forward_byte; rewrite split_high, iter_lxor by (apply forward_bit_lxor || lia); f_equal.
  apply (forward_shift 8); [lia|]; rewrite Z.land_ones by lia; apply Z.mod_pos_bound; lia.
Qed.

(** The remainder with its bytes swapped. *)
Context (swap : Z -> Z) (table : list Z).
Context (swap_lxor : forall x y, swap (Z.lxor x y) = Z.lxor (swap x) (swap y)).
Context (swap_range : forall x, 0 <= swap x < 2 ^ w).
Context (swap_low : forall x, 0 <= x < 2 ^ w -> u8 x = Z.shiftr (swap x) (w - 8)).
Context (swap_rest : forall x, 0 <= x < 2 ^ w -> swap (Z.shiftr x 8) = Z.shiftl (Z.land (swap x) (Z.ones (w - 8))) 8).
Context (table_range : forallb (fun v => (0 <=? v) && (v <? 2 ^ w)) table = true).
Context (table_ok : table_is (swap <$> table) (fun i => Nat.iter 8 (forward_bit w poly) (Z.shiftl i (w - 8))) = true).
Context (table_length : length table = 256%nat).

Lemma crc_byte_range code b : 0 <= code < 2 ^ w -> 0 <= crc_byte table code b < 2 ^ w.
Proof.
  intros Hc; unfold crc_byte; apply lxor_range; [lia| |].
  - destruct (nth_in_or_default (Z.to_nat (Z.lxor (u8 code) b)) table 0) as [Hin| ->]; [|lia].
    rewrite forallb_forall in table_range; specialize (table_range _ Hin); lia.
  - destruct (shiftr_range code w 8 ltac:(lia) Hc) as [H1 H2]; split; [lia|].
    assert (2 ^ (w - 8) <= 2 ^ w) by (apply Z.pow_le_mono_r; lia); lia.
Qed.

Lemma crc_block_range buf : forall start, 0 <= start < 2 ^ w -> 0 <= crc_block table start buf < 2 ^ w.
Proof. induction buf as [|b buf IH]; intros start Hs; [done|]; by apply IH, crc_byte_range. Qed.

Lemma crc_is_forward buf : forall start, 0 <= start < 2 ^ w -> Forall byte buf ->
  swap (crc_block table start buf) = crc_forward w poly (swap start) buf.
Proof.
  induction buf as [|b buf IH]; intros start Hs Hb; [done|]; inversion Hb; subst.
  change (swap (crc_block table (crc_byte table start b) buf) = crc_forward w poly (forward_byte w poly (swap start) b) buf).
  rewrite IH by (done || by apply crc_byte_range); f_equal; rewrite forward_byte_split by done; unfold crc_byte.
  rewrite swap_lxor, swap_rest, <- swap_low by done; f_equal.
  pose proof (index_byte start b ltac:(done)) as Hi; rewrite <- (table_is_spec _ _ _ table_ok Hi).
  rewrite !nth_lookup, list_lookup_fmap; unfold byte in Hi.
  destruct (lookup_lt_is_Some_2 table (Z.to_nat (Z.lxor (u8 start) b))) as [v ->]; [lia|done].
Qed.
End Forward.

(** ** Swapping bytes *)

Lemma byte_of_bits k x i : 0 <= k -> 0 <= i -> Z.testbit (byte_of k x) i = (i <? 8) && Z.testbit x (i + 8 * k).
Proof.
  intros Hk Hi; unfold byte_of; rewrite Z.land_spec, Z.shiftr_spec by lia; change 255 with (Z.ones 8).
  destruct (Z.ltb_spec i 8); [rewrite Z.ones_spec_low by lia|rewrite Z.ones_spec_high by lia]; by rewrite ?andb_true_r, ?andb_false_r.
Qed.

Lemma byte_shift_bits k n x i : 0 <= k -> 0 <= n -> 0 <= i ->
  Z.testbit (Z.shiftl (byte_of k x) n) i = (n <=? i) && (i <? n + 8) && Z.testbit x (i - n + 8 * k).
Proof.
  intros Hk Hn Hi; rewrite Z.shiftl_spec by lia; destruct (Z.leb_spec n i); [|by rewrite Z.testbit_neg_r by lia].
  rewrite byte_of_bits by lia; cbn [andb]; f_equal; destruct (Z.ltb_spec (i - n) 8), (Z.ltb_spec i (n + 8)); lia || done.
Qed.

(** Decide the comparisons that the hypotheses settle. *)
Ltac bounds :=
  repeat match goal with
  | |- context [?a <? ?b] => first [rewrite (proj2 (Z.ltb_lt a b)) by lia | rewrite (proj2 (Z.ltb_ge a b)) by lia]
  | |- context [?a <=? ?b] => first [rewrite (proj2 (Z.leb_le a b)) by lia | rewrite (proj2 (Z.leb_gt a b)) by lia]
  end; cbn [andb xorb]; rewrite ?andb_false_r, ?xorb_false_r, ?xorb_false_l.

Lemma swap32_bits x i : 0 <= i -> Z.testbit (swap32 x) i =
  if i <? 8 then Z.testbit x (i + 24) else if i <? 16 then Z.testbit x (i + 8)
  else if i <? 24 then Z.testbit x (i - 8) else if i <? 32 then Z.testbit x (i - 24) else false.
Proof.
  intros Hi; unfold swap32; rewrite !Z.lxor_spec, !byte_shift_bits, byte_of_bits by lia.
  destruct (Z.lt_ge_cases i 8), (Z.lt_ge_cases i 16), (Z.lt_ge_cases i 24), (Z.lt_ge_cases i 32); try lia; bounds; try done; f_equal; lia.
Qed.

Lemma swap16_bits x i : 0 <= i -> Z.testbit (swap16 x) i =
  if i <? 8 then Z.testbit x (i + 8) else if i <? 16 then Z.testbit x (i - 8) else false.
Proof.
  intros Hi; unfold swap16; rewrite !Z.lxor_spec, !byte_shift_bits, byte_of_bits by lia.
  destruct (Z.lt_ge_cases i 8), (Z.lt_ge_cases i 16); try lia; bounds; try done; f_equal; lia.
Qed.

Lemma swap32_facts :
  (forall x y, swap32 (Z.lxor x y) = Z.lxor (swap32 x) (swap32 y)) /\ (forall x, 0 <= swap32 x < 2 ^ 32) /\
  (forall x, 0 <= x < 2 ^ 32 -> u8 x = Z.shiftr (swap32 x) (32 - 8)) /\
  (forall x, 0 <= x < 2 ^ 32 -> swap32 (Z.shiftr x 8) = Z.shiftl (Z.land (swap32 x) (Z.ones (32 - 8))) 8).
Proof.
  split_and!.
  - intros x y; apply Z.bits_inj'; intros i Hi; rewrite Z.lxor_spec, !swap32_bits by lia; repeat case_match; by rewrite ?Z.lxor_spec.
  - intros x; assert (0 <= swap32 x) as Hp.
    { unfold swap32, byte_of; rewrite !Z.lxor_nonneg; rewrite !Z.shiftl_nonneg, !Z.land_nonneg; lia. }
    split; [done|]; apply lt_pow2; [lia|done|]; intros i Hi; rewrite swap32_bits by lia; by bounds.
  - intros x Hx; apply Z.bits_inj'; intros i Hi; rewrite u8_bits, Z.shiftr_spec, swap32_bits by lia.
    destruct (Z.lt_ge_cases i 8); bounds; [rewrite andb_true_r; f_equal; lia|done].
  - intros x Hx; apply Z.bits_inj'; intros i Hi; rewrite swap32_bits, Z.shiftl_spec by lia.
    destruct (Z.lt_ge_cases i 8).
    { bounds; rewrite (Z.testbit_neg_r _ (i - 8)), Z.shiftr_spec by lia; by apply (bit_high x 32); lia. }
    rewrite Z.land_spec, swap32_bits by lia; destruct (Z.lt_ge_cases i 16), (Z.lt_ge_cases i 24), (Z.lt_ge_cases i 32); try lia;
      rewrite ?(Z.ones_spec_low 24), ?(Z.ones_spec_high 24) by lia; bounds; rewrite ?andb_true_r, ?Z.shiftr_spec by lia; try done; f_equal; lia.
Qed.

Lemma swap16_facts :
  (forall x y, swap16 (Z.lxor x y) = Z.lxor (swap16 x) (swap16 y)) /\ (forall x, 0 <= swap16 x < 2 ^ 16) /\
  (forall x, 0 <= x < 2 ^ 16 -> u8 x = Z.shiftr (swap16 x) (16 - 8)) /\
  (forall x, 0 <= x < 2 ^ 16 -> swap16 (Z.shiftr x 8) = Z.shiftl (Z.land (swap16 x) (Z.ones (16 - 8))) 8).
Proof.
  split_and!.
  - intros x y; apply Z.bits_inj'; intros i Hi; rewrite Z.lxor_spec, !swap16_bits by lia; repeat case_match; by rewrite ?Z.lxor_spec.
  - intros x; assert (0 <= swap16 x) as Hp.
    { unfold swap16, byte_of; rewrite !Z.lxor_nonneg; rewrite !Z.shiftl_nonneg, !Z.land_nonneg; lia. }
    split; [done|]; apply lt_pow2; [lia|done|]; intros i Hi; rewrite swap16_bits by lia; by bounds.
  - intros x Hx; apply Z.bits_inj'; intros i Hi; rewrite u8_bits, Z.shiftr_spec, swap16_bits by lia.
    destruct (Z.lt_ge_cases i 8); bounds; [rewrite andb_true_r; f_equal; lia|done].
  - intros x Hx; apply Z.bits_inj'; intros i Hi; rewrite swap16_bits, Z.shiftl_spec by lia.
    destruct (Z.lt_ge_cases i 8).
    { bounds; rewrite (Z.testbit_neg_r _ (i - 8)), Z.shiftr_spec by lia; by apply (bit_high x 16); lia. }
    rewrite Z.land_spec, swap16_bits by lia; destruct (Z.lt_ge_cases i 16); try lia;
      rewrite ?(Z.ones_spec_low 8), ?(Z.ones_spec_high 8) by lia; bounds; rewrite ?andb_true_r, ?Z.shiftr_spec by lia; try done; f_equal; lia.
Qed.

Lemma u8_facts :
  (forall x y, u8 (Z.lxor x y) = Z.lxor (u8 x) (u8 y)) /\ (forall x, 0 <= u8 x < 2 ^ 8) /\
  (forall x, 0 <= x < 2 ^ 8 -> u8 x = Z.shiftr (u8 x) (8 - 8)) /\
  (forall x, 0 <= x < 2 ^ 8 -> u8 (Z.shiftr x 8) = Z.shiftl (Z.land (u8 x) (Z.ones (8 - 8))) 8).
Proof.
  split_and!.
  - intros x y; apply Z.bits_inj'; intros i Hi; rewrite Z.lxor_spec, !u8_bits, Z.lxor_spec by lia; destruct (i <? 8); by rewrite ?andb_true_r, ?andb_false_r.
  - intros x; apply u8_range.
  - intros x Hx; by rewrite Z.shiftr_0_r.
  - intros x Hx; rewrite Z.land_0_r, Z.shiftl_0_l, Z.shiftr_div_pow2, Z.div_small by lia; reflexivity.
Qed.

(* ------------------------------------------------------------------ *)
(** * The checks *)

(** Each of the six functions computes the check of its polynomial over any block and
    from any start: the two little-endian ones directly, the big-endian ones with the
    bytes of the remainder swapped. *)
Theorem crc_tables_exact (start : Z) (buf : list Z) : Forall byte buf ->
  (0 <= start < 2 ^ 8 -> crc8_atm start buf = crc_forward 8 0x07 start buf) /\
  (0 <= start < 2 ^ 16 -> swap16 (crc16_ansi start buf) = crc_forward 16 0x8005 (swap16 start) buf) /\
  (0 <= start < 2 ^ 16 -> swap16 (crc16_ccitt start buf) = crc_forward 16 0x1021 (swap16 start) buf) /\
  (0 <= start < 2 ^ 32 -> swap32 (crc32_ieee start buf) = crc_forward 32 0x04c11db7 (swap32 start) buf) /\
  crc32_ieee_le start buf = crc_reflected 0xedb88320 start buf /\
  crc64 start buf = crc_reflected 0x95ac9329ac4bc9b5 start buf.
Proof.
  intros Hb; destruct swap16_facts as (A1 & A2 & A3 & A4), swap32_facts as (B1 & B2 & B3 & B4).
  split_and!.
  - intros Hs; destruct u8_facts as (C1 & C2 & C3 & C4).
    assert (0 <= crc8_atm start buf < 2 ^ 8) as Hr by (apply (crc_block_range 8); try done; vm_compute; reflexivity).
    rewrite <- (u8_id (crc8_atm start buf)) by done; rewrite <- (u8_id start) at 2 by done.
    apply (crc_is_forward 8 0x07 ltac:(lia) u8); try done; vm_compute; reflexivity.
  - intros Hs; apply (crc_is_forward 16 0x8005 ltac:(lia) swap16); try done; vm_compute; reflexivity.
  - intros Hs; apply (crc_is_forward 16 0x1021 ltac:(lia) swap16); try done; vm_compute; reflexivity.
  - intros Hs; apply (crc_is_forward 32 0x04c11db7 ltac:(lia) swap32); try done; vm_compute; reflexivity.
  - apply crc_is_reflected; [vm_compute; reflexivity|done].
  - apply crc_is_reflected; [vm_compute; reflexivity|done].
Qed.

Lemma crc_block_app table start l1 l2 : crc_block table start (l1 ++ l2) = crc_block table (crc_block table start l1) l2.
Proof. apply foldl_app. Qed.

(** ** Backwards *)

Definition rev_byte (code byte : Z) : Z :=
  let i := nth (Z.to_nat (Z.shiftr code 24)) crc32_ieee_le_rev_table 0 in
  Z.lor (u32 (Z.shiftl (Z.lxor (nth (Z.to_nat i) crc32_ieee_le_table 0) code) 8)) (Z.lxor i byte).

(** The entry of the table that made the code is known from its high byte. *)
Definition index_of (code : Z) : Z := nth (Z.to_nat (Z.shiftr code 24)) crc32_ieee_le_rev_table 0.

Notation T := crc32_ieee_le_table.

Lemma entry_range i : byte i -> 0 <= nth (Z.to_nat i) T 0 < 2 ^ 32.
Proof.
  intros Hi; assert (forallb (fun v => (0 <=? v) && (v <? 2 ^ 32)) T = true) as H by (vm_compute; reflexivity).
  destruct (nth_in_or_default (Z.to_nat i) T 0) as [Hin| ->]; [|lia]; rewrite forallb_forall in H; specialize (H _ Hin); lia.
Qed.

Lemma entry_index i : byte i -> nth (Z.to_nat (Z.shiftr (nth (Z.to_nat i) T 0) 24)) crc32_ieee_le_rev_table 0 = i.
Proof.
  intros Hi; assert (table_is ((fun v => nth (Z.to_nat (Z.shiftr v 24)) crc32_ieee_le_rev_table 0) <$> T) (fun i => i) = true) as H by (vm_compute; reflexivity).
  pose proof (table_is_spec _ _ _ H Hi) as K; unfold byte in Hi.
  destruct (lookup_lt_is_Some_2 T (Z.to_nat i)) as [v Hv]; [change (length T) with 256%nat; lia|].
  rewrite (nth_lookup (_ <$> T)), list_lookup_fmap, Hv in K; rewrite (nth_lookup T), Hv; exact K.
Qed.

Lemma crc32_byte_range code b : 0 <= code < 2 ^ 32 -> byte b -> 0 <= crc_byte T code b < 2 ^ 32.
Proof.
  intros Hc Hb; apply lxor_range; [lia|by apply entry_range, index_byte|].
  destruct (shiftr_range code 32 8 ltac:(lia) Hc); lia.
Qed.

Lemma index_of_crc code b : 0 <= code < 2 ^ 32 -> byte b -> index_of (crc_byte T code b) = Z.lxor (u8 code) b.
Proof.
  intros Hc Hb; unfold index_of, crc_byte; rewrite Z.shiftr_lxor, Z.shiftr_shiftr by lia.
  replace (Z.shiftr code (8 + 24)) with 0; [rewrite Z.lxor_0_r; by apply entry_index, index_byte|].
  symmetry; rewrite Z.shiftr_div_pow2 by lia; apply Z.div_small; lia.
Qed.

Lemma crc_shift code b : 0 <= code < 2 ^ 32 -> byte b ->
  Z.shiftr code 8 = Z.lxor (nth (Z.to_nat (index_of (crc_byte T code b))) T 0) (crc_byte T code b).
Proof.
  intros Hc Hb; rewrite index_of_crc by done; unfold crc_byte; by rewrite <- Z.lxor_assoc, Z.lxor_nilpotent, Z.lxor_0_l.
Qed.

Lemma rev_byte_crc code b : 0 <= code < 2 ^ 32 -> byte b -> rev_byte (crc_byte T code b) b = code.
Proof.
  intros Hc Hb; unfold rev_byte; fold (index_of (crc_byte T code b)); rewrite <- crc_shift, index_of_crc by done.
  rewrite Z.lxor_assoc, Z.lxor_nilpotent, Z.lxor_0_r.
  assert (u32 (Z.shiftl (Z.shiftr code 8) 8) = Z.shiftl (Z.shiftr code 8) 8) as ->.
  { apply u32_id; destruct (shiftr_range code 32 8 ltac:(lia) Hc); rewrite Z.shiftl_mul_pow2 by lia; lia. }
  apply Z.bits_inj'; intros i Hi; rewrite Z.lor_spec, Z.shiftl_spec, u8_bits by lia; destruct (Z.lt_ge_cases i 8).
  - rewrite Z.testbit_neg_r by lia; bounds; by rewrite andb_true_r.
  - rewrite Z.shiftr_spec by lia; bounds; rewrite orb_false_r; f_equal; lia.
Qed.

Lemma rev_block code buf : crc32_ieee_le_rev code buf = foldl rev_byte code (rev buf).
Proof. reflexivity. Qed.

(** [crc32_ieee_le_rev] undoes [crc32_ieee_le]: from the check of a block and the block
    it finds what the check was before. *)
Theorem crc32_rev_exact (start : Z) (buf : list Z) : 0 <= start < 2 ^ 32 -> Forall byte buf ->
  crc32_ieee_le_rev (crc32_ieee_le start buf) buf = start.
Proof.
  rewrite rev_block; revert start; induction buf as [|b buf IH]; intros start Hs Hb; [done|]; inversion Hb; subst.
  change (crc32_ieee_le start (b :: buf)) with (crc32_ieee_le (crc_byte T start b) buf).
  cbn [rev]; rewrite foldl_app, IH by (done || by apply crc32_byte_range); by apply rev_byte_crc.
Qed.

(** ** What the check notices *)

Lemma crc32_range start buf : 0 <= start < 2 ^ 32 -> Forall byte buf -> 0 <= crc32_ieee_le start buf < 2 ^ 32.
Proof.
  revert start; induction buf as [|b buf IH]; intros start Hs Hb; [done|]; inversion Hb; subst; apply IH; [by apply crc32_byte_range|done].
Qed.

Lemma step_back k c d b b' : 0 <= k <= 3 -> 0 <= c < 2 ^ 32 -> 0 <= d < 2 ^ 32 -> byte b -> byte b' ->
  Z.shiftr (crc_byte T c b) (8 * k) = Z.shiftr (crc_byte T d b') (8 * k) ->
  Z.lxor (u8 c) b = Z.lxor (u8 d) b' /\ Z.shiftr c (8 * (k + 1)) = Z.shiftr d (8 * (k + 1)).
Proof.
  intros Hk Hc Hd Hb Hb' E; assert (index_of (crc_byte T c b) = index_of (crc_byte T d b')) as Ei.
  { assert (forall x, Z.shiftr x 24 = Z.shiftr (Z.shiftr x (8 * k)) (24 - 8 * k)) as H24
      by (intros x; rewrite Z.shiftr_shiftr by lia; f_equal; lia).
    unfold index_of; by rewrite H24, E, <- H24. }
  split; [by rewrite <- !index_of_crc|]; replace (8 * (k + 1)) with (8 + 8 * k) by lia; rewrite <- !Z.shiftr_shiftr by lia.
  by rewrite (crc_shift c b), (crc_shift d b'), !Z.shiftr_lxor, Ei, E by done.
Qed.

Lemma burst_back x : forall y c d k, length x = length y -> 0 <= k -> k + zlen x <= 4 ->
  0 <= c < 2 ^ 32 -> 0 <= d < 2 ^ 32 -> Forall byte x -> Forall byte y ->
  Z.shiftr (crc32_ieee_le c x) (8 * k) = Z.shiftr (crc32_ieee_le d y) (8 * k) ->
  Z.shiftr c (8 * (k + zlen x)) = Z.shiftr d (8 * (k + zlen x)) /\ (c = d -> x = y).
Proof.
  induction x as [|b x IH]; intros [|b' y] c d k Hl Hk Hn Hc Hd Hx Hy E; try done.
  { cbn [length Z.of_nat]; by rewrite Z.add_0_r. }
  inversion Hx; inversion Hy; subst; injection Hl as Hl; assert (zlen (b :: x) = zlen x + 1) as Hlen by (cbn [length]; lia).
  rewrite Hlen in *.
  change (crc32_ieee_le c (b :: x)) with (crc32_ieee_le (crc_byte T c b) x) in E.
  change (crc32_ieee_le d (b' :: y)) with (crc32_ieee_le (crc_byte T d b') y) in E.
  apply IH in E as [E1 E2]; try done; try lia; try (by apply crc32_byte_range).
  apply step_back in E1 as [E3 E4]; try done; try lia; split; [by rewrite Z.add_assoc|].
  intros ->; assert (b = b') as ->; [|by rewrite E2].
  apply (f_equal (Z.lxor (u8 d))) in E3; by rewrite <- !Z.lxor_assoc, Z.lxor_nilpotent, !Z.lxor_0_l in E3.
Qed.

Lemma crc32_injective c d buf : 0 <= c < 2 ^ 32 -> 0 <= d < 2 ^ 32 -> Forall byte buf ->
  crc32_ieee_le c buf = crc32_ieee_le d buf -> c = d.
Proof.
  intros Hc Hd Hb; revert c d Hc Hd; induction buf as [|b buf IH]; intros c d Hc Hd E; [done|]; inversion Hb; subst.
  rewrite <- (rev_byte_crc c b), <- (rev_byte_crc d b) by done; f_equal; apply IH; try done; by apply crc32_byte_range.
Qed.

(** [crc32_ieee_le] notices every change that is confined to four bytes in a row, in a
    block of any length and at any place. *)
Theorem crc32_detects (start : Z) (pre x y post : list Z) :
  0 <= start < 2 ^ 32 -> Forall byte (pre ++ x ++ post) -> Forall byte y -> length x = length y -> (length x <= 4)%nat ->
  crc32_ieee_le start (pre ++ x ++ post) = crc32_ieee_le start (pre ++ y ++ post) -> x = y.
Proof.
  intros Hs Hb Hy Hl Hn E; apply Forall_app in Hb as [Hpre Hb]; apply Forall_app in Hb as [Hx Hpost].
  unfold crc32_ieee_le in E; rewrite !crc_block_app in E; set (c := crc_block T start pre) in *.
  assert (0 <= c < 2 ^ 32) as Hc by (by apply crc32_range).
  apply crc32_injective in E; [|by apply crc32_range|by apply crc32_range|done].
  apply (burst_back x y c c 0 Hl); [lia|lia|done|done|done|done|by apply (f_equal (fun v => Z.shiftr v (8 * 0))) in E|done].
Qed.

Definition check_input : list Z := [49; 50; 51; 52; 53; 54; 55; 56; 57].

Lemma crc_tables_exact_witness :
  crc32_ieee_le 0xffffffff check_input = Z.lxor 0xcbf43926 0xffffffff /\ crc64 0 check_input = crc_reflected 0x95ac9329ac4bc9b5 0 check_input.
Proof.
  split; [vm_compute; reflexivity|]; apply (crc_tables_exact 0 check_input).
  repeat constructor; unfold byte; lia.
Defined.

Lemma crc32_rev_exact_witness : crc32_ieee_le_rev (crc32_ieee_le 7 check_input) check_input = 7.
Proof. apply (crc32_rev_exact 7 check_input); [lia|repeat constructor; unfold byte; lia]. Defined.

Lemma crc32_detects_witness :
  crc32_ieee_le 0 ([1; 2] ++ [3; 4] ++ [5]) = crc32_ieee_le 0 ([1; 2] ++ [3; 4] ++ [5]) /\ [3; 4] = [3; 4].
Proof.
  split; [reflexivity|]; apply (crc32_detects 0 [1; 2] [3; 4] [3; 4] [5]); [lia| | |reflexivity|cbn; lia|reflexivity];
    repeat constructor; unfold byte; lia.
Defined.
End Crc.
