(* ===== verification/Sha1.v ===== *)
(** * SHA-1 (thirdparty/hash/sha1.{h,cpp}), and the key a WebSocket server accepts with

    [SecureHashAlgorithm] as the code has it: the block and the message schedule share
    one array, which [Process] expands in place, and a byte of the message is written
    into the word it belongs to, on a little-endian machine.  [SHA1] is the standard's
    definition (FIPS 180-4, section 6.1.2), on the padded message as a whole.

    [sha1_exact] says that any sequence of [Update]s followed by [Final] gives the
    standard's digest of all the bytes; [accept_key_exact] what that means for
    [WebsocketUtil::GenAcceptKey]. *)
From stdpp Require Import list.
From S2P Require Import Prelude StrUtils Base64 WebSocketCodec Crc.

(* ------------------------------------------------------------------ *)
(** * Messages in blocks *)

Module Blocks.
Fixpoint blocks_n (n : nat) (l : list Z) : list (list Z) :=
  match n with O => [] | S n => take 64 l :: blocks_n n (drop 64 l) end.
Definition blocks (l : list Z) : list (list Z) := blocks_n (length l / 64) l.

Lemma blocks_n_app k : forall l l', length l = (64 * k)%nat -> forall n, blocks_n (k + n) (l ++ l') = blocks_n k l ++ blocks_n n l'.
Proof.
  induction k as [|k IH]; intros l l' Hl n; [by destruct l|]; cbn [blocks_n Nat.add app].
  rewrite take_app_le, drop_app_le by lia; f_equal; apply IH; rewrite length_drop; lia.
Qed.

Lemma blocks_app l l' k : length l = (64 * k)%nat -> blocks (l ++ l') = blocks l ++ blocks l'.
Proof.
  intros Hl; unfold blocks; rewrite length_app, Hl, Nat.mul_comm, Nat.div_add_l, Nat.div_mul by lia; by apply blocks_n_app.
Qed.

Lemma blocks_single l : length l = 64%nat -> blocks l = [l].
Proof. intros Hl; unfold blocks; rewrite Hl; cbn; by rewrite take_ge by lia. Qed.

Lemma blocks_short l : (length l < 64)%nat -> blocks l = [].
Proof. intros Hl; unfold blocks; by rewrite Nat.div_small. Qed.

(** A message that comes in: the blocks that are full, and the rest. *)
Record split_at_block (msg full rest : list Z) : Prop := mkSplit {
  sb_msg : msg = full ++ rest; sb_full : exists k, length full = (64 * k)%nat; sb_rest : (length rest < 64)%nat }.
End Blocks.
Import Blocks.

(* ------------------------------------------------------------------ *)
(** * The code *)

Module Sha1.
Definition f (t B C D : Z) : Z :=
  if t <? 20 then Z.lor (Z.land B C) (Z.land (u32 (Z.lnot B)) D)
  else if t <? 40 then Z.lxor (Z.lxor B C) D
  else if t <? 60 then Z.lor (Z.lor (Z.land B C) (Z.land B D)) (Z.land C D)
  else Z.lxor (Z.lxor B C) D.

Definition S_ (n X : Z) : Z := Z.lor (u32 (Z.shiftl X n)) (Z.shiftr X (32 - n)).

Definition K (t : Z) : Z :=
  if t <? 20 then 0x5a827999 else if t <? 40 then 0x6ed9eba1 else if t <? 60 then 0x8f1bbcdc else 0xca62c1d6.

(** [W] is the union: [M[i]] is a byte of [W[i / 4]]. *)
Record SecureHashAlgorithm := mkSha { H : list Z; W : list Z; cursor : Z; l : Z }.

Definition get (t : Z) (w : list Z) : Z := nth (Z.to_nat t) w 0.

(** [bswap_32] *)
Definition bswap_32 : Z -> Z := Crc.swap32.

Definition set_byte (i b : Z) (w : list Z) : list Z :=
  let t := Z.to_nat (i / 4) in let k := 8 * (i mod 4) in
  <[t := Z.lor (Z.land (nth t w 0) (Z.lnot (Z.shiftl 255 k))) (Z.shiftl b k)]> w.

Definition Init : SecureHashAlgorithm :=
  mkSha [0x67452301; 0xefcdab89; 0x98badcfe; 0x10325476; 0xc3d2e1f0] (replicate 80 0) 0 0.

Definition round (w : list Z) (r : Z * Z * Z * Z * Z) (t : Z) : Z * Z * Z * Z * Z :=
  let '(A, B, C, D, E) := r in
  let TEMP := u32 (S_ 5 A + f t B C D + E + get t w + K t) in
  (TEMP, A, S_ 30 B, C, D).

Definition Process (s : SecureHashAlgorithm) : SecureHashAlgorithm :=
  let w := foldl (fun w t => <[Z.to_nat t := bswap_32 (get t w)]> w) (W s) (seqZ 0 16) in
  let w := foldl (fun w t => <[Z.to_nat t := S_ 1 (Z.lxor (Z.lxor (Z.lxor (get (t - 3) w) (get (t - 8) w)) (get (t - 14) w)) (get (t - 16) w))]> w)
             w (seqZ 16 64) in
  let h := H s in
  let '(A, B, C, D, E) := foldl (round w) (get 0 h, get 1 h, get 2 h, get 3 h, get 4 h) (seqZ 0 80) in
  mkSha [u32 (get 0 h + A); u32 (get 1 h + B); u32 (get 2 h + C); u32 (get 3 h + D); u32 (get 4 h + E)] w 0 (l s).

(** [M[cursor++] = b] *)
Definition put (b : Z) (s : SecureHashAlgorithm) : SecureHashAlgorithm := mkSha (H s) (set_byte (cursor s) b (W s)) (cursor s + 1) (l s).

Definition Update_byte (s : SecureHashAlgorithm) (b : Z) : SecureHashAlgorithm :=
  let s := put b s in
  let s := if 64 <=? cursor s then Process s else s in
  mkSha (H s) (W s) (cursor s) (u64 (l s + 8)).
Definition Update (data : list Z) (s : SecureHashAlgorithm) : SecureHashAlgorithm := foldl Update_byte s data.

(** [while (cursor < n) M[cursor++] = 0] *)
Definition fill (n : Z) (s : SecureHashAlgorithm) : SecureHashAlgorithm := Nat.iter (Z.to_nat (n - cursor s)) (put 0) s.

Definition Pad (s : SecureHashAlgorithm) : SecureHashAlgorithm :=
  let s := put 0x80 s in
  let s := if 64 - 8 <? cursor s then Process (fill 64 s) else s in
  let s := fill (64 - 8) s in
  foldl (fun s sh => put (Z.land (Z.shiftr (l s) sh) 0xff) s) s [56; 48; 40; 32; 24; 16; 8; 0].

Definition Final (s : SecureHashAlgorithm) : SecureHashAlgorithm :=
  let s := Process (Pad s) in mkSha (bswap_32 <$> H s) (W s) (cursor s) (l s).

(** The bytes of [H] in memory. *)
Definition Digest (s : SecureHashAlgorithm) : list Z :=
  mjoin ((fun h => [Crc.byte_of 0 h; Crc.byte_of 1 h; Crc.byte_of 2 h; Crc.byte_of 3 h]) <$> H s).

Definition SHA1HashString (data : list Z) : list Z := Digest (Final (Update data Init)).

(** [WebsocketUtil::GenAcceptKey] hashes the key and the magic string in two steps. *)
Definition accept_digest (key : list Z) : list Z := Digest (Final (Update WebSocketCodec.ws_magic (Update key Init))).
End Sha1.

(* ------------------------------------------------------------------ *)
(** * The standard *)

Module SHA1.
Definition ROTL (n x : Z) : Z := Z.lor ((x * 2 ^ n) mod 2 ^ 32) (x / 2 ^ (32 - n)).
Definition Ch (x y z : Z) : Z := Z.lxor (Z.land x y) (Z.land ((2 ^ 32 - 1) - x mod 2 ^ 32) z).
Definition Parity (x y z : Z) : Z := Z.lxor (Z.lxor x y) z.
Definition Maj (x y z : Z) : Z := Z.lxor (Z.lxor (Z.land x y) (Z.land x z)) (Z.land y z).

Definition ft (t x y z : Z) : Z :=
  if t <=? 19 then Ch x y z
  else if (40 <=? t) && (t <=? 59) then Maj x y z
  else Parity x y z.
Definition Kt (t : Z) : Z :=
  if t <=? 19 then 0x5a827999 else if t <=? 39 then 0x6ed9eba1 else if t <=? 59 then 0x8f1bbcdc else 0xca62c1d6.

(** The message as words, the first byte in the high bits, and the schedule. *)
Definition word (bs : list Z) : Z := foldl (fun v b => 256 * v + b) 0 bs.
Fixpoint words (n : nat) (bs : list Z) : list Z :=
  match n with O => [] | S n => word (take 4 bs) :: words n (drop 4 bs) end.

Fixpoint schedule (n : nat) (w : list Z) : list Z :=
  match n with
  | O => w
  | S n =>
      let w := schedule n w in let t := length w in
      w ++ [ROTL 1 (Z.lxor (Z.lxor (Z.lxor (nth (t - 3) w 0) (nth (t - 8) w 0)) (nth (t - 14) w 0)) (nth (t - 16) w 0))]
  end.

Definition step (r : Z * Z * Z * Z * Z) (tw : Z * Z) : Z * Z * Z * Z * Z :=
  let '(a, b, c, d, e) := r in let '(t, w) := tw in
  ((ROTL 5 a + ft t b c d + e + Kt t + w) mod 2 ^ 32, a, ROTL 30 b, c, d).

Definition compress (h : list Z) (block : list Z) : list Z :=
  match h with
  | [h0; h1; h2; h3; h4] =>
      let '(a, b, c, d, e) := foldl step (h0, h1, h2, h3, h4) (zip (seqZ 0 80) (schedule 64 (words 16 block))) in
      [(a + h0) mod 2 ^ 32; (b + h1) mod 2 ^ 32; (c + h2) mod 2 ^ 32; (d + h3) mod 2 ^ 32; (e + h4) mod 2 ^ 32]
  | _ => h
  end.

Definition big_endian (n x : Z) : list Z := (fun i => (x / 256 ^ i) mod 256) <$> rev (seqZ 0 n).

(** A one bit, zeros up to 56 bytes of a block, and the length in bits. *)
Definition padding (len : Z) : list Z := 0x80 :: replicate (Z.to_nat ((55 - len) mod 64)) 0 ++ big_endian 8 (8 * len).
Definition H0 : list Z := [0x67452301; 0xefcdab89; 0x98badcfe; 0x10325476; 0xc3d2e1f0].

Definition hash_from (h : list Z) (m : list Z) : list Z := foldl compress h (blocks m).
Definition SHA1 (m : list Z) : list Z := mjoin (big_endian 4 <$> hash_from H0 (m ++ padding (zlen m))).
End SHA1.

(* ------------------------------------------------------------------ *)
(** * The functions of the standard *)

Module Sha1Proofs.
Import Sha1.

Lemma S_ROTL n x : 0 <= n <= 32 -> S_ n x = SHA1.ROTL n x.
Proof. intros Hn; unfold S_, SHA1.ROTL, u32; rewrite Z.shiftl_mul_pow2, Z.shiftr_div_pow2 by lia; done. Qed.

Lemma u32_lnot x : u32 (Z.lnot x) = (2 ^ 32 - 1) - x mod 2 ^ 32.
Proof.
  unfold u32, Z.lnot; pose proof (Z.mod_pos_bound x (2 ^ 32) ltac:(lia)).
  symmetry; apply (Z.mod_unique_pos _ _ (- (x / 2 ^ 32) - 1)); [lia|]; pose proof (Z.div_mod x (2 ^ 32) ltac:(lia)); lia.
Qed.

Lemma f_ft t x y z : f t x y z = SHA1.ft t x y z.
Proof.
  unfold f, SHA1.ft, SHA1.Ch, SHA1.Maj, SHA1.Parity; rewrite <- u32_lnot.
  destruct (Z.ltb_spec t 20), (Z.leb_spec t 19); try lia.
  - apply Z.bits_inj'; intros i Hi; rewrite Z.lor_spec, Z.lxor_spec, !Z.land_spec; unfold u32.
    destruct (Z.lt_ge_cases i 32).
    + rewrite Z.mod_pow2_bits_low, Z.lnot_spec by lia; destruct (Z.testbit x i), (Z.testbit y i), (Z.testbit z i); done.
    + rewrite Z.mod_pow2_bits_high by lia; destruct (Z.testbit x i), (Z.testbit y i), (Z.testbit z i); done.
  - destruct (Z.ltb_spec t 40), (Z.ltb_spec t 60), (Z.leb_spec 40 t), (Z.leb_spec t 59); try lia; cbn [andb]; try done.
    apply Z.bits_inj'; intros i Hi; rewrite !Z.lor_spec, !Z.lxor_spec, !Z.land_spec.
    destruct (Z.testbit x i), (Z.testbit y i), (Z.testbit z i); done.
Qed.

Lemma K_Kt t : K t = SHA1.Kt t.
Proof.
  unfold K, SHA1.Kt; destruct (Z.ltb_spec t 20), (Z.ltb_spec t 40), (Z.ltb_spec t 60), (Z.leb_spec t 19), (Z.leb_spec t 39), (Z.leb_spec t 59); lia.
Qed.

(* ------------------------------------------------------------------ *)
(** * Words and bytes *)

Lemma byte_of_range k x : 0 <= Crc.byte_of k x < 256.
Proof. unfold Crc.byte_of; change 255 with (Z.ones 8); rewrite Z.land_ones by lia; apply Z.mod_pos_bound; lia. Qed.

Lemma lxor_add a b n : 0 <= n -> 0 <= b < 2 ^ n -> Z.lxor (Z.shiftl a n) b = a * 2 ^ n + b.
Proof.
  intros Hn Hb; rewrite <- Z.add_nocarry_lxor; [by rewrite Z.shiftl_mul_pow2|].
  apply Z.bits_inj'; intros i Hi; rewrite Z.land_spec, Z.bits_0; destruct (Z.lt_ge_cases i n).
  - by rewrite Z.shiftl_spec_low.
  - by rewrite (Crc.bit_high b n), andb_false_r.
Qed.

Definition bytes_of (w : list Z) : list Z :=
  mjoin ((fun x => [Crc.byte_of 0 x; Crc.byte_of 1 x; Crc.byte_of 2 x; Crc.byte_of 3 x]) <$> w).

Lemma swap32_word x : Crc.swap32 x = SHA1.word [Crc.byte_of 0 x; Crc.byte_of 1 x; Crc.byte_of 2 x; Crc.byte_of 3 x].
Proof.
  unfold Crc.swap32, SHA1.word; cbn [foldl].
  pose proof (byte_of_range 0 x); pose proof (byte_of_range 1 x); pose proof (byte_of_range 2 x); pose proof (byte_of_range 3 x).
  rewrite Z.lxor_assoc, (lxor_add (Crc.byte_of 2 x)) by lia.
  rewrite (lxor_add (Crc.byte_of 1 x)) by lia; rewrite (lxor_add (Crc.byte_of 0 x)) by lia; lia.
Qed.

Lemma bytes_of_cons x w : bytes_of (x :: w) = [Crc.byte_of 0 x; Crc.byte_of 1 x; Crc.byte_of 2 x; Crc.byte_of 3 x] ++ bytes_of w.
Proof. reflexivity. Qed.

Lemma bytes_of_length w : length (bytes_of w) = (4 * length w)%nat.
Proof. induction w as [|x w IH]; [done|]; rewrite bytes_of_cons, length_app, IH; cbn [length]; lia. Qed.

Lemma words_bytes_of w : SHA1.words (length w) (bytes_of w) = Crc.swap32 <$> w.
Proof.
  induction w as [|x w IH]; [done|]; rewrite bytes_of_cons; cbn [length SHA1.words app take drop fmap list_fmap]; by rewrite take_0, drop_0, <- swap32_word, IH.
Qed.

Lemma bytes_of_lookup w : forall j : nat, (j < 4 * length w)%nat ->
  bytes_of w !! j = Some (Crc.byte_of (Z.of_nat j mod 4) (nth (Z.to_nat (Z.of_nat j / 4)) w 0)).
Proof.
  induction w as [|x w IH]; intros j Hj; [cbn in Hj; lia|]; rewrite bytes_of_cons; cbn [length] in Hj.
  destruct (decide (j < 4)%nat) as [Hj4|Hj4].
  - rewrite lookup_app_l by (cbn; lia); destruct j as [|[|[|[|j]]]]; [done|done|done|done|lia].
  - rewrite lookup_app_r by (cbn; lia); cbn [length]; rewrite IH by lia.
    replace (Z.of_nat j) with (Z.of_nat (j - 4) + 1 * 4) by lia; rewrite Z.mod_add, Z.div_add by lia.
    rewrite Z2Nat.inj_add by (try apply Z.div_pos; lia); by rewrite Nat.add_comm.
Qed.

Lemma bytes_of_app w w' : bytes_of (w ++ w') = bytes_of w ++ bytes_of w'.
Proof. unfold bytes_of; by rewrite fmap_app, join_app. Qed.

(** Writing a byte of a word. *)
Lemma byte_of_set x b k j : 0 <= k < 4 -> 0 <= j < 4 -> 0 <= b < 256 ->
  Crc.byte_of j (Z.lor (Z.land x (Z.lnot (Z.shiftl 255 (8 * k)))) (Z.shiftl b (8 * k))) = if j =? k then b else Crc.byte_of j x.
Proof.
  intros Hk Hj Hb; apply Z.bits_inj'; intros i Hi; rewrite Crc.byte_of_bits by lia.
  destruct (Z.ltb_spec i 8); cbn [andb].
  - rewrite Z.lor_spec, Z.land_spec, Z.lnot_spec, !Z.shiftl_spec by lia; destruct (Z.eqb_spec j k) as [->|Hn].
    + replace (i + 8 * k - 8 * k) with i by lia; change 255 with (Z.ones 8); rewrite Z.ones_spec_low by lia; cbn; by rewrite andb_false_r.
    + rewrite Crc.byte_of_bits by lia; destruct (Z.lt_ge_cases (i + 8 * j - 8 * k) 0).
      * rewrite (Z.testbit_neg_r 255), (Z.testbit_neg_r b) by lia; rewrite (proj2 (Z.ltb_lt i 8)) by lia; cbn; by rewrite andb_true_r, orb_false_r.
      * change 255 with (Z.ones 8); rewrite Z.ones_spec_high, (Crc.bit_high b 8) by lia; rewrite (proj2 (Z.ltb_lt i 8)) by lia; cbn; by rewrite andb_true_r, orb_false_r.
  - symmetry; apply (Crc.bit_high _ 8); [|lia]; destruct (j =? k); [lia|apply byte_of_range].
Qed.

Lemma nth_insert (t : nat) (x : Z) w : (t < length w)%nat -> nth t (<[t := x]> w) 0 = x.
Proof. intros H; by rewrite nth_lookup, list_lookup_insert_eq. Qed.

Lemma set_byte_bytes i b w : 0 <= i < 4 * zlen w -> 0 <= b < 256 ->
  bytes_of (set_byte i b w) = <[Z.to_nat i := b]> (bytes_of w).
Proof.
  intros Hi Hb; assert (0 <= i / 4 < zlen w) as Ht by (split; [apply Z.div_pos; lia|apply Z.div_lt_upper_bound; lia]).
  apply list_eq; intros j; destruct (decide (j < 4 * length w)%nat) as [Hj|Hj].
  - rewrite (bytes_of_lookup (set_byte i b w)) by (unfold set_byte; rewrite length_insert; lia).
    destruct (decide (Z.of_nat j = i)) as [<-|Hn].
    + rewrite Nat2Z.id, list_lookup_insert_eq by (rewrite bytes_of_length; lia); f_equal; unfold set_byte.
      rewrite nth_insert by lia; rewrite byte_of_set by (try apply Z.mod_pos_bound; lia).
      by rewrite Z.eqb_refl.
    + rewrite list_lookup_insert_ne, bytes_of_lookup by lia; f_equal; unfold set_byte.
      destruct (decide (Z.of_nat j / 4 = i / 4)) as [E|E].
      * rewrite E, nth_insert by lia; rewrite byte_of_set by (try apply Z.mod_pos_bound; lia).
        destruct (Z.eqb_spec (Z.of_nat j mod 4) (i mod 4)) as [E2|]; [|done]; exfalso; apply Hn.
        rewrite (Z.div_mod (Z.of_nat j) 4), (Z.div_mod i 4) by lia; lia.
      * rewrite !nth_lookup, list_lookup_insert_ne; [done|]; assert (0 <= Z.of_nat j / 4) by (apply Z.div_pos; lia); lia.
  - rewrite !lookup_ge_None_2; [done|rewrite length_insert, bytes_of_length; lia|].
    rewrite bytes_of_length; unfold set_byte; rewrite length_insert; lia.
Qed.

(* ------------------------------------------------------------------ *)
(** * One block *)

Lemma take_insert_snoc {A} (n : nat) (x : A) (w : list A) : (n < length w)%nat -> take (S n) (<[n := x]> w) = take n w ++ [x].
Proof. intros Hn; rewrite (take_S_r _ _ x) by (by apply list_lookup_insert_eq); by rewrite take_insert_ge. Qed.

Lemma foldl_update (g : Z -> Z) (n : nat) w : (n <= length w)%nat ->
  foldl (fun w t => <[Z.to_nat t := g (get t w)]> w) w (seqZ 0 (Z.of_nat n)) = (g <$> take n w) ++ drop n w.
Proof.
  induction n as [|n IH]; intros Hn; [done|]; rewrite seqZ_S, foldl_app, IH by lia; cbn [foldl]; unfold get.
  rewrite Z.add_0_l, Nat2Z.id; destruct (lookup_lt_is_Some_2 w n) as [x Hx]; [lia|].
  rewrite (drop_S w x n Hx), (take_S_r w n x Hx), fmap_app.
  rewrite nth_lookup, lookup_app_r by (rewrite length_fmap, length_take; lia); rewrite length_fmap, length_take, Nat.min_l, Nat.sub_diag by lia.
  rewrite insert_app_r_alt by (rewrite length_fmap, length_take; lia); rewrite length_fmap, length_take, Nat.min_l, Nat.sub_diag by lia; cbn.
  by rewrite <- app_assoc.
Qed.

Lemma schedule_length n w : length (SHA1.schedule n w) = (length w + n)%nat.
Proof. induction n as [|n IH]; cbn; [lia|]; rewrite length_app, IH; cbn; lia. Qed.

Lemma schedule_in_place (n : nat) w : length w = 80%nat -> (n <= 64)%nat ->
  let w' := foldl (fun w t => <[Z.to_nat t := S_ 1 (Z.lxor (Z.lxor (Z.lxor (get (t - 3) w) (get (t - 8) w)) (get (t - 14) w)) (get (t - 16) w))]> w)
             w (seqZ 16 (Z.of_nat n)) in
  length w' = 80%nat /\ take (16 + n) w' = SHA1.schedule n (take 16 w).
Proof.
  intros Hw; induction n as [|n IH]; intros Hn; [done|]; specialize (IH ltac:(lia)); rewrite seqZ_S, foldl_app.
  set (w1 := foldl _ w (seqZ 16 (Z.of_nat n))) in *; destruct IH as [Hl IH]; cbn [foldl]; rewrite length_insert; split; [done|].
  replace (Z.to_nat (16 + Z.of_nat n)) with (16 + n)%nat by lia; rewrite Nat.add_succ_r, take_insert_snoc by lia; cbn [SHA1.schedule].
  rewrite <- IH, S_ROTL by lia; repeat f_equal.
  all: unfold get; rewrite length_take, Nat.min_l by lia; rewrite !nth_lookup, lookup_take_lt by lia; do 2 f_equal; lia.
Qed.

Lemma round_step w r t : round w r t = SHA1.step r (t, get t w).
Proof.
  destruct r as [[[[A B] C] D] E]; unfold round, SHA1.step; rewrite !S_ROTL, f_ft, K_Kt by lia; unfold u32.
  do 4 f_equal; f_equal; lia.
Qed.

Lemma zip_schedule w : length w = 80%nat -> zip (seqZ 0 80) w = (fun t => (t, get t w)) <$> seqZ 0 80.
Proof.
  intros Hw; apply list_eq; intros i; rewrite lookup_zip_with, list_lookup_fmap.
  destruct (decide (i < 80)%nat) as [Hi|Hi].
  - rewrite lookup_seqZ_lt by lia; cbn [mbind option_bind fmap option_fmap option_map]; destruct (lookup_lt_is_Some_2 w i) as [x Hx]; [lia|].
    rewrite Hx; cbn; unfold get; rewrite nth_lookup, ?Z.add_0_l, Nat2Z.id, Hx; done.
  - by rewrite lookup_seqZ_ge by lia.
Qed.

Lemma foldl_fmap_step w l r : foldl SHA1.step r ((fun t => (t, get t w)) <$> l) = foldl (round w) r l.
Proof. revert r; induction l as [|t l IH]; intros r; [done|]; cbn [fmap list_fmap foldl]; by rewrite IH, round_step. Qed.

(** [Process] on a full block is the standard's compression of its bytes. *)
Lemma Process_compress s : length (H s) = 5%nat -> length (W s) = 80%nat ->
  H (Process s) = SHA1.compress (H s) (take 64 (bytes_of (W s))) /\ length (W (Process s)) = 80%nat /\
  cursor (Process s) = 0 /\ l (Process s) = l s.
Proof.
  intros Hh Hw; unfold Process; change (seqZ 0 16) with (seqZ 0 (Z.of_nat 16)); rewrite (foldl_update bswap_32 16) by lia.
  set (w1 := (bswap_32 <$> take 16 (W s)) ++ drop 16 (W s)).
  assert (length w1 = 80%nat) as Hl1 by (unfold w1; rewrite length_app, length_fmap, length_take, length_drop; lia).
  destruct (schedule_in_place 64 w1 Hl1 ltac:(lia)) as [Hl2 Es]; change (seqZ 16 64) with (seqZ 16 (Z.of_nat 64)).
  set (w2 := foldl _ w1 _) in *; rewrite (take_ge w2) in Es by lia.
  assert (take 16 w1 = SHA1.words 16 (take 64 (bytes_of (W s)))) as Ew.
  { unfold w1; rewrite take_app_le, take_ge by (rewrite length_fmap, length_take; lia).
    rewrite <- (take_drop 16 (W s)) at 2; rewrite bytes_of_app, take_app_length' by (rewrite bytes_of_length, length_take; lia).
    pose proof (words_bytes_of (take 16 (W s))) as K0; rewrite length_take, Nat.min_l in K0 by lia; by rewrite K0. }
  rewrite Ew in Es; destruct (H s) as [|h0 [|h1 [|h2 [|h3 [|h4 [|]]]]]]; try done; cbn [get nth Z.to_nat Pos.to_nat Pos.iter_op Nat.add].
  unfold SHA1.compress; rewrite <- Es, zip_schedule, foldl_fmap_step by done.
  unfold get; cbn [nth Z.to_nat Pos.to_nat Pos.iter_op Nat.add].
  destruct (foldl (round w2) _ _) as [[[[A B] C] D] E]; cbn [H W cursor l]; split_and!; try done; unfold u32.
  by rewrite (Z.add_comm h0), (Z.add_comm h1), (Z.add_comm h2), (Z.add_comm h3), (Z.add_comm h4).
Qed.

(* ------------------------------------------------------------------ *)
(** * A message *)

(** The state when the blocks [full] have been processed and [rest] is in the buffer. *)
Record rep (s : SecureHashAlgorithm) (full rest : list Z) : Prop := mkRep {
  rep_H : H s = SHA1.hash_from SHA1.H0 full; rep_W : length (W s) = 80%nat;
  rep_cursor : cursor s = zlen rest; rep_rest : take (length rest) (bytes_of (W s)) = rest;
  rep_full : exists k, length full = (64 * k)%nat }.

Lemma hash_length m : forall h, length h = 5%nat -> length (SHA1.hash_from h m) = 5%nat.
Proof.
  unfold SHA1.hash_from; induction (blocks m) as [|b bs IH]; intros h Hh; [done|]; cbn; apply IH.
  destruct h as [|h0 [|h1 [|h2 [|h3 [|h4 [|]]]]]]; try done; unfold SHA1.compress; by destruct (foldl _ _ _) as [[[[? ?] ?] ?] ?].
Qed.

Lemma hash_block h full b : (exists k, length full = (64 * k)%nat) -> length b = 64%nat ->
  SHA1.hash_from h (full ++ b) = SHA1.compress (SHA1.hash_from h full) b.
Proof. intros [k Hk] Hb; unfold SHA1.hash_from; rewrite (blocks_app full b k), (blocks_single b), foldl_app by done; reflexivity. Qed.

Lemma put_rep s full rest b : rep s full rest -> (length rest < 64)%nat -> 0 <= b < 256 -> rep (put b s) full (rest ++ [b]).
Proof.
  intros [R1 R2 R3 R4 R5] Hl Hb; split; cbn [H W cursor put]; [done| | |  |done].
  - unfold set_byte; by rewrite length_insert.
  - rewrite R3, length_app; cbn; lia.
  - rewrite set_byte_bytes by lia; rewrite R3, Nat2Z.id, length_app, Nat.add_1_r, take_insert_snoc by (rewrite bytes_of_length; lia); by rewrite R4.
Qed.

Lemma Process_rep s full rest : rep s full rest -> length rest = 64%nat -> rep (Process s) (full ++ rest) [].
Proof.
  intros [R1 R2 R3 R4 R5] Hl; destruct (Process_compress s) as (P1 & P2 & P3 & P4); [rewrite R1; by apply hash_length|done|].
  split; [|done|by rewrite P3|done|].
  - rewrite P1, R1, hash_block by done; f_equal; by rewrite <- R4, Hl at 1.
  - destruct R5 as [k Hk]; exists (S k); rewrite length_app; lia.
Qed.

Lemma put_l b s : l (put b s) = l s.
Proof. reflexivity. Qed.

Lemma fill_rep n s full rest : rep s full rest -> 0 <= n <= 64 -> zlen rest <= n ->
  rep (fill n s) full (rest ++ replicate (Z.to_nat (n - zlen rest)) 0) /\ l (fill n s) = l s.
Proof.
  intros R Hn Hr; unfold fill; rewrite (rep_cursor _ _ _ R).
  assert (forall k : nat, zlen rest + Z.of_nat k <= n -> rep (Nat.iter k (put 0) s) full (rest ++ replicate k 0) /\ l (Nat.iter k (put 0) s) = l s) as Hk.
  { induction k as [|k IH]; intros Hk; [by rewrite app_nil_r|]; destruct IH as [IH1 IH2]; [lia|]; split; [|done].
    replace (replicate (S k) 0) with (replicate k 0 ++ [0]) by (by rewrite <- replicate_S_end); rewrite app_assoc.
    apply (put_rep _ _ _ 0 IH1); [rewrite length_app, length_replicate; lia|lia]. }
  apply Hk; lia.
Qed.

Lemma rep_l s full rest x : rep s full rest -> rep (mkSha (H s) (W s) (cursor s) x) full rest.
Proof. intros [R1 R2 R3 R4 R5]; by split. Qed.

Lemma Update_byte_rep s full rest b n : rep s full rest -> (length rest < 64)%nat -> 0 <= b < 256 -> l s = u64 (8 * n) ->
  exists full' rest', full' ++ rest' = full ++ rest ++ [b] /\ rep (Update_byte s b) full' rest' /\ (length rest' < 64)%nat /\
    l (Update_byte s b) = u64 (8 * (n + 1)).
Proof.
  intros R Hr Hb Hl; pose proof (put_rep s full rest b R Hr Hb) as R1; unfold Update_byte; rewrite (rep_cursor _ _ _ R1), length_app; cbn [length].
  assert (u64 (l s + 8) = u64 (8 * (n + 1))) as El by (rewrite Hl; unfold u64; rewrite Zplus_mod_idemp_l; f_equal; lia).
  destruct (Z.leb_spec 64 (Z.of_nat (length rest + 1))).
  - exists (full ++ rest ++ [b]), []; rewrite app_nil_r; split; [done|].
    pose proof (Process_rep _ _ _ R1 ltac:(rewrite length_app; cbn; lia)) as R2; destruct (Process_compress (put b s)) as (_ & _ & _ & P4);
      [rewrite (rep_H _ _ _ R1); by apply hash_length|apply R1|].
    split; [by apply rep_l|]; split; [cbn; lia|]; cbn [l]; by rewrite P4, put_l.
  - exists full, (rest ++ [b]); split; [done|]; split; [by apply rep_l|]; split; [rewrite length_app; cbn; lia|done].
Qed.

Lemma Update_rep data : forall s full rest n, rep s full rest -> (length rest < 64)%nat -> Forall (fun b => 0 <= b < 256) data -> l s = u64 (8 * n) ->
  exists full' rest', full' ++ rest' = full ++ rest ++ data /\ rep (Update data s) full' rest' /\ (length rest' < 64)%nat /\
    l (Update data s) = u64 (8 * (n + zlen data)).
Proof.
  induction data as [|b data IH]; intros s full rest n R Hr Hd Hl.
  { exists full, rest; rewrite app_nil_r, Z.add_0_r; done. }
  inversion Hd; subst; destruct (Update_byte_rep s full rest b n R Hr ltac:(done) Hl) as (full1 & rest1 & E1 & R1 & Hr1 & Hl1).
  destruct (IH (Update_byte s b) full1 rest1 (n + 1) R1 Hr1 ltac:(done) Hl1) as (full2 & rest2 & E2 & R2 & Hr2 & Hl2).
  exists full2, rest2; split; [rewrite E2, app_assoc, E1, <- !app_assoc; done|]; split; [done|]; split; [done|].
  change (Update (b :: data) s) with (Update data (Update_byte s b)); rewrite Hl2; f_equal; cbn [length]; lia.
Qed.

(** ** The end of a message *)

Lemma len_byte x i : 0 <= i < 8 -> Z.land (Z.shiftr (u64 x) (8 * i)) 0xff = (x / 256 ^ i) mod 256.
Proof.
  intros Hi; change 0xff with (Z.ones 8); rewrite Z.land_ones by lia; change 256 with (2 ^ 8); rewrite <- Z.pow_mul_r by lia.
  rewrite <- Z.shiftr_div_pow2 by lia; apply Z.bits_inj'; intros j Hj; unfold u64; destruct (Z.lt_ge_cases j 8).
  - rewrite !Z.mod_pow2_bits_low, !Z.shiftr_spec, Z.mod_pow2_bits_low by lia; done.
  - by rewrite !Z.mod_pow2_bits_high by lia.
Qed.

Lemma length_bytes x : (fun sh => Z.land (Z.shiftr (u64 x) sh) 0xff) <$> [56; 48; 40; 32; 24; 16; 8; 0] = SHA1.big_endian 8 x.
Proof.
  unfold SHA1.big_endian; change (rev (seqZ 0 8)) with [7; 6; 5; 4; 3; 2; 1; 0]; cbn [fmap list_fmap].
  rewrite <- !len_byte by lia; reflexivity.
Qed.

Lemma puts_rep shs : forall s full rest, rep s full rest -> (length rest + length shs <= 64)%nat ->
  rep (foldl (fun s sh => put (Z.land (Z.shiftr (l s) sh) 0xff) s) s shs) full (rest ++ ((fun sh => Z.land (Z.shiftr (l s) sh) 0xff) <$> shs)).
Proof.
  induction shs as [|sh shs IH]; intros s full rest R Hl; [by rewrite app_nil_r|]; cbn [foldl fmap list_fmap length] in *.
  set (b := Z.land (Z.shiftr (l s) sh) 0xff); assert (0 <= b < 256).
  { unfold b; change 0xff with (Z.ones 8); rewrite Z.land_ones by lia; apply Z.mod_pos_bound; lia. }
  pose proof (IH (put b s) full (rest ++ [b]) (put_rep _ _ _ b R ltac:(lia) ltac:(done)) ltac:(rewrite length_app; cbn; lia)) as K0.
  rewrite <- app_assoc in K0; exact K0.
Qed.

(** After [Pad] the buffer holds a full block, and the message is the padded one. *)
Lemma Pad_rep s full rest n : rep s full rest -> (length rest < 64)%nat -> l s = u64 (8 * n) -> zlen rest = n mod 64 -> 0 <= n ->
  exists full' rest', full' ++ rest' = full ++ rest ++ SHA1.padding n /\ rep (Pad s) full' rest' /\ length rest' = 64%nat.
Proof.
  intros R Hr Hl Hn Hpos; pose proof (put_rep s full rest 0x80 R Hr ltac:(lia)) as R1; unfold Pad; rewrite (rep_cursor _ _ _ R1), length_app; cbn [length].
  pose proof (Z.div_mod n 64 ltac:(lia)) as Hdm.
  destruct (Z.ltb_spec (64 - 8) (Z.of_nat (length rest + 1))) as [Hlt|Hge].
  - destruct (fill_rep 64 (put 0x80 s) full (rest ++ [0x80]) R1) as [R2 L2]; [lia|rewrite length_app; cbn; lia|].
    set (z1 := replicate (Z.to_nat (64 - zlen (rest ++ [0x80]))) 0) in *.
    assert (length ((rest ++ [0x80]) ++ z1) = 64%nat) as Hl2 by (unfold z1; rewrite !length_app, length_replicate; cbn; lia).
    pose proof (Process_rep _ _ _ R2 Hl2) as R3; destruct (Process_compress (fill 64 (put 0x80 s))) as (_ & _ & _ & L3);
      [rewrite (rep_H _ _ _ R2); by apply hash_length|apply R2|].
    destruct (fill_rep 56 _ _ _ R3) as [R4 L4]; [lia|cbn; lia|]; change (64 - 8) with 56.
    set (s4 := fill 56 _) in *; pose proof (puts_rep [56; 48; 40; 32; 24; 16; 8; 0] s4 _ _ R4) as R5.
    eexists _, _; split; [|split; [apply R5; rewrite length_app, length_replicate; cbn; lia|]].
    + rewrite L4, L3, L2, put_l, Hl, length_bytes; unfold SHA1.padding; cbn [app]; rewrite <- !app_assoc; cbn [app].
      do 3 f_equal; rewrite !app_assoc; f_equal; unfold z1; rewrite <- replicate_add; f_equal.
      assert ((55 - n) mod 64 = 119 - n mod 64) as ->; [|rewrite length_app; cbn; lia].
      symmetry; apply (Z.mod_unique_pos _ _ (- (n / 64) - 1)); lia.
    + rewrite !length_app, length_replicate; cbn; lia.
  - destruct (fill_rep 56 _ _ _ R1) as [R4 L4]; [lia|rewrite length_app; cbn; lia|]; change (64 - 8) with 56.
    set (s4 := fill 56 _) in *; pose proof (puts_rep [56; 48; 40; 32; 24; 16; 8; 0] s4 _ _ R4) as R5.
    eexists _, _; split; [|split; [apply R5; rewrite !length_app, length_replicate; cbn [length]; lia|]].
    + rewrite L4, put_l, Hl, length_bytes; unfold SHA1.padding; rewrite <- !app_assoc; cbn [app].
      do 4 f_equal; f_equal; assert ((55 - n) mod 64 = 55 - n mod 64) as ->; [|rewrite length_app; cbn; lia].
      symmetry; apply (Z.mod_unique_pos _ _ (- (n / 64))); lia.
    + rewrite !length_app, length_fmap, length_replicate; cbn [length]; lia.
Qed.

Lemma byte_of_swap k x : 0 <= k <= 3 -> Crc.byte_of k (Crc.swap32 x) = Crc.byte_of (3 - k) x.
Proof.
  intros Hk; apply Z.bits_inj'; intros i Hi; rewrite !Crc.byte_of_bits by lia; destruct (Z.ltb_spec i 8); [|done]; cbn [andb].
  rewrite Crc.swap32_bits by lia; destruct (Z.lt_ge_cases (i + 8 * k) 8), (Z.lt_ge_cases (i + 8 * k) 16), (Z.lt_ge_cases (i + 8 * k) 24); try lia;
    Crc.bounds; f_equal; lia.
Qed.

Lemma digest_word x : [Crc.byte_of 0 (bswap_32 x); Crc.byte_of 1 (bswap_32 x); Crc.byte_of 2 (bswap_32 x); Crc.byte_of 3 (bswap_32 x)] = SHA1.big_endian 4 x.
Proof.
  unfold bswap_32; rewrite !byte_of_swap by lia; unfold SHA1.big_endian; change (rev (seqZ 0 4)) with [3; 2; 1; 0]; cbn [fmap list_fmap].
  assert (forall k, 0 <= k -> Crc.byte_of k x = (x / 256 ^ k) mod 256) as Hk.
  { intros k Hk; unfold Crc.byte_of; change 255 with (Z.ones 8); rewrite Z.land_ones, Z.shiftr_div_pow2 by lia; by rewrite (Z.pow_mul_r 2 8). }
  by rewrite !Hk by lia.
Qed.

Lemma Init_rep : rep Init [] [].
Proof. split; try done; by exists O. Qed.

Lemma digest_of_message s full rest : rep s full rest -> (length rest < 64)%nat -> l s = u64 (8 * zlen (full ++ rest)) ->
  Digest (Final s) = SHA1.SHA1 (full ++ rest).
Proof.
  intros R Hr Hl; destruct (rep_full _ _ _ R) as [k Hk].
  destruct (Pad_rep s full rest (zlen (full ++ rest)) R Hr Hl) as (full' & rest' & E & R' & Hr');
    [rewrite length_app, Hk; apply (Z.mod_unique_pos _ _ (Z.of_nat k)); lia|lia|].
  pose proof (Process_rep _ _ _ R' Hr') as R2; unfold Digest, Final; cbn [H]; rewrite (rep_H _ _ _ R2), E.
  unfold SHA1.SHA1; rewrite <- app_assoc, <- list_fmap_compose; f_equal; apply list_fmap_ext; intros i x _; apply digest_word.
Qed.

Lemma Updates_rep chunks : forall s full rest n, rep s full rest -> (length rest < 64)%nat -> Forall (Forall (fun b => 0 <= b < 256)) chunks -> l s = u64 (8 * n) ->
  exists full' rest', full' ++ rest' = full ++ rest ++ mjoin chunks /\ rep (foldl (fun s d => Update d s) s chunks) full' rest' /\ (length rest' < 64)%nat /\
    l (foldl (fun s d => Update d s) s chunks) = u64 (8 * (n + zlen (mjoin chunks))).
Proof.
  induction chunks as [|d chunks IH]; intros s full rest n R Hr Hd Hl.
  { exists full, rest; cbn; rewrite app_nil_r, Z.add_0_r; done. }
  inversion Hd; subst; destruct (Update_rep d s full rest n R Hr ltac:(done) Hl) as (full1 & rest1 & E1 & R1 & Hr1 & Hl1).
  destruct (IH _ full1 rest1 _ R1 Hr1 ltac:(done) Hl1) as (full2 & rest2 & E2 & R2 & Hr2 & Hl2).
  exists full2, rest2; split; [rewrite E2, app_assoc, E1, <- !app_assoc; done|]; split; [done|]; split; [done|].
  cbn [foldl]; rewrite Hl2; f_equal; change (mjoin (d :: chunks)) with (d ++ mjoin chunks); rewrite length_app; lia.
Qed.
(** [Final] after any sequence of [Update]s. *)
Lemma digest_of_updates chunks : Forall (Forall (fun b => 0 <= b < 256)) chunks ->
  Digest (Final (foldl (fun s d => Update d s) Init chunks)) = SHA1.SHA1 (mjoin chunks).
Proof.
  intros Hc; destruct (Updates_rep chunks Init [] [] 0 Init_rep ltac:(cbn; lia) Hc eq_refl) as (full & rest & E & R & Hr & Hl).
  cbn [app] in E; rewrite <- E in *; by apply digest_of_message.
Qed.
End Sha1Proofs.

(* ------------------------------------------------------------------ *)
(** * The contract *)

Module Sha1Theorems.
Import Sha1 Sha1Proofs.

(** C36.  Any sequence of [Update]s followed by [Final] computes the SHA-1 digest of the
    standard of all the bytes, wherever the message is cut. *)
Theorem sha1_exact (chunks : list (list Z)) : Forall (Forall (fun b => 0 <= b < 256)) chunks ->
  Digest (Final (foldl (fun s d => Update d s) Init chunks)) = SHA1.SHA1 (mjoin chunks).
Proof. apply digest_of_updates. Qed.

Lemma sha1_exact_witness :
  Digest (Final (foldl (fun s d => Update d s) Init [str "ab"; str "c"])) =
  [0xa9; 0x99; 0x3e; 0x36; 0x47; 0x06; 0x81; 0x6a; 0xba; 0x3e; 0x25; 0x71; 0x78; 0x50; 0xc2; 0x6c; 0x9c; 0xd0; 0xd8; 0x9d].
Proof.
  transitivity (SHA1.SHA1 (mjoin [str "ab"; str "c"])); [|vm_compute; reflexivity].
  apply (sha1_exact [str "ab"; str "c"]); repeat constructor; cbn; lia.
Defined.

(** The key a server accepts a WebSocket with is the one of RFC 6455, section 4.2.2:
    the base64 encoding of the SHA-1 digest of the client's key and the magic string;
    on the example of the RFC it is the RFC's answer. *)
Theorem accept_key_exact (key : list Z) : Forall (fun b => 0 <= b < 256) key ->
  Base64.encode (accept_digest (WebSocketCodec.c_str key)) = WebSocketCodec.GenAcceptKey SHA1.SHA1 key /\
  Base64.encode (accept_digest (WebSocketCodec.c_str (str "dGhlIHNhbXBsZSBub25jZQ=="))) = str "s3pPLMBiTxaQ9kYGzzhZRbK+xOo=".
Proof.
  intros Hk; split; [|vm_compute; reflexivity]; unfold WebSocketCodec.GenAcceptKey; f_equal.
  assert (Forall (fun b => 0 <= b < 256) (WebSocketCodec.c_str key)) as Hc.
  { induction Hk as [|b key Hb Hk IH]; cbn; [constructor|]; destruct (b =? 0); [constructor|]; by constructor. }
  pose proof (digest_of_updates [WebSocketCodec.c_str key; WebSocketCodec.ws_magic]) as H1; cbn [foldl mjoin] in H1.
  unfold accept_digest; rewrite H1; [f_equal; cbn [list_join]; by rewrite app_nil_r|].
  constructor; [done|]; constructor; [|constructor]; vm_compute; repeat constructor; lia || done.
Qed.

Lemma accept_key_exact_witness :
  Base64.encode (accept_digest (WebSocketCodec.c_str (str "key"))) = WebSocketCodec.GenAcceptKey SHA1.SHA1 (str "key").
Proof. apply (accept_key_exact (str "key")); repeat constructor; cbn; lia. Defined.
End Sha1Theorems.
