(* ===== verification/Md5.v ===== *)
(** * MD5 (thirdparty/hash/md5.{h,c})

    The state and the four functions of the source: [md5_process] with its 64 unrolled
    operations, [md5_append], which fills the buffer, hashes whole blocks where they
    lie and keeps the rest, and [md5_finish].  [MD5] is the definition of RFC 1321 as a
    loop over the padded message.  The host is little-endian, so a block is its words.

    [md5_exact] says that any sequence of [md5_append]s followed by [md5_finish] gives
    the RFC's digest of all the bytes. *)
From stdpp Require Import list.
From S2P Require Import Prelude Crc Sha1.
Import Blocks.

Module Md5.
Definition T_MASK : Z := 0xffffffff.

(** [T1] to [T64] *)
Definition T : list Z :=
  [ Z.lxor T_MASK 0x28955b87; Z.lxor T_MASK 0x173848a9; 0x242070db; Z.lxor T_MASK 0x3e423111;
    Z.lxor T_MASK 0x0a83f050; 0x4787c62a; Z.lxor T_MASK 0x57cfb9ec; Z.lxor T_MASK 0x02b96afe;
    0x698098d8; Z.lxor T_MASK 0x74bb0850; Z.lxor T_MASK 0x0000a44e; Z.lxor T_MASK 0x76a32841;
    0x6b901122; Z.lxor T_MASK 0x02678e6c; Z.lxor T_MASK 0x5986bc71; 0x49b40821;
    Z.lxor T_MASK 0x09e1da9d; Z.lxor T_MASK 0x3fbf4cbf; 0x265e5a51; Z.lxor T_MASK 0x16493855;
    Z.lxor T_MASK 0x29d0efa2; 0x02441453; Z.lxor T_MASK 0x275e197e; Z.lxor T_MASK 0x182c0437;
    0x21e1cde6; Z.lxor T_MASK 0x3cc8f829; Z.lxor T_MASK 0x0b2af278; 0x455a14ed;
    Z.lxor T_MASK 0x561c16fa; Z.lxor T_MASK 0x03105c07; 0x676f02d9; Z.lxor T_MASK 0x72d5b375;
    Z.lxor T_MASK 0x0005c6bd; Z.lxor T_MASK 0x788e097e; 0x6d9d6122; Z.lxor T_MASK 0x021ac7f3;
    Z.lxor T_MASK 0x5b4115bb; 0x4bdecfa9; Z.lxor T_MASK 0x0944b49f; Z.lxor T_MASK 0x4140438f;
    0x289b7ec6; Z.lxor T_MASK 0x155ed805; Z.lxor T_MASK 0x2b10cf7a; 0x04881d05;
    Z.lxor T_MASK 0x262b2fc6; Z.lxor T_MASK 0x1924661a; 0x1fa27cf8; Z.lxor T_MASK 0x3b53a99a;
    Z.lxor T_MASK 0x0bd6ddbb; 0x432aff97; Z.lxor T_MASK 0x546bdc58; Z.lxor T_MASK 0x036c5fc6;
    0x655b59c3; Z.lxor T_MASK 0x70f3336d; Z.lxor T_MASK 0x00100b82; Z.lxor T_MASK 0x7a7ba22e;
    0x6fa87e4f; Z.lxor T_MASK 0x01d3191f; Z.lxor T_MASK 0x5cfebceb; 0x4e0811a1;
    Z.lxor T_MASK 0x08ac817d; Z.lxor T_MASK 0x42c50dca; 0x2ad7d2bb; Z.lxor T_MASK 0x14792c6e ].

Definition ROTATE_LEFT (x n : Z) : Z := Z.lor (u32 (Z.shiftl x n)) (Z.shiftr x (32 - n)).
Definition F (x y z : Z) : Z := Z.lor (Z.land x y) (Z.land (u32 (Z.lnot x)) z).
Definition G (x y z : Z) : Z := Z.lor (Z.land x z) (Z.land y (u32 (Z.lnot z))).
Definition H (x y z : Z) : Z := Z.lxor (Z.lxor x y) z.
Definition I (x y z : Z) : Z := Z.lxor y (Z.lor x (u32 (Z.lnot z))).

Record regs := mkRegs { ra : Z; rb : Z; rc : Z; rd : Z }.

(** The register that an operation sets; the other three follow it. *)
Inductive target := TA | TD | TC | TB.

(** [SET(a, b, c, d, k, s, Ti)] with the function of the round. *)
Definition SET (X : list Z) (fn : Z -> Z -> Z -> Z) (r : regs) (op : target * Z * Z * Z) : regs :=
  let '(reg, k, s, Ti) := op in
  let go a b c d := u32 (ROTATE_LEFT (u32 (a + fn b c d + nth (Z.to_nat k) X 0 + Ti)) s + b) in
  match reg with
  | TA => mkRegs (go (ra r) (rb r) (rc r) (rd r)) (rb r) (rc r) (rd r)
  | TD => mkRegs (ra r) (rb r) (rc r) (go (rd r) (ra r) (rb r) (rc r))
  | TC => mkRegs (ra r) (rb r) (go (rc r) (rd r) (ra r) (rb r)) (rd r)
  | TB => mkRegs (ra r) (go (rb r) (rc r) (rd r) (ra r)) (rc r) (rd r)
  end.

Definition t (i : nat) : Z := nth (i - 1) T 0.

Definition round1 : list (target * Z * Z * Z) :=
  [ (TA, 0, 7, t 1); (TD, 1, 12, t 2); (TC, 2, 17, t 3); (TB, 3, 22, t 4);
    (TA, 4, 7, t 5); (TD, 5, 12, t 6); (TC, 6, 17, t 7); (TB, 7, 22, t 8);
    (TA, 8, 7, t 9); (TD, 9, 12, t 10); (TC, 10, 17, t 11); (TB, 11, 22, t 12);
    (TA, 12, 7, t 13); (TD, 13, 12, t 14); (TC, 14, 17, t 15); (TB, 15, 22, t 16) ].
Definition round2 : list (target * Z * Z * Z) :=
  [ (TA, 1, 5, t 17); (TD, 6, 9, t 18); (TC, 11, 14, t 19); (TB, 0, 20, t 20);
    (TA, 5, 5, t 21); (TD, 10, 9, t 22); (TC, 15, 14, t 23); (TB, 4, 20, t 24);
    (TA, 9, 5, t 25); (TD, 14, 9, t 26); (TC, 3, 14, t 27); (TB, 8, 20, t 28);
    (TA, 13, 5, t 29); (TD, 2, 9, t 30); (TC, 7, 14, t 31); (TB, 12, 20, t 32) ].
Definition round3 : list (target * Z * Z * Z) :=
  [ (TA, 5, 4, t 33); (TD, 8, 11, t 34); (TC, 11, 16, t 35); (TB, 14, 23, t 36);
    (TA, 1, 4, t 37); (TD, 4, 11, t 38); (TC, 7, 16, t 39); (TB, 10, 23, t 40);
    (TA, 13, 4, t 41); (TD, 0, 11, t 42); (TC, 3, 16, t 43); (TB, 6, 23, t 44);
    (TA, 9, 4, t 45); (TD, 12, 11, t 46); (TC, 15, 16, t 47); (TB, 2, 23, t 48) ].
Definition round4 : list (target * Z * Z * Z) :=
  [ (TA, 0, 6, t 49); (TD, 7, 10, t 50); (TC, 14, 15, t 51); (TB, 5, 21, t 52);
    (TA, 12, 6, t 53); (TD, 3, 10, t 54); (TC, 10, 15, t 55); (TB, 1, 21, t 56);
    (TA, 8, 6, t 57); (TD, 15, 10, t 58); (TC, 6, 15, t 59); (TB, 13, 21, t 60);
    (TA, 4, 6, t 61); (TD, 11, 10, t 62); (TC, 2, 15, t 63); (TB, 9, 21, t 64) ].

Record md5_state_t := mkMd5 { count0 : Z; count1 : Z; abcd : regs; buf : list Z }.

(** The words of a block. *)
Fixpoint words_le (n : nat) (bs : list Z) : list Z :=
  match n with
  | O => []
  | S n => nth 0 bs 0 + Z.shiftl (nth 1 bs 0) 8 + Z.shiftl (nth 2 bs 0) 16 + Z.shiftl (nth 3 bs 0) 24 :: words_le n (drop 4 bs)
  end.

Definition md5_process (data : list Z) (r0 : regs) : regs :=
  let X := words_le 16 data in
  let r := foldl (SET X F) r0 round1 in
  let r := foldl (SET X G) r round2 in
  let r := foldl (SET X H) r round3 in
  let r := foldl (SET X I) r round4 in
  mkRegs (u32 (ra r0 + ra r)) (u32 (rb r0 + rb r)) (u32 (rc r0 + rc r)) (u32 (rd r0 + rd r)).

Definition md5_init : md5_state_t :=
  mkMd5 0 0 (mkRegs 0x67452301 (Z.lxor T_MASK 0x10325476) (Z.lxor T_MASK 0x67452301) 0x10325476) (replicate 64 0).

(** [for (; left >= 64; p += 64, left -= 64) md5_process(pms, p)], and what is left. *)
Fixpoint full_blocks (fuel : nat) (p : list Z) (r : regs) : list Z * regs :=
  match fuel with
  | O => (p, r)
  | S fuel => if 64 <=? zlen p then full_blocks fuel (drop 64 p) (md5_process (take 64 p) r) else (p, r)
  end.

(** [memcpy(buf + off, p, n)] *)
Definition copy_into (off : Z) (p b : list Z) : list Z := ztake off b ++ p ++ zdrop (off + zlen p) b.

(** [nbytes] is the length of [data]. *)
Definition md5_append (data : list Z) (s : md5_state_t) : md5_state_t :=
  let nbytes := zlen data in
  let offset := Z.land (Z.shiftr (count0 s) 3) 63 in
  let nbits := u32 (Z.shiftl nbytes 3) in
  if nbytes <=? 0 then s
  else
    let c1 := u32 (count1 s + Z.shiftr nbytes 29) in
    let c0 := u32 (count0 s + nbits) in
    let c1 := if c0 <? nbits then u32 (c1 + 1) else c1 in
    let tail p r b :=
      let '(p, r) := full_blocks (length p) p r in
      mkMd5 c0 c1 r (if 0 <? zlen p then copy_into 0 p b else b) in
    if negb (offset =? 0) then
      let copy := if 64 <? offset + nbytes then 64 - offset else nbytes in
      let b := copy_into offset (ztake copy data) (buf s) in
      if offset + copy <? 64 then mkMd5 c0 c1 (abcd s) b
      else tail (zdrop copy data) (md5_process b (abcd s)) b
    else tail data (abcd s) (buf s).

Definition pad : list Z := 0x80 :: replicate 63 0.

Definition md5_finish (s : md5_state_t) : list Z :=
  let data := (fun i => u8 (Z.shiftr (if Z.shiftr i 2 =? 0 then count0 s else count1 s) (Z.shiftl (Z.land i 3) 3))) <$> seqZ 0 8 in
  let s := md5_append (ztake (Z.land (u32 (55 - Z.shiftr (count0 s) 3)) 63 + 1) pad) s in
  let s := md5_append data s in
  let word i := match i with 0 => ra (abcd s) | 1 => rb (abcd s) | 2 => rc (abcd s) | _ => rd (abcd s) end in
  (fun i => u8 (Z.shiftr (word (Z.shiftr i 2)) (Z.shiftl (Z.land i 3) 3))) <$> seqZ 0 16.
End Md5.

(* ------------------------------------------------------------------ *)
(** * The RFC *)

Module MD5.
(** [T[i]], the first 32 bits of [abs(sin i)] as the RFC prints them. *)
Definition sines : list Z :=
  [ 0xd76aa478; 0xe8c7b756; 0x242070db; 0xc1bdceee; 0xf57c0faf; 0x4787c62a; 0xa8304613; 0xfd469501;
    0x698098d8; 0x8b44f7af; 0xffff5bb1; 0x895cd7be; 0x6b901122; 0xfd987193; 0xa679438e; 0x49b40821;
    0xf61e2562; 0xc040b340; 0x265e5a51; 0xe9b6c7aa; 0xd62f105d; 0x02441453; 0xd8a1e681; 0xe7d3fbc8;
    0x21e1cde6; 0xc33707d6; 0xf4d50d87; 0x455a14ed; 0xa9e3e905; 0xfcefa3f8; 0x676f02d9; 0x8d2a4c8a;
    0xfffa3942; 0x8771f681; 0x6d9d6122; 0xfde5380c; 0xa4beea44; 0x4bdecfa9; 0xf6bb4b60; 0xbebfbc70;
    0x289b7ec6; 0xeaa127fa; 0xd4ef3085; 0x04881d05; 0xd9d4d039; 0xe6db99e5; 0x1fa27cf8; 0xc4ac5665;
    0xf4292244; 0x432aff97; 0xab9423a7; 0xfc93a039; 0x655b59c3; 0x8f0ccc92; 0xffeff47d; 0x85845dd1;
    0x6fa87e4f; 0xfe2ce6e0; 0xa3014314; 0x4e0811a1; 0xf7537e82; 0xbd3af235; 0x2ad7d2bb; 0xeb86d391 ].

Definition shifts (i : Z) : Z :=
  nth (Z.to_nat (4 * (i / 16) + i mod 4)) [7; 12; 17; 22; 5; 9; 14; 20; 4; 11; 16; 23; 6; 10; 15; 21] 0.

Definition index (i : Z) : Z :=
  if i <? 16 then i else if i <? 32 then (5 * i + 1) mod 16 else if i <? 48 then (3 * i + 5) mod 16 else (7 * i) mod 16.

Definition not32 (x : Z) : Z := (2 ^ 32 - 1) - x mod 2 ^ 32.
Definition mix (i b c d : Z) : Z :=
  if i <? 16 then Z.lxor (Z.land b c) (Z.land (not32 b) d)
  else if i <? 32 then Z.lxor (Z.land d b) (Z.land (not32 d) c)
  else if i <? 48 then Z.lxor b (Z.lxor c d)
  else Z.lxor c (Z.lor b (not32 d)).

Definition rotl (x n : Z) : Z := Z.lor ((x * 2 ^ n) mod 2 ^ 32) (x / 2 ^ (32 - n)).

Definition step (X : list Z) (r : Z * Z * Z * Z) (i : Z) : Z * Z * Z * Z :=
  let '(a, b, c, d) := r in
  (d, (b + rotl ((a + mix i b c d + nth (Z.to_nat i) sines 0 + nth (Z.to_nat (index i)) X 0) mod 2 ^ 32) (shifts i)) mod 2 ^ 32, b, c).

Definition compress (h : Z * Z * Z * Z) (block : list Z) : Z * Z * Z * Z :=
  let '(a0, b0, c0, d0) := h in
  let '(a, b, c, d) := foldl (step (Md5.words_le 16 block)) h (seqZ 0 64) in
  ((a0 + a) mod 2 ^ 32, (b0 + b) mod 2 ^ 32, (c0 + c) mod 2 ^ 32, (d0 + d) mod 2 ^ 32).

Definition little_endian (n x : Z) : list Z := (fun i => (x / 256 ^ i) mod 256) <$> seqZ 0 n.

Definition padding (len : Z) : list Z := 0x80 :: replicate (Z.to_nat ((55 - len) mod 64)) 0 ++ little_endian 8 (8 * len).

Definition H0 : Z * Z * Z * Z := (0x67452301, 0xefcdab89, 0x98badcfe, 0x10325476).
Definition hash_from (h : Z * Z * Z * Z) (m : list Z) : Z * Z * Z * Z := foldl compress h (blocks m).

Definition MD5 (m : list Z) : list Z :=
  let '(a, b, c, d) := hash_from H0 (m ++ padding (zlen m)) in
  little_endian 4 a ++ little_endian 4 b ++ little_endian 4 c ++ little_endian 4 d.
End MD5.

(* ------------------------------------------------------------------ *)
(** * One block *)

Module Md5Proofs.
Import Md5.

Lemma rotate_rotl x n : 0 <= n <= 32 -> ROTATE_LEFT x n = MD5.rotl x n.
Proof. intros Hn; unfold ROTATE_LEFT, MD5.rotl, u32; by rewrite Z.shiftl_mul_pow2, Z.shiftr_div_pow2 by lia. Qed.

Lemma not_bits x i : 0 <= i -> Z.testbit (u32 (Z.lnot x)) i = negb (Z.testbit x i) && (i <? 32).
Proof.
  intros Hi; unfold u32; destruct (Z.ltb_spec i 32).
  - by rewrite Z.mod_pow2_bits_low, Z.lnot_spec, andb_true_r by lia.
  - by rewrite Z.mod_pow2_bits_high, andb_false_r by lia.
Qed.

Lemma not32_lnot x : MD5.not32 x = u32 (Z.lnot x).
Proof. symmetry; apply Sha1Proofs.u32_lnot. Qed.

(** The functions of the four rounds. *)
Lemma mix_rounds i b c d :
  MD5.mix i b c d = (if i <? 16 then F else if i <? 32 then G else if i <? 48 then H else I) b c d.
Proof.
  unfold MD5.mix, F, G, H, I; rewrite !not32_lnot; destruct (i <? 16); [|destruct (i <? 32)]; [..|destruct (i <? 48)];
    apply Z.bits_inj'; intros j Hj; rewrite ?Z.lor_spec, ?Z.lxor_spec, ?Z.land_spec, ?Z.lor_spec, ?Z.lxor_spec, ?not_bits by lia;
    destruct (Z.testbit b j), (Z.testbit c j), (Z.testbit d j), (j <? 32); done.
Qed.

(** The operation of step [i], and where the loop's registers are after [i] steps. *)
Definition target_of (i : Z) : target := match i mod 4 with 0 => TA | 1 => TD | 2 => TC | _ => TB end.
Definition op (i : Z) : target * Z * Z * Z := (target_of i, MD5.index i, MD5.shifts i, nth (Z.to_nat i) MD5.sines 0).

Definition view (i : Z) (r : Z * Z * Z * Z) : regs :=
  let '(a, b, c, d) := r in
  match i mod 4 with 0 => mkRegs a b c d | 1 => mkRegs b c d a | 2 => mkRegs c d a b | _ => mkRegs d a b c end.

Lemma shifts_range i : 0 <= MD5.shifts i <= 32.
Proof.
  unfold MD5.shifts; set (l := [7; 12; 17; 22; 5; 9; 14; 20; 4; 11; 16; 23; 6; 10; 15; 21]).
  assert (forallb (fun x => (0 <=? x) && (x <=? 32)) l = true) as Hl by reflexivity; rewrite forallb_forall in Hl.
  destruct (nth_in_or_default (Z.to_nat (4 * (i / 16) + i mod 4)) l 0) as [Hin| ->]; [|lia]; specialize (Hl _ Hin); lia.
Qed.

Lemma step_view X fn r i : (forall b c d, fn b c d = MD5.mix i b c d) -> SET X fn (view i r) (op i) = view (i + 1) (MD5.step X r i).
Proof.
  intros Hfn; destruct r as [[[a b] c] d]; unfold view, op, target_of, MD5.step, SET.
  assert (forall a b c d, u32 (ROTATE_LEFT (u32 (a + fn b c d + nth (Z.to_nat (MD5.index i)) X 0 + nth (Z.to_nat i) MD5.sines 0)) (MD5.shifts i) + b) =
    (b + MD5.rotl ((a + MD5.mix i b c d + nth (Z.to_nat i) MD5.sines 0 + nth (Z.to_nat (MD5.index i)) X 0) mod 2 ^ 32) (MD5.shifts i)) mod 2 ^ 32) as K.
  { intros a0 b0 c0 d0; rewrite rotate_rotl, Hfn by apply shifts_range; unfold u32; f_equal; rewrite Z.add_comm; do 3 f_equal; lia. }
  assert (i mod 4 = 0 \/ i mod 4 = 1 \/ i mod 4 = 2 \/ i mod 4 = 3) as Hm by (pose proof (Z.mod_pos_bound i 4 ltac:(lia)); lia).
  rewrite (Zplus_mod i 1 4); destruct Hm as [-> | [-> | [-> | ->]]]; cbn [ra rb rc rd]; rewrite K; reflexivity.
Qed.

Lemma rounds_view X fn (n : nat) : forall s r, (forall i b c d, s <= i < s + Z.of_nat n -> fn b c d = MD5.mix i b c d) ->
  foldl (SET X fn) (view s r) (op <$> seqZ s (Z.of_nat n)) = view (s + Z.of_nat n) (foldl (MD5.step X) r (seqZ s (Z.of_nat n))).
Proof.
  induction n as [|n IH]; intros s r Hfn; [by rewrite Z.add_0_r|]; rewrite seqZ_cons by lia; cbn [fmap list_fmap foldl].
  rewrite step_view by (intros; apply Hfn; lia); replace (Z.pred (Z.of_nat (S n))) with (Z.of_nat n) by lia.
  replace (s + Z.of_nat (S n)) with (Z.succ s + Z.of_nat n) by lia; apply IH; intros; apply Hfn; lia.
Qed.

(** The 64 operations of the source are the RFC's. *)
Lemma operations : round1 = op <$> seqZ 0 16 /\ round2 = op <$> seqZ 16 16 /\ round3 = op <$> seqZ 32 16 /\ round4 = op <$> seqZ 48 16.
Proof. split_and!; vm_compute; reflexivity. Qed.

Definition tuple (r : regs) : Z * Z * Z * Z := (ra r, rb r, rc r, rd r).

Lemma all_rounds X r :
  foldl (SET X I) (foldl (SET X H) (foldl (SET X G) (foldl (SET X F) (view 0 r) round1) round2) round3) round4 =
  view 64 (foldl (MD5.step X) r (seqZ 0 64)).
Proof.
  destruct operations as (-> & -> & -> & ->).
  assert (seqZ 0 64 = seqZ 0 16 ++ seqZ 16 16 ++ seqZ 32 16 ++ seqZ 48 16) as -> by reflexivity; rewrite !foldl_app.
  rewrite (rounds_view X F 16 0) by (intros i b c d Hi; rewrite mix_rounds; by Crc.bounds).
  rewrite (rounds_view X G 16 (0 + Z.of_nat 16)) by (intros i b c d Hi; rewrite mix_rounds; by Crc.bounds).
  rewrite (rounds_view X H 16 (0 + Z.of_nat 16 + Z.of_nat 16)) by (intros i b c d Hi; rewrite mix_rounds; by Crc.bounds).
  by rewrite (rounds_view X I 16 (0 + Z.of_nat 16 + Z.of_nat 16 + Z.of_nat 16)) by (intros i b c d Hi; rewrite mix_rounds; by Crc.bounds).
Qed.

Lemma process_compress data r : tuple (md5_process data r) = MD5.compress (tuple r) data.
Proof.
  unfold md5_process, MD5.compress; set (X := words_le 16 data); pose proof (all_rounds X (tuple r)) as E.
  assert (view 0 (tuple r) = r) as Er by (by destruct r); rewrite Er in E; rewrite E.
  destruct r as [a0 b0 c0 d0]; cbn [tuple ra rb rc rd]; by destruct (foldl (MD5.step X) _ _) as [[[a b] c] d].
Qed.

(* ------------------------------------------------------------------ *)
(** * A message *)

(** The state when the blocks [full] have been processed and [rest] is in the buffer. *)
Record rep (s : md5_state_t) (full rest : list Z) : Prop := mkRep {
  rep_regs : tuple (abcd s) = MD5.hash_from MD5.H0 full; rep_buf : length (buf s) = 64%nat;
  rep_rest : take (length rest) (buf s) = rest; rep_short : (length rest < 64)%nat; rep_full : exists k, length full = (64 * k)%nat;
  rep_count0 : count0 s = u32 (8 * zlen (full ++ rest)); rep_count1 : count1 s = u32 ((8 * zlen (full ++ rest)) / 2 ^ 32) }.

Lemma hash_app h full m : (exists k, length full = (64 * k)%nat) -> MD5.hash_from h (full ++ m) = MD5.hash_from (MD5.hash_from h full) m.
Proof. intros [k Hk]; unfold MD5.hash_from; by rewrite (blocks_app full m k), foldl_app. Qed.

Lemma md5_hash_block h b : length b = 64%nat -> MD5.hash_from h b = MD5.compress h b.
Proof. intros Hb; unfold MD5.hash_from; by rewrite (blocks_single b). Qed.

Lemma full_blocks_ok fuel : forall p r, (length p <= fuel)%nat ->
  exists q p' r', full_blocks fuel p r = (p', r') /\ p = q ++ p' /\ (length p' < 64)%nat /\ (exists k, length q = (64 * k)%nat) /\
    tuple r' = MD5.hash_from (tuple r) q.
Proof.
  induction fuel as [|fuel IH]; intros p r Hp; cbn [full_blocks].
  { exists [], p, r; split; [done|]; split; [done|]; split; [lia|]; split; [by exists O|done]. }
  destruct (Z.leb_spec 64 (zlen p)) as [Hl|Hl].
  - destruct (IH (drop 64 p) (md5_process (take 64 p) r)) as (q & p' & r' & E & Hq & Hp' & [k Hk] & Hr'); [rewrite length_drop; lia|].
    exists (take 64 p ++ q), p', r'; split; [done|]; split; [rewrite <- app_assoc, <- Hq; by rewrite take_drop|]; split; [done|].
    assert (length (take 64 p) = 64%nat) as Ht by (rewrite length_take; lia).
    split; [exists (S k); rewrite length_app, Ht; lia|]; rewrite Hr', process_compress, hash_app by (by exists 1%nat); by rewrite (md5_hash_block _ (take 64 p)).
  - exists [], p, r; split; [done|]; split; [done|]; split; [lia|]; split; [by exists O|done].
Qed.

Lemma copy_length off p b : 0 <= off -> off + zlen p <= zlen b -> length (copy_into off p b) = length b.
Proof. intros Ho Hl; unfold copy_into, ztake, zdrop; rewrite !length_app, length_take, length_drop; lia. Qed.

Lemma copy_take (off : nat) p b : (off + length p <= length b)%nat -> take (off + length p) (copy_into (Z.of_nat off) p b) = take off b ++ p.
Proof.
  intros Hl; unfold copy_into, ztake, zdrop; rewrite Nat2Z.id, app_assoc, take_app_le, take_ge; [done|..]; rewrite length_app, length_take; lia.
Qed.

(** The count of bits, kept in two words. *)
Lemma count_add n m : 0 <= n -> 0 <= m ->
  let nbits := u32 (Z.shiftl m 3) in let c0 := u32 (u32 (8 * n) + nbits) in
  let c1 := u32 (u32 (8 * n / 2 ^ 32) + Z.shiftr m 29) in
  c0 = u32 (8 * (n + m)) /\ (if c0 <? nbits then u32 (c1 + 1) else c1) = u32 (8 * (n + m) / 2 ^ 32).
Proof.
  intros Hn Hm; cbv zeta; rewrite Z.shiftl_mul_pow2, Z.shiftr_div_pow2 by lia; unfold u32; change (m * 2 ^ 3) with (m * 8).
  rewrite Z.mul_add_distr_l, <- (Zplus_mod (8 * n)), (Z.mul_comm m 8).
  replace (m / 2 ^ 29) with (8 * m / 2 ^ 32) by (change (2 ^ 32) with (8 * 2 ^ 29); by rewrite Z.div_mul_cancel_l by lia).
  split; [done|]; set (x := 8 * n); set (y := 8 * m).
  assert (0 <= x /\ 0 <= y) as [Hx Hy] by (unfold x, y; lia); clearbody x y.
  pose proof (Z.mod_pos_bound x (2 ^ 32) ltac:(lia)); pose proof (Z.mod_pos_bound y (2 ^ 32) ltac:(lia)).
  pose proof (Z.div_mod x (2 ^ 32) ltac:(lia)); pose proof (Z.div_mod y (2 ^ 32) ltac:(lia)).
  destruct (Z.lt_ge_cases (x mod 2 ^ 32 + y mod 2 ^ 32) (2 ^ 32)) as [Hc|Hc].
  - assert ((x + y) mod 2 ^ 32 = x mod 2 ^ 32 + y mod 2 ^ 32) as -> by (rewrite Zplus_mod; apply Z.mod_small; lia).
    assert ((x + y) / 2 ^ 32 = x / 2 ^ 32 + y / 2 ^ 32) as -> by (symmetry; apply (Z.div_unique_pos _ _ _ (x mod 2 ^ 32 + y mod 2 ^ 32)); lia).
    rewrite (proj2 (Z.ltb_ge _ _)) by lia; by rewrite Zplus_mod_idemp_l.
  - assert ((x + y) mod 2 ^ 32 = x mod 2 ^ 32 + y mod 2 ^ 32 - 2 ^ 32) as -> by (symmetry; apply (Z.mod_unique_pos _ _ (x / 2 ^ 32 + y / 2 ^ 32 + 1)); lia).
    assert ((x + y) / 2 ^ 32 = x / 2 ^ 32 + y / 2 ^ 32 + 1) as -> by (symmetry; apply (Z.div_unique_pos _ _ _ (x mod 2 ^ 32 + y mod 2 ^ 32 - 2 ^ 32)); lia).
    rewrite (proj2 (Z.ltb_lt _ _)) by lia; rewrite Zplus_mod_idemp_l, <- Z.add_assoc, Zplus_mod_idemp_l; f_equal; lia.
Qed.

Lemma offset_of s full rest : rep s full rest -> Z.land (Z.shiftr (count0 s) 3) 63 = zlen rest.
Proof.
  intros [_ _ _ Hs [k Hk] Hc _]; rewrite Hc, length_app, Hk; change 63 with (Z.ones 6); rewrite Z.land_ones, Z.shiftr_div_pow2 by lia; unfold u32.
  change (2 ^ 32) with (2 ^ 3 * 2 ^ 29); change (8 * Z.of_nat (64 * k + length rest)) with (2 ^ 3 * Z.of_nat (64 * k + length rest)).
  rewrite Z.mul_mod_distr_l, (Z.mul_comm (2 ^ 3)), Z.div_mul by lia; change (2 ^ 29) with (2 ^ 6 * 2 ^ 23).
  rewrite Z.rem_mul_r by lia; rewrite (Z.mul_comm (2 ^ 6)), Z_mod_plus_full, Z.mod_mod by lia.
  symmetry; apply (Z.mod_unique_pos _ _ (Z.of_nat k)); lia.
Qed.

Lemma tail_ok p r b full c0 c1 : tuple r = MD5.hash_from MD5.H0 full -> (exists k, length full = (64 * k)%nat) -> length b = 64%nat ->
  c0 = u32 (8 * zlen (full ++ p)) -> c1 = u32 (8 * zlen (full ++ p) / 2 ^ 32) ->
  exists full' rest', full' ++ rest' = full ++ p /\
    rep (let '(p', r') := full_blocks (length p) p r in mkMd5 c0 c1 r' (if 0 <? zlen p' then copy_into 0 p' b else b)) full' rest'.
Proof.
  intros Hr [k Hk] Hb H0 H1; destruct (full_blocks_ok (length p) p r ltac:(lia)) as (q & p' & r' & -> & Hq & Hp' & [j Hj] & Hr').
  exists (full ++ q), p'; assert ((full ++ q) ++ p' = full ++ p) as E by (by rewrite <- app_assoc, Hq); split; [done|].
  split; cbn [abcd buf count0 count1]; try (by rewrite ?E); [rewrite hash_app, Hr', Hr by (by exists k); done|..].
  - destruct (0 <? zlen p'); [rewrite copy_length by lia; done|done].
  - destruct (Z.ltb_spec 0 (zlen p')); [apply (copy_take 0 p' b); lia|]; assert (p' = []) as -> by (apply nil_length_inv; lia); done.
  - exists (k + j)%nat; rewrite length_app; lia.
Qed.

Lemma append_rep data s full rest : rep s full rest -> exists full' rest', full' ++ rest' = full ++ rest ++ data /\ rep (md5_append data s) full' rest'.
Proof.
  intros R; pose proof R as [R1 R2 R3 R4 R5 R6 R7]; unfold md5_append; rewrite (offset_of _ _ _ R).
  destruct (Z.leb_spec (zlen data) 0) as [Hz|Hz].
  { assert (data = []) as -> by (apply nil_length_inv; lia); exists full, rest; by rewrite app_nil_r. }
  destruct (count_add (zlen (full ++ rest)) (zlen data)) as [C0 C1]; [lia|lia|]; rewrite <- R6, <- R7 in C1; rewrite <- R6 in C0; cbv zeta in C0, C1.
  rewrite C1, C0; clear C0 C1; replace (zlen (full ++ rest) + zlen data) with (zlen (full ++ rest ++ data)) by (rewrite !length_app; lia).
  destruct (Z.eqb_spec (zlen rest) 0) as [Hr0|Hr0]; cbn [negb].
  { assert (rest = []) as -> by (apply nil_length_inv; lia); cbn [app] in *; rewrite app_nil_r in *; by apply tail_ok. }
  destruct (Z.ltb_spec 64 (zlen rest + zlen data)) as [Hc|Hc].
  - rewrite (proj2 (Z.ltb_ge (zlen rest + (64 - zlen rest)) 64)) by lia; set (d1 := ztake (64 - zlen rest) data); set (d2 := zdrop (64 - zlen rest) data).
    assert (length d1 = (64 - length rest)%nat) as Hd1 by (unfold d1, ztake; rewrite length_take; lia).
    assert (copy_into (zlen rest) d1 (buf s) = rest ++ d1) as Eb.
    { pose proof (copy_take (length rest) d1 (buf s) ltac:(lia)) as K; rewrite R3, take_ge in K; [done|rewrite copy_length by lia; lia]. }
    rewrite Eb; destruct (tail_ok d2 (md5_process (rest ++ d1) (abcd s)) (rest ++ d1) (full ++ rest ++ d1)
      (u32 (8 * zlen (full ++ rest ++ data))) (u32 (8 * zlen (full ++ rest ++ data) / 2 ^ 32))) as (full' & rest' & E & Hrep).
    + rewrite process_compress, R1, hash_app, (md5_hash_block _ (rest ++ d1)) by (done || (rewrite length_app; lia)); done.
    + destruct R5 as [k Hk]; exists (S k); rewrite !length_app; lia.
    + rewrite length_app; lia.
    + rewrite <- !app_assoc; unfold d1, d2; by rewrite ztake_zdrop.
    + rewrite <- !app_assoc; unfold d1, d2; by rewrite ztake_zdrop.
    + exists full', rest'; split; [rewrite E, <- !app_assoc; unfold d1, d2; by rewrite ztake_zdrop|done].
  - rewrite (ztake_all (zlen data) data), (zdrop_all (zlen data) data) by lia.
    assert (length (copy_into (zlen rest) data (buf s)) = 64%nat) as Hcl by (rewrite copy_length by lia; done).
    assert (take (length rest + length data) (copy_into (zlen rest) data (buf s)) = rest ++ data) as Eb by (rewrite copy_take by lia; by rewrite R3).
    destruct (Z.ltb_spec (zlen rest + zlen data) 64) as [Hl|Hl].
    + exists full, (rest ++ data); split; [done|]; split; cbn [abcd buf count0 count1]; try done; rewrite length_app; [done|lia].
    + rewrite take_ge in Eb by lia; rewrite Eb; destruct (tail_ok [] (md5_process (rest ++ data) (abcd s)) (rest ++ data) (full ++ rest ++ data)
        (u32 (8 * zlen (full ++ rest ++ data))) (u32 (8 * zlen (full ++ rest ++ data) / 2 ^ 32))) as (full' & rest' & E & Hrep).
      * rewrite process_compress, R1, hash_app, (md5_hash_block _ (rest ++ data)) by (done || (rewrite length_app; lia)); done.
      * destruct R5 as [k Hk]; exists (S k); rewrite !length_app; lia.
      * rewrite length_app; lia.
      * by rewrite app_nil_r.
      * by rewrite app_nil_r.
      * exists full', rest'; split; [by rewrite E, app_nil_r|done].
Qed.

Lemma init_rep : rep md5_init [] [].
Proof. split; try done; [cbn; lia|by exists O]. Qed.

(** ** The end of a message *)

Lemma byte_div x k : 0 <= k -> u8 (Z.shiftr x (8 * k)) = (x / 256 ^ k) mod 256.
Proof. intros Hk; unfold u8; rewrite Z.shiftr_div_pow2, Z.pow_mul_r by lia; reflexivity. Qed.

(** The count as the eight bytes of the length. *)
Lemma count_bytes n : 0 <= n ->
  (fun i => u8 (Z.shiftr (if Z.shiftr i 2 =? 0 then u32 (8 * n) else u32 (8 * n / 2 ^ 32)) (Z.shiftl (Z.land i 3) 3))) <$> seqZ 0 8 =
  MD5.little_endian 8 (8 * n).
Proof.
  intros Hn; unfold MD5.little_endian; set (x := 8 * n); change (seqZ 0 8) with [0; 1; 2; 3; 4; 5; 6; 7]; cbn [fmap list_fmap].
  assert (forall k y, 0 <= k < 4 -> u8 (Z.shiftr (u32 y) (8 * k)) = (y / 256 ^ k) mod 256) as Hlow.
  { intros k y Hk; rewrite <- byte_div by lia; apply Z.bits_inj'; intros i Hi; rewrite !Crc.u8_bits, !Z.shiftr_spec by lia; unfold u32.
    destruct (Z.ltb_spec i 8); [|by rewrite !andb_false_r]; by rewrite Z.mod_pow2_bits_low by lia. }
  assert (forall k, 0 <= k < 4 -> u8 (Z.shiftr (u32 (x / 2 ^ 32)) (8 * k)) = (x / 256 ^ (4 + k)) mod 256) as Hhigh.
  { intros k Hk; rewrite Hlow by lia; rewrite Z.pow_add_r, <- Z.div_div by lia; done. }
  pose proof (Hlow 0 x ltac:(lia)) as L0; pose proof (Hlow 1 x ltac:(lia)) as L1; pose proof (Hlow 2 x ltac:(lia)) as L2; pose proof (Hlow 3 x ltac:(lia)) as L3.
  pose proof (Hhigh 0 ltac:(lia)) as L4; pose proof (Hhigh 1 ltac:(lia)) as L5; pose proof (Hhigh 2 ltac:(lia)) as L6; pose proof (Hhigh 3 ltac:(lia)) as L7.
  by repeat f_equal.
Qed.

Lemma pad_bytes n : 0 <= n -> ztake (Z.land (u32 (55 - Z.shiftr (u32 (8 * n)) 3)) 63 + 1) pad = 0x80 :: replicate (Z.to_nat ((55 - n) mod 64)) 0.
Proof.
  intros Hn; assert (Z.land (u32 (55 - Z.shiftr (u32 (8 * n)) 3)) 63 = (55 - n) mod 64) as ->.
  { change 63 with (Z.ones 6); rewrite Z.land_ones, Z.shiftr_div_pow2 by lia; unfold u32; change (2 ^ 32) with (2 ^ 3 * 2 ^ 29) at 1; change 8 with (2 ^ 3) at 1.
    rewrite Z.mul_mod_distr_l, (Z.mul_comm (2 ^ 3)), Z.div_mul by lia; change (2 ^ 32) with (2 ^ 6 * 2 ^ 26); change 64 with (2 ^ 6).
    rewrite Z.rem_mul_r by lia; rewrite (Z.mul_comm (2 ^ 6)), Z_mod_plus_full, Z.mod_mod by lia.
    rewrite Zminus_mod; change (2 ^ 29) with (2 ^ 6 * 2 ^ 23); rewrite Z.rem_mul_r by lia; rewrite (Z.mul_comm (2 ^ 6)), Z_mod_plus_full, Z.mod_mod by lia.
    by rewrite <- Zminus_mod. }
  pose proof (Z.mod_pos_bound (55 - n) 64 ltac:(lia)) as Hb; unfold ztake, pad; rewrite Z2Nat.inj_add, Nat.add_1_r by lia; cbn [take].
  f_equal; rewrite take_replicate; f_equal; lia.
Qed.

Lemma md5_finish_exact s full rest : rep s full rest -> md5_finish s = MD5.MD5 (full ++ rest).
Proof.
  intros R; unfold md5_finish; set (n := zlen (full ++ rest)); pose proof R as [_ _ _ _ [k Hk] R6 R7].
  rewrite R6, R7, count_bytes, pad_bytes by lia; fold n.
  set (p1 := 128 :: replicate (Z.to_nat ((55 - n) mod 64)) 0); set (p2 := MD5.little_endian 8 (8 * n)).
  destruct (append_rep p1 s full rest R) as (f1 & r1 & E1 & R1); destruct (append_rep p2 _ f1 r1 R1) as (f2 & r2 & E2 & R2).
  assert (f2 ++ r2 = (full ++ rest) ++ MD5.padding n) as E.
  { rewrite E2, app_assoc, E1; unfold MD5.padding; fold p1 p2; by rewrite <- !app_assoc. }
  assert (r2 = []) as ->.
  { pose proof (rep_short _ _ _ R2) as Hs; destruct (rep_full _ _ _ R2) as [j Hj]; apply nil_length_inv.
    assert (length (f2 ++ r2) = (64 * (Z.to_nat (n / 64)%Z + (if decide (n mod 64 <= 55)%Z then 1 else 2)))%nat) as Hl.
    { rewrite E, length_app; unfold MD5.padding, MD5.little_endian; cbn [length]; rewrite !length_app, length_replicate, length_fmap, length_seqZ.
      assert (n = zlen full + zlen rest) as Hn by (unfold n; rewrite length_app; lia).
      pose proof (Z.div_mod n 64 ltac:(lia)); pose proof (Z.mod_pos_bound n 64 ltac:(lia)); assert (0 <= n / 64) by (apply Z.div_pos; lia).
      case_decide; [assert ((55 - n) mod 64 = 55 - n mod 64) as -> by (symmetry; apply (Z.mod_unique_pos _ _ (- (n / 64))); lia)
        |assert ((55 - n) mod 64 = 119 - n mod 64) as -> by (symmetry; apply (Z.mod_unique_pos _ _ (- (n / 64) - 1)); lia)]; lia. }
    rewrite length_app, Hj in Hl; lia. }
  rewrite app_nil_r in E; pose proof (rep_regs _ _ _ R2) as Hh; rewrite E in Hh; unfold MD5.MD5; fold n; rewrite <- Hh.
  set (sf := md5_append p2 _); destruct (abcd sf) as [a b c d]; cbn [tuple ra rb rc rd].
  unfold MD5.little_endian; change (seqZ 0 16) with [0; 1; 2; 3; 4; 5; 6; 7; 8; 9; 10; 11; 12; 13; 14; 15].
  change (seqZ 0 4) with [0; 1; 2; 3]; cbn [fmap list_fmap app]; rewrite <- !byte_div by lia; reflexivity.
Qed.

Lemma appends_rep chunks : forall s full rest, rep s full rest ->
  exists full' rest', full' ++ rest' = full ++ rest ++ mjoin chunks /\ rep (foldl (fun s d => md5_append d s) s chunks) full' rest'.
Proof.
  induction chunks as [|d chunks IH]; intros s full rest R; [exists full, rest; cbn; by rewrite app_nil_r|].
  destruct (append_rep d s full rest R) as (f1 & r1 & E1 & R1); destruct (IH _ f1 r1 R1) as (f2 & r2 & E2 & R2).
  exists f2, r2; split; [rewrite E2, app_assoc, E1, <- !app_assoc; done|done].
Qed.
End Md5Proofs.

(* ------------------------------------------------------------------ *)
(** * The contract *)

Module Md5Theorems.
Import Md5 Md5Proofs.

(** Any sequence of [md5_append]s followed by [md5_finish] computes the MD5 digest of
    RFC 1321 of all the bytes, wherever the message is cut. *)
Theorem md5_exact (chunks : list (list Z)) : md5_finish (foldl (fun s d => md5_append d s) md5_init chunks) = MD5.MD5 (mjoin chunks).
Proof.
  destruct (appends_rep chunks md5_init [] [] init_rep) as (full & rest & E & R); rewrite (md5_finish_exact _ _ _ R), E; done.
Qed.

(** The test suite of the RFC (section A.5). *)
Example md5_test_suite :
  md5_finish md5_init = [0xd4; 0x1d; 0x8c; 0xd9; 0x8f; 0x00; 0xb2; 0x04; 0xe9; 0x80; 0x09; 0x98; 0xec; 0xf8; 0x42; 0x7e] /\
  md5_finish (md5_append (str "message digest") md5_init) = [0xf9; 0x6b; 0x69; 0x7d; 0x7c; 0xb7; 0x93; 0x8d; 0x52; 0x5a; 0x2f; 0x31; 0xaa; 0xf1; 0x61; 0xd0].
Proof. split; vm_compute; reflexivity. Qed.
End Md5Theorems.
