(* ===== verification/Murmur.v ===== *)
(** * MurmurHash3 (thirdparty/hash/murmurhash3.{h,cpp})

    The three functions of the source, with the loop over the blocks and the switch
    over the tail that falls through its cases.  Words are read on a little-endian
    machine.  [len] is the length of the key, an [int].

    [murmur_vectors] are published values; [murmur_x64_reference] replaces the switch of the 128-bit function by one mix of
    the tail padded with zeros; [fmix64_bijective] and [fmix32_bijective] say that the
    finalizers lose nothing. *)
From stdpp Require Import list.
From S2P Require Import Prelude Crc Sha1.

Module Murmur.
Definition rotl32 (x r : Z) : Z := Z.lor (u32 (Z.shiftl x r)) (Z.shiftr x (32 - r)).
Definition rotl64 (x r : Z) : Z := Z.lor (u64 (Z.shiftl x r)) (Z.shiftr x (64 - r)).

(** The bytes at the front, as a little-endian word. *)
Fixpoint le (bs : list Z) : Z := match bs with [] => 0 | b :: bs => b + 256 * le bs end.
Definition getblock32 (p : list Z) (i : nat) : Z := le (take 4 (drop (4 * i) p)).
Definition getblock64 (p : list Z) (i : nat) : Z := le (take 8 (drop (8 * i) p)).

Definition fmix32 (h : Z) : Z :=
  let h := Z.lxor h (Z.shiftr h 16) in
  let h := u32 (h * 0x85ebca6b) in
  let h := Z.lxor h (Z.shiftr h 13) in
  let h := u32 (h * 0xc2b2ae35) in
  Z.lxor h (Z.shiftr h 16).

Definition fmix64 (k : Z) : Z :=
  let k := Z.lxor k (Z.shiftr k 33) in
  let k := u64 (k * 0xff51afd7ed558ccd) in
  let k := Z.lxor k (Z.shiftr k 33) in
  let k := u64 (k * 0xc4ceb9fe1a85ec53) in
  Z.lxor k (Z.shiftr k 33).

(** [k ^= tail[to - 1] << ...; ...; k ^= tail[from] << 0], the cases of a switch that
    fall through, for a tail of [to - from] bytes more than [from]. *)
Definition xor_tail (u : Z -> Z) (tail : list Z) (from to : nat) : Z :=
  foldl (fun k j => Z.lxor k (u (Z.shiftl (nth j tail 0) (8 * Z.of_nat (j - from))))) 0 (rev (seq from (to - from))).

Definition MurmurHash3_x86_32 (data : list Z) (seed : Z) : Z :=
  let len := zlen data in
  let nblocks := (length data / 4)%nat in
  let c1 := 0xcc9e2d51 in
  let c2 := 0x1b873593 in
  let h1 := foldl (fun h1 i =>
    let k1 := getblock32 data i in
    let k1 := u32 (k1 * c1) in
    let k1 := rotl32 k1 15 in
    let k1 := u32 (k1 * c2) in
    let h1 := Z.lxor h1 k1 in
    let h1 := rotl32 h1 13 in
    u32 (h1 * 5 + 0xe6546b64)) seed (seq 0 nblocks) in
  let tail := drop (4 * nblocks) data in
  let r := length tail in
  let h1 :=
    if (0 <? r)%nat then
      let k1 := xor_tail u32 tail 0 r in
      let k1 := u32 (k1 * c1) in let k1 := rotl32 k1 15 in let k1 := u32 (k1 * c2) in Z.lxor h1 k1
    else h1 in
  let h1 := Z.lxor h1 (u32 len) in
  fmix32 h1.

Definition MurmurHash3_x86_128 (data : list Z) (seed : Z) : list Z :=
  let len := zlen data in
  let nblocks := (length data / 16)%nat in
  let c1 := 0x239b961b in let c2 := 0xab0e9789 in let c3 := 0x38b34ae5 in let c4 := 0xa1e38b93 in
  let '(h1, h2, h3, h4) := foldl (fun '(h1, h2, h3, h4) i =>
    let k1 := getblock32 data (i * 4 + 0) in
    let k2 := getblock32 data (i * 4 + 1) in
    let k3 := getblock32 data (i * 4 + 2) in
    let k4 := getblock32 data (i * 4 + 3) in
    let k1 := u32 (rotl32 (u32 (k1 * c1)) 15 * c2) in let h1 := Z.lxor h1 k1 in
    let h1 := rotl32 h1 19 in let h1 := u32 (h1 + h2) in let h1 := u32 (h1 * 5 + 0x561ccd1b) in
    let k2 := u32 (rotl32 (u32 (k2 * c2)) 16 * c3) in let h2 := Z.lxor h2 k2 in
    let h2 := rotl32 h2 17 in let h2 := u32 (h2 + h3) in let h2 := u32 (h2 * 5 + 0x0bcaa747) in
    let k3 := u32 (rotl32 (u32 (k3 * c3)) 17 * c4) in let h3 := Z.lxor h3 k3 in
    let h3 := rotl32 h3 15 in let h3 := u32 (h3 + h4) in let h3 := u32 (h3 * 5 + 0x96cd1c35) in
    let k4 := u32 (rotl32 (u32 (k4 * c4)) 18 * c1) in let h4 := Z.lxor h4 k4 in
    let h4 := rotl32 h4 13 in let h4 := u32 (h4 + h1) in let h4 := u32 (h4 * 5 + 0x32ac3b17) in
    (h1, h2, h3, h4)) (seed, seed, seed, seed) (seq 0 nblocks) in
  let tail := drop (16 * nblocks) data in
  let r := length tail in
  let h4 := if (12 <? r)%nat then Z.lxor h4 (u32 (rotl32 (u32 (xor_tail u32 tail 12 r * c4)) 18 * c1)) else h4 in
  let h3 := if (8 <? r)%nat then Z.lxor h3 (u32 (rotl32 (u32 (xor_tail u32 tail 8 (Nat.min r 12) * c3)) 17 * c4)) else h3 in
  let h2 := if (4 <? r)%nat then Z.lxor h2 (u32 (rotl32 (u32 (xor_tail u32 tail 4 (Nat.min r 8) * c2)) 16 * c3)) else h2 in
  let h1 := if (0 <? r)%nat then Z.lxor h1 (u32 (rotl32 (u32 (xor_tail u32 tail 0 (Nat.min r 4) * c1)) 15 * c2)) else h1 in
  let h1 := Z.lxor h1 (u32 len) in let h2 := Z.lxor h2 (u32 len) in
  let h3 := Z.lxor h3 (u32 len) in let h4 := Z.lxor h4 (u32 len) in
  let h1 := u32 (h1 + h2) in let h1 := u32 (h1 + h3) in let h1 := u32 (h1 + h4) in
  let h2 := u32 (h2 + h1) in let h3 := u32 (h3 + h1) in let h4 := u32 (h4 + h1) in
  let h1 := fmix32 h1 in let h2 := fmix32 h2 in let h3 := fmix32 h3 in let h4 := fmix32 h4 in
  let h1 := u32 (h1 + h2) in let h1 := u32 (h1 + h3) in let h1 := u32 (h1 + h4) in
  let h2 := u32 (h2 + h1) in let h3 := u32 (h3 + h1) in let h4 := u32 (h4 + h1) in
  [h1; h2; h3; h4].

Definition c1 : Z := 0x87c37b91114253d5.
Definition c2 : Z := 0x4cf5ad432745937f.

(** The body of the loop of [MurmurHash3_x64_128]. *)
Definition body64 (data : list Z) (h : Z * Z) (i : nat) : Z * Z :=
  let '(h1, h2) := h in
  let k1 := getblock64 data (i * 2 + 0) in
  let k2 := getblock64 data (i * 2 + 1) in
  let k1 := u64 (k1 * c1) in let k1 := rotl64 k1 31 in let k1 := u64 (k1 * c2) in let h1 := Z.lxor h1 k1 in
  let h1 := rotl64 h1 27 in let h1 := u64 (h1 + h2) in let h1 := u64 (h1 * 5 + 0x52dce729) in
  let k2 := u64 (k2 * c2) in let k2 := rotl64 k2 33 in let k2 := u64 (k2 * c1) in let h2 := Z.lxor h2 k2 in
  let h2 := rotl64 h2 31 in let h2 := u64 (h2 + h1) in let h2 := u64 (h2 * 5 + 0x38495ab5) in
  (h1, h2).

Definition finish64 (len h1 h2 : Z) : Z * Z :=
  let h1 := Z.lxor h1 (u64 len) in let h2 := Z.lxor h2 (u64 len) in
  let h1 := u64 (h1 + h2) in
  let h2 := u64 (h2 + h1) in
  let h1 := fmix64 h1 in
  let h2 := fmix64 h2 in
  let h1 := u64 (h1 + h2) in
  let h2 := u64 (h2 + h1) in
  (h1, h2).

Definition MurmurHash3_x64_128 (data : list Z) (seed : Z) : Z * Z :=
  let len := zlen data in
  let nblocks := (length data / 16)%nat in
  let '(h1, h2) := foldl (body64 data) (seed, seed) (seq 0 nblocks) in
  let tail := drop (16 * nblocks) data in
  let r := length tail in
  let h2 :=
    if (8 <? r)%nat then
      let k2 := xor_tail u64 tail 8 r in
      let k2 := u64 (k2 * c2) in let k2 := rotl64 k2 33 in let k2 := u64 (k2 * c1) in Z.lxor h2 k2
    else h2 in
  let h1 :=
    if (0 <? r)%nat then
      let k1 := xor_tail u64 tail 0 (Nat.min r 8) in
      let k1 := u64 (k1 * c1) in let k1 := rotl64 k1 31 in let k1 := u64 (k1 * c2) in Z.lxor h1 k1
    else h1 in
  finish64 len h1 h2.

(** Published values. *)
Example murmur_vectors :
  MurmurHash3_x86_32 (str "foo") 0 = u32 (-156908512) /\
  MurmurHash3_x86_32 (str "hello, world") 0 = 0x149bbb7f /\
  MurmurHash3_x64_128 (str "foo") 0 = (u64 (-2129773440516405919), 9128664383759220103) /\
  MurmurHash3_x64_128 (str "hello") 0 = (0xcbd8a7b341bd9b02, 0x5b1e906a48ae1d19).
Proof. split_and!; vm_compute; reflexivity. Qed.

(* ------------------------------------------------------------------ *)
(** * The finalizers lose nothing *)

Definition xorshift (n k : Z) : Z := Z.lxor k (Z.shiftr k n).

Lemma xorshift_range w n k : 0 <= n <= w -> 0 <= k < 2 ^ w -> 0 <= xorshift n k < 2 ^ w.
Proof.
  intros Hn Hk; apply Crc.lxor_range; [lia|done|]; destruct (Crc.shiftr_range k w n Hn Hk); split; [done|].
  assert (2 ^ (w - n) <= 2 ^ w) by (apply Z.pow_le_mono_r; lia); lia.
Qed.

(** A shift by half the width or more is its own inverse. *)
Lemma xorshift_involutive w n k : 0 <= n -> w <= 2 * n -> 0 <= k < 2 ^ w -> xorshift n (xorshift n k) = k.
Proof.
  intros Hn Hw Hk; unfold xorshift; rewrite Z.shiftr_lxor, Z.shiftr_shiftr by lia.
  assert (Z.shiftr k (n + n) = 0) as ->.
  { rewrite Z.shiftr_div_pow2 by lia; apply Z.div_small; assert (2 ^ w <= 2 ^ (n + n)) by (apply Z.pow_le_mono_r; lia); lia. }
  by rewrite Z.lxor_0_r, Z.lxor_assoc, Z.lxor_nilpotent, Z.lxor_0_r.
Qed.

(** A shift by a third takes two to undo. *)
Definition unxorshift (n k : Z) : Z := Z.lxor (Z.lxor k (Z.shiftr k n)) (Z.shiftr k (2 * n)).

Lemma xorshift_third w n k : 0 <= n -> w <= 3 * n -> 0 <= k < 2 ^ w ->
  unxorshift n (xorshift n k) = k /\ xorshift n (unxorshift n k) = k.
Proof.
  intros Hn Hw Hk; assert (Z.shiftr k (n + 2 * n) = 0 /\ Z.shiftr k (2 * n + n) = 0) as [H1 H2].
  { rewrite !Z.shiftr_div_pow2 by lia; assert (2 ^ w <= 2 ^ (n + 2 * n)) by (apply Z.pow_le_mono_r; lia).
    replace (2 * n + n) with (n + 2 * n) by lia; rewrite Z.div_small by lia; done. }
  unfold unxorshift, xorshift; rewrite !Z.shiftr_lxor, !Z.shiftr_shiftr, ?H1, ?H2 by lia; replace (n + n) with (2 * n) by lia.
  split; apply Z.bits_inj'; intros i Hi; rewrite !Z.lxor_spec, ?Z.bits_0;
    destruct (Z.testbit k i), (Z.testbit (Z.shiftr k n) i), (Z.testbit (Z.shiftr k (2 * n)) i); done.
Qed.

Lemma mul_inverse w a b k : 0 <= w -> (a * b) mod 2 ^ w = 1 mod 2 ^ w -> 0 <= k < 2 ^ w -> (((k * a) mod 2 ^ w) * b) mod 2 ^ w = k.
Proof.
  intros Hw Hab Hk; rewrite Z.mul_mod_idemp_l, <- Z.mul_assoc by lia; rewrite <- Z.mul_mod_idemp_r, Hab, Z.mul_mod_idemp_r, Z.mul_1_r by lia.
  by apply Z.mod_small.
Qed.

Definition unfmix64 (k : Z) : Z :=
  xorshift 33 (u64 (xorshift 33 (u64 (xorshift 33 k * 0x9cb4b2f8129337db)) * 0x4f74430c22a54005)).

Definition unfmix32 (h : Z) : Z :=
  xorshift 16 (u32 (unxorshift 13 (u32 (xorshift 16 h * 0x7ed1b41d)) * 0xa5cb9243)).

(** [fmix64] is a bijection of the 64-bit words. *)
Theorem fmix64_bijective (k : Z) : 0 <= k < 2 ^ 64 ->
  0 <= fmix64 k < 2 ^ 64 /\ unfmix64 (fmix64 k) = k /\ fmix64 (unfmix64 k) = k.
Proof.
  intros Hk; assert (forall x, 0 <= u64 x < 2 ^ 64) as Hu by (intros; apply u64_range).
  assert (forall x, 0 <= x < 2 ^ 64 -> 0 <= xorshift 33 x < 2 ^ 64) as Hx by (intros; apply xorshift_range; lia || done).
  assert (forall x, 0 <= x < 2 ^ 64 -> xorshift 33 (xorshift 33 x) = x) as Hi by (intros; apply (xorshift_involutive 64); lia || done).
  assert (forall x, fmix64 x = xorshift 33 (u64 (xorshift 33 (u64 (xorshift 33 x * 0xff51afd7ed558ccd)) * 0xc4ceb9fe1a85ec53))) as E by reflexivity.
  rewrite !E; split; [by apply Hx|]; split.
  - unfold unfmix64; rewrite Hi by done; unfold u64 at 2 3; rewrite mul_inverse by (reflexivity || lia || by apply Hx).
    rewrite Hi by done; unfold u64; rewrite mul_inverse by (reflexivity || lia || by apply Hx); by apply Hi.
  - unfold unfmix64; rewrite Hi by done; unfold u64 at 2 3; rewrite mul_inverse by (reflexivity || lia || by apply Hx).
    rewrite Hi by done; unfold u64; rewrite mul_inverse by (reflexivity || lia || by apply Hx); by apply Hi.
Qed.

(** [fmix32] is a bijection of the 32-bit words. *)
Theorem fmix32_bijective (h : Z) : 0 <= h < 2 ^ 32 ->
  0 <= fmix32 h < 2 ^ 32 /\ unfmix32 (fmix32 h) = h /\ fmix32 (unfmix32 h) = h.
Proof.
  intros Hk; assert (forall x, 0 <= u32 x < 2 ^ 32) as Hu by (intros; apply u32_range).
  assert (forall n x, 0 <= n <= 32 -> 0 <= x < 2 ^ 32 -> 0 <= xorshift n x < 2 ^ 32) as Hx by (intros; by apply xorshift_range).
  assert (forall x, 0 <= x < 2 ^ 32 -> 0 <= unxorshift 13 x < 2 ^ 32) as Hux.
  { intros x Hxr; unfold unxorshift; apply Crc.lxor_range; [lia|by apply (Hx 13)|]; destruct (Crc.shiftr_range x 32 (2 * 13) ltac:(lia) Hxr); lia. }
  assert (forall x, 0 <= x < 2 ^ 32 -> xorshift 16 (xorshift 16 x) = x) as Hi by (intros; apply (xorshift_involutive 32); lia || done).
  assert (forall x, 0 <= x < 2 ^ 32 -> unxorshift 13 (xorshift 13 x) = x /\ xorshift 13 (unxorshift 13 x) = x) as Ht by (intros; apply (xorshift_third 32); lia || done).
  assert (forall x, fmix32 x = xorshift 16 (u32 (xorshift 13 (u32 (xorshift 16 x * 0x85ebca6b)) * 0xc2b2ae35))) as E by reflexivity.
  rewrite !E; split; [by apply Hx|]; split.
  - unfold unfmix32; rewrite Hi by done; unfold u32 at 2 3; rewrite mul_inverse by (reflexivity || lia || (apply Hx; [lia|done])).
    rewrite (proj1 (Ht _ (Hu _))); unfold u32; rewrite mul_inverse by (reflexivity || lia || (apply Hx; [lia|done])); by apply Hi.
  - unfold unfmix32; rewrite Hi by done; unfold u32 at 2 3; rewrite mul_inverse by (reflexivity || lia || (apply Hux; done)).
    rewrite (proj2 (Ht _ (Hu _))); unfold u32; rewrite mul_inverse by (reflexivity || lia || (apply Hx; [lia|done])); by apply Hi.
Qed.

(* ------------------------------------------------------------------ *)
(** * A reference for the 128-bit function *)

Definition mix1 (k : Z) : Z := u64 (rotl64 (u64 (k * c1)) 31 * c2).
Definition mix2 (k : Z) : Z := u64 (rotl64 (u64 (k * c2)) 33 * c1).

(** The key as pairs of words, in order. *)
Fixpoint pairs (n : nat) (data : list Z) : list (Z * Z) :=
  match n with O => [] | S n => (le (take 8 data), le (take 8 (drop 8 data))) :: pairs n (drop 16 data) end.

Definition absorb (h k : Z * Z) : Z * Z :=
  let h1 := u64 (u64 (rotl64 (Z.lxor h.1 (mix1 k.1)) 27 + h.2) * 5 + 0x52dce729) in
  let h2 := u64 (u64 (rotl64 (Z.lxor h.2 (mix2 k.2)) 31 + h1) * 5 + 0x38495ab5) in
  (h1, h2).

(** The blocks are absorbed; the rest, padded with zeros, is mixed in; the end. *)
Definition murmur_reference (data : list Z) (seed : Z) : Z * Z :=
  let n := (length data / 16)%nat in
  let h := foldl absorb (seed, seed) (pairs n data) in
  let rest := drop (16 * n) data ++ replicate 16 0 in
  finish64 (zlen data) (Z.lxor h.1 (mix1 (le (take 8 rest)))) (Z.lxor h.2 (mix2 (le (take 8 (drop 8 rest))))).

Lemma body_absorb n : forall data h, foldl (body64 data) h (seq 0 n) = foldl absorb h (pairs n data).
Proof.
  assert (forall data h i, body64 data h (S i) = body64 (drop 16 data) h i) as Hs.
  { intros data [h1 h2] i; unfold body64, getblock64; rewrite !drop_drop; do 2 f_equal; repeat f_equal; lia. }
  assert (forall data l h, foldl (body64 data) h (S <$> l) = foldl (body64 (drop 16 data)) h l) as Hl.
  { intros data l; induction l as [|i l IH]; intros h; [done|]; cbn [fmap list_fmap foldl]; by rewrite IH, Hs. }
  induction n as [|n IH]; intros data h; [done|]; cbn [seq foldl pairs]; rewrite <- fmap_S_seq, Hl, IH; f_equal.
  destruct h as [h1 h2]; unfold body64, absorb, getblock64, mix1, mix2; cbn [fst snd Nat.mul Nat.add]; by rewrite drop_0.
Qed.

Lemma le_range bs : Forall Crc.byte bs -> 0 <= le bs < 256 ^ zlen bs.
Proof.
  induction 1 as [|b bs Hb Hbs IH]; [cbn; lia|]; cbn [le length]; unfold Crc.byte in Hb.
  rewrite Nat2Z.inj_succ, Z.pow_succ_r by lia; nia.
Qed.

Lemma le_snoc bs b : le (bs ++ [b]) = le bs + 256 ^ zlen bs * b.
Proof.
  induction bs as [|c bs IH]; [cbn; lia|]; cbn [le app length]; rewrite IH, Nat2Z.inj_succ, Z.pow_succ_r by lia; ring.
Qed.

Lemma le_zeros bs n : le (bs ++ replicate n 0) = le bs.
Proof. induction bs as [|b bs IH]; cbn; [induction n as [|n IHn]; cbn; [done|lia]|lia]. Qed.

Lemma xor_foldl (g : nat -> Z) l : forall k, foldl (fun k j => Z.lxor k (g j)) k l = Z.lxor k (foldl (fun k j => Z.lxor k (g j)) 0 l).
Proof.
  induction l as [|j l IH]; intros k; cbn [foldl]; [by rewrite Z.lxor_0_r|]; by rewrite IH, (IH (Z.lxor 0 (g j))), Z.lxor_0_l, Z.lxor_assoc.
Qed.

(** The cases of the switch read a word. *)
Lemma xor_tail_le tail from n : Forall Crc.byte tail -> (from + n <= length tail)%nat -> (n <= 8)%nat ->
  xor_tail u64 tail from (from + n) = le (take n (drop from tail)).
Proof.
  intros Hb; unfold xor_tail; replace (from + n - from)%nat with n by lia; induction n as [|n IH]; intros Hl Hn; [done|].
  rewrite seq_S, rev_app_distr; cbn [rev app foldl]; rewrite xor_foldl, IH by lia; clear IH.
  destruct (lookup_lt_is_Some_2 tail (from + n)) as [b Hx]; [lia|].
  rewrite (take_S_r _ n b) by (by rewrite lookup_drop); rewrite le_snoc, nth_lookup, Hx; cbn [from_option]; unfold id.
  assert (length (take n (drop from tail)) = n) as Ht by (rewrite length_take, length_drop; lia); rewrite Ht.
  assert (Crc.byte b) as Hbb by (rewrite Forall_lookup in Hb; by eapply Hb).
  assert (0 <= le (take n (drop from tail)) < 2 ^ (8 * Z.of_nat n)) as Hr.
  { rewrite Z.pow_mul_r by lia; rewrite <- Ht at 3; apply le_range; by apply Forall_take, Forall_drop. }
  replace (from + n - from)%nat with n by lia; rewrite Z.lxor_0_l.
  assert (u64 (Z.shiftl b (8 * Z.of_nat n)) = Z.shiftl b (8 * Z.of_nat n)) as ->.
  { apply u64_id; rewrite Z.shiftl_mul_pow2 by lia; unfold Crc.byte in Hbb.
    assert (2 ^ (8 * Z.of_nat n) * 256 <= 2 ^ 64) by (change 256 with (2 ^ 8); rewrite <- Z.pow_add_r by lia; apply Z.pow_le_mono_r; lia); nia. }
  rewrite Sha1Proofs.lxor_add by lia; rewrite (Z.pow_mul_r 2 8) by lia; change (2 ^ 8) with 256; lia.
Qed.

(** [MurmurHash3_x64_128] is the reference: the fall-through cases of its switch mix the
    tail padded with zeros, for every length of it. *)
Theorem murmur_x64_reference (data : list Z) (seed : Z) : Forall Crc.byte data ->
  MurmurHash3_x64_128 data seed = murmur_reference data seed.
Proof.
  intros Hb; unfold MurmurHash3_x64_128, murmur_reference; rewrite body_absorb; set (n := (length data / 16)%nat).
  destruct (foldl absorb (seed, seed) (pairs n data)) as [h1 h2]; cbn [fst snd]; set (tail := drop (16 * n) data).
  assert (Forall Crc.byte tail) as Hbt by (by apply Forall_drop).
  assert (length tail < 16)%nat as Hr.
  { unfold tail, n; rewrite length_drop; pose proof (Nat.div_mod_eq (length data) 16); pose proof (Nat.mod_upper_bound (length data) 16); lia. }
  assert (forall k, k = 0 -> u64 (rotl64 (u64 (k * c2)) 33 * c1) = 0 /\ u64 (rotl64 (u64 (k * c1)) 31 * c2) = 0) as H0 by (intros k ->; by vm_compute).
  assert (Z.lxor h2 (mix2 (le (take 8 (drop 8 (tail ++ replicate 16 0))))) =
    if (8 <? length tail)%nat then Z.lxor h2 (mix2 (xor_tail u64 tail 8 (length tail))) else h2) as ->.
  { destruct (Nat.ltb_spec 8 (length tail)) as [Hl|Hl].
    - replace (length tail) with (8 + (length tail - 8))%nat at 1 by lia; rewrite xor_tail_le by (done || lia).
      rewrite drop_app_le by lia; rewrite (take_ge (drop 8 tail) (length tail - 8)) by (rewrite length_drop; lia).
      rewrite take_app, (take_ge (drop 8 tail) 8), take_replicate by (rewrite length_drop; lia).
      by rewrite le_zeros.
    - rewrite drop_app_ge, drop_replicate, take_replicate by lia; rewrite <- (app_nil_l (replicate _ 0)), le_zeros; unfold mix2; cbn [le].
      by rewrite (proj1 (H0 0 eq_refl)), Z.lxor_0_r. }
  assert (Z.lxor h1 (mix1 (le (take 8 (tail ++ replicate 16 0)))) =
    if (0 <? length tail)%nat then Z.lxor h1 (mix1 (xor_tail u64 tail 0 (Nat.min (length tail) 8))) else h1) as ->; [|done].
  destruct (Nat.ltb_spec 0 (length tail)) as [Hl|Hl].
  - pose proof (xor_tail_le tail 0 (Nat.min (length tail) 8) Hbt ltac:(lia) ltac:(lia)) as E; cbn [Nat.add] in E; rewrite E, drop_0, take_app, take_replicate.
    destruct (decide (8 <= length tail)%nat); [|rewrite !(take_ge tail), le_zeros by lia; done].
    rewrite (Nat.min_r (length tail) 8) by lia; replace (Nat.min (8 - length tail) 16) with O by lia; by rewrite app_nil_r.
  - assert (tail = []) as -> by (apply nil_length_inv; lia); cbn [app]; rewrite take_replicate, <- (app_nil_l (replicate _ 0)), le_zeros; unfold mix1; cbn [le].
    by rewrite (proj2 (H0 0 eq_refl)), Z.lxor_0_r.
Qed.

Lemma murmur_x64_reference_witness : MurmurHash3_x64_128 (str "hello, world, again") 7 = murmur_reference (str "hello, world, again") 7.
Proof. apply (murmur_x64_reference (str "hello, world, again") 7); repeat constructor; cbn; lia. Defined.

Lemma fmix64_bijective_witness : unfmix64 (fmix64 123456789) = 123456789.
Proof. apply (fmix64_bijective 123456789); lia. Defined.

Lemma fmix32_bijective_witness : unfmix32 (fmix32 123456789) = 123456789.
Proof. apply (fmix32_bijective 123456789); lia. Defined.
End Murmur.
