(* ===== verification/Sketches.v ===== *)
(** * Sketches (components/bloomfilter/bloom_filter.{h,cc}, components/count_min_sketch/count_min_sketch.{h,cc})

    The Bloom filter and the count-min sketch over [MurmurHash3_x64_128] of Murmur.v.
    The sizes, which the constructors compute in floating point from an error rate,
    are parameters: the number [k] of hashes and the table of the filter, the width and
    the depth of the sketch.  A table of no bytes and a width of zero divide by zero;
    the theorems are about the others.

    [bloom_no_false_negative] and [bloom_test_and_set] are the contract of the filter,
    [sketch_bounds] that of the sketch as long as its counters of eight bits do not
    wrap; [sketch_wraps] and [bloom_fresh_garbage] are what the code does not do. *)
From stdpp Require Import list.
From S2P Require Import Prelude Crc Murmur.
Import Murmur.

(** [for (i = 0; i < n;) { ...; i += 2; }]: the values of [i]. *)
Definition rounds (n : nat) : list nat := (fun j => (2 * j)%nat) <$> seq 0 ((n + 1) / 2).

(* ------------------------------------------------------------------ *)
(** * BloomFilter *)

Module BloomFilter.
Record BloomFilter := mkBloom { table_ : list Z; k : nat }.

Definition table_size_ (f : BloomFilter) : Z := zlen (table_ f).

Definition index (t : Z) (f : BloomFilter) : nat := Z.to_nat (Z.shiftr t 3 mod table_size_ f).

Definition SetBit (t : Z) (f : BloomFilter) : BloomFilter :=
  let n_bit := Z.land t 7 in
  let old := nth (index t f) (table_ f) 0 in
  mkBloom (<[index t f := Z.lor old (Z.shiftl 1 n_bit)]> (table_ f)) (k f).

Definition TestBit (t : Z) (f : BloomFilter) : bool :=
  let n_bit := Z.land t 7 in negb (Z.land (nth (index t f) (table_ f) 0) (Z.shiftl 1 n_bit) =? 0).

Definition TestAndSetBit (t : Z) (f : BloomFilter) : bool * BloomFilter := (TestBit t f, SetBit t f).

(** The hash of round [i]. *)
Definition result (data : list Z) (i : nat) : Z * Z :=
  let i := Z.of_nat i in MurmurHash3_x64_128 data (u32 (Z.lor (Z.shiftl i 0x1f) (i * 0x55))).

Definition Set_ (data : list Z) (f : BloomFilter) : BloomFilter :=
  foldl (fun f i => let r := result data i in SetBit r.2 (SetBit r.1 f)) f (rounds (k f)).

Definition IsSet (data : list Z) (f : BloomFilter) : bool :=
  forallb (fun i => let r := result data i in if negb (TestBit r.1 f) then false else TestBit r.2 f) (rounds (k f)).

Definition TestAndSet (data : list Z) (f : BloomFilter) : bool * BloomFilter :=
  foldl (fun '(hit, f) i =>
    let r := result data i in
    let '(b, f) := TestAndSetBit r.1 f in let hit := hit && b in
    let '(b, f) := TestAndSetBit r.2 f in let hit := hit && b in
    (hit, f)) (true, f) (rounds (k f)).

(** ** Bits *)

Lemma TestBit_testbit t f : TestBit t f = Z.testbit (nth (index t f) (table_ f) 0) (Z.land t 7).
Proof.
  unfold TestBit; set (n := Z.land t 7); assert (0 <= n) by (apply Z.land_nonneg; lia); set (x := nth _ _ _).
  rewrite Z.shiftl_1_l; destruct (Z.testbit x n) eqn:E.
  - destruct (Z.eqb_spec (Z.land x (2 ^ n)) 0) as [H0|]; [|done].
    assert (Z.testbit (Z.land x (2 ^ n)) n = true) as Ht by (rewrite Z.land_spec, E, Z.pow2_bits_true by lia; done); by rewrite H0, Z.bits_0 in Ht.
  - assert (Z.land x (2 ^ n) = 0) as ->; [|done]; apply Z.bits_inj'; intros i Hi; rewrite Z.land_spec, Z.bits_0.
    destruct (Z.eq_dec i n) as [->|]; [by rewrite E|]; rewrite Z.pow2_bits_false by lia; by rewrite andb_false_r.
Qed.

(** Setting a bit sets that bit, and no other. *)
Lemma TestBit_SetBit t t' f : (0 < length (table_ f))%nat ->
  TestBit t' (SetBit t f) = TestBit t' f || (bool_decide (index t' f = index t f) && (Z.land t' 7 =? Z.land t 7)).
Proof.
  intros Hs; assert (index t f < length (table_ f))%nat as Hi.
  { unfold index, table_size_; pose proof (Z.mod_pos_bound (Z.shiftr t 3) (zlen (table_ f)) ltac:(lia)); lia. }
  rewrite !TestBit_testbit; assert (index t' (SetBit t f) = index t' f) as -> by (unfold index, table_size_; cbn; by rewrite length_insert).
  cbn [table_ SetBit]; assert (0 <= Z.land t' 7 /\ 0 <= Z.land t 7) as [H1 H2] by (split; apply Z.land_nonneg; lia).
  rewrite !nth_lookup; case_bool_decide as Hd.
  - rewrite Hd, list_lookup_insert_eq by done; cbn [from_option andb]; unfold id; rewrite Z.lor_spec, Z.shiftl_1_l, Z.pow2_bits_eqb by lia.
    by rewrite (Z.eqb_sym (Z.land t 7)).
  - rewrite list_lookup_insert_ne by done; by rewrite orb_false_r.
Qed.

Lemma SetBit_size t f : length (table_ (SetBit t f)) = length (table_ f) /\ k (SetBit t f) = k f.
Proof. cbn; by rewrite length_insert. Qed.

(** The bits of a key. *)
Definition bits (data : list Z) (n : nat) : list Z := mjoin ((fun i => let r := result data i in [r.1; r.2]) <$> rounds n).

Lemma Set_bits data f : Set_ data f = foldl (fun f t => SetBit t f) f (bits data (k f)).
Proof.
  unfold Set_, bits; generalize f at 1 3; induction (rounds (k f)) as [|i rs IH]; intros g; [done|]; cbn [foldl fmap list_fmap].
  rewrite IH; reflexivity.
Qed.

Lemma IsSet_bits data f : IsSet data f = forallb (fun t => TestBit t f) (bits data (k f)).
Proof.
  unfold IsSet, bits; induction (rounds (k f)) as [|i rs IH]; [done|]; cbn [forallb fmap list_fmap]; rewrite IH; cbn.
  by destruct (TestBit (result data i).1 f), (TestBit (result data i).2 f).
Qed.

Lemma TestAndSet_bits data f : TestAndSet data f =
  foldl (fun '(hit, f) t => (hit && TestBit t f, SetBit t f)) (true, f) (bits data (k f)).
Proof.
  unfold TestAndSet, bits; generalize (true, f); induction (rounds (k f)) as [|i rs IH]; intros [hit g]; [done|]; cbn [foldl fmap list_fmap].
  rewrite IH; reflexivity.
Qed.

Lemma SetBits_size ts f : length (table_ (foldl (fun f t => SetBit t f) f ts)) = length (table_ f) /\ k (foldl (fun f t => SetBit t f) f ts) = k f.
Proof.
  revert f; induction ts as [|t ts IH]; intros f; [done|]; cbn [foldl]; destruct (IH (SetBit t f)) as [-> ->]; apply SetBit_size.
Qed.

Lemma SetBits_mono ts t f : (0 < length (table_ f))%nat -> TestBit t f = true -> TestBit t (foldl (fun f t => SetBit t f) f ts) = true.
Proof.
  revert f; induction ts as [|t' ts IH]; intros f Hs Ht; [done|]; cbn [foldl]; apply IH; [by rewrite (proj1 (SetBit_size t' f))|].
  by rewrite TestBit_SetBit, Ht.
Qed.

Lemma SetBits_set ts t f : (0 < length (table_ f))%nat -> t ∈ ts -> TestBit t (foldl (fun f t => SetBit t f) f ts) = true.
Proof.
  revert f; induction ts as [|t' ts IH]; intros f Hs Ht; [by apply not_elem_of_nil in Ht|]; cbn [foldl].
  assert (0 < length (table_ (SetBit t' f)))%nat by (by rewrite (proj1 (SetBit_size t' f))).
  apply elem_of_cons in Ht as [->|Ht]; [|by apply IH]; apply SetBits_mono; [done|].
  rewrite TestBit_SetBit by done; rewrite bool_decide_eq_true_2, Z.eqb_refl by done; apply orb_true_r.
Qed.

(** ** The contract *)

(** No false negative: whatever the table held at first, and whatever else is set,
    before or after, a key that was set is reported as set. *)
Theorem bloom_no_false_negative (f : BloomFilter) (ds : list (list Z)) (data : list Z) :
  (0 < length (table_ f))%nat -> data ∈ ds -> IsSet data (foldl (fun f d => Set_ d f) f ds) = true.
Proof.
  assert (forall ds f, length (table_ (foldl (fun f d => Set_ d f) f ds)) = length (table_ f) /\ k (foldl (fun f d => Set_ d f) f ds) = k f) as Hsz.
  { intros ds0; induction ds0 as [|d ds0 IH]; intros g; [done|]; cbn [foldl]; destruct (IH (Set_ d g)) as [-> ->]; rewrite Set_bits; apply SetBits_size. }
  assert (forall ds f t, (0 < length (table_ f))%nat -> TestBit t f = true -> TestBit t (foldl (fun f d => Set_ d f) f ds) = true) as Hmono.
  { intros ds0; induction ds0 as [|d ds0 IH]; intros g t Hs Ht; [done|]; cbn [foldl]; apply IH; rewrite Set_bits; [by rewrite (proj1 (SetBits_size _ g))|].
    by apply SetBits_mono. }
  intros Hs Hin; rewrite IsSet_bits, (proj2 (Hsz ds f)), forallb_forall; intros t Ht; apply list_elem_of_In in Ht.
  revert f Hs Ht; induction ds as [|d ds IH]; intros f Hs Ht; [by apply not_elem_of_nil in Hin|]; cbn [foldl].
  assert (length (table_ (Set_ d f)) = length (table_ f) /\ k (Set_ d f) = k f) as [H1 H2] by (rewrite Set_bits; apply SetBits_size).
  apply elem_of_cons in Hin as [->|Hin]; [|apply IH; [done|by rewrite H1|by rewrite H2]].
  apply Hmono; [by rewrite H1|]; rewrite Set_bits; by apply SetBits_set.
Qed.

(** [TestAndSet] is the test of [IsSet] followed by [Set], although it tests its bits
    one by one, each after the bits before it were set. *)
Theorem bloom_test_and_set (data : list Z) (f : BloomFilter) :
  (0 < length (table_ f))%nat -> TestAndSet data f = (IsSet data f, Set_ data f).
Proof.
  intros Hs; rewrite TestAndSet_bits, IsSet_bits, Set_bits; generalize (bits data (k f)) as ts; intros ts.
  assert (forall ts g hit, (0 < length (table_ g))%nat ->
    foldl (fun '(hit, f) t => (hit && TestBit t f, SetBit t f)) (hit, g) ts =
    (hit && forallb (fun t => TestBit t g) ts, foldl (fun f t => SetBit t f) g ts)) as K; [|by rewrite K].
  clear; induction ts as [|t ts IH]; intros g hit Hs; cbn [foldl forallb]; [by rewrite andb_true_r|].
  rewrite IH by (by rewrite (proj1 (SetBit_size t g))); f_equal; rewrite <- andb_assoc; f_equal.
  destruct (TestBit t g) eqn:Et; cbn [andb]; [|done]; clear IH; induction ts as [|t' ts IH]; [done|]; cbn [forallb]; rewrite IH; f_equal.
  rewrite TestBit_SetBit by done; case_bool_decide as Hd; [|by rewrite orb_false_r]; destruct (Z.eqb_spec (Z.land t' 7) (Z.land t 7)) as [He|]; [|by rewrite orb_false_r].
  assert (TestBit t' g = TestBit t g) as -> by (unfold TestBit; by rewrite Hd, He); by rewrite Et.
Qed.

(** A fresh table of zeros holds nothing. *)
Lemma bloom_zero_table data n kk : (0 < kk)%nat -> (0 < n)%nat -> IsSet data (mkBloom (replicate n 0) kk) = false.
Proof.
  intros Hk Hn; unfold IsSet; cbn [k]; assert (exists rs, rounds kk = O :: rs) as [rs ->].
  { unfold rounds; destruct ((kk + 1) / 2)%nat as [|m] eqn:E; [|by eexists]; apply Nat.div_small_iff in E; lia. }
  cbn [forallb]; rewrite TestBit_testbit; cbn [table_].
  replace (nth _ (replicate n 0) 0) with 0 by (symmetry; apply nth_repeat || (rewrite nth_lookup; destruct (_ !! _) eqn:E; [by apply lookup_replicate_1 in E as [-> _]|done])).
  by rewrite Z.bits_0.
Qed.

(** But the constructor does not clear the memory it gets: a filter in which nothing
    was ever set can report any key. *)
Theorem bloom_fresh_garbage : exists garbage, length garbage = 16%nat /\ IsSet (str "key") (mkBloom garbage 4) = true.
Proof. exists (replicate 16 255); split; [done|vm_compute; reflexivity]. Qed.

Lemma bloom_no_false_negative_witness :
  IsSet (str "b") (foldl (fun f d => Set_ d f) (mkBloom (replicate 8 0) 3) [str "a"; str "b"; str "c"]) = true.
Proof.
  apply (bloom_no_false_negative (mkBloom (replicate 8 0) 3) [str "a"; str "b"; str "c"] (str "b")); [cbn; lia|].
  apply elem_of_cons; right; apply elem_of_cons; left; reflexivity.
Defined.

Lemma bloom_test_and_set_witness :
  TestAndSet (str "a") (mkBloom (replicate 8 0) 3) = (IsSet (str "a") (mkBloom (replicate 8 0) 3), Set_ (str "a") (mkBloom (replicate 8 0) 3)).
Proof. apply (bloom_test_and_set (str "a") (mkBloom (replicate 8 0) 3)); cbn; lia. Defined.
End BloomFilter.

(* ------------------------------------------------------------------ *)
(** * CountMinSketch *)

Module CountMinSketch.
Record CountMinSketch := mkSketch { width_ : Z; depth_ : nat; distinct_count_ : Z; matrix_ : list (list Z) }.

Definition new (width : Z) (depth : nat) : CountMinSketch := mkSketch width depth 0 (replicate depth (replicate (Z.to_nat width) 0)).

(** The hash of round [depth]; the seed is a [uint32_t]. *)
Definition result (data : list Z) (depth : nat) : Z * Z :=
  let d := Z.of_nat depth in MurmurHash3_x64_128 data (u32 (Z.lor (Z.shiftl d 0x1f) d)).

Definition cell (row : nat) (col : Z) (m : list (list Z)) : Z := nth (Z.to_nat col) (nth row m []) 0.

(** [__sync_fetch_and_add] on a counter of eight bits: the old value, and the matrix. *)
Definition fetch_and_add (row : nat) (col count : Z) (m : list (list Z)) : Z * list (list Z) :=
  let old := cell row col m in
  (old, <[row := <[Z.to_nat col := u8 (old + count)]> (nth row m [])]> m).

Definition Increase (data : list Z) (count : Z) (s : CountMinSketch) : CountMinSketch :=
  let '(m, brand_new) := foldl (fun '(m, brand_new) depth =>
    let r := result data depth in
    let '(old, m) := fetch_and_add depth (r.1 mod width_ s) count m in
    let brand_new := if (0 =? old) && negb brand_new then true else brand_new in
    if (depth + 1 <? depth_ s)%nat then
      let '(old, m) := fetch_and_add (depth + 1) (r.2 mod width_ s) count m in
      (m, if (0 =? old) && negb brand_new then true else brand_new)
    else (m, brand_new)) (matrix_ s, false) (rounds (depth_ s)) in
  mkSketch (width_ s) (depth_ s) (if brand_new then u64 (distinct_count_ s + 1) else distinct_count_ s) m.

Definition Estimate (data : list Z) (s : CountMinSketch) : Z :=
  foldl (fun acc depth =>
    let r := result data depth in
    let acc := Z.min (cell depth (r.1 mod width_ s) (matrix_ s)) acc in
    if (depth + 1 <? depth_ s)%nat then Z.min (cell (depth + 1) (r.2 mod width_ s) (matrix_ s)) acc else acc)
    0xffffffffffffffff (rounds (depth_ s)).

(** ** Rows and columns *)

(** The column of a key in a row. *)
Definition col (width : Z) (data : list Z) (row : nat) : Z :=
  let r := result data (2 * (row / 2))%nat in (if Nat.even row then r.1 else r.2) mod width.

Definition shape (width : Z) (depth : nat) (m : list (list Z)) : Prop := length m = depth /\ Forall (fun r => length r = Z.to_nat width) m.

Lemma fetch_shape width depth row c n m : shape width depth m -> shape width depth (fetch_and_add row c n m).2.
Proof.
  intros [H1 H2]; cbn; split; [by rewrite length_insert|]; destruct (decide (row < length m)%nat) as [Hr|Hr].
  - apply Forall_insert; [done|]; rewrite length_insert, nth_lookup; destruct (lookup_lt_is_Some_2 m row Hr) as [x Hx]; rewrite Hx; cbn.
    rewrite Forall_lookup in H2; by eapply H2.
  - by rewrite list_insert_ge by lia.
Qed.

Lemma cell_fetch width depth row c n m row' c' : shape width depth m -> (row < depth)%nat -> 0 <= c < width -> 0 <= c' ->
  cell row' c' (fetch_and_add row c n m).2 = if bool_decide (row' = row /\ c' = c) then u8 (cell row c m + n) else cell row' c' m.
Proof.
  intros [H1 H2] Hr Hc Hc'; unfold cell; cbn [fetch_and_add snd]; assert (length (nth row m []) = Z.to_nat width) as Hl.
  { rewrite nth_lookup; destruct (lookup_lt_is_Some_2 m row) as [x Hx]; [lia|]; rewrite Hx; cbn; rewrite Forall_lookup in H2; by eapply H2. }
  destruct (decide (row' = row)) as [->|Hn]; [|rewrite bool_decide_eq_false_2 by naive_solver; by rewrite (nth_lookup (<[row:=_]> m)), list_lookup_insert_ne, <- nth_lookup by done].
  rewrite (nth_lookup (<[row:=_]> m)), list_lookup_insert_eq by lia; cbn [from_option]; unfold id.
  destruct (decide (c' = c)) as [->|Hnc].
  - rewrite bool_decide_eq_true_2 by done; rewrite nth_lookup, list_lookup_insert_eq by lia; done.
  - rewrite bool_decide_eq_false_2 by naive_solver; by rewrite nth_lookup, list_lookup_insert_ne, <- nth_lookup by lia.
Qed.

(** The matrix of [Increase]: row after row. *)
Definition add_rows (width : Z) (data : list Z) (n : Z) (m : list (list Z)) (rows : list nat) : list (list Z) :=
  foldl (fun m row => (fetch_and_add row (col width data row) n m).2) m rows.

(** The rows of a round. *)
Definition rows_of (depth d : nat) : list nat := if (d + 1 <? depth)%nat then [d; d + 1]%nat else [d].

Lemma join_single {A B} (f : A -> list B) (x : A) : mjoin (f <$> [x]) = f x.
Proof. apply app_nil_r. Qed.

Lemma seq_rounds depth : seq 0 depth = mjoin (rows_of depth <$> rounds depth).
Proof.
  assert (forall k, (2 * k <= depth)%nat -> mjoin (rows_of depth <$> ((fun j => (2 * j)%nat) <$> seq 0 k)) = seq 0 (2 * k)) as H.
  { induction k as [|k IH]; intros Hk; [done|]; rewrite seq_S, !fmap_app, join_app, IH by lia.
    change ((fun j => (2 * j)%nat) <$> [(0 + k)%nat]) with [(2 * k)%nat]; rewrite join_single; unfold rows_of.
    rewrite (proj2 (Nat.ltb_lt (2 * k + 1) depth)) by lia; replace (2 * S k)%nat with (2 * k + 2)%nat by lia; rewrite seq_app.
    f_equal; cbn [seq]; do 2 f_equal; lia. }
  unfold rounds; destruct (Nat.Even_or_Odd depth) as [[k Hk]|[k Hk]].
  - replace ((depth + 1) / 2)%nat with k by (apply (Nat.div_unique _ _ _ 1); lia); rewrite H by lia; by rewrite Hk.
  - replace ((depth + 1) / 2)%nat with (S k) by (apply (Nat.div_unique _ _ _ 0); lia); rewrite (seq_S k 0), !fmap_app, join_app, H by lia.
    change ((fun j => (2 * j)%nat) <$> [(0 + k)%nat]) with [(2 * k)%nat]; rewrite join_single; unfold rows_of.
    rewrite (proj2 (Nat.ltb_ge (2 * k + 1) depth)) by lia; by rewrite Hk, Nat.add_1_r, seq_S.
Qed.

Lemma col_even width data d i : (d = 2 * i)%nat -> col width data d = (result data d).1 mod width /\ col width data (d + 1) = (result data d).2 mod width.
Proof.
  intros ->; unfold col; replace ((2 * i + 1) / 2)%nat with i by (apply (Nat.div_unique _ _ _ 1); lia); rewrite (Nat.mul_comm 2 i), Nat.div_mul, (Nat.mul_comm i 2) by lia.
  rewrite Nat.even_mul, Nat.even_add, Nat.even_mul; done.
Qed.

Lemma rounds_even depth d : d ∈ rounds depth -> exists i, (d = 2 * i)%nat.
Proof. unfold rounds; intros H; apply list_elem_of_fmap in H as (i & -> & _); by exists i. Qed.

Lemma Increase_matrix data n s : matrix_ (Increase data n s) = add_rows (width_ s) data n (matrix_ s) (seq 0 (depth_ s)) /\
  width_ (Increase data n s) = width_ s /\ depth_ (Increase data n s) = depth_ s.
Proof.
  unfold Increase; destruct (foldl _ (matrix_ s, false) (rounds (depth_ s))) as [m b] eqn:E; split; [|done]; cbn [matrix_].
  rewrite seq_rounds; assert (Forall (fun d => exists i, (d = 2 * i)%nat) (rounds (depth_ s))) as Hr by (apply Forall_forall; intros d Hd; apply list_elem_of_In in Hd; by eapply rounds_even).
  revert E; generalize (matrix_ s) as m0, false as b0; induction Hr as [|d rs [i Hi] Hr IH]; intros m0 b0 E; [by injection E as <- _|].
  cbn [foldl fmap list_fmap] in E |- *; destruct (col_even (width_ s) data d i Hi) as [C1 C2]; unfold add_rows, rows_of at 1; cbn [mjoin list_join]; rewrite foldl_app.
  destruct (d + 1 <? depth_ s)%nat; cbn [fetch_and_add] in E; apply IH in E; rewrite E; unfold add_rows; cbn [foldl]; by rewrite ?C1, ?C2.
Qed.

Lemma Estimate_rows data s : Estimate data s = foldl (fun acc row => Z.min (cell row (col (width_ s) data row) (matrix_ s)) acc) 0xffffffffffffffff (seq 0 (depth_ s)).
Proof.
  unfold Estimate; rewrite seq_rounds; assert (Forall (fun d => exists i, (d = 2 * i)%nat) (rounds (depth_ s))) as Hr by (apply Forall_forall; intros d Hd; apply list_elem_of_In in Hd; by eapply rounds_even).
  generalize 0xffffffffffffffff; induction Hr as [|d rs [i Hi] Hr IH]; intros acc; [done|]; cbn [foldl fmap list_fmap mjoin list_join]; unfold rows_of at 1.
  destruct (col_even (width_ s) data d i Hi) as [C1 C2]; rewrite foldl_app, IH; f_equal; destruct (d + 1 <? depth_ s)%nat; cbn [foldl]; by rewrite ?C1, ?C2.
Qed.

Lemma col_range width data row : 0 < width -> 0 <= col width data row < width.
Proof. intros Hw; unfold col; destruct (Nat.even row); by apply Z.mod_pos_bound. Qed.

Lemma add_rows_shape width depth data n rows : forall m, shape width depth m -> shape width depth (add_rows width data n m rows).
Proof. induction rows as [|r rows IH]; intros m Hm; [done|]; apply IH; by apply fetch_shape. Qed.

Lemma cell_add_rows width depth data n rows : forall m r c, 0 < width -> shape width depth m -> NoDup rows -> Forall (fun r => (r < depth)%nat) rows -> 0 <= c ->
  cell r c (add_rows width data n m rows) = if bool_decide (r ∈ rows /\ c = col width data r) then u8 (cell r c m + n) else cell r c m.
Proof.
  induction rows as [|r0 rows IH]; intros m r c Hw Hm Hnd Hr Hc.
  { rewrite bool_decide_eq_false_2; [done|]; intros [H _]; by apply not_elem_of_nil in H. }
  apply list.NoDup_cons in Hnd as [Hn Hnd]; inversion Hr; subst; change (add_rows width data n m (r0 :: rows)) with (add_rows width data n (fetch_and_add r0 (col width data r0) n m).2 rows).
  rewrite IH by (try done; by apply fetch_shape); rewrite (cell_fetch width depth) by (try done; by apply col_range).
  destruct (decide (r = r0)) as [->|Hne].
  - rewrite (bool_decide_eq_false_2 (r0 ∈ rows /\ _)) by naive_solver; destruct (decide (c = col width data r0)) as [->|Hc'].
    + rewrite !bool_decide_eq_true_2; [done|split; [by left|done]|done].
    + rewrite !bool_decide_eq_false_2; [done|naive_solver|naive_solver].
  - rewrite (bool_decide_eq_false_2 (r = r0 /\ _)) by naive_solver.
    destruct (bool_decide_reflect (r ∈ rows /\ c = col width data r)) as [[J1 J2]|J1].
    + rewrite bool_decide_eq_true_2; [done|]; split; [by right|done].
    + rewrite bool_decide_eq_false_2; [done|]; intros [K1 K2]; apply J1; split; [|done]; by apply elem_of_cons in K1 as [|].
Qed.

(** ** The contract *)

(** How much a list of increments gives to the keys that [p] holds for. *)
Definition counted (p : list Z -> bool) (ops : list (list Z * Z)) : Z := foldr (fun op acc => (if p op.1 then op.2 else 0) + acc) 0 ops.

Definition run (width : Z) (depth : nat) (ops : list (list Z * Z)) : CountMinSketch := foldr (fun op s => Increase op.1 op.2 s) (new width depth) ops.

Lemma counted_bounds p ops : Forall (fun op => 0 <= op.2) ops -> 0 <= counted p ops <= counted (fun _ => true) ops.
Proof. unfold counted; induction 1 as [|op ops H1 H2 IH]; cbn [foldr]; [lia|]; destruct (p op.1); lia. Qed.

Lemma counted_mono p q ops : Forall (fun op => 0 <= op.2) ops -> (forall d, p d = true -> q d = true) -> counted p ops <= counted q ops.
Proof. unfold counted; intros H Hpq; induction H as [|op ops H1 H2 IH]; cbn [foldr]; [lia|]; specialize (Hpq op.1); destruct (p op.1), (q op.1); try lia; by specialize (Hpq eq_refl). Qed.

(** While nothing wraps, a cell counts the increments of the keys that fall on it. *)
Lemma run_cells width depth ops : 0 < width -> Forall (fun op => 0 <= op.2) ops -> counted (fun _ => true) ops <= 255 ->
  shape width depth (matrix_ (run width depth ops)) /\ width_ (run width depth ops) = width /\ depth_ (run width depth ops) = depth /\
  (forall r c, (r < depth)%nat -> 0 <= c -> cell r c (matrix_ (run width depth ops)) = counted (fun d => bool_decide (col width d r = c)) ops).
Proof.
  intros Hw Hpos; induction Hpos as [|[d n] ops Hn Hpos IH]; intros Ht; cbn [run foldr].
  - split; [split; cbn; [by rewrite length_replicate|apply Forall_replicate; by rewrite length_replicate]|]; split; [done|]; split; [done|].
    intros r c Hr Hc; unfold cell; cbn; rewrite (nth_lookup (replicate _ _)), lookup_replicate_2 by done; cbn [from_option]; unfold id.
    rewrite nth_lookup; destruct (replicate (Z.to_nat width) 0 !! Z.to_nat c) eqn:E; [by apply lookup_replicate_1 in E as [-> _]|done].
  - fold (run width depth ops); cbn [counted foldr fst snd] in *; fold (counted (fun _ => true) ops) in Ht.
    pose proof (counted_bounds (fun _ => true) ops Hpos); destruct IH as (S1 & S2 & S3 & S4); [lia|].
    destruct (Increase_matrix d n (run width depth ops)) as (E1 & E2 & E3); rewrite E1, E2, E3, S2, S3; split; [by apply add_rows_shape|]; split; [done|]; split; [done|].
    intros r c Hr Hc; rewrite (cell_add_rows width depth) by first [done|apply NoDup_seq|apply Forall_forall; intros x Hx; apply in_seq in Hx; lia].
    rewrite S4 by done; fold (counted (fun d0 => bool_decide (col width d0 r = c)) ops); set (v := counted (fun d0 => bool_decide (col width d0 r = c)) ops).
    assert (0 <= v <= counted (fun _ => true) ops) by (by apply counted_bounds); cbn [fst]; clearbody v.
    destruct (decide (col width d r = c)) as [He|He].
    + rewrite !bool_decide_eq_true_2; [rewrite u8_id by lia; lia|done|split; [apply elem_of_seq; lia|done]].
    + rewrite !bool_decide_eq_false_2; [lia|done|naive_solver].
Qed.

Lemma foldl_min (f : nat -> Z) rows : forall acc, foldl (fun acc r => Z.min (f r) acc) acc rows <= acc /\
  (forall r, r ∈ rows -> foldl (fun acc r => Z.min (f r) acc) acc rows <= f r) /\
  (foldl (fun acc r => Z.min (f r) acc) acc rows = acc \/ exists r, r ∈ rows /\ foldl (fun acc r => Z.min (f r) acc) acc rows = f r).
Proof.
  induction rows as [|r rows IH]; intros acc; cbn [foldl]; [split; [lia|]; split; [intros r H; by apply not_elem_of_nil in H|by left]|].
  destruct (IH (Z.min (f r) acc)) as (H1 & H2 & H3); split; [lia|]; split.
  - intros x Hx; apply elem_of_cons in Hx as [->|Hx]; [lia|by apply H2].
  - destruct H3 as [H3|(x & Hx & H3)]; [|right; exists x; split; [by right|done]]; rewrite H3; destruct (Z.min_spec (f r) acc) as [[_ ->]|[_ ->]]; [right; exists r; split; [by left|done]|by left].
Qed.

(** The sketch never underestimates, and never counts what was not there: as long as all
    the increments together fit the counters, the estimate of a key lies between
    what was counted for it and what was counted at all. *)
Theorem sketch_bounds (width : Z) (depth : nat) (ops : list (list Z * Z)) (key : list Z) :
  0 < width -> (0 < depth)%nat -> Forall (fun op => 0 <= op.2) ops -> counted (fun _ => true) ops <= 255 ->
  counted (fun d => bool_decide (d = key)) ops <= Estimate key (run width depth ops) <= counted (fun _ => true) ops.
Proof.
  intros Hw Hd Hpos Ht; destruct (run_cells width depth ops Hw Hpos Ht) as (S1 & S2 & S3 & S4); rewrite Estimate_rows, S2, S3.
  pose proof (counted_bounds (fun d => bool_decide (d = key)) ops Hpos).
  destruct (foldl_min (fun row => cell row (col width key row) (matrix_ (run width depth ops))) (seq 0 depth) 0xffffffffffffffff) as (F1 & F2 & F3).
  assert (forall r, (r < depth)%nat -> counted (fun d => bool_decide (d = key)) ops <= cell r (col width key r) (matrix_ (run width depth ops)) <= counted (fun _ => true) ops) as K.
  { intros r Hr; rewrite S4 by (done || apply col_range; done); split; [|by apply counted_bounds].
    apply counted_mono; [done|]; intros d Hdk; apply bool_decide_eq_true in Hdk; subst; by apply bool_decide_eq_true. }
  split; [|specialize (F2 O ltac:(apply elem_of_seq; lia)); specialize (K O Hd); lia].
  destruct F3 as [->|(r & Hr & ->)]; [lia|]; apply elem_of_seq in Hr; apply K; lia.
Qed.

Lemma sketch_bounds_witness :
  2 <= Estimate (str "a") (run 16 3 [(str "a", 1); (str "b", 5); (str "a", 1)]) <= 7.
Proof.
  apply (sketch_bounds 16 3 [(str "a", 1); (str "b", 5); (str "a", 1)] (str "a")); [lia|lia|repeat constructor; cbn; lia|cbn; lia].
Defined.

(** The counters are of eight bits and wrap: a key that was counted 256 times is
    estimated at zero. *)
Theorem sketch_wraps : Estimate (str "a") (run 16 3 [(str "a", 128); (str "a", 128)]) = 0.
Proof. vm_compute; reflexivity. Qed.
End CountMinSketch.
