(* ===== verification/BitMap.v ===== *)
(** * Posting lists as bit maps (components/inverted_indexer/posting_field/bitmap_posting_list.{h,cc})

    A posting list is a set of document positions kept as 64-bit words, the position
    [i] at bit [63 - i mod 64] of word [i / 64].  [None] is a failed [CHECK].  [bit]
    reads a position, false past the end; the lemmas say what every operation does to
    it.  [Intersect] clears the words past the end of the other list with a [memset]
    of as many bytes as there are words: [intersect_keeps_tail]. *)
From stdpp Require Import list.
From S2P Require Import Prelude.

Module BitMap.
Record BitMapPostingList := mkList { id_count_ : Z; bit_count_ : Z; ids_bitmap_ : list Z }.

Definition set_bitmap (b : list Z) (p : BitMapPostingList) : BitMapPostingList :=
  mkList (id_count_ p) (bit_count_ p) b.

(** The constructor. *)
Definition new (bit_count id_count value : Z) : BitMapPostingList :=
  mkList id_count bit_count (replicate (Z.to_nat ((bit_count + 63) / 64)) value).

Definition ResetBits (p : BitMapPostingList) : BitMapPostingList :=
  set_bitmap ((fun _ => 0) <$> ids_bitmap_ p) p.

Definition SetBit (idx : Z) (p : BitMapPostingList) : option BitMapPostingList :=
  if idx <? zlen (ids_bitmap_ p) * 64 then
    let bytes := Z.to_nat (idx / 64) in
    let bits := idx mod 64 in
    Some (set_bitmap (<[bytes := Z.lor (nth bytes (ids_bitmap_ p) 0) (Z.shiftl 1 (63 - bits))]> (ids_bitmap_ p)) p)
  else None.

Definition ClearBit (idx : Z) (p : BitMapPostingList) : option BitMapPostingList :=
  if idx <? zlen (ids_bitmap_ p) * 64 then
    let bytes := Z.to_nat (idx / 64) in
    let bits := idx mod 64 in
    Some (set_bitmap (<[bytes := Z.land (nth bytes (ids_bitmap_ p) 0) (u64 (Z.lnot (Z.shiftl 1 (63 - bits))))]> (ids_bitmap_ p)) p)
  else None.

Definition IsBitSet (idx : Z) (p : BitMapPostingList) : option bool :=
  if idx <? zlen (ids_bitmap_ p) * 64 then
    Some (negb (Z.land (nth (Z.to_nat (idx / 64)) (ids_bitmap_ p) 0) (Z.shiftl 1 (63 - idx mod 64)) =? 0))
  else None.

(** The common loop of the three operations: as many words as both lists have. *)
Fixpoint words (f : Z -> Z -> Z) (a b : list Z) : list Z :=
  match a, b with
  | x :: a', y :: b' => f x y :: words f a' b'
  | _, _ => a
  end.

Definition Union (other p : BitMapPostingList) : BitMapPostingList :=
  set_bitmap (words Z.lor (ids_bitmap_ p) (ids_bitmap_ other)) p.

(** [memset(&v[0], 0, n)], [n] in bytes, on words in little endian order. *)
Fixpoint memset_bytes (n : Z) (v : list Z) : list Z :=
  match v with
  | [] => []
  | w :: v' =>
      if n <=? 0 then v
      else if 8 <=? n then 0 :: memset_bytes (n - 8) v'
      else Z.shiftl (Z.shiftr w (8 * n)) (8 * n) :: v'
  end.

Definition Intersect (other p : BitMapPostingList) : BitMapPostingList :=
  let merged := words Z.land (ids_bitmap_ p) (ids_bitmap_ other) in
  let i := Nat.min (length (ids_bitmap_ p)) (length (ids_bitmap_ other)) in
  set_bitmap (take i merged ++ memset_bytes (zlen (ids_bitmap_ p) - Z.of_nat i) (drop i merged)) p.

Definition Substract (other p : BitMapPostingList) : BitMapPostingList :=
  set_bitmap (words (fun x y => Z.land x (u64 (Z.lnot y))) (ids_bitmap_ p) (ids_bitmap_ other)) p.

(** ** Positions *)

Definition bit (v : list Z) (i : nat) : bool := Z.testbit (nth (i / 64) v 0) (63 - Z.of_nat i mod 64).

Lemma bit_cons x v i : bit (x :: v) (64 + i) = bit v i.
Proof.
  unfold bit. replace ((64 + i) / 64)%nat with (S (i / 64)) by (rewrite Nat.add_comm; change 64%nat with (1 * 64)%nat at 2; rewrite Nat.div_add by lia; lia).
  cbn [nth]. f_equal. rewrite Nat2Z.inj_add. change (Z.of_nat 64) with 64. replace (64 + Z.of_nat i) with (Z.of_nat i + 1 * 64) by lia.
  by rewrite Z_mod_plus_full.
Qed.
Lemma bit_low x v i : (i < 64)%nat -> bit (x :: v) i = Z.testbit x (63 - Z.of_nat i).
Proof. intros Hi; unfold bit; rewrite Nat.div_small by done; cbn [nth]; by rewrite Z.mod_small by lia. Qed.
Lemma bit_nil i : bit [] i = false.
Proof. unfold bit; by destruct (i / 64)%nat; cbn [nth]; rewrite Z.bits_0. Qed.

(** A position past the words is not in the list. *)
Lemma bit_beyond v : forall i, (64 * length v <= i)%nat -> bit v i = false.
Proof.
  induction v as [|x v IH]; intros i Hi; [apply bit_nil|]; cbn [length] in Hi.
  replace i with (64 + (i - 64))%nat by lia; rewrite bit_cons; apply IH; lia.
Qed.

Lemma length_words f a : forall b, length (words f a b) = length a.
Proof. induction a as [|x a IH]; intros [|y b]; cbn [words length]; congruence. Qed.

(** An operation that acts on each of the 64 bits acts on each position. *)
Lemma bit_words f g : (forall x y n, 0 <= n < 64 -> Z.testbit (f x y) n = g (Z.testbit x n) (Z.testbit y n)) ->
  (forall c, g c false = c) ->
  forall a b i, (i < 64 * length a)%nat -> bit (words f a b) i = g (bit a i) (bit b i).
Proof.
  intros Hf Hg a; induction a as [|x a IH]; intros [|y b] i Hi; cbn [words length] in *; [lia|lia|by rewrite bit_nil, Hg|].
  destruct (decide (i < 64)%nat) as [Hl|Hl]; [rewrite !bit_low by done; apply Hf; lia|].
  replace i with (64 + (i - 64))%nat by lia; rewrite !bit_cons; apply IH; lia.
Qed.

(** The same where both lists have the word, whatever [g] does with absent bits. *)
Lemma bit_words_both f g : (forall x y n, 0 <= n < 64 -> Z.testbit (f x y) n = g (Z.testbit x n) (Z.testbit y n)) ->
  forall a b i, length a = length b -> (i < 64 * length a)%nat -> bit (words f a b) i = g (bit a i) (bit b i).
Proof.
  intros Hf a; induction a as [|x a IH]; intros [|y b] i Hab Hi; cbn [words length] in *; [lia|lia|lia|].
  destruct (decide (i < 64)%nat) as [Hl|Hl]; [rewrite !bit_low by done; apply Hf; lia|].
  replace i with (64 + (i - 64))%nat by lia; rewrite !bit_cons; apply IH; lia.
Qed.

Lemma testbit_andnot x y n : 0 <= n < 64 -> Z.testbit (Z.land x (u64 (Z.lnot y))) n = Z.testbit x n && negb (Z.testbit y n).
Proof. intros Hn; unfold u64; rewrite Z.land_spec, Z.mod_pow2_bits_low, Z.lnot_spec by lia; done. Qed.

Abbreviation bit_at p i := (bit (ids_bitmap_ p) i).
Abbreviation nwords p := (length (ids_bitmap_ p)).

Lemma Union_at q p i : (i < 64 * nwords p)%nat -> bit_at (Union q p) i = bit_at p i || bit_at q i.
Proof. intros Hi; apply (bit_words _ orb); [intros; by rewrite Z.lor_spec|by intros []|done]. Qed.
Lemma Substract_at q p i : (i < 64 * nwords p)%nat -> bit_at (Substract q p) i = bit_at p i && negb (bit_at q i).
Proof. intros Hi; apply (bit_words _ (fun b c => b && negb c)); [intros; by apply testbit_andnot|by intros []|done]. Qed.
Lemma Intersect_same q p : nwords p = nwords q -> Intersect q p = set_bitmap (words Z.land (ids_bitmap_ p) (ids_bitmap_ q)) p.
Proof.
  intros E; unfold Intersect; rewrite <- E, Nat.min_id; f_equal.
  by rewrite take_ge, drop_ge, app_nil_r by (rewrite length_words; lia).
Qed.
Lemma Intersect_at q p i : nwords p = nwords q -> (i < 64 * nwords p)%nat -> bit_at (Intersect q p) i = bit_at p i && bit_at q i.
Proof. intros E Hi; rewrite Intersect_same by done; apply (bit_words_both _ andb); [intros; by rewrite Z.land_spec|done|done]. Qed.
Lemma ResetBits_at p i : bit_at (ResetBits p) i = false.
Proof.
  cbn. unfold bit. replace (nth _ _ 0) with 0; [by rewrite Z.bits_0|].
  generalize (i / 64)%nat as k; induction (ids_bitmap_ p) as [|x v IH]; intros [|k]; cbn; done || apply IH.
Qed.
Lemma new_at n c v i : (i < 64 * Z.to_nat ((n + 63) / 64))%nat -> bit_at (new n c v) i = Z.testbit v (63 - Z.of_nat i mod 64).
Proof.
  intros Hi; cbn; unfold bit; f_equal.
  assert (i / 64 < Z.to_nat ((n + 63) / 64))%nat as Hk by (apply Nat.Div0.div_lt_upper_bound; lia).
  revert Hk; generalize (i / 64)%nat, (Z.to_nat ((n + 63) / 64)); intros k m; revert k.
  induction m as [|m IH]; intros [|k] Hk; cbn; [lia|lia|done|apply IH; lia].
Qed.

Lemma land_pow2 x n : 0 <= n -> negb (Z.land x (Z.shiftl 1 n) =? 0) = Z.testbit x n.
Proof.
  intros Hn; rewrite Z.shiftl_1_l; destruct (Z.testbit x n) eqn:E.
  - destruct (Z.eqb_spec (Z.land x (2 ^ n)) 0) as [H0|]; [|done].
    assert (Z.testbit (Z.land x (2 ^ n)) n = true) as Ht by (rewrite Z.land_spec, E, Z.pow2_bits_true by lia; done); by rewrite H0, Z.bits_0 in Ht.
  - assert (Z.land x (2 ^ n) = 0) as ->; [|done]; apply Z.bits_inj'; intros i Hi; rewrite Z.land_spec, Z.bits_0.
    destruct (Z.eq_dec i n) as [->|]; [by rewrite E|]; rewrite Z.pow2_bits_false by lia; by rewrite andb_false_r.
Qed.

Lemma pos_div (i : nat) : Z.to_nat (Z.of_nat i / 64) = (i / 64)%nat.
Proof. change 64 with (Z.of_nat 64); rewrite <- Nat2Z.inj_div, Nat2Z.id; done. Qed.

(** [IsBitSet] reads the position, and fails past the last word. *)
Lemma IsBitSet_spec p (i : nat) :
  IsBitSet (Z.of_nat i) p = if Nat.ltb i (64 * nwords p) then Some (bit_at p i) else None.
Proof.
  unfold IsBitSet; destruct (Nat.ltb_spec i (64 * nwords p)) as [Hi|Hi].
  - rewrite (proj2 (Z.ltb_lt _ _)) by lia; rewrite land_pow2 by (pose proof (Z.mod_pos_bound (Z.of_nat i) 64); lia).
    by rewrite pos_div.
  - by rewrite (proj2 (Z.ltb_ge _ _)) by lia.
Qed.

Lemma bit_insert v k x i : (k < length v)%nat ->
  bit (<[k := x]> v) i = if bool_decide (i / 64 = k)%nat then Z.testbit x (63 - Z.of_nat i mod 64) else bit v i.
Proof.
  intros Hk; unfold bit; rewrite !nth_lookup; case_bool_decide as E; [by rewrite E, list_lookup_insert_eq|].
  by rewrite list_lookup_insert_ne.
Qed.

(** [SetBit] adds its position and no other. *)
Lemma SetBit_spec p (i : nat) : (i < 64 * nwords p)%nat ->
  exists p', SetBit (Z.of_nat i) p = Some p' /\ nwords p' = nwords p /\ bit_count_ p' = bit_count_ p /\ id_count_ p' = id_count_ p /\
  forall j, bit_at p' j = bit_at p j || bool_decide (j = i).
Proof.
  intros Hi; unfold SetBit; rewrite (proj2 (Z.ltb_lt _ _)) by lia; rewrite pos_div.
  eexists; split; [done|]; cbn; rewrite length_insert; split; [done|]; split; [done|]; split; [done|]; intros j.
  assert (i / 64 < nwords p)%nat as Hk by (apply Nat.Div0.div_lt_upper_bound; lia).
  rewrite bit_insert by done; case_bool_decide as E.
  - rewrite Z.lor_spec, Z.shiftl_1_l; unfold bit; rewrite E; f_equal.
    pose proof (Z.mod_pos_bound (Z.of_nat i) 64 ltac:(lia)); pose proof (Z.mod_pos_bound (Z.of_nat j) 64 ltac:(lia)).
    case_bool_decide as Ej; [subst j; apply Z.pow2_bits_true; lia|]; apply Z.pow2_bits_false.
    pose proof (Z.div_mod (Z.of_nat i) 64 ltac:(lia)); pose proof (Z.div_mod (Z.of_nat j) 64 ltac:(lia)).
    assert (Z.of_nat i / 64 = Z.of_nat j / 64) by (apply Z2Nat.inj; [apply Z.div_pos; lia..|by rewrite !pos_div]); lia.
  - rewrite (bool_decide_eq_false_2 (j = i)) by (by intros ->); by rewrite orb_false_r.
Qed.

(** [Intersect] with a shorter list keeps members the other list does not have: the
    words past its end lose one byte each. *)
Theorem intersect_keeps_tail :
  let a := mkList 1 128 [0; 2 ^ 63] in let b := mkList 1 64 [1] in
  IsBitSet 64 (Intersect b a) = Some true /\ IsBitSet 64 b = None.
Proof. vm_compute; done. Qed.
End BitMap.
