(* ===== verification/InvertedIndexer.v ===== *)
(** * The inverted index (components/inverted_indexer)

    Documents with conditions on named fields (expression.h), gathered per field and
    value in a [FieldEntity] (posting_field/field.cc), turned into bit-map posting lists
    by the [PostingListManager] and queried with the [BitMapMerger].

    A posting list is owned by the manager under the CRC-64 of its sorted ids and never
    replaced, so that a [BitMapPostingList*] is that key, and [NULL] is [None].  The
    order in which an [unordered_map] or a set of pointers is walked is a parameter,
    any permutation of its elements.  [None] as a result is a failed [CHECK], a null
    pointer followed, an exception or an overflow.

    [inverted_query_exact]: a query returns exactly the documents whose conditions it
    meets, or does not return for one of three reasons; [inverted_query_crashes]: two of
    them make every query of an index fail.  [range_field_inverted] is about
    [RangeField].  The proofs are in InvertedProofs.v and InvertedQuery.v. *)
From stdpp Require Import gmap sorting.
From S2P Require Import Prelude StrUtils Crc BitMap.
Import BitMap.

Abbreviation key := (list Z).
(** A [BitMapPostingList*]: the key of the list in [ids_table_]. *)
Abbreviation ptr := (option Z).

(* ------------------------------------------------------------------ *)
(** * PostingListManager *)

Module PostingListManager.
Record PostingListManager := mkManager {
  sorted_doc_ids_ : list Z;
  doc_id_to_bit_idx_ : gmap Z Z;
  bit_idx_to_doc_id_ : gmap Z Z;
  ids_table_ : gmap Z BitMapPostingList }.

Definition new : PostingListManager := mkManager [] ∅ ∅ ∅.

Definition FULLUINT64BIT : Z := 0xFFFFFFFFFFFFFFFF.

Definition CreateMergePostingList (m : PostingListManager) : BitMapPostingList :=
  BitMap.new (zlen (sorted_doc_ids_ m)) 0 FULLUINT64BIT.

(** A [std::set<int64_t>] read in order. *)
Definition sorted (ids : gset Z) : list Z := merge_sort Z.le (elements ids).

(** The [int64_t]s as they are in memory. *)
Definition id_bytes (id : Z) : list Z := (fun k => Crc.byte_of (Z.of_nat k) (u64 id)) <$> seq 0 8.
Definition crc_code (ids : list Z) : Z := Crc.crc64 0 (ids ≫= id_bytes).

Definition BuildBitMapPostingListForIds (ids : gset Z) (m : PostingListManager)
    : option (ptr * PostingListManager) :=
  if bool_decide (ids = ∅) then Some (None, m) else
  let to_be_build_ids := sorted ids in
  let code := crc_code to_be_build_ids in
  match ids_table_ m !! code with
  | Some pl => if id_count_ pl =? zlen to_be_build_ids then Some (Some code, m) else None
  | None =>
      let last_id := List.last to_be_build_ids 0 in
      let max_bit_idx := default 0 (doc_id_to_bit_idx_ m !! last_id) in
      let idx := <[last_id := max_bit_idx]> (doc_id_to_bit_idx_ m) in
      let new_ids_bitmap := BitMap.new (max_bit_idx + 1) (zlen to_be_build_ids) 0 in
      pl ← foldl (fun acc doc_id => pl ← acc; i ← idx !! doc_id; SetBit i pl) (Some new_ids_bitmap) to_be_build_ids;
      Some (Some code, mkManager (sorted_doc_ids_ m) idx (bit_idx_to_doc_id_ m) (<[code := pl]> (ids_table_ m)))
  end.

Definition SetSortedIndexedIds (ids : list Z) (m : PostingListManager) : PostingListManager :=
  let ids := merge_sort Z.le ids in
  let '(to_idx, to_id) := foldl (fun '(a, b) i => let id := nth i ids 0 in (<[id := Z.of_nat i]> a, <[Z.of_nat i := id]> b))
    (doc_id_to_bit_idx_ m, bit_idx_to_doc_id_ m) (seq 0 (length ids)) in
  mkManager ids to_idx to_id (ids_table_ m).

(** The ids of a list; the loop reads one position more than the list has. *)
Definition GetIdsFromPostingList (pl : option BitMapPostingList) (m : PostingListManager) : option (gset Z) :=
  match pl with
  | None => Some ∅
  | Some pl =>
      foldl (fun acc i => r ← acc; b ← IsBitSet (Z.of_nat i) pl;
               Some (if b && (Z.of_nat i <? zlen (sorted_doc_ids_ m)) then {[nth i (sorted_doc_ids_ m) 0]} ∪ r else r))
        (Some ∅) (seq 0 (Z.to_nat (bit_count_ pl + 1)))
  end.
End PostingListManager.
Import PostingListManager.

(* ------------------------------------------------------------------ *)
(** * Fields *)

Module Fields.
(** ** FieldEntity *)
Record FieldEntity := mkEntity { wildcards : gset Z; include_ids : gmap key (gset Z); exclude_ids : gmap key (gset Z) }.
Definition empty_entity : FieldEntity := mkEntity ∅ ∅ ∅.

Definition AddWildcardsId (id : Z) (e : FieldEntity) : FieldEntity :=
  mkEntity ({[id]} ∪ wildcards e) (include_ids e) (exclude_ids e).

(** [m[assign].insert(id)]. *)
Definition insert_id (assign : key) (id : Z) (m : gmap key (gset Z)) : gmap key (gset Z) :=
  <[assign := {[id]} ∪ default ∅ (m !! assign)]> m.

Definition AddIdForAssign (assign : key) (exclude : bool) (id : Z) (e : FieldEntity) : FieldEntity :=
  if exclude then mkEntity (wildcards e) (include_ids e) (insert_id assign id (exclude_ids e))
  else mkEntity (wildcards e) (insert_id assign id (include_ids e)) (exclude_ids e).

(** ** Field and its two classes *)
Inductive FieldClass :=
| GeneralStrField (include_pl_ exclude_pl_ : gmap key ptr)
| RangeField (delim_ : list Z) (include_pl_ exclude_pl_ : gmap Z ptr).
Record Field := mkField { wildcards_pl_ : ptr; class_ : FieldClass }.

Definition SetWildcardsPostingList (pl : ptr) (f : Field) : Field := mkField pl (class_ f).

(** [iss >> out] for an [int32_t], and [ParseTo<int32_t>]. *)
Definition extract_int32 (s : list Z) : StrUtils.extraction :=
  match StrUtils.skip_space s with
  | [] => StrUtils.Extraction None true true
  | c :: s' =>
      let neg := c =? 45 in
      let s := if neg || (c =? 43) then s' else c :: s' in
      let ds := StrUtils.take_digits s in
      let eof := Nat.eqb (length ds) (length s) in
      let v := if neg then - StrUtils.dec_value ds else StrUtils.dec_value ds in
      match ds with
      | [] => StrUtils.Extraction (Some 0) eof true
      | _ =>
          if v <? - 2 ^ 31 then StrUtils.Extraction (Some (- 2 ^ 31)) eof true
          else if 2 ^ 31 - 1 <? v then StrUtils.Extraction (Some (2 ^ 31 - 1)) eof true
          else StrUtils.Extraction (Some v) eof false
      end
  end.
Definition ParseToInt32 (s : list Z) (out : Z) : bool * Z :=
  let e := extract_int32 s in
  (negb (StrUtils.ex_eof e) && negb (StrUtils.ex_fail e), default out (StrUtils.ex_value e)).

(** The result and the two variables it writes. *)
Definition ParseRange (delim assign : list Z) (start end_ : Z) : option (bool * Z * Z) :=
  range ← StrUtils.Split assign delim false;
  match range with
  | [a] => let '(ok, start) := ParseToInt32 a start in Some (ok, start, if ok then start else end_)
  | [a; b] =>
      let '(ok, end_) := ParseToInt32 b end_ in
      if ok then let '(ok, start) := ParseToInt32 a start in Some (ok, start, end_) else Some (false, start, end_)
  | _ => Some (false, start, end_)
  end.

(** [for (assign = start; assign <= end; assign++) m[assign] = pl]; the counter
    overflows when [end] is the largest [int32_t]. *)
Definition assign_range (start end_ : Z) (pl : ptr) (m : gmap Z ptr) : option (gmap Z ptr) :=
  if 2 ^ 31 - 1 <=? end_ then None
  else Some (foldl (fun m k => <[start + Z.of_nat k := pl]> m) m (seq 0 (Z.to_nat (end_ - start + 1)))).

Definition ResolveValueWithPostingList (v : key) (in_ : bool) (pl : ptr) (f : Field) : option Field :=
  match class_ f with
  | GeneralStrField inc exc =>
      Some (mkField (wildcards_pl_ f) (if in_ then GeneralStrField (<[v := pl]> inc) exc else GeneralStrField inc (<[v := pl]> exc)))
  | RangeField delim inc exc =>
      '(success, start, end_) ← ParseRange delim v 0 0;
      if success || (end_ <? start) then Some f
      else if in_ then inc' ← assign_range start end_ pl inc; Some (mkField (wildcards_pl_ f) (RangeField delim inc' exc))
      else exc' ← assign_range start end_ pl exc; Some (mkField (wildcards_pl_ f) (RangeField delim inc exc'))
  end.

Definition GetIncludeBitmap (value : key) (f : Field) : list ptr :=
  match class_ f with
  | GeneralStrField inc _ => match inc !! value with Some pl => [pl] | None => [] end
  | RangeField _ inc _ =>
      let '(ok, assign) := ParseToInt32 value 0 in
      if negb ok then [] else match inc !! assign with Some pl => [pl] | None => [] end
  end.

Definition GetExcludeBitmap (value : key) (f : Field) : list ptr :=
  match class_ f with
  | GeneralStrField _ exc => match exc !! value with Some pl => [pl] | None => [] end
  | RangeField _ _ exc =>
      let '(ok, assign) := ParseToInt32 value 0 in
      if negb ok then [] else match exc !! assign with Some pl => [pl] | None => [] end
  end.
End Fields.
Import Fields.

(* ------------------------------------------------------------------ *)
(** * BitMapMerger and Indexer *)

Module Indexer.
Record Expression := mkExpr { exclude_ : bool; values_ : list key }.
Record Document := mkDoc { document_id_ : Z; conditions_ : gmap key Expression }.

Record DefaultDelegate := mkDelegate { indexer_fields_ : gset key; creators_ : gmap key Field }.
Definition RegisterGeneralStrField (field : key) (d : DefaultDelegate) : DefaultDelegate :=
  mkDelegate ({[field]} ∪ indexer_fields_ d) (creators_ d).
Definition RegisterFieldWithCreator (f : key) (creator : Field) (d : DefaultDelegate) : DefaultDelegate :=
  mkDelegate ({[f]} ∪ indexer_fields_ d) (<[f := creator]> (creators_ d)).
Definition CreatePostinglistField (name : key) (d : DefaultDelegate) : Field :=
  match creators_ d !! name with Some field => field | None => mkField None (GeneralStrField ∅ ∅) end.

Record BitMapMerger := mkMerger { result_pl_ : BitMapPostingList; group_result_pl_ : BitMapPostingList }.
Record MergerGroup := mkGroup { includes_ : gset ptr; excludes_ : gset ptr; wildcards_ : gset ptr }.

Record Indexer := mkIndexer {
  build_finished_ : bool;
  all_documents_ : list Document;
  all_documens_ids_ : gset Z;
  field_entitys_ : gmap key FieldEntity;
  pl_manager_ : PostingListManager;
  indexer_table_ : gmap key Field }.
Definition new : Indexer := mkIndexer false [] ∅ ∅ PostingListManager.new ∅.

(** The body of the loop of [AddDocument] for one field. *)
Definition add_to_entity (doc : Document) (field_name : key) (e : FieldEntity) : FieldEntity :=
  let doc_id := document_id_ doc in
  match conditions_ doc !! field_name with
  | None => AddWildcardsId doc_id e
  | Some expression =>
      if bool_decide (values_ expression = []) then AddWildcardsId doc_id e
      else
        let e := foldl (fun e assign => AddIdForAssign assign (exclude_ expression) doc_id e) e (values_ expression) in
        if exclude_ expression then AddWildcardsId doc_id e else e
  end.

Section Index.
(** The order in which the elements of an unordered container are walked. *)
Variable walk : forall A, list A -> list A.
Arguments walk {_} _.

Definition AddDocument (d : DefaultDelegate) (document : Document) (ix : Indexer) : Indexer :=
  if build_finished_ ix then ix
  else mkIndexer false (all_documents_ ix ++ [document]) ({[document_id_ document]} ∪ all_documens_ids_ ix)
    (foldl (fun es field_name => <[field_name := add_to_entity document field_name (default empty_entity (es !! field_name))]> es)
       (field_entitys_ ix) (walk (elements (indexer_fields_ d))))
    (pl_manager_ ix) (indexer_table_ ix).

Definition GetPostingListField (d : DefaultDelegate) (field : key) (table : gmap key Field) : Field :=
  match table !! field with Some f => f | None => CreatePostinglistField field d end.

(** One of the two loops over the values of an entity. *)
Definition resolve_values (in_ : bool) (ids : gmap key (gset Z)) (st : option (Field * PostingListManager))
    : option (Field * PostingListManager) :=
  foldl (fun acc '(assign, s) =>
    '(f, m) ← acc;
    if bool_decide (s = ∅) then Some (f, m)
    else '(pl, m) ← BuildBitMapPostingListForIds s m;
         match pl with
         | None => None
         | Some _ => f ← ResolveValueWithPostingList assign in_ pl f; Some (f, m)
         end) st (walk (map_to_list ids)).

(** The body of the loop of [BuildIndexer] for one field. *)
Definition build_field (d : DefaultDelegate) (field_name : key) (ix : Indexer) : option Indexer :=
  let entity := default empty_entity (field_entitys_ ix !! field_name) in
  let field := GetPostingListField d field_name (indexer_table_ ix) in
  '(bitmap_pl, m) ← BuildBitMapPostingListForIds (wildcards entity) (pl_manager_ ix);
  let field := SetWildcardsPostingList bitmap_pl field in
  '(field, m) ← resolve_values false (exclude_ids entity) (resolve_values true (include_ids entity) (Some (field, m)));
  Some (mkIndexer (build_finished_ ix) (all_documents_ ix) (all_documens_ids_ ix) (<[field_name := entity]> (field_entitys_ ix))
    m (<[field_name := field]> (indexer_table_ ix))).

Definition BuildIndexer (d : DefaultDelegate) (ix : Indexer) : option Indexer :=
  if build_finished_ ix then Some ix
  else
    let ids := elements (all_documens_ids_ ix) in
    let ix := mkIndexer false (all_documents_ ix) (all_documens_ids_ ix) (field_entitys_ ix)
      (SetSortedIndexedIds ids (pl_manager_ ix)) (indexer_table_ ix) in
    ix ← foldl (fun acc f => ix ← acc; build_field d f ix) (Some ix) (walk (elements (indexer_fields_ d)));
    Some (mkIndexer true (all_documents_ ix) (all_documens_ids_ ix) (field_entitys_ ix) (pl_manager_ ix) (indexer_table_ ix)).

(** ** Queries *)

Definition StartMerger (m : PostingListManager) : BitMapMerger :=
  mkMerger (CreateMergePostingList m) (CreateMergePostingList m).
Definition EndMerger (m : PostingListManager) (g : BitMapMerger) : option (gset Z) :=
  GetIdsFromPostingList (Some (result_pl_ g)) m.

(** [pl->Op(other)], where the loop reads the size of [other] only when [pl] has a
    word. *)
Definition apply_list (op : BitMapPostingList -> BitMapPostingList -> BitMapPostingList) (m : PostingListManager)
    (other : ptr) (pl : BitMapPostingList) : option BitMapPostingList :=
  match other ≫= (fun c => ids_table_ m !! c) with
  | Some q => Some (op q pl)
  | None => match ids_bitmap_ pl with [] => Some pl | _ => None end
  end.
Definition apply_lists op m (others : list ptr) (pl : BitMapPostingList) : option BitMapPostingList :=
  foldl (fun acc q => pl ← acc; apply_list op m q pl) (Some pl) others.

Definition CalculateMergerGroup (m : PostingListManager) (group : MergerGroup) (g : BitMapMerger) : option BitMapMerger :=
  pl ← apply_lists Union m (walk (elements (includes_ group))) (ResetBits (group_result_pl_ g));
  _ ← GetIdsFromPostingList (Some pl) m;
  pl ← apply_lists Union m (walk (elements (wildcards_ group))) pl;
  _ ← GetIdsFromPostingList (Some pl) m;
  pl ← apply_lists Substract m (walk (elements (excludes_ group))) pl;
  _ ← GetIdsFromPostingList (Some pl) m;
  Some (mkMerger (Intersect pl (result_pl_ g)) pl).

(** The ids of each list are printed. *)
Definition print_lists (m : PostingListManager) (pls : list ptr) : option unit :=
  foldr (fun (p : ptr) k => _ ← GetIdsFromPostingList (p ≫= fun c => ids_table_ m !! c) m; k) (Some tt) pls.

(** The lists of one value of the query. *)
Definition collect_value (m : PostingListManager) (field : Field) (grp : MergerGroup) (v : key) : option MergerGroup :=
  let includes := GetIncludeBitmap v field in
  _ ← print_lists m includes;
  let excludes := GetExcludeBitmap v field in
  _ ← print_lists m excludes;
  Some (mkGroup (list_to_set includes ∪ includes_ grp) (list_to_set excludes ∪ excludes_ grp) (wildcards_ grp)).

(** The body of the loop of [UnifyQuery]. *)
Definition query_field (m : PostingListManager) (query : gmap key (list key)) (field_name : key) (field : Field)
    (g : BitMapMerger) : option BitMapMerger :=
  g ← match query !! field_name with
      | None => CalculateMergerGroup m (mkGroup ∅ ∅ {[wildcards_pl_ field]}) g
      | Some query_values =>
          grp ← foldl (fun acc v => grp ← acc; collect_value m field grp v) (Some (mkGroup ∅ ∅ ∅)) query_values;
          let grp := mkGroup (includes_ grp) (excludes_ grp) ({[wildcards_pl_ field]} ∪ wildcards_ grp) in
          _ ← print_lists m [wildcards_pl_ field];
          CalculateMergerGroup m grp g
      end;
  _ ← EndMerger m g;
  Some g.

Definition UnifyQuery (query : gmap key (list key)) (ix : Indexer) : option (gset Z) :=
  let m := pl_manager_ ix in
  let g := StartMerger m in
  _ ← EndMerger m g;
  g ← foldl (fun acc '(field_name, field) => g ← acc; query_field m query field_name field g) (Some g)
        (walk (map_to_list (indexer_table_ ix)));
  EndMerger m g.
End Index.
End Indexer.
