(* ===== verification/InvertedProofs.v ===== *)
(** * The inverted index: proofs and theorems

    [mgr_ok] says that the manager numbers the document ids in order, [table_ok] that
    every posting list it owns holds the set its key is the code of; [field_ok] ties a
    field of the index to the sets its documents gave.  A query keeps, bit by bit, the
    documents that pass the fields walked so far ([merger_ok]). *)
From stdpp Require Import gmap sorting.
From S2P Require Import Prelude StrUtils Crc BitMap InvertedIndexer.
Import BitMap PostingListManager Fields.

Module Sorted.
Lemma sorted_perm X : sorted X ≡ₚ elements X.
Proof. apply merge_sort_Permutation. Qed.
Lemma elem_sorted X id : id ∈ sorted X <-> id ∈ X.
Proof. rewrite sorted_perm; apply elem_of_elements. Qed.
Lemma NoDup_sorted X : base.NoDup (sorted X).
Proof. rewrite sorted_perm; apply NoDup_elements. Qed.
Lemma length_sorted X : length (sorted X) = size X.
Proof. by rewrite sorted_perm. Qed.
Lemma sorted_sorted X : StronglySorted Z.le (sorted X).
Proof. apply StronglySorted_merge_sort; intros x y; lia. Qed.

Lemma ss_lookup l : StronglySorted Z.le l -> forall i j a b, (i <= j)%nat -> l !! i = Some a -> l !! j = Some b -> a <= b.
Proof.
  induction 1 as [|x l Hs IH Hf]; intros i j a b Hij Ha Hb; [by rewrite lookup_nil in Ha|].
  rewrite list.Forall_forall in Hf; destruct i as [|i], j as [|j]; cbn in Ha, Hb; simplify_eq; [lia| |lia|eapply (IH i j); eauto; lia].
  apply Hf; by eapply list_elem_of_lookup_2.
Qed.
(** Positions follow the order of the ids. *)
Lemma position_mono X i j a b : sorted X !! i = Some a -> sorted X !! j = Some b -> a <= b -> (i <= j)%nat.
Proof.
  intros Ha Hb Hab; destruct (decide (i <= j)%nat) as [|Hn]; [done|].
  pose proof (ss_lookup _ (sorted_sorted X) j i b a ltac:(lia) Hb Ha).
  assert (a = b) as <- by lia; pose proof (NoDup_lookup _ _ _ _ (NoDup_sorted X) Ha Hb); lia.
Qed.
Lemma last_max X : X <> ∅ -> List.last (sorted X) 0 ∈ X /\ forall id, id ∈ X -> id <= List.last (sorted X) 0.
Proof.
  intros Hne; pose proof (length_sorted X) as Hl; pose proof (size_non_empty_iff X) as Hs.
  assert (size X <> 0%nat) as Hz by (apply Hs; set_solver).
  assert (sorted X !! (length (sorted X) - 1)%nat = Some (List.last (sorted X) 0)) as E.
  { destruct (sorted X) as [|x l] using rev_ind; [cbn in Hl; lia|]. rewrite length_app, last_last; cbn.
    rewrite lookup_app_r by lia; by replace (length l + 1 - 1 - length l)%nat with 0%nat by lia. }
  split; [apply elem_sorted; by eapply list_elem_of_lookup_2|]; intros id Hid.
  apply elem_sorted, list_elem_of_lookup in Hid as [i Hi].
  apply (ss_lookup _ (sorted_sorted X) i (length (sorted X) - 1)%nat); [|done|done].
  apply lookup_lt_Some in Hi; lia.
Qed.
End Sorted.

Module ManagerProofs.
Import Sorted.

(** The list [pl] holds the set [X] among the ids numbered by [L]. *)
Record holds (L : list Z) (X : gset Z) (pl : BitMapPostingList) : Prop := {
  h_count : id_count_ pl = Z.of_nat (size X);
  h_bits : 0 <= bit_count_ pl;
  h_size : nwords pl = Z.to_nat ((bit_count_ pl + 63) / 64);
  h_at : forall i id, L !! i = Some id -> bit_at pl i = bool_decide (id ∈ X) }.

Definition numbers (L : list Z) (t : gmap Z Z) : Prop :=
  forall id i, t !! id = Some i <-> exists n : nat, i = Z.of_nat n /\ L !! n = Some id.

Definition code (X : gset Z) : Z := crc_code (sorted X).

Section Family.
(** The sets the index is built from; no two of them share a code. *)
Variable fam : gset Z -> Prop.
Hypothesis fam_inj : forall X Y, fam X -> fam Y -> code X = code Y -> X = Y.
Variable ids : gset Z.
Hypothesis fam_sub : forall X, fam X -> X ⊆ ids.

Record mgr_ok (m : PostingListManager) : Prop := {
  m_sorted : sorted_doc_ids_ m = sorted ids;
  m_idx : numbers (sorted ids) (doc_id_to_bit_idx_ m);
  m_table : forall c pl, ids_table_ m !! c = Some pl -> exists X, fam X /\ c = code X /\ holds (sorted ids) X pl }.

(** The loop that sets the bits of a list. *)
Lemma set_bits L t l : numbers L t -> forall pl, (forall id, id ∈ l -> exists n : nat, L !! n = Some id /\ (n < 64 * nwords pl)%nat) ->
  exists pl', foldl (fun acc doc_id => pl ← acc; i ← t !! doc_id; SetBit i pl) (Some pl) l = Some pl' /\
    nwords pl' = nwords pl /\ bit_count_ pl' = bit_count_ pl /\ id_count_ pl' = id_count_ pl /\
    (base.NoDup L -> forall i id, L !! i = Some id -> bit_at pl' i = bit_at pl i || bool_decide (id ∈ l)).
Proof.
  intros Ht; induction l as [|d l IH]; intros pl Hl.
  { exists pl; split_and!; [done..|]; intros _ i id Hi; rewrite bool_decide_eq_false_2 by apply not_elem_of_nil; by rewrite orb_false_r. }
  destruct (Hl d ltac:(left)) as (n & Hn & Hb); cbn [foldl mbind option_bind].
  rewrite (proj2 (Ht d (Z.of_nat n))) by eauto; cbn [mbind option_bind].
  destruct (SetBit_spec pl n Hb) as (p1 & -> & S1 & B1 & C1 & A1).
  destruct (IH p1) as (p2 & E2 & S2 & B2 & C2 & A2); [intros id Hid; rewrite S1; apply Hl; by right|].
  exists p2; split_and!; [done|congruence..|]; intros HL i id Hi; rewrite (A2 HL i id Hi), A1, <- orb_assoc; f_equal.
  assert (bool_decide (i = n) = bool_decide (id = d)) as ->.
  { apply bool_decide_ext; split; [intros ->; congruence|intros ->; by eapply NoDup_lookup]. }
  by rewrite <- bool_decide_or; apply bool_decide_ext; rewrite elem_of_cons.
Qed.

Lemma build_ok X m : mgr_ok m -> fam X ->
  exists p m', BuildBitMapPostingListForIds X m = Some (p, m') /\ mgr_ok m' /\ ids_table_ m ⊆ ids_table_ m' /\
    p = (if bool_decide (X = ∅) then None else Some (code X)) /\
    (X <> ∅ -> exists pl, ids_table_ m' !! code X = Some pl /\ holds (sorted ids) X pl).
Proof.
  intros [Hs Hi Ht] HX; unfold BuildBitMapPostingListForIds; case_bool_decide as Hne.
  { by exists None, m. }
  fold (code X); destruct (ids_table_ m !! code X) as [pl|] eqn:E.
  - destruct (Ht _ _ E) as (Y & HY & EY & HH); apply fam_inj in EY as <-; [|done|done].
    rewrite (h_count _ _ _ HH), length_sorted, Z.eqb_refl; exists (Some (code X)), m; split_and!; eauto; done.
  - destruct (last_max X Hne) as [Hin Hmax]; set (lst := List.last (sorted X) 0) in *.
    assert (lst ∈ ids) as Hini by (by apply (fam_sub X)).
    apply elem_sorted, list_elem_of_lookup in Hini as [k Hk].
    assert (doc_id_to_bit_idx_ m !! lst = Some (Z.of_nat k)) as Ek by (apply Hi; eauto).
    rewrite Ek; cbn [default from_option]; unfold id; rewrite (fin_maps.insert_id _ _ _ Ek).
    set (p0 := BitMap.new _ _ _).
    assert (nwords p0 = Z.to_nat ((Z.of_nat k + 1 + 63) / 64)) as S0 by apply length_replicate.
    assert (Z.of_nat k + 1 <= 64 * ((Z.of_nat k + 1 + 63) / 64)) as Hw by (pose proof (Z.div_mod (Z.of_nat k + 1 + 63) 64); pose proof (Z.mod_pos_bound (Z.of_nat k + 1 + 63) 64); lia).
    destruct (set_bits (sorted ids) _ (sorted X) Hi p0) as (p1 & -> & S1 & B1 & C1 & A1).
    { intros d Hd; apply elem_sorted in Hd; pose proof (Hmax d Hd); apply (fam_sub X) in Hd; [|done].
      apply elem_sorted, list_elem_of_lookup in Hd as [n Hn]; exists n; split; [done|].
      pose proof (position_mono ids n k d lst Hn Hk ltac:(lia)); lia. }
    assert (holds (sorted ids) X p1) as HH.
    { constructor; [by rewrite C1; cbn; rewrite length_sorted|rewrite B1; cbn; lia|by rewrite S1, S0, B1|].
      intros i d Hd; rewrite (A1 (NoDup_sorted ids) i d Hd).
      assert (bit_at p0 i = false) as ->.
      { destruct (decide (i < 64 * nwords p0)%nat); [|apply bit_beyond; lia]; unfold p0; rewrite new_at; [apply Z.bits_0|rewrite <- S0; lia]. }
      cbn; apply bool_decide_ext, elem_sorted. }
    cbn [mbind option_bind]; eexists _, _; split; [done|]; cbn; split_and!; [|by apply insert_subseteq|done|].
    + constructor; [done|done|]; cbn; intros c pl; rewrite lookup_insert_Some; intros [[<- <-]|[_ ?]]; eauto.
    + intros _; exists p1; by rewrite lookup_insert_eq.
Qed.
End Family.
End ManagerProofs.

(* ------------------------------------------------------------------ *)
(** * What the documents say *)

Module IndexerProofs.
Import Sorted ManagerProofs Indexer.

(** The document says nothing the field [f] must include, names [v] among what it
    must include, or among what it must exclude. *)
Definition wild (f : key) (doc : Document) : bool :=
  match conditions_ doc !! f with None => true | Some e => bool_decide (values_ e = []) || exclude_ e end.
(** [b]: included, [negb b]: excluded. *)
Definition names (b : bool) (f v : key) (doc : Document) : bool :=
  match conditions_ doc !! f with None => false | Some e => bool_decide (exclude_ e = negb b) && bool_decide (v ∈ values_ e) end.

Definition ids_at (b : bool) (v : key) (e : FieldEntity) : gset Z :=
  default ∅ ((if b then include_ids e else exclude_ids e) !! v).

Record ent_ok (f : key) (docs : list Document) (e : FieldEntity) : Prop := {
  e_wild : forall id, id ∈ wildcards e <-> exists doc, doc ∈ docs /\ id = document_id_ doc /\ wild f doc = true;
  e_ids : forall b v id, id ∈ ids_at b v e <-> exists doc, doc ∈ docs /\ id = document_id_ doc /\ names b f v doc = true }.

Lemma ent_ok_nil f : ent_ok f [] empty_entity.
Proof.
  split; [intros id; cbn; split; [set_solver|intros (? & ?%not_elem_of_nil & _); done]|].
  intros b v id; unfold ids_at; cbn; destruct b; rewrite lookup_empty; cbn; (split; [set_solver|intros (? & ?%not_elem_of_nil & _); done]).
Qed.

Lemma ids_at_insert b v e b' v' id :
  ids_at b v (AddIdForAssign v' (negb b') id e) = if bool_decide (b = b' /\ v = v') then {[id]} ∪ ids_at b v e else ids_at b v e.
Proof.
  unfold ids_at, AddIdForAssign, Fields.insert_id; destruct b, b'; cbn; try (rewrite bool_decide_eq_false_2 by naive_solver; done);
    destruct (decide (v = v')) as [->|Hn]; rewrite ?lookup_insert_eq, ?lookup_insert_ne by done;
    first [rewrite bool_decide_eq_true_2 by done|rewrite bool_decide_eq_false_2 by naive_solver]; done.
Qed.

(** The loop over the values of an expression. *)
Lemma add_values b id vs : forall e,
  let e' := foldl (fun e assign => AddIdForAssign assign (negb b) id e) e vs in
  wildcards e' = wildcards e /\
  forall b' v id', id' ∈ ids_at b' v e' <-> id' ∈ ids_at b' v e \/ (b' = b /\ v ∈ vs /\ id' = id).
Proof.
  induction vs as [|v0 vs IH]; intros e; cbn [foldl].
  { split; [done|]; intros; split; [by left|]; intros [|(_ & ?%not_elem_of_nil & _)]; done. }
  destruct (IH (AddIdForAssign v0 (negb b) id e)) as [Hw Hi]; split; [rewrite Hw; by destruct b|].
  intros b' v id'; rewrite Hi, ids_at_insert, elem_of_cons; case_bool_decide as E; [destruct E as [-> ->]|]; [set_solver|].
  naive_solver.
Qed.

Lemma add_to_entity_ok f docs e doc : ent_ok f docs e -> ent_ok f (docs ++ [doc]) (add_to_entity doc f e).
Proof.
  intros [Hw Hi].
  assert (forall P : Document -> Prop, (exists d, d ∈ docs ++ [doc] /\ P d) <-> (exists d, d ∈ docs /\ P d) \/ P doc) as Hex.
  { intros P; setoid_rewrite elem_of_app; setoid_rewrite list_elem_of_singleton; naive_solver. }
  split; [intros id|intros b v id]; rewrite Hex; clear Hex; unfold add_to_entity, wild, names.
  - destruct (conditions_ doc !! f) as [[x vs]|]; cbn [exclude_ values_]; [|cbn; set_solver].
    case_bool_decide; [cbn; set_solver|].
    destruct (add_values (negb x) (document_id_ doc) vs e) as [Hv _]; rewrite negb_involutive in Hv.
    destruct x; cbn [orb wildcards AddWildcardsId]; rewrite Hv; set_solver.
  - destruct (conditions_ doc !! f) as [[x vs]|]; cbn [exclude_ values_]; [|setoid_rewrite <- Hi; naive_solver].
    assert (forall e, ids_at b v (AddWildcardsId (document_id_ doc) e) = ids_at b v e) as Haw by done.
    case_bool_decide as E0; [subst vs; rewrite Haw, Hi; rewrite (bool_decide_eq_false_2 (v ∈ [])) by apply not_elem_of_nil; rewrite andb_false_r; naive_solver|].
    destruct (add_values (negb x) (document_id_ doc) vs e) as [_ Hv]; rewrite negb_involutive in Hv.
    transitivity (id ∈ ids_at b v (foldl (fun e assign => AddIdForAssign assign x (document_id_ doc) e) e vs)); [by destruct x; rewrite ?Haw|].
    rewrite Hv, Hi, andb_true_iff, !bool_decide_eq_true; destruct x, b; cbn; naive_solver.
Qed.

Section Walk.
Variable walk : forall A, list A -> list A.
Arguments walk {_} _.
Hypothesis walk_perm : forall A (l : list A), walk l ≡ₚ l.

(** The loop over the fields updates each of them once. *)
Lemma update_fields (g : key -> FieldEntity -> FieldEntity) l : base.NoDup l -> forall (es : gmap key FieldEntity) f,
  default empty_entity (foldl (fun es f => <[f := g f (default empty_entity (es !! f))]> es) es l !! f) =
  if bool_decide (f ∈ l) then g f (default empty_entity (es !! f)) else default empty_entity (es !! f).
Proof.
  induction 1 as [|f0 l Hn Hl IH]; intros es f; cbn [foldl]; [by rewrite bool_decide_eq_false_2 by apply not_elem_of_nil|].
  rewrite IH; destruct (decide (f = f0)) as [->|Hf].
  - by rewrite bool_decide_eq_false_2, bool_decide_eq_true_2, lookup_insert_eq by first [done|left].
  - rewrite lookup_insert_ne by done; by rewrite (bool_decide_ext (f ∈ f0 :: l) (f ∈ l)) by (rewrite elem_of_cons; naive_solver).
Qed.

Lemma walk_elements (X : gset key) f : f ∈ walk (elements X) <-> f ∈ X.
Proof. rewrite walk_perm; apply elem_of_elements. Qed.
Lemma walk_NoDup (X : gset key) : base.NoDup (walk (elements X)).
Proof. rewrite walk_perm; apply NoDup_elements. Qed.

(** The indexer before it is built. *)
Definition added (d : DefaultDelegate) (docs : list Document) : Indexer :=
  foldl (fun ix doc => AddDocument (@walk) d doc ix) new docs.
Definition entity (d : DefaultDelegate) (docs : list Document) (f : key) : FieldEntity :=
  default empty_entity (field_entitys_ (added d docs) !! f).

Lemma added_ok d docs :
  build_finished_ (added d docs) = false /\ pl_manager_ (added d docs) = PostingListManager.new /\ indexer_table_ (added d docs) = ∅ /\
  all_documens_ids_ (added d docs) = list_to_set (document_id_ <$> docs) /\
  forall f, f ∈ indexer_fields_ d -> ent_ok f docs (entity d docs f).
Proof.
  unfold entity; induction docs as [|doc docs IH] using rev_ind.
  { split_and!; [done..|]; intros f _; apply ent_ok_nil. }
  unfold added in *; rewrite foldl_app; cbn [foldl]; set (ix := foldl _ _ _) in *; destruct IH as (Hb & Hm & Ht & Hi & He).
  unfold AddDocument; rewrite Hb; cbn; split_and!; [done..| |].
  - rewrite fmap_app, list_to_set_app_L, Hi; cbn; set_solver.
  - intros f Hf; rewrite (update_fields (add_to_entity doc)) by apply walk_NoDup.
    rewrite bool_decide_eq_true_2 by (by apply walk_elements); by apply add_to_entity_ok, He.
Qed.

(** ** Building *)

Lemma numbers_set (ids : list Z) (m : PostingListManager) : base.NoDup ids -> doc_id_to_bit_idx_ m = ∅ ->
  sorted_doc_ids_ (SetSortedIndexedIds ids m) = merge_sort Z.le ids /\ ids_table_ (SetSortedIndexedIds ids m) = ids_table_ m /\
  numbers (merge_sort Z.le ids) (doc_id_to_bit_idx_ (SetSortedIndexedIds ids m)).
Proof.
  intros Hn Hm; unfold SetSortedIndexedIds; set (L := merge_sort Z.le ids).
  assert (base.NoDup L) as HL by (by unfold L; rewrite merge_sort_Permutation).
  rewrite Hm; set (b0 := bit_idx_to_doc_id_ m); clearbody b0.
  assert (forall n, (n <= length L)%nat -> forall id i,
    (foldl (fun '(a, b) i => let id := nth i L 0 in (<[id := Z.of_nat i]> a, <[Z.of_nat i := id]> b)) ((∅ : gmap Z Z), b0) (seq 0 n)).1 !! id = Some i
    <-> exists k : nat, (k < n)%nat /\ i = Z.of_nat k /\ L !! k = Some id) as H.
  { induction n as [|n IH]; intros Hle id i; [cbn; rewrite lookup_empty; naive_solver lia|].
    rewrite seq_S, foldl_app; cbn [foldl]; specialize (IH ltac:(lia)); destruct (foldl _ _ (seq 0 n)) as [a b]; cbn in IH |- *.
    destruct (lookup_lt_is_Some_2 L n ltac:(lia)) as [x Hx]; rewrite (nth_lookup_Some _ _ _ _ Hx).
    rewrite lookup_insert_Some, IH; split.
    - intros [[<- <-]|(Hne & k & Hk & -> & HLk)]; [exists n; auto|exists k; split; [lia|done]].
    - intros (k & Hk & -> & HLk); destruct (decide (k = n)) as [->|]; [left; naive_solver|right]; split; [|exists k; split; [lia|done]].
      intros ->; by pose proof (NoDup_lookup _ _ _ _ HL Hx HLk). }
  specialize (H (length L) ltac:(lia)); destruct (foldl _ _ _) as [a b]; cbn in H |- *; split_and!; [done..|].
  intros id i; rewrite H; split; [naive_solver|]; intros (k & -> & Hk); exists k; split_and!; try done; by eapply lookup_lt_Some.
Qed.

Definition general (f : Field) : Prop := match class_ f with GeneralStrField _ _ => True | _ => False end.
Definition lists_at (b : bool) (v : key) (f : Field) : list ptr := if b then GetIncludeBitmap v f else GetExcludeBitmap v f.

Lemma resolve_general b v pl f : general f -> exists f', ResolveValueWithPostingList v b pl f = Some f' /\ general f' /\
  wildcards_pl_ f' = wildcards_pl_ f /\ forall b' v', lists_at b' v' f' = if bool_decide (b' = b /\ v' = v) then [pl] else lists_at b' v' f.
Proof.
  unfold general, ResolveValueWithPostingList, lists_at, GetIncludeBitmap, GetExcludeBitmap; destruct (class_ f) as [inc exc|]; [|done]; intros _.
  eexists; split; [done|]; destruct b; cbn; (split; [done|]; split; [done|]); intros b' v'; destruct b';
    try (rewrite bool_decide_eq_false_2 by naive_solver; done); destruct (decide (v' = v)) as [->|Hn];
    rewrite ?lookup_insert_eq, ?lookup_insert_ne by done;
    first [rewrite bool_decide_eq_true_2 by done|rewrite bool_decide_eq_false_2 by naive_solver]; done.
Qed.

Section Build.
Variable fam : gset Z -> Prop.
Hypothesis fam_inj : forall X Y, fam X -> fam Y -> code X = code Y -> X = Y.
Variable ids : gset Z.
Hypothesis fam_sub : forall X, fam X -> X ⊆ ids.

Abbreviation mok := (mgr_ok fam ids).
Definition stored (m : PostingListManager) (X : gset Z) : Prop :=
  X <> ∅ -> exists pl, ids_table_ m !! code X = Some pl /\ holds (sorted ids) X pl.
Lemma stored_mono m m' X : ids_table_ m ⊆ ids_table_ m' -> stored m X -> stored m' X.
Proof. intros Hs H Hne; destruct (H Hne) as (pl & E & HH); exists pl; split; [by eapply lookup_weaken|done]. Qed.

Definition ptr_of (X : gset Z) : ptr := if bool_decide (X = ∅) then None else Some (code X).
Definition ptrs_of (X : gset Z) : list ptr := if bool_decide (X = ∅) then [] else [Some (code X)].

Lemma resolve_values_ok b l : base.NoDup l.*1 -> (forall v X, (v, X) ∈ l -> fam X) -> forall f m, general f -> mok m ->
  exists f' m', foldl (fun acc '(assign, s) =>
    '(f, m) ← acc;
    if bool_decide (s = ∅) then Some (f, m)
    else '(pl, m) ← BuildBitMapPostingListForIds s m;
         match pl with
         | None => None
         | Some _ => f ← ResolveValueWithPostingList assign b pl f; Some (f, m)
         end) (Some (f, m)) l = Some (f', m') /\
    general f' /\ mok m' /\ ids_table_ m ⊆ ids_table_ m' /\ wildcards_pl_ f' = wildcards_pl_ f /\
    (forall v, lists_at (negb b) v f' = lists_at (negb b) v f) /\
    (forall v, (forall X, (v, X) ∉ l) -> lists_at b v f' = lists_at b v f) /\
    (forall v X, (v, X) ∈ l -> lists_at b v f = [] -> lists_at b v f' = ptrs_of X /\ stored m' X).
Proof.
  induction l as [|[v0 X0] l IH]; cbn [foldl fmap list_fmap fst]; intros Hn Hl f m Hf Hm.
  { exists f, m; split_and!; try done; intros v X ?%not_elem_of_nil; done. }
  apply list.NoDup_cons in Hn as [Hv0 Hn]; assert (forall X, (v0, X) ∉ l) as Hv1.
  { intros X HX; apply Hv0, list_elem_of_fmap; by exists (v0, X). }
  specialize (IH Hn (fun v X HX => Hl v X ltac:(by right))); cbn [mbind option_bind]; unfold ptrs_of; case_bool_decide as E.
  - destruct (IH f m Hf Hm) as (f' & m' & E' & G & M & T & W & Lo & Ln & Li); exists f', m'; split_and!; try done.
    + intros v Hv; apply Ln; intros X HX; apply (Hv X); by right.
    + intros v X [[= -> ->]|HX]%elem_of_cons Hnil; [|by apply Li].
      rewrite bool_decide_eq_true_2, Ln by done; split; [done|]; by intros [].
  - destruct (build_ok fam fam_inj ids fam_sub X0 m Hm (Hl v0 X0 ltac:(left))) as (p & m1 & -> & M1 & T1 & -> & St1).
    rewrite bool_decide_eq_false_2 by done; cbn [mbind option_bind].
    destruct (resolve_general b v0 (Some (code X0)) f Hf) as (f1 & -> & G1 & W1 & L1); cbn [mbind option_bind].
    destruct (IH f1 m1 G1 M1) as (f' & m' & E' & G & M & T & W & Lo & Ln & Li); exists f', m'; split_and!; try done; try congruence.
    + by etransitivity.
    + intros v; rewrite Lo, L1, bool_decide_eq_false_2; [done|]; by destruct b; intros [].
    + intros v Hv; rewrite Ln by (intros X HX; apply (Hv X); by right); rewrite L1, bool_decide_eq_false_2; [done|].
      intros [_ ->]; apply (Hv X0); left.
    + intros v X [[= -> ->]|HX]%elem_of_cons Hnil.
      * rewrite Ln, L1, bool_decide_eq_true_2, bool_decide_eq_false_2 by done; split; [done|]; by apply (stored_mono m1).
      * apply Li; [done|]; rewrite L1, bool_decide_eq_false_2; [done|]; intros [_ ->]; by apply (Hv1 X).
Qed.

(** A field of the index and the entity it was built from. *)
Record field_ok (m : PostingListManager) (e : FieldEntity) (f : Field) : Prop := {
  f_wild : wildcards_pl_ f = ptr_of (wildcards e);
  f_wild_st : stored m (wildcards e);
  f_lists : forall b v, lists_at b v f = ptrs_of (ids_at b v e);
  f_lists_st : forall b v, stored m (ids_at b v e) }.
Lemma field_ok_mono m m' e f : ids_table_ m ⊆ ids_table_ m' -> field_ok m e f -> field_ok m' e f.
Proof. intros Hs [H1 H2 H3 H4]; constructor; try done; intros; by eapply stored_mono. Qed.

Definition entity_fam (e : FieldEntity) : Prop :=
  fam (wildcards e) /\ (forall v X, include_ids e !! v = Some X -> fam X) /\ (forall v X, exclude_ids e !! v = Some X -> fam X).

Lemma map_loop (b : bool) (M : gmap key (gset Z)) f m : (forall (v : key) X, M !! v = Some X -> fam X) -> general f -> mok m -> (forall v : key, lists_at b v f = []) ->
  exists f' m', resolve_values (@walk) b M (Some (f, m)) = Some (f', m') /\
    general f' /\ mok m' /\ ids_table_ m ⊆ ids_table_ m' /\ wildcards_pl_ f' = wildcards_pl_ f /\
    (forall v, lists_at (negb b) v f' = lists_at (negb b) v f) /\
    (forall v, lists_at b v f' = ptrs_of (default ∅ (M !! v)) /\ stored m' (default ∅ (M !! v))).
Proof.
  intros HM Hf Hm He; unfold resolve_values.
  assert (forall v X, (v, X) ∈ walk (map_to_list M) <-> M !! v = Some X) as Hin by (intros; rewrite walk_perm; apply elem_of_map_to_list).
  destruct (resolve_values_ok b (walk (map_to_list M))) with (f := f) (m := m) as (f' & m' & E & G & M' & T & W & Lo & Ln & Li); try done.
  { rewrite walk_perm; apply NoDup_fst_map_to_list. }
  { intros v X HX; apply (HM v), Hin, HX. }
  exists f', m'; split_and!; try done; intros v; destruct (M !! v) as [X|] eqn:E1; cbn.
  - apply Li; [by apply Hin|done].
  - rewrite Ln, He by (intros X HX%Hin; congruence); split; [unfold ptrs_of; by rewrite bool_decide_eq_true_2|by intros []].
Qed.

Lemma build_field_ok d f ix : creators_ d = ∅ -> indexer_table_ ix !! f = None -> mok (pl_manager_ ix) ->
  let e := default empty_entity (field_entitys_ ix !! f) in entity_fam e ->
  exists m field, build_field (@walk) d f ix = Some (mkIndexer (build_finished_ ix) (all_documents_ ix) (all_documens_ids_ ix)
      (<[f := e]> (field_entitys_ ix)) m (<[f := field]> (indexer_table_ ix))) /\
    mok m /\ ids_table_ (pl_manager_ ix) ⊆ ids_table_ m /\ field_ok m e field.
Proof.
  intros Hc Ht Hm e (F1 & F2 & F3); unfold build_field; fold e; unfold GetPostingListField, CreatePostinglistField; rewrite Ht, Hc, lookup_empty.
  destruct (build_ok fam fam_inj ids fam_sub _ _ Hm F1) as (p & m1 & -> & M1 & T1 & Ep & St1); cbn [mbind option_bind].
  set (f0 := SetWildcardsPostingList _ _).
  destruct (map_loop true (include_ids e) f0 m1) as (f1 & m2 & -> & G2 & M2 & T2 & W2 & Lo2 & Li2); [done..|].
  destruct (map_loop false (exclude_ids e) f1 m2) as (f2 & m3 & -> & G3 & M3 & T3 & W3 & Lo3 & Li3); [done..|intros v; exact (Lo2 v)|].
  cbn [mbind option_bind]; exists m3, f2; split; [done|]; split; [done|]; split; [by do 2 (etransitivity; [eassumption|])|].
  constructor; [rewrite W3, W2; done|apply (stored_mono m1); [by etransitivity|exact St1]| |]; intros [] v; unfold ids_at.
  - etransitivity; [exact (Lo3 v)|apply Li2].
  - apply Li3.
  - apply (stored_mono m2), Li2; done.
  - apply Li3.
Qed.

Lemma build_fields_ok d l : creators_ d = ∅ -> base.NoDup l -> forall ix, mok (pl_manager_ ix) ->
  (forall f, f ∈ l -> indexer_table_ ix !! f = None /\ entity_fam (default empty_entity (field_entitys_ ix !! f))) ->
  exists ix', foldl (fun acc f => ix ← acc; build_field (@walk) d f ix) (Some ix) l = Some ix' /\
    mok (pl_manager_ ix') /\ ids_table_ (pl_manager_ ix) ⊆ ids_table_ (pl_manager_ ix') /\
    (forall f, f ∈ l -> exists field, indexer_table_ ix' !! f = Some field /\
       field_ok (pl_manager_ ix') (default empty_entity (field_entitys_ ix !! f)) field) /\
    (forall f, f ∉ l -> indexer_table_ ix' !! f = indexer_table_ ix !! f).
Proof.
  intros Hc; induction 1 as [|f0 l Hn Hl IH]; intros ix Hm Hf; cbn [foldl mbind option_bind].
  { exists ix; split_and!; try done; by intros f ?%not_elem_of_nil. }
  destruct (Hf f0 ltac:(left)) as [Ht He].
  destruct (build_field_ok d f0 ix Hc Ht Hm He) as (m & field & -> & M1 & T1 & F1); set (ix1 := mkIndexer _ _ _ _ _ _).
  assert (forall f, f <> f0 -> indexer_table_ ix1 !! f = indexer_table_ ix !! f /\ field_entitys_ ix1 !! f = field_entitys_ ix !! f) as Hne.
  { intros f Hne; cbn; by rewrite !lookup_insert_ne. }
  destruct (IH ix1 M1) as (ix' & E & M' & T' & Fi & Fo).
  { intros f Hfl; destruct (Hne f) as [-> ->]; [by intros ->|]; apply Hf; by right. }
  exists ix'; split_and!; [done|done|by etransitivity| |].
  - intros f [->|Hfl]%elem_of_cons.
    + exists field; split; [rewrite Fo by done; cbn; by rewrite lookup_insert_eq|by apply (field_ok_mono m)].
    + destruct (Fi f Hfl) as (fd & E1 & F2); exists fd; split; [done|]; destruct (Hne f) as [_ E2]; [by intros ->|]; by rewrite E2 in F2.
  - intros f [Hf0 Hfl]%not_elem_of_cons; rewrite Fo by done; by apply Hne.
Qed.
End Build.
End Walk.
End IndexerProofs.
