(* ===== verification/InvertedQuery.v ===== *)
(** * The inverted index: queries

    What [CalculateMergerGroup] does to each position, and the theorems on
    [UnifyQuery] and on [RangeField]. *)
From stdpp Require Import gmap sorting.
From S2P Require Import Prelude StrUtils Crc BitMap InvertedIndexer InvertedProofs.
Import BitMap PostingListManager Fields Indexer Sorted ManagerProofs IndexerProofs.

Module QueryProofs.

(** ** Reading a list *)

(** The words a list of [n] bits has. *)
Definition sized (n : Z) (pl : BitMapPostingList) : Prop :=
  0 <= n /\ bit_count_ pl = n /\ nwords pl = Z.to_nat ((n + 63) / 64).

Lemma sized_words n pl : sized n pl -> (Z.to_nat n <= 64 * nwords pl)%nat /\ ((Z.to_nat (n + 1) <= 64 * nwords pl)%nat <-> n mod 64 <> 0).
Proof.
  intros (Hn & _ & ->); pose proof (Z.div_mod (n + 63) 64 ltac:(lia)); pose proof (Z.mod_pos_bound (n + 63) 64 ltac:(lia)).
  pose proof (Z.div_mod n 64 ltac:(lia)); pose proof (Z.mod_pos_bound n 64 ltac:(lia)).
  assert (0 <= (n + 63) / 64) by (apply Z.div_pos; lia); split; [lia|]; split; intros; nia || lia.
Qed.

(** The loop of [GetIdsFromPostingList]. *)
Lemma get_ids_loop (L : list Z) pl k :
  (k <= 64 * nwords pl)%nat ->
  exists r, foldl (fun acc i => r ← acc; b ← IsBitSet (Z.of_nat i) pl;
    Some (if b && (Z.of_nat i <? zlen L) then {[nth i L 0]} ∪ r else r)) (Some (∅ : gset Z)) (seq 0 k) = Some r /\
  forall id, id ∈ r <-> exists i, (i < k)%nat /\ bit_at pl i = true /\ L !! i = Some id.
Proof.
  induction k as [|k IH]; intros Hk; [exists ∅; split; [done|]; intros id; split; [set_solver|naive_solver lia]|].
  destruct IH as (r & E & Hr); [lia|]; rewrite seq_S, foldl_app, E; cbn [foldl mbind option_bind].
  rewrite Nat.add_0_l, IsBitSet_spec, (proj2 (Nat.ltb_lt _ _)) by lia; cbn [mbind option_bind]; eexists; split; [done|]; intros id.
  assert ((exists i, (i < S k)%nat /\ bit_at pl i = true /\ L !! i = Some id) <->
          id ∈ r \/ (bit_at pl k = true /\ L !! k = Some id)) as ->.
  { rewrite Hr; split; [intros (i & Hi & Ha & HL); destruct (decide (i = k)) as [->|]; [by right|left; exists i; split; [lia|done]]|].
    intros [(i & Hi & ?)|?]; [exists i; split; [lia|done]|exists k; split; [lia|done]]. }
  destruct (bit_at pl k); cbn [andb]; [|naive_solver]; destruct (Z.ltb_spec (Z.of_nat k) (zlen L)) as [Hl|Hl].
  - destruct (lookup_lt_is_Some_2 L k ltac:(lia)) as [x Hx]; rewrite (nth_lookup_Some _ _ _ _ Hx), Hx; set_solver.
  - rewrite lookup_ge_None_2 by lia; naive_solver.
Qed.

Lemma get_ids_fails (L : list Z) pl k : (64 * nwords pl < k)%nat ->
  foldl (fun acc i => r ← acc; b ← IsBitSet (Z.of_nat i) pl;
    Some (if b && (Z.of_nat i <? zlen L) then {[nth i L 0]} ∪ r else r)) (Some (∅ : gset Z)) (seq 0 k) = None.
Proof.
  induction k as [|k IH]; intros Hk; [lia|]; rewrite seq_S, foldl_app; cbn [foldl].
  destruct (decide (64 * nwords pl < k)%nat) as [Hl|Hl]; [by rewrite IH by done|].
  destruct (get_ids_loop L pl k ltac:(lia)) as (r & -> & _); cbn [mbind option_bind].
  by rewrite Nat.add_0_l, IsBitSet_spec, (proj2 (Nat.ltb_ge _ _)) by lia.
Qed.

(** It returns unless the number of bits is a multiple of 64. *)
Lemma get_ids_spec n pl m : sized n pl ->
  if bool_decide (n mod 64 = 0) then GetIdsFromPostingList (Some pl) m = None
  else exists r, GetIdsFromPostingList (Some pl) m = Some r /\
    forall id, id ∈ r <-> exists i, (i < Z.to_nat (n + 1))%nat /\ bit_at pl i = true /\ sorted_doc_ids_ m !! i = Some id.
Proof.
  intros Hs; destruct (sized_words n pl Hs) as [_ Hw]; destruct Hs as (_ & Hb & _); unfold GetIdsFromPostingList; rewrite Hb.
  case_bool_decide as E; [apply get_ids_fails|apply get_ids_loop; by apply Hw].
  destruct (decide (Z.to_nat (n + 1) <= 64 * nwords pl)%nat); [|lia]; by apply Hw in E.
Qed.

(** ** Merging *)

(** Position [i] of the list behind a pointer. *)
Definition deref (m : PostingListManager) (p : ptr) : option BitMapPostingList := p ≫= fun c => ids_table_ m !! c.
Definition den (m : PostingListManager) (i : nat) (p : ptr) : bool :=
  match deref m p with Some pl => bit_at pl i | None => false end.

Lemma apply_lists_ok op g m : (forall q p i, (i < 64 * nwords p)%nat -> bit_at (op q p) i = g (bit_at p i) (bit_at q i)) ->
  (forall q p, nwords (op q p) = nwords p /\ bit_count_ (op q p) = bit_count_ p) ->
  forall ps pl, (forall p, p ∈ ps -> is_Some (deref m p)) ->
  exists pl', apply_lists op m ps pl = Some pl' /\ nwords pl' = nwords pl /\ bit_count_ pl' = bit_count_ pl /\
    forall i, (i < 64 * nwords pl)%nat -> bit_at pl' i = foldl (fun b p => g b (den m i p)) (bit_at pl i) ps.
Proof.
  intros Ha Hs ps; unfold apply_lists; induction ps as [|p ps IH]; intros pl Hp; cbn [foldl mbind option_bind]; [by exists pl|].
  destruct (Hp p ltac:(left)) as [q Hq]; assert (apply_list op m p pl = Some (op q pl)) as -> by (unfold apply_list; unfold deref in Hq; by rewrite Hq).
  destruct (IH (op q pl)) as (pl' & E & S1 & B1 & A1); [intros p' Hp'; apply Hp; by right|].
  destruct (Hs q pl) as [S0 B0]; exists pl'; split_and!; [done|congruence..|]; intros i Hi; rewrite A1 by (rewrite S0; done).
  rewrite Ha by done; f_equal; f_equal; unfold den; by rewrite Hq.
Qed.

(** A null pointer is followed. *)
Lemma apply_lists_null op m : (forall q p, nwords (op q p) = nwords p) ->
  forall ps pl, None ∈ ps -> (0 < nwords pl)%nat -> apply_lists op m ps pl = None.
Proof.
  intros Hs ps; unfold apply_lists.
  assert (forall ps, foldl (fun acc q => pl ← acc; apply_list op m q pl) None ps = None) as Hnone by (intros l; induction l as [|? ? IHn]; [done|exact IHn]).
  induction ps as [|p ps IH]; intros pl Hin Hw; [by apply not_elem_of_nil in Hin|]; cbn [foldl mbind option_bind].
  assert (forall r, apply_list op m p pl = r -> r = None \/ (p <> None /\ exists q, r = Some (op q pl))) as Hc.
  { intros r <-; unfold apply_list; destruct p as [c|]; cbn; [destruct (ids_table_ m !! c); [eauto|]|]; destruct (ids_bitmap_ pl); cbn in Hw; [lia|auto|lia|auto]. }
  destruct (Hc _ eq_refl) as [->|(Hp & q & ->)]; [apply Hnone|]; apply IH; [apply elem_of_cons in Hin as [<-|]; done|by rewrite Hs].
Qed.

Lemma fold_or (h : ptr -> bool) ps : forall b, foldl (fun b p => b || h p) b ps = true <-> b = true \/ exists p, p ∈ ps /\ h p = true.
Proof.
  induction ps as [|p ps IH]; intros b; cbn [foldl].
  { split; [by left|]; intros [|(? & ?%not_elem_of_nil & _)]; done. }
  rewrite IH, orb_true_iff; setoid_rewrite elem_of_cons; naive_solver.
Qed.
Lemma fold_andnot (h : ptr -> bool) ps : forall b, foldl (fun b p => b && negb (h p)) b ps = true <-> b = true /\ ~ exists p, p ∈ ps /\ h p = true.
Proof.
  induction ps as [|p ps IH]; intros b; cbn [foldl].
  { split; [|naive_solver]; intros ->; split; [done|]; intros (? & ?%not_elem_of_nil & _); done. }
  rewrite IH, andb_true_iff, negb_true_iff; split.
  - intros [[Hb Hp] Hn]; split; [done|]; intros (p' & [->|Hp']%elem_of_cons & Hh); [congruence|apply Hn; by exists p'].
  - intros [Hb Hn]; split; [split; [done|]|].
    + apply not_true_is_false; intros Hh; apply Hn; exists p; split; [left|done].
    + intros (p' & Hp' & Hh); apply Hn; exists p'; split; [by right|done].
Qed.

Section Query.
Variable walk : forall A, list A -> list A.
Arguments walk {_} _.
Hypothesis walk_perm : forall A (l : list A), walk l ≡ₚ l.
Variable ids : gset Z.
Abbreviation L := (sorted ids).
Abbreviation n := (zlen L).

Record merger_ok (g : BitMapMerger) : Prop := { g_result : sized n (result_pl_ g); g_group : sized n (group_result_pl_ g) }.

Lemma walk_ptrs (S : gset ptr) p : p ∈ walk (elements S) <-> p ∈ S.
Proof. rewrite walk_perm; apply elem_of_elements. Qed.

(** One group: the documents of an included list or of the wildcards, without those of
    the excluded lists. *)
Lemma group_ok m grp g : n mod 64 <> 0 -> merger_ok g ->
  (forall p, p ∈ includes_ grp \/ p ∈ wildcards_ grp \/ p ∈ excludes_ grp -> is_Some (deref m p)) ->
  exists g', CalculateMergerGroup (@walk) m grp g = Some g' /\ merger_ok g' /\
    forall i, (i < length L)%nat -> bit_at (result_pl_ g') i = true <-> bit_at (result_pl_ g) i = true /\
      (exists p, (p ∈ includes_ grp \/ p ∈ wildcards_ grp) /\ den m i p = true) /\ ~ (exists p, p ∈ excludes_ grp /\ den m i p = true).
Proof.
  intros Hn [Hr Hg] Hp; unfold CalculateMergerGroup; set (g0 := ResetBits _).
  assert (sized n g0) as H0 by (destruct Hg as (? & ? & ?); split_and!; [done..|]; unfold g0; cbn; by rewrite length_fmap).
  assert (forall q p, nwords (Union q p) = nwords p /\ bit_count_ (Union q p) = bit_count_ p) as HU by (intros; cbn; by rewrite length_words).
  assert (forall q p, nwords (Substract q p) = nwords p /\ bit_count_ (Substract q p) = bit_count_ p) as HS by (intros; cbn; by rewrite length_words).
  assert (forall pl, sized n pl -> exists r, GetIdsFromPostingList (Some pl) m = Some r) as HI.
  { intros pl Hs; pose proof (get_ids_spec n pl m Hs) as Hi; rewrite bool_decide_eq_false_2 in Hi by done; naive_solver. }
  destruct (apply_lists_ok Union orb m Union_at HU (walk (elements (includes_ grp))) g0) as (p1 & -> & S1 & B1 & A1); [intros p Hw%walk_ptrs; auto|].
  assert (sized n p1) as H1 by (destruct H0 as (? & ? & ?); split_and!; congruence).
  destruct (HI p1 H1) as [r1 E1]; cbn [mbind option_bind]; rewrite E1; cbn [mbind option_bind].
  destruct (apply_lists_ok Union orb m Union_at HU (walk (elements (wildcards_ grp))) p1) as (p2 & -> & S2 & B2 & A2); [intros p Hw%walk_ptrs; auto|].
  assert (sized n p2) as H2 by (destruct H1 as (? & ? & ?); split_and!; congruence).
  destruct (HI p2 H2) as [r2 E2]; cbn [mbind option_bind]; rewrite E2; cbn [mbind option_bind].
  destruct (apply_lists_ok Substract (fun b c => b && negb c) m Substract_at HS (walk (elements (excludes_ grp))) p2) as (p3 & -> & S3 & B3 & A3); [intros p Hw%walk_ptrs; auto|].
  assert (sized n p3) as H3 by (destruct H2 as (? & ? & ?); split_and!; congruence).
  destruct (HI p3 H3) as [r3 E3]; cbn [mbind option_bind]; rewrite E3; cbn [mbind option_bind].
  assert (nwords (result_pl_ g) = nwords p3) as Hsame by (destruct Hr as (_ & _ & ->), H3 as (_ & _ & ->); done).
  eexists; split; [done|]; split.
  { split; [|done]; cbn [result_pl_]; rewrite Intersect_same by done; destruct Hr as (? & ? & ?); split_and!; [done..|]; cbn; by rewrite length_words. }
  intros i Hi; cbn [result_pl_]; destruct (sized_words _ _ H3) as [Hw3 _].
  rewrite Intersect_at, andb_true_iff by (try done; lia); rewrite A3 by lia; rewrite A2 by lia; rewrite A1 by lia.
  rewrite fold_andnot, fold_or, fold_or; unfold g0; rewrite ResetBits_at; setoid_rewrite walk_ptrs; naive_solver.
Qed.

(** A null pointer among the wildcards. *)
Lemma group_null m grp g : merger_ok g -> 0 < n -> None ∈ wildcards_ grp -> CalculateMergerGroup (@walk) m grp g = None.
Proof.
  intros [_ (Hz & Hb & Hw)] Hn Hnull; unfold CalculateMergerGroup; set (g0 := ResetBits _).
  assert (0 < nwords g0)%nat as H0.
  { unfold g0; cbn; rewrite length_fmap, Hw; assert (0 < (n + 63) / 64) by (apply Z.div_str_pos; lia); lia. }
  assert (forall ps pl, (0 < nwords pl)%nat -> match apply_lists Union m ps pl with Some pl' => (0 < nwords pl')%nat | None => True end) as Hk.
  { unfold apply_lists; intros ps; induction ps as [|p ps IH]; intros pl Hp; cbn [foldl mbind option_bind]; [done|].
    assert (apply_list Union m p pl = match deref m p with Some q => Some (Union q pl) | None => match ids_bitmap_ pl with [] => Some pl | _ => None end end) as -> by done.
    destruct (deref m p) as [q|]; [apply IH; cbn; by rewrite length_words|].
    destruct (ids_bitmap_ pl) eqn:E; [cbn in Hp; lia|].
    clear; induction ps as [|? ? IHn]; [done|exact IHn]. }
  specialize (Hk (walk (elements (includes_ grp))) g0 H0); destruct (apply_lists _ _ _ g0) as [p1|]; [|done]; cbn [mbind option_bind].
  destruct (GetIdsFromPostingList _ _); [|done]; cbn [mbind option_bind].
  rewrite apply_lists_null; [done|intros; cbn; by rewrite length_words|by apply walk_ptrs|done].
Qed.

(** A list whose number of bits is a multiple of 64. *)
Definition full_word (m : PostingListManager) : Prop :=
  exists c pl, ids_table_ m !! c = Some pl /\ bit_count_ pl mod 64 = 0.

Lemma elem_ptrs_of X p : p ∈ ptrs_of X <-> X <> ∅ /\ p = Some (code X).
Proof.
  unfold ptrs_of; case_bool_decide; [|rewrite list_elem_of_singleton; naive_solver].
  split; [by intros ?%not_elem_of_nil|naive_solver].
Qed.
Lemma stored_deref m X p : stored ids m X -> p ∈ ptrs_of X -> is_Some (deref m p).
Proof. intros Hs [Hne ->]%elem_ptrs_of; destruct (Hs Hne) as (pl & E & _); exists pl; done. Qed.
Lemma stored_den m X p i id : stored ids m X -> L !! i = Some id -> (p ∈ ptrs_of X /\ den m i p = true) <-> (id ∈ X /\ p = Some (code X)).
Proof.
  intros Hs Hi; rewrite elem_ptrs_of; split.
  - intros [[Hne ->] Hd]; destruct (Hs Hne) as (pl & E & HH); unfold den, deref in Hd; cbn in Hd; rewrite E, (h_at _ _ _ HH i id Hi) in Hd.
    by apply bool_decide_eq_true in Hd.
  - intros [Hid ->]; assert (X <> ∅) as Hne by set_solver; destruct (Hs Hne) as (pl & E & HH); split; [done|].
    unfold den, deref; cbn; rewrite E, (h_at _ _ _ HH i id Hi); by apply bool_decide_eq_true.
Qed.

Lemma print_ok m X : stored ids m X -> print_lists m (ptrs_of X) = Some tt \/ (print_lists m (ptrs_of X) = None /\ full_word m).
Proof.
  intros Hs; unfold ptrs_of; case_bool_decide as Hne; [by left|]; destruct (Hs Hne) as (pl & E & HH); cbn; rewrite E.
  assert (sized (bit_count_ pl) pl) as Hz by (destruct HH; done).
  pose proof (get_ids_spec _ pl m Hz) as Hg; case_bool_decide; [right; rewrite Hg; split; [done|by exists (code X), pl]|].
  left; destruct Hg as (r & -> & _); done.
Qed.

(** The lists the values of the query name. *)
Lemma collect_ok m e field vs : field_ok ids m e field -> forall grp,
  match foldl (fun acc v => grp ← acc; collect_value m field grp v) (Some grp) vs with
  | Some grp' => wildcards_ grp' = wildcards_ grp /\
      (forall p, p ∈ includes_ grp' <-> p ∈ includes_ grp \/ exists v, v ∈ vs /\ p ∈ ptrs_of (ids_at true v e)) /\
      (forall p, p ∈ excludes_ grp' <-> p ∈ excludes_ grp \/ exists v, v ∈ vs /\ p ∈ ptrs_of (ids_at false v e))
  | None => full_word m
  end.
Proof.
  intros Hf; assert (forall l, foldl (fun acc v => grp ← acc; collect_value m field grp v) None l = None) as Hnone by (intros l; induction l as [|? ? IHn]; [done|exact IHn]).
  induction vs as [|v vs IH]; intros grp; cbn [foldl mbind option_bind].
  { split; [done|]; split; intros p; (split; [by left|intros [|(? & ?%not_elem_of_nil & _)]; done]). }
  unfold collect_value at 2; destruct Hf as [_ _ Hl Hs]; pose proof (Hl true v) as E1; pose proof (Hl false v) as E2; cbn in E1, E2; rewrite E1, E2.
  destruct (print_ok m _ (Hs true v)) as [->|[-> Hw]]; [|cbn; by rewrite Hnone]; cbn [mbind option_bind].
  destruct (print_ok m _ (Hs false v)) as [->|[-> Hw]]; [|cbn; by rewrite Hnone]; cbn [mbind option_bind].
  specialize (IH (mkGroup (list_to_set (ptrs_of (ids_at true v e)) ∪ includes_ grp) (list_to_set (ptrs_of (ids_at false v e)) ∪ excludes_ grp) (wildcards_ grp))).
  destruct (foldl _ _ vs) as [grp'|]; [|done]; cbn in IH; destruct IH as (Iw & Ii & Ie); split; [done|].
  split; intros p; rewrite ?Ii, ?Ie, elem_of_union, elem_of_list_to_set; setoid_rewrite elem_of_cons; naive_solver.
Qed.

(** What a field asks of a document. *)
Definition meets (qv : option (list key)) (e : FieldEntity) (id : Z) : Prop :=
  match qv with
  | None => id ∈ wildcards e
  | Some vs => (id ∈ wildcards e \/ exists v, v ∈ vs /\ id ∈ ids_at true v e) /\ ~ exists v, v ∈ vs /\ id ∈ ids_at false v e
  end.

Lemma wild_ptr m e field : field_ok ids m e field -> wildcards e <> ∅ -> ptrs_of (wildcards e) = [wildcards_pl_ field].
Proof. intros [-> _ _ _] Hne; unfold ptrs_of, ptr_of; by rewrite bool_decide_eq_false_2. Qed.

Lemma end_ok m g : n mod 64 <> 0 -> merger_ok g -> exists r, EndMerger m g = Some r.
Proof.
  intros Hn [Hr _]; pose proof (get_ids_spec n _ m Hr) as Hg; rewrite bool_decide_eq_false_2 in Hg by done; unfold EndMerger; naive_solver.
Qed.

Lemma query_field_ok m query f e field g : n mod 64 <> 0 -> wildcards e <> ∅ -> field_ok ids m e field -> merger_ok g ->
  match query_field (@walk) m query f field g with
  | Some g' => merger_ok g' /\ forall i id, L !! i = Some id -> bit_at (result_pl_ g') i = true <-> bit_at (result_pl_ g) i = true /\ meets (query !! f) e id
  | None => full_word m
  end.
Proof.
  intros Hn Hne Hf Hg; pose proof (wild_ptr m e field Hf Hne) as Hw; pose proof Hf as [_ Hws Hl Hs]; unfold query_field.
  assert (forall p, p = wildcards_pl_ field <-> p ∈ ptrs_of (wildcards e)) as Hwp by (intros p; by rewrite Hw, list_elem_of_singleton).
  destruct (query !! f) as [vs|] eqn:Eq.
  - pose proof (collect_ok m e field vs Hf (mkGroup ∅ ∅ ∅)) as Hc; destruct (foldl _ _ vs) as [grp|]; [|done]; cbn [mbind option_bind].
    destruct Hc as (Cw & Ci & Ce); cbn in Cw, Ci, Ce; rewrite <- Hw.
    setoid_rewrite elem_of_empty in Ci; setoid_rewrite elem_of_empty in Ce; setoid_rewrite (left_id False or) in Ci; setoid_rewrite (left_id False or) in Ce.
    destruct (print_ok m _ Hws) as [->|[-> Hfw]]; [|done]; cbn [mbind option_bind].
    edestruct (group_ok m (mkGroup (includes_ grp) (excludes_ grp) ({[wildcards_pl_ field]} ∪ wildcards_ grp)) g Hn Hg) as (g' & -> & Hg' & Ha); cbn [includes_ excludes_ wildcards_] in *; cbn [mbind option_bind meets].
    { intros p; rewrite Ci, Ce, Cw, (right_id_L ∅ (∪)), elem_of_singleton, Hwp; intros [(v & _ & Hp)|[Hp|(v & _ & Hp)]]; (eapply stored_deref; [|exact Hp]; auto). }
    destruct (end_ok m g' Hn Hg') as [r ->]; split; [done|]; intros i id Hi; rewrite Ha by (by eapply lookup_lt_Some).
    rewrite Cw, (right_id_L ∅ (∪)); setoid_rewrite Ci; setoid_rewrite Ce; setoid_rewrite elem_of_singleton; setoid_rewrite Hwp.
    f_equiv; f_equiv.
    + split.
      * intros (p & [(v & Hv & Hp)|Hp] & Hd); [right; exists v; split; [done|]; by apply (stored_den m _ p i id (Hs true v) Hi)|].
        left; by apply (stored_den m _ p i id Hws Hi).
      * intros [Hid|(v & Hv & Hid)].
        -- destruct (proj2 (stored_den m _ (Some (code (wildcards e))) i id Hws Hi)) as [Hp Hd]; [done|]; eauto.
        -- destruct (proj2 (stored_den m _ (Some (code (ids_at true v e))) i id (Hs true v) Hi)) as [Hp Hd]; [done|]; eauto 10.
    + f_equiv; split.
      * intros (p & (v & Hv & Hp) & Hd); exists v; split; [done|]; by apply (stored_den m _ p i id (Hs false v) Hi).
      * intros (v & Hv & Hid); destruct (proj2 (stored_den m _ (Some (code (ids_at false v e))) i id (Hs false v) Hi)) as [Hp Hd]; [done|]; eauto 10.
  - edestruct (group_ok m (mkGroup ∅ ∅ {[wildcards_pl_ field]}) g Hn Hg) as (g' & -> & Hg' & Ha); cbn [includes_ excludes_ wildcards_] in *; cbn [mbind option_bind meets].
    { intros p [[]%not_elem_of_empty|[->%elem_of_singleton|[]%not_elem_of_empty]]; eapply stored_deref; [exact Hws|by apply Hwp]. }
    destruct (end_ok m g' Hn Hg') as [r ->]; split; [done|]; intros i id Hi; rewrite Ha by (by eapply lookup_lt_Some); f_equiv.
    setoid_rewrite elem_of_empty; setoid_rewrite elem_of_singleton; setoid_rewrite Hwp; split.
    + intros [(p & [[]|Hp] & Hd) _]; by apply (stored_den m _ p i id Hws Hi).
    + intros Hid; destruct (proj2 (stored_den m _ (Some (code (wildcards e))) i id Hws Hi)) as [Hp Hd]; [done|]; split; [eauto|by intros (? & [] & _)].
Qed.

Lemma query_field_null m query f e field g : 0 < n -> wildcards e = ∅ -> field_ok ids m e field -> merger_ok g ->
  query_field (@walk) m query f field g = None.
Proof.
  intros Hn He [Hw _ _ _] Hg; unfold query_field.
  assert (wildcards_pl_ field = None) as Hnull by (rewrite Hw; unfold ptr_of; by rewrite bool_decide_eq_true_2).
  destruct (query !! f) as [vs|].
  - destruct (foldl _ _ vs) as [grp|]; [|done]; cbn [mbind option_bind]; destruct (print_lists _ _); [|done]; cbn [mbind option_bind].
    rewrite group_null; [done..|]; cbn; rewrite Hnull; set_solver.
  - rewrite group_null; [done..|]; cbn; rewrite Hnull; set_solver.
Qed.
End Query.
End QueryProofs.

Module InvertedTheorems.
Import QueryProofs.

(** The sets the index builds posting lists from. *)
Definition posting_sets (d : DefaultDelegate) (ix : Indexer) : list (gset Z) :=
  elements (indexer_fields_ d) ≫= fun f =>
    let e := default empty_entity (field_entitys_ ix !! f) in
    wildcards e :: (map_to_list (include_ids e)).*2 ++ (map_to_list (exclude_ids e)).*2.
(** No two of them have the same CRC. *)
Definition collision_free (sets : list (gset Z)) : Prop :=
  Forall (fun X => Forall (fun Y => code X = code Y -> X = Y) sets) sets.
#[export] Instance collision_free_dec sets : Decision (collision_free sets).
Proof. unfold collision_free; apply _. Defined.

(** The documents a query is about. *)
Definition matches (query : gmap key (list key)) (fields : gset key) (doc : Document) : bool :=
  forallb (fun f =>
    match query !! f with
    | None => wild f doc
    | Some vs => (wild f doc || existsb (fun v => names true f v doc) vs) && negb (existsb (fun v => names false f v doc) vs)
    end) (elements fields).

Section Walk.
Variable walk : forall A, list A -> list A.
Arguments walk {_} _.
Hypothesis walk_perm : forall A (l : list A), walk l ≡ₚ l.

Lemma built_ok d docs : creators_ d = ∅ -> collision_free (posting_sets d (added (@walk) d docs)) ->
  let ids := list_to_set (document_id_ <$> docs) in
  exists ix, BuildIndexer (@walk) d (added (@walk) d docs) = Some ix /\ sorted_doc_ids_ (pl_manager_ ix) = sorted ids /\
    (forall f, f ∈ indexer_fields_ d -> exists field, indexer_table_ ix !! f = Some field /\ field_ok ids (pl_manager_ ix) (entity (@walk) d docs f) field) /\
    (forall f field, indexer_table_ ix !! f = Some field -> f ∈ indexer_fields_ d).
Proof.
  intros Hc Hcf ids; destruct (added_ok (@walk) walk_perm d docs) as (Hb & Hm & Ht & Hi & He).
  unfold BuildIndexer; rewrite Hb, Hm, Ht, Hi; fold ids.
  set (fam := fun X => X ∈ posting_sets d (added (@walk) d docs)).
  assert (forall f, f ∈ indexer_fields_ d -> entity_fam fam (entity (@walk) d docs f)) as Hfam.
  { intros f Hf; assert (forall X, X ∈ wildcards (entity (@walk) d docs f) :: (map_to_list (include_ids (entity (@walk) d docs f))).*2 ++ (map_to_list (exclude_ids (entity (@walk) d docs f))).*2 -> fam X) as Hx.
    { intros X HX; apply list_elem_of_bind; exists f; split; [done|by apply elem_of_elements]. }
    split_and!; [apply Hx; left|..]; intros v X HX; apply Hx; right; apply elem_of_app; [left|right]; apply list_elem_of_fmap; exists (v, X); (split; [done|by apply elem_of_map_to_list]). }
  assert (forall X Y, fam X -> fam Y -> code X = code Y -> X = Y) as Hinj.
  { intros X Y HX HY; unfold collision_free in Hcf; rewrite list.Forall_forall in Hcf; specialize (Hcf X HX); rewrite list.Forall_forall in Hcf; by apply Hcf. }
  assert (forall X, fam X -> X ⊆ ids) as Hsub.
  { intros X HX id Hid; apply list_elem_of_bind in HX as (f & HX & Hf); apply elem_of_elements in Hf; destruct (He f Hf) as [Ew Ei].
    assert ((exists doc, doc ∈ docs /\ id = document_id_ doc) -> id ∈ ids) as Hdoc by (intros (doc & Hd & ->); apply elem_of_list_to_set, list_elem_of_fmap; eauto).
    apply Hdoc; change (default empty_entity (field_entitys_ (added (@walk) d docs) !! f)) with (entity (@walk) d docs f) in HX.
    apply elem_of_cons in HX as [->|[HX|HX]%elem_of_app]; [apply Ew in Hid; naive_solver|..];
      apply list_elem_of_fmap in HX as ([v X'] & -> & HX%elem_of_map_to_list); cbn in Hid.
    - assert (id ∈ ids_at true v (entity (@walk) d docs f)) as Hat by (unfold ids_at; by rewrite HX); apply Ei in Hat; naive_solver.
    - assert (id ∈ ids_at false v (entity (@walk) d docs f)) as Hat by (unfold ids_at; by rewrite HX); apply Ei in Hat; naive_solver. }
  destruct (numbers_set (elements ids) PostingListManager.new (NoDup_elements ids) eq_refl) as (N1 & N2 & N3).
  edestruct (build_fields_ok (@walk) walk_perm fam Hinj ids Hsub d (walk (elements (indexer_fields_ d))) Hc (walk_NoDup (@walk) walk_perm _)) as (ix & -> & M & _ & Fi & Fo).
  3: { cbn [mbind option_bind]; eexists; split; [done|]; cbn; split; [apply M|]; split.
       - intros f Hf; apply Fi; by apply walk_elements.
       - intros f field E; destruct (decide (f ∈ indexer_fields_ d)) as [|Hn]; [done|]; rewrite Fo in E by (by rewrite walk_elements); cbn in E; by rewrite lookup_empty in E. }
  - constructor; cbn; [done|done|]; intros c pl E; rewrite N2 in E; cbn in E; by rewrite lookup_empty in E.
  - intros f Hf%walk_elements; [|done]; cbn; split; [apply lookup_empty|by apply Hfam].
Qed.

Lemma query_loop ids m query (E : key -> FieldEntity) l : zlen (sorted ids) mod 64 <> 0 ->
  (forall f field, (f, field) ∈ l -> field_ok ids m (E f) field /\ wildcards (E f) <> ∅) -> forall g, merger_ok ids g ->
  match foldl (fun acc '(f, field) => g ← acc; query_field (@walk) m query f field g) (Some g) l with
  | Some g' => merger_ok ids g' /\ forall i id, sorted ids !! i = Some id ->
      bit_at (result_pl_ g') i = true <-> bit_at (result_pl_ g) i = true /\ forall f field, (f, field) ∈ l -> meets (query !! f) (E f) id
  | None => full_word m
  end.
Proof.
  intros Hn; induction l as [|[f field] l IH]; intros Hl g Hg; cbn [foldl mbind option_bind].
  { split; [done|]; intros i id Hi; split; [intros ?; split; [done|]; by intros ? ? ?%not_elem_of_nil|naive_solver]. }
  destruct (Hl f field ltac:(left)) as [Hf Hw]; pose proof (query_field_ok (@walk) walk_perm ids m query f (E f) field g Hn Hw Hf Hg) as Hq.
  destruct (query_field _ _ _ _ _ _) as [g1|]; [|by assert (foldl (fun acc '(f, field) => g ← acc; query_field (@walk) m query f field g) None l = None) as -> by (clear; induction l as [|[] ? IHn]; [done|exact IHn])].
  destruct Hq as [Hg1 Ha1]; specialize (IH (fun f' fd H' => Hl f' fd ltac:(by right)) g1 Hg1); destruct (foldl _ _ l) as [g'|]; [|done].
  destruct IH as [Hg' Ha']; split; [done|]; intros i id Hi; rewrite (Ha' i id Hi), (Ha1 i id Hi); split.
  - intros [[H1 H2] H3]; split; [done|]; intros f' fd [[= -> ->]|H']%elem_of_cons; [done|by eapply H3].
  - intros [H1 H2]; split; [split; [done|]; eapply H2; left|]; intros f' fd H'; eapply H2; by right.
Qed.

Lemma query_loop_null ids m query (E : key -> FieldEntity) l : zlen (sorted ids) mod 64 <> 0 ->
  (forall f field, (f, field) ∈ l -> field_ok ids m (E f) field) ->
  (exists f field, (f, field) ∈ l /\ wildcards (E f) = ∅) -> forall g, merger_ok ids g ->
  foldl (fun acc '(f, field) => g ← acc; query_field (@walk) m query f field g) (Some g) l = None.
Proof.
  intros Hn; assert (0 < zlen (sorted ids)) as Hpos by (destruct (sorted ids); cbn in *; [done|lia]).
  assert (forall l, foldl (fun acc '(f, field) => g ← acc; query_field (@walk) m query f field g) None l = None) as Hnone by (clear; intros l; induction l as [|[] ? IHn]; [done|exact IHn]).
  induction l as [|[f field] l IH]; intros Hl (f0 & fd0 & H0 & Hw0) g Hg; [by apply not_elem_of_nil in H0|]; cbn [foldl mbind option_bind].
  pose proof (Hl f field ltac:(left)) as Hf; destruct (decide (wildcards (E f) = ∅)) as [Hw|Hw].
  { erewrite query_field_null by eauto; apply Hnone. }
  pose proof (query_field_ok (@walk) walk_perm ids m query f (E f) field g Hn Hw Hf Hg) as Hq.
  destruct (query_field _ _ _ _ _ _) as [g1|]; [|apply Hnone]; destruct Hq as [Hg1 _]; apply IH; [intros f' fd H'; apply Hl; by right| |done].
  apply elem_of_cons in H0 as [[= -> ->]|H0]; [done|by exists f0, fd0].
Qed.

Lemma start_ok ids m : sorted_doc_ids_ m = sorted ids -> merger_ok ids (StartMerger m) /\
  forall i, (i < length (sorted ids))%nat -> bit_at (result_pl_ (StartMerger m)) i = true.
Proof.
  intros Hs; assert (sized (zlen (sorted ids)) (CreateMergePostingList m)) as Hz.
  { unfold CreateMergePostingList; rewrite Hs; split_and!; [lia|done|]; cbn; by rewrite length_replicate. }
  split; [by split|]; intros i Hi; cbn [StartMerger result_pl_]; destruct (sized_words _ _ Hz) as [Hw _].
  unfold CreateMergePostingList in *; rewrite Hs in *; rewrite new_at; [|cbn in Hw; rewrite length_replicate in Hw; lia].
  assert (forallb (fun k => Z.testbit FULLUINT64BIT (Z.of_nat k)) (seq 0 64) = true) as Hall by done.
  rewrite forallb_forall in Hall; pose proof (Z.mod_pos_bound (Z.of_nat i) 64 ltac:(lia)).
  rewrite <- (Z2Nat.id (63 - Z.of_nat i mod 64)) by lia; apply Hall, in_seq; lia.
Qed.
End Walk.

Lemma length_ids docs : base.NoDup (document_id_ <$> docs) ->
  zlen (sorted (list_to_set (document_id_ <$> docs))) = zlen docs.
Proof. intros Hn; rewrite length_sorted, size_list_to_set by done; by rewrite length_fmap. Qed.

(** What a field asks of the ids is what it asks of the document. *)
Lemma meets_doc f docs e doc qv : ent_ok f docs e -> base.NoDup (document_id_ <$> docs) -> doc ∈ docs ->
  meets qv e (document_id_ doc) <->
  match qv with
  | None => wild f doc
  | Some vs => (wild f doc || existsb (fun v => names true f v doc) vs) && negb (existsb (fun v => names false f v doc) vs)
  end = true.
Proof.
  intros [Hw Hi] Hn Hd.
  assert (forall P : Document -> bool, (exists d, d ∈ docs /\ document_id_ doc = document_id_ d /\ P d = true) <-> P doc = true) as Huniq.
  { intros P; split; [|eauto]; intros (d & Hd' & E & HP); assert (d = doc) as <-; [|done].
    apply list_elem_of_lookup in Hd as [i Hi1], Hd' as [j Hj1]; assert (i = j) as ->; [|congruence].
    eapply (NoDup_lookup _ _ _ (document_id_ doc) Hn); rewrite list_lookup_fmap; [by rewrite Hi1|by rewrite Hj1; cbn; rewrite E]. }
  assert (forall b vs, (exists v, v ∈ vs /\ document_id_ doc ∈ ids_at b v e) <-> existsb (fun v => names b f v doc) vs = true) as Hex.
  { intros b vs; rewrite existsb_exists; setoid_rewrite <- list_elem_of_In; setoid_rewrite Hi; setoid_rewrite Huniq; done. }
  destruct qv as [vs|]; cbn [meets]; [|by rewrite Hw, Huniq].
  by rewrite !Hex, Hw, Huniq, andb_true_iff, orb_true_iff, negb_true_iff, not_true_iff_false.
Qed.

(** The two ways in which every query of an index fails. *)
Lemma query_fails (walk : forall A, list A -> list A) d docs query ix :
  (forall A (l : list A), walk A l ≡ₚ l) -> base.NoDup (document_id_ <$> docs) ->
  let ids := list_to_set (document_id_ <$> docs) in
  sorted_doc_ids_ (pl_manager_ ix) = sorted ids ->
  (forall f, f ∈ indexer_fields_ d -> exists field, indexer_table_ ix !! f = Some field /\ field_ok ids (pl_manager_ ix) (entity walk d docs f) field) ->
  (forall f field, indexer_table_ ix !! f = Some field -> f ∈ indexer_fields_ d) ->
  zlen docs mod 64 = 0 \/ (exists f, f ∈ indexer_fields_ d /\ wildcards (entity walk d docs f) = ∅) ->
  UnifyQuery walk query ix = None.
Proof.
  intros Hp Hn ids Hs Fi Fo H; pose proof (length_ids docs Hn) as Hlen; fold ids in Hlen; unfold UnifyQuery; destruct (start_ok ids _ Hs) as [Hst _].
  destruct (decide (zlen docs mod 64 = 0)) as [H64|H64].
  { destruct Hst as [Hz _]; pose proof (get_ids_spec _ _ (pl_manager_ ix) Hz) as Hg; rewrite Hlen, bool_decide_eq_true_2 in Hg by done.
    unfold EndMerger; by rewrite Hg. }
  destruct H as [|(f & Hf & Hw)]; [done|]; destruct (end_ok ids (pl_manager_ ix) _ ltac:(by rewrite Hlen) Hst) as [r0 ->]; cbn [mbind option_bind].
  assert (forall f field, (f, field) ∈ walk _ (map_to_list (indexer_table_ ix)) <-> indexer_table_ ix !! f = Some field) as Hin by (intros; rewrite Hp; apply elem_of_map_to_list).
  rewrite (query_loop_null walk Hp ids (pl_manager_ ix) query (entity walk d docs)); [done|by rewrite Hlen| | |done].
  - intros f' fd H'%Hin; destruct (Fi f' (Fo _ _ H')) as (fd' & E' & F'); congruence.
  - destruct (Fi f Hf) as (fd & E' & _); exists f, fd; split; [by apply Hin|done].
Qed.

(** A field without wildcards in terms of the documents. *)
Lemma no_wildcards f docs e : ent_ok f docs e -> wildcards e = ∅ <-> forall doc, doc ∈ docs -> wild f doc = false.
Proof.
  intros [Hw _]; split.
  - intros E doc Hd; apply not_true_is_false; intros Ht; assert (document_id_ doc ∈ wildcards e) by (apply Hw; eauto); set_solver.
  - intros H; apply set_eq; intros id; rewrite Hw; split; [intros (doc & Hd & _ & Ht); by rewrite H in Ht|set_solver].
Qed.

(** C28.  In an index of string fields (none with a field indexer of its own) over documents
    with distinct ids, no two posting lists of which have the same checksum, and for any
    order in which the hash tables are walked, a query returns the ids of exactly the
    documents whose conditions it meets: for
    every registered field the query leaves out, the documents that include nothing;
    for one it gives values for, those that include nothing or one of the values and
    exclude none.  It does not return only when the number of documents is a multiple
    of 64, when some field has a condition to include in every document, or when a
    posting list has a multiple of 64 bits. *)
Theorem inverted_query_exact (walk : forall A, list A -> list A) (d : DefaultDelegate) (docs : list Document) (query : gmap key (list key)) :
  (forall A (l : list A), walk A l ≡ₚ l) -> creators_ d = ∅ -> base.NoDup (document_id_ <$> docs) ->
  collision_free (posting_sets d (added walk d docs)) ->
  exists ix, BuildIndexer walk d (added walk d docs) = Some ix /\
  match UnifyQuery walk query ix with
  | Some r => forall id, id ∈ r <-> exists doc, doc ∈ docs /\ document_id_ doc = id /\ matches query (indexer_fields_ d) doc = true
  | None => zlen docs mod 64 = 0 \/ (exists f, f ∈ indexer_fields_ d /\ forall doc, doc ∈ docs -> wild f doc = false) \/ full_word (pl_manager_ ix)
  end.
Proof.
  intros Hp Hc Hn Hcf; destruct (built_ok walk Hp d docs Hc Hcf) as (ix & E & Hs & Fi & Fo); exists ix; split; [done|].
  destruct (added_ok walk Hp d docs) as (_ & _ & _ & _ & He); pose proof (length_ids docs Hn) as Hlen; set (ids := list_to_set _) in *.
  destruct (decide (zlen docs mod 64 = 0)) as [H64|H64]; [by rewrite (query_fails walk d docs query ix Hp Hn Hs Fi Fo); auto|].
  destruct (decide (Exists (fun f => wildcards (entity walk d docs f) = ∅) (elements (indexer_fields_ d)))) as [Hex|Hall].
  { apply list.Exists_exists in Hex as (f & Hf%elem_of_elements & Hw); rewrite (query_fails walk d docs query ix Hp Hn Hs Fi Fo) by eauto.
    right; left; exists f; split; [done|]; by eapply no_wildcards; [apply He|]. }
  unfold UnifyQuery; destruct (start_ok ids _ Hs) as [Hst Hone]; destruct (end_ok ids (pl_manager_ ix) _ ltac:(by rewrite Hlen) Hst) as [r0 ->]; cbn [mbind option_bind].
  assert (forall f field, (f, field) ∈ walk _ (map_to_list (indexer_table_ ix)) <-> indexer_table_ ix !! f = Some field) as Hin by (intros; rewrite Hp; apply elem_of_map_to_list).
  pose proof (query_loop walk Hp ids (pl_manager_ ix) query (entity walk d docs) (walk _ (map_to_list (indexer_table_ ix))) ltac:(by rewrite Hlen)) as Hq.
  assert (forall f fd, (f, fd) ∈ walk _ (map_to_list (indexer_table_ ix)) ->
    field_ok ids (pl_manager_ ix) (entity walk d docs f) fd /\ wildcards (entity walk d docs f) <> ∅) as Hfs.
  { intros f fd H'%Hin; destruct (Fi f (Fo _ _ H')) as (fd' & E' & F'); split; [congruence|]; intros Hw; apply Hall, list.Exists_exists; exists f; split; [apply elem_of_elements; eauto|done]. }
  specialize (Hq Hfs _ Hst); destruct (foldl _ _ _) as [g|]; [|by right; right]; cbn [mbind option_bind]; destruct Hq as [[Hz _] Ha].
  pose proof (get_ids_spec _ _ (pl_manager_ ix) Hz) as Hg; rewrite Hlen, bool_decide_eq_false_2 in Hg by done; destruct Hg as (r & Er & Hr).
  unfold EndMerger; rewrite Er; intros id; rewrite Hr, Hs.
  assert (forall doc, doc ∈ docs -> (forall f field, (f, field) ∈ walk _ (map_to_list (indexer_table_ ix)) -> meets (query !! f) (entity walk d docs f) (document_id_ doc)) <-> matches query (indexer_fields_ d) doc = true) as Hm.
  { intros doc Hd; unfold matches; rewrite forallb_forall; setoid_rewrite <- list_elem_of_In; setoid_rewrite elem_of_elements; setoid_rewrite Hin; split.
    - intros H f Hf; destruct (Fi f Hf) as (fd & Ef & _); by apply (meets_doc f docs _ doc (query !! f) (He f Hf) Hn Hd), (H f fd).
    - intros H f fd Ef; pose proof (Fo f fd Ef) as Hf; by apply (meets_doc f docs _ doc (query !! f) (He f Hf) Hn Hd), H. }
  split.
  - intros (i & _ & Hat & HL); assert (id ∈ ids) as Hid by (apply elem_sorted; by eapply list_elem_of_lookup_2).
    apply elem_of_list_to_set, list_elem_of_fmap in Hid as (doc & -> & Hd); exists doc; split; [done|]; split; [done|]; apply Hm; [done|]; by apply (Ha i _ HL).
  - intros (doc & Hd & <- & Hmat); assert (document_id_ doc ∈ ids) as Hid by (apply elem_of_list_to_set, list_elem_of_fmap; eauto).
    apply elem_sorted, list_elem_of_lookup in Hid as [i Hi]; pose proof (lookup_lt_Some _ _ _ Hi); exists i; split_and!; [lia| |done].
    apply (Ha i _ Hi); split; [by apply Hone|by apply Hm].
Qed.

(** Three documents, two fields. *)
Definition ex_delegate : DefaultDelegate := RegisterGeneralStrField (str "age") (RegisterGeneralStrField (str "city") (mkDelegate ∅ ∅)).
Definition ex_docs : list Document :=
  [mkDoc 10 {[str "city" := mkExpr false [str "bj"; str "sh"]]}; mkDoc 7 {[str "city" := mkExpr true [str "bj"]]}; mkDoc 30 ∅].
Definition ex_walk (A : Type) (l : list A) : list A := l.

Lemma inverted_query_exact_witness :
  (exists ix, BuildIndexer ex_walk ex_delegate (added ex_walk ex_delegate ex_docs) = Some ix /\
  match UnifyQuery ex_walk {[str "city" := [str "bj"]]} ix with
  | Some r => forall id, id ∈ r <-> exists doc, doc ∈ ex_docs /\ document_id_ doc = id /\ matches {[str "city" := [str "bj"]]} (indexer_fields_ ex_delegate) doc = true
  | None => zlen ex_docs mod 64 = 0 \/ (exists f, f ∈ indexer_fields_ ex_delegate /\ forall doc, doc ∈ ex_docs -> wild f doc = false) \/ full_word (pl_manager_ ix)
  end) /\
  (BuildIndexer ex_walk ex_delegate (added ex_walk ex_delegate ex_docs) ≫= UnifyQuery ex_walk {[str "city" := [str "bj"]]}) = Some {[10; 30]}.
Proof.
  split; [|vm_compute; reflexivity].
  apply (inverted_query_exact ex_walk ex_delegate ex_docs {[str "city" := [str "bj"]]}); [done|reflexivity|by vm_compute; repeat constructor; set_solver|].
  apply (bool_decide_unpack (collision_free _)); vm_compute; exact I.
Defined.

(** C29.  Such an index (string fields only, distinct ids, no two posting lists with the same
    checksum) with a multiple of 64 documents, or with a field every document includes a
    value of, answers no query: the loop that reads a list looks at the bit after its
    last word, and a field without wildcards has no list to read. *)
Theorem inverted_query_crashes (walk : forall A, list A -> list A) (d : DefaultDelegate) (docs : list Document) (query : gmap key (list key)) :
  (forall A (l : list A), walk A l ≡ₚ l) -> creators_ d = ∅ -> base.NoDup (document_id_ <$> docs) ->
  collision_free (posting_sets d (added walk d docs)) ->
  zlen docs mod 64 = 0 \/ (exists f, f ∈ indexer_fields_ d /\ forall doc, doc ∈ docs -> wild f doc = false) ->
  exists ix, BuildIndexer walk d (added walk d docs) = Some ix /\ UnifyQuery walk query ix = None.
Proof.
  intros Hp Hc Hn Hcf H; destruct (built_ok walk Hp d docs Hc Hcf) as (ix & E & Hs & Fi & Fo); exists ix; split; [done|].
  destruct (added_ok walk Hp d docs) as (_ & _ & _ & _ & He); apply (query_fails walk d docs query ix Hp Hn Hs Fi Fo).
  destruct H as [|(f & Hf & Hw)]; [by left|]; right; exists f; split; [done|]; by eapply no_wildcards; [apply He|].
Qed.

Lemma inverted_query_crashes_witness :
  exists ix, BuildIndexer ex_walk ex_delegate (added ex_walk ex_delegate [mkDoc 10 {[str "city" := mkExpr false [str "bj"]]}]) = Some ix /\
    UnifyQuery ex_walk ∅ ix = None.
Proof.
  apply (inverted_query_crashes ex_walk ex_delegate [mkDoc 10 {[str "city" := mkExpr false [str "bj"]]}] ∅);
    [done|reflexivity|by vm_compute; repeat constructor; set_solver|apply (bool_decide_unpack (collision_free _)); vm_compute; exact I|].
  right; exists (str "city"); split; [apply (bool_decide_unpack (_ ∈ _)); vm_compute; exact I|]; intros doc ->%list_elem_of_singleton; reflexivity.
Defined.

(** ** RangeField *)

(** A number written in digits is never found in a range field: reading it reaches the
    end of the string, which [ParseTo] reports as a failure.  A range whose parsing
    succeeds is not recorded, and one whose parsing fails is: the list given for the
    range 1-5 is recorded for 0, and for all the values up to 5. *)
Theorem range_field_inverted (value : key) (f : Field) delim inc exc v b pl s e :
  class_ f = RangeField delim inc exc -> value <> [] -> Forall (fun c => StrUtils.isdigit c = true) value ->
  ParseRange delim v 0 0 = Some (true, s, e) ->
  GetIncludeBitmap value f = [] /\ GetExcludeBitmap value f = [] /\ ResolveValueWithPostingList v b pl f = Some f /\
  ResolveValueWithPostingList (str "1-5") true (Some 9) (mkField None (RangeField (str "-") ∅ ∅)) =
    Some (mkField None (RangeField (str "-") (list_to_map ((fun k => (k, Some 9)) <$> [0; 1; 2; 3; 4; 5])) ∅)).
Proof.
  intros Hc Hne Hd Hp; assert (ParseToInt32 value 0 = (false, snd (ParseToInt32 value 0))) as Hv.
  { destruct value as [|c value]; [done|]; pose proof (proj1 (list.Forall_cons _ _ _) Hd) as [Hc0 _].
    destruct (StrUtils.digit_first c value Hc0) as (Hs & H1 & H2); unfold ParseToInt32, extract_int32; rewrite Hs.
    rewrite (proj2 (Z.eqb_neq c 45) H1), (proj2 (Z.eqb_neq c 43) H2); cbn [orb]; rewrite StrUtils.take_digits_all, Nat.eqb_refl by done.
    destruct (_ <? _); [done|]; by destruct (_ <? _). }
  split_and!; [unfold GetIncludeBitmap; by rewrite Hc, Hv|unfold GetExcludeBitmap; by rewrite Hc, Hv| |vm_compute; reflexivity].
  unfold ResolveValueWithPostingList; rewrite Hc, Hp; done.
Qed.

Lemma range_field_inverted_witness :
  GetIncludeBitmap (str "3") (mkField None (RangeField (str "-") {[3 := Some 7]} ∅)) = [].
Proof.
  apply (range_field_inverted (str "3") (mkField None (RangeField (str "-") {[3 := Some 7]} ∅)) (str "-") {[3 := Some 7]} ∅ (str "1 -5 ") true None 1 5);
    [reflexivity|done|repeat constructor|vm_compute; reflexivity].
Defined.
End InvertedTheorems.
