(* ===== verification/DocumentJson.v ===== *)
(** * Documents as JSON (components/inverted_indexer/expression.{h,cc})

    The conversions of an [Expression] and of a [Document] to and from the JSON values of
    the library (thirdparty/nlohmann/json.hpp), whose documented behaviour is modelled
    for what is used of it: [operator[]] of a constant value throws on what is no
    object and asserts that the key exists, [value] throws on what is no object and
    gives the default for a missing key, [get] throws on a value of another type.  An
    exception is [Throw]; [None] is the failed assertion.

    [document_roundtrip]: a document with a condition is read back as it was written;
    [json_edge_cases]: one without is not, and an expression without a field aborts. *)
From stdpp Require Import gmap.
From S2P Require Import Prelude InvertedIndexer.
Import Indexer.

Module DocumentJson.
Section Json.
(** Floating point numbers and their conversion to [int64_t]. *)
Variable float : Type.
Variable to_int64 : float -> Z.

Inductive Json :=
| JNull
| JBool (b : bool)
| JInt (z : Z)
| JFloat (x : float)
| JString (s : key)
| JArray (l : list Json)
| JObject (m : gmap key Json).

(** A computation of the library: a value, an exception, or ([None]) an abort. *)
Definition result (A : Type) : Type := option (option A).
Definition ret {A} (x : A) : result A := Some (Some x).
Definition Throw {A} : result A := Some None.
Definition bindr {A B} (c : result A) (k : A -> result B) : result B :=
  match c with Some (Some x) => k x | Some None => Some None | None => None end.
Local Notation "x '<~' c ; k" := (bindr c (fun x => k)) (at level 100, c at next level, right associativity).

Definition at_key (k : key) (j : Json) : result Json :=
  match j with JObject m => match m !! k with Some v => ret v | None => None end | _ => Throw end.
Definition value (k : key) (dflt j : Json) : result Json :=
  match j with JObject m => ret (default dflt (m !! k)) | _ => Throw end.
Definition get_string (j : Json) : result key := match j with JString s => ret s | _ => Throw end.
Definition get_bool (j : Json) : result bool := match j with JBool b => ret b | _ => Throw end.
Definition get_int64 (j : Json) : result Z :=
  match j with JInt z => ret (i64 z) | JFloat x => ret (to_int64 x) | _ => Throw end.
Fixpoint get_strings (l : list Json) : result (list key) :=
  match l with [] => ret [] | j :: l' => s <~ get_string j; ss <~ get_strings l'; ret (s :: ss) end.
Definition get_vector (j : Json) : result (list key) := match j with JArray l => get_strings l | _ => Throw end.

(** ** Expression *)

(** An [Expression] with its base [JsonObject] and the name of its field. *)
Record JExpression := mkJExpr { valid_ : bool; term_ : key; expr_ : Expression }.
Definition new_expression : JExpression := mkJExpr true [] (mkExpr false []).

Definition expression_to_json (e : JExpression) : Json :=
  JObject {[str "exps" := JArray (JString <$> values_ (expr_ e)); str "field" := JString (term_ e); str "excl" := JBool (exclude_ (expr_ e))]}.

(** [from_json(j, expr)] with what was written before an exception. *)
Definition expression_from_json (j : Json) (expr : JExpression) : option JExpression :=
  let x := expr_ expr in
  match (f <~ at_key (str "field") j; get_string f) with
  | None => None
  | Some None => Some (mkJExpr false (term_ expr) x)
  | Some (Some term) =>
      if bool_decide (term = []) then Some (mkJExpr false term x) else
      match (a <~ value (str "excl") JNull j; b <~ value (str "exps") JNull j; ret (a, b)) with
      | None => None
      | Some None => Some (mkJExpr false term x)
      | Some (Some (j_exclude, j_expressions)) =>
          match j_exclude, j_expressions with
          | JBool exclude, JArray _ =>
              match get_vector j_expressions with
              | Some (Some vs) => Some (mkJExpr true term (mkExpr exclude vs))
              | _ => Some (mkJExpr false term (mkExpr exclude (values_ x)))
              end
          | _, _ => Some (mkJExpr false term x)
          end
      end
  end.

(** ** Document *)

Record JDocument := mkJDoc { doc_valid_ : bool; doc_ : Document }.
Definition new_document : JDocument := mkJDoc true (mkDoc (-1) ∅).

(** [conditions_.insert(...).second]. *)
Definition AddExpression (exp : JExpression) (doc : Document) : bool * Document :=
  match conditions_ doc !! term_ exp with
  | Some _ => (false, doc)
  | None => (true, mkDoc (document_id_ doc) (<[term_ exp := expr_ exp]> (conditions_ doc)))
  end.
Definition HasConditionExpression (field : key) (doc : Document) : bool :=
  match conditions_ doc !! field with Some _ => true | None => false end.

(** The order in which [conditions_] is walked. *)
Variable walk : list (key * Expression) -> list (key * Expression).

(** [conditions.push_back(j_exp)], which turns the null value into an array. *)
Definition push_condition (c : Json) (p : key * Expression) : Json :=
  let j_exp := expression_to_json (mkJExpr true p.1 p.2) in
  match c with JNull => JArray [j_exp] | JArray l => JArray (l ++ [j_exp]) | _ => c end.
Definition document_to_json (doc : Document) : Json :=
  JObject {[str "doc" := JInt (document_id_ doc); str "cond" := foldl push_condition JNull (walk (map_to_list (conditions_ doc)))]}.

Fixpoint add_conditions (l : list Json) (doc : Document) : option JDocument :=
  match l with
  | [] => Some (mkJDoc true doc)
  | j :: l' =>
      exp ← expression_from_json j new_expression;
      if negb (valid_ exp) then Some (mkJDoc false doc)
      else let '(ok, doc') := AddExpression exp doc in
           if ok then add_conditions l' doc' else Some (mkJDoc false doc)
  end.

Definition document_from_json (j : Json) (document : JDocument) : option JDocument :=
  let d := doc_ document in
  match (v <~ value (str "doc") JNull j; get_int64 v) with
  | None => None
  | Some None => Some (mkJDoc false d)
  | Some (Some id) =>
      let d := mkDoc id (conditions_ d) in
      match value (str "cond") JNull j with
      | Some (Some (JArray l)) => add_conditions l d
      | Some _ => Some (mkJDoc false d)
      | None => None
      end
  end.

(** ** Round trips *)

Lemma get_strings_ok vs : get_strings (JString <$> vs) = ret vs.
Proof. induction vs as [|v vs IH]; [done|]; cbn; by rewrite IH. Qed.

Lemma expression_ok f x : f <> [] -> expression_from_json (expression_to_json (mkJExpr true f x)) new_expression = Some (mkJExpr true f x).
Proof.
  intros Hf; unfold expression_from_json, expression_to_json; cbn [term_ expr_ valid_].
  set (m := {[_ := _; _ := _; _ := _]}).
  assert (m !! str "exps" = Some (JArray (JString <$> values_ x)) /\ m !! str "field" = Some (JString f) /\ m !! str "excl" = Some (JBool (exclude_ x))) as (E1 & E2 & E3).
  { unfold m; repeat split; simplify_map_eq; done. }
  cbn [at_key value]; rewrite E1, E2, E3; cbn [bindr ret get_string default from_option]; unfold id; rewrite bool_decide_eq_false_2 by done.
  cbn [get_vector]; rewrite get_strings_ok; by destruct x.
Qed.

Lemma add_conditions_ok id l : base.NoDup l.*1 -> (forall f x, (f, x) ∈ l -> f <> []) -> forall c,
  (forall f x, (f, x) ∈ l -> c !! f = None) ->
  add_conditions ((fun p => expression_to_json (mkJExpr true p.1 p.2)) <$> l) (mkDoc id c) =
  Some (mkJDoc true (mkDoc id (foldl (fun c '(f, x) => <[f := x]> c) c l))).
Proof.
  induction l as [|[f x] l IH]; intros Hn Hf c Hc; [done|]; cbn [fmap list_fmap fst add_conditions foldl] in *.
  apply list.NoDup_cons in Hn as [Hn0 Hn]; rewrite expression_ok by (eapply Hf; left); cbn [mbind option_bind valid_ negb].
  unfold AddExpression; cbn [term_ expr_ conditions_ document_id_]; rewrite (Hc f x) by left; apply IH; [done|intros; eapply Hf; by right|].
  intros f' x' H'; rewrite lookup_insert_ne; [eapply Hc; by right|]; intros ->; apply Hn0, list_elem_of_fmap; by exists (f', x').
Qed.

Hypothesis walk_perm : forall l, walk l ≡ₚ l.

Lemma foldl_insert l : forall c : gmap key Expression, base.NoDup l.*1 -> foldl (fun c '(f, x) => <[f := x]> c) c l = list_to_map l ∪ c.
Proof.
  induction l as [|[f x] l IH]; intros c Hn; cbn [foldl]; [by rewrite list_to_map_nil, (left_id_L ∅ (∪))|].
  cbn in Hn; apply list.NoDup_cons in Hn as [Hn0 Hn]; rewrite IH by done; cbn; rewrite <- insert_union_l, insert_union_r; [done|].
  by apply not_elem_of_list_to_map_1.
Qed.

Abbreviation jsons l := ((fun p => expression_to_json (mkJExpr true p.1 p.2)) <$> l).
Lemma push_conditions l : forall c, foldl push_condition (JArray c) l = JArray (c ++ jsons l).
Proof. induction l as [|p l IH]; intros c; cbn [foldl fmap list_fmap push_condition]; [by rewrite app_nil_r|]; by rewrite IH, <- app_assoc. Qed.

Lemma document_ok doc : - 2 ^ 63 <= document_id_ doc < 2 ^ 63 -> conditions_ doc <> ∅ -> conditions_ doc !! [] = None ->
  document_from_json (document_to_json doc) new_document = Some (mkJDoc true doc).
Proof.
  intros Hid Hne H0; unfold document_from_json, document_to_json.
  set (l := walk (map_to_list (conditions_ doc))).
  assert (l ≡ₚ map_to_list (conditions_ doc)) as Hl by apply walk_perm.
  assert (foldl push_condition JNull l = JArray (jsons l)) as ->.
  { destruct l as [|[f x] l']; [|cbn [foldl push_condition]; apply push_conditions].
    exfalso; symmetry in Hl; apply Permutation_nil_r, map_to_list_empty_iff in Hl; done. }
  set (m := {[_ := _; _ := _]}).
  assert (m !! str "doc" = Some (JInt (document_id_ doc))) as E1 by (unfold m; simplify_map_eq; done).
  assert (m !! str "cond" = Some (JArray (jsons l))) as E2 by (unfold m; simplify_map_eq; done).
  cbn [value]; rewrite E1, E2; cbn [bindr ret get_int64 default from_option]; unfold id; cbn [get_int64 ret]; rewrite i64_id by done; cbn [doc_ new_document conditions_].
  assert (base.NoDup l.*1) as Hn by (rewrite Hl; apply NoDup_fst_map_to_list).
  rewrite add_conditions_ok; [|done|intros f x Hfx; rewrite Hl in Hfx; apply elem_of_map_to_list in Hfx; congruence|intros; apply lookup_empty].
  rewrite foldl_insert by done.
  rewrite (right_id_L ∅ (∪)), (list_to_map_proper l _ Hn Hl), list_to_map_to_list; by destruct doc.
Qed.
End Json.

Arguments JNull {float}.
Arguments JString {float}.
Arguments JBool {float}.
Arguments JObject {float}.

(** A document with a condition, each under a named field, is read back as it was
    written, in whatever order its conditions are written. *)
Theorem document_roundtrip (float : Type) (to_int64 : float -> Z) (walk : list (key * Expression) -> list (key * Expression)) (doc : Document) :
  (forall l, walk l ≡ₚ l) -> - 2 ^ 63 <= document_id_ doc < 2 ^ 63 -> conditions_ doc <> ∅ -> conditions_ doc !! [] = None ->
  document_from_json float to_int64 (document_to_json float walk doc) new_document = Some (mkJDoc true doc).
Proof. intros Hw; by apply document_ok. Qed.

Lemma document_roundtrip_witness :
  document_from_json unit (fun _ => 0) (document_to_json unit (fun l => l) (mkDoc 5 {[str "city" := mkExpr true [str "bj"]]})) new_document =
  Some (mkJDoc true (mkDoc 5 {[str "city" := mkExpr true [str "bj"]]})).
Proof. apply (document_roundtrip unit (fun _ => 0) (fun l => l)); [done|cbn; lia|done|reflexivity]. Defined.

(** A document without conditions is written with a null in the place of the list and
    is read back as an invalid document; an expression without a field fails the
    assertion of the library instead of being an invalid expression. *)
Theorem json_edge_cases (float : Type) (to_int64 : float -> Z) (walk : list (key * Expression) -> list (key * Expression)) (id : Z) (b : bool) :
  (forall l, walk l ≡ₚ l) -> - 2 ^ 63 <= id < 2 ^ 63 ->
  document_from_json float to_int64 (document_to_json float walk (mkDoc id ∅)) new_document = Some (mkJDoc false (mkDoc id ∅)) /\
  expression_from_json float (JObject {[str "excl" := JBool b]}) new_expression = None.
Proof.
  intros Hw Hid; split; [|done]; unfold document_to_json; cbn [conditions_ document_id_]; rewrite map_to_list_empty.
  assert (walk [] = []) as -> by (apply Permutation_nil_r, Hw).
  transitivity (Some (mkJDoc false (mkDoc (i64 id) ∅))); [reflexivity|by rewrite i64_id].
Qed.

Lemma json_edge_cases_witness :
  document_from_json unit (fun _ => 0) (document_to_json unit (fun l => l) (mkDoc 5 ∅)) new_document = Some (mkJDoc false (mkDoc 5 ∅)).
Proof. apply (json_edge_cases unit (fun _ => 0) (fun l => l) 5 true); [done|lia]. Defined.
End DocumentJson.
