(* ===== verification/LruCache.v ===== *)
(** * The LRU cache (components/lru_cache/lru_cache.h)

    A list of pairs, the most recently used first, and a map from the keys to the
    iterators of the list.  A node of the list keeps its identity when it is spliced,
    so an iterator is the identity of its node.  [Add] has two versions, chosen by the
    preprocessor: with node handles the last node of a full cache is used again, without
    them it is erased; [node_extract] chooses.  [None] is an iterator that cannot be
    followed or moved.

    [lru_refines]: both versions are the same bounded list of pairs without repeated
    keys in the order of their last use; [lru_zero_capacity]: a cache of no capacity. *)
From stdpp Require Import gmap.
From S2P Require Import Prelude.

Module LRUCache.
Section Cache.
Context {K V : Type} `{Countable K}.

Record LRUCache := mkCache {
  campacity_ : nat;
  cache_items_list_ : list (nat * (K * V));
  cache_items_map_ : gmap K nat;
  fresh_ : nat (* the identity of the next node *) }.
Definition new (campacity : nat) : LRUCache := mkCache campacity [] ∅ 0.

Definition size_ (c : LRUCache) : nat := size (cache_items_map_ c).

(** The list with the node [it] taken out, and the pair of the node. *)
Fixpoint unlink (it : nat) (l : list (nat * (K * V))) : option ((K * V) * list (nat * (K * V))) :=
  match l with
  | [] => None
  | (i, p) :: l' => if Nat.eqb i it then Some (p, l') else '(q, l'') ← unlink it l'; Some (q, (i, p) :: l'')
  end.

Definition Add (node_extract : bool) (k : K) (v : V) (c : LRUCache) : option LRUCache :=
  let cap := campacity_ c in let l := cache_items_list_ c in let m := cache_items_map_ c in
  match m !! k with
  | None =>
      if Nat.leb cap (size_ c) then
        '(last, last_p) ← list.last l;
        if node_extract then
          it ← m !! last_p.1;
          let m := <[k := it]> (delete last_p.1 m) in
          Some (mkCache cap ((last, (k, v)) :: removelast l) m (fresh_ c))
        else
          let m := delete last_p.1 m in
          Some (mkCache cap ((fresh_ c, (k, v)) :: removelast l) (<[k := fresh_ c]> m) (S (fresh_ c)))
      else Some (mkCache cap ((fresh_ c, (k, v)) :: l) (<[k := fresh_ c]> m) (S (fresh_ c)))
  | Some it =>
      '(p, l) ← unlink it l;
      Some (mkCache cap ((it, (p.1, v)) :: l) m (fresh_ c))
  end.

Definition Get (k : K) (c : LRUCache) : option (option V * LRUCache) :=
  match cache_items_map_ c !! k with
  | None => Some (None, c)
  | Some it =>
      '(p, l) ← unlink it (cache_items_list_ c);
      Some (Some p.2, mkCache (campacity_ c) ((it, p) :: l) (cache_items_map_ c) (fresh_ c))
  end.

Definition Exists_ (k : K) (c : LRUCache) : bool := bool_decide (is_Some (cache_items_map_ c !! k)).

(** ** The specification *)

Definition remove (k : K) (l : list (K * V)) : list (K * V) := filter (fun p => p.1 <> k) l.
Definition find_ (k : K) (l : list (K * V)) : option V := snd <$> head (filter (fun p => p.1 = k) l).

Definition spec_Add (cap : nat) (k : K) (v : V) (l : list (K * V)) : list (K * V) :=
  match find_ k l with
  | Some _ => (k, v) :: remove k l
  | None => (k, v) :: (if Nat.leb cap (length l) then removelast l else l)
  end.
Definition spec_Get (k : K) (l : list (K * V)) : option V * list (K * V) :=
  match find_ k l with Some v => (Some v, (k, v) :: remove k l) | None => (None, l) end.

(** ** The invariant *)

(** The pairs of the list. *)
Definition items (c : LRUCache) : list (K * V) := (cache_items_list_ c).*2.

Record wf (c : LRUCache) : Prop := {
  w_keys : base.NoDup (items c).*1;
  w_ids : base.NoDup (cache_items_list_ c).*1;
  w_fresh : forall i p, (i, p) ∈ cache_items_list_ c -> (i < fresh_ c)%nat;
  w_map : forall k i, cache_items_map_ c !! k = Some i <-> exists v, (i, (k, v)) ∈ cache_items_list_ c;
  w_cap : (length (items c) <= campacity_ c)%nat }.

Lemma lru_wf_new cap : wf (new cap).
Proof.
  split; cbn; try constructor; [by intros i p ?%not_elem_of_nil|by rewrite lookup_empty|by intros (v & ?%not_elem_of_nil)|lia].
Qed.

Lemma key_unique (l : list (nat * (K * V))) i j k v w : base.NoDup (l.*2).*1 -> (i, (k, v)) ∈ l -> (j, (k, w)) ∈ l -> i = j /\ v = w.
Proof.
  intros Hn [a Ha]%list_elem_of_lookup [b Hb]%list_elem_of_lookup.
  assert (a = b) as <-; [|by rewrite Ha in Hb; simplify_eq].
  apply (NoDup_lookup _ a b k Hn); rewrite !list_lookup_fmap; [by rewrite Ha|by rewrite Hb].
Qed.

Lemma remove_absent k (l : list (K * V)) : (forall v, (k, v) ∉ l) -> remove k l = l.
Proof.
  unfold remove; induction l as [|[k' v'] l IH]; intros Hn; [done|]; rewrite filter_cons_True by (cbn; intros ->; apply (Hn v'); left).
  f_equal; apply IH; intros v Hv; apply (Hn v); by right.
Qed.

Lemma unlink_ok (l : list (nat * (K * V))) i k v : base.NoDup l.*1 -> base.NoDup (l.*2).*1 -> (i, (k, v)) ∈ l ->
  exists l', unlink i l = Some ((k, v), l') /\ l ≡ₚ (i, (k, v)) :: l' /\ l'.*2 = remove k (l.*2) /\ find_ k l.*2 = Some v.
Proof.
  induction l as [|[j [k' v']] l IH]; intros Hi Hk Hin; [by apply not_elem_of_nil in Hin|].
  cbn in Hi, Hk; apply list.NoDup_cons in Hi as [Hj Hi]; apply list.NoDup_cons in Hk as [Hk' Hk]; cbn [unlink].
  destruct (Nat.eqb_spec j i) as [->|Hne].
  - assert ((k, v) = (k', v')) as [= -> ->].
    { apply elem_of_cons in Hin as [[= -> ->]|Hin]; [done|]; exfalso; apply Hj, list_elem_of_fmap; by exists (i, (k, v)). }
    exists l; split_and!; [done|done| |]; cbn [fmap list_fmap fst snd].
    + unfold remove; rewrite filter_cons_False by naive_solver; fold (remove k' l.*2).
      rewrite remove_absent; [done|]; intros v1 H1; apply Hk', list_elem_of_fmap; by exists (k', v1).
    + unfold find_; by rewrite filter_cons_True.
  - apply elem_of_cons in Hin as [[= -> -> ->]|Hin]; [done|]; destruct (IH Hi Hk Hin) as (l' & -> & Hp & Hr & Hf); cbn [mbind option_bind].
    assert (k' <> k) as Hkk by (intros ->; apply Hk', list_elem_of_fmap; exists (k, v); split; [done|]; apply list_elem_of_fmap; by exists (i, (k, v))).
    eexists; split_and!; [done|rewrite Hp; apply Permutation_swap| |]; cbn [fmap list_fmap fst snd]; [unfold remove in *; rewrite filter_cons_True by done; by f_equal|].
    unfold find_ in *; by rewrite filter_cons_False by naive_solver.
Qed.

Lemma find_None k (c : LRUCache) : wf c -> cache_items_map_ c !! k = None -> find_ k (items c) = None.
Proof.
  intros Hw Hk; unfold find_; destruct (filter _ (items c)) as [|[k' v] l] eqn:E; [done|].
  assert ((k', v) ∈ (k', v) :: l) as Hx by left; rewrite <- E in Hx; apply list_elem_of_filter in Hx as [Hkk Hin]; cbn in Hkk; subst k'.
  apply list_elem_of_fmap in Hin as ([i p] & Hp & Hi); cbn in Hp; subst p; rewrite (proj2 (w_map c Hw k i)) in Hk; [done|by exists v].
Qed.

Lemma size_items c : wf c -> size_ c = length (items c).
Proof.
  intros Hw; unfold size_, items; rewrite length_fmap; symmetry.
  assert (cache_items_map_ c = list_to_map ((fun q => (q.2.1, q.1)) <$> cache_items_list_ c)) as ->.
  { assert (base.NoDup ((fun q : nat * (K * V) => (q.2.1, q.1)) <$> cache_items_list_ c).*1) as Hn.
    { rewrite <- list_fmap_compose; pose proof (w_keys c Hw) as Hk; unfold items in Hk; by rewrite <- list_fmap_compose in Hk. }
    apply map_eq; intros k; apply option_eq; intros i; rewrite (w_map c Hw), <- elem_of_list_to_map, list_elem_of_fmap by done; split.
    - intros (v & Hin); by exists (i, (k, v)).
    - intros ([j [k' v]] & [= -> ->] & Hin); by exists v. }
  rewrite map_size_list_to_map, !length_fmap; [done|].
  rewrite <- list_fmap_compose; pose proof (w_keys c Hw) as Hk; unfold items in Hk; by rewrite <- list_fmap_compose in Hk.
Qed.

(** A node moved to the front, with another value. *)
Lemma wf_front c i k v w l' : wf c -> cache_items_list_ c ≡ₚ (i, (k, v)) :: l' ->
  wf (mkCache (campacity_ c) ((i, (k, w)) :: l') (cache_items_map_ c) (fresh_ c)).
Proof.
  intros Hw Hp; destruct Hw as [H1 H2 H3 H4 H5]; unfold items in *; rewrite Hp in H1, H2, H5; split; unfold items; cbn in *; try done.
  - intros j q [[= -> ->]|Hin]%elem_of_cons; eapply H3; rewrite Hp; [left|by right].
  - intros k' j; rewrite H4; setoid_rewrite Hp; setoid_rewrite elem_of_cons; naive_solver.
Qed.

(** A new node in front. *)
Lemma wf_cons c i k v fr : wf c -> cache_items_map_ c !! k = None -> i ∉ (cache_items_list_ c).*1 -> (i < fr)%nat -> (fresh_ c <= fr)%nat ->
  (length (items c) < campacity_ c)%nat ->
  wf (mkCache (campacity_ c) ((i, (k, v)) :: cache_items_list_ c) (<[k := i]> (cache_items_map_ c)) fr).
Proof.
  intros [H1 H2 H3 H4 H5] Hk Hi Hf Hfr Hl; split; unfold items in *; cbn.
  - constructor; [|done]; intros ([k' v'] & -> & Hin)%list_elem_of_fmap; apply list_elem_of_fmap in Hin as ([j q] & Hq & Hin); cbn in Hq; subst q.
    cbn in Hk; rewrite (proj2 (H4 k' j)) in Hk; [done|by exists v'].
  - by constructor.
  - intros j q [[= -> ->]|Hin]%elem_of_cons; [done|]; specialize (H3 j q Hin); lia.
  - intros k' j; rewrite lookup_insert_Some, H4; setoid_rewrite elem_of_cons; split.
    + intros [[-> ->]|(Hne & w & Hin)]; [exists v; by left|exists w; by right].
    + intros (w & [[= -> -> ->]|Hin]); [by left|]; right; split; [|by exists w]; intros ->; rewrite (proj2 (H4 k' j)) in Hk; [done|by exists w].
  - lia.
Qed.

(** The last node taken out. *)
Lemma lru_wf_pop c j k v l : wf c -> cache_items_list_ c = l ++ [(j, (k, v))] ->
  wf (mkCache (campacity_ c) l (delete k (cache_items_map_ c)) (fresh_ c)) /\ j ∉ l.*1 /\ cache_items_map_ c !! k = Some j.
Proof.
  intros Hw E; pose proof Hw as [H1 H2 H3 H4 H5]; unfold items in *; rewrite E in *; rewrite !fmap_app in H1; rewrite fmap_app in H2.
  apply list.NoDup_app in H1 as (N1 & D1 & _); apply list.NoDup_app in H2 as (N2 & D2 & _); split_and!.
  - split; unfold items; cbn; try done.
    + intros i p Hin; apply (H3 i p), elem_of_app; by left.
    + intros k' i; rewrite lookup_delete_Some, H4; setoid_rewrite elem_of_app; setoid_rewrite list_elem_of_singleton; split.
      * intros (Hne & w & [Hin|[= -> -> ->]]); [by exists w|done].
      * intros (w & Hin); split; [|by exists w; left]; intros ->; apply (D1 k'); [|left].
        apply list_elem_of_fmap; exists (k', w); split; [done|]; apply list_elem_of_fmap; by exists (i, (k', w)).
    + rewrite length_fmap, length_app in H5; rewrite length_fmap; lia.
  - intros Hin; apply (D2 j Hin); left.
  - apply H4; exists v; apply elem_of_app; right; left.
Qed.

Lemma Get_ok k c : wf c -> exists c', Get k c = Some ((spec_Get k (items c)).1, c') /\ wf c' /\ items c' = (spec_Get k (items c)).2 /\ campacity_ c' = campacity_ c.
Proof.
  intros Hw; unfold Get, spec_Get; destruct (cache_items_map_ c !! k) as [i|] eqn:E; [|rewrite (find_None k c) by done; by exists c].
  apply (w_map c Hw) in E as [v Hin]; destruct (unlink_ok _ i k v (w_ids c Hw) (w_keys c Hw) Hin) as (l' & -> & Hp & Hr & Hf).
  assert (find_ k (items c) = Some v) as -> by done; cbn [mbind option_bind fst snd]; eexists; split; [done|]; split; [by eapply wf_front|]; split; [|done].
  unfold items; cbn [cache_items_list_ fmap list_fmap fst snd]; by f_equal.
Qed.

Lemma removelast_app1 {A} (l : list A) x : removelast (l ++ [x]) = l.
Proof. rewrite removelast_app by done; cbn; apply app_nil_r. Qed.

Lemma Add_ok ex k v c : wf c -> (0 < campacity_ c)%nat ->
  exists c', Add ex k v c = Some c' /\ wf c' /\ items c' = spec_Add (campacity_ c) k v (items c) /\ campacity_ c' = campacity_ c.
Proof.
  intros Hw Hcap; unfold Add, spec_Add; destruct (cache_items_map_ c !! k) as [i|] eqn:E.
  { apply (w_map c Hw) in E as [w Hin]; destruct (unlink_ok _ i k w (w_ids c Hw) (w_keys c Hw) Hin) as (l' & -> & Hp & Hr & Hf).
    assert (find_ k (items c) = Some w) as -> by done; cbn [mbind option_bind fst snd]; eexists; split; [done|]; split; [by eapply wf_front|]; split; [|done].
    unfold items; cbn [cache_items_list_ fmap list_fmap fst snd]; by f_equal. }
  rewrite (find_None k c), (size_items c) by done; destruct (Nat.leb_spec (campacity_ c) (length (items c))) as [Hf|Hf].
  - destruct (cache_items_list_ c) as [|[j [kl vl]] l _] eqn:El using rev_ind; [unfold items in Hf; rewrite El in Hf; cbn in Hf; lia|].
    destruct (lru_wf_pop c j kl vl l Hw El) as (Hw0 & Hj & Hm); rewrite last_snoc, removelast_app1; cbn [mbind option_bind fst snd].
    assert (delete kl (cache_items_map_ c) !! k = None) as Hd by (apply lookup_delete_None; by right).
    assert ((j < fresh_ c)%nat) as Hjf by (eapply (w_fresh c Hw); rewrite El; apply elem_of_app; right; left).
    assert (length l.*2 < campacity_ c)%nat as Hlen by (pose proof (w_cap c Hw) as Hc; unfold items in Hc; rewrite El, length_fmap, length_app in Hc; cbn in Hc; rewrite length_fmap; lia).
    assert ((fresh_ c) ∉ l.*1) as Hfr by (intros ([i p] & Hi & Hin)%list_elem_of_fmap; cbn in Hi; pose proof (w_fresh _ Hw0 i p Hin); cbn in *; lia).
    destruct ex; [rewrite Hm; cbn [mbind option_bind]|]; (eexists; split; [done|]; split; [|split; [|done]]).
    + by apply (wf_cons (mkCache (campacity_ c) l _ (fresh_ c)) j k v (fresh_ c) Hw0).
    + unfold items; cbn [cache_items_list_ fmap list_fmap snd]; rewrite El, fmap_app; cbn [fmap list_fmap snd]; by rewrite removelast_app1.
    + apply (wf_cons (mkCache (campacity_ c) l _ (fresh_ c)) (fresh_ c) k v (S (fresh_ c)) Hw0); cbn; auto; lia.
    + unfold items; cbn [cache_items_list_ fmap list_fmap snd]; rewrite El, fmap_app; cbn [fmap list_fmap snd]; by rewrite removelast_app1.
  - eexists; split; [done|]; split; [|done]; apply wf_cons; try done; [|lia..].
    intros ([i p] & Hi & Hin)%list_elem_of_fmap; cbn in Hi; pose proof (w_fresh c Hw i p Hin); lia.
Qed.

(** ** Sequences of calls *)

Inductive op := OAdd (k : K) (v : V) | OGet (k : K).
Definition run_op (ex : bool) (o : op) (c : LRUCache) : option (option V * LRUCache) :=
  match o with OAdd k v => c ← Add ex k v c; Some (None, c) | OGet k => Get k c end.
Fixpoint run (ex : bool) (ops : list op) (c : LRUCache) : option (list (option V) * LRUCache) :=
  match ops with
  | [] => Some ([], c)
  | o :: ops' => '(r, c) ← run_op ex o c; '(rs, c) ← run ex ops' c; Some (r :: rs, c)
  end.
Definition spec_op (cap : nat) (o : op) (l : list (K * V)) : option V * list (K * V) :=
  match o with OAdd k v => (None, spec_Add cap k v l) | OGet k => spec_Get k l end.
Fixpoint spec_run (cap : nat) (ops : list op) (l : list (K * V)) : list (option V) * list (K * V) :=
  match ops with
  | [] => ([], l)
  | o :: ops' => let '(r, l) := spec_op cap o l in let '(rs, l) := spec_run cap ops' l in (r :: rs, l)
  end.

Lemma lru_run_op_ok ex o c : wf c -> (0 < campacity_ c)%nat ->
  exists c', run_op ex o c = Some ((spec_op (campacity_ c) o (items c)).1, c') /\ wf c' /\ items c' = (spec_op (campacity_ c) o (items c)).2 /\ campacity_ c' = campacity_ c.
Proof.
  intros Hw Hc; destruct o as [k v|k]; cbn [run_op spec_op fst snd]; [|by apply Get_ok].
  destruct (Add_ok ex k v c Hw Hc) as (c' & -> & ? & ? & ?); by exists c'.
Qed.

Lemma run_ok ex ops : forall c, wf c -> (0 < campacity_ c)%nat ->
  exists c', run ex ops c = Some ((spec_run (campacity_ c) ops (items c)).1, c') /\ wf c' /\ items c' = (spec_run (campacity_ c) ops (items c)).2 /\ campacity_ c' = campacity_ c.
Proof.
  induction ops as [|o ops IH]; intros c Hw Hc; cbn [run spec_run]; [by exists c|].
  destruct (lru_run_op_ok ex o c Hw Hc) as (c1 & -> & W1 & I1 & C1); cbn [mbind option_bind]; destruct (spec_op _ _ _) as [r l1]; cbn in I1 |- *.
  destruct (IH c1 W1 ltac:(lia)) as (c2 & -> & W2 & I2 & C2); rewrite C1, I1 in *; destruct (spec_run _ _ _) as [rs l2]; cbn in *; exists c2; split_and!; done || congruence.
Qed.
End Cache.
Arguments LRUCache : clear implicits.
Arguments op : clear implicits.

(** C30.  Any sequence of calls of [Add] and [Get] on a cache of some capacity returns what
    the list of pairs in the order of their last use returns and leaves its pairs, with
    either version of [Add]; the cache never holds more pairs than its capacity, and
    [Exists] says which keys it holds. *)
Theorem lru_refines {K V} `{Countable K} (node_extract : bool) (cap : nat) (ops : list (op K V)) :
  (0 < cap)%nat ->
  exists c, run node_extract ops (new cap) = Some ((spec_run cap ops []).1, c) /\ items c = (spec_run cap ops []).2 /\
    (size_ c <= cap)%nat /\ forall k, Exists_ k c = bool_decide (is_Some (find_ k (items c))).
Proof.
  intros Hc; destruct (run_ok node_extract ops (new cap) (lru_wf_new cap) Hc) as (c & E & Hw & Hi & Hcap); cbn in *.
  exists c; split; [done|]; split; [done|]; split; [rewrite size_items by done; rewrite <- Hcap; apply (w_cap c Hw)|].
  intros k; unfold Exists_; apply bool_decide_ext; destruct (cache_items_map_ c !! k) as [i|] eqn:Ek.
  - apply (w_map c Hw) in Ek as [v Hin]; destruct (unlink_ok _ i k v (w_ids c Hw) (w_keys c Hw) Hin) as (l' & _ & _ & _ & Hf).
    unfold items; rewrite Hf; split; eauto.
  - rewrite (find_None k c Hw Ek); done.
Qed.

Lemma lru_refines_witness :
  exists c, run true [OAdd 1 10; OAdd 2 20; OGet 1; OAdd 3 30; OGet 2; OGet 1] (new 2) = Some ([None; None; Some 10; None; None; Some 10], c) /\
    items c = [(1, 10); (3, 30)].
Proof.
  destruct (lru_refines true 2 [OAdd 1 10; OAdd 2 20; OGet 1; OAdd 3 30; OGet 2; OGet 1] ltac:(lia)) as (c & E & I & _).
  exists c; split; [exact E|exact I].
Defined.

(** [Add] to a cache of no capacity steps before the beginning of an empty list. *)
Theorem lru_zero_capacity {K V} `{Countable K} (node_extract : bool) (k : K) (v : V) : Add node_extract k v (new 0) = None.
Proof. unfold Add; cbn [cache_items_map_ new]; rewrite lookup_empty; cbn; done. Qed.
End LRUCache.
