(* ===== verification/UrlParser.v ===== *)
(** * The URL parser (thirdparty/url-parser/url_parser.{h,c}) and its use by [HttpRequest]

    The byte-for-byte state machine [parse_url_char], the one of the host
    [http_parse_host_char], and [http_parser_parse_url], which turns their transitions
    into the fields of a URL: offsets and lengths of 16 bits into the buffer.  The
    parser is compiled with [HTTP_PARSER_STRICT].  A result is the returned code and
    the structure as it is left; [None] is a failed assertion.

    The states are the ones the parser of URLs reaches; the header declares those of an
    HTTP message with them. *)
From stdpp Require Import list.
From S2P Require Import Prelude.

Module UrlParser.

(** ** Character classes *)

Definition normal_url_char : list Z :=
  [ 0; 0; 0; 0;
    2 + 4 + 16 + 32 + 64 + 128;
    1 + 2 + 4 + 8 + 16 + 32 + 64 + 128;
    1 + 2 + 4 + 8 + 16 + 32 + 64 + 128;
    1 + 2 + 4 + 8 + 16 + 32 + 64;
    255; 255; 255; 255; 255; 255; 255; 127 ] ++ repeat 0 16.
Definition BIT_AT (a : list Z) (i : Z) : bool :=
  negb (Z.land (nth (Z.to_nat (Z.shiftr i 3)) a 0) (Z.shiftl 1 (Z.land i 7)) =? 0).

Definition LOWER (c : Z) : Z := u8 (Z.lor c 0x20).
Definition IS_ALPHA (c : Z) : bool := (97 <=? LOWER c) && (LOWER c <=? 122).
Definition IS_NUM (c : Z) : bool := (48 <=? c) && (c <=? 57).
Definition IS_ALPHANUM (c : Z) : bool := IS_ALPHA c || IS_NUM c.
Definition IS_HEX (c : Z) : bool := IS_NUM c || ((97 <=? LOWER c) && (LOWER c <=? 102)).
Definition one_of (s : String.string) (c : Z) : bool := bool_decide (c ∈ str s).
Arguments one_of _%_string_scope _.
Definition IS_MARK (c : Z) : bool := one_of "-_.!~*'()" c.
Definition IS_USERINFO_CHAR (c : Z) : bool := IS_ALPHANUM c || IS_MARK c || one_of "%;:&=+$," c.
Definition IS_URL_CHAR (c : Z) : bool := BIT_AT normal_url_char c.
Definition IS_HOST_CHAR (c : Z) : bool := IS_ALPHANUM c || one_of ".-" c.

(** ** The two machines *)

Inductive state :=
| s_dead | s_req_spaces_before_url | s_req_schema | s_req_schema_slash | s_req_schema_slash_slash
| s_req_server_start | s_req_server | s_req_server_with_at | s_req_path
| s_req_query_string_start | s_req_query_string | s_req_fragment_start | s_req_fragment.

Inductive http_host_state :=
| s_http_host_dead | s_http_userinfo_start | s_http_userinfo | s_http_host_start | s_http_host_v6_start
| s_http_host | s_http_host_v6 | s_http_host_v6_end | s_http_host_v6_zone_start | s_http_host_v6_zone
| s_http_host_port_start | s_http_host_port.

#[export] Instance state_eq_dec : EqDecision state.
Proof. solve_decision. Defined.
#[export] Instance http_host_state_eq_dec : EqDecision http_host_state.
Proof. solve_decision. Defined.

Definition parse_url_char (s : state) (ch : Z) : state :=
  if (ch =? 32) || (ch =? 13) || (ch =? 10) then s_dead
  else if (ch =? 9) || (ch =? 12) then s_dead
  else
    let server :=
      if ch =? 47 then s_req_path
      else if ch =? 63 then s_req_query_string_start
      else if ch =? 64 then s_req_server_with_at
      else if IS_USERINFO_CHAR ch || (ch =? 91) || (ch =? 93) then s_req_server
      else s_dead in
    match s with
    | s_req_spaces_before_url =>
        if (ch =? 47) || (ch =? 42) then s_req_path
        else if IS_ALPHA ch then s_req_schema else s_dead
    | s_req_schema =>
        if IS_ALPHA ch then s else if ch =? 58 then s_req_schema_slash else s_dead
    | s_req_schema_slash => if ch =? 47 then s_req_schema_slash_slash else s_dead
    | s_req_schema_slash_slash => if ch =? 47 then s_req_server_start else s_dead
    | s_req_server_with_at => if ch =? 64 then s_dead else server
    | s_req_server_start | s_req_server => server
    | s_req_path =>
        if IS_URL_CHAR ch then s
        else if ch =? 63 then s_req_query_string_start
        else if ch =? 35 then s_req_fragment_start else s_dead
    | s_req_query_string_start | s_req_query_string =>
        if IS_URL_CHAR ch then s_req_query_string
        else if ch =? 63 then s_req_query_string
        else if ch =? 35 then s_req_fragment_start else s_dead
    | s_req_fragment_start =>
        if IS_URL_CHAR ch then s_req_fragment
        else if ch =? 63 then s_req_fragment
        else if ch =? 35 then s else s_dead
    | s_req_fragment =>
        if IS_URL_CHAR ch then s
        else if (ch =? 63) || (ch =? 35) then s else s_dead
    | s_dead => s_dead
    end.

Definition http_parse_host_char (s : http_host_state) (ch : Z) : http_host_state :=
  let v6_end := if ch =? 58 then s_http_host_port_start else s_http_host_dead in
  let v6_start :=
    if IS_HEX ch || (ch =? 58) || (ch =? 46) then s_http_host_v6
    else if bool_decide (s = s_http_host_v6) && (ch =? 37) then s_http_host_v6_zone_start
    else s_http_host_dead in
  let zone_start :=
    if IS_ALPHANUM ch || one_of "%.-_~" ch then s_http_host_v6_zone else s_http_host_dead in
  match s with
  | s_http_userinfo | s_http_userinfo_start =>
      if ch =? 64 then s_http_host_start
      else if IS_USERINFO_CHAR ch then s_http_userinfo else s_http_host_dead
  | s_http_host_start =>
      if ch =? 91 then s_http_host_v6_start
      else if IS_HOST_CHAR ch then s_http_host else s_http_host_dead
  | s_http_host => if IS_HOST_CHAR ch then s_http_host else v6_end
  | s_http_host_v6_end => v6_end
  | s_http_host_v6 => if ch =? 93 then s_http_host_v6_end else v6_start
  | s_http_host_v6_start => v6_start
  | s_http_host_v6_zone => if ch =? 93 then s_http_host_v6_end else zone_start
  | s_http_host_v6_zone_start => zone_start
  | s_http_host_port | s_http_host_port_start =>
      if IS_NUM ch then s_http_host_port else s_http_host_dead
  | s_http_host_dead => s_http_host_dead
  end.

(** ** The structure *)

Definition UF_SCHEMA : nat := 0.
Definition UF_HOST : nat := 1.
Definition UF_PORT : nat := 2.
Definition UF_PATH : nat := 3.
Definition UF_QUERY : nat := 4.
Definition UF_FRAGMENT : nat := 5.
Definition UF_USERINFO : nat := 6.
Definition UF_MAX : nat := 7.

Record http_parser_url := mkUrl { field_set : Z; port : Z; field_data : list (Z * Z) }.
Definition http_parser_url_init : http_parser_url := mkUrl 0 0 (replicate UF_MAX (0, 0)).

Definition off (f : nat) (u : http_parser_url) : Z := (nth f (field_data u) (0, 0)).1.
Definition len (f : nat) (u : http_parser_url) : Z := (nth f (field_data u) (0, 0)).2.
Definition is_set (f : nat) (u : http_parser_url) : bool := has (field_set u) (Z.shiftl 1 (Z.of_nat f)).

Definition set_off (f : nat) (x : Z) (u : http_parser_url) : http_parser_url :=
  mkUrl (field_set u) (port u) (<[f := (x, len f u)]> (field_data u)).
Definition set_len (f : nat) (x : Z) (u : http_parser_url) : http_parser_url :=
  mkUrl (field_set u) (port u) (<[f := (off f u, x)]> (field_data u)).
(** [u->field_data[f].len++]. *)
Definition incr_len (f : nat) (u : http_parser_url) : http_parser_url := set_len f (u16 (len f u + 1)) u.
Definition mark (f : nat) (u : http_parser_url) : http_parser_url :=
  mkUrl (u16 (Z.lor (field_set u) (Z.shiftl 1 (Z.of_nat f)))) (port u) (field_data u).

(** ** The host *)

(** The body of the loop of [http_parse_host]: [None] is [return 1]. *)
Definition host_step (p : Z) (s new_s : http_host_state) (u : http_parser_url) : http_parser_url :=
  match new_s with
  | s_http_host =>
      incr_len UF_HOST (if bool_decide (s = s_http_host) then u else set_off UF_HOST (u16 p) u)
  | s_http_host_v6 =>
      incr_len UF_HOST (if bool_decide (s = s_http_host_v6) then u else set_off UF_HOST (u16 p) u)
  | s_http_host_v6_zone_start | s_http_host_v6_zone => incr_len UF_HOST u
  | s_http_host_port =>
      incr_len UF_PORT (if bool_decide (s = s_http_host_port) then u else mark UF_PORT (set_len UF_PORT 0 (set_off UF_PORT (u16 p) u)))
  | s_http_userinfo =>
      incr_len UF_USERINFO (if bool_decide (s = s_http_userinfo) then u else mark UF_USERINFO (set_len UF_USERINFO 0 (set_off UF_USERINFO (u16 p) u)))
  | _ => u
  end.

Fixpoint host_loop (p : Z) (s : http_host_state) (u : http_parser_url) (bs : list Z) : option http_host_state * http_parser_url :=
  match bs with
  | [] => (Some s, u)
  | b :: bs' =>
      let new_s := http_parse_host_char s b in
      if bool_decide (new_s = s_http_host_dead) then (None, u)
      else host_loop (p + 1) new_s (host_step p s new_s u) bs'
  end.

Definition http_parse_host (buf : list Z) (u : http_parser_url) (found_at : bool) : option (Z * http_parser_url) :=
  let start := off UF_HOST u in
  let buflen := start + len UF_HOST u in
  if negb (is_set UF_HOST u) then None else
  let u := set_len UF_HOST 0 u in
  let s := if found_at then s_http_userinfo_start else s_http_host_start in
  let '(r, u) := host_loop start s u (slice start buflen buf) in
  Some (match r with
        | None => 1
        | Some s =>
            match s with
            | s_http_host_start | s_http_host_v6_start | s_http_host_v6 | s_http_host_v6_zone_start | s_http_host_v6_zone
            | s_http_host_port_start | s_http_userinfo | s_http_userinfo_start => 1
            | _ => 0
            end
        end, u).

(** ** The URL *)

(** The field of a state: [None] is skipped. *)
Definition field_of (s : state) : option nat :=
  match s with
  | s_req_schema => Some UF_SCHEMA
  | s_req_server_with_at | s_req_server => Some UF_HOST
  | s_req_path => Some UF_PATH
  | s_req_query_string => Some UF_QUERY
  | s_req_fragment => Some UF_FRAGMENT
  | _ => None
  end.

(** The variables of the loop: the state, the last field, whether an [@] was seen. *)
Record scan := mkScan { sc_s : state; sc_old : nat; sc_at : bool; sc_u : http_parser_url }.

Inductive outcome := Assert_ | Return1 (u : http_parser_url) | Go (x : scan).

Definition url_step (p : Z) (x : scan) (ch : Z) : outcome :=
  let s := parse_url_char (sc_s x) ch in
  match s with
  | s_dead => Return1 (sc_u x)
  | s_req_schema_slash | s_req_schema_slash_slash | s_req_server_start | s_req_query_string_start | s_req_fragment_start =>
      Go (mkScan s (sc_old x) (sc_at x) (sc_u x))
  | s_req_spaces_before_url => Assert_
  | s_req_schema | s_req_server_with_at | s_req_server | s_req_path | s_req_query_string | s_req_fragment =>
      let found_at := sc_at x || bool_decide (s = s_req_server_with_at) in
      match field_of s with
      | None => Assert_
      | Some uf =>
          if Nat.eqb uf (sc_old x) then Go (mkScan s (sc_old x) found_at (incr_len uf (sc_u x)))
          else Go (mkScan s uf found_at (mark uf (set_len uf 1 (set_off uf (u16 p) (sc_u x)))))
      end
  end.

Fixpoint url_loop (p : Z) (x : scan) (bs : list Z) : outcome :=
  match bs with
  | [] => Go x
  | b :: bs' => match url_step p x b with Go x' => url_loop (p + 1) x' bs' | o => o end
  end.

(** The number in the port: [None] when it is too large. *)
Fixpoint port_loop (v : Z) (ds : list Z) : option Z :=
  match ds with
  | [] => Some v
  | d :: ds' => let v := u64 (u64 (v * 10) + (d - 48)) in if 0xffff <? v then None else port_loop v ds'
  end.

Definition http_parser_parse_url (buf : list Z) (is_connect : bool) (u : http_parser_url) : option (Z * http_parser_url) :=
  if zlen buf =? 0 then Some (1, u) else
  let u := mkUrl 0 0 (field_data u) in
  let s := if is_connect then s_req_server_start else s_req_spaces_before_url in
  match url_loop 0 (mkScan s UF_MAX false u) buf with
  | Assert_ => None
  | Return1 u => Some (1, u)
  | Go x =>
      let u := sc_u x in
      if is_set UF_SCHEMA u && negb (is_set UF_HOST u) then Some (1, u) else
      '(r, u) ← (if is_set UF_HOST u then http_parse_host buf u (sc_at x) else Some (0, u));
      if negb (r =? 0) then Some (1, u)
      else if is_connect && negb (field_set u =? Z.lor (Z.shiftl 1 (Z.of_nat UF_HOST)) (Z.shiftl 1 (Z.of_nat UF_PORT))) then Some (1, u)
      else if is_set UF_PORT u then
        let o := off UF_PORT u in let l := len UF_PORT u in
        if zlen buf <? o + l then None
        else match port_loop 0 (slice o (o + l) buf) with
             | None => Some (1, u)
             | Some v => Some (0, mkUrl (field_set u) (u16 v) (field_data u))
             end
      else Some (0, u)
  end.

(** ** HttpRequest::parse_url_view *)

Record UrlView := mkView { path : list Z; queries : list Z; fragment : list Z }.

Definition parse_url_view (url : list Z) (v : UrlView) : option UrlView :=
  '(result, u) ← http_parser_parse_url url false http_parser_url_init;
  if negb (result =? 0) then Some v
  else
    let get f old := if is_set f u then slice (off f u) (off f u + len f u) url else old in
    Some (mkView (get UF_PATH (path v)) (get UF_QUERY (queries v)) (get UF_FRAGMENT (fragment v))).
End UrlParser.
