(* ===== verification/UrlProofs.v ===== *)
(** * The URL parser: proofs and theorems

    What a scan does to the fields: no assertion of the parser fails and every field it
    reports lies in the buffer, whatever the bytes.  The theorems are in
    UrlRoundtrip.v. *)
From stdpp Require Import list.
From S2P Require Import Prelude UrlParser.
Import UrlParser.

Module UrlProofs.

(** ** Bounds *)

Definition shaped (u : http_parser_url) : Prop := length (field_data u) = UF_MAX.
(** The field [f] ends at or before [n]. *)
Definition ends (n : Z) (f : nat) (u : http_parser_url) : Prop := 0 <= off f u /\ 0 <= len f u /\ off f u + len f u <= n.
Definition in_bounds (n : Z) (u : http_parser_url) : Prop := shaped u /\ forall f, ends n f u.

Lemma data_insert f g d u : shaped u -> (f < UF_MAX)%nat ->
  nth g (<[f := d]> (field_data u)) (0, 0) = if bool_decide (g = f) then d else nth g (field_data u) (0, 0).
Proof.
  intros Hs Hf; rewrite !nth_lookup; case_bool_decide as E; [subst g|by rewrite list_lookup_insert_ne].
  by rewrite list_lookup_insert_eq by (rewrite Hs; done).
Qed.

Lemma off_set_off f g x u : shaped u -> (f < UF_MAX)%nat -> off g (set_off f x u) = if bool_decide (g = f) then x else off g u.
Proof. intros; unfold off, set_off; cbn; rewrite data_insert by done; by case_bool_decide. Qed.
Lemma len_set_off f g x u : shaped u -> (f < UF_MAX)%nat -> len g (set_off f x u) = len g u.
Proof. intros; unfold len at 1, set_off; cbn; rewrite data_insert by done; case_bool_decide; by subst. Qed.
Lemma off_set_len f g x u : shaped u -> (f < UF_MAX)%nat -> off g (set_len f x u) = off g u.
Proof. intros; unfold off at 1, set_len; cbn; rewrite data_insert by done; case_bool_decide; by subst. Qed.
Lemma len_set_len f g x u : shaped u -> (f < UF_MAX)%nat -> len g (set_len f x u) = if bool_decide (g = f) then x else len g u.
Proof. intros; unfold len, set_len; cbn; rewrite data_insert by done; by case_bool_decide. Qed.
Lemma shaped_off f x u : shaped u -> shaped (set_off f x u).
Proof. intros; unfold shaped; cbn; by rewrite length_insert. Qed.
Lemma shaped_len f x u : shaped u -> shaped (set_len f x u).
Proof. intros; unfold shaped; cbn; by rewrite length_insert. Qed.

Lemma u16_le x : 0 <= x -> 0 <= u16 x <= x.
Proof. intros; unfold u16; split; [apply Z.mod_pos_bound; lia|apply Z.mod_le; lia]. Qed.

Lemma ends_incr n f g u : shaped u -> (f < UF_MAX)%nat -> ends n g u -> (g = f -> off f u + len f u + 1 <= n) -> ends n g (incr_len f u).
Proof.
  intros Hs Hf (H1 & H2 & H3) Hg; unfold incr_len, ends; rewrite off_set_len, len_set_len by done; case_bool_decide as E; [subst g|done].
  pose proof (u16_le (len f u + 1)); specialize (Hg eq_refl); lia.
Qed.
(** A field opened at [p]. *)
Lemma ends_open n f g p l u : shaped u -> (f < UF_MAX)%nat -> 0 <= p -> 0 <= l -> p + l <= n -> ends n g u ->
  ends n g (mark f (set_len f l (set_off f (u16 p) u))).
Proof.
  intros Hs Hf Hp Hl Hn (H1 & H2 & H3); pose proof (u16_le p Hp); pose proof (shaped_off f (u16 p) u Hs) as Hs'.
  assert (forall u, off g (mark f u) = off g u /\ len g (mark f u) = len g u) as Hm by done.
  unfold ends; rewrite (proj1 (Hm _)), (proj2 (Hm _)), off_set_len, len_set_len, off_set_off, len_set_off by done.
  case_bool_decide; lia.
Qed.

Lemma url_step_bounds p x c : 0 <= p -> in_bounds p (sc_u x) ->
  match url_step p x c with Assert_ => False | Return1 u => in_bounds p u | Go x' => in_bounds (p + 1) (sc_u x') end.
Proof.
  intros Hp [Hs Hb]; assert (in_bounds (p + 1) (sc_u x)) as Hb1 by (split; [done|]; intros f; destruct (Hb f) as (? & ? & ?); unfold ends; lia).
  assert (forall f s at_, (f < UF_MAX)%nat ->
    match (if Nat.eqb f (sc_old x) then Go (mkScan s (sc_old x) at_ (incr_len f (sc_u x)))
           else Go (mkScan s f at_ (mark f (set_len f 1 (set_off f (u16 p) (sc_u x)))))) with
    | Assert_ => False | Return1 u => in_bounds p u | Go x' => in_bounds (p + 1) (sc_u x') end) as Hf.
  { intros f s at_ Hf; destruct (Nat.eqb _ _); cbn [sc_u]; (split; [by repeat apply shaped_len || apply shaped_off|]); intros g; destruct Hb1 as [_ Hb1].
    - apply ends_incr; [done..|]; intros ->; destruct (Hb f) as (? & ? & ?); lia.
    - apply ends_open; [done|done|lia|lia|lia|done]. }
  unfold url_step; destruct (parse_url_char (sc_s x) c) eqn:Es; cbn [field_of]; first [done|apply Hf; unfold UF_MAX, UF_SCHEMA, UF_HOST, UF_PATH, UF_QUERY, UF_FRAGMENT; lia|idtac].
  unfold parse_url_char in Es; destruct (sc_s x); repeat match type of Es with context [if ?b then _ else _] => destruct b end; done.
Qed.

Lemma url_loop_bounds bs : forall p x, 0 <= p -> in_bounds p (sc_u x) ->
  match url_loop p x bs with Assert_ => False | Return1 u => in_bounds (p + zlen bs) u | Go x' => in_bounds (p + zlen bs) (sc_u x') end.
Proof.
  assert (forall a b u, a <= b -> in_bounds a u -> in_bounds b u) as Hmono by (intros a b u Hab [Hs Hb]; split; [done|]; intros f; destruct (Hb f) as (? & ? & ?); unfold ends; lia).
  induction bs as [|b bs IH]; intros p x Hp Hx; cbn [url_loop length]; [by rewrite Z.add_0_r|].
  pose proof (url_step_bounds p x b Hp Hx) as Hst; destruct (url_step p x b) as [|u|x']; [done|eapply Hmono; [|exact Hst]; lia|].
  specialize (IH (p + 1) x' ltac:(lia) Hst); replace (p + Z.of_nat (S (length bs))) with (p + 1 + zlen bs) by lia; exact IH.
Qed.

(** The fields of the host, up to the position [p]; its length is zero until it begins. *)
Record host_inv (n p : Z) (s : http_host_state) (u : http_parser_url) : Prop := {
  hi_bounds : in_bounds n u;
  hi_host : off UF_HOST u + len UF_HOST u <= p;
  hi_port : s = s_http_host_port -> off UF_PORT u + len UF_PORT u <= p;
  hi_user : s = s_http_userinfo -> off UF_USERINFO u + len UF_USERINFO u <= p;
  hi_zero : s = s_http_userinfo_start \/ s = s_http_userinfo \/ s = s_http_host_start \/ s = s_http_host_v6_start -> len UF_HOST u = 0 }.

(** The states a state comes from. *)
Lemma host_pred s c : match http_parse_host_char s c with
  | s_http_host => s = s_http_host \/ s = s_http_host_start
  | s_http_host_v6 => s = s_http_host_v6 \/ s = s_http_host_v6_start
  | s_http_userinfo => s = s_http_userinfo \/ s = s_http_userinfo_start
  | s_http_host_start => s = s_http_userinfo \/ s = s_http_userinfo_start
  | s_http_host_v6_start => s = s_http_host_start
  | s_http_userinfo_start => False
  | _ => True
  end.
Proof.
  unfold http_parse_host_char; destruct s; repeat match goal with |- context [if ?b then _ else _] => destruct b end; auto.
Qed.

Ltac fields := unfold UF_HOST, UF_PORT, UF_USERINFO, UF_MAX in *; try lia.
Lemma host_step_keeps f g p u : shaped u -> (f < UF_MAX)%nat -> g <> f ->
  off g (incr_len f (mark f (set_len f 0 (set_off f (u16 p) u)))) = off g u /\ len g (incr_len f (mark f (set_len f 0 (set_off f (u16 p) u)))) = len g u.
Proof.
  intros Hs Hf Hg; pose proof (shaped_off f (u16 p) u Hs) as H1; pose proof (shaped_len f 0 _ H1) as H2.
  unfold incr_len; set (m := mark f _); assert (shaped m) as H3 by done.
  rewrite off_set_len, len_set_len, bool_decide_eq_false_2 by done.
  change (off g m) with (off g (set_len f 0 (set_off f (u16 p) u))); change (len g m) with (len g (set_len f 0 (set_off f (u16 p) u))).
  by rewrite off_set_len, len_set_len, off_set_off, len_set_off, !bool_decide_eq_false_2 by done.
Qed.

(** One more byte of a field. *)
Lemma incr_keeps f g u : shaped u -> (f < UF_MAX)%nat -> g <> f -> off g (incr_len f u) = off g u /\ len g (incr_len f u) = len g u.
Proof. intros; unfold incr_len; rewrite off_set_len, len_set_len, bool_decide_eq_false_2 by done; done. Qed.
Lemma bounds_incr n p f u : in_bounds n u -> (f < UF_MAX)%nat -> p < n -> off f u + len f u <= p ->
  in_bounds n (incr_len f u) /\ off f (incr_len f u) + len f (incr_len f u) <= p + 1.
Proof.
  intros [Hs Hb] Hf Hp He; split; [split; [by apply shaped_len|]; intros g; apply ends_incr; [done|done|done|intros ->; lia]|].
  unfold incr_len; rewrite off_set_len, len_set_len, bool_decide_eq_true_2 by done; destruct (Hb f) as (? & ? & ?); pose proof (u16_le (len f u + 1)); lia.
Qed.
(** The first byte of a field, whose length is set to zero or is zero. *)
Lemma bounds_open n p f u : in_bounds n u -> (f < UF_MAX)%nat -> 0 <= p < n ->
  in_bounds n (mark f (set_len f 0 (set_off f (u16 p) u))) /\
  off f (mark f (set_len f 0 (set_off f (u16 p) u))) + len f (mark f (set_len f 0 (set_off f (u16 p) u))) <= p.
Proof.
  intros [Hs Hb] Hf Hp; pose proof (shaped_off f (u16 p) u Hs) as H1; split; [split; [by apply shaped_len|]; intros g; apply ends_open; done || lia|].
  change (off f (set_len f 0 (set_off f (u16 p) u)) + len f (set_len f 0 (set_off f (u16 p) u)) <= p).
  rewrite off_set_len, len_set_len, off_set_off, !bool_decide_eq_true_2 by done; pose proof (u16_le p); lia.
Qed.
Lemma bounds_off n p f u : in_bounds n u -> (f < UF_MAX)%nat -> 0 <= p < n -> len f u = 0 ->
  in_bounds n (set_off f (u16 p) u) /\ off f (set_off f (u16 p) u) + len f (set_off f (u16 p) u) <= p /\
  forall g, g <> f -> off g (set_off f (u16 p) u) = off g u /\ len g (set_off f (u16 p) u) = len g u.
Proof.
  intros [Hs Hb] Hf Hp Hl; pose proof (u16_le p ltac:(lia)); split_and!.
  - split; [by apply shaped_off|]; intros g; unfold ends; rewrite off_set_off, len_set_off by done; destruct (Hb g) as (? & ? & ?); case_bool_decide; [subst g; lia|lia].
  - rewrite off_set_off, len_set_off, bool_decide_eq_true_2 by done; lia.
  - intros g Hg; by rewrite off_set_off, len_set_off, bool_decide_eq_false_2 by done.
Qed.

Lemma host_step_inv n p s u c : host_inv n p s u -> 0 <= p < n -> http_parse_host_char s c <> s_http_host_dead ->
  host_inv n (p + 1) (http_parse_host_char s c) (host_step p s (http_parse_host_char s c) u).
Proof.
  intros [Hb Hh Hpo Hus Hz] Hp Hd; pose proof (host_pred s c) as Hpred; destruct (http_parse_host_char s c) eqn:Es; cbn [host_step]; try done.
  - (* userinfo *) case_bool_decide as E.
    + destruct (bounds_incr n p UF_USERINFO u Hb ltac:(fields) ltac:(lia) (Hus E)) as [B1 B2]; destruct (incr_keeps UF_USERINFO UF_HOST u (proj1 Hb) ltac:(fields) ltac:(fields)) as [K1 K2].
      split; [done|rewrite K1, K2; lia|done|done|intros _; rewrite K2; auto].
    + destruct (bounds_open n p UF_USERINFO u Hb ltac:(fields) Hp) as [B0 E0]; destruct (bounds_incr n p UF_USERINFO _ B0 ltac:(fields) ltac:(lia) E0) as [B1 B2].
      destruct (host_step_keeps UF_USERINFO UF_HOST p u (proj1 Hb) ltac:(fields) ltac:(fields)) as [K1 K2].
      split; [done|rewrite K1, K2; lia|done|done|intros _; rewrite K2; apply Hz; naive_solver].
  - (* host_start *) split; [done|lia|done|done|intros _; apply Hz; naive_solver].
  - (* v6_start *) split; [done|lia|done|done|intros _; apply Hz; naive_solver].
  - (* host *) case_bool_decide as E.
    + destruct (bounds_incr n p UF_HOST u Hb ltac:(fields) ltac:(lia) Hh) as [B1 B2]; split; [done|done|done|done|naive_solver].
    + destruct (bounds_off n p UF_HOST u Hb ltac:(fields) Hp ltac:(apply Hz; naive_solver)) as (B0 & E0 & _).
      destruct (bounds_incr n p UF_HOST _ B0 ltac:(fields) ltac:(lia) E0) as [B1 B2]; split; [done|done|done|done|naive_solver].
  - (* v6 *) case_bool_decide as E.
    + destruct (bounds_incr n p UF_HOST u Hb ltac:(fields) ltac:(lia) Hh) as [B1 B2]; split; [done|done|done|done|naive_solver].
    + destruct (bounds_off n p UF_HOST u Hb ltac:(fields) Hp ltac:(apply Hz; naive_solver)) as (B0 & E0 & _).
      destruct (bounds_incr n p UF_HOST _ B0 ltac:(fields) ltac:(lia) E0) as [B1 B2]; split; [done|done|done|done|naive_solver].
  - (* v6_end *) split; [done|lia|done|done|naive_solver].
  - (* zone_start *) destruct (bounds_incr n p UF_HOST u Hb ltac:(fields) ltac:(lia) Hh) as [B1 B2]; split; [done|done|done|done|naive_solver].
  - (* zone *) destruct (bounds_incr n p UF_HOST u Hb ltac:(fields) ltac:(lia) Hh) as [B1 B2]; split; [done|done|done|done|naive_solver].
  - (* port_start *) split; [done|lia|done|done|naive_solver].
  - (* port *) case_bool_decide as E.
    + destruct (bounds_incr n p UF_PORT u Hb ltac:(fields) ltac:(lia) (Hpo E)) as [B1 B2]; destruct (incr_keeps UF_PORT UF_HOST u (proj1 Hb) ltac:(fields) ltac:(fields)) as [K1 K2].
      split; [done|rewrite K1, K2; lia|done|done|naive_solver].
    + destruct (bounds_open n p UF_PORT u Hb ltac:(fields) Hp) as [B0 E0]; destruct (bounds_incr n p UF_PORT _ B0 ltac:(fields) ltac:(lia) E0) as [B1 B2].
      destruct (host_step_keeps UF_PORT UF_HOST p u (proj1 Hb) ltac:(fields) ltac:(fields)) as [K1 K2].
      split; [done|rewrite K1, K2; lia|done|done|naive_solver].
Qed.

Lemma host_loop_bounds n bs : forall p s u, 0 <= p -> p + zlen bs <= n -> host_inv n p s u -> in_bounds n (host_loop p s u bs).2.
Proof.
  induction bs as [|b bs IH]; intros p s u Hp Hn Hi; cbn [host_loop length] in *; [apply Hi|].
  case_bool_decide as E; [apply Hi|]; apply IH; [lia|lia|]; apply host_step_inv; [done|lia|done].
Qed.

(** No assertion fails, and every field lies in the buffer. *)
Lemma parse_bounds buf is_connect : exists r u, http_parser_parse_url buf is_connect http_parser_url_init = Some (r, u) /\ in_bounds (zlen buf) u.
Proof.
  assert (forall n, 0 <= n -> in_bounds n http_parser_url_init) as Hinit.
  { intros n Hn; split; [done|]; intros f; unfold ends, off, len; cbn; do 7 (destruct f as [|f]; [cbn; lia|]); destruct f; cbn; lia. }
  unfold http_parser_parse_url; destruct (Z.eqb_spec (zlen buf) 0) as [E0|E0]; [exists 1, http_parser_url_init; split; [done|apply Hinit; lia]|].
  set (x0 := mkScan _ _ _ _); pose proof (url_loop_bounds buf 0 x0 ltac:(lia) (Hinit 0 ltac:(lia))) as Hl.
  destruct (url_loop 0 x0 buf) as [|u|x]; [done|by exists 1, u|]; rewrite Z.add_0_l in Hl.
  destruct (_ && _); [by exists 1, (sc_u x)|].
  assert (exists r u, (if is_set UF_HOST (sc_u x) then http_parse_host buf (sc_u x) (sc_at x) else Some (0, sc_u x)) = Some (r, u) /\ in_bounds (zlen buf) u) as (r & u & -> & Hu).
  { destruct (is_set UF_HOST (sc_u x)) eqn:Eh; [|by exists 0, (sc_u x)]; unfold http_parse_host; rewrite Eh; cbn [negb].
    set (u0 := sc_u x) in *; destruct Hl as [Hs Hb]; destruct (Hb UF_HOST) as (B1 & B2 & B3).
    assert (in_bounds (zlen buf) (host_loop (off UF_HOST u0) (if sc_at x then s_http_userinfo_start else s_http_host_start) (set_len UF_HOST 0 u0) (slice (off UF_HOST u0) (off UF_HOST u0 + len UF_HOST u0) buf)).2) as Hb1.
    { apply host_loop_bounds; [done|rewrite zlen_slice by lia; lia|]; assert (UF_HOST < UF_MAX)%nat as Hlt by fields; split.
      - split; [by apply shaped_len|]; intros g; unfold ends; rewrite off_set_len, len_set_len by done; destruct (Hb g) as (? & ? & ?); case_bool_decide; lia.
      - rewrite off_set_len, len_set_len, bool_decide_eq_true_2 by done; lia.
      - by destruct (sc_at x).
      - by destruct (sc_at x).
      - intros _; by rewrite len_set_len, bool_decide_eq_true_2 by done. }
    destruct (host_loop _ _ _ _) as [r u]; cbn in Hb1; eauto. }
  cbn [mbind option_bind]; destruct (negb (r =? 0)); [eauto|]; destruct (is_connect && _); [eauto|]; destruct (is_set UF_PORT u); [|eauto].
  destruct Hu as [Hs Hb]; destruct (Hb UF_PORT) as (B1 & B2 & B3); rewrite (proj2 (Z.ltb_ge _ _)) by lia.
  destruct (port_loop _ _); [|by exists 1, u]; eexists _, _; split; [done|]; by split.
Qed.
End UrlProofs.
