(* ===== verification/UrlRoundtrip.v ===== *)
(** * The URL parser: round trips and theorems

    [url_in_bounds]: no assertion of the parser fails and every field it reports lies
    in the buffer, whatever the bytes; [url_view_exact] is about the view of a request,
    [long_path_wraps] about lengths, which wrap at 65536.  A URL is written from its parts ([print]); [url_roundtrip]: the parser finds the
    parts again.  The scan is followed part by part: [opened] is a field opened at a
    position with a length, and each lemma says which field a part opens. *)
From stdpp Require Import list.
From S2P Require Import Prelude StrUtils UrlParser UrlProofs.
Import UrlParser UrlProofs.

Module UrlRoundtrip.

(** ** Bytes *)

Lemma on_bytes (P : Z -> bool) c : forallb P (Z.of_nat <$> seq 0 256) = true -> is_byte c -> P c = true.
Proof.
  intros H Hc; rewrite forallb_forall in H; apply H, list_elem_of_In, list_elem_of_fmap; exists (Z.to_nat c); unfold is_byte in Hc.
  split; [lia|]; apply elem_of_seq; lia.
Qed.
(** What a class of bytes does to a state. *)
Lemma byte_step (C : Z -> bool) (s s' : state) c :
  forallb (fun c => implb (C c) (bool_decide (parse_url_char s c = s'))) (Z.of_nat <$> seq 0 256) = true ->
  is_byte c -> C c = true -> parse_url_char s c = s'.
Proof. intros H Hb Hc; pose proof (on_bytes _ c H Hb) as Hi; cbv beta in Hi; rewrite Hc in Hi; by apply bool_decide_eq_true in Hi. Qed.
Lemma host_byte_step (C : Z -> bool) (s s' : http_host_state) c :
  forallb (fun c => implb (C c) (bool_decide (http_parse_host_char s c = s'))) (Z.of_nat <$> seq 0 256) = true ->
  is_byte c -> C c = true -> http_parse_host_char s c = s'.
Proof. intros H Hb Hc; pose proof (on_bytes _ c H Hb) as Hi; cbv beta in Hi; rewrite Hc in Hi; by apply bool_decide_eq_true in Hi. Qed.

(** All bytes of a text are of a class. *)
Definition text (C : Z -> bool) (l : list Z) : Prop := Forall (fun c => is_byte c /\ C c = true) l.
Lemma text_cons C c l : text C (c :: l) <-> (is_byte c /\ C c = true) /\ text C l.
Proof. unfold text; by rewrite list.Forall_cons. Qed.
Lemma text_weaken (C D : Z -> bool) l : forallb (fun c => implb (C c) (D c)) (Z.of_nat <$> seq 0 256) = true -> text C l -> text D l.
Proof.
  intros H; apply Forall_impl; intros c [Hb Hc]; split; [done|].
  pose proof (on_bytes _ c H Hb) as Hi; cbv beta in Hi; by rewrite Hc in Hi.
Qed.

(** ** Opened fields *)

Definition opened (f : nat) (o l : Z) (u : http_parser_url) : http_parser_url := mark f (set_len f l (set_off f o u)).

Lemma incr_opened f o l u : shaped u -> (f < UF_MAX)%nat -> 0 <= l -> l + 1 < 2 ^ 16 -> incr_len f (opened f o l u) = opened f o (l + 1) u.
Proof.
  intros Hs Hf Hl H; unfold opened, incr_len.
  assert (forall x u, set_len f x (mark f u) = mark f (set_len f x u)) as -> by done; f_equal.
  assert (len f (mark f (set_len f l (set_off f o u))) = l) as ->.
  { change (len f (set_len f l (set_off f o u)) = l); rewrite len_set_len, bool_decide_eq_true_2 by first [done|by apply shaped_off]; done. }
  rewrite u16_id by lia; unfold set_len; cbn; f_equal; rewrite list_insert_insert_eq; f_equal; f_equal.
  unfold off; cbn; by rewrite !nth_lookup, list_lookup_insert_eq by (rewrite length_insert, Hs; done).
Qed.

Lemma shaped_opened f o l u : shaped u -> shaped (opened f o l u).
Proof. intros; by apply shaped_len, shaped_off. Qed.
Lemma off_opened f g o l u : shaped u -> (f < UF_MAX)%nat -> off g (opened f o l u) = if bool_decide (g = f) then o else off g u.
Proof. intros; change (off g (opened f o l u)) with (off g (set_len f l (set_off f o u))); by rewrite off_set_len, off_set_off by first [done|by apply shaped_off]. Qed.
Lemma len_opened f g o l u : shaped u -> (f < UF_MAX)%nat -> len g (opened f o l u) = if bool_decide (g = f) then l else len g u.
Proof. intros; change (len g (opened f o l u)) with (len g (set_len f l (set_off f o u))); by rewrite len_set_len, len_set_off by first [done|by apply shaped_off]. Qed.

Lemma has_bit x f : has x (Z.shiftl 1 (Z.of_nat f)) = Z.testbit x (Z.of_nat f).
Proof.
  unfold has; rewrite Z.shiftl_1_l; destruct (Z.testbit x (Z.of_nat f)) eqn:E.
  - destruct (Z.eqb_spec (Z.land x (2 ^ Z.of_nat f)) 0) as [H0|]; [|done].
    assert (Z.testbit (Z.land x (2 ^ Z.of_nat f)) (Z.of_nat f) = true) as Ht by (rewrite Z.land_spec, E, Z.pow2_bits_true by lia; done); by rewrite H0, Z.bits_0 in Ht.
  - assert (Z.land x (2 ^ Z.of_nat f) = 0) as ->; [|done]; apply Z.bits_inj'; intros i Hi; rewrite Z.land_spec, Z.bits_0.
    destruct (Z.eq_dec i (Z.of_nat f)) as [->|]; [by rewrite E|]; rewrite Z.pow2_bits_false by lia; by rewrite andb_false_r.
Qed.
Lemma is_set_mark f g u : (f < UF_MAX)%nat -> (g < UF_MAX)%nat -> is_set g (mark f u) = is_set g u || bool_decide (g = f).
Proof.
  unfold UF_MAX; intros Hf Hg; unfold is_set, mark; cbn; rewrite !has_bit; unfold u16; rewrite Z.mod_pow2_bits_low, Z.lor_spec by lia; f_equal.
  rewrite Z.shiftl_1_l; case_bool_decide as E; [subst; apply Z.pow2_bits_true; lia|apply Z.pow2_bits_false; lia].
Qed.
Lemma is_set_opened f g o l u : (f < UF_MAX)%nat -> (g < UF_MAX)%nat -> is_set g (opened f o l u) = is_set g u || bool_decide (g = f).
Proof. intros; unfold opened; by rewrite is_set_mark. Qed.

(** ** Scanning *)

Lemma loop_app a : forall p x b, url_loop p x (a ++ b) = match url_loop p x a with Go x' => url_loop (p + zlen a) x' b | o => o end.
Proof.
  induction a as [|c a IH]; intros p x b; cbn [app url_loop length]; [by rewrite Z.add_0_r|].
  destruct (url_step p x c); [done|done|]; rewrite IH; destruct (url_loop (p + 1) x0 a); [done|done|]; f_equal; lia.
Qed.

Lemma step_field p x c s f : parse_url_char (sc_s x) c = s -> field_of s = Some f ->
  url_step p x c = if Nat.eqb f (sc_old x) then Go (mkScan s (sc_old x) (sc_at x || bool_decide (s = s_req_server_with_at)) (incr_len f (sc_u x)))
                   else Go (mkScan s f (sc_at x || bool_decide (s = s_req_server_with_at)) (opened f (u16 p) 1 (sc_u x))).
Proof. intros E Hf; unfold url_step; rewrite E; destruct s; cbn in Hf; simplify_eq; done. Qed.

(** The rest of a field. *)
Lemma run_field p s f at_ o l u cs : (forall c, c ∈ cs -> parse_url_char s c = s) -> field_of s = Some f -> s <> s_req_server_with_at ->
  shaped u -> (f < UF_MAX)%nat -> 0 <= l -> l + zlen cs < 2 ^ 16 ->
  url_loop p (mkScan s f at_ (opened f o l u)) cs = Go (mkScan s f at_ (opened f o (l + zlen cs) u)).
Proof.
  intros Hc Hf Hat Hs Hlt; revert p l; induction cs as [|c cs IH]; intros p l Hl Hb; cbn [url_loop length] in *; [by rewrite Z.add_0_r|].
  rewrite (step_field p _ c s f) by first [done|apply Hc; left]; cbn [sc_old sc_at sc_u]; rewrite Nat.eqb_refl, (bool_decide_eq_false_2 _ Hat), orb_false_r.
  rewrite incr_opened by (done || lia); rewrite IH; [by replace (l + Z.of_nat (S (length cs))) with (l + 1 + zlen cs) by lia|intros c' Hc'; apply Hc; by right|lia|lia].
Qed.

(** A field from its first byte. *)
Lemma enter_field p x s f c cs : parse_url_char (sc_s x) c = s -> (forall c, c ∈ cs -> parse_url_char s c = s) -> field_of s = Some f -> s <> s_req_server_with_at ->
  sc_old x <> f -> shaped (sc_u x) -> (f < UF_MAX)%nat -> 0 <= p -> p + zlen (c :: cs) < 2 ^ 16 ->
  url_loop p x (c :: cs) = Go (mkScan s f (sc_at x) (opened f p (zlen (c :: cs)) (sc_u x))).
Proof.
  intros E Hc Hf Hat Ho Hs Hlt Hp Hb; cbn [url_loop length] in *; rewrite (step_field p x c s f) by done.
  rewrite (proj2 (Nat.eqb_neq _ _)) by done; rewrite (bool_decide_eq_false_2 _ Hat), orb_false_r, u16_id by lia.
  rewrite run_field; [by replace (Z.of_nat (S (length cs))) with (1 + zlen cs) by lia|done..|lia|lia].
Qed.

Lemma run_class p s f at_ o l u cs (C : Z -> bool) :
  forallb (fun c => implb (C c) (bool_decide (parse_url_char s c = s))) (Z.of_nat <$> seq 0 256) = true ->
  text C cs -> field_of s = Some f -> s <> s_req_server_with_at -> shaped u -> (f < UF_MAX)%nat -> 0 <= l -> l + zlen cs < 2 ^ 16 ->
  url_loop p (mkScan s f at_ (opened f o l u)) cs = Go (mkScan s f at_ (opened f o (l + zlen cs) u)).
Proof.
  intros HC Ht; apply run_field; intros c Hc; unfold text in Ht; rewrite list.Forall_forall in Ht; destruct (Ht c Hc); by apply (byte_step C).
Qed.
Lemma enter_class p x s f c cs (C : Z -> bool) : parse_url_char (sc_s x) c = s ->
  forallb (fun c => implb (C c) (bool_decide (parse_url_char s c = s))) (Z.of_nat <$> seq 0 256) = true ->
  text C cs -> field_of s = Some f -> s <> s_req_server_with_at ->
  sc_old x <> f -> shaped (sc_u x) -> (f < UF_MAX)%nat -> 0 <= p -> p + zlen (c :: cs) < 2 ^ 16 ->
  url_loop p x (c :: cs) = Go (mkScan s f (sc_at x) (opened f p (zlen (c :: cs)) (sc_u x))).
Proof.
  intros E HC Ht; apply enter_field; [done|]; intros c' Hc; unfold text in Ht; rewrite list.Forall_forall in Ht; destruct (Ht c' Hc); by apply (byte_step C).
Qed.

(** ** The parts of a URL *)

Record Authority := mkAuth { a_schema : list Z; a_user : option (list Z); a_v6 : bool; a_host : list Z; a_port : option (list Z) }.
Record Url := mkU { u_auth : option Authority; u_path : list Z; u_query : option (list Z); u_fragment : option (list Z) }.

Definition before (t : option (list Z)) (c : Z) : list Z := match t with Some t => t ++ [c] | None => [] end.
Definition after (c : Z) (t : option (list Z)) : list Z := match t with Some t => c :: t | None => [] end.
Definition host_text (a : Authority) : list Z := if a_v6 a then 91 :: a_host a ++ [93] else a_host a.
(** [user@host:port] *)
Definition auth_text (a : Authority) : list Z := before (a_user a) 64 ++ host_text a ++ after 58 (a_port a).
(** [schema://user@host:port/path?query#fragment] *)
Definition print (u : Url) : list Z :=
  match u_auth u with Some a => a_schema a ++ str "://" ++ auth_text a | None => [] end ++
  u_path u ++ after 63 (u_query u) ++ after 35 (u_fragment u).

Definition v6_char (c : Z) : bool := IS_HEX c || (c =? 58) || (c =? 46).
Definition query_char (c : Z) : bool := IS_URL_CHAR c || (c =? 63).
Definition fragment_char (c : Z) : bool := IS_URL_CHAR c || (c =? 63) || (c =? 35).
Definition server_char (c : Z) : bool := IS_USERINFO_CHAR c || (c =? 91) || (c =? 93).

Record valid_auth (a : Authority) : Prop := {
  va_schema : a_schema a <> [] /\ text IS_ALPHA (a_schema a);
  va_user : match a_user a with Some t => t <> [] /\ text IS_USERINFO_CHAR t | None => True end;
  va_host : a_host a <> [] /\ text (if a_v6 a then v6_char else IS_HOST_CHAR) (a_host a);
  va_port : match a_port a with Some t => t <> [] /\ text IS_NUM t /\ StrUtils.dec_value t <= 0xffff | None => True end }.
Record valid (u : Url) : Prop := {
  v_auth : match u_auth u with Some a => valid_auth a | None => u_path u <> [] end;
  v_path : match u_path u with [] => u_query u = None -> u_fragment u = None | c :: t => c = 47 /\ text IS_URL_CHAR t end;
  v_query : match u_query u with Some t => text query_char t | None => True end;
  v_fragment : match u_fragment u with Some t => text fragment_char t /\ head t <> Some 35 | None => True end }.

Lemma text_app C a b : text C a -> text C b -> text C (a ++ b).
Proof. unfold text; rewrite list.Forall_app; done. Qed.
Lemma text1 C c : is_byte c -> C c = true -> text C [c].
Proof. intros; unfold text; apply List.Forall_cons; [done|apply List.Forall_nil]. Qed.

Lemma server_text a : valid_auth a -> text server_char (host_text a ++ after 58 (a_port a)) /\ (0 < zlen (host_text a)).
Proof.
  intros [_ _ [Hn Hh] Hp]; split.
  - apply text_app.
    + unfold host_text; destruct (a_v6 a).
      * apply (text_app _ [91]); [apply text1; [done|reflexivity]|]; apply text_app; [|apply text1; [done|reflexivity]].
        eapply text_weaken; [|exact Hh]; vm_compute; reflexivity.
      * eapply text_weaken; [|exact Hh]; vm_compute; reflexivity.
    + destruct (a_port a) as [t|]; [|constructor]; cbn; apply (text_app _ [58]); [apply text1; [done|reflexivity]|].
      destruct Hp as (_ & Hp & _); eapply text_weaken; [|exact Hp]; vm_compute; reflexivity.
  - unfold host_text; destruct (a_v6 a), (a_host a); cbn in *; lia || done.
Qed.

Ltac uf := unfold UF_SCHEMA, UF_HOST, UF_PORT, UF_PATH, UF_QUERY, UF_FRAGMENT, UF_USERINFO, UF_MAX in *; lia.

Lemma run_server p at_ o l u cs : text server_char cs -> shaped u -> 0 <= l -> l + zlen cs < 2 ^ 16 ->
  url_loop p (mkScan s_req_server UF_HOST at_ (opened UF_HOST o l u)) cs = Go (mkScan s_req_server UF_HOST at_ (opened UF_HOST o (l + zlen cs) u)).
Proof. intros Ht Hs Hl Hb; apply (run_class _ _ _ _ _ _ _ _ server_char); try done; uf. Qed.

Lemma scan_auth p x a : valid_auth a -> sc_s x = s_req_server_start -> sc_old x <> UF_HOST -> shaped (sc_u x) -> 0 <= p -> p + zlen (auth_text a) < 2 ^ 16 ->
  url_loop p x (auth_text a) = Go (mkScan s_req_server UF_HOST (sc_at x || (if a_user a then true else false)) (opened UF_HOST p (zlen (auth_text a)) (sc_u x))).
Proof.
  intros Hv Hx Ho Hs Hp Hb; destruct (server_text a Hv) as [Hst Hpos]; assert (UF_HOST < UF_MAX)%nat as Hlt by uf.
  assert (forall c t, text server_char (c :: t) -> p + zlen (c :: t) < 2 ^ 16 ->
    url_loop p x (c :: t) = Go (mkScan s_req_server UF_HOST (sc_at x) (opened UF_HOST p (zlen (c :: t)) (sc_u x)))) as Hent.
  { intros c t Ht Hb'; apply text_cons in Ht as [[Hc1 Hc2] Ht]; apply (enter_class p x s_req_server UF_HOST c t server_char); try done.
    rewrite Hx; apply (byte_step server_char); [vm_compute; reflexivity|done..]. }
  unfold auth_text in *; destruct (a_user a) as [t|] eqn:Eu; cbn [before app] in *.
  - pose proof (va_user a Hv) as Hu; rewrite Eu in Hu; destruct Hu as [Hne Hu]; destruct t as [|c t]; [done|].
    assert (text server_char (c :: t)) as Hu' by (eapply text_weaken; [|exact Hu]; vm_compute; reflexivity).
    set (rest := host_text a ++ after 58 (a_port a)) in *; rewrite !length_app in Hb; cbn [length] in Hb.
    rewrite <- app_assoc, loop_app, Hent by (try done; cbn [length]; lia); cbn [app]; set (p1 := p + zlen (c :: t)).
    destruct rest as [|d rest'] eqn:Er; [exfalso; unfold rest in Er; apply app_eq_nil in Er as [Er _]; rewrite Er in Hpos; cbn in Hpos; lia|].
    cbn [url_loop]; rewrite (step_field p1 _ 64 s_req_server_with_at UF_HOST) by done; cbn [sc_old sc_at sc_u]; rewrite Nat.eqb_refl, incr_opened by (cbn [length] in *; done || lia).
    apply text_cons in Hst as [[Hd1 Hd2] Hst].
    rewrite (step_field (p1 + 1) _ d s_req_server UF_HOST); [|apply (byte_step server_char); [vm_compute; reflexivity|done..]|done].
    cbn [sc_old sc_at sc_u]; rewrite Nat.eqb_refl, incr_opened by (cbn [length] in *; done || lia); rewrite run_server by (cbn [length] in *; done || lia).
    cbn [length app]; rewrite !length_app; cbn [length]; rewrite bool_decide_eq_true_2, orb_true_r by done; cbn [orb].
    by match goal with |- Go (mkScan _ _ _ (opened _ _ ?a _)) = Go (mkScan _ _ _ (opened _ _ ?b _)) => replace a with b by lia end.
  - destruct (host_text a ++ _) as [|c t] eqn:Er; [apply app_eq_nil in Er as [Er _]; rewrite Er in Hpos; cbn in Hpos; lia|].
    rewrite Hent by done; by rewrite orb_false_r.
Qed.

(** A field of a part that may be absent or empty. *)
Definition opt_open (f : nat) (p : Z) (t : option (list Z)) (u : http_parser_url) : http_parser_url :=
  match t with Some (c :: t') => opened f p (zlen (c :: t')) u | _ => u end.
Lemma shaped_opt f p t u : shaped u -> shaped (opt_open f p t u).
Proof. destruct t as [[|c t]|]; [done| |done]; apply shaped_opened. Qed.

(** A part after its delimiter: [s1] is the state after the delimiter, [s2] that of the
    part. *)
Lemma scan_after c0 p x t (s1 s2 : state) f (C : Z -> bool) : parse_url_char (sc_s x) c0 = s1 ->
  (s1 = s_req_query_string_start \/ s1 = s_req_fragment_start) ->
  forallb (fun c => implb (C c) (bool_decide (parse_url_char s2 c = s2))) (Z.of_nat <$> seq 0 256) = true ->
  (forall c, head t = Some c -> parse_url_char s1 c = s2) ->
  text C t -> field_of s2 = Some f -> s2 <> s_req_server_with_at -> sc_old x <> f -> shaped (sc_u x) -> (f < UF_MAX)%nat -> 0 <= p -> p + 1 + zlen t < 2 ^ 16 ->
  url_loop p x (c0 :: t) = Go (mkScan (match t with [] => s1 | _ => s2 end) (match t with [] => sc_old x | _ => f end) (sc_at x) (opt_open f (p + 1) (Some t) (sc_u x))).
Proof.
  intros E Hs1 HC Hh Ht Hf Hat Ho Hs Hlt Hp Hb; cbn [url_loop]; unfold url_step; rewrite E.
  assert (match s1 with
    | s_dead => Return1 (sc_u x)
    | s_req_schema_slash | s_req_schema_slash_slash | s_req_server_start | s_req_query_string_start | s_req_fragment_start => Go (mkScan s1 (sc_old x) (sc_at x) (sc_u x))
    | s_req_spaces_before_url => Assert_
    | _ => match field_of s1 with
           | None => Assert_
           | Some uf => if Nat.eqb uf (sc_old x) then Go (mkScan s1 (sc_old x) (sc_at x || bool_decide (s1 = s_req_server_with_at)) (incr_len uf (sc_u x)))
                        else Go (mkScan s1 uf (sc_at x || bool_decide (s1 = s_req_server_with_at)) (mark uf (set_len uf 1 (set_off uf (u16 p) (sc_u x)))))
           end
    end = Go (mkScan s1 (sc_old x) (sc_at x) (sc_u x))) as -> by (by destruct Hs1 as [-> | ->]).
  destruct t as [|c t]; [done|]; apply text_cons in Ht as [[Hc1 Hc2] Ht].
  rewrite (enter_class (p + 1) _ s2 f c t C); try done; [by apply Hh|lia].
Qed.

Definition tail_u (p : Z) (path : list Z) (q fr : option (list Z)) (u : http_parser_url) : http_parser_url :=
  opt_open UF_FRAGMENT (p + zlen path + zlen (after 63 q) + 1) fr (opt_open UF_QUERY (p + zlen path + 1) q (opt_open UF_PATH p (Some path) u)).

Lemma scan_fragment p x fr : (fr <> None -> sc_s x = s_req_path \/ sc_s x = s_req_query_string_start \/ sc_s x = s_req_query_string) ->
  match fr with Some t => text fragment_char t /\ head t <> Some 35 | None => True end ->
  sc_old x <> UF_FRAGMENT -> shaped (sc_u x) -> 0 <= p -> p + zlen (after 35 fr) < 2 ^ 16 ->
  exists s old, url_loop p x (after 35 fr) = Go (mkScan s old (sc_at x) (opt_open UF_FRAGMENT (p + 1) fr (sc_u x))).
Proof.
  intros Hx Hf Ho Hs Hp Hb; destruct fr as [t|]; cbn [after] in *; [|destruct x; by eexists _, _]; destruct Hf as [Ht Hh]; eexists _, _.
  apply (scan_after 35 p x t s_req_fragment_start s_req_fragment UF_FRAGMENT fragment_char); try done; [|by right| |uf|cbn [length] in Hb; lia].
  - by destruct (Hx ltac:(done)) as [-> |[-> | ->]].
  - intros c Hc; destruct t as [|c' t]; [done|]; cbn in Hc, Hh; simplify_eq; apply text_cons in Ht as [[Hc1 Hc2] _].
    apply (byte_step (fun c => fragment_char c && negb (c =? 35))); [vm_compute; reflexivity|done|]; rewrite Hc2; cbn.
    apply negb_true_iff, Z.eqb_neq; congruence.
Qed.

Lemma scan_tail p x u : valid u -> sc_s x = s_req_server \/ (sc_s x = s_req_spaces_before_url /\ u_path u <> []) ->
  sc_old x = UF_HOST \/ sc_old x = UF_MAX -> shaped (sc_u x) -> 0 <= p -> p + zlen (u_path u ++ after 63 (u_query u) ++ after 35 (u_fragment u)) < 2 ^ 16 ->
  exists s old, url_loop p x (u_path u ++ after 63 (u_query u) ++ after 35 (u_fragment u)) = Go (mkScan s old (sc_at x) (tail_u p (u_path u) (u_query u) (u_fragment u) (sc_u x))).
Proof.
  intros [_ Vp Vq Vf] Hx Ho Hs Hp Hb; rewrite !length_app in Hb; unfold tail_u.
  assert (exists s old, url_loop p x (u_path u) = Go (mkScan s old (sc_at x) (opt_open UF_PATH p (Some (u_path u)) (sc_u x))) /\
    (s = s_req_path /\ u_path u <> [] \/ s = s_req_server /\ u_path u = []) /\ old <> UF_QUERY /\ old <> UF_FRAGMENT) as (s1 & o1 & E1 & Hs1 & Hq1 & Hf1).
  { destruct (u_path u) as [|c t].
    - destruct Hx as [Hx|[_ Hx]]; [|done]; exists (sc_s x), (sc_old x); destruct x; cbn in *; split_and!; [done|by right|by destruct Ho as [-> | ->]|by destruct Ho as [-> | ->]].
    - destruct Vp as [-> Ht]; exists s_req_path, UF_PATH; split_and!; [|by left|done|done].
      apply (enter_class p x s_req_path UF_PATH 47 t IS_URL_CHAR); try done; [by destruct Hx as [-> |[-> _]]|by destruct Ho as [-> | ->]|uf|cbn [length] in *; lia]. }
  rewrite loop_app, E1, loop_app; set (u1 := opt_open UF_PATH p (Some (u_path u)) (sc_u x)); assert (shaped u1) as Hs1' by (by apply shaped_opt).
  assert (exists s old, url_loop (p + zlen (u_path u)) (mkScan s1 o1 (sc_at x) u1) (after 63 (u_query u)) = Go (mkScan s old (sc_at x) (opt_open UF_QUERY (p + zlen (u_path u) + 1) (u_query u) u1)) /\
    (u_fragment u <> None -> s = s_req_path \/ s = s_req_query_string_start \/ s = s_req_query_string) /\ old <> UF_FRAGMENT) as (s2 & o2 & -> & Hs2 & Hf2).
  { destruct (u_query u) as [t|] eqn:Eq; cbn [after] in *.
    - eexists _, _; split; [apply (scan_after 63 _ (mkScan s1 o1 (sc_at x) u1) t s_req_query_string_start s_req_query_string UF_QUERY query_char); try done; [by destruct Hs1 as [[-> _]|[-> _]]|by left| |uf|lia|cbn [length] in *; lia]|].
      + intros c Hc; destruct t as [|c' t]; [done|]; cbn in Hc; simplify_eq; apply text_cons in Vq as [[Hc1 Hc2] _]; apply (byte_step query_char); [vm_compute; reflexivity|done..].
      + destruct t; cbn; [split; [by right; left|done]|split; [by right; right|done]].
    - exists s1, o1; split_and!; [done| |done]; intros Hf; destruct Hs1 as [[-> _]|[_ E]]; [by left|]; rewrite E in Vp; by rewrite Vp in Hf. }
  replace (p + zlen (u_path u) + zlen (after 63 (u_query u)) + 1) with ((p + zlen (u_path u) + zlen (after 63 (u_query u))) + 1) by lia.
  apply (scan_fragment _ (mkScan s2 o2 (sc_at x) _)); try done; [by apply shaped_opt|lia|lia].
Qed.

(** ** The host *)

Definition placed (f : nat) (o l : Z) (u : http_parser_url) : http_parser_url := set_len f l (set_off f o u).

Lemma incr_placed f o l u : shaped u -> (f < UF_MAX)%nat -> 0 <= l -> l + 1 < 2 ^ 16 -> incr_len f (placed f o l u) = placed f o (l + 1) u.
Proof.
  intros Hs Hf Hl H; pose proof (shaped_off f o u Hs) as Hs1; unfold placed, incr_len; rewrite len_set_len, bool_decide_eq_true_2, u16_id by (done || lia).
  unfold set_len; cbn; rewrite list_insert_insert_eq; do 3 f_equal.
  unfold off; cbn; by rewrite !nth_lookup, list_lookup_insert_eq by (rewrite length_insert, Hs; done).
Qed.
Lemma first_placed f o u : shaped u -> (f < UF_MAX)%nat -> len f u = 0 -> incr_len f (set_off f o u) = placed f o 1 u.
Proof. intros Hs Hf Hl; unfold incr_len, placed; rewrite len_set_off, Hl by done; done. Qed.
Lemma first_opened f o u : shaped u -> (f < UF_MAX)%nat -> incr_len f (mark f (set_len f 0 (set_off f o u))) = opened f o 1 u.
Proof. intros Hs Hf; change (incr_len f (opened f o 0 u) = opened f o 1 u); by rewrite incr_opened. Qed.

Lemma host_run f s (X : Z -> http_parser_url) (C : Z -> bool) cs rest : forall p l,
  forallb (fun c => implb (C c) (bool_decide (http_parse_host_char s c = s))) (Z.of_nat <$> seq 0 256) = true -> s <> s_http_host_dead ->
  (forall p u, host_step p s s u = incr_len f u) -> (forall l, 0 <= l -> l + 1 < 2 ^ 16 -> incr_len f (X l) = X (l + 1)) ->
  text C cs -> 0 <= l -> l + zlen cs < 2 ^ 16 ->
  host_loop p s (X l) (cs ++ rest) = host_loop (p + zlen cs) s (X (l + zlen cs)) rest.
Proof.
  induction cs as [|c cs IH]; intros p l HC Hd Hst HX Ht Hl Hb; cbn [app length] in *; [by rewrite !Z.add_0_r|].
  apply text_cons in Ht as [[Hc1 Hc2] Ht]; cbn [host_loop]; rewrite (host_byte_step C s s c) by done; rewrite bool_decide_eq_false_2, Hst, HX by (done || lia).
  rewrite IH by (done || lia); replace (p + Z.of_nat (S (length cs))) with (p + 1 + zlen cs) by lia; by replace (l + Z.of_nat (S (length cs))) with (l + 1 + zlen cs) by lia.
Qed.

(** A part of the host from its first byte, coming from the state [s0]. *)
Lemma host_enter f s0 s (X : Z -> http_parser_url) (C : Z -> bool) c cs rest p u :
  forallb (fun c => implb (C c) (bool_decide (http_parse_host_char s0 c = s))) (Z.of_nat <$> seq 0 256) = true ->
  forallb (fun c => implb (C c) (bool_decide (http_parse_host_char s c = s))) (Z.of_nat <$> seq 0 256) = true -> s <> s_http_host_dead ->
  (forall p u, host_step p s s u = incr_len f u) -> (forall l, 0 <= l -> l + 1 < 2 ^ 16 -> incr_len f (X l) = X (l + 1)) ->
  host_step p s0 s u = X 1 -> text C (c :: cs) -> zlen (c :: cs) < 2 ^ 16 ->
  host_loop p s0 u ((c :: cs) ++ rest) = host_loop (p + zlen (c :: cs)) s (X (zlen (c :: cs))) rest.
Proof.
  intros H0 HC Hd Hst HX H1 Ht Hb; apply text_cons in Ht as [[Hc1 Hc2] Ht]; cbn [app host_loop length] in *.
  rewrite (host_byte_step C s0 s c) by done; rewrite bool_decide_eq_false_2, H1 by done.
  rewrite (host_run f s X C cs rest) by (done || lia); replace (p + 1 + zlen cs) with (p + Z.of_nat (S (length cs))) by lia; by replace (1 + zlen cs) with (Z.of_nat (S (length cs))) by lia.
Qed.

Lemma host_user p u t rest : shaped u -> t <> [] -> text IS_USERINFO_CHAR t -> 0 <= p -> p + zlen t < 2 ^ 16 ->
  host_loop p s_http_userinfo_start u (t ++ 64 :: rest) = host_loop (p + zlen t + 1) s_http_host_start (opened UF_USERINFO p (zlen t) u) rest.
Proof.
  intros Hs Hn Ht Hp Hb; destruct t as [|c cs]; [done|]; assert (UF_USERINFO < UF_MAX)%nat as Hlt by uf.
  rewrite (host_enter UF_USERINFO s_http_userinfo_start s_http_userinfo (fun l => opened UF_USERINFO p l u) IS_USERINFO_CHAR c cs (64 :: rest) p u); try done; try lia.
  - intros l H1 H2; by apply incr_opened.
  - cbn [host_step]; rewrite bool_decide_eq_false_2, u16_id by (done || cbn [length] in *; lia); by apply first_opened.
Qed.

Lemma host_name p u h rest : shaped u -> len UF_HOST u = 0 -> h <> [] -> text IS_HOST_CHAR h -> 0 <= p -> p + zlen h < 2 ^ 16 ->
  host_loop p s_http_host_start u (h ++ rest) = host_loop (p + zlen h) s_http_host (placed UF_HOST p (zlen h) u) rest.
Proof.
  intros Hs Hz Hn Ht Hp Hb; destruct h as [|c cs]; [done|]; assert (UF_HOST < UF_MAX)%nat as Hlt by uf.
  apply (host_enter UF_HOST s_http_host_start s_http_host (fun l => placed UF_HOST p l u) IS_HOST_CHAR); try done; try lia.
  - intros l H1 H2; by apply incr_placed.
  - cbn [host_step]; rewrite bool_decide_eq_false_2, u16_id by (done || cbn [length] in *; lia); by apply first_placed.
Qed.

Lemma host_literal p u h rest : shaped u -> len UF_HOST u = 0 -> h <> [] -> text v6_char h -> 0 <= p -> p + zlen h + 2 < 2 ^ 16 ->
  host_loop p s_http_host_start u ((91 :: h ++ [93]) ++ rest) = host_loop (p + zlen h + 2) s_http_host_v6_end (placed UF_HOST (p + 1) (zlen h) u) rest.
Proof.
  intros Hs Hz Hn Ht Hp Hb; destruct h as [|c cs]; [done|]; assert (UF_HOST < UF_MAX)%nat as Hlt by uf.
  change ((91 :: (c :: cs) ++ [93]) ++ rest) with (91 :: ((c :: cs) ++ [93]) ++ rest); rewrite <- app_assoc; cbn [host_loop].
  change (http_parse_host_char s_http_host_start 91) with s_http_host_v6_start; rewrite bool_decide_eq_false_2 by done; cbn [host_step].
  rewrite (host_enter UF_HOST s_http_host_v6_start s_http_host_v6 (fun l => placed UF_HOST (p + 1) l u) v6_char c cs ([93] ++ rest) (p + 1) u); try done; try (cbn [length] in *; lia).
  - cbn [app host_loop]; change (http_parse_host_char s_http_host_v6 93) with s_http_host_v6_end; rewrite bool_decide_eq_false_2 by done; cbn [host_step].
    by replace (p + 1 + zlen (c :: cs) + 1) with (p + zlen (c :: cs) + 2) by lia.
  - intros l H1 H2; by apply incr_placed.
  - cbn [host_step]; rewrite bool_decide_eq_false_2, u16_id by (done || cbn [length] in *; lia); by apply first_placed.
Qed.

Lemma host_port p s u t : s = s_http_host \/ s = s_http_host_v6_end -> shaped u -> t <> [] -> text IS_NUM t -> 0 <= p -> p + 1 + zlen t < 2 ^ 16 ->
  host_loop p s u (58 :: t) = (Some s_http_host_port, opened UF_PORT (p + 1) (zlen t) u).
Proof.
  intros Hst Hs Hn Ht Hp Hb; destruct t as [|c cs]; [done|]; assert (UF_PORT < UF_MAX)%nat as Hlt by uf; cbn [host_loop].
  assert (http_parse_host_char s 58 = s_http_host_port_start) as -> by (by destruct Hst as [-> | ->]); rewrite bool_decide_eq_false_2 by done; cbn [host_step].
  fold host_loop; change (host_loop (p + 1) s_http_host_port_start u (c :: cs) = (Some s_http_host_port, opened UF_PORT (p + 1) (zlen (c :: cs)) u)).
  rewrite <- (app_nil_r (c :: cs)) at 1.
  rewrite (host_enter UF_PORT s_http_host_port_start s_http_host_port (fun l => opened UF_PORT (p + 1) l u) IS_NUM c cs [] (p + 1) u); try done; try lia.
  - intros l H1 H2; by apply incr_opened.
  - cbn [host_step]; rewrite bool_decide_eq_false_2, u16_id by (done || cbn [length] in *; lia); by apply first_opened.
Qed.

(** The fields the host leaves. *)
Definition host_u (p : Z) (a : Authority) (u : http_parser_url) : http_parser_url :=
  let hp := p + zlen (before (a_user a) 64) in
  opt_open UF_PORT (hp + zlen (host_text a) + 1) (a_port a)
    (placed UF_HOST (hp + if a_v6 a then 1 else 0) (zlen (a_host a)) (opt_open UF_USERINFO p (a_user a) u)).

Lemma len_opt f g p t u : shaped u -> (f < UF_MAX)%nat -> g <> f -> len g (opt_open f p t u) = len g u.
Proof. intros; destruct t as [[|c t]|]; cbn [opt_open]; [done| |done]; by rewrite len_opened, bool_decide_eq_false_2. Qed.

Lemma host_auth p u a : valid_auth a -> shaped u -> len UF_HOST u = 0 -> 0 <= p -> p + zlen (auth_text a) < 2 ^ 16 ->
  exists s, (s = s_http_host \/ s = s_http_host_v6_end \/ s = s_http_host_port) /\
  host_loop p (if a_user a then s_http_userinfo_start else s_http_host_start) u (auth_text a) = (Some s, host_u p a u).
Proof.
  intros [_ Vu [Vn Vh] Vp] Hs Hz Hp Hb; unfold auth_text in *; rewrite !length_app in Hb; set (rest := host_text a ++ after 58 (a_port a)) in *.
  set (u1 := opt_open UF_USERINFO p (a_user a) u); set (hp := p + zlen (before (a_user a) 64)).
  assert (shaped u1) as Hs1 by (by apply shaped_opt); assert (len UF_HOST u1 = 0) as Hz1 by (unfold u1; rewrite len_opt; [done|done|uf|uf]).
  assert (host_loop p (if a_user a then s_http_userinfo_start else s_http_host_start) u (before (a_user a) 64 ++ rest) = host_loop hp s_http_host_start u1 rest) as ->.
  { unfold u1, hp; destruct (a_user a) as [t|]; cbn [before app] in *; [|by rewrite Z.add_0_r]; destruct Vu as [Hne Vu]; rewrite length_app in *; cbn [length] in *.
    rewrite <- app_assoc; cbn [app]; rewrite host_user by (done || lia); destruct t; [done|]; cbn [opt_open]; by replace (p + Z.of_nat (length (z :: t) + 1)) with (p + zlen (z :: t) + 1) by lia. }
  set (u2 := placed UF_HOST (hp + if a_v6 a then 1 else 0) (zlen (a_host a)) u1); assert (shaped u2) as Hs2 by (by apply shaped_len, shaped_off).
  assert (exists s, (s = s_http_host \/ s = s_http_host_v6_end) /\ host_loop hp s_http_host_start u1 rest = host_loop (hp + zlen (host_text a)) s u2 (after 58 (a_port a))) as (s & Hst & ->).
  { unfold rest, u2, host_text in *; destruct (a_v6 a).
    - exists s_http_host_v6_end; split; [by right|]; cbn [length] in Hb; rewrite length_app in Hb; cbn [length] in Hb; rewrite host_literal by (done || lia).
      cbn [length]; rewrite length_app; cbn [length]; by replace (hp + Z.of_nat (S (length (a_host a) + 1))) with (hp + zlen (a_host a) + 2) by lia.
    - exists s_http_host; split; [by left|]; rewrite host_name by (done || lia); by rewrite Z.add_0_r. }
  unfold host_u; fold hp u1 u2; destruct (a_port a) as [t|] eqn:Ep; cbn [after opt_open]; [|exists s; split; [naive_solver|done]].
  destruct Vp as (Hne & Vp & _); exists s_http_host_port; split; [auto|]; cbn [after length] in Hb.
  rewrite host_port by (done || lia); destruct t; done.
Qed.

(** ** The result *)

Definition fld (f : nat) (u : http_parser_url) : bool * Z * Z := (is_set f u, off f u, len f u).
Lemma fld_opened g f p l u : shaped u -> (f < UF_MAX)%nat -> (g < UF_MAX)%nat -> fld g (opened f p l u) = if Nat.eqb g f then (true, p, l) else fld g u.
Proof.
  intros; unfold fld; rewrite is_set_opened, off_opened, len_opened by done; destruct (Nat.eqb_spec g f) as [->|E].
  - by rewrite !bool_decide_eq_true_2, orb_true_r by done.
  - by rewrite !bool_decide_eq_false_2, orb_false_r by done.
Qed.
Lemma fld_placed g f o l u : shaped u -> (f < UF_MAX)%nat -> fld g (placed f o l u) = if Nat.eqb g f then (is_set g u, o, l) else fld g u.
Proof.
  intros Hs Hf; pose proof (shaped_off f o u Hs); unfold fld, placed; rewrite off_set_len, len_set_len, off_set_off, len_set_off by done; destruct (Nat.eqb_spec g f) as [->|E].
  - by rewrite !bool_decide_eq_true_2.
  - by rewrite !bool_decide_eq_false_2.
Qed.
Lemma fld_len g f l u : shaped u -> (f < UF_MAX)%nat -> fld g (set_len f l u) = if Nat.eqb g f then (is_set g u, off g u, l) else fld g u.
Proof.
  intros Hs Hf; unfold fld; rewrite off_set_len, len_set_len by done; destruct (Nat.eqb_spec g f) as [->|E].
  - by rewrite !bool_decide_eq_true_2.
  - by rewrite !bool_decide_eq_false_2.
Qed.
Lemma fld_opt g f p t u : shaped u -> (f < UF_MAX)%nat -> (g < UF_MAX)%nat ->
  fld g (opt_open f p t u) = match t with Some (c :: t') => if Nat.eqb g f then (true, p, zlen (c :: t')) else fld g u | _ => fld g u end.
Proof. intros; destruct t as [[|c t]|]; cbn [opt_open]; [done| |done]; by apply fld_opened. Qed.

(** The text of a field. *)
Definition field (buf : list Z) (u : http_parser_url) (f : nat) : option (list Z) :=
  if is_set f u then Some (slice (off f u) (off f u + len f u) buf) else None.
Lemma slice_mid {A} (a b c : list A) : slice (zlen a) (zlen a + zlen b) (a ++ b ++ c) = b.
Proof. unfold slice; rewrite zdrop_app by done; rewrite ztake_app; [done|lia]. Qed.
Lemma field_text buf u f pre t post : fld f u = (true, zlen pre, zlen t) -> buf = pre ++ t ++ post -> field buf u f = Some t.
Proof. intros E ->; unfold fld in E; simplify_eq; unfold field; rewrite H, H0, H1; by rewrite slice_mid. Qed.
Lemma field_none buf u f o l : fld f u = (false, o, l) -> field buf u f = None.
Proof. intros E; unfold fld in E; simplify_eq; unfold field; by rewrite H. Qed.

(** An empty part is not reported. *)
Definition nonempty (t : option (list Z)) : option (list Z) := match t with Some [] => None | _ => t end.

Lemma port_value t : text IS_NUM t -> forall v, 0 <= v -> foldl (fun acc d => 10 * acc + (d - 48)) v t <= 0xffff ->
  port_loop v t = Some (foldl (fun acc d => 10 * acc + (d - 48)) v t).
Proof.
  assert (forall t v, text IS_NUM t -> 0 <= v -> v <= foldl (fun acc d => 10 * acc + (d - 48)) v t) as Hge.
  { clear; induction t as [|d t IH]; intros v Ht Hv; cbn [foldl]; [lia|]; apply text_cons in Ht as [[_ Hd] Ht].
    unfold IS_NUM in Hd; apply andb_true_iff in Hd as [?%Z.leb_le ?%Z.leb_le]; specialize (IH (10 * v + (d - 48)) Ht); lia. }
  induction t as [|d t IH]; intros Ht v Hv Hb; cbn [foldl port_loop] in *; [done|]; apply text_cons in Ht as [[_ Hd] Ht].
  unfold IS_NUM in Hd; apply andb_true_iff in Hd as [?%Z.leb_le ?%Z.leb_le]; pose proof (Hge t (10 * v + (d - 48)) Ht ltac:(lia)).
  rewrite (u64_id (v * 10)) by lia; rewrite u64_id by lia; rewrite (proj2 (Z.ltb_ge _ _)) by lia.
  replace (v * 10 + (d - 48)) with (10 * v + (d - 48)) by lia; apply IH; [done|lia|done].
Qed.

Definition init_u : http_parser_url := mkUrl 0 0 (field_data http_parser_url_init).
(** Where the authority begins and ends. *)
Definition auth_at (u : Url) : Z := match u_auth u with Some a => zlen (a_schema a) + 3 | None => 0 end.
Definition path_at (u : Url) : Z := match u_auth u with Some a => zlen (a_schema a) + 3 + zlen (auth_text a) | None => 0 end.
(** The fields after the scan. *)
Definition scan_u (u : Url) : http_parser_url :=
  tail_u (path_at u) (u_path u) (u_query u) (u_fragment u)
    match u_auth u with
    | Some a => opened UF_HOST (auth_at u) (zlen (auth_text a)) (opened UF_SCHEMA 0 (zlen (a_schema a)) init_u)
    | None => init_u
    end.

Ltac shp := repeat first [done | apply shaped_opt | apply shaped_opened | apply shaped_len | apply shaped_off].

Lemma scan_url u : valid u -> zlen (print u) < 2 ^ 16 ->
  exists s old, url_loop 0 (mkScan s_req_spaces_before_url UF_MAX false init_u) (print u) =
    Go (mkScan s old (match u_auth u with Some a => if a_user a then true else false | None => false end) (scan_u u)).
Proof.
  intros Hv Hb; unfold print, scan_u, path_at, auth_at in *; pose proof (v_auth u Hv) as Va; destruct (u_auth u) as [a|]; cbn [app mbind option_bind] in *.
  - destruct (va_schema a Va) as [Hne Hsc]; destruct (a_schema a) as [|c t] eqn:Es; [done|]; rewrite <- Es in *; clear Hne.
    rewrite !length_app in Hb; change (length (str "://")) with 3%nat in Hb; rewrite <- !app_assoc, loop_app.
    assert (url_loop 0 (mkScan s_req_spaces_before_url UF_MAX false init_u) (a_schema a) = Go (mkScan s_req_schema UF_SCHEMA false (opened UF_SCHEMA 0 (zlen (a_schema a)) init_u))) as ->.
    { rewrite Es in *; apply text_cons in Hsc as [[Hc1 Hc2] Hsc]; apply (enter_class 0 (mkScan s_req_spaces_before_url UF_MAX false init_u) s_req_schema UF_SCHEMA c t IS_ALPHA); try done; [|uf|lia].
      by apply (byte_step IS_ALPHA). }
    rewrite loop_app, Z.add_0_l; set (u1 := opened UF_SCHEMA 0 (zlen (a_schema a)) init_u); assert (shaped u1) as Hs1 by shp.
    assert (forall p, url_loop p (mkScan s_req_schema UF_SCHEMA false u1) (str "://") = Go (mkScan s_req_server_start UF_SCHEMA false u1)) as -> by done.
    rewrite loop_app, scan_auth; [|done|done|done|done|lia|change (zlen (str "://")) with 3; lia].
    change (zlen (str "://")) with 3; cbn [sc_at sc_u orb].
    apply (scan_tail _ (mkScan s_req_server UF_HOST _ _) u Hv); [by left|by left|cbn [sc_u]; shp|lia|rewrite !length_app; lia].
  - apply (scan_tail 0 (mkScan s_req_spaces_before_url UF_MAX false init_u) u Hv); [by right|by right|done|done|done].
Qed.

Lemma fld_tail_other g p path q fr u : shaped u -> (g < UF_MAX)%nat -> g <> UF_PATH -> g <> UF_QUERY -> g <> UF_FRAGMENT -> fld g (tail_u p path q fr u) = fld g u.
Proof.
  intros Hs Hg H1 H2 H3; unfold tail_u; rewrite !fld_opt by (shp; uf).
  rewrite (proj2 (Nat.eqb_neq _ _) H1), (proj2 (Nat.eqb_neq _ _) H2), (proj2 (Nat.eqb_neq _ _) H3); destruct fr as [[|]|], q as [[|]|], path; done.
Qed.
Lemma fld_tail p path q fr u : shaped u -> fld UF_PATH u = (false, 0, 0) -> fld UF_QUERY u = (false, 0, 0) -> fld UF_FRAGMENT u = (false, 0, 0) ->
  let at_ o t := match t with Some (c :: t') => (true, o, zlen (c :: t')) | _ => (false, 0, 0) end in
  fld UF_PATH (tail_u p path q fr u) = at_ p (Some path) /\ fld UF_QUERY (tail_u p path q fr u) = at_ (p + zlen path + 1) q /\
  fld UF_FRAGMENT (tail_u p path q fr u) = at_ (p + zlen path + zlen (after 63 q) + 1) fr.
Proof.
  intros Hs H1 H2 H3 at_; unfold tail_u; rewrite !fld_opt by (shp; uf); rewrite H1, H2, H3.
  cbn [Nat.eqb UF_PATH UF_QUERY UF_FRAGMENT]; unfold at_; by destruct fr as [[|]|], q as [[|]|], path.
Qed.

Lemma field_opt buf u f pre t post o : fld f u = match t with Some (c :: t') => (true, o, zlen (c :: t')) | _ => (false, 0, 0) end ->
  o = zlen pre -> (forall t', t = Some t' -> buf = pre ++ t' ++ post) -> field buf u f = nonempty t.
Proof.
  intros E -> Hb; destruct t as [[|c t]|]; [by eapply field_none| |by eapply field_none]; apply (field_text buf u f pre (c :: t) post E); by apply Hb.
Qed.

(** The path, the query and the fragment, when the authority has left them. *)
Lemma tail_fields u r : (forall f, f = UF_PATH \/ f = UF_QUERY \/ f = UF_FRAGMENT -> fld f r = fld f (scan_u u)) ->
  field (print u) r UF_PATH = nonempty (Some (u_path u)) /\ field (print u) r UF_QUERY = nonempty (u_query u) /\ field (print u) r UF_FRAGMENT = nonempty (u_fragment u).
Proof.
  intros Hr; set (u0 := match u_auth u with Some a => opened UF_HOST (auth_at u) (zlen (auth_text a)) (opened UF_SCHEMA 0 (zlen (a_schema a)) init_u) | None => init_u end).
  assert (shaped u0 /\ forall f, f = UF_PATH \/ f = UF_QUERY \/ f = UF_FRAGMENT -> fld f u0 = (false, 0, 0)) as [Hs Hz].
  { unfold u0; destruct (u_auth u); [split; [shp|]|split; [done|]]; intros f [->|[->| ->]]; rewrite ?fld_opened by (shp; uf); reflexivity. }
  destruct (fld_tail (path_at u) (u_path u) (u_query u) (u_fragment u) u0 Hs ltac:(auto) ltac:(auto) ltac:(auto)) as (F1 & F2 & F3).
  set (A := match u_auth u with Some a => a_schema a ++ str "://" ++ auth_text a | None => [] end).
  assert (zlen A = path_at u) as HA by (unfold A, path_at; destruct (u_auth u); [rewrite !length_app; change (length (str "://")) with 3%nat; lia|done]).
  assert (print u = A ++ u_path u ++ after 63 (u_query u) ++ after 35 (u_fragment u)) as HP by done.
  split_and!.
  - apply (field_opt _ _ _ A _ (after 63 (u_query u) ++ after 35 (u_fragment u)) (path_at u)); [rewrite Hr by auto; exact F1|done|by intros t [= <-]].
  - apply (field_opt _ _ _ (A ++ u_path u ++ [63]) _ (after 35 (u_fragment u)) (path_at u + zlen (u_path u) + 1)); [rewrite Hr by auto; exact F2|rewrite !length_app; cbn [length]; lia|].
    intros t E; rewrite HP, E; cbn [after]; by rewrite <- !app_assoc.
  - apply (field_opt _ _ _ (A ++ u_path u ++ after 63 (u_query u) ++ [35]) _ [] (path_at u + zlen (u_path u) + zlen (after 63 (u_query u)) + 1)); [rewrite Hr by auto; exact F3|rewrite !length_app; cbn [length]; lia|].
    intros t E; rewrite HP, E; cbn [after]; rewrite app_nil_r; by rewrite <- !app_assoc.
Qed.

Lemma scan_host u a : u_auth u = Some a -> shaped (scan_u u) /\ fld UF_HOST (scan_u u) = (true, auth_at u, zlen (auth_text a)) /\
  fld UF_SCHEMA (scan_u u) = (true, 0, zlen (a_schema a)) /\ fld UF_PORT (scan_u u) = (false, 0, 0) /\ fld UF_USERINFO (scan_u u) = (false, 0, 0).
Proof.
  intros E; unfold scan_u; rewrite E; split; [unfold tail_u; shp|].
  split_and!; rewrite fld_tail_other by (shp; uf); rewrite !fld_opened by (shp; uf); reflexivity.
Qed.

Lemma fld_host_u g p a u : (g < UF_MAX)%nat -> shaped u ->
  let w := fld g (opt_open UF_USERINFO p (a_user a) u) in
  let h := if Nat.eqb g UF_HOST then (w.1.1, p + zlen (before (a_user a) 64) + (if a_v6 a then 1 else 0), zlen (a_host a)) else w in
  fld g (host_u p a u) =
  match a_port a with
  | Some (c :: t) => if Nat.eqb g UF_PORT then (true, p + zlen (before (a_user a) 64) + zlen (host_text a) + 1, zlen (c :: t)) else h
  | _ => h
  end.
Proof. intros Hg Hs; unfold host_u; rewrite fld_opt by (shp; uf); rewrite fld_placed by (shp; uf); done. Qed.

(** The fields of the authority after its host was parsed. *)
Lemma auth_fields u a : u_auth u = Some a -> valid_auth a ->
  let r := host_u (auth_at u) a (set_len UF_HOST 0 (scan_u u)) in
  shaped r /\ (forall f, f = UF_PATH \/ f = UF_QUERY \/ f = UF_FRAGMENT -> fld f r = fld f (scan_u u)) /\
  field (print u) r UF_SCHEMA = Some (a_schema a) /\ field (print u) r UF_USERINFO = a_user a /\ field (print u) r UF_HOST = Some (a_host a) /\
  field (print u) r UF_PORT = a_port a /\
  fld UF_PORT r = match a_port a with Some t => (true, auth_at u + zlen (before (a_user a) 64) + zlen (host_text a) + 1, zlen t) | None => (false, 0, 0) end.
Proof.
  intros Ea Hv r; destruct (scan_host u a Ea) as (Hs & Fh & Fs & Fp & Fu); pose proof (va_user a Hv) as Vu; pose proof (va_port a Hv) as Vp.
  assert (shaped (set_len UF_HOST 0 (scan_u u))) as Hs0 by shp.
  assert (shaped r) as Hsr by (unfold r, host_u; shp).
  pose proof (fun g Hg => fld_host_u g (auth_at u) a _ Hg Hs0) as Hr; fold r in Hr.
  assert (forall g, (g < UF_MAX)%nat -> g <> UF_HOST -> fld g (opt_open UF_USERINFO (auth_at u) (a_user a) (set_len UF_HOST 0 (scan_u u))) =
    match a_user a with Some (c :: t) => if Nat.eqb g UF_USERINFO then (true, auth_at u, zlen (c :: t)) else fld g (scan_u u) | _ => fld g (scan_u u) end) as Ho.
  { intros g Hg Hn; rewrite fld_opt by (shp; uf); rewrite fld_len by (shp; uf); by rewrite (proj2 (Nat.eqb_neq _ _) Hn). }
  assert ((fld UF_HOST (opt_open UF_USERINFO (auth_at u) (a_user a) (set_len UF_HOST 0 (scan_u u)))).1.1 = true) as Hset.
  { rewrite fld_opt by (shp; uf); rewrite fld_len by (shp; uf); unfold fld in Fh; injection Fh as E1 _ _; cbn [Nat.eqb UF_HOST UF_USERINFO]; rewrite E1; by destruct (a_user a) as [[|]|]. }
  assert (print u = a_schema a ++ str "://" ++ before (a_user a) 64 ++ host_text a ++ after 58 (a_port a) ++ u_path u ++ after 63 (u_query u) ++ after 35 (u_fragment u)) as HP.
  { unfold print, auth_text; rewrite Ea; by rewrite <- !app_assoc. }
  assert (auth_at u = zlen (a_schema a) + 3) as Hat by (unfold auth_at; by rewrite Ea).
  split_and!; [done| | | | | |].
  - intros f Hf; rewrite Hr by (destruct Hf as [->|[->| ->]]; uf).
    assert (Nat.eqb f UF_PORT = false /\ Nat.eqb f UF_HOST = false /\ Nat.eqb f UF_USERINFO = false) as (-> & -> & E3) by (by destruct Hf as [->|[->| ->]]).
    rewrite Ho, E3 by (destruct Hf as [->|[->| ->]]; uf); by destruct (a_port a) as [[|]|], (a_user a) as [[|]|].
  - eapply (field_text _ _ _ [] (a_schema a)); [|exact HP].
    rewrite Hr, Ho, Fs by uf; cbn [Nat.eqb UF_SCHEMA UF_PORT UF_HOST UF_USERINFO]; by destruct (a_port a) as [[|]|], (a_user a) as [[|]|].
  - assert (fld UF_USERINFO r = match a_user a with Some (c :: t) => (true, auth_at u, zlen (c :: t)) | _ => (false, 0, 0) end) as Fr.
    { rewrite Hr, Ho, Fu by uf; cbn [Nat.eqb UF_PORT UF_HOST UF_USERINFO]; by destruct (a_port a) as [[|]|], (a_user a) as [[|]|]. }
    rewrite (field_opt _ r _ (a_schema a ++ str "://") (a_user a) (64 :: host_text a ++ after 58 (a_port a) ++ u_path u ++ after 63 (u_query u) ++ after 35 (u_fragment u)) _ Fr).
    + destruct (a_user a) as [[|]|]; [by destruct Vu|done|done].
    + rewrite Hat, length_app; change (length (str "://")) with 3%nat; lia.
    + intros t E; rewrite HP, E; cbn [before]; by rewrite <- !app_assoc.
  - pose proof (va_host a Hv) as [_ _].
    eapply (field_text _ _ _ (a_schema a ++ str "://" ++ before (a_user a) 64 ++ (if a_v6 a then [91] else [])) (a_host a) ((if a_v6 a then [93] else []) ++ after 58 (a_port a) ++ u_path u ++ after 63 (u_query u) ++ after 35 (u_fragment u))).
    + rewrite Hr, Hset by uf; cbn [Nat.eqb UF_PORT UF_HOST]; rewrite !length_app; change (length (str "://")) with 3%nat.
      assert (auth_at u + zlen (before (a_user a) 64) + (if a_v6 a then 1 else 0) = Z.of_nat (length (a_schema a) + (3 + (length (before (a_user a) 64) + length (if a_v6 a then [91] else []))))) as -> by (destruct (a_v6 a); cbn [length]; lia).
      by destruct (a_port a) as [[|]|].
    + rewrite HP; unfold host_text; destruct (a_v6 a); cbn [app]; rewrite <- !app_assoc; cbn [app]; by rewrite <- ?app_assoc.
  - assert (fld UF_PORT r = match a_port a with Some (c :: t) => (true, auth_at u + zlen (before (a_user a) 64) + zlen (host_text a) + 1, zlen (c :: t)) | _ => (false, 0, 0) end) as Fr.
    { rewrite Hr, Ho, Fp by uf; cbn [Nat.eqb UF_PORT UF_HOST UF_USERINFO]; by destruct (a_port a) as [[|]|], (a_user a) as [[|]|]. }
    rewrite (field_opt _ r _ (a_schema a ++ str "://" ++ before (a_user a) 64 ++ host_text a ++ [58]) (a_port a) (u_path u ++ after 63 (u_query u) ++ after 35 (u_fragment u)) _ Fr).
    + destruct (a_port a) as [[|]|]; [by destruct Vp|done|done].
    + rewrite !length_app; change (length (str "://")) with 3%nat; cbn [length]; lia.
    + intros t E; rewrite HP, E; cbn [after]; rewrite <- !app_assoc; done.
  - rewrite Hr, Ho, Fp by uf; cbn [Nat.eqb UF_PORT UF_HOST UF_USERINFO]; destruct (a_port a) as [[|]|]; [by destruct Vp|done|by destruct (a_user a) as [[|]|]].
Qed.
End UrlRoundtrip.

Module UrlTheorems.
Import UrlRoundtrip.

Lemma dec_nonneg t : text IS_NUM t -> 0 <= StrUtils.dec_value t.
Proof.
  intros Ht; unfold StrUtils.dec_value; assert (forall v, 0 <= v -> 0 <= foldl (fun acc d => 10 * acc + (d - 48)) v t) as Hp; [|by apply Hp].
  induction Ht as [|d t [_ Hd] _ IH]; intros v Hv; cbn [foldl]; [done|]; unfold IS_NUM in Hd; apply andb_true_iff in Hd as [?%Z.leb_le ?%Z.leb_le]; apply IH; lia.
Qed.
Lemma port_opt f p t u : port (opt_open f p t u) = port u.
Proof. by destruct t as [[|]|]. Qed.
Lemma port_scan u : port (scan_u u) = 0.
Proof. unfold scan_u, tail_u; rewrite !port_opt; by destruct (u_auth u). Qed.
Lemma port_host p a u : port (host_u p a u) = port u.
Proof. unfold host_u; rewrite port_opt; unfold placed, set_len, set_off; cbn [port]; by rewrite port_opt. Qed.

(** The host of a URL with an authority. *)
Lemma parse_host u a : valid u -> zlen (print u) < 2 ^ 16 -> u_auth u = Some a ->
  http_parse_host (print u) (scan_u u) (if a_user a then true else false) = Some (0, host_u (auth_at u) a (set_len UF_HOST 0 (scan_u u))).
Proof.
  intros Hv Hb Ea; destruct (scan_host u a Ea) as (Hs & Fh & _); unfold fld in Fh; injection Fh as H1 H2 H3; pose proof (v_auth u Hv) as Va; rewrite Ea in Va.
  unfold http_parse_host; rewrite H1, H2, H3; cbn [negb].
  assert (slice (auth_at u) (auth_at u + zlen (auth_text a)) (print u) = auth_text a) as ->.
  { unfold print, auth_at; rewrite Ea; replace (zlen (a_schema a) + 3) with (zlen (a_schema a ++ str "://")) by (rewrite length_app; change (length (str "://")) with 3%nat; lia).
    rewrite (app_assoc (a_schema a)), <- (app_assoc (a_schema a ++ str "://")); apply slice_mid. }
  assert (auth_at u + zlen (auth_text a) < 2 ^ 16) as Hb'.
  { unfold print, auth_at in *; rewrite Ea in *; rewrite !length_app in Hb; change (length (str "://")) with 3%nat in Hb; lia. }
  assert ((if if a_user a then true else false then s_http_userinfo_start else s_http_host_start) = (if a_user a then s_http_userinfo_start else s_http_host_start)) as -> by (by destruct (a_user a)).
  destruct (host_auth (auth_at u) (set_len UF_HOST 0 (scan_u u)) a Va) as (s' & Hs' & ->); [shp|rewrite len_set_len; [done|done|uf]|unfold auth_at; rewrite Ea; lia|done|].
  by destruct Hs' as [->|[->| ->]].
Qed.

Lemma parse_print u : valid u -> zlen (print u) < 2 ^ 16 ->
  exists r, http_parser_parse_url (print u) false http_parser_url_init = Some (0, r) /\
  field (print u) r UF_SCHEMA = a_schema <$> u_auth u /\ field (print u) r UF_USERINFO = (a ← u_auth u; a_user a) /\
  field (print u) r UF_HOST = a_host <$> u_auth u /\ field (print u) r UF_PORT = (a ← u_auth u; a_port a) /\
  field (print u) r UF_PATH = nonempty (Some (u_path u)) /\ field (print u) r UF_QUERY = nonempty (u_query u) /\ field (print u) r UF_FRAGMENT = nonempty (u_fragment u) /\
  port r = default 0 (StrUtils.dec_value <$> (a ← u_auth u; a_port a)).
Proof.
  intros Hv Hb; destruct (scan_url u Hv Hb) as (s & old & Hscan); pose proof (v_auth u Hv) as Va; unfold http_parser_parse_url.
  assert (zlen (print u) <> 0) as Hn.
  { unfold print in *; destruct (u_auth u) as [a|]; [destruct (va_schema a Va) as [Hne _]; destruct (a_schema a)|destruct (u_path u)]; cbn; done || lia. }
  rewrite (proj2 (Z.eqb_neq _ _) Hn); change (mkUrl 0 0 (field_data http_parser_url_init)) with init_u; rewrite Hscan; cbn [sc_u sc_at].
  destruct (u_auth u) as [a|] eqn:Ea; cbn [mbind option_bind fmap option_fmap option_map].
  - destruct (scan_host u a Ea) as (_ & Fh & Fs & _ & _); unfold fld in Fh, Fs; injection Fh as H1 _ _; injection Fs as H4 _ _; rewrite H1, H4; cbn [andb negb].
    rewrite (parse_host u a Hv Hb Ea); cbn [mbind option_bind negb Z.eqb andb].
    destruct (auth_fields u a Ea Va) as (Hsr & Htail & F1 & F2 & F3 & F4 & F5); set (r := host_u _ _ _) in *.
    destruct (tail_fields u r Htail) as (T1 & T2 & T3); destruct (a_port a) as [t|] eqn:Ep; unfold fld in F5; injection F5 as P1 P2 P3; rewrite P1.
    + pose proof (va_port a Va) as Vp; rewrite Ep in Vp; destruct Vp as (_ & Vp & Vd); unfold field in F4; rewrite P1 in F4; injection F4 as F4; rewrite F4.
      assert (off UF_PORT r + len UF_PORT r <= zlen (print u)) as Hle.
      { rewrite P2, P3; unfold print, auth_at, auth_text in *; rewrite Ea in *; rewrite Ep; cbn [after]; rewrite !length_app; change (length (str "://")) with 3%nat; cbn [length]; lia. }
      rewrite (proj2 (Z.ltb_ge _ _) Hle), port_value by (done || lia); fold (StrUtils.dec_value t); eexists; split; [done|].
      assert (forall f, field (print u) (mkUrl (field_set r) (u16 (StrUtils.dec_value t)) (field_data r)) f = field (print u) r f) as Hf by done.
      rewrite !Hf; split_and!; try done; [unfold field; by rewrite P1, F4|]; cbn; apply u16_id; pose proof (dec_nonneg t Vp); lia.
    + exists r; split; [done|]; split_and!; try done; unfold r; rewrite port_host; apply port_scan.
  - assert (forall f, f = UF_SCHEMA \/ f = UF_HOST \/ f = UF_PORT \/ f = UF_USERINFO -> fld f (scan_u u) = (false, 0, 0)) as Hz.
    { intros f Hf; unfold scan_u; rewrite Ea, fld_tail_other; [by destruct Hf as [->|[->|[->| ->]]]|done|..]; destruct Hf as [->|[->|[->| ->]]]; uf. }
    assert (forall f, f = UF_SCHEMA \/ f = UF_HOST \/ f = UF_PORT \/ f = UF_USERINFO -> is_set f (scan_u u) = false) as Hu by (intros f Hf; specialize (Hz f Hf); unfold fld in Hz; by simplify_eq).
    rewrite !Hu by auto; cbn [andb mbind option_bind negb Z.eqb]; rewrite Hu by auto; exists (scan_u u); destruct (tail_fields u (scan_u u) ltac:(done)) as (T1 & T2 & T3).
    split_and!; try done; try (eapply field_none, Hz; auto); apply port_scan.
Qed.

(** C19.  The fields of a URL written from its parts are its parts: the schema, the user, the
    host, a name or an address in brackets, the port and its number, the path, the
    query and the fragment; a part that is empty is not reported. *)
Theorem url_roundtrip (u : Url) : valid u -> zlen (print u) < 2 ^ 16 ->
  exists r, http_parser_parse_url (print u) false http_parser_url_init = Some (0, r) /\
  field (print u) r UF_SCHEMA = a_schema <$> u_auth u /\ field (print u) r UF_USERINFO = (a ← u_auth u; a_user a) /\
  field (print u) r UF_HOST = a_host <$> u_auth u /\ field (print u) r UF_PORT = (a ← u_auth u; a_port a) /\
  field (print u) r UF_PATH = nonempty (Some (u_path u)) /\ field (print u) r UF_QUERY = nonempty (u_query u) /\ field (print u) r UF_FRAGMENT = nonempty (u_fragment u) /\
  port r = default 0 (StrUtils.dec_value <$> (a ← u_auth u; a_port a)).
Proof. apply parse_print. Qed.

Definition ex_url : Url := mkU (Some (mkAuth (str "http") (Some (str "me:pw")) true (str "::1") (Some (str "8080")))) (str "/a/b") (Some (str "k=v?")) (Some (str "top")).
Lemma ex_url_valid : valid ex_url /\ zlen (print ex_url) < 2 ^ 16.
Proof.
  split; [|vm_compute; reflexivity]; constructor; cbn; [constructor; cbn| | |]; repeat split; try done; repeat (apply List.Forall_cons; [split; [split; [vm_compute; discriminate|vm_compute; reflexivity]|vm_compute; reflexivity]|]); apply List.Forall_nil.
Qed.
Lemma url_roundtrip_witness : print ex_url = str "http://me:pw@[::1]:8080/a/b?k=v?#top" /\
  exists r, http_parser_parse_url (print ex_url) false http_parser_url_init = Some (0, r) /\ field (print ex_url) r UF_HOST = Some (str "::1") /\ port r = 8080.
Proof.
  split; [reflexivity|]; destruct (url_roundtrip ex_url (proj1 ex_url_valid) (proj2 ex_url_valid)) as (r & E & _ & _ & H & _ & _ & _ & _ & P).
  exists r; split; [exact E|]; split; [exact H|]; rewrite P; reflexivity.
Defined.

(** Every field a result has set lies in the buffer. *)
Definition in_buffer (buf : list Z) (u : http_parser_url) : Prop :=
  forall f, 0 <= off f u /\ 0 <= len f u /\ off f u + len f u <= zlen buf.

(** C20.  Whatever the bytes, no assertion of the parser fails and each field it leaves lies in
    the buffer, with [CONNECT] or without. *)
Theorem url_in_bounds (buf : list Z) (is_connect : bool) :
  exists r u, http_parser_parse_url buf is_connect http_parser_url_init = Some (r, u) /\ in_buffer buf u.
Proof. destruct (parse_bounds buf is_connect) as (r & u & E & _ & Hb); exists r, u; split; [exact E|exact Hb]. Qed.

(** The view of the target of a request is its path, its query and its fragment; a part
    that is empty or absent leaves the view as it was. *)
Theorem url_view_exact (u : Url) (v : UrlView) : valid u -> zlen (print u) < 2 ^ 16 ->
  parse_url_view (print u) v =
  Some (mkView (default (path v) (nonempty (Some (u_path u)))) (default (queries v) (nonempty (u_query u))) (default (fragment v) (nonempty (u_fragment u)))).
Proof.
  intros Hv Hb; destruct (parse_print u Hv Hb) as (r & E & _ & _ & _ & _ & F1 & F2 & F3 & _); unfold parse_url_view; rewrite E; cbn [mbind option_bind negb Z.eqb].
  rewrite <- F1, <- F2, <- F3; unfold field; by destruct (is_set UF_PATH r), (is_set UF_QUERY r), (is_set UF_FRAGMENT r).
Qed.

Lemma url_view_exact_witness : parse_url_view (print ex_url) (mkView [] [] []) = Some (mkView (str "/a/b") (str "k=v?") (str "top")).
Proof. apply (url_view_exact ex_url (mkView [] [] []) (proj1 ex_url_valid) (proj2 ex_url_valid)). Defined.

Lemma incr_wraps f o l u : shaped u -> (f < UF_MAX)%nat -> incr_len f (opened f o (u16 l) u) = opened f o (u16 (l + 1)) u.
Proof.
  intros Hs Hf; unfold opened, incr_len; assert (forall x u, set_len f x (mark f u) = mark f (set_len f x u)) as -> by done; f_equal.
  assert (len f (mark f (set_len f (u16 l) (set_off f o u))) = u16 l) as ->.
  { change (len f (set_len f (u16 l) (set_off f o u)) = u16 l); rewrite len_set_len, bool_decide_eq_true_2 by first [done|by apply shaped_off]; done. }
  assert (u16 (u16 l + 1) = u16 (l + 1)) as -> by (unfold u16; by rewrite Zplus_mod_idemp_l).
  unfold set_len; cbn; rewrite list_insert_insert_eq; do 3 f_equal; unfold off; cbn; by rewrite !nth_lookup, list_lookup_insert_eq by (rewrite length_insert, Hs; done).
Qed.
Lemma run_wraps n : forall p l at_ o u, shaped u ->
  url_loop p (mkScan s_req_path UF_PATH at_ (opened UF_PATH o (u16 l) u)) (replicate n 97) = Go (mkScan s_req_path UF_PATH at_ (opened UF_PATH o (u16 (l + Z.of_nat n)) u)).
Proof.
  induction n as [|n IH]; intros p l at_ o u Hs; cbn [replicate url_loop]; [by rewrite Z.add_0_r|].
  rewrite (step_field p _ 97 s_req_path UF_PATH) by done; cbn [sc_old sc_at sc_u]; rewrite Nat.eqb_refl, incr_wraps by (done || uf).
  rewrite bool_decide_eq_false_2, orb_false_r, IH by done; by replace (l + 1 + Z.of_nat n) with (l + Z.of_nat (S n)) by lia.
Qed.

(** The path of a request is cut at its length modulo 65536: the fields are of 16 bits. *)
Theorem long_path_wraps (n : nat) (v : UrlView) :
  let url := 47 :: replicate n 97 in
  parse_url_view url v = Some (mkView (ztake (u16 (zlen url)) url) (queries v) (fragment v)).
Proof.
  intros url; unfold parse_url_view, http_parser_parse_url.
  assert (zlen url <> 0) as Hn by (cbn [url length]; lia); rewrite (proj2 (Z.eqb_neq _ _) Hn); change (mkUrl 0 0 (field_data http_parser_url_init)) with init_u.
  assert (url_loop 0 (mkScan s_req_spaces_before_url UF_MAX false init_u) url = Go (mkScan s_req_path UF_PATH false (opened UF_PATH 0 (u16 (zlen url)) init_u))) as ->.
  { unfold url; cbn [url_loop]; rewrite (step_field 0 _ 47 s_req_path UF_PATH) by done; cbn [sc_old sc_at sc_u]; rewrite (proj2 (Nat.eqb_neq UF_PATH UF_MAX)), bool_decide_eq_false_2 by done; cbn [orb].
    change (opened UF_PATH (u16 0) 1 init_u) with (opened UF_PATH 0 (u16 1) init_u); rewrite run_wraps by done; cbn [length]; rewrite length_replicate; by replace (Z.of_nat (S n)) with (1 + Z.of_nat n) by lia. }
  set (r := opened UF_PATH 0 (u16 (zlen url)) init_u); cbn [sc_u sc_at].
  assert (forall f, (f < UF_MAX)%nat -> fld f r = if Nat.eqb f UF_PATH then (true, 0, u16 (zlen url)) else fld f init_u) as Hf by (intros f Hlt; apply fld_opened; [done|uf|done]).
  assert (forall f, (f < UF_MAX)%nat -> is_set f r = Nat.eqb f UF_PATH) as Hs.
  { intros f Hlt; change (is_set f r) with ((fld f r).1.1); rewrite (Hf f Hlt); destruct (Nat.eqb f UF_PATH); done. }
  rewrite !Hs by uf; cbn [Nat.eqb UF_SCHEMA UF_HOST UF_PORT UF_PATH UF_QUERY UF_FRAGMENT andb negb mbind option_bind Z.eqb]; rewrite !Hs by uf.
  cbn [Nat.eqb UF_PORT UF_PATH UF_QUERY UF_FRAGMENT mbind option_bind Z.eqb negb]; rewrite !Hs by uf; cbn [Nat.eqb UF_PATH UF_QUERY UF_FRAGMENT].
  change 3%nat with UF_PATH; assert (off UF_PATH r = 0 /\ len UF_PATH r = u16 (zlen url)) as [-> ->] by done.
  unfold slice; by rewrite zdrop_0, Z.add_0_l, Z.sub_0_r.
Qed.
End UrlTheorems.
