(* ===== verification/MysqlConnect.v ===== *)
(** * The asynchronous MySQL connection (integration/async_mysql)

    [MysqlAsyncConnect] drives the non-blocking client library of MySQL with a state
    machine: connecting, choosing a database, sending a query and fetching its rows, one
    query at a time, those that wait in a list.  The library is a parameter ([Lib]): each
    of its calls is a function of the state [M] of the library; a call that has to wait
    returns the status to wait for, and is continued with the events that came.

    [step] is one turn of the loop of [HandleState], [None] a failed [CHECK] or a null
    pointer.  The sessions that were completed are recorded in order in [completed];
    [HandleState] is the loop, with fuel: it ends when the machine has to wait, which a
    library that returns rows without end prevents.

    [queries_in_order]: every query is completed at most once and in the order of
    [StartQuery], none is lost.  [query_rows_exact]: a query is completed with the rows
    the library gives.  [query_wait_error_ignored], [close_does_nothing],
    [query_after_close_waits] and [one_connection_tried] are what the code does not do. *)
From stdpp Require Import list.
From S2P Require Import Prelude.

Module Mysql.
Inductive State :=
| STATE_NONE | CONNECT_INIT | CONNECT_START | CONNECT_WAIT | CONNECT_DONE | CONNECTION_IDLE
| SELECT_DB_START | SELECT_DB_WAIT | SELECT_DB_DONE
| QUERY_START | QUERY_WAIT | QUERY_RESULT_READY
| FETCH_ROW_START | FETCH_ROW_WAIT | FETCH_ROW_RESULT_READY
| CLOSE_START | CLOSE_WAIT | CLOSE_DONE.
#[export] Instance State_eq_dec : EqDecision State.
Proof. solve_decision. Defined.

Abbreviation text := (list Z).
(** A field of a row may be null. *)
Abbreviation raw_row := (list (option text)).

Definition MYSQL_WAIT_READ : Z := 1.
Definition MYSQL_WAIT_WRITE : Z := 2.
Definition MYSQL_WAIT_EXCEPT : Z := 4.
Definition MYSQL_WAIT_TIMEOUT : Z := 8.

(** ** The library *)
Record Lib (M : Type) := mkLib {
  mysql_real_connect_start : M -> bool * Z * M;
  mysql_real_connect_cont : Z -> M -> bool * Z * M;
  mysql_real_connect : M -> bool * M;
  mysql_close_start : M -> Z * M;
  mysql_close_cont : Z -> M -> Z * M;
  mysql_close : M -> M;
  mysql_select_db_start : text -> M -> Z * Z * M;
  mysql_select_db_cont : Z -> M -> Z * Z * M;
  mysql_real_query_start : text -> M -> Z * Z * M;
  mysql_real_query_cont : Z -> M -> Z * Z * M;
  mysql_use_result : M -> bool * M;
  mysql_fetch_row_start : M -> option raw_row * Z * M;
  mysql_fetch_row_cont : Z -> M -> option raw_row * Z * M;
  mysql_fetch_fields : M -> list text;
  mysql_errno : M -> Z;
  mysql_error : M -> text;
  mysql_num_rows : M -> Z;
  mysql_affected_rows : M -> Z;
  mysql_ping : M -> Z * M }.
Arguments mysql_real_connect_start {M}.
Arguments mysql_real_connect_cont {M}.
Arguments mysql_real_connect {M}.
Arguments mysql_close_start {M}.
Arguments mysql_close_cont {M}.
Arguments mysql_close {M}.
Arguments mysql_select_db_start {M}.
Arguments mysql_select_db_cont {M}.
Arguments mysql_real_query_start {M}.
Arguments mysql_real_query_cont {M}.
Arguments mysql_use_result {M}.
Arguments mysql_fetch_row_start {M}.
Arguments mysql_fetch_row_cont {M}.
Arguments mysql_fetch_fields {M}.
Arguments mysql_errno {M}.
Arguments mysql_error {M}.
Arguments mysql_num_rows {M}.
Arguments mysql_affected_rows {M}.
Arguments mysql_ping {M}.

(** ** QuerySession *)
Record QuerySession := mkSession {
  session_id : nat; (* the identity of the object *)
  db_name_ : text;
  query_ : text;
  code_ : Z;
  err_message_ : text;
  result_count_ : Z;
  affected_rows_ : Z;
  colum_names_ : list text;
  results_ : list (list text) }.

Definition new_session (id : nat) (db query : text) : QuerySession := mkSession id db query 0 [] 0 0 [] [].
Definition SetCode (code : Z) (msg : text) (q : QuerySession) : QuerySession :=
  mkSession (session_id q) (db_name_ q) (query_ q) code msg (result_count_ q) (affected_rows_ q) (colum_names_ q) (results_ q).
Definition SetResultRows (n : Z) (q : QuerySession) : QuerySession :=
  mkSession (session_id q) (db_name_ q) (query_ q) (code_ q) (err_message_ q) (i32 n) (affected_rows_ q) (colum_names_ q) (results_ q).
Definition SetAffectedRows (n : Z) (q : QuerySession) : QuerySession :=
  mkSession (session_id q) (db_name_ q) (query_ q) (code_ q) (err_message_ q) (result_count_ q) (i32 n) (colum_names_ q) (results_ q).
Definition set_headers (h : list text) (q : QuerySession) : QuerySession :=
  mkSession (session_id q) (db_name_ q) (query_ q) (code_ q) (err_message_ q) (result_count_ q) (affected_rows_ q) h (results_ q).
Definition PendingRow (r : list text) (q : QuerySession) : QuerySession :=
  mkSession (session_id q) (db_name_ q) (query_ q) (code_ q) (err_message_ q) (result_count_ q) (affected_rows_ q) (colum_names_ q) (results_ q ++ [r]).

(** ** MysqlAsyncConnect *)
Inductive client_event := OnConnectReady | OnConnectionClosed.

Record Connect {M : Type} := mkConnect {
  err_no_ : Z; (* never assigned *)
  current_state_ : State;
  mysql_ : M;
  mysql_ret_ : bool; (* not null *)
  result_ : bool; (* not null *)
  result_row_ : option raw_row;
  fd_event_ : option (bool * bool); (* installed: reading and writing enabled *)
  timeout_attached : bool;
  ready_ : bool;
  schedule_close_ : bool;
  last_selected_db_ : text;
  in_process_ : option QuerySession;
  query_list_ : list QuerySession;
  option_dbname : text;
  completed : list QuerySession; (* the sessions OnQueryDone was called on *)
  events : list client_event }.
Arguments Connect : clear implicits.

Definition LtEvToMysqlStatus (read write error : bool) : Z :=
  let status := 0 in
  let status := if read then Z.lor status MYSQL_WAIT_READ else status in
  let status := if write then Z.lor status MYSQL_WAIT_WRITE else status in
  if error then Z.lor status MYSQL_WAIT_EXCEPT else status.

(** [CR_SERVER_LOST], [CR_UNKNOWN_ERROR], [CR_OUT_OF_MEMORY], [CR_SERVER_GONE_ERROR]. *)
Definition IsFatalError (code : Z) : bool := (code =? 2013) || (code =? 2000) || (code =? 2008) || (code =? 2006).

Section Machine.
Context {M : Type} (lib : Lib M).
Abbreviation conn := (Connect M).

Definition set_state (s : State) (c : conn) : conn :=
  mkConnect M (err_no_ c) s (mysql_ c) (mysql_ret_ c) (result_ c) (result_row_ c) (fd_event_ c) (timeout_attached c) (ready_ c) (schedule_close_ c)
    (last_selected_db_ c) (in_process_ c) (query_list_ c) (option_dbname c) (completed c) (events c).
Definition set_mysql (m : M) (c : conn) : conn :=
  mkConnect M (err_no_ c) (current_state_ c) m (mysql_ret_ c) (result_ c) (result_row_ c) (fd_event_ c) (timeout_attached c) (ready_ c) (schedule_close_ c)
    (last_selected_db_ c) (in_process_ c) (query_list_ c) (option_dbname c) (completed c) (events c).
Definition set_ret (r : bool) (c : conn) : conn :=
  mkConnect M (err_no_ c) (current_state_ c) (mysql_ c) r (result_ c) (result_row_ c) (fd_event_ c) (timeout_attached c) (ready_ c) (schedule_close_ c)
    (last_selected_db_ c) (in_process_ c) (query_list_ c) (option_dbname c) (completed c) (events c).
Definition set_result (r : bool) (c : conn) : conn :=
  mkConnect M (err_no_ c) (current_state_ c) (mysql_ c) (mysql_ret_ c) r (result_row_ c) (fd_event_ c) (timeout_attached c) (ready_ c) (schedule_close_ c)
    (last_selected_db_ c) (in_process_ c) (query_list_ c) (option_dbname c) (completed c) (events c).
Definition set_row (r : option raw_row) (c : conn) : conn :=
  mkConnect M (err_no_ c) (current_state_ c) (mysql_ c) (mysql_ret_ c) (result_ c) r (fd_event_ c) (timeout_attached c) (ready_ c) (schedule_close_ c)
    (last_selected_db_ c) (in_process_ c) (query_list_ c) (option_dbname c) (completed c) (events c).
Definition set_wait (fd : option (bool * bool)) (t : bool) (c : conn) : conn :=
  mkConnect M (err_no_ c) (current_state_ c) (mysql_ c) (mysql_ret_ c) (result_ c) (result_row_ c) fd t (ready_ c) (schedule_close_ c)
    (last_selected_db_ c) (in_process_ c) (query_list_ c) (option_dbname c) (completed c) (events c).
Definition set_ready (r : bool) (c : conn) : conn :=
  mkConnect M (err_no_ c) (current_state_ c) (mysql_ c) (mysql_ret_ c) (result_ c) (result_row_ c) (fd_event_ c) (timeout_attached c) r (schedule_close_ c)
    (last_selected_db_ c) (in_process_ c) (query_list_ c) (option_dbname c) (completed c) (events c).
Definition set_schedule (b : bool) (c : conn) : conn :=
  mkConnect M (err_no_ c) (current_state_ c) (mysql_ c) (mysql_ret_ c) (result_ c) (result_row_ c) (fd_event_ c) (timeout_attached c) (ready_ c) b
    (last_selected_db_ c) (in_process_ c) (query_list_ c) (option_dbname c) (completed c) (events c).
Definition set_db (db : text) (c : conn) : conn :=
  mkConnect M (err_no_ c) (current_state_ c) (mysql_ c) (mysql_ret_ c) (result_ c) (result_row_ c) (fd_event_ c) (timeout_attached c) (ready_ c) (schedule_close_ c)
    db (in_process_ c) (query_list_ c) (option_dbname c) (completed c) (events c).
Definition set_queries (p : option QuerySession) (l done : list QuerySession) (c : conn) : conn :=
  mkConnect M (err_no_ c) (current_state_ c) (mysql_ c) (mysql_ret_ c) (result_ c) (result_row_ c) (fd_event_ c) (timeout_attached c) (ready_ c) (schedule_close_ c)
    (last_selected_db_ c) p l (option_dbname c) done (events c).
Definition notify (e : client_event) (c : conn) : conn :=
  mkConnect M (err_no_ c) (current_state_ c) (mysql_ c) (mysql_ret_ c) (result_ c) (result_row_ c) (fd_event_ c) (timeout_attached c) (ready_ c) (schedule_close_ c)
    (last_selected_db_ c) (in_process_ c) (query_list_ c) (option_dbname c) (completed c) (events c ++ [e]).

Definition WaitMysqlStatus (status : Z) (c : conn) : conn :=
  set_wait (Some (has status MYSQL_WAIT_READ, has status MYSQL_WAIT_WRITE)) (has status MYSQL_WAIT_TIMEOUT || timeout_attached c) c.

Definition go_next_state (opt_status : Z) (wait_st next_st : State) (c : conn) : bool * conn :=
  if opt_status =? 0 then (true, set_state next_st c)
  else (false, WaitMysqlStatus opt_status (set_state wait_st c)).

Definition DoneCurrentQuery (code : Z) (message : text) (c : conn) : conn :=
  match in_process_ c with
  | None => c
  | Some q =>
      let q := if code =? 0 then q else SetCode code message q in
      let q := SetAffectedRows (mysql_affected_rows lib (mysql_ c)) q in
      set_queries None (query_list_ c) (completed c ++ [q]) c
  end.
(** [DoneCurrentQuery] and the state that follows an error. *)
Definition fail_query (code : Z) (c : conn) : bool * conn :=
  (true, set_state (if IsFatalError code then CLOSE_START else CONNECTION_IDLE) (DoneCurrentQuery code (mysql_error lib (mysql_ c)) c)).

Definition clean_up (c : conn) : conn :=
  let c := match fd_event_ c with Some _ => set_wait None false c | None => c end in
  let close := fun q => SetCode (-1) (str "closed") q in
  set_queries None [] (completed c ++ (match in_process_ c with Some q => [close q] | None => [] end) ++ (close <$> query_list_ c)) c.

Definition HandleStateSelectDB (in_event : Z) (c : conn) : option (bool * conn) :=
  match in_process_ c with
  | None => None
  | Some q =>
      match current_state_ c with
      | SELECT_DB_START =>
          let '(error_no, status, m) := mysql_select_db_start lib (db_name_ q) (mysql_ c) in
          let c := set_mysql m c in
          Some (if error_no =? 0 then go_next_state status SELECT_DB_WAIT SELECT_DB_DONE c else fail_query error_no c)
      | SELECT_DB_WAIT =>
          let '(error_no, status, m) := mysql_select_db_cont lib in_event (mysql_ c) in
          let c := set_mysql m c in
          Some (if error_no =? 0 then go_next_state status SELECT_DB_WAIT SELECT_DB_DONE c else fail_query error_no c)
      | SELECT_DB_DONE =>
          let c := set_db (db_name_ q) c in
          Some (true, if bool_decide (query_ q = []) then set_state CONNECTION_IDLE (DoneCurrentQuery 0 (str "db change success") c) else set_state QUERY_START c)
      | _ => None
      end
  end.

Definition HandleStateConnect (in_event : Z) (c : conn) : option (bool * conn) :=
  match current_state_ c with
  | CONNECT_START =>
      let '(r, status, m) := mysql_real_connect_start lib (mysql_ c) in
      Some (go_next_state status CONNECT_WAIT CONNECT_DONE (set_ret r (set_mysql m c)))
  | CONNECT_WAIT =>
      let '(r, status, m) := mysql_real_connect_cont lib in_event (mysql_ c) in
      Some (go_next_state status CONNECT_WAIT CONNECT_DONE (set_ret r (set_mysql m c)))
  | CONNECT_DONE =>
      if negb (mysql_ret_ c) then Some (true, set_state CLOSE_START (set_ready false c))
      else Some (true, notify OnConnectReady (set_db (option_dbname c) (set_state CONNECTION_IDLE (set_ready true c))))
  | CLOSE_START =>
      let '(status, m) := mysql_close_start lib (mysql_ c) in
      Some (go_next_state status CLOSE_WAIT CLOSE_DONE (set_mysql m c))
  | CLOSE_WAIT =>
      let '(status, m) := mysql_close_cont lib in_event (mysql_ c) in
      Some (go_next_state status CLOSE_WAIT CLOSE_DONE (set_mysql m c))
  | CLOSE_DONE =>
      Some (false, set_state CONNECT_DONE (notify OnConnectionClosed (clean_up (set_ready false c))))
  | _ => None
  end.

Definition HandleStateIDLE (c : conn) : option (bool * conn) :=
  match query_list_ c with
  | [] => Some (schedule_close_ c, if schedule_close_ c then set_state CLOSE_START c else c)
  | q :: l =>
      match in_process_ c with
      | Some _ => None
      | None =>
          let c := set_queries (Some q) l (completed c) c in
          if negb (bool_decide (db_name_ q = [])) && negb (bool_decide (db_name_ q = last_selected_db_ c)) then Some (true, set_state SELECT_DB_START c)
          else Some (true, set_state QUERY_START c)
      end
  end.

(** One turn of the loop of [HandleState]: whether it goes on. *)
Definition step (in_event : Z) (c : conn) : option (bool * conn) :=
  match current_state_ c with
  | CONNECT_START | CONNECT_WAIT | CONNECT_DONE | CLOSE_START | CLOSE_WAIT | CLOSE_DONE => HandleStateConnect in_event c
  | CONNECTION_IDLE => HandleStateIDLE c
  | SELECT_DB_START | SELECT_DB_WAIT | SELECT_DB_DONE => HandleStateSelectDB in_event c
  | QUERY_START =>
      q ← in_process_ c;
      if bool_decide (query_ q = []) then Some (true, set_state CONNECTION_IDLE (DoneCurrentQuery (-9999) (str "empty query") c))
      else
        let '(err_no, status, m) := mysql_real_query_start lib (query_ q) (mysql_ c) in
        let c := set_mysql m c in
        Some (if err_no =? 0 then go_next_state status QUERY_WAIT QUERY_RESULT_READY c else fail_query err_no c)
  | QUERY_WAIT =>
      _ ← in_process_ c;
      let '(err_no, status, m) := mysql_real_query_cont lib in_event (mysql_ c) in
      let c := set_mysql m c in
      Some (if err_no_ c =? 0 then go_next_state status QUERY_WAIT QUERY_RESULT_READY c else fail_query err_no c)
  | QUERY_RESULT_READY =>
      _ ← in_process_ c;
      let '(r, m) := mysql_use_result lib (mysql_ c) in
      let c := set_result r (set_mysql m c) in
      Some (if r then go_next_state 0 FETCH_ROW_START FETCH_ROW_START c else fail_query (mysql_errno lib m) c)
  | FETCH_ROW_START =>
      let '(row, status, m) := mysql_fetch_row_start lib (mysql_ c) in
      Some (go_next_state status FETCH_ROW_WAIT FETCH_ROW_RESULT_READY (set_row row (set_mysql m c)))
  | FETCH_ROW_WAIT =>
      let '(row, status, m) := mysql_fetch_row_cont lib in_event (mysql_ c) in
      Some (go_next_state status FETCH_ROW_WAIT FETCH_ROW_RESULT_READY (set_row row (set_mysql m c)))
  | FETCH_ROW_RESULT_READY =>
      q ← in_process_ c;
      if negb (result_ c) then None else
      match result_row_ c with
      | None =>
          let code := mysql_errno lib (mysql_ c) in
          let message := if code =? 0 then [] else mysql_error lib (mysql_ c) in
          let c := set_queries (Some (SetResultRows (mysql_num_rows lib (mysql_ c)) q)) (query_list_ c) (completed c) c in
          Some (true, set_state CONNECTION_IDLE (DoneCurrentQuery code message c))
      | Some row =>
          let q := if bool_decide (colum_names_ q = []) then set_headers (mysql_fetch_fields lib (mysql_ c)) q else q in
          let q := PendingRow (default (str "NULL") <$> row) q in
          Some (go_next_state 0 FETCH_ROW_START FETCH_ROW_START (set_queries (Some q) (query_list_ c) (completed c) c))
      end
  | STATE_NONE | CONNECT_INIT => None
  end.

Inductive outcome := Crash | NoFuel (c : conn) | Waits (c : conn).
Fixpoint HandleState (fuel : nat) (in_event : Z) (c : conn) : outcome :=
  match fuel with
  | O => NoFuel c
  | S fuel' =>
      match step in_event c with
      | None => Crash
      | Some (true, c') => HandleState fuel' in_event c'
      | Some (false, c') => Waits c'
      end
  end.

(** ** The calls *)

Definition reset_wait_event (c : conn) : option conn :=
  match fd_event_ c with None => None | Some _ => Some (set_wait (Some (false, false)) false c) end.

Definition OnTimeOut (fuel : nat) (c : conn) : outcome :=
  match reset_wait_event c with None => Crash | Some c => HandleState fuel MYSQL_WAIT_TIMEOUT c end.
Definition OnWaitEventInvoked (fuel : nat) (read write error : bool) (c : conn) : outcome :=
  match reset_wait_event c with None => Crash | Some c => HandleState fuel (LtEvToMysqlStatus read write error) c end.

Definition StartQuery (fuel : nat) (q : QuerySession) (c : conn) : outcome :=
  let c := set_queries (in_process_ c) (query_list_ c ++ [q]) (completed c) c in
  if bool_decide (current_state_ c = CONNECTION_IDLE) && (if in_process_ c then false else true) then HandleState fuel 0 c else Waits c.

Definition Close (fuel : nat) (c : conn) : outcome :=
  let c := set_schedule true c in
  if (if in_process_ c then false else true) && bool_decide (current_state_ c = QUERY_START) then HandleState fuel 0 c else Waits c.

Definition do_connection_check (c : conn) : conn :=
  let '(r, m) := mysql_ping lib (mysql_ c) in
  let c := set_ready (r =? 0) (set_mysql m c) in
  if r =? 0 then c else set_schedule true c.

(** [Connect] without the [PostTask], and the posted task. *)
Definition Connect_ (c : conn) : conn := set_state CONNECT_START c.
Definition SyncConnect (c : conn) : bool * conn :=
  let '(r, m) := mysql_real_connect lib (mysql_ c) in
  let c := set_ret r (set_mysql m c) in
  if r then (true, set_state CONNECTION_IDLE (set_ready true c)) else (false, c).
Definition SyncClose (c : conn) : conn :=
  let c := set_ready false (clean_up c) in
  set_state CLOSE_DONE (set_mysql (mysql_close lib (mysql_ c)) c).
(** [InitConnection] on a new object, whose [err_no_] has the value it has. *)
Definition InitConnection (garbage : Z) (m : M) (dbname : text) : conn :=
  mkConnect M garbage CONNECT_INIT m false false None None false false false [] None [] dbname [] [].
End Machine.

(** ** MysqlAsyncClientImpl::get_client *)

(** The connections as what [IsReady] says of them; the index of the one taken. *)
Fixpoint get_client (fuel : nat) (connections : list bool) (use_index round : Z) : option (option nat * Z) :=
  match fuel with
  | O => None
  | S fuel' =>
      let use_index := i32 (use_index + 1) in
      let round := round + 1 in
      let i := Z.to_nat (u64 use_index mod zlen connections) in
      match connections !! i with
      | None => None
      | Some true => Some (Some i, use_index)
      | Some false =>
          let con_is_null := false in
          if con_is_null && (round <? zlen connections) then get_client fuel' connections use_index round
          else Some (None, use_index)
      end
  end.
End Mysql.
