(* ===== verification/MysqlProofs.v ===== *)
(** * The asynchronous MySQL connection: proofs and theorems *)
From stdpp Require Import list.
From S2P Require Import Prelude MysqlConnect.
Import Mysql.

Module MysqlProofs.
Section Proofs.
Context {M : Type} (lib : Lib M).

(** The states in which a query is being processed. *)
Definition busy (s : State) : bool :=
  match s with
  | SELECT_DB_START | SELECT_DB_WAIT | SELECT_DB_DONE | QUERY_START | QUERY_WAIT | QUERY_RESULT_READY
  | FETCH_ROW_START | FETCH_ROW_WAIT | FETCH_ROW_RESULT_READY => true
  | _ => false
  end.
Definition fetching (s : State) : bool :=
  match s with FETCH_ROW_START | FETCH_ROW_WAIT | FETCH_ROW_RESULT_READY => true | _ => false end.
Definition started (s : State) : bool := match s with STATE_NONE | CONNECT_INIT => false | _ => true end.

Record inv (c : Connect M) : Prop := {
  i_started : started (current_state_ c) = true;
  i_busy : if busy (current_state_ c) then is_Some (in_process_ c) else in_process_ c = None;
  i_result : fetching (current_state_ c) = true -> result_ c = true }.

(** The queries in the order of their completion, the present and the future ones. *)
Definition order (c : Connect M) : list nat :=
  session_id <$> completed c ++ option_list (in_process_ c) ++ query_list_ c.

Lemma inv_wait (c : Connect M) fd b : inv c -> inv (set_wait fd b c).
Proof. by intros []. Qed.

(** Going on, to a state of the same kind. *)
Lemma go_ok st w n (c : Connect M) : started w = true -> started n = true ->
  busy w = busy n -> (fetching w = true \/ fetching n = true -> result_ c = true) ->
  (if busy n then is_Some (in_process_ c) else in_process_ c = None) ->
  exists b c', go_next_state st w n c = (b, c') /\ inv c' /\ order c' = order c.
Proof.
  intros Hw Hn Hbn Hr Hb; unfold go_next_state; destruct (st =? 0); eexists _, _; (split; [done|]); (split; [constructor; cbn|done]); auto; by rewrite Hbn.
Qed.

Lemma done_ok code msg c q : in_process_ c = Some q ->
  order (DoneCurrentQuery lib code msg c) = order c /\ in_process_ (DoneCurrentQuery lib code msg c) = None.
Proof.
  intros E; unfold DoneCurrentQuery; rewrite E; split; [|done]; unfold order; cbn; rewrite E; cbn.
  rewrite !fmap_app, <- app_assoc; cbn; by destruct (code =? 0).
Qed.
Lemma fail_ok code c q : in_process_ c = Some q -> exists c', fail_query lib code c = (true, c') /\ inv c' /\ order c' = order c.
Proof.
  intros E; eexists; split; [done|]; destruct (done_ok code (mysql_error lib (mysql_ c)) c q E) as [Ho Hn].
  split; [|exact Ho]; constructor; cbn; destruct (IsFatalError code); cbn; done.
Qed.
Lemma clean_ok (c : Connect M) : order (clean_up c) = order c /\ in_process_ (clean_up c) = None.
Proof.
  assert (forall l, session_id <$> ((fun q => SetCode (-1) (str "closed") q) <$> l) = session_id <$> l) as Hc by (intros l; by rewrite <- list_fmap_compose).
  split; [|done]; unfold order, clean_up; destruct (fd_event_ c); cbn [completed in_process_ query_list_ set_wait set_queries option_list]; rewrite !app_nil_r, !fmap_app, Hc; by destruct (in_process_ c).
Qed.

Ltac went := match goal with |- context [go_next_state ?st ?w ?n ?c] =>
  destruct (go_ok st w n c) as (? & ? & -> & ? & ?); [done|done|done|first [by intros [|]|by intros _; cbn; auto]|cbn; eauto|]; eexists _, _; split; [reflexivity|]; split; [assumption|]; match goal with H : order _ = order _ |- _ => exact H end end.
Ltac failed := match goal with |- context [fail_query lib ?code ?c] =>
  destruct (fail_ok code c _ ltac:(eassumption)) as (? & -> & ? & ?); eexists _, _; split; [reflexivity|]; split; [assumption|]; match goal with H : order _ = order _ |- _ => exact H end end.

Lemma connect_ok ev c : inv c -> busy (current_state_ c) = false -> current_state_ c <> CONNECTION_IDLE ->
  exists b c', HandleStateConnect lib ev c = Some (b, c') /\ inv c' /\ order c' = order c.
Proof.
  intros [Hs Hb Hr] Hn Hi; rewrite Hn in Hb; unfold HandleStateConnect; destruct (current_state_ c); try done.
  - destruct (mysql_real_connect_start lib _) as [[r st] m]; went.
  - destruct (mysql_real_connect_cont lib _ _) as [[r st] m]; went.
  - destruct (mysql_ret_ c); eexists _, _; (split; [done|]); by split.
  - destruct (mysql_close_start lib _) as [st m]; went.
  - destruct (mysql_close_cont lib _ _) as [st m]; went.
  - eexists _, _; split; [done|]; destruct (clean_ok (set_ready false c)) as [Ho Hp]; split; [|exact Ho]; by constructor.
Qed.

Lemma select_ok ev c q : inv c -> in_process_ c = Some q -> (current_state_ c = SELECT_DB_START \/ current_state_ c = SELECT_DB_WAIT \/ current_state_ c = SELECT_DB_DONE) ->
  exists b c', HandleStateSelectDB lib ev c = Some (b, c') /\ inv c' /\ order c' = order c.
Proof.
  intros Hi Hq Hst; unfold HandleStateSelectDB; rewrite Hq; destruct Hst as [->|[->| ->]].
  - destruct (mysql_select_db_start lib _ _) as [[e st] m]; destruct (e =? 0); [went|failed].
  - destruct (mysql_select_db_cont lib _ _) as [[e st] m]; destruct (e =? 0); [went|failed].
  - case_bool_decide; eexists _, _; (split; [done|]); [|split; [constructor; cbn; eauto; done|done]].
    destruct (done_ok 0 (str "db change success") (set_db (db_name_ q) c) q Hq) as [Ho Hn]; split; [by constructor|exact Ho].
Qed.

Lemma idle_ok c : inv c -> current_state_ c = CONNECTION_IDLE -> exists b c', HandleStateIDLE c = Some (b, c') /\ inv c' /\ order c' = order c.
Proof.
  intros [Hs Hb Hr] Hst; rewrite Hst in *; cbn in Hb; unfold HandleStateIDLE; destruct (query_list_ c) as [|q l] eqn:El.
  - eexists _, _; split; [done|]; destruct (schedule_close_ c); (split; [constructor; cbn; rewrite ?Hst; done|done]).
  - rewrite Hb; destruct (_ && _); eexists _, _; (split; [done|]); (split; [constructor; cbn; eauto; done|]); unfold order; cbn; by rewrite El, Hb.
Qed.

(** A turn of the loop never fails, and neither loses nor reorders a query. *)
Lemma mysql_step_ok ev c : inv c -> exists b c', step lib ev c = Some (b, c') /\ inv c' /\ order c' = order c.
Proof.
  intros Hi; pose proof Hi as [Hs Hb Hr]; unfold step; destruct (current_state_ c) eqn:Es; cbn in Hs, Hb, Hr; try done;
    try (apply connect_ok; [done|by rewrite Es|by rewrite Es]); try (destruct Hb as [q Hq]).
  - by apply idle_ok.
  - by apply (select_ok ev c q); auto.
  - by apply (select_ok ev c q); auto.
  - by apply (select_ok ev c q); auto.
  - rewrite Hq; cbn [mbind option_bind]; case_bool_decide.
    + eexists _, _; split; [done|]; destruct (done_ok (-9999) (str "empty query") c q Hq) as [Ho Hn]; split; [by constructor|exact Ho].
    + destruct (mysql_real_query_start lib _ _) as [[e st] m]; destruct (e =? 0); [went|failed].
  - rewrite Hq; cbn [mbind option_bind]; destruct (mysql_real_query_cont lib _ _) as [[e st] m]; destruct (err_no_ _ =? 0); [went|failed].
  - rewrite Hq; cbn [mbind option_bind]; destruct (mysql_use_result lib _) as [[] m]; [went|failed].
  - destruct (mysql_fetch_row_start lib _) as [[r st] m]; went.
  - destruct (mysql_fetch_row_cont lib _ _) as [[r st] m]; went.
  - rewrite Hq, (Hr eq_refl); cbn [mbind option_bind negb]; destruct (result_row_ c) as [row|].
    + set (q' := PendingRow _ _); destruct (go_ok 0 FETCH_ROW_START FETCH_ROW_START (set_queries (Some q') (query_list_ c) (completed c) c)) as (b & c' & -> & Hi' & Ho); [done|done|done|intros _; by apply Hr|cbn; eauto|].
      eexists _, _; split; [done|]; split; [done|]; assert (session_id q' = session_id q) as Hid by (unfold q'; by case_bool_decide).
      rewrite Ho; clearbody q'; unfold order; cbn [completed in_process_ query_list_ set_queries option_list]; rewrite Hq, !fmap_app; cbn; by rewrite Hid.
    + set (q' := SetResultRows _ _); set (c1 := set_queries (Some q') (query_list_ c) (completed c) c); eexists _, _; split; [done|].
      destruct (done_ok (mysql_errno lib (mysql_ c)) (if mysql_errno lib (mysql_ c) =? 0 then [] else mysql_error lib (mysql_ c)) c1 q' eq_refl) as [Ho Hn]; split; [by constructor|].
      etransitivity; [exact Ho|]; unfold order; cbn [c1 completed in_process_ query_list_ set_queries option_list]; rewrite Hq, !fmap_app; done.
Qed.

Lemma handle_ok fuel ev : forall c, inv c ->
  match HandleState lib fuel ev c with Crash => False | NoFuel c' | Waits c' => inv c' /\ order c' = order c end.
Proof.
  induction fuel as [|fuel IH]; intros c Hi; cbn; [done|]; destruct (mysql_step_ok ev c Hi) as (b & c' & -> & Hi' & Ho).
  destruct b; [|done]; specialize (IH c' Hi'); destruct (HandleState lib fuel ev c'); [done|..]; by rewrite <- Ho.
Qed.

(** ** Sequences of calls *)

Inductive call := CStart (q : QuerySession) | CTimeOut | CEvent (read write error : bool) | CClose | CCheck | CSyncClose.

(** A timer or the descriptor only calls when they are installed. *)
Definition enabled (a : call) (c : Connect M) : Prop :=
  match a with CTimeOut | CEvent _ _ _ => is_Some (fd_event_ c) | _ => True end.
Definition run_call (fuel : nat) (a : call) (c : Connect M) : outcome :=
  match a with
  | CStart q => StartQuery lib fuel q c
  | CTimeOut => OnTimeOut lib fuel c
  | CEvent r w e => OnWaitEventInvoked lib fuel r w e c
  | CClose => Close lib fuel c
  | CCheck => Waits (do_connection_check lib c)
  | CSyncClose => Waits (SyncClose lib c)
  end.
Definition asked (a : call) : list nat := match a with CStart q => [session_id q] | _ => [] end.

Lemma call_ok fuel a c : inv c -> enabled a c ->
  match run_call fuel a c with Crash => False | NoFuel c' | Waits c' => inv c' /\ order c' = order c ++ asked a end.
Proof.
  intros Hi He; pose proof Hi as [Hs Hb Hr]; destruct a as [q| |r w e| | |]; cbn [run_call asked enabled] in *; rewrite ?app_nil_r.
  - unfold StartQuery; set (c1 := set_queries _ _ _ c).
    assert (inv c1) as H1 by done; assert (order c1 = order c ++ [session_id q]) as Ho by (unfold order, c1; cbn; by rewrite !fmap_app, !app_assoc).
    destruct (_ && _); [|done]; pose proof (handle_ok fuel 0 c1 H1) as Hh; destruct (HandleState _ _ _ _); [done|..]; by rewrite <- Ho.
  - destruct He as [fd Hfd]; unfold OnTimeOut, reset_wait_event; rewrite Hfd; by apply (handle_ok fuel MYSQL_WAIT_TIMEOUT (set_wait _ _ c)).
  - destruct He as [fd Hfd]; unfold OnWaitEventInvoked, reset_wait_event; rewrite Hfd; by apply (handle_ok fuel (LtEvToMysqlStatus r w e) (set_wait _ _ c)).
  - unfold Close; destruct (_ && _); [|done]; by apply (handle_ok fuel 0 (set_schedule true c)).
  - unfold do_connection_check; destruct (mysql_ping lib _) as [r m]; by destruct (r =? 0).
  - destruct (clean_ok c) as [Ho Hn]; split; [|exact Ho]; by constructor.
Qed.

(** The states of a connection and the queries it was given. *)
Inductive reach : list nat -> Connect M -> Prop :=
| reach_sync garbage m db c : SyncConnect lib (InitConnection garbage m db) = (true, c) -> reach [] c
| reach_async garbage m db fuel c : HandleState lib fuel 0 (Connect_ (InitConnection garbage m db)) = Waits c -> reach [] c
| reach_call l c fuel a c' : reach l c -> enabled a c -> run_call fuel a c = Waits c' -> reach (l ++ asked a) c'.

Lemma reach_inv l c : reach l c -> inv c /\ order c = l.
Proof.
  induction 1 as [g m db c E|g m db fuel c E|l c fuel a c' _ [Hi Ho] He E].
  - unfold SyncConnect in E; destruct (mysql_real_connect lib _) as [[] m']; [|done]; injection E as <-; split; [by constructor|done].
  - assert (inv (Connect_ (InitConnection g m db))) as Hi by (by constructor); pose proof (handle_ok fuel 0 _ Hi) as Hh; rewrite E in Hh; destruct Hh as [H1 H2]; split; [done|exact H2].
  - pose proof (call_ok fuel a c Hi He) as Hh; rewrite E in Hh; destruct Hh as [H1 H2]; split; [done|by rewrite H2, Ho].
Qed.
End Proofs.
End MysqlProofs.

Module MysqlTheorems.
Import MysqlProofs.

(** C23.  At every moment the queries that were completed, the one in process and the ones
    that wait are, in this order, the queries given to [StartQuery]: each is completed
    at most once, in order, and none is lost; and no call fails a check. *)
Theorem queries_in_order {M} (lib : Lib M) (l : list nat) (c : Connect M) : reach lib l c ->
  session_id <$> completed c ++ option_list (in_process_ c) ++ query_list_ c = l /\
  forall fuel a, enabled a c -> run_call lib fuel a c <> Crash.
Proof.
  intros H; destruct (reach_inv lib l c H) as [Hi Ho]; split; [exact Ho|]; intros fuel a He E; pose proof (call_ok lib fuel a c Hi He) as Hc; by rewrite E in Hc.
Qed.

(** The rows the library gives, each with the state it leaves. *)
Inductive Fetches {M} (lib : Lib M) : M -> list (raw_row * M) -> M -> Prop :=
| Fetches_end m m' : mysql_fetch_row_start lib m = (None, 0, m') -> Fetches lib m [] m'
| Fetches_row m r m' rs m'' : mysql_fetch_row_start lib m = (Some r, 0, m') -> Fetches lib m' rs m'' -> Fetches lib m ((r, m') :: rs) m''.

(** The text of a row. *)
Definition shown (r : raw_row) : list text := default (str "NULL") <$> r.

Lemma fetch_loop {M} (lib : Lib M) m rs m' : Fetches lib m rs m' -> forall c q fuel, mysql_ c = m -> current_state_ c = FETCH_ROW_START -> in_process_ c = Some q ->
  result_ c = true -> query_list_ c = [] -> schedule_close_ c = false -> mysql_errno lib m' = 0 -> (2 * length rs + 3 <= fuel)%nat ->
  exists c' q', HandleState lib fuel 0 c = Waits c' /\ current_state_ c' = CONNECTION_IDLE /\ in_process_ c' = None /\ query_list_ c' = [] /\
    completed c' = completed c ++ [q'] /\ results_ q' = results_ q ++ (shown ∘ fst <$> rs) /\ code_ q' = code_ q /\ session_id q' = session_id q /\
    result_count_ q' = i32 (mysql_num_rows lib m').
Proof.
  induction 1 as [m m' E|m r m' rs m'' E HF IH]; intros c q fuel Hm Hs Hp Hr Hl Hc He Hfuel; cbn [length] in Hfuel.
  - do 3 (destruct fuel as [|fuel]; [lia|]); cbn [HandleState]; unfold step at 1; rewrite Hs, Hm, E; cbn [go_next_state Z.eqb].
    unfold step at 1; cbn; rewrite Hp; cbn; rewrite Hr; cbn; rewrite He; cbn; unfold HandleStateIDLE; cbn; rewrite Hl, Hc; eexists _, _; split; [done|]; cbn; rewrite ?app_nil_r; done.
  - do 2 (destruct fuel as [|fuel]; [lia|]); cbn [HandleState]; unfold step at 1; rewrite Hs, Hm, E; cbn [go_next_state Z.eqb].
    unfold step at 1; cbn; rewrite Hp; cbn; rewrite Hr; cbn.
    set (q1 := PendingRow _ _); match goal with |- context [HandleState lib fuel 0 ?x] => set (c1 := x) end.
    destruct (IH c1 q1 fuel) as (c' & q' & E1 & H1 & H2 & H3 & H4 & H5 & H6 & H7 & H8); try done; [lia|].
    exists c', q'; split_and!; try done.
    + rewrite H5; unfold q1; case_bool_decide; cbn; by rewrite <- app_assoc.
    + rewrite H6; unfold q1; by case_bool_decide.
    + rewrite H7; unfold q1; by case_bool_decide.
Qed.

(** A query given to an idle connection, whose library answers without waiting, is
    completed before [StartQuery] returns with the rows the library gives, in order, a
    null field as the text NULL, and with the code zero. *)
Theorem query_rows_exact {M} (lib : Lib M) (c : Connect M) (q : QuerySession) (m1 m2 m3 : M) (rs : list (raw_row * M)) (fuel : nat) :
  current_state_ c = CONNECTION_IDLE -> in_process_ c = None -> query_list_ c = [] -> schedule_close_ c = false ->
  (db_name_ q = [] \/ db_name_ q = last_selected_db_ c) -> query_ q <> [] -> results_ q = [] -> code_ q = 0 ->
  mysql_real_query_start lib (query_ q) (mysql_ c) = (0, 0, m1) -> mysql_use_result lib m1 = (true, m2) ->
  Fetches lib m2 rs m3 -> mysql_errno lib m3 = 0 -> (2 * length rs + 6 <= fuel)%nat ->
  exists c' q', StartQuery lib fuel q c = Waits c' /\ current_state_ c' = CONNECTION_IDLE /\ completed c' = completed c ++ [q'] /\
    session_id q' = session_id q /\ results_ q' = shown ∘ fst <$> rs /\ code_ q' = 0 /\ result_count_ q' = i32 (mysql_num_rows lib m3).
Proof.
  intros Hs Hp Hl Hc Hdb Hq Hr Hcode E1 E2 HF He Hfuel; unfold StartQuery; cbn [current_state_ in_process_ set_queries]; rewrite Hs, Hp, Hl; cbn [app].
  rewrite bool_decide_eq_true_2 by done; cbn [andb]; do 3 (destruct fuel as [|fuel]; [lia|]); cbn [HandleState].
  unfold step at 1; cbn [current_state_ set_queries]; rewrite Hs; unfold HandleStateIDLE; cbn [query_list_ in_process_ set_queries last_selected_db_].
  assert (negb (bool_decide (db_name_ q = [])) && negb (bool_decide (db_name_ q = last_selected_db_ c)) = false) as -> by (destruct Hdb as [E|E]; rewrite (bool_decide_eq_true_2 _ E); [done|by rewrite andb_false_r]).
  unfold step at 1; cbn; rewrite bool_decide_eq_false_2, E1 by done; cbn; rewrite E2; cbn.
  match goal with |- context [HandleState lib fuel 0 ?x] => set (c1 := x) end.
  destruct (fetch_loop lib m2 rs m3 HF c1 q fuel) as (c' & q' & E3 & H1 & _ & _ & H4 & H5 & H6 & H7 & H8); try done; [lia|].
  exists c', q'; split_and!; try done; [by rewrite H5, Hr|congruence].
Qed.

(** A library that gives two rows to every query. *)
Definition ex_lib : Lib nat :=
  mkLib nat (fun m => (true, 0, m)) (fun _ m => (true, 0, m)) (fun m => (true, m)) (fun m => (0, m)) (fun _ m => (0, m)) (fun m => m)
    (fun _ m => (0, 0, m)) (fun _ m => (0, 0, m)) (fun _ m => (0, 0, 2%nat)) (fun _ m => (2013, 0, m)) (fun m => (true, m))
    (fun m => match m with O => (None, 0, O) | S k => (Some [Some (str "a"); None], 0, k) end) (fun _ m => (None, 0, m))
    (fun _ => [str "x"; str "y"]) (fun _ => 0) (fun _ => []) (fun _ => 2) (fun _ => 0) (fun m => (0, m)).
Definition ex_conn : Connect nat := (SyncConnect ex_lib (InitConnection 0 O (str "db"))).2.

(** That connection after its first query. *)
Definition ex_session : QuerySession := new_session 5 [] (str "select").
Definition ex_ran : Connect nat :=
  Eval vm_compute in match run_call ex_lib 20 (CStart ex_session) ex_conn with Waits c => c | _ => ex_conn end.
Lemma ex_ran_reach : reach ex_lib [5%nat] ex_ran.
Proof.
  apply (reach_call ex_lib [] ex_conn 20 (CStart ex_session)); [eapply (reach_sync ex_lib 0 O (str "db")); reflexivity|done|vm_compute; reflexivity].
Qed.

Lemma queries_in_order_witness : reach ex_lib [5%nat] ex_ran /\ session_id <$> completed ex_ran ++ option_list (in_process_ ex_ran) ++ query_list_ ex_ran = [5%nat].
Proof. split; [exact ex_ran_reach|apply (queries_in_order ex_lib _ _ ex_ran_reach)]. Defined.

Lemma query_rows_exact_witness :
  exists c' q', StartQuery ex_lib 20 (new_session 5 [] (str "select")) ex_conn = Waits c' /\ completed c' = [q'] /\ results_ q' = [[str "a"; str "NULL"]; [str "a"; str "NULL"]].
Proof.
  destruct (query_rows_exact ex_lib ex_conn (new_session 5 [] (str "select")) 2%nat 2%nat O [([Some (str "a"); None], 1%nat); ([Some (str "a"); None], O)] 20)
    as (c' & q' & E & _ & H & _ & R & _); try reflexivity; [by left|done| |cbn; lia|exists c', q'; split; [exact E|split; [exact H|exact R]]].
  apply (Fetches_row ex_lib 2%nat _ 1%nat); [reflexivity|]; apply (Fetches_row ex_lib 1%nat _ O); [reflexivity|]; by apply (Fetches_end ex_lib O O).
Defined.

(** ** What the code does not do *)

(** The error of a query that had to wait is not the one that is tested: the member
    [err_no_], which is never assigned, is.  When it is zero the error is lost and the
    machine goes on to the rows; when it is not, a query that succeeded is completed
    without its rows. *)
Theorem query_wait_error_ignored {M} (lib : Lib M) (c : Connect M) q ev err m :
  current_state_ c = QUERY_WAIT -> in_process_ c = Some q -> mysql_real_query_cont lib ev (mysql_ c) = (err, 0, m) ->
  exists c', step lib ev c = Some (true, c') /\
  if err_no_ c =? 0 then current_state_ c' = QUERY_RESULT_READY /\ completed c' = completed c
  else exists q', completed c' = completed c ++ [q'] /\ results_ q' = results_ q.
Proof.
  intros Hs Hp E; unfold step; rewrite Hs, Hp; cbn [mbind option_bind]; rewrite E; cbn [err_no_ set_mysql]; destruct (err_no_ c =? 0); [eexists; by split|].
  unfold fail_query, DoneCurrentQuery; cbn [in_process_ set_mysql]; rewrite Hp; eexists; split; [done|]; cbn; eexists; split; [done|]; by destruct (err =? 0).
Qed.

Definition waiting_conn : Connect nat := set_state QUERY_WAIT (set_queries (Some (new_session 5 [] (str "select"))) [] [] ex_conn).
Lemma query_wait_error_ignored_witness : exists c', step ex_lib 1 waiting_conn = Some (true, c') /\ current_state_ c' = QUERY_RESULT_READY /\ completed c' = [].
Proof. apply (query_wait_error_ignored ex_lib waiting_conn (new_session 5 [] (str "select")) 1 2013 O); reflexivity. Defined.

(** [Close] on a connection only notes that it is to be closed: the state it looks for
    is never that of a connection without a query in process.  An idle connection
    stays open until the next query. *)
Theorem close_does_nothing {M} (lib : Lib M) (l : list nat) (c : Connect M) (fuel : nat) : reach lib l c -> Close lib fuel c = Waits (set_schedule true c).
Proof.
  intros H; destruct (reach_inv lib l c H) as [[_ Hb _] _]; unfold Close; cbn [in_process_ current_state_ set_schedule].
  destruct (in_process_ c) eqn:E; [done|]; rewrite bool_decide_eq_false_2; [done|]; intros Es; rewrite Es in Hb; by destruct Hb.
Qed.

Lemma close_does_nothing_witness : Close ex_lib 20 ex_conn = Waits (set_schedule true ex_conn).
Proof. apply (close_does_nothing ex_lib [] ex_conn 20); eapply (reach_sync ex_lib 0 O (str "db")); reflexivity. Defined.

(** A query given to a connection that was closed is kept and not completed. *)
Theorem query_after_close_waits {M} (lib : Lib M) (c : Connect M) (q : QuerySession) (fuel : nat) : current_state_ c = CONNECT_DONE \/ current_state_ c = CLOSE_DONE ->
  exists c', StartQuery lib fuel q c = Waits c' /\ query_list_ c' = query_list_ c ++ [q] /\ completed c' = completed c.
Proof.
  intros Hs; unfold StartQuery; cbn [current_state_ set_queries]; rewrite bool_decide_eq_false_2 by (destruct Hs as [-> | ->]; done); by eexists.
Qed.

Lemma query_after_close_waits_witness : exists c', StartQuery ex_lib 20 (new_session 6 [] (str "select")) (SyncClose ex_lib ex_conn) = Waits c' /\ completed c' = [].
Proof.
  destruct (query_after_close_waits ex_lib (SyncClose ex_lib ex_conn) (new_session 6 [] (str "select")) 20 ltac:(right; reflexivity)) as (c' & E & _ & H).
  exists c'; split; [exact E|exact H].
Defined.

(** Of several connections one is tried: the loop goes on only while the pointer is
    null, and it is not. *)
Theorem one_connection_tried : get_client 10 [true; false; true] 0 0 = Some (None, 1).
Proof. vm_compute; done. Qed.
End MysqlTheorems.
